(* ===== verification/_CoqProject ===== *)
-Q . S2P
Prelude.v
Floats.v
IntArith.v
Crc32.v
IntervalSet.v
Allocator.v
Device.v
AvlAllocator.v
AvlAllocatorProofs.v
AvlAllocate.v
AvlSpec.v
BitmapAllocator.v
BitmapBits.v
BitmapLevel1.v
BitmapLevel2.v
BitmapAllocate.v
BitmapSpec.v
BitmapClaim.v
BitmapProps.v
HybridAllocator.v
HybridSpec.v
BtierTypes.v
KeyMap.v
ExtentMap.v
ExtentSpace.v
ExtentMapSpec.v
Journal.v
JournalSpec.v
Layout.v
Config.v
Scoring.v
Migration.v
Engine.v
EngineInv.v
EnginePut.v
EngineSpec.v
Findings.v
KeyValue.v
PrefixIterator.v
MemDB.v
Freelist.v
FreelistBits.v
FreelistSpec.v
FreelistEnum.v
FreelistDemo.v
BlueStoreSpace.v
Denc.v
DencSpec.v
BluefsTypes.v
BluefsTypesSpec.v
VolumeSelector.v
VolumeSelectorSpec.v
BlueFS.v
BlueFSOps.v
BlueFSNodes.v
BlueFSLive.v
BlueFSLog.v
BlueFSReplay.v
BlueFSSync.v
BlueFSDurable.v
BlueFSDemo.v
BlueFSFindings.v
Armor.v
Throttle.v
UseTracker.v
UseTrackerSpec.v
Blob.v
BlobSpec.v
BlobUnused.v
BlobDenc.v
Lextent.v
LextentSpec.v
Deferred.v
DeferredSpec.v
DeferredDrain.v
BufferCache.v
BufferCacheSpec.v
ObjectIO.v
ObjectRead.v
ObjectFindings.v
