(* ===== verification/Prelude.v ===== *)
(** * A verification of cxxlab, a storage stack in C++

    The repository builds a storage stack in layers:
    - [src/common]: integers, checksums, interval sets, buffers, encodings;
    - [src/blk]: block devices and the free-space allocators;
    - [src/kv], [src/bluefs], [src/bluestore]: key-value stores, a log-structured
      file system and an object store on top of a device;
    - [src/btier]: a key-value engine over a fast and a slow device, with a
      write-ahead journal, extents that keys are packed into, a background
      engine that migrates and compacts extents, and a heat score.

    This library models the parts below as executable definitions, one file or
    module per component, and proves what makes each of them correct.  A
    definition follows the function it names; the comment above it says where it
    comes from when the name does not.

    ** Conventions

    A [w]-bit unsigned integer is a [Z] with its wrap-around written out
    ([+64], [-32], [u32], ...).  Bytes are [Z], byte strings are [list Z].
    A failed assertion, an exception or a call through a null pointer is [None];
    an [int] result below 0 is [-errno].  Shared objects that the code reaches
    through pointers are fields of the state that an operation takes and returns.
    A public method that holds its object's lock is one step.  Interfaces are
    classes of operations with a class of laws; clients are proved against the
    laws and implementations discharge them.

    ** Files

    - [Prelude]: machine integers, byte order, loops with a bound, sums, ranges,
      tactics.  [Floats]: IEEE 754 numbers.  [IntArith]: [common/intarith.h].
    - [Armor]: [common/armor.cc], base64, with its round trip.  [Throttle]:
      [common/throttle.cc], the steps of its callers and waiters, and executions
      of them: fairness, progress and the limit.
    - [Crc32]: [common/crc32.cc].  The table-driven CRC is the bit-wise one, it
      detects every change of one byte, and the ISA-L build agrees with it.
    - [IntervalSet]: [common/interval_set.h].  A normal form of sets of points;
      [insert] and [erase] are union and difference.
    - [Allocator]: [blk/allocator.h] as a class with its contract, and the stronger
      ones of allocators from which ranges can be removed.
      [AvlAllocator] models [blk/avl_allocator.cc]; [AvlAllocatorProofs],
      [AvlAllocate] and [AvlSpec] prove it correct and discharge the contract.
    - [BitmapAllocator]: [blk/bitmap_allocator.cc], a bitmap with two levels of
      summaries.  [BitmapBits], [BitmapLevel1], [BitmapLevel2] and [BitmapAllocate]
      prove its levels from the bottom up, [BitmapSpec] discharges the contract for
      devices whose top level is one word, [BitmapClaim] is about the claims of
      neighbouring space and the enumeration (module [BitmapForeach]), and
      [BitmapProps] states what holds of the whole.
    - [HybridAllocator]: [blk/hybrid_allocator.cc], AVL trees with a limit that
      spill to a bitmap.  [HybridSpec]: the contract, from those of its parts.
    - [Device]: the synchronous part of [blk/block_device.h] with its contract,
      and a device in memory that meets it.
    - [BtierTypes], [KeyMap], [ExtentMap], [Journal], [Config], [Scoring],
      [Migration], [Engine]: one file per source file of [src/btier].
    - [ExtentSpace] and [ExtentMapSpec]: extents never overlap, the grace period
      of freed space, slots, and the generation check of migrations.
      [JournalSpec]: encoding and crash recovery, and that the journal stays in its
      region.  [Layout], [EngineInv], [EnginePut], [EngineSpec]: the
      engine is a map from keys to values.  [Findings]: runs that show where the
      code does not do what it means to.
    - [KeyValue]: the interface of [kv/key_value_db.h], its transactions and
      [kv/merge_op], as a class of operations with its laws.  [PrefixIterator]:
      the iterator over one prefix of [kv/key_value_db.cc], proved against the
      laws of the iterator below it.  [MemDB]: [kv/mem/mem_db.cc], which meets both.
    - [Freelist]: [bluestore/bitmap_freelist_manager.cc] over any [KeyValue]
      store.  [FreelistBits]: which bit belongs to which block.  [FreelistSpec]:
      creation, allocation and release flip the bits of their blocks, and a
      manager is opened with the geometry it was created with.  [FreelistEnum]:
      the enumeration returns the maximal free runs.  [FreelistDemo]: a run.
    - [BlueStoreSpace]: what [bluestore/bluestore.cc] does with space: [mkfs],
      the commit of allocations and releases, and the mount that fills an
      allocator; for every store and allocator that meet their contracts the
      allocator of a mount holds what was not allocated.
    - [UseTracker] and [Blob]: the blobs of [bluestore/bluestore_types.{h,cc}] and
      [bluestore/blob.{h,cc}], with the counters of their references.
      [UseTrackerSpec]: the counters are exact.  [BlobSpec]: addresses, splits,
      checksums and what goes wrong.  [BlobUnused]: the bitmap of unwritten parts.
      [BlobDenc]: the encodings.
    - [Lextent]: [bluestore/extent_map.{h,cc}], the extents of an object over a
      store of blobs.  [LextentSpec]: as a map from the bytes of the object to
      those of blobs, punching, setting and compressing are exact.
    - [Deferred]: [bluestore/deferred_writer.{h,cc}].  [DeferredSpec]: in a batch
      the last write wins.  [DeferredDrain]: no wake-up is lost, whatever the order
      of the threads and of the device.
    - [BufferCache]: [bluestore/buffer_cache.{h,cc}], the buffers of all blobs and
      the list that trims them.  [BufferCacheSpec]: a cached byte is the one that
      was stored last, and no pointer dangles unless an empty buffer is stored.
    - [ObjectIO]: reading, writing and zeroing the bytes of an object in
      [bluestore/bluestore.cc], over [Lextent], [Blob] and [BufferCache].
      [ObjectRead]: a read returns the bytes of the object or an error of the
      device or of a checksum, if the cache agrees with the disk.
      [ObjectFindings]: where the write path goes wrong.
    - [Denc]: the encodings of [common/denc.h], each with the bound on its size.
      [DencSpec]: they are read back as they were written, within the bound.
    - [BluefsTypes]: [bluefs/bluefs_types.{h,cc}], the file nodes, the
      superblock and the transactions of the file system.  [BluefsTypesSpec]:
      their encodings, the search of an offset, and the deltas of file nodes.
    - [VolumeSelector]: [bluefs/bluefs_volume_selector.{h,cc}], which device a
      file goes to.  [VolumeSelectorSpec]: what is counted per level and device.
    - [BlueFS] and [BlueFSOps]: [bluefs/bluefs.{h,cc}], the file system: its
      state, log, superblock, replay and mount in the first, the operations on
      files and directories in the second.  [BlueFSNodes]: names and file nodes,
      what a logged operation does to them, and that replaying agrees.
      [BlueFSLive]: the calls against a specification on names.  [BlueFSLog]:
      bytes of a file on its devices.  [BlueFSReplay]: the replay of a log.
      [BlueFSSync]: the invariant of a mounted file system, and the flush of the
      log.  [BlueFSDurable]: a sync followed by a mount restores the names and
      nodes.  [BlueFSDemo]: a file system in memory.  [BlueFSFindings]: what
      does not work.

    ** Loops and fuel

    [while] runs a loop of at most [2^n] iterations; [while_spec] gives its
    result from an invariant and a measure that decreases, so theorems about
    loops include that they end.  The bound is [2^64], the largest number of
    iterations a 64-bit counter allows, and [2^128] where a search starts again for
    every extent.  [Journal.parse] and
    [IntervalSet.erase_loop] take a fuel that is one more than the length of what
    they consume, and every iteration consumes something.

    ** Not modelled

    Threads and locks beyond the granularity above, the layout of intrusive
    trees and reference-counted buffers in memory, log output, statistics for
    humans, and the parsing of configuration files.  RocksDB, ISA-L, libaio and
    the operating system are outside the repository.  [blk/kernel_device] and
    [blk/aio] are system calls; the classes of [Device] state what their callers
    rely on.  Of the objects of [bluestore], the blobs, the extents, the deferred
    writes, the buffer cache and the path of data are modelled; onodes, collections,
    removal, attributes, omaps and the states of transactions, a graph of
    reference-counted objects and threads, are left out.  Which components are
    modelled in part is recorded per component in the manifest.  The contract of
    the bitmap and hybrid allocators is proved for requests in units of the block
    size; what larger units do is shown by [BitmapProps.bitmap_unit_leaks_space]. *)
From stdpp Require Import base numbers list gmap.
From Stdlib Require Import ZArith Lia.

#[global] Open Scope Z_scope.

(** ** Machine integers

    A [w]-bit unsigned integer of the C++ source is a [Z] in [0 .. 2^w-1];
    arithmetic on it is arithmetic of [Z] followed by [wrap w]. *)
Definition wrap (w x : Z) : Z := x mod 2 ^ w.

Definition u8 (x : Z) : Z := wrap 8 x.
Definition u32 (x : Z) : Z := wrap 32 x.
Definition u64 (x : Z) : Z := wrap 64 x.

(** Conversion of a 64-bit pattern to [int64_t] (two's complement). *)
Definition i64 (x : Z) : Z :=
  let y := u64 x in if y <? 2 ^ 63 then y else y - 2 ^ 64.

(** [~x] on [uint64_t]. *)
Definition not64 (x : Z) : Z := u64 (Z.lnot x).

(** Range predicate of a [w]-bit unsigned integer. *)
Definition uint (w x : Z) : Prop := 0 <= x < 2 ^ w.
#[global] Instance uint_dec w x : Decision (uint w x).
Proof. unfold uint. apply _. Defined.

(** A byte string: each element is a [uint8_t]. *)
Abbreviation bytes := (list Z).

Declare Scope cxx_scope.
Delimit Scope cxx_scope with cxx.
Notation "a +64 b" := (u64 (a + b)) (at level 50, left associativity) : cxx_scope.
Notation "a -64 b" := (u64 (a - b)) (at level 50, left associativity) : cxx_scope.
Notation "a *64 b" := (u64 (a * b)) (at level 40, left associativity) : cxx_scope.
Notation "a +32 b" := (u32 (a + b)) (at level 50, left associativity) : cxx_scope.
Notation "a -32 b" := (u32 (a - b)) (at level 50, left associativity) : cxx_scope.
#[global] Open Scope cxx_scope.

Lemma wrap_small w x : uint w x -> wrap w x = x.
Proof. unfold uint, wrap. intros. by apply Z.mod_small. Qed.

Lemma wrap_range w x : 0 <= w -> uint w (wrap w x).
Proof. intros. unfold uint, wrap. apply Z.mod_pos_bound. lia. Qed.

Lemma u64_small x : 0 <= x < 2 ^ 64 -> u64 x = x.
Proof. apply wrap_small. Qed.
Lemma u32_small x : 0 <= x < 2 ^ 32 -> u32 x = x.
Proof. apply wrap_small. Qed.
Lemma u64_range x : 0 <= u64 x < 2 ^ 64.
Proof. by apply (wrap_range 64). Qed.
Lemma i64_small x : - 2 ^ 63 <= x < 2 ^ 63 -> i64 x = x.
Proof.
  intros Hx. unfold i64. destruct (Z.ltb_spec x 0).
  - assert (u64 x = x + 2 ^ 64) as -> by (symmetry; apply (Z.mod_unique _ _ (-1)); lia).
    destruct (Z.ltb_spec (x + 2 ^ 64) (2 ^ 63)); lia.
  - rewrite u64_small by lia. destruct (Z.ltb_spec x (2 ^ 63)); lia.
Qed.
Lemma u32_range x : 0 <= u32 x < 2 ^ 32.
Proof. by apply (wrap_range 32). Qed.
Lemma u8_range x : 0 <= u8 x < 2 ^ 8.
Proof. by apply (wrap_range 8). Qed.

(** [u64] absorbs an inner [u64]: only the final value has to be in range. *)
Lemma u64_add_l a b : u64 (u64 a + b) = u64 (a + b).
Proof. unfold u64, wrap. apply Z.add_mod_idemp_l. lia. Qed.
Lemma u64_add_r a b : u64 (a + u64 b) = u64 (a + b).
Proof. unfold u64, wrap. apply Z.add_mod_idemp_r. lia. Qed.
Lemma u64_sub_l a b : u64 (u64 a - b) = u64 (a - b).
Proof. unfold u64, wrap. by rewrite Zminus_mod_idemp_l. Qed.
Lemma u64_sub_r a b : u64 (a - u64 b) = u64 (a - b).
Proof. unfold u64, wrap. by rewrite Zminus_mod_idemp_r. Qed.
Lemma u64_u64 a : u64 (u64 a) = u64 a.
Proof. unfold u64, wrap. apply Z.mod_mod. lia. Qed.

Lemma u64_add_m a b c : u64 (a + u64 b + c) = u64 (a + b + c).
Proof. by rewrite <- u64_add_l, u64_add_r, u64_add_l. Qed.

(** The C++ [cxxlab_assert]: a failed assertion aborts the program, which the
    models report as [None]. *)
Definition cxxlab_assert (b : bool) : option unit := if b then Some tt else None.

(** The rest of a computation, without looking into it. *)
Lemma some_bind {A B} (x : A) (k : A -> option B) : (Some x ≫= k) = k x.
Proof. done. Qed.
Lemma mjoin_some {A} (x : option A) : mjoin (Some x) = x.
Proof. done. Qed.
Ltac bind := rewrite some_bind; cbv iota beta.

(** Error codes the code returns. *)
Definition ENOENT : Z := 2.
Definition EIO : Z := 5.
Definition ENOSPC : Z := 28.

(** The all-ones sentinel [-1ULL] / [UINT64_MAX]. *)
Definition UINT64_MAX : Z := 2 ^ 64 - 1.
Definition UINT32_MAX : Z := 2 ^ 32 - 1.

(** ** Loops

    A C++ [while] whose trip count is not structural is [loop n step s]: [step]
    returns [inl] of the next state or [inr] of the exit value, and [loop n]
    runs it at most [2^n] times.  [n = 64] is therefore enough fuel for every
    loop with a measure of 64-bit width, and the definitions stay executable:
    the recursion stops at the first [inr]. *)
Section Loop.
Context {S R : Type} (step : S -> S + R).

Fixpoint loop (n : nat) (s : S) : S + R :=
    match n with
    | O => step s
    | Datatypes.S n' =>
        match loop n' s with
        | inl s' => loop n' s'
        | inr r => inr r
        end
    end.

Definition while (n : nat) (s : S) : option R :=
    match loop n s with inl _ => None | inr r => Some r end.

Lemma while_inr n s r : step s = inr r -> while n s = Some r.
Proof.
      intros E. unfold while. enough (loop n s = inr r) as -> by done.
      induction n as [|n IH]; simpl; [done|]. by rewrite IH.
Qed.

Section Rules.
Context (I : S -> Prop) (m : S -> Z) (Q : R -> Prop).
Context (Hstep : forall s, I s ->
      match step s with
      | inl s' => I s' /\ 0 <= m s' < m s
      | inr r => Q r
      end).

Lemma loop_inv n s : I s ->
      match loop n s with
      | inl s' => I s' /\ 0 <= m s' /\ m s' + 2 ^ Z.of_nat n <= m s
      | inr r => Q r
      end.
Proof using Hstep.
      revert s. induction n as [|n IH]; intros s Hs; simpl loop.
      - specialize (Hstep s Hs). destruct (step s) as [s'|r]; [|done].
        change (2 ^ Z.of_nat 0) with 1. destruct Hstep as [? ?]. repeat split; try done; lia.
      - specialize (IH s Hs) as H1. destruct (loop n s) as [s'|r]; [|done].
        destruct H1 as (Hs' & Hp & Hm). specialize (IH s' Hs') as H2.
        destruct (loop n s') as [s''|r]; [|done].
        destruct H2 as (? & ? & ?). repeat split; try done.
        rewrite Nat2Z.inj_succ, Z.pow_succ_r by lia. lia.
Qed.

(** Total correctness of [while]: the invariant [I] is kept, the measure
[m] decreases, and [2^n] iterations bound it. *)
Lemma while_spec n s :
      I s -> m s < 2 ^ Z.of_nat n -> exists r, while n s = Some r /\ Q r.
Proof using Hstep.
      intros Hs Hm. pose proof (loop_inv n s Hs) as H. unfold while.
      destruct (loop n s) as [s'|r]; [lia|eauto].
Qed.
End Rules.

(** A loop whose invariant implies that it goes on has no result. *)
Lemma while_diverges (I : S -> Prop) n s :
      (forall s, I s -> exists s', step s = inl s' /\ I s') -> I s -> while n s = None.
Proof.
      intros Hstep Hs. unfold while. enough (exists s', loop n s = inl s' /\ I s') as (s' & -> & _) by done.
      revert s Hs. induction n as [|n IH]; intros s Hs; simpl; [by apply Hstep|].
      destruct (IH s Hs) as (s1 & -> & H1). by apply IH.
Qed.
End Loop.

(** A loop whose body may fail an assertion, [None]. *)
Definition fallible {S R} (body : S -> option (S + R)) (s : S) : S + option R :=
  match body s with None => inr None | Some (inl s) => inl s | Some (inr r) => inr (Some r) end.

Definition whileM {S R} (body : S -> option (S + R)) (n : nat) (s : S) : option R :=
  mjoin (while (fallible body) n s).

Lemma whileM_spec {S R} (body : S -> option (S + R)) (I : S -> Prop) (m : S -> Z) (Q : R -> Prop) n s :
  (forall s, I s -> exists x, body s = Some x /\ match x with inl s' => I s' /\ 0 <= m s' < m s | inr r => Q r end) ->
  I s -> m s < 2 ^ Z.of_nat n -> exists r, whileM body n s = Some r /\ Q r.
Proof.
  intros Hb Hs Hm.
  destruct (while_spec (fallible body) I m (fun o => exists r, o = Some r /\ Q r)) with (n := n) (s := s)
    as (o & E & r & -> & Hq); try done.
  - intros s' Hs'. destruct (Hb s' Hs') as (x & E & Hx). unfold fallible. rewrite E.
    destruct x as [s''|r]; [done|]. by exists r.
  - exists r. split; [|done]. unfold whileM. by rewrite E.
Qed.

(** [for (i = lo; i < hi; ++i)] with a body that may fail. *)
Fixpoint for_loop {S} (n : nat) (i : Z) (f : Z -> S -> option S) (s : S) : option S :=
  match n with O => Some s | Datatypes.S n => s ← f i s; for_loop n (i + 1) f s end.

Definition for_ {S} (lo hi : Z) (f : Z -> S -> option S) (s : S) : option S :=
  for_loop (Z.to_nat (hi - lo)) lo f s.

Lemma for_spec {S} lo hi (f : Z -> S -> option S) (I : Z -> S -> Prop) s :
  (forall i s, lo <= i < hi -> I i s -> exists s', f i s = Some s' /\ I (i + 1) s') ->
  lo <= hi -> I lo s -> exists s', for_ lo hi f s = Some s' /\ I hi s'.
Proof.
  unfold for_. intros Hf Hle Hs. remember (Z.to_nat (hi - lo)) as n eqn:En.
  revert lo s Hf Hle Hs En. induction n as [|n IH]; intros lo s Hf Hle Hs En; simpl.
  - exists s. split; [done|]. by replace hi with lo by lia.
  - destruct (Hf lo s ltac:(lia) Hs) as (s1 & -> & H1). simpl.
    apply (IH (lo + 1)); try done; try lia. intros i s2 Hi. apply Hf. lia.
Qed.

(** ** Bits *)

Lemma lor_disjoint x y n : 0 <= n -> 0 <= x < 2 ^ n -> Z.lor x (y * 2 ^ n) = x + y * 2 ^ n.
Proof.
  intros Hn Hx. symmetry. rewrite <- Z.shiftl_mul_pow2 by done. rewrite <- Z.add_lor_land.
  enough (Z.land x (Z.shiftl y n) = 0) as -> by lia.
  apply Z.bits_inj'. intros i Hi. rewrite Z.land_spec, Z.bits_0.
  destruct (decide (i < n)).
  - by rewrite Z.shiftl_spec_low, andb_false_r by lia.
  - destruct (decide (x = 0)) as [->|]; [by rewrite Z.bits_0|].
    rewrite Z.bits_above_log2; [done|lia|].
    apply Z.log2_lt_pow2; [lia|]. pose proof (Z.pow_le_mono_r 2 n i). lia.
Qed.

(** ** Little-endian bytes of unsigned integers *)

Fixpoint le_bytes (n : nat) (x : Z) : bytes :=
  match n with O => [] | S n => x mod 256 :: le_bytes n (x / 256) end.

Fixpoint le_val (bs : bytes) : Z :=
  match bs with [] => 0 | b :: t => b + 256 * le_val t end.

Lemma length_le_bytes n x : length (le_bytes n x) = n.
Proof. revert x. induction n; intros x; simpl; [done|]. by f_equal. Qed.

Lemma le_val_bytes n x : le_val (le_bytes n x) = x mod 2 ^ (8 * Z.of_nat n).
Proof.
  revert x. induction n as [|n IH]; intros x; cbn [le_bytes le_val]; [by rewrite Z.mod_1_r|].
  rewrite IH, Nat2Z.inj_succ. replace (8 * Z.succ (Z.of_nat n)) with (8 + 8 * Z.of_nat n) by lia.
  rewrite Z.pow_add_r by lia. change (2 ^ 8) with 256. rewrite Z.rem_mul_r by lia. done.
Qed.

Lemma le_bytes_range n x : Forall (fun b => 0 <= b < 256) (le_bytes n x).
Proof.
  revert x. induction n as [|n IH]; intros x; simpl; constructor; [|done].
  apply Z.mod_pos_bound. lia.
Qed.

(** ** Iterators

    [span p l] is the position of the first element that satisfies [p] in the
    ordered container [l]: what precedes it, and the rest. *)
Fixpoint span {A} (p : A -> bool) (l : list A) : list A * list A :=
  match l with
  | [] => ([], [])
  | a :: t => if p a then ([], l) else let '(x, y) := span p t in (a :: x, y)
  end.

Lemma span_spec {A} (p : A -> bool) l x y :
  span p l = (x, y) ->
  l = x ++ y /\ Forall (fun a => p a = false) x /\
  match y with [] => True | a :: _ => p a = true end.
Proof.
  revert x y. induction l as [|a t IH]; intros x y; simpl.
  - intros [= <- <-]. done.
  - destruct (p a) eqn:E; [intros [= <- <-]; done|].
    destruct (span p t) as [x' y'] eqn:E'. intros [= <- <-].
    destruct (IH _ _ eq_refl) as (-> & H1 & H2). split_and!; try done. by constructor.
Qed.

(** Removal of one element by value, as [erase(node)] does. *)
Fixpoint remove_one {A} `{EqDecision A} (x : A) (l : list A) : list A :=
  match l with
  | [] => []
  | a :: t => if decide (a = x) then t else a :: remove_one x t
  end.

Lemma remove_one_perm {A} `{EqDecision A} (x : A) (l : list A) :
  x ∈ l -> l ≡ₚ x :: remove_one x l.
Proof.
  induction l as [|a t IH]; simpl; [by intros ?%not_elem_of_nil|].
  intros [->|Hx]%elem_of_cons; case_decide; subst; try done.
  rewrite (IH Hx) at 1. apply perm_swap.
Qed.

Lemma remove_one_app {A} `{EqDecision A} (x : A) (l1 l2 : list A) :
  x ∉ l1 -> remove_one x (l1 ++ x :: l2) = l1 ++ l2.
Proof.
  induction l1 as [|a t IH]; simpl; intros Hx.
  - by rewrite decide_True.
  - rewrite decide_False by set_solver. rewrite IH; [done|set_solver].
Qed.

(** ** Sums of integer lists *)
Definition sumZ {A} (f : A -> Z) (l : list A) : Z := foldr (fun a acc => f a + acc) 0 l.

Lemma sumZ_nil {A} (f : A -> Z) : sumZ f [] = 0.
Proof. done. Qed.
Lemma sumZ_cons {A} (f : A -> Z) a l : sumZ f (a :: l) = f a + sumZ f l.
Proof. done. Qed.
Lemma sumZ_app {A} (f : A -> Z) l1 l2 : sumZ f (l1 ++ l2) = sumZ f l1 + sumZ f l2.
Proof. induction l1; simpl; [done|]. unfold sumZ in *. simpl. lia. Qed.
Lemma sumZ_nonneg {A} (f : A -> Z) l : Forall (fun a => 0 <= f a) l -> 0 <= sumZ f l.
Proof. induction 1; [done|]. rewrite sumZ_cons. lia. Qed.
Lemma sumZ_Permutation {A} (f : A -> Z) l1 l2 : l1 ≡ₚ l2 -> sumZ f l1 = sumZ f l2.
Proof. induction 1; rewrite ?sumZ_cons; lia. Qed.

(** ** Byte ranges as sets

    [zrange off len] is the set of the points [off .. off+len-1]; it is what a
    range of the code denotes in the specifications. *)
Definition zrange (off len : Z) : gset Z := list_to_set (seqZ off len).

Lemma elem_of_zrange off len x : x ∈ zrange off len <-> off <= x < off + len.
Proof. unfold zrange. rewrite elem_of_list_to_set, elem_of_seqZ. done. Qed.

Lemma size_zrange off len : 0 <= len -> Z.of_nat (size (zrange off len)) = len.
Proof.
  intros. unfold zrange. rewrite size_list_to_set by apply NoDup_seqZ.
  rewrite length_seqZ. lia.
Qed.

#[global] Instance set_unfold_zrange off len x :
  SetUnfoldElemOf x (zrange off len) (off <= x < off + len).
Proof. constructor. apply elem_of_zrange. Qed.

Lemma zrange_split a b c : a <= b <= c -> zrange a (c - a) = zrange a (b - a) ∪ zrange b (c - b).
Proof. intros. apply set_eq. intros x. rewrite elem_of_union, !elem_of_zrange. lia. Qed.

#[global] Opaque zrange.

(** ** Automation *)
Create HintDb cxx.
Create Rewrite HintDb cxx.

(** Boolean comparisons of the code to propositions, everywhere. *)
Ltac zbool :=
  repeat match goal with
  | H : (_ && _)%bool = true |- _ => apply andb_prop in H; destruct H
  | H : (_ && _)%bool = false |- _ => apply andb_false_iff in H
  | H : (_ || _)%bool = true |- _ => apply orb_prop in H
  | H : (_ || _)%bool = false |- _ => apply orb_false_elim in H; destruct H
  | H : negb _ = true |- _ => apply negb_true_iff in H
  | H : negb _ = false |- _ => apply negb_false_iff in H
  | H : (_ <? _) = true |- _ => apply Z.ltb_lt in H
  | H : (_ <? _) = false |- _ => apply Z.ltb_ge in H
  | H : (_ <=? _) = true |- _ => apply Z.leb_le in H
  | H : (_ <=? _) = false |- _ => apply Z.leb_gt in H
  | H : (_ =? _) = true |- _ => apply Z.eqb_eq in H
  | H : (_ =? _) = false |- _ => apply Z.eqb_neq in H
  end.

(** Split every [if] and [match] of the goal, keeping the equations. *)
Ltac split_ifs := repeat (case_match; zbool; try done).

(** Remove [u64]/[u32] around an expression that [lia] shows in range. *)
Ltac unwrap64 :=
  repeat match goal with
  | |- context [u64 ?x] => rewrite (u64_small x) by lia
  | |- context [u32 ?x] => rewrite (u32_small x) by lia
  end.
Ltac unwrap64_in H :=
  repeat match type of H with
  | context [u64 ?x] => rewrite (u64_small x) in H by lia
  | context [u32 ?x] => rewrite (u32_small x) in H by lia
  end.

#[export] Hint Rewrite u64_add_l u64_add_r u64_add_m u64_sub_l u64_sub_r u64_u64 : cxx.
#[export] Hint Resolve u64_range u32_range u8_range : cxx.
