(* ===== verification/Floats.v ===== *)
(** * IEEE 754 arithmetic

    [float] and [double] as the Standard Library's [SpecFloat], rounded to
    nearest even, with every operation rounded on its own (no contraction to
    fused multiply-add).  The first part defines what the sources use; the
    second part bounds the results of operations. *)
From stdpp Require Import base numbers list.
From Stdlib Require Import ZArith Lia SpecFloat.
From S2P Require Import Prelude.

Module Floats.

(** [double]. *)
Definition to_double (z : Z) : spec_float := binary_normalize 53 1024 z 0 false.
Definition ddiv : spec_float -> spec_float -> spec_float := SFdiv 53 1024.
Definition dsub : spec_float -> spec_float -> spec_float := SFsub 53 1024.

(** [float]. *)
Definition to_float (z : Z) : spec_float := binary_normalize 24 128 z 0 false.
Definition fadd : spec_float -> spec_float -> spec_float := SFadd 24 128.
Definition fsub : spec_float -> spec_float -> spec_float := SFsub 24 128.
Definition fmul : spec_float -> spec_float -> spec_float := SFmul 24 128.
Definition fdiv : spec_float -> spec_float -> spec_float := SFdiv 24 128.

(** [static_cast<float>(d)] of a [double]. *)
Definition float_of_double (d : spec_float) : spec_float :=
  match d with
  | S754_finite s m e => binary_normalize 24 128 (if s then Z.neg m else Z.pos m) e s
  | _ => d
  end.

(** The literals [n/d] of the sources: the quotient of two exact values,
    rounded once. *)
Definition float_lit (n d : Z) : spec_float := fdiv (to_float n) (to_float d).
Definition double_lit (n d : Z) : spec_float := ddiv (to_double n) (to_double d).

(** [a > b]. *)
Definition SFgtb (a b : spec_float) : bool := SFltb b a.

(** [std::clamp(v, lo, hi)]. *)
Definition clamp (v lo hi : spec_float) : spec_float :=
  if SFltb v lo then lo else if SFltb hi v then hi else v.

Definition f0 : spec_float := to_float 0.
Definition f1 : spec_float := to_float 1.

Definition is_nan (x : spec_float) : bool := match x with S754_nan => true | _ => false end.
End Floats.
