(* ===== verification/IntArith.v ===== *)
(** * common/intarith.h: rounding, power-of-two alignment and bit counting

    The templates are instantiated by the rest of the code at unsigned types
    ([uint64_t], [uint32_t], [size_t]) or at [int64_t] values that are not
    negative; the width [w] of [make_unsigned_t<common_type_t<T, U>>] is a
    parameter of the definitions here and every operation wraps at it. *)
From stdpp Require Import base numbers list.
From Stdlib Require Import ZArith Lia.
From S2P Require Import Prelude.

Module IntArith.

Section Ops.
Context (w : Z).

(** ** Basic rounding *)
Definition div_round_up (n d : Z) : Z :=
  if n =? 0 then 0 else wrap w (1 + (n - 1) / d).

Definition round_down_to (n d : Z) : Z := wrap w (n - n mod d).

Definition round_up_to (n d : Z) : Z :=
  let rem := n mod d in
  if rem =? 0 then n else wrap w (n + (d - rem)).

Definition shift_round_up (x y : Z) : Z :=
  Z.shiftr (wrap w (wrap w (x + Z.shiftl 1 y) - 1)) y.

(** ** Power-of-two alignment *)
Definition isp2 (x : Z) : bool := (0 <? x) && (Z.land x (wrap w (x - 1)) =? 0).

Definition p2align (x align : Z) : Z := Z.land x (wrap w (- align)).

Definition p2phase (x align : Z) : Z := Z.land x (wrap w (align - 1)).

Definition p2nphase (x align : Z) : Z := Z.land (wrap w (- x)) (wrap w (align - 1)).

Definition p2roundup (x align : Z) : Z :=
  wrap w (- Z.land (wrap w (- x)) (wrap w (- align))).

(** ** Bit counting *)
Fixpoint pos_ctz (p : positive) : Z :=
  match p with xO q => 1 + pos_ctz q | _ => 0 end.

Definition ctz (v : Z) : Z :=
  match v with Zpos p => pos_ctz p | _ => w end.

Definition clz (v : Z) : Z :=
  match v with Zpos _ => w - (Z.log2 v + 1) | _ => w end.

Definition cbits (v : Z) : Z :=
  if v =? 0 then 0 else Z.log2 v + 1.

Fixpoint pos_popcount (p : positive) : Z :=
  match p with
  | xH => 1
  | xO q => pos_popcount q
  | xI q => 1 + pos_popcount q
  end.

Definition popcount (v : Z) : Z :=
  match v with Zpos p => pos_popcount p | _ => 0 end.

(** ** Lemmas *)

Lemma wrap_neg_pow2 k : 0 <= k <= w -> wrap w (- 2 ^ k) = Z.shiftl (Z.ones (w - k)) k.
Proof.
  intros Hk. rewrite Z.shiftl_mul_pow2, Z.ones_equiv by lia.
  assert (2 ^ w = 2 ^ (w - k) * 2 ^ k) as Hw by (rewrite <-Z.pow_add_r by lia; f_equal; lia).
  assert (0 < 2 ^ k) by lia. assert (0 < 2 ^ (w - k)) by lia.
  assert (0 <= - 2 ^ k + 1 * 2 ^ w < 2 ^ w) by (rewrite Hw; nia).
  unfold wrap. rewrite <- (Z.mod_add _ 1) by lia.
  rewrite Z.mod_small by done. lia.
Qed.

Lemma p2align_spec x k :
  0 <= k <= w -> uint w x -> p2align x (2 ^ k) = 2 ^ k * (x / 2 ^ k).
Proof.
  intros Hk Hx. unfold p2align. rewrite wrap_neg_pow2 by lia.
  rewrite (Z.mul_comm (2 ^ k)), <- Z.shiftl_mul_pow2, <- Z.shiftr_div_pow2 by lia.
  apply Z.bits_inj'. intros i Hi. rewrite Z.land_spec, !Z.shiftl_spec by lia.
  destruct (Z.ltb_spec i k).
  - rewrite !(Z.testbit_neg_r _ (i - k)) by lia. by rewrite andb_false_r.
  - rewrite Z.shiftr_spec by lia. rewrite Z.sub_add.
    destruct (Z.ltb_spec i w).
    + rewrite Z.ones_spec_low by lia. by rewrite andb_true_r.
    + rewrite Z.ones_spec_high by lia. rewrite andb_false_r. symmetry.
      rewrite <- (wrap_small w x) by done. unfold wrap.
      apply Z.mod_pow2_bits_high. lia.
Qed.

Lemma p2phase_spec x k : 0 <= k < w -> p2phase x (2 ^ k) = x mod 2 ^ k.
Proof.
  intros Hk. unfold p2phase. rewrite wrap_small.
  - rewrite <- Z.land_ones by lia. by rewrite Z.ones_equiv.
  - pose proof (Z.pow_lt_mono_r 2 k w). unfold uint. lia.
Qed.

Lemma wrap_mod_pow2 x k : 0 <= k <= w -> wrap w x mod 2 ^ k = x mod 2 ^ k.
Proof.
  intros Hk. unfold wrap. apply Z.mod_mod_divide.
  exists (2 ^ (w - k)). rewrite <- Z.pow_add_r by lia. f_equal. lia.
Qed.

Lemma p2nphase_spec x k : 0 <= k < w -> p2nphase x (2 ^ k) = (- x) mod 2 ^ k.
Proof.
  intros Hk. unfold p2nphase. fold (p2phase (wrap w (- x)) (2 ^ k)).
  rewrite p2phase_spec by done. by apply wrap_mod_pow2; lia.
Qed.

(** [p2roundup] is the next multiple of the alignment, modulo [2^w]. *)
Lemma p2roundup_wrap x k :
  0 <= k <= w -> uint w x -> p2roundup x (2 ^ k) = wrap w (2 ^ k * ((x + 2 ^ k - 1) / 2 ^ k)).
Proof.
  intros Hk Hx. unfold p2roundup. fold (p2align (wrap w (- x)) (2 ^ k)).
  rewrite p2align_spec by (try done; apply wrap_range; lia).
  assert (0 < 2 ^ k) by lia.
  assert (exists q, wrap w (- x) = - x + q * 2 ^ w) as [q Hq].
  { exists (- (- x / 2 ^ w)). unfold wrap. pose proof (Z.div_mod (- x) (2 ^ w)). lia. }
  assert (2 ^ w = 2 ^ (w - k) * 2 ^ k) as Hw by (rewrite <-Z.pow_add_r by lia; f_equal; lia).
  rewrite Hq, Hw.
  replace (- x + q * (2 ^ (w - k) * 2 ^ k)) with (- x + (q * 2 ^ (w - k)) * 2 ^ k) by lia.
  rewrite Z.div_add by lia.
  replace ((x + 2 ^ k - 1) / 2 ^ k) with (- (- x / 2 ^ k)).
  - unfold wrap. rewrite Z.mul_add_distr_l, Z.opp_add_distr.
    replace (- (2 ^ k * (q * 2 ^ (w - k)))) with ((- q) * 2 ^ w) by (rewrite Hw; lia).
    rewrite Z.mod_add by lia. f_equal. lia.
  - pose proof (Z.div_mod x (2 ^ k)). pose proof (Z.mod_pos_bound x (2 ^ k)).
    pose proof (Z.div_mod (- x) (2 ^ k)). pose proof (Z.mod_pos_bound (- x) (2 ^ k)).
    apply Z.div_unique with (r := (x + 2 ^ k - 1) - 2 ^ k * (- (- x / 2 ^ k))); lia.
Qed.

Lemma ceil_mul_bounds x a :
  0 < a -> x <= a * ((x + a - 1) / a) < x + a.
Proof.
  intros. pose proof (Z.div_mod (x + a - 1) a). pose proof (Z.mod_pos_bound (x + a - 1) a). lia.
Qed.

(** In the absence of overflow [p2roundup] is the least multiple above [x]. *)
Lemma p2roundup_spec x k :
  0 <= k <= w -> 0 <= x -> x + 2 ^ k - 1 < 2 ^ w ->
  p2roundup x (2 ^ k) = 2 ^ k * ((x + 2 ^ k - 1) / 2 ^ k).
Proof.
  intros Hk Hx Ho. pose proof (ceil_mul_bounds x (2 ^ k)).
  rewrite p2roundup_wrap by (unfold uint; lia). apply wrap_small. unfold uint. lia.
Qed.

Lemma isp2_pow2 k : 0 <= k < w -> isp2 (2 ^ k) = true.
Proof.
  intros Hk. unfold isp2. rewrite wrap_small.
  - replace (2 ^ k - 1) with (Z.ones k) by (rewrite Z.ones_equiv; lia).
    rewrite Z.land_ones, Z.mod_same by lia.
    apply andb_true_intro; split; [apply Z.ltb_lt; lia|done].
  - pose proof (Z.pow_lt_mono_r 2 k w). unfold uint. lia.
Qed.

Lemma isp2_inv x : uint w x -> isp2 x = true -> x = 2 ^ Z.log2 x /\ 0 <= Z.log2 x < w.
Proof.
  unfold isp2, uint. intros Hx H. zbool.
  assert (0 <= w) by (destruct (Z.ltb_spec w 0); [rewrite Z.pow_neg_r in Hx by done; lia|done]).
  pose proof (Z.log2_spec x ltac:(lia)) as Hl. pose proof (Z.log2_nonneg x) as Hn.
  assert (Z.log2 x < w) as Hw by (apply Z.log2_lt_pow2; lia).
  split; [|lia]. destruct (Z.eq_dec x (2 ^ Z.log2 x)) as [|Hne]; [done|exfalso].
  rewrite wrap_small in H0 by (unfold uint; lia).
  apply (f_equal (fun y => Z.testbit y (Z.log2 x))) in H0.
  rewrite Z.bits_0, Z.land_spec, Z.bit_log2 in H0 by lia. simpl in H0.
  apply not_true_iff_false in H0. apply H0. rewrite Z.testbit_true by lia.
  replace ((x - 1) / 2 ^ Z.log2 x) with 1; [done|].
  apply Z.div_unique with (r := x - 1 - 2 ^ Z.log2 x); rewrite Z.pow_succ_r in Hl by lia; lia.
Qed.

Lemma pos_ctz_spec p : exists q, Zpos p = (2 * q + 1) * 2 ^ pos_ctz p /\ 0 <= pos_ctz p.
Proof.
  induction p as [p _|p (q & Hq & Hn)|]; simpl pos_ctz.
  - exists (Zpos p). lia.
  - exists q. rewrite Z.pow_add_r by lia. change (2 ^ 1) with 2. lia.
  - exists 0. lia.
Qed.

Lemma odd_multiple_testbit q t : 0 <= t -> Z.testbit ((2 * q + 1) * 2 ^ t) t = true.
Proof.
  intros. rewrite Z.testbit_true by lia. rewrite Z.div_mul by lia.
  rewrite (Z.mul_comm 2), Z.add_comm, Z_mod_plus_full. done.
Qed.

(** The lowest set bit, [x & -x], of a non-zero word is not zero. *)
Lemma lowbit_nonzero x : 0 < x < 2 ^ w -> 0 <= w -> Z.land x (wrap w (- x)) <> 0.
Proof.
  intros Hx Hw E. destruct x as [|p|p]; try lia.
  destruct (pos_ctz_spec p) as (q & Hq & Ht). set (t := pos_ctz p) in *.
  assert (t < w) as Htw.
  { assert (0 < 2 ^ t) by lia. assert (0 < 2 * q + 1) by nia.
    apply (Z.pow_lt_mono_r_iff 2); [lia..|]. nia. }
  apply (f_equal (fun y => Z.testbit y t)) in E.
  rewrite Z.land_spec, Z.bits_0 in E. unfold wrap in E.
  rewrite Z.mod_pow2_bits_low in E by lia.
  replace (- Zpos p) with ((2 * (- q - 1) + 1) * 2 ^ t) in E by lia.
  rewrite Hq, !odd_multiple_testbit in E by done. done.
Qed.

Lemma round_up_to_spec n d :
  0 <= n -> 0 < d -> n + d - 1 < 2 ^ w -> round_up_to n d = d * ((n + d - 1) / d).
Proof.
  intros Hn Hd Ho. unfold round_up_to. pose proof (Z.div_mod n d). pose proof (Z.mod_pos_bound n d).
  destruct (Z.eqb_spec (n mod d) 0) as [E|E].
  - replace ((n + d - 1) / d) with (n / d); [lia|].
    apply Z.div_unique with (r := d - 1); lia.
  - rewrite wrap_small by (unfold uint; lia).
    replace ((n + d - 1) / d) with (n / d + 1); [lia|].
    apply Z.div_unique with (r := n mod d - 1); lia.
Qed.

Lemma div_round_up_spec n d :
  0 <= n < 2 ^ w -> 0 < d -> div_round_up n d = (n + d - 1) / d.
Proof.
  intros Hn Hd. unfold div_round_up. destruct (Z.eqb_spec n 0) as [->|E].
  - symmetry. apply Z.div_small. lia.
  - assert (0 <= (n - 1) / d <= n - 1).
    { split; [apply Z.div_pos; lia|]. apply Z.div_le_upper_bound; nia. }
    rewrite wrap_small by (unfold uint; lia).
    replace (n + d - 1) with ((n - 1) + 1 * d) by lia. rewrite Z.div_add by lia. lia.
Qed.

Lemma shift_round_up_spec x y :
  0 <= y < w -> 0 <= x -> x + 2 ^ y < 2 ^ w -> shift_round_up x y = (x + 2 ^ y - 1) / 2 ^ y.
Proof.
  intros Hy Hx Ho. unfold shift_round_up. rewrite Z.shiftl_1_l.
  rewrite (wrap_small w (x + 2 ^ y)) by (unfold uint; lia).
  rewrite wrap_small by (unfold uint; lia). by rewrite Z.shiftr_div_pow2 by lia.
Qed.

End Ops.
End IntArith.
