(* ===== verification/Crc32.v ===== *)
(** * common/crc32.cc: CRC-32C

    The table of the source, the table-driven loop, and a bit-at-a-time
    reference.  [crc32_iscsi] of the ISA-L library, used instead of the loop when
    the build has it, is a parameter of [calc_crc32_isal]. *)
From stdpp Require Import base numbers list.
From Stdlib Require Import ZArith Lia.
From S2P Require Import Prelude.

Module Crc32.

Definition POLY_CASTAGNOLI : Z := 0x82F63B78.

(** One iteration of the inner loop of [CRC32Table()]. *)
Definition bit_step (crc : Z) : Z :=
  if Z.land crc 1 =? 0 then Z.shiftr crc 1
  else Z.lxor (Z.shiftr crc 1) POLY_CASTAGNOLI.

(** [CRC32Table::CRC32Table()]. *)
Definition table : list Z := (fun i => Nat.iter 8 bit_step (Z.of_nat i)) <$> seq 0 256.

Definition not32 (x : Z) : Z := u32 (Z.lnot x).

Definition crc_step (crc byte : Z) : Z :=
  let index := u8 (Z.land (Z.lxor crc byte) 0xFF) in
  Z.lxor (Z.shiftr crc 8) (nth (Z.to_nat index) table 0).

Definition crc32c_software_fallback (data : bytes) (previous_crc : Z) : Z :=
  not32 (foldl crc_step (not32 previous_crc) data).

(** The loop for [data == nullptr]. *)
Definition zero_step (crc : Z) : Z :=
  let index := u8 (Z.land crc 0xFF) in
  Z.lxor (Z.shiftr crc 8) (nth (Z.to_nat index) table 0).

(** [data] is [None] for a null pointer. *)
Definition calc_crc32_ptr (data : option bytes) (length : nat) (previous_crc : Z) : Z :=
  if (length =? 0)%nat then previous_crc
  else match data with
       | None => not32 (Nat.iter length zero_step (not32 previous_crc))
       | Some d => crc32c_software_fallback d previous_crc
       end.

Definition calc_crc32 (data : bytes) (previous_crc : Z) : Z :=
  calc_crc32_ptr (Some data) (length data) previous_crc.

(** The branch for [HAVE_ISA_L]: at most [INT_MAX] bytes per call. *)
Section Isal.
Context (crc32_iscsi : bytes -> Z -> Z).
Definition INT_MAX : nat := Z.to_nat (2 ^ 31 - 1).

Fixpoint isal_loop (fuel chunk : nat) (p : bytes) (crc : Z) : Z :=
  match fuel, p with
  | S fuel, _ :: _ => isal_loop fuel chunk (drop chunk p) (crc32_iscsi (take chunk p) crc)
  | _, _ => crc
  end.

Definition calc_crc32_isal (data : bytes) (previous_crc : Z) : Z :=
  if (length data =? 0)%nat then previous_crc
  else not32 (isal_loop (length data) INT_MAX data (not32 previous_crc)).
End Isal.

(** ** Reference: one bit of the message at a time *)

Definition ref_byte (crc byte : Z) : Z := Nat.iter 8 bit_step (Z.lxor crc byte).
Definition ref_crc32c (data : bytes) (previous_crc : Z) : Z :=
  not32 (foldl ref_byte (not32 previous_crc) data).

(** ** The bit step is linear and injective *)

Lemma land_1_odd x : (Z.land x 1 =? 0) = negb (Z.odd x).
Proof.
  change 1 with (Z.ones 1). rewrite Z.land_ones, Zodd_mod by lia. change (2 ^ 1) with 2.
  pose proof (Z.mod_pos_bound x 2). unfold Zeq_bool.
  destruct (Z.eqb_spec (x mod 2) 0) as [->|]; [done|]. by replace (x mod 2) with 1 by lia.
Qed.

Lemma bit_step_odd x :
  bit_step x = Z.lxor (Z.shiftr x 1) (if Z.odd x then POLY_CASTAGNOLI else 0).
Proof. unfold bit_step. rewrite land_1_odd. destruct (Z.odd x); simpl; by rewrite ?Z.lxor_0_r. Qed.

Lemma odd_lxor x y : Z.odd (Z.lxor x y) = xorb (Z.odd x) (Z.odd y).
Proof. by rewrite <- !Z.bit0_odd, Z.lxor_spec. Qed.

Lemma bit_step_lxor x y : bit_step (Z.lxor x y) = Z.lxor (bit_step x) (bit_step y).
Proof.
  rewrite !bit_step_odd, Z.shiftr_lxor, odd_lxor. apply Z.bits_inj'. intros n Hn.
  rewrite !Z.lxor_spec. destruct (Z.odd x), (Z.odd y); simpl; rewrite ?Z.bits_0;
    destruct (Z.testbit (Z.shiftr x 1) n), (Z.testbit (Z.shiftr y 1) n), (Z.testbit POLY_CASTAGNOLI n); done.
Qed.

Lemma iter_lxor n x y :
  Nat.iter n bit_step (Z.lxor x y) = Z.lxor (Nat.iter n bit_step x) (Nat.iter n bit_step y).
Proof. induction n as [|n IH]; [done|]. simpl. by rewrite IH, bit_step_lxor. Qed.

Lemma iter_shift n y : Nat.iter n bit_step (Z.shiftl y (Z.of_nat n)) = y.
Proof.
  revert y. induction n as [|n IH]; intros y; [apply Z.shiftl_0_r|].
  rewrite Nat.iter_succ_r. rewrite <- (IH y) at 2. f_equal.
  rewrite bit_step_odd, Nat2Z.inj_succ, <- Z.bit0_odd, Z.shiftl_spec_low, Z.lxor_0_r by lia.
  rewrite Z.shiftr_shiftl_r by lia.
  replace (1 - Z.succ (Z.of_nat n)) with (- Z.of_nat n) by lia. by rewrite Z.shiftr_opp_r.
Qed.

Lemma iter_shift8 y : Nat.iter 8 bit_step (Z.shiftl y 8) = y.
Proof. exact (iter_shift 8 y). Qed.

Lemma table_nth i : 0 <= i < 256 -> nth (Z.to_nat i) table 0 = Nat.iter 8 bit_step i.
Proof.
  intros Hi. unfold table. apply nth_lookup_Some. rewrite list_lookup_fmap, lookup_seq_lt by lia.
  simpl. by rewrite Z2Nat.id by lia.
Qed.

Lemma land_255 x : Z.land x 0xFF = x mod 256.
Proof. change 0xFF with (Z.ones 8). by rewrite Z.land_ones by lia. Qed.

Lemma low_high x : x = Z.lxor (Z.land x 0xFF) (Z.shiftl (Z.shiftr x 8) 8).
Proof.
  apply Z.bits_inj'. intros n Hn. rewrite Z.lxor_spec, Z.land_spec. change 0xFF with (Z.ones 8).
  rewrite Z.testbit_ones_nonneg by lia. destruct (Z.ltb_spec n 8).
  - rewrite Z.shiftl_spec_low, andb_true_r, xorb_false_r by lia. done.
  - rewrite Z.shiftl_spec_high, Z.shiftr_spec, andb_false_r, xorb_false_l by lia.
    f_equal. lia.
Qed.

(** The table lookup does eight bit steps. *)
Lemma crc_step_ref crc byte : 0 <= byte < 256 -> crc_step crc byte = ref_byte crc byte.
Proof.
  intros Hb. unfold crc_step, ref_byte.
  rewrite (low_high (Z.lxor crc byte)) at 2. rewrite iter_lxor.
  rewrite iter_shift8, Z.lxor_comm.
  pose proof (Z.mod_pos_bound (Z.lxor crc byte) 256). rewrite land_255.
  unfold u8. rewrite wrap_small by (unfold uint; lia). rewrite table_nth by lia. f_equal.
  rewrite Z.shiftr_lxor. enough (Z.shiftr byte 8 = 0) as -> by (by rewrite Z.lxor_0_r).
  rewrite Z.shiftr_div_pow2 by lia. apply Z.div_small. lia.
Qed.

Lemma bit_step_range x : uint 32 x -> uint 32 (bit_step x).
Proof.
  intros [H0 H1]. rewrite bit_step_odd.
  assert (0 <= Z.shiftr x 1 < 2 ^ 31).
  { rewrite Z.shiftr_div_pow2 by lia. split; [apply Z.div_pos|apply Z.div_lt_upper_bound]; lia. }
  destruct (Z.odd x); [|rewrite Z.lxor_0_r; unfold uint; lia].
  split; [apply Z.lxor_nonneg; unfold POLY_CASTAGNOLI; lia|].
  destruct (decide (Z.lxor (Z.shiftr x 1) POLY_CASTAGNOLI = 0)) as [->|]; [lia|].
  assert (0 <= Z.lxor (Z.shiftr x 1) POLY_CASTAGNOLI) by (apply Z.lxor_nonneg; unfold POLY_CASTAGNOLI; lia).
  apply Z.log2_lt_pow2; [lia|].
  eapply Z.le_lt_trans; [apply Z.log2_lxor; unfold POLY_CASTAGNOLI; lia|].
  apply Z.max_lub_lt; [|by vm_compute].
  destruct (decide (Z.shiftr x 1 = 0)) as [->|]; [done|]. apply Z.log2_lt_pow2; lia.
Qed.

Lemma bit_step_zero x : uint 32 x -> bit_step x = 0 -> x = 0.
Proof.
  intros [H0 H1]. rewrite bit_step_odd.
  assert (0 <= Z.shiftr x 1 < 2 ^ 31) as Hs.
  { rewrite Z.shiftr_div_pow2 by lia. split; [apply Z.div_pos|apply Z.div_lt_upper_bound]; lia. }
  destruct (Z.odd x) eqn:Eo.
  - intros E. apply Z.lxor_eq in E. rewrite E in Hs. unfold POLY_CASTAGNOLI in Hs. lia.
  - rewrite Z.lxor_0_r, Z.shiftr_div_pow2 by lia. change (2 ^ 1) with 2. intros E.
    pose proof (Z.div_mod x 2 ltac:(lia)). rewrite Zmod_odd, Eo in H. lia.
Qed.

Lemma lxor_range n x y : 0 < n -> uint n x -> uint n y -> uint n (Z.lxor x y).
Proof.
  intros Hn [Hx0 Hx1] [Hy0 Hy1]. split; [apply Z.lxor_nonneg; lia|].
  assert (0 <= Z.lxor x y) by (apply Z.lxor_nonneg; lia).
  destruct (decide (Z.lxor x y = 0)) as [->|]; [lia|]. apply Z.log2_lt_pow2; [lia|].
  eapply Z.le_lt_trans; [apply Z.log2_lxor; lia|]. apply Z.max_lub_lt.
  - destruct (decide (x = 0)) as [->|]; [done|]. apply Z.log2_lt_pow2; lia.
  - destruct (decide (y = 0)) as [->|]; [done|]. apply Z.log2_lt_pow2; lia.
Qed.

Lemma iter_range n x : uint 32 x -> uint 32 (Nat.iter n bit_step x).
Proof. intros. induction n; [done|]. simpl. by apply bit_step_range. Qed.

Lemma iter_zero n x : uint 32 x -> Nat.iter n bit_step x = 0 -> x = 0.
Proof.
  intros Hx. induction n as [|n IH]; [done|]. simpl. intros E. apply IH.
  apply bit_step_zero; [by apply iter_range|done].
Qed.

Lemma uint8_32 b : 0 <= b < 256 -> uint 32 b.
Proof. unfold uint. lia. Qed.

Lemma ref_byte_range c b : uint 32 c -> 0 <= b < 256 -> uint 32 (ref_byte c b).
Proof. intros. apply iter_range, lxor_range; try done. by apply uint8_32. Qed.

(** Different states stay different, and different bytes split equal states. *)
Lemma ref_byte_inj c1 c2 b1 b2 :
  uint 32 c1 -> uint 32 c2 -> 0 <= b1 < 256 -> 0 <= b2 < 256 ->
  ref_byte c1 b1 = ref_byte c2 b2 -> Z.lxor c1 b1 = Z.lxor c2 b2.
Proof.
  intros Hc1 Hc2 Hb1 Hb2 E. unfold ref_byte in E. apply Z.lxor_eq.
  apply (iter_zero 8).
  - apply lxor_range; try done; apply lxor_range; try done; by apply uint8_32.
  - by rewrite iter_lxor, E, Z.lxor_nilpotent.
Qed.

Lemma foldl_ref_range data c : Forall (fun b => 0 <= b < 256) data -> uint 32 c -> uint 32 (foldl ref_byte c data).
Proof. intros Hd. revert c. induction Hd; intros c Hc; [done|]. simpl. by apply IHHd, ref_byte_range. Qed.

Lemma foldl_ref_inj data c1 c2 :
  Forall (fun b => 0 <= b < 256) data -> uint 32 c1 -> uint 32 c2 ->
  foldl ref_byte c1 data = foldl ref_byte c2 data -> c1 = c2.
Proof.
  intros Hd. revert c1 c2. induction Hd as [|b data Hb Hd IH]; intros c1 c2 H1 H2; [done|]. simpl.
  intros E. apply IH in E; try by apply ref_byte_range.
  apply ref_byte_inj in E; try done.
  rewrite <- (Z.lxor_0_r c1), <- (Z.lxor_0_r c2), <- (Z.lxor_nilpotent b).
  by rewrite <- !Z.lxor_assoc, E.
Qed.

Lemma not32_range x : uint 32 (not32 x).
Proof. apply u32_range. Qed.

Lemma not32_lxor x : uint 32 x -> not32 x = 2 ^ 32 - 1 - x.
Proof.
  intros [H0 H1]. unfold not32, u32, wrap, Z.lnot. symmetry. apply (Z.mod_unique _ _ (-1)); lia.
Qed.

Lemma not32_involutive x : uint 32 x -> not32 (not32 x) = x.
Proof. intros Hx. rewrite (not32_lxor (not32 x)) by apply not32_range. rewrite not32_lxor by done. lia. Qed.

Lemma not32_inj x y : uint 32 x -> uint 32 y -> not32 x = not32 y -> x = y.
Proof. intros Hx Hy. rewrite !not32_lxor by done. lia. Qed.

Abbreviation is_bytes := (Forall (fun b : Z => 0 <= b < 256)).

Lemma fold_crc_ref data c : is_bytes data -> foldl crc_step c data = foldl ref_byte c data.
Proof. intros Hd. revert c. induction Hd; intros c; [done|]. simpl. by rewrite crc_step_ref by done. Qed.

Lemma calc_crc32_ref data p : is_bytes data -> uint 32 p -> calc_crc32 data p = ref_crc32c data p.
Proof.
  intros Hd Hp. unfold calc_crc32, calc_crc32_ptr, ref_crc32c.
  destruct data as [|b data]; [simpl; by rewrite not32_involutive|]. cbn [length Nat.eqb].
  unfold crc32c_software_fallback. by rewrite fold_crc_ref.
Qed.

Lemma calc_crc32_range data p : is_bytes data -> uint 32 p -> uint 32 (calc_crc32 data p).
Proof. intros Hd Hp. rewrite calc_crc32_ref by done. apply not32_range. Qed.

Lemma calc_crc32_app a b p :
  is_bytes a -> is_bytes b -> uint 32 p -> calc_crc32 (a ++ b) p = calc_crc32 b (calc_crc32 a p).
Proof.
  intros Ha Hb Hp. rewrite (calc_crc32_ref b) by (try apply calc_crc32_range; done).
  rewrite !calc_crc32_ref by (try apply Forall_app; done).
  unfold ref_crc32c. rewrite foldl_app, not32_involutive; [done|].
  apply foldl_ref_range; [done|apply not32_range].
Qed.

Lemma zero_step_ref crc : zero_step crc = crc_step crc 0.
Proof. unfold zero_step, crc_step. by rewrite Z.lxor_0_r. Qed.

Lemma iter_zero_step n crc : Nat.iter n zero_step crc = foldl crc_step crc (replicate n 0).
Proof.
  revert crc. induction n as [|n IH]; intros crc; [done|].
  rewrite Nat.iter_succ_r, IH. simpl. by rewrite zero_step_ref.
Qed.

Lemma isal_loop_fold f fuel chunk p crc :
  (0 < chunk)%nat -> (length p <= fuel)%nat ->
  (forall d c, is_bytes d -> uint 32 c -> f d c = foldl ref_byte c d) ->
  is_bytes p -> uint 32 crc -> isal_loop f fuel chunk p crc = foldl ref_byte crc p.
Proof.
  intros Hc Hf Hspec. revert p crc Hf. induction fuel as [|fuel IH]; intros p crc Hf Hp Hr.
  { destruct p; [done|simpl in Hf; lia]. }
  destruct p as [|b p]; [done|]. cbn [isal_loop].
  rewrite IH; [| |by apply Forall_drop|]; rewrite ?Hspec by (try apply Forall_take; done).
  - by rewrite <- foldl_app, take_drop.
  - rewrite length_drop. cbn [length] in *. lia.
  - apply foldl_ref_range; [by apply Forall_take|done].
Qed.

(** ** Properties *)

(** C31: the table-driven loop computes CRC-32C: it equals the bit-at-a-time
    division by the Castagnoli polynomial, the null-pointer form equals the CRC of
    that many zero bytes, and a buffer may be checksummed piecewise by feeding
    the CRC of the first part to the second. *)
Theorem crc32_correct (a b : bytes) (p : Z) (n : nat) :
  is_bytes a -> is_bytes b -> uint 32 p ->
  calc_crc32 a p = ref_crc32c a p /\
  calc_crc32 (a ++ b) p = calc_crc32 b (calc_crc32 a p) /\
  calc_crc32_ptr None n p = calc_crc32 (replicate n 0) p.
Proof.
  intros Ha Hb Hp. split_and!; [by apply calc_crc32_ref|by apply calc_crc32_app|].
  unfold calc_crc32, calc_crc32_ptr. rewrite length_replicate.
  destruct n as [|n]; [done|]. cbn [Nat.eqb]. by rewrite iter_zero_step.
Qed.

Lemma crc32_correct_witness :
  calc_crc32 [49; 50; 51; 52; 53; 54; 55; 56; 57] 0 = 0xE3069283 /\
  calc_crc32 ([49; 50; 51; 52] ++ [53; 54; 55; 56; 57]) 0 =
    calc_crc32 [53; 54; 55; 56; 57] (calc_crc32 [49; 50; 51; 52] 0).
Proof.
  split; [vm_compute; reflexivity|].
  apply (crc32_correct [49; 50; 51; 52] [53; 54; 55; 56; 57] 0 0);
    [repeat constructor; lia|repeat constructor; lia|unfold uint; lia].
Defined.

(** Two buffers that differ in exactly one byte. *)
Lemma crc32_byte_error (a b : bytes) (x y p : Z) :
  is_bytes a -> is_bytes b -> 0 <= x < 256 -> 0 <= y < 256 -> uint 32 p -> x <> y ->
  calc_crc32 (a ++ x :: b) p <> calc_crc32 (a ++ y :: b) p.
Proof.
  intros Ha Hb Hx Hy Hp Hne E.
  assert (is_bytes (a ++ x :: b) /\ is_bytes (a ++ y :: b)) as [Hx' Hy'] by (rewrite !Forall_app, !Forall_cons; done).
  rewrite !calc_crc32_ref in E by done.
  unfold ref_crc32c in E. rewrite !foldl_app in E. simpl in E.
  set (c := foldl ref_byte (not32 p) a) in E.
  assert (uint 32 c) as Hc by (apply foldl_ref_range; [done|apply not32_range]).
  apply not32_inj in E; [|by apply foldl_ref_range; [|apply ref_byte_range]..].
  apply foldl_ref_inj in E; [|done|by apply ref_byte_range..].
  apply ref_byte_inj in E; try done. apply Hne.
  rewrite <- (Z.lxor_0_l x), <- (Z.lxor_0_l y), <- (Z.lxor_nilpotent c).
  by rewrite !Z.lxor_assoc, E.
Qed.

(** C40: the CRC detects every error confined to one byte: two buffers that
    differ in exactly one byte have different CRCs, whatever surrounds it. *)
Theorem crc32_detects_byte_error (a b : bytes) (x y p : Z) :
  is_bytes a -> is_bytes b -> 0 <= x < 256 -> 0 <= y < 256 -> uint 32 p -> x <> y ->
  calc_crc32 (a ++ x :: b) p <> calc_crc32 (a ++ y :: b) p.
Proof. apply crc32_byte_error. Qed.

Lemma crc32_detects_byte_error_witness :
  calc_crc32 ([1; 2] ++ 3 :: [4]) 0 <> calc_crc32 ([1; 2] ++ 7 :: [4]) 0.
Proof.
  apply (crc32_detects_byte_error [1; 2] [4] 3 7 0);
    [repeat constructor; lia|repeat constructor; lia|lia|lia|unfold uint; lia|lia].
Defined.

(** The build with ISA-L computes the same function, provided
    [crc32_iscsi] updates a CRC-32C state with the bytes it is given: splitting
    the buffer into chunks of [INT_MAX] bytes does not change the result. *)
Theorem crc32_isal_equivalent (f : bytes -> Z -> Z) (data : bytes) (p : Z) :
  (forall d c, is_bytes d -> uint 32 c -> f d c = foldl ref_byte c d) ->
  is_bytes data -> uint 32 p -> calc_crc32_isal f data p = calc_crc32 data p.
Proof.
  intros Hf Hd Hp. rewrite calc_crc32_ref by done. unfold calc_crc32_isal, ref_crc32c.
  destruct data as [|b data]; [simpl; by rewrite not32_involutive|].
  cbn [length Nat.eqb]. rewrite isal_loop_fold; try done.
  - unfold INT_MAX. lia.
  - apply not32_range.
Qed.

Lemma crc32_isal_equivalent_witness :
  calc_crc32_isal (fun d c => foldl ref_byte c d) [1; 2; 3] 5 = calc_crc32 [1; 2; 3] 5.
Proof.
  apply crc32_isal_equivalent; [intros; reflexivity|repeat constructor; lia|unfold uint; lia].
Defined.
End Crc32.
