(* ===== verification/IntervalSet.v ===== *)
(** * common/interval_set.h: sets of disjoint byte ranges

    [interval_set<uint64_t>] keeps a [std::map] from the start of each range to
    its length, and the total length in [_size].  The map is modelled as the
    list of its pairs in key order; an iterator is a split of that list into
    what precedes it and what it points at. *)
From stdpp Require Import base numbers list gmap.
From Stdlib Require Import ZArith Lia.
From S2P Require Import Prelude.

Module IntervalSet.

(** ** The [std::map] of the class *)

(** [m_.lower_bound(off)]: what precedes the iterator, and the rest. *)
Fixpoint lower_bound (off : Z) (m : list (Z * Z)) : list (Z * Z) * list (Z * Z) :=
  match m with
  | [] => ([], [])
  | (k, v) :: t =>
      if k <? off then let '(a, b) := lower_bound off t in ((k, v) :: a, b)
      else ([], m)
  end.

(** [m_[k] = v]. *)
Fixpoint map_set (k v : Z) (m : list (Z * Z)) : list (Z * Z) :=
  match m with
  | [] => [(k, v)]
  | (k0, v0) :: t =>
      if k <? k0 then (k, v) :: m
      else if k =? k0 then (k, v) :: t
      else (k0, v0) :: map_set k v t
  end.

(** [m_[k] = v] while an iterator splits the map into [pre] and [suf]. *)
Definition zip_set (k v : Z) (z : list (Z * Z) * list (Z * Z)) : list (Z * Z) * list (Z * Z) :=
  let '(pre, suf) := z in
  match suf with
  | [] => (map_set k v pre, [])
  | (k0, _) :: _ =>
      if k <? k0 then (map_set k v pre, suf) else (pre, map_set k v suf)
  end.

Record interval_set := mk { m_ : list (Z * Z); _size : Z }.

Definition empty_set : interval_set := mk [] 0.

Definition is_empty (s : interval_set) : bool :=
  match m_ s with [] => true | _ => false end.
Definition size (s : interval_set) : Z := _size s.
Definition num_intervals (s : interval_set) : Z := Z.of_nat (length (m_ s)).

(** ** insert *)

(** The first loop: ranges that start inside (or right after) the new one. *)
Fixpoint insert_absorb (off len old_len : Z) (hi : list (Z * Z))
  : Z * Z * list (Z * Z) :=
  match hi with
  | (k, v) :: t =>
      if k <=? off +64 len then
        insert_absorb off (Z.max len (k +64 v -64 off)) (old_len +64 v) t
      else (len, old_len, hi)
  | [] => (len, old_len, [])
  end.

Definition insert (s : interval_set) (off len : Z) : interval_set :=
  if len =? 0 then s else
  let '(lo, hi) := lower_bound off (m_ s) in
  let '(len, old_len, hi) := insert_absorb off len 0 hi in
  let '(off, len, old_len, m) :=
    match last lo with
    | Some (pk, pv) =>
        if off <=? pk +64 pv then
          let new_end := Z.max (off +64 len) (pk +64 pv) in
          (pk, new_end -64 pk, old_len +64 pv, removelast lo ++ hi)
        else (off, len, old_len, lo ++ hi)
    | None => (off, len, old_len, lo ++ hi)
    end in
  mk (map_set off len m) (_size s +64 (len -64 old_len)).

(** ** erase *)

(** The second loop: ranges that start inside the erased one.  [fuel] is one
    more than the number of ranges at the iterator, and an iteration consumes
    one of them; a range it re-inserts starts at [end_], where the loop stops. *)
Fixpoint erase_loop (fuel : nat) (end_ : Z) (z : list (Z * Z) * list (Z * Z))
    (old_len new_len : Z) : list (Z * Z) * Z * Z :=
  match fuel, z with
  | S fuel, (pre, (k, v) :: t) =>
      if k <? end_ then
        let it_end := k +64 v in
        let old_len := old_len +64 v in
        if end_ <? it_end then
          let right_len := it_end -64 end_ in
          erase_loop fuel end_ (pre, map_set end_ right_len t) old_len (new_len +64 right_len)
        else erase_loop fuel end_ (pre, t) old_len new_len
      else (pre ++ (k, v) :: t, old_len, new_len)
  | _, (pre, suf) => (pre ++ suf, old_len, new_len)
  end.

Definition erase (s : interval_set) (off len : Z) : interval_set :=
  if len =? 0 then s else
  let '(lo, hi) := lower_bound off (m_ s) in
  let '(z, old_len, new_len) :=
    match last lo with
    | Some (pk, pv) =>
        if off <? pk +64 pv then
          let lo := removelast lo ++ [(pk, off -64 pk)] in
          if off +64 len <? pk +64 pv then
            let right_len := (pk +64 pv) -64 (off +64 len) in
            (zip_set (off +64 len) right_len (lo, hi), pv, (off -64 pk) +64 right_len)
          else ((lo, hi), pv, off -64 pk)
        else ((lo, hi), 0, 0)
    | None => ((lo, hi), 0, 0)
    end in
  let '(m, old_len, new_len) :=
    erase_loop (S (length z.2)) (off +64 len) z old_len new_len in
  mk m (_size s +64 (new_len -64 old_len)).

(** ** The rest of the interface *)
Definition clear (s : interval_set) : interval_set := mk [] 0.

Definition swap (s o : interval_set) : interval_set * interval_set := (o, s).

Definition range_start (s : interval_set) : option Z :=
  _ ← cxxlab_assert (negb (is_empty s)); fst <$> head (m_ s).

Definition range_end (s : interval_set) : option Z :=
  _ ← cxxlab_assert (negb (is_empty s)); (fun '(k, v) => k +64 v) <$> last (m_ s).

Definition insert_all (s other : interval_set) : interval_set :=
  foldl (fun s '(off, len) => insert s off len) s (m_ other).

Definition _recalc_size (m : list (Z * Z)) : Z :=
  foldl (fun acc '(_, len) => acc +64 len) 0 m.

(** ** Specification: the set of points *)

(** [wf_from lb m]: every range starts at [lb] or later, is not empty, ends
    below [2^64], and leaves a gap before the next one. *)
Fixpoint wf_from (lb : Z) (m : list (Z * Z)) : Prop :=
  match m with
  | [] => True
  | (k, v) :: t => lb <= k /\ 0 < v /\ k + v < 2 ^ 64 /\ wf_from (k + v + 1) t
  end.

Fixpoint next_lb (lb : Z) (m : list (Z * Z)) : Z :=
  match m with [] => lb | (k, v) :: t => next_lb (k + v + 1) t end.

Definition total (m : list (Z * Z)) : Z := sumZ snd m.
#[global] Arguments total : simpl never.

Definition wf (s : interval_set) : Prop :=
  wf_from 0 (m_ s) /\ _size s = total (m_ s).

Definition in_range (x : Z) (r : Z * Z) : Prop := r.1 <= x < r.1 + r.2.

Definition covers (m : list (Z * Z)) (x : Z) : Prop := Exists (in_range x) m.

#[global] Instance interval_set_elem_of : ElemOf Z interval_set :=
  fun x s => covers (m_ s) x.

(** The abstraction function: the finite set of points. *)
Definition points (m : list (Z * Z)) : gset Z := ⋃ ((fun p => zrange p.1 p.2) <$> m).

Definition pts (s : interval_set) : gset Z := points (m_ s).

(** ** Lemmas on well-formed maps *)

Lemma points_nil : points [] = ∅.
Proof. done. Qed.
Lemma points_cons k v t : points ((k, v) :: t) = zrange k v ∪ points t.
Proof. done. Qed.

Lemma elem_of_points m x : x ∈ points m <-> covers m x.
Proof.
  induction m as [|[k v] t IH]; [unfold covers; rewrite Exists_nil, points_nil; set_solver|].
  rewrite points_cons, elem_of_union, IH, elem_of_zrange.
  unfold covers. by rewrite Exists_cons.
Qed.

Lemma elem_of_pts s x : x ∈ pts s <-> x ∈ s.
Proof. apply elem_of_points. Qed.

Lemma covers_nil x : covers [] x <-> False.
Proof. apply Exists_nil. Qed.
Lemma covers_cons k v t x : covers ((k, v) :: t) x <-> k <= x < k + v \/ covers t x.
Proof. unfold covers. by rewrite Exists_cons. Qed.
Lemma covers_app a b x : covers (a ++ b) x <-> covers a x \/ covers b x.
Proof. apply Exists_app. Qed.

Lemma total_nil : total [] = 0.
Proof. done. Qed.
Lemma total_cons k v t : total ((k, v) :: t) = v + total t.
Proof. done. Qed.
Lemma total_app a b : total (a ++ b) = total a + total b.
Proof. apply sumZ_app. Qed.

Lemma wf_from_weaken lb lb' m : lb' <= lb -> wf_from lb m -> wf_from lb' m.
Proof. destruct m as [|[k v] t]; simpl; intuition lia. Qed.

Lemma wf_from_app lb a b : wf_from lb (a ++ b) <-> wf_from lb a /\ wf_from (next_lb lb a) b.
Proof.
  revert lb. induction a as [|[k v] a IH]; intros lb; simpl; [tauto|].
  rewrite IH. tauto.
Qed.

Lemma next_lb_app lb a b : next_lb lb (a ++ b) = next_lb (next_lb lb a) b.
Proof. revert lb. induction a as [|[k v] a IH]; intros lb; simpl; auto. Qed.

(** The total length fits between the first point and the end. *)
Lemma total_bounds lb m :
  wf_from lb m -> 0 <= total m /\ lb + total m <= next_lb lb m.
Proof.
  revert lb. induction m as [|[k v] t IH]; intros lb; simpl; [rewrite total_nil; lia|].
  intros (? & ? & ? & H). rewrite total_cons. specialize (IH _ H). lia.
Qed.

Lemma next_lb_bound lb m : wf_from lb m -> lb <= 2 ^ 64 -> next_lb lb m <= 2 ^ 64.
Proof.
  revert lb. induction m as [|[k v] t IH]; intros lb; simpl; [lia|].
  intros (? & ? & ? & H) ?. apply IH; [done|lia].
Qed.

Lemma total_u64 m : wf_from 0 m -> 0 <= total m < 2 ^ 64.
Proof.
  destruct m as [|[k v] t]; [done|]. intros H. pose proof (total_bounds 0 _ H).
  simpl in H. destruct H as (? & ? & ? & H). split; [lia|].
  rewrite total_cons in *. simpl in *.
  pose proof (total_bounds _ _ H). pose proof (next_lb_bound _ _ H). lia.
Qed.

Lemma covers_lb lb m x : wf_from lb m -> covers m x -> lb <= x < 2 ^ 64 - 1.
Proof.
  revert lb. induction m as [|[k v] t IH]; intros lb; simpl; [by rewrite covers_nil|].
  intros (? & ? & ? & H). rewrite covers_cons. intros [?|Hc]; [lia|].
  specialize (IH _ H Hc). lia.
Qed.

Lemma covers_next_lb lb m x : wf_from lb m -> covers m x -> x + 1 < next_lb lb m.
Proof.
  revert lb. induction m as [|[k v] t IH]; intros lb; simpl; [by rewrite covers_nil|].
  intros (? & ? & ? & H). rewrite covers_cons. intros [?|Hc]; [|by eapply IH].
  pose proof (total_bounds _ _ H). lia.
Qed.

Lemma lower_bound_app off m : (lower_bound off m).1 ++ (lower_bound off m).2 = m.
Proof.
  induction m as [|[k v] t IH]; simpl; [done|]. destruct (k <? off); [|done].
  destruct (lower_bound off t) as [a b]; simpl in *. by rewrite IH.
Qed.

Lemma lower_bound_spec off lb m lo hi :
  wf_from lb m -> lower_bound off m = (lo, hi) ->
  m = lo ++ hi /\ wf_from lb lo /\ wf_from (Z.max off (next_lb lb lo)) hi /\
  Forall (fun p => p.1 < off) lo.
Proof.
  intros Hm E. pose proof (lower_bound_app off m) as Ha. rewrite E in Ha. simpl in Ha.
  split; [done|]. subst m. apply wf_from_app in Hm as [Hlo Hhi].
  assert (Forall (fun p => p.1 < off) lo /\ match hi with [] => True | (k, _) :: _ => off <= k end)
    as [? Hk].
  { clear Hlo Hhi. revert hi E. induction lo as [|[k v] lo IH]; intros hi E.
    - destruct hi as [|[k v] t]; [done|]. simpl in E. destruct (Z.ltb_spec k off); [|done].
      by destruct (lower_bound off t).
    - simpl in E. destruct (Z.ltb_spec k off); [|done].
      destruct (lower_bound off (lo ++ hi)) as [a b] eqn:E'. injection E as -> ->.
      destruct (IH _ E') as [??]. split; [|done]. by constructor. }
  split_and!; try done. destruct hi as [|[k v] t]; simpl in *; intuition lia.
Qed.

Lemma last_snoc_inv {A} (l : list A) x : last l = Some x -> l = removelast l ++ [x].
Proof.
  induction l as [|a l IH]; [done|]. destruct l as [|b l]; [by intros [= ->]|].
  intros H. simpl removelast. rewrite <- app_comm_cons. f_equal. by apply IH.
Qed.

Lemma map_set_mid lb a b k v :
  wf_from lb a -> next_lb lb a <= k -> wf_from (k + 1) b ->
  map_set k v (a ++ b) = a ++ (k, v) :: b.
Proof.
  revert lb. induction a as [|[k0 v0] a IH]; intros lb; simpl.
  - intros _ _ Hb. destruct b as [|[k1 v1] t]; simpl in *; [done|].
    destruct (Z.ltb_spec k k1); [done|lia].
  - intros (? & ? & ? & Ha) Hn Hb. pose proof (total_bounds _ _ Ha).
    destruct (Z.ltb_spec k k0); [lia|]. destruct (Z.eqb_spec k k0); [lia|].
    f_equal. by eapply IH.
Qed.

(** ** insert *)

Lemma insert_absorb_spec off len old lb hi :
  wf_from lb hi -> 0 <= off <= lb -> 0 < len -> off + len < 2 ^ 64 ->
  exists len' old' hi',
  insert_absorb off len old hi = (len', old', hi') /\
  len <= len' /\ off + len' < 2 ^ 64 /\ wf_from (Z.max lb (off + len' + 1)) hi' /\
  u64 (old' + total hi') = u64 (old + total hi) /\
  forall x, (off <= x < off + len \/ covers hi x) <-> (off <= x < off + len' \/ covers hi' x).
Proof.
  revert len old lb. induction hi as [|[k v] t IH]; intros len old lb Hw Hoff Hlen Hov; simpl.
  { eexists _, _, _. split_and!; try done; lia. }
  destruct Hw as (Hk & Hv & Hkv & Hw). unwrap64.
  destruct (Z.leb_spec k (off + len)) as [Hle|Hgt].
  - destruct (IH (Z.max len (k + v - off)) (old +64 v) (k + v + 1))
      as (len' & old' & hi' & E & H1 & H2 & H3 & H4 & H5); try done; try lia.
    eexists _, _, _. split_and!; [exact E|lia|done| | |].
    + eapply wf_from_weaken; [|done]. lia.
    + rewrite H4, total_cons, u64_add_l. f_equal. lia.
    + intros x. rewrite <- H5, covers_cons.
      destruct (decide (covers t x)) as [|]; [tauto|]. intuition lia.
  - eexists _, _, _. split_and!; try done; try lia.
    simpl. split_and!; try done; lia.
Qed.

(** Putting one range [(k, v)] between [a] and [c], with the size accounted
    for as the code does: [old] is the length that was removed. *)
Lemma splice_spec (P : Z -> Prop) m a k v c old :
  wf_from 0 a -> next_lb 0 a <= k -> 0 < v -> k + v < 2 ^ 64 -> wf_from (k + v + 1) c ->
  u64 (total a + old + total c) = u64 (total m) ->
  (forall x, P x <-> covers a x \/ k <= x < k + v \/ covers c x) ->
  let s' := mk (map_set k v (a ++ c)) (total m +64 (v -64 old)) in
  wf s' /\ forall x, x ∈ s' <-> P x.
Proof.
  intros Ha Hk Hv Hkv Hc Ht HP s'.
  assert (map_set k v (a ++ c) = a ++ (k, v) :: c) as E.
  { eapply map_set_mid; try done. eapply wf_from_weaken; [|done]. lia. }
  assert (wf_from 0 (a ++ (k, v) :: c)) as Hw.
  { apply wf_from_app. split; [done|]. simpl. split_and!; done. }
  split.
  - split; simpl; rewrite E; [done|].
    pose proof (total_u64 _ Hw) as Hu. rewrite total_app, total_cons in *.
    rewrite u64_add_r, <- u64_add_l, <- Ht, u64_add_l.
    replace (total a + old + total c + (v - old)) with (total a + (v + total c)) by lia.
    by apply u64_small.
  - intros x. unfold elem_of, interval_set_elem_of. simpl. rewrite E, HP.
    by rewrite covers_app, covers_cons.
Qed.

Lemma insert_spec s off len :
  wf s -> 0 <= off -> 0 <= len -> off + len < 2 ^ 64 ->
  wf (insert s off len) /\
  forall x, x ∈ insert s off len <-> off <= x < off + len \/ x ∈ s.
Proof.
  intros [Hw Hs] Hoff Hlen Hov. unfold insert.
  destruct (Z.eqb_spec len 0) as [->|Hne].
  { split; [done|]. intros x. intuition lia. }
  destruct (lower_bound off (m_ s)) as [lo hi] eqn:E.
  destruct (lower_bound_spec _ _ _ _ _ Hw E) as (Em & Hlo & Hhi & Hf).
  destruct (insert_absorb_spec off len 0 _ hi Hhi ltac:(lia) ltac:(lia) Hov)
    as (len' & old' & hi' & Ea & H1 & H2 & H3 & H4 & H5). rewrite Ea, Hs.
  assert (forall x, x ∈ s <-> covers lo x \/ covers hi x) as Hin.
  { intros x. unfold elem_of, interval_set_elem_of. by rewrite Em, covers_app. }
  assert (total (m_ s) = total lo + total hi) as Hts by (by rewrite Em, total_app).
  destruct (last lo) as [[pk pv]|] eqn:El.
  - apply last_snoc_inv in El. set (lo' := removelast lo) in *. clearbody lo'. subst lo.
    apply wf_from_app in Hlo as [Hlo' Hp]. simpl in Hp. destruct Hp as (? & ? & ? & _).
    rewrite next_lb_app in H3. simpl in H3.
    rewrite Forall_app, Forall_singleton in Hf. destruct Hf as [_ Hf]. simpl in Hf.
    pose proof (total_bounds _ _ Hlo').
    rewrite total_app, total_cons, total_nil in Hts. unwrap64.
    assert (u64 (total lo' + pv + (old' + total hi')) = u64 (total (m_ s))) as Htot.
    { rewrite <- u64_add_r, H4, u64_add_r. f_equal. lia. }
    destruct (Z.leb_spec off (pk + pv)) as [Hm|Hm].
    + unwrap64. apply splice_spec; try done; try lia.
      * eapply wf_from_weaken; [|exact H3]. lia.
      * rewrite <- Htot. autorewrite with cxx. f_equal. lia.
      * intros x. rewrite Hin, covers_app, covers_cons, covers_nil. specialize (H5 x).
        assert (pk <= x < pk + (Z.max (off + len') (pk + pv) - pk) <->
                pk <= x < pk + pv \/ off <= x < off + len') by lia. tauto.
    + apply splice_spec; try done; try lia.
      * apply wf_from_app. split; [done|]. by simpl.
      * rewrite next_lb_app. simpl. lia.
      * eapply wf_from_weaken; [|exact H3]. lia.
      * rewrite <- Htot, total_app, total_cons, total_nil. f_equal. lia.
      * intros x. rewrite Hin. specialize (H5 x). tauto.
  - apply last_None in El. subst lo. simpl in *. apply (splice_spec _ (m_ s) []); try done; try lia.
    + eapply wf_from_weaken; [|exact H3]. lia.
    + rewrite Hts, total_nil. by rewrite !Z.add_0_l, H4.
    + intros x. rewrite Hin. specialize (H5 x). rewrite covers_nil. tauto.
Qed.

(** ** erase *)

Lemma erase_loop_spec end_ lb pre hi fuel old new :
  wf_from lb hi -> 0 <= lb -> (length hi < fuel)%nat ->
  exists hi' old' new',
  erase_loop fuel end_ (pre, hi) old new = (pre ++ hi', old', new') /\
  wf_from (Z.max lb end_) hi' /\
  u64 (new' - old') = u64 (new - old + (total hi' - total hi)) /\
  forall x, covers hi' x <-> covers hi x /\ end_ <= x.
Proof.
  revert lb fuel old new. induction hi as [|[k v] t IH]; intros lb fuel old new Hw Hlb Hf.
  { destruct fuel; [simpl in Hf; lia|]. exists [], old, new. simpl. split_and!; try done.
    - f_equal. rewrite total_nil. lia.
    - intros x. rewrite covers_nil. tauto. }
  destruct fuel as [|fuel]; [simpl in Hf; lia|]. simpl in Hf. simpl in Hw.
  destruct Hw as (Hk & Hv & Hkv & Hw). cbn [erase_loop]. unwrap64.
  destruct (Z.ltb_spec k end_) as [Hlt|Hge].
  2:{ eexists _, _, _. split_and!; [done| | |].
    - simpl. split_and!; try done; lia.
    - f_equal. lia.
    - intros x. rewrite covers_cons. split; [|tauto]. intros [?|Hc]; [intuition lia|].
      pose proof (covers_lb _ _ _ Hw Hc). split; [tauto|lia]. }
  destruct (Z.ltb_spec end_ (k + v)) as [Hin|Hout].
  - unwrap64. assert (map_set end_ (k + v - end_) t = (end_, k + v - end_) :: t) as ->.
    { apply (map_set_mid 0 []); try done; [simpl; lia|]. eapply wf_from_weaken; [|done]. lia. }
    destruct fuel; [lia|]. cbn [erase_loop]. rewrite Z.ltb_irrefl.
    eexists _, _, _. split_and!; [done| | |].
    + simpl. split_and!; try lia. by replace (end_ + (k + v - end_) + 1) with (k + v + 1) by lia.
    + rewrite !total_cons. autorewrite with cxx. f_equal. lia.
    + intros x. rewrite !covers_cons.
      assert (covers t x -> end_ <= x) by (intros Hc; pose proof (covers_lb _ _ _ Hw Hc); lia).
      assert (end_ <= x < end_ + (k + v - end_) <-> k <= x < k + v /\ end_ <= x) by lia. tauto.
  - destruct (IH (k + v + 1) fuel (old +64 v) new) as (hi' & old' & new' & E & H1 & H2 & H3);
      try done; try lia.
    eexists _, _, _. split_and!; [exact E| | |].
    + eapply wf_from_weaken; [|done]. lia.
    + rewrite H2, total_cons.
      replace (new - (old +64 v) + (total hi' - total t))
        with (new + (total hi' - total t) - (old +64 v)) by lia.
      rewrite u64_sub_r. f_equal. lia.
    + intros x. rewrite H3, covers_cons. assert (k <= x < k + v -> ~ end_ <= x) by lia. tauto.
Qed.

Lemma resize_spec s (P : Z -> Prop) m' new old :
  wf s -> wf_from 0 m' -> u64 (new - old) = u64 (total m' - total (m_ s)) ->
  (forall x, P x <-> covers m' x) ->
  wf (mk m' (_size s +64 (new -64 old))) /\
  forall x, x ∈ mk m' (_size s +64 (new -64 old)) <-> P x.
Proof.
  intros [Hw Hs] Hw' Ht HP. split; [split; cbn [m_ _size]; [done|]|].
  - rewrite Hs, Ht, u64_add_r. replace (_ + _) with (total m') by lia.
    by apply u64_small, total_u64.
  - intros x. by rewrite HP.
Qed.

(** The second loop and the size update, whatever the first step left. *)
Lemma erase_finish s (P : Z -> Prop) end_ lb pre hi old new :
  wf s -> wf_from 0 pre -> wf_from lb hi -> 0 <= lb -> next_lb 0 pre <= Z.max lb end_ ->
  u64 (new - old) = u64 (total pre + total hi - total (m_ s)) ->
  (forall x, P x <-> covers pre x \/ (covers hi x /\ end_ <= x)) ->
  let s' := let '(m, old_len, new_len) := erase_loop (S (length hi)) end_ (pre, hi) old new in
            mk m (_size s +64 (new_len -64 old_len)) in
  wf s' /\ forall x, x ∈ s' <-> P x.
Proof.
  intros Hs Hp Hh Hlb Hn Ht HP s'. subst s'.
  destruct (erase_loop_spec end_ lb pre hi (S (length hi)) old new)
    as (hi' & old' & new' & -> & H1 & H2 & H3); try done; [lia|].
  apply resize_spec; try done.
  - apply wf_from_app. split; [done|]. by eapply wf_from_weaken.
  - rewrite H2, <- u64_add_l, Ht, u64_add_l, total_app. f_equal. lia.
  - intros x. by rewrite HP, covers_app, H3.
Qed.

Lemma erase_spec s off len :
  wf s -> 0 <= off -> 0 <= len -> off + len < 2 ^ 64 ->
  wf (erase s off len) /\
  forall x, x ∈ erase s off len <-> x ∈ s /\ ~ (off <= x < off + len).
Proof.
  intros Hs Hoff Hlen Hov. pose proof Hs as [Hw _]. unfold erase.
  destruct (Z.eqb_spec len 0) as [->|Hne].
  { split; [done|]. intros x. intuition lia. }
  destruct (lower_bound off (m_ s)) as [lo hi] eqn:E.
  destruct (lower_bound_spec _ _ _ _ _ Hw E) as (Em & Hlo & Hhi & Hf).
  assert (forall x, x ∈ s <-> covers lo x \/ covers hi x) as Hin.
  { intros x. unfold elem_of, interval_set_elem_of. by rewrite Em, covers_app. }
  assert (total (m_ s) = total lo + total hi) as Hts by (by rewrite Em, total_app).
  assert (forall x, covers hi x -> off <= x) as Hhi_lb.
  { intros x Hc. pose proof (covers_lb _ _ _ Hhi Hc). lia. }
  unwrap64.
  destruct (last lo) as [[pk pv]|] eqn:El.
  2:{ apply last_None in El. subst lo. eapply erase_finish; try done; simpl; try lia.
    - f_equal. rewrite Hts. lia.
    - intros x. rewrite Hin. pose proof (Hhi_lb x). rewrite !covers_nil.
      destruct (decide (off + len <= x)); intuition lia. }
  apply last_snoc_inv in El. set (lo' := removelast lo) in *. clearbody lo'. subst lo.
  pose proof Hlo as Hlo2. apply wf_from_app in Hlo as [Hlo' Hp].
  simpl in Hp. destruct Hp as (? & ? & ? & _).
  rewrite Forall_app, Forall_singleton in Hf. destruct Hf as [_ Hf]. simpl in Hf.
  pose proof (total_bounds _ _ Hlo'). rewrite total_app, total_cons, total_nil in Hts.
  rewrite next_lb_app in Hhi. simpl in Hhi. unwrap64.
  assert (forall x, covers lo' x -> x < off) as Hlo_ub.
  { intros x Hc. pose proof (covers_next_lb _ _ _ Hlo' Hc). lia. }
  destruct (Z.ltb_spec off (pk + pv)) as [Hcut|Hno].
  2:{ eapply erase_finish; try done; try lia.
    - rewrite next_lb_app. simpl. lia.
    - f_equal. rewrite Hts, total_app, total_cons, total_nil. lia.
    - intros x. rewrite Hin, covers_app, covers_cons, covers_nil.
      pose proof (Hhi_lb x). pose proof (Hlo_ub x).
      destruct (decide (covers lo' x)); [intuition lia|].
      destruct (decide (off + len <= x)); intuition lia. }
  assert (wf_from 0 (lo' ++ [(pk, off - pk)])) as Hwl.
  { apply wf_from_app. split; [done|]. simpl. split_and!; try done; lia. }
  destruct (Z.ltb_spec (off + len) (pk + pv)) as [Hr|Hr]; unwrap64.
  - assert (zip_set (off + len) (pk + pv - (off + len)) (lo' ++ [(pk, off - pk)], hi) =
            ((lo' ++ [(pk, off - pk)]) ++ [(off + len, pk + pv - (off + len))], hi)) as ->.
    { assert (map_set (off + len) (pk + pv - (off + len)) (lo' ++ [(pk, off - pk)]) =
              (lo' ++ [(pk, off - pk)]) ++ [(off + len, pk + pv - (off + len))]) as Hms.
      { rewrite <- (app_nil_r (lo' ++ _)) at 1. eapply map_set_mid; try done.
        rewrite next_lb_app. simpl. lia. }
      unfold zip_set. destruct hi as [|[k0 v0] t]; [by rewrite Hms|].
      simpl in Hhi. destruct (Z.ltb_spec (off + len) k0); [by rewrite Hms|lia]. }
    eapply erase_finish; try done; try lia.
    + apply wf_from_app. split; [done|]. rewrite next_lb_app. simpl. split_and!; lia.
    + rewrite !next_lb_app. simpl. lia.
    + rewrite Hts, !total_app, !total_cons, !total_nil. f_equal. lia.
    + intros x. rewrite Hin, !covers_app, !covers_cons, !covers_nil.
      pose proof (Hlo_ub x).
      assert (covers hi x -> pk + pv < x) by (intros Hc; pose proof (covers_lb _ _ _ Hhi Hc); lia).
      destruct (decide (covers lo' x)); [intuition lia|].
      destruct (decide (covers hi x)); intuition lia.
  - eapply erase_finish; try done; try lia.
    + rewrite next_lb_app. simpl. lia.
    + rewrite Hts, !total_app, !total_cons, !total_nil. f_equal. lia.
    + intros x. rewrite Hin, !covers_app, !covers_cons, !covers_nil.
      pose proof (Hlo_ub x). pose proof (Hhi_lb x).
      destruct (decide (covers lo' x)); [intuition lia|].
      destruct (decide (covers hi x)); intuition lia.
Qed.

(** ** Normal form *)

(** A well-formed map is determined by the points it covers. *)
Lemma wf_from_ext lb1 lb2 m1 m2 :
  wf_from lb1 m1 -> wf_from lb2 m2 -> (forall x, covers m1 x <-> covers m2 x) -> m1 = m2.
Proof.
  revert lb1 lb2 m2. induction m1 as [|[k1 v1] t1 IH]; intros lb1 lb2 [|[k2 v2] t2]; simpl.
  - done.
  - intros _ (? & ? & ? & _) Hx. specialize (Hx k2). rewrite covers_cons, covers_nil in Hx.
    exfalso. apply Hx. lia.
  - intros (? & ? & ? & _) _ Hx. specialize (Hx k1). rewrite covers_cons, covers_nil in Hx.
    exfalso. apply Hx. lia.
  - intros (? & ? & ? & Ht1) (? & ? & ? & Ht2) Hx.
    assert (forall x, covers t1 x -> k1 + v1 < x) as Hb1
      by (intros x Hc; pose proof (covers_lb _ _ _ Ht1 Hc); lia).
    assert (forall x, covers t2 x -> k2 + v2 < x) as Hb2
      by (intros x Hc; pose proof (covers_lb _ _ _ Ht2 Hc); lia).
    setoid_rewrite covers_cons in Hx.
    assert (k2 <= k1) by (destruct (proj1 (Hx k1) ltac:(lia)) as [?|Hc%Hb2]; lia).
    assert (k1 <= k2) by (destruct (proj2 (Hx k2) ltac:(lia)) as [?|Hc%Hb1]; lia).
    assert (k1 = k2) as <- by lia.
    assert (~ v2 < v1) by (intros ?; destruct (proj1 (Hx (k1 + v2)) ltac:(lia)) as [?|Hc%Hb2]; lia).
    assert (~ v1 < v2) by (intros ?; destruct (proj2 (Hx (k1 + v1)) ltac:(lia)) as [?|Hc%Hb1]; lia).
    assert (v1 = v2) as <- by lia.
    f_equal. eapply IH; try done. intros x. specialize (Hx x).
    pose proof (Hb1 x). pose proof (Hb2 x).
    destruct (decide (k1 <= x < k1 + v1)); intuition lia.
Qed.

Lemma interval_set_ext s1 s2 :
  wf s1 -> wf s2 -> (forall x, x ∈ s1 <-> x ∈ s2) -> s1 = s2.
Proof.
  intros [H1 E1] [H2 E2] Hx. destruct s1 as [m1 z1], s2 as [m2 z2]; simpl in *.
  assert (m1 = m2) as <- by (by eapply wf_from_ext). by subst.
Qed.

(** ** Size is cardinality *)

Lemma total_points lb m : wf_from lb m -> Z.of_nat (base.size (points m)) = total m.
Proof.
  revert lb. induction m as [|[k v] t IH]; intros lb; [done|].
  simpl. intros (? & ? & ? & H). rewrite points_cons, total_cons, size_union.
  - rewrite Nat2Z.inj_add, size_zrange by lia. f_equal. by eapply IH.
  - intros x. rewrite elem_of_zrange, elem_of_points. intros ? Hc.
    pose proof (covers_lb _ _ _ H Hc). lia.
Qed.

Lemma size_pts s : wf s -> size s = Z.of_nat (base.size (pts s)).
Proof. intros [Hw Hs]. unfold size, pts. by rewrite Hs, (total_points 0). Qed.

Lemma pts_inj s1 s2 : wf s1 -> wf s2 -> pts s1 = pts s2 -> s1 = s2.
Proof.
  intros H1 H2 E. apply interval_set_ext; try done. intros x.
  by rewrite <- !elem_of_pts, E.
Qed.

Lemma pts_insert s off len :
  wf s -> 0 <= off -> 0 <= len -> off + len < 2 ^ 64 ->
  pts (insert s off len) = zrange off len ∪ pts s.
Proof.
  intros Hs ? ? ?. apply leibniz_equiv. intros x.
  rewrite elem_of_union, !elem_of_pts, elem_of_zrange.
  by apply insert_spec.
Qed.

Lemma pts_erase s off len :
  wf s -> 0 <= off -> 0 <= len -> off + len < 2 ^ 64 ->
  pts (erase s off len) = pts s ∖ zrange off len.
Proof.
  intros Hs ? ? ?. apply leibniz_equiv. intros x.
  rewrite elem_of_difference, !elem_of_pts, elem_of_zrange.
  by apply erase_spec.
Qed.

Lemma empty_wf : wf empty_set.
Proof. done. Qed.

Lemma insert_wf s off len :
  wf s -> 0 <= off -> 0 <= len -> off + len < 2 ^ 64 -> wf (insert s off len).
Proof. intros. by apply insert_spec. Qed.
Lemma erase_wf s off len :
  wf s -> 0 <= off -> 0 <= len -> off + len < 2 ^ 64 -> wf (erase s off len).
Proof. intros. by apply erase_spec. Qed.

(** ** insert_all and the recomputed size *)

Lemma insert_all_spec s lb l :
  wf s -> wf_from lb l -> 0 <= lb ->
  let s' := foldl (fun s '(off, len) => insert s off len) s l in
  wf s' /\ pts s' = pts s ∪ points l.
Proof.
  revert s lb. induction l as [|[k v] t IH]; intros s lb Hs; simpl.
  { intros _ _. split; [done|]. rewrite points_nil. set_solver. }
  intros (? & ? & ? & Ht) ?.
  destruct (IH (insert s k v) _ (insert_wf s k v Hs ltac:(lia) ltac:(lia) ltac:(lia)) Ht)
    as [Hw E]; [lia|].
  split; [done|]. rewrite E, pts_insert, points_cons by (done || lia). set_solver.
Qed.

Lemma recalc_foldl acc m :
  foldl (fun acc '(_, len) => acc +64 len) (u64 acc) m = u64 (acc + total m).
Proof.
  revert acc. induction m as [|[k v] t IH]; intros acc; simpl.
  - f_equal. rewrite total_nil. lia.
  - rewrite u64_add_l, IH, total_cons. f_equal. lia.
Qed.

Lemma recalc_size_spec m : wf_from 0 m -> _recalc_size m = total m.
Proof.
  intros Hm. unfold _recalc_size. change 0 with (u64 0) at 1.
  rewrite recalc_foldl. by apply u64_small, total_u64.
Qed.

(** ** Refinement of sets of integers *)

(** The operations that change an [interval_set]. *)
Inductive op :=
| Insert (off len : Z)
| Erase (off len : Z)
| InsertAll (other : interval_set)
| Clear.

Definition apply_op (s : interval_set) (o : op) : interval_set :=
  match o with
  | Insert off len => insert s off len
  | Erase off len => erase s off len
  | InsertAll other => insert_all s other
  | Clear => clear s
  end.

(** What each of them means for the set of points. *)
Definition abs_op (S : gset Z) (o : op) : gset Z :=
  match o with
  | Insert off len => zrange off len ∪ S
  | Erase off len => S ∖ zrange off len
  | InsertAll other => S ∪ pts other
  | Clear => ∅
  end.

Definition valid_op (o : op) : Prop :=
  match o with
  | Insert off len | Erase off len => 0 <= off /\ 0 <= len /\ off + len < 2 ^ 64
  | InsertAll other => wf other
  | Clear => True
  end.

Lemma apply_op_spec s o :
  wf s -> valid_op o -> wf (apply_op s o) /\ pts (apply_op s o) = abs_op (pts s) o.
Proof.
  intros Hs. destruct o as [off len|off len|other|]; simpl.
  - intros (? & ? & ?). split; [by apply insert_wf|by apply pts_insert].
  - intros (? & ? & ?). split; [by apply erase_wf|by apply pts_erase].
  - intros [Ho _]. by apply (insert_all_spec s 0).
  - done.
Qed.

(** C23: any sequence of [insert], [erase], set insertion and [clear] calls on a
    fresh [interval_set<uint64_t>] (ranges ending below 2^64) keeps the map
    sorted, disjoint and coalesced, holds exactly the points that the same
    sequence of set unions and differences gives, and [size()] is the number of
    those points. *)
Theorem interval_set_refines_sets (ops : list op) :
  Forall valid_op ops ->
  let s := foldl apply_op empty_set ops in
  let S := foldl abs_op ∅ ops in
  wf s /\ pts s = S /\ size s = Z.of_nat (base.size S).
Proof.
  intros Hv. cbv zeta.
  assert (forall s S, wf s -> pts s = S ->
    wf (foldl apply_op s ops) /\ pts (foldl apply_op s ops) = foldl abs_op S ops) as H.
  { induction Hv as [|o ops Ho Hv IH]; intros s S Hs E; simpl; [done|].
    destruct (apply_op_spec s o Hs Ho) as [Hw E']. apply IH; [done|]. by rewrite E', E. }
  destruct (H empty_set ∅ empty_wf eq_refl) as [Hw E].
  split_and!; [done|done|]. by rewrite size_pts, E.
Qed.

Lemma interval_set_refines_sets_witness :
  let ops := [Insert 0 10; Insert 20 5; Insert 10 10; Erase 3 4] in
  Forall valid_op ops /\ foldl apply_op empty_set ops = mk [(0, 3); (7, 18)] 21 /\
  wf (mk [(0, 3); (7, 18)] 21).
Proof.
  cbv zeta. assert (Forall valid_op [Insert 0 10; Insert 20 5; Insert 10 10; Erase 3 4]) as H
    by (repeat constructor; simpl; lia).
  split; [exact H|]. split; [reflexivity|].
  exact (proj1 (interval_set_refines_sets _ H)).
Defined.

(** The map is a normal form: two well-formed interval sets with the same
    points are equal, so inserting ranges in either order, or inserting a range
    twice, gives the same object. *)
Theorem insert_order_irrelevant (s : interval_set) (a la b lb : Z) :
  wf s -> 0 <= a -> 0 <= la -> a + la < 2 ^ 64 -> 0 <= b -> 0 <= lb -> b + lb < 2 ^ 64 ->
  insert (insert s a la) b lb = insert (insert s b lb) a la /\
  insert (insert s a la) a la = insert s a la.
Proof.
  intros. split; apply pts_inj; auto using insert_wf;
    rewrite !pts_insert by auto using insert_wf; set_solver.
Qed.

Lemma insert_order_irrelevant_witness :
  insert (insert empty_set 8 4) 0 8 = insert (insert empty_set 0 8) 8 4.
Proof.
  apply (insert_order_irrelevant empty_set 8 4 0 8); [exact empty_wf|lia..].
Defined.
End IntervalSet.
