(* ===== verification/Allocator.v ===== *)
(** * blk/extent_types.h and blk/allocator.{h,cc}: extents and the allocator interface

    [pextent_t] is what allocators hand out.  The virtual interface [Allocator]
    is the class [Allocator]; [AllocatorSpec] states what its clients may rely
    on, in terms of the set of free bytes, and each implementation is shown to
    satisfy it. *)
From stdpp Require Import base numbers list gmap.
From Stdlib Require Import ZArith Lia.
From S2P Require Import Prelude IntervalSet.

Module Allocator.

Definition INVALID_OFFSET : Z := UINT64_MAX.

Record pextent_t := mk_pextent { offset : Z; length : Z }.

#[global] Instance pextent_eq_dec : EqDecision pextent_t.
Proof. solve_decision. Defined.

(** The constructor [pextent_t(uint64_t o, uint64_t l)] truncates the length. *)
Definition pextent (o l : Z) : pextent_t := mk_pextent o (u32 l).

Definition is_valid (e : pextent_t) : bool := negb (offset e =? INVALID_OFFSET).

Definition pextent_end (e : pextent_t) : Z :=
  if negb (offset e =? INVALID_OFFSET) then offset e +64 length e else INVALID_OFFSET.

(** [Allocator::release(const PExtentVector &)]: the set that is released. *)
Definition release_set_of (v : list pextent_t) : IntervalSet.interval_set :=
  foldl (fun s e => IntervalSet.insert s (offset e) (length e)) IntervalSet.empty_set v.

(** The virtual methods that change or read the state.  [allocate] returns the
    [int64_t] result, the extents it appends, and the new state; [None] is a
    failed assertion. *)
Class Allocator (A : Type) := {
  allocate : Z -> Z -> Z -> Z -> A -> option (Z * list pextent_t * A);
  release : IntervalSet.interval_set -> A -> option A;
  init_add_free : Z -> Z -> A -> option A;
  init_rm_free : Z -> Z -> A -> option A;
  get_free : A -> Z;
  get_capacity : A -> Z;
  get_block_size : A -> Z;
}.

(** [Allocator::allocate(want, block_size, hint, extents)]. *)
Definition allocate_hint `{Allocator A} (want block_size hint : Z) (a : A) :=
  allocate want block_size want hint a.

(** [Allocator::release(const PExtentVector &)]. *)
Definition release_vec `{Allocator A} (v : list pextent_t) (a : A) : option A :=
  release (release_set_of v) a.

(** ** Specification *)

Definition extent_range (e : pextent_t) : gset Z := zrange (offset e) (length e).
Definition extents_set (v : list pextent_t) : gset Z := ⋃ (extent_range <$> v).
#[global] Arguments extents_set : simpl never.

(** Extents are pairwise disjoint, stated from the front of the vector. *)
Fixpoint extents_disjoint (v : list pextent_t) : Prop :=
  match v with
  | [] => True
  | e :: t => extent_range e ## extents_set t /\ extents_disjoint t
  end.

Definition extents_bytes (v : list pextent_t) : Z := sumZ length v.

(** What an allocator promises: [free] is the set of free bytes, [ok] its
    invariant.  It may be given the bytes from [first_usable] on. *)
Class AllocatorSpec (A : Type) `{Allocator A} := {
  ok : A -> Prop;
  free : A -> gset Z;
  first_usable : Z;
  get_free_spec a : ok a -> get_free a = Z.of_nat (size (free a));
  capacity_range a : ok a -> 0 < get_capacity a < 2 ^ 63;
  first_nonneg : 0 <= first_usable;
  free_in_device a x : ok a -> x ∈ free a -> first_usable <= x < get_capacity a;
  (** space handed out was free, is handed out once, and nothing else changes *)
  allocate_spec a want :
    ok a -> 0 < want < 2 ^ 63 -> want mod get_block_size a = 0 ->
    exists r exts a',
      allocate want (get_block_size a) want 0 a = Some (r, exts, a') /\ ok a' /\
      get_capacity a' = get_capacity a /\ get_block_size a' = get_block_size a /\
      extents_disjoint exts /\ free a = extents_set exts ∪ free a' /\
      extents_set exts ## free a' /\
      Forall (fun e => 0 < length e < 2 ^ 32 /\ offset e mod get_block_size a = 0 /\
                       length e mod get_block_size a = 0) exts /\
      extents_bytes exts <= want /\
      r = (if extents_bytes exts =? 0 then - ENOSPC else extents_bytes exts);
  (** returned space is free again *)
  release_spec a s :
    ok a -> IntervalSet.wf s ->
    (forall x, x ∈ IntervalSet.pts s -> first_usable <= x < get_capacity a) ->
    Forall (fun p => p.1 mod get_block_size a = 0 /\ p.2 mod get_block_size a = 0)
      (IntervalSet.m_ s) ->
    IntervalSet.pts s ## free a ->
    exists a', release s a = Some a' /\ ok a' /\
      get_capacity a' = get_capacity a /\ get_block_size a' = get_block_size a /\
      free a' = IntervalSet.pts s ∪ free a;
  (** initial ranges are added *)
  init_add_free_spec a off len :
    ok a -> first_usable <= off -> 0 < len -> off + len <= get_capacity a ->
    off mod get_block_size a = 0 -> len mod get_block_size a = 0 -> zrange off len ## free a ->
    exists a', init_add_free off len a = Some a' /\ ok a' /\
      get_capacity a' = get_capacity a /\ get_block_size a' = get_block_size a /\
      free a' = zrange off len ∪ free a;
}.

(** Allocators from which every free range can be carved out. *)
Class RemoveSpec (A : Type) `{AllocatorSpec A} := {
  init_rm_free_spec a off len :
    ok a -> 0 <= off -> 0 < len -> off + len <= get_capacity a ->
    off mod get_block_size a = 0 -> len mod get_block_size a = 0 -> zrange off len ⊆ free a ->
    exists a', init_rm_free off len a = Some a' /\ ok a' /\
      get_capacity a' = get_capacity a /\ get_block_size a' = get_block_size a /\
      free a' = free a ∖ zrange off len;
}.

(** Allocators that are filled and carved out at any byte, as at the start of a file
    system whose reserved space is not a multiple of its allocation unit. *)
Class CarveSpec (A : Type) `{Allocator A} := {
  carve_ok : A -> Prop;
  carvable : A -> gset Z;
  carve_capacity a : carve_ok a -> 0 < get_capacity a < 2 ^ 63;
  carve_add a off len :
    carve_ok a -> 0 <= off -> 0 < len -> off + len <= get_capacity a -> zrange off len ## carvable a ->
    exists a', init_add_free off len a = Some a' /\ carve_ok a' /\ get_capacity a' = get_capacity a /\
      carvable a' = zrange off len ∪ carvable a;
  carve_rm a off len :
    carve_ok a -> 0 <= off -> 0 < len -> off + len <= get_capacity a -> zrange off len ⊆ carvable a ->
    exists a', init_rm_free off len a = Some a' /\ carve_ok a' /\ get_capacity a' = get_capacity a /\
      carvable a' = carvable a ∖ zrange off len;
}.

(** Allocators that may be given the whole device. *)
Class FromZero (A : Type) `{AllocatorSpec A} : Prop := from_zero : first_usable = 0.

(** ** Lemmas on extents *)

Lemma extents_set_nil : extents_set [] = ∅.
Proof. done. Qed.
Lemma extents_set_cons e v : extents_set (e :: v) = extent_range e ∪ extents_set v.
Proof. done. Qed.

Lemma extents_set_app v1 v2 : extents_set (v1 ++ v2) = extents_set v1 ∪ extents_set v2.
Proof. unfold extents_set. rewrite fmap_app, union_list_app_L. done. Qed.

Lemma extents_disjoint_snoc v e :
  extents_disjoint v -> extents_set v ## extent_range e -> extents_disjoint (v ++ [e]).
Proof.
  induction v as [|a v IH]; simpl; [rewrite !extents_set_nil; set_solver|].
  rewrite extents_set_app, !extents_set_cons, extents_set_nil. intros [? ?] ?.
  split; [set_solver|]. apply IH; [done|]. set_solver.
Qed.

Lemma extents_disjoint_app v1 v2 :
  extents_disjoint v1 -> extents_disjoint v2 -> extents_set v1 ## extents_set v2 -> extents_disjoint (v1 ++ v2).
Proof.
  induction v1 as [|e v1 IH]; simpl; [done|]. rewrite extents_set_app, extents_set_cons. intros [? ?] ? ?.
  split; [set_solver|]. apply IH; [done|done|]. set_solver.
Qed.

Lemma extents_set_perm v1 v2 : v1 ≡ₚ v2 -> extents_set v1 = extents_set v2.
Proof. induction 1; rewrite ?extents_set_cons; set_solver. Qed.

Lemma extents_disjoint_perm v1 v2 : v1 ≡ₚ v2 -> extents_disjoint v1 -> extents_disjoint v2.
Proof.
  induction 1 as [|e v1 v2 Hp IH|e1 e2 v|v1 v2 v3 _ IH1 _ IH2]; simpl; [done| | |tauto].
  - intros [? ?]. rewrite <- (extents_set_perm _ _ Hp). auto.
  - rewrite !extents_set_cons. intros (? & ? & ?). split_and!; try done; set_solver.
Qed.

Lemma extents_bytes_app v1 v2 : extents_bytes (v1 ++ v2) = extents_bytes v1 + extents_bytes v2.
Proof. apply sumZ_app. Qed.

Lemma extents_set_size v :
  extents_disjoint v -> Forall (fun e => 0 <= length e) v ->
  Z.of_nat (size (extents_set v)) = extents_bytes v.
Proof.
  intros Hd Hl. induction Hl as [|e v He Hl IH]; [by rewrite extents_set_nil, size_empty|].
  destruct Hd as [Hd1 Hd2]. rewrite extents_set_cons, size_union by done.
  unfold extent_range at 1, extents_bytes. simpl.
  rewrite Nat2Z.inj_add, size_zrange, IH by done. done.
Qed.

(** A set is [g]-closed when it is a union of whole blocks of [g] bytes. *)
Definition block_closed (g : Z) (S : gset Z) : Prop :=
  forall x y, x / g = y / g -> x ∈ S -> y ∈ S.

Lemma block_closed_union g S T :
  block_closed g S -> block_closed g T -> block_closed g (S ∪ T).
Proof. intros HS HT x y E. rewrite !elem_of_union. intros [?|?]; eauto. Qed.

Lemma block_closed_zrange g off len :
  0 < g -> off mod g = 0 -> len mod g = 0 -> block_closed g (zrange off len).
Proof.
  intros Hg Ho Hl x y E. rewrite !elem_of_zrange.
  apply Z.mod_divide in Ho as [o ->]; [|lia]. apply Z.mod_divide in Hl as [l ->]; [|lia].
  pose proof (Z.div_mod x g ltac:(lia)). pose proof (Z.div_mod y g ltac:(lia)).
  pose proof (Z.mod_pos_bound x g Hg). pose proof (Z.mod_pos_bound y g Hg).
  intros [? ?]. set (q := x / g) in *. rewrite <- E in *.
  assert (o <= q < o + l) by nia. nia.
Qed.

Lemma block_closed_extents g v :
  0 < g -> Forall (fun e => offset e mod g = 0 /\ length e mod g = 0) v ->
  block_closed g (extents_set v).
Proof.
  intros Hg. induction 1 as [|e v [? ?] _ IH]; [intros x y _; by rewrite extents_set_nil|].
  rewrite extents_set_cons. apply block_closed_union; [by apply block_closed_zrange|done].
Qed.

Lemma div_pred x g : 0 < g -> x mod g <> 0 -> (x - 1) / g = x / g.
Proof.
  intros Hg Hm. pose proof (Z.div_mod x g ltac:(lia)). pose proof (Z.mod_pos_bound x g Hg).
  symmetry. apply (Z.div_unique (x - 1) g (x / g) (x mod g - 1)); lia.
Qed.

(** The ranges of a well-formed map of whole blocks are aligned. *)
Lemma closed_aligned g m :
  0 < g -> IntervalSet.wf_from 0 m -> block_closed g (IntervalSet.points m) ->
  Forall (fun p => p.1 mod g = 0 /\ p.2 mod g = 0) m.
Proof.
  intros Hg Hw Hc. apply Forall_forall. intros [k v] Hin. simpl.
  apply list_elem_of_split in Hin as (m1 & m2 & ->).
  assert (forall x, k <= x < k + v -> x ∈ IntervalSet.points (m1 ++ (k, v) :: m2)) as Hyes.
  { intros x Hx. rewrite IntervalSet.elem_of_points, IntervalSet.covers_app, IntervalSet.covers_cons. auto. }
  assert (forall x, x = k - 1 \/ x = k + v -> x ∉ IntervalSet.points (m1 ++ (k, v) :: m2)) as Hno.
  { apply IntervalSet.wf_from_app in Hw as [Hw1 Hw2]. simpl in Hw2. destruct Hw2 as (? & ? & ? & Hw2).
    intros x Hx. rewrite IntervalSet.elem_of_points, IntervalSet.covers_app, IntervalSet.covers_cons.
    intros [Hc1|[?|Hc2]]; [| lia|].
    - pose proof (IntervalSet.covers_next_lb _ _ _ Hw1 Hc1). lia.
    - pose proof (IntervalSet.covers_lb _ _ _ Hw2 Hc2). lia. }
  apply IntervalSet.wf_from_app in Hw as [_ Hw]. simpl in Hw. destruct Hw as (_ & Hv & _).
  assert (k mod g = 0) as Hk.
  { destruct (decide (k mod g = 0)); [done|exfalso].
    apply (Hno (k - 1)); [lia|]. apply (Hc k); [by rewrite div_pred|]. apply Hyes. lia. }
  assert ((k + v) mod g = 0) as He.
  { destruct (decide ((k + v) mod g = 0)); [done|exfalso].
    apply (Hno (k + v)); [lia|]. apply (Hc (k + v - 1)); [by rewrite div_pred|]. apply Hyes. lia. }
  split; [done|]. replace v with (k + v - k) by lia.
  rewrite Zminus_mod, He, Hk. apply Z.mod_0_l. lia.
Qed.

(** The set that [release(const PExtentVector &)] builds. *)
Lemma release_set_spec v s :
  IntervalSet.wf s -> Forall (fun e => 0 <= offset e /\ 0 <= length e /\ offset e + length e < 2 ^ 64) v ->
  let s' := foldl (fun s e => IntervalSet.insert s (offset e) (length e)) s v in
  IntervalSet.wf s' /\ IntervalSet.pts s' = extents_set v ∪ IntervalSet.pts s.
Proof.
  intros Hs Hv. revert s Hs. induction Hv as [|e v (? & ? & ?) _ IH]; intros s Hs; simpl.
  { split; [done|]. rewrite extents_set_nil. set_solver. }
  destruct (IH (IntervalSet.insert s (offset e) (length e))) as [? Hp];
    [by apply IntervalSet.insert_wf|].
  split; [done|]. rewrite Hp, IntervalSet.pts_insert, extents_set_cons by done.
  unfold extent_range. set_solver.
Qed.

(** ** Clients

    A client of an allocator owns what it was given and has not released yet.
    Its steps are the calls that succeed; what it releases, it owns. *)
Section Client.
Context {A : Type} `{AllocatorSpec A}.

Inductive client_step : A * gset Z -> A * gset Z -> Prop :=
| client_allocate a own want r exts a' :
    0 < want < 2 ^ 63 -> want mod get_block_size a = 0 ->
    allocate want (get_block_size a) want 0 a = Some (r, exts, a') ->
    client_step (a, own) (a', own ∪ extents_set exts)
| client_release a own s a' :
    IntervalSet.wf s -> IntervalSet.pts s ⊆ own ->
    Forall (fun p => p.1 mod get_block_size a = 0 /\ p.2 mod get_block_size a = 0)
      (IntervalSet.m_ s) ->
    release s a = Some a' ->
    client_step (a, own) (a', own ∖ IntervalSet.pts s).

Definition client_inv (a0 : A) (c : A * gset Z) : Prop :=
  let '(a, own) := c in
  ok a /\ get_capacity a = get_capacity a0 /\ get_block_size a = get_block_size a0 /\
  own ## free a /\ own ∪ free a = free a0.

Lemma client_inv_init a : ok a -> client_inv a (a, ∅).
Proof. intros. unfold client_inv. split_and!; try done; set_solver. Qed.

Lemma client_step_inv a0 c c' : ok a0 -> client_inv a0 c -> client_step c c' -> client_inv a0 c'.
Proof.
  intros Hok0 Hi Hst. destruct Hst as [a own want r exts a' Hw Hm E|a own s a' Hwf Hsub Hal E];
    destruct Hi as (Hok & Hc & Hb & Hd & Hf).
  - destruct (allocate_spec a want Hok Hw Hm)
      as (r' & exts' & a'' & E' & ? & ? & ? & ? & Hfa & Hda & _).
    rewrite E in E'. injection E' as <- <- <-. split_and!; try congruence; set_solver.
  - destruct (release_spec a s Hok Hwf) as (a'' & E' & ? & ? & ? & Hfa); try done.
    + intros x Hx. rewrite Hc. apply (free_in_device a0 x Hok0). set_solver.
    + set_solver.
    + rewrite E in E'. injection E' as <-. split_and!; try congruence; [set_solver|].
      rewrite Hfa, <- Hf. apply set_eq. intros x.
      destruct (decide (x ∈ IntervalSet.pts s)); set_solver.
Qed.

Lemma client_reachable_inv a0 c : ok a0 -> rtc client_step (a0, ∅) c -> client_inv a0 c.
Proof.
  intros Hok0 Hr. apply (rtc_ind_r (client_inv a0) (a0, ∅)) in Hr; [done|by apply client_inv_init|].
  intros c1 c2 _ Hst Hi. by eapply client_step_inv.
Qed.

(** What a client owns it can release, and the call does not fail. *)
Lemma client_can_release a0 a own s :
  ok a0 -> client_inv a0 (a, own) -> IntervalSet.wf s -> IntervalSet.pts s ⊆ own ->
  Forall (fun p => p.1 mod get_block_size a = 0 /\ p.2 mod get_block_size a = 0)
      (IntervalSet.m_ s) ->
  exists a', release s a = Some a'.
Proof.
  intros Hok0 (Hok & Hc & Hb & Hd & Hf) Hwf Hsub Hal.
  destruct (release_spec a s Hok Hwf) as (a'' & E' & _); try done; [|set_solver|by exists a''].
  intros x Hx. rewrite Hc. apply (free_in_device a0 x Hok0). set_solver.
Qed.
End Client.

End Allocator.
