(* ===== verification/Device.v ===== *)
(** * blk/block_device.{h,cc}: the block device interface

    The virtual methods of [BlockDevice] that the engines call, as a class of
    operations on a device state, and what a device promises about its image as
    a class of laws.  A result below 0 is [-errno].  [ramdisk] is a device whose
    operations succeed whenever they are legal; it shows that the laws can be
    met and runs the examples. *)
From stdpp Require Import base numbers list gmap.
From Stdlib Require Import ZArith Lia.
From S2P Require Import Prelude.

Module Device.

Definition EINVAL : Z := 22.

(** [BlockDevice::is_valid_io] for a device of [size] bytes. *)
Definition is_valid_io (size block_size off len : Z) : bool :=
  if len =? 0 then false
  else if size <=? off then false
  else if off +64 len <? off then false
  else if size <? off +64 len then false
  else if negb (Z.land off (block_size -64 1) =? 0) then false
  else if negb (Z.land len (block_size -64 1) =? 0) then false
  else true.

Class BlockDevice (D : Type) := {
  dev_read : Z -> Z -> bool -> D -> Z * bytes;
  dev_write : Z -> bytes -> bool -> D -> Z * D;
  dev_flush : D -> Z * D;
  dev_size : D -> Z;
}.

(** The bytes of an image from [off] on. *)
Definition image_range (f : Z -> Z) (off : Z) (len : nat) : bytes := f <$> seqZ off (Z.of_nat len).

(** An image after [bl] was written at [off]. *)
Definition image_write (f : Z -> Z) (off : Z) (bl : bytes) (x : Z) : Z :=
  if (off <=? x) && (x <? off + Z.of_nat (length bl)) then nth (Z.to_nat (x - off)) bl 0 else f x.

(** The contract of a device: a successful read returns the image, a
    successful write changes the image in its range only; a failed write may
    leave anything in its range; a flush changes nothing. *)
Class DeviceSpec (D : Type) `{BlockDevice D} := {
  image : D -> Z -> Z;
  read_spec d off len buffered :
    0 <= off -> 0 <= len -> off + len <= dev_size d ->
    0 <= (dev_read off len buffered d).1 ->
    (dev_read off len buffered d).2 = image_range (image d) off (Z.to_nat len);
  write_size d off bl buffered : dev_size (dev_write off bl buffered d).2 = dev_size d;
  write_spec d off bl buffered x :
    0 <= off -> off + Z.of_nat (length bl) <= dev_size d ->
    0 <= (dev_write off bl buffered d).1 ->
    image (dev_write off bl buffered d).2 x = image_write (image d) off bl x;
  write_frame d off bl buffered x :
    x < off \/ off + Z.of_nat (length bl) <= x ->
    image (dev_write off bl buffered d).2 x = image d x;
  flush_spec d x : image (dev_flush d).2 x = image d x;
  flush_size d : dev_size (dev_flush d).2 = dev_size d;
}.

(** A device that serves every legal request, and keeps doing so. *)
Class ReliableDevice (D : Type) `{BlockDevice D} := {
  reliable : D -> Prop;
  read_succeeds d off len : reliable d -> 0 <= off -> 0 <= len -> off + len <= dev_size d ->
    0 <= (dev_read off len true d).1;
  read_direct_succeeds d off len : reliable d -> 0 <= off -> 0 <= len -> off + len <= dev_size d ->
    off mod 4096 = 0 -> len mod 4096 = 0 -> 0 <= (dev_read off len false d).1;
  write_succeeds d off bl : reliable d -> 0 <= off -> off + Z.of_nat (length bl) <= dev_size d ->
    0 <= (dev_write off bl true d).1;
  write_direct_succeeds d off bl :
    reliable d -> 0 <= off -> off + Z.of_nat (length bl) <= dev_size d ->
    off mod 4096 = 0 -> Z.of_nat (length bl) mod 4096 = 0 ->
    0 <= (dev_write off bl false d).1;
  flush_succeeds d : reliable d -> 0 <= (dev_flush d).1;
  write_reliable d off bl buffered : reliable d -> reliable (dev_write off bl buffered d).2;
  flush_reliable d : reliable d -> reliable (dev_flush d).2;
}.

(** ** Images *)

Lemma length_image_range f off len : length (image_range f off len) = len.
Proof. unfold image_range. rewrite length_fmap, length_seqZ. lia. Qed.

Lemma lookup_image_range f off len i :
  (i < len)%nat -> image_range f off len !! i = Some (f (off + Z.of_nat i)).
Proof.
  intros Hi. unfold image_range. rewrite list_lookup_fmap, lookup_seqZ_lt by lia. done.
Qed.

Lemma image_range_ext f h off len :
  (forall x, off <= x < off + Z.of_nat len -> f x = h x) -> image_range f off len = image_range h off len.
Proof.
  intros Hx. unfold image_range. apply list_fmap_ext. intros i x Hl.
  apply lookup_seqZ in Hl as [-> ?]. apply Hx. lia.
Qed.

Lemma image_range_write f off bl : image_range (image_write f off bl) off (length bl) = bl.
Proof.
  apply list_eq_same_length with (n := length bl); [done|apply length_image_range|].
  intros i x y Hi. rewrite lookup_image_range by done. intros [= <-] Hy.
  unfold image_write. replace (off + Z.of_nat i - off) with (Z.of_nat i) by lia. rewrite Nat2Z.id.
  rewrite (proj2 (Z.leb_le _ _)), (proj2 (Z.ltb_lt _ _)) by lia. simpl. by apply nth_lookup_Some.
Qed.

Lemma image_range_frame f off bl o len :
  o + Z.of_nat len <= off \/ off + Z.of_nat (length bl) <= o ->
  image_range (image_write f off bl) o len = image_range f o len.
Proof.
  intros Hd. apply image_range_ext. intros x Hx. unfold image_write.
  destruct (Z.leb_spec off x), (Z.ltb_spec x (off + Z.of_nat (length bl))); simpl; try done; lia.
Qed.

Lemma image_range_app f off n m :
  image_range f off (n + m) = image_range f off n ++ image_range f (off + Z.of_nat n) m.
Proof.
  unfold image_range. rewrite <- fmap_app. f_equal.
  rewrite Nat2Z.inj_add. apply seqZ_app; lia.
Qed.

(** ** A device in memory *)

Record ramdisk := mk_ram { ram : gmap Z Z; ram_size : Z; ram_block : Z }.

Definition ram_image (d : ramdisk) (x : Z) : Z := default 0 (ram d !! x).

Fixpoint ram_put (off : Z) (bl : bytes) (m : gmap Z Z) : gmap Z Z :=
  match bl with [] => m | b :: t => ram_put (off + 1) t (<[off := b]> m) end.

Definition ram_legal (d : ramdisk) (off len : Z) (buffered : bool) : bool :=
  (0 <=? off) && (off + len <=? ram_size d) &&
  (buffered || ((off mod ram_block d =? 0) && (len mod ram_block d =? 0))).

#[global] Instance ramdisk_device : BlockDevice ramdisk := {|
  dev_read off len buffered d :=
    if ram_legal d off len buffered
    then (len, image_range (ram_image d) off (Z.to_nat len)) else (- EINVAL, []);
  dev_write off bl buffered d :=
    if ram_legal d off (Z.of_nat (length bl)) buffered
    then (Z.of_nat (length bl), mk_ram (ram_put off bl (ram d)) (ram_size d) (ram_block d))
    else (- EINVAL, d);
  dev_flush d := (0, d);
  dev_size := ram_size;
|}.

Lemma lookup_ram_put off bl m x :
  default 0 (ram_put off bl m !! x) = image_write (fun y => default 0 (m !! y)) off bl x.
Proof.
  unfold image_write. revert off m. induction bl as [|b bl IH]; intros off m; simpl.
  - destruct (Z.leb_spec off x), (Z.ltb_spec x (off + Z.of_nat 0)); simpl; try done; lia.
  - rewrite IH, Nat2Z.inj_succ. destruct (decide (x = off)) as [->|Hne].
    + rewrite lookup_insert_eq, Z.sub_diag, Z.leb_refl.
      destruct (Z.leb_spec (off + 1) off); [lia|].
      by destruct (Z.ltb_spec off (off + Z.succ (Z.of_nat (length bl)))); [|lia].
    + rewrite lookup_insert_ne by done.
      destruct (Z.leb_spec (off + 1) x), (Z.leb_spec off x), (Z.ltb_spec x (off + 1 + Z.of_nat (length bl))),
        (Z.ltb_spec x (off + Z.succ (Z.of_nat (length bl)))); simpl; try lia; try done.
      by replace (Z.to_nat (x - off)) with (S (Z.to_nat (x - (off + 1)))) by lia.
Qed.

#[global] Program Instance ramdisk_spec : DeviceSpec ramdisk := {| image := ram_image |}.
Next Obligation.
  intros d off len buffered H0 Hl Hd. simpl. destruct (ram_legal _ _ _ _); simpl; [done|].
  unfold EINVAL. lia.
Qed.
Next Obligation. intros d off bl buffered. simpl. by destruct (ram_legal _ _ _ _). Qed.
Next Obligation.
  intros d off bl buffered x H0 Hd. simpl. destruct (ram_legal _ _ _ _); simpl.
  - intros _. apply lookup_ram_put.
  - unfold EINVAL. lia.
Qed.
Next Obligation.
  intros d off bl buffered x Hx. simpl. destruct (ram_legal _ _ _ _); simpl; [|done].
  unfold ram_image at 1. simpl. rewrite lookup_ram_put. unfold image_write.
  destruct (Z.leb_spec off x), (Z.ltb_spec x (off + Z.of_nat (length bl))); simpl; try done; lia.
Qed.
Next Obligation. done. Qed.
Next Obligation. done. Qed.

#[global] Program Instance ramdisk_reliable : ReliableDevice ramdisk := {|
  reliable d := ram_block d = 4096
|}.
Next Obligation.
  intros d off len Hb H0 Hl Hd. simpl in *. unfold ram_legal. rewrite orb_true_l, andb_true_r.
  destruct (Z.leb_spec 0 off), (Z.leb_spec (off + len) (ram_size d)); simpl; lia.
Qed.
Next Obligation.
  intros d off len Hb H0 Hl Hd Ho Hm. simpl in *. unfold ram_legal. rewrite Hb, Ho, Hm.
  destruct (Z.leb_spec 0 off), (Z.leb_spec (off + len) (ram_size d)); simpl; lia.
Qed.
Next Obligation.
  intros d off bl Hb H0 Hd. simpl in *. unfold ram_legal. rewrite orb_true_l, andb_true_r.
  destruct (Z.leb_spec 0 off), (Z.leb_spec (off + Z.of_nat (length bl)) (ram_size d)); simpl; lia.
Qed.
Next Obligation.
  intros d off bl Hb H0 Hd Ho Hm. simpl in *. unfold ram_legal. rewrite Hb, Ho, Hm.
  destruct (Z.leb_spec 0 off), (Z.leb_spec (off + Z.of_nat (length bl)) (ram_size d)); simpl; lia.
Qed.
Next Obligation. intros. simpl. lia. Qed.
Next Obligation. intros d off bl buffered Hb. simpl in *. by destruct (ram_legal _ _ _ _). Qed.
Next Obligation. done. Qed.
End Device.
