(* ===== verification/AvlAllocator.v ===== *)
(** * blk/avl_allocator.{h,cc}: the best-fit/next-fit allocator

    The allocator keeps each free range as one [range_seg_t] node, linked both
    into [range_tree_] (ordered by offset) and into [range_size_tree_] (ordered
    by length).  Each intrusive tree is modelled as the list of its nodes in
    order; a node is identified by its current value, which is unique because
    ranges are disjoint.  The code always unlinks a node from the size tree
    before it changes it, so both lists hold plain values.

    [_spillover_range] is virtual: it is an operation of the class
    [SpillTarget] on the state [C] of the subclass ([unit] for a plain
    [AvlAllocator], the child bitmap for [HybridAllocator]). *)
From stdpp Require Import base numbers list gmap.
From Stdlib Require Import ZArith Lia.
From S2P Require Import Prelude IntArith IntervalSet Allocator.
Import Allocator.

Module Avl.

Record range_seg_t := Seg { start : Z; end_ : Z }.

#[global] Instance range_seg_eq_dec : EqDecision range_seg_t.
Proof. solve_decision. Defined.

Definition seg_length (r : range_seg_t) : Z := end_ r -64 start r.

(** [range_seg_t::shorter_t]. *)
Definition shorter (l r : range_seg_t) : bool :=
  let lhs_size := seg_length l in
  let rhs_size := seg_length r in
  if lhs_size <? rhs_size then true
  else if rhs_size <? lhs_size then false
  else start l <? start r.

(** Insertion into the size multiset, after the elements that are not greater. *)
Fixpoint size_insert (r : range_seg_t) (l : list range_seg_t) : list range_seg_t :=
  match l with
  | [] => [r]
  | a :: t => if shorter r a then r :: l else a :: size_insert r t
  end.

(** [insert_before]: a new node at a position of the offset tree. *)
Definition insert_at (pos : nat) (r : range_seg_t) (l : list range_seg_t) : list range_seg_t :=
  take pos l ++ r :: drop pos l.

(** Tunables, set by the constructor and never changed. *)
Definition MAX_LBAS : nat := 64.
Definition range_size_alloc_threshold_ : Z := 128 * 1024.
Definition range_size_alloc_free_pct_ : Z := 4.
Definition max_search_count_ : Z := 100.
Definition max_search_bytes_ : Z := 16 * 1024 * 1024.

(** The virtual [_spillover_range(start, end)]. *)
Class SpillTarget (C : Type) := { spillover_range : Z -> Z -> C -> option C }.

(** The base class: [cxxlab_assert(false)]. *)
#[global] Instance base_spill : SpillTarget unit := {| spillover_range _ _ _ := None |}.

Section Ops.
Context {C : Type} `{SpillTarget C}.
(** What reading [rs_start->start] gives when [rs_start] is [range_tree_.end()]:
    [_pick_block_after] reads it in its second loop.  Nothing is known of it. *)
Context (end_deref : Z).

Record AvlAllocator := mkAvl {
  range_tree_ : list range_seg_t;
  range_size_tree_ : list range_seg_t;
  num_free_ : Z;
  lbas_ : list Z;
  range_count_cap_ : Z;
  device_size : Z;
  block_size_ : Z;
  child : C;
}.

Definition set_range_tree (t : list range_seg_t) (a : AvlAllocator) : AvlAllocator :=
  mkAvl t (range_size_tree_ a) (num_free_ a) (lbas_ a) (range_count_cap_ a)
    (device_size a) (block_size_ a) (child a).
Definition set_size_tree (t : list range_seg_t) (n : Z) (a : AvlAllocator) : AvlAllocator :=
  mkAvl (range_tree_ a) t n (lbas_ a) (range_count_cap_ a)
    (device_size a) (block_size_ a) (child a).
Definition set_child (c : C) (a : AvlAllocator) : AvlAllocator :=
  mkAvl (range_tree_ a) (range_size_tree_ a) (num_free_ a) (lbas_ a) (range_count_cap_ a)
    (device_size a) (block_size_ a) c.
Definition set_lbas (l : list Z) (a : AvlAllocator) : AvlAllocator :=
  mkAvl (range_tree_ a) (range_size_tree_ a) (num_free_ a) l (range_count_cap_ a)
    (device_size a) (block_size_ a) (child a).

(** The constructor; [sizeof_seg] is [sizeof(range_seg_t)], which depends on
    the layout of the intrusive hooks. *)
Definition create (sizeof_seg dev_size block_size max_mem : Z) (c : C) : AvlAllocator :=
  mkAvl [] [] 0 (replicate MAX_LBAS 0) (max_mem / sizeof_seg) dev_size block_size c.

Definition _lowest_size_available (a : AvlAllocator) : Z :=
  match range_size_tree_ a with [] => 0 | rs :: _ => seg_length rs end.

(** ** Linking and unlinking nodes *)

Definition _range_size_tree_rm (r : range_seg_t) (a : AvlAllocator) : option AvlAllocator :=
  _ ← cxxlab_assert (seg_length r <=? num_free_ a);
  Some (set_size_tree (remove_one r (range_size_tree_ a)) (num_free_ a -64 seg_length r) a).

(** The [remove_lowest] branch of [_try_insert_range]. *)
Definition remove_lowest_range (a : AvlAllocator) : option AvlAllocator :=
  r ← head (range_size_tree_ a);
  a ← _range_size_tree_rm r a;
  c ← spillover_range (start r) (end_ r) (child a);
  let a := set_child c a in
  Some (set_range_tree (remove_one r (range_tree_ a)) a).

Definition _try_insert_range (s e : Z) (insert_pos : option nat) (a : AvlAllocator)
  : option (bool * AvlAllocator) :=
  let res := (range_count_cap_ a =? 0) ||
             (Z.of_nat (List.length (range_size_tree_ a)) <? range_count_cap_ a) in
  let remove_lowest := negb res && (_lowest_size_available a <? e -64 s) in
  let res := res || remove_lowest in
  if negb res then
    c ← spillover_range s e (child a);
    Some (false, set_child c a)
  else
    let a :=
      match insert_pos with
      | Some pos =>
          let new_rs := Seg s e in
          set_size_tree (size_insert new_rs (range_size_tree_ a))
            (num_free_ a +64 seg_length new_rs)
            (set_range_tree (insert_at pos new_rs (range_tree_ a)) a)
      | None => a
      end in
    if remove_lowest then a ← remove_lowest_range a; Some (true, a)
    else Some (true, a).

Definition _range_size_tree_try_insert (r : range_seg_t) (a : AvlAllocator)
  : option AvlAllocator :=
  '(b, a) ← _try_insert_range (start r) (end_ r) None a;
  if b : bool then
    Some (set_size_tree (size_insert r (range_size_tree_ a)) (num_free_ a +64 seg_length r) a)
  else Some (set_range_tree (remove_one r (range_tree_ a)) a).

(** ** Adding and removing ranges *)

(** [range_tree_.upper_bound(range_t{start, end})]. *)
Definition upper_bound (e : Z) (t : list range_seg_t) := span (fun r => e <=? start r) t.

(** [range_tree_.lower_bound(range_t{start, _})]. *)
Definition lower_bound (s : Z) (t : list range_seg_t) := span (fun r => negb (end_ r <=? s)) t.

Definition _add_to_tree (s size : Z) (a : AvlAllocator) : option AvlAllocator :=
  _ ← cxxlab_assert (negb (size =? 0));
  let e := s +64 size in
  let '(before, after) := upper_bound e (range_tree_ a) in
  let rs_before := match last before with
                   | Some b => if end_ b =? s then Some b else None
                   | None => None
                   end in
  let rs_after := match after with
                  | r :: _ => if start r =? e then Some r else None
                  | [] => None
                  end in
  match rs_before, rs_after with
  | Some b, Some r =>
      a ← _range_size_tree_rm b a;
      a ← _range_size_tree_rm r a;
      let n := Seg (start b) (end_ r) in
      let a := set_range_tree (removelast before ++ n :: tail after) a in
      _range_size_tree_try_insert n a
  | Some b, None =>
      a ← _range_size_tree_rm b a;
      let n := Seg (start b) e in
      let a := set_range_tree (removelast before ++ n :: after) a in
      _range_size_tree_try_insert n a
  | None, Some r =>
      a ← _range_size_tree_rm r a;
      let n := Seg s (end_ r) in
      let a := set_range_tree (before ++ n :: tail after) a in
      _range_size_tree_try_insert n a
  | None, None =>
      '(_, a) ← _try_insert_range s e (Some (List.length before)) a;
      Some a
  end.

(** [rs] is the node between [before] and [after] in the offset tree. *)
Definition _process_range_removal (s e : Z) (before : list range_seg_t) (rs : range_seg_t)
    (after : list range_seg_t) (a : AvlAllocator) : option AvlAllocator :=
  let left_over := negb (start rs =? s) in
  let right_over := negb (end_ rs =? e) in
  a ← _range_size_tree_rm rs a;
  if left_over && right_over then
    let old_right_end := end_ rs in
    let l := Seg (start rs) s in
    let a := set_range_tree (before ++ l :: after) a in
    '(_, a) ← _try_insert_range e old_right_end (Some (S (List.length before))) a;
    _range_size_tree_try_insert l a
  else if left_over then
    let l := Seg (start rs) s in
    _range_size_tree_try_insert l (set_range_tree (before ++ l :: after) a)
  else if right_over then
    let r := Seg e (end_ rs) in
    _range_size_tree_try_insert r (set_range_tree (before ++ r :: after) a)
  else Some (set_range_tree (before ++ after) a).

Definition _remove_from_tree (s size : Z) (a : AvlAllocator) : option AvlAllocator :=
  let e := s +64 size in
  _ ← cxxlab_assert (negb (size =? 0));
  let '(before, after) := lower_bound s (range_tree_ a) in
  match after with
  | rs :: after =>
      (* [find]: the lower bound, when the key does not precede it *)
      _ ← cxxlab_assert (negb (e <=? start rs) && (start rs <=? s) && (e <=? end_ rs));
      _ ← cxxlab_assert (size <=? num_free_ a);
      _process_range_removal s e before rs after a
  | [] => None
  end.

(** ** Searching for a block *)

(** Outcome of one of the two scans of [_pick_block_after]. *)
Inductive scan :=
| Found (off : Z)
| GiveUp
| Exhausted (search_count search_bytes : Z).

(** The first loop, from [rs_start] to the end of the tree. *)
Fixpoint scan_forward (first size align search_count search_bytes : Z)
    (l : list range_seg_t) : scan :=
  match l with
  | [] => Exhausted search_count search_bytes
  | rs :: t =>
      let offset := IntArith.p2roundup 64 (start rs) align in
      if offset +64 size <=? end_ rs then Found offset
      else
        let search_count := search_count +32 1 in
        if (0 <? max_search_count_) && (max_search_count_ <? search_count) then GiveUp
        else
          let search_bytes := start rs -64 first in
          if (0 <? max_search_bytes_) && (max_search_bytes_ <? search_bytes) then GiveUp
          else scan_forward first size align search_count search_bytes t
  end.

(** The second loop, from the beginning of the tree to [rs_start]. *)
Fixpoint scan_wrapped (first size align search_count search_bytes : Z)
    (l : list range_seg_t) : scan :=
  match l with
  | [] => Exhausted search_count search_bytes
  | rs :: t =>
      let offset := IntArith.p2roundup 64 (start rs) align in
      if offset +64 size <=? end_ rs then Found offset
      else
        let search_count := search_count +32 1 in
        if (0 <? max_search_count_) && (max_search_count_ <? search_count) then GiveUp
        else if (0 <? max_search_bytes_) &&
                (max_search_bytes_ <? search_bytes +64 (first -64 start rs)) then GiveUp
        else scan_wrapped first size align search_count search_bytes t
  end.

(** Returns the offset (or [-1ULL]) and the new value of [*cursor]. *)
Definition _pick_block_after (cursor size align : Z) (a : AvlAllocator) : Z * Z :=
  let '(before, after) := lower_bound cursor (range_tree_ a) in
  let first := match after with rs :: _ => start rs | [] => end_deref end in
  match scan_forward first size align 0 0 after with
  | Found offset => (offset, offset +64 size)
  | GiveUp => (UINT64_MAX, cursor)
  | Exhausted search_count search_bytes =>
      if cursor =? 0 then (UINT64_MAX, cursor)
      else
        match scan_wrapped first size align search_count search_bytes before with
        | Found offset => (offset, offset +64 size)
        | _ => (UINT64_MAX, cursor)
        end
  end.

Fixpoint scan_fits (size align search_count : Z) (l : list range_seg_t) : Z :=
  match l with
  | [] => UINT64_MAX
  | rs :: t =>
      let search_count := search_count +32 1 in
      if (0 <? max_search_count_) && (max_search_count_ <? search_count) then UINT64_MAX
      else
        let offset := IntArith.p2roundup 64 (start rs) align in
        if offset +64 size <=? end_ rs then offset
        else scan_fits size align search_count t
  end.

Definition _pick_block_fits (size align : Z) (a : AvlAllocator) : Z :=
  (* [lower_bound(range_t{0, size})] in the order [shorter_t] *)
  scan_fits size align 0 (span (fun r => negb (shorter r (Seg 0 size))) (range_size_tree_ a)).2.

(** The [do ... while (size >= unit)] loop: halve the size until a block fits. *)
Definition fits_step (unit : Z) (a : AvlAllocator) (size : Z) : Z + (Z * Z) :=
  let st := _pick_block_fits size unit a in
  if negb (st =? UINT64_MAX) then inr (st, size)
  else
    let size := IntArith.p2align 64 (Z.shiftr size 1) unit in
    if unit <=? size then inl size else inr (UINT64_MAX, size).

(** [Some (Some (offset, length), _)] is the return value 0, [Some (None, _)]
    is [-ENOSPC]. *)
Definition _allocate_single (size unit : Z) (a : AvlAllocator)
  : option (option (Z * Z) * AvlAllocator) :=
  let max_size := match last (range_size_tree_ a) with
                  | Some p => end_ p -64 start p
                  | None => 0
                  end in
  let force_range_size_alloc := max_size <? size in
  if force_range_size_alloc && (max_size <? unit) then Some (None, a)
  else
    let size := if force_range_size_alloc then IntArith.p2align 64 max_size unit else size in
    _ ← cxxlab_assert (negb force_range_size_alloc || (0 <? size));
    let free_pct := (num_free_ a *64 100) / device_size a in
    '(st, a) ←
      (if force_range_size_alloc || (max_size <? range_size_alloc_threshold_) ||
          (free_pct <? range_size_alloc_free_pct_)
       then Some (UINT64_MAX, a)
       else
         let align := Z.land size (u64 (- size)) in
         _ ← cxxlab_assert (negb (align =? 0));
         let i := Z.to_nat (IntArith.cbits align - 1) in
         let '(st, cursor) := _pick_block_after (nth i (lbas_ a) 0) size unit a in
         Some (st, set_lbas (<[i := cursor]> (lbas_ a)) a));
    '(st, size) ←
      (if st =? UINT64_MAX then while (fits_step unit a) 64 size else Some (st, size));
    if st =? UINT64_MAX then Some (None, a)
    else
      a ← _remove_from_tree st size a;
      Some (Some (st, size), a).

(** ** allocate *)

(** One iteration of the loop of [_allocate]; the exit value is [None] when an
    assertion of [_allocate_single] fails. *)
Definition allocate_step (want unit max_alloc_size : Z)
    (s : Z * list pextent_t * AvlAllocator)
  : (Z * list pextent_t * AvlAllocator) + option (Z * list pextent_t * AvlAllocator) :=
  let '(allocated, extents, a) := s in
  if allocated <? want then
    match _allocate_single (Z.min max_alloc_size (want -64 allocated)) unit a with
    | None => inr None
    | Some (None, a) => inr (Some (allocated, extents, a))
    | Some (Some (off, len), a) =>
        inl (allocated +64 len, extents ++ [pextent off len], a)
    end
  else inr (Some (allocated, extents, a)).

Definition _allocate (want unit max_alloc_size hint : Z) (a : AvlAllocator)
  : option (Z * list pextent_t * AvlAllocator) :=
  r ← while (allocate_step want unit max_alloc_size) 64 (0, [], a);
  '(allocated, extents, a) ← r;
  Some (if allocated =? 0 then - ENOSPC else i64 allocated, extents, a).

Definition avl_allocate (want unit max_alloc_size hint : Z) (a : AvlAllocator)
  : option (Z * list pextent_t * AvlAllocator) :=
  _ ← cxxlab_assert (IntArith.isp2 64 unit);
  _ ← cxxlab_assert (want mod unit =? 0);
  let max_alloc_size := if max_alloc_size =? 0 then want else max_alloc_size in
  let cap := UINT32_MAX in
  let max_alloc_size :=
    if cap <=? max_alloc_size then IntArith.p2align 64 cap (u64 (block_size_ a))
    else max_alloc_size in
  _allocate want unit max_alloc_size hint a.

(** ** The rest of the interface *)

(** [_add_to_tree] is virtual: [_release] and [init_add_free] take the one of
    the class of the object. *)
Fixpoint _release_ranges (add_to_tree : Z -> Z -> AvlAllocator -> option AvlAllocator)
    (l : list (Z * Z)) (a : AvlAllocator) : option AvlAllocator :=
  match l with
  | [] => Some a
  | (offset, length) :: t =>
      _ ← cxxlab_assert (offset +64 length <=? u64 (device_size a));
      a ← add_to_tree offset length a;
      _release_ranges add_to_tree t a
  end.

Definition avl_release (release_set : IntervalSet.interval_set) (a : AvlAllocator)
  : option AvlAllocator :=
  _release_ranges _add_to_tree (IntervalSet.m_ release_set) a.

Definition avl_get_free (a : AvlAllocator) : Z := num_free_ a.

Definition avl_foreach (a : AvlAllocator) : list (Z * Z) :=
  (fun rs => (start rs, end_ rs -64 start rs)) <$> range_tree_ a.

Definition init_add_free_with (add_to_tree : Z -> Z -> AvlAllocator -> option AvlAllocator)
    (offset length : Z) (a : AvlAllocator) : option AvlAllocator :=
  if length =? 0 then Some a else
  _ ← cxxlab_assert (offset +64 length <=? u64 (device_size a));
  add_to_tree offset length a.

Definition avl_init_add_free : Z -> Z -> AvlAllocator -> option AvlAllocator := init_add_free_with _add_to_tree.

Definition avl_init_rm_free (offset length : Z) (a : AvlAllocator) : option AvlAllocator :=
  if length =? 0 then Some a else
  _ ← cxxlab_assert (offset +64 length <=? u64 (device_size a));
  _remove_from_tree offset length a.

Definition avl_shutdown (a : AvlAllocator) : AvlAllocator :=
  set_range_tree [] (set_size_tree [] 0 a).
End Ops.
Arguments AvlAllocator : clear implicits.

(** A plain [AvlAllocator], as [Allocator::create(avl, ...)] makes it, and a
    few of its operations on a small device. *)
Example avl_smoke :
  (a ← avl_init_add_free 0 (2 ^ 20) (create 80 (2 ^ 20) 4096 0 tt);
   '(_, _, a) ← avl_allocate 0 8192 4096 0 0 a;
   '(r, exts, a) ← avl_allocate 0 (2 ^ 20) 4096 (2 ^ 18) 0 a;
   Some (r, exts, avl_get_free a)) =
  Some (1040384, [mk_pextent 8192 262144; mk_pextent 270336 262144;
                  mk_pextent 532480 262144; mk_pextent 794624 253952], 0).
Proof. vm_compute. reflexivity. Qed.
End Avl.
