(* ===== verification/AvlAllocatorProofs.v ===== *)
(** * Correctness of the AVL allocator

    The invariant of [Avl.AvlAllocator], its preservation by every operation,
    and what each operation does to the set of free bytes. *)
From stdpp Require Import base numbers list gmap sorting.
From Stdlib Require Import ZArith Lia.
From S2P Require Import Prelude IntArith IntervalSet Allocator AvlAllocator.
Import Allocator Avl.

Module AvlProofs.

(** The range of a node as a pair of the interval-set library. *)
Definition rng (r : range_seg_t) : Z * Z := (start r, end_ r - start r).
Definition tmap (t : list range_seg_t) : list (Z * Z) := rng <$> t.
Definition tpoints (t : list range_seg_t) : gset Z := IntervalSet.points (tmap t).
Definition ttotal (t : list range_seg_t) : Z := IntervalSet.total (tmap t).
Definition seg_range (r : range_seg_t) : gset Z := zrange (start r) (end_ r - start r).

(** What the owner of the spilled ranges promises: it accepts every range that
    is aligned to [g], inside the device [dev] and not already free there. *)
Class SpillSpec (C : Type) `{SpillTarget C} (g dev : Z) := {
  c_inv : C -> Prop;
  c_free : C -> gset Z;
  spill_ok c s e :
    c_inv c -> 0 <= s < e -> e <= dev -> s mod g = 0 -> e mod g = 0 ->
    zrange s (e - s) ## c_free c ->
    exists c', spillover_range s e c = Some c' /\ c_inv c' /\
      c_free c' = zrange s (e - s) ∪ c_free c;
}.

(** The base class never accepts a range: its invariant is empty, and it is
    used with no cap on the number of ranges. *)
#[global] Program Instance base_spill_spec g dev : SpillSpec unit g dev := {|
  c_inv _ := False;
  c_free _ := ∅;
|}.
Next Obligation. intros. done. Qed.

Section Inv.
Context {C : Type} `{SpillTarget C} {g dev : Z} `{!SpillSpec C g dev}.
Abbreviation avl := (AvlAllocator C).
Implicit Types (a : avl) (r n : range_seg_t) (t T X : list range_seg_t).

(** ** The invariant *)

Definition seg_ok (r : range_seg_t) : Prop :=
  start r mod g = 0 /\ end_ r mod g = 0 /\ end_ r <= dev.

Definition tree_wf (t : list range_seg_t) : Prop :=
  IntervalSet.wf_from 0 (tmap t) /\ Forall seg_ok t.

(** [sized T a]: the size tree holds the nodes [T], in order, and [num_free_]
    is their total length. *)
Definition sized (T : list range_seg_t) (a : avl) : Prop :=
  range_size_tree_ a ≡ₚ T /\
  StronglySorted (fun x y => shorter y x = false) (range_size_tree_ a) /\
  num_free_ a = ttotal T.

(** [core X T a]: the offset tree holds [X] and [T], the size tree only [T]. *)
Definition core (X T : list range_seg_t) (a : avl) : Prop :=
  tree_wf (range_tree_ a) /\ range_tree_ a ≡ₚ X ++ T /\ sized T a /\
  0 <= range_count_cap_ a /\ (range_count_cap_ a = 0 \/ c_inv (child a)) /\
  tpoints (range_tree_ a) ## c_free (child a) /\ device_size a = dev.

Definition inv (a : avl) : Prop := core [] (range_tree_ a) a.

Definition avl_free (a : avl) : gset Z := tpoints (range_tree_ a) ∪ c_free (child a).

(** What no operation on ranges changes. *)
Definition same_conf (a a' : avl) : Prop :=
  range_count_cap_ a' = range_count_cap_ a /\ device_size a' = device_size a /\
  block_size_ a' = block_size_ a /\ lbas_ a' = lbas_ a.

(** ** Trees as interval maps *)

Lemma tmap_app t1 t2 : tmap (t1 ++ t2) = tmap t1 ++ tmap t2.
Proof. apply fmap_app. Qed.
Lemma tmap_cons r t : tmap (r :: t) = rng r :: tmap t.
Proof. done. Qed.
Lemma tpoints_cons r t : tpoints (r :: t) = seg_range r ∪ tpoints t.
Proof. done. Qed.
Lemma tpoints_nil : tpoints [] = ∅.
Proof. done. Qed.
Lemma tpoints_app t1 t2 : tpoints (t1 ++ t2) = tpoints t1 ∪ tpoints t2.
Proof.
  induction t1 as [|r t1 IH]; [rewrite tpoints_nil; set_solver|].
  rewrite <- app_comm_cons, !tpoints_cons, IH. set_solver.
Qed.
Lemma tpoints_perm t1 t2 : t1 ≡ₚ t2 -> tpoints t1 = tpoints t2.
Proof. induction 1; rewrite ?tpoints_cons; set_solver. Qed.
Lemma ttotal_cons r t : ttotal (r :: t) = (end_ r - start r) + ttotal t.
Proof. done. Qed.
Lemma ttotal_perm t1 t2 : t1 ≡ₚ t2 -> ttotal t1 = ttotal t2.
Proof. intros E. apply sumZ_Permutation. by apply fmap_Permutation. Qed.

#[local] Instance tpoints_Proper : Proper (Permutation ==> eq) tpoints.
Proof. exact tpoints_perm. Qed.
#[local] Instance ttotal_Proper : Proper (Permutation ==> eq) ttotal.
Proof. exact ttotal_perm. Qed.

Lemma elem_of_seg_range r x : x ∈ seg_range r <-> start r <= x < end_ r.
Proof. unfold seg_range. rewrite elem_of_zrange. lia. Qed.

Lemma elem_of_tpoints t x : x ∈ tpoints t <-> exists r, r ∈ t /\ start r <= x < end_ r.
Proof.
  induction t as [|r t IH].
  - rewrite tpoints_nil. split; [set_solver|]. intros (? & []%not_elem_of_nil & _).
  - rewrite tpoints_cons, elem_of_union, elem_of_seg_range, IH. setoid_rewrite elem_of_cons.
    naive_solver.
Qed.

Lemma tree_wf_app t1 t2 :
  tree_wf (t1 ++ t2) <->
  tree_wf t1 /\ IntervalSet.wf_from (IntervalSet.next_lb 0 (tmap t1)) (tmap t2) /\ Forall seg_ok t2.
Proof.
  unfold tree_wf. rewrite tmap_app, IntervalSet.wf_from_app, Forall_app. tauto.
Qed.

Lemma tree_wf_sub t1 r t2 : tree_wf (t1 ++ r :: t2) -> tree_wf (t1 ++ t2).
Proof.
  rewrite !tree_wf_app, Forall_cons, tmap_cons. simpl. intros (? & (? & ? & ? & Hw) & _ & ?).
  split_and!; try done. eapply IntervalSet.wf_from_weaken; [|done]. lia.
Qed.

(** Every node of a well-formed tree is a non-empty range inside the device. *)
Lemma tree_wf_elem t r :
  tree_wf t -> r ∈ t -> 0 <= start r < end_ r /\ end_ r < 2 ^ 64 /\ seg_ok r.
Proof.
  intros Ht Hr. apply list_elem_of_split in Hr as (t1 & t2 & ->).
  apply tree_wf_app in Ht as ([H1 _] & H2 & H3). apply Forall_cons in H3 as [? _].
  rewrite tmap_cons in H2. simpl in H2. destruct H2 as (? & ? & ? & _).
  pose proof (IntervalSet.total_bounds _ _ H1). split_and!; try done; lia.
Qed.

Lemma tree_wf_NoDup t : tree_wf t -> NoDup t.
Proof.
  intros [Hw _]. revert Hw. generalize 0. induction t as [|r t IH]; intros lb Hw; [constructor|].
  rewrite tmap_cons in Hw. simpl in Hw. destruct Hw as (? & ? & ? & Hw). constructor; [|by eapply IH].
  intros Hr. apply list_elem_of_split in Hr as (t1 & t2 & ->).
  rewrite tmap_app, IntervalSet.wf_from_app, tmap_cons in Hw. simpl in Hw.
  destruct Hw as (Hw1 & ? & ? & ? & _). pose proof (IntervalSet.total_bounds _ _ Hw1). lia.
Qed.

(** Ranges of distinct nodes are disjoint. *)
Lemma tree_wf_disjoint t1 r t2 : tree_wf (t1 ++ r :: t2) -> seg_range r ## tpoints (t1 ++ t2).
Proof.
  intros Ht x Hx Hp. rewrite elem_of_seg_range in Hx. rewrite tpoints_app, elem_of_union in Hp.
  apply tree_wf_app in Ht as ([H1 _] & H2 & _). rewrite tmap_cons in H2. simpl in H2.
  destruct H2 as (? & ? & ? & H2). destruct Hp as [Hp|Hp]; apply IntervalSet.elem_of_points in Hp.
  - pose proof (IntervalSet.covers_next_lb _ _ _ H1 Hp). lia.
  - pose proof (IntervalSet.covers_lb _ _ _ H2 Hp). lia.
Qed.

Lemma tree_wf_order t1 b t2 :
  tree_wf (t1 ++ b :: t2) ->
  (forall r, r ∈ t1 -> end_ r < start b) /\ (forall r, r ∈ t2 -> end_ b < start r).
Proof.
  intros Ht. apply tree_wf_app in Ht as ([H1 _] & H2 & _).
  rewrite tmap_cons in H2. simpl in H2. destruct H2 as (? & ? & ? & H2).
  split; intros r Hr; apply list_elem_of_split in Hr as (l1 & l2 & ->).
  - rewrite tmap_app, tmap_cons, IntervalSet.wf_from_app, IntervalSet.next_lb_app in *.
    simpl in *. destruct H1 as (_ & ? & ? & ? & H1). 
    pose proof (IntervalSet.total_bounds _ _ H1). lia.
  - rewrite tmap_app, tmap_cons, IntervalSet.wf_from_app in H2. simpl in H2.
    destruct H2 as (H2 & ? & _). pose proof (IntervalSet.total_bounds _ _ H2). lia.
Qed.

Lemma remove_one_split t r :
  tree_wf t -> r ∈ t ->
  exists t1 t2, t = t1 ++ r :: t2 /\ remove_one r t = t1 ++ t2.
Proof.
  intros Ht Hr. apply list_elem_of_split in Hr as (t1 & t2 & ->). exists t1, t2.
  split; [done|]. apply remove_one_app. intros Hin.
  pose proof (tree_wf_NoDup _ Ht) as Hn. apply NoDup_app in Hn as (_ & Hd & _).
  apply (Hd r Hin). by left.
Qed.

Lemma seg_length_elem t r : tree_wf t -> r ∈ t -> seg_length r = end_ r - start r.
Proof.
  intros Ht Hr. destruct (tree_wf_elem t r Ht Hr) as (? & ? & _).
  unfold seg_length. unwrap64. done.
Qed.

Lemma ttotal_bounds t : tree_wf t -> 0 <= ttotal t < 2 ^ 64.
Proof. intros [Hw _]. by apply IntervalSet.total_u64. Qed.

Lemma ttotal_app t1 t2 : ttotal (t1 ++ t2) = ttotal t1 + ttotal t2.
Proof. unfold ttotal. by rewrite tmap_app, IntervalSet.total_app. Qed.

Lemma ttotal_sub t X T : tree_wf t -> t ≡ₚ X ++ T -> 0 <= ttotal T <= ttotal t.
Proof.
  intros Ht E. rewrite E, ttotal_app.
  assert (forall L, L ⊆ t -> 0 <= ttotal L) as Hn.
  { intros L HL. apply sumZ_nonneg, Forall_fmap, Forall_forall. intros r Hr. simpl.
    destruct (tree_wf_elem t r Ht) as (? & _); [by apply HL|lia]. }
  pose proof (Hn X). pose proof (Hn T).
  assert (X ⊆ t /\ T ⊆ t) by (split; intros x Hx; rewrite E; set_solver). intuition lia.
Qed.

Lemma core_elem X T a r : core X T a -> r ∈ T -> r ∈ range_tree_ a.
Proof. intros (_ & E & _) Hr. rewrite E. set_solver. Qed.

(** ** The size tree *)

Lemma size_insert_perm r l : size_insert r l ≡ₚ r :: l.
Proof.
  induction l as [|a l IH]; simpl; [done|]. destruct (shorter r a); [done|].
  rewrite IH. apply perm_swap.
Qed.

Lemma shorter_asym x y : shorter x y = true -> shorter y x = false.
Proof. unfold shorter. repeat case_match; zbool; try done; lia. Qed.

Lemma shorter_le_trans x y z : shorter y x = false -> shorter z y = false -> shorter z x = false.
Proof. unfold shorter. repeat case_match; zbool; try done; intros; zbool; try done; lia. Qed.

Lemma size_insert_sorted r l :
  StronglySorted (fun x y => shorter y x = false) l ->
  StronglySorted (fun x y => shorter y x = false) (size_insert r l).
Proof.
  induction 1 as [|a l Hl IH Ha]; simpl; [repeat constructor|].
  destruct (shorter r a) eqn:E.
  - constructor; [by constructor|]. constructor; [by apply shorter_asym|].
    eapply Forall_impl; [exact Ha|]. intros x Hx.
    eapply shorter_le_trans; [|exact Hx]. by apply shorter_asym.
  - constructor; [done|]. rewrite size_insert_perm. by constructor.
Qed.

Lemma remove_one_sorted (R : relation range_seg_t) r l :
  StronglySorted R l -> StronglySorted R (remove_one r l).
Proof.
  assert (forall P l, Forall P l -> Forall P (remove_one r l)) as HF.
  { intros P l'. induction 1; simpl; [constructor|]. case_decide; [done|]. by constructor. }
  induction 1; simpl; [constructor|]. case_decide; [done|]. constructor; auto.
Qed.

Lemma sized_insert t T a r :
  tree_wf t -> r ∈ t -> t ≡ₚ r :: T -> sized T a ->
  sized (r :: T) (set_size_tree (size_insert r (range_size_tree_ a)) (num_free_ a +64 seg_length r) a).
Proof.
  intros Ht Hr E (Hp & Hs & Hn). split_and!; simpl.
  - by rewrite size_insert_perm, Hp.
  - by apply size_insert_sorted.
  - rewrite (seg_length_elem t), Hn, ttotal_cons by done. 
    pose proof (ttotal_bounds t Ht) as Hb. rewrite E, ttotal_cons in Hb. unwrap64. lia.
Qed.

(** Unlinking a node from the size tree: the assertion holds. *)
Lemma size_tree_rm X T a r :
  core X (r :: T) a ->
  exists a', _range_size_tree_rm r a = Some a' /\ sized T a' /\
    range_tree_ a' = range_tree_ a /\ child a' = child a /\ same_conf a a'.
Proof.
  intros (Ht & E & (Hp & Hs & Hn) & _).
  assert (r ∈ range_tree_ a) as Hr by (rewrite E; set_solver).
  unfold _range_size_tree_rm. rewrite (seg_length_elem _ r Ht Hr).
  destruct (tree_wf_elem _ r Ht Hr) as (? & ? & _).
  pose proof (ttotal_sub _ X (r :: T) Ht E) as Hb. rewrite <- Hn in Hb.
  assert (0 <= ttotal T) as HT.
  { eapply (ttotal_sub (range_tree_ a) (X ++ [r])); [done|]. rewrite E.
    by rewrite <- app_assoc. }
  rewrite ttotal_cons in Hn. pose proof (ttotal_bounds _ Ht).
  destruct (Z.leb_spec (end_ r - start r) (num_free_ a)); [|lia]. simpl.
  eexists. split; [done|]. split; [|done]. split_and!; simpl.
  - apply (Permutation_cons_inv (a := r)). rewrite <- Hp, <- remove_one_perm; [done|].
    rewrite Hp. by left.
  - by apply remove_one_sorted.
  - unwrap64. lia.
Qed.

(** ** Insertion into the offset tree *)

Lemma same_conf_refl a : same_conf a a.
Proof. done. Qed.
Lemma same_conf_trans a1 a2 a3 : same_conf a1 a2 -> same_conf a2 a3 -> same_conf a1 a3.
Proof. unfold same_conf. naive_solver congruence. Qed.

(** Replacing the offset tree after the size tree was made to hold [T]. *)
Lemma core_retree X T a0 a t :
  core X T a0 -> forall T' X', sized T' a -> child a = child a0 -> same_conf a0 a ->
  tree_wf t -> t ≡ₚ X' ++ T' -> tpoints t ## c_free (child a0) ->
  core X' T' (set_range_tree t a).
Proof.
  intros (_ & _ & _ & Hc & Hi & _ & Hd) T' X' Hs Ech (Ec & Ed & _) Ht E Hdis.
  split_and!; simpl; try done.
  - by rewrite Ec.
  - by rewrite Ec, Ech.
  - by rewrite Ech.
  - by rewrite Ed.
Qed.

(** Handing a range to the owner of spilled ranges. *)
Lemma core_spill X T a s e :
  core X T a -> range_count_cap_ a <> 0 -> 0 <= s < e -> e <= dev -> s mod g = 0 -> e mod g = 0 ->
  zrange s (e - s) ## c_free (child a) ->
  exists c, spillover_range s e (child a) = Some c /\ c_inv c /\
    c_free c = zrange s (e - s) ∪ c_free (child a).
Proof.
  intros (_ & _ & _ & _ & Hi & _) Hc ? ? ? ? Hd.
  apply spill_ok; try done. by destruct Hi.
Qed.

(** Evicting the smallest range keeps the free space. *)
Lemma remove_lowest_spec X T a :
  core X T a -> range_count_cap_ a <> 0 -> range_size_tree_ a <> [] ->
  exists T' a', remove_lowest_range a = Some a' /\ core X T' a' /\
    avl_free a' = avl_free a /\ same_conf a a'.
Proof.
  intros Hcore Hcap Hne. unfold remove_lowest_range.
  destruct (range_size_tree_ a) as [|r rest] eqn:El; [done|]. simpl.
  pose proof Hcore as (Ht & E & (Hp & Hs & Hn) & H0 & Hi & Hd & Hdev).
  rewrite El in Hp, Hs. assert (T ≡ₚ r :: rest) as ET by done.
  assert (r ∈ range_tree_ a) as Hr by (rewrite E, ET; set_solver).
  assert (core X (r :: rest) a) as Hcore'.
  { unfold core, sized. rewrite El. split_and!; try done; [by rewrite <- ET|].
    by rewrite Hn, ET. }
  destruct (size_tree_rm X rest a r Hcore') as (a1 & -> & Hs1 & Et & Ech & Hconf). simpl.
  destruct (tree_wf_elem _ r Ht Hr) as (? & ? & Hok). destruct Hok as (? & ? & ?).
  destruct (remove_one_split _ r Ht Hr) as (t1 & t2 & Es & Erm).
  destruct (core_spill X T a (start r) (end_ r)) as (c & Hsp & Hci & Hcf); try done.
  { intros x Hx. apply Hd. rewrite Es, tpoints_app, tpoints_cons. set_solver. }
  rewrite Ech, Hsp. simpl. rewrite Et, Erm.
  pose proof (tree_wf_disjoint t1 r t2 ltac:(by rewrite <- Es)) as Hdis.
  rewrite Es in Hd. rewrite tpoints_app, tpoints_cons in Hd. rewrite tpoints_app in Hdis.
  assert (t1 ++ t2 ≡ₚ X ++ rest) as Eperm.
  { apply (Permutation_cons_inv (a := r)). rewrite Permutation_middle, <- Es, E, ET.
    by rewrite Permutation_middle. }
  eexists rest, _. split; [done|]. destruct Hconf as (Ec & Ed & Eb & El').
  split; [split_and!; simpl; try done|split_and!; try done].
  - eapply tree_wf_sub. by rewrite <- Es.
  - by rewrite Ec.
  - by right.
  - rewrite Hcf, tpoints_app. unfold seg_range in *. set_solver.
  - by rewrite Ed.
  - unfold avl_free. simpl. rewrite Hcf, Es, !tpoints_app, tpoints_cons. unfold seg_range. set_solver.
Qed.
Lemma insert_at_app l1 l2 r : insert_at (List.length l1) r (l1 ++ l2) = l1 ++ r :: l2.
Proof. unfold insert_at. by rewrite take_app_length, drop_app_length. Qed.

Lemma seg_length_wf t1 r t2 : tree_wf (t1 ++ r :: t2) -> seg_length r = end_ r - start r.
Proof. intros Ht. eapply seg_length_elem; [done|]. set_solver. Qed.

(** A new node in both trees. *)
Lemma core_insert_new X T a s e l1 l2 :
  core X T a -> range_tree_ a = l1 ++ l2 -> tree_wf (l1 ++ Seg s e :: l2) ->
  zrange s (e - s) ## c_free (child a) ->
  let n := Seg s e in
  let a' := set_size_tree (size_insert n (range_size_tree_ a)) (num_free_ a +64 seg_length n)
              (set_range_tree (insert_at (List.length l1) n (range_tree_ a)) a) in
  core X (n :: T) a' /\ avl_free a' = zrange s (e - s) ∪ avl_free a /\ same_conf a a'.
Proof.
  intros (Ht & E & (Hp & Hs & Hn) & H0 & Hi & Hd & Hdev) El Hw Hdis n a'.
  subst a'. rewrite El, insert_at_app.
  assert (ttotal T <= ttotal (l1 ++ l2) /\ 0 <= ttotal T) as Hb.
  { rewrite <- El. pose proof (ttotal_sub _ X T Ht E). lia. }
  pose proof (ttotal_bounds _ Hw) as Hb2. rewrite ttotal_app, ttotal_cons in Hb2.
  rewrite ttotal_app in Hb. simpl in Hb2.
  destruct (tree_wf_elem _ n Hw) as (? & ? & _); [set_solver|]. simpl in *.
  rewrite El, tpoints_app in Hd.
  split; [split_and!; simpl; try done|split; [|done]].
  - rewrite <- !Permutation_middle. apply perm_skip. by rewrite <- El.
  - split_and!; simpl.
    + by rewrite size_insert_perm, Hp.
    + by apply size_insert_sorted.
    + rewrite (seg_length_wf l1 n l2) by done. simpl. rewrite Hn, ttotal_cons. simpl. unwrap64. lia.
  - rewrite tpoints_app, tpoints_cons. unfold seg_range. simpl. set_solver.
  - unfold avl_free. simpl. rewrite El, !tpoints_app, tpoints_cons. unfold seg_range. simpl. set_solver.
Qed.

Lemma try_insert_new X T a s e l1 l2 :
  core X T a -> range_tree_ a = l1 ++ l2 -> tree_wf (l1 ++ Seg s e :: l2) ->
  zrange s (e - s) ## c_free (child a) ->
  exists b T' a', _try_insert_range s e (Some (List.length l1)) a = Some (b, a') /\
    core X T' a' /\ avl_free a' = zrange s (e - s) ∪ avl_free a /\ same_conf a a'.
Proof.
  intros Hc El Hw Hdis. pose proof (core_insert_new X T a s e l1 l2 Hc El Hw Hdis) as Hins.
  destruct (tree_wf_elem _ (Seg s e) Hw) as (? & ? & Hok); [set_solver|]. simpl in *.
  unfold _try_insert_range. cbv zeta in Hins.
  set (n := Seg s e) in *. set (a1 := set_size_tree _ _ _) in *.
  destruct Hins as (Hc1 & Hf1 & Hconf1).
  destruct ((range_count_cap_ a =? 0) ||
            (Z.of_nat (List.length (range_size_tree_ a)) <? range_count_cap_ a)) eqn:Eres; simpl.
  { exists true, (n :: T), a1. done. }
  zbool. destruct (_ <? _) eqn:Elow; simpl.
  - assert (range_size_tree_ a1 <> []) as Hne.
    { intros Hnil. change (size_insert n (range_size_tree_ a) = []) in Hnil.
      pose proof (size_insert_perm n (range_size_tree_ a)) as Hpp. rewrite Hnil in Hpp.
      by apply Permutation_nil_cons in Hpp. }
    destruct (remove_lowest_spec X (n :: T) a1) as (T' & a' & -> & Hc' & Hf' & Hconf'); try done.
    exists true, T', a'. split; [done|]. split; [done|].
    split; [by rewrite Hf'|by eapply same_conf_trans].
  - destruct Hok as (? & ? & ?). simpl in *.
    destruct (core_spill X T a s e) as (c & -> & Hci & Hcf); try done. simpl.
    exists false, T, (set_child c a). split; [done|].
    pose proof Hc as (Ht & E & Hs & H0' & Hi & Hd & Hdev).
    assert (zrange s (e - s) ## tpoints (range_tree_ a)) as Hnew
      by (rewrite El; apply (tree_wf_disjoint l1 n l2 Hw)).
    split; [split_and!; simpl; try done|split; [|done]].
    + by right.
    + rewrite Hcf. set_solver.
    + unfold avl_free. simpl. rewrite Hcf. set_solver.
Qed.

(** Linking an existing node into the size tree, with its three outcomes. *)
Lemma try_insert_node T a n :
  core [n] T a ->
  exists a', _range_size_tree_try_insert n a = Some a' /\ inv a' /\
    avl_free a' = avl_free a /\ same_conf a a'.
Proof.
  intros Hc.
  assert (forall T a1, core [n] T a1 -> avl_free a1 = avl_free a -> same_conf a a1 ->
    let a' := set_size_tree (size_insert n (range_size_tree_ a1)) (num_free_ a1 +64 seg_length n) a1 in
    inv a' /\ avl_free a' = avl_free a /\ same_conf a a') as Hlink.
  { intros T1 a1 (Ht & E & Hs & H0 & Hi & Hd & Hdev) Hf Hconf a'.
    split; [|split; [exact Hf|exact Hconf]].
    assert (sized (n :: T1) a') as (Hp' & Hs' & Hn').
    { eapply sized_insert; try done. rewrite E. set_solver. }
    unfold inv, core, sized. split_and!; try done.
    - etrans; [exact Hp'|symmetry; exact E].
    - rewrite Hn'. symmetry. apply ttotal_perm. exact E. }
  unfold _range_size_tree_try_insert, _try_insert_range.
  destruct ((range_count_cap_ a =? 0) ||
            (Z.of_nat (List.length (range_size_tree_ a)) <? range_count_cap_ a)) eqn:Eres; simpl.
  { eexists. split; [done|]. by eapply Hlink. }
  zbool. rename H0 into Hcap, H1 into Hfull.
  pose proof Hc as (Ht & E & Hs & Hcap0 & Hi & Hd & Hdev).
  assert (n ∈ range_tree_ a) as Hn by (rewrite E; set_solver).
  destruct (_ <? _) eqn:Elow; simpl.
  - assert (range_size_tree_ a <> []) as Hne.
    { intros En. rewrite En in Hfull. simpl in Hfull. lia. }
    destruct (remove_lowest_spec [n] T a) as (T' & a' & -> & Hc' & Hf' & Hconf'); try done.
    simpl. eexists. split; [done|]. by eapply Hlink.
  - destruct (tree_wf_elem _ n Ht Hn) as (? & ? & ? & ? & ?).
    destruct (remove_one_split _ n Ht Hn) as (t1 & t2 & Es & Erm).
    destruct (core_spill [n] T a (start n) (end_ n)) as (c & -> & Hci & Hcf); try done.
    { intros x Hx. apply Hd. rewrite Es, tpoints_app, tpoints_cons. set_solver. }
    simpl. eexists. split; [done|]. rewrite Erm.
    pose proof (tree_wf_disjoint t1 n t2 ltac:(by rewrite <- Es)) as Hdis.
    rewrite Es in Hd. rewrite tpoints_app, tpoints_cons in Hd. rewrite tpoints_app in Hdis.
    assert (t1 ++ t2 ≡ₚ T) as ET.
    { apply (Permutation_cons_inv (a := n)). by rewrite Permutation_middle, <- Es. }
    split; [|split; [|done]].
    + unfold inv, core, sized. simpl. destruct Hs as (Hp & Hss & Hnum). split_and!; try done.
      * eapply tree_wf_sub. by rewrite <- Es.
      * by rewrite ET.
      * by rewrite ET.
      * by right.
      * rewrite Hcf, tpoints_app. unfold seg_range in *. set_solver.
    + unfold avl_free. simpl. rewrite Hcf, Es, !tpoints_app, tpoints_cons. unfold seg_range. set_solver.
Qed.
Lemma core_perm X T T' a : T ≡ₚ T' -> core X T a -> core X T' a.
Proof.
  intros E (Ht & Ep & (Hp & Hs & Hn) & Hrest). unfold core, sized.
  split_and!; try tauto; [by rewrite <- E|by rewrite <- E|]. by rewrite Hn, E.
Qed.

Lemma core_rm X T a r :
  core X (r :: T) a ->
  exists a', _range_size_tree_rm r a = Some a' /\ core (r :: X) T a' /\
    range_tree_ a' = range_tree_ a /\ child a' = child a /\ same_conf a a'.
Proof.
  intros Hc. destruct (size_tree_rm X T a r Hc) as (a' & -> & Hs & Et & Ech & Hconf).
  exists a'. split; [done|]. split; [|done].
  destruct Hc as (Ht & E & _ & H0 & Hi & Hd & Hdev). destruct Hconf as (Ec & Ed & _).
  unfold core. rewrite Et, Ech, Ec, Ed. split_and!; try done.
  rewrite E. by rewrite <- app_comm_cons, Permutation_middle.
Qed.

(** Replacing, in the offset tree, nodes that are out of the size tree by one
    node [n], and linking it: the common end of the merging branches. *)
Lemma replace_link X T a t n :
  core X T a -> tree_wf t -> t ≡ₚ n :: T -> tpoints t ## c_free (child a) ->
  exists a', _range_size_tree_try_insert n (set_range_tree t a) = Some a' /\ inv a' /\
    avl_free a' = tpoints t ∪ c_free (child a) /\ same_conf a a'.
Proof.
  intros Hc Ht E Hd.
  assert (core [n] T (set_range_tree t a)) as Hc'.
  { eapply core_retree; try done. apply Hc. }
  destruct (try_insert_node T _ n Hc') as (a' & -> & Hi & Hf & Hconf). by exists a'.
Qed.

Lemma span_Forall_split (p : range_seg_t -> bool) t x y :
  span p t = (x, y) -> t = x ++ y.
Proof. intros E. by apply span_spec in E as (-> & _). Qed.

(** Around a range that is not free, the tree splits cleanly. *)
Lemma upper_bound_spec t s e before after :
  tree_wf t -> s < e -> zrange s (e - s) ## tpoints t ->
  upper_bound e t = (before, after) ->
  t = before ++ after /\ (forall r, r ∈ before -> end_ r <= s) /\
  (forall r, r ∈ after -> e <= start r).
Proof.
  intros Ht Hse Hd E. apply span_spec in E as (-> & Hb & Ha). split; [done|].
  assert (forall r, r ∈ before ++ after -> end_ r <= s \/ e <= start r) as Hcase.
  { intros r Hr. destruct (tree_wf_elem _ r Ht Hr) as (? & _).
    destruct (decide (end_ r <= s)); [tauto|]. destruct (decide (e <= start r)); [tauto|].
    exfalso. apply (Hd (Z.max s (start r))); [rewrite elem_of_zrange; lia|].
    rewrite elem_of_tpoints. exists r. split; [done|lia]. }
  split.
  - intros r Hr. rewrite Forall_forall in Hb. specialize (Hb r Hr). simpl in Hb. zbool.
    destruct (Hcase r); [set_solver|lia..].
  - intros r Hr. destruct after as [|r0 after]; [set_solver|]. zbool.
    apply elem_of_cons in Hr as [->|Hr]; [lia|].
    apply tree_wf_order in Ht as Ho. destruct Ho as [_ Ho]. specialize (Ho r Hr).
    destruct (tree_wf_elem _ r0 Ht) as (? & _); [set_solver|lia].
Qed.

(** Geometry of the tree around the new range. *)
Lemma tree_wf_insert l1 l2 s e :
  tree_wf (l1 ++ l2) -> 0 <= s < e -> e < 2 ^ 64 -> seg_ok (Seg s e) ->
  (forall r, r ∈ l1 -> end_ r < s) -> (forall r, r ∈ l2 -> e < start r) ->
  tree_wf (l1 ++ Seg s e :: l2).
Proof.
  rewrite !tree_wf_app, Forall_cons, tmap_cons. simpl.
  intros (Hw1 & Hw2 & Hf) Hs He Hok H1 H2. split_and!; try done; try lia.
  - destruct (last l1) as [b|] eqn:El.
    + apply IntervalSet.last_snoc_inv in El. rewrite El, tmap_app, IntervalSet.next_lb_app. simpl.
      specialize (H1 b). rewrite El in H1. specialize (H1 ltac:(set_solver)). lia.
    + apply last_None in El. subst l1. simpl. lia.
  - destruct l2 as [|r l2]; simpl in *; [done|].
    specialize (H2 r ltac:(set_solver)). intuition lia.
Qed.

Lemma before_strict before after s :
  tree_wf (before ++ after) -> (forall r, r ∈ before -> end_ r <= s) ->
  (forall b, last before = Some b -> end_ b <> s) -> forall r, r ∈ before -> end_ r < s.
Proof.
  intros Ht Hb Hl r Hr. destruct (last before) as [b|] eqn:El;
    [|apply last_None in El; subst; set_solver].
  pose proof (Hl b eq_refl). apply IntervalSet.last_snoc_inv in El.
  assert (b ∈ before) as Hbin by (rewrite El; set_solver). pose proof (Hb b Hbin).
  rewrite El in Hr. apply elem_of_app in Hr as [Hr|Hr];
    [|apply list_elem_of_singleton in Hr as ->; lia].
  rewrite El, <- app_assoc in Ht. apply tree_wf_order in Ht as Ho. destruct Ho as [Ho _].
  specialize (Ho r Hr). destruct (tree_wf_elem _ b Ht) as (? & _); [set_solver|lia].
Qed.

Lemma after_strict before after e :
  tree_wf (before ++ after) -> (forall r, r ∈ after -> e <= start r) ->
  (forall b, head after = Some b -> start b <> e) -> forall r, r ∈ after -> e < start r.
Proof.
  intros Ht Ha Hl r Hr. destruct after as [|b after]; [set_solver|].
  pose proof (Hl b eq_refl). pose proof (Ha b ltac:(set_solver)).
  apply elem_of_cons in Hr as [->|Hr]; [lia|].
  apply tree_wf_order in Ht as Ho. destruct Ho as [_ Ho]. specialize (Ho r Hr).
  destruct (tree_wf_elem _ b Ht) as (? & _); [set_solver|lia].
Qed.

(** The last step of [_add_to_tree], when at least one neighbour is merged:
    the nodes [X] are replaced by [n], which covers them and the new range. *)
Lemma merge_link a0 X l1 l2 a n s e :
  inv a0 -> child a = child a0 -> same_conf a0 a -> core X (l1 ++ l2) a ->
  tree_wf (l1 ++ n :: l2) -> zrange s (e - s) ## avl_free a0 ->
  tpoints (l1 ++ n :: l2) = zrange s (e - s) ∪ tpoints (range_tree_ a0) ->
  exists a', _range_size_tree_try_insert n (set_range_tree (l1 ++ n :: l2) a) = Some a' /\
    inv a' /\ avl_free a' = zrange s (e - s) ∪ avl_free a0 /\ same_conf a0 a'.
Proof.
  intros (_ & _ & _ & _ & _ & Hd & _) Ech Hconf Hc Ht Hdis Ep. unfold avl_free in *.
  destruct (replace_link _ _ a (l1 ++ n :: l2) n Hc) as (a' & -> & Hi & Hf & Hconf'); try done.
  - by rewrite Permutation_middle.
  - rewrite Ep, Ech. set_solver.
  - exists a'. split_and!; try done.
    + unfold avl_free in Hf. rewrite Hf, Ech, Ep. set_solver.
    + by eapply same_conf_trans.
Qed.

Lemma add_to_tree_spec a s size :
  inv a -> 0 <= s -> 0 < size -> s + size <= dev -> dev < 2 ^ 64 ->
  s mod g = 0 -> (s + size) mod g = 0 -> zrange s size ## avl_free a ->
  exists a', _add_to_tree s size a = Some a' /\ inv a' /\
    avl_free a' = zrange s size ∪ avl_free a /\ same_conf a a'.
Proof.
  intros Hinv Hs Hsz Hdev Hd64 Hg1 Hg2 Hdis. unfold _add_to_tree.
  destruct (Z.eqb_spec size 0); [lia|]. simpl. unwrap64.
  set (e := s + size) in *. replace size with (e - s) in * by lia. clearbody e.
  destruct (upper_bound e (range_tree_ a)) as [before after] eqn:Eub.
  pose proof Hinv as (Ht & _ & _ & _ & _ & Hd & _).
  assert (zrange s (e - s) ## tpoints (range_tree_ a)) as Hdt by (unfold avl_free in Hdis; set_solver).
  destruct (upper_bound_spec _ s e _ _ Ht ltac:(lia) Hdt Eub) as (Et & Hb & Ha).
  pose proof Hinv as Hcore. unfold inv in Hcore. rewrite Et in Ht, Hd, Hcore.
  assert (Hok : seg_ok (Seg s e)) by done.
  set (rb := match last before with Some b => _ | None => None end).
  set (ra := match after with [] => None | r :: _ => _ end).
  assert (match rb with
          | Some b => exists l1, before = l1 ++ [b] /\ end_ b = s
          | None => forall r, r ∈ before -> end_ r < s end) as Hrb.
  { subst rb. destruct (last before) as [b|] eqn:El.
    - destruct (Z.eqb_spec (end_ b) s).
      + exists (removelast before). split; [by apply IntervalSet.last_snoc_inv|done].
      + eapply before_strict; try done. intros b'. rewrite El. by intros [= <-].
    - apply last_None in El. subst. set_solver. }
  assert (match ra with
          | Some r => exists l2, after = r :: l2 /\ start r = e
          | None => forall r, r ∈ after -> e < start r end) as Hra.
  { subst ra. destruct after as [|r l2]; [by intros ? ?%not_elem_of_nil|].
    destruct (Z.eqb_spec (start r) e); [by exists l2|].
    eapply after_strict; try done. by intros b' [= <-]. }
  clearbody rb ra. clear Eub.
  destruct rb as [b|], ra as [r|].
  - destruct Hrb as (l1 & -> & Eb), Hra as (l2 & -> & Er). rewrite removelast_last. simpl tail.
    rewrite <- app_assoc in *. simpl app in *.
    destruct (core_rm [] (l1 ++ r :: l2) a b) as (a1 & -> & Hc1 & Et1 & Ech1 & Hconf1).
    { eapply core_perm; [|exact Hcore]. by rewrite Permutation_middle. }
    simpl. destruct (core_rm [b] (l1 ++ l2) a1 r) as (a2 & -> & Hc2 & Et2 & Ech2 & Hconf2).
    { eapply core_perm; [|exact Hc1]. by rewrite Permutation_middle. }
    simpl. apply tree_wf_order in Ht as Ho. destruct Ho as [Ho1 Ho2].
    apply tree_wf_elem with (r := b) in Ht as Hbb; [|set_solver].
    apply tree_wf_elem with (r := r) in Ht as Hrr; [|set_solver].
    destruct Hbb as (? & ? & ? & ? & ?), Hrr as (? & ? & ? & ? & ?).
    rewrite (cons_middle b), app_assoc in Ht. apply tree_wf_order in Ht as Ho3.
    destruct Ho3 as [_ Ho3]. rewrite <- app_assoc in Ht.
    eapply merge_link; try done.
    + by rewrite Ech2.
    + by eapply same_conf_trans.
    + apply tree_wf_insert; simpl; try done; try lia.
      by apply tree_wf_sub, tree_wf_sub in Ht.
    + rewrite Et, !tpoints_app, !tpoints_cons. unfold seg_range. simpl.
      rewrite (zrange_split (start b) s), (zrange_split s e), Eb, Er by lia. set_solver.
  - destruct Hrb as (l1 & -> & Eb). rewrite removelast_last.
    rewrite <- app_assoc in *. simpl app in *.
    destruct (core_rm [] (l1 ++ after) a b) as (a1 & -> & Hc1 & Et1 & Ech1 & Hconf1).
    { eapply core_perm; [|exact Hcore]. by rewrite Permutation_middle. }
    simpl. apply tree_wf_order in Ht as Ho. destruct Ho as [Ho1 Ho2].
    apply tree_wf_elem with (r := b) in Ht as Hbb; [|set_solver].
    destruct Hbb as (? & ? & ? & ? & ?).
    eapply merge_link; try done.
    + apply tree_wf_insert; simpl; try done; try lia. by apply tree_wf_sub in Ht.
    + rewrite Et, !tpoints_app, !tpoints_cons. unfold seg_range. simpl.
      rewrite (zrange_split (start b) s), Eb by lia. set_solver.
  - destruct Hra as (l2 & -> & Er). simpl tail.
    destruct (core_rm [] (before ++ l2) a r) as (a1 & -> & Hc1 & Et1 & Ech1 & Hconf1).
    { eapply core_perm; [|exact Hcore]. by rewrite Permutation_middle. }
    simpl. apply tree_wf_order in Ht as Ho. destruct Ho as [Ho1 Ho2].
    apply tree_wf_elem with (r := r) in Ht as Hrr; [|set_solver].
    destruct Hrr as (? & ? & ? & ? & ?).
    eapply merge_link; try done.
    + apply tree_wf_insert; simpl; try done; try lia. by apply tree_wf_sub in Ht.
    + rewrite Et, !tpoints_app, !tpoints_cons. unfold seg_range. simpl.
      rewrite (zrange_split s e), Er by lia. set_solver.
  - destruct (try_insert_new [] (before ++ after) a s e before after) as (b & T' & a' & -> & Hc' & Hf & Hconf);
      try done.
    + apply tree_wf_insert; try done; lia.
    + unfold avl_free in Hdis. set_solver.
    + simpl. exists a'. split_and!; try done. unfold inv. eapply core_perm; [|exact Hc'].
      destruct Hc' as (_ & E' & _). by rewrite E'.
Qed.
(** ** Removing a range *)

(** A shorter node in the place of a node keeps the tree well formed. *)
Lemma tree_wf_shrink l1 rs l2 s e :
  tree_wf (l1 ++ rs :: l2) -> start rs <= s -> s < e -> e <= end_ rs -> seg_ok (Seg s e) ->
  tree_wf (l1 ++ Seg s e :: l2).
Proof.
  intros Ht ? ? ? Hok. apply tree_wf_order in Ht as Ho. destruct Ho as [Ho1 Ho2].
  apply tree_wf_elem with (r := rs) in Ht as Hr; [|set_solver]. destruct Hr as (? & ? & _).
  apply tree_wf_insert; try done; try lia.
  - by apply tree_wf_sub in Ht.
  - intros r Hr. specialize (Ho1 r Hr). lia.
  - intros r Hr. specialize (Ho2 r Hr). lia.
Qed.

Lemma process_range_removal_spec a s e before rs after :
  inv a -> range_tree_ a = before ++ rs :: after ->
  start rs <= s -> s < e -> e <= end_ rs -> s mod g = 0 -> e mod g = 0 ->
  exists a', _process_range_removal s e before rs after a = Some a' /\ inv a' /\
    avl_free a' = avl_free a ∖ zrange s (e - s) /\ same_conf a a'.
Proof.
  intros Hinv Et H1 H2 H3 Hg1 Hg2. unfold _process_range_removal.
  pose proof Hinv as Hcore. unfold inv in Hcore. rewrite Et in Hcore.
  pose proof Hinv as (Ht & _ & _ & _ & _ & Hd & _). rewrite Et in Ht, Hd.
  destruct (core_rm [] (before ++ after) a rs) as (a1 & -> & Hc1 & Et1 & Ech1 & Hconf1).
  { eapply core_perm; [|exact Hcore]. by rewrite Permutation_middle. }
  simpl. apply tree_wf_elem with (r := rs) in Ht as Hr; [|set_solver].
  destruct Hr as (? & ? & ? & ? & ?). rewrite <- Ech1 in Hd.
  pose proof (tree_wf_disjoint _ _ _ Ht) as Hdis. rewrite tpoints_app in Hdis.
  rewrite tpoints_app, tpoints_cons in Hd. unfold seg_range in Hd, Hdis.
  assert (forall x, x ∈ zrange s (e - s) -> x ∈ zrange (start rs) (end_ rs - start rs)) as Hsub
    by (intros x; rewrite !elem_of_zrange; lia).
  set (A := zrange (start rs) (s - start rs)). set (B := zrange s (e - s)) in *.
  set (D := zrange e (end_ rs - e)).
  assert (zrange (start rs) (end_ rs - start rs) = A ∪ B ∪ D) as Eabd.
  { subst A B D. rewrite (zrange_split (start rs) s), (zrange_split s e) by lia. set_solver. }
  assert (A ## B /\ D ## B) as [HAB HDB].
  { subst A B D. split; intros x; rewrite !elem_of_zrange; lia. }
  assert (avl_free a = tpoints before ∪ (A ∪ B ∪ D) ∪ tpoints after ∪ c_free (child a)) as Efree.
  { unfold avl_free. rewrite Et, tpoints_app, tpoints_cons. unfold seg_range. rewrite Eabd. set_solver. }
  rewrite Eabd in Hd, Hdis. rewrite Efree. rewrite Ech1 in Hd. clear Hsub Efree Eabd.
  destruct (Z.eqb_spec (start rs) s) as [El|El], (Z.eqb_spec (end_ rs) e) as [Er|Er]; simpl.
  - assert (A = ∅ /\ D = ∅) as [-> ->].
    { subst A D. split; apply set_eq; intros x; rewrite elem_of_zrange; set_solver by lia. }
    assert (core [] (before ++ after) (set_range_tree (before ++ after) a1)) as Hc2.
    { eapply core_retree; try done; [apply Hc1|by apply tree_wf_sub in Ht|].
      rewrite tpoints_app, Ech1. set_solver. }
    eexists. split_and!; try done. unfold avl_free. simpl. rewrite Ech1, !tpoints_app. set_solver.
  - assert (A = ∅) as ->.
    { subst A. apply set_eq; intros x; rewrite elem_of_zrange; set_solver by lia. }
    destruct (replace_link _ _ a1 (before ++ Seg e (end_ rs) :: after) (Seg e (end_ rs)) Hc1)
      as (a' & -> & Hi & Hf & Hconf).
    + eapply tree_wf_shrink; try done; try lia; split_and!; simpl; (done || lia).
    + by rewrite Permutation_middle.
    + rewrite tpoints_app, tpoints_cons, Ech1. unfold seg_range. simpl. fold D. set_solver.
    + exists a'. split_and!; try done; [|by eapply same_conf_trans].
      rewrite Hf, tpoints_app, tpoints_cons, Ech1. unfold seg_range. simpl. fold D. set_solver.
  - assert (D = ∅) as ->.
    { subst D. apply set_eq; intros x; rewrite elem_of_zrange; set_solver by lia. }
    destruct (replace_link _ _ a1 (before ++ Seg (start rs) s :: after) (Seg (start rs) s) Hc1)
      as (a' & -> & Hi & Hf & Hconf).
    + eapply tree_wf_shrink; try done; try lia; split_and!; simpl; (done || lia).
    + by rewrite Permutation_middle.
    + rewrite tpoints_app, tpoints_cons, Ech1. unfold seg_range. simpl. fold A. set_solver.
    + exists a'. split_and!; try done; [|by eapply same_conf_trans].
      rewrite Hf, tpoints_app, tpoints_cons, Ech1. unfold seg_range. simpl. fold A. set_solver.
  - assert (tree_wf (before ++ Seg (start rs) s :: after)) as Hw1
      by (eapply tree_wf_shrink; try done; try lia; split_and!; simpl; (done || lia)).
    assert (core [Seg (start rs) s] (before ++ after)
              (set_range_tree (before ++ Seg (start rs) s :: after) a1)) as Hc2.
    { apply (core_retree _ _ _ _ _ Hc1); try done; [apply Hc1|simpl; symmetry; apply Permutation_middle|].
      rewrite tpoints_app, tpoints_cons, Ech1. unfold seg_range. simpl. fold A. set_solver. }
    destruct (try_insert_new _ _ _ e (end_ rs) (before ++ [Seg (start rs) s]) after Hc2)
      as (b & T' & a2 & E2 & Hc3 & Hf2 & Hconf2).
    + simpl. by rewrite <- app_assoc.
    + apply tree_wf_order in Ht as Ho. destruct Ho as [Ho1 Ho2].
      apply tree_wf_insert; simpl; try done; try lia.
      * by rewrite <- app_assoc.
      * intros r. rewrite elem_of_app, list_elem_of_singleton. intros [Hr| ->]; simpl; [|lia].
        specialize (Ho1 r Hr). lia.
    + simpl. rewrite Ech1. fold D. set_solver.
    + rewrite length_app, Nat.add_comm in E2. simpl in E2. rewrite E2. simpl.
      destruct (try_insert_node _ _ _ Hc3) as (a' & -> & Hi & Hf & Hconf).
      exists a'. split_and!; try done.
      * rewrite Hf, Hf2. unfold avl_free. simpl.
        rewrite tpoints_app, tpoints_cons, Ech1. unfold seg_range. simpl. fold A D. set_solver.
      * eapply same_conf_trans; [|exact Hconf]. by eapply same_conf_trans.
Qed.
Lemma lower_bound_elem t s r :
  tree_wf t -> r ∈ t -> start r <= s < end_ r ->
  exists before after, lower_bound s t = (before, r :: after) /\ t = before ++ r :: after.
Proof.
  intros Ht Hr Hs. destruct (lower_bound s t) as [before after] eqn:E.
  apply span_spec in E as (-> & Hb & Ha).
  rewrite Forall_forall in Hb. apply elem_of_app in Hr as [Hr|Hr].
  { specialize (Hb r Hr). simpl in Hb. zbool. lia. }
  destruct after as [|r0 after]; [set_solver|]. zbool.
  apply elem_of_cons in Hr as [->|Hr]; [by eauto|].
  apply tree_wf_order in Ht as Ho. destruct Ho as [_ Ho]. specialize (Ho r Hr). lia.
Qed.

Lemma remove_from_tree_spec a s size r :
  inv a -> r ∈ range_tree_ a -> start r <= s -> 0 < size -> s + size <= end_ r ->
  s mod g = 0 -> (s + size) mod g = 0 ->
  exists a', _remove_from_tree s size a = Some a' /\ inv a' /\
    avl_free a' = avl_free a ∖ zrange s size /\ same_conf a a'.
Proof.
  intros Hinv Hr Hs Hsz He Hg1 Hg2. unfold _remove_from_tree.
  pose proof Hinv as (Ht & _ & (_ & _ & Hn) & _).
  destruct (tree_wf_elem _ r Ht Hr) as (? & ? & _). unwrap64.
  destruct (Z.eqb_spec size 0); [lia|]. simpl.
  destruct (lower_bound_elem _ s r Ht Hr) as (before & after & -> & Et); [lia|].
  destruct (Z.leb_spec (s + size) (start r)); [lia|].
  destruct (Z.leb_spec (start r) s); [|lia]. destruct (Z.leb_spec (s + size) (end_ r)); [|lia].
  simpl. assert (size <= num_free_ a).
  { rewrite Hn, Et, ttotal_app, ttotal_cons.
    assert (0 <= ttotal before /\ 0 <= ttotal after).
    { split; [eapply (ttotal_sub _ (r :: after) before Ht)|eapply (ttotal_sub _ (before ++ [r]) after Ht)];
        rewrite Et; [by rewrite (comm app)|by rewrite <- app_assoc]. }
    lia. }
  destruct (Z.leb_spec size (num_free_ a)); [|lia]. simpl.
  destruct (process_range_removal_spec a s (s + size) before r after) as (a' & -> & Hi & Hf & Hc);
    try done; try lia.
  exists a'. split_and!; try done. rewrite Hf. do 2 f_equal. lia.
Qed.

End Inv.
#[global] Arguments seg_ok g dev r : clear implicits.
#[global] Arguments tree_wf g dev t : clear implicits.
#[global] Arguments core {C H} g dev {SpillSpec0} X T a.
#[global] Arguments inv {C H} g dev {SpillSpec0} a.
#[global] Arguments avl_free {C H} g dev {SpillSpec0} a.
End AvlProofs.
