(* ===== verification/AvlAllocate.v ===== *)
(** * Allocation from the AVL allocator

    The searches of [_pick_block_after] and [_pick_block_fits] only return
    aligned positions inside one free range, their loops end, and [allocate]
    hands out disjoint free extents and nothing else. *)
From stdpp Require Import base numbers list gmap sorting.
From Stdlib Require Import ZArith Lia.
From S2P Require Import Prelude IntArith IntervalSet Allocator AvlAllocator AvlAllocatorProofs.
Import Allocator Avl AvlProofs.

Module AvlAllocate.
Section Inv.
Context {C : Type} `{SpillTarget C} (g dev : Z) `{!SpillSpec C g dev}.
Abbreviation avl := (AvlAllocator C).
Abbreviation inv := (AvlProofs.inv g dev).
Abbreviation tree_wf := (AvlProofs.tree_wf g dev).
Abbreviation avl_free := (AvlProofs.avl_free g dev).
Implicit Types (a : avl) (r n : range_seg_t) (t T X : list range_seg_t).

(** ** Searching *)

Definition same_geom (a a' : avl) : Prop :=
  range_count_cap_ a' = range_count_cap_ a /\ device_size a' = device_size a /\
  block_size_ a' = block_size_ a.

Lemma same_geom_conf a a' : same_conf a a' -> same_geom a a'.
Proof. unfold same_conf, same_geom. tauto. Qed.
Lemma same_geom_trans a1 a2 a3 : same_geom a1 a2 -> same_geom a2 a3 -> same_geom a1 a3.
Proof. unfold same_geom. naive_solver congruence. Qed.

(** [st] is an aligned position where [size] free bytes start. *)
Definition fits_at (a : avl) (unit size st : Z) : Prop :=
  exists r, r ∈ range_tree_ a /\ start r <= st /\ st + size <= end_ r /\ st mod unit = 0.

Section Alloc.
Context (k : Z) (Hk : 0 <= k < 63).
Abbreviation unit := (2 ^ k).
Context (Hdevu : 0 < dev) (Hdev : dev + unit <= 2 ^ 63).
Context (Hg : 0 < g) (Hgu : (g | unit)).

Lemma p2roundup_dev x :
  0 <= x < dev -> x <= IntArith.p2roundup 64 x unit < x + unit /\
  IntArith.p2roundup 64 x unit mod unit = 0.
Proof.
  intros Hx. rewrite IntArith.p2roundup_spec by lia.
  pose proof (IntArith.ceil_mul_bounds x unit ltac:(lia)). split; [done|].
  rewrite Z.mul_comm. apply Z.mod_mul. lia.
Qed.

Lemma fits_node a size r :
  tree_wf (range_tree_ a) -> r ∈ range_tree_ a -> 0 < size <= dev ->
  IntArith.p2roundup 64 (start r) unit +64 size <= end_ r ->
  fits_at a unit size (IntArith.p2roundup 64 (start r) unit).
Proof.
  intros Ht Hr Hs. destruct (tree_wf_elem _ r Ht Hr) as (? & ? & _ & _ & ?).
  destruct (p2roundup_dev (start r)) as [? ?]; [lia|].
  intros Hle. unwrap64_in Hle. exists r. split_and!; try done; lia.
Qed.

Lemma scan_forward_sound a first size sc sb l off :
  tree_wf (range_tree_ a) -> l ⊆ range_tree_ a -> 0 < size <= dev ->
  scan_forward first size unit sc sb l = Found off -> fits_at a unit size off.
Proof.
  intros Ht Hl Hs. revert sc sb. induction l as [|r l IH]; intros sc sb; simpl; [done|].
  destruct (Z.leb_spec (IntArith.p2roundup 64 (start r) unit +64 size) (end_ r)).
  - intros [= <-]. apply fits_node; try done. set_solver.
  - repeat case_match; try done. apply IH. set_solver.
Qed.

Lemma scan_wrapped_sound a first size sc sb l off :
  tree_wf (range_tree_ a) -> l ⊆ range_tree_ a -> 0 < size <= dev ->
  scan_wrapped first size unit sc sb l = Found off -> fits_at a unit size off.
Proof.
  intros Ht Hl Hs. revert sc sb. induction l as [|r l IH]; intros sc sb; simpl; [done|].
  destruct (Z.leb_spec (IntArith.p2roundup 64 (start r) unit +64 size) (end_ r)).
  - intros [= <-]. apply fits_node; try done. set_solver.
  - repeat case_match; try done. apply IH. set_solver.
Qed.

Lemma pick_block_after_sound end_deref a cursor size :
  tree_wf (range_tree_ a) -> 0 < size <= dev ->
  let st := (_pick_block_after end_deref cursor size unit a).1 in
  st = UINT64_MAX \/ fits_at a unit size st.
Proof.
  intros Ht Hs. unfold _pick_block_after.
  destruct (lower_bound cursor (range_tree_ a)) as [before after] eqn:E.
  apply span_spec in E as (E & _).
  assert (before ⊆ range_tree_ a /\ after ⊆ range_tree_ a) as [Hb Ha] by (rewrite E; set_solver).
  destruct (scan_forward _ _ _ _ _ _) eqn:E1; simpl; [|by left|].
  - right. eapply scan_forward_sound; [exact Ht|exact Ha|exact Hs|exact E1].
  - destruct (cursor =? 0); simpl; [by left|].
    destruct (scan_wrapped _ _ _ _ _ _) eqn:E2; simpl; [|by left..].
    right. eapply scan_wrapped_sound; [exact Ht|exact Hb|exact Hs|exact E2].
Qed.

Lemma scan_fits_sound a size sc l :
  tree_wf (range_tree_ a) -> l ⊆ range_tree_ a -> 0 < size <= dev ->
  scan_fits size unit sc l = UINT64_MAX \/ fits_at a unit size (scan_fits size unit sc l).
Proof.
  intros Ht Hl Hs. revert sc. induction l as [|r l IH]; intros sc; simpl; [by left|].
  case_match; [by left|].
  destruct (Z.leb_spec (IntArith.p2roundup 64 (start r) unit +64 size) (end_ r)).
  - right. apply fits_node; try done. set_solver.
  - apply IH. set_solver.
Qed.

Lemma pick_block_fits_sound a size :
  inv a -> 0 < size <= dev ->
  _pick_block_fits size unit a = UINT64_MAX \/ fits_at a unit size (_pick_block_fits size unit a).
Proof.
  intros (Ht & _ & (Hp & _) & _) Hs. apply scan_fits_sound; try done.
  destruct (span _ _) as [x y] eqn:E. apply span_spec in E as (E & _). simpl.
  intros r Hr. rewrite <- Hp, E. set_solver.
Qed.

(** The halving loop ends within 64 iterations, with a block or with none. *)
Lemma fits_loop_spec a size0 :
  inv a -> 0 < size0 <= dev -> size0 mod g = 0 ->
  exists st size, while (fits_step unit a) 64 size0 = Some (st, size) /\
    (st = UINT64_MAX \/ (fits_at a unit size st /\ 0 < size <= size0 /\ size mod g = 0)).
Proof.
  intros Hinv Hs Hm.
  destruct (while_spec (fits_step unit a) (fun z => 0 < z <= size0 /\ z mod g = 0) id
    (fun '(st, size) => st = UINT64_MAX \/
       (fits_at a unit size st /\ 0 < size <= size0 /\ size mod g = 0))) with (n := 64%nat) (s := size0)
    as ([st size] & -> & HQ).
  - intros z [Hz Hzm]. unfold fits_step.
    pose proof (pick_block_fits_sound a z Hinv ltac:(lia)) as Hp.
    destruct (Z.eqb_spec (_pick_block_fits z unit a) UINT64_MAX); simpl; [|by right; naive_solver].
    rewrite Z.shiftr_div_pow2 by lia. change (2 ^ 1) with 2. set (q := z / 2).
    assert (0 <= q /\ 2 * q <= z) by (subst q; split; [apply Z.div_pos; lia|apply Z.mul_div_le; lia]).
    rewrite IntArith.p2align_spec by (unfold uint; lia).
    pose proof (Z.mul_div_le q unit ltac:(lia)).
    destruct (Z.leb_spec unit (unit * (q / unit))); [|by left].
    split; [split; [lia|]|simpl; unfold id; lia].
    apply Z.mod_divide; [lia|]. apply Z.divide_mul_l. done.
  - split; [lia|done].
  - change (Z.of_nat 64) with 64. unfold id. assert (dev < 2 ^ 64) by lia. lia.
  - by exists st, size.
Qed.

(** The largest range, from the end of the size tree. *)
Definition max_size (a : avl) : Z :=
  match last (range_size_tree_ a) with Some p => end_ p -64 start p | None => 0 end.

Lemma max_size_bounds a : inv a -> 0 <= max_size a <= dev.
Proof.
  intros (Ht & _ & (Hp & _) & _). unfold max_size.
  destruct (last (range_size_tree_ a)) as [p|] eqn:E; [|lia].
  assert (p ∈ range_tree_ a) as Hin.
  { rewrite <- Hp. apply IntervalSet.last_snoc_inv in E. rewrite E. set_solver. }
  destruct (tree_wf_elem _ p Ht Hin) as (? & ? & _ & _ & ?). unwrap64. lia.
Qed.

Lemma inv_set_lbas a l : inv a -> inv (set_lbas l a).
Proof. done. Qed.

Lemma p2align_unit x : 0 <= x < 2 ^ 64 ->
  IntArith.p2align 64 x unit <= x /\ IntArith.p2align 64 x unit mod g = 0 /\
  (unit <= x -> unit <= IntArith.p2align 64 x unit).
Proof.
  intros Hx. rewrite IntArith.p2align_spec by (unfold uint; lia).
  pose proof (Z.mul_div_le x unit ltac:(lia)). split_and!; [lia| |].
  - apply Z.mod_divide; [lia|]. by apply Z.divide_mul_l.
  - intros. assert (1 <= x / unit) by (apply Z.div_le_lower_bound; lia). nia.
Qed.

(** Taking the block that a search found. *)
Lemma take_block a size st :
  inv a -> fits_at a unit size st -> 0 < size -> size mod g = 0 ->
  exists a', _remove_from_tree st size a = Some a' /\ inv a' /\ same_geom a a' /\
    st mod unit = 0 /\ 0 <= st /\ st + size <= dev /\
    zrange st size ⊆ avl_free a /\ avl_free a' = avl_free a ∖ zrange st size.
Proof.
  intros Hinv (r & Hr & H1 & H2 & H3) Hs Hm. pose proof Hinv as (Ht & _).
  destruct (tree_wf_elem _ r Ht Hr) as (? & ? & _ & _ & ?).
  assert (st mod g = 0) as Hg1.
  { apply Z.mod_divide; [lia|]. etrans; [exact Hgu|]. by apply Z.mod_divide; [lia|]. }
  assert ((st + size) mod g = 0) as Hg2.
  { rewrite Z.add_mod, Hg1, Hm by lia. by rewrite Z.mod_0_l by lia. }
  destruct (remove_from_tree_spec a st size r Hinv Hr H1 Hs H2 Hg1 Hg2) as (a' & -> & Hi & Hf & Hc).
  exists a'. split_and!; try done; try lia; [by apply same_geom_conf|].
  intros x. rewrite elem_of_zrange. intros Hx. unfold AvlProofs.avl_free.
  apply elem_of_union_l, elem_of_tpoints. exists r. split; [done|lia].
Qed.

(** [_allocate_single] gives one aligned block of at most [size] free bytes, or
    leaves the free space as it is; no assertion fails. *)
Lemma allocate_single_spec end_deref a size :
  inv a -> 0 < size < 2 ^ 64 -> size mod g = 0 ->
  exists res a', _allocate_single end_deref size unit a = Some (res, a') /\ inv a' /\
    same_geom a a' /\
    match res with
    | None => range_tree_ a' = range_tree_ a /\ avl_free a' = avl_free a
    | Some (off, len) =>
        0 < len <= size /\ off mod unit = 0 /\ len mod g = 0 /\ 0 <= off /\ off + len <= dev /\
        zrange off len ⊆ avl_free a /\ avl_free a' = avl_free a ∖ zrange off len
    end.
Proof.
  intros Hinv Hs Hm. unfold _allocate_single. fold (max_size a).
  pose proof (max_size_bounds a Hinv) as Hmax.
  destruct ((max_size a <? size) && (max_size a <? unit)) eqn:E1; zbool.
  { eexists _, _. split; [done|]. split_and!; done. }
  set (size1 := if max_size a <? size then _ else size).
  assert (0 < size1 <= size /\ size1 <= dev /\ size1 mod g = 0) as (Hs1 & Hs1d & Hm1).
  { subst size1. destruct (Z.ltb_spec (max_size a) size).
    - destruct (p2align_unit (max_size a)) as (? & ? & Hge); [lia|].
      assert (unit <= max_size a) by (destruct E1; zbool; lia). specialize (Hge ltac:(done)). lia.
    - lia. }
  clearbody size1. destruct (Z.ltb_spec 0 size1); [|lia]. rewrite orb_true_r. simpl.
  set (blk := if _ || _ then _ else _).
  assert (exists st1 a1, blk = Some (st1, a1) /\ inv a1 /\ range_tree_ a1 = range_tree_ a /\
    avl_free a1 = avl_free a /\ same_geom a a1 /\
    (st1 = UINT64_MAX \/ fits_at a1 unit size1 st1)) as (st1 & a1 & -> & Hi1 & Et1 & Ef1 & Hgm1 & Hst1).
  { subst blk. case_match.
    - eexists _, a. split_and!; try done. by left.
    - destruct (Z.eqb_spec (Z.land size1 (u64 (- size1))) 0) as [E0|_].
      { exfalso. revert E0. apply (IntArith.lowbit_nonzero 64); lia. }
      simpl. set (cur := nth _ _ _).
      pose proof (pick_block_after_sound end_deref a cur size1 (proj1 Hinv) ltac:(lia)) as Hp.
      destruct (_pick_block_after end_deref cur size1 unit a) as [st c]. simpl in Hp.
      eexists _, _. split; [done|]. split_and!; try done. }
  simpl.
  set (lp := if st1 =? UINT64_MAX then _ else _).
  assert (exists st2 size2, lp = Some (st2, size2) /\
    (st2 = UINT64_MAX \/ (fits_at a1 unit size2 st2 /\ 0 < size2 <= size1 /\ size2 mod g = 0)))
    as (st2 & size2 & -> & Hst2).
  { subst lp. destruct (Z.eqb_spec st1 UINT64_MAX).
    - apply fits_loop_spec; try done; lia.
    - exists st1, size1. split; [done|]. right. destruct Hst1; [done|]. split_and!; try done; lia. }
  simpl. destruct (Z.eqb_spec st2 UINT64_MAX) as [_|Hne].
  { eexists _, a1. split; [done|]. split_and!; done. }
  destruct Hst2 as [?|(Hfit & Hs2 & Hm2)]; [done|].
  destruct (take_block a1 size2 st2 Hi1 Hfit ltac:(lia) Hm2)
    as (a' & -> & Hi' & Hgm' & ? & ? & ? & Hsub & Hf'). simpl.
  eexists _, a'. split; [done|]. split; [done|]. split; [by eapply same_geom_trans|].
  rewrite <- Ef1. split_and!; try done; lia.
Qed.

(** ** The loop of [_allocate] *)

Definition extent_ok (e : pextent_t) : Prop :=
  0 < length e < 2 ^ 32 /\ offset e mod unit = 0 /\ length e mod g = 0 /\
  0 <= offset e /\ offset e + length e <= dev.

(** [exts] was taken from the free space of [a], leaving [a']. *)
Definition taken (a : avl) (exts : list pextent_t) (a' : avl) : Prop :=
  inv a' /\ same_geom a a' /\ Forall extent_ok exts /\ extents_disjoint exts /\
  avl_free a = extents_set exts ∪ avl_free a' /\ extents_set exts ## avl_free a'.

Lemma taken_refl a : inv a -> taken a [] a.
Proof.
  intros. unfold taken. rewrite extents_set_nil. split_and!; try done; set_solver.
Qed.

Lemma extent_range_pextent off len :
  0 <= len < 2 ^ 32 -> extent_range (pextent off len) = zrange off len.
Proof. intros. unfold extent_range, pextent. simpl. by rewrite u32_small. Qed.

Lemma taken_snoc a exts a1 off len a' :
  taken a exts a1 -> inv a' -> same_geom a1 a' -> extent_ok (mk_pextent off len) ->
  zrange off len ⊆ avl_free a1 -> avl_free a' = avl_free a1 ∖ zrange off len ->
  taken a (exts ++ [pextent off len]) a'.
Proof.
  intros (Hi & Hgm & Hok & Hd & Hf & Hdd) Hi' Hgm' He Hsub Hf'.
  pose proof He as ((? & ?) & _). simpl in *.
  unfold taken. rewrite extents_set_app, extents_set_cons, extents_set_nil, extent_range_pextent, Hf' by lia.
  split_and!; try done.
  - by eapply same_geom_trans.
  - apply Forall_app. split; [done|]. constructor; [|done]. unfold pextent. by rewrite u32_small by lia.
  - apply extents_disjoint_snoc; [done|]. rewrite extent_range_pextent by lia. set_solver.
  - rewrite Hf. apply set_eq. intros x. destruct (decide (x ∈ zrange off len)); set_solver.
  - set_solver.
Qed.

Lemma extents_bytes_mod exts : Forall extent_ok exts -> extents_bytes exts mod g = 0.
Proof.
  unfold extents_bytes. induction 1 as [|e l (_ & _ & He & _) _ IH]; simpl; [apply Z.mod_0_l; lia|].
  rewrite Z.add_mod, He, IH by lia. apply Z.mod_0_l. lia.
Qed.

Lemma extents_bytes_nonneg exts : Forall extent_ok exts -> 0 <= extents_bytes exts.
Proof. unfold extents_bytes. induction 1 as [|e l ((? & ?) & _) _ IH]; simpl; lia. Qed.

Lemma min_mod x y : x mod g = 0 -> y mod g = 0 -> Z.min x y mod g = 0.
Proof. intros. by destruct (Z.min_spec x y) as [[_ ->]|[_ ->]]. Qed.

Definition loop_inv (a : avl) (want mx : Z) (s : Z * list pextent_t * avl) : Prop :=
  let '(allocated, exts, a1) := s in
  taken a exts a1 /\ Forall (fun e => length e <= mx) exts /\
  allocated = extents_bytes exts /\ allocated <= want.

Lemma allocate_step_spec end_deref a want mx s :
  0 < want < 2 ^ 63 -> want mod g = 0 -> 0 < mx < 2 ^ 32 -> mx mod g = 0 ->
  loop_inv a want mx s ->
  match allocate_step end_deref want unit mx s with
  | inl s' => loop_inv a want mx s' /\ 0 <= want - s'.1.1 < want - s.1.1
  | inr None => False
  | inr (Some s') =>
      loop_inv a want mx s' /\
      (s'.1.1 = want \/
       exists size, 0 < size <= want - s.1.1 /\ size mod g = 0 /\ size <= mx /\ s'.1.1 = s.1.1 /\
         _allocate_single end_deref size unit s.2 = Some (None, s'.2))
  end.
Proof.
  destruct s as [[al exts] a1]. intros Hw Hwm Hmx Hmm (Ht & Hcap & -> & Hle). simpl.
  pose proof Ht as (Hi & _ & Hok & _).
  pose proof (extents_bytes_nonneg _ Hok). pose proof (extents_bytes_mod _ Hok) as Hbm.
  destruct (Z.ltb_spec (extents_bytes exts) want); [|split; [done|]; left; simpl; lia].
  unwrap64. set (size := Z.min mx (want - extents_bytes exts)).
  assert (size mod g = 0) as Hsm.
  { apply min_mod; [done|]. rewrite Zminus_mod, Hwm, Hbm. by apply Z.mod_0_l; lia. }
  assert (0 < size <= want - extents_bytes exts /\ size <= mx) as [? ?] by (subst size; lia).
  clearbody size.
  destruct (allocate_single_spec end_deref a1 size Hi ltac:(lia) Hsm) as (res & a' & E & Hi' & Hgm & Hres).
  rewrite E. destruct res as [[off len]|].
  - destruct Hres as (? & ? & ? & ? & ? & Hsub & Hf). simpl. unwrap64.
    split; [|lia]. rewrite extents_bytes_app. unfold extents_bytes at 3. simpl.
    rewrite u32_small by lia. split_and!; [| |lia..].
    + eapply taken_snoc; try done. unfold extent_ok. simpl. split_and!; try done; lia.
    + apply Forall_app. split; [done|]. constructor; [|done]. simpl. rewrite u32_small; lia.
  - destruct Hres as [_ Hf]. split.
    + destruct Ht as (_ & Hgm0 & Hok0 & Hd & Hff & Hdd). split; [|done].
      unfold taken. rewrite Hf. split_and!; try done. by eapply same_geom_trans.
    + right. exists size. simpl. split_and!; try done; lia.
Qed.

(** The loop ends, and gives out free space once. *)
Lemma allocate_loop_spec end_deref a want mx :
  inv a -> 0 < want < 2 ^ 63 -> want mod g = 0 -> 0 < mx < 2 ^ 32 -> mx mod g = 0 ->
  exists allocated exts a',
    while (allocate_step end_deref want unit mx) 64 (0, [], a) = Some (Some (allocated, exts, a')) /\
    loop_inv a want mx (allocated, exts, a') /\
    (allocated = want \/
     exists a0 size, inv a0 /\ 0 < size /\ size mod g = 0 /\ size <= mx /\
       _allocate_single end_deref size unit a0 = Some (None, a')).
Proof.
  intros Hi Hw Hwm Hmx Hmm.
  destruct (while_spec (allocate_step end_deref want unit mx) (loop_inv a want mx) (fun s => want - s.1.1)
    (fun res => exists allocated exts a', res = Some (allocated, exts, a') /\
       loop_inv a want mx (allocated, exts, a') /\
       (allocated = want \/ exists a0 size, inv a0 /\ 0 < size /\ size mod g = 0 /\ size <= mx /\
          _allocate_single end_deref size unit a0 = Some (None, a'))))
    with (n := 64%nat) (s := (0, @nil pextent_t, a)) as (res & -> & al & exts & a' & -> & Hl & Hr).
  - intros s Hs. pose proof (allocate_step_spec end_deref a want mx s Hw Hwm Hmx Hmm Hs) as Hstep.
    destruct (allocate_step _ _ _ _ s) as [s'|[[[al exts] a']|]]; try done.
    destruct Hstep as [Hl Hr]. exists al, exts, a'. split_and!; try done.
    destruct Hr as [?|(size & ? & ? & ? & _ & ?)]; [by left|right].
    destruct s as [[al0 exts0] a0], Hs as ((Hi0 & _) & _). exists a0, size. split_and!; try done; lia.
  - split; [by apply taken_refl|]. split_and!; [done..|lia].
  - simpl. change (Z.of_nat 64) with 64. lia.
  - by exists al, exts, a'.
Qed.

(** ** Completeness when every range is aligned to the unit *)

Lemma max_size_spec a r : inv a -> r ∈ range_tree_ a -> end_ r - start r <= max_size a.
Proof.
  intros (Ht & _ & (Hp & Hsort & _) & _) Hr. unfold max_size.
  rewrite <- Hp in Hr.
  destruct (last (range_size_tree_ a)) as [p|] eqn:E.
  2:{ apply last_None in E. rewrite E in Hr. by apply not_elem_of_nil in Hr. }
  apply IntervalSet.last_snoc_inv in E. rewrite E in Hr, Hsort.
  assert (p ∈ range_tree_ a) as Hpt by (rewrite <- Hp, E; set_solver).
  assert (r ∈ range_tree_ a) as Hrt by (rewrite <- Hp, E; done).
  destruct (tree_wf_elem _ p Ht Hpt) as (? & ? & _).
  unwrap64. apply elem_of_app in Hr as [Hr|Hr%list_elem_of_singleton]; [|subst; lia].
  apply StronglySorted_app_1_elem_of with (x1 := r) (x2 := p) in Hsort; [|done|set_solver].
  unfold shorter in Hsort. rewrite !(seg_length_elem _ _ Ht) in Hsort by done. split_ifs; try done; lia.
Qed.

Lemma pick_block_fits_complete a size r :
  inv a -> g = unit -> 0 < size -> r ∈ range_tree_ a -> size <= end_ r - start r ->
  _pick_block_fits size unit a <> UINT64_MAX.
Proof.
  intros (Ht & _ & (Hp & Hsort & _) & _) Hgeq Hs Hr Hle. unfold _pick_block_fits.
  destruct (span _ _) as [x y] eqn:E. apply span_spec in E as (E & Hx & Hy). simpl.
  destruct (tree_wf_elem _ r Ht Hr) as (? & ? & _ & _ & ?).
  destruct y as [|q y].
  { exfalso. rewrite app_nil_r in E. subst x. rewrite <- Hp, list_elem_of_lookup in Hr.
    destruct Hr as [i Hr]. rewrite Forall_lookup in Hx. specialize (Hx _ _ Hr). simpl in Hx.
    unfold shorter in Hx. rewrite (seg_length_elem _ r Ht) in Hx
      by (rewrite <- Hp; by eapply list_elem_of_lookup_2).
    unfold seg_length in Hx. simpl in Hx. unwrap64_in Hx. split_ifs; zbool; try done; lia. }
  assert (q ∈ range_tree_ a) as Hq by (rewrite <- Hp, E; set_solver).
  destruct (tree_wf_elem _ q Ht Hq) as (? & ? & Hqg & _ & ?).
  assert (size <= end_ q - start q).
  { unfold shorter in Hy. rewrite (seg_length_elem _ q Ht) in Hy by done.
    unfold seg_length in Hy. simpl in Hy. unwrap64_in Hy. split_ifs; zbool; try done; lia. }
  simpl. destruct (p2roundup_dev (start q)) as [? ?]; [lia|].
  assert (IntArith.p2roundup 64 (start q) unit = start q) as ->.
  { rewrite IntArith.p2roundup_spec by lia. rewrite Hgeq in Hqg.
    apply Z.mod_divide in Hqg as [z Hz]; [|lia]. rewrite Hz.
    replace (z * unit + unit - 1) with (z * unit + (unit - 1)) by lia.
    rewrite Z.div_add_l, Z.div_small by lia. lia. }
  unwrap64. destruct (Z.leb_spec (start q + size) (end_ q)); [|lia]. unfold UINT64_MAX. lia.
Qed.

(** Out of space means that no range is left. *)
Lemma allocate_single_none end_deref a size a' :
  inv a -> g = unit -> 0 < size < 2 ^ 64 -> size mod g = 0 ->
  _allocate_single end_deref size unit a = Some (None, a') -> range_tree_ a' = [].
Proof.
  intros Hinv Hgeq Hs Hm. unfold _allocate_single. fold (max_size a).
  pose proof (max_size_bounds a Hinv) as Hmax. pose proof Hinv as (Ht & _).
  assert (forall r, r ∈ range_tree_ a -> unit <= end_ r - start r) as Hunit.
  { intros r Hr. destruct (tree_wf_elem _ r Ht Hr) as (? & ? & H1 & H2 & ?).
    rewrite <- Hgeq. apply Z.divide_pos_le; [lia|].
    apply Z.divide_sub_r; apply Z.mod_divide; try done; lia. }
  destruct ((max_size a <? size) && (max_size a <? unit)) eqn:E1; zbool.
  { intros [= <-]. destruct (range_tree_ a) as [|r t] eqn:E; [done|].
    pose proof (max_size_spec a r Hinv ltac:(rewrite E; set_solver)).
    specialize (Hunit r ltac:(set_solver)). lia. }
  set (size1 := if max_size a <? size then _ else size).
  assert (0 < size1 <= max_size a) as Hs1.
  { subst size1. destruct (Z.ltb_spec (max_size a) size).
    - destruct (p2align_unit (max_size a)) as (? & ? & Hge); [lia|].
      assert (unit <= max_size a) by (destruct E1; zbool; lia). specialize (Hge ltac:(done)). lia.
    - lia. }
  clearbody size1. destruct (Z.ltb_spec 0 size1); [|lia]. rewrite orb_true_r. simpl.
  set (blk := if _ || _ then _ else _).
  destruct blk as [[st1 a1]|] eqn:Eb; [|done]. simpl.
  assert (inv a1 /\ max_size a1 = max_size a) as [Hi1 Hm1].
  { subst blk. case_match; [by simplify_eq|]. revert Eb.
    destruct (negb (Z.land size1 (u64 (- size1)) =? 0)); [|done]. simpl.
    destruct (_pick_block_after _ _ _ _ _). intros [= <- <-]. done. }
  assert (exists r, r ∈ range_tree_ a1 /\ size1 <= end_ r - start r) as (r & Hr & Hsz).
  { rewrite <- Hm1 in Hs1. unfold max_size in Hs1.
    destruct (last (range_size_tree_ a1)) as [p|] eqn:E; [|lia]. exists p.
    pose proof Hi1 as (Ht1 & _ & (Hp1 & _) & _). apply IntervalSet.last_snoc_inv in E.
    assert (p ∈ range_tree_ a1) as Hpt by (rewrite <- Hp1, E; set_solver). split; [done|].
    destruct (tree_wf_elem _ p Ht1 Hpt) as (? & ? & _). unwrap64_in Hs1. lia. }
  assert (forall st2 size2, (if st1 =? UINT64_MAX then while (fits_step unit a1) 64 size1
    else Some (st1, size1)) = Some (st2, size2) -> st2 <> UINT64_MAX) as Hlp.
  { intros st2 size2. destruct (Z.eqb_spec st1 UINT64_MAX); [|naive_solver].
    pose proof (pick_block_fits_complete a1 size1 r Hi1 Hgeq ltac:(lia) Hr Hsz) as Hne.
    rewrite (while_inr _ _ _ (_pick_block_fits size1 unit a1, size1)); [naive_solver|].
    unfold fits_step. by destruct (Z.eqb_spec (_pick_block_fits size1 unit a1) UINT64_MAX). }
  set (lp := if st1 =? UINT64_MAX then _ else _) in *.
  destruct lp as [[st2 size2]|] eqn:El; [|done]. simpl. specialize (Hlp _ _ eq_refl).
  destruct (Z.eqb_spec st2 UINT64_MAX); [done|].
  destruct (_remove_from_tree st2 size2 a1); done.
Qed.

Lemma _allocate_spec end_deref a want mx hint :
  inv a -> 0 < want < 2 ^ 63 -> want mod g = 0 -> 0 < mx < 2 ^ 32 -> mx mod g = 0 ->
  exists exts a',
    _allocate end_deref want unit mx hint a =
      Some (if extents_bytes exts =? 0 then - ENOSPC else extents_bytes exts, exts, a') /\
    taken a exts a' /\ Forall (fun e => length e <= mx) exts /\ extents_bytes exts <= want /\
    (g = unit -> extents_bytes exts = want \/ range_tree_ a' = []).
Proof.
  intros Hi Hw Hwg Hmx Hmxm. unfold _allocate.
  destruct (allocate_loop_spec end_deref a want mx Hi Hw Hwg Hmx Hmxm)
    as (al & exts & a' & -> & (Ht & Hcap & -> & Hle) & Hend). simpl.
  exists exts, a'. pose proof Ht as (_ & _ & Hok & _). pose proof (extents_bytes_nonneg _ Hok).
  rewrite i64_small by lia. split_and!; try done.
  intros Hgeq. destruct Hend as [?|(a0 & size & Hi0 & ? & ? & ? & E)]; [by left|right].
  eapply allocate_single_none; [exact Hi0|done| |done|exact E]. lia.
Qed.

(** ** The public operations *)

Context (b : Z) (Hb : 0 <= b < 32) (Hgb : (g | 2 ^ b)).

(** [allocate] clamps the largest extent to what fits a [uint32_t] length. *)
Definition max_extent (want max_alloc_size : Z) : Z :=
  let m := if max_alloc_size =? 0 then want else max_alloc_size in
  if UINT32_MAX <=? m then IntArith.p2align 64 UINT32_MAX (2 ^ b) else m.

Lemma max_extent_spec want m0 :
  0 < want < 2 ^ 63 -> want mod g = 0 -> 0 <= m0 -> m0 mod g = 0 ->
  0 < max_extent want m0 < 2 ^ 32 /\ max_extent want m0 mod g = 0.
Proof.
  intros Hw Hwm Hm Hmm. unfold max_extent.
  set (m := if m0 =? 0 then want else m0).
  assert (0 < m /\ m mod g = 0) as [? ?] by (subst m; destruct (Z.eqb_spec m0 0); lia).
  destruct (Z.leb_spec UINT32_MAX m); [|unfold UINT32_MAX in *; lia].
  assert (2 ^ b <= 2 ^ 31) by (apply Z.pow_le_mono_r; lia).
  rewrite IntArith.p2align_spec by (unfold uint, UINT32_MAX; lia).
  pose proof (Z.mul_div_le UINT32_MAX (2 ^ b) ltac:(lia)).
  assert (1 <= UINT32_MAX / 2 ^ b) by (apply Z.div_le_lower_bound; unfold UINT32_MAX; lia).
  split; [unfold UINT32_MAX in *; nia|].
  apply Z.mod_divide; [lia|]. by apply Z.divide_mul_l.
Qed.

Lemma unit_mod_g x : x mod unit = 0 -> x mod g = 0.
Proof.
  intros Hx. apply Z.mod_divide; [lia|]. etrans; [exact Hgu|]. apply Z.mod_divide; [lia|done].
Qed.

Lemma avl_allocate_spec end_deref a want max_alloc_size hint :
  inv a -> block_size_ a = 2 ^ b -> 0 < want < 2 ^ 63 -> want mod unit = 0 ->
  0 <= max_alloc_size -> max_alloc_size mod g = 0 ->
  exists exts a',
    avl_allocate end_deref want unit max_alloc_size hint a =
      Some (if extents_bytes exts =? 0 then - ENOSPC else extents_bytes exts, exts, a') /\
    taken a exts a' /\ Forall (fun e => length e <= max_extent want max_alloc_size) exts /\
    extents_bytes exts <= want /\
    (g = unit -> extents_bytes exts = want \/ range_tree_ a' = []).
Proof.
  intros Hi Hbs Hw Hwm Hm Hmm. unfold avl_allocate.
  rewrite (IntArith.isp2_pow2 64) by lia.
  rewrite Hwm. simpl.
  assert (u64 (block_size_ a) = 2 ^ b) as ->.
  { rewrite Hbs. apply u64_small. pose proof (Z.pow_lt_mono_r 2 b 64). lia. }
  fold (max_extent want max_alloc_size).
  pose proof (unit_mod_g _ Hwm) as Hwg.
  destruct (max_extent_spec want max_alloc_size Hw Hwg Hm Hmm) as [Hmx Hmxm].
  by apply _allocate_spec.
Qed.
End Alloc.
End Inv.
End AvlAllocate.
