(* ===== verification/AvlSpec.v ===== *)
(** * The AVL allocator implements the allocator interface

    Releasing and initial ranges, the instances of [Allocator] and
    [AllocatorSpec] for the plain [AvlAllocator], and the properties of the
    allocator. *)
From stdpp Require Import base numbers list gmap sorting.
From Stdlib Require Import ZArith Lia.
From S2P Require Import Prelude IntArith IntervalSet Allocator AvlAllocator AvlAllocatorProofs AvlAllocate.
Import Allocator Avl AvlProofs AvlAllocate.

Module AvlSpec.
Section Release.
Context {C : Type} `{SpillTarget C} (g dev : Z) `{!SpillSpec C g dev}.
Context (Hg : 0 < g) (Hdev : 0 < dev < 2 ^ 63).
Abbreviation avl := (AvlAllocator C).
Implicit Types (a : avl).

Definition aligned_ranges (l : list (Z * Z)) : Prop :=
  Forall (fun p => p.1 mod g = 0 /\ p.2 mod g = 0) l.

Lemma add_to_tree_geom a off len :
  inv g dev a -> 0 <= off -> 0 < len -> off + len <= dev -> off mod g = 0 -> len mod g = 0 ->
  zrange off len ## avl_free g dev a ->
  exists a', _add_to_tree off len a = Some a' /\
    inv g dev a' /\ same_geom a a' /\ avl_free g dev a' = zrange off len ∪ avl_free g dev a.
Proof.
  intros Hi Ho Hl Hd Hmo Hml Hdis.
  destruct (add_to_tree_spec (g := g) (dev := dev) a off len) as (a' & -> & Hi' & Hf & Hc); try done; try lia.
  { rewrite Z.add_mod, Hmo, Hml by lia. by apply Z.mod_0_l; lia. }
  exists a'. split_and!; try done. by apply same_geom_conf.
Qed.

(** What [_release] and [init_add_free] do with the virtual [_add_to_tree],
    which accepts ranges from the byte [first] on and keeps [P]. *)
Section Virtual.
Context (add : Z -> Z -> avl -> option avl) (first : Z) (P : avl -> Prop).
Context (Hadd : forall a off len, inv g dev a -> P a -> 0 <= off -> first <= off -> 0 < len -> off + len <= dev ->
  off mod g = 0 -> len mod g = 0 -> zrange off len ## avl_free g dev a ->
  exists a', add off len a = Some a' /\ inv g dev a' /\ P a' /\ same_geom a a' /\ avl_free g dev a' = zrange off len ∪ avl_free g dev a).

Lemma add_free_spec a off len :
  inv g dev a -> P a -> 0 <= off -> first <= off -> 0 < len -> off + len <= dev -> off mod g = 0 -> len mod g = 0 ->
  zrange off len ## avl_free g dev a ->
  exists a', (_ ← cxxlab_assert (off +64 len <=? u64 (device_size a)); add off len a) = Some a' /\
    inv g dev a' /\ P a' /\ same_geom a a' /\ avl_free g dev a' = zrange off len ∪ avl_free g dev a.
Proof.
  intros Hi HP Ho Hfo Hl Hd Hmo Hml Hdis. pose proof Hi as (_ & _ & _ & _ & _ & _ & Hds).
  rewrite Hds. unwrap64. destruct (Z.leb_spec (off + len) dev); [|lia]. simpl. by apply Hadd.
Qed.

Lemma release_ranges_spec l : forall a lb,
  inv g dev a -> P a -> 0 <= lb -> IntervalSet.wf_from lb l -> aligned_ranges l ->
  (forall x, x ∈ IntervalSet.points l -> first <= x < dev) ->
  IntervalSet.points l ## avl_free g dev a ->
  exists a', _release_ranges add l a = Some a' /\ inv g dev a' /\ P a' /\ same_geom a a' /\
    avl_free g dev a' = IntervalSet.points l ∪ avl_free g dev a.
Proof.
  induction l as [|[o n] l IH]; intros a lb Hi HP Hlb Hw Hal Hin Hdis.
  { exists a. rewrite IntervalSet.points_nil. split_and!; try done. set_solver. }
  simpl in Hw. destruct Hw as (? & ? & ? & Hw). apply Forall_cons in Hal as [[Ho Hn] Hal].
  rewrite IntervalSet.points_cons in *. simpl in Ho, Hn.
  assert (o + n - 1 < dev /\ first <= o) as [? ?].
  { split; apply Hin; apply elem_of_union_l, elem_of_zrange; lia. }
  destruct (add_free_spec a o n) as (a1 & E & Hi1 & HP1 & Hg1 & Hf1); try done; try lia; [set_solver|].
  simpl. unfold mbind, option_bind in *.
  destruct (cxxlab_assert (o +64 n <=? u64 (device_size a))) as [[]|]; [|done]. rewrite E.
  destruct (IH a1 (o + n + 1)) as (a' & -> & Hi' & HP' & Hg' & Hf'); try done; try lia; [set_solver| |].
  { rewrite Hf1. apply disjoint_union_r. split; [|set_solver].
    intros x Hx. rewrite elem_of_zrange. intros Hx'.
    apply IntervalSet.elem_of_points in Hx. pose proof (IntervalSet.covers_lb _ _ _ Hw Hx). lia. }
  exists a'. split_and!; try done; [by eapply same_geom_trans|]. rewrite Hf', Hf1. set_solver.
Qed.
End Virtual.

(** Ranges never touch, so a contiguous free region lies in one of them. *)
Lemma contiguous_in_one lb m s n :
  IntervalSet.wf_from lb m -> 0 < n -> (forall x, s <= x < s + n -> IntervalSet.covers m x) ->
  exists k v, (k, v) ∈ m /\ k <= s /\ s + n <= k + v.
Proof.
  revert lb. induction m as [|[k v] t IH]; intros lb; simpl; intros Hw Hn Hc.
  { specialize (Hc s ltac:(lia)). by apply IntervalSet.covers_nil in Hc. }
  destruct Hw as (? & ? & ? & Hw).
  assert (forall x, IntervalSet.covers t x -> k + v + 1 <= x) as Hlb
    by (intros x Hx; by apply (IntervalSet.covers_lb _ _ _ Hw)).
  pose proof (Hc s ltac:(lia)) as Hcs. apply IntervalSet.covers_cons in Hcs as [Hs|Hs].
  - exists k, v. split; [by left|]. split; [lia|].
    destruct (decide (s + n <= k + v)); [done|exfalso].
    specialize (Hc (k + v) ltac:(lia)). apply IntervalSet.covers_cons in Hc as [?|Hc]; [lia|].
    specialize (Hlb _ Hc). lia.
  - destruct (IH _ Hw Hn) as (k' & v' & ? & ? & ?).
    { intros x Hx. specialize (Hc x Hx). apply IntervalSet.covers_cons in Hc as [?|?]; [|done].
      specialize (Hlb _ Hs). lia. }
    exists k', v'. split; [by right|done].
Qed.

Lemma remove_from_tree_abort a s size :
  tree_wf g dev (range_tree_ a) -> 0 <= s -> 0 < size -> s + size <= dev ->
  ~ (zrange s size ⊆ tpoints (range_tree_ a)) -> _remove_from_tree s size a = None.
Proof.
  intros Ht Hs Hsz Hd Hn. unfold _remove_from_tree. unwrap64.
  destruct (Z.eqb_spec size 0); [lia|]. simpl.
  destruct (lower_bound s (range_tree_ a)) as [before [|rs after]] eqn:E; [done|].
  unfold lower_bound in E. apply span_spec in E as (E & _).
  destruct (_ && _) eqn:Ec; [|done]. exfalso. zbool. apply Hn. intros x Hx.
  apply elem_of_zrange in Hx. apply elem_of_tpoints. exists rs. rewrite E.
  split; [set_solver|]. naive_solver lia.
Qed.
End Release.

(** ** The plain allocator *)

#[global] Instance avl_allocator (end_deref : Z) : Allocator (AvlAllocator unit) := {|
  allocate want unit max_alloc_size hint a := avl_allocate end_deref want unit max_alloc_size hint a;
  release := avl_release;
  init_add_free := avl_init_add_free;
  init_rm_free := avl_init_rm_free;
  get_free := avl_get_free;
  get_capacity := device_size;
  get_block_size := block_size_;
|}.

(** Geometry the code is used with: a power-of-two block size that fits the
    32-bit extent length, a device that fits [int64_t]. *)
Definition geometry (a : AvlAllocator unit) : Prop :=
  exists b, 0 <= b < 32 /\ block_size_ a = 2 ^ b /\
    0 < device_size a /\ device_size a + 2 ^ b <= 2 ^ 63.

Definition avl_ok (a : AvlAllocator unit) : Prop :=
  geometry a /\ inv (block_size_ a) (device_size a) a.

Definition avl_free_set (a : AvlAllocator unit) : gset Z := tpoints (range_tree_ a).

Lemma avl_free_plain g dev (a : AvlAllocator unit) : avl_free g dev a = avl_free_set a.
Proof. unfold avl_free, avl_free_set. simpl. set_solver. Qed.

Lemma avl_ok_geom a a' :
  avl_ok a -> same_geom a a' -> inv (block_size_ a) (device_size a) a' -> avl_ok a'.
Proof.
  intros [(b & ? & ? & ? & ?) _] (_ & Hd & Hb) Hi. unfold avl_ok, geometry. rewrite Hd, Hb.
  split; [|done]. by exists b.
Qed.

Lemma avl_get_free_spec a : avl_ok a -> avl_get_free a = Z.of_nat (size (avl_free_set a)).
Proof.
  intros [_ ([Ht _] & _ & (_ & _ & Hn) & _)]. unfold avl_get_free, avl_free_set, tpoints.
  rewrite (IntervalSet.total_points 0) by done. done.
Qed.

Lemma avl_free_in_device a x : avl_ok a -> x ∈ avl_free_set a -> 0 <= x < device_size a.
Proof.
  intros [_ (Ht & _)] Hx. apply elem_of_tpoints in Hx as (r & Hr & Hx).
  destruct (tree_wf_elem _ r Ht Hr) as (? & ? & _ & _ & ?). lia.
Qed.

Lemma avl_allocate_plain end_deref a want m hint :
  avl_ok a -> 0 < want < 2 ^ 63 -> want mod block_size_ a = 0 ->
  0 <= m -> m mod block_size_ a = 0 ->
  exists exts a',
    avl_allocate end_deref want (block_size_ a) m hint a =
      Some (if extents_bytes exts =? 0 then - ENOSPC else extents_bytes exts, exts, a') /\
    avl_ok a' /\ device_size a' = device_size a /\ block_size_ a' = block_size_ a /\
    Forall (fun e => 0 < length e < 2 ^ 32 /\ offset e mod block_size_ a = 0 /\
                     length e mod block_size_ a = 0) exts /\
    extents_disjoint exts /\ avl_free_set a = extents_set exts ∪ avl_free_set a' /\
    extents_set exts ## avl_free_set a' /\ extents_bytes exts <= want /\
    (extents_bytes exts = want \/ avl_free_set a' = ∅).
Proof.
  intros Hok Hw Hwm Hm Hmm. pose proof Hok as [(b & Hb & Eb & Hd0 & Hd) Hi].
  destruct (avl_allocate_spec (block_size_ a) (device_size a) b ltac:(lia) ltac:(lia) ltac:(lia)
    ltac:(lia) ltac:(by rewrite Eb) b ltac:(lia) ltac:(by rewrite Eb) end_deref a want m hint)
    as (exts & a' & E & (Hi' & Hg & Hall & Hdis & Hf & Hdd) & _ & Hle & Hex); try done; [by rewrite <- Eb|].
  rewrite Eb. rewrite (avl_free_plain _ _ a), (avl_free_plain _ _ a') in Hf. rewrite avl_free_plain in Hdd. pose proof Hg as (_ & ? & ?).
  exists exts, a'. split_and!; try done; try congruence.
  - by eapply avl_ok_geom.
  - eapply Forall_impl; [exact Hall|]. intros e (? & ? & Hlm & _). rewrite Eb in Hlm. done.
  - destruct (Hex ltac:(done)) as [?|Ht]; [by left|right]. unfold avl_free_set. by rewrite Ht.
Qed.

Lemma avl_release_plain a s :
  avl_ok a -> IntervalSet.wf s ->
  (forall x, x ∈ IntervalSet.pts s -> 0 <= x < device_size a) ->
  aligned_ranges (block_size_ a) (IntervalSet.m_ s) ->
  IntervalSet.pts s ## avl_free_set a ->
  exists a', avl_release s a = Some a' /\ avl_ok a' /\
    device_size a' = device_size a /\ block_size_ a' = block_size_ a /\
    avl_free_set a' = IntervalSet.pts s ∪ avl_free_set a.
Proof.
  intros Hok [Hw _] Hin Hal Hdis. pose proof Hok as [(b & Hb & Eb & Hd0 & Hd) Hi].
  destruct (release_ranges_spec (block_size_ a) (device_size a) ltac:(lia) ltac:(lia) _add_to_tree 0 (fun _ => True)) with (l := IntervalSet.m_ s) (a := a) (lb := 0)
    as (a' & E & Hi' & _ & Hg & Hf); try done; [|by rewrite avl_free_plain|].
  { intros a1 o n Hi1 _ Ho _ Hn Hle Hom Hnm Hd1.
    destruct (add_to_tree_geom (block_size_ a) (device_size a) ltac:(lia) ltac:(lia) a1 o n) as (a2 & ? & ? & ? & ?); try done. by exists a2. }
  rewrite (avl_free_plain _ _ a), (avl_free_plain _ _ a') in Hf. pose proof Hg as (_ & ? & ?).
  exists a'. split_and!; try done. by eapply avl_ok_geom.
Qed.

Lemma avl_init_rm_free_eq a off len :
  avl_ok a -> 0 <= off -> 0 < len -> off + len <= device_size a ->
  avl_init_rm_free off len a = _remove_from_tree off len a.
Proof.
  intros [(b & ? & ? & ? & ?) _] Ho Hl Hd. unfold avl_init_rm_free. destruct (Z.eqb_spec len 0); [lia|]. unwrap64.
  by destruct (Z.leb_spec (off + len) (device_size a)); [|lia].
Qed.

Lemma avl_init_rm_free_plain a off len :
  avl_ok a -> 0 <= off -> 0 < len -> off + len <= device_size a ->
  off mod block_size_ a = 0 -> len mod block_size_ a = 0 -> zrange off len ⊆ avl_free_set a ->
  exists a', avl_init_rm_free off len a = Some a' /\ avl_ok a' /\
    device_size a' = device_size a /\ block_size_ a' = block_size_ a /\
    avl_free_set a' = avl_free_set a ∖ zrange off len.
Proof.
  intros Hok Ho Hl Hd Hmo Hml Hsub. pose proof Hok as [(b & Hb & Eb & ? & ?) Hi]. pose proof Hi as (Ht & _).
  rewrite avl_init_rm_free_eq by done.
  destruct (contiguous_in_one 0 (tmap (range_tree_ a)) off len) as (k & v & Hin & Hk & Hv);
    [apply Ht|done| |].
  { intros x Hx. apply IntervalSet.elem_of_points, Hsub, elem_of_zrange. done. }
  apply list_elem_of_fmap in Hin as (r & [= -> ->] & Hr).
  destruct (remove_from_tree_spec (g := block_size_ a) (dev := device_size a) a off len r)
    as (a' & -> & Hi' & Hf & Hc); try done; try lia.
  { rewrite Z.add_mod, Hmo, Hml by lia. apply Z.mod_0_l. lia. }
  apply same_geom_conf in Hc. pose proof Hc as (_ & ? & ?).
  rewrite (avl_free_plain _ _ a), (avl_free_plain _ _ a') in Hf.
  exists a'. split_and!; try done. by eapply avl_ok_geom.
Qed.

Lemma avl_init_add_free_plain a off len :
  avl_ok a -> 0 <= off -> 0 < len -> off + len <= device_size a ->
  off mod block_size_ a = 0 -> len mod block_size_ a = 0 -> zrange off len ## avl_free_set a ->
  exists a', avl_init_add_free off len a = Some a' /\ avl_ok a' /\
    device_size a' = device_size a /\ block_size_ a' = block_size_ a /\
    avl_free_set a' = zrange off len ∪ avl_free_set a.
Proof.
  intros Hok Ho Hl Hd Hmo Hml Hdis. pose proof Hok as [(b & Hb & Eb & ? & ?) Hi].
  unfold avl_init_add_free, init_add_free_with. destruct (Z.eqb_spec len 0); [lia|].
  pose proof Hi as (_ & _ & _ & _ & _ & _ & Hds). unwrap64. destruct (Z.leb_spec (off + len) (device_size a)); [|lia]. simpl cxxlab_assert. bind.
  destruct (add_to_tree_geom (block_size_ a) (device_size a) ltac:(lia) ltac:(lia) a off len)
    as (a' & -> & Hi' & Hg & Hf); try done; [by rewrite avl_free_plain|].
  rewrite (avl_free_plain _ _ a), (avl_free_plain _ _ a') in Hf. pose proof Hg as (_ & ? & ?).
  exists a'. split_and!; try done. by eapply avl_ok_geom.
Qed.

#[global] Program Instance avl_allocator_spec (end_deref : Z) :
  AllocatorSpec (H := avl_allocator end_deref) (AvlAllocator unit) := {|
  ok := avl_ok; free := avl_free_set; first_usable := 0 |}.
Next Obligation. intros end_deref a. exact (avl_get_free_spec a). Qed.
Next Obligation. intros end_deref a [(b & ? & ? & ? & ?) _]. simpl. lia. Qed.
Next Obligation. done. Qed.
Next Obligation. intros end_deref a x. exact (avl_free_in_device a x). Qed.
Next Obligation.
  intros end_deref a want Hok Hw Hm. simpl in *.
  destruct (avl_allocate_plain end_deref a want want 0 Hok Hw Hm ltac:(lia) Hm)
    as (exts & a' & E & ? & ? & ? & Hall & ? & ? & ? & ? & _).
  eexists _, exts, a'. split; [exact E|]. split_and!; try done.
Qed.
Next Obligation. intros end_deref a s. exact (avl_release_plain a s). Qed.
Next Obligation. intros end_deref a off len. exact (avl_init_add_free_plain a off len). Qed.

#[global] Instance avl_removes end_deref : RemoveSpec (H0 := avl_allocator_spec end_deref) (AvlAllocator unit).
Proof. constructor. exact avl_init_rm_free_plain. Qed.

#[global] Instance avl_from_zero end_deref : FromZero (H0 := avl_allocator_spec end_deref) (AvlAllocator unit).
Proof. done. Qed.

(** The trees do not depend on the alignment of the ranges. *)
Definition avl_carve_ok (a : AvlAllocator unit) : Prop := 0 < device_size a < 2 ^ 63 /\ inv 1 (device_size a) a.

#[global] Program Instance avl_carve_spec (end_deref : Z) :
  CarveSpec (H := avl_allocator end_deref) (AvlAllocator unit) := {| carve_ok := avl_carve_ok; carvable := avl_free_set |}.
Next Obligation. by intros end_deref a [? _]. Qed.
Next Obligation.
  intros end_deref a off len [Hd Hi] Ho Hl He Hdis. simpl in *. unfold avl_init_add_free, init_add_free_with. destruct (Z.eqb_spec len 0); [lia|]. unwrap64. destruct (Z.leb_spec (off + len) (device_size a)); [|lia]. simpl cxxlab_assert. bind.
  destruct (add_to_tree_geom 1 (device_size a) ltac:(lia) ltac:(lia) a off len) as (a' & -> & Hi' & Hg & Hf); rewrite ?Z.mod_1_r; try done; [by rewrite avl_free_plain|].
  rewrite (avl_free_plain _ _ a), (avl_free_plain _ _ a') in Hf. pose proof Hg as (_ & Hd' & _). exists a'. split_and!; try done. unfold avl_carve_ok. by rewrite Hd'.
Qed.
Next Obligation.
  intros end_deref a off len [Hd Hi] Ho Hl He Hsub. simpl in *. pose proof Hi as (Ht & _). unfold avl_init_rm_free. destruct (Z.eqb_spec len 0); [lia|]. unwrap64. destruct (Z.leb_spec (off + len) (device_size a)); [|lia]. simpl cxxlab_assert. bind.
  destruct (contiguous_in_one 0 (tmap (range_tree_ a)) off len) as (k & v & Hin & Hk & Hv); [apply Ht|done| |]. { intros x Hx. apply IntervalSet.elem_of_points, Hsub, elem_of_zrange. done. }
  apply list_elem_of_fmap in Hin as (r & [= -> ->] & Hr). destruct (remove_from_tree_spec (g := 1) (dev := device_size a) a off len r) as (a' & -> & Hi' & Hf & Hc); rewrite ?Z.mod_1_r; try done; try lia.
  apply same_geom_conf in Hc. pose proof Hc as (_ & Hd' & _). rewrite (avl_free_plain _ _ a), (avl_free_plain _ _ a') in Hf. exists a'. split_and!; try done. unfold avl_carve_ok. by rewrite Hd'.
Qed.

Lemma avl_create_carve sizeof_seg size bs : 0 < size < 2 ^ 63 -> avl_carve_ok (create sizeof_seg size bs 0 tt).
Proof. intros Hs. split; [done|]. repeat split; simpl; try done; try lia; try constructor. apply Zdiv_0_l. Qed.

(** A new allocator: nothing is free. *)
Lemma avl_create_ok sizeof_seg size b :
  0 <= b < 32 -> 0 < size -> size + 2 ^ b <= 2 ^ 63 ->
  avl_ok (create sizeof_seg size (2 ^ b) 0 tt) /\ avl_free_set (create sizeof_seg size (2 ^ b) 0 tt) = ∅.
Proof.
  intros Hb Hs Hd. split; [|done]. split; [by exists b|].
  repeat split; simpl; try done; try lia; try constructor. apply Zdiv_0_l.
Qed.

(** A device of 1 MiB with 4 KiB blocks, all of it free. *)
Definition demo : AvlAllocator unit :=
  mkAvl [Seg 0 1048576] [Seg 0 1048576] 1048576 (replicate MAX_LBAS 0) 0 1048576 4096 tt.

Lemma demo_ok : avl_ok demo.
Proof.
  split.
  - exists 12. simpl. lia.
  - repeat split; simpl; try lia; try done; try (by left); repeat constructor; simpl; try done; try lia.
Qed.

(** ** Properties *)

Section Sound.
Context {C : Type} `{SpillTarget C} (g dev : Z) `{!SpillSpec C g dev}.

(** Allocation from any AVL allocator, also one that spills ranges to
    another allocator: for a power-of-two unit that divides the request, with
    all ranges on the grain [g], [allocate] does not fail an assertion, its loops
    end, and it hands out disjoint extents that were free, aligned to the unit,
    not longer than [max_alloc_size], together at most [want] bytes; the rest of
    the free space stays free; the result is the number of bytes or [-ENOSPC]. *)
Theorem avl_allocate_sound end_deref (k b : Z) (a : AvlAllocator C) (want max_alloc_size hint : Z) :
  0 <= k < 63 -> 0 <= b < 32 -> 0 < g -> (g | 2 ^ k) -> (g | 2 ^ b) -> 0 < dev -> dev + 2 ^ k <= 2 ^ 63 ->
  inv g dev a -> block_size_ a = 2 ^ b -> 0 < want < 2 ^ 63 -> want mod 2 ^ k = 0 ->
  0 <= max_alloc_size -> max_alloc_size mod g = 0 ->
  exists exts a',
    avl_allocate end_deref want (2 ^ k) max_alloc_size hint a =
      Some (if extents_bytes exts =? 0 then - ENOSPC else extents_bytes exts, exts, a') /\
    taken g dev k a exts a' /\
    Forall (fun e => length e <= max_extent b want max_alloc_size) exts /\
    extents_bytes exts <= want.
Proof.
  intros. destruct (avl_allocate_spec g dev k) with (b := b) (a := a) (end_deref := end_deref)
    (want := want) (max_alloc_size := max_alloc_size) (hint := hint)
    as (exts & a' & E & Ht & Hm & Hle & _); try done.
  by exists exts, a'.
Qed.
End Sound.

Lemma avl_allocate_sound_witness :
  exists exts a',
    avl_allocate 0 65536 16384 32768 0 demo =
      Some (if extents_bytes exts =? 0 then - ENOSPC else extents_bytes exts, exts, a') /\
    taken 4096 1048576 14 demo exts a'.
Proof.
  destruct (avl_allocate_sound 4096 1048576 0 14 12 demo 65536 32768 0) as (exts & a' & E & Ht & _);
    try lia; try reflexivity; [by exists 4|exact (proj2 demo_ok)|].
  exists exts, a'. split; [exact E|exact Ht].
Defined.

(** C18: a plain [AvlAllocator] that is asked for whole blocks never fails
    spuriously: it hands out exactly [min want (get_free ())] bytes, in
    disjoint block-aligned extents of the free space, and keeps its invariant. *)
Theorem avl_allocate_exact end_deref a want max_alloc_size hint :
  avl_ok a -> 0 < want < 2 ^ 63 -> want mod block_size_ a = 0 ->
  0 <= max_alloc_size -> max_alloc_size mod block_size_ a = 0 ->
  exists exts a',
    avl_allocate end_deref want (block_size_ a) max_alloc_size hint a =
      Some (if avl_get_free a =? 0 then - ENOSPC else Z.min want (avl_get_free a), exts, a') /\
    avl_ok a' /\ extents_disjoint exts /\
    Forall (fun e => offset e mod block_size_ a = 0 /\ length e mod block_size_ a = 0) exts /\
    extents_bytes exts = Z.min want (avl_get_free a) /\
    extents_set exts ## avl_free_set a' /\ extents_set exts ∪ avl_free_set a' = avl_free_set a /\
    avl_get_free a' = avl_get_free a - Z.min want (avl_get_free a).
Proof.
  intros Hok Hw Hwm Hm Hmm.
  destruct (avl_allocate_plain end_deref a want max_alloc_size hint Hok Hw Hwm Hm Hmm)
    as (exts & a' & E & Hok' & _ & _ & Hall & Hdis & Hf & Hdd & Hle & Hex).
  assert (Forall (fun e => 0 <= length e) exts) as Hpos
    by (eapply Forall_impl; [exact Hall|]; intros e (? & _); lia).
  pose proof (avl_get_free_spec a Hok) as G. pose proof (avl_get_free_spec a' Hok') as G'.
  rewrite Hf, size_union, Nat2Z.inj_add, (extents_set_size _ Hdis Hpos), <- G' in G by done.
  assert (0 <= avl_get_free a') by lia.
  assert (0 <= extents_bytes exts) by (rewrite <- (extents_set_size _ Hdis Hpos); lia).
  assert (extents_bytes exts = Z.min want (avl_get_free a)) as Eb.
  { destruct Hex as [?|He]; [lia|]. rewrite (avl_get_free_spec _ Hok'), He, size_empty in *. lia. }
  exists exts, a'. split_and!; try done; try lia.
  - rewrite E, Eb. destruct (Z.eqb_spec (avl_get_free a) 0), (Z.eqb_spec (Z.min want (avl_get_free a)) 0);
      do 3 f_equal; lia.
  - eapply Forall_impl; [exact Hall|]. by intros e (_ & ? & ?).
Qed.

Lemma avl_allocate_exact_witness :
  exists exts a', avl_allocate 0 2097152 4096 0 0 demo = Some (1048576, exts, a') /\
    extents_bytes exts = 1048576.
Proof.
  destruct (avl_allocate_exact 0 demo 2097152 0 0 demo_ok ltac:(lia) eq_refl ltac:(lia) eq_refl)
    as (exts & a' & E & _ & _ & _ & Eb & _).
  exists exts, a'. split; [exact E|exact Eb].
Defined.

(** Releasing what [allocate] handed out succeeds and restores the free
    space, whatever was free before. *)
Theorem avl_allocate_release_roundtrip end_deref a want hint r exts a1 :
  avl_ok a -> 0 < want < 2 ^ 63 -> want mod block_size_ a = 0 ->
  avl_allocate end_deref want (block_size_ a) want hint a = Some (r, exts, a1) ->
  exists a2, avl_release (release_set_of exts) a1 = Some a2 /\ avl_ok a2 /\
    avl_free_set a2 = avl_free_set a /\ avl_get_free a2 = avl_get_free a.
Proof.
  intros Hok Hw Hwm E0.
  destruct (avl_allocate_plain end_deref a want want hint Hok Hw Hwm ltac:(lia) Hwm)
    as (exts' & a' & E & Hok' & Hd & Hb & Hall & Hdis & Hf & Hdd & _ & _).
  rewrite E0 in E. injection E as _ <- <-. pose proof Hok as [(b & Hb0 & Eb & ?) _].
  assert (forall x, x ∈ extents_set exts -> 0 <= x < device_size a) as Hin.
  { intros x Hx. apply avl_free_in_device; [done|]. set_solver. }
  destruct (release_set_spec exts IntervalSet.empty_set) as [Hwf Hp]; [done| |].
  { apply Forall_forall. intros e He.
    rewrite Forall_forall in Hall. specialize (Hall e He) as ((? & ?) & _).
    assert (extent_range e ⊆ extents_set exts) as Hsub.
    { intros x Hx. apply list_elem_of_split in He as (v1 & v2 & ->).
      rewrite extents_set_app, extents_set_cons. set_solver. }
    pose proof (Hin (offset e)) as Hlo. pose proof (Hin (offset e + length e - 1)) as Hhi.
    assert (offset e ∈ extent_range e /\ offset e + length e - 1 ∈ extent_range e) as [? ?]
      by (unfold extent_range; rewrite !elem_of_zrange; lia).
    specialize (Hlo ltac:(set_solver)). specialize (Hhi ltac:(set_solver)). lia. }
  fold (release_set_of exts) in Hwf, Hp.
  replace (IntervalSet.pts IntervalSet.empty_set) with (∅ : gset Z) in Hp by done.
  rewrite union_empty_r_L in Hp.
  destruct (avl_release_plain a1 (release_set_of exts)) as (a2 & E2 & Hok2 & _ & _ & Hf2); try done.
  - intros x. rewrite Hp, Hd. apply Hin.
  - apply closed_aligned; [rewrite Hb; lia|apply Hwf|].
    change (IntervalSet.points (IntervalSet.m_ (release_set_of exts))) with (IntervalSet.pts (release_set_of exts)).
    rewrite Hp, Hb. apply block_closed_extents; [lia|].
    eapply Forall_impl; [exact Hall|]. by intros e (_ & ? & ?).
  - by rewrite Hp.
  - exists a2. rewrite Hp, <- Hf in Hf2. split_and!; try done.
    by rewrite !avl_get_free_spec, Hf2 by done.
Qed.

Lemma avl_allocate_release_roundtrip_witness :
  exists r exts a1 a2, avl_allocate 0 8192 4096 8192 0 demo = Some (r, exts, a1) /\
    exts = [mk_pextent 0 8192] /\
    avl_release (release_set_of exts) a1 = Some a2 /\ avl_free_set a2 = avl_free_set demo.
Proof.
  pose (x := avl_allocate 0 8192 4096 8192 0 demo).
  pose (a1 := match x with Some (_, _, a1) => a1 | None => demo end).
  assert (avl_allocate 0 8192 4096 8192 0 demo = Some (8192, [mk_pextent 0 8192], a1)) as E
    by (vm_compute; reflexivity).
  destruct (avl_allocate_release_roundtrip 0 demo 8192 0 8192 [mk_pextent 0 8192] a1 demo_ok
    ltac:(lia) eq_refl E) as (a2 & E2 & _ & Ef & _).
  exists 8192, [mk_pextent 0 8192], a1, a2. split; [exact E|]. split; [reflexivity|]. split; [exact E2|exact Ef].
Defined.

(** [init_rm_free] of a non-empty block-aligned range succeeds exactly when
    every byte of the range is free, and then removes exactly these bytes;
    otherwise an assertion fails. *)
Theorem avl_init_rm_free_iff a off len :
  avl_ok a -> 0 <= off -> 0 < len -> off + len <= device_size a ->
  off mod block_size_ a = 0 -> len mod block_size_ a = 0 ->
  match avl_init_rm_free off len a with
  | Some a' => zrange off len ⊆ avl_free_set a /\ avl_ok a' /\
               avl_free_set a' = avl_free_set a ∖ zrange off len
  | None => ~ (zrange off len ⊆ avl_free_set a)
  end.
Proof.
  intros Hok Ho Hl Hd Hmo Hml. pose proof Hok as [(b & Hb & Eb & ? & ?) Hi]. pose proof Hi as (Ht & _).
  destruct (decide (zrange off len ⊆ avl_free_set a)) as [Hsub|Hn].
  - destruct (avl_init_rm_free_plain a off len) as (a' & -> & ? & _ & _ & ?); done.
  - rewrite avl_init_rm_free_eq by done.
    rewrite (remove_from_tree_abort (block_size_ a) (device_size a)); try done; lia.
Qed.

Lemma avl_init_rm_free_iff_witness :
  match avl_init_rm_free 4096 8192 demo with
  | Some a' => zrange 4096 8192 ⊆ avl_free_set demo /\ avl_ok a' /\
               avl_free_set a' = avl_free_set demo ∖ zrange 4096 8192
  | None => ~ (zrange 4096 8192 ⊆ avl_free_set demo)
  end.
Proof. apply (avl_init_rm_free_iff demo 4096 8192 demo_ok); simpl; try lia; reflexivity. Defined.

(** C26: a client that releases only what it was given: whatever the order of
    its calls, at every moment what it owns and what is free are disjoint and
    together are the initial free space, and [get_free] counts the bytes it
    does not own (no byte is handed out twice, none is lost). *)
Theorem avl_client_conservation end_deref a0 a own :
  avl_ok a0 -> rtc (client_step (H := avl_allocator end_deref)) (a0, ∅) (a, own) ->
  avl_ok a /\ own ## avl_free_set a /\ own ∪ avl_free_set a = avl_free_set a0 /\
  avl_get_free a = avl_get_free a0 - Z.of_nat (size own).
Proof.
  intros Hok Hr. apply client_reachable_inv in Hr as (Hok' & _ & _ & Hd & Hf); [|done]. simpl in *.
  split_and!; try done. rewrite !avl_get_free_spec, <- Hf, size_union by done. lia.
Qed.

Lemma avl_client_conservation_witness :
  exists a own, avl_ok a /\ own ∪ avl_free_set a = avl_free_set demo.
Proof.
  pose (x := avl_allocate 0 8192 4096 8192 0 demo).
  pose (a1 := match x with Some (_, _, a1) => a1 | None => demo end).
  assert (rtc (client_step (H := avl_allocator 0)) (demo, ∅) (a1, ∅ ∪ extents_set [mk_pextent 0 8192])) as Hr.
  { eapply rtc_l; [|apply rtc_refl].
    apply (client_allocate (H := avl_allocator 0) demo ∅ 8192 8192 [mk_pextent 0 8192] a1);
      [simpl; lia|reflexivity|vm_compute; reflexivity]. }
  destruct (avl_client_conservation 0 demo _ _ demo_ok Hr) as (H1 & _ & H2 & _).
  exists a1, (∅ ∪ extents_set [mk_pextent 0 8192]). split; [exact H1|exact H2].
Defined.

(** Two ranges and a cursor behind both. *)
Definition two_ranges : AvlAllocator unit :=
  mkAvl [Seg 0 4096; Seg 8192 1048576] [Seg 0 4096; Seg 8192 1048576] (1048576 - 4096)
    (replicate MAX_LBAS 0) 0 2097152 4096 tt.

(** When the cursor lies behind the last free range, [_pick_block_after]
    dereferences the end iterator, and what it returns depends on the value it
    reads there: with one value it finds a block, with another it gives up. *)
Theorem pick_block_after_reads_end :
  avl_ok two_ranges /\
  _pick_block_after 0 1572864 8192 4096 two_ranges = (8192, 16384) /\
  _pick_block_after (2 ^ 30) 1572864 8192 4096 two_ranges = (UINT64_MAX, 1572864).
Proof.
  split_and!; [|vm_compute; reflexivity..]. split.
  - exists 12. simpl. lia.
  - repeat split; simpl; try lia; try done; try (by left); repeat constructor; simpl; try done; try lia.
Qed.
End AvlSpec.
