(* ===== verification/BitmapAllocator.v ===== *)
(** * blk/bitmap_allocator.{h,cc}: the three-level bitmap allocator

    Level 0 has one bit per allocation unit (set: free), in 64-bit slots.
    Level 1 has a two-bit entry per 8 slots of level 0: all allocated, partly
    free, or all free.  Level 2 has one bit per 256 entries of level 1: set when
    something below it is free.

    A [slot_vector_t] is the list of its slots.  Access out of its range, a
    shift by a negative amount or by 64 and more, and failed assertions are
    [None].  A counter that the code passes by pointer ([allocated], [res]) is
    passed and returned. *)
From stdpp Require Import base numbers list gmap.
From Stdlib Require Import ZArith Lia SpecFloat.
From S2P Require Import Prelude Floats IntArith IntervalSet Allocator.
Import Allocator.

Module Bitmap.

Definition slots_per_slotset : Z := 8.
Definition bits_per_slot : Z := 64.
Definition bits_per_slotset : Z := bits_per_slot * slots_per_slotset.
Definition all_slot_set : Z := UINT64_MAX.
Definition all_slot_clear : Z := 0.

Definition find_next_set_bit (val start : Z) : Z :=
  if bits_per_slot <=? start then -1
  else
    let m := Z.shiftr val start in
    if negb (m =? 0) then IntArith.ctz 64 m + start else -1.

Definition round_up (v a : Z) : Z := IntArith.p2roundup 64 v a.
Definition align_down (v a : Z) : Z := IntArith.p2align 64 v a.

(** [v[i]] and [v[i] = f(v[i])]. *)
Definition get (v : list Z) (i : Z) : option Z := if i <? 0 then None else v !! Z.to_nat i.
Definition update (v : list Z) (i : Z) (f : Z -> Z) : option (list Z) :=
  x ← get v i; Some (<[Z.to_nat i := f x]> v).
Definition vsize (v : list Z) : Z := Z.of_nat (List.length v).

(** [v[p / 64] &= ~(1 << (p % 64))] and [v[p / 64] |= 1 << (p % 64)]. *)
Definition clear_bit (p : Z) (v : list Z) : option (list Z) :=
  update v (p / bits_per_slot) (fun x => Z.land x (not64 (Z.shiftl 1 (p mod bits_per_slot)))).
Definition set_bit (p : Z) (v : list Z) : option (list Z) :=
  update v (p / bits_per_slot) (fun x => Z.lor x (Z.shiftl 1 (p mod bits_per_slot))).

(** ** Level 0 *)

(** The three loops of [_mark_alloc_l0] and [_mark_free_l0]: single bits up to a
    slot, whole slots, single bits; [one] changes a bit and [all] is the value
    of a whole slot. *)
Definition mark_head (one : Z -> list Z -> option (list Z)) (l0_end : Z) (s : Z * list Z) : option ((Z * list Z) + (Z * list Z)) :=
  let '(p, l0) := s in
  if (p <? l0_end) && negb (p mod bits_per_slot =? 0) then l0 ← one p l0; Some (inl (p +64 1, l0))
  else Some (inr s).
Definition mark_slots (all l0_end : Z) (s : Z * list Z) : option ((Z * list Z) + (Z * list Z)) :=
  let '(p, l0) := s in
  if p +64 bits_per_slot <=? l0_end then
    l0 ← update l0 (p / bits_per_slot) (fun _ => all); Some (inl (p +64 bits_per_slot, l0))
  else Some (inr s).
Definition mark_tail (one : Z -> list Z -> option (list Z)) (l0_end : Z) (s : Z * list Z) : option ((Z * list Z) + list Z) :=
  let '(p, l0) := s in
  if p <? l0_end then l0 ← one p l0; Some (inl (p +64 1, l0)) else Some (inr l0).

Definition mark_l0 (one : Z -> list Z -> option (list Z)) (all l0_start l0_end : Z) (l0 : list Z) : option (list Z) :=
  s ← whileM (mark_head one l0_end) 64 (l0_start, l0);
  s ← whileM (mark_slots all l0_end) 64 s;
  whileM (mark_tail one l0_end) 64 s.

Definition _mark_alloc_l0 : Z -> Z -> list Z -> option (list Z) := mark_l0 clear_bit all_slot_clear.
Definition _mark_free_l0 : Z -> Z -> list Z -> option (list Z) := mark_l0 set_bit all_slot_set.

(** ** Levels 0 and 1: AllocatorLevel01Loose *)

Definition L1_ENTRY_WIDTH : Z := 2.
Definition L1_ENTRIES_PER_SLOT : Z := bits_per_slot / L1_ENTRY_WIDTH.
Definition L1_ENTRY_MASK : Z := Z.shiftl 1 L1_ENTRY_WIDTH - 1.
Definition L1_ENTRY_FULL : Z := 0.
Definition L1_ENTRY_PARTIAL : Z := 1.
Definition L1_ENTRY_FREE : Z := 3.

Record AllocatorLevel01Loose := mk_level01 {
  l0 : list Z;
  l1 : list Z;
  l0_granularity : Z;
  l1_granularity : Z;
  partial_l1_count : Z;
  unalloc_l1_count : Z;
}.

Definition set_l0 (v : list Z) (a : AllocatorLevel01Loose) : AllocatorLevel01Loose :=
  mk_level01 v (l1 a) (l0_granularity a) (l1_granularity a) (partial_l1_count a) (unalloc_l1_count a).
Definition set_l1 (v : list Z) (partial unalloc : Z) (a : AllocatorLevel01Loose) : AllocatorLevel01Loose :=
  mk_level01 (l0 a) v (l0_granularity a) (l1_granularity a) partial unalloc.

(** The AND and the OR of the slots of one entry. *)
Definition aggregate (e : Z) (v : list Z) : option (Z * Z) :=
  for_ 0 slots_per_slotset (fun i '(agg_and, agg_or) =>
    x ← get v (e * slots_per_slotset + i); Some (Z.land agg_and x, Z.lor agg_or x)) (all_slot_set, all_slot_clear).

Definition entry (v : list Z) (e : Z) : option Z :=
  x ← get v (e / L1_ENTRIES_PER_SLOT);
  Some (Z.land (Z.shiftr x (e mod L1_ENTRIES_PER_SLOT * L1_ENTRY_WIDTH)) L1_ENTRY_MASK).

Definition set_entry (nxt e : Z) (v : list Z) : option (list Z) :=
  let off := e mod L1_ENTRIES_PER_SLOT * L1_ENTRY_WIDTH in
  update v (e / L1_ENTRIES_PER_SLOT)
    (fun x => Z.lor (Z.land x (not64 (Z.shiftl L1_ENTRY_MASK off))) (Z.shiftl nxt off)).

(** One iteration of the loop of [_mark_l1_on_l0]. *)
Definition mark_entry (e : Z) (a : AllocatorLevel01Loose) : option AllocatorLevel01Loose :=
  '(agg_and, agg_or) ← aggregate e (l0 a);
  old ← entry (l1 a) e;
  let nxt := if agg_or =? all_slot_clear then L1_ENTRY_FULL
             else if agg_and =? all_slot_set then L1_ENTRY_FREE else L1_ENTRY_PARTIAL in
  if old =? nxt then Some a
  else
    let '(partial, unalloc) :=
      if old =? L1_ENTRY_PARTIAL then (partial_l1_count a -64 1, unalloc_l1_count a)
      else if old =? L1_ENTRY_FREE then (partial_l1_count a, unalloc_l1_count a -64 1)
      else (partial_l1_count a, unalloc_l1_count a) in
    let '(partial, unalloc) :=
      if nxt =? L1_ENTRY_PARTIAL then (partial +64 1, unalloc)
      else if nxt =? L1_ENTRY_FREE then (partial, unalloc +64 1)
      else (partial, unalloc) in
    v ← set_entry nxt e (l1 a);
    Some (set_l1 v partial unalloc a).

Definition _mark_l1_on_l0 (l0_start l0_end : Z) (a : AllocatorLevel01Loose) : option AllocatorLevel01Loose :=
  let ls := align_down l0_start bits_per_slotset in
  let le := round_up l0_end bits_per_slotset in
  for_ (ls / bits_per_slotset) (le / bits_per_slotset) mark_entry a.

Definition _mark_alloc_l1_l0 (l0_start l0_end : Z) (a : AllocatorLevel01Loose) : option AllocatorLevel01Loose :=
  v ← _mark_alloc_l0 l0_start l0_end (l0 a);
  _mark_l1_on_l0 (align_down l0_start bits_per_slotset) (round_up l0_end bits_per_slotset) (set_l0 v a).

Definition _mark_free_l1_l0 (l0_start l0_end : Z) (a : AllocatorLevel01Loose) : option AllocatorLevel01Loose :=
  v ← _mark_free_l0 l0_start l0_end (l0 a);
  _mark_l1_on_l0 (align_down l0_start bits_per_slotset) (round_up l0_end bits_per_slotset) (set_l0 v a).

Definition _init_l1 (capacity alloc_unit : Z) (mark_as_free : bool) : option AllocatorLevel01Loose :=
  let l1_gran := alloc_unit *64 bits_per_slotset in
  let aligned := round_up capacity (u64 (l1_gran * slots_per_slotset * L1_ENTRIES_PER_SLOT)) in
  let fill n := replicate (Z.to_nat n) (if mark_as_free then all_slot_set else all_slot_clear) in
  let v1 := fill (aligned / l1_gran / L1_ENTRIES_PER_SLOT) in
  let v0 := fill (aligned / alloc_unit / bits_per_slot) in
  let a := mk_level01 v0 v1 alloc_unit l1_gran 0 0 in
  a ← if mark_as_free then _mark_alloc_l1_l0 (round_up capacity alloc_unit / alloc_unit) (aligned / alloc_unit) a
      else Some a;
  Some (set_l1 (l1 a) 0 (if mark_as_free then vsize (l1 a) *64 L1_ENTRIES_PER_SLOT else 0) a).

Definition _free_l1 (offset length : Z) (a : AllocatorLevel01Loose) : option (Z * AllocatorLevel01Loose) :=
  let ls := offset / l0_granularity a in
  let le := round_up (offset +64 length) (l0_granularity a) / l0_granularity a in
  a ← _mark_free_l1_l0 ls le a;
  Some (length, a).

(** [for (i = lo; i < hi; ++i) if (!f(i)) return false; return true]. *)
Fixpoint all_of (n : nat) (i : Z) (f : Z -> option bool) : option bool :=
  match n with
  | O => Some true
  | S n => b ← f i; if (b : bool) then all_of n (i + 1) f else Some false
  end.

Definition _is_slot_fully_allocated (v : list Z) (idx : Z) : option bool :=
  all_of (Z.to_nat slots_per_slotset) 0 (fun i => x ← get v (idx * slots_per_slotset + i); Some (x =? 0)).

Definition _is_empty_l1 (v : list Z) (l1_start l1_end : Z) : option bool :=
  all_of (Z.to_nat (l1_end - l1_start)) l1_start (_is_slot_fully_allocated v).

Definition is_empty_step (v : list Z) (l0_end p : Z) : option (Z + bool) :=
  if p <? l0_end then
    x ← get v (p / bits_per_slot);
    if (p mod bits_per_slot =? 0) && (p +64 bits_per_slot <=? l0_end) then
      Some (if negb (x =? 0) then inr false else inl (p +64 bits_per_slot))
    else
      Some (if negb (Z.land x (Z.shiftl 1 (p mod bits_per_slot)) =? 0) then inr false else inl (p +64 1))
  else Some (inr true).

Definition _is_empty_l0 (v : list Z) (l0_start l0_end : Z) : option bool :=
  whileM (is_empty_step v l0_end) 64 l0_start.

(** ** Allocation from levels 0 and 1 *)

(** The loop of [_fragment_and_emplace]. *)
Definition emplace_step (max_length min_length : Z) (s : Z * Z * Z * list pextent_t) :
  option ((Z * Z * Z * list pextent_t) + (Z * list pextent_t)) :=
  let '(offset, len, allocated, res) := s in
  if 0 <? len then
    let chunk := if (0 <? max_length) && (max_length <? len) then max_length else len in
    if (0 <? min_length) && (chunk <? min_length) then Some (inr (allocated, res))
    else
      _ ← cxxlab_assert (chunk <=? UINT32_MAX);
      Some (inl (offset +64 chunk, len -64 chunk, allocated +64 chunk, res ++ [pextent offset chunk]))
  else Some (inr (allocated, res)).

Definition set_last (e : pextent_t) (res : list pextent_t) : list pextent_t := removelast res ++ [e].

Definition _fragment_and_emplace (max_length off len allocated : Z) (res : list pextent_t) (min_length : Z) :
  option (Z * list pextent_t) :=
  let emit off len allocated res := whileM (emplace_step max_length min_length) 64 (off, len, allocated, res) in
  match last res with
  | Some e =>
      if offset e +64 length e =? off then
        let merged := length e +64 len in
        if (max_length =? 0) || (merged <=? max_length) then
          Some (allocated +64 len, set_last (pextent (offset e) merged) res)
        else if length e <? max_length then
          let take := max_length -64 length e in
          emit (off +64 take) (len -64 take) (allocated +64 take) (set_last (pextent (offset e) (length e + take)) res)
        else emit off len allocated res
      else emit off len allocated res
  | None => emit off len allocated res
  end.

(** The inner loop of [_allocate_l0]: the end of the run of free bits. *)
Definition run_step (v : list Z) (need l0_end run_start run_end : Z) : option (Z + Z) :=
  if (run_end -64 run_start <? need) && (run_end <? l0_end) then
    x ← get v (run_end / bits_per_slot);
    if find_next_set_bit x (run_end mod bits_per_slot) =? run_end mod bits_per_slot
    then Some (inl (run_end +64 1)) else Some (inr run_end)
  else Some (inr run_end).

(** State of [_allocate_l0]: [p], [need], [*allocated], [*res] and the slots. *)
Definition l0_state : Type := Z * Z * Z * list pextent_t * list Z.

Definition allocate_l0_step (g min_length max_length l0_end : Z) (s : l0_state) : option (l0_state + l0_state) :=
  let '(p, need, allocated, res, v) := s in
  if (p <? l0_end) && (0 <? need) then
    slot ← get v (p / bits_per_slot);
    let boff := p mod bits_per_slot in
    if slot =? all_slot_clear then Some (inl (p +64 (bits_per_slot - boff), need, allocated, res, v))
    else
      let bit := find_next_set_bit slot boff in
      if bit <? 0 then Some (inl (p +64 (bits_per_slot - boff), need, allocated, res, v))
      else
        let run_start := u64 (p / bits_per_slot * bits_per_slot + bit) in
        run_end ← whileM (run_step v need l0_end run_start) 64 run_start;
        let units := Z.min (run_end -64 run_start) need in
        let bytes := units *64 g in
        '(allocated, res) ← _fragment_and_emplace max_length (run_start *64 g) bytes allocated res min_length;
        v ← _mark_alloc_l0 run_start (run_start +64 units) v;
        Some (inl (run_start +64 units, need -64 units, allocated, res, v))
  else Some (inr s).

Definition _allocate_l0 (length min_length max_length l0_start l0_end allocated : Z) (res : list pextent_t)
    (a : AllocatorLevel01Loose) : option (Z * Z * list pextent_t * AllocatorLevel01Loose) :=
  let g := l0_granularity a in
  '(_, need, allocated, res, v) ←
    whileM (allocate_l0_step g min_length max_length l0_end) 64 (l0_start, length / g, allocated, res, l0 a);
  Some (if negb (need =? 0) then - ENOSPC else 0, allocated, res, set_l0 v a).

(** State of [_allocate_l1]: [p], [*allocated], [*res] and the object.  The exit
    says whether the loop returned 0. *)
Definition l1_state : Type := Z * list pextent_t * AllocatorLevel01Loose.

Definition allocate_l1_step (length min_length max_length l1_end : Z) (s : Z * l1_state) :
  option ((Z * l1_state) + (bool * l1_state)) :=
  let '(p, (allocated, res, a)) := s in
  if p <? l1_end then
    if vsize (l1 a) <=? p / L1_ENTRIES_PER_SLOT then Some (inr (false, (allocated, res, a)))
    else
      ent ← entry (l1 a) p;
      if ent =? L1_ENTRY_FULL then Some (inl (p +64 1, (allocated, res, a)))
      else
        let l0s := p *64 bits_per_slotset in
        let l0e := l0s +64 bits_per_slotset in
        let rem := length -64 allocated in
        if rem =? 0 then Some (inr (true, (allocated, res, a)))
        else if (ent =? L1_ENTRY_FREE) && (bits_per_slotset *64 l0_granularity a <=? rem) then
          let alloc_len := bits_per_slotset *64 l0_granularity a in
          '(allocated, res) ← _fragment_and_emplace max_length (l0s *64 l0_granularity a) alloc_len allocated res min_length;
          a ← _mark_alloc_l1_l0 l0s l0e a;
          Some (inl (p +64 1, (allocated, res, a)))
        else
          '(_, allocated, res, a) ← _allocate_l0 rem min_length max_length l0s l0e allocated res a;
          a ← _mark_l1_on_l0 l0s l0e a;
          Some (inl (p +64 1, (allocated, res, a)))
  else Some (inr (false, (allocated, res, a))).

Definition _allocate_l1 (length min_length max_length l1_start l1_end allocated : Z) (res : list pextent_t)
    (a : AllocatorLevel01Loose) : option (Z * l1_state) :=
  '(returned, (allocated, res, a)) ←
    whileM (allocate_l1_step length min_length max_length l1_end) 64 (l1_start, (allocated, res, a));
  Some (if (returned : bool) then 0 else if length <=? allocated then 0 else - ENOSPC, (allocated, res, a)).

(** ** Statistics *)

(** [++bins[i]]. *)
Definition bump (i : Z) (bins : gmap Z Z) : gmap Z Z := <[i := default 0 (bins !! i) +64 1]> bins.

(** The [do ... while (pos < 64)] loop over one slot. *)
Definition stats_step (slot : Z) (s : Z * Z * gmap Z Z) : (Z * Z * gmap Z Z) + (Z * gmap Z Z) :=
  let '(pos, free_seq, bins) := s in
  let pos1 := find_next_set_bit slot (i64 pos) in
  let '(free_seq, bins) :=
    if pos1 =? i64 pos then (free_seq +64 1, bins)
    else
      let '(free_seq, bins) :=
        if negb (free_seq =? 0) then (0, bump (IntArith.cbits free_seq - 1) bins) else (free_seq, bins) in
      (if 0 <=? pos1 then 1 else free_seq, bins) in
  let pos := u64 (pos1 + 1) in
  if pos <? bits_per_slot then inl (pos, free_seq, bins) else inr (free_seq, bins).

Fixpoint stats_slots (v : list Z) (free_seq : Z) (bins : gmap Z Z) : option (Z * gmap Z Z) :=
  match v with
  | [] => Some (free_seq, bins)
  | slot :: v =>
      '(free_seq, bins) ←
        if slot =? all_slot_set then Some (free_seq +64 bits_per_slot, bins)
        else if negb (slot =? all_slot_clear) then while (stats_step slot) 64 (0, free_seq, bins)
        else if negb (free_seq =? 0) then Some (0, bump (IntArith.cbits free_seq - 1) bins)
        else Some (free_seq, bins);
      stats_slots v free_seq bins
  end.

Definition collect_stats (a : AllocatorLevel01Loose) (bins : gmap Z Z) : option (gmap Z Z) :=
  '(free_seq, bins) ← stats_slots (l0 a) 0 bins;
  Some (if negb (free_seq =? 0) then bump (IntArith.cbits free_seq - 1) bins else bins).

(** ** Claiming the free space next to a position *)

(** [while (pos >= pos_e)]: single bits of one slot, downwards; the exit is the
    position to return, or the end of the loop. *)
Definition claim_left_step (pos_e : Z) (s : Z * Z * Z) : (Z * Z * Z) + (option Z * Z * Z) :=
  let '(pos, bits, x) := s in
  if pos_e <=? pos then
    if Z.land x bits =? 0 then inr (Some (pos + 1), pos, x)
    else inl (pos - 1, Z.shiftr bits 1, Z.land x (not64 bits))
  else inr (None, pos, x).

(** [1 << (pos % 64)] is undefined for a negative [pos]. *)
Definition claim_left_slot (pos idx : Z) (v : list Z) : option (option Z * Z * list Z) :=
  _ ← cxxlab_assert (0 <=? pos);
  x ← get v idx;
  '(ret, pos, x) ← while (claim_left_step (IntArith.p2align 64 pos bits_per_slot)) 64
    (pos, Z.shiftl 1 (pos mod bits_per_slot), x);
  Some (ret, pos, <[Z.to_nat idx := x]> v).

(** [while (idx >= 0 && *val_s == all_slot_set)]: whole slots, downwards. *)
Definition claim_left_whole (s : Z * Z * list Z) : option ((Z * Z * list Z) + (Z * Z * list Z)) :=
  let '(idx, pos, v) := s in
  if 0 <=? idx then
    x ← get v idx;
    if x =? all_slot_set then Some (inl (idx - 1, pos - bits_per_slot, <[Z.to_nat idx := all_slot_clear]> v))
    else Some (inr s)
  else Some (inr s).

Definition _claim_free_to_left_l0 (l0_pos_start : Z) (v : list Z) : option (Z * list Z) :=
  let pos := l0_pos_start - 1 in
  '(ret, pos, v) ← claim_left_slot pos (pos / bits_per_slot) v;
  match ret with
  | Some r => Some (u64 r, v)
  | None =>
      '(idx, pos, v) ← whileM claim_left_whole 64 ((l0_pos_start - 1) / bits_per_slot - 1, pos, v);
      if 0 <=? idx then
        x ← get v idx;
        if negb (x =? all_slot_set) && negb (x =? all_slot_clear) then
          '(ret, pos, v) ← claim_left_slot pos idx v;
          Some (u64 (default (pos + 1) ret), v)
        else Some (u64 (pos + 1), v)
      else Some (u64 (pos + 1), v)
  end.

(** The same upwards; [bits <<= 1] drops the bit that leaves the slot. *)
Definition claim_right_step (pos_e : Z) (s : Z * Z * Z) : (Z * Z * Z) + (option Z * Z * Z) :=
  let '(pos, bits, x) := s in
  if pos <? pos_e then
    if Z.land x bits =? 0 then inr (Some pos, pos, x)
    else inl (pos + 1, u64 (Z.shiftl bits 1), Z.land x (not64 bits))
  else inr (None, pos, x).

Definition claim_right_slot (pos idx : Z) (v : list Z) : option (option Z * Z * list Z) :=
  x ← get v idx;
  '(ret, pos, x) ← while (claim_right_step (IntArith.p2roundup 64 (pos + 1) bits_per_slot)) 64
    (pos, Z.shiftl 1 (pos mod bits_per_slot), x);
  Some (ret, pos, <[Z.to_nat idx := x]> v).

Definition claim_right_whole (s : Z * Z * list Z) : option ((Z * Z * list Z) + (Z * Z * list Z)) :=
  let '(idx, pos, v) := s in
  if idx <? vsize v then
    x ← get v idx;
    if x =? all_slot_set then Some (inl (idx +64 1, pos + bits_per_slot, <[Z.to_nat idx := all_slot_clear]> v))
    else Some (inr s)
  else Some (inr s).

Definition _claim_free_to_right_l0 (l0_pos_start : Z) (v : list Z) : option (Z * list Z) :=
  let pos := l0_pos_start in
  let idx := pos / bits_per_slot in
  if vsize v <=? idx then Some (u64 pos, v)
  else
    '(ret, pos, v) ← claim_right_slot pos idx v;
    match ret with
    | Some r => Some (u64 r, v)
    | None =>
        '(idx, pos, v) ← whileM claim_right_whole 64 (idx +64 1, pos, v);
        if idx <? vsize v then
          x ← get v idx;
          if negb (x =? all_slot_set) && negb (x =? all_slot_clear) then
            '(ret, pos, v) ← claim_right_slot pos idx v;
            Some (u64 (default pos ret), v)
          else Some (u64 pos, v)
        else Some (u64 pos, v)
    end.

Definition claim_free_to_left_l1 (offs : Z) (a : AllocatorLevel01Loose) : option (Z * AllocatorLevel01Loose) :=
  let l0_pos_end := offs / l0_granularity a in
  '(l0_pos_start, v) ← _claim_free_to_left_l0 (i64 l0_pos_end) (l0 a);
  let a := set_l0 v a in
  if l0_pos_start <? l0_pos_end then
    a ← _mark_l1_on_l0 (align_down l0_pos_start bits_per_slotset) (round_up l0_pos_end bits_per_slotset) a;
    Some (l0_granularity a *64 (l0_pos_end -64 l0_pos_start), a)
  else Some (0, a).

Definition claim_free_to_right_l1 (offs : Z) (a : AllocatorLevel01Loose) : option (Z * AllocatorLevel01Loose) :=
  let l0_pos_start := offs / l0_granularity a in
  '(l0_pos_end, v) ← _claim_free_to_right_l0 (i64 l0_pos_start) (l0 a);
  let a := set_l0 v a in
  if l0_pos_start <? l0_pos_end then
    a ← _mark_l1_on_l0 (align_down l0_pos_start bits_per_slotset) (round_up l0_pos_end bits_per_slotset) a;
    Some (l0_granularity a *64 (l0_pos_end -64 l0_pos_start), a)
  else Some (0, a).

(** ** Level 2: AllocatorLevel02 *)

Record AllocatorLevel02 := mk_level02 {
  level01 : AllocatorLevel01Loose;
  l2_granularity : Z;
  available : Z;
  last_pos : Z;
  l2 : list Z;
}.

Definition set_level01 (x : AllocatorLevel01Loose) (a : AllocatorLevel02) : AllocatorLevel02 :=
  mk_level02 x (l2_granularity a) (available a) (last_pos a) (l2 a).
Definition set_available (n : Z) (a : AllocatorLevel02) : AllocatorLevel02 :=
  mk_level02 (level01 a) (l2_granularity a) n (last_pos a) (l2 a).
Definition set_last_pos (n : Z) (a : AllocatorLevel02) : AllocatorLevel02 :=
  mk_level02 (level01 a) (l2_granularity a) (available a) n (l2 a).
Definition set_l2 (v : list Z) (a : AllocatorLevel02) : AllocatorLevel02 :=
  mk_level02 (level01 a) (l2_granularity a) (available a) (last_pos a) v.

Definition _mark_l2_free (l2_pos l2_pos_end : Z) (v : list Z) : option (list Z) :=
  for_ l2_pos l2_pos_end set_bit v.
Definition _mark_l2_allocated (l2_pos l2_pos_end : Z) (v : list Z) : option (list Z) :=
  for_ l2_pos l2_pos_end clear_bit v.

(** The entries of level 1 below a bit of level 2. *)
Definition l1_per_l2 : Z := L1_ENTRIES_PER_SLOT * slots_per_slotset.

Definition _init (capacity alloc_unit : Z) (mark_as_free : bool) : option AllocatorLevel02 :=
  x ← _init_l1 capacity alloc_unit mark_as_free;
  let l2g := u64 (l1_granularity x * L1_ENTRIES_PER_SLOT * slots_per_slotset) in
  let aligned := round_up capacity (l2g *64 bits_per_slot) in
  let v := replicate (Z.to_nat (aligned / l2g / bits_per_slot)) (if mark_as_free then all_slot_set else all_slot_clear) in
  if mark_as_free then Some (mk_level02 x l2g (align_down capacity alloc_unit) 0 v)
  else
    v ← _mark_l2_allocated (round_up capacity l2g / l2g) (aligned / l2g) v;
    Some (mk_level02 x l2g 0 0 v).

(** [for (p = l2_pos; p < l2_pos_end; ++p)]: the bit says whether some entry is
    not [L1_ENTRY_FULL]. *)
Definition _mark_l2_on_l1 (l2_pos l2_pos_end : Z) (a : AllocatorLevel02) : option AllocatorLevel02 :=
  v ← for_ l2_pos l2_pos_end (fun p v =>
    full ← all_of (Z.to_nat l1_per_l2) (p * l1_per_l2) (fun i => x ← entry (l1 (level01 a)) i; Some (x =? 0));
    if (full : bool) then clear_bit p v else set_bit p v) (l2 a);
  Some (set_l2 v a).

Definition _mark_free (offset length : Z) (a : AllocatorLevel02) : option AllocatorLevel02 :=
  '(_, x) ← _free_l1 offset length (level01 a);
  let l2p := offset / l2_granularity a in
  let l2e := round_up (offset +64 length) (l2_granularity a) / l2_granularity a in
  v ← _mark_l2_free l2p l2e (l2 a);
  Some (set_available (available a +64 length) (set_l2 v (set_level01 x a))).

Definition _mark_allocated (offset length : Z) (a : AllocatorLevel02) : option AllocatorLevel02 :=
  let g := l0_granularity (level01 a) in
  let l0s := offset / g in
  let l0e := round_up (offset +64 length) g / g in
  x ← _mark_alloc_l1_l0 l0s l0e (level01 a);
  let l2p := offset / l2_granularity a in
  let l2e := round_up (offset +64 length) (l2_granularity a) / l2_granularity a in
  a ← _mark_l2_on_l1 l2p l2e (set_level01 x a);
  _ ← cxxlab_assert (length <=? available a);
  Some (set_available (available a -64 length) a).

(** The loop of [_free_l2]. *)
Fixpoint free_ranges (l : list (Z * Z)) (released : Z) (a : AllocatorLevel02) : option (Z * AllocatorLevel02) :=
  match l with
  | [] => Some (released, a)
  | (o, len) :: l =>
      '(r, x) ← _free_l1 o len (level01 a);
      v ← _mark_l2_free (o / l2_granularity a) (round_up (o +64 len) (l2_granularity a) / l2_granularity a) (l2 a);
      free_ranges l (released +64 r) (set_l2 v (set_level01 x a))
  end.

Definition _free_l2 (rr : IntervalSet.interval_set) (a : AllocatorLevel02) : option AllocatorLevel02 :=
  '(released, a) ← free_ranges (IntervalSet.m_ rr) 0 a;
  Some (set_available (available a +64 released) a).

(** State of the loops of [_allocate_l2]: [*allocated], [*res], the object. *)
Definition l2_state : Type := Z * list pextent_t * AllocatorLevel02.

(** [while (bit >= 0 && bit < scan_end)]; the exit says whether it returned. *)
Definition scan_bits (want min_length max_length idx scan_end val : Z) (s : Z * l2_state) :
  option ((Z * l2_state) + (bool * l2_state)) :=
  let '(bit, (allocated, res, a)) := s in
  if (0 <=? bit) && (bit <? scan_end) then
    let b := u64 (idx / bits_per_slot * bits_per_slot + bit) in
    let l1s := b *64 l1_per_l2 in
    let l1e := l1s +64 l1_per_l2 in
    '(_, (allocated, res, x)) ← _allocate_l1 want min_length max_length l1s l1e allocated res (level01 a);
    let a := set_level01 x a in
    empty ← _is_empty_l1 (l0 x) l1s l1e;
    v ← if (empty : bool) then
          _ ← cxxlab_assert (bit <? bits_per_slot);
          update (l2 a) (idx / bits_per_slot) (fun y => Z.land y (not64 (Z.shiftl 1 bit)))
        else Some (l2 a);
    let a := set_l2 v a in
    if want <=? allocated then
      Some (inr (true, (allocated, res, set_available (available a -64 allocated) (set_last_pos b a))))
    else
      y ← get (l2 a) (idx / bits_per_slot);
      let bit := if val =? all_slot_set then (if bit + 1 <? scan_end then bit + 1 else -1)
                 else find_next_set_bit y (bit + 1) in
      Some (inl (bit, (allocated, res, a)))
  else Some (inr (false, (allocated, res, a))).

(** [while (idx < end)]. *)
Definition scan_slots (want min_length max_length end_ : Z) (s : Z * l2_state) :
  option ((Z * l2_state) + (bool * l2_state)) :=
  let '(idx, (allocated, res, a)) := s in
  if idx <? end_ then
    val ← get (l2 a) (idx / bits_per_slot);
    if val =? all_slot_clear then Some (inl (idx +64 bits_per_slot, (allocated, res, a)))
    else
      let slot_start := idx / bits_per_slot * bits_per_slot in
      let scan_end := Z.min (slot_start +64 bits_per_slot) end_ in
      let bit := if val =? all_slot_set then 0 else find_next_set_bit val (idx mod bits_per_slot) in
      '(returned, st) ← whileM (scan_bits want min_length max_length idx scan_end val) 64 (bit, (allocated, res, a));
      if (returned : bool) then Some (inr (true, st)) else Some (inl (scan_end, st))
  else Some (inr (false, (allocated, res, a))).

Definition _allocate_l2 (want min_length max_length hint : Z) (allocated : Z) (res : list pextent_t) (a : AllocatorLevel02) :
  option (Z * l2_state) :=
  let max_length := if (max_length =? 0) || (2 ^ 31 <=? max_length) then 2 ^ 31 else max_length in
  let max_length := align_down max_length min_length in
  let max_length := if max_length <? min_length then min_length else max_length in
  let bits := vsize (l2 a) *64 bits_per_slot in
  let pos := if 0 <? hint then align_down (hint / l2_granularity a) bits_per_slot else last_pos a in
  let pos := if bits <=? u64 pos then 0 else pos in
  '(returned, st) ← whileM (scan_slots want min_length max_length bits) 64 (pos, (allocated, res, a));
  if (returned : bool) then Some (0, st)
  else
    '(returned, st) ← whileM (scan_slots want min_length max_length pos) 64 (0, st);
    if (returned : bool) then Some (0, st)
    else
      let '(allocated, res, a) := st in
      let a := if 0 <? allocated then set_available (available a -64 allocated) a else a in
      Some (if 0 <? allocated then 0 else - ENOSPC, (allocated, res, a)).

(** ** Enumeration of the free ranges *)

(** The ranges of one slot of level 0, as positions and lengths in the slot. *)
Definition slot_end_step (x b : Z) : Z + Z :=
  let b := b + 1 in
  if (b <? bits_per_slot) && negb (Z.land x (Z.shiftl 1 b) =? 0) then inl b else inr b.

Definition slot_ranges_step (x : Z) (s : Z * list (Z * Z)) : option ((Z * list (Z * Z)) + list (Z * Z)) :=
  let '(b, acc) := s in
  let rs := find_next_set_bit x b in
  if 0 <=? rs then
    e ← while (slot_end_step x) 64 rs;
    Some (inl (e, acc ++ [(rs, e - rs)]))
  else Some (inr acc).

Definition slot_ranges (x : Z) : option (list (Z * Z)) := whileM (slot_ranges_step x) 64 (0, []).

(** What [notify] is called with for one entry of level 1. *)
Definition foreach_entry (x : AllocatorLevel01Loose) (ent eidx : Z) (calls : list (Z * Z)) : option (list (Z * Z)) :=
  if ent =? L1_ENTRY_FULL then Some calls
  else if ent =? L1_ENTRY_FREE then Some (calls ++ [(eidx *64 l1_granularity x, l1_granularity x)])
  else
    let l0b := eidx * bits_per_slotset in
    for_ 0 slots_per_slotset (fun s calls =>
      y ← get (l0 x) (l0b / bits_per_slot + s);
      rs ← slot_ranges y;
      Some (calls ++ ((fun r : Z * Z => (u64 ((l0b / bits_per_slot * bits_per_slot + s * bits_per_slot + r.1) * l0_granularity x),
                        r.2 *64 l0_granularity x)) <$> rs))) calls.

Definition foreach_internal (a : AllocatorLevel02) : option (list (Z * Z)) :=
  let x := level01 a in
  for_ 0 (vsize (l1 x)) (fun i calls =>
    val ← get (l1 x) i;
    if val =? all_slot_clear then Some calls
    else for_ 0 L1_ENTRIES_PER_SLOT (fun e calls =>
      let ent := Z.land (Z.shiftr val (e * L1_ENTRY_WIDTH)) L1_ENTRY_MASK in
      foreach_entry x ent (i * L1_ENTRIES_PER_SLOT + e) calls) calls) [].

(** ** Claiming, with the update of level 2 *)

Definition claim_free_to_left_l2 (offset : Z) (a : AllocatorLevel02) : option (Z * AllocatorLevel02) :=
  '(allocated, x) ← claim_free_to_left_l1 offset (level01 a);
  _ ← cxxlab_assert (allocated <=? available a);
  let a := set_available (available a -64 allocated) (set_level01 x a) in
  let l2_pos := (offset -64 allocated) / l2_granularity a in
  let l2_pos_end := round_up offset (l2_granularity a) / l2_granularity a in
  a ← _mark_l2_on_l1 l2_pos l2_pos_end a;
  Some (allocated, a).

Definition claim_free_to_right_l2 (offset : Z) (a : AllocatorLevel02) : option (Z * AllocatorLevel02) :=
  '(allocated, x) ← claim_free_to_right_l1 offset (level01 a);
  _ ← cxxlab_assert (allocated <=? available a);
  let a := set_available (available a -64 allocated) (set_level01 x a) in
  let l2_pos := offset / l2_granularity a in
  let l2_pos_end := round_up (offset +64 allocated) (l2_granularity a) / l2_granularity a in
  a ← _mark_l2_on_l1 l2_pos l2_pos_end a;
  Some (allocated, a).

(** ** BitmapAllocator *)

Record BitmapAllocator := mk_bitmap { device_size : Z; block_size_ : Z; impl_ : AllocatorLevel02 }.

Definition set_impl (x : AllocatorLevel02) (a : BitmapAllocator) : BitmapAllocator :=
  mk_bitmap (device_size a) (block_size_ a) x.

Definition create (capacity alloc_unit : Z) : option BitmapAllocator :=
  x ← _init (u64 capacity) (u64 alloc_unit) false;
  Some (mk_bitmap capacity alloc_unit x).

Definition bitmap_allocate (want unit max_alloc_size hint : Z) (extents : list pextent_t) (a : BitmapAllocator) :
  option (Z * list pextent_t * BitmapAllocator) :=
  _ ← cxxlab_assert (IntArith.isp2 64 unit);
  _ ← cxxlab_assert (want mod unit =? 0);
  _ ← cxxlab_assert (l0_granularity (level01 (impl_ a)) <=? unit);
  '(r, (allocated, extents, x)) ← _allocate_l2 want unit max_alloc_size hint 0 extents (impl_ a);
  Some (if (r =? 0) && (0 <? allocated) then i64 allocated else - ENOSPC, extents, set_impl x a).

Definition bitmap_release (release_set : IntervalSet.interval_set) (a : BitmapAllocator) : option BitmapAllocator :=
  _ ← cxxlab_assert (forallb (fun p : Z * Z => p.1 +64 p.2 <=? u64 (device_size a)) (IntervalSet.m_ release_set));
  x ← _free_l2 release_set (impl_ a);
  Some (set_impl x a).

Definition bitmap_get_free (a : BitmapAllocator) : Z := available (impl_ a).

Definition bitmap_get_fragmentation (a : BitmapAllocator) : spec_float :=
  let x := level01 (impl_ a) in
  let total := unalloc_l1_count x +64 partial_l1_count x in
  if total =? 0 then Floats.to_double 0
  else Floats.ddiv (Floats.to_double (partial_l1_count x)) (Floats.to_double total).

Definition bitmap_dump (a : BitmapAllocator) : option (gmap Z Z) := collect_stats (level01 (impl_ a)) ∅.

Definition bitmap_foreach (a : BitmapAllocator) : option (list (Z * Z)) := foreach_internal (impl_ a).

(** The rounded range of [init_add_free] and [init_rm_free]. *)
Definition init_range (offset length : Z) (a : BitmapAllocator) : Z * Z :=
  let g := l0_granularity (level01 (impl_ a)) in
  let off := round_up offset g in
  (off, align_down (offset +64 length -64 off) g).

Definition bitmap_init_add_free (offset length : Z) (a : BitmapAllocator) : option BitmapAllocator :=
  if length =? 0 then Some a
  else
    let '(off, length) := init_range offset length a in
    if length =? 0 then Some a
    else
      _ ← cxxlab_assert (off +64 length <=? u64 (device_size a));
      x ← _mark_free off length (impl_ a);
      Some (set_impl x a).

Definition bitmap_init_rm_free (offset length : Z) (a : BitmapAllocator) : option BitmapAllocator :=
  if length =? 0 then Some a
  else
    let '(off, length) := init_range offset length a in
    if length =? 0 then Some a
    else
      _ ← cxxlab_assert (off +64 length <=? u64 (device_size a));
      x ← _mark_allocated off length (impl_ a);
      Some (set_impl x a).

Definition bitmap_shutdown (a : BitmapAllocator) : BitmapAllocator :=
  set_impl (set_last_pos 0 (set_available 0 (impl_ a))) a.

Definition claim_free_to_left (offset : Z) (a : BitmapAllocator) : option (Z * BitmapAllocator) :=
  '(n, x) ← claim_free_to_left_l2 offset (impl_ a); Some (n, set_impl x a).
Definition claim_free_to_right (offset : Z) (a : BitmapAllocator) : option (Z * BitmapAllocator) :=
  '(n, x) ← claim_free_to_right_l2 offset (impl_ a); Some (n, set_impl x a).

#[global] Instance bitmap_allocator : Allocator BitmapAllocator := {|
  allocate want unit max_alloc_size hint a := bitmap_allocate want unit max_alloc_size hint [] a;
  release := bitmap_release;
  init_add_free := bitmap_init_add_free;
  init_rm_free := bitmap_init_rm_free;
  get_free := bitmap_get_free;
  get_capacity := device_size;
  get_block_size := block_size_;
|}.

(** A small device: three blocks are allocated from a run of two and one of
    four, and a range is claimed to the left. *)
Example bitmap_smoke :
  (a ← create 1048576 4096;
   a ← bitmap_init_add_free 4096 8192 a;
   a ← bitmap_init_add_free 40960 16384 a;
   '(r, exts, a) ← bitmap_allocate 12288 4096 0 0 [] a;
   l ← bitmap_foreach a;
   '(n, a) ← claim_free_to_left 57344 a;
   Some (r, exts, l, n, bitmap_get_free a)) =
  Some (12288, [mk_pextent 4096 8192; mk_pextent 40960 4096], [(45056, 12288)], 12288, 0).
Proof. vm_compute. reflexivity. Qed.

End Bitmap.
