(* ===== verification/BitmapBits.v ===== *)
(** * Slots of bits

    What the slot operations of the bitmap allocator do to the bits of a
    vector: single bits, ranges of bits, the summary of a slot set, and the
    two-bit entries of level 1 with their counters. *)
From stdpp Require Import base numbers list gmap.
From Stdlib Require Import ZArith Lia ZifyBool.
From S2P Require Import Prelude IntArith Allocator BitmapAllocator.
Import Allocator Bitmap.

Module BitmapBits.

(** Every slot is a [uint64_t]. *)
Definition wfv (v : list Z) : Prop := Forall (fun x => 0 <= x < 2 ^ 64) v.

(** Bit [p] of the vector. *)
Definition bit (v : list Z) (p : Z) : bool :=
  match v !! Z.to_nat (p / 64) with Some x => Z.testbit x (p mod 64) | None => false end.

(** The bits [lo .. hi-1] become [b], the others stay. *)
Definition marks (v v' : list Z) (lo hi : Z) (b : bool) : Prop :=
  vsize v' = vsize v /\ wfv v' /\
  forall p, 0 <= p -> bit v' p = if (lo <=? p) && (p <? hi) then b else bit v p.

Definition allbits (v : list Z) (lo hi : Z) (b : bool) : Prop := forall p, lo <= p < hi -> bit v p = b.

Ltac fold_consts :=
  change bits_per_slot with 64 in *; change slots_per_slotset with 8 in *; change bits_per_slotset with 512 in *;
  change L1_ENTRIES_PER_SLOT with 32 in *; change L1_ENTRY_WIDTH with 2 in *; change L1_ENTRY_MASK with 3 in *;
  change l1_per_l2 with 256 in *; change all_slot_clear with 0 in *.

Lemma vsize_nonneg v : 0 <= vsize v.
Proof. unfold vsize. lia. Qed.

Lemma testbit_range x : 0 <= x -> x < 2 ^ 64 <-> forall i, 64 <= i -> Z.testbit x i = false.
Proof.
  intros Hx. split; intros H.
  - intros i Hi. destruct (Z.eq_dec x 0) as [->|]; [apply Z.testbit_0_l|].
    apply Z.bits_above_log2; [done|]. apply Z.log2_lt_pow2; [lia|]. eapply Z.lt_le_trans; [exact H|]. apply Z.pow_le_mono_r; lia.
  - destruct (Z.lt_ge_cases x (2 ^ 64)); [done|exfalso]. assert (0 < x) by lia.
    assert (64 <= Z.log2 x) by (apply Z.log2_le_pow2; lia).
    pose proof (Z.bit_log2 x ltac:(lia)) as Hb. by rewrite H in Hb.
Qed.

Lemma get_slot v i :
  0 <= i < vsize v -> wfv v ->
  exists x, get v i = Some x /\ v !! Z.to_nat i = Some x /\ 0 <= x < 2 ^ 64 /\
    (forall p, p / 64 = i -> bit v p = Z.testbit x (p mod 64)) /\
    (forall j, 0 <= j < 64 -> Z.testbit x j = bit v (64 * i + j)).
Proof.
  intros Hi Hw. unfold vsize in Hi. destruct (lookup_lt_is_Some_2 v (Z.to_nat i)) as [x Hx]; [lia|].
  exists x. unfold get. destruct (Z.ltb_spec i 0); [lia|]. rewrite Hx.
  assert (forall p, p / 64 = i -> bit v p = Z.testbit x (p mod 64)) as H1.
  { intros p Hp. unfold bit. by rewrite Hp, Hx. }
  pose proof (Forall_lookup_1 _ _ _ _ Hw Hx). split; [done|]. split; [done|]. split; [done|]. split; [done|].
  intros j Hj. rewrite H1.
  - f_equal. rewrite (Z.mul_comm 64), Z.add_comm, Z.mod_add, Z.mod_small by lia. done.
  - rewrite (Z.mul_comm 64), Z.add_comm, Z.div_add, Z.div_small by lia. lia.
Qed.

Lemma bit_out v p : 64 * vsize v <= p -> bit v p = false.
Proof.
  intros Hp. unfold bit, vsize in *. rewrite lookup_ge_None_2; [done|].
  pose proof (Z.div_le_lower_bound p 64 (Z.of_nat (List.length v))). lia.
Qed.

Lemma bit_true_range v p : bit v p = true -> p < 64 * vsize v.
Proof. intros H. destruct (Z.lt_ge_cases p (64 * vsize v)); [done|]. by rewrite bit_out in H. Qed.

(** The effect of writing a slot. *)
Lemma update_spec v i (f : Z -> Z) :
  0 <= i < vsize v -> wfv v -> (forall x, 0 <= x < 2 ^ 64 -> 0 <= f x < 2 ^ 64) ->
  exists x v', update v i f = Some v' /\ 0 <= x < 2 ^ 64 /\ v !! Z.to_nat i = Some x /\
    (forall p, p / 64 = i -> bit v p = Z.testbit x (p mod 64)) /\
    vsize v' = vsize v /\ wfv v' /\
    forall p, 0 <= p -> bit v' p = if p / 64 =? i then Z.testbit (f x) (p mod 64) else bit v p.
Proof.
  intros Hi Hw Hf. destruct (get_slot v i Hi Hw) as (x & E & Hl & Hx & Hb & _).
  exists x, (<[Z.to_nat i := f x]> v). unfold update. rewrite E. simpl. split_and!; try done; try lia.
  - unfold vsize. by rewrite length_insert.
  - apply Forall_insert; [done|by apply Hf].
  - intros p Hp. unfold bit. unfold vsize in Hi. destruct (Z.eqb_spec (p / 64) i) as [<-|Hne].
    + rewrite list_lookup_insert_eq; [done|lia].
    + rewrite list_lookup_insert_ne; [done|]. pose proof (Z.div_pos p 64). lia.
Qed.

Lemma testbit_u64_not x i : 0 <= i < 64 -> Z.testbit (not64 x) i = negb (Z.testbit x i).
Proof. intros Hi. unfold not64, u64, wrap. rewrite Z.mod_pow2_bits_low by lia. by rewrite Z.lnot_spec by lia. Qed.

Lemma testbit_one i j : 0 <= i -> 0 <= j -> Z.testbit (Z.shiftl 1 i) j = (i =? j).
Proof.
  intros Hi Hj. rewrite Z.shiftl_spec by done. destruct (Z.eqb_spec i j) as [->|]; [by rewrite Z.sub_diag|].
  destruct (Z.ltb_spec j i); [apply Z.testbit_neg_r; lia|]. apply Z.bits_above_log2; [lia|]. change (Z.log2 1) with 0. lia.
Qed.

Lemma land_range x y : 0 <= x < 2 ^ 64 -> 0 <= Z.land x y < 2 ^ 64.
Proof.
  intros Hx. assert (0 <= Z.land x y) by (apply Z.land_nonneg; lia). split; [done|].
  apply testbit_range; [done|]. intros i Hi. rewrite Z.land_spec. by rewrite (proj1 (testbit_range x ltac:(lia))) by (lia || done).
Qed.

Lemma lor_range x y : 0 <= x < 2 ^ 64 -> 0 <= y < 2 ^ 64 -> 0 <= Z.lor x y < 2 ^ 64.
Proof.
  intros Hx Hy. assert (0 <= Z.lor x y) by (apply Z.lor_nonneg; lia). split; [done|].
  apply testbit_range; [done|]. intros i Hi. rewrite Z.lor_spec.
  by rewrite (proj1 (testbit_range x ltac:(lia))), (proj1 (testbit_range y ltac:(lia))) by (lia || done).
Qed.

Lemma one_range i : 0 <= i < 64 -> 0 <= Z.shiftl 1 i < 2 ^ 64.
Proof. intros. rewrite Z.shiftl_mul_pow2 by lia. rewrite Z.mul_1_l. split; [lia|]. apply Z.pow_lt_mono_r; lia. Qed.

Lemma pos_split p i j : 0 <= p -> p / 64 = i / 64 -> (p mod 64 =? j) = (p =? i / 64 * 64 + j).
Proof. intros. pose proof (Z.div_mod p 64). lia. Qed.

(** ** Searching *)

Lemma pos_ctz_bits p : Z.testbit (Zpos p) (IntArith.pos_ctz p) = true /\ 0 <= IntArith.pos_ctz p /\
  forall j, 0 <= j < IntArith.pos_ctz p -> Z.testbit (Zpos p) j = false.
Proof.
  destruct (IntArith.pos_ctz_spec p) as (q & Hq & Hn). split_and!; [|done|].
  - rewrite Hq at 1. by apply IntArith.odd_multiple_testbit.
  - intros j Hj. rewrite Hq. apply Z.mul_pow2_bits_low. lia.
Qed.

Lemma find_next_set_bit_spec x s :
  0 <= x < 2 ^ 64 -> 0 <= s ->
  (find_next_set_bit x s = -1 /\ forall j, s <= j < 64 -> Z.testbit x j = false) \/
  (s <= find_next_set_bit x s < 64 /\ Z.testbit x (find_next_set_bit x s) = true /\
   forall j, s <= j < find_next_set_bit x s -> Z.testbit x j = false).
Proof.
  intros Hx Hs. unfold find_next_set_bit. fold_consts. destruct (Z.leb_spec 64 s); [left; split; [done|lia]|].
  assert (forall j, 0 <= j -> Z.testbit (Z.shiftr x s) j = Z.testbit x (j + s)) as Hb by (intros; by apply Z.shiftr_spec).
  destruct (Z.eqb_spec (Z.shiftr x s) 0) as [E|E]; simpl.
  { left. split; [done|]. intros j Hj. replace j with (j - s + s) by lia. rewrite <- Hb, E by lia. apply Z.testbit_0_l. }
  right. assert (0 <= Z.shiftr x s) by (apply Z.shiftr_nonneg; lia). destruct (Z.shiftr x s) as [|p|p] eqn:Ep; [done| |lia].
  destruct (pos_ctz_bits p) as (H1 & H2 & H3). simpl IntArith.ctz. set (t := IntArith.pos_ctz p) in *.
  rewrite Hb in H1 by done. split_and!; try lia; try done.
  - destruct (Z.lt_ge_cases (t + s) 64); [done|]. by rewrite (proj1 (testbit_range x ltac:(lia)) ltac:(lia)) in H1.
  - intros j Hj. replace j with (j - s + s) by lia. rewrite <- Hb by lia. apply H3. lia.
Qed.

(** ** Single bits *)

Definition marks_one (one : Z -> list Z -> option (list Z)) (b : bool) : Prop :=
  forall p v, 0 <= p < 64 * vsize v -> wfv v -> exists v', one p v = Some v' /\ marks v v' p (p + 1) b.

Lemma div64_range p v : 0 <= p < 64 * vsize v -> 0 <= p / 64 < vsize v.
Proof. intros. split; [apply Z.div_pos; lia|apply Z.div_lt_upper_bound; lia]. Qed.

Lemma clear_bit_spec : marks_one clear_bit false.
Proof.
  intros p v Hp Hw. unfold clear_bit. fold_consts. pose proof (Z.mod_pos_bound p 64).
  destruct (update_spec v (p / 64) (fun x => Z.land x (not64 (Z.shiftl 1 (p mod 64))))) as (x & v' & E & Hx & _ & Hb & Hs & Hw' & Hb');
    [by apply div64_range|done|intros; by apply land_range|].
  exists v'. split; [done|]. split_and!; try done. intros q Hq. rewrite Hb' by done.
  destruct (Z.eqb_spec (q / 64) (p / 64)) as [e|n].
  - rewrite Hb by done. pose proof (Z.mod_pos_bound q 64).
    rewrite Z.land_spec, testbit_u64_not, testbit_one by lia.
    replace ((p <=? q) && (q <? p + 1)) with (p mod 64 =? q mod 64) by (pose proof (Z.div_mod p 64); pose proof (Z.div_mod q 64); lia).
    destruct (_ =? _); by rewrite ?andb_false_r, ?andb_true_r.
  - destruct (Z.leb_spec p q), (Z.ltb_spec q (p + 1)); try done. exfalso. apply n. f_equal. lia.
Qed.

Lemma set_bit_spec : marks_one set_bit true.
Proof.
  intros p v Hp Hw. unfold set_bit. fold_consts. pose proof (Z.mod_pos_bound p 64).
  destruct (update_spec v (p / 64) (fun x => Z.lor x (Z.shiftl 1 (p mod 64)))) as (x & v' & E & Hx & _ & Hb & Hs & Hw' & Hb');
    [by apply div64_range|done|intros; apply lor_range; [done|apply one_range; lia]|].
  exists v'. split; [done|]. split_and!; try done. intros q Hq. rewrite Hb' by done.
  destruct (Z.eqb_spec (q / 64) (p / 64)) as [e|n].
  - rewrite Hb by done. pose proof (Z.mod_pos_bound q 64).
    rewrite Z.lor_spec, testbit_one by lia.
    replace ((p <=? q) && (q <? p + 1)) with (p mod 64 =? q mod 64) by (pose proof (Z.div_mod p 64); pose proof (Z.div_mod q 64); lia).
    destruct (_ =? _); by rewrite ?orb_false_r, ?orb_true_r.
  - destruct (Z.leb_spec p q), (Z.ltb_spec q (p + 1)); try done. exfalso. apply n. f_equal. lia.
Qed.

(** ** Ranges of bits *)

Lemma marks_refl v lo hi b : wfv v -> hi <= lo -> marks v v lo hi b.
Proof. intros Hw Hl. split_and!; try done. intros p Hp. by destruct (Z.leb_spec lo p), (Z.ltb_spec p hi); try lia. Qed.

Lemma marks_trans v v1 v2 lo mid hi b : marks v v1 lo mid b -> marks v1 v2 mid hi b -> lo <= mid <= hi -> marks v v2 lo hi b.
Proof.
  intros (S1 & W1 & B1) (S2 & W2 & B2) Hm. split_and!; [congruence|done|]. intros p Hp. rewrite B2, B1 by done.
  destruct (Z.leb_spec mid p), (Z.ltb_spec p hi), (Z.leb_spec lo p), (Z.ltb_spec p mid); simpl; try done; lia.
Qed.

Definition slot_of (b : bool) : Z := if b then all_slot_set else all_slot_clear.

Lemma slot_of_bits b i : 0 <= i < 64 -> Z.testbit (slot_of b) i = b.
Proof.
  intros Hi. destruct b; simpl; [|apply Z.testbit_0_l].
  change all_slot_set with (Z.ones 64). by apply Z.ones_spec_low.
Qed.

Lemma slot_of_range b : 0 <= slot_of b < 2 ^ 64.
Proof. by destruct b. Qed.

Lemma update_slot p v b :
  0 <= p -> p mod 64 = 0 -> p < 64 * vsize v -> wfv v ->
  exists v', update v (p / 64) (fun _ => slot_of b) = Some v' /\ marks v v' p (p + 64) b.
Proof.
  intros Hp Hm Hv Hw.
  destruct (update_spec v (p / 64) (fun _ => slot_of b)) as (x & v' & E & _ & _ & _ & Hs & Hw' & Hb);
    [apply div64_range; lia|done|intros; apply slot_of_range|].
  exists v'. split; [done|]. split_and!; try done. intros q Hq. rewrite Hb by done.
  pose proof (Z.div_mod p 64). pose proof (Z.div_mod q 64). pose proof (Z.mod_pos_bound q 64).
  rewrite slot_of_bits by lia. replace ((p <=? q) && (q <? p + 64)) with (q / 64 =? p / 64) by lia. done.
Qed.

Section Mark.
Context (one : Z -> list Z -> option (list Z)) (b : bool) (Hone : marks_one one b).

(** The state of the three loops: bits up to the position are done. *)
Definition marked (v0 : list Z) (lo hi : Z) (s : Z * list Z) : Prop :=
  lo <= s.1 <= hi /\ marks v0 s.2 lo s.1 b.

Lemma marked_step v0 lo hi p n v v' :
  marked v0 lo hi (p, v) -> marks v v' p (p + n) b -> 0 <= n -> p + n <= hi -> marked v0 lo hi (p + n, v').
Proof. intros [H1 H2] H3 ? ?. simpl in *. split; simpl; [lia|]. eapply marks_trans; [done..|lia]. Qed.

Lemma marked_size v0 lo hi p v : marked v0 lo hi (p, v) -> vsize v = vsize v0 /\ wfv v.
Proof. by intros [_ (? & ? & _)]. Qed.

Lemma mark_head_loop v0 lo hi s :
  0 <= lo -> hi <= 64 * vsize v0 -> hi < 2 ^ 63 -> marked v0 lo hi s ->
  exists s', whileM (mark_head one hi) 64 s = Some s' /\ marked v0 lo hi s' /\ (s'.1 = hi \/ s'.1 mod 64 = 0).
Proof using Hone.
  intros Hlo Hhi H63 Hs. apply (whileM_spec _ (marked v0 lo hi) (fun s => hi - s.1)); [|done|destruct Hs; simpl; lia].
  clear s Hs. intros [p v] Hs. pose proof Hs as [Hp _]. simpl in Hp. unfold mark_head. fold_consts.
  destruct (Z.ltb_spec p hi); simpl; [|eexists; split; [done|]; simpl; split; [done|left; lia]].
  destruct (Z.eqb_spec (p mod 64) 0); simpl; [eexists; split; [done|]; simpl; split; [done|by right]|].
  destruct (marked_size _ _ _ _ _ Hs) as [Hsz Hw]. destruct (Hone p v ltac:(lia) Hw) as (v' & -> & Hm). simpl.
  rewrite u64_small by lia. eexists. split; [done|]. simpl. split; [|lia]. eapply marked_step; try done; lia.
Qed.

Lemma mark_slots_loop v0 lo hi s :
  0 <= lo -> hi <= 64 * vsize v0 -> hi < 2 ^ 63 -> marked v0 lo hi s -> (s.1 = hi \/ s.1 mod 64 = 0) ->
  exists s', whileM (mark_slots (slot_of b) hi) 64 s = Some s' /\ marked v0 lo hi s'.
Proof.
  intros Hlo Hhi H63 Hs Ha. apply (whileM_spec _ (fun s => marked v0 lo hi s /\ (s.1 = hi \/ s.1 mod 64 = 0)) (fun s => hi - s.1));
    [|done|destruct Hs; simpl; lia].
  clear s Hs Ha. intros [p v] [Hs Ha]. pose proof Hs as [Hp _]. simpl in Hp, Ha. unfold mark_slots. fold_consts.
  rewrite u64_small by lia. destruct (Z.leb_spec (p + 64) hi); [|by eexists].
  destruct (marked_size _ _ _ _ _ Hs) as [Hsz Hw].
  destruct (update_slot p v b) as (v' & -> & Hm); try done; try lia. simpl.
  eexists. split; [done|]. simpl. split; [|lia]. split; [eapply marked_step; try done; lia|]. right.
  replace (p + 64) with (p + 1 * 64) by lia. rewrite Z.mod_add by lia. lia.
Qed.

Lemma mark_tail_loop v0 lo hi s :
  0 <= lo -> hi <= 64 * vsize v0 -> hi < 2 ^ 63 -> marked v0 lo hi s ->
  exists v', whileM (mark_tail one hi) 64 s = Some v' /\ marks v0 v' lo hi b.
Proof using Hone.
  intros Hlo Hhi H63 Hs. apply (whileM_spec _ (marked v0 lo hi) (fun s => hi - s.1)); [|done|destruct Hs; simpl; lia].
  clear s Hs. intros [p v] Hs. pose proof Hs as [Hp Hm0]. simpl in Hp, Hm0. unfold mark_tail.
  destruct (Z.ltb_spec p hi); [|eexists; split; [done|]; simpl; by replace p with hi in Hm0 by lia].
  destruct (marked_size _ _ _ _ _ Hs) as [Hsz Hw]. destruct (Hone p v ltac:(lia) Hw) as (v' & -> & Hm). simpl.
  rewrite u64_small by lia. eexists. split; [done|]. simpl. split; [|lia]. eapply marked_step; try done; lia.
Qed.

Lemma mark_l0_spec v lo hi :
  0 <= lo <= hi -> hi <= 64 * vsize v -> hi < 2 ^ 63 -> wfv v ->
  exists v', mark_l0 one (slot_of b) lo hi v = Some v' /\ marks v v' lo hi b.
Proof using Hone.
  intros Hlo Hhi H63 Hw. unfold mark_l0.
  destruct (mark_head_loop v lo hi (lo, v)) as (s1 & -> & Hs1 & Ha); try done; try lia.
  { split; simpl; [lia|]. apply marks_refl; [done|lia]. }
  bind. destruct (mark_slots_loop v lo hi s1) as (s2 & -> & Hs2); try done; try lia. bind.
  apply mark_tail_loop; try done; lia.
Qed.
End Mark.

Lemma mark_alloc_l0_spec v lo hi :
  0 <= lo <= hi -> hi <= 64 * vsize v -> hi < 2 ^ 63 -> wfv v ->
  exists v', _mark_alloc_l0 lo hi v = Some v' /\ marks v v' lo hi false.
Proof. apply (mark_l0_spec _ false clear_bit_spec). Qed.
Lemma mark_free_l0_spec v lo hi :
  0 <= lo <= hi -> hi <= 64 * vsize v -> hi < 2 ^ 63 -> wfv v ->
  exists v', _mark_free_l0 lo hi v = Some v' /\ marks v v' lo hi true.
Proof. apply (mark_l0_spec _ true set_bit_spec). Qed.

(** ** The summary of a slot set *)

Definition allb (v : list Z) (lo n : Z) (b : bool) : bool := forallb (fun p => Bool.eqb (bit v p) b) (seqZ lo n).

Lemma allb_spec v lo n b : allb v lo n b = true <-> allbits v lo (lo + n) b.
Proof.
  unfold allb, allbits. rewrite forallb_forall. setoid_rewrite <- list_elem_of_In. setoid_rewrite elem_of_seqZ.
  split; intros H p Hp; specialize (H p Hp); by apply Bool.eqb_true_iff.
Qed.

(** What the entry of level 1 should say of the 512 bits below it. *)
Definition summ (v : list Z) (e : Z) : Z :=
  if allb v (512 * e) 512 false then L1_ENTRY_FULL
  else if allb v (512 * e) 512 true then L1_ENTRY_FREE else L1_ENTRY_PARTIAL.

Lemma summ_range v e : 0 <= summ v e <= 3.
Proof. unfold summ, L1_ENTRY_FULL, L1_ENTRY_FREE, L1_ENTRY_PARTIAL. repeat case_match; lia. Qed.

Lemma summ_full v e : summ v e = L1_ENTRY_FULL <-> allbits v (512 * e) (512 * e + 512) false.
Proof. rewrite <- allb_spec. unfold summ. destruct (allb v (512 * e) 512 false), (allb v (512 * e) 512 true); done. Qed.

Lemma summ_free v e : summ v e = L1_ENTRY_FREE -> allbits v (512 * e) (512 * e + 512) true.
Proof. rewrite <- allb_spec. unfold summ. destruct (allb v (512 * e) 512 false), (allb v (512 * e) 512 true); done. Qed.

Lemma summ_ext v v' e : (forall p, 512 * e <= p < 512 * e + 512 -> bit v' p = bit v p) -> summ v' e = summ v e.
Proof.
  intros H. unfold summ. assert (forall b, allb v' (512 * e) 512 b = allb v (512 * e) 512 b) as Hb.
  { intros b. apply Bool.eq_iff_eq_true. rewrite !allb_spec. split; intros Ha p Hp; rewrite <- Ha by done; [symmetry|]; by apply H. }
  by rewrite !Hb.
Qed.

Lemma slot_eq x b : 0 <= x < 2 ^ 64 -> x = slot_of b <-> forall j, 0 <= j < 64 -> Z.testbit x j = b.
Proof.
  intros Hx. split; [intros -> j Hj; by apply slot_of_bits|]. intros H. apply Z.bits_inj'. intros j Hj.
  destruct (Z.lt_ge_cases j 64); [by rewrite H, slot_of_bits by lia|].
  pose proof (slot_of_range b). by rewrite (proj1 (testbit_range x ltac:(lia))), (proj1 (testbit_range (slot_of b) ltac:(lia))) by (lia || tauto).
Qed.

Lemma aggregate_spec e v :
  0 <= e -> e * 8 + 8 <= vsize v -> wfv v ->
  exists a o, aggregate e v = Some (a, o) /\
    (a = all_slot_set <-> allbits v (512 * e) (512 * e + 512) true) /\
    (o = all_slot_clear <-> allbits v (512 * e) (512 * e + 512) false).
Proof.
  intros He Hv Hw. unfold aggregate. fold_consts.
  set (I := fun (i : Z) (s : Z * Z) => 0 <= s.1 < 2 ^ 64 /\ 0 <= s.2 < 2 ^ 64 /\ forall j, 0 <= j < 64 ->
    (Z.testbit s.1 j = true <-> forall n, 0 <= n < i -> bit v (64 * (e * 8 + n) + j) = true) /\
    (Z.testbit s.2 j = false <-> forall n, 0 <= n < i -> bit v (64 * (e * 8 + n) + j) = false)).
  edestruct (for_spec 0 8 (fun i '(agg_and, agg_or) => x ← get v (e * 8 + i); Some (Z.land agg_and x, Z.lor agg_or x)) I (all_slot_set, 0))
    as ([a o] & E & Ha & Ho & H); [|lia| |].
  - intros i [a o] Hi (Ha & Ho & H). simpl in *. destruct (get_slot v (e * 8 + i)) as (x & -> & _ & Hx & _ & Hb); [lia|done|].
    eexists. split; [done|]. split; [by apply land_range|]. split; [by apply lor_range|]. intros j Hj. simpl.
    destruct (H j Hj) as [H1 H2]. rewrite Z.land_spec, Z.lor_spec, Hb by done. split.
    + rewrite andb_true_iff, H1. split; [intros [Hl Hi'] n Hn|intros Hl; split; [intros n Hn|]; apply Hl; lia].
      destruct (decide (n = i)) as [->|]; [done|apply Hl; lia].
    + rewrite orb_false_iff, H2. split; [intros [Hl Hi'] n Hn|intros Hl; split; [intros n Hn|]; apply Hl; lia].
      destruct (decide (n = i)) as [->|]; [done|apply Hl; lia].
  - split; [done|]. split; [done|]. intros j Hj. simpl. change all_slot_set with (slot_of true).
    rewrite slot_of_bits, Z.testbit_0_l by done. split; (split; [intros _ n Hn; lia|done]).
  - exists a, o. split; [exact E|]. simpl in *. change all_slot_set with (slot_of true). change 0 with (slot_of false).
    rewrite !slot_eq by done.
    assert (forall b, (forall j, 0 <= j < 64 -> forall n, 0 <= n < 8 -> bit v (64 * (e * 8 + n) + j) = b) <-> allbits v (512 * e) (512 * e + 512) b) as Hall.
    { intros b. split; intros Hb.
      - intros p Hp. pose proof (Z.div_mod (p - 512 * e) 64). pose proof (Z.mod_pos_bound (p - 512 * e) 64).
        replace p with (64 * (e * 8 + (p - 512 * e) / 64) + (p - 512 * e) mod 64) by lia. apply Hb; lia.
      - intros j Hj n Hn. apply Hb. lia. }
    rewrite <- !Hall. split; (split; intros Hj j Hr; destruct (H j Hr) as [H1 H2]).
    + apply H1. by apply Hj.
    + apply H1. by apply Hj.
    + apply H2. by apply Hj.
    + apply H2. by apply Hj.
Qed.

(** ** The entries of level 1 *)

Definition ent (v : list Z) (e : Z) : Z := Z.b2z (bit v (2 * e)) + 2 * Z.b2z (bit v (2 * e + 1)).

Lemma entry_pos e : 0 <= e -> 2 * e / 64 = e / 32 /\ 2 * e mod 64 = e mod 32 * 2 /\ (2 * e + 1) / 64 = e / 32 /\ (2 * e + 1) mod 64 = e mod 32 * 2 + 1.
Proof. intros He. Z.div_mod_to_equations. lia. Qed.

Lemma div32_range e v : 0 <= e < 32 * vsize v -> 0 <= e / 32 < vsize v.
Proof. intros. split; [apply Z.div_pos; lia|apply Z.div_lt_upper_bound; lia]. Qed.

Lemma land3 x : Z.land x 3 = Z.b2z (Z.testbit x 0) + 2 * Z.b2z (Z.testbit x 1).
Proof.
  change 3 with (Z.ones 2). rewrite Z.land_ones by lia. rewrite !Z.testbit_spec' by lia.
  change (2 ^ 2) with 4. change (2 ^ 1) with 2. change (2 ^ 0) with 1. Z.div_mod_to_equations. lia.
Qed.

Lemma entry_spec v e : 0 <= e < 32 * vsize v -> wfv v -> entry v e = Some (ent v e).
Proof.
  intros He Hw. unfold entry. fold_consts. destruct (get_slot v (e / 32)) as (x & -> & _ & _ & Hb & _); [by apply div32_range|done|].
  bind. rewrite land3. unfold ent. destruct (entry_pos e) as (H1 & H2 & H3 & H4); [lia|].
  rewrite !Hb, H2, H4, !Z.shiftr_spec by (done || lia). by rewrite Z.add_0_l, (Z.add_comm 1).
Qed.

Lemma set_entry_spec v e nxt :
  0 <= e < 32 * vsize v -> wfv v -> 0 <= nxt <= 3 ->
  exists v', set_entry nxt e v = Some v' /\ vsize v' = vsize v /\ wfv v' /\
    ent v' e = nxt /\ forall e', 0 <= e' -> e' <> e -> ent v' e' = ent v e'.
Proof.
  intros He Hw Hn. unfold set_entry. fold_consts. set (off := e mod 32 * 2). pose proof (Z.mod_pos_bound e 32).
  assert (0 <= off <= 62) by lia.
  assert (forall c, 0 <= c <= 3 -> 0 <= Z.shiftl c off < 2 ^ 64) as Hsh.
  { intros c Hc. rewrite Z.shiftl_mul_pow2 by lia. split; [nia|].
    assert (2 ^ off <= 2 ^ 62) by (apply Z.pow_le_mono_r; lia). nia. }
  destruct (update_spec v (e / 32) (fun x => Z.lor (Z.land x (not64 (Z.shiftl 3 off))) (Z.shiftl nxt off)))
    as (x & v' & -> & Hx & _ & Hb & Hs & Hw' & Hb'); [by apply div32_range|done| |].
  { intros x Hx. apply lor_range; [by apply land_range|by apply Hsh]. }
  exists v'. split; [done|]. split; [done|]. split; [done|].
  assert (forall j, 0 <= j < 64 -> Z.testbit (Z.lor (Z.land x (not64 (Z.shiftl 3 off))) (Z.shiftl nxt off)) j =
    if (off <=? j) && (j <? off + 2) then Z.testbit nxt (j - off) else Z.testbit x j) as Hj.
  { intros j Hj. rewrite Z.lor_spec, Z.land_spec, testbit_u64_not, !Z.shiftl_spec by lia.
    destruct (Z.leb_spec off j); simpl.
    - change 3 with (Z.ones 2). rewrite Z.testbit_ones_nonneg by lia. destruct (Z.ltb_spec (j - off) 2), (Z.ltb_spec j (off + 2)); try lia; simpl.
      rewrite andb_true_r. replace (Z.testbit nxt (j - off)) with false; [apply orb_false_r|].
      symmetry. apply Z.testbit_false; [lia|]. rewrite Z.div_small; [done|]. split; [lia|].
      assert (2 ^ 2 <= 2 ^ (j - off)) by (apply Z.pow_le_mono_r; lia). lia.
    - rewrite !(Z.testbit_neg_r _ (j - off)) by lia. by rewrite andb_true_r, orb_false_r. }
  assert (forall p, 0 <= p -> bit v' p = if (2 * e <=? p) && (p <? 2 * e + 2) then Z.testbit nxt (p - 2 * e) else bit v p) as Hbit.
  { intros p Hp. rewrite Hb' by done. pose proof (Z.div_mod p 64). pose proof (Z.mod_pos_bound p 64). pose proof (Z.div_mod e 32).
    destruct (Z.eqb_spec (p / 64) (e / 32)) as [E|E].
    - rewrite Hj, Hb by (done || lia). replace ((off <=? p mod 64) && (p mod 64 <? off + 2)) with ((2 * e <=? p) && (p <? 2 * e + 2)) by lia.
      destruct (_ && _); [f_equal; lia|done].
    - by replace ((2 * e <=? p) && (p <? 2 * e + 2)) with false by lia. }
  split.
  - unfold ent. rewrite !Hbit by lia. replace (2 * e <=? 2 * e) with true by lia. replace (2 * e <? 2 * e + 2) with true by lia.
    replace (2 * e <=? 2 * e + 1) with true by lia. replace (2 * e + 1 <? 2 * e + 2) with true by lia. simpl.
    rewrite Z.sub_diag. replace (2 * e + 1 - 2 * e) with 1 by lia. rewrite <- land3. change 3 with (Z.ones 2) at 1. rewrite Z.land_ones by lia.
    apply Z.mod_small. lia.
  - intros e' He' Hne. unfold ent. rewrite !Hbit by lia.
    replace ((2 * e <=? 2 * e') && (2 * e' <? 2 * e + 2)) with false by lia.
    by replace ((2 * e <=? 2 * e' + 1) && (2 * e' + 1 <? 2 * e + 2)) with false by lia.
Qed.

(** ** Counting entries *)

Definition count (k : Z) (v : list Z) : Z := sumZ (fun e => Z.b2z (ent v e =? k)) (seqZ 0 (32 * vsize v)).

Lemma sumZ_ext {A} (f f' : A -> Z) l : (forall x, x ∈ l -> f x = f' x) -> sumZ f l = sumZ f' l.
Proof.
  induction l as [|a l IH]; intros H; [done|]. rewrite !sumZ_cons, H by set_solver. f_equal. apply IH. intros. apply H. set_solver.
Qed.

Lemma sumZ_seqZ_update (f f' : Z -> Z) n e :
  0 <= e < n -> (forall x, 0 <= x -> x <> e -> f' x = f x) -> sumZ f' (seqZ 0 n) = sumZ f (seqZ 0 n) - f e + f' e.
Proof.
  intros He H. replace n with (e + (1 + (n - e - 1))) by lia. rewrite !(seqZ_app 0), !(seqZ_app (0 + e)) by lia.
  assert (seqZ e 1 = [e]) as Hone by (rewrite seqZ_cons, seqZ_nil by lia; done).
  rewrite !sumZ_app, Z.add_0_l, Hone, !sumZ_cons, !sumZ_nil.
  rewrite (sumZ_ext f' f (seqZ 0 e)), (sumZ_ext f' f (seqZ (e + 1) _)); [lia| |].
  - intros x Hx. apply elem_of_seqZ in Hx. apply H; lia.
  - intros x Hx. apply elem_of_seqZ in Hx. apply H; lia.
Qed.

Lemma count_update k v v' e :
  vsize v' = vsize v -> 0 <= e < 32 * vsize v -> (forall e', 0 <= e' -> e' <> e -> ent v' e' = ent v e') ->
  count k v' = count k v - Z.b2z (ent v e =? k) + Z.b2z (ent v' e =? k).
Proof.
  intros Hs He H. unfold count. rewrite Hs. apply (sumZ_seqZ_update (fun x => Z.b2z (ent v x =? k)) (fun x => Z.b2z (ent v' x =? k))); [done|]. intros x ? ?. by rewrite H.
Qed.

Lemma count_bounds k v : 0 <= count k v <= 32 * vsize v.
Proof.
  unfold count. pose proof (vsize_nonneg v). set (n := 32 * vsize v). assert (0 <= n) by lia. clearbody n.
  assert (forall (f : Z -> Z) l, (forall x, 0 <= f x <= 1) -> 0 <= sumZ f l <= Z.of_nat (List.length l)) as Hg.
  { intros f l Hf. induction l as [|a l IH]; [done|]. rewrite sumZ_cons. pose proof (Hf a). cbn [List.length]. lia. }
  specialize (Hg (fun e => Z.b2z (ent v e =? k)) (seqZ 0 n)). rewrite length_seqZ in Hg.
  assert (forall x, 0 <= Z.b2z (ent v x =? k) <= 1) by (intros; destruct (_ =? _); simpl; lia). specialize (Hg ltac:(done)). lia.
Qed.

Lemma count_pos k v e : 0 <= e < 32 * vsize v -> ent v e = k -> 1 <= count k v.
Proof.
  intros He E. unfold count. rewrite (sumZ_seqZ_update (fun x => if x =? e then 0 else Z.b2z (ent v x =? k)) _ _ e) by (done || (intros x ? ?; by destruct (Z.eqb_spec x e))).
  rewrite Z.eqb_refl, E, Z.eqb_refl. simpl.
  enough (0 <= sumZ (fun x => if x =? e then 0 else Z.b2z (ent v x =? k)) (seqZ 0 (32 * vsize v))) by lia.
  apply sumZ_nonneg, Forall_forall. intros x _. repeat case_match; lia || (unfold Z.b2z; case_match; lia).
Qed.

Lemma sumZ_const0 {A} (f : A -> Z) l : (forall x, f x = 0) -> sumZ f l = 0.
Proof. intros H. induction l; [done|]. rewrite sumZ_cons, H. lia. Qed.
End BitmapBits.
