(* ===== verification/BitmapLevel1.v ===== *)
(** * Levels 0 and 1 of the bitmap allocator

    The invariant of [AllocatorLevel01Loose]: every entry of level 1 is the
    summary of its slot set and the two counters count the entries.  Marking
    keeps it; allocation moves free blocks to the result and nothing else. *)
From stdpp Require Import base numbers list gmap.
From Stdlib Require Import ZArith Lia ZifyBool.
From S2P Require Import Prelude IntArith Allocator BitmapAllocator BitmapBits.
Import Allocator Bitmap BitmapBits.

Module BitmapLevel1.

(** ** The invariant *)

(** The entries [lo .. hi-1] of level 1 may be out of date. *)
Record summed (lo hi : Z) (a : AllocatorLevel01Loose) : Prop := {
  s_wf0 : wfv (l0 a);
  s_wf1 : wfv (l1 a);
  s_size : vsize (l0 a) = 256 * vsize (l1 a);
  s_bound : 64 * vsize (l0 a) < 2 ^ 62;
  s_ent e : 0 <= e < 32 * vsize (l1 a) -> ~ (lo <= e < hi) -> ent (l1 a) e = summ (l0 a) e;
  s_partial : partial_l1_count a = count L1_ENTRY_PARTIAL (l1 a);
  s_unalloc : unalloc_l1_count a = count L1_ENTRY_FREE (l1 a);
}.

Abbreviation level_ok := (summed 0 0).

Definition same_level (a a' : AllocatorLevel01Loose) : Prop :=
  l0_granularity a' = l0_granularity a /\ l1_granularity a' = l1_granularity a /\ vsize (l1 a') = vsize (l1 a).

Lemma same_level_refl a : same_level a a.
Proof. done. Qed.
Lemma same_level_trans a b c : same_level a b -> same_level b c -> same_level a c.
Proof. unfold same_level. intuition congruence. Qed.

(** ** Updating level 1 *)

Lemma mark_entry_spec e hi a :
  0 <= e < hi -> e < 32 * vsize (l1 a) -> summed e hi a ->
  exists a', mark_entry e a = Some a' /\ summed (e + 1) hi a' /\ l0 a' = l0 a /\ same_level a a'.
Proof.
  intros He Hv Ha. pose proof (s_size _ _ _ Ha) as Hsz. unfold mark_entry.
  destruct (aggregate_spec e (l0 a)) as (x & o & -> & Hx & Ho); [lia|lia|apply Ha|]. bind.
  rewrite entry_spec by (apply Ha || lia). bind.
  set (nxt := if o =? all_slot_clear then _ else _).
  assert (nxt = summ (l0 a) e) as Hn.
  { unfold nxt, summ. destruct (Z.eqb_spec o all_slot_clear) as [E|E].
    - by rewrite (proj2 (allb_spec _ _ _ _)) by tauto.
    - destruct (allb (l0 a) (512 * e) 512 false) eqn:Ef; [apply allb_spec in Ef; tauto|].
      destruct (Z.eqb_spec x all_slot_set) as [E'|E'].
      + by rewrite (proj2 (allb_spec _ _ _ _)) by tauto.
      + destruct (allb (l0 a) (512 * e) 512 true) eqn:Et; [apply allb_spec in Et; tauto|done]. }
  clearbody nxt. clear Hx Ho x o. pose proof (summ_range (l0 a) e) as Hr. rewrite <- Hn in Hr.
  destruct (Z.eqb_spec (ent (l1 a) e) nxt) as [E|E].
  { exists a. split_and!; try done. constructor; try apply Ha. intros e' He' Hno.
    destruct (decide (e' = e)) as [->|]; [congruence|]. apply Ha; [done|lia]. }
  destruct (set_entry_spec (l1 a) e nxt) as (v' & Ev & Hs & Hw & He1 & He2); [lia|apply Ha|done|].
  pose proof (count_update L1_ENTRY_PARTIAL (l1 a) v' e Hs ltac:(lia) He2) as Cp.
  pose proof (count_update L1_ENTRY_FREE (l1 a) v' e Hs ltac:(lia) He2) as Cf.
  pose proof (count_bounds L1_ENTRY_PARTIAL (l1 a)). pose proof (count_bounds L1_ENTRY_FREE (l1 a)).
  pose proof (count_bounds L1_ENTRY_PARTIAL v'). pose proof (count_bounds L1_ENTRY_FREE v').
  pose proof (count_pos L1_ENTRY_PARTIAL (l1 a) e). pose proof (count_pos L1_ENTRY_FREE (l1 a) e).
  pose proof (s_bound _ _ _ Ha). rewrite He1 in Cp, Cf.
  assert (exists p u, (let '(partial, unalloc) :=
      if ent (l1 a) e =? L1_ENTRY_PARTIAL then (partial_l1_count a -64 1, unalloc_l1_count a)
      else if ent (l1 a) e =? L1_ENTRY_FREE then (partial_l1_count a, unalloc_l1_count a -64 1)
      else (partial_l1_count a, unalloc_l1_count a) in
    let '(partial, unalloc) :=
      if nxt =? L1_ENTRY_PARTIAL then (partial +64 1, unalloc)
      else if nxt =? L1_ENTRY_FREE then (partial, unalloc +64 1)
      else (partial, unalloc) in (partial, unalloc)) = (p, u) /\ p = count L1_ENTRY_PARTIAL v' /\ u = count L1_ENTRY_FREE v') as (p & u & Epu & Hp & Hu).
  { rewrite (s_partial _ _ _ Ha), (s_unalloc _ _ _ Ha), Cp, Cf.
    destruct (Z.eqb_spec (ent (l1 a) e) L1_ENTRY_PARTIAL), (Z.eqb_spec (ent (l1 a) e) L1_ENTRY_FREE),
      (Z.eqb_spec nxt L1_ENTRY_PARTIAL), (Z.eqb_spec nxt L1_ENTRY_FREE); unfold L1_ENTRY_PARTIAL, L1_ENTRY_FREE in *; try lia;
      eexists _, _; (split; [reflexivity|]); simpl Z.b2z in *; unwrap64; lia. }
  exists (set_l1 v' p u a). split.
  { revert Epu. destruct (if ent (l1 a) e =? L1_ENTRY_PARTIAL then _ else _) as [p1 u1].
    destruct (if nxt =? L1_ENTRY_PARTIAL then _ else _) as [p2 u2]. intros [= -> ->]. by rewrite Ev, some_bind. }
  split; [|by split_and!]. constructor; simpl; try apply Ha; try done; try congruence.
  intros e' He' Hno. destruct (decide (e' = e)) as [->|]; [congruence|]. rewrite He2 by lia. apply Ha; lia.
Qed.

Lemma align512 x : 0 <= x < 2 ^ 63 -> align_down x bits_per_slotset = 512 * (x / 512).
Proof. intros. unfold align_down. apply (IntArith.p2align_spec 64 x 9); [lia|unfold uint; lia]. Qed.
Lemma round512 x : 0 <= x < 2 ^ 63 -> round_up x bits_per_slotset = 512 * ((x + 511) / 512).
Proof.
  intros. unfold round_up. change bits_per_slotset with (2 ^ 9). rewrite IntArith.p2roundup_spec by lia. change (2 ^ 9) with 512.
  do 2 f_equal. lia.
Qed.

Lemma mark_l1_on_l0_spec s e a :
  0 <= s <= e -> e <= 64 * vsize (l0 a) -> summed (s / 512) ((e + 511) / 512) a ->
  exists a', _mark_l1_on_l0 s e a = Some a' /\ level_ok a' /\ l0 a' = l0 a /\ same_level a a'.
Proof.
  intros Hs He Ha. unfold _mark_l1_on_l0. pose proof (s_bound _ _ _ Ha). pose proof (s_size _ _ _ Ha).
  rewrite align512, round512 by lia. fold_consts.
  rewrite !(Z.mul_comm 512), !Z.div_mul by lia. set (lo := s / 512) in *. set (hi := (e + 511) / 512) in *.
  assert (0 <= lo <= hi) by (subst lo hi; Z.div_mod_to_equations; lia).
  assert (hi <= 32 * vsize (l1 a)) by (subst hi; Z.div_mod_to_equations; lia).
  destruct (for_spec lo hi mark_entry (fun i a' => summed i hi a' /\ l0 a' = l0 a /\ same_level a a') a) as (a' & -> & Ha' & E & Hl);
    [|lia|by split_and!|].
  - intros i a1 Hi (Hs1 & E1 & Hl1). destruct (mark_entry_spec i hi a1) as (a2 & -> & Hs2 & E2 & Hl2); try done; [lia|rewrite (proj2 (proj2 Hl1)); lia|].
    exists a2. split; [done|]. split; [done|]. split; [congruence|by eapply same_level_trans].
  - exists a'. split_and!; try done. constructor; try apply Ha'. intros e' He' _. apply Ha'; [done|lia].
Qed.

(** Marking bits of level 0 leaves the entries outside the range up to date. *)
Lemma summed_marks a v s e b :
  0 <= s <= e -> level_ok a -> marks (l0 a) v s e b -> summed (s / 512) ((e + 511) / 512) (set_l0 v a).
Proof.
  intros Hs Ha (Hsz & Hw & Hb). constructor; simpl; try apply Ha; try done.
  - rewrite Hsz. apply Ha.
  - rewrite Hsz. apply Ha.
  - intros i Hi Hno. rewrite (s_ent _ _ _ Ha) by (done || lia). symmetry. apply summ_ext. intros p Hp. rewrite Hb by lia.
    replace ((s <=? p) && (p <? e)) with false; [done|]. Z.div_mod_to_equations. lia.
Qed.

Section MarkBoth.
Context (mark : Z -> Z -> list Z -> option (list Z)) (b : bool).
Context (Hmark : forall v lo hi, 0 <= lo <= hi -> hi <= 64 * vsize v -> hi < 2 ^ 63 -> wfv v ->
  exists v', mark lo hi v = Some v' /\ marks v v' lo hi b).

Lemma mark_both_spec s e a :
  0 <= s <= e -> e <= 64 * vsize (l0 a) -> level_ok a ->
  exists a', (v ← mark s e (l0 a); _mark_l1_on_l0 (align_down s bits_per_slotset) (round_up e bits_per_slotset) (set_l0 v a)) = Some a' /\
    level_ok a' /\ marks (l0 a) (l0 a') s e b /\ same_level a a'.
Proof using Hmark.
  intros Hs He Ha. pose proof (s_bound _ _ _ Ha). pose proof (s_size _ _ _ Ha). pose proof (vsize_nonneg (l1 a)).
  destruct (Hmark (l0 a) s e) as (v & -> & Hm); [done|done|lia|apply Ha|]. bind. rewrite align512, round512 by lia.
  pose proof Hm as (Hsz & _).
  destruct (mark_l1_on_l0_spec (512 * (s / 512)) (512 * ((e + 511) / 512)) (set_l0 v a)) as (a' & -> & Ha' & E & Hl).
  - Z.div_mod_to_equations; lia.
  - simpl. Z.div_mod_to_equations; lia.
  - replace (512 * (s / 512) / 512) with (s / 512) by (Z.div_mod_to_equations; lia).
    replace ((512 * ((e + 511) / 512) + 511) / 512) with ((e + 511) / 512) by (Z.div_mod_to_equations; lia).
    by eapply summed_marks.
  - exists a'. rewrite E. by split_and!.
Qed.
End MarkBoth.

Lemma mark_alloc_l1_l0_spec s e a :
  0 <= s <= e -> e <= 64 * vsize (l0 a) -> level_ok a ->
  exists a', _mark_alloc_l1_l0 s e a = Some a' /\ level_ok a' /\ marks (l0 a) (l0 a') s e false /\ same_level a a'.
Proof. apply (mark_both_spec _ false mark_alloc_l0_spec). Qed.
Lemma mark_free_l1_l0_spec s e a :
  0 <= s <= e -> e <= 64 * vsize (l0 a) -> level_ok a ->
  exists a', _mark_free_l1_l0 s e a = Some a' /\ level_ok a' /\ marks (l0 a) (l0 a') s e true /\ same_level a a'.
Proof. apply (mark_both_spec _ true mark_free_l0_spec). Qed.
End BitmapLevel1.

(** * Allocation from levels 0 and 1

    Free blocks move to the result: the extents and the free blocks together
    stay the same set, the loops end, and they stop only when the request is
    satisfied or the range is exhausted. *)
Import Allocator Bitmap BitmapBits BitmapLevel1.

Module BitmapTake.

(** The bytes of the free blocks of [g] bytes. *)
Definition fbytes (g : Z) (v : list Z) : gset Z :=
  filter (fun x => bit v (x / g) = true) (zrange 0 (64 * vsize v * g)).

Lemma elem_of_fbytes g v x : 0 < g -> x ∈ fbytes g v <-> 0 <= x /\ bit v (x / g) = true.
Proof.
  intros Hg. unfold fbytes. rewrite elem_of_filter, elem_of_zrange. split; [naive_solver lia|]. intros [Hx Hb]. split; [done|].
  apply bit_true_range in Hb. split; [done|]. pose proof (Z.div_mod x g). pose proof (Z.mod_pos_bound x g). nia.
Qed.

(** The bytes of the blocks [s .. e-1]. *)
Lemma elem_of_blocks g s e x : 0 < g -> x ∈ zrange (s * g) ((e - s) * g) <-> s <= x / g < e.
Proof.
  intros Hg. rewrite elem_of_zrange. pose proof (Z.div_mod x g). pose proof (Z.mod_pos_bound x g).
  set (q := x / g) in *. split; intros Hx; nia.
Qed.

Lemma fbytes_clear g v v' s e : 0 < g -> 0 <= s -> marks v v' s e false -> fbytes g v' = fbytes g v ∖ zrange (s * g) ((e - s) * g).
Proof.
  intros Hg Hs (_ & _ & Hb). apply set_eq. intros x. rewrite elem_of_difference, !elem_of_fbytes, elem_of_blocks by done.
  destruct (decide (0 <= x)) as [Hx|]; [|naive_solver]. pose proof (Z.div_pos x g). rewrite Hb by lia.
  destruct (Z.leb_spec s (x / g)), (Z.ltb_spec (x / g) e); simpl; naive_solver lia.
Qed.

Lemma fbytes_set g v v' s e : 0 < g -> 0 <= s -> marks v v' s e true -> fbytes g v' = zrange (s * g) ((e - s) * g) ∪ fbytes g v.
Proof.
  intros Hg Hs (_ & _ & Hb). apply set_eq. intros x. rewrite elem_of_union, !elem_of_fbytes, elem_of_blocks by done.
  destruct (decide (0 <= x)) as [Hx|Hn].
  - pose proof (Z.div_pos x g). rewrite Hb by lia. destruct (Z.leb_spec s (x / g)), (Z.ltb_spec (x / g) e); simpl; naive_solver lia.
  - assert (x / g < 0) by (apply Z.div_lt_upper_bound; lia). naive_solver lia.
Qed.

Lemma fbytes_run g v s e : 0 < g -> 0 <= s -> allbits v s e true -> zrange (s * g) ((e - s) * g) ⊆ fbytes g v.
Proof.
  intros Hg Hs Ha x Hx. rewrite elem_of_blocks in Hx by done. rewrite elem_of_fbytes by done. split; [|by apply Ha].
  pose proof (Z.div_mod x g). pose proof (Z.mod_pos_bound x g). nia.
Qed.

Section Take.
Context (g mx : Z) (Hg : 0 < g) (Hmx : g <= mx <= 2 ^ 31) (Hmd : mx mod g = 0).

(** ** Emitting extents *)

Definition emitted (e : pextent_t) : Prop :=
  0 < length e <= mx /\ offset e mod g = 0 /\ length e mod g = 0 /\ 0 <= offset e /\ offset e + length e <= 2 ^ 63.

(** [res'] is [res] with the range [off .. off+len-1] appended. *)
Record appended (res : list pextent_t) (off len : Z) (res' : list pextent_t) : Prop := {
  ap_emitted : Forall emitted res -> Forall emitted res';
  ap_set : extents_set res' = extents_set res ∪ zrange off len;
  ap_disjoint : extents_disjoint res -> extents_set res ## zrange off len -> extents_disjoint res';
  ap_bytes : extents_bytes res' = extents_bytes res + len;
}.

Lemma appended_nil res off : appended res off 0 res.
Proof.
  constructor; try done; [|lia]. assert (zrange off 0 = ∅) as ->; [|set_solver].
  apply set_eq. intros x. rewrite elem_of_zrange. set_solver by lia.
Qed.

Lemma zrange_app off n m : 0 <= n -> 0 <= m -> zrange off (n + m) = zrange off n ∪ zrange (off + n) m.
Proof. intros. apply set_eq. intros x. rewrite elem_of_union, !elem_of_zrange. lia. Qed.

Lemma zrange_app_disjoint off n m : zrange off n ## zrange (off + n) m.
Proof. intros x. rewrite !elem_of_zrange. lia. Qed.

Lemma appended_trans r1 r2 r3 off n m :
  0 <= n -> 0 <= m -> appended r1 off n r2 -> appended r2 (off + n) m r3 -> appended r1 off (n + m) r3.
Proof.
  intros Hn Hm [E1 S1 D1 B1] [E2 S2 D2 B2]. constructor; [auto| | |lia].
  - rewrite S2, S1, zrange_app by done. by rewrite (assoc_L (∪)).
  - rewrite zrange_app by done. intros Hd Hs. pose proof (zrange_app_disjoint off n m). apply D2; [apply D1; [done|]|rewrite S1]; set_solver.
Qed.

Lemma appended_snoc res off c :
  0 < c <= mx -> c mod g = 0 -> off mod g = 0 -> 0 <= off -> off + c <= 2 ^ 63 -> appended res off c (res ++ [pextent off c]).
Proof.
  intros Hc Hcm Ho H0 H1. unfold pextent. rewrite u32_small by lia. constructor.
  - intros. apply Forall_app. split; [done|]. constructor; [|done]. by split_and!; simpl; lia.
  - rewrite extents_set_app, extents_set_cons, extents_set_nil. unfold extent_range. simpl. set_solver.
  - intros. apply extents_disjoint_snoc; [done|]. by unfold extent_range.
  - rewrite extents_bytes_app. unfold extents_bytes. simpl. lia.
Qed.

(** The last extent grows. *)
Lemma appended_last res e c :
  last res = Some e -> 0 <= c -> c mod g = 0 -> length e + c <= mx -> offset e + length e + c <= 2 ^ 63 -> 0 < length e ->
  appended res (offset e + length e) c (set_last (pextent (offset e) (length e + c)) res).
Proof.
  intros Hl Hc Hcm Hle H63 Hpos. apply last_Some in Hl as [l ->]. unfold set_last, pextent. rewrite removelast_last, u32_small by lia.
  assert (extent_range (mk_pextent (offset e) (length e + c)) = extent_range e ∪ zrange (offset e + length e) c) as Er.
  { unfold extent_range. simpl. apply zrange_app; lia. }
  constructor.
  - rewrite !Forall_app. intros [? He]. split; [done|]. apply Forall_cons in He as [(? & ? & ? & ? & ?) _].
    constructor; [|done]. split_and!; simpl; try done; try lia. rewrite Z.add_mod by lia. by replace (length e mod g) with 0; rewrite Hcm.
  - rewrite !extents_set_app, !extents_set_cons, extents_set_nil, Er. set_solver.
  - intros Hd Hs. rewrite extents_set_app, extents_set_cons, extents_set_nil in Hs.
    assert (extents_disjoint l /\ extents_set l ## extent_range e) as [H1 H2].
    { clear -Hd. induction l as [|a l IH]; simpl in *; [split; [done|set_solver]|].
      rewrite extents_set_app, extents_set_cons, extents_set_nil in Hd. destruct Hd as [Ha Hd]. destruct (IH Hd) as [? ?].
      rewrite extents_set_cons. split; [split; [set_solver|done]|set_solver]. }
    apply extents_disjoint_snoc; [done|]. rewrite Er. set_solver.
  - rewrite !extents_bytes_app. unfold extents_bytes. simpl. lia.
Qed.

Lemma emplace_loop off len allocated res :
  0 <= off -> 0 <= len -> off + len <= 2 ^ 63 -> off mod g = 0 -> len mod g = 0 -> 0 <= allocated -> allocated + len < 2 ^ 64 ->
  exists res', whileM (emplace_step mx g) 64 (off, len, allocated, res) = Some (allocated + len, res') /\ appended res off len res'.
Proof.
  intros Ho Hl H63 Hom Hlm Ha Hal.
  set (I := fun s : Z * Z * Z * list pextent_t => let '(o, l, al, r) := s in
    exists n, 0 <= n /\ 0 <= l /\ n + l = len /\ o = off + n /\ n mod g = 0 /\ al = allocated + n /\ appended res off n r).
  destruct (whileM_spec (emplace_step mx g) I (fun s => s.1.1.2) (fun r => r.1 = allocated + len /\ appended res off len r.2) 64
    (off, len, allocated, res)) as ([al r] & -> & E & Hap); [| | |by exists r; simpl in E; subst al].
  - intros [[[o l] al] r] (n & Hn & Hl0 & Enl & -> & Hnm & -> & Hap). unfold emplace_step.
    destruct (Z.ltb_spec 0 l); [|eexists; split; [done|]; simpl; replace n with len in * by lia; done].
    set (c := if (0 <? mx) && (mx <? l) then mx else l). assert (0 < c <= mx /\ c <= l /\ c mod g = 0) as (Hc & Hcl & Hcm).
    { subst c. assert (l mod g = 0) by (replace l with (len - n) by lia; rewrite Zminus_mod, Hlm, Hnm; by apply Z.mod_0_l; lia).
      destruct (Z.ltb_spec 0 mx), (Z.ltb_spec mx l); simpl; lia. }
    assert (g <= c) by (apply Z.divide_pos_le; [lia|apply Z.mod_divide; lia]). destruct (Z.ltb_spec c g); [lia|]. rewrite andb_false_r.
    destruct (Z.leb_spec c UINT32_MAX); [|unfold UINT32_MAX in *; lia]. simpl.
    eexists. split; [done|]. simpl. unwrap64. split; [|lia]. exists (n + c). split_and!; try lia.
    + rewrite Z.add_mod, Hnm, Hcm by lia. by apply Z.mod_0_l; lia.
    + eapply appended_trans; [lia|lia|done|]. apply appended_snoc; try done; try lia.
      rewrite Z.add_mod, Hom, Hnm by lia. by apply Z.mod_0_l; lia.
  - exists 0. split_and!; try lia; [by apply Z.mod_0_l; lia|apply appended_nil].
  - simpl. lia.
Qed.

Lemma fragment_and_emplace_spec off len allocated res :
  0 <= off -> 0 < len -> off + len <= 2 ^ 63 -> off mod g = 0 -> len mod g = 0 -> 0 <= allocated -> allocated + len < 2 ^ 64 ->
  Forall emitted res ->
  exists res', _fragment_and_emplace mx off len allocated res g = Some (allocated + len, res') /\ appended res off len res'.
Proof.
  intros Ho Hl H63 Hom Hlm Ha Hal He. unfold _fragment_and_emplace.
  destruct (last res) as [e|] eqn:El; [|apply emplace_loop; try done; lia].
  assert (emitted e) as (He1 & He2 & He3 & He4 & He5).
  { apply last_Some in El as [l ->]. apply Forall_app in He as [_ He]. by apply Forall_cons in He as [? _]. }
  unwrap64. destruct (Z.eqb_spec (offset e + length e) off) as [Eo|]; [|apply emplace_loop; try done; lia].
  destruct (Z.eqb_spec mx 0); [lia|]. destruct (Z.leb_spec (length e + len) mx); simpl.
  { eexists. split; [done|]. rewrite <- Eo. apply appended_last; try done; lia. }
  destruct (Z.ltb_spec (length e) mx); [|apply emplace_loop; try done; lia].
  unwrap64. set (take := mx - length e). assert (take mod g = 0) as Ht by (subst take; rewrite Zminus_mod, Hmd, He3; by apply Z.mod_0_l; lia).
  destruct (emplace_loop (off + take) (len - take) (allocated + take) (set_last (pextent (offset e) (length e + take)) res))
    as (res' & E & Hap); try lia.
  - rewrite Z.add_mod, Hom, Ht by lia. by apply Z.mod_0_l; lia.
  - rewrite Zminus_mod, Hlm, Ht. by apply Z.mod_0_l; lia.
  - exists res'. rewrite E. split; [do 2 f_equal; lia|]. replace len with (take + (len - take)) by lia.
    eapply appended_trans; [lia|lia| |exact Hap]. rewrite <- Eo. apply appended_last; try done; lia.
Qed.

(** ** What allocation keeps *)

(** The extents and the free blocks are the blocks [F0] that were free. *)
Record holding (F0 : gset Z) (v : list Z) (allocated : Z) (res : list pextent_t) : Prop := {
  h_wf : wfv v;
  h_emitted : Forall emitted res;
  h_disjoint : extents_disjoint res;
  h_sep : extents_set res ## fbytes g v;
  h_all : extents_set res ∪ fbytes g v = F0;
  h_bytes : allocated = extents_bytes res;
}.

Lemma holding_take F0 v al res s e v' res' :
  holding F0 v al res -> 0 <= s <= e -> allbits v s e true ->
  appended res (s * g) ((e - s) * g) res' -> marks v v' s e false -> holding F0 v' (al + (e - s) * g) res'.
Proof.
  intros [W E D S A B] Hs Hb [Ae As Ad Ab] Hm. pose proof (fbytes_run g v s e Hg ltac:(lia) Hb) as Hr.
  pose proof (fbytes_clear g v v' s e Hg ltac:(lia) Hm) as Hc. set (R := zrange (s * g) ((e - s) * g)) in *.
  constructor; [by apply Hm|by apply Ae| | | |lia].
  - apply Ad; [done|]. set_solver.
  - rewrite As, Hc. set_solver.
  - rewrite As, Hc, <- A. apply set_eq. intros x. rewrite !elem_of_union, elem_of_difference.
    destruct (decide (x ∈ R)); set_solver.
Qed.

(** Bits are only cleared, and only in [lo .. hi-1]. *)
Definition shrunk (lo hi : Z) (v v' : list Z) : Prop :=
  vsize v' = vsize v /\ (forall p, 0 <= p -> bit v' p = true -> bit v p = true) /\
  (forall p, 0 <= p -> ~ (lo <= p < hi) -> bit v' p = bit v p).

Lemma shrunk_refl lo hi v : shrunk lo hi v v.
Proof. done. Qed.
Lemma shrunk_trans lo hi v1 v2 v3 : shrunk lo hi v1 v2 -> shrunk lo hi v2 v3 -> shrunk lo hi v1 v3.
Proof. intros (S1 & M1 & O1) (S2 & M2 & O2). split_and!; [congruence|auto|]. intros p Hp Ho. by rewrite O2, O1. Qed.
Lemma shrunk_weaken lo hi lo' hi' v v' : lo' <= lo -> hi <= hi' -> shrunk lo hi v v' -> shrunk lo' hi' v v'.
Proof. intros ? ? (S1 & M1 & O1). split_and!; try done. intros p Hp Ho. apply O1; [done|lia]. Qed.
Lemma shrunk_marks lo hi v v' s e : lo <= s -> e <= hi -> marks v v' s e false -> shrunk lo hi v v'.
Proof.
  intros Hs He (Sz & _ & Hb). split_and!; [done| |].
  - intros p Hp. rewrite Hb by done. by case_match.
  - intros p Hp Ho. rewrite Hb by done. by replace ((s <=? p) && (p <? e)) with false by lia.
Qed.
Lemma shrunk_false lo hi v v' a b : 0 <= a -> shrunk lo hi v v' -> allbits v a b false -> allbits v' a b false.
Proof. intros Ha (_ & M & _) H p Hp. specialize (H p Hp). destruct (bit v' p) eqn:E; [|done]. by rewrite M in H by (done || lia). Qed.

(** ** Level 0 *)

Lemma run_loop v need hi rs :
  wfv v -> 0 <= rs < hi -> hi <= 64 * vsize v -> hi < 2 ^ 62 -> 0 < need < 2 ^ 63 -> bit v rs = true ->
  exists re, whileM (run_step v need hi rs) 64 rs = Some re /\ rs < re <= hi /\ re - rs <= need /\ allbits v rs re true.
Proof.
  intros Hw Hrs Hhi H62 Hn Hb.
  destruct (whileM_spec (run_step v need hi rs) (fun re => rs <= re <= hi /\ re - rs <= need /\ allbits v rs re true)
    (fun re => hi - re) (fun re => rs < re <= hi /\ re - rs <= need /\ allbits v rs re true) 64 rs) as (re & -> & H); [| | |by exists re].
  - intros re (Hre & Hle & Hall). unfold run_step. unwrap64. fold_consts. unwrap64.
    assert (rs = re -> bit v re = true) as Hfirst by congruence.
    destruct (Z.ltb_spec (re - rs) need); simpl; [|eexists; split; [done|]; simpl; split_and!; try done; try lia].
    destruct (Z.ltb_spec re hi); simpl; [|eexists; split; [done|]; simpl; split_and!; try done; try lia].
    destruct (get_slot v (re / 64)) as (x & -> & _ & Hx & Hbx & _); [apply div64_range; lia|done|]. bind.
    pose proof (Z.mod_pos_bound re 64). pose proof (Hbx re eq_refl) as Hre'.
    destruct (find_next_set_bit_spec x (re mod 64) Hx ltac:(lia)) as [[E Hno]|(Hr & Ht & Hno)].
    + rewrite E. destruct (Z.eqb_spec (-1) (re mod 64)); [lia|]. eexists. split; [done|]. simpl.
      rewrite Hno in Hre' by lia. split_and!; try done; try lia.
    + destruct (Z.eqb_spec (find_next_set_bit x (re mod 64)) (re mod 64)) as [E|E].
      * eexists. split; [done|]. simpl. unwrap64. split; [|lia]. split_and!; try lia. intros p Hp.
        destruct (decide (p = re)) as [->|]; [|apply Hall; lia]. by rewrite Hre', <- E at 1.
      * eexists. split; [done|]. simpl. rewrite Hno in Hre' by lia. split_and!; try done; try lia.
  - split_and!; try lia. intros p Hp. lia.
  - lia.
Qed.

Lemma mult_mod a : a * g mod g = 0.
Proof. apply Z.mod_mul. lia. Qed.

Lemma allocate_l0_loop F0 v0 lo hi al res need :
  0 <= lo <= hi -> hi mod 64 = 0 -> hi <= 64 * vsize v0 -> hi < 2 ^ 62 -> hi * g <= 2 ^ 63 ->
  0 <= need -> 0 <= al -> al + need * g < 2 ^ 63 -> holding F0 v0 al res ->
  exists p' need' al' res' v', whileM (allocate_l0_step g g mx hi) 64 (lo, need, al, res, v0) = Some (p', need', al', res', v') /\
    holding F0 v' al' res' /\ shrunk lo hi v0 v' /\ 0 <= need' <= need /\ al' = al + (need - need') * g /\
    (need' = 0 \/ allbits v' lo hi false).
Proof.
  intros Hlo Hm Hhi H62 H63 Hn Ha Hal Hh. assert (need <= need * g) as Hng by nia.
  set (I := fun s : l0_state => let '(p, nd, a', r, v) := s in lo <= p /\ (p <= hi) /\ holding F0 v a' r /\ shrunk lo hi v0 v /\
    0 <= nd <= need /\ a' = al + (need - nd) * g /\ allbits v lo p false).
  destruct (whileM_spec (allocate_l0_step g g mx hi) I (fun s => hi - s.1.1.1.1)
    (fun s => let '(p, nd, a', r, v) := s in holding F0 v a' r /\ shrunk lo hi v0 v /\ 0 <= nd <= need /\ a' = al + (need - nd) * g /\ (nd = 0 \/ allbits v lo hi false))
    64 (lo, need, al, res, v0)) as ([[[[p nd] a'] r] v] & -> & H); [| | |by eexists _, _, _, _, _].
  - intros [[[[p nd] a'] r] v] (Hp & Hp2 & Hh1 & Hs1 & Hnd & -> & Hno). unfold allocate_l0_step. fold_consts.
    pose proof Hs1 as (Hsz & _ & _). pose proof (h_wf _ _ _ _ Hh1) as Hw.
    destruct (Z.ltb_spec p hi); simpl; [|eexists; split; [done|]; simpl; split_and!; try done; try lia; right; by replace hi with p by lia].
    destruct (Z.ltb_spec 0 nd); simpl; [|eexists; split; [done|]; simpl; split_and!; try done; lia].
    destruct (get_slot v (p / 64)) as (x & -> & _ & Hx & Hbx & _); [apply div64_range; lia|done|]. bind.
    pose proof (Z.mod_pos_bound p 64 ltac:(lia)) as Hpm. pose proof (Z.div_mod p 64 ltac:(lia)) as Hpd.
    assert (p / 64 * 64 + 64 <= hi) as Hslot by (clear -Hm H Hlo Hp; Z.div_mod_to_equations; lia).
    assert ((forall j, p mod 64 <= j < 64 -> Z.testbit x j = false) ->
      I (p + (64 - p mod 64), nd, al + (need - nd) * g, r, v) /\ 0 <= hi - (p + (64 - p mod 64)) < hi - p) as Hskip.
    { intros Hz. split; [|lia]. split_and!; try done; try lia. intros q Hq. destruct (decide (q < p)); [apply Hno; lia|].
      assert (q / 64 = p / 64) as Eq by (clear -Hq n Hpd Hpm Hlo Hp; Z.div_mod_to_equations; lia). rewrite (Hbx q Eq). apply Hz.
      pose proof (Z.div_mod q 64 ltac:(lia)). lia. }
    destruct (Z.eqb_spec x 0) as [->|Hx0].
    { eexists. split; [done|]. simpl. unwrap64. apply Hskip. intros. apply Z.testbit_0_l. }
    destruct (find_next_set_bit_spec x (p mod 64) Hx ltac:(lia)) as [[E Hz]|(Hr & Ht & Hz)].
    { rewrite E. simpl. eexists. split; [done|]. simpl. unwrap64. by apply Hskip. }
    destruct (Z.ltb_spec (find_next_set_bit x (p mod 64)) 0); [lia|]. set (t := find_next_set_bit x (p mod 64)) in *.
    unwrap64. set (rs := p / 64 * 64 + t). assert (rs / 64 = p / 64 /\ rs mod 64 = t) as [Ers Emt].
    { subst rs. rewrite Z.add_comm, Z.div_add, Z.div_small, Z.mod_add, Z.mod_small by lia. lia. }
    assert (bit v rs = true) as Hbr by (rewrite (Hbx rs Ers), Emt; done).
    destruct (run_loop v nd hi rs) as (re & -> & Hre & Hle & Hall); [done|lia|lia|done|lia|done|]. bind.
    unwrap64. rewrite Z.min_l by lia.
    assert ((re - rs) * g <= nd * g) by (apply Z.mul_le_mono_nonneg_r; lia). assert (re * g <= hi * g) by (apply Z.mul_le_mono_nonneg_r; lia).
    assert (0 <= rs * g) by (apply Z.mul_nonneg_nonneg; lia). assert (0 < (re - rs) * g) by (apply Z.mul_pos_pos; lia).
    assert (rs * g + (re - rs) * g = re * g) by lia. assert ((need - nd) * g + nd * g = need * g) by lia.
    assert (0 <= (need - nd) * g) by (apply Z.mul_nonneg_nonneg; lia).
    rewrite (u64_small (rs * g)), (u64_small ((re - rs) * g)) by lia.
    destruct (fragment_and_emplace_spec (rs * g) ((re - rs) * g) (al + (need - nd) * g) r) as (r' & -> & Hap);
      try apply mult_mod; try lia; [apply Hh1|]. bind.
    replace (rs + (re - rs)) with re by lia.
    destruct (mark_alloc_l0_spec v rs re) as (v' & -> & Hmk); try done; try lia. bind.
    eexists. split; [done|]. simpl. unwrap64. split; [|lia]. split_and!; try lia.
    + eapply holding_take; try done. lia.
    + eapply shrunk_trans; [done|]. eapply shrunk_marks; [| |done]; lia.
    + intros q Hq. destruct Hmk as (_ & _ & Hbk). rewrite Hbk by lia.
      destruct (Z.leb_spec rs q), (Z.ltb_spec q re); simpl; try done; try lia.
      destruct (decide (q < p)); [apply Hno; lia|].
      assert (q / 64 = p / 64) as Eq by (symmetry; apply (Z.div_unique q 64 (p / 64) (q - p / 64 * 64)); lia).
      rewrite (Hbx q Eq). apply Hz. pose proof (Z.div_mod q 64 ltac:(lia)). lia.
  - split_and!; try done; try lia. intros q Hq. lia.
  - simpl. lia.
Qed.

Lemma allocate_l0_spec F0 a lo hi al res rem :
  level_ok a -> l0_granularity a = g -> 64 * vsize (l0 a) * g <= 2 ^ 63 ->
  0 <= lo <= hi -> hi mod 64 = 0 -> hi <= 64 * vsize (l0 a) ->
  0 <= rem -> rem mod g = 0 -> 0 <= al -> al + rem < 2 ^ 63 -> holding F0 (l0 a) al res ->
  exists r al' res' v', _allocate_l0 rem g mx lo hi al res a = Some (r, al', res', set_l0 v' a) /\
    holding F0 v' al' res' /\ shrunk lo hi (l0 a) v' /\ al <= al' <= al + rem /\ (al + rem - al') mod g = 0 /\
    (al' = al + rem \/ allbits v' lo hi false).
Proof.
  intros Ha Hga Hcap Hlo Hm Hhi Hr Hrm Hal Hlt Hh. unfold _allocate_l0. rewrite Hga.
  assert (rem = rem / g * g) as Er by (pose proof (Z.div_mod rem g ltac:(lia)); lia).
  assert (0 <= rem / g) by (apply Z.div_pos; lia). set (need := rem / g) in *.
  assert (hi * g <= 64 * vsize (l0 a) * g) by (apply Z.mul_le_mono_nonneg_r; lia). pose proof (s_bound _ _ _ Ha).
  destruct (allocate_l0_loop F0 (l0 a) lo hi al res need) as (p' & nd & al' & res' & v' & -> & Hh' & Hs & Hn & Ea & Hex); try done; try lia.
  bind. eexists _, al', res', v'. split; [done|]. split; [done|]. split; [done|].
  assert (0 <= (need - nd) * g) by (apply Z.mul_nonneg_nonneg; lia). assert ((need - nd) * g + nd * g = need * g) by lia.
  assert (0 <= nd * g) by (apply Z.mul_nonneg_nonneg; lia). split; [lia|]. split.
  - replace (al + rem - al') with (nd * g) by lia. apply mult_mod.
  - destruct Hex as [->|?]; [left; lia|by right].
Qed.

(** ** Level 1 *)

Definition l1_done (F0 : gset Z) (a0 : AllocatorLevel01Loose) (want al0 l1s p l1e : Z) (s : l1_state) : Prop :=
  let '(al, res, a) := s in
  level_ok a /\ same_level a0 a /\ holding F0 (l0 a) al res /\ shrunk (512 * l1s) (512 * l1e) (l0 a0) (l0 a) /\
  al0 <= al <= want /\ (want - al) mod g = 0 /\ (al = want \/ allbits (l0 a) (512 * l1s) (512 * p) false).

Lemma l1_done_next F0 a0 want al0 l1s p l1e al res a al' res' a' :
  l1_done F0 a0 want al0 l1s p l1e (al, res, a) -> 0 <= l1s <= p -> p < l1e ->
  level_ok a' -> same_level a a' -> holding F0 (l0 a') al' res' -> shrunk (512 * p) (512 * p + 512) (l0 a) (l0 a') ->
  al <= al' <= want -> (want - al') mod g = 0 -> (al' = want \/ allbits (l0 a') (512 * p) (512 * p + 512) false) ->
  l1_done F0 a0 want al0 l1s (p + 1) l1e (al', res', a').
Proof.
  intros (Ha & Hl & Hh & Hs & Hal & Hm & Hd) Hp Hpe Ha' Hl' Hh' Hs' Hal' Hm' Hd'.
  assert (shrunk (512 * l1s) (512 * l1e) (l0 a) (l0 a')) as Hs2 by (eapply shrunk_weaken; [| |done]; lia).
  split_and!; try done; try lia; try (eapply same_level_trans; done); [by eapply shrunk_trans|].
  destruct Hd' as [?|Hd']; [by left|]. destruct Hd as [->|Hd]; [left; lia|right]. intros q Hq.
  destruct (Z.lt_ge_cases q (512 * p)); [|apply Hd'; lia].
  apply (shrunk_false _ _ _ _ (512 * l1s) (512 * p) ltac:(lia) Hs' Hd). lia.
Qed.

Lemma same_level_size a a' : level_ok a -> level_ok a' -> same_level a a' -> vsize (l0 a') = vsize (l0 a).
Proof. intros H1 H2 (_ & _ & E). rewrite (s_size _ _ _ H1), (s_size _ _ _ H2). lia. Qed.

Lemma summed_shrunk a v p :
  level_ok a -> wfv v -> 0 <= p -> shrunk (512 * p) (512 * p + 512) (l0 a) v -> summed p (p + 1) (set_l0 v a).
Proof.
  intros Ha Hw Hp (Hsz & _ & Ho). constructor; simpl; try apply Ha; try done.
  - rewrite Hsz. apply Ha.
  - rewrite Hsz. apply Ha.
  - intros i Hi Hno. rewrite (s_ent _ _ _ Ha) by lia. symmetry. apply summ_ext. intros q Hq. apply Ho; lia.
Qed.

Lemma allocate_l1_body F0 a0 want al0 l1s l1e p s :
  l0_granularity a0 = g -> level_ok a0 -> 64 * vsize (l0 a0) * g <= 2 ^ 63 ->
  0 <= l1s <= p -> p < l1e -> l1e <= 32 * vsize (l1 a0) -> 0 <= al0 -> want < 2 ^ 63 ->
  l1_done F0 a0 want al0 l1s p l1e s ->
  exists x, allocate_l1_step want g mx l1e (p, s) = Some x /\
    match x with inl (p', s') => p' = p + 1 /\ l1_done F0 a0 want al0 l1s (p + 1) l1e s'
               | inr (_, s') => s' = s /\ s.1.1 = want end.
Proof.
  intros Hg0 Ha0 Hcap Hp Hpe Hle Hal0 Hwant. destruct s as [[al res] a]. intros Hd. pose proof Hd as (Ha & Hl & Hh & Hs & Hal & Hm & Hex).
  pose proof Hl as (Eg & Eg1 & Ev). rewrite Hg0 in Eg. pose proof (same_level_size _ _ Ha0 Ha Hl) as Esz. rewrite <- Esz in Hcap.
  pose proof (s_size _ _ _ Ha) as Hsz. pose proof (s_bound _ _ _ Ha) as Hbd. rewrite <- Ev in Hle.
  unfold allocate_l1_step. fold_consts. destruct (Z.ltb_spec p l1e); [|lia].
  destruct (Z.leb_spec (vsize (l1 a)) (p / 32)); [pose proof (div32_range p (l1 a)); lia|].
  rewrite entry_spec by (apply Ha || lia). bind. rewrite (s_ent _ _ _ Ha) by lia.
  assert ((p + 1) * 512 <= 64 * vsize (l0 a)) as Hb1 by lia.
  assert ((p + 1) * 512 * g <= 2 ^ 63) as Hb2 by (etransitivity; [apply Z.mul_le_mono_nonneg_r; [lia|exact Hb1]|done]).
  assert (0 <= p * 512 * g) as Hb0 by (apply Z.mul_nonneg_nonneg; lia). assert ((p + 1) * 512 * g = p * 512 * g + 512 * g) as Hb3 by lia.
  assert (0 <= 512 * g) by lia. rewrite (u64_small (p + 1)), (u64_small (p * 512)) by lia. rewrite (u64_small (p * 512 + 512)), (u64_small (want - al)) by lia.
  destruct (Z.eqb_spec (summ (l0 a) p) L1_ENTRY_FULL) as [Ef|Ef].
  { eexists. split; [done|]. split; [done|]. eapply l1_done_next; try done; try lia. right. by apply summ_full. }
  destruct (Z.eqb_spec (want - al) 0); [eexists; split; [done|]; simpl; split; [done|lia]|].
  rewrite Eg. rewrite (u64_small (512 * g)) by lia. rewrite (u64_small (p * 512 * g)) by lia.
  destruct ((summ (l0 a) p =? L1_ENTRY_FREE) && (512 * g <=? want - al)) eqn:Ec.
  - (* the whole entry *)
    apply andb_prop in Ec as [Er Hfit]. apply Z.eqb_eq in Er. apply Z.leb_le in Hfit.
    apply summ_free in Er.
    destruct (fragment_and_emplace_spec (p * 512 * g) (512 * g) al res) as (res' & -> & Hap); try apply mult_mod; try lia; [apply Hh|]. bind.
    destruct (mark_alloc_l1_l0_spec (p * 512) (p * 512 + 512) a) as (a' & -> & Ha' & Hmk & Hl'); [lia|lia|done|]. bind.
    eexists. split; [done|]. split; [done|]. eapply l1_done_next; try done; try lia.
    + replace (512 * g) with ((p * 512 + 512 - p * 512) * g) in Hap |- * by lia. eapply holding_take; try done; [lia|].
      intros q Hq. apply Er. lia.
    + eapply shrunk_marks; [| |done]; lia.
    + replace (want - (al + 512 * g)) with (want - al + (-512) * g) by lia. by rewrite Z.mod_add by lia.
    + right. intros q Hq. destruct Hmk as (_ & _ & Hb). rewrite Hb by lia. by replace ((p * 512 <=? q) && (q <? p * 512 + 512)) with true by lia.
  - destruct (allocate_l0_spec F0 a (p * 512) (p * 512 + 512) al res (want - al)) as (r & al' & res' & v' & -> & Hh' & Hs' & Hal' & Hm' & Hex'); try done; try lia.
    { replace (p * 512 + 512) with ((p * 8 + 8) * 64) by lia. by apply Z.mod_mul. } bind.
    destruct (mark_l1_on_l0_spec (p * 512) (p * 512 + 512) (set_l0 v' a)) as (a' & -> & Ha' & E0 & Hl'); [lia|simpl; destruct Hs' as [-> _]; lia| |].
    { replace (p * 512 / 512) with p by (Z.div_mod_to_equations; lia).
      replace ((p * 512 + 512 + 511) / 512) with (p + 1) by (Z.div_mod_to_equations; lia).
      apply summed_shrunk; try done; [apply Hh'|lia|]. eapply shrunk_weaken; [| |done]; lia. }
    bind. simpl in E0. eexists. split; [done|]. split; [done|]. eapply l1_done_next; try done; try lia; try (by rewrite E0).
    + rewrite E0. eapply shrunk_weaken; [| |done]; lia.
    + by replace (want - al') with (al + (want - al) - al') by lia.
    + destruct Hex' as [->|Hz]; [left; lia|right]. rewrite E0. intros q Hq. apply Hz. lia.
Qed.

Lemma allocate_l1_spec F0 a l1s l1e al res want :
  l0_granularity a = g -> level_ok a -> 64 * vsize (l0 a) * g <= 2 ^ 63 -> 0 <= l1s <= l1e -> l1e <= 32 * vsize (l1 a) ->
  0 <= al <= want -> want < 2 ^ 63 -> (want - al) mod g = 0 -> holding F0 (l0 a) al res ->
  exists r s', _allocate_l1 want g mx l1s l1e al res a = Some (r, s') /\ l1_done F0 a want al l1s l1e l1e s'.
Proof.
  intros Hga Ha Hcap Hl Hle Hal Hw Hm Hh. unfold _allocate_l1. pose proof (s_size _ _ _ Ha). pose proof (s_bound _ _ _ Ha).
  destruct (whileM_spec (allocate_l1_step want g mx l1e) (fun ps => l1s <= ps.1 <= l1e /\ l1_done F0 a want al l1s ps.1 l1e ps.2)
    (fun ps => l1e - ps.1) (fun x => l1_done F0 a want al l1s l1e l1e x.2) 64 (l1s, (al, res, a))) as ([ret [[al' res'] a']] & -> & Hd).
  - intros [p s] [Hp Hd]. simpl in Hp, Hd. destruct (Z.lt_ge_cases p l1e).
    + destruct (allocate_l1_body F0 a want al l1s l1e p s) as ([[p' s']|[b s']] & -> & H'); try done; try lia.
      * destruct H' as [-> Hd']. eexists. split; [done|]. simpl. split; [split; [lia|done]|lia].
      * destruct H' as [-> Ew]. eexists. split; [done|]. simpl. destruct s as [[al' res'] a']. simpl in Ew.
        destruct Hd as (? & ? & ? & ? & ? & ? & _). split_and!; try done; lia || by left.
    + destruct s as [[al' res'] a']. unfold allocate_l1_step. destruct (Z.ltb_spec p l1e); [lia|].
      eexists. split; [done|]. simpl. by replace l1e with p at 2 by lia.
  - simpl. split; [lia|]. split_and!; try done; try lia. right. intros q Hq. lia.
  - simpl. lia.
  - bind. by eexists _, _.
Qed.
End Take.
End BitmapTake.
