(* ===== verification/BitmapLevel2.v ===== *)
(** * Level 2 of the bitmap allocator

    A bit of level 2 is set exactly when a block below it is free; marking
    ranges free or allocated keeps it so. *)
From stdpp Require Import base numbers list gmap.
From Stdlib Require Import ZArith Lia ZifyBool.
From S2P Require Import Prelude IntArith IntervalSet Allocator BitmapAllocator BitmapBits BitmapLevel1.
Import Allocator Bitmap BitmapBits BitmapLevel1 BitmapTake.

Module BitmapLevel2.

(** The blocks below a bit of level 2. *)
Abbreviation CHUNK := 131072 (only parsing).

Definition chunk_free (v : list Z) (p : Z) : Prop := exists q, CHUNK * p <= q < CHUNK * (p + 1) /\ bit v q = true.

(** The bits [lo .. hi-1] of level 2 may be out of date. *)
Record chunked (lo hi : Z) (b : Z) (a : AllocatorLevel02) : Prop := {
  c_b : 0 <= b < 32;
  c_level : level_ok (level01 a);
  c_g : l0_granularity (level01 a) = 2 ^ b;
  c_g1 : l1_granularity (level01 a) = 512 * 2 ^ b;
  c_g2 : l2_granularity a = CHUNK * 2 ^ b;
  c_cap : 64 * vsize (l0 (level01 a)) * 2 ^ b <= 2 ^ 60;
  c_wf : wfv (l2 a);
  c_fit : vsize (l1 (level01 a)) <= 512 * vsize (l2 a);
  c_div : vsize (l1 (level01 a)) mod 8 = 0;
  c_exact p : 0 <= p < 64 * vsize (l2 a) -> ~ (lo <= p < hi) -> bit (l2 a) p = true <-> chunk_free (l0 (level01 a)) p;
}.

Abbreviation chunks_ok := (chunked 0 0).

Definition free_of (b : Z) (a : AllocatorLevel02) : gset Z := fbytes (2 ^ b) (l0 (level01 a)).

Definition same_impl (a a' : AllocatorLevel02) : Prop :=
  same_level (level01 a) (level01 a') /\ l2_granularity a' = l2_granularity a /\ vsize (l2 a') = vsize (l2 a).

Lemma same_impl_refl a : same_impl a a.
Proof. done. Qed.
Lemma same_impl_trans a1 a2 a3 : same_impl a1 a2 -> same_impl a2 a3 -> same_impl a1 a3.
Proof. intros (H1 & ? & ?) (H2 & ? & ?). split; [by eapply same_level_trans|]. split; congruence. Qed.

(** ** Loops over bits and entries *)

Lemma for_marks one b v lo hi :
  marks_one one b -> 0 <= lo <= hi -> hi <= 64 * vsize v -> wfv v ->
  exists v', for_ lo hi one v = Some v' /\ marks v v' lo hi b.
Proof.
  intros Hone Hlo Hhi Hw.
  destruct (for_spec lo hi one (fun i v' => marks v v' lo i b) v) as (v' & -> & H); [|lia|by apply marks_refl|by exists v'].
  intros i v1 Hi Hm. destruct (Hone i v1) as (v2 & -> & Hm2); [destruct Hm as [-> _]; lia|by destruct Hm as (_ & ? & _)|].
  exists v2. split; [done|]. eapply marks_trans; [done..|lia].
Qed.

Lemma all_of_spec n i f (P : Z -> Prop) :
  (forall j, i <= j < i + Z.of_nat n -> exists b, f j = Some b /\ (b = true <-> P j)) ->
  exists b, all_of n i f = Some b /\ (b = true <-> forall j, i <= j < i + Z.of_nat n -> P j).
Proof.
  revert i. induction n as [|n IH]; intros i H; [exists true; split; [done|]; split; [intros _ j Hj; lia|done]|].
  cbn [all_of]. destruct (H i ltac:(lia)) as ([|] & -> & Hb); rewrite some_bind; cbv iota.
  - destruct (IH (i + 1)) as (b & -> & Hb'); [intros j Hj; apply H; lia|]. exists b. split; [done|]. rewrite Hb'. split.
    + intros Hj j Hij. destruct (decide (j = i)) as [->|]; [by apply Hb|apply Hj; lia].
    + intros Hj j Hij. apply Hj. lia.
  - exists false. split; [done|]. split; [done|]. intros Hj. by apply Hb, Hj; lia.
Qed.

Lemma is_empty_l1_spec v s e :
  wfv v -> 0 <= s <= e -> e * 8 <= vsize v ->
  exists b, _is_empty_l1 v s e = Some b /\ (b = true <-> allbits v (512 * s) (512 * e) false).
Proof.
  intros Hw Hs He. unfold _is_empty_l1.
  destruct (all_of_spec (Z.to_nat (e - s)) s (_is_slot_fully_allocated v) (fun j => allbits v (512 * j) (512 * j + 512) false)) as (b & -> & Hb).
  - intros j Hj. unfold _is_slot_fully_allocated. change (Z.to_nat slots_per_slotset) with 8%nat. fold_consts.
    destruct (all_of_spec 8 0 (fun i => x ← get v (j * 8 + i); Some (x =? 0)) (fun i => allbits v (512 * j + 64 * i) (512 * j + 64 * i + 64) false)) as (b & -> & Hb).
    + intros i Hi. destruct (get_slot v (j * 8 + i)) as (x & -> & _ & Hx & _ & Hxb); [lia|done|]. bind.
      eexists. split; [done|]. rewrite Z.eqb_eq. change 0 with (slot_of false) at 1. rewrite slot_eq by done. split.
      * intros H p Hp. rewrite <- (H (p - 64 * (j * 8 + i))) by lia. rewrite Hxb by lia. f_equal. lia.
      * intros H i' Hi'. rewrite Hxb by done. apply H. lia.
    + exists b. split; [done|]. rewrite Hb. split; intros H p Hp; [|intros q Hq; apply H; lia].
      apply (H ((p - 512 * j) / 64)); Z.div_mod_to_equations; lia.
  - exists b. split; [done|]. rewrite Hb. split; intros H p Hp; [|intros q Hq; apply H; lia].
    apply (H (p / 512)); Z.div_mod_to_equations; lia.
Qed.

(** ** Refreshing level 2 *)

Lemma bits_dec v lo hi : allbits v lo hi false \/ exists q, lo <= q < hi /\ bit v q = true.
Proof.
  destruct (decide (Exists (fun q => bit v q = true) (seqZ lo (hi - lo)))) as [H|H].
  - right. apply Exists_exists in H as (q & Hq & Hb). apply elem_of_seqZ in Hq. exists q. split; [lia|done].
  - left. intros q Hq. destruct (bit v q) eqn:E; [|done]. exfalso. apply H, Exists_exists. exists q. split; [apply elem_of_seqZ; lia|done].
Qed.

Lemma chunk_free_entries x p :
  level_ok x -> 0 <= p -> 256 * (p + 1) <= 32 * vsize (l1 x) ->
  (forall e, 256 * p <= e < 256 * (p + 1) -> ent (l1 x) e = 0) <-> ~ chunk_free (l0 x) p.
Proof.
  intros Hx Hp Hv. split.
  - intros H (q & Hq & Hb). pose proof (H (q / 512) ltac:(Z.div_mod_to_equations; lia)) as He.
    rewrite (s_ent _ _ _ Hx) in He by (Z.div_mod_to_equations; lia). apply summ_full in He. rewrite He in Hb; [done|]. Z.div_mod_to_equations; lia.
  - intros H e He. rewrite (s_ent _ _ _ Hx) by lia. apply summ_full. intros q Hq. destruct (bit (l0 x) q) eqn:E; [|done].
    exfalso. apply H. exists q. split; [lia|done].
Qed.

Lemma mark_l2_on_l1_spec lo hi b a :
  0 <= lo <= hi -> 8 * hi <= vsize (l1 (level01 a)) -> chunked lo hi b a ->
  exists v, _mark_l2_on_l1 lo hi a = Some (set_l2 v a) /\ chunks_ok b (set_l2 v a) /\ vsize v = vsize (l2 a).
Proof.
  intros Hlo Hhi Ha. unfold _mark_l2_on_l1. pose proof (c_fit _ _ _ _ Ha) as Hfit. pose proof (c_level _ _ _ _ Ha) as Hx. fold_consts.
  change (Z.to_nat 256) with 256%nat. set (f := fun (p : Z) (v : list Z) => full ← _; _).
  destruct (for_spec lo hi f (fun i v => vsize v = vsize (l2 a) /\ wfv v /\ forall p, 0 <= p < 64 * vsize (l2 a) -> ~ (i <= p < hi) ->
    bit v p = true <-> chunk_free (l0 (level01 a)) p) (l2 a)) as (v & -> & Hs & Hw & He); [|lia| |].
  - intros i v Hi (Hs & Hw & He). unfold f.
    destruct (all_of_spec 256 (i * 256) (fun j => x ← entry (l1 (level01 a)) j; Some (x =? 0)) (fun j => ent (l1 (level01 a)) j = 0)) as (bf & -> & Hbf).
    { intros j Hj. rewrite entry_spec by (apply Hx || lia). bind. eexists. split; [done|]. apply Z.eqb_eq. }
    bind. assert (bf = true <-> ~ chunk_free (l0 (level01 a)) i) as Hbf'.
    { rewrite Hbf, <- chunk_free_entries by (done || lia). split; intros H e Hr; apply H; lia. }
    assert (exists v', (if bf then clear_bit i v else set_bit i v) = Some v' /\ marks v v' i (i + 1) (negb bf)) as (v' & -> & Hm).
    { destruct bf; [apply clear_bit_spec|apply set_bit_spec]; try done; lia. }
    exists v'. split; [done|]. destruct Hm as (Hs' & Hw' & Hb'). split; [congruence|]. split; [done|]. intros p Hp Hn. rewrite Hb' by lia.
    destruct (decide (p = i)) as [->|].
    + replace ((i <=? i) && (i <? i + 1)) with true by lia. destruct bf; simpl.
      * split; [done|]. intros Hc. by apply Hbf' in Hc.
      * split; [|done]. intros _. destruct (bits_dec (l0 (level01 a)) (CHUNK * i) (CHUNK * (i + 1))) as [Ea|Hex]; [|done].
        exfalso. assert (false = true); [|done]. apply Hbf'. intros (q & Hq & Hbq). by rewrite (Ea q Hq) in Hbq.
    + replace ((i <=? p) && (p <? i + 1)) with false by lia. apply He; [done|lia].
  - split; [done|]. split; [apply Ha|]. intros p Hp Hn. by apply Ha.
  - bind. exists v. split; [done|]. split; [|done]. constructor; simpl; try apply Ha; try done; [rewrite Hs; apply Ha|].
    intros p Hp _. rewrite Hs in Hp. apply He; [done|lia].
Qed.

(** ** Bytes and blocks *)

Lemma round_div x k : 0 <= k <= 62 -> 0 <= x <= 2 ^ 61 -> round_up x (2 ^ k) / 2 ^ k = (x + 2 ^ k - 1) / 2 ^ k.
Proof.
  intros Hk Hx. unfold round_up. assert (2 ^ k <= 2 ^ 62) by (apply Z.pow_le_mono_r; lia).
  rewrite IntArith.p2roundup_spec by lia. rewrite Z.mul_comm. apply Z.div_mul. lia.
Qed.

Lemma ceil_mul e g k : 0 < g -> 0 < k -> (e * g + k * g - 1) / (k * g) = (e + k - 1) / k.
Proof.
  intros Hg Hk. symmetry. pose proof (Z.div_mod (e + k - 1) k ltac:(lia)) as E. pose proof (Z.mod_pos_bound (e + k - 1) k Hk).
  set (q := (e + k - 1) / k) in *. set (r := (e + k - 1) mod k) in *.
  apply (Z.div_unique _ _ q (r * g + g - 1)); [left; nia|nia].
Qed.

Section Blocks.
Context (b : Z) (Hb : 0 <= b < 32).
Abbreviation g := (2 ^ b).

Lemma g_pos : 0 < g.
Proof. lia. Qed.

Lemma round_block e : 0 <= e -> e * g <= 2 ^ 60 -> round_up (e * g) g / g = e.
Proof.
  intros He Hc. pose proof g_pos. rewrite round_div by nia. replace (e * g + g - 1) with (g - 1 + e * g) by lia.
  rewrite Z.div_add, Z.div_small by lia. lia.
Qed.

Lemma chunk_pow : CHUNK * g = 2 ^ (17 + b).
Proof. rewrite Z.pow_add_r by lia. done. Qed.

Lemma floor_chunk s : s * g / (CHUNK * g) = s / CHUNK.
Proof. apply Z.div_mul_cancel_r; lia. Qed.

Lemma round_chunk e : 0 <= e -> e * g <= 2 ^ 60 -> round_up (e * g) (CHUNK * g) / (CHUNK * g) = (e + CHUNK - 1) / CHUNK.
Proof.
  intros He Hc. pose proof g_pos. rewrite chunk_pow, round_div by nia. rewrite <- chunk_pow. by apply ceil_mul.
Qed.
End Blocks.

(** ** Marking ranges *)

(** Bits of level 0 change only in [s .. e-1]. *)
Definition changed_in (s e : Z) (v v' : list Z) : Prop := forall p, 0 <= p -> ~ (s <= p < e) -> bit v' p = bit v p.

Lemma marks_changed v v' s e x : marks v v' s e x -> changed_in s e v v'.
Proof. intros (_ & _ & H) p Hp Hn. rewrite H by done. by replace ((s <=? p) && (p <? e)) with false by lia. Qed.
Lemma shrunk_changed v v' s e : shrunk s e v v' -> changed_in s e v v'.
Proof. by intros (_ & _ & H). Qed.

Lemma chunked_level b a x s e :
  0 <= s <= e -> chunks_ok b a -> level_ok x -> same_level (level01 a) x -> changed_in s e (l0 (level01 a)) (l0 x) ->
  chunked (s / CHUNK) ((e + CHUNK - 1) / CHUNK) b (set_level01 x a).
Proof.
  intros Hs Ha Hx Hl Hc. pose proof Hl as (E1 & E2 & E3). pose proof (same_level_size _ _ (c_level _ _ _ _ Ha) Hx Hl) as E4.
  destruct Ha. constructor; simpl; try done; try congruence; try (by rewrite E4); try (by rewrite E3).
  intros p Hp Hn. rewrite c_exact0 by (done || lia). unfold chunk_free.
  assert (forall q, CHUNK * p <= q < CHUNK * (p + 1) -> bit (l0 x) q = bit (l0 (level01 a)) q) as Heq.
  { intros q Hq. apply Hc; [lia|]. Z.div_mod_to_equations. lia. }
  split; intros (q & Hq & Hbq); exists q; (split; [done|]); by rewrite ?Heq in * by done.
Qed.

Lemma chunk_bound b a e : chunks_ok b a -> 0 <= e -> e <= 64 * vsize (l0 (level01 a)) -> 8 * ((e + CHUNK - 1) / CHUNK) <= vsize (l1 (level01 a)).
Proof.
  intros Ha He Hle. rewrite (s_size _ _ _ (c_level _ _ _ _ Ha)) in Hle. pose proof (c_div _ _ _ _ Ha) as Hd.
  apply Z.mod_divide in Hd as [k Ek]; [|lia]. rewrite Ek in *. Z.div_mod_to_equations. lia.
Qed.

Lemma free_range_spec b a s n :
  chunks_ok b a -> 0 <= s -> 0 < n -> s + n <= 64 * vsize (l0 (level01 a)) ->
  exists x v, _free_l1 (s * 2 ^ b) (n * 2 ^ b) (level01 a) = Some (n * 2 ^ b, x) /\
    _mark_l2_free (s * 2 ^ b / l2_granularity a) (round_up (s * 2 ^ b +64 n * 2 ^ b) (l2_granularity a) / l2_granularity a) (l2 a) = Some v /\
    chunks_ok b (set_l2 v (set_level01 x a)) /\ marks (l0 (level01 a)) (l0 x) s (s + n) true /\ same_impl a (set_l2 v (set_level01 x a)).
Proof.
  intros Ha Hs Hn Hle. pose proof (c_b _ _ _ _ Ha) as Hb. pose proof (c_cap _ _ _ _ Ha) as Hcap. pose proof (g_pos b Hb).
  assert ((s + n) * 2 ^ b <= 2 ^ 60) as Hc by (etransitivity; [apply Z.mul_le_mono_nonneg_r; [lia|exact Hle]|done]).
  assert (0 <= s * 2 ^ b) by (apply Z.mul_nonneg_nonneg; lia). assert (0 < n * 2 ^ b) by (apply Z.mul_pos_pos; lia).
  assert (s * 2 ^ b + n * 2 ^ b = (s + n) * 2 ^ b) as Ee by lia. rewrite u64_small, Ee by lia.
  rewrite (c_g2 _ _ _ _ Ha), floor_chunk, round_chunk by (done || lia).
  unfold _free_l1. rewrite (c_g _ _ _ _ Ha), u64_small, Ee, round_block, Z.div_mul by (done || lia).
  destruct (mark_free_l1_l0_spec s (s + n) (level01 a)) as (x & -> & Hx & Hm & Hl); [lia|lia|apply Ha|]. bind.
  exists x. unfold _mark_l2_free. pose proof (chunk_bound b a (s + n) Ha ltac:(lia) Hle) as Hk. pose proof (c_fit _ _ _ _ Ha).
  destruct (for_marks set_bit true (l2 a) (s / CHUNK) ((s + n + CHUNK - 1) / CHUNK) set_bit_spec) as (v & -> & Hmv);
    [Z.div_mod_to_equations; lia|lia|apply Ha|]. exists v. split; [done|]. split; [done|]. pose proof Hmv as (Hs2 & Hw2 & Hb2).
  split; [|split; [done|by split]]. pose proof (chunked_level b a x s (s + n) ltac:(lia) Ha Hx Hl (marks_changed _ _ _ _ _ Hm)) as Hc'.
  destruct Hc'. constructor; simpl in *; try done; [by rewrite Hs2|]. intros p Hp _. rewrite Hs2 in Hp. rewrite Hb2 by lia.
  destruct ((s / CHUNK <=? p) && (p <? (s + n + CHUNK - 1) / CHUNK)) eqn:Ein; [|apply c_exact0; lia].
  split; [|done]. intros _. destruct Hm as (_ & _ & Hb0). exists (Z.max s (CHUNK * p)).
  assert (CHUNK * p < s + n /\ s < CHUNK * (p + 1)) as [? ?] by (Z.div_mod_to_equations; lia).
  split; [lia|]. rewrite Hb0 by lia. by replace ((s <=? Z.max s (CHUNK * p)) && (Z.max s (CHUNK * p) <? s + n)) with true by lia.
Qed.

Lemma alloc_range_spec b a s n :
  chunks_ok b a -> 0 <= s -> 0 < n -> s + n <= 64 * vsize (l0 (level01 a)) -> n * 2 ^ b <= available a < 2 ^ 64 ->
  exists a', _mark_allocated (s * 2 ^ b) (n * 2 ^ b) a = Some a' /\ chunks_ok b a' /\
    marks (l0 (level01 a)) (l0 (level01 a')) s (s + n) false /\ available a' = available a - n * 2 ^ b /\ same_impl a a' /\ last_pos a' = last_pos a.
Proof.
  intros Ha Hs Hn Hle Hav. pose proof (c_b _ _ _ _ Ha) as Hb. pose proof (c_cap _ _ _ _ Ha) as Hcap. pose proof (g_pos b Hb).
  assert ((s + n) * 2 ^ b <= 2 ^ 60) as Hc by (etransitivity; [apply Z.mul_le_mono_nonneg_r; [lia|exact Hle]|done]).
  assert (0 <= s * 2 ^ b) by (apply Z.mul_nonneg_nonneg; lia). assert (0 < n * 2 ^ b) by (apply Z.mul_pos_pos; lia).
  assert (s * 2 ^ b + n * 2 ^ b = (s + n) * 2 ^ b) as Ee by lia. unfold _mark_allocated. rewrite u64_small, Ee by lia.
  rewrite (c_g _ _ _ _ Ha), round_block, Z.div_mul by (done || lia).
  destruct (mark_alloc_l1_l0_spec s (s + n) (level01 a)) as (x & -> & Hx & Hm & Hl); [lia|lia|apply Ha|]. bind.
  rewrite (c_g2 _ _ _ _ Ha), floor_chunk, round_chunk by (done || lia).
  pose proof (chunked_level b a x s (s + n) ltac:(lia) Ha Hx Hl (marks_changed _ _ _ _ _ Hm)) as Hc'.
  destruct (mark_l2_on_l1_spec (s / CHUNK) ((s + n + CHUNK - 1) / CHUNK) b (set_level01 x a)) as (v & -> & Hok & Hsz);
    [Z.div_mod_to_equations; lia|simpl; destruct Hl as (_ & _ & ->); apply (chunk_bound b a); [done|lia|done]|done|]. bind.
  simpl available. destruct (Z.leb_spec (n * 2 ^ b) (available a)); [|lia]. simpl cxxlab_assert. bind.
  eexists. split; [done|]. split; [destruct Hok; by constructor|]. simpl. split; [done|]. rewrite u64_small by lia. by split_and!.
Qed.
End BitmapLevel2.
