(* ===== verification/BitmapAllocate.v ===== *)
(** * Allocation from the bitmap

    [_allocate_l2] on a device whose level 2 fits one slot of 64 bits: it ends,
    hands out free blocks only, and stops short of the request only when nothing
    is free any more. *)
From stdpp Require Import base numbers list gmap.
From Stdlib Require Import ZArith Lia ZifyBool.
From S2P Require Import Prelude IntArith IntervalSet Allocator BitmapAllocator BitmapBits BitmapLevel1 BitmapLevel2.
Import Allocator Bitmap BitmapBits BitmapLevel1 BitmapTake BitmapLevel2.

Module BitmapAllocate.

(** The result of the next loop of the goal, up to conversion. *)
Ltac run E :=
  match type of E with _ = Some ?r =>
    match goal with |- context [whileM ?f ?n ?s] => replace (whileM f n s) with (Some r) by (symmetry; exact E) end
  end; bind.

Section Scan.
Context (b mx want : Z) (F0 : gset Z) (a0 : AllocatorLevel02).
Abbreviation g := (2 ^ b).
Context (Hb : 0 <= b < 32) (Hmx : g <= mx <= 2 ^ 31) (Hmd : mx mod g = 0).
Context (Ha0 : chunks_ok b a0) (Hone : vsize (l2 a0) = 1) (Hwant : 0 <= want < 2 ^ 63).

(** What every state of the scan satisfies. *)
Record scanning (st : l2_state) : Prop := {
  sc_ok : chunks_ok b st.2;
  sc_same : same_impl a0 st.2;
  sc_holding : holding g mx F0 (l0 (level01 st.2)) st.1.1 st.1.2;
  sc_al : 0 <= st.1.1 <= want;
  sc_mod : (want - st.1.1) mod g = 0;
  sc_shrunk : forall p, 0 <= p -> bit (l0 (level01 st.2)) p = true -> bit (l0 (level01 a0)) p = true;
}.

Definition empty_chunks (st : l2_state) (lo hi : Z) : Prop := forall c, lo <= c < hi -> ~ chunk_free (l0 (level01 st.2)) c.

(** The scan of a slot stands at [bt]: the chunks before it are empty. *)
Definition at_bit (lo scan_end : Z) (s : Z * l2_state) : Prop :=
  let '(bt, st) := s in
  scanning st /\ available st.2 = available a0 /\ last_pos st.2 = last_pos a0 /\
  ((bt = -1 /\ empty_chunks st lo scan_end) \/
   (0 <= bt < 64 /\ 8 * (bt + 1) <= vsize (l1 (level01 a0)) /\ empty_chunks st lo (Z.min bt scan_end))).

(** The scan returned with the request satisfied. *)
Definition returned_with (st : l2_state) : Prop :=
  scanning st /\ st.1.1 = want /\ available st.2 = available a0 -64 want /\ 0 <= last_pos st.2 < 64.

Lemma chunk_exists st c : scanning st -> 0 <= c -> chunk_free (l0 (level01 st.2)) c -> 8 * (c + 1) <= vsize (l1 (level01 a0)).
Proof.
  intros Hst Hc (q & Hq & Hbq). apply sc_shrunk in Hbq; [|done|lia]. apply bit_true_range in Hbq.
  rewrite (s_size _ _ _ (c_level _ _ _ _ Ha0)) in Hbq. pose proof (c_div _ _ _ _ Ha0) as Hd. apply Z.mod_divide in Hd as [k Ek]; [|lia].
  rewrite Ek in *. lia.
Qed.

Lemma slot_bit st c : scanning st -> 0 <= c < 64 ->
  exists x, get (l2 st.2) 0 = Some x /\ l2 st.2 !! 0%nat = Some x /\ 0 <= x < 2 ^ 64 /\ (forall j, 0 <= j < 64 -> Z.testbit x j = true <-> chunk_free (l0 (level01 st.2)) j).
Proof.
  intros Hst Hc. pose proof (sc_ok _ Hst) as Ha. pose proof (sc_same _ Hst) as (_ & _ & Hs). rewrite Hone in Hs.
  destruct (get_slot (l2 st.2) 0) as (x & E & El & Hx & _ & Hxb); [lia|apply Ha|]. exists x. split; [done|]. split; [done|]. split; [done|].
  intros j Hj. rewrite Hxb by done. replace (64 * 0 + j) with j by lia. apply Ha; lia.
Qed.

(** The allocation from one chunk. *)
Lemma chunk_step bt al res a :
  scanning (al, res, a) -> 0 <= bt -> 8 * (bt + 1) <= vsize (l1 (level01 a0)) ->
  exists r al' res' x, _allocate_l1 want g mx (256 * bt) (256 * bt + 256) al res (level01 a) = Some (r, (al', res', x)) /\
    level_ok x /\ same_level (level01 a) x /\ shrunk (CHUNK * bt) (CHUNK * (bt + 1)) (l0 (level01 a)) (l0 x) /\
    holding g mx F0 (l0 x) al' res' /\ al <= al' <= want /\ (want - al') mod g = 0 /\
    (al' = want \/ allbits (l0 x) (CHUNK * bt) (CHUNK * (bt + 1)) false).
Proof.
  intros Hst Hbt Hk. pose proof (sc_ok _ Hst) as Ha. simpl in Ha. pose proof (g_pos b Hb). pose proof (sc_same _ Hst) as (Hl & _ & _). simpl in Hl.
  pose proof (sc_al _ Hst) as Hal. simpl in Hal. pose proof (c_cap _ _ _ _ Ha).
  destruct (allocate_l1_spec g mx ltac:(lia) Hmx Hmd F0 (level01 a) (256 * bt) (256 * bt + 256) al res want) as (r & [[al' res'] x] & E & Hd);
    try apply Ha; try apply Hst; try lia.
  - destruct Hl as (_ & _ & ->). lia.
  - exists r, al', res', x. split; [done|]. destruct Hd as (? & ? & ? & Hs & ? & ? & Hex).
    replace (512 * (256 * bt)) with (CHUNK * bt) in * by lia. replace (512 * (256 * bt + 256)) with (CHUNK * (bt + 1)) in * by lia. tauto.
Qed.

(** Level 2 after the allocation from a chunk. *)
Lemma scanning_next al res a bt al' res' x v :
  scanning (al, res, a) -> 0 <= bt < 64 -> level_ok x -> same_level (level01 a) x ->
  shrunk (CHUNK * bt) (CHUNK * (bt + 1)) (l0 (level01 a)) (l0 x) -> holding g mx F0 (l0 x) al' res' ->
  al <= al' <= want -> (want - al') mod g = 0 ->
  wfv v -> vsize v = vsize (l2 a) -> (forall p, 0 <= p -> p <> bt -> bit v p = bit (l2 a) p) -> (bit v bt = true <-> chunk_free (l0 x) bt) ->
  scanning (al', res', set_l2 v (set_level01 x a)).
Proof.
  intros Hst Hbt Hx Hl Hs Hh Hal Hm Hw Hv Ho He. pose proof (sc_ok _ Hst) as Ha. simpl in Ha. pose proof (sc_same _ Hst) as Hsame. simpl in Hsame.
  pose proof (sc_al _ Hst). simpl in *.
  pose proof (chunked_level b a x (CHUNK * bt) (CHUNK * (bt + 1)) ltac:(lia) Ha Hx Hl (shrunk_changed _ _ _ _ Hs)) as Hc.
  replace (CHUNK * bt / CHUNK) with bt in Hc by (Z.div_mod_to_equations; lia).
  replace ((CHUNK * (bt + 1) + CHUNK - 1) / CHUNK) with (bt + 1) in Hc by (Z.div_mod_to_equations; lia).
  constructor; simpl; try done; try lia.
  - destruct Hc. constructor; simpl in *; try done; [by rewrite Hv|]. intros p Hp _. rewrite Hv in Hp.
    destruct (decide (p = bt)) as [->|]; [done|]. rewrite Ho by lia. apply c_exact0; lia.
  - eapply same_impl_trans; [exact Hsame|]. by split_and!.
  - intros p Hp Hbp. apply (sc_shrunk _ Hst); [done|]. simpl. by apply Hs.
Qed.

Lemma clear_slot_bit v bt :
  wfv v -> vsize v = 1 -> 0 <= bt < 64 ->
  exists v', update v 0 (fun y => Z.land y (not64 (Z.shiftl 1 bt))) = Some v' /\ wfv v' /\ vsize v' = 1 /\
    bit v' bt = false /\ forall p, 0 <= p -> p <> bt -> bit v' p = bit v p.
Proof.
  intros Hw Hv Hbt. destruct (clear_bit_spec bt v) as (v' & E & Hs & Hw' & Hbits); [lia|done|].
  unfold clear_bit in E. fold_consts. rewrite (Z.div_small bt), (Z.mod_small bt) in E by lia.
  exists v'. split; [done|]. split; [done|]. split; [lia|]. split.
  - rewrite Hbits by lia. by replace ((bt <=? bt) && (bt <? bt + 1)) with true by lia.
  - intros p Hp Hne. rewrite Hbits by done. by replace ((bt <=? p) && (p <? bt + 1)) with false by lia.
Qed.

Lemma empty_chunks_app st lo mid hi : empty_chunks st lo mid -> empty_chunks st mid hi -> empty_chunks st lo hi.
Proof. intros H1 H2 c Hc. destruct (Z.lt_ge_cases c mid); [apply H1|apply H2]; lia. Qed.

Lemma chunk_free_shrunk v v' lo hi c : 0 <= c -> shrunk lo hi v v' -> chunk_free v' c -> chunk_free v c.
Proof. intros Hc (_ & M & _) (q & Hq & Hbq). exists q. split; [done|]. apply M; [lia|done]. Qed.

(** A scan that ended without returning. *)
Definition scanned (lo hi : Z) (st : l2_state) : Prop :=
  scanning st /\ available st.2 = available a0 /\ last_pos st.2 = last_pos a0 /\ empty_chunks st lo hi.

Lemma scanning_frame al res a n p : scanning (al, res, a) -> scanning (al, res, set_available n (set_last_pos p a)).
Proof. intros [H1 H2 H3 H4 H5 H6]. constructor; simpl in *; try done. destruct H1. by constructor. Qed.

(** The bit of the slot after an allocation from its chunk. *)
Lemma refresh_bit al res a bt x :
  scanning (al, res, a) -> 0 <= bt < 64 -> 8 * (bt + 1) <= vsize (l1 (level01 a0)) -> level_ok x -> same_level (level01 a) x ->
  (bit (l2 a) bt = true \/ ~ chunk_free (l0 x) bt) ->
  exists e v, _is_empty_l1 (l0 x) (256 * bt) (256 * bt + 256) = Some e /\
    (if e then _ ← cxxlab_assert (bt <? 64); update (l2 a) 0 (fun y => Z.land y (not64 (Z.shiftl 1 bt))) else Some (l2 a)) = Some v /\
    wfv v /\ vsize v = vsize (l2 a) /\ (forall p, 0 <= p -> p <> bt -> bit v p = bit (l2 a) p) /\ (bit v bt = true <-> chunk_free (l0 x) bt).
Proof.
  intros Hst Hbt Hk Hx Hl Hbit. pose proof (sc_ok _ Hst) as Ha. simpl in Ha. pose proof (sc_same _ Hst) as ((_ & _ & Hv1) & _ & Hv). simpl in Hv, Hv1.
  destruct (is_empty_l1_spec (l0 x) (256 * bt) (256 * bt + 256)) as (e & -> & He); [apply Hx|lia|rewrite (s_size _ _ _ Hx); destruct Hl as (_ & _ & ->); lia|].
  replace (512 * (256 * bt)) with (CHUNK * bt) in He by lia. replace (512 * (256 * bt + 256)) with (CHUNK * (bt + 1)) in He by lia.
  assert (e = true <-> ~ chunk_free (l0 x) bt) as He'.
  { rewrite He. split; [intros Ha' (q & Hq & Hbq); by rewrite (Ha' q Hq) in Hbq|]. intros Hn q Hq. destruct (bit (l0 x) q) eqn:E; [|done].
    exfalso. apply Hn. by exists q. }
  exists e. destruct e.
  - destruct (Z.ltb_spec bt 64); [|lia]. simpl cxxlab_assert. bind.
    destruct (clear_slot_bit (l2 a) bt) as (v & -> & Hw & Hs & Hb0 & Ho); [apply Ha|lia|done|]. exists v. split_and!; try done; try lia.
    rewrite Hb0. split; [done|]. intros Hc. by apply He' in Hc.
  - exists (l2 a). split_and!; try done; [apply Ha|].
    destruct (bits_dec (l0 x) (CHUNK * bt) (CHUNK * (bt + 1))) as [Hz|Hex].
    + assert (false = true) by (by apply He). done.
    + split; [intros _; done|]. intros _. destruct Hbit as [?|Hn]; [done|]. by destruct Hn.
Qed.

Lemma scan_bits_step lo se idx val bt st :
  0 <= lo -> se <= 64 -> 0 <= idx < 64 -> (val = all_slot_set -> 512 <= vsize (l1 (level01 a0))) -> at_bit lo se (bt, st) ->
  exists x, scan_bits want g mx idx se val (bt, st) = Some x /\
    match x with
    | inl (bt', st') => at_bit lo se (bt', st') /\ (bt' = -1 \/ bt < bt') /\ 0 <= bt
    | inr (true, st') => returned_with st'
    | inr (false, st') => scanned lo se st'
    end.
Proof.
  intros Hlo Hse Hidx Hval Hat. pose proof Hat as (Hst & Hav & Hlp & Hcase). destruct st as [[al res] a]. simpl in Hav, Hlp. unfold scan_bits. fold_consts.
  rewrite (Z.div_small idx) by lia. rewrite Z.mul_0_l, Z.add_0_l.
  destruct ((0 <=? bt) && (bt <? se)) eqn:Ein.
  2:{ eexists. split; [done|]. simpl. split_and!; try done. destruct Hcase as [[-> ?]|(Hbt & Hk & He)]; [done|].
      intros c Hc. apply He. lia. }
  destruct Hcase as [[-> _]|(Hbt & Hk & Hemp)]; [lia|]. rewrite (u64_small bt), (u64_small (bt * 256)) by lia. rewrite (Z.mul_comm bt), u64_small by lia.
  destruct (chunk_step bt al res a Hst ltac:(lia) Hk) as (r & al' & res' & x & -> & Hx & Hl & Hs & Hh & Hal & Hm & Hex). bind.
  destruct (slot_bit (al, res, a) bt Hst Hbt) as (y0 & _ & _ & _ & Hy0). simpl in Hy0.
  assert (bit (l2 a) bt = true \/ ~ chunk_free (l0 x) bt) as Hbit.
  { pose proof (c_exact _ _ _ _ (sc_ok _ Hst) bt) as Hce. simpl in Hce. pose proof (sc_same _ Hst) as (_ & _ & Hv2). simpl in Hv2. rewrite Hv2, Hone in Hce.
    destruct (bit (l2 a) bt) eqn:E; [by left|right]. intros Hc. eapply chunk_free_shrunk in Hc; [|lia|done]. apply Hce in Hc; [done|lia|lia]. }
  destruct (refresh_bit al res a bt x Hst Hbt Hk Hx Hl Hbit) as (e & v & -> & Ev & Hw & Hv & Ho & Hvb). rewrite some_bind. change (l2 (set_level01 x a)) with (l2 a).
  rewrite Ev. bind. pose proof (scanning_next al res a bt al' res' x v Hst Hbt Hx Hl Hs Hh Hal Hm Hw Hv Ho Hvb) as Hst'.
  destruct (Z.leb_spec want al').
  { eexists. split; [done|]. assert (al' = want) as -> by lia. split; [by apply scanning_frame|]. simpl. by rewrite Hav. }
  destruct (slot_bit _ 0 Hst' ltac:(lia)) as (y & Ey & _ & Hy & Hyb). simpl in Ey, Hyb. change (l2 (set_l2 v (set_level01 x a))) with v. rewrite Ey. bind.
  assert (~ chunk_free (l0 x) bt) as Hnot.
  { destruct Hex as [?|Hz]; [lia|]. intros (q & Hq & Hbq). by rewrite Hz in Hbq. }
  assert (empty_chunks (al', res', set_l2 v (set_level01 x a)) lo (Z.min (bt + 1) se)) as Hemp'.
  { intros c Hc. simpl. destruct (decide (c = bt)) as [->|]; [done|]. intros Hcf. apply (Hemp c); [lia|]. simpl. eapply chunk_free_shrunk; [|done|done]. lia. }
  eexists. split; [done|]. cbv beta iota.
  set (nb := if val =? all_slot_set then _ else _). enough (((nb = -1 /\ empty_chunks (al', res', set_l2 v (set_level01 x a)) lo se) \/
    (bt < nb < 64 /\ 8 * (nb + 1) <= vsize (l1 (level01 a0)) /\ empty_chunks (al', res', set_l2 v (set_level01 x a)) lo (Z.min nb se)))) as Hnb.
  { split; [|split; [|lia]].
    - split; [done|]. split; [done|]. split; [done|]. destruct Hnb as [?|(? & ? & ?)]; [by left|right]. split_and!; try done; lia.
    - destruct Hnb as [[-> _]|(? & _)]; [by left|right; lia]. }
  subst nb. destruct (Z.eqb_spec val all_slot_set) as [Efull|_].
  - specialize (Hval Efull). destruct (Z.ltb_spec (bt + 1) se); [right; split_and!; try done; lia|left]. split; [done|]. intros c Hc. apply Hemp'. lia.
  - destruct (find_next_set_bit_spec y (bt + 1) Hy ltac:(lia)) as [[-> Hno]|(Hr & Ht & Hno)].
    + left. split; [done|]. intros c Hc. destruct (Z.lt_ge_cases c (bt + 1)); [apply Hemp'; lia|]. simpl. intros Hcf.
      apply Hyb in Hcf; [|lia]. by rewrite Hno in Hcf by lia.
    + right. set (nb := find_next_set_bit y (bt + 1)) in *. split; [lia|]. apply Hyb in Ht; [|lia]. split.
      * by apply (chunk_exists _ nb Hst' ltac:(lia)).
      * intros c Hc. destruct (Z.lt_ge_cases c (bt + 1)); [apply Hemp'; lia|]. simpl. intros Hcf.
        apply Hyb in Hcf; [|lia]. by rewrite Hno in Hcf by lia.
Qed.

Lemma scan_bits_loop lo se idx val bt st :
  0 <= lo -> se <= 64 -> 0 <= idx < 64 -> (val = all_slot_set -> 512 <= vsize (l1 (level01 a0))) -> at_bit lo se (bt, st) ->
  exists ret st', whileM (scan_bits want g mx idx se val) 64 (bt, st) = Some (ret, st') /\
    if (ret : bool) then returned_with st' else scanned lo se st'.
Proof.
  intros Hlo Hse Hidx Hval Hat.
  destruct (whileM_spec (scan_bits want g mx idx se val) (at_bit lo se) (fun s => if s.1 <? 0 then 0 else 65 - s.1)
    (fun x => if (x.1 : bool) then returned_with x.2 else scanned lo se x.2) 64 (bt, st)) as ([ret st'] & -> & H); [|done| |by exists ret, st'].
  - intros [bt' st1] H1. destruct (scan_bits_step lo se idx val bt' st1) as (x & -> & Hx); try done.
    exists x. split; [done|]. destruct x as [[bt2 st2]|[[|] st2]]; [|done..]. destruct Hx as (H2 & Hlt & H0). split; [done|]. simpl.
    destruct H2 as (_ & _ & _ & Hc). destruct H1 as (_ & _ & _ & Hc1). destruct (Z.ltb_spec bt2 0), (Z.ltb_spec bt' 0); lia.
  - simpl. destruct Hat as (_ & _ & _ & Hc). destruct (Z.ltb_spec bt 0); lia.
Qed.

(** One round over the slot. *)
Lemma scan_slots_loop lo hi st :
  0 <= lo < 64 -> hi <= 64 -> scanned 0 0 st ->
  exists ret st', whileM (scan_slots want g mx hi) 64 (lo, st) = Some (ret, st') /\
    if (ret : bool) then returned_with st' else scanned lo hi st'.
Proof.
  intros Hlo Hhi Hst0.
  destruct (whileM_spec (scan_slots want g mx hi) (fun s => (s.1 = lo /\ scanned 0 0 s.2) \/ (hi <= s.1 /\ scanned lo hi s.2))
    (fun s => if s.1 <? hi then 1 else 0) (fun x => if (x.1 : bool) then returned_with x.2 else scanned lo hi x.2) 64 (lo, st))
    as ([ret st'] & -> & H); [|by left|by simpl; destruct (lo <? hi)|by exists ret, st'].
  intros [idx [[al res] a]] H. simpl in H. unfold scan_slots. fold_consts.
  destruct (Z.ltb_spec idx hi) as [Hlt|Hge].
  2:{ eexists. split; [done|]. simpl. destruct H as [[-> (H1 & H2 & H3 & _)]|[_ ?]]; [|done]. split_and!; try done. intros c Hc. lia. }
  destruct H as [[-> (Hst & Hav & Hlp & _)]|[? _]]; [|lia]. rewrite (Z.div_small lo), (Z.mod_small lo) by lia.
  destruct (slot_bit (al, res, a) 0 Hst ltac:(lia)) as (y & Ey & _ & Hy & Hyb). simpl in Ey, Hyb. rewrite Ey. bind.
  destruct (Z.eqb_spec y 0) as [->|Hy0].
  { eexists. split; [done|]. cbn [fst snd]. rewrite u64_small by lia. split; [|destruct (Z.ltb_spec (lo + 64) hi), (Z.ltb_spec lo hi); lia]. right. split; [lia|].
    split_and!; try done. intros c Hc Hcf. simpl in Hcf. apply Hyb in Hcf; [|lia]. by rewrite Z.testbit_0_l in Hcf. }
  rewrite Z.mul_0_l, Z.add_0_l. change (u64 64) with 64. rewrite Z.min_r by lia.
  destruct (scan_bits_loop lo hi lo y (if y =? all_slot_set then 0 else find_next_set_bit y lo) (al, res, a)) as (ret & st' & E & Hret);
    [| | | | |run E].
  - lia.
  - lia.
  - lia.
  - intros ->. assert (chunk_free (l0 (level01 a)) 63) as Hcf by (apply Hyb; [lia|done]). pose proof (chunk_exists _ 63 Hst ltac:(lia) Hcf). lia.
  - split; [done|]. split; [done|]. split; [done|]. destruct (Z.eqb_spec y all_slot_set) as [->|].
    + right. split; [lia|]. split; [|intros c Hc; lia].
      assert (chunk_free (l0 (level01 a)) 63) as Hcf by (apply Hyb; [lia|done]). pose proof (chunk_exists _ 63 Hst ltac:(lia) Hcf). lia.
    + destruct (find_next_set_bit_spec y lo Hy ltac:(lia)) as [[-> Hno]|(Hr & Ht & Hno)].
      * left. split; [done|]. intros c Hc Hcf. apply Hyb in Hcf; [|lia]. by rewrite Hno in Hcf by lia.
      * right. split; [lia|]. apply Hyb in Ht; [|lia]. split; [by apply (chunk_exists _ (find_next_set_bit y lo) Hst ltac:(lia))|].
        intros c Hc Hcf. apply Hyb in Hcf; [|lia]. by rewrite Hno in Hcf by lia.
  - destruct ret; (eexists; split; [done|]); [done|]. cbn [fst snd]. split; [right; split; [lia|done]|].
    destruct (Z.ltb_spec hi hi), (Z.ltb_spec lo hi); lia.
Qed.
End Scan.

(** The longest extent of an allocation. *)
Definition max_extent (b m : Z) : Z :=
  let m := if (m =? 0) || (2 ^ 31 <=? m) then 2 ^ 31 else m in
  let m := align_down m (2 ^ b) in
  if m <? 2 ^ b then 2 ^ b else m.

Lemma l2_max_extent_spec b m : 0 <= b < 32 -> 0 <= m -> 2 ^ b <= max_extent b m <= 2 ^ 31 /\ max_extent b m mod 2 ^ b = 0.
Proof.
  intros Hb Hm. unfold max_extent. assert (2 ^ b <= 2 ^ 31) by (apply Z.pow_le_mono_r; lia). assert (0 < 2 ^ b) by lia.
  set (m' := if (m =? 0) || (2 ^ 31 <=? m) then 2 ^ 31 else m). assert (0 <= m' <= 2 ^ 31) as Hm' by (subst m'; destruct (_ || _) eqn:E; lia).
  clearbody m'. unfold align_down. rewrite IntArith.p2align_spec by (lia || (unfold uint; lia)).
  pose proof (Z.div_mod m' (2 ^ b) ltac:(lia)). pose proof (Z.mod_pos_bound m' (2 ^ b) ltac:(lia)).
  destruct (Z.ltb_spec (2 ^ b * (m' / 2 ^ b)) (2 ^ b)); [split; [lia|apply Z_mod_same_full]|].
  split; [lia|]. rewrite Z.mul_comm. by apply Z.mod_mul; lia.
Qed.

Lemma scanning_holding_bits b mx want F0 a al res a' :
  0 <= b < 32 -> scanning b mx want F0 a (al, res, a') -> vsize (l2 a) = 1 -> (forall c, 0 <= c < 64 -> ~ chunk_free (l0 (level01 a')) c) -> free_of b a' = ∅.
Proof.
  intros Hb Hst Hone Hno. apply set_eq. intros x. split; [|set_solver]. unfold free_of. rewrite elem_of_fbytes by lia. intros [Hx Hbit].
  pose proof (sc_ok _ _ _ _ _ _ Hst) as Ha. simpl in Ha. pose proof (sc_same _ _ _ _ _ _ Hst) as (_ & _ & Hv). simpl in Hv.
  exfalso. pose proof (bit_true_range _ _ Hbit) as Hr. rewrite (s_size _ _ _ (c_level _ _ _ _ Ha)) in Hr. pose proof (c_fit _ _ _ _ Ha).
  assert (0 <= x / 2 ^ b) by (apply Z.div_pos; lia). set (q := x / 2 ^ b) in *.
  apply (Hno (q / 131072)); [Z.div_mod_to_equations; lia|]. exists q. split; [Z.div_mod_to_equations; lia|done].
Qed.

Lemma allocate_l2_spec b a want m hint :
  chunks_ok b a -> vsize (l2 a) = 1 -> 0 < want < 2 ^ 63 -> want mod 2 ^ b = 0 -> 0 <= m -> hint < 2 ^ 63 -> 0 <= last_pos a < 2 ^ 64 ->
  exists al res a',
    _allocate_l2 want (2 ^ b) m hint 0 [] a = Some (if 0 <? al then 0 else - ENOSPC, (al, res, a')) /\
    chunks_ok b a' /\ same_impl a a' /\ holding (2 ^ b) (max_extent b m) (free_of b a) (l0 (level01 a')) al res /\
    0 <= al <= want /\ (al = want \/ free_of b a' = ∅) /\
    available a' = (if 0 <? al then available a -64 al else available a) /\ 0 <= last_pos a' < 2 ^ 64 /\
    (forall p, 0 <= p -> bit (l0 (level01 a')) p = true -> bit (l0 (level01 a)) p = true).
Proof.
  intros Ha Hone Hw Hwm Hm Hhint Hlp. pose proof (c_b _ _ _ _ Ha) as Hb. destruct (l2_max_extent_spec b m Hb Hm) as [Hmx Hmd]. pose proof (g_pos b Hb) as Hg.
  unfold _allocate_l2. fold (max_extent b m). set (mx := max_extent b m) in *. fold_consts. rewrite Hone. change (1 *64 64) with 64.
  set (pos := if 64 <=? u64 _ then 0 else _). assert (0 <= pos < 64) as Hpos.
  { subst pos. set (z := if 0 <? hint then _ else _). assert (0 <= z < 2 ^ 64) as Hz.
    { subst z. destruct (Z.ltb_spec 0 hint); [|done]. rewrite (c_g2 _ _ _ _ Ha). unfold align_down.
      assert (0 <= hint / (131072 * 2 ^ b) < 2 ^ 63) as Hd by (split; [apply Z.div_pos; lia|apply Z.div_lt_upper_bound; nia]).
      set (h := hint / (131072 * 2 ^ b)) in *. rewrite (IntArith.p2align_spec 64 h 6 ltac:(lia) ltac:(unfold uint; lia) : IntArith.p2align 64 h 64 = _).
      change (2 ^ 6) with 64. clearbody h. Z.div_mod_to_equations; lia. }
    rewrite u64_small by done. destruct (Z.leb_spec 64 z); lia. }
  clearbody pos.
  assert (scanned b mx want (free_of b a) a 0 0 (0, [], a)) as H0.
  { split; [|split_and!; try done; intros c Hc; lia]. constructor; simpl; try done; [|lia|by rewrite Z.sub_0_r].
    constructor; [apply Ha|constructor|done|rewrite extents_set_nil; set_solver|rewrite extents_set_nil; unfold free_of; set_solver|done]. }
  destruct (scan_slots_loop b mx want (free_of b a) a Hb Hmx Hmd Ha Hone ltac:(lia) pos 64 (0, [], a) Hpos ltac:(lia) H0) as (ret & [[al res] a1] & E1 & H1). run E1.
  destruct ret.
  { destruct H1 as (Hst & Hal & Hav & Hp). simpl in *. subst al. exists want, res, a1. destruct Hst. simpl in *.
    destruct (Z.ltb_spec 0 want); [|lia]. split_and!; try done; lia || by left. }
  destruct H1 as (Hst & Hav & Hl & He). simpl in Hav, Hl. pose proof (sc_ok _ _ _ _ _ _ Hst) as Ha1. simpl in Ha1.
  pose proof (sc_same _ _ _ _ _ _ Hst) as Hs1. simpl in Hs1. pose proof Hs1 as (_ & _ & Hv1). rewrite Hone in Hv1.
  assert (scanned b mx want (free_of b a) a1 0 0 (al, res, a1)) as H0'.
  { split; [|split_and!; try done; intros c Hc; lia]. destruct Hst. by constructor. }
  destruct (scan_slots_loop b mx want (free_of b a) a1 Hb Hmx Hmd Ha1 Hv1 ltac:(lia) 0 pos (al, res, a1) ltac:(lia) ltac:(lia) H0') as (ret & [[al2 res2] a2] & E2 & H2). run E2.
  destruct ret.
  { destruct H2 as (Hst2 & Hal & Hav2 & Hp). simpl in *. subst al2. exists want, res2, a2. destruct Hst2. simpl in *.
    destruct (Z.ltb_spec 0 want); [|lia]. split_and!; try done; try lia; try (by left); try (eapply same_impl_trans; done); [by rewrite Hav2, Hav|].
    intros p Hp' Hbp. apply (sc_shrunk _ _ _ _ _ _ Hst); [done|]. by apply sc_shrunk0. }
  destruct H2 as (Hst2 & Hav2 & Hl2 & He2). simpl in Hav2, Hl2. exists al2, res2.
  exists (if 0 <? al2 then set_available (available a2 -64 al2) a2 else a2). split; [done|].
  assert (free_of b a2 = ∅) as Hemp.
  { apply (scanning_holding_bits b mx want (free_of b a) a1 al2 res2 a2); try done. intros c Hc Hcf. destruct (Z.lt_ge_cases c pos); [by apply (He2 c); simpl; [lia|]|].
    apply (He c); [lia|]. simpl. destruct Hcf as (q & Hq & Hbq). exists q. split; [done|]. apply (sc_shrunk _ _ _ _ _ _ Hst2); [lia|done]. }
  assert (chunks_ok b a2) as Ha2 by apply (sc_ok _ _ _ _ _ _ Hst2).
  assert (forall p, 0 <= p -> bit (l0 (level01 a2)) p = true -> bit (l0 (level01 a)) p = true) as Hmono.
  { intros p Hp' Hbp. apply (sc_shrunk _ _ _ _ _ _ Hst); [done|]. by apply (sc_shrunk _ _ _ _ _ _ Hst2). }
  destruct Hst2. simpl in *. destruct (Z.ltb_spec 0 al2); split_and!; try done; try lia; try (by right); try (eapply same_impl_trans; done).
  - destruct Ha2. by constructor.
  - simpl. by rewrite Hav2, Hav.
  - simpl. lia.
  - simpl. lia.
Qed.
End BitmapAllocate.
