(* ===== verification/BitmapSpec.v ===== *)
(** * The bitmap allocator meets the contract of allocators

    For devices of up to [2^23] blocks, whose level 2 is one slot. *)
From stdpp Require Import base numbers list gmap.
From Stdlib Require Import ZArith Lia ZifyBool.
From S2P Require Import Prelude IntArith IntervalSet Allocator BitmapAllocator BitmapBits BitmapLevel1 BitmapLevel2 BitmapAllocate.
Import Allocator Bitmap BitmapBits BitmapLevel1 BitmapTake BitmapLevel2 BitmapAllocate.

Module BitmapSpec.

Abbreviation slots a := (l0 (level01 (impl_ a))).

Definition bitmap_free (a : BitmapAllocator) : gset Z := fbytes (block_size_ a) (slots a).

Record ok_at (b : Z) (a : BitmapAllocator) : Prop := {
  o_bs : block_size_ a = 2 ^ b;
  o_chunks : chunks_ok b (impl_ a);
  o_one : vsize (l2 (impl_ a)) = 1;
  o_dev : 0 < device_size a <= 64 * vsize (slots a) * 2 ^ b;
  o_in p : 0 <= p -> bit (slots a) p = true -> (p + 1) * 2 ^ b <= device_size a;
  o_avail : available (impl_ a) = Z.of_nat (size (bitmap_free a));
  o_pos : 0 <= last_pos (impl_ a) < 2 ^ 64;
}.

Definition bitmap_ok (a : BitmapAllocator) : Prop := exists b, ok_at b a.

Section At.
Context (b : Z).
Abbreviation g := (2 ^ b).

Lemma at_b a : ok_at b a -> 0 <= b < 32 /\ 0 < g.
Proof. intros Ha. pose proof (c_b _ _ _ _ (o_chunks _ _ Ha)). lia. Qed.

Lemma at_dev a : ok_at b a -> 0 < device_size a <= 2 ^ 60.
Proof. intros Ha. pose proof (o_dev _ _ Ha). pose proof (c_cap _ _ _ _ (o_chunks _ _ Ha)). lia. Qed.

Lemma bitmap_free_of a : ok_at b a -> bitmap_free a = free_of b (impl_ a).
Proof. intros Ha. unfold bitmap_free, free_of. by rewrite (o_bs _ _ Ha). Qed.

Lemma elem_of_free a x : ok_at b a -> x ∈ bitmap_free a <-> 0 <= x /\ bit (slots a) (x / g) = true.
Proof. intros Ha. rewrite bitmap_free_of by done. apply elem_of_fbytes. apply (at_b a Ha). Qed.

Lemma free_in_dev a x : ok_at b a -> x ∈ bitmap_free a -> 0 <= x < device_size a.
Proof.
  intros Ha Hx. apply (elem_of_free a x Ha) in Hx as [Hx Hbit]. split; [done|]. destruct (at_b a Ha) as [_ Hg].
  pose proof (o_in _ _ Ha (x / g) ltac:(apply Z.div_pos; lia) Hbit). pose proof (Z.div_mod x g ltac:(lia)). pose proof (Z.mod_pos_bound x g Hg). lia.
Qed.

Lemma free_size a : ok_at b a -> Z.of_nat (size (bitmap_free a)) <= 2 ^ 60.
Proof.
  intros Ha. pose proof (at_dev a Ha). assert (bitmap_free a ⊆ zrange 0 (device_size a)) as Hsub.
  { intros x Hx. apply elem_of_zrange. pose proof (free_in_dev a x Ha Hx). lia. }
  apply subseteq_size in Hsub. pose proof (size_zrange 0 (device_size a)). lia.
Qed.

Lemma block_in_slots a p : ok_at b a -> 0 <= p -> p * g <= device_size a -> p <= 64 * vsize (slots a).
Proof. intros Ha Hp Hle. pose proof (o_dev _ _ Ha). destruct (at_b a Ha) as [_ Hg]. nia. Qed.

(** An aligned range in the device is a range of blocks. *)
Lemma as_blocks a off len :
  ok_at b a -> 0 <= off -> 0 < len -> off + len <= device_size a -> off mod g = 0 -> len mod g = 0 ->
  exists s n, off = s * g /\ len = n * g /\ 0 <= s /\ 0 < n /\ s + n <= 64 * vsize (slots a).
Proof.
  intros Ha Ho Hl Hd Hom Hlm. destruct (at_b a Ha) as [_ Hg]. exists (off / g), (len / g).
  pose proof (Z.div_mod off g ltac:(lia)) as E1. pose proof (Z.div_mod len g ltac:(lia)) as E2.
  assert (0 < len / g) by nia. assert (0 <= off / g) by (apply Z.div_pos; lia). split_and!; try lia. apply block_in_slots; [done|lia|lia].
Qed.

(** A state with other slots is good when its blocks are in the device and its
    count of free bytes is right. *)
Lemma ok_next a x :
  ok_at b a -> chunks_ok b x -> same_impl (impl_ a) x ->
  (forall p, 0 <= p -> bit (l0 (level01 x)) p = true -> (p + 1) * g <= device_size a) ->
  available x = Z.of_nat (size (free_of b x)) -> 0 <= last_pos x < 2 ^ 64 -> ok_at b (set_impl x a).
Proof.
  intros Ha Hx (Hl & _ & Hv) Hin Hav Hp. destruct Ha as [Hbs Hch Hone Hdev _ _ _]. constructor; simpl; try done; [congruence| |].
  - by rewrite (same_level_size _ _ (c_level _ _ _ _ Hch) (c_level _ _ _ _ Hx) Hl).
  - rewrite Hav. unfold bitmap_free, free_of. simpl. by rewrite Hbs.
Qed.

Lemma free_set_impl a x : ok_at b a -> bitmap_free (set_impl x a) = free_of b x.
Proof. intros Ha. unfold bitmap_free, free_of. simpl. by rewrite (o_bs _ _ Ha). Qed.

(** ** Allocation *)

Lemma bitmap_allocate_ok a want m hint :
  ok_at b a -> 0 < want < 2 ^ 63 -> want mod g = 0 -> 0 <= m -> hint < 2 ^ 63 ->
  exists exts a',
    bitmap_allocate want g m hint [] a = Some (if extents_bytes exts =? 0 then - ENOSPC else extents_bytes exts, exts, a') /\
    ok_at b a' /\ device_size a' = device_size a /\ block_size_ a' = block_size_ a /\
    Forall (emitted g (max_extent b m)) exts /\ extents_disjoint exts /\
    bitmap_free a = extents_set exts ∪ bitmap_free a' /\ extents_set exts ## bitmap_free a' /\
    extents_bytes exts <= want /\ (extents_bytes exts = want \/ bitmap_free a' = ∅).
Proof.
  intros Ha Hw Hwm Hm Hh. destruct (at_b a Ha) as [Hb Hg]. unfold bitmap_allocate.
  rewrite IntArith.isp2_pow2 by lia. rewrite Hwm, Z.eqb_refl. rewrite (c_g _ _ _ _ (o_chunks _ _ Ha)), Z.leb_refl. simpl cxxlab_assert. rewrite !some_bind.
  destruct (allocate_l2_spec b (impl_ a) want m hint (o_chunks _ _ Ha) (o_one _ _ Ha) Hw Hwm Hm Hh (o_pos _ _ Ha))
    as (al & res & x & -> & Hx & Hs & [_ Hem Hdis Hsep Hall Hby] & Hal & Hex & Hav & Hp & Hmono). bind.
  assert (Forall (fun e => 0 <= length e) res) as Hpos by (eapply Forall_impl; [exact Hem|]; intros e (? & _); lia).
  pose proof (extents_set_size res Hdis Hpos) as Esz. rewrite <- bitmap_free_of in Hall by done.
  assert (Z.of_nat (size (bitmap_free a)) = al + Z.of_nat (size (free_of b x))) as Hsz.
  { rewrite <- Hall, size_union by done. unfold free_of. lia. }
  pose proof (o_avail _ _ Ha) as Hav0. pose proof (free_size a Ha).
  exists res, (set_impl x a). split_and!; try done.
  - rewrite <- Hby. destruct (Z.ltb_spec 0 al), (Z.eqb_spec al 0); try lia; simpl; [|done]. rewrite i64_small by lia. done.
  - apply ok_next; try done.
    + intros p Hp0 Hbp. apply (o_in _ _ Ha); [done|]. by apply Hmono.
    + rewrite Hav. destruct (Z.ltb_spec 0 al); [|lia]. rewrite u64_small by lia. lia.
  - by rewrite free_set_impl, <- Hall.
  - by rewrite free_set_impl.
  - lia.
  - rewrite free_set_impl by done. destruct Hex as [->|?]; [left; lia|by right].
Qed.

(** ** Releasing and adding *)

Definition blocks_in (a : AllocatorLevel02) (p : Z * Z) : Prop :=
  exists s n, p = (s * g, n * g) /\ 0 <= s /\ 0 < n /\ s + n <= 64 * vsize (l0 (level01 a)).

Lemma free_ranges_spec l : forall rel a,
  chunks_ok b a -> Forall (blocks_in a) l -> 0 <= rel -> rel + IntervalSet.total l < 2 ^ 64 ->
  exists a', free_ranges l rel a = Some (rel + IntervalSet.total l, a') /\ chunks_ok b a' /\ same_impl a a' /\
    free_of b a' = IntervalSet.points l ∪ free_of b a /\ available a' = available a /\ last_pos a' = last_pos a.
Proof.
  induction l as [|p l IH]; intros rel a Ha Hl Hr Ht.
  { exists a. cbn [free_ranges]. rewrite IntervalSet.total_nil, Z.add_0_r, IntervalSet.points_nil. split_and!; try done. set_solver. }
  apply Forall_cons in Hl as [(s & n & -> & Hs & Hn & Hle) Hl]. cbn [free_ranges].
  destruct (free_range_spec b a s n Ha Hs Hn Hle) as (x & v & -> & E & Hok & Hm & Hsame). bind. rewrite E. bind.
  pose proof (c_b _ _ _ _ Ha). assert (0 < n * g) by (apply Z.mul_pos_pos; lia). rewrite IntervalSet.total_cons in Ht.
  assert (0 <= IntervalSet.total l) as Htl.
  { apply sumZ_nonneg. eapply Forall_impl; [exact Hl|]. intros [? ?] (s' & n' & [= -> ->] & _ & ? & _). simpl. apply Z.mul_nonneg_nonneg; lia. }
  rewrite u64_small by lia.
  destruct (IH (rel + n * g) (set_l2 v (set_level01 x a)) Hok) as (a' & -> & Hok' & Hs' & Hf & Hav & Hp); try lia.
  { eapply Forall_impl; [exact Hl|]. intros p (s' & n' & -> & ? & ? & ?). exists s', n'. split_and!; try done. simpl. destruct Hm as [-> _]. done. }
  exists a'. split; [by rewrite IntervalSet.total_cons, Z.add_assoc|]. split; [done|]. split; [by eapply same_impl_trans|]. split; [|done].
  rewrite Hf, IntervalSet.points_cons. unfold free_of. simpl. rewrite (fbytes_set g (l0 (level01 a)) (l0 x) s (s + n)) by (done || lia).
  replace (s + n - s) with n by lia. set_solver.
Qed.

(** Blocks that are free after a release lie in the device. *)
Lemma in_after a x S :
  ok_at b a -> free_of b x = S ∪ bitmap_free a -> (forall y, y ∈ S -> 0 <= y < device_size a) -> block_closed g S ->
  forall p, 0 <= p -> bit (l0 (level01 x)) p = true -> (p + 1) * g <= device_size a.
Proof.
  intros Ha Hf HS Hc p Hp Hbp. destruct (at_b a Ha) as [Hb Hg].
  assert (forall i, 0 <= i < g -> (p * g + i) / g = p) as Hdiv.
  { intros i Hi. rewrite Z.add_comm, Z.div_add, Z.div_small by lia. lia. }
  assert (p * g ∈ free_of b x) as Hx.
  { apply elem_of_fbytes; [done|]. split; [nia|]. rewrite <- (Hdiv 0) in Hbp by lia. by rewrite Z.add_0_r in Hbp. }
  rewrite Hf in Hx. apply elem_of_union in Hx as [Hx|Hx].
  - assert (p * g + (g - 1) ∈ S) as He.
    { apply (Hc (p * g)); [|done]. rewrite (Hdiv (g - 1)) by lia. rewrite <- (Hdiv 0) at 2 by lia. f_equal. lia. }
    specialize (HS _ He). lia.
  - apply (elem_of_free a) in Hx as [_ Hx]; [|done]. apply (o_in _ _ Ha); [done|]. rewrite Z.div_mul in Hx by lia. done.
Qed.

Lemma ranges_blocks a l :
  ok_at b a -> Forall (fun p : Z * Z => p.1 mod g = 0 /\ p.2 mod g = 0) l -> IntervalSet.wf_from 0 l ->
  (forall x, x ∈ IntervalSet.points l -> 0 <= x < device_size a) -> Forall (blocks_in (impl_ a)) l /\ Forall (fun p : Z * Z => p.1 + p.2 <= device_size a) l.
Proof.
  intros Ha Hal Hw Hin. apply Forall_and. apply Forall_forall. intros [o n] Hp. rewrite Forall_forall in Hal. destruct (Hal _ Hp) as [Ho Hn]. simpl in *.
  apply list_elem_of_split in Hp as (l1 & l2 & ->). apply IntervalSet.wf_from_app in Hw as [Hw1 (Hlb & Hn0 & H64 & _)].
  pose proof (IntervalSet.total_bounds _ _ Hw1).
  assert (forall x, o <= x < o + n -> 0 <= x < device_size a) as Hx.
  { intros x Hx. apply Hin. rewrite IntervalSet.elem_of_points, IntervalSet.covers_app, IntervalSet.covers_cons. auto. }
  pose proof (Hx o ltac:(lia)). pose proof (Hx (o + n - 1) ltac:(lia)). split; [|lia].
  destruct (as_blocks a o n) as (s & m & -> & -> & ? & ? & ?); try done; try lia. by exists s, m.
Qed.

Lemma bitmap_release_ok a s :
  ok_at b a -> IntervalSet.wf s -> (forall x, x ∈ IntervalSet.pts s -> 0 <= x < device_size a) ->
  Forall (fun p => p.1 mod g = 0 /\ p.2 mod g = 0) (IntervalSet.m_ s) -> IntervalSet.pts s ## bitmap_free a ->
  exists a', bitmap_release s a = Some a' /\ ok_at b a' /\ device_size a' = device_size a /\ block_size_ a' = block_size_ a /\
    bitmap_free a' = IntervalSet.pts s ∪ bitmap_free a.
Proof.
  intros Ha [Hw _] Hin Hal Hdis. destruct (at_b a Ha) as [Hb Hg]. pose proof (at_dev a Ha).
  destruct (ranges_blocks a (IntervalSet.m_ s) Ha Hal Hw Hin) as [Hbl Hle]. unfold bitmap_release, _free_l2.
  pose proof (IntervalSet.total_points _ _ Hw) as Htot. fold (IntervalSet.pts s) in Htot.
  assert (IntervalSet.total (IntervalSet.m_ s) <= 2 ^ 60) as Ht.
  { rewrite <- Htot. assert (IntervalSet.pts s ⊆ zrange 0 (device_size a)) as Hsub by (intros x Hx; apply elem_of_zrange; specialize (Hin x Hx); lia).
    apply subseteq_size in Hsub. pose proof (size_zrange 0 (device_size a)). lia. }
  replace (forallb _ _) with true.
  2:{ symmetry. apply forallb_forall. intros p Hp. apply list_elem_of_In in Hp. rewrite Forall_forall in Hle, Hbl. specialize (Hle p Hp).
      destruct (Hbl p Hp) as (x & n & -> & ? & ? & _). simpl in *. rewrite !u64_small by nia. lia. }
  simpl cxxlab_assert. bind.
  destruct (free_ranges_spec (IntervalSet.m_ s) 0 (impl_ a) (o_chunks _ _ Ha) Hbl ltac:(lia) ltac:(lia)) as (x & -> & Hx & Hs & Hf & Hav & Hp). bind. bind.
  rewrite <- bitmap_free_of in Hf by done. fold (IntervalSet.pts s) in Hf. pose proof (free_size a Ha). pose proof (o_avail _ _ Ha).
  assert (Z.of_nat (size (free_of b x)) = IntervalSet.total (IntervalSet.m_ s) + available x) as Hsz by (rewrite Hf, size_union by done; lia).
  eexists. split; [done|]. split; [|split; [done|split; [done|]]].
  - apply ok_next; try done; simpl.
    + destruct Hx. by constructor.
    + eapply in_after; try done. intros y z E Hy. unfold IntervalSet.pts in *. rewrite IntervalSet.elem_of_points in *.
      apply Exists_exists in Hy as (p & Hp' & Hr). apply Exists_exists. exists p. split; [done|]. rewrite Forall_forall in Hal. destruct (Hal p Hp') as [Ho Hn].
      pose proof (block_closed_zrange g p.1 p.2 Hg Ho Hn y z E) as Hc. rewrite !elem_of_zrange in Hc. by apply Hc.
    + rewrite u64_small by lia. unfold free_of in *. simpl. lia.
    + rewrite Hp. apply Ha.
  - rewrite free_set_impl by done. done.
Qed.

Lemma init_range_aligned a off len :
  ok_at b a -> 0 <= off -> 0 <= len -> off + len <= device_size a -> off mod g = 0 -> len mod g = 0 -> init_range off len a = (off, len).
Proof.
  intros Ha Ho Hl Hd Hom Hlm. destruct (at_b a Ha) as [Hb Hg]. pose proof (at_dev a Ha). unfold init_range. rewrite (c_g _ _ _ _ (o_chunks _ _ Ha)).
  assert (2 ^ b <= 2 ^ 31) by (apply Z.pow_le_mono_r; lia).
  assert (round_up off g = off) as ->.
  { unfold round_up. rewrite IntArith.p2roundup_spec by lia. pose proof (Z.div_mod off g ltac:(lia)).
    replace (off + g - 1) with (g - 1 + off / g * g) by lia. rewrite Z.div_add, Z.div_small by lia. lia. }
  rewrite (u64_small (off + len)) by lia. replace (off + len - off) with len by lia. rewrite u64_small by lia.
  f_equal. unfold align_down. rewrite IntArith.p2align_spec by (lia || (unfold uint; lia)). pose proof (Z.div_mod len g ltac:(lia)). lia.
Qed.

Lemma bitmap_init_add_free_ok a off len :
  ok_at b a -> 0 <= off -> 0 < len -> off + len <= device_size a -> off mod g = 0 -> len mod g = 0 -> zrange off len ## bitmap_free a ->
  exists a', bitmap_init_add_free off len a = Some a' /\ ok_at b a' /\ device_size a' = device_size a /\ block_size_ a' = block_size_ a /\
    bitmap_free a' = zrange off len ∪ bitmap_free a.
Proof.
  intros Ha Ho Hl Hd Hom Hlm Hdis. destruct (at_b a Ha) as [Hb Hg]. pose proof (at_dev a Ha). unfold bitmap_init_add_free.
  destruct (Z.eqb_spec len 0) as [|_]; [lia|]. rewrite init_range_aligned by (done || lia). destruct (Z.eqb_spec len 0) as [|_]; [lia|].
  rewrite !u64_small by lia. destruct (Z.leb_spec (off + len) (device_size a)); [|lia]. simpl cxxlab_assert. bind.
  destruct (as_blocks a off len Ha Ho Hl Hd Hom Hlm) as (s & n & -> & -> & Hs & Hn & Hle). unfold _mark_free.
  destruct (free_range_spec b (impl_ a) s n (o_chunks _ _ Ha) Hs Hn Hle) as (x & v & -> & E & Hok & Hm & Hsame). bind. rewrite E. bind. bind.
  set (y := set_l2 v (set_level01 x (impl_ a))) in *. assert (free_of b y = zrange (s * g) (n * g) ∪ bitmap_free a) as Hf.
  { unfold free_of, y. simpl. rewrite (fbytes_set g (slots a) (l0 x) s (s + n)) by (done || lia). replace (s + n - s) with n by lia.
    by rewrite bitmap_free_of. }
  pose proof (free_size a Ha). pose proof (o_avail _ _ Ha). pose proof (size_zrange (s * g) (n * g) ltac:(lia)).
  assert (Z.of_nat (size (free_of b y)) = n * g + available (impl_ a)) as Hsz by (rewrite Hf, size_union by done; lia).
  eexists. split; [done|]. split; [|split; [done|split; [done|]]].
  - apply ok_next; try done; simpl.
    + destruct Hok. by constructor.
    + apply (in_after a y (zrange (s * g) (n * g)) Ha Hf); [intros z; rewrite elem_of_zrange; lia|by apply block_closed_zrange].
    + rewrite u64_small by lia. unfold free_of in *. subst y. simpl in *. lia.
    + apply Ha.
  - rewrite free_set_impl by done. done.
Qed.

Lemma bitmap_init_rm_free_ok a off len :
  ok_at b a -> 0 <= off -> 0 < len -> off + len <= device_size a -> off mod g = 0 -> len mod g = 0 -> zrange off len ⊆ bitmap_free a ->
  exists a', bitmap_init_rm_free off len a = Some a' /\ ok_at b a' /\ device_size a' = device_size a /\ block_size_ a' = block_size_ a /\
    bitmap_free a' = bitmap_free a ∖ zrange off len.
Proof.
  intros Ha Ho Hl Hd Hom Hlm Hsub. destruct (at_b a Ha) as [Hb Hg]. pose proof (at_dev a Ha). unfold bitmap_init_rm_free.
  destruct (Z.eqb_spec len 0) as [|_]; [lia|]. rewrite init_range_aligned by (done || lia). destruct (Z.eqb_spec len 0) as [|_]; [lia|].
  rewrite !u64_small by lia. destruct (Z.leb_spec (off + len) (device_size a)); [|lia]. simpl cxxlab_assert. bind.
  destruct (as_blocks a off len Ha Ho Hl Hd Hom Hlm) as (s & n & -> & -> & Hs & Hn & Hle).
  pose proof (free_size a Ha). pose proof (o_avail _ _ Ha) as Hav. pose proof (size_zrange (s * g) (n * g) ltac:(lia)) as Hz.
  pose proof (subseteq_size _ _ Hsub) as Hssz.
  destruct (alloc_range_spec b (impl_ a) s n (o_chunks _ _ Ha) Hs Hn Hle ltac:(lia)) as (x & -> & Hok & Hm & Hax & Hsame & Hp). bind.
  assert (free_of b x = bitmap_free a ∖ zrange (s * g) (n * g)) as Hf.
  { unfold free_of. rewrite (fbytes_clear g (slots a) _ s (s + n)) by (done || lia). replace (s + n - s) with n by lia. by rewrite bitmap_free_of. }
  eexists. split; [done|]. split; [|split; [done|split; [done|by rewrite free_set_impl]]]. apply ok_next; try done.
  - intros p Hp0 Hbp. apply (o_in _ _ Ha); [done|]. destruct Hm as (_ & _ & Hbits). rewrite Hbits in Hbp by done. by destruct (_ && _).
  - rewrite Hax, Hf, size_difference by done. lia.
  - rewrite Hp. apply Ha.
Qed.
End At.

(** ** The contract *)

#[global] Program Instance bitmap_spec : AllocatorSpec BitmapAllocator := {|
  ok := bitmap_ok; free := bitmap_free; first_usable := 0 |}.
Next Obligation. intros a [b Ha]. apply Ha. Qed.
Next Obligation. intros a [b Ha]. pose proof (at_dev b a Ha). simpl. lia. Qed.
Next Obligation. done. Qed.
Next Obligation. intros a x [b Ha]. by apply free_in_dev with b. Qed.
Next Obligation.
  intros a want [b Ha] Hw Hm. simpl in *. rewrite (o_bs _ _ Ha) in *. destruct (at_b b a Ha) as [Hb Hg].
  destruct (bitmap_allocate_ok b a want want 0 Ha Hw Hm ltac:(lia) ltac:(lia)) as (exts & a' & E & Ha' & Hd & Hbs & Hem & Hdis & Hf & Hsep & Hle & _).
  pose proof (l2_max_extent_spec b want Hb ltac:(lia)) as [Hmx _].
  eexists _, exts, a'. split; [exact E|]. split; [by exists b|]. rewrite (o_bs _ _ Ha) in Hbs. split_and!; try done.
  eapply Forall_impl; [exact Hem|]. intros e (? & ? & ? & _). split_and!; try done; lia.
Qed.
Next Obligation.
  intros a s [b Ha] Hw Hin Hal Hdis. simpl in *. rewrite (o_bs _ _ Ha) in Hal.
  destruct (bitmap_release_ok b a s Ha Hw Hin Hal Hdis) as (a' & E & Ha' & ? & ? & ?). exists a'. split_and!; try done. by exists b.
Qed.
Next Obligation.
  intros a off len [b Ha] Ho Hl Hd Hom Hlm Hdis. simpl in *. rewrite (o_bs _ _ Ha) in Hom, Hlm.
  destruct (bitmap_init_add_free_ok b a off len Ha Ho Hl Hd Hom Hlm Hdis) as (a' & E & Ha' & ? & ? & ?). exists a'. split_and!; try done. by exists b.
Qed.

#[global] Instance bitmap_removes : RemoveSpec BitmapAllocator.
Proof.
  constructor. intros a off len [b Ha] Ho Hl Hd Hom Hlm Hsub. simpl in *. rewrite (o_bs _ _ Ha) in Hom, Hlm.
  destruct (bitmap_init_rm_free_ok b a off len Ha Ho Hl Hd Hom Hlm Hsub) as (a' & E & Ha' & ? & ? & ?). exists a'. split_and!; try done. by exists b.
Qed.

#[global] Instance bitmap_from_zero : FromZero BitmapAllocator.
Proof. done. Qed.

(** ** A new allocator *)

Lemma bit_zero n p : bit (replicate n 0) p = false.
Proof.
  unfold bit. destruct (replicate n 0 !! _) as [x|] eqn:E; [|done]. apply lookup_replicate in E as [-> _]. apply Z.testbit_0_l.
Qed.
Lemma wfv_zero n : wfv (replicate n 0).
Proof. by apply Forall_replicate. Qed.
Lemma vsize_zero n x : 0 <= n -> vsize (replicate (Z.to_nat n) x) = n.
Proof. intros. unfold vsize. rewrite length_replicate. lia. Qed.

Lemma round_pow x k : 0 <= k <= 62 -> 0 <= x <= 2 ^ 61 -> round_up x (2 ^ k) = 2 ^ k * ((x + 2 ^ k - 1) / 2 ^ k).
Proof.
  intros Hk Hx. unfold round_up. assert (2 ^ k <= 2 ^ 62) by (apply Z.pow_le_mono_r; lia). by rewrite IntArith.p2roundup_spec by lia.
Qed.

Lemma fresh_level n b : 0 <= n -> 16384 * n < 2 ^ 62 ->
  level_ok (mk_level01 (replicate (Z.to_nat (256 * n)) 0) (replicate (Z.to_nat n) 0) (2 ^ b) (512 * 2 ^ b) 0 0).
Proof.
  intros Hn Hb. assert (forall m e, ent (replicate m 0) e = 0) as He by (intros; unfold ent; by rewrite !bit_zero).
  constructor; simpl; try apply wfv_zero; rewrite ?vsize_zero by lia; try lia.
  - intros e _ _. rewrite He. symmetry. apply summ_full. intros p Hp. apply bit_zero.
  - unfold count. rewrite sumZ_const0; [done|]. intros e. by rewrite He.
  - unfold count. rewrite sumZ_const0; [done|]. intros e. by rewrite He.
Qed.

Lemma bitmap_create_ok size b :
  0 <= b < 32 -> 0 < size <= 2 ^ 23 * 2 ^ b ->
  exists a, create size (2 ^ b) = Some a /\ ok_at b a /\ bitmap_free a = ∅ /\ device_size a = size.
Proof.
  intros Hb Hs. assert (0 < 2 ^ b <= 2 ^ 31) as Hg by (split; [lia|apply Z.pow_le_mono_r; lia]).
  unfold create, _init, _init_l1. fold_consts. rewrite (u64_small size), (u64_small (2 ^ b)) by lia.
  rewrite (u64_small (2 ^ b * 512)) by lia. rewrite (u64_small (2 ^ b * 512 * 8 * 32)) by lia. cbn [l1_granularity set_l1]. rewrite !some_bind.
  cbn [l1_granularity set_l1 l1]. rewrite (u64_small (2 ^ b * 512 * 32 * 8)) by lia. rewrite (u64_small (2 ^ b * 512 * 32 * 8 * 64)) by lia.
  replace (2 ^ b * 512 * 8 * 32) with (131072 * 2 ^ b) by lia. replace (2 ^ b * 512 * 32 * 8) with (131072 * 2 ^ b) by lia.
  replace (131072 * 2 ^ b * 64) with (2 ^ (23 + b)) by (rewrite Z.pow_add_r by lia; lia). rewrite chunk_pow by lia.
  assert (2 ^ (23 + b) <= 2 ^ 54 /\ 2 ^ (17 + b) <= 2 ^ 48) as [? ?] by (split; apply Z.pow_le_mono_r; lia).
  assert (2 ^ (23 + b) = 64 * 2 ^ (17 + b)) as E23 by (replace (23 + b) with (6 + (17 + b)) by lia; rewrite Z.pow_add_r by lia; done).
  assert (2 ^ (17 + b) = 131072 * 2 ^ b) as E17 by (symmetry; by apply chunk_pow).
  rewrite !round_pow by lia. set (K := (size + 2 ^ (17 + b) - 1) / 2 ^ (17 + b)).
  assert (1 <= K <= 64 /\ size <= 2 ^ (17 + b) * K) as [HK HKs].
  { pose proof (IntArith.ceil_mul_bounds size (2 ^ (17 + b)) ltac:(lia)) as Hc. fold K in Hc. nia. }
  assert ((size + 2 ^ (23 + b) - 1) / 2 ^ (23 + b) = 1) as ->.
  { symmetry. apply (Z.div_unique _ _ _ (size - 1)); lia. }
  rewrite Z.mul_1_r.
  replace (2 ^ (17 + b) * K / (2 ^ b * 512) / 32) with (8 * K).
  2:{ rewrite E17. replace (131072 * 2 ^ b * K) with (256 * K * (2 ^ b * 512)) by lia. rewrite Z.div_mul by lia. Z.div_mod_to_equations; lia. }
  replace (2 ^ (17 + b) * K / 2 ^ b / 64) with (256 * (8 * K)).
  2:{ rewrite E17. replace (131072 * 2 ^ b * K) with (131072 * K * 2 ^ b) by lia. rewrite Z.div_mul by lia. Z.div_mod_to_equations; lia. }
  rewrite (Z.mul_comm (2 ^ (17 + b)) K), Z.div_mul by lia.
  replace (2 ^ (23 + b) / 2 ^ (17 + b)) with 64 by (rewrite E23, Z.div_mul; lia).
  change (64 / 64) with 1. change (Z.to_nat 1) with 1%nat. cbn [replicate].
  destruct (for_marks clear_bit false [0] K 64 clear_bit_spec) as (v & Ev & Hsz & Hw & Hbits); [lia|by vm_compute|by repeat constructor|].
  unfold _mark_l2_allocated. rewrite Ev. bind. bind. eexists. split; [done|].
  assert (forall p, 0 <= p -> bit v p = false) as Hv by (intros p Hp; rewrite Hbits by done; case_match; [done|apply (bit_zero 1)]).
  assert (forall g, fbytes g (replicate (Z.to_nat (256 * (8 * K))) 0) = ∅) as Hf.
  { intros g. apply set_eq. intros x. unfold fbytes. rewrite elem_of_filter, bit_zero. set_solver. }
  split; [|split; [|done]]; [|unfold bitmap_free; simpl; apply Hf].
  constructor; simpl; try done.
  - constructor; simpl; try done; rewrite ?vsize_zero, ?Hsz by lia; try lia.
    + replace (2 ^ b * 512) with (512 * 2 ^ b) by lia. apply fresh_level; lia.
    + nia.
    + change (vsize [0]) with 1. lia.
    + rewrite Z.mul_comm. by apply Z.mod_mul.
    + intros p Hp _. rewrite Hv by lia. split; [done|]. intros (q & _ & Hq). by rewrite bit_zero in Hq.
  - rewrite vsize_zero by lia. nia.
  - intros p _ Hp. by rewrite bit_zero in Hp.
  - unfold bitmap_free. simpl. by rewrite Hf, size_empty.
Qed.
End BitmapSpec.
