(* ===== verification/BitmapClaim.v ===== *)
(** * Claiming the free space next to a position

    [claim_free_to_left] and [claim_free_to_right] take the whole run of free
    blocks that ends or starts at a position. *)
From stdpp Require Import base numbers list gmap.
From Stdlib Require Import ZArith Lia ZifyBool.
From S2P Require Import Prelude IntArith IntervalSet Allocator BitmapAllocator BitmapBits BitmapLevel1 BitmapLevel2 BitmapAllocate BitmapSpec.
Import Allocator Bitmap BitmapBits BitmapLevel1 BitmapTake BitmapLevel2 BitmapSpec.

Module BitmapClaim.

(** Bits of a slot up to or from a bit, cleared. *)
Lemma land_not_bit x i j : 0 <= j < 64 -> 0 <= i < 64 -> Z.testbit (Z.land x (not64 (Z.shiftl 1 i))) j = Z.testbit x j && negb (i =? j).
Proof. intros. by rewrite Z.land_spec, testbit_u64_not, testbit_one by lia. Qed.

Lemma land_bit_zero x i : 0 <= x < 2 ^ 64 -> 0 <= i < 64 -> Z.land x (Z.shiftl 1 i) = 0 <-> Z.testbit x i = false.
Proof.
  intros Hx Hi. split; intros H.
  - pose proof (f_equal (fun y => Z.testbit y i) H) as Hb. simpl in Hb. rewrite Z.land_spec, testbit_one, Z.eqb_refl, Z.testbit_0_l, andb_true_r in Hb by lia. done.
  - apply Z.bits_inj'. intros j Hj. rewrite Z.land_spec, testbit_one, Z.testbit_0_l by lia.
    destruct (Z.eqb_spec i j) as [<-|]; [by rewrite H|apply andb_false_r].
Qed.

(** ** Leftwards *)

(** The loop over one slot, from bit [p0] of the slot [idx] down; [q] is the
    first position that was not taken. *)
Lemma claim_left_loop idx p0 x :
  0 <= idx < 2 ^ 56 -> 64 * idx <= p0 < 64 * idx + 64 -> 0 <= x < 2 ^ 64 ->
  exists ret pos x', while (claim_left_step (64 * idx)) 64 (p0, Z.shiftl 1 (p0 - 64 * idx), x) = Some (ret, pos, x') /\
    64 * idx - 1 <= pos <= p0 /\ 0 <= x' < 2 ^ 64 /\ (forall j, pos < 64 * idx + j <= p0 -> 0 <= j < 64 -> Z.testbit x j = true) /\
    (forall j, 0 <= j < 64 -> Z.testbit x' j = Z.testbit x j && negb ((pos <? 64 * idx + j) && (64 * idx + j <=? p0))) /\
    match ret with Some r => r = pos + 1 /\ 64 * idx <= pos /\ Z.testbit x (pos - 64 * idx) = false | None => pos = 64 * idx - 1 end.
Proof.
  intros Hi Hp Hx.
  set (I := fun s : Z * Z * Z => let '(pos, bits, y) := s in 64 * idx - 1 <= pos <= p0 /\ bits = (if pos <? 64 * idx then 0 else Z.shiftl 1 (pos - 64 * idx)) /\
    0 <= y < 2 ^ 64 /\ (forall j, pos < 64 * idx + j <= p0 -> 0 <= j < 64 -> Z.testbit x j = true) /\
    (forall j, 0 <= j < 64 -> Z.testbit y j = Z.testbit x j && negb ((pos <? 64 * idx + j) && (64 * idx + j <=? p0)))).
  destruct (while_spec (claim_left_step (64 * idx)) I (fun s => s.1.1 - 64 * idx + 1) (fun r => let '(ret, pos, x') := r in
    64 * idx - 1 <= pos <= p0 /\ 0 <= x' < 2 ^ 64 /\ (forall j, pos < 64 * idx + j <= p0 -> 0 <= j < 64 -> Z.testbit x j = true) /\
    (forall j, 0 <= j < 64 -> Z.testbit x' j = Z.testbit x j && negb ((pos <? 64 * idx + j) && (64 * idx + j <=? p0))) /\
    match ret with Some r => r = pos + 1 /\ 64 * idx <= pos /\ Z.testbit x (pos - 64 * idx) = false | None => pos = 64 * idx - 1 end))
    with (n := 64%nat) (s := (p0, Z.shiftl 1 (p0 - 64 * idx), x)) as ([[ret pos] x'] & -> & H); [| | |by exists ret, pos, x'].
  - intros [[pos bits] y] (Hpos & -> & Hy & Hset & Hbits). unfold claim_left_step.
    destruct (Z.leb_spec (64 * idx) pos) as [Hge|Hlt]; [|split_and!; try done; lia].
    destruct (Z.ltb_spec pos (64 * idx)) as [|_]; [lia|]. set (i := pos - 64 * idx). assert (0 <= i < 64) by lia.
    assert (Z.testbit y i = Z.testbit x i) as Eyx.
    { rewrite Hbits by lia. replace (pos <? 64 * idx + i) with false by lia. by rewrite andb_true_r. }
    destruct (Z.eqb_spec (Z.land y (Z.shiftl 1 i)) 0) as [E|E].
    + apply land_bit_zero in E; [|done|lia]. rewrite Eyx in E. split_and!; try done; lia.
    + split; [|simpl; lia]. assert (Z.testbit x i = true) as Hxi.
      { rewrite <- Eyx. destruct (Z.testbit y i) eqn:Eb; [done|]. exfalso. apply E. by apply land_bit_zero. }
      split; [lia|]. split; [|split; [by apply land_range|split]].
      * destruct (Z.ltb_spec (pos - 1) (64 * idx)) as [Hl|Hl].
        -- replace i with 0 by lia. done.
        -- rewrite Z.shiftr_shiftl_l by lia. f_equal. lia.
      * intros j Hj Hj2. destruct (decide (j = i)) as [->|]; [done|]. apply Hset; lia.
      * intros j Hj. rewrite land_not_bit, Hbits by lia. destruct (Z.testbit x j) eqn:Exj; [|done]. simpl. lia.
  - simpl. split; [lia|]. destruct (Z.ltb_spec p0 (64 * idx)); [lia|]. split; [done|]. split; [done|]. split; [intros j; lia|].
    intros j Hj. replace ((p0 <? 64 * idx + j) && (64 * idx + j <=? p0)) with false by lia. by rewrite andb_true_r.
  - simpl. lia.
Qed.

(** The run [r .. e-1] was free and is taken. *)
Definition taken (v v' : list Z) (r e : Z) : Prop := r <= e /\ allbits v r e true /\ marks v v' r e false.

Lemma taken_trans v v1 v2 r m e : 0 <= r -> taken v v1 m e -> taken v1 v2 r m -> taken v v2 r e.
Proof.
  intros H0 (Hm & Ha & (S1 & W1 & B1)) (Hr & Ha' & (S2 & W2 & B2)). split; [lia|]. split.
  - intros p Hp. destruct (Z.lt_ge_cases p m); [|apply Ha; lia]. specialize (Ha' p ltac:(lia)). rewrite B1 in Ha' by lia.
    by replace ((m <=? p) && (p <? e)) with false in Ha' by lia.
  - split_and!; [congruence|done|]. intros p Hp. rewrite B2, B1 by done.
    destruct (Z.leb_spec r p), (Z.ltb_spec p m), (Z.leb_spec m p), (Z.ltb_spec p e); simpl; try done; lia.
Qed.

(** Writing a slot back. *)
Lemma slot_written v idx x x' r e :
  wfv v -> 0 <= idx < vsize v -> v !! Z.to_nat idx = Some x -> 0 <= x' < 2 ^ 64 ->
  64 * idx <= r <= e -> e <= 64 * idx + 64 ->
  (forall j, 0 <= j < 64 -> r <= 64 * idx + j < e -> Z.testbit x j = true) ->
  (forall j, 0 <= j < 64 -> Z.testbit x' j = Z.testbit x j && negb ((r <=? 64 * idx + j) && (64 * idx + j <? e))) ->
  taken v (<[Z.to_nat idx := x']> v) r e.
Proof.
  intros Hw Hi Hl Hx' Hr He Hset Hbits. split; [lia|]. split.
  - intros p Hp. destruct (get_slot v idx Hi Hw) as (y & _ & Hy & _ & Hb & _). rewrite Hl in Hy. injection Hy as <-.
    rewrite Hb by (Z.div_mod_to_equations; lia). apply Hset; Z.div_mod_to_equations; lia.
  - destruct (update_spec v idx (fun _ => x') Hi Hw ltac:(done)) as (y & v' & E & _ & Hy & Hb & Hs & Hw' & Hb'). rewrite Hl in Hy. injection Hy as <-.
    assert (v' = <[Z.to_nat idx := x']> v) as <-.
    { unfold update, get in E. destruct (Z.ltb_spec idx 0); [lia|]. rewrite Hl in E. simpl in E. by injection E as <-. }
    split_and!; try done. intros p Hp. rewrite Hb' by done. destruct (Z.eqb_spec (p / 64) idx) as [Ep|Ep].
    + rewrite Hbits by (apply Z.mod_pos_bound; lia). rewrite (Hb p Ep). replace (64 * idx + p mod 64) with p by (Z.div_mod_to_equations; lia).
      destruct ((r <=? p) && (p <? e)); by rewrite ?andb_true_r, ?andb_false_r.
    + replace ((r <=? p) && (p <? e)) with false; [done|]. Z.div_mod_to_equations; lia.
Qed.

Lemma claim_left_slot_spec pos v :
  wfv v -> 0 <= pos < 64 * vsize v -> 64 * vsize v < 2 ^ 62 ->
  exists ret pos' v', claim_left_slot pos (pos / 64) v = Some (ret, pos', v') /\ taken v v' (pos' + 1) (pos + 1) /\
    match ret with Some r => r = pos' + 1 /\ 0 <= pos' /\ bit v pos' = false | None => pos' = 64 * (pos / 64) - 1 end.
Proof.
  intros Hw Hp H62. unfold claim_left_slot. fold_consts. destruct (Z.leb_spec 0 pos) as [_|]; [|lia]. simpl cxxlab_assert. rewrite some_bind.
  pose proof (div64_range pos v Hp) as Hi. destruct (get_slot v (pos / 64) Hi Hw) as (x & -> & Hl & Hx & Hb & _). rewrite some_bind.
  replace (IntArith.p2align 64 pos 64) with (64 * (pos / 64)) by (symmetry; apply (IntArith.p2align_spec 64 pos 6); [lia|unfold uint; lia]).
  replace (pos mod 64) with (pos - 64 * (pos / 64)) by (Z.div_mod_to_equations; lia).
  destruct (claim_left_loop (pos / 64) pos x) as (ret & pos' & x' & -> & Hpos & Hx' & Hset & Hbits & Hret); [lia|Z.div_mod_to_equations; lia|done|]. bind.
  exists ret, pos', (<[Z.to_nat (pos / 64) := x']> v). split; [done|]. split.
  - apply (slot_written v (pos / 64) x); try done; try (Z.div_mod_to_equations; lia).
    + intros j Hj Hr. apply Hset; lia.
    + intros j Hj. rewrite Hbits by done. do 2 f_equal. lia.
  - destruct ret as [r|]; [|done]. destruct Hret as (-> & Hge & Ht). split_and!; try done; try lia.
    rewrite Hb by (Z.div_mod_to_equations; lia). rewrite <- Ht. f_equal. Z.div_mod_to_equations; lia.
Qed.

Lemma claimed_refl v e : wfv v -> taken v v e e.
Proof. intros Hw. split; [lia|]. split; [intros p Hp; lia|apply marks_refl; [done|lia]]. Qed.

Lemma whole_slot v idx :
  wfv v -> 0 <= idx < vsize v -> v !! Z.to_nat idx = Some all_slot_set -> taken v (<[Z.to_nat idx := all_slot_clear]> v) (64 * idx) (64 * idx + 64).
Proof.
  intros Hw Hi Hl. eapply slot_written; try done; try lia.
  - intros j Hj _. by apply (slot_of_bits true).
  - intros j Hj. change all_slot_clear with 0. rewrite Z.testbit_0_l. replace ((64 * idx <=? 64 * idx + j) && (64 * idx + j <? 64 * idx + 64)) with true by lia.
    by rewrite andb_false_r.
Qed.

Lemma claim_left_whole_loop v idx e :
  wfv v -> -1 <= idx < vsize v -> vsize v < 2 ^ 56 -> e = 64 * idx + 64 ->
  exists idx' v', whileM claim_left_whole 64 (idx, e - 1, v) = Some (idx', 64 * idx' + 63, v') /\ -1 <= idx' <= idx /\
    taken v v' (64 * idx' + 64) e /\ (0 <= idx' -> exists x, v' !! Z.to_nat idx' = Some x /\ x <> all_slot_set).
Proof.
  intros Hw Hi H56 He.
  set (I := fun s : Z * Z * list Z => let '(i, pos, v') := s in -1 <= i <= idx /\ pos = 64 * i + 63 /\ taken v v' (64 * i + 64) e).
  destruct (whileM_spec claim_left_whole I (fun s => s.1.1 + 1) (fun s => I s /\ let '(i, _, v') := s in 0 <= i -> exists x, v' !! Z.to_nat i = Some x /\ x <> all_slot_set)
    64 (idx, e - 1, v)) as ([[i pos] v'] & -> & (Hi' & -> & Ht) & Hx); [| | |by exists i, v'].
  - intros [[i pos] v1] (Hi1 & -> & Ht1). unfold claim_left_whole. destruct (Z.leb_spec 0 i) as [H0|H0].
    + pose proof Ht1 as (_ & _ & (Hs1 & Hw1 & _)). destruct (get_slot v1 i) as (x & -> & Hl & Hx & _); [lia|done|]. rewrite some_bind.
      destruct (Z.eqb_spec x all_slot_set) as [->|Hne].
      * eexists. split; [done|]. simpl. split; [|lia]. split; [lia|]. change bits_per_slot with 64. split; [lia|].
        eapply taken_trans; [lia|exact Ht1|]. replace (64 * (i - 1) + 64) with (64 * i) by lia. apply whole_slot; [done|lia|done].
      * eexists. split; [done|]. simpl. split; [done|]. intros _. by exists x.
    + eexists. split; [done|]. simpl. split; [done|]. lia.
  - subst e. split; [lia|]. split; [lia|]. by apply claimed_refl.
  - simpl. lia.
Qed.

Lemma claim_left_l0_spec e v :
  wfv v -> 0 < e <= 64 * vsize v -> 64 * vsize v < 2 ^ 62 ->
  exists r v', _claim_free_to_left_l0 e v = Some (r, v') /\ 0 <= r /\ taken v v' r e /\ (r = 0 \/ bit v (r - 1) = false).
Proof.
  intros Hw He H62. unfold _claim_free_to_left_l0. fold_consts.
  destruct (claim_left_slot_spec (e - 1) v Hw ltac:(lia) H62) as (ret & pos & v1 & -> & Ht & Hret). rewrite some_bind. cbv iota beta.
  replace (e - 1 + 1) with e in Ht by lia. pose proof Ht as (Hle & Ha & (Hs1 & Hw1 & Hb1)).
  destruct ret as [r|].
  { destruct Hret as (-> & Hp & Hb). exists (pos + 1), v1. rewrite u64_small by lia. split_and!; try done; [lia|right; by replace (pos + 1 - 1) with pos by lia]. }
  assert (-1 <= (e - 1) / 64 - 1 < vsize v1) as Hidx by (pose proof (div64_range (e - 1) v ltac:(lia)); lia).
  replace pos with ((64 * ((e - 1) / 64 - 1) + 64) - 1) by lia. set (i0 := (e - 1) / 64 - 1) in *.
  destruct (claim_left_whole_loop v1 i0 (64 * i0 + 64)) as (i & v2 & -> & Hi & Ht2 & Hx); [done|done|lia|done|]. rewrite some_bind. cbv iota beta.
  replace (pos + 1) with (64 * i0 + 64) in * by lia.
  assert (taken v v2 (64 * i + 64) e) as Ht3 by (eapply taken_trans; [lia|exact Ht|exact Ht2]).
  pose proof Ht3 as (Hle3 & Ha3 & (Hs3 & Hw3 & Hb3)).
  destruct (Z.leb_spec 0 i) as [H0|H0].
  2:{ assert (i = -1) as -> by lia. exists 0, v2. split; [done|]. split_and!; try done; try lia. }
  destruct (Hx H0) as (x & Hl & Hne). assert (get v2 i = Some x) as -> by (unfold get; destruct (Z.ltb_spec i 0); [lia|done]). rewrite some_bind.
  destruct (get_slot v2 i ltac:(lia) Hw3) as (x' & _ & Hl' & Hxr & Hbx & _). rewrite Hl in Hl'. injection Hl' as <-.
  assert (forall p, 64 * i <= p < 64 * i + 64 -> bit v p = bit v2 p) as Hout.
  { intros p Hp. rewrite Hb3 by lia. by replace ((64 * i + 64 <=? p) && (p <? e)) with false by lia. }
  destruct (Z.eqb_spec x all_slot_set) as [|_]; [done|]. simpl andb. destruct (Z.eqb_spec x 0) as [->|Hx0]; simpl negb; cbv iota.
  { exists (64 * i + 64), v2. split; [f_equal; f_equal; rewrite u64_small; lia|]. split; [lia|]. split; [done|]. right.
    rewrite Hout by lia. rewrite Hbx by (Z.div_mod_to_equations; lia). apply Z.testbit_0_l. }
  destruct (claim_left_slot_spec (64 * i + 63) v2 Hw3 ltac:(lia) ltac:(lia)) as (ret & pos' & v4 & E4 & Ht4 & Hret4).
  replace ((64 * i + 63) / 64) with i in E4 by (Z.div_mod_to_equations; lia). rewrite E4, some_bind. cbv iota beta.
  replace (64 * i + 63 + 1) with (64 * i + 64) in Ht4 by lia.
  replace ((64 * i + 63) / 64) with i in Hret4 by (Z.div_mod_to_equations; lia).
  assert (0 <= pos' + 1) as Hp0 by (destruct ret; lia). pose proof Ht4 as (Hle4 & Ha4 & _).
  assert (taken v v4 (pos' + 1) e) as Ht5 by (eapply taken_trans; [lia|exact Ht3|exact Ht4]).
  exists (pos' + 1), v4. split; [|split; [done|split; [done|]]].
  - f_equal. f_equal. destruct ret as [r|]; simpl; [destruct Hret4 as [-> _]|]; rewrite u64_small; lia.
  - destruct ret as [r|]; [right|].
    + destruct Hret4 as (_ & Hp & Hb). replace (pos' + 1 - 1) with pos' by lia.
      assert (64 * i <= pos' \/ pos' < 64 * i) as [Hc|Hc] by lia; [rewrite Hout by lia; done|].
      specialize (Hb3 pos' ltac:(lia)). rewrite Hb3 in Hb. by replace ((64 * i + 64 <=? pos') && (pos' <? e)) with false in Hb by lia.
    + exfalso. apply Hne. apply (slot_eq x true Hxr). intros j Hj.
      assert (bit v2 (64 * i + j) = true) as Hbj by (apply Ha4; lia). rewrite Hbx in Hbj by (Z.div_mod_to_equations; lia).
      replace ((64 * i + j) mod 64) with j in Hbj by (Z.div_mod_to_equations; lia). done.
Qed.

(** ** Rightwards *)

Lemma claim_right_loop idx p0 x :
  0 <= idx < 2 ^ 56 -> 64 * idx <= p0 < 64 * idx + 64 -> 0 <= x < 2 ^ 64 ->
  exists ret pos x', while (claim_right_step (64 * idx + 64)) 64 (p0, Z.shiftl 1 (p0 - 64 * idx), x) = Some (ret, pos, x') /\
    p0 <= pos <= 64 * idx + 64 /\ 0 <= x' < 2 ^ 64 /\ (forall j, p0 <= 64 * idx + j < pos -> 0 <= j < 64 -> Z.testbit x j = true) /\
    (forall j, 0 <= j < 64 -> Z.testbit x' j = Z.testbit x j && negb ((p0 <=? 64 * idx + j) && (64 * idx + j <? pos))) /\
    match ret with Some r => r = pos /\ pos < 64 * idx + 64 /\ Z.testbit x (pos - 64 * idx) = false | None => pos = 64 * idx + 64 end.
Proof.
  intros Hi Hp Hx.
  set (Q := fun (pos y : Z) => p0 <= pos <= 64 * idx + 64 /\ 0 <= y < 2 ^ 64 /\ (forall j, p0 <= 64 * idx + j < pos -> 0 <= j < 64 -> Z.testbit x j = true) /\
    (forall j, 0 <= j < 64 -> Z.testbit y j = Z.testbit x j && negb ((p0 <=? 64 * idx + j) && (64 * idx + j <? pos)))).
  set (I := fun s : Z * Z * Z => let '(pos, bits, y) := s in Q pos y /\ bits = (if pos <? 64 * idx + 64 then Z.shiftl 1 (pos - 64 * idx) else 0)).
  destruct (while_spec (claim_right_step (64 * idx + 64)) I (fun s => 64 * idx + 64 - s.1.1) (fun r => let '(ret, pos, x') := r in Q pos x' /\
    match ret with Some r => r = pos /\ pos < 64 * idx + 64 /\ Z.testbit x (pos - 64 * idx) = false | None => pos = 64 * idx + 64 end))
    with (n := 64%nat) (s := (p0, Z.shiftl 1 (p0 - 64 * idx), x)) as ([[ret pos] x'] & -> & (H1 & H2 & H3 & H4) & H); [| | |exists ret, pos, x'; tauto].
  - intros [[pos bits] y] ((Hpos & Hy & Hset & Hbits) & ->). unfold claim_right_step.
    destruct (Z.ltb_spec pos (64 * idx + 64)) as [Hlt|Hge]; [|split; [exact (conj Hpos (conj Hy (conj Hset Hbits)))|lia]].
    set (i := pos - 64 * idx). assert (0 <= i < 64) by lia. assert (Z.testbit y i = Z.testbit x i) as Eyx.
    { rewrite Hbits by lia. replace ((p0 <=? 64 * idx + i) && (64 * idx + i <? pos)) with false by lia. by rewrite andb_true_r. }
    destruct (Z.eqb_spec (Z.land y (Z.shiftl 1 i)) 0) as [E|E].
    + apply land_bit_zero in E; [|done|lia]. rewrite Eyx in E. split; [exact (conj Hpos (conj Hy (conj Hset Hbits)))|done].
    + split; [|simpl; lia]. assert (Z.testbit x i = true) as Hxi.
      { rewrite <- Eyx. destruct (Z.testbit y i) eqn:Eb; [done|]. exfalso. apply E. by apply land_bit_zero. }
      split; [split; [lia|split; [by apply land_range|split]]|].
      * intros j Hj Hj2. destruct (decide (j = i)) as [->|]; [done|]. apply Hset; lia.
      * intros j Hj. rewrite land_not_bit, Hbits by lia. destruct (Z.testbit x j) eqn:Exj; [|done]. simpl. lia.
      * rewrite Z.shiftl_shiftl by lia. destruct (Z.ltb_spec (pos + 1) (64 * idx + 64)) as [Hl|Hl].
        -- rewrite u64_small; [f_equal; lia|]. apply one_range. lia.
        -- replace (i + 1) with 64 by lia. done.
  - split; [split; [lia|]|by destruct (Z.ltb_spec p0 (64 * idx + 64)); [|lia]]. split; [done|]. split; [intros j; lia|].
    intros j Hj. replace ((p0 <=? 64 * idx + j) && (64 * idx + j <? p0)) with false by lia. by rewrite andb_true_r.
  - simpl. lia.
Qed.

Lemma claim_right_slot_spec pos v :
  wfv v -> 0 <= pos < 64 * vsize v -> 64 * vsize v < 2 ^ 62 ->
  exists ret pos' v', claim_right_slot pos (pos / 64) v = Some (ret, pos', v') /\ taken v v' pos pos' /\ pos' <= 64 * (pos / 64) + 64 /\
    match ret with Some r => r = pos' /\ bit v pos' = false | None => pos' = 64 * (pos / 64) + 64 end.
Proof.
  intros Hw Hp H62. unfold claim_right_slot. fold_consts.
  pose proof (div64_range pos v Hp) as Hi. destruct (get_slot v (pos / 64) Hi Hw) as (x & -> & Hl & Hx & Hb & _). rewrite some_bind.
  replace (IntArith.p2roundup 64 (pos + 1) 64) with (64 * (pos / 64) + 64).
  2:{ change 64 with (2 ^ 6) at 5. rewrite IntArith.p2roundup_spec by lia. change (2 ^ 6) with 64. Z.div_mod_to_equations; lia. }
  replace (pos mod 64) with (pos - 64 * (pos / 64)) by (Z.div_mod_to_equations; lia).
  destruct (claim_right_loop (pos / 64) pos x) as (ret & pos' & x' & -> & Hpos & Hx' & Hset & Hbits & Hret); [lia|Z.div_mod_to_equations; lia|done|]. bind.
  exists ret, pos', (<[Z.to_nat (pos / 64) := x']> v). split; [done|]. split; [|split; [lia|]].
  - apply (slot_written v (pos / 64) x); try done; try (Z.div_mod_to_equations; lia). intros j Hj Hr. apply Hset; lia.
  - destruct ret as [r|]; [|done]. destruct Hret as (-> & Hge & Ht). split; [done|].
    rewrite Hb by (Z.div_mod_to_equations; lia). rewrite <- Ht. f_equal. Z.div_mod_to_equations; lia.
Qed.

Lemma taken_trans_r v v1 v2 r m e : 0 <= r -> taken v v1 r m -> taken v1 v2 m e -> taken v v2 r e.
Proof.
  intros H0 (Hm & Ha & (S1 & W1 & B1)) (Hr & Ha' & (S2 & W2 & B2)). split; [lia|]. split.
  - intros p Hp. destruct (Z.lt_ge_cases p m); [apply Ha; lia|]. specialize (Ha' p ltac:(lia)). rewrite B1 in Ha' by lia.
    by replace ((r <=? p) && (p <? m)) with false in Ha' by lia.
  - split_and!; [congruence|done|]. intros p Hp. rewrite B2, B1 by done.
    destruct (Z.leb_spec r p), (Z.ltb_spec p m), (Z.leb_spec m p), (Z.ltb_spec p e); simpl; try done; lia.
Qed.

Lemma claim_right_whole_loop v idx s :
  wfv v -> 0 <= idx <= vsize v -> vsize v < 2 ^ 56 -> s = 64 * idx ->
  exists idx' v', whileM claim_right_whole 64 (idx, s, v) = Some (idx', 64 * idx', v') /\ idx <= idx' <= vsize v /\
    taken v v' s (64 * idx') /\ (idx' < vsize v -> exists x, v' !! Z.to_nat idx' = Some x /\ x <> all_slot_set).
Proof.
  intros Hw Hi H56 Hs.
  set (I := fun s' : Z * Z * list Z => let '(i, pos, v') := s' in idx <= i <= vsize v /\ pos = 64 * i /\ taken v v' s (64 * i)).
  destruct (whileM_spec claim_right_whole I (fun s' => vsize v - s'.1.1) (fun s' => I s' /\ let '(i, _, v') := s' in i < vsize v -> exists x, v' !! Z.to_nat i = Some x /\ x <> all_slot_set)
    64 (idx, s, v)) as ([[i pos] v'] & -> & (Hi' & -> & Ht) & Hx); [| | |by exists i, v'].
  - intros [[i pos] v1] (Hi1 & -> & Ht1). unfold claim_right_whole. pose proof Ht1 as (_ & _ & (Hs1 & Hw1 & _)). rewrite Hs1. destruct (Z.ltb_spec i (vsize v)) as [H0|H0].
    + destruct (get_slot v1 i) as (x & -> & Hl & Hx & _); [lia|done|]. rewrite some_bind.
      destruct (Z.eqb_spec x all_slot_set) as [->|Hne].
      * eexists. split; [done|]. simpl. rewrite u64_small by lia. split; [|lia]. split; [lia|]. change bits_per_slot with 64. split; [lia|].
        eapply taken_trans_r; [lia|exact Ht1|]. replace (64 * (i + 1)) with (64 * i + 64) by lia. apply whole_slot; [done|lia|done].
      * eexists. split; [done|]. simpl. split; [done|]. intros _. by exists x.
    + eexists. split; [done|]. simpl. split; [done|]. lia.
  - subst s. split; [lia|]. split; [lia|]. by apply claimed_refl.
  - simpl. lia.
Qed.

Lemma claim_right_l0_spec s v :
  wfv v -> 0 <= s <= 64 * vsize v -> 64 * vsize v < 2 ^ 62 ->
  exists r v', _claim_free_to_right_l0 s v = Some (r, v') /\ r <= 64 * vsize v /\ taken v v' s r /\ bit v r = false.
Proof.
  intros Hw Hs H62. unfold _claim_free_to_right_l0. fold_consts.
  destruct (Z.leb_spec (vsize v) (s / 64)) as [Hge|Hlt].
  { exists s, v. assert (s = 64 * vsize v) as Es by (Z.div_mod_to_equations; lia). rewrite u64_small by lia.
    split; [done|]. split; [lia|]. split; [by apply claimed_refl|]. apply bit_out. lia. }
  assert (s < 64 * vsize v) as Hs' by (Z.div_mod_to_equations; lia).
  destruct (claim_right_slot_spec s v Hw ltac:(lia) H62) as (ret & pos & v1 & -> & Ht & Hpe & Hret). rewrite some_bind. cbv iota beta.
  pose proof Ht as (Hle & Ha & (Hs1 & Hw1 & Hb1)).
  destruct ret as [r|].
  { destruct Hret as (-> & Hb). exists pos, v1. assert (pos <= 64 * vsize v) by (Z.div_mod_to_equations; lia). rewrite u64_small by lia. by split_and!. }
  rewrite (u64_small (s / 64 + 1)) by lia. subst pos. replace (64 * (s / 64) + 64) with (64 * (s / 64 + 1)) in * by lia. set (i0 := s / 64 + 1) in *.
  destruct (claim_right_whole_loop v1 i0 (64 * i0)) as (i & v2 & -> & Hi & Ht2 & Hx); [done|lia|lia|done|]. rewrite some_bind. cbv iota beta.
  assert (taken v v2 s (64 * i)) as Ht3 by (eapply taken_trans_r; [lia|exact Ht|exact Ht2]).
  pose proof Ht3 as (Hle3 & Ha3 & (Hs3 & Hw3 & Hb3)). rewrite Hs1 in Hi, Hx. rewrite Hs3.
  destruct (Z.ltb_spec i (vsize v)) as [H0|H0].
  2:{ assert (i = vsize v) as -> by lia. exists (64 * vsize v), v2. rewrite u64_small by lia. split_and!; try done. apply bit_out. lia. }
  destruct (Hx H0) as (x & Hl & Hne). assert (get v2 i = Some x) as -> by (unfold get; destruct (Z.ltb_spec i 0); [lia|done]). rewrite some_bind.
  destruct (get_slot v2 i ltac:(lia) Hw3) as (x' & _ & Hl' & Hxr & Hbx & _). rewrite Hl in Hl'. injection Hl' as <-.
  assert (forall p, 64 * i <= p < 64 * i + 64 -> bit v p = bit v2 p) as Hout.
  { intros p Hp. rewrite Hb3 by lia. by replace ((s <=? p) && (p <? 64 * i)) with false by lia. }
  destruct (Z.eqb_spec x all_slot_set) as [|_]; [done|]. simpl andb. destruct (Z.eqb_spec x 0) as [->|Hx0]; simpl negb; cbv iota.
  { exists (64 * i), v2. rewrite u64_small by lia. split; [done|]. split; [lia|]. split; [done|].
    rewrite Hout by lia. rewrite Hbx by (Z.div_mod_to_equations; lia). apply Z.testbit_0_l. }
  destruct (claim_right_slot_spec (64 * i) v2 Hw3 ltac:(lia) ltac:(lia)) as (ret & pos' & v4 & E4 & Ht4 & Hpe4 & Hret4).
  replace (64 * i / 64) with i in * by (Z.div_mod_to_equations; lia). rewrite E4, some_bind. cbv iota beta.
  pose proof Ht4 as (Hle4 & Ha4 & _). assert (taken v v4 s pos') as Ht5 by (eapply taken_trans_r; [lia|exact Ht3|exact Ht4]).
  exists pos', v4. split; [|split; [lia|split; [done|]]].
  - f_equal. f_equal. destruct ret as [r|]; simpl; [destruct Hret4 as [-> _]|]; rewrite u64_small; lia.
  - destruct ret as [r|].
    + destruct Hret4 as (_ & Hb). destruct (decide (pos' = 64 * i + 64)) as [->|]; [|rewrite Hout by lia; done].
      rewrite Hb3 in Hb by lia. by replace ((s <=? 64 * i + 64) && (64 * i + 64 <? 64 * i)) with false in Hb by lia.
    + exfalso. apply Hne. apply (slot_eq x true Hxr). intros j Hj.
      assert (bit v2 (64 * i + j) = true) as Hbj by (apply Ha4; lia). rewrite Hbx in Hbj by (Z.div_mod_to_equations; lia).
      replace ((64 * i + j) mod 64) with j in Hbj by (Z.div_mod_to_equations; lia). done.
Qed.

(** ** Levels 1 and 2 *)

Lemma level_marks_nil a v e : level_ok a -> marks (l0 a) v e e false -> level_ok (set_l0 v a).
Proof.
  intros Ha (Hsz & Hw & Hb). constructor; simpl; try apply Ha; try done.
  - rewrite Hsz. apply Ha.
  - rewrite Hsz. apply Ha.
  - intros i Hi _. rewrite (s_ent _ _ _ Ha) by lia. symmetry. apply summ_ext. intros p Hp. rewrite Hb by lia.
    by replace ((e <=? p) && (p <? e)) with false by lia.
Qed.

(** The refresh of level 1 after blocks [r .. e-1] were taken. *)
Lemma refresh_level a v r e :
  level_ok a -> 0 <= r <= e -> e <= 64 * vsize (l0 a) -> marks (l0 a) v r e false ->
  exists x, _mark_l1_on_l0 (align_down r bits_per_slotset) (round_up e bits_per_slotset) (set_l0 v a) = Some x /\
    level_ok x /\ l0 x = v /\ same_level a x.
Proof.
  intros Ha Hr He Hm. pose proof (s_bound _ _ _ Ha). pose proof (s_size _ _ _ Ha). pose proof Hm as (Hsz & _).
  rewrite align512, round512 by lia.
  destruct (mark_l1_on_l0_spec (512 * (r / 512)) (512 * ((e + 511) / 512)) (set_l0 v a)) as (x & -> & Hx & E & Hl).
  - Z.div_mod_to_equations; lia.
  - simpl. Z.div_mod_to_equations; lia.
  - replace (512 * (r / 512) / 512) with (r / 512) by (Z.div_mod_to_equations; lia).
    replace ((512 * ((e + 511) / 512) + 511) / 512) with ((e + 511) / 512) by (Z.div_mod_to_equations; lia).
    by eapply summed_marks.
  - exists x. by split_and!.
Qed.

Section Claim.
Context (b : Z).
Abbreviation g := (2 ^ b).

(** The blocks [r .. e-1] of the allocator move to the caller. *)
Definition claimed (a : BitmapAllocator) (r e : Z) (a' : BitmapAllocator) : Prop :=
  ok_at b a' /\ device_size a' = device_size a /\ block_size_ a' = block_size_ a /\ 0 <= r <= e /\
  zrange (r * g) ((e - r) * g) ⊆ bitmap_free a /\ bitmap_free a' = bitmap_free a ∖ zrange (r * g) ((e - r) * g).

(** Level 2 and the counter after blocks were taken from the level below. *)
Lemma claim_finish a x r e l2_pos l2_end :
  ok_at b a -> level_ok x -> same_level (level01 (impl_ a)) x -> 0 <= r -> e <= 64 * vsize (slots a) -> taken (slots a) (l0 x) r e ->
  l2_pos = r / 131072 -> l2_end = (e + 131072 - 1) / 131072 ->
  let n := (e - r) * g in let y := set_available (available (impl_ a) - n) (set_level01 x (impl_ a)) in
  0 <= n <= available (impl_ a) /\ exists z, _mark_l2_on_l1 l2_pos l2_end y = Some z /\ claimed a r e (set_impl z a).
Proof.
  intros Ha Hx Hl Hr He (Hre & Hset & Hm) -> -> n y. destruct (at_b b a Ha) as [Hb Hg]. pose proof (o_chunks _ _ Ha) as Hc.
  pose proof (fbytes_run g (slots a) r e Hg Hr Hset) as Hsub. pose proof (fbytes_clear g (slots a) (l0 x) r e Hg Hr Hm) as Hf. fold n in Hsub, Hf.
  assert (0 <= n) by (subst n; apply Z.mul_nonneg_nonneg; lia). pose proof (size_zrange (r * g) n ltac:(done)) as Hz. pose proof (subseteq_size _ _ Hsub) as Hss.
  pose proof (o_avail _ _ Ha) as Hav. rewrite bitmap_free_of with (b := b) in Hav by done. unfold free_of in Hav. split; [lia|].
  assert (chunked (r / 131072) ((e + 131072 - 1) / 131072) b y) as Hy.
  { pose proof (chunked_level b (impl_ a) x r e ltac:(lia) Hc Hx Hl (marks_changed _ _ _ _ _ Hm)) as []. by constructor. }
  destruct (mark_l2_on_l1_spec (r / 131072) ((e + 131072 - 1) / 131072) b y) as (v & -> & Hok & Hv);
    [Z.div_mod_to_equations; lia|simpl; destruct Hl as (_ & _ & ->); apply (chunk_bound b (impl_ a)); [done|lia|done]|done|].
  eexists. split; [done|]. assert (bitmap_free (set_impl (set_l2 v y) a) = bitmap_free a ∖ zrange (r * g) n) as Hfree.
  { rewrite free_set_impl with (b := b) by done. unfold free_of. simpl. by rewrite Hf, bitmap_free_of with (b := b). }
  split; [|split; [done|split; [done|split; [lia|split; [by rewrite bitmap_free_of with (b := b)|done]]]]].
  apply ok_next; try done.
  - intros p Hp Hbp. simpl in Hbp. apply (o_in _ _ Ha); [done|]. destruct Hm as (_ & _ & Hbits). rewrite Hbits in Hbp by done.
    by destruct ((r <=? p) && (p <? e)).
  - unfold free_of. simpl. rewrite Hf, size_difference by done. lia.
  - simpl. apply Ha.
Qed.

Lemma claim_free_to_left_ok a e :
  ok_at b a -> 0 < e -> e * g <= device_size a ->
  exists r a', claim_free_to_left (e * g) a = Some ((e - r) * g, a') /\ claimed a r e a' /\ (r = 0 \/ bit (slots a) (r - 1) = false).
Proof.
  intros Ha He Hd. destruct (at_b b a Ha) as [Hb Hg]. pose proof (o_chunks _ _ Ha) as Hc. pose proof (c_level _ _ _ _ Hc) as Hl0.
  pose proof (block_in_slots b a e Ha ltac:(lia) Hd) as Hle. pose proof (s_bound _ _ _ Hl0) as Hbd. pose proof (at_dev b a Ha) as Hdv.
  unfold claim_free_to_left, claim_free_to_left_l2, claim_free_to_left_l1. rewrite (c_g _ _ _ _ Hc), Z.div_mul by lia. rewrite i64_small by lia.
  destruct (claim_left_l0_spec e (slots a) ltac:(apply Hl0) ltac:(lia) Hbd) as (r & v & -> & Hr & Ht & Hmax). rewrite some_bind. cbv iota beta.
  pose proof Ht as (Hre & _ & Hm). exists r.
  assert (exists x, (if r <? e then
      x ← _mark_l1_on_l0 (align_down r bits_per_slotset) (round_up e bits_per_slotset) (set_l0 v (level01 (impl_ a)));
      Some (l0_granularity x *64 (e -64 r), x) else Some (0, set_l0 v (level01 (impl_ a)))) = Some ((e - r) * g, x) /\
    level_ok x /\ l0 x = v /\ same_level (level01 (impl_ a)) x) as (x & Ex & Hx & Hv & Hsl).
  { destruct (Z.ltb_spec r e).
    - destruct (refresh_level (level01 (impl_ a)) v r e Hl0 ltac:(lia) Hle Hm) as (x & -> & Hx & Hv & Hsl). rewrite some_bind. exists x.
      split; [|done]. destruct Hsl as (-> & _). rewrite (c_g _ _ _ _ Hc). assert (0 <= (e - r) * g <= e * g) by nia. rewrite (u64_small (e - r)) by lia. rewrite u64_small by lia. do 2 f_equal. lia.
    - assert (r = e) as -> by lia. exists (set_l0 v (level01 (impl_ a))). split; [do 2 f_equal; lia|]. split; [by eapply level_marks_nil|done]. }
  rewrite Ex, some_bind. cbv iota beta. clear Ex. rewrite <- Hv in Ht.
  set (l2p := (e * g -64 (e - r) * g) / _). set (l2e := round_up (e * g) _ / _).
  assert ((e - r) * g <= e * g) by nia. assert (0 <= (e - r) * g) by nia.
  destruct (claim_finish a x r e l2p l2e Ha Hx Hsl Hr Hle Ht) as (Hn & z & Hz & Hcl).
  { subst l2p. cbn [l2_granularity set_available set_level01]. rewrite u64_small by lia. rewrite (c_g2 _ _ _ _ Hc). replace (e * g - (e - r) * g) with (r * g) by lia. by apply floor_chunk. }
  { subst l2e. cbn [l2_granularity set_available set_level01]. rewrite (c_g2 _ _ _ _ Hc). apply round_chunk; [done|lia|lia]. }
  simpl in Hz. destruct (Z.leb_spec ((e - r) * g) (available (impl_ a))); [|lia]. simpl cxxlab_assert. rewrite some_bind.
  pose proof (o_avail _ _ Ha). pose proof (free_size b a Ha). rewrite u64_small by lia. rewrite Hz, some_bind. cbv iota beta. rewrite some_bind.
  eexists. split; [done|]. split; [done|]. done.
Qed.

Lemma claim_free_to_right_ok a s :
  ok_at b a -> 0 <= s -> s * g <= device_size a ->
  exists r a', claim_free_to_right (s * g) a = Some ((r - s) * g, a') /\ claimed a s r a' /\ r * g <= 2 ^ 60 /\ bit (slots a) r = false.
Proof.
  intros Ha He Hd. destruct (at_b b a Ha) as [Hb Hg]. pose proof (o_chunks _ _ Ha) as Hc. pose proof (c_level _ _ _ _ Hc) as Hl0.
  pose proof (block_in_slots b a s Ha He Hd) as Hle. pose proof (s_bound _ _ _ Hl0) as Hbd. pose proof (at_dev b a Ha) as Hdv. pose proof (c_cap _ _ _ _ Hc) as Hcap.
  unfold claim_free_to_right, claim_free_to_right_l2, claim_free_to_right_l1. rewrite (c_g _ _ _ _ Hc), Z.div_mul by lia. rewrite i64_small by lia.
  destruct (claim_right_l0_spec s (slots a) ltac:(apply Hl0) ltac:(lia) Hbd) as (r & v & -> & Hr & Ht & Hmax). rewrite some_bind. cbv iota beta.
  pose proof Ht as (Hre & _ & Hm). exists r. assert (r * g <= 2 ^ 60) by nia.
  assert (exists x, (if s <? r then
      x ← _mark_l1_on_l0 (align_down s bits_per_slotset) (round_up r bits_per_slotset) (set_l0 v (level01 (impl_ a)));
      Some (l0_granularity x *64 (r -64 s), x) else Some (0, set_l0 v (level01 (impl_ a)))) = Some ((r - s) * g, x) /\
    level_ok x /\ l0 x = v /\ same_level (level01 (impl_ a)) x) as (x & Ex & Hx & Hv & Hsl).
  { destruct (Z.ltb_spec s r).
    - destruct (refresh_level (level01 (impl_ a)) v s r Hl0 ltac:(lia) Hr Hm) as (x & -> & Hx & Hv & Hsl). rewrite some_bind. exists x.
      split; [|done]. destruct Hsl as (-> & _). rewrite (c_g _ _ _ _ Hc). assert (0 <= (r - s) * g <= r * g) by nia. rewrite (u64_small (r - s)) by lia. rewrite u64_small by lia. do 2 f_equal. lia.
    - assert (r = s) as -> by lia. exists (set_l0 v (level01 (impl_ a))). split; [do 2 f_equal; lia|]. split; [by eapply level_marks_nil|done]. }
  rewrite Ex, some_bind. cbv iota beta. clear Ex. rewrite <- Hv in Ht. assert (0 <= s * g) by nia.
  set (l2p := (s * g) / _). set (l2e := round_up (s * g +64 (r - s) * g) _ / _). assert (0 <= (r - s) * g) by nia. assert (s * g + (r - s) * g = r * g) as Ers by lia.
  destruct (claim_finish a x s r l2p l2e Ha Hx Hsl He Hr Ht) as (Hn & z & Hz & Hcl).
  { subst l2p. cbn [l2_granularity set_available set_level01]. rewrite (c_g2 _ _ _ _ Hc). by apply floor_chunk. }
  { subst l2e. cbn [l2_granularity set_available set_level01]. rewrite u64_small, Ers by lia. rewrite (c_g2 _ _ _ _ Hc). apply round_chunk; [done|lia|lia]. }
  simpl in Hz. destruct (Z.leb_spec ((r - s) * g) (available (impl_ a))); [|lia]. simpl cxxlab_assert. rewrite some_bind.
  pose proof (o_avail _ _ Ha). pose proof (free_size b a Ha). rewrite u64_small by lia. rewrite Hz, some_bind. cbv iota beta. rewrite some_bind.
  eexists. split; [done|]. split; [done|]. by split.
Qed.
End Claim.
End BitmapClaim.

(** * [BitmapAllocator::foreach] shows exactly the free space

    The ranges it reports are in order, disjoint, and cover the free blocks and
    nothing else; entries of level 1 that are marked full or free stand for the
    blocks below them. *)
Import Allocator Bitmap BitmapBits BitmapLevel1 BitmapTake BitmapLevel2 BitmapSpec.

Module BitmapForeach.

(** ** Lists of runs of a predicate on positions *)

(** [rs] are disjoint runs, in order, that cover the positions [lo .. hi-1]
    where [P] holds. *)
Fixpoint spans (P : Z -> bool) (lo hi : Z) (rs : list (Z * Z)) : Prop :=
  match rs with
  | [] => lo <= hi /\ (forall j, lo <= j < hi -> P j = false)
  | (s, n) :: t => lo <= s /\ 0 < n /\ (forall j, lo <= j < s -> P j = false) /\ (forall j, s <= j < s + n -> P j = true) /\ spans P (s + n) hi t
  end.

Lemma spans_le P rs : forall lo hi, spans P lo hi rs -> lo <= hi.
Proof. induction rs as [|[s n] t IH]; intros lo hi; simpl; [tauto|]. intros (? & ? & _ & _ & H). apply IH in H. lia. Qed.

Lemma spans_app P rs1 rs2 : forall lo mid hi, spans P lo mid rs1 -> spans P mid hi rs2 -> spans P lo hi (rs1 ++ rs2).
Proof.
  induction rs1 as [|[s n] t IH]; intros lo mid hi H1 H2; simpl in *.
  - destruct H1 as [Hle Hf]. destruct rs2 as [|[s n] t]; simpl in *.
    + destruct H2 as [? H2]. split; [lia|]. intros j Hj. destruct (decide (j < mid)); [apply Hf|apply H2]; lia.
    + destruct H2 as (? & ? & H2 & H3 & H4). split_and!; try done; [lia|]. intros j Hj. destruct (decide (j < mid)); [apply Hf|apply H2]; lia.
  - destruct H1 as (? & ? & ? & ? & H1). split_and!; try done. by eapply IH.
Qed.

Lemma spans_none P lo hi : lo <= hi -> (forall j, lo <= j < hi -> P j = false) -> spans P lo hi [].
Proof. done. Qed.

Lemma spans_one P lo n : 0 < n -> (forall j, lo <= j < lo + n -> P j = true) -> spans P lo (lo + n) [(lo, n)].
Proof. intros Hn HP. simpl. split_and!; try done; try lia; intros; lia. Qed.

Lemma spans_shift P P' d rs : forall lo hi,
  (forall j, lo <= j < hi -> P' (d + j) = P j) -> spans P lo hi rs -> spans P' (d + lo) (d + hi) ((fun r => (d + r.1, r.2)) <$> rs).
Proof.
  induction rs as [|[s n] t IH]; intros lo hi HP; simpl.
  - intros [? H]. split; [lia|]. intros j Hj. replace j with (d + (j - d)) by lia. rewrite HP by lia. apply H. lia.
  - intros (? & ? & H1 & H2 & H3). pose proof (spans_le _ _ _ _ H3). split_and!; try lia.
    + intros j Hj. replace j with (d + (j - d)) by lia. rewrite HP by lia. apply H1. lia.
    + intros j Hj. replace j with (d + (j - d)) by lia. rewrite HP by lia. apply H2. lia.
    + replace (d + s + n) with (d + (s + n)) by lia. apply IH; [|done]. intros j Hj. apply HP. lia.
Qed.

Lemma spans_in P rs : forall lo hi r, spans P lo hi rs -> r ∈ rs -> lo <= r.1 /\ 0 < r.2 /\ r.1 + r.2 <= hi.
Proof.
  induction rs as [|[s n] t IH]; intros lo hi r; simpl; [set_solver|]. intros (? & ? & _ & _ & H) Hr. pose proof (spans_le _ _ _ _ H).
  apply elem_of_cons in Hr as [->|Hr]; [simpl; lia|]. apply IH with (r := r) in H; [lia|done].
Qed.

(** ** One slot *)

Lemma slot_ranges_spec x : 0 <= x < 2 ^ 64 -> exists rs, slot_ranges x = Some rs /\ spans (Z.testbit x) 0 64 rs.
Proof.
  intros Hx. unfold slot_ranges.
  apply (whileM_spec (slot_ranges_step x) (fun s => 0 <= s.1 <= 64 /\ spans (Z.testbit x) 0 s.1 s.2) (fun s => 64 - s.1)
    (fun rs => spans (Z.testbit x) 0 64 rs)); [|simpl; split; [lia|]; split; [lia|intros; lia]|simpl; lia].
  intros [b acc] [Hb Hs]. simpl in Hb, Hs. unfold slot_ranges_step.
  destruct (find_next_set_bit_spec x b Hx ltac:(lia)) as [[-> Hn]|(Hr & Ht & Hn)].
  - eexists. split; [done|]. simpl. rewrite <- (app_nil_r acc). eapply spans_app; [done|]. apply spans_none; [lia|done].
  - set (r := find_next_set_bit x b) in *. destruct (Z.leb_spec 0 r); [|lia].
    destruct (while_spec (slot_end_step x) (fun e => r <= e < 64 /\ forall j, r <= j <= e -> Z.testbit x j = true) (fun e => 64 - e)
      (fun e => r < e <= 64 /\ forall j, r <= j < e -> Z.testbit x j = true)) with (n := 64%nat) (s := r) as (e & -> & He & Hbits).
    + intros e (He & Hbits). unfold slot_end_step. fold_consts.
      destruct (Z.ltb_spec (e + 1) 64); simpl.
      2:{ split; [lia|]. intros j Hj. apply Hbits. lia. }
      destruct (Z.eqb_spec (Z.land x (Z.shiftl 1 (e + 1))) 0) as [Ez|Ez]; simpl.
      * split; [lia|]. intros j Hj. apply Hbits. lia.
      * split; [|lia]. split; [lia|]. intros j Hj. destruct (decide (j = e + 1)) as [->|]; [|apply Hbits; lia].
        destruct (Z.testbit x (e + 1)) eqn:Eb; [done|]. exfalso. apply Ez. apply BitmapClaim.land_bit_zero; (done || lia).
    + split; [lia|]. intros j Hj. by replace j with r by lia.
    + change (Z.of_nat 64) with 64. lia.
    + bind. eexists. split; [done|]. simpl. split; [|lia]. split; [lia|]. eapply spans_app; [done|]. simpl. split_and!; try lia; try done.
      intros j Hj. apply Hbits. lia.
Qed.

(** ** Entries of level 1 *)

Section At.
Context (b : Z) (a : AllocatorLevel02) (Ha : chunks_ok b a).
Abbreviation g := (2 ^ b).
Abbreviation x := (level01 a).

(** A run of blocks as [notify] sees it. *)
Definition to_bytes (r : Z * Z) : Z * Z := (r.1 * g, r.2 * g).

(** The calls so far: the runs of the blocks before [p]. *)
Definition seen (p : Z) (calls : list (Z * Z)) : Prop := exists rs, calls = to_bytes <$> rs /\ spans (bit (l0 x)) 0 p rs.

Lemma seen_app p q calls rs : seen p calls -> spans (bit (l0 x)) p q rs -> seen q (calls ++ (to_bytes <$> rs)).
Proof. intros (rs0 & -> & Hs) Hr. exists (rs0 ++ rs). split; [by rewrite fmap_app|]. by eapply spans_app. Qed.

Lemma small_bytes p : 0 <= p <= 64 * vsize (l0 x) -> 0 <= p * g < 2 ^ 64.
Proof. intros Hp. pose proof (c_b _ _ _ _ Ha). pose proof (c_cap _ _ _ _ Ha). assert (0 < g) by lia. nia. Qed.

Lemma foreach_slot i calls :
  0 <= i < vsize (l0 x) -> seen (64 * i) calls ->
  exists y rs, get (l0 x) i = Some y /\ slot_ranges y = Some rs /\ Forall (fun r => 0 <= r.1 /\ 0 < r.2 /\ r.1 + r.2 <= 64) rs /\
    seen (64 * (i + 1)) (calls ++ (to_bytes <$> ((fun r => (64 * i + r.1, r.2)) <$> rs))).
Proof.
  intros Hi Hc. destruct (get_slot (l0 x) i Hi (s_wf0 _ _ _ (c_level _ _ _ _ Ha))) as (y & Ey & _ & Hy & _ & Hb).
  destruct (slot_ranges_spec y Hy) as (rs & Er & Hs). exists y, rs. split; [done|]. split; [done|]. split.
  - apply Forall_forall. intros r Hr. apply (spans_in _ _ _ _ _ Hs Hr).
  - eapply seen_app; [done|]. replace (64 * i) with (64 * i + 0) at 1 by lia. replace (64 * (i + 1)) with (64 * i + 64) by lia.
    eapply spans_shift; [|done]. intros j Hj. symmetry. apply Hb. lia.
Qed.

Lemma foreach_entry_spec e calls :
  0 <= e < 32 * vsize (l1 x) -> seen (512 * e) calls ->
  exists calls', foreach_entry x (ent (l1 x) e) e calls = Some calls' /\ seen (512 * (e + 1)) calls'.
Proof.
  intros He Hc. pose proof (c_level _ _ _ _ Ha) as Hl. pose proof (s_size _ _ _ Hl). pose proof (c_b _ _ _ _ Ha).
  rewrite (s_ent _ _ _ Hl e He) by lia. unfold foreach_entry, summ.
  destruct (allb (l0 x) (512 * e) 512 false) eqn:Ef.
  { apply allb_spec in Ef. eexists. split; [done|]. rewrite <- (app_nil_r calls). eapply (seen_app _ _ _ []); [done|]. apply spans_none; [lia|].
    intros j Hj. apply Ef. lia. }
  destruct (allb (l0 x) (512 * e) 512 true) eqn:Et.
  { apply allb_spec in Et. eexists. split; [done|]. rewrite (c_g1 _ _ _ _ Ha). pose proof (small_bytes (512 * e) ltac:(lia)). rewrite u64_small by lia.
    replace (512 * (e + 1)) with (512 * e + 512) by lia.
    replace [(e * (512 * g), 512 * g)] with (to_bytes <$> [(512 * e, 512)]) by (unfold to_bytes; simpl; do 2 f_equal; lia).
    eapply seen_app; [done|]. by apply spans_one. }
  cbn [Z.eqb L1_ENTRY_PARTIAL L1_ENTRY_FULL L1_ENTRY_FREE Pos.eqb]. fold_consts.
  destruct (for_spec 0 8 (fun s calls => y ← get (l0 x) (e * 512 / 64 + s); rs ← slot_ranges y;
      Some (calls ++ ((fun r : Z * Z => (u64 ((e * 512 / 64 * 64 + s * 64 + r.1) * l0_granularity x), r.2 *64 l0_granularity x)) <$> rs)))
    (fun s calls => seen (64 * (8 * e + s)) calls) calls) as (calls' & E & Hs).
  - intros s c Hs Hsc. replace (e * 512 / 64) with (8 * e) by (Z.div_mod_to_equations; lia).
    destruct (foreach_slot (8 * e + s) c ltac:(lia) Hsc) as (y & rs & -> & Er & Hr & Hsn). rewrite some_bind, Er, some_bind. eexists. split; [done|].
    replace (8 * e + (s + 1)) with (8 * e + s + 1) by lia. rewrite <- list_fmap_compose in Hsn. erewrite Forall_fmap_ext_1; [exact Hsn|].
    eapply Forall_impl; [exact Hr|]. clear Hr. intros r Hr. cbv beta in Hr. unfold to_bytes. simpl. rewrite (c_g _ _ _ _ Ha).
    pose proof (small_bytes (8 * e * 64 + s * 64 + r.1) ltac:(lia)). pose proof (small_bytes r.2 ltac:(lia)). rewrite !u64_small by lia. f_equal. lia.
  - lia.
  - by replace (64 * (8 * e + 0)) with (512 * e) by lia.
  - exists calls'. split; [exact E|]. by replace (512 * (e + 1)) with (64 * (8 * e + 8)) by lia.
Qed.

Lemma foreach_internal_spec : exists calls, foreach_internal a = Some calls /\ seen (64 * vsize (l0 x)) calls.
Proof.
  pose proof (c_level _ _ _ _ Ha) as Hl. pose proof (s_size _ _ _ Hl) as Hsz. unfold foreach_internal.
  destruct (for_spec 0 (vsize (l1 x)) (fun i calls => val ← get (l1 x) i;
    if val =? all_slot_clear then Some calls
    else for_ 0 L1_ENTRIES_PER_SLOT (fun e calls =>
      let ent := Z.land (Z.shiftr val (e * L1_ENTRY_WIDTH)) L1_ENTRY_MASK in
      foreach_entry x ent (i * L1_ENTRIES_PER_SLOT + e) calls) calls) (fun i calls => seen (512 * (32 * i)) calls) []) as (calls & E & Hs).
  - intros i c Hi Hc. destruct (get_slot (l1 x) i Hi (s_wf1 _ _ _ Hl)) as (val & -> & _ & Hv & _ & Hb). rewrite some_bind. fold_consts.
    assert (forall e, 0 <= e < 32 -> Z.land (Z.shiftr val (e * 2)) 3 = ent (l1 x) (32 * i + e)) as Hent.
    { intros e He. rewrite land3. unfold ent. rewrite !Z.shiftr_spec, !Hb by lia.
      by replace (64 * i + (0 + e * 2)) with (2 * (32 * i + e)) by lia; replace (64 * i + (1 + e * 2)) with (2 * (32 * i + e) + 1) by lia. }
    assert (forall e c, 0 <= e < 32 -> seen (512 * (32 * i + e)) c ->
      exists c', foreach_entry x (Z.land (Z.shiftr val (e * 2)) 3) (i * 32 + e) c = Some c' /\ seen (512 * (32 * i + (e + 1))) c') as Hstep.
    { intros e c' He Hc'. rewrite Hent by lia. replace (i * 32 + e) with (32 * i + e) by lia. rewrite Z.add_assoc. apply foreach_entry_spec; [lia|done]. }
    destruct (Z.eqb_spec val 0) as [->|Hne].
    + exists c. split; [done|]. rewrite <- (app_nil_r c). apply (seen_app (512 * (32 * i)) _ c []); [done|]. apply spans_none; [lia|]. intros j Hj.
      specialize (Hent (j / 512 - 32 * i)). pose proof (Z.div_mod j 512 ltac:(lia)). pose proof (Z.mod_pos_bound j 512 ltac:(lia)).
      rewrite Z.shiftr_0_l, Z.land_0_l in Hent. replace (32 * i + (j / 512 - 32 * i)) with (j / 512) in Hent by lia.
      rewrite (s_ent _ _ _ Hl) in Hent by lia. symmetry in Hent. specialize (Hent ltac:(lia)). unfold summ in Hent.
      destruct (allb (l0 x) (512 * (j / 512)) 512 false) eqn:Ef; [|by destruct (allb _ _ _ true)]. apply allb_spec in Ef. apply Ef. lia.
    + destruct (for_spec 0 32 (fun e calls => foreach_entry x (Z.land (Z.shiftr val (e * 2)) 3) (i * 32 + e) calls)
        (fun e c => seen (512 * (32 * i + e)) c) c) as (c' & E & Hc'); [intros; by apply Hstep|lia|by rewrite Z.add_0_r|].
      exists c'. split; [exact E|]. by replace (32 * (i + 1)) with (32 * i + 32) by lia.
  - unfold vsize. lia.
  - exists []. split; [done|]. split; [lia|intros; lia].
  - exists calls. split; [exact E|]. by replace (64 * vsize (l0 x)) with (512 * (32 * vsize (l1 x))) by lia.
Qed.
End At.
End BitmapForeach.
