(* ===== verification/BitmapProps.v ===== *)
(** * What the bitmap allocator guarantees

    Allocation is exact, the three levels agree in every reachable state,
    [foreach] shows the free space, and the statistics of [dump] end exactly on
    slots whose last bit is set. *)
From stdpp Require Import base numbers list gmap.
From Stdlib Require Import ZArith Lia ZifyBool.
From S2P Require Import Prelude IntArith IntervalSet Allocator BitmapAllocator BitmapBits BitmapLevel1 BitmapLevel2 BitmapAllocate BitmapSpec BitmapClaim.
Import Allocator Bitmap BitmapBits BitmapLevel1 BitmapTake BitmapLevel2 BitmapSpec BitmapForeach.

Module BitmapProps.

(** ** A concrete allocator: 1 MiB in blocks of 4 KiB, two ranges free *)

Definition demo : option BitmapAllocator :=
  a ← create 1048576 4096; a ← bitmap_init_add_free 4096 8192 a; bitmap_init_add_free 40960 16384 a.

Lemma demo_free : exists a, demo = Some a /\ ok_at 12 a /\ bitmap_get_free a = 24576.
Proof.
  unfold demo. change (create 1048576 4096) with (create 1048576 (2 ^ 12)). destruct (bitmap_create_ok 1048576 12 ltac:(lia) ltac:(lia)) as (a & -> & Ha & Hf & Hd). rewrite some_bind.
  destruct (bitmap_init_add_free_ok 12 a 4096 8192 Ha) as (a1 & -> & Ha1 & Hd1 & _ & Hf1); [lia|lia|lia|reflexivity|reflexivity|rewrite Hf; apply disjoint_empty_r|]. rewrite some_bind.
  destruct (bitmap_init_add_free_ok 12 a1 40960 16384 Ha1) as (a2 & -> & Ha2 & Hd2 & _ & Hf2); [lia|lia|lia|reflexivity|reflexivity| |].
  { rewrite Hf1, Hf, union_empty_r_L. intros y. rewrite !elem_of_zrange. lia. }
  exists a2. split; [reflexivity|]. split; [exact Ha2|]. unfold bitmap_get_free. rewrite (o_avail _ _ Ha2), Hf2, Hf1, Hf, union_empty_r_L, size_union, Nat2Z.inj_add, !size_zrange; [reflexivity|lia|lia|].
  intros y. rewrite !elem_of_zrange. lia.
Qed.

(** ** Allocation *)

(** C3: a [BitmapAllocator] of up to 2^23 blocks that is asked for whole blocks
    hands out exactly [min want (get_free ())] bytes, in disjoint block-aligned
    extents of the free space whose lengths fit a [uint32_t], keeps its invariant,
    and returns the number of bytes, or [-ENOSPC] only when nothing is free. *)
Theorem bitmap_allocate_exact a want max_alloc_size hint :
  bitmap_ok a -> 0 < want < 2 ^ 63 -> want mod block_size_ a = 0 -> 0 <= max_alloc_size -> hint < 2 ^ 63 ->
  exists exts a',
    bitmap_allocate want (block_size_ a) max_alloc_size hint [] a =
      Some (if bitmap_get_free a =? 0 then - ENOSPC else Z.min want (bitmap_get_free a), exts, a') /\
    bitmap_ok a' /\ extents_disjoint exts /\
    Forall (fun e => 0 < length e < 2 ^ 32 /\ offset e mod block_size_ a = 0 /\ length e mod block_size_ a = 0) exts /\
    extents_bytes exts = Z.min want (bitmap_get_free a) /\
    extents_set exts ## bitmap_free a' /\ extents_set exts ∪ bitmap_free a' = bitmap_free a /\
    bitmap_get_free a' = bitmap_get_free a - Z.min want (bitmap_get_free a).
Proof.
  intros [b Ha] Hw Hwm Hm Hh. rewrite (o_bs _ _ Ha) in *. destruct (at_b b a Ha) as [Hb _].
  destruct (bitmap_allocate_ok b a want max_alloc_size hint Ha Hw Hwm Hm Hh) as (exts & a' & E & Ha' & _ & _ & Hem & Hdis & Hf & Hs & Hle & Hex).
  assert (Forall (fun e => 0 <= length e) exts) as Hpos by (eapply Forall_impl; [exact Hem|]; intros e (? & _); lia).
  pose proof (o_avail _ _ Ha) as G. pose proof (o_avail _ _ Ha') as G'. fold (bitmap_get_free a) in G. fold (bitmap_get_free a') in G'.
  rewrite Hf, size_union, Nat2Z.inj_add, (extents_set_size _ Hdis Hpos), <- G' in G by done.
  assert (0 <= extents_bytes exts) by (rewrite <- (extents_set_size _ Hdis Hpos); lia).
  assert (extents_bytes exts = Z.min want (bitmap_get_free a)) as Eb.
  { destruct Hex as [?|He]; [lia|]. rewrite He, size_empty in G'. lia. }
  exists exts, a'. split_and!; try done; try lia.
  - rewrite E, Eb. destruct (Z.eqb_spec (bitmap_get_free a) 0), (Z.eqb_spec (Z.min want (bitmap_get_free a)) 0); do 3 f_equal; lia.
  - by exists b.
  - pose proof (BitmapAllocate.l2_max_extent_spec b max_alloc_size Hb Hm) as [? _]. eapply Forall_impl; [exact Hem|]. intros e (? & ? & ? & _). split_and!; try done; lia.
Qed.

Lemma bitmap_allocate_exact_witness :
  exists a exts a', demo = Some a /\ bitmap_allocate 1048576 (block_size_ a) 8192 0 [] a = Some (24576, exts, a') /\ extents_bytes exts = 24576.
Proof.
  destruct demo_free as (a & E & Ha & Hf). destruct (bitmap_allocate_exact a 1048576 8192 0) as (exts & a' & Ea & _ & _ & _ & Eb & _).
  - by exists 12.
  - lia.
  - rewrite (o_bs _ _ Ha). reflexivity.
  - lia.
  - lia.
  - exists a, exts, a'. rewrite Hf in Ea, Eb. exact (conj E (conj Ea Eb)).
Defined.

(** A request in units of two blocks that finds only single blocks fails
    with [-ENOSPC], but the blocks it looked at are marked allocated: they are lost,
    and [get_free] still counts them. *)
Theorem bitmap_unit_leaks_space :
  (a ← create 1048576 4096; a ← bitmap_init_add_free 4096 4096 a; a ← bitmap_init_add_free 40960 4096 a;
   before ← bitmap_foreach a;
   '(r, exts, a) ← bitmap_allocate 8192 8192 0 0 [] a;
   after ← bitmap_foreach a;
   Some (before, r, exts, after, bitmap_get_free a)) =
  Some ([(4096, 4096); (40960, 4096)], - ENOSPC, [], [], 8192).
Proof. vm_compute. reflexivity. Qed.

(** ** Reachable states *)

(** The calls of a client that keeps to the interface. *)
Inductive step : BitmapAllocator -> BitmapAllocator -> Prop :=
| step_allocate a want max_alloc_size hint r exts a' :
    0 < want < 2 ^ 63 -> want mod block_size_ a = 0 -> 0 <= max_alloc_size -> hint < 2 ^ 63 ->
    bitmap_allocate want (block_size_ a) max_alloc_size hint [] a = Some (r, exts, a') -> step a a'
| step_release a s a' :
    IntervalSet.wf s -> (forall x, x ∈ IntervalSet.pts s -> 0 <= x < device_size a) ->
    Forall (fun p => p.1 mod block_size_ a = 0 /\ p.2 mod block_size_ a = 0) (IntervalSet.m_ s) -> IntervalSet.pts s ## bitmap_free a ->
    bitmap_release s a = Some a' -> step a a'
| step_add a off len a' :
    0 <= off -> 0 < len -> off + len <= device_size a -> off mod block_size_ a = 0 -> len mod block_size_ a = 0 ->
    zrange off len ## bitmap_free a -> bitmap_init_add_free off len a = Some a' -> step a a'
| step_rm a off len a' :
    0 <= off -> 0 < len -> off + len <= device_size a -> off mod block_size_ a = 0 -> len mod block_size_ a = 0 ->
    zrange off len ⊆ bitmap_free a -> bitmap_init_rm_free off len a = Some a' -> step a a'
| step_left a s n a' :
    0 < s -> s * block_size_ a <= device_size a -> claim_free_to_left (s * block_size_ a) a = Some (n, a') -> step a a'
| step_right a s n a' :
    0 <= s -> s * block_size_ a <= device_size a -> claim_free_to_right (s * block_size_ a) a = Some (n, a') -> step a a'.

Lemma step_ok b a a' : ok_at b a -> step a a' -> ok_at b a'.
Proof.
  intros Ha Hst. pose proof (o_bs _ _ Ha) as Hbs. destruct Hst as [a want m hint r exts a' Hw Hwm Hm Hh E|a s a' Hw Hin Hal Hd E|a off len a' Ho Hl Hd Hom Hlm Hdis E
    |a off len a' Ho Hl Hd Hom Hlm Hdis E|a s n a' Hs Hd E|a s n a' Hs Hd E]; rewrite Hbs in *.
  - destruct (bitmap_allocate_ok b a want m hint Ha Hw Hwm Hm Hh) as (exts' & a1 & E1 & Ha1 & _). congruence.
  - destruct (bitmap_release_ok b a s Ha Hw Hin Hal Hd) as (a1 & E1 & Ha1 & _). congruence.
  - destruct (bitmap_init_add_free_ok b a off len Ha Ho Hl Hd Hom Hlm Hdis) as (a1 & E1 & Ha1 & _). congruence.
  - destruct (bitmap_init_rm_free_ok b a off len Ha Ho Hl Hd Hom Hlm Hdis) as (a1 & E1 & Ha1 & _). congruence.
  - destruct (BitmapClaim.claim_free_to_left_ok b a s Ha Hs Hd) as (r & a1 & E1 & (Ha1 & _) & _). congruence.
  - destruct (BitmapClaim.claim_free_to_right_ok b a s Ha Hs Hd) as (r & a1 & E1 & (Ha1 & _) & _). congruence.
Qed.

Lemma steps_ok b a a' : ok_at b a -> rtc step a a' -> ok_at b a'.
Proof. intros Ha. induction 1 as [|a1 a2 a3 Hst _ IH]; [done|]. apply IH. by eapply step_ok. Qed.

(** C24: the levels agree in a new allocator of at most [2^23] blocks and in every
    state a client reaches from it that asks for and returns whole blocks with the
    block as the unit, returns and adds what is not free, removes what is free, and
    claims the free space before a position other than 0 or behind a position: the entry of level 1 of a set of slots is FULL,
    FREE or PARTIAL as its 512 blocks are all allocated, all free or mixed; the
    bit of level 2 says whether a block below it is free; the counters of entries
    count them, and [get_free] counts the free bytes. *)
Theorem bitmap_levels_agree size b a0 a :
  0 <= b < 32 -> 0 < size <= 2 ^ 23 * 2 ^ b -> create size (2 ^ b) = Some a0 -> rtc step a0 a ->
  let x := level01 (impl_ a) in
  (forall e, 0 <= e < 32 * vsize (l1 x) -> entry (l1 x) e = Some (summ (l0 x) e)) /\
  (forall p, 0 <= p < 64 * vsize (l2 (impl_ a)) -> bit (l2 (impl_ a)) p = true <-> chunk_free (l0 x) p) /\
  partial_l1_count x = count L1_ENTRY_PARTIAL (l1 x) /\ unalloc_l1_count x = count L1_ENTRY_FREE (l1 x) /\
  bitmap_get_free a = Z.of_nat (base.size (bitmap_free a)).
Proof.
  intros Hb Hs E Hsteps. destruct (bitmap_create_ok size b Hb Hs) as (a1 & E1 & Ha1 & _). rewrite E in E1. injection E1 as <-.
  pose proof (steps_ok b a0 a Ha1 Hsteps) as Ha. pose proof (o_chunks _ _ Ha) as Hc. pose proof (c_level _ _ _ _ Hc) as Hl.
  split_and!; try apply Hl.
  - intros e He. rewrite entry_spec by (done || apply Hl). by rewrite (s_ent _ _ _ Hl) by lia.
  - intros p Hp. apply (c_exact _ _ _ _ Hc); lia.
  - apply Ha.
Qed.

Lemma bitmap_levels_agree_witness :
  exists a0 a, create 1048576 4096 = Some a0 /\ bitmap_init_add_free 4096 8192 a0 = Some a /\
    entry (l1 (level01 (impl_ a))) 0 = Some (summ (l0 (level01 (impl_ a))) 0).
Proof.
  destruct (bitmap_create_ok 1048576 12 ltac:(lia) ltac:(lia)) as (a0 & E & Ha & Hf & Hd).
  destruct (bitmap_init_add_free_ok 12 a0 4096 8192 Ha) as (a1 & E1 & Ha1 & _); [lia|lia|lia|reflexivity|reflexivity|rewrite Hf; apply disjoint_empty_r|].
  exists a0, a1. split; [exact E|]. split; [exact E1|].
  destruct (bitmap_levels_agree 1048576 12 a0 a1) as (He & _); [lia|lia|exact E| |].
  - apply rtc_once. apply (step_add a0 4096 8192); try rewrite (o_bs _ _ Ha); try lia; [reflexivity|reflexivity|rewrite Hf; apply disjoint_empty_r|exact E1].
  - apply He. pose proof (o_chunks _ _ Ha1) as Hc. pose proof (o_dev _ _ Ha1). pose proof (s_size _ _ _ (c_level _ _ _ _ Hc)).
    assert (0 <= vsize (l1 (level01 (impl_ a1)))) by (unfold vsize; lia). destruct (decide (vsize (l1 (level01 (impl_ a1))) = 0)) as [E0|]; [rewrite E0 in *; lia|lia].
Defined.

(** ** Enumeration *)

(** Ranges in ascending order that do not overlap. *)
Fixpoint ascending (lo : Z) (l : list (Z * Z)) : Prop :=
  match l with [] => True | (s, n) :: t => lo <= s /\ 0 < n /\ ascending (s + n) t end.

Lemma spans_ascending P b rs : 0 <= b -> forall lo hi, spans P lo hi rs -> ascending (lo * 2 ^ b) (to_bytes b <$> rs).
Proof.
  intros Hb. induction rs as [|[s n] t IH]; intros lo hi; simpl; [done|]. intros (? & ? & _ & _ & H). assert (0 < 2 ^ b) by lia.
  split; [nia|]. split; [nia|]. rewrite <- Z.mul_add_distr_r. by eapply IH.
Qed.

Lemma ascending_covers lo l x : ascending lo l -> IntervalSet.covers l x -> lo <= x.
Proof.
  revert lo. induction l as [|[s n] t IH]; intros lo; simpl; [intros _ H; by apply IntervalSet.covers_nil in H|].
  intros (? & ? & Ht) [?|Hx]%IntervalSet.covers_cons; [lia|]. specialize (IH _ Ht Hx). lia.
Qed.

Lemma ascending_total lo l : ascending lo l -> Z.of_nat (base.size (IntervalSet.points l)) = IntervalSet.total l.
Proof.
  revert lo. induction l as [|[s n] t IH]; intros lo; simpl; [done|]. intros (? & ? & Ht).
  rewrite IntervalSet.points_cons, IntervalSet.total_cons, size_union.
  - rewrite Nat2Z.inj_add, size_zrange by lia. f_equal. by eapply IH.
  - intros y. rewrite elem_of_zrange, IntervalSet.elem_of_points. intros ? Hy. apply (ascending_covers _ _ _ Ht) in Hy. lia.
Qed.

(** The bytes of the runs of a predicate on blocks. *)
Lemma spans_points P b rs x : 0 <= b -> forall lo hi, spans P lo hi rs -> lo <= x / 2 ^ b < hi -> x ∈ IntervalSet.points (to_bytes b <$> rs) <-> P (x / 2 ^ b) = true.
Proof.
  intros Hb. assert (0 < 2 ^ b) as Hg by lia. set (q := x / 2 ^ b). pose proof (Z.div_mod x (2 ^ b) ltac:(lia)) as Ex. pose proof (Z.mod_pos_bound x (2 ^ b) Hg). fold q in Ex.
  induction rs as [|[s n] t IH]; intros lo hi; simpl.
  - rewrite IntervalSet.points_nil. intros [_ Hf] Hq. rewrite Hf by lia. split; [set_solver|done].
  - intros (? & ? & Hno & Hyes & Ht) Hq. unfold to_bytes at 1. cbn [fst snd]. rewrite IntervalSet.points_cons, elem_of_union, elem_of_zrange.
    pose proof (spans_ascending _ b _ Hb _ _ Ht) as Hasc.
    assert (x ∈ IntervalSet.points (to_bytes b <$> t) -> s + n <= q) as Hlow.
    { intros Hx%IntervalSet.elem_of_points. apply (ascending_covers _ _ _ Hasc) in Hx. nia. }
    destruct (decide (q < s)); [rewrite Hno by lia; split; [|done]; intros [?|?%Hlow]; nia|].
    destruct (decide (q < s + n)); [rewrite Hyes by lia; split; [done|]; intros _; left; nia|].
    rewrite <- (IH (s + n) hi Ht ltac:(lia)). split; [intros [?|?]; [nia|done]|by right].
Qed.

(** C29: [foreach] on a [BitmapAllocator] of up to 2^23 blocks, in any state that
    meets its invariant, ends and calls [notify] with ranges in ascending order
    that do not overlap, whose bytes are exactly the free bytes and add up to
    [get_free ()]. *)
Theorem bitmap_foreach_exact a :
  bitmap_ok a ->
  exists calls, bitmap_foreach a = Some calls /\ ascending 0 calls /\
    IntervalSet.points calls = bitmap_free a /\ IntervalSet.total calls = bitmap_get_free a.
Proof.
  intros [b Ha]. destruct (at_b b a Ha) as [Hb Hg]. unfold bitmap_foreach.
  destruct (foreach_internal_spec b (impl_ a) (o_chunks _ _ Ha)) as (calls & -> & rs & -> & Hs). pose proof (spans_ascending _ b _ ltac:(lia) _ _ Hs) as Hasc.
  assert (IntervalSet.points (to_bytes b <$> rs) = bitmap_free a) as Hp.
  { apply set_eq. intros x. rewrite (elem_of_free b a x Ha). pose proof (Z.div_mod x (2 ^ b) ltac:(lia)). pose proof (Z.mod_pos_bound x (2 ^ b) Hg).
    destruct (decide (0 <= x / 2 ^ b < 64 * vsize (slots a))) as [Hr|Hr].
    - rewrite (spans_points _ b rs x ltac:(lia) _ _ Hs Hr). split; [|tauto]. intros ?. split; [nia|done].
    - split.
      + intros Hx. exfalso. apply IntervalSet.elem_of_points in Hx. apply Exists_exists in Hx as (r & Hr1 & Hr2).
        apply list_elem_of_fmap in Hr1 as (r' & -> & Hr'). destruct (spans_in _ _ _ _ _ Hs Hr') as (? & ? & ?). unfold IntervalSet.in_range, to_bytes in Hr2. simpl in Hr2. nia.
      + intros [H0x Hx]. apply bit_true_range in Hx. pose proof (Z.div_pos x (2 ^ b) H0x Hg). lia. }
  exists (to_bytes b <$> rs). split; [done|]. split; [exact Hasc|]. split; [done|].
  rewrite <- (ascending_total _ _ Hasc), Hp. symmetry. apply Ha.
Qed.

Lemma bitmap_foreach_exact_witness :
  exists a calls, demo = Some a /\ bitmap_foreach a = Some calls /\ IntervalSet.total calls = 24576.
Proof.
  destruct demo_free as (a & E & Ha & Hf). destruct (bitmap_foreach_exact a) as (calls & Ec & _ & _ & Et); [by exists 12|].
  exists a, calls. rewrite Hf in Et. exact (conj E (conj Ec Et)).
Defined.

(** ** Statistics *)

(** The [do ... while] loop in which [collect_stats] scans a slot that is
    neither empty nor all set ends exactly when bit 63 of the slot is set;
    otherwise [find_next_set_bit] returns -1 behind the last set bit, the position
    becomes 0 and the scan starts again. *)
Theorem collect_stats_slot_ends_iff slot free_seq bins :
  0 < slot < 2 ^ 64 -> (exists n r, while (stats_step slot) n (0, free_seq, bins) = Some r) <-> Z.testbit slot 63 = true.
Proof.
  intros Hx. split.
  - intros (n & r & E). destruct (Z.testbit slot 63) eqn:E63; [done|exfalso].
    rewrite (while_diverges _ (fun s => 0 <= s.1.1 < 64)) in E; [done| |simpl; lia]. clear n r E.
    intros [[pos fs] bs] Hpos. simpl in Hpos. unfold stats_step. rewrite i64_small by lia. fold_consts.
    assert (-1 <= find_next_set_bit slot pos < 63) as Hn.
    { destruct (find_next_set_bit_spec slot pos ltac:(lia) ltac:(lia)) as [[-> _]|(Hr & Ht & _)]; [lia|].
      destruct (decide (find_next_set_bit slot pos = 63)) as [E|]; [rewrite E in Ht; congruence|lia]. }
    set (pos1 := find_next_set_bit slot pos) in *. destruct (if pos1 =? pos then _ else _) as [fs' bs']. rewrite u64_small by lia.
    destruct (Z.ltb_spec (pos1 + 1) 64); [|lia]. eexists. split; [reflexivity|]. simpl. lia.
  - intros E63. exists 64%nat.
    destruct (while_spec (stats_step slot) (fun s => 0 <= s.1.1 < 64) (fun s => 64 - s.1.1) (fun _ => True)) with (n := 64%nat) (s := (0, free_seq, bins))
      as (r & E & _); [|simpl; lia|simpl; lia|by exists r].
    intros [[pos fs] bs] Hpos. simpl in Hpos. unfold stats_step. rewrite i64_small by lia. fold_consts.
    assert (pos <= find_next_set_bit slot pos < 64) as Hn.
    { destruct (find_next_set_bit_spec slot pos ltac:(lia) ltac:(lia)) as [[_ Hno]|(Hr & _)]; [|lia]. specialize (Hno 63 ltac:(lia)). congruence. }
    set (pos1 := find_next_set_bit slot pos) in *. destruct (if pos1 =? pos then _ else _) as [fs' bs']. rewrite u64_small by lia.
    destruct (Z.ltb_spec (pos1 + 1) 64); [|done]. simpl. lia.
Qed.

Lemma collect_stats_slot_ends_iff_witness : 0 < 2 < 2 ^ 64 /\ ~ (exists n r, while (stats_step 2) n (0, 0, ∅) = Some r).
Proof. split; [lia|]. intros H. apply (collect_stats_slot_ends_iff 2 0 ∅ ltac:(lia)) in H. discriminate H. Defined.
End BitmapProps.
