(* ===== verification/HybridAllocator.v ===== *)
(** * blk/hybrid_allocator.{h,cc}: an AVL allocator that spills to a bitmap

    [HybridAllocator] derives from [AvlAllocator]: when the number of ranges
    reaches the cap, the smallest one moves to the bitmap child, and a range that
    is added takes the free space next to it out of the child first. *)
From stdpp Require Import base numbers list gmap.
From Stdlib Require Import ZArith Lia ZifyBool SpecFloat.
From S2P Require Import Prelude Floats IntArith IntervalSet Allocator AvlAllocator BitmapAllocator.
Import Allocator.

Module Hybrid.

(** [_spillover_range]. *)
#[global] Instance hybrid_spill : Avl.SpillTarget Bitmap.BitmapAllocator :=
  {| Avl.spillover_range s e c := Bitmap.bitmap_init_add_free s (e -64 s) c |}.

Abbreviation HybridAllocator := (Avl.AvlAllocator Bitmap.BitmapAllocator).

Definition create (sizeof_seg device_size block_size max_mem : Z) : option HybridAllocator :=
  c ← Bitmap.create device_size block_size;
  Some (Avl.create sizeof_seg device_size block_size max_mem c).

Definition _add_to_tree (start size : Z) (a : HybridAllocator) : option HybridAllocator :=
  '(head, c) ← Bitmap.claim_free_to_left start (Avl.child a);
  '(tail, c) ← Bitmap.claim_free_to_right (start +64 size) c;
  Avl._add_to_tree (start -64 head) (size +64 (head +64 tail)) (Avl.set_child c a).

Section Ops.
Context (end_deref : Z).

(** The two sources of [allocate]: what they add to [allocated] and [*extents]. *)
Definition from_child (want unit max_alloc_size hint : Z) (a : HybridAllocator) : option (Z * list pextent_t * HybridAllocator) :=
  '(r, exts, c) ← Bitmap.bitmap_allocate want unit max_alloc_size hint [] (Avl.child a);
  Some (if 0 <? r then (u64 r, exts) else (0, []), Avl.set_child c a).

Definition from_tree (want unit max_alloc_size hint : Z) (a : HybridAllocator) : option (Z * list pextent_t * HybridAllocator) :=
  '(r, exts, a) ← Avl._allocate end_deref want unit max_alloc_size hint a;
  Some (if 0 <? r then (u64 r, exts) else (0, []), a).

(** One source, then the other one for what is missing. *)
Definition in_order (fst snd : Z -> HybridAllocator -> option (Z * list pextent_t * HybridAllocator)) (want : Z) (a : HybridAllocator) :
  option (Z * list pextent_t * HybridAllocator) :=
  '(allocated, exts1, a) ← fst want a;
  if allocated <? want then
    '(n, exts2, a) ← snd (want -64 allocated) a;
    Some (allocated +64 n, exts1 ++ exts2, a)
  else Some (allocated, exts1, a).

Definition hybrid_allocate (want unit max_alloc_size hint : Z) (a : HybridAllocator) :
  option (Z * list pextent_t * HybridAllocator) :=
  _ ← cxxlab_assert (IntArith.isp2 64 unit);
  _ ← cxxlab_assert (want mod unit =? 0);
  let max_alloc_size := if max_alloc_size =? 0 then want else max_alloc_size in
  let cap := UINT32_MAX in
  let max_alloc_size :=
    if cap <=? max_alloc_size then IntArith.p2align 64 cap (u64 (Avl.block_size_ a)) else max_alloc_size in
  let child want := from_child want unit max_alloc_size hint in
  let tree want := from_tree want unit max_alloc_size hint in
  let try_bitmap_first := (0 <? Bitmap.bitmap_get_free (Avl.child a)) && (want <? Avl._lowest_size_available a) in
  '(allocated, extents, a) ← if try_bitmap_first then in_order child tree want a else in_order tree child want a;
  Some (if negb (allocated =? 0) then i64 allocated else - ENOSPC, extents, a).
End Ops.

Definition hybrid_release (release_set : IntervalSet.interval_set) (a : HybridAllocator) : option HybridAllocator :=
  Avl._release_ranges _add_to_tree (IntervalSet.m_ release_set) a.

Definition hybrid_get_free (a : HybridAllocator) : Z := Avl.num_free_ a +64 Bitmap.bitmap_get_free (Avl.child a).

Definition hybrid_foreach (a : HybridAllocator) : option (list (Z * Z)) :=
  l ← Bitmap.bitmap_foreach (Avl.child a);
  Some (Avl.avl_foreach a ++ l).

Definition hybrid_init_add_free : Z -> Z -> HybridAllocator -> option HybridAllocator := Avl.init_add_free_with _add_to_tree.

(** [AvlAllocator::_try_remove_from_tree].  [rs] and [next_rs] are iterators: the
    next node is remembered by its value, and it is an error to look at it after
    it was disposed of. *)
Section TryRemove.
Context (cb : Z -> Z -> bool -> HybridAllocator -> option HybridAllocator).

(** The nodes around [rs] in the offset tree. *)
Definition around (rs : Avl.range_seg_t) (t : list Avl.range_seg_t) : option (list Avl.range_seg_t * list Avl.range_seg_t) :=
  match span (fun r => bool_decide (r = rs)) t with
  | (before, _ :: after) => Some (before, after)
  | _ => None
  end.

(** The body of the [do] loop at the node [rs], and its condition. *)
Definition try_remove_step (end_ : Z) (s : Z * Avl.range_seg_t * HybridAllocator) :
  option ((Z * Avl.range_seg_t * HybridAllocator) + (Z * HybridAllocator)) :=
  let '(start, rs, a) := s in
  '(before, after) ← around rs (Avl.range_tree_ a);
  let next_rs := head after in
  '(start, a) ← if start <? Avl.start rs then
                  a ← cb start (Avl.start rs -64 start) false a; Some (Avl.start rs, a)
                else Some (start, a);
  let range_end := Z.min (Avl.end_ rs) end_ in
  a ← Avl._process_range_removal start range_end before rs after a;
  a ← cb start (range_end -64 start) true a;
  let start := range_end in
  match next_rs with
  | None => Some (inr (start, a))
  | Some rs =>
      _ ← around rs (Avl.range_tree_ a);
      if (Avl.start rs <? end_) && (start <? end_) then Some (inl (start, rs, a)) else Some (inr (start, a))
  end.

Definition _try_remove_from_tree (start size : Z) (a : HybridAllocator) : option HybridAllocator :=
  let end_ := start +64 size in
  _ ← cxxlab_assert (negb (size =? 0));
  match (Avl.lower_bound start (Avl.range_tree_ a)).2 with
  | rs :: _ =>
      (* [find]: the first node that does not end before the range, when it starts before its end *)
      if end_ <=? Avl.start rs then cb start size false a
      else
        '(start, a) ← whileM (try_remove_step end_) 64 (start, rs, a);
        if start <? end_ then cb start (end_ -64 start) false a else Some a
  | [] => cb start size false a
  end.
End TryRemove.

Definition hybrid_init_rm_free (offset length : Z) (a : HybridAllocator) : option HybridAllocator :=
  if length =? 0 then Some a
  else
    _ ← cxxlab_assert (offset +64 length <=? u64 (Avl.device_size a));
    _try_remove_from_tree (fun off len found a =>
      if (found : bool) then Some a else c ← Bitmap.bitmap_init_rm_free off len (Avl.child a); Some (Avl.set_child c a)) offset length a.

Definition hybrid_shutdown (a : HybridAllocator) : HybridAllocator :=
  Avl.set_child (Bitmap.bitmap_shutdown (Avl.child a)) (Avl.avl_shutdown a).

#[global] Instance hybrid_allocator (end_deref : Z) : Allocator HybridAllocator := {|
  allocate want unit max_alloc_size hint a := hybrid_allocate end_deref want unit max_alloc_size hint a;
  release := hybrid_release;
  init_add_free := hybrid_init_add_free;
  init_rm_free := hybrid_init_rm_free;
  get_free := hybrid_get_free;
  get_capacity := Avl.device_size;
  get_block_size := Avl.block_size_;
|}.

(** With room for two ranges: the smaller ones spill to the bitmap; a release
    takes its neighbours back. *)
Example hybrid_smoke :
  (a ← create 80 1048576 4096 160;
   a ← hybrid_init_add_free 4096 8192 a;
   a ← hybrid_init_add_free 40960 16384 a;
   a ← hybrid_init_add_free 81920 12288 a;
   let free1 := (Avl.range_tree_ a, Bitmap.bitmap_get_free (Avl.child a)) in
   a ← hybrid_init_add_free 12288 4096 a;
   Some (free1, Avl.range_tree_ a, hybrid_get_free a)) =
  Some ([Avl.Seg 40960 57344; Avl.Seg 81920 94208], 8192, [Avl.Seg 40960 57344; Avl.Seg 81920 94208], 40960).
Proof. vm_compute. reflexivity. Qed.
End Hybrid.
