(* ===== verification/HybridSpec.v ===== *)
(** * The hybrid allocator meets the contract of allocators

    Its free space is that of the AVL trees and of the bitmap, which are
    disjoint.  It may be given everything but the first byte: releasing a range
    that starts at 0 looks at the bit before the first one. *)
From stdpp Require Import base numbers list gmap.
From Stdlib Require Import ZArith Lia ZifyBool.
From S2P Require Import Prelude IntArith IntervalSet Allocator AvlAllocator AvlAllocatorProofs AvlAllocate AvlSpec.
From S2P Require Import BitmapAllocator BitmapBits BitmapLevel1 BitmapAllocate BitmapSpec BitmapClaim HybridAllocator.
Import Allocator Avl AvlProofs.

Module HybridSpec.

Abbreviation bitmap := Bitmap.BitmapAllocator.
Abbreviation hybrid := (AvlAllocator Bitmap.BitmapAllocator).

(** The bitmap accepts what the trees spill. *)
#[global] Program Instance hybrid_spill_spec (b dev : Z) : SpillSpec bitmap (2 ^ b) dev := {|
  c_inv c := BitmapSpec.ok_at b c /\ Bitmap.device_size c = dev;
  c_free := BitmapSpec.bitmap_free;
|}.
Next Obligation.
  intros b dev c s e [Hc Hd] Hs He Hsm Hem Hdis. simpl. pose proof (BitmapSpec.at_dev b c Hc). rewrite u64_small by lia.
  destruct (BitmapSpec.bitmap_init_add_free_ok b c s (e - s) Hc) as (c' & -> & Hc' & Hd' & _ & Hf); try done; try lia.
  { rewrite Zminus_mod, Hem, Hsm. apply Z.mod_0_l. pose proof (BitmapSpec.at_b b c Hc). lia. }
  exists c'. split; [done|]. split; [|done]. split; [done|]. lia.
Qed.

Section At.
Context (b dev : Z).
Abbreviation g := (2 ^ b).

Record hok (a : hybrid) : Prop := {
  h_inv : inv g dev a;
  h_bs : block_size_ a = g;
  h_cap : 0 < range_count_cap_ a;
}.

Definition hfree (a : hybrid) : gset Z := avl_free g dev a.

Lemma hok_child a : hok a -> BitmapSpec.ok_at b (child a) /\ Bitmap.device_size (child a) = dev.
Proof. intros [(_ & _ & _ & _ & Hc & _) _ Hcap]. destruct Hc as [?|Hc]; [lia|done]. Qed.

Lemma hok_dev a : hok a -> 0 < dev <= 2 ^ 60 /\ 0 <= b < 32 /\ 0 < g /\ device_size a = dev.
Proof.
  intros Ha. destruct (hok_child a Ha) as [Hc Hd]. pose proof (BitmapSpec.at_dev b _ Hc). pose proof (BitmapSpec.at_b b _ Hc).
  destruct Ha as [(_ & _ & _ & _ & _ & _ & Hdev) _ _]. rewrite Hd in *. by split_and!; try lia.
Qed.

Lemma hok_geom a a' : hok a -> AvlAllocate.same_geom a a' -> inv g dev a' -> hok a'.
Proof. intros [_ Hb Hc] (Ec & _ & Eb) Hi. constructor; [done|congruence|lia]. Qed.

Lemma tree_free_disjoint a : hok a -> tpoints (range_tree_ a) ## BitmapSpec.bitmap_free (child a).
Proof. by intros [(_ & _ & _ & _ & _ & Hd & _) _ _]. Qed.

(** Another child, with less free space. *)
Lemma hok_set_child a c :
  hok a -> BitmapSpec.ok_at b c -> Bitmap.device_size c = dev -> BitmapSpec.bitmap_free c ⊆ BitmapSpec.bitmap_free (child a) ->
  hok (set_child c a) /\ hfree (set_child c a) = tpoints (range_tree_ a) ∪ BitmapSpec.bitmap_free c.
Proof.
  intros Ha Hc Hd Hsub. pose proof (tree_free_disjoint a Ha). destruct Ha as [(Ht & Hp & Hs & Hz & Hcc & _ & Hdev) Hb Hcap]. split; [|done]. constructor; [|done|done].
  split_and!; try done; [by right|]. simpl. set_solver.
Qed.

(** ** Adding a range *)

Lemma mult_of x : 0 < g -> x mod g = 0 -> x = x / g * g.
Proof. intros Hg Hm. pose proof (Z.div_mod x g ltac:(lia)). lia. Qed.

(** A range with the free space of the child on its sides, and what is left. *)
Lemma claimed_sets (L M R T F : gset Z) :
  T ## F -> L ⊆ F -> R ⊆ F ∖ L -> M ## T ∪ F ->
  (L ∪ M ∪ R) ## T ∪ (F ∖ L) ∖ R /\ (L ∪ M ∪ R) ∪ (T ∪ (F ∖ L) ∖ R) = M ∪ (T ∪ F).
Proof.
  intros HT HL HR HM. split; [set_solver|]. apply set_eq. intros x. rewrite !elem_of_union, !elem_of_difference.
  destruct (decide (x ∈ L)), (decide (x ∈ R)); set_solver.
Qed.

Lemma hybrid_add_to_tree_ok a off len :
  hok a -> 0 < off -> 0 < len -> off + len <= dev -> off mod g = 0 -> len mod g = 0 -> zrange off len ## hfree a ->
  exists a', Hybrid._add_to_tree off len a = Some a' /\ hok a' /\ AvlAllocate.same_geom a a' /\ hfree a' = zrange off len ∪ hfree a.
Proof.
  intros Ha Ho Hl Hd Hom Hlm Hdis. destruct (hok_dev a Ha) as (Hdev & Hb & Hg & Eds). destruct (hok_child a Ha) as [Hc Hcd].
  pose proof (mult_of off Hg Hom) as Eo. pose proof (mult_of len Hg Hlm) as El. set (s := off / g) in *. set (n := len / g) in *.
  assert (0 < s) by nia. assert (0 < n) by nia. unfold Hybrid._add_to_tree. rewrite Eo, El in *. clear Eo El.
  destruct (BitmapClaim.claim_free_to_left_ok b (child a) s Hc ltac:(lia) ltac:(lia)) as (r1 & c1 & -> & (Hc1 & Hd1 & Hb1 & Hr1 & Hsub1 & Hf1) & _).
  rewrite some_bind. cbv iota beta. rewrite (u64_small (s * g + n * g)) by lia. replace (s * g + n * g) with ((s + n) * g) in * by lia.
  destruct (BitmapClaim.claim_free_to_right_ok b c1 (s + n) Hc1 ltac:(lia) ltac:(lia)) as (r2 & c2 & -> & (Hc2 & Hd2 & Hb2 & Hr2 & Hsub2 & Hf2) & Hr60 & _).
  rewrite some_bind. cbv iota beta.
  set (L := zrange (r1 * g) ((s - r1) * g)) in *. set (R := zrange ((s + n) * g) ((r2 - (s + n)) * g)) in *. set (M := zrange (s * g) (n * g)) in *.
  pose proof (tree_free_disjoint a Ha) as Htc. unfold hfree, avl_free in Hdis. simpl in Hdis.
  destruct (hok_set_child a c2 Ha Hc2 ltac:(congruence)) as [Ha2 Hfree2]; [rewrite Hf2, Hf1; set_solver|].
  rewrite Hf1 in Hsub2. destruct (claimed_sets L M R _ _ Htc Hsub1 Hsub2 Hdis) as [Hd' Eall].
  assert (0 <= (s - r1) * g) by nia. assert (0 <= (r2 - (s + n)) * g) by nia. assert (0 <= r1 * g) by nia.
  assert (zrange (r1 * g) ((r2 - r1) * g) = L ∪ M ∪ R) as EU.
  { apply set_eq. intros x. unfold L, M, R. rewrite !elem_of_union, !elem_of_zrange. lia. }
  assert (r2 * g <= dev) as Hr2d.
  { destruct (decide (r2 = s + n)) as [->|]; [lia|]. assert (r2 * g - 1 ∈ R) as Hx by (unfold R; rewrite elem_of_zrange; nia).
    rewrite <- Hf1 in Hsub2. apply Hsub2, (BitmapSpec.free_in_dev b c1 _ Hc1) in Hx. lia. }
  assert (0 < n * g) by lia. rewrite (u64_small ((s - r1) * g + _)), !u64_small by lia. replace (s * g - (s - r1) * g) with (r1 * g) by lia.
  replace (n * g + ((s - r1) * g + (r2 - (s + n)) * g)) with ((r2 - r1) * g) by lia.
  destruct (AvlSpec.add_to_tree_geom g dev ltac:(lia) ltac:(lia) (set_child c2 a) (r1 * g) ((r2 - r1) * g)) as (a' & -> & Hi' & Hgeo & Hf');
    try apply (h_inv _ Ha2); try (apply Z.mod_mul; lia); try lia.
  { rewrite EU. change (avl_free g dev (set_child c2 a)) with (hfree (set_child c2 a)). by rewrite Hfree2, Hf2, Hf1. }
  exists a'. split; [done|]. split; [by eapply hok_geom|]. split; [done|].
  unfold hfree at 1. rewrite Hf', EU. change (avl_free g dev (set_child c2 a)) with (hfree (set_child c2 a)). by rewrite Hfree2, Hf2, Hf1.
Qed.

(** ** Allocation *)

Record htaken (a : hybrid) (exts : list pextent_t) (a' : hybrid) : Prop := {
  t_ok : hok a';
  t_geom : AvlAllocate.same_geom a a';
  t_each : Forall (fun e => 0 < length e < 2 ^ 32 /\ offset e mod g = 0 /\ length e mod g = 0) exts;
  t_disjoint : extents_disjoint exts;
  t_free : hfree a = extents_set exts ∪ hfree a';
  t_gone : extents_set exts ## hfree a';
}.

Lemma htaken_app a v1 a1 v2 a2 : htaken a v1 a1 -> htaken a1 v2 a2 -> htaken a (v1 ++ v2) a2.
Proof.
  intros [_ Hg1 He1 Hd1 Hf1 Hs1] [Hok Hg2 He2 Hd2 Hf2 Hs2]. constructor; rewrite ?extents_set_app; try done.
  - by eapply AvlAllocate.same_geom_trans.
  - by apply Forall_app.
  - apply extents_disjoint_app; [done..|]. set_solver.
  - rewrite Hf1, Hf2. set_solver.
  - set_solver.
Qed.

Lemma htaken_bytes a exts a' : htaken a exts a' -> 0 <= extents_bytes exts /\ extents_bytes exts mod g = 0 /\ (extents_bytes exts = 0 -> exts = []).
Proof.
  intros [Hok _ He _ _ _]. destruct (hok_dev a' Hok) as (_ & _ & Hg & _). induction He as [|e v (Hl & _ & Hm) _ (IH1 & IH2 & _)].
  { done. }
  unfold extents_bytes in *. simpl. split_and!; [lia| |lia]. rewrite Z.add_mod, Hm, IH2 by lia. apply Z.mod_0_l. lia.
Qed.

(** What both sources do with the result. *)
Lemma source_result (exts : list pextent_t) :
  0 <= extents_bytes exts < 2 ^ 63 -> (extents_bytes exts = 0 -> exts = []) ->
  (if 0 <? (if extents_bytes exts =? 0 then - ENOSPC else extents_bytes exts)
   then (u64 (if extents_bytes exts =? 0 then - ENOSPC else extents_bytes exts), exts) else (0, [])) = (extents_bytes exts, exts).
Proof.
  intros Hb He. destruct (Z.eqb_spec (extents_bytes exts) 0) as [E|E].
  - by rewrite (He E).
  - destruct (Z.ltb_spec 0 (extents_bytes exts)); [|lia]. by rewrite u64_small by lia.
Qed.

Lemma from_child_ok a want m hint :
  hok a -> 0 < want < 2 ^ 63 -> want mod g = 0 -> 0 <= m -> hint < 2 ^ 63 ->
  exists exts a', Hybrid.from_child want g m hint a = Some (extents_bytes exts, exts, a') /\ htaken a exts a' /\
    range_tree_ a' = range_tree_ a /\ extents_bytes exts <= want /\ (extents_bytes exts = want \/ BitmapSpec.bitmap_free (child a') = ∅).
Proof.
  intros Ha Hw Hwm Hm Hh. destruct (hok_child a Ha) as [Hc Hcd]. destruct (hok_dev a Ha) as (_ & Hb & _). unfold Hybrid.from_child.
  destruct (BitmapSpec.bitmap_allocate_ok b (child a) want m hint Hc Hw Hwm Hm Hh)
    as (exts & c & -> & Hc' & Hd & _ & Hem & Hdis & Hf & Hsep & Hle & Hex). bind.
  destruct (hok_set_child a c Ha Hc' ltac:(congruence)) as [Ha' Hfree]; [rewrite Hf; set_solver|]. pose proof (tree_free_disjoint a Ha) as Hts.
  pose proof (BitmapAllocate.l2_max_extent_spec b m Hb Hm) as [Hmx _]. assert (htaken a exts (set_child c a)) as Ht.
  { constructor; rewrite ?Hfree; try done.
    - eapply Forall_impl; [exact Hem|]. intros e (? & ? & ? & _). split_and!; try done; lia.
    - unfold hfree, avl_free. simpl. rewrite Hf. set_solver.
    - rewrite Hf in Hts. set_solver. }
  destruct (htaken_bytes _ _ _ Ht) as (? & _ & Hz). exists exts, (set_child c a). rewrite source_result by (done || lia). done.
Qed.

Lemma from_tree_ok end_deref a want m hint :
  hok a -> 0 < want < 2 ^ 63 -> want mod g = 0 -> 0 < m < 2 ^ 32 -> m mod g = 0 ->
  exists exts a', Hybrid.from_tree end_deref want g m hint a = Some (extents_bytes exts, exts, a') /\ htaken a exts a' /\
    extents_bytes exts <= want /\ (extents_bytes exts = want \/ range_tree_ a' = []).
Proof.
  intros Ha Hw Hwm Hm Hmm. destruct (hok_dev a Ha) as (Hdev & Hb & Hg & _). unfold Hybrid.from_tree.
  assert (g <= 2 ^ 31) by (apply Z.pow_le_mono_r; lia).
  destruct (AvlAllocate._allocate_spec g dev b ltac:(lia) ltac:(lia) ltac:(lia) Hg ltac:(done) end_deref a want m hint (h_inv _ Ha) Hw Hwm Hm Hmm)
    as (exts & a' & -> & (Hi & Hgeo & Hall & Hdis & Hf & Hsep) & _ & Hle & Hex). bind.
  assert (htaken a exts a') as Ht.
  { constructor; try done; [by eapply hok_geom|]. eapply Forall_impl; [exact Hall|]. by intros e (? & ? & ? & _). }
  destruct (htaken_bytes _ _ _ Ht) as (? & _ & Hz). exists exts, a'. rewrite source_result by (done || lia). auto.
Qed.

(** The two sources in either order: what was taken, and when nothing is. *)
Lemma in_order_ok fst snd (P Q : hybrid -> Prop) a want lo :
  hok a -> 0 < want < 2 ^ 63 -> want mod g = 0 ->
  (exists exts a', fst want a = Some (extents_bytes exts, exts, a') /\ htaken a exts a' /\ lo <= extents_bytes exts <= want /\
    (extents_bytes exts = want \/ P a')) ->
  (forall a1 w, hok a1 -> 0 < w < 2 ^ 63 -> w mod g = 0 ->
    exists exts a', snd w a1 = Some (extents_bytes exts, exts, a') /\ htaken a1 exts a' /\ extents_bytes exts <= w /\
      (extents_bytes exts = w \/ (P a1 -> Q a'))) ->
  exists exts a', Hybrid.in_order fst snd want a = Some (extents_bytes exts, exts, a') /\ htaken a exts a' /\ lo <= extents_bytes exts <= want /\
    (extents_bytes exts = want \/ Q a').
Proof.
  intros Ha Hw Hwm (v1 & a1 & E1 & Ht1 & Hle1 & Hex1) Hsnd. unfold Hybrid.in_order. rewrite E1. bind.
  destruct (htaken_bytes _ _ _ Ht1) as (Hb1 & Hm1 & _). destruct (hok_dev a Ha) as (_ & _ & Hg & _).
  destruct (Z.ltb_spec (extents_bytes v1) want); [|exists v1, a1; do 3 (split; [done|]); left; lia].
  rewrite u64_small by lia.
  destruct (Hsnd a1 (want - extents_bytes v1) (t_ok _ _ _ Ht1) ltac:(lia)) as (v2 & a2 & -> & Ht2 & Hle2 & Hex2).
  { rewrite Zminus_mod, Hwm, Hm1. apply Z.mod_0_l. lia. }
  bind. destruct (htaken_bytes _ _ _ Ht2) as (Hb2 & _ & _). rewrite u64_small by lia. exists (v1 ++ v2), a2. rewrite extents_bytes_app.
  split; [done|]. split; [by eapply htaken_app|]. split; [lia|]. destruct Hex1 as [?|HP]; [lia|]. destruct Hex2 as [?|HQ]; [left; lia|right; auto].
Qed.

Lemma from_child_some a exts a' :
  hok a -> 0 < Bitmap.bitmap_get_free (child a) -> htaken a exts a' -> range_tree_ a' = range_tree_ a -> BitmapSpec.bitmap_free (child a') = ∅ ->
  0 < extents_bytes exts.
Proof.
  intros Ha Hpos Ht Etree Hc. destruct (htaken_bytes _ _ _ Ht) as (Hb & _ & Hz). destruct (decide (extents_bytes exts = 0)) as [E|]; [exfalso|lia].
  pose proof (t_free _ _ _ Ht) as Hf. rewrite (Hz E), extents_set_nil in Hf. unfold hfree, avl_free in Hf. simpl in Hf. rewrite Etree, Hc in Hf.
  pose proof (tree_free_disjoint a Ha) as Hd. destruct (hok_child a Ha) as [Hok _].
  unfold Bitmap.bitmap_get_free in Hpos. rewrite (BitmapSpec.o_avail _ _ Hok) in Hpos.
  replace (BitmapSpec.bitmap_free (child a)) with (∅ : gset Z) in Hpos by (apply set_eq; set_solver). rewrite size_empty in Hpos. lia.
Qed.

(** Whichever source comes first, nothing is handed out only when nothing is free. *)
Definition served (want : Z) (a : hybrid) (r : option (Z * list pextent_t * hybrid)) : Prop :=
  exists exts a', r = Some (extents_bytes exts, exts, a') /\ htaken a exts a' /\ extents_bytes exts <= want /\
    (extents_bytes exts = 0 -> hfree a = ∅).

Section Order.
Context (end_deref want m hint : Z) (a : hybrid).
Context (Ha : hok a) (Hw : 0 < want < 2 ^ 63) (Hwm : want mod g = 0) (Hm : 0 < m < 2 ^ 32) (Hmm : m mod g = 0) (Hh : hint < 2 ^ 63).
Abbreviation child_ := (fun w => Hybrid.from_child w g m hint).
Abbreviation tree_ := (fun w => Hybrid.from_tree end_deref w g m hint).

Lemma tree_first : served want a (Hybrid.in_order tree_ child_ want a).
Proof.
  destruct (in_order_ok tree_ child_ (fun a' => range_tree_ a' = []) (fun a' => hfree a' = ∅) a want 0 Ha Hw Hwm) as (exts & a' & E & Ht & Hle & Hex).
  - destruct (from_tree_ok end_deref a want m hint Ha Hw Hwm Hm Hmm) as (v & a1 & E & Ht & Hle & Hex). exists v, a1.
    pose proof (htaken_bytes _ _ _ Ht) as (? & _). auto.
  - intros a1 w Ha1 Hw1 Hwm1. destruct (from_child_ok a1 w m hint Ha1 Hw1 Hwm1 ltac:(lia) Hh) as (v & a2 & E & Ht & Etree & Hle & Hex).
    exists v, a2. do 3 (split; [done|]). destruct Hex as [?|Hex]; [by left|right]. intros En. unfold hfree, avl_free. simpl. by rewrite Etree, En, Hex.
  - exists exts, a'. split; [done|]. split; [done|]. split; [lia|]. intros E0. destruct (htaken_bytes _ _ _ Ht) as (_ & _ & Hz).
    destruct Hex as [?|He]; [lia|]. by rewrite (t_free _ _ _ Ht), (Hz E0), He.
Qed.

Lemma child_first : 0 < Bitmap.bitmap_get_free (child a) -> served want a (Hybrid.in_order child_ tree_ want a).
Proof.
  intros Hpos. destruct (in_order_ok child_ tree_ (fun _ => True) (fun _ => True) a want 1 Ha Hw Hwm) as (exts & a' & E & Ht & Hle & _).
  - destruct (from_child_ok a want m hint Ha Hw Hwm ltac:(lia) Hh) as (v & a1 & E & Ht & Etree & Hle & Hex). exists v, a1.
    split; [done|]. split; [done|]. split; [|by right]. destruct Hex as [?|Hex]; [lia|].
    pose proof (from_child_some a v a1 Ha Hpos Ht Etree Hex). lia.
  - intros a1 w Ha1 Hw1 Hwm1. destruct (from_tree_ok end_deref a1 w m hint Ha1 Hw1 Hwm1 Hm Hmm) as (v & a2 & E & Ht & Hle & Hex). exists v, a2. auto.
  - exists exts, a'. do 2 (split; [done|]). split; [lia|]. lia.
Qed.
End Order.

Lemma hybrid_allocate_ok end_deref a want m hint :
  hok a -> 0 < want < 2 ^ 63 -> want mod g = 0 -> 0 <= m -> m mod g = 0 -> hint < 2 ^ 63 ->
  exists exts a', Hybrid.hybrid_allocate end_deref want g m hint a = Some (if extents_bytes exts =? 0 then - ENOSPC else extents_bytes exts, exts, a') /\
    htaken a exts a' /\ extents_bytes exts <= want /\ (extents_bytes exts = 0 -> hfree a = ∅).
Proof.
  intros Ha Hw Hwm Hm Hmm Hh. destruct (hok_dev a Ha) as (Hdev & Hb & Hg & _). unfold Hybrid.hybrid_allocate.
  rewrite IntArith.isp2_pow2 by lia. rewrite Hwm, Z.eqb_refl. simpl cxxlab_assert. rewrite !some_bind, (h_bs _ Ha).
  assert (g <= 2 ^ 31) by (apply Z.pow_le_mono_r; lia). rewrite (u64_small g) by lia. fold (AvlAllocate.max_extent b want m). cbv zeta.
  destruct (AvlAllocate.max_extent_spec g b ltac:(lia) Hg b Hb ltac:(done) want m Hw Hwm Hm Hmm) as [Hmx Hmxm].
  pose proof (tree_first end_deref want _ hint a Ha Hw Hwm Hmx Hmxm Hh) as Htree. pose proof (child_first end_deref want _ hint a Ha Hw Hwm Hmx Hmxm Hh) as Hchild.
  set (mx := AvlAllocate.max_extent b want m) in *. set (r := if _ && _ then _ else _). assert (served want a r) as (exts & a' & Er & Ht & Hle & Hz).
  { subst r. destruct (Z.ltb_spec 0 (Bitmap.bitmap_get_free (child a))) as [Hpos|_]; [destruct (want <? _)|]; auto. }
  rewrite Er. bind. exists exts, a'. split_and!; try done. destruct (Z.eqb_spec (extents_bytes exts) 0); simpl; [done|].
  destruct (htaken_bytes _ _ _ Ht) as (? & _). rewrite i64_small by lia. done.
Qed.

Lemma hybrid_in_device a x : hok a -> x ∈ hfree a -> 0 <= x < dev.
Proof.
  intros Ha Hx. destruct (hok_child a Ha) as [Hc Hcd]. pose proof (h_inv a Ha) as (Ht & _). unfold hfree, avl_free in Hx. apply elem_of_union in Hx as [Hx|Hx].
  - apply elem_of_tpoints in Hx as (r & Hr & Hx). destruct (tree_wf_elem _ r Ht Hr) as (? & ? & _ & _ & ?). lia.
  - pose proof (BitmapSpec.free_in_dev b _ x Hc Hx). lia.
Qed.

(** ** Releasing and adding *)

(** [_add_to_tree], as [_release] and [init_add_free] call it. *)
Lemma hybrid_virtual_add a0 : hok a0 -> forall a off len,
  inv g dev a -> (0 < range_count_cap_ a /\ block_size_ a = g) -> 0 <= off -> 1 <= off -> 0 < len -> off + len <= dev ->
  off mod g = 0 -> len mod g = 0 -> zrange off len ## avl_free g dev a ->
  exists a', Hybrid._add_to_tree off len a = Some a' /\ inv g dev a' /\ (0 < range_count_cap_ a' /\ block_size_ a' = g) /\
    AvlAllocate.same_geom a a' /\ avl_free g dev a' = zrange off len ∪ avl_free g dev a.
Proof.
  intros _ a off len Hi [Hc Hbs] _ Ho Hl Hd Hom Hlm Hdis. assert (hok a) as Ha by by constructor.
  destruct (hybrid_add_to_tree_ok a off len) as (a' & E & [? ? ?] & Hgeo & Hf); try done; [lia|]. by exists a'.
Qed.

Lemma hybrid_release_ok a s :
  hok a -> IntervalSet.wf s -> (forall x, x ∈ IntervalSet.pts s -> 1 <= x < dev) ->
  Forall (fun p => p.1 mod g = 0 /\ p.2 mod g = 0) (IntervalSet.m_ s) -> IntervalSet.pts s ## hfree a ->
  exists a', Hybrid.hybrid_release s a = Some a' /\ hok a' /\ AvlAllocate.same_geom a a' /\ hfree a' = IntervalSet.pts s ∪ hfree a.
Proof.
  intros Ha [Hw _] Hin Hal Hdis. destruct (hok_dev a Ha) as (Hdev & _ & Hg & _).
  destruct (AvlSpec.release_ranges_spec g dev ltac:(lia) ltac:(lia) Hybrid._add_to_tree 1 (fun a => 0 < range_count_cap_ a /\ block_size_ a = g) (hybrid_virtual_add a Ha)
    (IntervalSet.m_ s) a 0) as (a' & E & Hi & [Hc Hb] & Hgeo & Hf); try done; try apply Ha.
  { split; apply Ha. }
  exists a'. split_and!; try done.
Qed.

Lemma hybrid_init_add_free_ok a off len :
  hok a -> 1 <= off -> 0 < len -> off + len <= dev -> off mod g = 0 -> len mod g = 0 -> zrange off len ## hfree a ->
  exists a', Hybrid.hybrid_init_add_free off len a = Some a' /\ hok a' /\ AvlAllocate.same_geom a a' /\ hfree a' = zrange off len ∪ hfree a.
Proof.
  intros Ha Ho Hl Hd Hom Hlm Hdis. destruct (hok_dev a Ha) as (Hdev & _ & Hg & _). unfold Hybrid.hybrid_init_add_free, init_add_free_with.
  destruct (Z.eqb_spec len 0) as [|_]; [lia|].
  destruct (AvlSpec.add_free_spec g dev ltac:(lia) Hybrid._add_to_tree 1 (fun a => 0 < range_count_cap_ a /\ block_size_ a = g) (hybrid_virtual_add a Ha)
    a off len) as (a' & E & Hi & [Hc Hb] & Hgeo & Hf); try done; try apply Ha; try lia.
  { split; apply Ha. }
  exists a'. split_and!; try done.
Qed.

Lemma hybrid_get_free_ok a : hok a -> Hybrid.hybrid_get_free a = Z.of_nat (size (hfree a)).
Proof.
  intros Ha. destruct (hok_child a Ha) as [Hc Hcd]. destruct (hok_dev a Ha) as (Hdev & _ & Hg & _). pose proof (tree_free_disjoint a Ha) as Hd.
  pose proof (h_inv a Ha) as ([Ht Hts] & _ & (_ & _ & Hn) & _). unfold Hybrid.hybrid_get_free, Bitmap.bitmap_get_free, hfree, avl_free. simpl.
  rewrite size_union by done. rewrite (BitmapSpec.o_avail _ _ Hc), Hn. unfold ttotal. rewrite <- (IntervalSet.total_points 0) by done. fold (tpoints (range_tree_ a)).
  assert (hfree a ⊆ zrange 0 dev) as Hsub by (intros x Hx; apply elem_of_zrange; pose proof (hybrid_in_device a x Ha Hx); lia).
  apply subseteq_size in Hsub. unfold hfree, avl_free in Hsub. simpl in Hsub. rewrite size_union in Hsub by done.
  pose proof (size_zrange 0 dev ltac:(lia)). rewrite u64_small by lia. lia.
Qed.
End At.

(** ** The contract *)

Definition hybrid_free (a : hybrid) : gset Z := tpoints (range_tree_ a) ∪ BitmapSpec.bitmap_free (child a).

Definition hybrid_ok (a : hybrid) : Prop := (exists b, hok b (device_size a) a) /\ 0 ∉ hybrid_free a.

#[global] Program Instance hybrid_spec (end_deref : Z) : AllocatorSpec (H := Hybrid.hybrid_allocator end_deref) hybrid := {|
  ok := hybrid_ok; free := hybrid_free; first_usable := 1 |}.
Next Obligation. intros end_deref a [[b Ha] _]. by apply (hybrid_get_free_ok b (device_size a)). Qed.
Next Obligation. intros end_deref a [[b Ha] _]. destruct (hok_dev _ _ _ Ha) as (? & _). simpl. lia. Qed.
Next Obligation. done. Qed.
Next Obligation.
  intros end_deref a x [[b Ha] H0] Hx. assert (0 <= x < device_size a) as Hr by exact (hybrid_in_device b (device_size a) a x Ha Hx).
  destruct (decide (x = 0)) as [->|]; [done|]. simpl. lia.
Qed.
Next Obligation.
  intros end_deref a want [[b Ha] H0] Hw Hm. simpl in *. pose proof (h_bs _ _ _ Ha) as Hbs. rewrite Hbs in *.
  destruct (hybrid_allocate_ok b _ end_deref a want want 0 Ha Hw Hm ltac:(lia) Hm ltac:(lia)) as (exts & a' & E & [Hok (_ & Hd & Hb') He Hdis Hf Hs] & Hle & _).
  eexists _, exts, a'. split; [exact E|]. split.
  { split; [exists b; by rewrite Hd|]. change (hybrid_free a) with (hfree b (device_size a) a) in H0. rewrite Hf in H0. set_solver. }
  split_and!; try done. by rewrite Hb', Hbs.
Qed.
Next Obligation.
  intros end_deref a s [[b Ha] H0] Hw Hin Hal Hdis. simpl in *. rewrite (h_bs _ _ _ Ha) in Hal.
  destruct (hybrid_release_ok b _ a s Ha Hw Hin Hal Hdis) as (a' & E & Hok & (_ & Hd & Hb') & Hf). exists a'. split; [done|].
  change (hybrid_free a' = _) with (hfree b (device_size a) a' = IntervalSet.pts s ∪ hybrid_free a). split_and!; try done. split; [exists b; by rewrite Hd|].
  change (hybrid_free a') with (hfree b (device_size a) a'). rewrite Hf. intros [Hx|Hx]%elem_of_union; [apply Hin in Hx; lia|by apply H0].
Qed.
Next Obligation.
  intros end_deref a off len [[b Ha] H0] Ho Hl Hd Hom Hlm Hdis. simpl in *. rewrite (h_bs _ _ _ Ha) in Hom, Hlm.
  destruct (hybrid_init_add_free_ok b _ a off len Ha Ho Hl Hd Hom Hlm Hdis) as (a' & E & Hok & (_ & Hd' & Hb') & Hf). exists a'. split; [done|].
  change (hybrid_free a' = _) with (hfree b (device_size a) a' = zrange off len ∪ hybrid_free a). split_and!; try done. split; [exists b; by rewrite Hd'|].
  change (hybrid_free a') with (hfree b (device_size a) a'). rewrite Hf. intros [Hx|Hx]%elem_of_union; [apply elem_of_zrange in Hx; lia|by apply H0].
Qed.

(** A new allocator: nothing is free. *)
Lemma hybrid_create_ok sizeof_seg size b max_mem :
  0 <= b < 32 -> 0 < size <= 2 ^ 23 * 2 ^ b -> 0 < sizeof_seg <= max_mem ->
  exists a, Hybrid.create sizeof_seg size (2 ^ b) max_mem = Some a /\ hybrid_ok a /\ hybrid_free a = ∅.
Proof.
  intros Hb Hs Hm. unfold Hybrid.create. destruct (BitmapSpec.bitmap_create_ok size b Hb Hs) as (c & -> & Hc & Hf & Hd). rewrite some_bind.
  assert (0 < max_mem / sizeof_seg) by (apply Z.div_str_pos; lia).
  eexists. split; [done|]. unfold hybrid_ok, hybrid_free. simpl. replace (tpoints []) with (∅ : gset Z) by done. rewrite Hf, union_empty_l_L.
  split; [|done]. split; [|apply not_elem_of_empty]. exists b.
  constructor; [|done|done]. repeat split; simpl; try done; try lia; try (by constructor).
Qed.


(** ** Properties *)

(** A hybrid allocator with room for two ranges: of three free ranges the
    shortest is in the bitmap. *)
Definition demo : option hybrid :=
  a ← Hybrid.create 80 1048576 4096 160;
  a ← Hybrid.hybrid_init_add_free 4096 24576 a;
  Hybrid.hybrid_init_add_free 40960 4096 a.

Lemma hybrid_demo_ok : exists a, demo = Some a /\ hybrid_ok a /\ block_size_ a = 4096 /\ hybrid_free a = zrange 40960 4096 ∪ zrange 4096 24576.
Proof.
  unfold demo. change (Hybrid.create 80 1048576 4096 160) with (Hybrid.create 80 1048576 (2 ^ 12) 160).
  destruct (hybrid_create_ok 80 1048576 12 160) as (a & Ec & Hok & Hf); [lia|lia|lia|]. rewrite Ec, some_bind.
  assert (block_size_ a = 4096 /\ device_size a = 1048576) as [Hb Hd].
  { revert Ec. unfold Hybrid.create. destruct (Bitmap.create _ _) as [c|]; [|discriminate]. rewrite some_bind. intros [= <-]. done. }
  destruct (init_add_free_spec (H := Hybrid.hybrid_allocator 0) (AllocatorSpec := hybrid_spec 0) a 4096 24576 Hok) as (a1 & E1 & Hok1 & Hd1 & Hb1 & Hf1);
    [done|lia|simpl; lia|simpl; by rewrite Hb|simpl; by rewrite Hb|change (zrange 4096 24576 ## hybrid_free a); rewrite Hf; apply disjoint_empty_r|].
  simpl in E1, Hd1, Hb1, Hf1. rewrite E1, some_bind.
  destruct (init_add_free_spec (H := Hybrid.hybrid_allocator 0) (AllocatorSpec := hybrid_spec 0) a1 40960 4096 Hok1) as (a2 & E2 & Hok2 & Hd2 & Hb2 & Hf2);
    [simpl; lia|lia|simpl; lia|simpl; by rewrite Hb1, Hb|simpl; by rewrite Hb1, Hb| |].
  { change (zrange 40960 4096 ## hybrid_free a1). rewrite Hf1, Hf, union_empty_r_L. intros y. rewrite !elem_of_zrange. lia. }
  simpl in E2, Hb2, Hf2. exists a2. rewrite Hf2, Hf1, Hf, union_empty_r_L. split; [exact E2|]. split; [exact Hok2|]. split; [lia|reflexivity].
Qed.

(** C25: a hybrid allocator of at most [2^23] blocks, with room for at least one range
    in its trees and with the first byte of the device in use ([hybrid_ok]: a new one is
    such, and every call keeps it so), that is asked for whole blocks with the block
    as the unit answers [-ENOSPC] exactly when no byte is free, in its trees or in its
    bitmap; otherwise it hands out at
    least one and at most [want] bytes, in disjoint block-aligned extents that
    were free, keeps its invariant, and returns their number. *)
Theorem hybrid_allocate_enospc_iff end_deref a want max_alloc_size hint :
  hybrid_ok a -> 0 < want < 2 ^ 63 -> want mod block_size_ a = 0 -> 0 <= max_alloc_size -> max_alloc_size mod block_size_ a = 0 -> hint < 2 ^ 63 ->
  exists r exts a',
    Hybrid.hybrid_allocate end_deref want (block_size_ a) max_alloc_size hint a = Some (r, exts, a') /\ hybrid_ok a' /\
    (r = - ENOSPC <-> hybrid_free a = ∅) /\ (r <> - ENOSPC -> 0 < r <= want /\ r = extents_bytes exts) /\
    extents_disjoint exts /\
    Forall (fun e => 0 < length e < 2 ^ 32 /\ offset e mod block_size_ a = 0 /\ length e mod block_size_ a = 0) exts /\
    hybrid_free a = extents_set exts ∪ hybrid_free a' /\ extents_set exts ## hybrid_free a' /\
    Hybrid.hybrid_get_free a' = Hybrid.hybrid_get_free a - extents_bytes exts.
Proof.
  intros [[b Ha] H0] Hw Hwm Hm Hmm Hh. rewrite (h_bs _ _ _ Ha) in *.
  destruct (hybrid_allocate_ok b _ end_deref a want max_alloc_size hint Ha Hw Hwm Hm Hmm Hh) as (exts & a' & E & Ht & Hle & Hnone).
  destruct (htaken_bytes _ _ _ _ _ Ht) as (Hpos & _ & Hz). destruct Ht as [Hok (_ & Hd & _) He Hdis Hf Hs].
  change (hfree b (device_size a)) with hybrid_free in *. eexists _, exts, a'. split; [exact E|].
  assert (Forall (fun e => 0 <= length e) exts) as Hlen by (eapply Forall_impl; [exact He|]; intros e (? & _); lia).
  pose proof (extents_set_size exts Hdis Hlen) as Esz. split_and!; try done.
  - split; [exists b; by rewrite Hd|]. rewrite Hf in H0. set_solver.
  - destruct (Z.eqb_spec (extents_bytes exts) 0) as [E0|E0]; [tauto|]. split; [unfold ENOSPC; lia|]. intros Hem. exfalso.
    rewrite Hf in Hem. apply empty_union_L in Hem as [Hem _]. rewrite Hem, size_empty in Esz. lia.
  - destruct (Z.eqb_spec (extents_bytes exts) 0) as [E0|E0]; [done|]. lia.
  - rewrite (hybrid_get_free_ok b _ a Ha), (hybrid_get_free_ok b _ a' Hok). change (hfree b (device_size a)) with hybrid_free.
    rewrite Hf, size_union, Nat2Z.inj_add, Esz by done. lia.
Qed.

Lemma hybrid_allocate_enospc_iff_witness :
  exists a r exts a', demo = Some a /\ Hybrid.hybrid_allocate 0 8192 (block_size_ a) 0 0 a = Some (r, exts, a') /\ 0 < r <= 8192.
Proof.
  destruct hybrid_demo_ok as (a & E & Hok & Hb & Hf).
  destruct (hybrid_allocate_enospc_iff 0 a 8192 0 0 Hok) as (r & exts & a' & Ea & _ & Hno & Hr & _); [lia|rewrite Hb; reflexivity|lia|rewrite Hb; reflexivity|lia|].
  exists a, r, exts, a'. split; [exact E|]. split; [exact Ea|]. apply Hr. rewrite Hno, Hf. intros Hem.
  assert (4096 ∈ zrange 40960 4096 ∪ zrange 4096 24576) as Hx by (rewrite elem_of_union, !elem_of_zrange; lia).
  rewrite Hem in Hx. by apply elem_of_empty in Hx.
Defined.

(** Removing a free range from a hybrid allocator whose trees are full may
    read a node that was disposed of: splitting the range moves the shortest
    range to the bitmap, which can be the one the loop goes on with. *)
Theorem hybrid_rm_reads_disposed_node :
  exists a, demo = Some a /\ hybrid_ok a /\ zrange 12288 4096 ⊆ hybrid_free a /\ Hybrid.hybrid_init_rm_free 12288 4096 a = None.
Proof.
  assert (demo ≫= Hybrid.hybrid_init_rm_free 12288 4096 = None) as E by (vm_compute; reflexivity).
  destruct hybrid_demo_ok as (a & Ed & Hok & _ & Hf). rewrite Ed in E. exists a. split; [done|]. split; [done|]. split; [|exact E].
  rewrite Hf. intros x. rewrite elem_of_union, !elem_of_zrange. lia.
Qed.
End HybridSpec.
