(* ===== verification/BtierTypes.v ===== *)
(** * btier/btier_types.h: the types of the two-tier engine

    Locations on disk, locations of keys, and the packed 64-bit word of extent
    metrics.  [std::atomic] words are plain values here: every operation that
    reads and writes one does so in a single atomic step (a compare-exchange
    loop, or a store under the entry's lock). *)
From stdpp Require Import base numbers list gmap.
From Stdlib Require Import ZArith Lia.
From S2P Require Import Prelude.

Module BtierTypes.

Inductive Tier := FAST | SLOW.
#[global] Instance tier_eq_dec : EqDecision Tier.
Proof. solve_decision. Defined.

(** [static_cast<int>(tier)]. *)
Definition tier_index (t : Tier) : Z := match t with FAST => 0 | SLOW => 1 end.

Record DiskLocation := mk_loc { offset : Z; length : Z; tier : Tier }.
#[global] Instance disk_location_eq_dec : EqDecision DiskLocation.
Proof. solve_decision. Defined.

Definition default_loc : DiskLocation := mk_loc 0 0 FAST.

(** [enum ExtentState : uint32_t]. *)
Definition ACTIVE : Z := 0.
Definition MIGRATING : Z := 1.

Record KeyLocation := mk_kloc { extent_id : Z; koffset : Z; klength : Z }.
#[global] Instance key_location_eq_dec : EqDecision KeyLocation.
Proof. solve_decision. Defined.

Definition default_kloc : KeyLocation := mk_kloc 0 0 0.

Inductive IoOp := READ | WRITE.
#[global] Instance io_op_eq_dec : EqDecision IoOp.
Proof. solve_decision. Defined.

(** [ExtentHeader::MAGIC], [HEADER_SIZE] and the offset of [crc]. *)
Definition HEADER_MAGIC : Z := 0x4254494552535445.
Definition HEADER_SIZE : Z := 4096.
Definition HEADER_CRC_OFFSET : Z := 40.

Module ExtentMetrics.

Definition pack (access write random state gen : Z) : Z :=
  Z.lor (Z.lor (Z.lor (Z.lor (Z.land access 0xFFF)
    (Z.shiftl (Z.land write 0xFFF) 12))
    (Z.shiftl (Z.land random 0x3F) 24))
    (Z.shiftl (Z.land state 0x3) 30))
    (u64 (Z.shiftl (Z.land gen 0xFFFFFFFF) 32)).

Definition access_count (v : Z) : Z := Z.land v 0xFFF.
Definition write_count (v : Z) : Z := Z.land (Z.shiftr v 12) 0xFFF.
Definition randomness (v : Z) : Z := Z.land (Z.shiftr v 24) 0x3F.
Definition state (v : Z) : Z := Z.land (Z.shiftr v 30) 0x3.
Definition generation (v : Z) : Z := Z.shiftr v 32.

Definition is_migrating (v : Z) : bool := state v =? MIGRATING.

(** ** The word as a sum of disjoint fields *)

Lemma land_mask x n : 0 <= n -> Z.land x (2 ^ n - 1) = x mod 2 ^ n.
Proof. intros. replace (2 ^ n - 1) with (Z.ones n) by (rewrite Z.ones_equiv; lia). by apply Z.land_ones. Qed.

Lemma pack_sum a w r s g :
  pack a w r s g =
  a mod 2 ^ 12 + (w mod 2 ^ 12) * 2 ^ 12 + (r mod 2 ^ 6) * 2 ^ 24 + (s mod 2 ^ 2) * 2 ^ 30 +
  (g mod 2 ^ 32) * 2 ^ 32.
Proof.
  unfold pack.
  change 0xFFF with (2 ^ 12 - 1). change 0x3F with (2 ^ 6 - 1). change 0x3 with (2 ^ 2 - 1).
  change 0xFFFFFFFF with (2 ^ 32 - 1). rewrite !land_mask, !Z.shiftl_mul_pow2 by lia.
  pose proof (Z.mod_pos_bound a (2 ^ 12)). pose proof (Z.mod_pos_bound w (2 ^ 12)).
  pose proof (Z.mod_pos_bound r (2 ^ 6)). pose proof (Z.mod_pos_bound s (2 ^ 2)).
  pose proof (Z.mod_pos_bound g (2 ^ 32)).
  rewrite u64_small by lia.
  rewrite (lor_disjoint (a mod 2 ^ 12) _ 12) by lia. rewrite (lor_disjoint _ _ 24) by lia.
  rewrite (lor_disjoint _ _ 30) by lia. rewrite (lor_disjoint _ _ 32) by lia. done.
Qed.

Section Fields.
Context (a w r s g : Z).
Abbreviation v := (pack a w r s g).

#[local] Ltac fields :=
  rewrite pack_sum; pose proof (Z.mod_pos_bound a (2 ^ 12)); pose proof (Z.mod_pos_bound w (2 ^ 12));
  pose proof (Z.mod_pos_bound r (2 ^ 6)); pose proof (Z.mod_pos_bound s (2 ^ 2));
  pose proof (Z.mod_pos_bound g (2 ^ 32)).

Lemma access_pack : access_count v = a mod 2 ^ 12.
Proof.
  unfold access_count. change 0xFFF with (2 ^ 12 - 1). rewrite land_mask by lia. fields.
  symmetry. eapply Z.mod_unique with (q := w mod 2 ^ 12 + r mod 2 ^ 6 * 2 ^ 12 + s mod 2 ^ 2 * 2 ^ 18 + g mod 2 ^ 32 * 2 ^ 20); lia.
Qed.

Lemma write_pack : write_count v = w mod 2 ^ 12.
Proof.
  unfold write_count. change 0xFFF with (2 ^ 12 - 1). rewrite land_mask, Z.shiftr_div_pow2 by lia. fields.
  symmetry. eapply Z.mod_unique with (q := r mod 2 ^ 6 + s mod 2 ^ 2 * 2 ^ 6 + g mod 2 ^ 32 * 2 ^ 8); [lia|].
  symmetry. eapply Z.div_unique with (r := a mod 2 ^ 12); lia.
Qed.

Lemma randomness_pack : randomness v = r mod 2 ^ 6.
Proof.
  unfold randomness. change 0x3F with (2 ^ 6 - 1). rewrite land_mask, Z.shiftr_div_pow2 by lia. fields.
  symmetry. eapply Z.mod_unique with (q := s mod 2 ^ 2 + g mod 2 ^ 32 * 2 ^ 2); [lia|].
  symmetry. eapply Z.div_unique with (r := a mod 2 ^ 12 + w mod 2 ^ 12 * 2 ^ 12); lia.
Qed.

Lemma state_pack : state v = s mod 2 ^ 2.
Proof.
  unfold state. change 0x3 with (2 ^ 2 - 1). rewrite land_mask, Z.shiftr_div_pow2 by lia. fields.
  symmetry. eapply Z.mod_unique with (q := g mod 2 ^ 32); [lia|].
  symmetry. eapply Z.div_unique with (r := a mod 2 ^ 12 + w mod 2 ^ 12 * 2 ^ 12 + r mod 2 ^ 6 * 2 ^ 24); lia.
Qed.

Lemma generation_pack : generation v = g mod 2 ^ 32.
Proof.
  unfold generation. rewrite Z.shiftr_div_pow2 by lia. fields. symmetry.
  eapply Z.div_unique with (r := a mod 2 ^ 12 + w mod 2 ^ 12 * 2 ^ 12 + r mod 2 ^ 6 * 2 ^ 24 + s mod 2 ^ 2 * 2 ^ 30); lia.
Qed.

Lemma pack_range : uint 64 v.
Proof. unfold uint. fields. lia. Qed.
End Fields.

(** Every 64-bit word is the packing of its fields. *)
Lemma pack_fields v : uint 64 v ->
  pack (access_count v) (write_count v) (randomness v) (state v) (generation v) = v.
Proof.
  intros [H0 H1]. rewrite pack_sum. unfold access_count, write_count, randomness, state, generation.
  change 0xFFF with (2 ^ 12 - 1). change 0x3F with (2 ^ 6 - 1). change 0x3 with (2 ^ 2 - 1).
  rewrite !land_mask, !Z.shiftr_div_pow2, !Z.mod_mod by lia.
  rewrite (Z.mod_small (v / 2 ^ 32)) by (split; [apply Z.div_pos|apply Z.div_lt_upper_bound]; lia).
  pose proof (Z.div_mod v (2 ^ 12) ltac:(lia)) as E1.
  pose proof (Z.div_mod (v / 2 ^ 12) (2 ^ 12) ltac:(lia)) as E2.
  pose proof (Z.div_mod (v / 2 ^ 24) (2 ^ 6) ltac:(lia)) as E3.
  pose proof (Z.div_mod (v / 2 ^ 30) (2 ^ 2) ltac:(lia)) as E4.
  rewrite !Z.div_div in E2, E3, E4 by lia.
  change (2 ^ 12 * 2 ^ 12) with (2 ^ 24) in E2. change (2 ^ 24 * 2 ^ 6) with (2 ^ 30) in E3.
  change (2 ^ 30 * 2 ^ 2) with (2 ^ 32) in E4. lia.
Qed.
End ExtentMetrics.

Create Rewrite HintDb metrics.
#[global] Hint Rewrite ExtentMetrics.access_pack ExtentMetrics.write_pack ExtentMetrics.randomness_pack
  ExtentMetrics.state_pack ExtentMetrics.generation_pack : metrics.

Import ExtentMetrics.

(** The metrics word is a faithful record of its five fields: reading a
    field of a packed word gives the value that was packed, cut to the field's
    width; every 64-bit word is the packing of its own fields; and two words
    with the same fields are equal. *)
Theorem metrics_roundtrip (a w r s g v : Z) : uint 64 v ->
  (   access_count (pack a w r s g) = a mod 4096 /\ write_count (pack a w r s g) = w mod 4096 /\
    randomness (pack a w r s g) = r mod 64 /\ state (pack a w r s g) = s mod 4 /\
    generation (pack a w r s g) = g mod 2 ^ 32 /\ uint 64 (pack a w r s g) /\
    pack (access_count v) (write_count v) (randomness v) (state v) (generation v) = v).
Proof.
  intros Hv. autorewrite with metrics. split_and!; try done; [apply ExtentMetrics.pack_range|].
  by apply ExtentMetrics.pack_fields.
Qed.

Lemma metrics_roundtrip_witness :
  (generation (pack 5 7 63 1 (2 ^ 32 + 9)) = 9 /\
    pack (access_count 123456789123456789) (write_count 123456789123456789)
      (randomness 123456789123456789) (state 123456789123456789)
      (generation 123456789123456789) = 123456789123456789).
Proof.
  destruct (metrics_roundtrip 5 7 63 1 (2 ^ 32 + 9) 123456789123456789)
    as (_ & _ & _ & _ & Hg & _ & Hp); [unfold uint; lia|].
  split; [exact Hg|exact Hp].
Defined.
End BtierTypes.
