(* ===== verification/KeyMap.v ===== *)
(** * btier/key_map.cc: where each key lives

    Two hash maps: [map_] from keys to entries, and [reverse_index_] from an
    extent to the set of keys it holds.  Each method runs under the lock of the
    map, so it is one step.  [std::string] keys are byte strings. *)
From stdpp Require Import base numbers list gmap.
From Stdlib Require Import ZArith Lia.
From S2P Require Import Prelude BtierTypes.
Import BtierTypes.

Module KeyMap.

Definition kSequentialThreshold : Z := 64 * 1024.
Definition kMaxSeqAward : Z := 63.

Record KeyEntry := mk_entry { loc : KeyLocation; last_lba : Z; consecutive_sequential : Z }.

Definition default_entry : KeyEntry := mk_entry default_kloc 0 0.

Record KeyMap := mk_keymap {
  map_ : gmap bytes KeyEntry;
  reverse_index_ : gmap Z (gset bytes);
}.

Definition empty_keymap : KeyMap := mk_keymap ∅ ∅.

Definition lookup (m : KeyMap) (key : bytes) : option KeyLocation :=
  loc <$> map_ m !! key.

(** Cleanup of the old extent in [put], [erase] and [batch_update]. *)
Definition reverse_erase (key : bytes) (e : Z) (ri : gmap Z (gset bytes)) : gmap Z (gset bytes) :=
  match ri !! e with
  | None => ri
  | Some s =>
      let s := s ∖ {[key]} in
      if decide (s = ∅) then delete e ri else <[e := s]> ri
  end.

(** [reverse_index_[e].insert(key)]. *)
Definition reverse_insert (key : bytes) (e : Z) (ri : gmap Z (gset bytes)) : gmap Z (gset bytes) :=
  <[e := default ∅ (ri !! e) ∪ {[key]}]> ri.

Definition put (m : KeyMap) (key : bytes) (l : KeyLocation) (lba : Z) : KeyMap :=
  let existing := bool_decide (is_Some (map_ m !! key)) in
  let entry := default default_entry (map_ m !! key) in
  let ri :=
    if existing then
      if negb (extent_id (loc entry) =? extent_id l)
      then reverse_erase key (extent_id (loc entry)) (reverse_index_ m)
      else reverse_index_ m
    else reverse_index_ m in
  let prev_lba := last_lba entry in
  let delta := if prev_lba <? lba then lba -64 prev_lba else prev_lba -64 lba in
  let seq :=
    if delta <=? kSequentialThreshold then
      if consecutive_sequential entry <? kMaxSeqAward
      then consecutive_sequential entry +32 1
      else consecutive_sequential entry
    else 0 in
  mk_keymap (<[key := mk_entry l lba seq]> (map_ m)) (reverse_insert key (extent_id l) ri).

Definition erase (m : KeyMap) (key : bytes) : KeyMap :=
  match map_ m !! key with
  | None => m
  | Some entry =>
      mk_keymap (delete key (map_ m)) (reverse_erase key (extent_id (loc entry)) (reverse_index_ m))
  end.

Definition keys_in_extent (m : KeyMap) (e : Z) : gset bytes :=
  match reverse_index_ m !! e with None => ∅ | Some s => s end.

(** One iteration of the loop of [batch_update]. *)
Definition batch_update_one (m : KeyMap) (u : bytes * KeyLocation) : KeyMap :=
  let '(key, new_loc) := u in
  match map_ m !! key with
  | Some entry =>
      let old_extent := extent_id (loc entry) in
      let ri := if negb (old_extent =? extent_id new_loc)
                then reverse_erase key old_extent (reverse_index_ m) else reverse_index_ m in
      mk_keymap
        (<[key := mk_entry new_loc (last_lba entry) (consecutive_sequential entry)]> (map_ m))
        (reverse_insert key (extent_id new_loc) ri)
  | None =>
      mk_keymap (<[key := mk_entry new_loc 0 0]> (map_ m))
        (reverse_insert key (extent_id new_loc) (reverse_index_ m))
  end.

Definition batch_update (m : KeyMap) (updates : list (bytes * KeyLocation)) : KeyMap :=
  foldl batch_update_one m updates.

Definition get_consecutive_sequential (m : KeyMap) (key : bytes) : Z :=
  match map_ m !! key with None => 0 | Some e => consecutive_sequential e end.

Definition size (m : KeyMap) : nat := base.size (map_ m).

Definition keys_in_extent_count (m : KeyMap) (e : Z) : nat :=
  match reverse_index_ m !! e with None => 0%nat | Some s => base.size s end.

(** ** Invariant *)

(** The reverse index is the inverse of [map_], and holds no empty set. *)
Definition indexed (m : KeyMap) : Prop :=
  (forall e k, k ∈ keys_in_extent m e <-> exists l, lookup m k = Some l /\ extent_id l = e) /\
  (forall e, reverse_index_ m !! e <> Some ∅).

Definition seq_bounded (m : KeyMap) : Prop :=
  forall k e, map_ m !! k = Some e -> 0 <= consecutive_sequential e <= kMaxSeqAward.

Definition inv (m : KeyMap) : Prop := indexed m /\ seq_bounded m.

(** [keys_of ri e] is the set the index [ri] gives for [e]. *)
Definition keys_of (ri : gmap Z (gset bytes)) (e : Z) : gset bytes := default ∅ (ri !! e).

Lemma keys_in_extent_of m e : keys_in_extent m e = keys_of (reverse_index_ m) e.
Proof. unfold keys_in_extent, keys_of. by destruct (_ !! e). Qed.

Lemma keys_of_erase key e ri x :
  keys_of (reverse_erase key e ri) x = if decide (x = e) then keys_of ri x ∖ {[key]} else keys_of ri x.
Proof.
  unfold reverse_erase, keys_of. destruct (ri !! e) as [s|] eqn:E.
  - destruct (decide (s ∖ {[key]} = ∅)) as [Hs|Hs]; destruct (decide (x = e)) as [->|Hx].
    + rewrite lookup_delete_eq, E. simpl. by rewrite Hs.
    + by rewrite lookup_delete_ne.
    + by rewrite lookup_insert_eq, E.
    + by rewrite lookup_insert_ne.
  - destruct (decide (x = e)) as [->|]; [|done]. rewrite E. simpl. set_solver.
Qed.

Lemma keys_of_insert key e ri x :
  keys_of (reverse_insert key e ri) x = if decide (x = e) then keys_of ri x ∪ {[key]} else keys_of ri x.
Proof.
  unfold reverse_insert, keys_of. destruct (decide (x = e)) as [->|Hx];
    [by rewrite lookup_insert_eq|by rewrite lookup_insert_ne].
Qed.

Lemma reverse_erase_nonempty key e ri :
  (forall x, ri !! x <> Some ∅) -> forall x, reverse_erase key e ri !! x <> Some ∅.
Proof.
  intros H x. unfold reverse_erase. destruct (ri !! e) as [s|]; [|apply H].
  destruct (decide (s ∖ {[key]} = ∅)) as [Hs|Hs]; destruct (decide (x = e)) as [->|Hx];
    rewrite ?lookup_delete_eq, ?lookup_insert_eq, ?lookup_delete_ne, ?lookup_insert_ne by done;
    try done; try apply H. by intros [= ?].
Qed.

Lemma reverse_insert_nonempty key e ri :
  (forall x, ri !! x <> Some ∅) -> forall x, reverse_insert key e ri !! x <> Some ∅.
Proof.
  intros H x. unfold reverse_insert. destruct (decide (x = e)) as [->|Hx];
    [rewrite lookup_insert_eq|by rewrite lookup_insert_ne].
  intros [= Hs]. set_solver.
Qed.

(** Moving [key] to [l]: the step that [put] and [batch_update] share. *)
Lemma move_indexed m key l lba seq :
  indexed m ->
  indexed (mk_keymap (<[key := mk_entry l lba seq]> (map_ m))
    (reverse_insert key (extent_id l)
      (match map_ m !! key with
       | Some entry =>
           if negb (extent_id (loc entry) =? extent_id l)
           then reverse_erase key (extent_id (loc entry)) (reverse_index_ m)
           else reverse_index_ m
       | None => reverse_index_ m
       end))).
Proof.
  intros [Hi Hn]. split.
  - intros e k. rewrite keys_in_extent_of. unfold lookup. simpl. rewrite keys_of_insert.
    setoid_rewrite keys_in_extent_of in Hi. pose proof (Hi e k) as Hk.
    unfold lookup in Hk. destruct (decide (k = key)) as [->|Hne].
    + rewrite lookup_insert_eq. simpl.
      destruct (map_ m !! key) as [en|] eqn:E.
      * destruct (Z.eqb_spec (extent_id (loc en)) (extent_id l)) as [Eq|Neq]; simpl;
          rewrite ?keys_of_erase; repeat destruct decide; subst; set_solver.
      * repeat destruct decide; subst; set_solver.
    + rewrite lookup_insert_ne by done. rewrite <- Hk.
      destruct (map_ m !! key) as [en|] eqn:E; [destruct (negb _)|];
        rewrite ?keys_of_erase; repeat destruct decide; subst; set_solver.
  - simpl. apply reverse_insert_nonempty.
    destruct (map_ m !! key) as [en|]; [|done]. destruct (negb _); [|done].
    by apply reverse_erase_nonempty.
Qed.

Lemma put_index m key l lba :
  put m key l lba =
  let entry := default default_entry (map_ m !! key) in
  mk_keymap (map_ (put m key l lba))
    (reverse_insert key (extent_id l)
      (match map_ m !! key with
       | Some entry =>
           if negb (extent_id (loc entry) =? extent_id l)
           then reverse_erase key (extent_id (loc entry)) (reverse_index_ m)
           else reverse_index_ m
       | None => reverse_index_ m
       end)).
Proof. unfold put. simpl. by destruct (map_ m !! key). Qed.

Lemma put_indexed m key l lba : indexed m -> indexed (put m key l lba).
Proof. intros Hi. rewrite put_index. unfold put. simpl. by apply move_indexed. Qed.

Lemma batch_update_one_indexed m u : indexed m -> indexed (batch_update_one m u).
Proof.
  destruct u as [key l]. intros Hi. unfold batch_update_one.
  destruct (map_ m !! key) as [en|] eqn:E.
  - pose proof (move_indexed m key l (last_lba en) (consecutive_sequential en) Hi) as Hm.
    by rewrite E in Hm.
  - pose proof (move_indexed m key l 0 0 Hi) as Hm. by rewrite E in Hm.
Qed.

Lemma erase_indexed m key : indexed m -> indexed (erase m key).
Proof.
  intros Hi. unfold erase. destruct (map_ m !! key) as [en|] eqn:E; [|done].
  destruct Hi as [Hi Hn]. split; [|simpl; by apply reverse_erase_nonempty].
  intros e k. rewrite keys_in_extent_of. unfold lookup. simpl. rewrite keys_of_erase.
  setoid_rewrite keys_in_extent_of in Hi. pose proof (Hi e k) as Hk. unfold lookup in Hk.
  destruct (decide (k = key)) as [->|Hne].
  - rewrite lookup_delete_eq. rewrite E in Hk. simpl in *.
    destruct (decide (e = extent_id (loc en))); subst; set_solver.
  - rewrite lookup_delete_ne by done. rewrite <- Hk. destruct (decide _); set_solver.
Qed.

(** ** Sequences of operations *)

Inductive op :=
| Put (key : bytes) (l : KeyLocation) (lba : Z)
| Erase (key : bytes)
| BatchUpdate (updates : list (bytes * KeyLocation)).

Definition apply (m : KeyMap) (o : op) : KeyMap :=
  match o with
  | Put key l lba => put m key l lba
  | Erase key => erase m key
  | BatchUpdate us => batch_update m us
  end.

(** The abstract state: a finite map from keys to locations. *)
Definition spec_apply (s : gmap bytes KeyLocation) (o : op) : gmap bytes KeyLocation :=
  match o with
  | Put key l _ => <[key := l]> s
  | Erase key => delete key s
  | BatchUpdate us => foldl (fun s u => <[u.1 := u.2]> s) s us
  end.

Definition abs (m : KeyMap) : gmap bytes KeyLocation := loc <$> map_ m.

Lemma lookup_abs m k : lookup m k = abs m !! k.
Proof. unfold lookup, abs. by rewrite lookup_fmap. Qed.

Lemma abs_batch m us : abs (batch_update m us) = foldl (fun s u => <[u.1 := u.2]> s) (abs m) us.
Proof.
  revert m. induction us as [|[k l] us IH]; intros m; [done|].
  unfold batch_update in *. simpl. rewrite IH. f_equal. unfold batch_update_one, abs.
  destruct (map_ m !! k); simpl; by rewrite fmap_insert.
Qed.

Lemma abs_apply m o : abs (apply m o) = spec_apply (abs m) o.
Proof.
  destruct o as [key l lba|key|us]; simpl.
  - unfold put, abs. simpl. by rewrite fmap_insert.
  - unfold erase, abs. destruct (map_ m !! key) as [en|] eqn:E; simpl; [by rewrite fmap_delete|].
    rewrite delete_id; [done|]. by rewrite lookup_fmap, E.
  - apply abs_batch.
Qed.

Lemma put_seq m key l lba : seq_bounded m -> seq_bounded (put m key l lba).
Proof.
  intros Hs k e. unfold put. simpl. destruct (decide (k = key)) as [->|];
    [rewrite lookup_insert_eq|rewrite lookup_insert_ne by done; apply Hs].
  intros [= <-]. simpl. unfold kMaxSeqAward.
  assert (0 <= consecutive_sequential (default default_entry (map_ m !! key)) <= kMaxSeqAward) as Hb.
  { destruct (map_ m !! key) eqn:E; [by eapply Hs|done]. }
  unfold kMaxSeqAward in Hb. repeat case_match; zbool; rewrite ?u32_small by lia; lia.
Qed.

Lemma batch_one_seq m u : seq_bounded m -> seq_bounded (batch_update_one m u).
Proof.
  destruct u as [key l]. intros Hs k e. unfold batch_update_one.
  destruct (map_ m !! key) as [en|] eqn:E; simpl; (destruct (decide (k = key)) as [->|];
    [rewrite lookup_insert_eq|rewrite lookup_insert_ne by done; apply Hs]); intros [= <-]; simpl;
    [by eapply Hs|done].
Qed.

Lemma apply_inv m o : inv m -> inv (apply m o).
Proof.
  intros [Hi Hs]. destruct o as [key l lba|key|us]; simpl.
  - split; [by apply put_indexed|by apply put_seq].
  - split; [by apply erase_indexed|]. unfold erase. intros k e.
    destruct (map_ m !! key); [simpl|apply Hs].
    rewrite lookup_delete_Some. intros [_ ?]. by eapply Hs.
  - unfold batch_update. revert m Hi Hs. induction us as [|u us IH]; intros m Hi Hs; [done|].
    simpl. apply IH; [by apply batch_update_one_indexed|by apply batch_one_seq].
Qed.

Lemma empty_inv : inv empty_keymap.
Proof.
  split; [split|].
  - intros e k. unfold keys_in_extent, lookup. simpl. rewrite !lookup_empty. simpl.
    split; [set_solver|]. by intros (l & ? & _).
  - intros e. simpl. by rewrite lookup_empty.
  - intros k e. simpl. by rewrite lookup_empty.
Qed.

(** C30: the key map refines a finite map from keys to locations, for every
    sequence of [put], [erase] and [batch_update]: lookups and [size] are those
    of the finite map, [keys_in_extent] is exactly the set of keys located in
    the extent (so the count is its cardinality), no empty set stays in the
    index, and the sequential award of a key stays within 0 .. 63. *)
Theorem key_map_refines (ops : list op) :
  let m := foldl apply empty_keymap ops in
  let s := foldl spec_apply ∅ ops in
  (forall k, lookup m k = s !! k) /\ size m = base.size s /\
  (forall e k, k ∈ keys_in_extent m e <-> exists l, s !! k = Some l /\ extent_id l = e) /\
  (forall e, keys_in_extent_count m e = base.size (keys_in_extent m e)) /\
  (forall e, reverse_index_ m !! e <> Some ∅) /\
  (forall k, 0 <= get_consecutive_sequential m k <= 63).
Proof.
  assert (forall m, inv m ->
    inv (foldl apply m ops) /\ abs (foldl apply m ops) = foldl spec_apply (abs m) ops) as Hgen.
  { induction ops as [|o ops IH]; intros m Hm; [done|]. simpl.
    destruct (IH (apply m o)) as [? Ha]; [by apply apply_inv|]. by rewrite Ha, abs_apply. }
  destruct (Hgen empty_keymap empty_inv) as [[[Hi Hn] Hs] Ha].
  assert (abs empty_keymap = ∅) as E0 by apply fmap_empty. rewrite E0 in Ha.
  cbv zeta. set (m := foldl apply empty_keymap ops) in *. rewrite <- Ha. split_and!; try done.
  - apply lookup_abs.
  - unfold size, abs. by rewrite map_size_fmap.
  - intros e k. rewrite Hi. by setoid_rewrite lookup_abs.
  - intros e. unfold keys_in_extent_count, keys_in_extent. by destruct (_ !! e).
  - intros k. unfold get_consecutive_sequential. destruct (map_ m !! k) eqn:E; [by eapply Hs|lia].
Qed.
End KeyMap.
