(* ===== verification/ExtentMap.v ===== *)
(** * btier/extent_map.cc: the extents of the two tiers

    The state of [ExtentMap::Impl]: the entries, the per-tier lists of free
    space, the deferred frees, the set of dirty headers, and the two allocators,
    which are any implementation of the class [Allocator].  The devices that
    headers are written to are passed along.  Each public method is one step:
    the source holds the locks of the data it touches.

    Iteration over [std::unordered_map] is in the order of [map_to_list]; no
    theorem depends on it.  [None] is a failed assertion in an allocator. *)
From stdpp Require Import base numbers list gmap sorting.
From Stdlib Require Import ZArith Lia.
From S2P Require Import Prelude IntArith Crc32 IntervalSet Allocator Device BtierTypes KeyMap.
Import BtierTypes BtierTypes.ExtentMetrics Device.

Module ExtentMap.

Record ExtentEntry := mk_ee {
  raw : Z;
  last_access_time : Z;
  location : DiskLocation;
  used_bytes : Z;
  live_bytes : Z;
  io_refs : Z;
}.

Definition new_entry (l : DiskLocation) : ExtentEntry := mk_ee 0 0 l 0 0 0.
Definition set_raw (r : Z) (e : ExtentEntry) : ExtentEntry :=
  mk_ee r (last_access_time e) (location e) (used_bytes e) (live_bytes e) (io_refs e).
Definition set_used_live (u v : Z) (e : ExtentEntry) : ExtentEntry :=
  mk_ee (raw e) (last_access_time e) (location e) u v (io_refs e).
Definition set_location (l : DiskLocation) (e : ExtentEntry) : ExtentEntry :=
  mk_ee (raw e) (last_access_time e) l (used_bytes e) (live_bytes e) (io_refs e).
Definition set_access_time (t : Z) (e : ExtentEntry) : ExtentEntry :=
  mk_ee (raw e) t (location e) (used_bytes e) (live_bytes e) (io_refs e).
Definition set_io_refs (n : Z) (e : ExtentEntry) : ExtentEntry :=
  mk_ee (raw e) (last_access_time e) (location e) (used_bytes e) (live_bytes e) n.

(** [ExtentFreeEntry::operator<] on pairs (free_bytes, extent_id). *)
Definition fl_lt (x y : Z * Z) : bool :=
  (x.1 <? y.1) || ((x.1 =? y.1) && (x.2 <? y.2)).
Definition fl_le (x y : Z * Z) : Prop := fl_lt y x = false.
#[global] Instance fl_le_dec : RelDecision fl_le.
Proof. intros x y. unfold fl_le. apply _. Defined.

Record DeferredFreeEntry := mk_dfe { dloc : DiskLocation; added_at_seqno : Z }.

Record SnapshotEntry := mk_snap {
  s_extent_id : Z;
  s_location : DiskLocation;
  s_raw_metrics : Z;
  s_last_access_time : Z;
  s_used_bytes : Z;
  s_live_bytes : Z;
}.

Record MigrationHandle := mk_handle { h_extent_id : Z; src_loc : DiskLocation; gen_before : Z }.

(** The devices [devices[2]]. *)
Record Devs (D : Type) := mk_devs { fast_dev : option D; slow_dev : option D }.
Arguments mk_devs {D}.
Arguments fast_dev {D}.
Arguments slow_dev {D}.

Definition dev_of {D} (t : Tier) (ds : Devs D) : option D :=
  match t with FAST => fast_dev ds | SLOW => slow_dev ds end.
Definition set_dev {D} (t : Tier) (d : D) (ds : Devs D) : Devs D :=
  match t with FAST => mk_devs (Some d) (slow_dev ds) | SLOW => mk_devs (fast_dev ds) (Some d) end.

Section Ops.
Context {A D : Type} `{Allocator.Allocator A} `{BlockDevice D}.

Record ExtentMap := mk_em {
  block_size : Z;
  extent_size : Z;
  entries_ : gmap Z ExtentEntry;
  next_extent_id : Z;
  fast_alloc : option A;
  slow_alloc : option A;
  fast_list : gset (Z * Z);
  slow_list : gset (Z * Z);
  deferred_free_ : list DeferredFreeEntry;
  seqno_ : Z;
  dirty_headers_ : gset Z;
}.

Definition create (block_size extent_size : Z) : ExtentMap :=
  mk_em block_size extent_size ∅ 1 None None ∅ ∅ [] 0 ∅.

Definition set_entries (m : gmap Z ExtentEntry) (em : ExtentMap) : ExtentMap :=
  mk_em (block_size em) (extent_size em) m (next_extent_id em) (fast_alloc em) (slow_alloc em)
    (fast_list em) (slow_list em) (deferred_free_ em) (seqno_ em) (dirty_headers_ em).
Definition set_next_id (n : Z) (em : ExtentMap) : ExtentMap :=
  mk_em (block_size em) (extent_size em) (entries_ em) n (fast_alloc em) (slow_alloc em)
    (fast_list em) (slow_list em) (deferred_free_ em) (seqno_ em) (dirty_headers_ em).
Definition set_deferred (l : list DeferredFreeEntry) (n : Z) (em : ExtentMap) : ExtentMap :=
  mk_em (block_size em) (extent_size em) (entries_ em) (next_extent_id em) (fast_alloc em)
    (slow_alloc em) (fast_list em) (slow_list em) l n (dirty_headers_ em).
Definition set_dirty (s : gset Z) (em : ExtentMap) : ExtentMap :=
  mk_em (block_size em) (extent_size em) (entries_ em) (next_extent_id em) (fast_alloc em)
    (slow_alloc em) (fast_list em) (slow_list em) (deferred_free_ em) (seqno_ em) s.

Definition alloc_of (t : Tier) (em : ExtentMap) : option A :=
  match t with FAST => fast_alloc em | SLOW => slow_alloc em end.
Definition free_list (t : Tier) (em : ExtentMap) : gset (Z * Z) :=
  match t with FAST => fast_list em | SLOW => slow_list em end.

(** [add_allocator], and the allocator object after one of its methods ran. *)
Definition add_allocator (t : Tier) (a : A) (em : ExtentMap) : ExtentMap :=
  let '(f, s) := match t with
                 | FAST => (Some a, slow_alloc em) | SLOW => (fast_alloc em, Some a)
                 end in
  mk_em (block_size em) (extent_size em) (entries_ em) (next_extent_id em) f s
    (fast_list em) (slow_list em) (deferred_free_ em) (seqno_ em) (dirty_headers_ em).
Definition set_free_list (t : Tier) (l : gset (Z * Z)) (em : ExtentMap) : ExtentMap :=
  let '(f, s) := match t with FAST => (l, slow_list em) | SLOW => (fast_list em, l) end in
  mk_em (block_size em) (extent_size em) (entries_ em) (next_extent_id em) (fast_alloc em)
    (slow_alloc em) f s (deferred_free_ em) (seqno_ em) (dirty_headers_ em).

Definition add_block_device (t : Tier) (d : D) (ds : Devs D) : Devs D := set_dev t d ds.

(** ** Internal helpers *)

Definition mark_dirty (id : Z) (em : ExtentMap) : ExtentMap :=
  set_dirty ({[id]} ∪ dirty_headers_ em) em.

Definition lookup (id : Z) (em : ExtentMap) : option ExtentEntry := entries_ em !! id.

Definition set_entry (id : Z) (e : ExtentEntry) (em : ExtentMap) : ExtentMap :=
  set_entries (<[id := e]> (entries_ em)) em.

Definition bump_generation (e : ExtentEntry) : ExtentEntry :=
  let old := raw e in
  let new_gen := generation old +64 1 in
  set_raw (pack (access_count old) (write_count old) (randomness old) (state old) new_gen) e.

Definition add_deferred_free (l : DiskLocation) (em : ExtentMap) : ExtentMap :=
  set_deferred (deferred_free_ em ++ [mk_dfe l (seqno_ em)]) (seqno_ em) em.

Definition capacity_of (l : DiskLocation) : Z := length l -32 HEADER_SIZE.

Definition free_bytes_of (e : ExtentEntry) : Z := capacity_of (location e) -32 used_bytes e.

Definition update_free_list (id : Z) (t : Tier) (old_free new_free : Z) (em : ExtentMap) : ExtentMap :=
  set_free_list t ({[(new_free, id)]} ∪ (free_list t em ∖ {[(old_free, id)]})) em.

(** The 4 KiB [ExtentHeader] as it is laid out on disk, up to [crc] and whole. *)
Definition header_prefix (id len used live gen : Z) : bytes :=
  le_bytes 8 HEADER_MAGIC ++ le_bytes 8 id ++ le_bytes 4 len ++ le_bytes 4 used ++
  le_bytes 4 live ++ le_bytes 4 0 ++ le_bytes 8 gen.
Definition header_bytes (id len used live gen : Z) : bytes :=
  let p := header_prefix id len used live gen in
  p ++ le_bytes 4 (Crc32.calc_crc32 p 0) ++ replicate (Z.to_nat (4 * 1013)) 0.

Definition write_extent_header (id : Z) (l : DiskLocation) (ds : Devs D) : Devs D :=
  match dev_of (tier l) ds with
  | None => ds
  | Some d => set_dev (tier l) (dev_write (offset l) (header_bytes id (length l) 0 0 0) false d).2 ds
  end.

(** ** Initialization *)

Definition init_free_space_tier (t : Tier) (em : ExtentMap) : option ExtentMap :=
  match alloc_of t em with
  | None => Some em
  | Some a =>
      a ← Allocator.init_add_free 0 (Allocator.get_capacity a) a;
      Some (add_allocator t a em)
  end.

Definition init_free_space (em : ExtentMap) : option ExtentMap :=
  em ← init_free_space_tier FAST em; init_free_space_tier SLOW em.

(** ** Location and metrics *)

Definition get_location (id : Z) (em : ExtentMap) : option DiskLocation :=
  location <$> lookup id em.

Definition get_raw_metrics (id : Z) (em : ExtentMap) : Z :=
  match lookup id em with None => 0 | Some e => raw e end.

Definition record_io (id : Z) (op : IoOp) (now : Z) (em : ExtentMap) : ExtentMap :=
  match lookup id em with
  | None => em
  | Some e =>
      let e := set_access_time now e in
      let old_word := raw e in
      let new_access := Z.min (access_count old_word +32 1) 4095 in
      let new_write :=
        if decide (op = WRITE) then Z.min (write_count old_word +32 1) 4095
        else write_count old_word in
      set_entry id (set_raw (pack new_access new_write (randomness old_word)
                              (state old_word) (generation old_word)) e) em
  end.

Definition set_randomness (id r : Z) (em : ExtentMap) : ExtentMap :=
  match lookup id em with
  | None => em
  | Some e =>
      let old_word := raw e in
      set_entry id (set_raw (pack (access_count old_word) (write_count old_word)
                              (Z.land r 0x3F) (state old_word) (generation old_word)) e) em
  end.

Definition snapshot_of (p : Z * ExtentEntry) : SnapshotEntry :=
  mk_snap p.1 (location p.2) (raw p.2) (last_access_time p.2) (used_bytes p.2) (live_bytes p.2).

Definition snapshot (em : ExtentMap) : list SnapshotEntry := snapshot_of <$> map_to_list (entries_ em).

Definition extent_randomness (km : KeyMap.KeyMap) (id : Z) : Z :=
  if existsb (fun key => KeyMap.get_consecutive_sequential km key =? 0)
       (elements (KeyMap.keys_in_extent km id))
  then 63 else 0.

Definition refresh_randomness (km : KeyMap.KeyMap) (em : ExtentMap) : ExtentMap :=
  foldl (fun em s => set_randomness (s_extent_id s) (extent_randomness km (s_extent_id s)) em)
    em (snapshot em).

(** ** Packing keys into extents *)

Definition is_active (em : ExtentMap) (id : Z) : bool :=
  match lookup id em with None => false | Some e => state (raw e) =? ACTIVE end.

Definition find_extent_with_space (t : Tier) (needed_bytes : Z) (em : ExtentMap) : Z :=
  let l := merge_sort fl_le (elements (free_list t em)) in
  let from := (span (fun p => negb (fl_lt p (needed_bytes, 0))) l).2 in
  match List.find (fun p => is_active em p.2) from with
  | Some p => p.2
  | None => UINT64_MAX
  end.

Definition append_slot (id size : Z) (em : ExtentMap) : Z * ExtentMap :=
  match lookup id em with
  | None => (UINT32_MAX, em)
  | Some e =>
      if negb (state (raw e) =? ACTIVE) then (UINT32_MAX, em)
      else
        let capacity := capacity_of (location e) in
        if capacity <? used_bytes e +32 size then (UINT32_MAX, em)
        else
          let old_free := capacity -32 used_bytes e in
          let offset := used_bytes e in
          let e := set_used_live (used_bytes e +32 size) (live_bytes e +32 size) e in
          let e := bump_generation e in
          let em := mark_dirty id (set_entry id e em) in
          let new_free := capacity -32 used_bytes e in
          (offset, update_free_list id (tier (location e)) old_free new_free em)
  end.

Definition mark_dead_slot (id len : Z) (em : ExtentMap) : ExtentMap :=
  match lookup id em with
  | None => em
  | Some e =>
      let capacity := capacity_of (location e) in
      let old_free := capacity -32 used_bytes e in
      let live := if len <=? live_bytes e then live_bytes e -32 len else 0 in
      let e := bump_generation (set_used_live (used_bytes e) live e) in
      let em := mark_dirty id (set_entry id e em) in
      let new_free := capacity -32 used_bytes e in
      update_free_list id (tier (location e)) old_free new_free em
  end.

Definition get_live_bytes (id : Z) (em : ExtentMap) : Z :=
  match lookup id em with None => 0 | Some e => live_bytes e end.
Definition get_used_bytes (id : Z) (em : ExtentMap) : Z :=
  match lookup id em with None => 0 | Some e => used_bytes e end.

(** ** Allocation *)

Definition aligned_size (size : Z) (em : ExtentMap) : Z :=
  let a := IntArith.round_up_to 64 size (block_size em) in
  if a =? 0 then block_size em else a.

(** The call of the allocator that [allocate_extent] and [allocate_raw] make:
    the first extent, when the whole size was found. *)
Definition alloc_space (t : Tier) (size : Z) (em : ExtentMap)
  : option (option DiskLocation * ExtentMap) :=
  let sz := aligned_size size em in
  match alloc_of t em with
  | None => Some (None, em)
  | Some a =>
      '(got, extents, a) ← Allocator.allocate sz (block_size em) sz 0 a;
      let em := add_allocator t a em in
      match extents with
      | e :: _ =>
          if got <? i64 sz then Some (None, em)
          else Some (Some (mk_loc (Allocator.offset e) (Allocator.length e) t), em)
      | [] => Some (None, em)
      end
  end.

(** With the retry on the slow tier, which is made only when the fast tier has
    an allocator. *)
Definition alloc_space_retry (t : Tier) (size : Z) (em : ExtentMap)
  : option (option DiskLocation * ExtentMap) :=
  '(r, em') ← alloc_space t size em;
  match r, t, alloc_of t em with
  | None, FAST, Some _ => alloc_space SLOW size em'
  | _, _, _ => Some (r, em')
  end.

Definition allocate_extent (t : Tier) (size : Z) (em : ExtentMap) (ds : Devs D)
  : option (option (Z * DiskLocation) * ExtentMap * Devs D) :=
  '(r, em) ← alloc_space_retry t size em;
  match r with
  | None => Some (None, em, ds)
  | Some l =>
      let id := next_extent_id em in
      let em := set_next_id (id +64 1) em in
      let em := set_entry id (new_entry l) em in
      let em := set_free_list (tier l) ({[(capacity_of l, id)]} ∪ free_list (tier l) em) em in
      Some (Some (id, l), em, write_extent_header id l ds)
  end.

Definition allocate_raw (t : Tier) (size : Z) (em : ExtentMap)
  : option (option DiskLocation * ExtentMap) := alloc_space_retry t size em.

(** ** Migration *)

Definition begin_migration (id : Z) (em : ExtentMap) : option MigrationHandle * ExtentMap :=
  match lookup id em with
  | None => (None, em)
  | Some e =>
      if negb (state (raw e) =? ACTIVE) then (None, em)
      else
        let h := mk_handle id (location e) (generation (raw e)) in
        let new_word := pack (access_count (raw e)) (write_count (raw e)) (randomness (raw e))
                          MIGRATING (gen_before h) in
        (Some h, set_entry id (set_raw new_word e) em)
  end.

Definition commit_migration (h : MigrationHandle) (new_loc : DiskLocation) (em : ExtentMap)
  : bool * ExtentMap :=
  match lookup (h_extent_id h) em with
  | None => (false, em)
  | Some e =>
      if negb (generation (raw e) =? gen_before h) then (false, em)
      else
        let old_loc := location e in
        let e := set_location new_loc e in
        let new_gen := gen_before h +64 1 in
        let new_word := pack (access_count (raw e)) (write_count (raw e)) (randomness (raw e))
                          ACTIVE new_gen in
        let em := set_entry (h_extent_id h) (set_raw new_word e) em in
        (true, mark_dirty (h_extent_id h) (add_deferred_free old_loc em))
  end.

Definition abort_migration (h : MigrationHandle) (em : ExtentMap) : ExtentMap :=
  match lookup (h_extent_id h) em with
  | None => em
  | Some e =>
      if negb (state (raw e) =? MIGRATING) then em
      else
        let new_word := pack (access_count (raw e)) (write_count (raw e)) (randomness (raw e))
                          ACTIVE (generation (raw e)) in
        set_entry (h_extent_id h) (set_raw new_word e) em
  end.

Definition check_migration (h : MigrationHandle) (em : ExtentMap) : bool :=
  match lookup (h_extent_id h) em with
  | None => false
  | Some e => generation (raw e) =? gen_before h
  end.

Definition release_source (l : DiskLocation) (em : ExtentMap) : ExtentMap := add_deferred_free l em.

(** ** Lifecycle *)

Definition free (id : Z) (em : ExtentMap) : ExtentMap :=
  match lookup id em with
  | None => em
  | Some e =>
      let em := set_entries (delete id (entries_ em)) em in
      let old_free := capacity_of (location e) -32 used_bytes e in
      let t := tier (location e) in
      let em := set_free_list t (free_list t em ∖ {[(old_free, id)]}) em in
      add_deferred_free (location e) em
  end.

(** The loop of [process_deferred_free]; returns the entries that stay. *)
Fixpoint deferred_loop (current_seq : Z) (l : list DeferredFreeEntry) (em : ExtentMap)
  : option (list DeferredFreeEntry * ExtentMap) :=
  match l with
  | [] => Some ([], em)
  | d :: t =>
      if 2 <=? current_seq -64 added_at_seqno d then
        em ← match alloc_of (tier (dloc d)) em with
             | None => Some em
             | Some a =>
                 a ← Allocator.release
                       (IntervalSet.insert IntervalSet.empty_set (offset (dloc d)) (length (dloc d))) a;
                 Some (add_allocator (tier (dloc d)) a em)
             end;
        deferred_loop current_seq t em
      else
        '(kept, em) ← deferred_loop current_seq t em;
        Some (d :: kept, em)
  end.

Definition process_deferred_free (em : ExtentMap) : option ExtentMap :=
  let current_seq := seqno_ em in
  '(kept, em') ← deferred_loop current_seq (deferred_free_ em) em;
  Some (set_deferred kept (current_seq +64 1) em').

Definition clear_deferred_free (em : ExtentMap) : ExtentMap := set_deferred [] (seqno_ em) em.

Definition size (em : ExtentMap) : nat := base.size (entries_ em).

Definition io_ref_inc (id : Z) (em : ExtentMap) : ExtentMap :=
  match lookup id em with
  | None => em
  | Some e => set_entry id (set_io_refs (io_refs e +32 1) e) em
  end.
Definition io_ref_dec (id : Z) (em : ExtentMap) : ExtentMap :=
  match lookup id em with
  | None => em
  | Some e => set_entry id (set_io_refs (io_refs e -32 1) e) em
  end.

(** ** Recovery and headers *)

Definition create_entry_from_journal (id : Z) (l : DiskLocation) (em : ExtentMap) : ExtentMap :=
  let em := set_entry id (new_entry l) em in
  let em := if next_extent_id em <=? id then set_next_id (id +64 1) em else em in
  set_free_list (tier l) ({[(capacity_of l, id)]} ∪ free_list (tier l) em) em.

Definition restore_extent_state (id used live : Z) (em : ExtentMap) : ExtentMap :=
  match lookup id em with
  | None => em
  | Some e =>
      let capacity := capacity_of (location e) in
      let old_free := capacity -32 used_bytes e in
      let em := set_entry id (set_used_live used live e) em in
      let new_free := capacity -32 used in
      mark_dirty id (update_free_list id (tier (location e)) old_free new_free em)
  end.

Definition flush_header (em : ExtentMap) (ds : Devs D) (id : Z) : Devs D :=
  match lookup id em with
  | None => ds
  | Some e =>
      match dev_of (tier (location e)) ds with
      | None => ds
      | Some d =>
          let hdr := header_bytes id (length (location e)) (used_bytes e) (live_bytes e)
                       (generation (raw e)) in
          set_dev (tier (location e)) (dev_write (offset (location e)) hdr false d).2 ds
      end
  end.

Definition flush_dirty_headers (em : ExtentMap) (ds : Devs D) : ExtentMap * Devs D :=
  let dirty := merge_sort Z.le (elements (dirty_headers_ em)) in
  (set_dirty ∅ em, foldl (flush_header em) ds dirty).
End Ops.
Arguments ExtentMap : clear implicits.
End ExtentMap.
