(* ===== verification/ExtentSpace.v ===== *)
(** * Space of the extent map

    No two extents overlap on disk: whatever sequence of methods runs, the
    regions of the live extents, of the deferred frees and of the raw space a
    migration holds are pairwise disjoint and disjoint from what the allocators
    consider free.  Proved against the interface [AllocatorSpec]. *)
From stdpp Require Import base numbers list gmap sorting.
From Stdlib Require Import ZArith Lia.
From S2P Require Import Prelude IntArith Crc32 IntervalSet Allocator Device BtierTypes KeyMap ExtentMap.
Import BtierTypes BtierTypes.ExtentMetrics Device ExtentMap.

Module ExtentSpace.
Section Space.
Context {A D : Type} `{Allocator.AllocatorSpec A} `{Hzero : !Allocator.FromZero A} `{BlockDevice D}.
Abbreviation em_t := (ExtentMap A).
Implicit Types (em : em_t) (l : DiskLocation) (raws : list DiskLocation).

Definition ext_of (l : DiskLocation) : Allocator.pextent_t := Allocator.mk_pextent (offset l) (length l).

(** Every region somebody may still use: live extents, deferred frees, and the
    raw space [raws] handed to a migration that has not ended. *)
Definition regions (em : em_t) (raws : list DiskLocation) : list DiskLocation :=
  (location <$> (map_to_list (entries_ em)).*2) ++ (dloc <$> deferred_free_ em) ++ raws.

Definition held (t : Tier) (rs : list DiskLocation) : list Allocator.pextent_t :=
  ext_of <$> filter (fun l => tier l = t) rs.

Definition region_ok (bs cap : Z) (l : DiskLocation) : Prop :=
  0 < length l < 2 ^ 32 /\ offset l mod bs = 0 /\ length l mod bs = 0 /\
  0 <= offset l /\ offset l + length l <= cap.

Definition tier_ok (t : Tier) (em : em_t) (rs : list DiskLocation) : Prop :=
  forall a, alloc_of t em = Some a ->
    Allocator.ok a /\ Allocator.get_block_size a = block_size em /\
    Allocator.extents_disjoint (held t rs) /\
    Allocator.extents_set (held t rs) ## Allocator.free a /\
    Forall (fun l => tier l = t -> region_ok (block_size em) (Allocator.get_capacity a) l) rs.

Definition space_ok (em : em_t) (raws : list DiskLocation) : Prop :=
  0 < block_size em < 2 ^ 32 /\
  (forall id e, entries_ em !! id = Some e -> id < next_extent_id em) /\
  0 <= next_extent_id em /\
  forall t, tier_ok t em (regions em raws).

(** ** Regions up to order *)

Lemma held_perm t rs1 rs2 : rs1 ≡ₚ rs2 -> held t rs1 ≡ₚ held t rs2.
Proof. intros Hp. unfold held. by rewrite Hp. Qed.

Lemma tier_ok_perm t em em' rs1 rs2 :
  rs1 ≡ₚ rs2 -> alloc_of t em' = alloc_of t em -> block_size em' = block_size em ->
  tier_ok t em rs1 -> tier_ok t em' rs2.
Proof.
  intros Hp Ha Hb Ht a Ea. rewrite Ha in Ea. destruct (Ht a Ea) as (? & ? & Hd & Hf & Hall).
  rewrite Hb. pose proof (held_perm t _ _ Hp) as Hh. split_and!; try done.
  - by eapply Allocator.extents_disjoint_perm.
  - by rewrite <- (Allocator.extents_set_perm _ _ Hh).
  - by rewrite <- Hp.
Qed.

(** Operations that only change entries in place keep the invariant. *)
Definition same_space (em em' : em_t) : Prop :=
  location <$> entries_ em' = location <$> entries_ em /\ deferred_free_ em' = deferred_free_ em /\
  fast_alloc em' = fast_alloc em /\ slow_alloc em' = slow_alloc em /\
  block_size em' = block_size em /\ next_extent_id em' = next_extent_id em.

Lemma locations_perm em em' :
  location <$> entries_ em' = location <$> entries_ em ->
  location <$> (map_to_list (entries_ em')).*2 ≡ₚ location <$> (map_to_list (entries_ em)).*2.
Proof.
  intros E. assert (forall m : gmap Z ExtentEntry,
    location <$> (map_to_list m).*2 = (map_to_list (location <$> m)).*2) as Hm.
  { intros m. rewrite map_to_list_fmap. rewrite <- !list_fmap_compose. done. }
  by rewrite !Hm, E.
Qed.

Lemma same_space_ok em em' raws : same_space em em' -> space_ok em raws -> space_ok em' raws.
Proof.
  intros (El & Ed & Ef & Es & Eb & En) (Hb & Hid & Hn & Ht). split; [lia|].
  split; [|split].
  - intros id e He. rewrite En.
    assert (is_Some (entries_ em !! id)) as [e' He'].
    { apply (f_equal (base.lookup id)) in El. rewrite !lookup_fmap, He in El. simpl in El.
      destruct (entries_ em !! id); [done|]. by simplify_eq. }
    by eapply Hid.
  - by rewrite En.
  - intros t. eapply tier_ok_perm; [|by destruct t|done|apply Ht].
    unfold regions. rewrite Ed. apply Permutation_app_tail. symmetry. by apply locations_perm.
Qed.

Lemma same_space_refl em : same_space em em.
Proof. done. Qed.
Lemma same_space_trans em1 em2 em3 : same_space em1 em2 -> same_space em2 em3 -> same_space em1 em3.
Proof. unfold same_space. naive_solver congruence. Qed.

Lemma same_space_set_entry em id e e' :
  entries_ em !! id = Some e -> location e' = location e -> same_space em (set_entry id e' em).
Proof.
  intros He El. split_and!; try done. simpl. rewrite fmap_insert, El.
  apply insert_id. by rewrite lookup_fmap, He.
Qed.

Lemma same_space_free_list t fl em : same_space em (set_free_list t fl em).
Proof. unfold set_free_list. by destruct t. Qed.
Lemma same_space_dirty s em : same_space em (set_dirty s em).
Proof. done. Qed.

Lemma append_slot_space id size em : same_space em (append_slot id size em).2.
Proof.
  unfold append_slot, ExtentMap.lookup. destruct (entries_ em !! id) as [e|] eqn:E; [|done].
  case_match; [done|]. case_match; [done|]. simpl. unfold update_free_list.
  eapply same_space_trans; [|apply same_space_free_list].
  eapply same_space_trans; [|apply same_space_dirty].
  by eapply same_space_set_entry.
Qed.

Lemma mark_dead_slot_space id len em : same_space em (mark_dead_slot id len em).
Proof.
  unfold mark_dead_slot, ExtentMap.lookup. destruct (entries_ em !! id) as [e|] eqn:E; [|done].
  eapply same_space_trans; [|apply same_space_free_list].
  eapply same_space_trans; [|apply same_space_dirty].
  by eapply same_space_set_entry.
Qed.

Lemma restore_extent_state_space id u v em : same_space em (restore_extent_state id u v em).
Proof.
  unfold restore_extent_state, ExtentMap.lookup. destruct (entries_ em !! id) as [e|] eqn:E; [|done].
  eapply same_space_trans; [|apply same_space_dirty].
  eapply same_space_trans; [|apply same_space_free_list].
  by eapply same_space_set_entry.
Qed.

Lemma record_io_space id op now em : same_space em (record_io id op now em).
Proof.
  unfold record_io, ExtentMap.lookup. destruct (entries_ em !! id) as [e|] eqn:E; [|done].
  by eapply same_space_set_entry.
Qed.
Lemma set_randomness_space id r em : same_space em (set_randomness id r em).
Proof.
  unfold set_randomness, ExtentMap.lookup. destruct (entries_ em !! id) as [e|] eqn:E; [|done].
  by eapply same_space_set_entry.
Qed.
Lemma refresh_randomness_space km em : same_space em (refresh_randomness km em).
Proof.
  unfold refresh_randomness. generalize (snapshot em). intros ss. revert em.
  induction ss as [|s ss IH]; intros em; [done|]. simpl.
  eapply same_space_trans; [apply set_randomness_space|apply IH].
Qed.
Lemma io_ref_inc_space id em : same_space em (io_ref_inc id em).
Proof.
  unfold io_ref_inc, ExtentMap.lookup. destruct (entries_ em !! id) as [e|] eqn:E; [|done].
  by eapply same_space_set_entry.
Qed.
Lemma io_ref_dec_space id em : same_space em (io_ref_dec id em).
Proof.
  unfold io_ref_dec, ExtentMap.lookup. destruct (entries_ em !! id) as [e|] eqn:E; [|done].
  by eapply same_space_set_entry.
Qed.
Lemma begin_migration_space id em : same_space em (begin_migration id em).2.
Proof.
  unfold begin_migration, ExtentMap.lookup. destruct (entries_ em !! id) as [e|] eqn:E; [|done].
  case_match; [done|]. by eapply same_space_set_entry.
Qed.
Lemma abort_migration_space h em : same_space em (abort_migration h em).
Proof.
  unfold abort_migration, ExtentMap.lookup. destruct (entries_ em !! h_extent_id h) as [e|] eqn:E; [|done].
  case_match; [done|]. by eapply same_space_set_entry.
Qed.

(** ** Allocation *)

Lemma aligned_size_spec size em :
  0 < block_size em < 2 ^ 32 -> 0 <= size -> size + block_size em < 2 ^ 63 ->
  0 < aligned_size size em < 2 ^ 63 /\ size <= aligned_size size em /\
  aligned_size size em mod block_size em = 0.
Proof.
  intros Hb Hs Ho. unfold aligned_size.
  rewrite IntArith.round_up_to_spec by lia.
  pose proof (IntArith.ceil_mul_bounds size (block_size em) ltac:(lia)).
  destruct (Z.eqb_spec (block_size em * ((size + block_size em - 1) / block_size em)) 0) as [E|E].
  - rewrite Z.mod_same by lia. lia.
  - rewrite Z.mul_comm, Z.mod_mul by lia. lia.
Qed.

Lemma held_cons t l rs : held t (l :: rs) = (if decide (tier l = t) then [ext_of l] else []) ++ held t rs.
Proof. unfold held. rewrite filter_cons. by destruct (decide (tier l = t)). Qed.

(** What an allocation does not change. *)
Definition same_entries (em em' : em_t) : Prop :=
  entries_ em' = entries_ em /\ deferred_free_ em' = deferred_free_ em /\
  block_size em' = block_size em /\ next_extent_id em' = next_extent_id em /\
  fast_list em' = fast_list em /\ slow_list em' = slow_list em /\ seqno_ em' = seqno_ em /\
  dirty_headers_ em' = dirty_headers_ em /\ extent_size em' = extent_size em.

Lemma add_allocator_entries t a em : same_entries em (add_allocator t a em).
Proof. unfold add_allocator. by destruct t. Qed.
Lemma alloc_of_add t a em : alloc_of t (add_allocator t a em) = Some a.
Proof. by destruct t. Qed.
Lemma alloc_of_add_ne t t' a em : t <> t' -> alloc_of t' (add_allocator t a em) = alloc_of t' em.
Proof. by destruct t, t'. Qed.
Lemma regions_entries em em' raws : same_entries em em' -> regions em' raws = regions em raws.
Proof. intros (E1 & E2 & _). unfold regions. by rewrite E1, E2. Qed.

(** Replacing one allocator by a later state of it. *)
Lemma space_ok_alloc t a a' em raws raws' :
  space_ok em raws -> alloc_of t em = Some a ->
  (forall t', t' <> t -> tier_ok t' em (regions em raws')) ->
  tier_ok t (add_allocator t a' em) (regions em raws') ->
  space_ok (add_allocator t a' em) raws'.
Proof.
  intros (Hb & Hid & Hn & _) Ha Hother Ht.
  destruct (add_allocator_entries t a' em) as (E1 & E2 & E3 & E4 & _).
  split; [by rewrite E3|]. split; [by rewrite E1, E4|]. split; [by rewrite E4|].
  intros t'. rewrite (regions_entries _ _ _ (add_allocator_entries t a' em)).
  destruct (decide (t' = t)) as [->|Hne]; [done|].
  eapply tier_ok_perm; [done| |done|by apply Hother]. by apply alloc_of_add_ne.
Qed.

Lemma tier_ok_cons_other t l em rs : tier l <> t -> tier_ok t em rs -> tier_ok t em (l :: rs).
Proof.
  intros Hne Ht a Ha. destruct (Ht a Ha) as (? & ? & ? & ? & ?).
  rewrite held_cons, decide_False by done. split_and!; try done. by constructor.
Qed.

Lemma regions_cons em l raws : regions em (l :: raws) ≡ₚ l :: regions em raws.
Proof. unfold regions. by rewrite !app_assoc, Permutation_middle. Qed.

Lemma extent_range_sub e v : e ∈ v -> Allocator.extent_range e ⊆ Allocator.extents_set v.
Proof.
  intros He. apply list_elem_of_split in He as (v1 & v2 & ->).
  rewrite Allocator.extents_set_app, Allocator.extents_set_cons. set_solver.
Qed.

Lemma held_in_device t em rs a x :
  tier_ok t em rs -> alloc_of t em = Some a ->
  x ∈ Allocator.extents_set (held t rs) -> 0 <= x < Allocator.get_capacity a.
Proof.
  intros Ht Ha. destruct (Ht a Ha) as (_ & _ & _ & _ & Hall). clear Ht. unfold held.
  induction Hall as [|l rs Hl Hall IH]; [change (x ∈ (∅ : gset Z) -> 0 <= x < Allocator.get_capacity a); set_solver|]. rewrite filter_cons.
  destruct (decide (tier l = t)) as [E|]; [|done]. rewrite fmap_cons, Allocator.extents_set_cons.
  rewrite elem_of_union. intros [Hx|Hx]; [|by apply IH].
  destruct (Hl E) as (? & _ & _ & ? & ?). unfold Allocator.extent_range in Hx. simpl in Hx.
  rewrite elem_of_zrange in Hx. lia.
Qed.

(** The allocators keep their devices. *)
Definition same_caps (em em' : em_t) : Prop :=
  forall t, Allocator.get_capacity <$> alloc_of t em' = Allocator.get_capacity <$> alloc_of t em.

Lemma same_caps_refl em : same_caps em em.
Proof. done. Qed.
Lemma same_caps_trans em1 em2 em3 : same_caps em1 em2 -> same_caps em2 em3 -> same_caps em1 em3.
Proof. intros G1 G2 t. by rewrite G2. Qed.
Lemma same_caps_add t a a' em :
  alloc_of t em = Some a -> Allocator.get_capacity a' = Allocator.get_capacity a ->
  same_caps em (add_allocator t a' em).
Proof. intros Ha Hc t'. destruct t, t'; simpl in *; rewrite ?Ha; simpl; by rewrite ?Hc. Qed.

Lemma alloc_space_spec t size em raws :
  space_ok em raws -> 0 <= size -> size + block_size em < 2 ^ 63 ->
  exists r em', alloc_space t size em = Some (r, em') /\ same_entries em em' /\ same_caps em em' /\
    match r with
    | Some l => tier l = t /\ length l <= aligned_size size em /\ space_ok em' (l :: raws)
    | None => space_ok em' raws
    end.
Proof.
  intros Hok Hs Ho. pose proof Hok as (Hb & Hid & Hn & Ht). unfold alloc_space.
  destruct (aligned_size_spec size em Hb Hs Ho) as (Hz & _ & Hzm).
  set (sz := aligned_size size em) in *.
  destruct (alloc_of t em) as [a|] eqn:Ea; [|by exists None, em]. clearbody sz.
  destruct (Ht t a Ea) as (Hoka & Hbs & Hd & Hdf & Hall).
  destruct (Allocator.allocate_spec a sz Hoka) as (got & exts & a' & E & Hok' & Hc' & Hb' & Hde & Hf & Hdd & Hle & Hby & _);
    [lia|by rewrite Hbs|].
  rewrite Hbs in E. rewrite E. simpl.
  assert (forall rs, Allocator.extents_disjoint (held t rs) -> Allocator.extents_set (held t rs) ## Allocator.free a' ->
    Forall (fun l => tier l = t -> region_ok (block_size em) (Allocator.get_capacity a) l) rs ->
    tier_ok t (add_allocator t a' em) rs) as Hmk.
  { intros rs G1 G2 G3 x Hx. rewrite alloc_of_add in Hx. injection Hx as <-.
    destruct (add_allocator_entries t a' em) as (_ & _ & -> & _). rewrite Hc', Hb'. done. }
  assert (space_ok (add_allocator t a' em) raws) as Hnone.
  { eapply space_ok_alloc; try done. apply Hmk; try done. set_solver. }
  pose proof (same_caps_add t a a' em Ea Hc') as Hcap.
  destruct exts as [|e exts]; [by exists None, (add_allocator t a' em); auto using add_allocator_entries|].
  destruct (got <? i64 sz); [by exists None, (add_allocator t a' em); auto using add_allocator_entries|].
  eexists _, _. split; [done|]. split; [apply add_allocator_entries|]. split; [done|]. split; [done|].
  split.
  { unfold Allocator.extents_bytes in Hby. rewrite sumZ_cons in Hby. cbn [length].
    enough (0 <= sumZ Allocator.length exts) by lia. apply sumZ_nonneg.
    apply Forall_cons in Hle as [_ Hle]. eapply Forall_impl; [exact Hle|]. cbn beta. intros. lia. }
  set (l := mk_loc _ _ t).
  assert (Allocator.extent_range e ⊆ Allocator.free a) as Hsub.
  { rewrite Hf. pose proof (extent_range_sub e (e :: exts)). set_solver. }
  assert (Allocator.extent_range e ## Allocator.free a') as Hdis.
  { pose proof (extent_range_sub e (e :: exts)). set_solver. }
  eapply space_ok_alloc; try done.
  - intros t' Hne. eapply tier_ok_perm; [symmetry; apply regions_cons|done|done|].
    apply tier_ok_cons_other; [done|apply Ht].
  - eapply tier_ok_perm; [symmetry; apply regions_cons|done|done|]. apply Hmk.
    + rewrite held_cons, decide_True by done. simpl. split; [|done].
      change (Allocator.extent_range (ext_of l)) with (Allocator.extent_range e). set_solver.
    + rewrite held_cons, decide_True by done. simpl. rewrite Allocator.extents_set_cons.
      change (Allocator.extent_range (ext_of l)) with (Allocator.extent_range e). set_solver.
    + constructor; [|done]. intros _. apply Forall_cons in Hle as [(? & Ho1 & Ho2) _].
      rewrite Hbs in Ho1, Ho2. unfold region_ok, l. simpl.
      pose proof (Allocator.free_in_device a (Allocator.offset e) Hoka) as G1. rewrite Allocator.from_zero in G1.
      pose proof (Allocator.free_in_device a (Allocator.offset e + Allocator.length e - 1) Hoka) as G2.
      assert (Allocator.offset e ∈ Allocator.extent_range e /\
        Allocator.offset e + Allocator.length e - 1 ∈ Allocator.extent_range e) as [? ?]
        by (unfold Allocator.extent_range; rewrite !elem_of_zrange; lia).
      specialize (G1 ltac:(set_solver)). specialize (G2 ltac:(set_solver)). split_and!; try done; lia.
Qed.

Lemma same_entries_trans em1 em2 em3 : same_entries em1 em2 -> same_entries em2 em3 -> same_entries em1 em3.
Proof. unfold same_entries. naive_solver congruence. Qed.

Lemma alloc_space_retry_spec t size em raws :
  space_ok em raws -> 0 <= size -> size + block_size em < 2 ^ 63 ->
  exists r em', alloc_space_retry t size em = Some (r, em') /\ same_entries em em' /\ same_caps em em' /\
    match r with
    | Some l => length l <= aligned_size size em /\ space_ok em' (l :: raws)
    | None => space_ok em' raws
    end.
Proof.
  intros Hok Hs Ho. unfold alloc_space_retry.
  destruct (alloc_space_spec t size em raws Hok Hs Ho) as (r & em1 & -> & Hse & Hcap & Hr). simpl.
  destruct r as [l|]; [destruct Hr as [_ Hr]; exists (Some l), em1; split_and!; [by destruct t|done|done|apply Hr..]|].
  destruct t; [|by exists None, em1]. simpl. destruct (fast_alloc em); [|by exists None, em1].
  pose proof Hse as (_ & _ & Ebs & _).
  destruct (alloc_space_spec SLOW size em1 raws Hr Hs) as (r & em2 & -> & Hse2 & Hcap2 & Hr2); [lia|].
  exists r, em2. split; [done|]. split; [by eapply same_entries_trans|]. split; [by eapply same_caps_trans|].
  unfold aligned_size in Hr2 |- *. rewrite Ebs in Hr2. destruct r; [apply Hr2|done].
Qed.

(** ** Regions that change hands *)

Lemma regions_insert em id e l raws :
  entries_ em !! id = None -> location e = l ->
  regions (set_entry id e em) raws ≡ₚ l :: regions em raws.
Proof.
  intros Hn <-. unfold regions. simpl. by rewrite (map_to_list_insert _ _ _ Hn).
Qed.

Lemma regions_delete em id e raws :
  entries_ em !! id = Some e ->
  location e :: regions (set_entries (delete id (entries_ em)) em) raws ≡ₚ regions em raws.
Proof.
  intros He. unfold regions. simpl. rewrite <- (map_to_list_delete (entries_ em) id e He). done.
Qed.

Lemma regions_deferred em l raws :
  regions (add_deferred_free l em) raws ≡ₚ l :: regions em raws.
Proof.
  unfold regions. simpl. rewrite fmap_app. simpl.
  solve_Permutation.
Qed.

Lemma space_ok_perm em em' raws raws' :
  space_ok em raws -> regions em' raws' ≡ₚ regions em raws ->
  fast_alloc em' = fast_alloc em -> slow_alloc em' = slow_alloc em -> block_size em' = block_size em ->
  (forall id e, entries_ em' !! id = Some e -> id < next_extent_id em') -> 0 <= next_extent_id em' ->
  space_ok em' raws'.
Proof.
  intros (Hb & Hid & Hn & Ht) Hp Ef Es Eb Hid' Hn'. split; [lia|]. split; [done|]. split; [done|].
  intros t. eapply tier_ok_perm; [by symmetry| |done|apply Ht]. by destruct t.
Qed.

Lemma allocate_extent_space t size em ds raws :
  space_ok em raws -> 0 <= size -> size + block_size em < 2 ^ 63 -> next_extent_id em + 1 < 2 ^ 64 ->
  exists r em' ds', allocate_extent t size em ds = Some (r, em', ds') /\ space_ok em' raws.
Proof.
  intros Hok Hs Ho Hid. unfold allocate_extent.
  destruct (alloc_space_retry_spec t size em raws Hok Hs Ho) as (r & em1 & -> & Hse & _ & Hok1). simpl.
  destruct r as [l|]; [destruct Hok1 as [_ Hok1]|by eexists _, _, _].
  eexists _, _, _. split; [done|]. eapply same_space_ok; [apply same_space_free_list|].
  pose proof Hse as (E1 & _ & _ & En & _). pose proof Hok1 as (_ & Hlt & Hn & _).
  eapply (space_ok_perm em1); try done; cbn [set_entry set_entries set_next_id entries_ next_extent_id].
  - rewrite regions_cons. apply (regions_insert (set_next_id (next_extent_id em1 +64 1) em1)); [|done].
    simpl. destruct (entries_ em1 !! next_extent_id em1) eqn:E; [|done].
    apply Hlt in E. lia.
  - rewrite u64_small by lia. intros id e. destruct (decide (id = next_extent_id em1)) as [->|];
      [lia|rewrite lookup_insert_ne by done]. intros E. apply Hlt in E. lia.
  - pose proof (u64_range (next_extent_id em1 + 1)). lia.
Qed.

Lemma free_space id em raws : space_ok em raws -> space_ok (free id em) raws.
Proof.
  intros Hok. pose proof Hok as (_ & Hlt & Hn & _). unfold free, ExtentMap.lookup.
  destruct (entries_ em !! id) as [e|] eqn:E; [|done].
  set (em1 := set_free_list _ _ _).
  assert (same_space (set_entries (delete id (entries_ em)) em) em1) as (Hl & Hd & Hf & Hs & Hb & Hn1)
    by apply same_space_free_list.
  assert (entries_ em1 = delete id (entries_ em)) as He by (subst em1; unfold set_free_list; by destruct (tier _)).
  eapply (space_ok_perm em); try done; simpl.
  - rewrite regions_deferred, <- (regions_delete em id e raws E). apply Permutation_skip.
    unfold regions. by rewrite He, Hd.
  - intros id' e'. rewrite He, Hn1. rewrite lookup_delete_Some. intros [_ ?]. by eapply Hlt.
  - by rewrite Hn1.
Qed.

Lemma release_source_space l em raws :
  space_ok em (l :: raws) -> space_ok (release_source l em) raws.
Proof.
  intros Hok. pose proof Hok as (_ & Hlt & Hn & _). eapply (space_ok_perm em); try done.
  unfold release_source. by rewrite regions_deferred, regions_cons.
Qed.

Lemma commit_migration_space h l em raws :
  space_ok em (l :: raws) ->
  space_ok (commit_migration h l em).2 (if (commit_migration h l em).1 then raws else l :: raws).
Proof.
  intros Hok. pose proof Hok as (_ & Hlt & Hn & _). unfold commit_migration, ExtentMap.lookup.
  destruct (entries_ em !! h_extent_id h) as [e|] eqn:E; [|done]. case_match; [done|]. simpl.
  eapply same_space_ok; [apply same_space_dirty|].
  set (e' := set_raw _ _). eapply (space_ok_perm em); try done.
  - rewrite regions_deferred, regions_cons.
    rewrite <- (regions_delete em _ _ raws E), (Permutation_swap (location e) l).
    apply Permutation_skip.
    rewrite <- (regions_insert (set_entries (delete (h_extent_id h) (entries_ em)) em) (h_extent_id h) e' l);
      [|apply lookup_delete_eq|done].
    unfold regions. simpl. by rewrite insert_delete_eq.
  - simpl. intros id e0. destruct (decide (id = h_extent_id h)) as [->|];
      [by intros _; eapply Hlt|rewrite lookup_insert_ne by done; apply Hlt].
Qed.

(** ** Deferred frees *)

Lemma tier_ok_tail t em l rs : tier_ok t em (l :: rs) -> tier_ok t em rs.
Proof.
  intros Ht a Ha. destruct (Ht a Ha) as (? & ? & Hd & Hf & Hall). rewrite held_cons in Hd, Hf.
  apply Forall_cons in Hall as [_ ?]. split_and!; try done.
  - destruct (decide (tier l = t)); [by destruct Hd|done].
  - rewrite Allocator.extents_set_app in Hf. set_solver.
Qed.

Definition release_set (l : DiskLocation) : IntervalSet.interval_set :=
  IntervalSet.insert IntervalSet.empty_set (offset l) (length l).

Lemma release_set_single l :
  0 < length l -> IntervalSet.m_ (release_set l) = [(offset l, length l)].
Proof.
  intros Hl. unfold release_set, IntervalSet.insert. simpl.
  by destruct (Z.eqb_spec (length l) 0); [lia|].
Qed.

(** Releasing a region that nobody else holds succeeds. *)
Lemma release_one em l rs a :
  0 < block_size em ->
  (forall t, tier_ok t em (l :: rs)) -> alloc_of (tier l) em = Some a ->
  exists a', Allocator.release (release_set l) a = Some a' /\
    Allocator.get_capacity a' = Allocator.get_capacity a /\
    forall t, tier_ok t (add_allocator (tier l) a' em) rs.
Proof.
  intros Hbs Ht Ha. destruct (Ht (tier l) a Ha) as (Hok & Hb & Hd & Hf & Hall).
  pose proof (Allocator.capacity_range a Hok).
  apply Forall_cons in Hall as [Hl Hall]. destruct (Hl eq_refl) as (? & Hmo & Hml & ? & ?).
  rewrite held_cons, decide_True in Hd, Hf by done. simpl in Hd. destruct Hd as [Hd1 Hd2].
  rewrite Allocator.extents_set_app, Allocator.extents_set_cons, Allocator.extents_set_nil in Hf.
  assert (IntervalSet.pts (release_set l) = Allocator.extent_range (ext_of l)) as Hp.
  { unfold IntervalSet.pts. rewrite release_set_single by lia.
    rewrite IntervalSet.points_cons, IntervalSet.points_nil. unfold Allocator.extent_range. simpl. set_solver. }
  assert (IntervalSet.wf (release_set l)) as Hwf by (apply IntervalSet.insert_wf; [done|lia..]).
  destruct (Allocator.release_spec a (release_set l) Hok Hwf) as (a' & Er & Hok' & Hc' & Hb' & Hf').
  - intros x. rewrite Hp, Allocator.from_zero. unfold Allocator.extent_range. simpl. rewrite elem_of_zrange. lia.
  - rewrite release_set_single, Hb by lia. by repeat constructor.
  - rewrite Hp. set_solver.
  - exists a'. split; [done|]. split; [done|]. intros t. destruct (decide (t = tier l)) as [->|Hne].
    + intros x Hx. rewrite alloc_of_add in Hx. injection Hx as <-.
      destruct (add_allocator_entries (tier l) a' em) as (_ & _ & -> & _). rewrite Hc', Hb', Hf', Hp.
      split_and!; try done. set_solver.
    + apply (tier_ok_perm t em _ rs rs); [done|by apply alloc_of_add_ne|by destruct (tier l)|].
      exact (tier_ok_tail _ _ _ _ (Ht t)).
Qed.

Definition due (current_seq : Z) (d : DeferredFreeEntry) : bool := 2 <=? current_seq -64 added_at_seqno d.


Lemma deferred_loop_spec cur dl : forall em rest,
  0 < block_size em -> (forall t, tier_ok t em ((dloc <$> dl) ++ rest)) ->
  exists em', deferred_loop cur dl em = Some (List.filter (fun d => negb (due cur d)) dl, em') /\
    same_entries em em' /\ same_caps em em' /\
    forall t, tier_ok t em' ((dloc <$> List.filter (fun d => negb (due cur d)) dl) ++ rest).
Proof.
  induction dl as [|d dl IH]; intros em rest Hbs Ht; [by exists em|].
  cbn [deferred_loop List.filter]. fold (due cur d). destruct (due cur d) eqn:Ed; cbn [negb].
  - destruct (alloc_of (tier (dloc d)) em) as [a|] eqn:Ea.
    + destruct (release_one em (dloc d) (fmap (M := list) dloc dl ++ rest) a Hbs Ht Ea) as (a' & Er & Hc & Ht').
      unfold release_set in Er. simpl. rewrite Er. simpl.
      pose proof (add_allocator_entries (tier (dloc d)) a' em) as Hse. pose proof Hse as (_ & _ & Eb & _).
      destruct (IH _ rest ltac:(by rewrite Eb) Ht') as (em' & -> & Hse' & Hcap & Hk).
      exists em'. split_and!; try done; [by eapply same_entries_trans|].
      eapply same_caps_trans; [|exact Hcap]. by eapply same_caps_add.
    + simpl. destruct (IH em rest Hbs) as (em' & -> & Hse' & Hcap & Hk); [|by exists em'].
      intros t. exact (tier_ok_tail _ _ _ _ (Ht t)).
  - destruct (IH em (dloc d :: rest) Hbs) as (em' & -> & Hse' & Hcap & Hk).
    { intros t. eapply tier_ok_perm; [|done|done|apply (Ht t)]. simpl. solve_Permutation. }
    exists em'. split_and!; try done.
    intros t. eapply tier_ok_perm; [|done|done|apply (Hk t)]. simpl. solve_Permutation.
Qed.

Lemma process_deferred_space em raws :
  space_ok em raws ->
  exists em', process_deferred_free em = Some em' /\ space_ok em' raws /\
    entries_ em' = entries_ em /\ seqno_ em' = seqno_ em +64 1 /\
    deferred_free_ em' = List.filter (fun d => negb (due (seqno_ em) d)) (deferred_free_ em) /\
    same_caps em em' /\ block_size em' = block_size em.
Proof.
  intros Hok. pose proof Hok as (Hb & Hlt & Hn & Ht). unfold process_deferred_free.
  set (rest := (location <$> (map_to_list (entries_ em)).*2) ++ raws).
  destruct (deferred_loop_spec (seqno_ em) (deferred_free_ em) em rest) as (em' & -> & Hse & Hcap & Hk); [lia| |].
  { intros t. eapply tier_ok_perm; [|done|done|apply (Ht t)]. unfold regions, rest. solve_Permutation. }
  simpl. eexists. split; [done|]. pose proof Hse as (E1 & _ & E3 & E4 & _).
  split_and!; try done; try (by intros t; destruct t; apply Hcap).
  split; [simpl; lia|]. split; [simpl; by rewrite E1, E4|]. split; [simpl; lia|].
  intros t. eapply tier_ok_perm; [| | |apply (Hk t)]; [|by destruct t|done].
  unfold regions, rest. simpl. rewrite E1. solve_Permutation.
Qed.

(** ** Setting up and recovery *)

Lemma tier_ok_sub t em rs1 rs2 : rs1 ⊆+ rs2 -> tier_ok t em rs2 -> tier_ok t em rs1.
Proof.
  intros (k & Hp)%submseteq_Permutation Ht. assert (tier_ok t em (k ++ rs1)) as Hk by (eapply tier_ok_perm; [|done|done|exact Ht]; rewrite Hp; solve_Permutation).
  clear Hp Ht. induction k as [|l k IH]; [done|]. by apply IH, (tier_ok_tail t em l).
Qed.

Lemma clear_deferred_space em raws : space_ok em raws -> space_ok (clear_deferred_free em) raws.
Proof.
  intros (Hb & Hlt & Hn & Ht). split; [done|]. split; [done|]. split; [done|]. intros t. apply (tier_ok_perm t em _ (regions (clear_deferred_free em) raws)); [done|by destruct t|done|]. eapply tier_ok_sub; [|apply (Ht t)].
  unfold regions. cbn [clear_deferred_free set_deferred entries_ deferred_free_]. apply submseteq_app; [done|]. apply submseteq_inserts_l. done.
Qed.

(** Nobody has the region [l]: it is not free, not an extent, not to be freed. *)
Definition unclaimed (l : DiskLocation) em raws : Prop := forall a, alloc_of (tier l) em = Some a ->
  region_ok (block_size em) (Allocator.get_capacity a) l /\ zrange (offset l) (length l) ## Allocator.free a /\
  zrange (offset l) (length l) ## Allocator.extents_set (held (tier l) (regions em raws)).

Lemma create_entry_space id l em raws :
  space_ok em raws -> entries_ em !! id = None -> 0 <= id -> id + 1 < 2 ^ 64 -> unclaimed l em raws -> space_ok (create_entry_from_journal id l em) raws.
Proof.
  intros (Hb & Hlt & Hn & Ht) He Hi Hi2 Hu. unfold create_entry_from_journal. eapply same_space_ok; [apply same_space_free_list|]. set (em1 := set_entry id (new_entry l) em). set (em2 := if _ <=? _ then _ else _).
  assert (entries_ em2 = <[id := new_entry l]> (entries_ em) /\ deferred_free_ em2 = deferred_free_ em /\ block_size em2 = block_size em /\ forall t, alloc_of t em2 = alloc_of t em) as (E1 & E2 & E3 & E4) by (unfold em2; destruct (_ <=? _); split_and!; try done; by intros []).
  assert (next_extent_id em <= next_extent_id em2 /\ id < next_extent_id em2) as [Hn1 Hn2] by (unfold em2; change (next_extent_id em1) with (next_extent_id em); destruct (Z.leb_spec (next_extent_id em) id); cbn [set_next_id next_extent_id]; [rewrite u64_small by lia; lia|change (next_extent_id em1) with (next_extent_id em); lia]).
  assert (regions em2 raws ≡ₚ l :: regions em raws) as Hp by (rewrite <- (regions_insert em id (new_entry l) l raws He eq_refl); unfold regions; by rewrite E1, E2).
  split; [lia|]. split; [|split; [lia|]].
  - intros id' e. rewrite E1. destruct (decide (id' = id)) as [->|]; [done|rewrite lookup_insert_ne by done]. intros E. apply Hlt in E. lia.
  - intros t. apply (tier_ok_perm t em em2 (l :: regions em raws)); [by symmetry|done|done|]. destruct (decide (tier l = t)) as [<-|Hne]; [|by apply tier_ok_cons_other]. intros a Ha. destruct (Ht _ a Ha) as (? & ? & Hd & Hf & Hall). destruct (Hu a Ha) as (Hr & Hu1 & Hu2).
    rewrite held_cons, decide_True by done. cbn [app]. rewrite Allocator.extents_set_cons. split_and!; try done; [|by constructor]. change (Allocator.extent_range (ext_of l)) with (zrange (offset l) (length l)). set_solver.
Qed.

(** An allocator that loses free space, to the journal or to an extent. *)
Lemma reserve_space t off len a a' em raws `{!Allocator.RemoveSpec A} :
  space_ok em raws -> alloc_of t em = Some a -> 0 <= off -> 0 < len -> off + len <= Allocator.get_capacity a -> off mod block_size em = 0 -> len mod block_size em = 0 -> zrange off len ⊆ Allocator.free a ->
  Allocator.init_rm_free off len a = Some a' -> space_ok (add_allocator t a' em) raws.
Proof.
  intros Hok Ha Ho Hl Hc Hm1 Hm2 Hs E. pose proof Hok as (Hb & _ & _ & Ht). destruct (Ht t a Ha) as (Hok1 & Eb & Hd & Hf & Hall). rewrite <- Eb in Hm1, Hm2. destruct (Allocator.init_rm_free_spec a off len Hok1 Ho Hl Hc Hm1 Hm2 Hs) as (a2 & E2 & Hok2 & Hc2 & Hb2 & Hf2). rewrite E in E2. injection E2 as <-.
  apply (space_ok_alloc t a a' em raws raws Hok Ha); [intros t' _; apply Ht|]. intros x Hx. rewrite alloc_of_add in Hx. injection Hx as <-. destruct (add_allocator_entries t a' em) as (_ & _ & -> & _). rewrite Hc2, Hb2, Hf2. split_and!; try done. set_solver.
Qed.

(** A new allocator: nothing is free, and blocks divide its capacity. *)
Definition fresh_for (bs : Z) (a : A) : Prop := Allocator.ok a /\ Allocator.free a = ∅ /\ Allocator.get_block_size a = bs /\ Allocator.get_capacity a mod bs = 0.

Lemma fill_tier t bs a em : alloc_of t em = Some a -> fresh_for bs a -> 0 < bs ->
  exists a', init_free_space_tier t em = Some (add_allocator t a' em) /\ Allocator.ok a' /\ Allocator.get_block_size a' = bs.
Proof.
  intros Ha (Hok & Hf & Hb & Hm) Hbs. unfold init_free_space_tier. rewrite Ha. pose proof (Allocator.capacity_range a Hok). destruct (Allocator.init_add_free_spec a 0 (Allocator.get_capacity a) Hok) as (a' & -> & Hok' & _ & Hb' & _); rewrite ?Hb, ?Hf, ?Allocator.from_zero; try done; try lia; try apply disjoint_empty_r.
  exists a'. split_and!; try done. congruence.
Qed.

(** The map as the engine sets it up. *)
Definition set_up (bs es : Z) (fa sa : A) : option em_t := init_free_space (add_allocator SLOW sa (add_allocator FAST fa (create bs es))).

Lemma set_up_space bs es fa sa : 0 < bs < 2 ^ 32 -> fresh_for bs fa -> fresh_for bs sa -> exists em, set_up bs es fa sa = Some em /\ space_ok em [].
Proof.
  intros Hb Hf Hs. unfold set_up, init_free_space. set (em := add_allocator SLOW sa _). destruct (fill_tier FAST bs fa em eq_refl Hf ltac:(lia)) as (fa' & -> & Hf1 & Hf2). cbn [mbind option_bind].
  destruct (fill_tier SLOW bs sa (add_allocator FAST fa' em) eq_refl Hs ltac:(lia)) as (sa' & -> & Hs1 & Hs2). eexists. split; [reflexivity|]. split; [exact Hb|]. split; [done|]. split; [cbn; lia|]. intros t a Ha. assert (a = match t with FAST => fa' | SLOW => sa' end) as -> by (destruct t; cbn in Ha; congruence).
  split; [by destruct t|]. split; [by destruct t|]. split; [done|]. split; [apply disjoint_empty_l|constructor].
Qed.

(** ** Executions *)

(** One call of a method; the second component of the state is the raw space
    that was allocated for a migration and neither committed nor released.  An entry
    is restored from the journal for a region that nobody has; the engine takes such
    regions, and that of the journal, from the allocators itself ([s_reserve]). *)
Inductive step : em_t * list DiskLocation -> em_t * list DiskLocation -> Prop :=
| s_allocate_extent em raws t sz ds r em' ds' :
    0 <= sz -> sz + block_size em < 2 ^ 63 -> next_extent_id em + 1 < 2 ^ 64 ->
    allocate_extent t sz em ds = Some (r, em', ds') -> step (em, raws) (em', raws)
| s_allocate_raw em raws t sz l em' :
    0 <= sz -> sz + block_size em < 2 ^ 63 ->
    allocate_raw t sz em = Some (Some l, em') -> step (em, raws) (em', l :: raws)
| s_allocate_raw_fail em raws t sz em' :
    0 <= sz -> sz + block_size em < 2 ^ 63 ->
    allocate_raw t sz em = Some (None, em') -> step (em, raws) (em', raws)
| s_append em raws id sz : step (em, raws) ((append_slot id sz em).2, raws)
| s_mark_dead em raws id len : step (em, raws) (mark_dead_slot id len em, raws)
| s_record_io em raws id op now : step (em, raws) (record_io id op now em, raws)
| s_randomness em raws km : step (em, raws) (refresh_randomness km em, raws)
| s_io_ref_inc em raws id : step (em, raws) (io_ref_inc id em, raws)
| s_io_ref_dec em raws id : step (em, raws) (io_ref_dec id em, raws)
| s_begin em raws id : step (em, raws) ((begin_migration id em).2, raws)
| s_abort em raws h : step (em, raws) (abort_migration h em, raws)
| s_commit em raws1 raws2 h l em' :
    commit_migration h l em = (true, em') -> step (em, raws1 ++ l :: raws2) (em', raws1 ++ raws2)
| s_release_source em raws1 raws2 l :
    step (em, raws1 ++ l :: raws2) (release_source l em, raws1 ++ raws2)
| s_free em raws id : step (em, raws) (free id em, raws)
| s_process_deferred em raws em' :
    process_deferred_free em = Some em' -> step (em, raws) (em', raws)
| s_flush em raws ds : step (em, raws) ((flush_dirty_headers em ds).1, raws)
| s_set_randomness em raws id r : step (em, raws) (set_randomness id r em, raws)
| s_commit_refused em raws h l em' : commit_migration h l em = (false, em') -> step (em, raws) (em', raws)
| s_clear_deferred em raws : step (em, raws) (clear_deferred_free em, raws)
| s_restore em raws id used live : step (em, raws) (restore_extent_state id used live em, raws)
| s_create_entry em raws id l :
    entries_ em !! id = None -> 0 <= id -> id + 1 < 2 ^ 64 -> unclaimed l em raws ->
    step (em, raws) (create_entry_from_journal id l em, raws)
| s_reserve em raws t off len a a' :
    alloc_of t em = Some a -> 0 <= off -> 0 < len -> off + len <= Allocator.get_capacity a -> off mod block_size em = 0 -> len mod block_size em = 0 ->
    zrange off len ⊆ Allocator.free a -> Allocator.init_rm_free off len a = Some a' -> step (em, raws) (add_allocator t a' em, raws).

Lemma space_ok_raws em raws raws' : raws ≡ₚ raws' -> space_ok em raws -> space_ok em raws'.
Proof.
  intros Hp Hok. pose proof Hok as (_ & ? & ? & _). eapply space_ok_perm; try done.
  unfold regions. by rewrite Hp.
Qed.

Lemma step_space `{!Allocator.RemoveSpec A} s s' : space_ok s.1 s.2 -> step s s' -> space_ok s'.1 s'.2.
Proof.
  intros Hok Hst. destruct Hst as
    [em raws t sz ds r em' ds' ? ? ? E|em raws t sz l em' ? ? E|em raws t sz em' ? ? E
    |em raws id sz|em raws id len|em raws id op now|em raws km|em raws id|em raws id|em raws id
    |em raws h|em raws1 raws2 h l em' E|em raws1 raws2 l|em raws id|em raws em' E|em raws ds
    |em raws id r|em raws h l em' E|em raws|em raws id u v|em raws id l|em raws t off len a a']; simpl in *.
  - destruct (allocate_extent_space t sz em ds raws) as (? & ? & ? & E' & ?); try done.
    rewrite E in E'. by simplify_eq.
  - destruct (alloc_space_retry_spec t sz em raws) as (? & ? & E' & ? & ? & ?); try done.
    unfold allocate_raw in E. rewrite E in E'. simplify_eq. by destruct_and?.
  - destruct (alloc_space_retry_spec t sz em raws) as (? & ? & E' & ? & ? & ?); try done.
    unfold allocate_raw in E. rewrite E in E'. simplify_eq. by destruct_and?.
  - eapply same_space_ok; [apply append_slot_space|done].
  - eapply same_space_ok; [apply mark_dead_slot_space|done].
  - eapply same_space_ok; [apply record_io_space|done].
  - eapply same_space_ok; [apply refresh_randomness_space|done].
  - eapply same_space_ok; [apply io_ref_inc_space|done].
  - eapply same_space_ok; [apply io_ref_dec_space|done].
  - eapply same_space_ok; [apply begin_migration_space|done].
  - eapply same_space_ok; [apply abort_migration_space|done].
  - apply (space_ok_raws _ _ (l :: raws1 ++ raws2)) in Hok; [|solve_Permutation].
    apply (commit_migration_space h) in Hok. by rewrite E in Hok.
  - apply release_source_space. eapply space_ok_raws; [|exact Hok]. solve_Permutation.
  - by apply free_space.
  - destruct (process_deferred_space em raws) as (? & E' & ? & _); [done|]. rewrite E in E'. by simplify_eq.
  - done.
  - eapply same_space_ok; [apply set_randomness_space|done].
  - assert (em' = em) as -> by (unfold commit_migration in E; destruct (ExtentMap.lookup _ em); [destruct (negb _)|]; by simplify_eq). done.
  - by apply clear_deferred_space.
  - eapply same_space_ok; [apply restore_extent_state_space|done].
  - by apply create_entry_space.
  - by eapply reserve_space.
Qed.

Lemma reachable_space `{!Allocator.RemoveSpec A} s s' : space_ok s.1 s.2 -> rtc step s s' -> space_ok s'.1 s'.2.
Proof. intros Hok Hr. induction Hr as [|x y z Hst _ IH]; [done|]. by apply IH, (step_space x). Qed.
End Space.
End ExtentSpace.
