(* ===== verification/ExtentMapSpec.v ===== *)
(** * Behaviour of the extent map

    Slots inside an extent, the free-space lists, the migration protocol with
    its generation check, and the grace period of deferred frees. *)
From stdpp Require Import base numbers list gmap sorting.
From Stdlib Require Import ZArith Lia.
From S2P Require Import Prelude IntArith Crc32 IntervalSet Allocator AvlAllocator AvlSpec Device BtierTypes KeyMap ExtentMap ExtentSpace.
Import BtierTypes BtierTypes.ExtentMetrics Device ExtentMap ExtentSpace.

Module ExtentMapSpec.
Section Ops.
Context {A D : Type} `{Allocator.Allocator A} `{BlockDevice D}.
Abbreviation em_t := (ExtentMap A).
Implicit Types (em : em_t) (l : DiskLocation) (e : ExtentEntry).

(** ** Entries *)

Definition entry_ok (e : ExtentEntry) : Prop :=
  HEADER_SIZE <= length (location e) < 2 ^ 32 /\
  0 <= used_bytes e <= length (location e) - HEADER_SIZE /\
  0 <= live_bytes e <= used_bytes e /\ uint 64 (raw e).

Definition em_wf (em : em_t) : Prop := forall id e, entries_ em !! id = Some e -> entry_ok e.

(** The free lists hold exactly the live extents, with their free bytes. *)
Definition synced (em : em_t) : Prop :=
  forall t f id, (f, id) ∈ free_list t em <->
    exists e, entries_ em !! id = Some e /\ tier (location e) = t /\ f = free_bytes_of e.

Lemma capacity_spec l : HEADER_SIZE <= length l < 2 ^ 32 -> capacity_of l = length l - HEADER_SIZE.
Proof. intros Hl. unfold capacity_of. apply u32_small. unfold HEADER_SIZE in *. lia. Qed.

Lemma free_bytes_spec e : entry_ok e -> free_bytes_of e = length (location e) - HEADER_SIZE - used_bytes e.
Proof.
  intros (Hl & Hu & _). unfold free_bytes_of. rewrite capacity_spec by done.
  apply u32_small. unfold HEADER_SIZE in *. lia.
Qed.

Lemma bump_fields e :
  access_count (raw (bump_generation e)) = access_count (raw e) mod 4096 /\
  state (raw (bump_generation e)) = state (raw e) mod 4 /\
  generation (raw (bump_generation e)) = (generation (raw e) +64 1) mod 2 ^ 32 /\
  uint 64 (raw (bump_generation e)).
Proof. unfold bump_generation. simpl. autorewrite with metrics. split_and!; try done; apply pack_range. Qed.

Lemma generation_range v : uint 64 v -> 0 <= generation v < 2 ^ 32.
Proof.
  intros [? ?]. unfold generation. rewrite Z.shiftr_div_pow2 by lia.
  split; [apply Z.div_pos|apply Z.div_lt_upper_bound]; lia.
Qed.

Lemma state_range v : 0 <= state v < 4.
Proof.
  unfold state. change 3 with (Z.ones 2). rewrite Z.land_ones by lia. apply Z.mod_pos_bound. lia.
Qed.

Lemma bump_state e : state (raw (bump_generation e)) = state (raw e).
Proof. destruct (bump_fields e) as (_ & -> & _). apply Z.mod_small, state_range. Qed.

Lemma bump_gen e : uint 64 (raw e) ->
  generation (raw (bump_generation e)) = (generation (raw e) + 1) mod 2 ^ 32.
Proof.
  intros Hr. destruct (bump_fields e) as (_ & _ & -> & _).
  pose proof (generation_range _ Hr). by rewrite u64_small by lia.
Qed.

Lemma set_free_list_entries t fl em : entries_ (set_free_list t fl em) = entries_ em.
Proof. by destruct t. Qed.
Lemma free_list_set t t' fl em :
  free_list t' (set_free_list t fl em) = if decide (t' = t) then fl else free_list t' em.
Proof. by destruct t, t'. Qed.

Lemma em_wf_insert em em' id e :
  em_wf em -> entry_ok e -> entries_ em' = <[id := e]> (entries_ em) -> em_wf em'.
Proof.
  intros Hwf He E id' e'. rewrite E. destruct (decide (id' = id)) as [->|];
    [rewrite lookup_insert_eq; by intros [= <-]|rewrite lookup_insert_ne by done; apply Hwf].
Qed.

(** Changing one entry and moving its pair in its free list. *)
Lemma synced_update em em' id e e' :
  synced em -> entries_ em !! id = Some e -> tier (location e') = tier (location e) ->
  entries_ em' = <[id := e']> (entries_ em) ->
  (forall t, free_list t em' = if decide (t = tier (location e))
     then {[(free_bytes_of e', id)]} ∪ (free_list t em ∖ {[(free_bytes_of e, id)]})
     else free_list t em) ->
  synced em'.
Proof.
  intros Hs He Ht Ee Ef t f id'. rewrite Ee, Ef. pose proof (Hs t f id') as Hi.
  destruct (decide (id' = id)) as [->|Hne].
  - rewrite lookup_insert_eq. rewrite He in Hi. destruct (decide (t = tier (location e))) as [->|Hnt].
    + rewrite elem_of_union, elem_of_difference, !elem_of_singleton, Hi. split.
      * intros [[= ->]|[(e0 & [= <-] & _ & ->) []]]; [by exists e'|done].
      * intros (e0 & [= <-] & _ & ->). by left.
    + rewrite Hi. split; intros (e0 & [= <-] & ? & _); [done|]. exfalso. apply Hnt. congruence.
  - rewrite lookup_insert_ne by done. destruct (decide (t = tier (location e))); [|done].
    rewrite elem_of_union, elem_of_difference, !elem_of_singleton, Hi. split.
    + intros [[= _ ->]|[? _]]; done.
    + intros Hx. right. split; [done|]. by intros [= _ ->].
Qed.

Lemma synced_inplace em em' id e e' :
  synced em -> entries_ em !! id = Some e -> location e' = location e ->
  used_bytes e' = used_bytes e -> entries_ em' = <[id := e']> (entries_ em) ->
  (forall t, free_list t em' = free_list t em) -> synced em'.
Proof.
  intros Hs He El Eu Ee Ef t f id'. rewrite Ee, Ef, (Hs t f id').
  destruct (decide (id' = id)) as [->|Hne]; [|by rewrite lookup_insert_ne].
  rewrite lookup_insert_eq, He. assert (free_bytes_of e' = free_bytes_of e) as Eb
    by (unfold free_bytes_of; by rewrite El, Eu).
  split; intros (e0 & [= <-] & ? & ->); [exists e'|exists e]; split_and!; congruence.
Qed.

(** ** Slots *)

Definition can_append (e : ExtentEntry) (size : Z) : bool :=
  (state (raw e) =? ACTIVE) && (used_bytes e + size <=? length (location e) - HEADER_SIZE).

Definition appended (size : Z) (e : ExtentEntry) : ExtentEntry :=
  bump_generation (set_used_live (used_bytes e + size) (live_bytes e + size) e).

Lemma append_slot_eq id size em e :
  entries_ em !! id = Some e -> entry_ok e -> 0 <= size -> used_bytes e + size < 2 ^ 32 ->
  append_slot id size em =
  if can_append e size then
    (used_bytes e,
     update_free_list id (tier (location e)) (free_bytes_of e) (free_bytes_of (appended size e))
       (mark_dirty id (set_entry id (appended size e) em)))
  else (UINT32_MAX, em).
Proof.
  intros He (Hl & Hu & Hv & _) Hs Ho. unfold append_slot, ExtentMap.lookup, can_append. rewrite He.
  destruct (Z.eqb_spec (state (raw e)) ACTIVE); cbn [negb andb]; [|done].
  rewrite capacity_spec by done. rewrite (u32_small (used_bytes e + size)) by lia.
  rewrite (u32_small (live_bytes e + size)) by lia.
  destruct (Z.leb_spec (used_bytes e + size) (length (location e) - HEADER_SIZE)),
    (Z.ltb_spec (length (location e) - HEADER_SIZE) (used_bytes e + size)); try lia; [|done].
  unfold free_bytes_of. rewrite !capacity_spec by done. done.
Qed.

Lemma appended_ok size e :
  entry_ok e -> 0 <= size -> can_append e size = true -> entry_ok (appended size e).
Proof.
  intros (Hl & Hu & Hv & Hr) Hs Hc. apply andb_true_iff in Hc as [_ Hc%Z.leb_le].
  unfold entry_ok. simpl. split_and!; try lia; apply pack_range.
Qed.

Lemma append_slot_inv id size em e :
  em_wf em -> synced em -> entries_ em !! id = Some e -> 0 <= size -> used_bytes e + size < 2 ^ 32 ->
  em_wf (append_slot id size em).2 /\ synced (append_slot id size em).2.
Proof.
  intros Hwf Hs He Hz Ho. rewrite (append_slot_eq id size em e He (Hwf _ _ He) Hz Ho).
  destruct (can_append e size) eqn:Hc; [|done]. split.
  - eapply em_wf_insert; [exact Hwf|by apply (appended_ok size); try apply Hwf with id|].
    unfold update_free_list. simpl. by rewrite set_free_list_entries.
  - eapply synced_update; [done|done| | |]; [by instantiate (1 := appended size e)|
      unfold update_free_list; simpl; by rewrite set_free_list_entries|].
    intros t. unfold update_free_list. simpl. rewrite free_list_set.
    destruct (decide (t = tier (location e))) as [->|]; [by destruct (tier (location e))|by destruct t].
Qed.

Definition deadened (len : Z) (e : ExtentEntry) : ExtentEntry :=
  bump_generation (set_used_live (used_bytes e) (Z.max 0 (live_bytes e - len)) e).

Lemma mark_dead_slot_eq id len em e :
  entries_ em !! id = Some e -> entry_ok e -> 0 <= len ->
  mark_dead_slot id len em =
  update_free_list id (tier (location e)) (free_bytes_of e) (free_bytes_of (deadened len e))
    (mark_dirty id (set_entry id (deadened len e) em)).
Proof.
  intros He (Hl & Hu & Hv & _) Hs. unfold mark_dead_slot, ExtentMap.lookup, deadened. rewrite He.
  assert ((if len <=? live_bytes e then live_bytes e -32 len else 0) = Z.max 0 (live_bytes e - len)) as ->.
  { destruct (Z.leb_spec len (live_bytes e)); rewrite ?u32_small by (unfold HEADER_SIZE in *; lia); lia. }
  unfold free_bytes_of. done.
Qed.

Lemma mark_dead_slot_inv id len em :
  em_wf em -> synced em -> 0 <= len ->
  em_wf (mark_dead_slot id len em) /\ synced (mark_dead_slot id len em).
Proof.
  intros Hwf Hs Hz. destruct (entries_ em !! id) as [e|] eqn:He;
    [|unfold mark_dead_slot, ExtentMap.lookup; by rewrite He].
  pose proof (Hwf _ _ He) as (Hl & Hu & Hv & Hr).
  rewrite (mark_dead_slot_eq id len em e He (Hwf _ _ He) Hz). split.
  - eapply em_wf_insert with (e := deadened len e); [exact Hwf| |].
    + unfold entry_ok. simpl. split_and!; try lia; apply pack_range.
    + unfold update_free_list. simpl. by rewrite set_free_list_entries.
  - eapply synced_update with (e' := deadened len e); [done|done|done| |].
    + unfold update_free_list; simpl; by rewrite set_free_list_entries.
    + intros t. unfold update_free_list. simpl. rewrite free_list_set.
      destruct (decide (t = tier (location e))) as [->|]; [by destruct (tier (location e))|by destruct t].
Qed.

(** Operations that rewrite the metrics word of one entry. *)
Definition with_raw (id w : Z) (em : em_t) (e : ExtentEntry) : em_t := set_entry id (set_raw w e) em.

Lemma inplace_inv em id e e' :
  em_wf em -> synced em -> entries_ em !! id = Some e -> location e' = location e ->
  used_bytes e' = used_bytes e -> live_bytes e' = live_bytes e -> uint 64 (raw e') ->
  em_wf (set_entry id e' em) /\ synced (set_entry id e' em).
Proof.
  intros Hwf Hs He El Eu Ev Hr. destruct (Hwf _ _ He) as (? & ? & ? & _). split.
  - eapply em_wf_insert; [done| |done]. unfold entry_ok. rewrite El, Eu, Ev. done.
  - by eapply synced_inplace.
Qed.

Lemma free_inv id em : em_wf em -> synced em -> em_wf (free id em) /\ synced (free id em).
Proof.
  intros Hwf Hs. unfold free, ExtentMap.lookup. destruct (entries_ em !! id) as [e|] eqn:He; [|done]. split.
  - intros id' e'. simpl. rewrite set_free_list_entries. simpl. rewrite lookup_delete_Some.
    intros [_ ?]. by eapply Hwf.
  - intros t f id'.
    assert (forall fl e', entries_ (add_deferred_free (location e) (set_free_list (tier (location e)) fl
      (set_entries (delete id (entries_ em)) em))) !! id' = Some e' <->
      id <> id' /\ entries_ em !! id' = Some e') as Hent.
    { intros fl e'. simpl. rewrite set_free_list_entries. apply lookup_delete_Some. }
    setoid_rewrite Hent.
    assert (forall fl, free_list t (add_deferred_free (location e) (set_free_list (tier (location e)) fl
      (set_entries (delete id (entries_ em)) em))) =
      if decide (t = tier (location e)) then fl else free_list t em) as ->.
    { intros fl. destruct t, (tier (location e)); done. }
    fold (free_bytes_of e). pose proof (Hs t f id') as Hi.
    assert (free_list (tier (location e)) (set_entries (delete id (entries_ em)) em) =
      free_list (tier (location e)) em) as -> by (by destruct (tier (location e))).
    destruct (decide (t = tier (location e))) as [->|Hnt].
    + rewrite elem_of_difference, elem_of_singleton, Hi. split.
      * intros [(e' & He' & Ht & ->) Hne]. exists e'. split_and!; try done.
        intros ->. rewrite He in He'. by simplify_eq.
      * intros (e' & [Hne He'] & Ht & ->). split; [by exists e'|]. by intros [= _ ->].
    + rewrite Hi. split; intros (e' & He' & Ht & ->); exists e'; split_and!; try done; [|by destruct He'].
      intros ->. rewrite He in He'. by simplify_eq.
Qed.

(** ** Sequences of calls *)

Inductive em_op :=
| Append (id size : Z)
| MarkDead (id len : Z)
| RecordIo (id : Z) (op : IoOp) (now : Z)
| SetRandomness (id r : Z)
| IoRefInc (id : Z)
| IoRefDec (id : Z)
| BeginMigration (id : Z)
| Free (id : Z).

Definition run_op (em : em_t) (o : em_op) : em_t :=
  match o with
  | Append id size => (append_slot id size em).2
  | MarkDead id len => mark_dead_slot id len em
  | RecordIo id op now => record_io id op now em
  | SetRandomness id r => set_randomness id r em
  | IoRefInc id => io_ref_inc id em
  | IoRefDec id => io_ref_dec id em
  | BeginMigration id => (begin_migration id em).2
  | Free id => free id em
  end.

(** Sizes that cannot wrap the 32-bit counters. *)
Definition op_ok (o : em_op) : Prop :=
  match o with Append _ n | MarkDead _ n => 0 <= n < 2 ^ 31 | _ => True end.

Definition small (em : em_t) : Prop :=
  forall id e, entries_ em !! id = Some e -> length (location e) <= 2 ^ 31.

Definition seq_inv (em : em_t) : Prop := em_wf em /\ synced em /\ small em.

Lemma small_same em em' : location <$> entries_ em' = location <$> entries_ em -> small em -> small em'.
Proof.
  intros E Hs id e He. apply (f_equal (base.lookup id)) in E. rewrite !lookup_fmap, He in E. simpl in E.
  destruct (entries_ em !! id) as [e0|] eqn:E0; simplify_eq/=. rewrite E. by eapply Hs.
Qed.

Lemma run_op_inv em o : op_ok o -> seq_inv em -> seq_inv (run_op em o).
Proof.
  intros Ho (Hwf & Hs & Hsm). destruct o as [id n|id n|id op now|id r|id|id|id|id]; simpl in *.
  - destruct (entries_ em !! id) as [e|] eqn:He.
    + destruct (Hwf _ _ He) as (? & ? & _). specialize (Hsm _ _ He) as Hl.
      destruct (append_slot_inv id n em e) as [? ?]; try done; try (unfold HEADER_SIZE in *; lia).
      split_and!; try done. eapply small_same; [|done]. apply append_slot_space.
    + unfold append_slot, ExtentMap.lookup. by rewrite He.
  - destruct (mark_dead_slot_inv id n em) as [? ?]; try done; try lia. split_and!; try done.
    eapply small_same; [|done]. apply mark_dead_slot_space.
  - pose proof (record_io_space id op now em) as (El & _).
    enough (em_wf (record_io id op now em) /\ synced (record_io id op now em)) as [? ?]
      by (split_and!; try done; by eapply small_same).
    unfold record_io, ExtentMap.lookup. destruct (entries_ em !! id) as [e|] eqn:He; [|done].
    eapply inplace_inv; try done. apply pack_range.
  - pose proof (set_randomness_space id r em) as (El & _).
    enough (em_wf (set_randomness id r em) /\ synced (set_randomness id r em)) as [? ?]
      by (split_and!; try done; by eapply small_same).
    unfold set_randomness, ExtentMap.lookup. destruct (entries_ em !! id) as [e|] eqn:He; [|done].
    eapply inplace_inv; try done. apply pack_range.
  - pose proof (io_ref_inc_space id em) as (El & _).
    enough (em_wf (io_ref_inc id em) /\ synced (io_ref_inc id em)) as [? ?]
      by (split_and!; try done; by eapply small_same).
    unfold io_ref_inc, ExtentMap.lookup. destruct (entries_ em !! id) as [e|] eqn:He; [|done].
    eapply inplace_inv; try done. by destruct (Hwf _ _ He) as (_ & _ & _ & ?).
  - pose proof (io_ref_dec_space id em) as (El & _).
    enough (em_wf (io_ref_dec id em) /\ synced (io_ref_dec id em)) as [? ?]
      by (split_and!; try done; by eapply small_same).
    unfold io_ref_dec, ExtentMap.lookup. destruct (entries_ em !! id) as [e|] eqn:He; [|done].
    eapply inplace_inv; try done. by destruct (Hwf _ _ He) as (_ & _ & _ & ?).
  - pose proof (begin_migration_space id em) as (El & _).
    enough (em_wf (begin_migration id em).2 /\ synced (begin_migration id em).2) as [? ?]
      by (split_and!; try done; by eapply small_same).
    unfold begin_migration, ExtentMap.lookup. destruct (entries_ em !! id) as [e|] eqn:He; [|done].
    case_match; [done|]. eapply inplace_inv; try done. apply pack_range.
  - destruct (free_inv id em Hwf Hs) as [? ?]. split_and!; try done.
    intros id' e'. unfold free, ExtentMap.lookup. destruct (entries_ em !! id); [|apply Hsm].
    simpl. rewrite set_free_list_entries. simpl. rewrite lookup_delete_Some. intros [_ ?]. by eapply Hsm.
Qed.

Lemma run_ops_inv ops em : Forall op_ok ops -> seq_inv em -> seq_inv (foldl run_op em ops).
Proof. intros Hop. revert em. induction Hop; intros em Hi; [done|]. simpl. by apply IHHop, run_op_inv. Qed.

(** ** Best fit *)

Lemma fl_lt_spec x y : fl_lt x y = true <-> x.1 < y.1 \/ (x.1 = y.1 /\ x.2 < y.2).
Proof. unfold fl_lt. rewrite orb_true_iff, andb_true_iff, !Z.ltb_lt, Z.eqb_eq. done. Qed.

Lemma fl_le_spec x y : fl_le x y <-> x.1 < y.1 \/ (x.1 = y.1 /\ x.2 <= y.2).
Proof. unfold fl_le. rewrite <- not_true_iff_false, fl_lt_spec. lia. Qed.

#[local] Instance fl_le_trans : Transitive fl_le.
Proof. intros x y z. rewrite !fl_le_spec. lia. Qed.
#[local] Instance fl_le_refl : Reflexive fl_le.
Proof. intros x. rewrite fl_le_spec. lia. Qed.
#[local] Instance fl_le_total : Total fl_le.
Proof. intros x y. rewrite !fl_le_spec. lia. Qed.

Lemma find_first {T} (R : relation T) `{!Reflexive R} (p : T -> bool) (l : list T) (x : T) :
  StronglySorted R l -> List.find p l = Some x ->
  x ∈ l /\ p x = true /\ forall y, y ∈ l -> p y = true -> R x y.
Proof.
  induction 1 as [|a l Hs IH Ha]; simpl; [done|]. destruct (p a) eqn:E.
  - intros [= <-]. split_and!; [by left|done|]. intros y Hy _. apply elem_of_cons in Hy as [->|Hy]; [done|].
    rewrite Forall_forall in Ha. by apply Ha.
  - intros Hf. destruct (IH Hf) as (? & ? & Hy). split_and!; [by right|done|].
    intros y Hin Hp. apply elem_of_cons in Hin as [->|Hin]; [congruence|auto].
Qed.

Lemma candidates_spec t needed em x :
  x ∈ (span (fun p => negb (fl_lt p (needed, 0))) (merge_sort fl_le (elements (free_list t em)))).2 <->
  x ∈ free_list t em /\ fl_lt x (needed, 0) = false.
Proof.
  set (l := merge_sort fl_le _).
  assert (forall y, y ∈ l <-> y ∈ free_list t em) as Hl.
  { intros y. subst l. rewrite merge_sort_Permutation. apply elem_of_elements. }
  pose proof (StronglySorted_merge_sort fl_le (elements (free_list t em))) as Hs. fold l in Hs.
  rewrite <- Hl. destruct (span _ l) as [a b] eqn:E. apply span_spec in E as (E & Ha & Hb). simpl.
  rewrite E in *. rewrite elem_of_app. split.
  - intros Hx. split; [by right|]. destruct b as [|b0 b]; [by apply not_elem_of_nil in Hx|].
    apply negb_true_iff in Hb. apply elem_of_cons in Hx as [->|Hx]; [done|].
    assert (fl_le b0 x) as Hle.
    { apply (StronglySorted_app_1_elem_of _ (a ++ [b0]) b) with (x1 := b0) (x2 := x); [|set_solver|done].
      by rewrite <- app_assoc. }
    rewrite <- not_true_iff_false, fl_lt_spec in *. apply fl_le_spec in Hle. simpl in *. lia.
  - intros [[Hx|Hx] Hn]; [|done]. rewrite Forall_forall in Ha. specialize (Ha _ Hx). simpl in Ha.
    by rewrite Hn in Ha.
Qed.

Definition eligible (t : Tier) (needed : Z) (e : ExtentEntry) : Prop :=
  tier (location e) = t /\ state (raw e) = ACTIVE /\ needed <= free_bytes_of e.

Lemma eligible_candidate t needed em id e :
  synced em -> entries_ em !! id = Some e -> 0 <= id -> eligible t needed e ->
  (free_bytes_of e, id) ∈ free_list t em /\ fl_lt (free_bytes_of e, id) (needed, 0) = false.
Proof.
  intros Hs He Hid (Ht & _ & Hn). split; [apply Hs; by exists e|].
  apply not_true_iff_false. rewrite fl_lt_spec. simpl. lia.
Qed.

Lemma find_extent_spec t needed em :
  synced em -> (forall id e, entries_ em !! id = Some e -> 0 <= id < UINT64_MAX) ->
  (exists e, entries_ em !! find_extent_with_space t needed em = Some e /\ eligible t needed e /\
     forall id' e', entries_ em !! id' = Some e' -> eligible t needed e' ->
       fl_le (free_bytes_of e, find_extent_with_space t needed em) (free_bytes_of e', id')) \/
  (find_extent_with_space t needed em = UINT64_MAX /\
     forall id' e', entries_ em !! id' = Some e' -> ~ eligible t needed e').
Proof.
  intros Hs Hid. unfold find_extent_with_space.
  set (c := (span _ _).2). pose proof (candidates_spec t needed em) as Hc. fold c in Hc.
  destruct (List.find (fun p => is_active em p.2) c) as [[f id]|] eqn:E.
  - left. apply (find_first fl_le) in E as (Hin & Ha & Hmin).
    + apply Hc in Hin as [Hin Hlt]. apply Hs in Hin as (e & He & Ht & ->). simpl in *.
      unfold is_active, ExtentMap.lookup in Ha. rewrite He in Ha. apply Z.eqb_eq in Ha.
      exists e. split; [done|]. split.
      * split_and!; try done. apply not_true_iff_false in Hlt. rewrite fl_lt_spec in Hlt. simpl in Hlt. lia.
      * intros id' e' He' Hel. apply (Hmin (free_bytes_of e', id')).
        { apply Hc. eapply eligible_candidate; try done. by destruct (Hid _ _ He'). }
        unfold is_active, ExtentMap.lookup. cbn [snd]. rewrite He'. apply Z.eqb_eq. apply Hel.
    + unfold c. pose proof (StronglySorted_merge_sort fl_le (elements (free_list t em))) as Hss.
      destruct (span _ _) as [a b] eqn:Esp. apply span_spec in Esp as (Esp & _). rewrite Esp in Hss.
      by apply StronglySorted_app_1_r in Hss.
  - right. split; [done|]. intros id' e' He' Hel.
    pose proof (List.find_none _ _ E (free_bytes_of e', id')) as Hno. simpl in Hno.
    assert (is_active em id' = true) as Ha.
    { unfold is_active, ExtentMap.lookup. rewrite He'. apply Z.eqb_eq. apply Hel. }
    rewrite Ha in Hno. enough (true = false) by done. apply Hno.
    apply list_elem_of_In, Hc. eapply eligible_candidate; try done. by destruct (Hid _ _ He').
Qed.

(** ** Migration *)

Definition op_id (o : em_op) : Z :=
  match o with
  | Append id _ | MarkDead id _ | RecordIo id _ _ | SetRandomness id _
  | IoRefInc id | IoRefDec id | BeginMigration id | Free id => id
  end.

Lemma run_op_other em o id : op_id o <> id -> entries_ (run_op em o) !! id = entries_ em !! id.
Proof.
  intros Hne. destruct o as [i n|i n|i op now|i r|i|i|i|i]; simpl in *.
  - unfold append_slot, ExtentMap.lookup. destruct (entries_ em !! i); [|done]. do 2 (case_match; [done|]).
    simpl. unfold update_free_list. rewrite set_free_list_entries. simpl. by rewrite lookup_insert_ne.
  - unfold mark_dead_slot, ExtentMap.lookup. destruct (entries_ em !! i); [|done].
    unfold update_free_list. rewrite set_free_list_entries. simpl. by rewrite lookup_insert_ne.
  - unfold record_io, ExtentMap.lookup. destruct (entries_ em !! i); [|done]. simpl. by rewrite lookup_insert_ne.
  - unfold set_randomness, ExtentMap.lookup. destruct (entries_ em !! i); [|done]. simpl. by rewrite lookup_insert_ne.
  - unfold io_ref_inc, ExtentMap.lookup. destruct (entries_ em !! i); [|done]. simpl. by rewrite lookup_insert_ne.
  - unfold io_ref_dec, ExtentMap.lookup. destruct (entries_ em !! i); [|done]. simpl. by rewrite lookup_insert_ne.
  - unfold begin_migration, ExtentMap.lookup. destruct (entries_ em !! i); [|done]. case_match; [done|].
    simpl. by rewrite lookup_insert_ne.
  - unfold free, ExtentMap.lookup. destruct (entries_ em !! i); [|done].
    simpl. rewrite set_free_list_entries. simpl. by rewrite lookup_delete_ne.
Qed.

(** How often an operation bumps the generation of extent [id] while it
    migrates: appends are refused, so only [mark_dead_slot] does. *)
Definition dead_on (id : Z) (o : em_op) : bool :=
  match o with MarkDead i _ => i =? id | _ => false end.

Definition migrating_at (em : em_t) (id : Z) (l : DiskLocation) (g : Z) : Prop :=
  exists e, entries_ em !! id = Some e /\ state (raw e) = MIGRATING /\ location e = l /\
    uint 64 (raw e) /\ generation (raw e) = g mod 2 ^ 32.

Lemma gen_mod v : uint 64 v -> generation v mod 2 ^ 32 = generation v.
Proof. intros. by apply Z.mod_small, generation_range. Qed.

Lemma migrating_step em o id l g :
  o <> Free id -> migrating_at em id l g ->
  migrating_at (run_op em o) id l (g + if dead_on id o then 1 else 0).
Proof.
  intros Hnf (e & He & Hst & Hl & Hr & Hg).
  destruct (decide (op_id o = id)) as [Hid|Hne].
  2:{ exists e. rewrite run_op_other by done. split_and!; try done.
      destruct o; simpl in *; try (by rewrite Z.add_0_r).
      destruct (Z.eqb_spec id0 id); [done|by rewrite Z.add_0_r]. }
  destruct o as [i n|i n|i op now|i r|i|i|i|i]; simpl in *; subst i; rewrite ?Z.add_0_r;
    try done.
  - exists e. unfold append_slot, ExtentMap.lookup. by rewrite He, Hst.
  - rewrite Z.eqb_refl. unfold mark_dead_slot, ExtentMap.lookup. rewrite He.
    unfold update_free_list. eexists. rewrite set_free_list_entries. simpl. rewrite lookup_insert_eq.
    split; [done|]. rewrite bump_state, bump_gen by done. simpl. rewrite Hst. split_and!; try done; [apply pack_range|].
    by rewrite Hg, Z.add_mod_idemp_l by lia.
  - unfold record_io, ExtentMap.lookup. rewrite He. eexists. simpl. rewrite lookup_insert_eq.
    split; [done|]. simpl. autorewrite with metrics. rewrite Hst, gen_mod by done.
    split_and!; try done; apply pack_range.
  - unfold set_randomness, ExtentMap.lookup. rewrite He. eexists. simpl. rewrite lookup_insert_eq.
    split; [done|]. simpl. autorewrite with metrics. rewrite Hst, gen_mod by done.
    split_and!; try done; apply pack_range.
  - unfold io_ref_inc, ExtentMap.lookup. rewrite He. eexists. simpl. rewrite lookup_insert_eq. done.
  - unfold io_ref_dec, ExtentMap.lookup. rewrite He. eexists. simpl. rewrite lookup_insert_eq. done.
  - exists e. unfold begin_migration, ExtentMap.lookup. by rewrite He, Hst.
Qed.

(** *** Other calls while an extent migrates

    One call that does not free the extent [id] and does not end its migration, and
    whether it marked a slot of it dead. *)
Inductive meanwhile (id : Z) : em_t -> Z -> em_t -> Prop :=
| m_op o em : o <> Free id -> meanwhile id em (if dead_on id o then 1 else 0) (run_op em o)
| m_abort h em : h_extent_id h <> id -> meanwhile id em 0 (abort_migration h em)
| m_commit h l em : h_extent_id h <> id -> meanwhile id em 0 (commit_migration h l em).2
| m_allocate t sz em (ds : Devs D) r em' ds' : next_extent_id em <> id -> allocate_extent t sz em ds = Some (r, em', ds') -> meanwhile id em 0 em'
| m_allocate_raw t sz em r em' : allocate_raw t sz em = Some (r, em') -> meanwhile id em 0 em'
| m_release l em : meanwhile id em 0 (release_source l em)
| m_process em em' : process_deferred_free em = Some em' -> meanwhile id em 0 em'
| m_clear em : meanwhile id em 0 (clear_deferred_free em)
| m_restore i used live em : meanwhile id em 0 (restore_extent_state i used live em)
| m_create i l em : i <> id -> meanwhile id em 0 (create_entry_from_journal i l em)
| m_flush em (ds : Devs D) : meanwhile id em 0 (flush_dirty_headers em ds).1.

(** A sequence of them, with the number of marks. *)
Inductive meantime (id : Z) : em_t -> Z -> em_t -> Prop :=
| mt_nil em : meantime id em 0 em
| mt_cons em n em' k em'' : meanwhile id em n em' -> meantime id em' k em'' -> meantime id em (n + k) em''.

Lemma migrating_entry em em' id l g : entries_ em' !! id = entries_ em !! id -> migrating_at em id l g -> migrating_at em' id l g.
Proof. intros E (e & He & Hr). exists e. by rewrite E. Qed.

Lemma alloc_space_entries t sz em r em' : alloc_space t sz em = Some (r, em') -> entries_ em' = entries_ em /\ next_extent_id em' = next_extent_id em.
Proof.
  unfold alloc_space. destruct (alloc_of t em) as [a|]; [|by intros [= <- <-]]. destruct (Allocator.allocate _ _ _ _ a) as [[[got exts] a']|]; [|done]. cbn [mbind option_bind]. destruct exts; [intros [= <- <-]; by destruct t|]. destruct (_ <? _); intros [= <- <-]; by destruct t.
Qed.
Lemma alloc_retry_entries t sz em r em' : alloc_space_retry t sz em = Some (r, em') -> entries_ em' = entries_ em /\ next_extent_id em' = next_extent_id em.
Proof.
  unfold alloc_space_retry. destruct (alloc_space t sz em) as [[r1 em1]|] eqn:E1; [|done]. cbn [mbind option_bind]. apply alloc_space_entries in E1 as [<- <-]. destruct r1; [by intros [= <- <-]|]. destruct t; [|by intros [= <- <-]]. destruct (alloc_of FAST em); [|by intros [= <- <-]]. apply alloc_space_entries.
Qed.
Lemma deferred_loop_entries seq dl : forall em kept em', deferred_loop seq dl em = Some (kept, em') -> entries_ em' = entries_ em.
Proof.
  induction dl as [|d dl IH]; intros em kept em'; cbn [deferred_loop]; [by intros [= <- <-]|]. destruct (2 <=? _).
  - destruct (alloc_of (tier (dloc d)) em) as [a|]; cbn [mbind option_bind]; [|by apply IH]. destruct (Allocator.release _ a); [|done]. cbn [mbind option_bind]. intros E%IH. rewrite E. by destruct (tier (dloc d)).
  - destruct (deferred_loop seq dl em) as [[k e1]|] eqn:E; [|done]. cbn [mbind option_bind]. intros [= <- <-]. by eapply IH.
Qed.

Lemma meanwhile_migrating id em n em' l g : meanwhile id em n em' -> migrating_at em id l g -> migrating_at em' id l (g + n).
Proof.
  destruct 1 as [o em Ho|h em Hh|h l' em Hh|t sz em ds r em' ds' Hid E|t sz em r em' E|l' em|em em' E|em|i u v em|i l' em Hi|em ds]; intros Hm; rewrite ?Z.add_0_r.
  - by apply migrating_step.
  - eapply migrating_entry; [|exact Hm]. unfold abort_migration, ExtentMap.lookup. destruct (entries_ em !! h_extent_id h); [|done]. destruct (negb _); [done|]. cbn. by rewrite lookup_insert_ne.
  - eapply migrating_entry; [|exact Hm]. unfold commit_migration, ExtentMap.lookup. destruct (entries_ em !! h_extent_id h); [|done]. destruct (negb _); [done|]. cbn. by rewrite lookup_insert_ne.
  - eapply migrating_entry; [|exact Hm]. unfold allocate_extent in E. destruct (alloc_space_retry t sz em) as [[r1 em1]|] eqn:E1; [|done]. cbn [mbind option_bind] in E. apply alloc_retry_entries in E1 as [E1 E2]. destruct r1 as [l1|]; simplify_eq/=; [|by rewrite E1]. rewrite set_free_list_entries. cbn. rewrite E2, lookup_insert_ne by done. by rewrite E1.
  - eapply migrating_entry; [|exact Hm]. by apply alloc_retry_entries in E as [-> _].
  - done.
  - eapply migrating_entry; [|exact Hm]. unfold process_deferred_free in E. destruct (deferred_loop _ _ em) as [[k e1]|] eqn:E1; [|done]. cbn [mbind option_bind] in E. simplify_eq. cbn. by rewrite (deferred_loop_entries _ _ _ _ _ E1).
  - done.
  - destruct Hm as (e & He & Hst & Hl & Hr). unfold restore_extent_state, ExtentMap.lookup. destruct (decide (i = id)) as [->|Hne].
    + rewrite He. eexists. cbn. unfold update_free_list. rewrite set_free_list_entries. cbn. rewrite lookup_insert_eq. done.
    + exists e. destruct (entries_ em !! i); [|done]. cbn. unfold update_free_list. rewrite set_free_list_entries. cbn. by rewrite lookup_insert_ne.
  - eapply migrating_entry; [|exact Hm]. unfold create_entry_from_journal. rewrite set_free_list_entries. destruct (_ <=? _); cbn; by rewrite lookup_insert_ne.
  - done.
Qed.

Lemma meantime_migrating id em n em' l g : meantime id em n em' -> migrating_at em id l g -> 0 <= n /\ migrating_at em' id l (g + n).
Proof.
  intros Hs. revert g. induction Hs as [em|em n em1 k em2 H1 _ IH]; intros g Hm; [by rewrite Z.add_0_r|]. pose proof (meanwhile_migrating _ _ _ _ _ _ H1 Hm) as Hm1. destruct (IH _ Hm1) as [Hk Hm2]. rewrite Z.add_assoc. split; [|done]. destruct H1; try lia. destruct (dead_on id o); lia.
Qed.

Lemma begin_migrating em id h em' :
  em_wf em -> begin_migration id em = (Some h, em') ->
  h_extent_id h = id /\ migrating_at em' id (src_loc h) (gen_before h) /\
  0 <= gen_before h < 2 ^ 32 /\ get_location id em = Some (src_loc h).
Proof.
  intros Hwf. unfold begin_migration, get_location, ExtentMap.lookup.
  destruct (entries_ em !! id) as [e|] eqn:He; [|done]. destruct (negb _) eqn:Ha; [done|].
  intros [= <- <-]. simpl. destruct (Hwf _ _ He) as (_ & _ & _ & Hr).
  split_and!; try done; try by apply generation_range.
  eexists. simpl. rewrite lookup_insert_eq. split; [done|]. simpl. autorewrite with metrics.
  split_and!; try done; apply pack_range.
Qed.

Lemma commit_cases em id l g h nl :
  migrating_at em id l g -> h_extent_id h = id -> 0 <= gen_before h < 2 ^ 32 ->
  (commit_migration h nl em).1 = bool_decide (g mod 2 ^ 32 = gen_before h) /\
  get_location id (commit_migration h nl em).2 =
    Some (if bool_decide (g mod 2 ^ 32 = gen_before h) then nl else l).
Proof.
  intros (e & He & _ & Hl & Hr & Hg) <- Hgb. unfold commit_migration, get_location, ExtentMap.lookup.
  rewrite He, Hg. destruct (Z.eqb_spec (g mod 2 ^ 32) (gen_before h)) as [E|E].
  - rewrite bool_decide_true by done. cbn -[Z.pow]. by rewrite lookup_insert_eq.
  - rewrite bool_decide_false by done. cbn -[Z.pow]. by rewrite He, <- Hl.
Qed.

(** ** Deferred frees *)

Lemma not_due seq d :
  0 <= added_at_seqno d <= seq -> seq < 2 ^ 64 ->
  negb (due seq d) = true <-> seq < added_at_seqno d + 2.
Proof.
  intros Hd Hs. unfold due. rewrite u64_small by lia.
  destruct (Z.leb_spec 2 (seq - added_at_seqno d)); simpl; split; (done || lia).
Qed.
End Ops.

(** ** Properties *)

Definition loc_range (l : DiskLocation) : gset Z := zrange (offset l) (length l).

Section Space.
Context {A : Type} `{Allocator.AllocatorSpec A} `{Hzero : !Allocator.FromZero A}.

Lemma two_regions t (em : ExtentMap A) raws a id1 id2 e1 e2 :
  tier_ok t em (regions em raws) -> alloc_of t em = Some a ->
  entries_ em !! id1 = Some e1 -> entries_ em !! id2 = Some e2 -> id1 <> id2 ->
  tier (location e1) = t -> tier (location e2) = t ->
  loc_range (location e1) ## loc_range (location e2).
Proof.
  intros Ht Ha H1 H2 Hne T1 T2. set (em1 := set_entries (delete id1 (entries_ em)) em).
  assert (entries_ em1 !! id2 = Some e2) as H2' by (simpl; by rewrite lookup_delete_ne).
  assert (tier_ok t em (location e1 :: location e2 ::
    regions (set_entries (delete id2 (entries_ em1)) em1) raws)) as Ht'.
  { eapply tier_ok_perm; [|done|done|exact Ht].
    rewrite (regions_delete em1 id2 e2 raws H2'). unfold em1. by rewrite (regions_delete em id1 e1 raws H1). }
  destruct (Ht' a Ha) as (_ & _ & Hd & _). rewrite !held_cons, !decide_True in Hd by done.
  simpl in Hd. destruct Hd as [Hd _]. rewrite Allocator.extents_set_cons in Hd.
  change (loc_range (location e1)) with (Allocator.extent_range (ext_of (location e1))).
  change (loc_range (location e2)) with (Allocator.extent_range (ext_of (location e2))). set_solver.
Qed.

Lemma entry_region (em : ExtentMap A) raws id e :
  entries_ em !! id = Some e -> exists rs, regions em raws ≡ₚ location e :: rs.
Proof. intros He. eexists. symmetry. exact (regions_delete em id e raws He). Qed.


(** The grace period of a deferred free: [process_deferred_free] succeeds,
    advances the sequence number, leaves the live extents alone, and keeps a
    deferred region exactly while fewer than two earlier calls have run since
    the region was added; so a region survives the first two calls and is
    released by the third. *)
Theorem deferred_free_grace (em : ExtentMap A) raws :
  space_ok em raws -> 0 <= seqno_ em < 2 ^ 64 - 1 ->
  (forall d, d ∈ deferred_free_ em -> 0 <= added_at_seqno d <= seqno_ em) ->
  exists em', process_deferred_free em = Some em' /\ space_ok em' raws /\
    seqno_ em' = seqno_ em + 1 /\ entries_ em' = entries_ em /\
    forall d, d ∈ deferred_free_ em' <-> d ∈ deferred_free_ em /\ seqno_ em < added_at_seqno d + 2.
Proof.
  intros Hok Hs Hd. destruct (process_deferred_space em raws Hok) as (em' & E & Hok' & Ee & Es & Ef & _).
  exists em'. rewrite u64_small in Es by lia. split_and!; try done.
  intros d. rewrite Ef, !list_elem_of_In, List.filter_In, <- !list_elem_of_In.
  split; intros [Hin Hx]; (split; [done|]); apply (not_due (seqno_ em) d); (done || lia || by apply Hd).
Qed.
End Space.

(** Two tiers of 1 MiB, all of it free. *)
Definition demo_em : ExtentMap (Avl.AvlAllocator unit) :=
  add_allocator SLOW AvlSpec.demo (add_allocator FAST AvlSpec.demo (create 4096 65536)).

#[local] Existing Instance AvlSpec.avl_allocator.

Lemma demo_space : space_ok (H := AvlSpec.avl_allocator 0) demo_em [].
Proof.
  split; [simpl; lia|]. split; [done|]. split; [simpl; lia|].
  intros t a Ha. assert (a = AvlSpec.demo) as -> by (destruct t; simpl in Ha; congruence).
  split_and!; [exact AvlSpec.demo_ok|done|done| |done]. apply disjoint_empty_l.
Qed.

(** The state after one extent was allocated on the fast tier. *)
Definition no_devs : Devs ramdisk := mk_devs None None.
Definition demo_em1 : ExtentMap (Avl.AvlAllocator unit) :=
  match allocate_extent (H := AvlSpec.avl_allocator 0) FAST 65536 demo_em no_devs with
  | Some (_, em, _) => em
  | None => demo_em
  end.

Lemma demo_em1_entries :
  map_to_list (entries_ demo_em1) = [(1, new_entry (mk_loc 0 65536 FAST))].
Proof. vm_compute. reflexivity. Qed.

Lemma demo_em1_step : rtc (step (H := AvlSpec.avl_allocator 0) (D := ramdisk)) (demo_em, []) (demo_em1, []).
Proof.
  eapply rtc_l; [|apply rtc_refl].
  apply (s_allocate_extent (H := AvlSpec.avl_allocator 0) demo_em [] FAST 65536 no_devs
    (Some (1, mk_loc 0 65536 FAST)) demo_em1 no_devs); [lia|simpl; lia|simpl; lia|].
  vm_compute. reflexivity.
Defined.

(** The same from new allocators, with two extents. *)
Definition demo_new : Avl.AvlAllocator unit := Avl.create 80 1048576 4096 0 tt.
Lemma demo_new_fresh : fresh_for (H0 := AvlSpec.avl_allocator_spec 0) 4096 demo_new.
Proof. destruct (AvlSpec.avl_create_ok 80 1048576 12) as [? ?]; [lia..|]. by split_and!. Qed.

Definition demo_set_up : ExtentMap (Avl.AvlAllocator unit) := match set_up (H := AvlSpec.avl_allocator 0) 4096 65536 demo_new demo_new with Some em => em | None => demo_em end.
Definition demo_one : ExtentMap (Avl.AvlAllocator unit) := match allocate_extent (H := AvlSpec.avl_allocator 0) FAST 65536 demo_set_up no_devs with Some (_, em, _) => em | None => demo_em end.
Definition demo_two : ExtentMap (Avl.AvlAllocator unit) := match allocate_extent (H := AvlSpec.avl_allocator 0) FAST 8192 demo_one no_devs with Some (_, em, _) => em | None => demo_em end.

Lemma demo_two_steps : rtc (step (H0 := AvlSpec.avl_allocator_spec 0) (D := ramdisk)) (demo_set_up, []) (demo_two, []).
Proof.
  apply (rtc_l _ _ (demo_one, [])); [|apply (rtc_l _ _ (demo_two, [])); [|apply rtc_refl]].
  - apply (s_allocate_extent (H := AvlSpec.avl_allocator 0) demo_set_up [] FAST 65536 no_devs (Some (1, mk_loc 0 65536 FAST)) demo_one no_devs); [lia|vm_compute; reflexivity|vm_compute; reflexivity|vm_compute; reflexivity].
  - apply (s_allocate_extent (H := AvlSpec.avl_allocator 0) demo_one [] FAST 8192 no_devs (Some (2, mk_loc 65536 8192 FAST)) demo_two no_devs); [lia|vm_compute; reflexivity|vm_compute; reflexivity|vm_compute; reflexivity].
Qed.


Lemma deferred_free_grace_witness :
  exists em', process_deferred_free (H := AvlSpec.avl_allocator 0) (free 1 demo_em1) = Some em' /\
    mk_dfe (mk_loc 0 65536 FAST) 0 ∈ deferred_free_ em'.
Proof.
  set (em := free 1 demo_em1).
  assert (space_ok (H := AvlSpec.avl_allocator 0) em []) as Hok.
  { apply free_space. apply (reachable_space (H := AvlSpec.avl_allocator 0) (demo_em, []) (demo_em1, []));
      [exact demo_space|exact demo_em1_step]. }
  assert (deferred_free_ em = [mk_dfe (mk_loc 0 65536 FAST) 0]) as Ed by (vm_compute; reflexivity).
  assert (seqno_ em = 0) as Es by (vm_compute; reflexivity).
  destruct (deferred_free_grace (H := AvlSpec.avl_allocator 0) em [] Hok) as (em' & E & _ & _ & _ & Hk).
  - rewrite Es. lia.
  - intros d. rewrite Ed, list_elem_of_singleton, Es. intros ->. simpl. lia.
  - exists em'. split; [exact E|]. apply Hk. rewrite Ed, Es, list_elem_of_singleton. split; [reflexivity|simpl; lia].
Defined.

Section Calls.
Context {A D : Type} `{Allocator.Allocator A} `{BlockDevice D}.

(** [append_slot] reserves space exactly when the extent exists, is ACTIVE
    and has room: then it returns the old end of the data, so the new slot lies
    behind all earlier ones and inside the extent, [used_bytes] and
    [live_bytes] grow by the size, the generation goes up by one, other extents
    are unchanged; in every other case it returns [UINT32_MAX] and changes
    nothing.  The invariant of the map is kept. *)
Theorem append_slot_correct (em : ExtentMap A) id size :
  seq_inv em -> 0 <= size < 2 ^ 31 ->
  seq_inv (append_slot id size em).2 /\
  match entries_ em !! id with
  | None => append_slot id size em = (UINT32_MAX, em)
  | Some e =>
      if can_append e size then
        (append_slot id size em).1 = used_bytes e /\
        0 <= used_bytes e /\ used_bytes e + size <= length (location e) - HEADER_SIZE /\
        (exists e', entries_ (append_slot id size em).2 = <[id := e']> (entries_ em) /\
           location e' = location e /\ used_bytes e' = used_bytes e + size /\
           live_bytes e' = live_bytes e + size /\ state (raw e') = ACTIVE /\
           generation (raw e') = (generation (raw e) + 1) mod 2 ^ 32)
      else append_slot id size em = (UINT32_MAX, em)
  end.
Proof.
  intros Hi Hs. split; [by apply (run_op_inv em (Append id size))|].
  destruct Hi as (Hwf & _ & Hsm). destruct (entries_ em !! id) as [e|] eqn:He;
    [|unfold append_slot, ExtentMap.lookup; by rewrite He].
  pose proof (Hwf _ _ He) as Hok. pose proof Hok as (? & ? & ? & Hr). specialize (Hsm _ _ He).
  rewrite (append_slot_eq id size em e He Hok) by (unfold HEADER_SIZE in *; lia).
  destruct (can_append e size) eqn:Hc; [|done].
  pose proof Hc as Hc'. apply andb_true_iff in Hc' as [Ha%Z.eqb_eq Hc'%Z.leb_le].
  split_and!; try done; [lia|]. exists (appended size e). unfold update_free_list. cbn [snd].
  rewrite set_free_list_entries. split_and!; try done; unfold appended.
  - by rewrite bump_state.
  - by rewrite bump_gen.
Qed.

(** The free lists are exact and [find_extent_with_space] is best fit:
    after any sequence of calls (migrations that do not commit included), it
    returns an ACTIVE extent of the tier with enough free bytes and, among
    those, the least free bytes; it returns [UINT64_MAX] only when there is no
    such extent. *)
Theorem find_extent_best_fit (em : ExtentMap A) (ops : list em_op) t needed :
  seq_inv em -> Forall op_ok ops ->
  (forall id e, entries_ (foldl run_op em ops) !! id = Some e -> 0 <= id < UINT64_MAX) ->
  let em' := foldl run_op em ops in
  let id := find_extent_with_space t needed em' in
  (exists e, entries_ em' !! id = Some e /\ eligible t needed e /\
     forall id' e', entries_ em' !! id' = Some e' -> eligible t needed e' ->
       free_bytes_of e <= free_bytes_of e') \/
  (id = UINT64_MAX /\ forall id' e', entries_ em' !! id' = Some e' -> ~ eligible t needed e').
Proof.
  intros Hi Hop Hid. cbv zeta. destruct (run_ops_inv ops em Hop Hi) as (_ & Hs & _).
  destruct (find_extent_spec t needed (foldl run_op em ops) Hs Hid) as [(e & He & Hel & Hmin)|Hno];
    [left|by right].
  exists e. split_and!; try done. intros id' e' He' Hel'. specialize (Hmin _ _ He' Hel').
  apply fl_le_spec in Hmin. cbn [fst snd] in Hmin. lia.
Qed.

(** C27: the generation check of the migration protocol.  Between [begin_migration]
    and [commit_migration] any sequence of other calls may run that does not free the
    extent, does not end its migration and does not create an extent with its number:
    slots, metrics, allocations, other migrations, deferred frees.  No append reaches
    the extent, and as long as fewer than [2^32] slots of it are marked dead, after
    which the 32-bit generation comes back, the commit succeeds exactly when none was;
    it then moves the extent to the new location, and otherwise leaves it where it
    was. *)
Theorem migration_commit_iff_unmodified (em em1 em2 : ExtentMap A) id h n new_loc :
  em_wf em -> begin_migration id em = (Some h, em1) ->
  meantime (D := D) id em1 n em2 -> n < 2 ^ 32 ->
  (commit_migration h new_loc em2).1 = bool_decide (n = 0) /\
  get_location id (commit_migration h new_loc em2).2 = Some (if bool_decide (n = 0) then new_loc else src_loc h) /\
  get_location id em = Some (src_loc h) /\
  check_migration h em2 = bool_decide (n = 0) /\
  forall size, append_slot id size em2 = (UINT32_MAX, em2).
Proof.
  intros Hwf Eb Hmt Hn. destruct (begin_migrating em id h em1 Hwf Eb) as (Hid & Hm & Hgb & Hloc).
  destruct (meantime_migrating _ _ _ _ _ _ Hmt Hm) as [Hn0 Hm2].
  destruct (commit_cases em2 id _ _ h new_loc Hm2 Hid Hgb) as [Hc1 Hc2].
  assert (bool_decide ((gen_before h + n) mod 2 ^ 32 = gen_before h) = bool_decide (n = 0)) as Eq.
  { apply bool_decide_ext. split; [|intros ->; rewrite Z.add_0_r; by apply Z.mod_small].
    intros E. destruct (decide (gen_before h + n < 2 ^ 32)).
    - rewrite Z.mod_small in E by lia. lia.
    - replace (gen_before h + n) with (gen_before h + n - 2 ^ 32 + 1 * 2 ^ 32) in E by lia.
      rewrite Z.mod_add, Z.mod_small in E by lia. lia. }
  rewrite Eq in Hc1, Hc2. split_and!; try done; destruct Hm2 as (e & He & Hst & _ & _ & Hg).
  - unfold check_migration, ExtentMap.lookup. rewrite Hid, He, Hg, <- Eq.
    apply eq_true_iff_eq. by rewrite Z.eqb_eq, bool_decide_eq_true.
  - intros size. unfold append_slot, ExtentMap.lookup. by rewrite He, Hst.
Qed.
End Calls.

Lemma demo_em1_inv : seq_inv demo_em1.
Proof.
  assert (forall id e, entries_ demo_em1 !! id = Some e ->
    id = 1 /\ e = new_entry (mk_loc 0 65536 FAST)) as Hent.
  { intros id e He. apply elem_of_map_to_list in He. rewrite demo_em1_entries in He.
    apply list_elem_of_singleton in He. by injection He. }
  split_and!.
  - intros id e He. apply Hent in He as [-> ->]. unfold entry_ok, HEADER_SIZE. simpl. unfold uint. lia.
  - intros t f id. split.
    + intros Hin. assert ((f, id) = (61440, 1) /\ t = FAST) as [[= -> ->] ->].
      { destruct t.
        - assert (free_list FAST demo_em1 = {[(61440, 1)]}) as E by (vm_compute; reflexivity).
          rewrite E in Hin. apply elem_of_singleton in Hin. by split.
        - assert (free_list SLOW demo_em1 = ∅) as E by (vm_compute; reflexivity).
          rewrite E in Hin. by apply elem_of_empty in Hin. }
      exists (new_entry (mk_loc 0 65536 FAST)). split_and!; [vm_compute; reflexivity|reflexivity|vm_compute; reflexivity].
    + intros (e & He & Ht & ->). apply Hent in He as [-> ->]. subst t.
      assert (free_list (tier (location (new_entry (mk_loc 0 65536 FAST)))) demo_em1 = {[(61440, 1)]})
        as -> by (vm_compute; reflexivity).
      apply elem_of_singleton. vm_compute. reflexivity.
  - intros id e He. apply Hent in He as [-> ->]. simpl. lia.
Qed.

Lemma append_slot_correct_witness :
  seq_inv (append_slot 1 100 demo_em1).2 /\ (append_slot 1 100 demo_em1).1 = 0.
Proof.
  split; [|vm_compute; reflexivity].
  exact (proj1 (append_slot_correct demo_em1 1 100 demo_em1_inv ltac:(lia))).
Defined.

Lemma find_extent_best_fit_witness :
  let em' := foldl run_op demo_em1 [Append 1 100; MarkDead 1 50] in
  find_extent_with_space FAST 4096 em' = 1 /\
  ((exists e, entries_ em' !! find_extent_with_space FAST 4096 em' = Some e /\ eligible FAST 4096 e /\
     forall id' e', entries_ em' !! id' = Some e' -> eligible FAST 4096 e' ->
       free_bytes_of e <= free_bytes_of e') \/
   (find_extent_with_space FAST 4096 em' = UINT64_MAX /\
     forall id' e', entries_ em' !! id' = Some e' -> ~ eligible FAST 4096 e')).
Proof.
  cbv zeta. split; [vm_compute; reflexivity|].
  apply (find_extent_best_fit demo_em1 [Append 1 100; MarkDead 1 50] FAST 4096 demo_em1_inv).
  - repeat constructor; simpl; lia.
  - intros id e He. apply elem_of_map_to_list in He.
    match type of He with _ ∈ ?l =>
      assert (l.*1 = [1]) as El by (vm_compute; reflexivity) end.
    apply (list_elem_of_fmap_2 fst) in He. rewrite El in He. apply list_elem_of_singleton in He.
    simpl in He. subst id. unfold UINT64_MAX. lia.
Defined.

Lemma migration_commit_iff_unmodified_witness :
  exists h em1, begin_migration 1 demo_em1 = (Some h, em1) /\
    (commit_migration h (mk_loc 131072 65536 SLOW) (run_op (run_op em1 (RecordIo 1 READ 7)) (Append 1 10))).1 = true /\
    (commit_migration h (mk_loc 131072 65536 SLOW) (clear_deferred_free (run_op em1 (MarkDead 1 10)))).1 = false.
Proof.
  set (h := mk_handle 1 (mk_loc 0 65536 FAST) 0). set (em1 := (begin_migration 1 demo_em1).2).
  assert (begin_migration 1 demo_em1 = (Some h, em1)) as E by (vm_compute; reflexivity).
  exists h, em1. split; [exact E|]. destruct demo_em1_inv as (Hwf & _). clearbody em1. split.
  - assert (meantime (H := AvlSpec.avl_allocator 0) (D := ramdisk) 1 em1 (0 + (0 + 0)) (run_op (run_op em1 (RecordIo 1 READ 7)) (Append 1 10))) as Hmt
      by (eapply mt_cons; [by apply (m_op 1 (RecordIo 1 READ 7))|]; eapply mt_cons; [by apply (m_op 1 (Append 1 10))|]; apply mt_nil).
    destruct (migration_commit_iff_unmodified (H := AvlSpec.avl_allocator 0) (D := ramdisk) demo_em1 em1 _ 1 h _ (mk_loc 131072 65536 SLOW) Hwf E Hmt ltac:(vm_compute; reflexivity)) as [Hc _]. exact Hc.
  - assert (meantime (H := AvlSpec.avl_allocator 0) (D := ramdisk) 1 em1 (1 + (0 + 0)) (clear_deferred_free (run_op em1 (MarkDead 1 10)))) as Hmt
      by (eapply mt_cons; [by apply (m_op 1 (MarkDead 1 10))|]; eapply mt_cons; [apply m_clear|]; apply mt_nil).
    destruct (migration_commit_iff_unmodified (H := AvlSpec.avl_allocator 0) (D := ramdisk) demo_em1 em1 _ 1 h _ (mk_loc 131072 65536 SLOW) Hwf E Hmt ltac:(vm_compute; reflexivity)) as [Hc _]. exact Hc.
Defined.

(** [commit_migration] does not move the extent between the free lists: after
    a committed demotion of an extent from the fast to the slow tier,
    [find_extent_with_space] still offers it for the fast tier, where it no
    longer is, and does not find it on the slow tier, where it is. *)
Theorem commit_migration_stale_free_list :
  let h := mk_handle 1 (mk_loc 0 65536 FAST) 0 in
  let '(ok, em) := commit_migration h (mk_loc 131072 65536 SLOW) (begin_migration 1 demo_em1).2 in
  ok = true /\ get_location 1 em = Some (mk_loc 131072 65536 SLOW) /\
  find_extent_with_space FAST 4096 em = 1 /\ find_extent_with_space SLOW 4096 em = UINT64_MAX.
Proof. vm_compute. split_and!; reflexivity. Qed.
End ExtentMapSpec.
