(* ===== verification/Journal.v ===== *)
(** * btier/journal.cc: the write-ahead journal

    Records and their byte encoding, the in-memory transactions, the circular
    log behind a superblock, and recovery.  The device is passed along: it is
    the fast device, which the engine writes too.  Every public method holds the
    journal's lock, so it is one step.  The exception [end_of_buffer] that
    [bufferlist::const_iterator::copy] throws is [None]. *)
From stdpp Require Import base numbers list gmap.
From Stdlib Require Import ZArith Lia SpecFloat.
From S2P Require Import Prelude Floats IntArith Crc32 Device BtierTypes.
Import Floats BtierTypes Device.

Module Journal.
#[local] Abbreviation length := Datatypes.length.

(** ** Records *)

(** [enum JournalOp : uint8_t]; a record read from disk may hold any byte. *)
Definition OP_TXN_BEGIN : Z := 1.
Definition OP_KEY_PUT : Z := 2.
Definition OP_KEY_DEL : Z := 3.
Definition OP_MARK_DEAD : Z := 4.
Definition OP_EXTENT_NEW : Z := 5.
Definition OP_EXTENT_FREE : Z := 6.
Definition OP_TXN_COMMIT : Z := 7.
Definition OP_CHECKPOINT : Z := 8.

Record JournalRecord := mk_rec {
  op : Z;
  txn_id : Z;
  key : bytes;
  key_loc : KeyLocation;
  r_extent_id : Z;
  extent_loc : DiskLocation;
  dead_length : Z;
  crc : Z;
}.

Definition empty_record (o t : Z) : JournalRecord := mk_rec o t [] default_kloc 0 default_loc 0 0.
Definition set_txn (t : Z) (r : JournalRecord) : JournalRecord :=
  mk_rec (op r) t (key r) (key_loc r) (r_extent_id r) (extent_loc r) (dead_length r) (crc r).
Definition set_crc (c : Z) (r : JournalRecord) : JournalRecord :=
  mk_rec (op r) (txn_id r) (key r) (key_loc r) (r_extent_id r) (extent_loc r) (dead_length r) c.

Definition put_u8 (v : Z) : bytes := le_bytes 1 v.
Definition put_u32 (v : Z) : bytes := le_bytes 4 v.
Definition put_u64 (v : Z) : bytes := le_bytes 8 v.

(** [p.copy(n, ...)]: take [n] bytes or throw. *)
Definition copy (n : nat) (p : bytes) : option (bytes * bytes) :=
  if (n <=? length p)%nat then Some (take n p, drop n p) else None.

Definition get_uint (n : nat) (p : bytes) : option (Z * bytes) :=
  '(b, p) ← copy n p; Some (le_val b, p).
Definition get_u8 := get_uint 1.
Definition get_u32 := get_uint 4.
Definition get_u64 := get_uint 8.

Definition put_string (s : bytes) : bytes := put_u32 (u32 (Z.of_nat (length s))) ++ s.
Definition get_string (p : bytes) : option (bytes * bytes) :=
  '(len, p) ← get_u32 p; copy (Z.to_nat len) p.

Definition put_key_location (kl : KeyLocation) : bytes :=
  put_u64 (extent_id kl) ++ put_u32 (koffset kl) ++ put_u32 (klength kl).
Definition get_key_location (p : bytes) : option (KeyLocation * bytes) :=
  '(e, p) ← get_u64 p; '(o, p) ← get_u32 p; '(l, p) ← get_u32 p; Some (mk_kloc e o l, p).

(** [(Tier)get_u8(p)]: every byte but 0 is read as the slow tier. *)
Definition tier_of_byte (b : Z) : Tier := if b =? 0 then FAST else SLOW.
Definition put_disk_location (dl : DiskLocation) : bytes :=
  put_u64 (offset dl) ++ put_u32 (BtierTypes.length dl) ++ put_u8 (tier_index (tier dl)).
Definition get_disk_location (p : bytes) : option (DiskLocation * bytes) :=
  '(o, p) ← get_u64 p; '(l, p) ← get_u32 p; '(t, p) ← get_u8 p;
  Some (mk_loc o l (tier_of_byte t), p).

Definition serialize_record (r : JournalRecord) : bytes :=
  put_u8 (op r) ++ put_u64 (txn_id r) ++
  (if op r =? OP_KEY_PUT then put_string (key r) ++ put_key_location (key_loc r)
   else if op r =? OP_KEY_DEL then put_string (key r)
   else if op r =? OP_MARK_DEAD then put_u64 (r_extent_id r) ++ put_u32 (dead_length r)
   else if op r =? OP_EXTENT_NEW then put_u64 (r_extent_id r) ++ put_disk_location (extent_loc r)
   else if op r =? OP_EXTENT_FREE then put_u64 (r_extent_id r)
   else if op r =? OP_TXN_COMMIT then put_u32 (crc r)
   else []).

Definition deserialize_record (p : bytes) : option (JournalRecord * bytes) :=
  '(o, p) ← get_u8 p;
  '(t, p) ← get_u64 p;
  if o =? OP_KEY_PUT then
    '(k, p) ← get_string p; '(kl, p) ← get_key_location p;
    Some (mk_rec o t k kl 0 default_loc 0 0, p)
  else if o =? OP_KEY_DEL then
    '(k, p) ← get_string p; Some (mk_rec o t k default_kloc 0 default_loc 0 0, p)
  else if o =? OP_MARK_DEAD then
    '(e, p) ← get_u64 p; '(dl, p) ← get_u32 p;
    Some (mk_rec o t [] default_kloc e default_loc dl 0, p)
  else if o =? OP_EXTENT_NEW then
    '(e, p) ← get_u64 p; '(dl, p) ← get_disk_location p;
    Some (mk_rec o t [] default_kloc e dl 0 0, p)
  else if o =? OP_EXTENT_FREE then
    '(e, p) ← get_u64 p; Some (mk_rec o t [] default_kloc e default_loc 0 0, p)
  else if o =? OP_TXN_COMMIT then
    '(c, p) ← get_u32 p; Some (mk_rec o t [] default_kloc 0 default_loc 0 c, p)
  else Some (empty_record o t, p).

Definition serialize_records (rs : list JournalRecord) : bytes := mjoin (serialize_record <$> rs).

(** [calc_crc32] of a buffer, 0 when it is empty. *)
Definition records_crc (b : bytes) : Z := if (0 <? length b)%nat then Crc32.calc_crc32 b 0 else 0.

(** ** State *)

Definition SB_MAGIC : Z := 0x42544A5350423031.
Definition kSuperblockSize : Z := 4096.
Definition kDataStart : Z := kSuperblockSize.
Definition kTxnAlignment : Z := 4096.

Record JournalSuperBlock := mk_sb {
  magic : Z;
  checkpoint_offset : Z;
  checkpoint_seqno : Z;
  sb_write_offset : Z;
  pad : bytes;
}.

Definition fresh_sb : JournalSuperBlock := mk_sb SB_MAGIC 0 0 0 (replicate (Z.to_nat (508 * 8)) 0).

Definition sb_bytes (sb : JournalSuperBlock) : bytes :=
  le_bytes 8 (magic sb) ++ le_bytes 8 (checkpoint_offset sb) ++ le_bytes 8 (checkpoint_seqno sb) ++
  le_bytes 8 (sb_write_offset sb) ++ pad sb.

Definition sb_of_bytes (b : bytes) : JournalSuperBlock :=
  mk_sb (le_val (take 8 b)) (le_val (take 8 (drop 8 b))) (le_val (take 8 (drop 16 b)))
    (le_val (take 8 (drop 24 b))) (drop 32 b).

Record TxnBuffer := mk_txn { records : list JournalRecord; serialized : bytes }.

Record Journal := mk_journal {
  data_size : Z;
  next_txn_id : Z;
  active_txns_ : gmap Z TxnBuffer;
  superblock_ : JournalSuperBlock;
  write_offset : Z;
}.

Definition set_sb (sb : JournalSuperBlock) (w : Z) (j : Journal) : Journal :=
  mk_journal (data_size j) (next_txn_id j) (active_txns_ j) sb w.
Definition set_txns (n : Z) (m : gmap Z TxnBuffer) (j : Journal) : Journal :=
  mk_journal (data_size j) n m (superblock_ j) (write_offset j).

Section Ops.
Context {D : Type} `{BlockDevice D}.

Definition write_superblock (j : Journal) (d : D) : Z * D :=
  let '(r, d) := dev_write 0 (sb_bytes (superblock_ j)) false d in
  if r <? 0 then (r, d) else dev_flush d.

Definition read_superblock (j : Journal) (d : D) : Z * Journal * D :=
  let '(r, bl) := dev_read 0 4096 false d in
  if r <? 0 then (r, j, d)
  else if (length bl <? Z.to_nat 4096)%nat then (- EIO, j, d)
  else
    let sb := sb_of_bytes (take (Z.to_nat 4096) bl) in
    if negb (magic sb =? SB_MAGIC) then
      let j := set_sb fresh_sb 0 j in
      let '(r, d) := write_superblock j d in (r, j, d)
    else (0, set_sb sb (sb_write_offset sb) j, d).

Definition pad_and_write (bl : bytes) (j : Journal) (d : D) : Z * Journal * D :=
  let len := Z.of_nat (length bl) in
  let padded := IntArith.round_up_to 64 len kTxnAlignment in
  let padded := if padded =? 0 then kTxnAlignment else padded in
  let bl := if len <? padded then bl ++ replicate (Z.to_nat (padded - len)) 0 else bl in
  let w := if data_size j <? write_offset j +64 padded then 0 else write_offset j in
  let '(r, d) := dev_write (kDataStart +64 w) bl false d in
  if r <? 0 then (r, set_sb (superblock_ j) w j, d)
  else
    let w := w +64 padded in
    let w := if data_size j <=? w then 0 else w in
    let '(r, d) := dev_flush d in
    (r, set_sb (superblock_ j) w j, d).

(** The constructor: reads or initializes the superblock. *)
Definition create (dev_size : Z) (d : D) : Journal * D :=
  let data_size := if kSuperblockSize <? dev_size then dev_size - kSuperblockSize else 0 in
  let '(_, j, d) := read_superblock (mk_journal data_size 1 ∅ fresh_sb 0) d in (j, d).

(** ** Transactions *)

Definition begin_txn (j : Journal) : Z * Journal :=
  let id := next_txn_id j in
  (id, set_txns (id +64 1) (<[id := default (mk_txn [] []) (active_txns_ j !! id)]> (active_txns_ j)) j).

Definition append (id : Z) (rec : JournalRecord) (j : Journal) : Z * Journal :=
  match active_txns_ j !! id with
  | None => (- ENOENT, j)
  | Some tb =>
      let r := set_txn id rec in
      let tb := mk_txn (records tb ++ [r]) (serialized tb ++ serialize_record r) in
      (0, set_txns (next_txn_id j) (<[id := tb]> (active_txns_ j)) j)
  end.

(** BEGIN, the records, COMMIT with the CRC of the records. *)
Definition txn_bytes (id : Z) (middle body : bytes) : bytes :=
  serialize_record (empty_record OP_TXN_BEGIN id) ++ middle ++ body ++
  serialize_record (set_crc (records_crc body) (empty_record OP_TXN_COMMIT id)).

Definition commit_txn (id : Z) (j : Journal) (d : D) : Z * Journal * D :=
  match active_txns_ j !! id with
  | None => (- ENOENT, j, d)
  | Some tb =>
      let txn_bl := txn_bytes id [] (serialized tb) in
      let j := set_txns (next_txn_id j) (delete id (active_txns_ j)) j in
      let '(r, j, d) := pad_and_write txn_bl j d in
      if r <? 0 then (r, j, d)
      else
        let sb := superblock_ j in
        let j := set_sb (mk_sb (magic sb) (checkpoint_offset sb) (checkpoint_seqno sb)
                          (write_offset j) (pad sb)) (write_offset j) j in
        let '(_, d) := write_superblock j d in
        (0, j, d)
  end.

(** The calls an engine makes for one transaction. *)
Definition append_all (id : Z) (rs : list JournalRecord) (j : Journal) : Journal :=
  foldl (fun j r => (append id r j).2) j rs.
Definition transaction (rs : list JournalRecord) (j : Journal) (d : D) : Z * Journal * D :=
  let '(id, j) := begin_txn j in commit_txn id (append_all id rs j) d.

Definition checkpoint (full_state : list JournalRecord) (j : Journal) (d : D) : Z * Journal * D :=
  let bl := txn_bytes 0 (serialize_record (empty_record OP_CHECKPOINT 0))
              (serialize_records full_state) in
  let ckpt_start := write_offset j in
  let '(r, j, d) := pad_and_write bl j d in
  if r <? 0 then (r, j, d)
  else
    let sb := superblock_ j in
    let j := set_sb (mk_sb (magic sb) ckpt_start (checkpoint_seqno sb +64 1)
                      (write_offset j) (pad sb)) (write_offset j) j in
    let '(_, d) := write_superblock j d in
    (0, j, d).

(** ** Recovery *)

(** The loop that reads the scanned range, at most [kTxnAlignment] bytes at a
    time; state: what is left, the position, what was read. *)
Definition read_step (j : Journal) (d : D) (s : Z * Z * bytes) : (Z * Z * bytes) + bytes :=
  let '(remaining, pos, acc) := s in
  if 0 <? remaining then
    let to_read := Z.min kTxnAlignment remaining in
    let to_read := if data_size j <? pos +64 to_read then data_size j -64 pos else to_read in
    let '(r, chunk) := dev_read (kDataStart +64 pos) to_read true d in
    if (r <? 0) || (length chunk =? 0)%nat then inr acc
    else
      let pos := pos +64 to_read in
      let pos := if data_size j <=? pos then 0 else pos in
      inl (remaining -64 to_read, pos, acc ++ chunk)
  else inr acc.

Record ParseState := mk_ps {
  result : list JournalRecord;
  current_txn : list JournalRecord;
  in_txn : bool;
  current_txn_id : Z;
}.

(** What one record does to the transaction being read. *)
Definition parse_record (s : ParseState) (rec : JournalRecord) : ParseState :=
  if op rec =? OP_TXN_BEGIN then mk_ps (result s) [] true (txn_id rec)
  else if op rec =? OP_TXN_COMMIT then
    if in_txn s && (txn_id rec =? current_txn_id s) &&
       (records_crc (serialize_records (current_txn s)) =? crc rec)
    then mk_ps (result s ++ current_txn s) [] false (current_txn_id s)
    else mk_ps (result s) [] false (current_txn_id s)
  else if in_txn s && negb (op rec =? OP_CHECKPOINT)
  then mk_ps (result s) (current_txn s ++ [rec]) true (current_txn_id s)
  else s.

(** The parse loop from offset [off] of [bl].  Every iteration moves forward,
    so [length bl] iterations are enough. *)
Fixpoint parse (fuel : nat) (bl : bytes) (off : nat) (s : ParseState)
  : option (list JournalRecord) :=
  match fuel with
  | O => Some (result s)
  | S fuel =>
      if (length bl <=? off)%nat then Some (result s)
      else if (length bl - off <? 9)%nat then Some (result s)
      else
        '(rec, rest) ← deserialize_record (drop off bl);
        if op rec =? 0 then
          let next_boundary := ((off / Z.to_nat kTxnAlignment + 1) * Z.to_nat kTxnAlignment)%nat in
          if (length bl <=? next_boundary)%nat then Some (result s)
          else parse fuel bl next_boundary s
        else parse fuel bl (length bl - length rest) (parse_record s rec)
  end.

Definition initial_ps : ParseState := mk_ps [] [] false 0.

Definition parse_all (bl : bytes) : option (list JournalRecord) :=
  parse (S (length bl)) bl 0 initial_ps.

(** Nothing to scan: the positions agree, and either they are not 0 or the
    first block cannot be read or is all zero. *)
Definition nothing_logged (j : Journal) (d : D) : bool :=
  (checkpoint_offset (superblock_ j) =? write_offset j) &&
  (if write_offset j =? 0 then
     let '(r, first) := dev_read kDataStart kTxnAlignment true d in
     (r <? 0) || (length first =? 0)%nat || forallb (fun b => b =? 0) first
   else true).

Definition scan_length (j : Journal) : Z :=
  let scan_start := checkpoint_offset (superblock_ j) in
  let scan_end := write_offset j in
  if scan_start <=? scan_end then scan_end - scan_start
  else data_size j -64 scan_start +64 scan_end.

Definition recover (j : Journal) (d : D) : option (list JournalRecord * Journal * D) :=
  let '(r, j, d) := read_superblock j d in
  if r <? 0 then Some ([], j, d)
  else if nothing_logged j d then Some ([], j, d)
  else
    bl ← while (read_step j d) 64 (scan_length j, checkpoint_offset (superblock_ j), []);
    rs ← parse_all bl;
    Some (rs, j, d).

(** ** Space management *)

Definition sync (d : D) : D := (dev_flush d).2.
Definition close (d : D) : D := (dev_flush d).2.

Definition trim (j : Journal) (d : D) : Journal * D :=
  let sb := superblock_ j in
  let j := set_sb (mk_sb (magic sb) (write_offset j) (checkpoint_seqno sb) (write_offset j) (pad sb))
             (write_offset j) j in
  let '(_, d) := write_superblock j d in (j, d).
End Ops.

Definition get_used_bytes (j : Journal) : Z :=
  let cp := checkpoint_offset (superblock_ j) in
  let wp := write_offset j in
  if cp <=? wp then wp - cp else data_size j -64 cp +64 wp.

(** The literals of the thresholds. *)
Definition double_0_80 : spec_float := double_lit 80 100.
Definition double_0_95 : spec_float := double_lit 95 100.
Definition double_1 : spec_float := to_double 1.

Definition get_usage (j : Journal) : spec_float :=
  if data_size j =? 0 then double_1
  else ddiv (to_double (get_used_bytes j)) (to_double (data_size j)).

Definition needs_checkpoint (j : Journal) : bool := SFleb double_0_80 (get_usage j).
Definition is_near_full (j : Journal) : bool := SFleb double_0_95 (get_usage j).
End Journal.
