(* ===== verification/JournalSpec.v ===== *)
(** * Correctness of the journal

    The encoding of records is invertible, a transaction that was written is
    found again by the parser whatever follows it, and recovery returns exactly
    the records of the transactions committed since the checkpoint. *)
From stdpp Require Import base numbers list gmap.
From Stdlib Require Import ZArith Lia SpecFloat.
From S2P Require Import Prelude IntArith Crc32 Device BtierTypes Journal.
Import BtierTypes Device Journal.

Module JournalSpec.
#[local] Abbreviation length := Datatypes.length.

(** ** Encoding *)

Definition kloc_ok (k : KeyLocation) : Prop :=
  uint 64 (extent_id k) /\ uint 32 (koffset k) /\ uint 32 (klength k).
Definition dloc_ok (l : DiskLocation) : Prop := uint 64 (offset l) /\ uint 32 (BtierTypes.length l).

(** A record as the engine builds it: fields within their widths, and fields
    that its operation does not use left at their defaults. *)
Definition record_ok (r : JournalRecord) : Prop :=
  uint 8 (op r) /\ uint 64 (txn_id r) /\
  (if op r =? OP_KEY_PUT then
     Z.of_nat (length (key r)) < 2 ^ 32 /\ kloc_ok (key_loc r) /\
     r = mk_rec (op r) (txn_id r) (key r) (key_loc r) 0 default_loc 0 0
   else if op r =? OP_KEY_DEL then
     Z.of_nat (length (key r)) < 2 ^ 32 /\
     r = mk_rec (op r) (txn_id r) (key r) default_kloc 0 default_loc 0 0
   else if op r =? OP_MARK_DEAD then
     uint 64 (r_extent_id r) /\ uint 32 (dead_length r) /\
     r = mk_rec (op r) (txn_id r) [] default_kloc (r_extent_id r) default_loc (dead_length r) 0
   else if op r =? OP_EXTENT_NEW then
     uint 64 (r_extent_id r) /\ dloc_ok (extent_loc r) /\
     r = mk_rec (op r) (txn_id r) [] default_kloc (r_extent_id r) (extent_loc r) 0 0
   else if op r =? OP_EXTENT_FREE then
     uint 64 (r_extent_id r) /\
     r = mk_rec (op r) (txn_id r) [] default_kloc (r_extent_id r) default_loc 0 0
   else if op r =? OP_TXN_COMMIT then
     uint 32 (crc r) /\ r = mk_rec (op r) (txn_id r) [] default_kloc 0 default_loc 0 (crc r)
   else r = empty_record (op r) (txn_id r)).

Lemma copy_app n a rest : length a = n -> copy n (a ++ rest) = Some (a, rest).
Proof.
  intros <-. unfold copy. rewrite length_app. destruct (Nat.leb_spec (length a) (length a + length rest)); [|lia].
  by rewrite take_app_length, drop_app_length.
Qed.

Lemma get_uint_le n v rest :
  uint (8 * Z.of_nat n) v -> get_uint n (le_bytes n v ++ rest) = Some (v, rest).
Proof.
  intros Hv. unfold get_uint. rewrite copy_app by apply length_le_bytes. simpl.
  rewrite le_val_bytes, Z.mod_small; done.
Qed.

Lemma get_u8_put v rest : uint 8 v -> get_u8 (put_u8 v ++ rest) = Some (v, rest).
Proof. apply (get_uint_le 1). Qed.
Lemma get_u32_put v rest : uint 32 v -> get_u32 (put_u32 v ++ rest) = Some (v, rest).
Proof. apply (get_uint_le 4). Qed.
Lemma get_u64_put v rest : uint 64 v -> get_u64 (put_u64 v ++ rest) = Some (v, rest).
Proof. apply (get_uint_le 8). Qed.

Lemma get_string_put s rest :
  Z.of_nat (length s) < 2 ^ 32 -> get_string (put_string s ++ rest) = Some (s, rest).
Proof.
  intros Hs. unfold get_string, put_string. rewrite <- app_assoc, u32_small by lia.
  rewrite get_u32_put by (unfold uint; lia). cbn [mbind option_bind]. rewrite Nat2Z.id. by apply copy_app.
Qed.

Lemma get_key_location_put k rest :
  kloc_ok k -> get_key_location (put_key_location k ++ rest) = Some (k, rest).
Proof.
  intros (? & ? & ?). unfold get_key_location, put_key_location. rewrite <- !app_assoc.
  rewrite get_u64_put by done. cbn [mbind option_bind]. rewrite get_u32_put by done. cbn [mbind option_bind].
  rewrite get_u32_put by done. by destruct k.
Qed.

Lemma get_disk_location_put l rest :
  dloc_ok l -> get_disk_location (put_disk_location l ++ rest) = Some (l, rest).
Proof.
  intros (? & ?). unfold get_disk_location, put_disk_location. rewrite <- !app_assoc.
  rewrite get_u64_put by done. cbn [mbind option_bind]. rewrite get_u32_put by done. cbn [mbind option_bind].
  rewrite get_u8_put by (unfold uint; destruct (tier l); simpl; lia). cbn [mbind option_bind].
  by destruct l as [? ? []].
Qed.

Lemma deserialize_serialize r rest :
  record_ok r -> deserialize_record (serialize_record r ++ rest) = Some (r, rest).
Proof.
  intros (Ho & Ht & Hp). unfold deserialize_record, serialize_record. rewrite <- !app_assoc.
  rewrite get_u8_put by done. cbn [mbind option_bind]. rewrite get_u64_put by done. cbn [mbind option_bind].
  destruct (op r =? OP_KEY_PUT) eqn:E1; [|destruct (op r =? OP_KEY_DEL) eqn:E2;
    [|destruct (op r =? OP_MARK_DEAD) eqn:E3; [|destruct (op r =? OP_EXTENT_NEW) eqn:E4;
    [|destruct (op r =? OP_EXTENT_FREE) eqn:E5; [|destruct (op r =? OP_TXN_COMMIT) eqn:E6]]]]].
  - destruct Hp as (? & ? & Hr). rewrite <- app_assoc, get_string_put by done. cbn [mbind option_bind].
    rewrite get_key_location_put by done. cbn [mbind option_bind]. by rewrite <- Hr.
  - destruct Hp as (? & Hr). rewrite get_string_put by done. cbn [mbind option_bind]. by rewrite <- Hr.
  - destruct Hp as (? & ? & Hr). rewrite <- app_assoc, get_u64_put by done. cbn [mbind option_bind].
    rewrite get_u32_put by done. cbn [mbind option_bind]. by rewrite <- Hr.
  - destruct Hp as (? & ? & Hr). rewrite <- app_assoc, get_u64_put by done. cbn [mbind option_bind].
    rewrite get_disk_location_put by done. cbn [mbind option_bind]. by rewrite <- Hr.
  - destruct Hp as (? & Hr). rewrite get_u64_put by done. cbn [mbind option_bind]. by rewrite <- Hr.
  - destruct Hp as (? & Hr). rewrite get_u32_put by done. cbn [mbind option_bind]. by rewrite <- Hr.
  - simpl. by rewrite <- Hp.
Qed.

Lemma length_serialize r : (9 <= length (serialize_record r))%nat.
Proof.
  unfold serialize_record, put_u8, put_u64. rewrite !length_app, !length_le_bytes. lia.
Qed.

Lemma serialize_bytes r :
  Forall (fun b => 0 <= b < 256) (key r) -> Forall (fun b => 0 <= b < 256) (serialize_record r).
Proof.
  intros Hk. unfold serialize_record, put_u8, put_u64, put_string, put_key_location, put_disk_location, put_u32, put_u8, put_u64.
  repeat case_match; repeat (apply Forall_app; split); try apply le_bytes_range; done.
Qed.

(** ** Parsing one transaction *)

(** The records between BEGIN and COMMIT: payload, with their transaction id. *)
Definition payload_ok (r : JournalRecord) : Prop :=
  record_ok r /\ 2 <= op r <= 6 /\ Forall (fun b => 0 <= b < 256) (key r).

Lemma serialize_records_cons r rs : serialize_records (r :: rs) = serialize_record r ++ serialize_records rs.
Proof. done. Qed.
Lemma serialize_records_app a b : serialize_records (a ++ b) = serialize_records a ++ serialize_records b.
Proof. unfold serialize_records. by rewrite fmap_app, join_app. Qed.

Lemma serialize_records_bytes rs :
  Forall payload_ok rs -> Forall (fun b => 0 <= b < 256) (serialize_records rs).
Proof.
  induction 1 as [|r rs (_ & _ & Hk) _ IH]; [constructor|]. rewrite serialize_records_cons.
  apply Forall_app. split; [by apply serialize_bytes|done].
Qed.

Lemma records_crc_range rs : Forall payload_ok rs -> uint 32 (records_crc (serialize_records rs)).
Proof.
  intros Hr. unfold records_crc. case_match; [|unfold uint; lia].
  apply Crc32.calc_crc32_range; [by apply serialize_records_bytes|unfold uint; lia].
Qed.

(** One iteration on a record that is there. *)
Lemma parse_one fuel bl off s r rest :
  drop off bl = serialize_record r ++ rest -> record_ok r -> op r <> 0 ->
  parse (S fuel) bl off s = parse fuel bl (off + length (serialize_record r)) (parse_record s r).
Proof.
  intros Hd Hr Ho. pose proof (length_serialize r).
  assert (length bl = off + length (serialize_record r) + length rest)%nat as Hl.
  { assert (off < length bl)%nat.
    { destruct (decide (off < length bl)%nat); [done|]. rewrite drop_ge in Hd by lia.
      apply (f_equal length) in Hd. rewrite length_app in Hd. simpl in Hd. lia. }
    apply (f_equal length) in Hd. rewrite length_drop, length_app in Hd. lia. }
  cbn [parse]. destruct (Nat.leb_spec (length bl) off); [lia|].
  destruct (Nat.ltb_spec (length bl - off) 9); [lia|].
  rewrite Hd, deserialize_serialize by done. cbn [mbind option_bind].
  destruct (Z.eqb_spec (op r) 0); [done|]. f_equal. lia.
Qed.

Lemma drop_more {T} (l a b : list T) off : drop off l = a ++ b -> drop (off + length a) l = b.
Proof. intros E. rewrite <- drop_drop, E. by rewrite drop_app_length. Qed.

(** Reading the records of a transaction. *)
Lemma parse_payload fuel bl off s rs rest :
  drop off bl = serialize_records rs ++ rest -> Forall payload_ok rs -> in_txn s = true ->
  parse (length rs + fuel) bl off s =
  parse fuel bl (off + length (serialize_records rs))
    (mk_ps (result s) (current_txn s ++ rs) true (current_txn_id s)).
Proof.
  intros Hd Hrs. revert off s Hd. induction Hrs as [|r rs (Hr & Ho & _) _ IH]; intros off s Hd Hin.
  - simpl. rewrite Nat.add_0_r, app_nil_r. by destruct s; simpl in *; subst.
  - rewrite serialize_records_cons, <- app_assoc in Hd.
    cbn [length Nat.add]. rewrite (parse_one _ _ _ _ _ _ Hd Hr) by lia.
    apply drop_more in Hd. rewrite IH; [|done|].
    + rewrite serialize_records_cons, length_app, Nat.add_assoc. f_equal.
      unfold parse_record. rewrite Hin. unfold OP_TXN_BEGIN, OP_TXN_COMMIT, OP_CHECKPOINT.
      destruct (Z.eqb_spec (op r) 1), (Z.eqb_spec (op r) 7), (Z.eqb_spec (op r) 8); try lia. simpl.
      by rewrite <- app_assoc.
    + unfold parse_record. rewrite Hin. unfold OP_TXN_BEGIN, OP_TXN_COMMIT, OP_CHECKPOINT.
      destruct (Z.eqb_spec (op r) 1), (Z.eqb_spec (op r) 7), (Z.eqb_spec (op r) 8); try lia. done.
Qed.

(** ** Fuel *)

Lemma copy_length n p b rest : copy n p = Some (b, rest) -> (length rest + n = length p)%nat.
Proof.
  unfold copy. destruct (Nat.leb_spec n (length p)); [|done]. intros [= <- <-]. rewrite length_drop. lia.
Qed.
Lemma get_uint_length n p v rest : get_uint n p = Some (v, rest) -> (length rest + n = length p)%nat.
Proof.
  unfold get_uint. destruct (copy n p) as [[b q]|] eqn:E; [|done]. simpl. intros [= _ <-]. by apply copy_length in E.
Qed.
Lemma get_string_length p v rest : get_string p = Some (v, rest) -> (length rest <= length p)%nat.
Proof.
  unfold get_string. destruct (get_u32 p) as [[b q]|] eqn:E; [|done]. simpl. intros E2.
  apply get_uint_length in E. apply copy_length in E2. lia.
Qed.

#[local] Ltac consume :=
  repeat match goal with
  | H : context [mbind _ (?f ?p)] |- _ =>
      let E := fresh "E" in destruct (f p) as [[? ?]|] eqn:E; [cbn [mbind option_bind] in H|done]
  | H : Some _ = Some _ |- _ => injection H as <- <-
  end.

Lemma deserialize_length p r rest : deserialize_record p = Some (r, rest) -> (length rest + 9 <= length p)%nat.
Proof.
  unfold deserialize_record. intros Hd.
  destruct (get_u8 p) as [[o p1]|] eqn:E1; [cbn [mbind option_bind] in Hd|done].
  destruct (get_u64 p1) as [[t p2]|] eqn:E2; [cbn [mbind option_bind] in Hd|done].
  apply get_uint_length in E1, E2.
  enough (length rest <= length p2)%nat by lia.
  unfold get_key_location, get_disk_location in Hd.
  repeat case_match; consume; simplify_eq;
    repeat match goal with
    | H : get_string _ = Some _ |- _ => apply get_string_length in H
    | H : get_u64 _ = Some _ |- _ => apply get_uint_length in H
    | H : get_u32 _ = Some _ |- _ => apply get_uint_length in H
    | H : get_u8 _ = Some _ |- _ => apply get_uint_length in H
    end; lia.
Qed.

Lemma next_boundary_gt off : (off < (off / Z.to_nat kTxnAlignment + 1) * Z.to_nat kTxnAlignment)%nat.
Proof.
  change (Z.to_nat kTxnAlignment) with 4096%nat.
  pose proof (Nat.div_mod off 4096 ltac:(lia)). pose proof (Nat.mod_upper_bound off 4096 ltac:(lia)). lia.
Qed.

(** Every iteration moves forward: fuel beyond the remaining length changes
    nothing, so [parse_all] never runs out. *)
Lemma parse_fuel bl n : forall fuel off s,
  (length bl - off < n)%nat -> (n <= fuel)%nat -> parse fuel bl off s = parse n bl off s.
Proof.
  induction n as [|n IH]; intros fuel off s Hn Hf; [lia|]. destruct fuel as [|fuel]; [lia|].
  cbn [parse]. destruct (Nat.leb_spec (length bl) off); [done|]. case_match; [done|].
  destruct (deserialize_record (drop off bl)) as [[r rest]|] eqn:E; [cbn [mbind option_bind]|done].
  apply deserialize_length in E. rewrite length_drop in E. pose proof (next_boundary_gt off).
  destruct (op r =? 0).
  - case_match; [done|]. apply IH; lia.
  - apply IH; lia.
Qed.

(** [parses bl off s res]: from [off] and [s] the loop ends with [res]. *)
Definition parses (bl : bytes) (off : nat) (s : ParseState) (res : list JournalRecord) : Prop :=
  exists n, forall fuel, (n <= fuel)%nat -> parse fuel bl off s = Some res.

Lemma parses_all bl res : parses bl 0 initial_ps res -> parse_all bl = Some res.
Proof.
  intros [n Hn]. unfold parse_all. rewrite <- (parse_fuel bl (S (length bl)) (S (length bl) + n)) by lia.
  apply Hn. lia.
Qed.

Lemma parses_step k bl off s off' s' res :
  (forall fuel, parse (k + fuel) bl off s = parse fuel bl off' s') ->
  parses bl off' s' res -> parses bl off s res.
Proof.
  intros Hk [n Hn]. exists (k + n)%nat. intros fuel Hf.
  replace fuel with (k + (fuel - k))%nat by lia. rewrite Hk. apply Hn. lia.
Qed.

Lemma parses_one bl off s r rest res :
  drop off bl = serialize_record r ++ rest -> record_ok r -> op r <> 0 ->
  parses bl (off + length (serialize_record r)) (parse_record s r) res -> parses bl off s res.
Proof. intros Hd Hr Ho. apply (parses_step 1). intros fuel. by eapply parse_one. Qed.

(** ** Transactions in the log *)

Record Txn := mk_t { t_id : Z; t_ckpt : bool; t_recs : list JournalRecord }.

Definition txn_ok (t : Txn) : Prop := uint 64 (t_id t) /\ Forall payload_ok (t_recs t).

Definition txn_middle (t : Txn) : bytes :=
  if t_ckpt t then serialize_record (empty_record OP_CHECKPOINT (t_id t)) else [].
Definition txn_bl (t : Txn) : bytes := txn_bytes (t_id t) (txn_middle t) (serialize_records (t_recs t)).

Lemma empty_record_ok o t : uint 64 t -> o = OP_TXN_BEGIN \/ o = OP_CHECKPOINT -> record_ok (empty_record o t).
Proof. intros Ht [->| ->]; (split; [unfold uint, OP_TXN_BEGIN, OP_CHECKPOINT; simpl; lia|]); by split. Qed.
Lemma commit_record_ok t c : uint 64 t -> uint 32 c -> record_ok (set_crc c (empty_record OP_TXN_COMMIT t)).
Proof. intros Ht Hc. split; [unfold uint, OP_TXN_COMMIT; simpl; lia|]. split; [done|]. by split. Qed.

Lemma parses_middle t bl off s rest res :
  uint 64 (t_id t) -> drop off bl = txn_middle t ++ rest ->
  parses bl (off + length (txn_middle t)) s res -> parses bl off s res.
Proof.
  unfold txn_middle. intros Ht. destruct (t_ckpt t); [|by rewrite Nat.add_0_r].
  intros Hd Hp. eapply parses_one; [exact Hd|apply empty_record_ok; auto|done|].
  unfold parse_record. simpl. by rewrite andb_false_r.
Qed.

Lemma parses_txn t bl off s rest res :
  txn_ok t -> drop off bl = txn_bl t ++ rest ->
  parses bl (off + length (txn_bl t)) (mk_ps (result s ++ t_recs t) [] false (t_id t)) res ->
  parses bl off s res.
Proof.
  intros [Ht Hrs] Hd Hp. unfold txn_bl, txn_bytes in Hd, Hp. rewrite !length_app, !Nat.add_assoc in Hp.
  rewrite <- !app_assoc in Hd. pose proof (records_crc_range _ Hrs) as Hcrc.
  eapply parses_one; [exact Hd|apply empty_record_ok; auto|done|].
  apply drop_more in Hd. eapply parses_middle; [exact Ht|exact Hd|]. apply drop_more in Hd.
  eapply (parses_step (length (t_recs t))); [intros fuel; apply (parse_payload _ _ _ _ _ _ Hd Hrs); reflexivity|].
  apply drop_more in Hd. eapply parses_one; [exact Hd|by apply commit_record_ok|done|].
  unfold parse_record at 1. cbn [op set_crc empty_record txn_id crc in_txn current_txn current_txn_id result].
  unfold parse_record at 1. cbn [op set_crc empty_record txn_id crc in_txn current_txn current_txn_id result].
  change (OP_TXN_COMMIT =? OP_TXN_BEGIN) with false. change (OP_TXN_COMMIT =? OP_TXN_COMMIT) with true.
  change (OP_TXN_BEGIN =? OP_TXN_BEGIN) with true. cbn [app result current_txn current_txn_id in_txn].
  rewrite !Z.eqb_refl. exact Hp.
Qed.

(** ** Padded blocks *)

Definition pad_len (n : nat) : nat := ((4096 - n mod 4096) mod 4096)%nat.
Definition pad_block (bl : bytes) : bytes := bl ++ replicate (pad_len (length bl)) 0.
Definition txn_block (t : Txn) : bytes := pad_block (txn_bl t).
Definition log_bytes (ts : list Txn) : bytes := mjoin (txn_block <$> ts).

Lemma pad_len_spec n :
  ((n + pad_len n) mod 4096 = 0 /\ pad_len n < 4096 /\
   (0 < pad_len n -> (n / 4096 + 1) * 4096 = n + pad_len n))%nat.
Proof.
  unfold pad_len. pose proof (Nat.div_mod n 4096 ltac:(lia)) as E.
  pose proof (Nat.mod_upper_bound n 4096 ltac:(lia)).
  destruct (Nat.eq_dec (n mod 4096) 0) as [E0|E0].
  - rewrite E0. change ((4096 - 0) mod 4096)%nat with 0%nat. rewrite Nat.add_0_r. lia.
  - rewrite (Nat.mod_small (4096 - n mod 4096)) by lia.
    replace (n + (4096 - n mod 4096))%nat with ((n / 4096 + 1) * 4096)%nat by lia.
    rewrite Nat.Div0.mod_mul. lia.
Qed.

Lemma length_pad_block bl : length (pad_block bl) = (length bl + pad_len (length bl))%nat.
Proof. unfold pad_block. by rewrite length_app, length_replicate. Qed.

Lemma txn_bl_length t : (9 <= length (txn_bl t))%nat.
Proof.
  unfold txn_bl, txn_bytes. rewrite length_app. pose proof (length_serialize (empty_record OP_TXN_BEGIN (t_id t))). lia.
Qed.

Lemma txn_block_length t : (0 < length (txn_block t) /\ length (txn_block t) mod 4096 = 0)%nat.
Proof.
  unfold txn_block. rewrite length_pad_block. pose proof (txn_bl_length t).
  pose proof (pad_len_spec (length (txn_bl t))). lia.
Qed.

Lemma log_bytes_cons t ts : log_bytes (t :: ts) = txn_block t ++ log_bytes ts.
Proof. done. Qed.
Lemma log_bytes_single t : log_bytes [t] = txn_block t.
Proof. rewrite log_bytes_cons. apply app_nil_r. Qed.
Lemma log_bytes_app a b : log_bytes (a ++ b) = log_bytes a ++ log_bytes b.
Proof. unfold log_bytes. by rewrite fmap_app, join_app. Qed.

Lemma log_bytes_length ts : (length (log_bytes ts) mod 4096 = 0)%nat.
Proof.
  induction ts as [|t ts IH]; [done|]. rewrite log_bytes_cons, length_app.
  destruct (txn_block_length t) as [_ E]. by rewrite Nat.Div0.add_mod, E, IH.
Qed.

Lemma log_bytes_short ts : (length (log_bytes ts) < 4096)%nat -> ts = [].
Proof.
  intros Hl. destruct ts as [|t ts]; [done|exfalso]. rewrite log_bytes_cons, length_app in Hl.
  destruct (txn_block_length t) as [Hp E]. apply Nat.Div0.mod_divides in E as [c Hc]. nia.
Qed.

Lemma parses_end bl off s : (length bl <= off)%nat -> parses bl off s (result s).
Proof.
  intros Hl. exists 1%nat. intros [|fuel] Hf; [lia|]. cbn [parse].
  by destruct (Nat.leb_spec (length bl) off); [|lia].
Qed.

Lemma deserialize_zero p : (8 <= length p)%nat -> exists r rest, deserialize_record (0 :: p) = Some (r, rest) /\ op r = 0.
Proof.
  intros Hp. unfold deserialize_record, get_u8, get_u64, get_uint.
  change (copy 1 (0 :: p)) with (Some ([0], p)). cbn [mbind option_bind].
  assert (copy 8 p = Some (take 8 p, drop 8 p)) as ->.
  { unfold copy. by destruct (Nat.leb_spec 8 (length p)); [|lia]. }
  cbn [mbind option_bind]. by eexists _, _.
Qed.

(** The zero padding behind a transaction is skipped. *)
Lemma parses_padding bl off k ts s res :
  drop off bl = replicate k 0 ++ log_bytes ts -> (off < length bl)%nat ->
  (0 < k < 4096)%nat -> ((off / 4096 + 1) * 4096 = off + k)%nat ->
  parses bl (off + k) s res -> (ts = [] -> res = result s) -> parses bl off s res.
Proof.
  intros Hd Ho Hk Hb [n Hn] Hres. exists (S n). intros [|fuel] Hf; [lia|]. cbn [parse].
  assert (length bl - off = k + length (log_bytes ts))%nat as Hl.
  { apply (f_equal length) in Hd. by rewrite length_drop, length_app, length_replicate in Hd. }
  destruct (Nat.leb_spec (length bl) off); [lia|].
  destruct (Nat.ltb_spec (length bl - off) 9).
  { by rewrite Hres by (apply log_bytes_short; lia). }
  rewrite Hd. destruct k as [|k]; [lia|].
  destruct (deserialize_zero (replicate k 0 ++ log_bytes ts)) as (r & rest & E & Er);
    [rewrite length_app, length_replicate; lia|].
  cbn [replicate app]. rewrite E. cbn [mbind option_bind]. rewrite Er.
  change (0 =? 0) with true. change (Z.to_nat kTxnAlignment) with 4096%nat. rewrite Hb. cbn iota.
  destruct (Nat.leb_spec (length bl) (off + S k)).
  - by rewrite Hres by (apply log_bytes_short; lia).
  - apply Hn. lia.
Qed.

Lemma parses_log ts : forall bl off s,
  Forall txn_ok ts -> drop off bl = log_bytes ts -> (off <= length bl)%nat -> (off mod 4096 = 0)%nat ->
  parses bl off s (result s ++ mjoin (t_recs <$> ts)).
Proof.
  induction ts as [|t ts IH]; intros bl off s Hok Hd Hle Hoff.
  { simpl. rewrite app_nil_r. apply parses_end. apply (f_equal length) in Hd.
    rewrite length_drop in Hd. simpl in Hd. lia. }
  apply Forall_cons in Hok as [Ht Hok]. rewrite log_bytes_cons in Hd. pose proof Hd as Hd'.
  unfold txn_block, pad_block in Hd'. rewrite <- app_assoc in Hd'.
  eapply parses_txn; [exact Ht|exact Hd'|]. pose proof (drop_more _ _ _ _ Hd') as Hp.
  pose proof (drop_more _ _ _ _ Hd) as Hnext.
  pose proof (pad_len_spec (length (txn_bl t))) as (Hm & Hk & Hb).
  assert (length bl = off + length (txn_block t) + length (log_bytes ts))%nat as Hl.
  { apply (f_equal length) in Hd. rewrite length_drop, length_app in Hd. lia. }
  unfold txn_block in Hl, Hnext. rewrite length_pad_block in Hl, Hnext.
  set (s' := mk_ps _ _ _ _). set (n := length (txn_bl t)) in *.
  assert (parses bl (off + n + pad_len n) s' (result s' ++ mjoin (t_recs <$> ts))) as Hrest.
  { apply IH; [done|by rewrite <- Nat.add_assoc|lia|].
    rewrite <- Nat.add_assoc, Nat.Div0.add_mod, Hoff, Hm. done. }
  replace (result s ++ mjoin (t_recs <$> t :: ts)) with (result s' ++ mjoin (t_recs <$> ts))
    by (subst s'; simpl; by rewrite <- app_assoc).
  destruct (decide (pad_len n = 0)%nat) as [E0|E0]; [by rewrite E0, Nat.add_0_r in Hrest|].
  eapply parses_padding; [exact Hp|lia|lia| |exact Hrest|intros ->; simpl; by rewrite app_nil_r].
  apply Nat.Div0.mod_divides in Hoff as [c Hc]. specialize (Hb ltac:(lia)).
  rewrite Hc, (Nat.mul_comm 4096 c), Nat.div_add_l by lia. lia.
Qed.

Lemma parse_log ts : Forall txn_ok ts -> parse_all (log_bytes ts) = Some (mjoin (t_recs <$> ts)).
Proof. intros Hok. apply parses_all, (parses_log ts _ 0 initial_ps); [done|done|lia|done]. Qed.

(** ** The log on the device *)

Section Log.
Context {D : Type} `{DeviceSpec D} `{!ReliableDevice D}.

Definition sb_ok (sb : JournalSuperBlock) : Prop :=
  magic sb = SB_MAGIC /\ uint 64 (checkpoint_offset sb) /\ uint 64 (checkpoint_seqno sb) /\
  uint 64 (sb_write_offset sb) /\ length (pad sb) = Z.to_nat 4064.

(** [log_inv j d ts]: the superblock of [j] is on the device, and the bytes
    from the checkpoint to the write position are the transactions [ts]. *)
Definition log_inv (j : Journal) (d : D) (ts : list Txn) : Prop :=
  reliable d /\ sb_ok (superblock_ j) /\
  image_range (image d) 0 (Z.to_nat 4096) = sb_bytes (superblock_ j) /\
  sb_write_offset (superblock_ j) = write_offset j /\
  checkpoint_offset (superblock_ j) mod 4096 = 0 /\
  write_offset j = checkpoint_offset (superblock_ j) + Z.of_nat (length (log_bytes ts)) /\
  write_offset j < data_size j /\ 4096 + data_size j <= dev_size d < 2 ^ 63 /\
  image_range (image d) (4096 + checkpoint_offset (superblock_ j)) (length (log_bytes ts)) = log_bytes ts /\
  Forall txn_ok ts.

Lemma length_sb_bytes sb : sb_ok sb -> length (sb_bytes sb) = Z.to_nat 4096.
Proof.
  intros (_ & _ & _ & _ & Hp). unfold sb_bytes. rewrite !length_app, !length_le_bytes, Hp. lia.
Qed.

Lemma sb_of_bytes_bytes sb : sb_ok sb -> sb_of_bytes (sb_bytes sb) = sb.
Proof.
  intros (Hm & Hc & Hs & Hw & Hp). unfold sb_of_bytes, sb_bytes.
  assert (forall n x (l : bytes), take n (le_bytes n x ++ l) = le_bytes n x) as Ht
    by (intros; by rewrite take_app_length' by (by rewrite length_le_bytes)).
  assert (forall n m x (l : bytes), drop (n + m) (le_bytes n x ++ l) = drop m l) as Hd.
  { intros. rewrite <- drop_drop, drop_app_length' by (by rewrite length_le_bytes). done. }
  rewrite (Hd 8%nat 0%nat), (Hd 8%nat 8%nat), (Hd 8%nat 16%nat), (Hd 8%nat 24%nat), !drop_0.
  rewrite (Hd 8%nat 0%nat), (Hd 8%nat 8%nat), (Hd 8%nat 16%nat), !drop_0.
  rewrite (Hd 8%nat 0%nat), (Hd 8%nat 8%nat), !drop_0, (Hd 8%nat 0%nat), !drop_0.
  rewrite !Ht, !le_val_bytes. change (8 * Z.of_nat 8) with 64.
  rewrite !Z.mod_small by (rewrite ?Hm; done). destruct sb; simpl in *. subst. done.
Qed.

Lemma write_superblock_spec j d :
  reliable d -> sb_ok (superblock_ j) -> 4096 <= dev_size d ->
  exists r d', write_superblock j d = (r, d') /\ 0 <= r /\ reliable d' /\ dev_size d' = dev_size d /\
    forall x, image d' x = image_write (image d) 0 (sb_bytes (superblock_ j)) x.
Proof.
  intros Hr Hsb Hd. unfold write_superblock. pose proof (length_sb_bytes _ Hsb) as Hl.
  pose proof (write_direct_succeeds d 0 (sb_bytes (superblock_ j)) Hr ltac:(lia)
    ltac:(rewrite Hl; lia) eq_refl ltac:(by rewrite Hl)) as Hw.
  pose proof (write_spec d 0 (sb_bytes (superblock_ j)) false) as Hi.
  pose proof (write_size d 0 (sb_bytes (superblock_ j)) false) as Hs.
  pose proof (write_reliable d 0 (sb_bytes (superblock_ j)) false Hr) as Hr'.
  destruct (dev_write 0 (sb_bytes (superblock_ j)) false d) as [r d1]. simpl in *.
  destruct (Z.ltb_spec r 0); [lia|].
  pose proof (flush_succeeds d1 Hr') as Hf. pose proof (flush_reliable d1 Hr').
  pose proof (flush_size d1) as Hfs. pose proof (flush_spec d1) as Hfi.
  destruct (dev_flush d1) as [r' d2]. simpl in *. exists r', d2. split_and!; try done; [congruence|].
  intros x. rewrite Hfi. apply Hi; [lia|rewrite Hl; lia|done].
Qed.

(** What [pad_and_write] computes. *)
Lemma padded_bytes bl :
  bl <> [] -> Z.of_nat (length bl) < 2 ^ 63 ->
  let len := Z.of_nat (length bl) in
  let p0 := IntArith.round_up_to 64 len kTxnAlignment in
  let padded := if p0 =? 0 then kTxnAlignment else p0 in
  padded = Z.of_nat (length (pad_block bl)) /\
  (if len <? padded then bl ++ replicate (Z.to_nat (padded - len)) 0 else bl) = pad_block bl.
Proof.
  intros Hne Hlt. cbv zeta. set (n := length bl) in *.
  assert (0 < n)%nat by (subst n; destruct bl; simpl; [done|lia]).
  assert (IntArith.round_up_to 64 (Z.of_nat n) kTxnAlignment = Z.of_nat (n + pad_len n)) as ->.
  { rewrite IntArith.round_up_to_spec by (unfold kTxnAlignment; lia). unfold kTxnAlignment.
    pose proof (pad_len_spec n) as (Hm & Hk & _). apply Nat.Div0.mod_divides in Hm as [c Hc].
    rewrite Hc. replace ((Z.of_nat n + 4096 - 1) / 4096) with (Z.of_nat c); [lia|].
    apply Z.div_unique with (r := 4095 - Z.of_nat (pad_len n)); lia. }
  rewrite length_pad_block. fold n. destruct (Z.eqb_spec (Z.of_nat (n + pad_len n)) 0); [lia|].
  split; [done|]. unfold pad_block. fold n.
  destruct (Z.ltb_spec (Z.of_nat n) (Z.of_nat (n + pad_len n))).
  - by replace (Z.to_nat (Z.of_nat (n + pad_len n) - Z.of_nat n)) with (pad_len n) by lia.
  - assert (pad_len n = 0)%nat as -> by lia. by rewrite app_nil_r.
Qed.

Lemma pad_and_write_spec bl j d :
  reliable d -> bl <> [] -> 0 <= write_offset j -> write_offset j mod 4096 = 0 ->
  4096 + data_size j <= dev_size d < 2 ^ 63 ->
  write_offset j + Z.of_nat (length (pad_block bl)) < data_size j ->
  exists r d', pad_and_write bl j d =
    (r, set_sb (superblock_ j) (write_offset j + Z.of_nat (length (pad_block bl))) j, d') /\ 0 <= r /\
    reliable d' /\ dev_size d' = dev_size d /\
    forall x, image d' x = image_write (image d) (4096 + write_offset j) (pad_block bl) x.
Proof.
  intros Hr Hne Hw0 Hwm Hds Hfit. unfold pad_and_write.
  pose proof (length_pad_block bl) as Hlp.
  destruct (padded_bytes bl Hne ltac:(lia)) as [E1 E2]. cbv zeta in E1, E2. rewrite E2, E1.
  set (n := Z.of_nat (length (pad_block bl))) in *.
  unwrap64. destruct (Z.ltb_spec (data_size j) (write_offset j + n)); [lia|].
  unfold kDataStart, kSuperblockSize. unwrap64.
  assert (n mod 4096 = 0) as Hnm.
  { subst n. rewrite Hlp. destruct (pad_len_spec (length bl)) as (Hm & _).
    apply Nat.Div0.mod_divides in Hm as [c ->]. rewrite Nat2Z.inj_mul, Z.mul_comm. by apply Z.mod_mul. }
  assert ((4096 + write_offset j) mod 4096 = 0) as Hom by (by rewrite Z.add_mod, Hwm by lia).
  pose proof (write_direct_succeeds d (4096 + write_offset j) (pad_block bl) Hr ltac:(lia) ltac:(lia) Hom Hnm) as Hw.
  pose proof (write_spec d (4096 + write_offset j) (pad_block bl) false) as Hi.
  pose proof (write_size d (4096 + write_offset j) (pad_block bl) false) as Hs.
  pose proof (write_reliable d (4096 + write_offset j) (pad_block bl) false Hr) as Hr'.
  destruct (dev_write (4096 + write_offset j) (pad_block bl) false d) as [r d1]. simpl in *.
  destruct (Z.ltb_spec r 0); [lia|]. destruct (Z.leb_spec (data_size j) (write_offset j + n)); [lia|].
  pose proof (flush_succeeds d1 Hr') as Hf. pose proof (flush_reliable d1 Hr').
  pose proof (flush_size d1) as Hfs. pose proof (flush_spec d1) as Hfi.
  destruct (dev_flush d1) as [r' d2]. simpl in *. exists r', d2. split_and!; try done; [congruence|].
  intros x. rewrite Hfi. apply Hi; [lia|lia|done].
Qed.

(** The images after a block and then the superblock were written. *)
Lemma image_ext_range f h off len : (forall x, f x = h x) -> image_range f off len = image_range h off len.
Proof. intros E. apply image_range_ext. auto. Qed.

Lemma log_inv_bounds j d ts :
  log_inv j d ts -> 0 <= checkpoint_offset (superblock_ j) <= write_offset j /\ write_offset j mod 4096 = 0.
Proof.
  intros (_ & (_ & Hc & _) & _ & _ & Hm & Hw & _). unfold uint in Hc. split; [lia|].
  rewrite Hw, Z.add_mod, Hm by lia. pose proof (log_bytes_length ts) as Hl.
  apply Nat.Div0.mod_divides in Hl as [c ->]. by rewrite Nat2Z.inj_mul, Z.mul_comm, Z.mod_mul by lia.
Qed.

(** Writing transaction [t] behind the log and then the superblock [sb]. *)
Lemma log_write j d ts t sb :
  log_inv j d ts -> txn_ok t ->
  write_offset j + Z.of_nat (length (txn_block t)) < data_size j ->
  sb_ok sb -> sb_write_offset sb = write_offset j + Z.of_nat (length (txn_block t)) ->
  let j' := set_sb sb (sb_write_offset sb) j in
  exists r1 d1 r2 d2,
    pad_and_write (txn_bl t) j d = (r1, set_sb (superblock_ j) (sb_write_offset sb) j, d1) /\ 0 <= r1 /\
    write_superblock j' d1 = (r2, d2) /\
    (checkpoint_offset sb = checkpoint_offset (superblock_ j) -> log_inv j' d2 (ts ++ [t])) /\
    (checkpoint_offset sb = write_offset j -> log_inv j' d2 [t]).
Proof.
  intros Hinv Ht Hfit Hsb Hsw. pose proof (log_inv_bounds _ _ _ Hinv) as [Hb Hbm].
  destruct Hinv as (Hr & Hsb0 & _ & _ & Hcm & Hw & Hlt & Hds & Hlog & Hok).
  assert (txn_bl t <> []) as Hne by (pose proof (txn_bl_length t); by destruct (txn_bl t); [simpl in *; lia|]).
  destruct (pad_and_write_spec (txn_bl t) j d Hr Hne ltac:(lia) Hbm Hds Hfit)
    as (r1 & d1 & E1 & Hr1 & Hrel1 & Hs1 & Hi1).
  cbv zeta. fold (txn_block t) in E1, Hi1. rewrite <- Hsw in E1.
  destruct (write_superblock_spec (set_sb sb (sb_write_offset sb) j) d1 Hrel1 Hsb ltac:(lia))
    as (r2 & d2 & E2 & _ & Hrel2 & Hs2 & Hi2). simpl in Hi2.
  assert (image_range (image d2) 0 (Z.to_nat 4096) = sb_bytes sb) as Hsbr.
  { rewrite (image_ext_range _ _ _ _ Hi2), <- (length_sb_bytes sb Hsb). apply image_range_write. }
  assert (forall o n, 4096 <= o -> image_range (image d2) o n =
    image_range (image_write (image d) (4096 + write_offset j) (txn_block t)) o n) as Hrange.
  { intros o n Ho. rewrite (image_ext_range _ _ _ _ Hi2), image_range_frame.
    - by apply image_ext_range.
    - right. rewrite (length_sb_bytes sb Hsb). lia. }
  assert (image_range (image d2) (4096 + write_offset j) (length (txn_block t)) = txn_block t) as Hblk.
  { rewrite Hrange by lia. apply image_range_write. }
  exists r1, d1, r2, d2. split; [exact E1|]. split; [exact Hr1|]. split; [exact E2|]. split.
  - intros Hck. unfold log_inv. cbn [superblock_ set_sb write_offset data_size]. rewrite Hs2, Hs1, Hck, log_bytes_app, log_bytes_single, !length_app.
    split_and!; try done; try lia.
    + rewrite image_range_app. f_equal.
      * rewrite Hrange by lia. rewrite image_range_frame by lia. done.
      * rewrite <- Hblk at 2. f_equal. lia.
    + apply Forall_app. by split; [|constructor].
  - intros Hck. unfold log_inv. cbn [superblock_ set_sb write_offset data_size]. rewrite Hs2, Hs1, Hck, log_bytes_single.
    split_and!; try done; try lia. by constructor.
Qed.

(** ** Transactions *)

(** An open transaction holds its records and their serialization. *)
Definition open_ok (j : Journal) (id : Z) (rs : list JournalRecord) : Prop :=
  active_txns_ j !! id = Some (mk_txn rs (serialize_records rs)).

Definition same_log (j j' : Journal) : Prop :=
  data_size j' = data_size j /\ superblock_ j' = superblock_ j /\ write_offset j' = write_offset j.

Lemma same_log_inv j j' d ts : same_log j j' -> log_inv j d ts -> log_inv j' d ts.
Proof. intros (E1 & E2 & E3). unfold log_inv. by rewrite E1, E2, E3. Qed.

Lemma append_open j id rs r :
  open_ok j id rs ->
  exists j', append id r j = (0, j') /\ open_ok j' id (rs ++ [set_txn id r]) /\ same_log j j' /\
    next_txn_id j' = next_txn_id j.
Proof.
  intros Ho. unfold append. rewrite Ho. eexists. split; [done|]. split; [|done].
  unfold open_ok. simpl. rewrite lookup_insert_eq, serialize_records_app. simpl.
  by rewrite serialize_records_cons, app_nil_r.
Qed.

Lemma commit_open j d ts id rs :
  log_inv j d ts -> open_ok j id rs -> uint 64 id -> Forall payload_ok rs ->
  write_offset j + Z.of_nat (length (txn_block (mk_t id false rs))) < data_size j ->
  exists j' d', commit_txn id j d = (0, j', d') /\ log_inv j' d' (ts ++ [mk_t id false rs]) /\
    next_txn_id j' = next_txn_id j /\ data_size j' = data_size j /\
    write_offset j' = write_offset j + Z.of_nat (length (txn_block (mk_t id false rs))) /\
    active_txns_ j' = delete id (active_txns_ j).
Proof.
  intros Hinv Ho Hid Hrs Hfit. unfold commit_txn. rewrite Ho. set (t := mk_t id false rs) in *.
  change (txn_bytes id [] (serialized (mk_txn rs (serialize_records rs)))) with (txn_bl t).
  set (j0 := set_txns (next_txn_id j) (delete id (active_txns_ j)) j).
  assert (log_inv j0 d ts) as Hinv0 by (by eapply same_log_inv; [|exact Hinv]).
  pose proof Hinv as (_ & Hsb & _ & _ & _ & _ & _ & Hds & _).
  pose proof (log_inv_bounds _ _ _ Hinv) as [? _].
  set (w := write_offset j + Z.of_nat (length (txn_block t))).
  set (sb := mk_sb (magic (superblock_ j)) (checkpoint_offset (superblock_ j))
               (checkpoint_seqno (superblock_ j)) w (pad (superblock_ j))).
  destruct (log_write j0 d ts t sb Hinv0) as (r1 & d1 & r2 & d2 & E1 & Hr1 & E2 & Hl & _); try done.
  { destruct Hsb as (? & ? & ? & ? & ?). unfold sb_ok, uint, sb, w in *.
    cbn [magic checkpoint_offset checkpoint_seqno sb_write_offset pad]. split_and!; try done; lia. }
  change (sb_write_offset sb) with w in E1, E2. rewrite E1. destruct (Z.ltb_spec r1 0); [lia|].
  match goal with |- context [write_superblock ?x d1] => change x with (set_sb sb w j0) end.
  rewrite E2. eexists _, d2. split; [done|]. split; [by apply Hl|]. by split_and!.
Qed.

Lemma checkpoint_spec j d ts state :
  log_inv j d ts -> Forall payload_ok state -> 0 <= checkpoint_seqno (superblock_ j) ->
  write_offset j + Z.of_nat (length (txn_block (mk_t 0 true state))) < data_size j ->
  exists j' d', checkpoint state j d = (0, j', d') /\ log_inv j' d' [mk_t 0 true state] /\
    next_txn_id j' = next_txn_id j /\ data_size j' = data_size j /\
    write_offset j' = write_offset j + Z.of_nat (length (txn_block (mk_t 0 true state))) /\
    active_txns_ j' = active_txns_ j.
Proof.
  intros Hinv Hrs Hseq Hfit. unfold checkpoint. set (t := mk_t 0 true state) in *.
  change (txn_bytes 0 (serialize_record (empty_record OP_CHECKPOINT 0)) (serialize_records state)) with (txn_bl t).
  pose proof Hinv as (_ & Hsb & _ & _ & _ & _ & _ & Hds & _).
  pose proof (log_inv_bounds _ _ _ Hinv) as [? _].
  set (w := write_offset j + Z.of_nat (length (txn_block t))).
  set (sb := mk_sb (magic (superblock_ j)) (write_offset j)
               (checkpoint_seqno (superblock_ j) +64 1) w (pad (superblock_ j))).
  destruct (log_write j d ts t sb Hinv) as (r1 & d1 & r2 & d2 & E1 & Hr1 & E2 & _ & Hl); try done.
  { destruct Hsb as (? & ? & ? & ? & ?). unfold sb_ok, uint, sb, w in *.
    cbn [magic checkpoint_offset checkpoint_seqno sb_write_offset pad].
    pose proof (u64_range (checkpoint_seqno (superblock_ j) + 1)). split_and!; try done; lia. }
  change (sb_write_offset sb) with w in E1, E2. rewrite E1. destruct (Z.ltb_spec r1 0); [lia|].
  match goal with |- context [write_superblock ?x d1] => change x with (set_sb sb w j) end.
  rewrite E2. eexists _, d2. split; [done|]. split; [by apply Hl|]. by split_and!.
Qed.

(** ** Recovery *)

Lemma read_loop_spec j d c L :
  reliable d -> 0 <= c -> 0 <= L -> c + L < data_size j -> 4096 + data_size j <= dev_size d < 2 ^ 63 ->
  while (read_step j d) 64 (L, c, []) = Some (image_range (image d) (4096 + c) (Z.to_nat L)).
Proof.
  intros Hr Hc HL Hfit Hds.
  destruct (while_spec (read_step j d)
    (fun '(rem, pos, acc) => 0 <= rem <= L /\ pos = c + (L - rem) /\
       acc = image_range (image d) (4096 + c) (Z.to_nat (L - rem)))
    (fun s => s.1.1) (fun r => r = image_range (image d) (4096 + c) (Z.to_nat L)))
    with (n := 64%nat) (s := (L, c, @nil Z)) as (r & E & ->); [| | |done].
  - intros [[rem pos] acc] (Hrem & -> & ->). unfold read_step.
    destruct (Z.ltb_spec 0 rem); [|by replace rem with 0 by lia; rewrite Z.sub_0_r].
    set (n := Z.min kTxnAlignment rem). assert (0 < n <= rem) by (subst n; unfold kTxnAlignment; lia).
    clearbody n. unwrap64. destruct (Z.ltb_spec (data_size j) (c + (L - rem) + n)); [lia|].
    unfold kDataStart, kSuperblockSize. unwrap64.
    pose proof (read_succeeds d (4096 + (c + (L - rem))) n Hr ltac:(lia) ltac:(lia) ltac:(lia)) as Hs.
    assert (4096 + (c + (L - rem)) + n <= dev_size d) as Hin by lia.
    pose proof (read_spec d (4096 + (c + (L - rem))) n true ltac:(lia) ltac:(lia) Hin Hs) as Hrd.
    destruct (dev_read _ _ _ d) as [r chunk]. cbn [fst snd] in *. subst chunk.
    destruct (Z.ltb_spec r 0); [lia|]. rewrite length_image_range.
    destruct (Nat.eqb_spec (Z.to_nat n) 0); [lia|]. cbn [orb].
    destruct (Z.leb_spec (data_size j) (c + (L - rem) + n)); [lia|].
    split; [|cbn [fst]; lia]. split; [lia|]. split; [lia|].
    replace (Z.to_nat (L - (rem - n))) with (Z.to_nat (L - rem) + Z.to_nat n)%nat by lia.
    rewrite image_range_app. do 2 f_equal. lia.
  - split; [lia|]. split; [lia|]. by rewrite Z.sub_diag.
  - cbn [fst]. change (Z.of_nat 64) with 64. lia.
Qed.

Lemma read_superblock_spec j0 j d ts :
  log_inv j d ts ->
  read_superblock j0 d = (0, set_sb (superblock_ j) (write_offset j) j0, d).
Proof.
  intros Hinv. pose proof (log_inv_bounds _ _ _ Hinv) as [? _].
  destruct Hinv as (Hr & Hsb & Hdisk & Hsw & _ & _ & Hlt & Hds & _).
  unfold read_superblock.
  pose proof (read_direct_succeeds d 0 4096 Hr ltac:(lia) ltac:(lia) ltac:(lia) eq_refl eq_refl) as Hs.
  assert (0 + 4096 <= dev_size d) as Hin by lia.
  pose proof (read_spec d 0 4096 false ltac:(lia) ltac:(lia) Hin Hs) as Hrd.
  destruct (dev_read 0 4096 false d) as [r bl]. cbn [fst snd] in *. subst bl.
  destruct (Z.ltb_spec r 0); [lia|]. rewrite length_image_range, Nat.ltb_irrefl.
  rewrite Hdisk, firstn_all2 by (rewrite (length_sb_bytes _ Hsb); lia).
  rewrite sb_of_bytes_bytes by done. destruct Hsb as (-> & _). rewrite Z.eqb_refl. cbn [negb].
  by rewrite Hsw.
Qed.

Lemma recover_spec j0 j d ts :
  log_inv j d ts -> data_size j0 = data_size j ->
  recover j0 d = Some (mjoin (t_recs <$> ts), set_sb (superblock_ j) (write_offset j) j0, d).
Proof.
  intros Hinv Hdata. unfold recover. rewrite (read_superblock_spec j0 j d ts Hinv).
  change (0 <? 0) with false. cbn iota. set (j' := set_sb (superblock_ j) (write_offset j) j0).
  pose proof (log_inv_bounds _ _ _ Hinv) as [Hb _].
  destruct Hinv as (Hr & Hsb & _ & _ & _ & Hw & Hlt & Hds & Hlog & Hok).
  assert (scan_length j' = Z.of_nat (length (log_bytes ts))) as Hscan.
  { unfold scan_length. cbn [superblock_ set_sb write_offset j'].
    destruct (Z.leb_spec (checkpoint_offset (superblock_ j)) (write_offset j)); lia. }
  destruct (nothing_logged j' d) eqn:Hn.
  - apply andb_true_iff in Hn as [Hn _]. apply Z.eqb_eq in Hn. cbn [superblock_ set_sb write_offset j'] in Hn.
    assert (ts = []) as -> by (apply log_bytes_short; lia). done.
  - rewrite Hscan, read_loop_spec; cbn [superblock_ set_sb j' data_size]; try done; try lia.
    rewrite Nat2Z.id, Hlog. cbn [mbind option_bind]. rewrite parse_log by done. done.
Qed.

(** What lies behind the write position does not matter. *)
Lemma log_inv_frame j d d' ts :
  log_inv j d ts -> reliable d' -> dev_size d' = dev_size d ->
  (forall x, 0 <= x < 4096 + write_offset j -> image d' x = image d x) -> log_inv j d' ts.
Proof.
  intros Hinv Hr' Hs Hx. pose proof (log_inv_bounds _ _ _ Hinv) as [Hb _].
  destruct Hinv as (Hr & Hsb & Hdisk & Hsw & Hm & Hw & Hlt & Hds & Hlog & Hok).
  unfold log_inv. rewrite Hs. split_and!; try done; try lia.
  - etrans; [|exact Hdisk]. apply image_range_ext. intros x Hx'. apply Hx. lia.
  - etrans; [|exact Hlog]. apply image_range_ext. intros x Hx'. apply Hx. lia.
Qed.

(** ** Sequences of transactions and checkpoints *)

Inductive jop := JTxn (rs : list JournalRecord) | JCheckpoint (state : list JournalRecord).

Definition run_jop (s : Journal * D) (o : jop) : Journal * D :=
  match o with
  | JTxn rs => let '(_, j, d) := transaction rs s.1 s.2 in (j, d)
  | JCheckpoint st => let '(_, j, d) := checkpoint st s.1 s.2 in (j, d)
  end.

(** The specification: the next transaction id, the bytes used, and the records
    that recovery must return. *)
Definition spec_jop (s : Z * Z * list JournalRecord) (o : jop) : Z * Z * list JournalRecord :=
  let '(n, w, log) := s in
  match o with
  | JTxn rs =>
      let t := mk_t n false (set_txn n <$> rs) in
      (n + 1, w + Z.of_nat (length (txn_block t)), log ++ t_recs t)
  | JCheckpoint st => (n, w + Z.of_nat (length (txn_block (mk_t 0 true st))), st)
  end.

Definition jop_ok (o : jop) : Prop :=
  match o with JTxn rs | JCheckpoint rs => Forall payload_ok rs end.

Lemma payload_set_txn n r : uint 64 n -> payload_ok r -> payload_ok (set_txn n r).
Proof.
  intros Hn ((Ho & Ht & Hp) & Hop & Hk). split; [|done]. split; [done|]. split; [done|].
  destruct r as [o t k kl e dl dd c]. cbn in *. repeat case_match; destruct_and?; simplify_eq; split_and?; try done. unfold empty_record in Hp. by simplify_eq.
Qed.

Lemma append_all_open id rs : forall j rs0,
  open_ok j id rs0 ->
  open_ok (append_all id rs j) id (rs0 ++ (set_txn id <$> rs)) /\ same_log j (append_all id rs j) /\
  next_txn_id (append_all id rs j) = next_txn_id j.
Proof.
  induction rs as [|r rs IH]; intros j rs0 Ho; [by rewrite app_nil_r|].
  destruct (append_open j id rs0 r Ho) as (j1 & E & Ho1 & Hs1 & Hn1). unfold append_all in *. cbn [foldl].
  rewrite E. cbn [snd]. destruct (IH j1 _ Ho1) as (Ho2 & Hs2 & Hn2).
  rewrite <- app_assoc in Ho2. split_and!; try done; [|congruence].
  destruct Hs1 as (? & ? & ?), Hs2 as (? & ? & ?). unfold same_log. split_and!; congruence.
Qed.

(** The invariant of a run: the log holds what the specification says. *)
Definition run_inv (s : Journal * D) (p : Z * Z * list JournalRecord) : Prop :=
  let '(n, w, log) := p in
  exists ts, log_inv s.1 s.2 ts /\ mjoin (t_recs <$> ts) = log /\ next_txn_id s.1 = n /\
    write_offset s.1 = w /\ (forall id, n <= id -> active_txns_ s.1 !! id = None) /\ 0 <= n.

Lemma run_jop_inv s p o :
  run_inv s p -> jop_ok o -> (spec_jop p o).1.2 < data_size s.1 -> (spec_jop p o).1.1 < 2 ^ 64 ->
  run_inv (run_jop s o) (spec_jop p o) /\ data_size (run_jop s o).1 = data_size s.1.
Proof.
  destruct s as [j d], p as [[n w] log]. intros (ts & Hinv & Hj & Hn & Hw & Hact & Hn0) Ho Hfit Hid.
  cbn [fst snd] in *. destruct o as [rs|st]; cbn [run_jop spec_jop fst snd] in *.
  - unfold transaction, begin_txn. rewrite Hn, Hact by lia. cbn [default].
    set (j1 := set_txns _ _ j). assert (open_ok j1 n []) as Ho1 by (unfold open_ok; simpl; by rewrite lookup_insert_eq).
    destruct (append_all_open n rs j1 [] Ho1) as (Ho2 & Hs2 & Hn2). cbn [app] in Ho2.
    set (j2 := append_all n rs j1) in *. pose proof Hs2 as (E1 & E2 & E3).
    assert (log_inv j2 d ts) as Hinv2 by (eapply same_log_inv; [exact Hs2|]; by eapply same_log_inv; [|exact Hinv]).
    destruct (commit_open j2 d ts n (set_txn n <$> rs) Hinv2 Ho2) as (j' & d' & -> & Hinv' & Hn' & Hd' & Hw' & Ha').
    + unfold uint. lia.
    + apply Forall_fmap. eapply Forall_impl; [exact Ho|]. intros r Hr. apply payload_set_txn; [unfold uint; lia|done].
    + rewrite E1, E3. cbn [j1 set_txns data_size write_offset]. lia.
    + split; [|cbn [fst]; rewrite Hd', E1; done]. eexists. cbn [fst snd]. split; [exact Hinv'|].
      split; [rewrite fmap_app, join_app, Hj; simpl; by rewrite app_nil_r|].
      split; [rewrite Hn', Hn2; cbn [j1 set_txns next_txn_id]; apply u64_small; lia|].
      split; [rewrite Hw', E3; cbn [j1 set_txns write_offset]; lia|]. split; [|lia].
      intros id Hge. rewrite Ha', lookup_delete_ne by lia.
      enough (forall rs j0, (forall i, n + 1 <= i -> active_txns_ j0 !! i = None) ->
        forall i, n + 1 <= i -> active_txns_ (append_all n rs j0) !! i = None) as Hfr.
      { apply Hfr; [|lia]. intros i Hi. cbn [j1 set_txns active_txns_]. rewrite lookup_insert_ne by lia. apply Hact. lia. }
      clear. intros rs. induction rs as [|r rs IH]; intros j0 Hj0 i Hi; [by apply Hj0|].
      unfold append_all in *. cbn [foldl]. apply IH; [|done]. intros i' Hi'. unfold append.
      destruct (active_txns_ j0 !! n); [cbn [snd set_txns active_txns_]; rewrite lookup_insert_ne by lia|]; by apply Hj0.
  - destruct (checkpoint_spec j d ts st) as (j' & d' & -> & Hinv' & Hn' & Hd' & Hw' & Ha'); try done.
    + destruct Hinv as (_ & (_ & _ & Hs & _) & _). apply Hs.
    + lia.
    + split; [|done]. eexists. cbn [fst snd]. split; [exact Hinv'|]. split; [simpl; by rewrite app_nil_r|].
      split_and!; try congruence; try lia. intros id Hge. rewrite Ha'. by apply Hact.
Qed.

(** A device on which no journal was ever written. *)
Definition blank (d : D) : Prop := le_val (image_range (image d) 0 8) <> SB_MAGIC.

Lemma fresh_sb_ok : sb_ok fresh_sb.
Proof. unfold sb_ok, uint. cbn [fresh_sb magic checkpoint_offset checkpoint_seqno sb_write_offset pad].
  rewrite length_replicate. split_and!; try done; lia. Qed.

Lemma create_blank js d :
  reliable d -> blank d -> 4096 < js -> js <= dev_size d < 2 ^ 63 ->
  run_inv (create js d) (1, 0, []) /\ data_size (create js d).1 = js - 4096.
Proof.
  intros Hr Hb Hjs Hds. unfold create, kSuperblockSize. destruct (Z.ltb_spec 4096 js); [|lia].
  set (j0 := mk_journal _ _ _ _ _). unfold read_superblock.
  pose proof (read_direct_succeeds d 0 4096 Hr ltac:(lia) ltac:(lia) ltac:(lia) eq_refl eq_refl) as Hs.
  assert (0 + 4096 <= dev_size d) as Hin by lia.
  pose proof (read_spec d 0 4096 false ltac:(lia) ltac:(lia) Hin Hs) as Hrd.
  destruct (dev_read 0 4096 false d) as [r bl]. cbn [fst snd] in *. subst bl.
  destruct (Z.ltb_spec r 0); [lia|]. rewrite length_image_range, Nat.ltb_irrefl.
  rewrite firstn_all2 by (rewrite length_image_range; lia).
  assert (magic (sb_of_bytes (image_range (image d) 0 (Z.to_nat 4096))) <> SB_MAGIC) as Hm.
  { unfold sb_of_bytes. cbn [magic]. replace (Z.to_nat 4096) with (8 + Z.to_nat 4088)%nat by lia.
    rewrite image_range_app, take_app_length' by (by rewrite length_image_range). exact Hb. }
  destruct (Z.eqb_spec (magic (sb_of_bytes (image_range (image d) 0 (Z.to_nat 4096)))) SB_MAGIC); [done|].
  cbn [negb]. set (j1 := set_sb fresh_sb 0 j0).
  destruct (write_superblock_spec j1 d Hr fresh_sb_ok ltac:(lia)) as (r' & d' & -> & _ & Hr' & Hs' & Hi).
  split; [|done]. exists []. cbn [fst snd]. split_and!; try done; try lia; [].
  unfold log_inv. rewrite Hs'. cbn [j1 j0 set_sb superblock_ write_offset data_size].
  split_and!; try done; try lia; try exact fresh_sb_ok.
  rewrite (image_ext_range _ _ _ _ Hi), <- (length_sb_bytes _ fresh_sb_ok). apply image_range_write.
Qed.

Lemma spec_mono ops p : p.1.2 <= (foldl spec_jop p ops).1.2 /\ p.1.1 <= (foldl spec_jop p ops).1.1.
Proof.
  revert p. induction ops as [|o ops IH]; intros [[n w] log]; [simpl; lia|]. cbn [foldl].
  specialize (IH (spec_jop (n, w, log) o)). destruct o; cbn [spec_jop fst snd] in *; lia.
Qed.

Lemma run_jops_inv ops : forall s p,
  run_inv s p -> Forall jop_ok ops -> (foldl spec_jop p ops).1.2 < data_size s.1 ->
  (foldl spec_jop p ops).1.1 < 2 ^ 64 ->
  run_inv (foldl run_jop s ops) (foldl spec_jop p ops) /\ data_size (foldl run_jop s ops).1 = data_size s.1.
Proof.
  induction ops as [|o ops IH]; intros s p Hi Hok Hw Hn; [done|]. cbn [foldl] in *.
  apply Forall_cons in Hok as [Ho Hok]. pose proof (spec_mono ops (spec_jop p o)) as [? ?].
  destruct (run_jop_inv s p o Hi Ho) as [Hi' Hd']; [lia|lia|].
  destruct (IH _ _ Hi' Hok) as [? Hd'']; [by rewrite Hd'|done|]. split; [done|congruence].
Qed.
End Log.

(** ** Properties *)

(** The record encoding is invertible in any context: a record whose fields
    fit their widths is read back unchanged and exactly its bytes are consumed,
    whatever follows them. *)
Theorem record_roundtrip (r : JournalRecord) (rest : bytes) :
  record_ok r -> deserialize_record (serialize_record r ++ rest) = Some (r, rest).
Proof. apply deserialize_serialize. Qed.

Lemma record_roundtrip_witness :
  deserialize_record (serialize_record (mk_rec OP_KEY_PUT 7 [97; 98] (mk_kloc 3 10 20) 0 default_loc 0 0) ++ [1; 2])
  = Some (mk_rec OP_KEY_PUT 7 [97; 98] (mk_kloc 3 10 20) 0 default_loc 0 0, [1; 2]).
Proof.
  apply record_roundtrip. split; [unfold uint, OP_KEY_PUT; simpl; lia|].
  split; [unfold uint; simpl; lia|]. simpl. split; [lia|]. split; [|reflexivity].
  unfold kloc_ok, uint. simpl. lia.
Defined.

(** C19: durability and atomicity of the journal.  On a reliable device that
    held no journal, run any sequence of transactions and checkpoints that fits
    the log without wrapping.  Then, on every device that agrees with the
    result on the superblock and on the log up to the write position (so also
    after a crash that tore a later, uncommitted write), a journal that is opened
    again recovers exactly the records since the last checkpoint: its state,
    then the records of each committed transaction in order, with their
    transaction ids; nothing is lost, reordered or invented, and no exception is
    raised. *)
Theorem journal_recovers_committed `{DeviceSpec D} `{!ReliableDevice D} (d : D) (js : Z) (ops : list jop) (d' : D) :
  reliable d -> blank d -> 4096 < js -> js <= dev_size d < 2 ^ 63 -> Forall jop_ok ops ->
  let '(n, used, log) := foldl spec_jop (1, 0, []) ops in
  used < js - 4096 -> n < 2 ^ 64 ->
  reliable d' -> dev_size d' = dev_size (foldl run_jop (create js d) ops).2 ->
  (forall x, 0 <= x < 4096 + used -> image d' x = image (foldl run_jop (create js d) ops).2 x) ->
  exists j', recover (create js d').1 (create js d').2 = Some (log, j', d').
Proof.
  intros Hr Hb Hjs Hds Hok. destruct (foldl spec_jop (1, 0, []) ops) as [[n used] log] eqn:Es.
  intros Hu Hn Hr' Hs' Hx. destruct (create_blank js d Hr Hb Hjs Hds) as [Hi0 Hd0].
  destruct (run_jops_inv ops _ _ Hi0 Hok) as [Hi Hdata]; rewrite ?Es; cbn [fst snd]; try lia.
  rewrite Es in Hi. destruct (foldl run_jop (create js d) ops) as [j d1]. cbn [fst snd] in *.
  destruct Hi as (ts & Hinv & Hlog & _ & Hw & _). cbn [fst snd] in *. subst used.
  pose proof (log_inv_frame j d1 d' ts Hinv Hr' Hs' Hx) as Hinv'.
  unfold create, kSuperblockSize. destruct (Z.ltb_spec 4096 js); [|lia].
  rewrite (read_superblock_spec _ j d' ts Hinv'). cbn [fst snd].
  rewrite (recover_spec _ j d' ts Hinv'), Hlog by (cbn [set_sb data_size]; lia). by eexists.
Qed.

Definition demo_disk : ramdisk := mk_ram ∅ 65536 4096.
Definition demo_ops : list jop :=
  [JTxn [mk_rec OP_EXTENT_NEW 0 [] default_kloc 1 (mk_loc 32768 16384 FAST) 0 0];
   JTxn [mk_rec OP_KEY_PUT 0 [107] (mk_kloc 1 0 5) 0 default_loc 0 0]].

Lemma demo_ops_ok : Forall jop_ok demo_ops.
Proof.
  apply Forall_cons. split; [|apply Forall_cons; split; [|constructor]]; (constructor; [|constructor]);
    unfold payload_ok, record_ok, kloc_ok, dloc_ok, uint; cbn; split_and!; try done; try lia;
    repeat constructor; lia.
Qed.

Lemma journal_recovers_committed_witness :
  let d1 := (foldl run_jop (create 32768 demo_disk) demo_ops).2 in
  exists j', recover (create 32768 d1).1 (create 32768 d1).2 =
    Some ([mk_rec OP_EXTENT_NEW 1 [] default_kloc 1 (mk_loc 32768 16384 FAST) 0 0;
           mk_rec OP_KEY_PUT 2 [107] (mk_kloc 1 0 5) 0 default_loc 0 0], j', d1).
Proof.
  cbv zeta. set (d1 := (foldl run_jop (create 32768 demo_disk) demo_ops).2).
  assert (foldl spec_jop (1, 0, []) demo_ops = (3, 8192,
    [mk_rec OP_EXTENT_NEW 1 [] default_kloc 1 (mk_loc 32768 16384 FAST) 0 0;
     mk_rec OP_KEY_PUT 2 [107] (mk_kloc 1 0 5) 0 default_loc 0 0])) as Es by (vm_compute; reflexivity).
  assert (blank demo_disk) as Hb by (vm_compute; discriminate).
  assert (reliable d1 /\ dev_size d1 = dev_size demo_disk) as [Hr Hs] by (split; vm_compute; reflexivity).
  pose proof (journal_recovers_committed demo_disk 32768 demo_ops d1 eq_refl Hb) as Hthm.
  rewrite Es in Hthm. apply Hthm; [lia|simpl; lia|exact demo_ops_ok|lia|lia|exact Hr|reflexivity|reflexivity].
Defined.

(** A checkpoint of two blocks, taken when one block is left before the end of a
    log of three. *)
Definition wrap_state : list JournalRecord :=
  [mk_rec OP_KEY_PUT 0 (replicate 4200 97) (mk_kloc 1 0 5) 0 default_loc 0 0].
Definition wrap_run : Journal * ramdisk :=
  foldl run_jop (create 16384 demo_disk) (demo_ops ++ [JCheckpoint wrap_state]).

(** A checkpoint that wraps around the end of the log is lost:
    [checkpoint] takes its start position before [pad_and_write] moves the write
    position to 0, so the superblock points behind the data; here it even equals
    the write position, and recovery returns nothing although the checkpoint was
    written and acknowledged. *)
Theorem checkpoint_lost_on_wrap :
  (checkpoint wrap_state (foldl run_jop (create 16384 demo_disk) demo_ops).1
     (foldl run_jop (create 16384 demo_disk) demo_ops).2).1.1 = 0 /\
  checkpoint_offset (superblock_ wrap_run.1) = 8192 /\ write_offset wrap_run.1 = 8192 /\
  (fun x => x.1.1) <$> recover wrap_run.1 wrap_run.2 = Some [].
Proof. vm_compute. split_and!; reflexivity. Qed.
End JournalSpec.

(** * The journal stays in its region

    On any device, also one that fails: the operations of the journal change
    only bytes of the first [jsz] bytes of the device, as long as what they write
    fits the log.  That is what keeps the journal off the extents. *)
Import BtierTypes Device Journal JournalSpec.

Module JournalFrame.
#[local] Abbreviation length := Datatypes.length.

Definition journal_ok (jsz : Z) (j : Journal) : Prop :=
  kSuperblockSize + data_size j <= jsz /\ 0 < data_size j /\ jsz < 2 ^ 62 /\
  0 <= write_offset j <= data_size j /\ length (pad (superblock_ j)) = Z.to_nat 4064 /\
  active_txns_ j = ∅.

(** An upper bound of the encoded length of records. *)
Definition rec_len (r : JournalRecord) : Z := 30 + Z.of_nat (length (key r)).
Definition recs_len (rs : list JournalRecord) : Z := sumZ rec_len rs.

Lemma length_rec r : Z.of_nat (length (serialize_record r)) <= rec_len r.
Proof.
  unfold serialize_record, rec_len, put_string, put_key_location, put_disk_location, put_u8, put_u32, put_u64.
  repeat case_match; rewrite ?length_app, ?length_le_bytes; simpl; lia.
Qed.

Lemma length_recs rs : Z.of_nat (length (serialize_records rs)) <= recs_len rs.
Proof.
  induction rs as [|r rs IH]; [done|]. rewrite serialize_records_cons, length_app. unfold recs_len.
  rewrite sumZ_cons. pose proof (length_rec r). unfold recs_len in IH. lia.
Qed.

Lemma recs_len_set_txn id rs : recs_len (set_txn id <$> rs) = recs_len rs.
Proof. induction rs as [|r rs IH]; [done|]. unfold recs_len in *. rewrite fmap_cons, !sumZ_cons, IH. done. Qed.

Lemma length_txn id middle body :
  length (txn_bytes id middle body) = (22 + length middle + length body)%nat.
Proof.
  assert (forall t, length (serialize_record (empty_record OP_TXN_BEGIN t)) = 9%nat) as Hb by done.
  assert (forall c t, length (serialize_record (set_crc c (empty_record OP_TXN_COMMIT t))) = 13%nat) as Hc by done.
  unfold txn_bytes. rewrite !length_app, Hb, Hc. lia.
Qed.

Section Frame.
Context {D : Type} `{DeviceSpec D}.
Implicit Types (d : D) (j : Journal).

(** [d'] differs from [d] in the first [jsz] bytes only. *)
Definition frame (jsz : Z) (d d' : D) : Prop :=
  dev_size d' = dev_size d /\ forall x, x < 0 \/ jsz <= x -> image d' x = image d x.

Lemma frame_refl jsz d : frame jsz d d.
Proof. done. Qed.
Lemma frame_trans jsz d1 d2 d3 : frame jsz d1 d2 -> frame jsz d2 d3 -> frame jsz d1 d3.
Proof. intros [E1 H1] [E2 H2]. split; [congruence|]. intros x Hx. by rewrite H2, H1. Qed.
Lemma frame_flush jsz d : frame jsz d (dev_flush d).2.
Proof. split; [apply flush_size|]. intros. apply flush_spec. Qed.
Lemma frame_write jsz d off bl b :
  0 <= off -> off + Z.of_nat (length bl) <= jsz -> frame jsz d (dev_write off bl b d).2.
Proof. intros ? ?. split; [apply write_size|]. intros x Hx. apply write_frame. lia. Qed.

Lemma write_superblock_frame jsz j d :
  journal_ok jsz j -> frame jsz d (write_superblock j d).2.
Proof.
  intros (Hd & ? & ? & Hw & Hp & _). unfold write_superblock.
  pose proof (frame_write jsz d 0 (sb_bytes (superblock_ j)) false) as Hf.
  assert (length (sb_bytes (superblock_ j)) = Z.to_nat 4096) as El.
  { unfold sb_bytes. rewrite !length_app, !length_le_bytes, Hp. lia. }
  specialize (Hf ltac:(lia)). rewrite El in Hf. specialize (Hf ltac:(unfold kSuperblockSize in *; lia)).
  destruct (dev_write 0 (sb_bytes (superblock_ j)) false d) as [r d1]. simpl in Hf.
  destruct (r <? 0); simpl; [done|]. eapply frame_trans; [exact Hf|apply frame_flush].
Qed.

Lemma journal_ok_set jsz j sb w :
  journal_ok jsz j -> 0 <= w <= data_size j -> length (pad sb) = Z.to_nat 4064 -> journal_ok jsz (set_sb sb w j).
Proof. unfold journal_ok. simpl. naive_solver. Qed.

Lemma pad_and_write_frame jsz bl j d :
  journal_ok jsz j -> bl <> [] -> Z.of_nat (length bl) + 4095 <= data_size j ->
  exists r w d', pad_and_write bl j d = (r, set_sb (superblock_ j) w j, d') /\
    0 <= w <= data_size j /\ frame jsz d d'.
Proof.
  intros (Hd & ? & ? & Hw & Hp & _) Hne Hfit. unfold pad_and_write. unfold kSuperblockSize in *.
  destruct (padded_bytes bl Hne ltac:(lia)) as [Epad Ebl]. cbv zeta in Epad, Ebl |- *.
  rewrite Ebl. clear Ebl. rewrite Epad. clear Epad.
  assert (Z.of_nat (length (pad_block bl)) <= Z.of_nat (length bl) + 4095) as Hpl.
  { rewrite length_pad_block. pose proof (pad_len_spec (length bl)). lia. }
  set (p := Z.of_nat (length (pad_block bl))) in *.
  rewrite (u64_small (write_offset j + p)) by lia.
  set (w := if data_size j <? write_offset j + p then 0 else write_offset j).
  assert (0 <= w /\ w + p <= data_size j) as [? ?].
  { subst w. destruct (Z.ltb_spec (data_size j) (write_offset j + p)); lia. }
  unfold kDataStart, kSuperblockSize. rewrite (u64_small (4096 + w)) by lia.
  pose proof (frame_write jsz d (4096 + w) (pad_block bl) false ltac:(lia) ltac:(fold p; lia)) as Hf.
  destruct (dev_write (4096 + w) (pad_block bl) false d) as [r d1]. simpl in Hf.
  destruct (r <? 0); [exists r, w, d1; split_and!; try done; lia|].
  pose proof (frame_flush jsz d1) as Hf2. destruct (dev_flush d1) as [r2 d2]. simpl in Hf2.
  rewrite u64_small by lia. eexists r2, _, d2. split; [done|]. split.
  - destruct (Z.leb_spec (data_size j) (w + p)); lia.
  - by eapply frame_trans.
Qed.

Lemma transaction_frame jsz rs j d :
  journal_ok jsz j -> recs_len rs + 4117 <= data_size j ->
  exists r j' d', transaction rs j d = (r, j', d') /\ journal_ok jsz j' /\
    data_size j' = data_size j /\ frame jsz d d'.
Proof.
  intros Hok Hfit. pose proof Hok as (_ & _ & _ & _ & Hp & Ha). unfold transaction, begin_txn.
  set (id := next_txn_id j). rewrite Ha, lookup_empty. cbn [default].
  set (j1 := set_txns _ _ j). assert (open_ok j1 id []) as Ho1 by (unfold open_ok; simpl; by rewrite lookup_insert_eq).
  destruct (append_all_open id rs j1 [] Ho1) as (Ho2 & (E1 & E2 & E3) & Hn2).
  assert (active_txns_ (append_all id rs j1) = {[id := mk_txn (set_txn id <$> rs) (serialize_records (set_txn id <$> rs))]}) as Ha2.
  { apply map_eq. intros i. destruct (decide (i = id)) as [->|Hne]; [by rewrite Ho2, lookup_singleton_eq|].
    rewrite lookup_singleton_ne by done.
    enough (forall l j0, active_txns_ j0 !! i = None -> active_txns_ (append_all id l j0) !! i = None) as Hfr.
    { apply Hfr. simpl. by rewrite lookup_insert_ne. }
    intros l. induction l as [|r l IH]; intros j0 Hj0; [done|]. unfold append_all in *. simpl. apply IH.
    unfold append. destruct (active_txns_ j0 !! id); simpl; [by rewrite lookup_insert_ne|done]. }
  set (j2 := append_all id rs j1) in *. unfold commit_txn. rewrite Ho2. cbn [app serialized].
  set (bl := txn_bytes id [] (serialize_records (set_txn id <$> rs))).
  set (j3 := set_txns (next_txn_id j2) (delete id (active_txns_ j2)) j2).
  assert (journal_ok jsz j3) as Hok3.
  { unfold journal_ok, j3. cbn [set_txns data_size write_offset superblock_ active_txns_].
    rewrite E1, E2, E3, Ha2. split_and!; try apply Hok. by rewrite delete_singleton_eq. }
  destruct (pad_and_write_frame jsz bl j3 d Hok3) as (r & w & d1 & -> & Hw & Hf).
  { unfold bl. intros E%(f_equal length). rewrite length_txn in E. simpl in E. lia. }
  { unfold bl. rewrite length_txn. pose proof (length_recs (set_txn id <$> rs)) as Hl.
    rewrite recs_len_set_txn in Hl. cbn [Datatypes.length j3 set_txns data_size]. rewrite E1. cbn [j1 set_txns data_size]. lia. }
  assert (data_size j3 = data_size j) as Ed by (by cbn [j3 set_txns data_size]; rewrite E1).
  assert (length (pad (superblock_ j3)) = Z.to_nat 4064) as Hp3 by apply Hok3.
  destruct (r <? 0).
  - exists r. eexists _, d1. split; [done|]. split_and!; try done. by apply journal_ok_set.
  - set (j4 := set_sb _ _ (set_sb _ _ _)). assert (journal_ok jsz j4) as Hok4.
    { by apply (journal_ok_set jsz (set_sb (superblock_ j3) w j3)); [apply journal_ok_set| |]. }
    pose proof (write_superblock_frame jsz j4 d1 Hok4) as Hf2.
    destruct (write_superblock j4 d1) as [r2 d2]. simpl in Hf2.
    exists 0. eexists _, d2. split; [done|]. split_and!; try done. by eapply frame_trans.
Qed.

Lemma checkpoint_frame jsz st j d :
  journal_ok jsz j -> recs_len st + 4126 <= data_size j ->
  exists r j' d', checkpoint st j d = (r, j', d') /\ journal_ok jsz j' /\
    data_size j' = data_size j /\ frame jsz d d'.
Proof.
  intros Hok Hfit. pose proof Hok as (_ & _ & _ & _ & Hp & Ha). unfold checkpoint. set (bl := txn_bytes _ _ _).
  destruct (pad_and_write_frame jsz bl j d Hok) as (r & w & d1 & -> & Hw & Hf).
  { unfold bl. intros E%(f_equal length). rewrite length_txn in E. simpl in E. lia. }
  { unfold bl. rewrite length_txn. pose proof (length_recs st).
    assert (length (serialize_record (empty_record OP_CHECKPOINT 0)) = 9%nat) as -> by done. lia. }
  destruct (r <? 0).
  - exists r. eexists _, d1. split; [done|]. split_and!; try done. by apply journal_ok_set.
  - set (j4 := set_sb _ _ (set_sb _ _ _)). assert (journal_ok jsz j4) as Hok4.
    { by apply (journal_ok_set jsz (set_sb (superblock_ j) w j)); [apply journal_ok_set| |]. }
    pose proof (write_superblock_frame jsz j4 d1 Hok4) as Hf2.
    destruct (write_superblock j4 d1) as [r2 d2]. simpl in Hf2.
    exists 0. eexists _, d2. split; [done|]. split_and!; try done. by eapply frame_trans.
Qed.
End Frame.
End JournalFrame.
