(* ===== verification/Layout.v ===== *)
(** * Where the values lie

    The invariant that ties the key map, the extent map and the devices
    together: every key's slot lies in the used part of a live extent, slots
    never overlap, the live bytes of an extent are the lengths of its keys, and
    the bytes of the slots are the values of the abstract map.  The lemmas say
    how each kind of change (a slot reserved, a value written, a key put or
    deleted, an extent created, moved or freed) preserves it. *)
From stdpp Require Import base numbers list gmap.
From Stdlib Require Import ZArith Lia.
From S2P Require Import Prelude Device BtierTypes ExtentMap.
Import BtierTypes Device ExtentMap.

Module Layout.

(** An extent as the layout sees it: location, used bytes, live bytes. *)
Abbreviation slot_t := (DiskLocation * Z * Z)%type.
Abbreviation slots_t := (gmap Z slot_t).
Abbreviation klocs := (gmap bytes KeyLocation).

(** ** Live bytes *)

Definition share (id : Z) (kl : KeyLocation) : Z := if extent_id kl =? id then klength kl else 0.
Definition live_sum (L : klocs) (id : Z) : Z := sumZ (fun p => share id p.2) (map_to_list L).

Lemma live_sum_empty id : live_sum ∅ id = 0.
Proof. unfold live_sum. by rewrite map_to_list_empty. Qed.

Lemma live_sum_delete L k kl id :
  L !! k = Some kl -> live_sum L id = share id kl + live_sum (delete k L) id.
Proof.
  intros Hk. unfold live_sum.
  by rewrite <- (sumZ_Permutation _ _ _ (map_to_list_delete L k kl Hk)), sumZ_cons.
Qed.

Lemma live_sum_insert L k kl id :
  live_sum (<[k := kl]> L) id = share id kl + live_sum (delete k L) id.
Proof.
  rewrite (live_sum_delete (<[k := kl]> L) k kl) by apply lookup_insert_eq.
  by rewrite delete_insert_eq.
Qed.

Lemma live_sum_forget L k id :
  live_sum L id = match L !! k with Some kl => share id kl | None => 0 end + live_sum (delete k L) id.
Proof. destruct (L !! k) eqn:E; [by apply live_sum_delete|]. by rewrite delete_id. Qed.

Definition positive (L : klocs) : Prop := forall k kl, L !! k = Some kl -> 0 < klength kl.

Lemma live_sum_nonneg L id : positive L -> 0 <= live_sum L id.
Proof.
  intros Hp. apply sumZ_nonneg. apply Forall_forall. intros [k kl] Hin%elem_of_map_to_list.
  unfold share. simpl. specialize (Hp _ _ Hin). destruct (extent_id kl =? id); lia.
Qed.

Definition no_keys (L : klocs) (id : Z) : Prop := forall k kl, L !! k = Some kl -> extent_id kl <> id.

Lemma live_sum_no_keys L id : no_keys L id -> live_sum L id = 0.
Proof.
  intros Hn. induction L as [|k kl L Hk IH] using map_ind; [apply live_sum_empty|].
  rewrite live_sum_insert, delete_id, IH; [|intros k' kl' E; apply (Hn k')|done].
  - unfold share. destruct (Z.eqb_spec (extent_id kl) id) as [E|]; [|lia].
    by destruct (Hn k kl); [apply lookup_insert_eq|].
  - rewrite lookup_insert_ne; [done|]. intros ->. congruence.
Qed.

Lemma live_sum_zero L id : positive L -> live_sum L id = 0 -> no_keys L id.
Proof.
  intros Hp Hz k kl Hk Hid. rewrite (live_sum_delete L k kl id Hk) in Hz.
  pose proof (Hp _ _ Hk). assert (positive (delete k L)) as Hp'.
  { intros k' kl'. rewrite lookup_delete_Some. intros [_ ?]. by eapply Hp. }
  pose proof (live_sum_nonneg _ id Hp'). unfold share in Hz. rewrite Hid, Z.eqb_refl in Hz. lia.
Qed.

(** ** Devices *)

Section Layout.
Context {D : Type} `{DeviceSpec D}.

(** From [ds] to [ds'] only bytes of [off, off + len) on tier [t] change. *)
Definition writes_in (t : Tier) (off len : Z) (ds ds' : Devs D) : Prop :=
  forall t', exists d d', dev_of t' ds = Some d /\ dev_of t' ds' = Some d' /\
    dev_size d' = dev_size d /\
    forall x, (t' = t -> x < off \/ off + len <= x) -> image d' x = image d x.

Definition both (ds : Devs D) : Prop := forall t, is_Some (dev_of t ds).

Lemma writes_refl t off len ds : both ds -> writes_in t off len ds ds.
Proof. intros Hb t'. destruct (Hb t') as [d Hd]. by exists d, d. Qed.

Lemma writes_trans t off len ds1 ds2 ds3 :
  writes_in t off len ds1 ds2 -> writes_in t off len ds2 ds3 -> writes_in t off len ds1 ds3.
Proof.
  intros H1 H2 t'. destruct (H1 t') as (d1 & d2 & E1 & E2 & Es & Hx).
  destruct (H2 t') as (d2' & d3 & E2' & E3 & Es' & Hx'). rewrite E2 in E2'. injection E2' as <-.
  exists d1, d3. split_and!; try done; [congruence|]. intros x Hr. by rewrite Hx', Hx.
Qed.

Lemma writes_both t off len ds ds' : writes_in t off len ds ds' -> both ds'.
Proof. intros Hw t'. by destruct (Hw t') as (d & d' & _ & -> & _). Qed.

Lemma dev_of_set_eq t (d : D) ds : dev_of t (set_dev t d ds) = Some d.
Proof. by destruct t. Qed.
Lemma dev_of_set_ne t t' (d : D) ds : t <> t' -> dev_of t' (set_dev t d ds) = dev_of t' ds.
Proof. by destruct t, t'. Qed.

Lemma writes_set t off len ds d d' :
  both ds -> dev_of t ds = Some d -> dev_size d' = dev_size d ->
  (forall x, x < off \/ off + len <= x -> image d' x = image d x) ->
  writes_in t off len ds (set_dev t d' ds).
Proof.
  intros Hb Hd Hs Hx t'. destruct (decide (t = t')) as [<-|Hne].
  - exists d, d'. rewrite dev_of_set_eq. split_and!; try done. intros x Hr. by apply Hx, Hr.
  - destruct (Hb t') as [d1 Hd1]. exists d1, d1. rewrite dev_of_set_ne by done. done.
Qed.

Lemma writes_widen t off len off' len' ds ds' :
  off' <= off -> off + len <= off' + len' -> writes_in t off len ds ds' -> writes_in t off' len' ds ds'.
Proof.
  intros H1 H2 Hw t'. destruct (Hw t') as (d & d' & E & E' & Es & Hx). exists d, d'.
  split_and!; try done. intros x Hr. apply Hx. intros Ht. specialize (Hr Ht). lia.
Qed.

Lemma dev_write_in t off bl b ds d :
  both ds -> dev_of t ds = Some d ->
  writes_in t off (Z.of_nat (List.length bl)) ds (set_dev t (dev_write off bl b d).2 ds).
Proof.
  intros Hb Hd. eapply writes_set; try done; [apply write_size|]. intros x Hx. by apply write_frame.
Qed.

(** ** The invariant *)

Definition geo_ok (s : slot_t) : Prop :=
  let '(l, u, v) := s in
  HEADER_SIZE <= length l <= 2 ^ 31 /\ 0 <= u <= length l - HEADER_SIZE /\ 0 <= v <= u.

Definition value_of (V : slots_t) (ds : Devs D) (kl : KeyLocation) : option bytes :=
  '(l, _, _) ← V !! extent_id kl;
  d ← dev_of (tier l) ds;
  Some (image_range (image d) (offset l + HEADER_SIZE + koffset kl) (Z.to_nat (klength kl))).

(** [pend id]: bytes of [id] that are counted live but belong to no key: a slot
    that was reserved for a key not yet put, or whose key is already gone. *)
Record layout (V : slots_t) (L : klocs) (ds : Devs D) (pend : Z -> Z) (M : gmap bytes bytes) : Prop := {
  lay_geo : forall id s, V !! id = Some s -> geo_ok s;
  lay_slot : forall k kl, L !! k = Some kl -> exists l u v, V !! extent_id kl = Some (l, u, v) /\
    0 <= koffset kl /\ 0 < klength kl /\ koffset kl + klength kl <= u;
  lay_disj : forall k1 k2 kl1 kl2, k1 <> k2 -> L !! k1 = Some kl1 -> L !! k2 = Some kl2 ->
    extent_id kl1 = extent_id kl2 ->
    koffset kl1 + klength kl1 <= koffset kl2 \/ koffset kl2 + klength kl2 <= koffset kl1;
  lay_live : forall id l u v, V !! id = Some (l, u, v) -> v = live_sum L id + pend id;
  lay_data : forall k, M !! k = (kl ← L !! k; value_of V ds kl);
}.

Definition no_pend : Z -> Z := fun _ => 0.
Definition pend_at (id n : Z) : Z -> Z := fun i => if i =? id then n else 0.

Lemma layout_pend V L ds pend pend' M :
  (forall id, is_Some (V !! id) -> pend' id = pend id) -> layout V L ds pend M -> layout V L ds pend' M.
Proof.
  intros He [Hg Hs Hd Hl Hm]. split; try done. intros id l u v Hid. rewrite He by (by eexists). eauto.
Qed.

Lemma layout_positive V L ds pend M : layout V L ds pend M -> positive L.
Proof. intros Hl k kl Hk. destruct (lay_slot _ _ _ _ _ Hl k kl Hk) as (? & ? & ? & _ & _ & ? & _). done. Qed.

Lemma layout_absent V L ds pend M id : layout V L ds pend M -> V !! id = None -> no_keys L id.
Proof.
  intros Hl Hn k kl Hk <-. destruct (lay_slot _ _ _ _ _ Hl k kl Hk) as (? & ? & ? & E & _). congruence.
Qed.

(** ** Writes *)

(** No key's slot on tier [t] meets [off, off + len). *)
Definition clear_of (V : slots_t) (L : klocs) (t : Tier) (off len : Z) : Prop :=
  forall k kl l u v, L !! k = Some kl -> V !! extent_id kl = Some (l, u, v) -> tier l = t ->
    offset l + HEADER_SIZE + koffset kl + klength kl <= off \/
    off + len <= offset l + HEADER_SIZE + koffset kl.

Lemma value_of_frame V L ds ds' t off len k kl :
  writes_in t off len ds ds' -> clear_of V L t off len -> L !! k = Some kl ->
  0 < klength kl -> value_of V ds' kl = value_of V ds kl.
Proof.
  intros Hw Hc Hk Hl. unfold value_of. destruct (V !! extent_id kl) as [[[l u] v]|] eqn:E; [|done].
  simpl. destruct (Hw (tier l)) as (d & d' & -> & -> & _ & Hx). simpl. f_equal.
  apply image_range_ext. intros x Hr. apply Hx. intros Ht.
  destruct (Hc k kl l u v Hk E Ht); lia.
Qed.

Lemma layout_write V L ds ds' pend M t off len :
  layout V L ds pend M -> writes_in t off len ds ds' -> clear_of V L t off len ->
  layout V L ds' pend M.
Proof.
  intros Hl Hw Hc. pose proof (layout_positive _ _ _ _ _ Hl) as Hp. destruct Hl as [Hg Hs Hd Hv Hm].
  split; try done. intros k. rewrite Hm. destruct (L !! k) as [kl|] eqn:E; [|done]. simpl.
  symmetry. eapply value_of_frame; try done. by eapply Hp.
Qed.

(** ** Changes of one extent *)

Lemma value_of_loc (V V' : slots_t) (ds : Devs D) kl :
  (fun s : slot_t => s.1.1) <$> V' !! extent_id kl = (fun s : slot_t => s.1.1) <$> V !! extent_id kl ->
  value_of V' ds kl = value_of V ds kl.
Proof.
  intros E. unfold value_of.
  destruct (V' !! extent_id kl) as [[[l' u'] v']|], (V !! extent_id kl) as [[[l u] v]|]; simplify_eq/=; done.
Qed.

(** Used and live bytes of an extent change; the difference is pending. *)
Lemma layout_resize V L ds pend M id l u v u' v' :
  layout V L ds pend M -> V !! id = Some (l, u, v) -> u <= u' -> geo_ok (l, u', v') ->
  layout (<[id := (l, u', v')]> V) L ds (fun i => pend i + pend_at id (v' - v) i) M.
Proof.
  intros [Hg Hs Hd Hv Hm] Hid Hu Hg'. split; try done.
  - intros i s. destruct (decide (i = id)) as [->|]; [rewrite lookup_insert_eq; by intros [= <-]|].
    rewrite lookup_insert_ne by done. apply Hg.
  - intros k kl Hk. destruct (Hs k kl Hk) as (l0 & u0 & v0 & E & ? & ? & ?).
    destruct (decide (extent_id kl = id)) as [Ei|].
    + exists l, u', v'. rewrite Ei, lookup_insert_eq. rewrite Ei, Hid in E. simplify_eq. split_and!; try done; lia.
    + exists l0, u0, v0. by rewrite lookup_insert_ne.
  - intros i l0 u0 v0. unfold pend_at. destruct (Z.eqb_spec i id) as [->|].
    + rewrite lookup_insert_eq. intros [= <- <- <-]. rewrite (Hv _ _ _ _ Hid). lia.
    + rewrite lookup_insert_ne by done. intros E. rewrite (Hv _ _ _ _ E). lia.
  - intros k. rewrite Hm. destruct (L !! k) as [kl|]; [|done]. simpl. symmetry. apply value_of_loc.
    destruct (decide (extent_id kl = id)) as [->|]; [by rewrite lookup_insert_eq, Hid|by rewrite lookup_insert_ne].
Qed.

Lemma layout_new V L ds pend M id l :
  layout V L ds pend M -> V !! id = None -> HEADER_SIZE <= length l <= 2 ^ 31 -> pend id = 0 ->
  layout (<[id := (l, 0, 0)]> V) L ds pend M.
Proof.
  intros Hl Hid Hg' Hp0. pose proof (layout_absent _ _ _ _ _ _ Hl Hid) as Hnk. destruct Hl as [Hg Hs Hd Hv Hm].
  split; try done.
  - intros i s. destruct (decide (i = id)) as [->|]; [rewrite lookup_insert_eq; intros [= <-]|].
    + unfold geo_ok. lia.
    + rewrite lookup_insert_ne by done. apply Hg.
  - intros k kl Hk. destruct (Hs k kl Hk) as (l0 & u0 & v0 & E & ?). exists l0, u0, v0.
    rewrite lookup_insert_ne; [done|]. intros Ei. by apply (Hnk k kl).
  - intros i l0 u0 v0. destruct (decide (i = id)) as [->|].
    + rewrite lookup_insert_eq. intros [= <- <- <-]. by rewrite live_sum_no_keys, Hp0.
    + rewrite lookup_insert_ne by done. apply Hv.
  - intros k. rewrite Hm. destruct (L !! k) as [kl|] eqn:Ek; [|done]. simpl. symmetry. apply value_of_loc.
    rewrite lookup_insert_ne; [done|]. intros Ei. by apply (Hnk k kl).
Qed.

Lemma layout_free V L ds pend pend' M id :
  layout V L ds pend M -> no_keys L id -> (forall i, i <> id -> pend' i = pend i) ->
  layout (delete id V) L ds pend' M.
Proof.
  intros [Hg Hs Hd Hv Hm] Hnk Hp'. split; try done.
  - intros i s. rewrite lookup_delete_Some. intros [_ ?]. by eapply Hg.
  - intros k kl Hk. destruct (Hs k kl Hk) as (l0 & u0 & v0 & E & ?). exists l0, u0, v0.
    rewrite lookup_delete_ne; [done|]. intros Ei. by apply (Hnk k kl).
  - intros i l0 u0 v0. rewrite lookup_delete_Some. intros [Hne ?]. rewrite Hp' by done. eauto.
  - intros k. rewrite Hm. destruct (L !! k) as [kl|] eqn:Ek; [|done]. simpl. symmetry. apply value_of_loc.
    rewrite lookup_delete_ne; [done|]. intros Ei. by apply (Hnk k kl).
Qed.

(** ** Changes of one key *)

Definition pend_old (old : option KeyLocation) : Z -> Z :=
  match old with Some kl => pend_at (extent_id kl) (klength kl) | None => no_pend end.

Lemma share_pend id kl : share id kl = pend_at (extent_id kl) (klength kl) id.
Proof. unfold share, pend_at. rewrite Z.eqb_sym. done. Qed.

(** A reserved and written slot becomes the place of [key]; the old slot of
    [key], if any, is pending. *)
Lemma layout_put V L ds M key kl l u v value :
  layout V L ds (pend_at (extent_id kl) (klength kl)) M ->
  V !! extent_id kl = Some (l, u, v) -> 0 <= koffset kl -> 0 < klength kl -> koffset kl + klength kl <= u ->
  (forall k kl', L !! k = Some kl' -> extent_id kl' = extent_id kl -> koffset kl' + klength kl' <= koffset kl) ->
  value_of V ds kl = Some value ->
  layout V (<[key := kl]> L) ds (pend_old (L !! key)) (<[key := value]> M).
Proof.
  intros [Hg Hs Hd Hv Hm] Hid Ho Hn Hu Hfresh Hval. split; try done.
  - intros k kl'. destruct (decide (k = key)) as [->|]; [rewrite lookup_insert_eq; intros [= <-]|].
    + by exists l, u, v.
    + rewrite lookup_insert_ne by done. apply Hs.
  - intros k1 k2 kl1 kl2 Hne.
    destruct (decide (k1 = key)) as [->|]; [rewrite lookup_insert_eq, lookup_insert_ne by done; intros [= <-] E2 Ee|].
    + specialize (Hfresh k2 kl2 E2). lia.
    + rewrite (lookup_insert_ne _ key k1) by done. destruct (decide (k2 = key)) as [->|].
      * rewrite lookup_insert_eq. intros E1 [= <-] Ee. specialize (Hfresh k1 kl1 E1). lia.
      * rewrite lookup_insert_ne by done. intros. eapply (Hd k1 k2); done.
  - intros i l0 u0 v0 E. rewrite (Hv _ _ _ _ E), live_sum_insert, (live_sum_forget L key i), share_pend.
    destruct (L !! key) as [kl0|]; simpl; rewrite ?share_pend; unfold no_pend; lia.
  - intros k. destruct (decide (k = key)) as [->|]; [by rewrite !lookup_insert_eq|].
    by rewrite !lookup_insert_ne.
Qed.

Lemma layout_del V L ds M key kl :
  layout V L ds no_pend M -> L !! key = Some kl ->
  layout V (delete key L) ds (pend_at (extent_id kl) (klength kl)) (delete key M).
Proof.
  intros [Hg Hs Hd Hv Hm] Hk. split; try done.
  - intros k kl'. rewrite lookup_delete_Some. intros [_ ?]. by eapply Hs.
  - intros k1 k2 kl1 kl2 Hne. rewrite !lookup_delete_Some. intros [_ ?] [_ ?]. by eapply (Hd k1 k2).
  - intros i l0 u0 v0 E. rewrite (Hv _ _ _ _ E), (live_sum_delete L key kl i Hk), share_pend. unfold no_pend. lia.
  - intros k. destruct (decide (k = key)) as [->|]; [by rewrite !lookup_delete_eq|].
    by rewrite !lookup_delete_ne.
Qed.
End Layout.
End Layout.
