(* ===== verification/Config.v ===== *)
(** * btier/config.h: the configuration record and its defaults

    [BtierConfig::load] and [save] parse and print a file and are not
    modelled. *)
From stdpp Require Import base numbers list.
From Stdlib Require Import ZArith SpecFloat.
From S2P Require Import Prelude Floats.
Import Floats.

Module Config.

Record WeightSet := mk_weights {
  w_recency : spec_float;
  w_frequency : spec_float;
  w_randomness : spec_float;
  w_write_penalty : spec_float;
}.

Definition default_weights : WeightSet :=
  mk_weights (float_lit 35 100) (float_lit 30 100) (float_lit 25 100) (float_lit 10 100).

Record BtierConfig := mk_config {
  fast_dev_path : bytes;
  slow_dev_path : bytes;
  extent_size : Z;
  block_size : Z;
  large_value_threshold : Z;
  base_weights : WeightSet;
  low_watermark : spec_float;
  high_watermark : spec_float;
  scan_interval_ms : Z;
  max_migrations_per_cycle : Z;
  max_compactions_per_cycle : Z;
  promote_threshold : spec_float;
  demote_threshold : spec_float;
  compaction_dead_ratio : spec_float;
  compaction_usage_ratio : spec_float;
  cool_interval_sec : Z;
  sequential_threshold : Z;
  journal_size : Z;
}.

Definition default_config : BtierConfig :=
  mk_config [] [] (4 * 1024 * 1024) 4096 (2 * 1024 * 1024) default_weights
    (double_lit 30 100) (double_lit 80 100) 1000 16 4 (float_lit 7 10) (float_lit 3 10)
    (double_lit 50 100) (double_lit 80 100) 300 (64 * 1024) (64 * 1024 * 1024).

(** [set_weights], [set_watermarks] and [set_scan_interval] of the engine. *)
Definition set_base_weights (w : WeightSet) (c : BtierConfig) : BtierConfig :=
  mk_config (fast_dev_path c) (slow_dev_path c) (extent_size c) (block_size c)
    (large_value_threshold c) w (low_watermark c) (high_watermark c) (scan_interval_ms c)
    (max_migrations_per_cycle c) (max_compactions_per_cycle c) (promote_threshold c)
    (demote_threshold c) (compaction_dead_ratio c) (compaction_usage_ratio c)
    (cool_interval_sec c) (sequential_threshold c) (journal_size c).
Definition set_cfg_watermarks (low high : spec_float) (c : BtierConfig) : BtierConfig :=
  mk_config (fast_dev_path c) (slow_dev_path c) (extent_size c) (block_size c)
    (large_value_threshold c) (base_weights c) low high (scan_interval_ms c)
    (max_migrations_per_cycle c) (max_compactions_per_cycle c) (promote_threshold c)
    (demote_threshold c) (compaction_dead_ratio c) (compaction_usage_ratio c)
    (cool_interval_sec c) (sequential_threshold c) (journal_size c).
Definition set_cfg_scan_interval (ms : Z) (c : BtierConfig) : BtierConfig :=
  mk_config (fast_dev_path c) (slow_dev_path c) (extent_size c) (block_size c)
    (large_value_threshold c) (base_weights c) (low_watermark c) (high_watermark c) ms
    (max_migrations_per_cycle c) (max_compactions_per_cycle c) (promote_threshold c)
    (demote_threshold c) (compaction_dead_ratio c) (compaction_usage_ratio c)
    (cool_interval_sec c) (sequential_threshold c) (journal_size c).
End Config.
