(* ===== verification/Scoring.v ===== *)
(** * btier/scoring_engine.cc: the heat score of an extent

    The state of a [ScoringEngine] is [active_weights_]; the configuration is a
    reference to the engine's, so it is an argument. *)
From stdpp Require Import base numbers list.
From Stdlib Require Import ZArith Lia SpecFloat.
From S2P Require Import Prelude Floats BtierTypes Config.
Import Floats Config.

Module Scoring.

Definition create (cfg : BtierConfig) : WeightSet := base_weights cfg.

Definition norm_recency (cfg : BtierConfig) (last_access_time current_time : Z) : spec_float :=
  if 0 <? cool_interval_sec cfg then
    let age := current_time -32 last_access_time in
    clamp (fsub f1 (fdiv (to_float age) (to_float (cool_interval_sec cfg)))) f0 f1
  else f0.

Definition score (cfg : BtierConfig) (w : WeightSet) (raw_metrics last_access_time current_time : Z)
  : spec_float :=
  let norm_recency := norm_recency cfg last_access_time current_time in
  let access_cnt := BtierTypes.ExtentMetrics.access_count raw_metrics in
  let norm_frequency := fdiv (to_float access_cnt) (to_float 4095) in
  let random := BtierTypes.ExtentMetrics.randomness raw_metrics in
  let norm_randomness := fdiv (to_float random) (to_float 63) in
  let write_cnt := BtierTypes.ExtentMetrics.write_count raw_metrics in
  let norm_write_penalty := fdiv (to_float write_cnt) (to_float 4095) in
  let raw_score :=
    fsub (fadd (fadd (fmul (w_recency w) norm_recency) (fmul (w_frequency w) norm_frequency))
               (fmul (w_randomness w) norm_randomness))
         (fmul (w_write_penalty w) norm_write_penalty) in
  clamp raw_score f0 f1.

Definition adapt_weights (cfg : BtierConfig) (fast_watermark : spec_float) : WeightSet :=
  let w := base_weights cfg in
  if SFgtb fast_watermark (high_watermark cfg) then
    let pressure := float_of_double
      (ddiv (dsub fast_watermark (high_watermark cfg)) (dsub (to_double 1) (high_watermark cfg))) in
    mk_weights
      (fmul (w_recency w) (fsub f1 (fmul pressure (float_lit 5 10))))
      (w_frequency w)
      (fmul (w_randomness w) (fadd f1 (fmul pressure (float_lit 15 10))))
      (fmul (w_write_penalty w) (fadd f1 (fmul pressure (float_lit 20 10))))
  else if SFltb fast_watermark (low_watermark cfg) then
    mk_weights (fmul (w_recency w) (float_lit 12 10)) (fmul (w_frequency w) (float_lit 11 10))
      (w_randomness w) (w_write_penalty w)
  else w.

(** The scores that the tests of the repository expect of extreme extents. *)
Example score_examples :
  let hot := BtierTypes.ExtentMetrics.pack 4095 0 63 0 0 in
  let cold := BtierTypes.ExtentMetrics.pack 0 4095 0 0 0 in
  SFltb (float_lit 85 100) (score default_config default_weights hot 1000 1000) = true /\
  score default_config default_weights cold 0 100000 = f0.
Proof. by vm_compute. Qed.
End Scoring.
