(* ===== verification/Migration.v ===== *)
(** * btier/migration_engine.cc: migration, compaction and the background cycle

    The engine's members are pointers to shared objects; here they are the
    fields of [Tiering], which every operation takes and returns.  [migrate_tier]
    and [compact] are written as the source runs them on one thread; what may
    happen between their calls of the extent map is the subject of the step
    relation of [ExtentSpace] and of the migration theorem of [ExtentMapSpec].
    [None] is a failed assertion or a call through a null device. *)
From stdpp Require Import base numbers list gmap sorting.
From Stdlib Require Import ZArith Lia SpecFloat.
From S2P Require Import Prelude Floats Allocator Device BtierTypes KeyMap ExtentMap Config Scoring.
Import Floats BtierTypes Device ExtentMap.

Module Migration.

Inductive MigrationResult := COMMITTED | INTERRUPTED | FAILED.

Inductive TaskType := TIER_MIGRATE | COMPACT.

Record MigrationTask := mk_task {
  type : TaskType;
  task_extent_id : Z;
  from : Tier;
  to : Tier;
  task_score : spec_float;
}.

Record MigrationStats := mk_stats {
  promotions_committed : Z;
  demotions_committed : Z;
  compactions_committed : Z;
  interruptions : Z;
  io_errors : Z;
}.

Definition no_stats : MigrationStats := mk_stats 0 0 0 0 0.
Definition inc_promotions (s : MigrationStats) : MigrationStats :=
  mk_stats (promotions_committed s +64 1) (demotions_committed s) (compactions_committed s)
    (interruptions s) (io_errors s).
Definition inc_demotions (s : MigrationStats) : MigrationStats :=
  mk_stats (promotions_committed s) (demotions_committed s +64 1) (compactions_committed s)
    (interruptions s) (io_errors s).
Definition inc_compactions (s : MigrationStats) : MigrationStats :=
  mk_stats (promotions_committed s) (demotions_committed s) (compactions_committed s +64 1)
    (interruptions s) (io_errors s).
Definition inc_interruptions (s : MigrationStats) : MigrationStats :=
  mk_stats (promotions_committed s) (demotions_committed s) (compactions_committed s)
    (interruptions s +64 1) (io_errors s).
Definition inc_io_errors (s : MigrationStats) : MigrationStats :=
  mk_stats (promotions_committed s) (demotions_committed s) (compactions_committed s)
    (interruptions s) (io_errors s +64 1).

(** Reads and writes through a tier's device; [None] when there is none. *)
Section Io.
Context {D : Type} `{BlockDevice D}.

Definition tier_read (t : Tier) (off len : Z) (ds : Devs D) : option (Z * bytes) :=
  d ← dev_of t ds; Some (dev_read off len true d).
Definition tier_write (t : Tier) (off : Z) (bl : bytes) (ds : Devs D) : option (Z * Devs D) :=
  d ← dev_of t ds;
  let '(r, d) := dev_write off bl true d in Some (r, set_dev t d ds).
End Io.

(** [ExtentMap::fast_watermark]. *)
Definition fast_watermark {A} `{Allocator.Allocator A} (em : ExtentMap A) : spec_float :=
  match fast_alloc em with
  | None => to_double 1
  | Some a =>
      if Allocator.get_capacity a =? 0 then to_double 1
      else dsub (to_double 1)
             (ddiv (to_double (Allocator.get_free a)) (to_double (Allocator.get_capacity a)))
  end.

Section Engine.
Context {A D : Type} `{Allocator.Allocator A} `{BlockDevice D}.

Record Tiering := mk_tiering {
  extent_map : ExtentMap A;
  key_map : KeyMap.KeyMap;
  devs : Devs D;
  weights : Config.WeightSet;
  queue_ : list MigrationTask;
  stats : MigrationStats;
}.

Definition set_em (em : ExtentMap A) (w : Tiering) : Tiering :=
  mk_tiering em (key_map w) (devs w) (weights w) (queue_ w) (stats w).
Definition set_km (km : KeyMap.KeyMap) (w : Tiering) : Tiering :=
  mk_tiering (extent_map w) km (devs w) (weights w) (queue_ w) (stats w).
Definition set_devs (ds : Devs D) (w : Tiering) : Tiering :=
  mk_tiering (extent_map w) (key_map w) ds (weights w) (queue_ w) (stats w).
Definition set_weights (ws : Config.WeightSet) (w : Tiering) : Tiering :=
  mk_tiering (extent_map w) (key_map w) (devs w) ws (queue_ w) (stats w).
Definition set_queue (q : list MigrationTask) (w : Tiering) : Tiering :=
  mk_tiering (extent_map w) (key_map w) (devs w) (weights w) q (stats w).
Definition count (f : MigrationStats -> MigrationStats) (w : Tiering) : Tiering :=
  mk_tiering (extent_map w) (key_map w) (devs w) (weights w) (queue_ w) (f (stats w)).

(** ** Moving an extent to a tier *)

Definition migrate_tier (id : Z) (from to : Tier) (w : Tiering)
  : option (MigrationResult * Tiering) :=
  match begin_migration id (extent_map w) with
  | (None, em) => Some (INTERRUPTED, set_em em w)
  | (Some h, em) =>
      let w := set_em em w in
      '(r, data) ← tier_read from (offset (src_loc h)) (length (src_loc h)) (devs w);
      if r <? 0 then
        Some (FAILED, count inc_io_errors (set_em (abort_migration h (extent_map w)) w))
      else
        '(dst_opt, em) ← allocate_raw to (length (src_loc h)) (extent_map w);
        let w := set_em em w in
        match dst_opt with
        | None => Some (FAILED, set_em (abort_migration h (extent_map w)) w)
        | Some dst_loc =>
            '(r, ds) ← tier_write to (offset dst_loc) data (devs w);
            let w := set_devs ds w in
            if r <? 0 then
              let em := release_source dst_loc (abort_migration h (extent_map w)) in
              Some (FAILED, count inc_io_errors (set_em em w))
            else
              match commit_migration h dst_loc (extent_map w) with
              | (true, em) =>
                  let w := set_em em w in
                  let w := match from, to with
                           | SLOW, FAST => count inc_promotions w
                           | FAST, SLOW => count inc_demotions w
                           | _, _ => w
                           end in
                  Some (COMMITTED, w)
              | (false, em) =>
                  let em := release_source dst_loc (abort_migration h em) in
                  Some (INTERRUPTED, count inc_interruptions (set_em em w))
              end
        end
  end.

(** ** Compaction *)

(** The early returns of the copy loop: the claim is dropped and the new
    extent freed. *)
Definition compact_fail (h : MigrationHandle) (new_extent_id : Z) (w : Tiering) : Tiering :=
  set_em (free new_extent_id (abort_migration h (extent_map w))) w.

(** One key of the copy loop: [inl] is the early return; [t] is the tier whose
    device the loop reads and writes.  A key without a location keeps the
    default [KeyLocation]. *)
Definition compact_key (h : MigrationHandle) (t : Tier) (new_extent_id : Z)
    (new_loc : DiskLocation) (key : bytes) (w : Tiering)
  : option ((MigrationResult * Tiering) + (KeyLocation * Tiering)) :=
  let old_kloc := default default_kloc (KeyMap.lookup (key_map w) key) in
  let read_off := offset (src_loc h) +64 HEADER_SIZE +64 koffset old_kloc in
  '(r, value) ← tier_read t read_off (klength old_kloc) (devs w);
  if r <? 0 then Some (inl (FAILED, count inc_io_errors (compact_fail h new_extent_id w)))
  else
    let '(new_offset, em) := append_slot new_extent_id (klength old_kloc) (extent_map w) in
    let w := set_em em w in
    if new_offset =? UINT32_MAX then Some (inl (FAILED, compact_fail h new_extent_id w))
    else
      let write_off := offset new_loc +64 HEADER_SIZE +64 new_offset in
      '(r, ds) ← tier_write t write_off value (devs w);
      let w := set_devs ds w in
      if r <? 0 then Some (inl (FAILED, count inc_io_errors (compact_fail h new_extent_id w)))
      else Some (inr (mk_kloc new_extent_id new_offset (klength old_kloc), w)).

Fixpoint compact_loop (h : MigrationHandle) (t : Tier) (new_extent_id : Z)
    (new_loc : DiskLocation) (keys : list bytes) (updates : list (bytes * KeyLocation))
    (w : Tiering) : option ((MigrationResult * Tiering) + (list (bytes * KeyLocation) * Tiering)) :=
  match keys with
  | [] => Some (inr (updates, w))
  | key :: keys =>
      r ← compact_key h t new_extent_id new_loc key w;
      match r with
      | inl e => Some (inl e)
      | inr (kl, w) => compact_loop h t new_extent_id new_loc keys (updates ++ [(key, kl)]) w
      end
  end.

Definition compact (id : Z) (w : Tiering) : option (MigrationResult * Tiering) :=
  match begin_migration id (extent_map w) with
  | (None, em) => Some (INTERRUPTED, set_em em w)
  | (Some h, em) =>
      let w := set_em em w in
      let keys := KeyMap.keys_in_extent (key_map w) id in
      if decide (keys = ∅) then
        Some (COMMITTED, count inc_compactions (set_em (free id (extent_map w)) w))
      else
        let t := tier (src_loc h) in
        '(alloc, em, ds) ← allocate_extent t (length (src_loc h)) (extent_map w) (devs w);
        let w := set_devs ds (set_em em w) in
        match alloc with
        | None => Some (FAILED, set_em (abort_migration h (extent_map w)) w)
        | Some (new_extent_id, new_loc) =>
            r ← compact_loop h t new_extent_id new_loc (elements keys) [] w;
            match r with
            | inl e => Some e
            | inr (updates, w) =>
                if negb (check_migration h (extent_map w)) then
                  Some (INTERRUPTED, count inc_interruptions (compact_fail h new_extent_id w))
                else
                  let w := set_km (KeyMap.batch_update (key_map w) updates) w in
                  Some (COMMITTED, count inc_compactions (set_em (free id (extent_map w)) w))
            end
        end
  end.

(** ** The cycle *)

Definition enqueue (task : MigrationTask) (w : Tiering) : Tiering :=
  set_queue (queue_ w ++ [task]) w.

Definition run_task (task : MigrationTask) (w : Tiering) : option Tiering :=
  match type task with
  | TIER_MIGRATE => snd <$> migrate_tier (task_extent_id task) (from task) (to task) w
  | COMPACT => snd <$> compact (task_extent_id task) w
  end.

Definition process_queue (w : Tiering) : option Tiering :=
  foldl (fun w task => w ← w; run_task task w) (Some (set_queue [] w)) (queue_ w).

(** Descending by score; extents of equal score come in an unspecified order. *)
Definition by_score {T} (f : T -> spec_float) (x y : T) : Prop := SFgtb (f y) (f x) = false.
#[global] Instance by_score_dec {T} (f : T -> spec_float) : RelDecision (by_score f).
Proof. intros x y. unfold by_score. apply _. Defined.

Definition score_snapshot (cfg : Config.BtierConfig) (now : Z) (w : Tiering) (s : SnapshotEntry)
  : spec_float :=
  Scoring.score cfg (weights w) (s_raw_metrics s) (s_last_access_time s) now.

(** Step 5: one scored extent; the counter is the number already enqueued. *)
Definition enqueue_scored (cfg : Config.BtierConfig) (p : Z * spec_float) (s : Z * Tiering)
  : Z * Tiering :=
  let '(eid, score) := p in
  let '(migrated, w) := s in
  if Config.max_migrations_per_cycle cfg <=? migrated then (migrated, w)
  else
    match get_location eid (extent_map w) with
    | None => (migrated, w)
    | Some l =>
        if SFgtb score (Config.promote_threshold cfg) && bool_decide (tier l = SLOW) then
          (migrated +32 1, enqueue (mk_task TIER_MIGRATE eid SLOW FAST score) w)
        else if SFltb score (Config.demote_threshold cfg) && bool_decide (tier l = FAST) then
          (migrated +32 1, enqueue (mk_task TIER_MIGRATE eid FAST SLOW score) w)
        else (migrated, w)
    end.

(** Step 6. *)
Definition wants_compaction (cfg : Config.BtierConfig) (s : SnapshotEntry) : bool :=
  let dead_bytes := s_used_bytes s -32 s_live_bytes s in
  let capacity := length (s_location s) -32 HEADER_SIZE in
  (0 <? s_used_bytes s) && (0 <? capacity) &&
  SFgtb (ddiv (to_double dead_bytes) (to_double (s_used_bytes s))) (Config.compaction_dead_ratio cfg) &&
  SFgtb (ddiv (to_double (s_used_bytes s)) (to_double capacity)) (Config.compaction_usage_ratio cfg).

Definition enqueue_compaction (cfg : Config.BtierConfig) (s : SnapshotEntry) (c : Z * Tiering)
  : Z * Tiering :=
  let '(compacted, w) := c in
  if Config.max_compactions_per_cycle cfg <=? compacted then (compacted, w)
  else if wants_compaction cfg s then
    (compacted +32 1,
     enqueue (mk_task COMPACT (s_extent_id s) (tier (s_location s)) (tier (s_location s)) f0) w)
  else (compacted, w).

Definition run_cycle (cfg : Config.BtierConfig) (now : Z) (w : Tiering) : option Tiering :=
  em ← process_deferred_free (extent_map w);
  let w := set_em (refresh_randomness (key_map w) em) w in
  let w := set_weights (Scoring.adapt_weights cfg (fast_watermark (extent_map w))) w in
  let snaps := snapshot (extent_map w) in
  let scored := (fun s => (s_extent_id s, score_snapshot cfg now w s)) <$> snaps in
  let sorted := merge_sort (by_score snd) scored in
  let '(_, w) := foldl (fun s p => enqueue_scored cfg p s) (0, w) sorted in
  let '(_, w) := foldl (fun c s => enqueue_compaction cfg s c) (0, w) snaps in
  process_queue w.

(** [enqueue_migrate], [enqueue_compact], [pending]. *)
Definition enqueue_migrate (id : Z) (from to : Tier) (score : spec_float) (w : Tiering) : Tiering :=
  enqueue (mk_task TIER_MIGRATE id from to score) w.
Definition enqueue_compact (id : Z) (w : Tiering) : Tiering :=
  enqueue (mk_task COMPACT id FAST FAST f0) w.
Definition pending (w : Tiering) : nat := List.length (queue_ w).
End Engine.
Arguments Tiering : clear implicits.
End Migration.
