(* ===== verification/Engine.v ===== *)
(** * btier/btier.cc: the key-value engine

    [BtierEngine::Impl]: the configuration, the shared objects of the tiering
    engine (extent map, key map, devices, weights, migration queue) and the
    journal, which lives on the fast device.  The background thread is not
    modelled: its cycle is the operation [run_migration_cycle].  [None] is a
    failed assertion or an exception; an [int] result below 0 is [-errno]. *)
From stdpp Require Import base numbers list gmap sorting.
From Stdlib Require Import ZArith Lia SpecFloat.
From S2P Require Import Prelude Floats Crc32 Allocator Device BtierTypes KeyMap ExtentMap Journal Config Scoring Migration.
Import Floats BtierTypes Device ExtentMap Migration.

Module Engine.
Section Ops.
Context {A D : Type} `{Allocator.Allocator A} `{BlockDevice D}.

Record Impl := mk_impl {
  cfg : Config.BtierConfig;
  tiers : Tiering A D;
  journal : option Journal.Journal;
  initialized : bool;
}.

Definition set_tiers (w : Tiering A D) (e : Impl) : Impl :=
  mk_impl (cfg e) w (journal e) (initialized e).
Definition set_cfg (c : Config.BtierConfig) (e : Impl) : Impl :=
  mk_impl c (tiers e) (journal e) (initialized e).
Definition em (e : Impl) : ExtentMap A := extent_map (tiers e).
Definition km (e : Impl) : KeyMap.KeyMap := key_map (tiers e).
Definition upd_em (f : ExtentMap A -> ExtentMap A) (e : Impl) : Impl :=
  set_tiers (set_em (f (em e)) (tiers e)) e.
Definition upd_km (f : KeyMap.KeyMap -> KeyMap.KeyMap) (e : Impl) : Impl :=
  set_tiers (set_km (f (km e)) (tiers e)) e.
Definition upd_devs (ds : Devs D) (e : Impl) : Impl := set_tiers (set_devs ds (tiers e)) e.

(** Run a journal operation on the fast device. *)
Definition with_journal {R} (f : Journal.Journal -> D -> R * Journal.Journal * D) (e : Impl)
  : option (R * Impl) :=
  j ← journal e;
  d ← dev_of FAST (devs (tiers e));
  let '(r, j, d) := f j d in
  Some (r, upd_devs (set_dev FAST d (devs (tiers e))) (mk_impl (cfg e) (tiers e) (Some j) (initialized e))).

(** ** Journal records *)

Definition key_put (key : bytes) (kl : KeyLocation) : Journal.JournalRecord :=
  Journal.mk_rec Journal.OP_KEY_PUT 0 key kl 0 default_loc 0 0.
Definition key_del (key : bytes) : Journal.JournalRecord :=
  Journal.mk_rec Journal.OP_KEY_DEL 0 key default_kloc 0 default_loc 0 0.
Definition mark_dead (kl : KeyLocation) : Journal.JournalRecord :=
  Journal.mk_rec Journal.OP_MARK_DEAD 0 [] default_kloc (extent_id kl) default_loc (klength kl) 0.
Definition extent_new (id : Z) (l : DiskLocation) : Journal.JournalRecord :=
  Journal.mk_rec Journal.OP_EXTENT_NEW 0 [] default_kloc id l 0 0.

(** ** Checkpoints *)

Definition checkpoint_keys (m : KeyMap.KeyMap) (id : Z) : list Journal.JournalRecord :=
  (fun key => key_put key (default default_kloc (KeyMap.lookup m key))) <$>
    elements (KeyMap.keys_in_extent m id).

Definition build_checkpoint_state (e : Impl) : list Journal.JournalRecord :=
  mjoin ((fun s => extent_new (s_extent_id s) (s_location s) :: checkpoint_keys (km e) (s_extent_id s))
           <$> snapshot (em e)).

Definition do_checkpoint (e : Impl) : option Impl :=
  snd <$> with_journal (Journal.checkpoint (build_checkpoint_state e)) e.

(** ** Recovery *)

Definition replay (e : Impl) (rec : Journal.JournalRecord) : Impl :=
  let o := Journal.op rec in
  if o =? Journal.OP_EXTENT_NEW then
    upd_em (create_entry_from_journal (Journal.r_extent_id rec) (Journal.extent_loc rec)) e
  else if o =? Journal.OP_KEY_PUT then
    upd_km (fun m => KeyMap.put m (Journal.key rec) (Journal.key_loc rec) 0) e
  else if o =? Journal.OP_KEY_DEL then upd_km (fun m => KeyMap.erase m (Journal.key rec)) e
  else if o =? Journal.OP_MARK_DEAD then
    upd_em (mark_dead_slot (Journal.r_extent_id rec) (Journal.dead_length rec)) e
  else if o =? Journal.OP_EXTENT_FREE then upd_em (free (Journal.r_extent_id rec)) e
  else e.

(** [total_live] of an extent: a 32-bit sum over the keys it holds. *)
Definition total_live (m : KeyMap.KeyMap) (id : Z) : Z :=
  foldl (fun acc key => acc +32 klength (default default_kloc (KeyMap.lookup m key))) 0
    (elements (KeyMap.keys_in_extent m id)).

Definition restore_one (e : Impl) (s : SnapshotEntry) : Impl :=
  let live := total_live (km e) (s_extent_id s) in
  if live =? 0 then upd_em (free (s_extent_id s)) e
  else upd_em (restore_extent_state (s_extent_id s) live live) e.

Definition claim_one (e : option Impl) (s : SnapshotEntry) : option Impl :=
  e ← e;
  a ← alloc_of (tier (s_location s)) (em e);
  a ← Allocator.init_rm_free (offset (s_location s)) (length (s_location s)) a;
  Some (upd_em (add_allocator (tier (s_location s)) a) e).

(** The header check: an extent whose header has the magic but a wrong CRC
    loses its keys. *)
Definition verify_one (e : Impl) (s : SnapshotEntry) : Impl :=
  match dev_of (tier (s_location s)) (devs (tiers e)) with
  | None => e
  | Some d =>
      let '(r, hdr) := dev_read (offset (s_location s)) HEADER_SIZE true d in
      if (r <? 0) || (List.length hdr <? Z.to_nat HEADER_SIZE)%nat then e
      else if negb (le_val (take 8 hdr) =? HEADER_MAGIC) then e
      else
        let expected_crc := Crc32.calc_crc32 (take (Z.to_nat HEADER_CRC_OFFSET) hdr) 0 in
        if negb (le_val (take 4 (drop (Z.to_nat HEADER_CRC_OFFSET) hdr)) =? expected_crc) then
          let keys := elements (KeyMap.keys_in_extent (km e) (s_extent_id s)) in
          upd_em (free (s_extent_id s)) (upd_km (fun m => foldl KeyMap.erase m keys) e)
        else e
  end.

Definition recover_internal (records : list Journal.JournalRecord) (e : Impl) : option Impl :=
  let e := foldl replay e records in
  let e := foldl restore_one e (snapshot (em e)) in
  e ← foldl claim_one (Some e) (snapshot (em e));
  let e := foldl verify_one e (snapshot (em e)) in
  Some (upd_em clear_deferred_free e).

(** [journal->recover()]: [None] also when it throws. *)
Definition journal_recover (e : Impl) : option (list Journal.JournalRecord * Impl) :=
  j ← journal e;
  d ← dev_of FAST (devs (tiers e));
  '(rs, j, d) ← Journal.recover j d;
  Some (rs, upd_devs (set_dev FAST d (devs (tiers e))) (mk_impl (cfg e) (tiers e) (Some j) (initialized e))).

Definition recover (e : Impl) : option (Z * Impl) :=
  match journal e with
  | None => Some (- EINVAL, e)
  | Some _ =>
      '(rs, e) ← journal_recover e;
      e ← recover_internal rs e;
      Some (0, e)
  end.

(** ** Initialization *)

(** [BlockDevice::create(...)->open(...)] of the two paths gave the results
    [open_fast] and [open_slow]; [mk_alloc] is [Allocator::create("avl", ...)]. *)
Definition init (mk_alloc : Z -> Z -> A) (config : Config.BtierConfig) (open_fast open_slow : Z * D) (e : Impl)
  : option (Z * Impl) :=
  let '(r, fd) := open_fast in
  if r <? 0 then Some (r, set_cfg config e)
  else
  let '(r, sd) := open_slow in
  if r <? 0 then Some (r, set_cfg config e)
  else
  let fast_dev_size := dev_size fd in
  let slow_dev_size := dev_size sd in
  let journal_size := Config.journal_size config in
  let journal_size := if fast_dev_size <? journal_size then fast_dev_size / 2 else journal_size in
  let em := create (Config.block_size config) (Config.extent_size config) in
  let em := add_allocator FAST (mk_alloc fast_dev_size (Config.block_size config)) em in
  let em := add_allocator SLOW (mk_alloc slow_dev_size (Config.block_size config)) em in
  em ← init_free_space em;
  a ← alloc_of FAST em;
  a ← Allocator.init_rm_free 0 journal_size a;
  let em := add_allocator FAST a em in
  let '(j, fd) := Journal.create journal_size fd in
  let w := mk_tiering em KeyMap.empty_keymap (mk_devs (Some fd) (Some sd))
             (Scoring.create config) [] no_stats in
  '(records, e) ← journal_recover (mk_impl config w (Some j) false);
  e ← match records with
      | [] => snd <$> with_journal (Journal.checkpoint []) e
      | _ => recover_internal records e
      end;
  Some (0, mk_impl (cfg e) (tiers e) (journal e) true).

(** ** sync and shutdown *)

Definition sync (e : Impl) : option (Z * Impl) :=
  if negb (initialized e) then Some (- EINVAL, e)
  else
    let '(em', ds) := flush_dirty_headers (em e) (devs (tiers e)) in
    let e := upd_devs ds (upd_em (fun _ => em') e) in
    '(_, e) ← with_journal (fun j d => (0, j, Journal.sync d)) e;
    let ds := devs (tiers e) in
    let e := match dev_of SLOW ds with
             | None => e
             | Some d => upd_devs (set_dev SLOW (dev_flush d).2 ds) e
             end in
    Some (0, e).

(** The devices as they are left; the objects are gone. *)
Definition shutdown (e : Impl) : option Impl :=
  if negb (initialized e) then Some e
  else
    '(_, e) ← sync e;
    e ← do_checkpoint e;
    '(_, e) ← with_journal (fun j d => (0, j, Journal.close d)) e;
    em' ← process_deferred_free (em e);
    Some (mk_impl (cfg e) (set_em em' (tiers e)) None false).

(** ** put *)

Record PutWriteResult := mk_ctx {
  target_extent_id : Z;
  ctx_offset : Z;
  ctx_size : Z;
  ctx_extent_loc : DiskLocation;
  new_extent_created : bool;
  old_kloc : option KeyLocation;
  ctx_now : Z;
}.

Definition put_pre_transaction_extent (id : Z) (l : DiskLocation) (e : Impl) : option (Z * Impl) :=
  '(r, e) ← with_journal (Journal.transaction [extent_new id l]) e;
  if r <? 0 then Some (r, upd_em (free id) e) else Some (0, e).

Definition put_allocate_new_extent (t : Tier) (size : Z) (e : Impl)
  : option ((Z + (Z * DiskLocation)) * Impl) :=
  '(alloc, em', ds) ← allocate_extent t size (em e) (devs (tiers e));
  let e := upd_devs ds (upd_em (fun _ => em') e) in
  match alloc with
  | None => Some (inl (- ENOSPC), e)
  | Some (id, l) =>
      '(r, e) ← put_pre_transaction_extent id l e;
      Some (if r <? 0 then inl r else inr (id, l), e)
  end.

(** [append_slot] on the extent map of the engine. *)
Definition reserve (id size : Z) (e : Impl) : Z * Impl :=
  let '(off, em') := append_slot id size (em e) in (off, upd_em (fun _ => em') e).

(** The write of the value into its slot. *)
Definition write_value (l : DiskLocation) (off : Z) (value : bytes) (e : Impl) : option (Z * Impl) :=
  '(r, ds) ← tier_write (tier l) (offset l +64 HEADER_SIZE +64 off) value (devs (tiers e));
  Some (r, upd_devs ds e).

(** A fresh extent with a slot, for a large value or for the retry. *)
Definition put_fresh (ext_size size : Z) (e : Impl)
  : option ((Z + (Z * Z * DiskLocation)) * Impl) :=
  '(r, e) ← put_allocate_new_extent FAST ext_size e;
  match r with
  | inl err => Some (inl err, e)
  | inr (id, l) =>
      let '(off, e) := reserve id size e in
      if off =? UINT32_MAX then Some (inl (- EIO), upd_em (free id) e)
      else Some (inr (id, off, l), e)
  end.

(** Where a small value goes: an extent with room, or a new one; [inr] gives
    the extent, its location and whether it is new. *)
Definition put_find (size : Z) (e : Impl) : option ((Z + (Z * DiskLocation * bool)) * Impl) :=
  let target := find_extent_with_space FAST size (em e) in
  if target =? UINT64_MAX then
    '(r, e) ← put_allocate_new_extent FAST (Config.extent_size (cfg e)) e;
    match r with
    | inl err => Some (inl err, e)
    | inr (id, l) => Some (inr (id, l, true), e)
    end
  else
    match get_location target (em e) with
    | None => Some (inl (- EIO), e)
    | Some l => Some (inr (target, l, false), e)
    end.

(** A small value: an extent with room or a new one, and one retry with a
    fresh extent. *)
Definition put_small (size : Z) (e : Impl)
  : option ((Z + (Z * Z * DiskLocation * bool)) * Impl) :=
  '(r, e) ← put_find size e;
  match r with
  | inl err => Some (inl err, e)
  | inr (id, l, created) =>
      let '(off, e) := reserve id size e in
      if off =? UINT32_MAX then
        let e := if (created : bool) then upd_em (free id) e else e in
        '(r, e) ← put_fresh (Config.extent_size (cfg e)) size e;
        match r with
        | inl err => Some (inl err, e)
        | inr (id, off, l) => Some (inr (id, off, l, true), e)
        end
      else Some (inr (id, off, l, created), e)
  end.

(** A result below 0 is the error. *)
Definition put_write_data (value : bytes) (now : Z) (old : option KeyLocation) (e : Impl)
  : option ((Z + PutWriteResult) * Impl) :=
  let size := u32 (Z.of_nat (List.length value)) in
  if Config.large_value_threshold (cfg e) <=? size then
    '(r, e) ← put_fresh (size +32 HEADER_SIZE) size e;
    match r with
    | inl err => Some (inl err, e)
    | inr (id, off, l) =>
        '(r, e) ← write_value l off value e;
        if r <? 0 then Some (inl r, upd_em (free id) e)
        else Some (inr (mk_ctx id off size l true old now), e)
    end
  else
    '(r, e) ← put_small size e;
    match r with
    | inl err => Some (inl err, e)
    | inr (id, off, l, created) =>
        '(r, e) ← write_value l off value e;
        if r <? 0 then
          Some (inl r, upd_em (if (created : bool) then free id else mark_dead_slot id size) e)
        else Some (inr (mk_ctx id off size l created old now), e)
    end.

Definition ctx_kloc (c : PutWriteResult) : KeyLocation :=
  mk_kloc (target_extent_id c) (ctx_offset c) (ctx_size c).

Definition put_journal_transaction (key : bytes) (c : PutWriteResult) (e : Impl)
  : option (Z * Impl) :=
  with_journal (Journal.transaction
    (match old_kloc c with Some kl => [mark_dead kl] | None => [] end ++ [key_put key (ctx_kloc c)])) e.

Definition put_cleanup_on_failure (c : PutWriteResult) (e : Impl) : Impl :=
  if new_extent_created c then upd_em (free (target_extent_id c)) e
  else upd_em (mark_dead_slot (target_extent_id c) (ctx_size c)) e.

(** The slot [kl] is dead; its extent is freed when nothing in it lives. *)
Definition drop_slot (kl : KeyLocation) (e : Impl) : Impl :=
  let e := upd_em (mark_dead_slot (extent_id kl) (klength kl)) e in
  if get_live_bytes (extent_id kl) (em e) =? 0 then upd_em (free (extent_id kl)) e else e.

Definition put_commit_memory_state (key : bytes) (c : PutWriteResult) (e : Impl) : Impl :=
  let lba := offset (ctx_extent_loc c) +64 HEADER_SIZE +64 ctx_offset c in
  let e := upd_km (fun m => KeyMap.put m key (ctx_kloc c) lba) e in
  match old_kloc c with Some kl => drop_slot kl e | None => e end.

(** A checkpoint when [f] of the journal says so. *)
Definition checkpoint_if (f : Journal.Journal -> bool) (e : Impl) : option Impl :=
  match journal e with
  | Some j => if f j then do_checkpoint e else Some e
  | None => Some e
  end.

Definition put (key value : bytes) (now : Z) (e : Impl) : option (Z * Impl) :=
  if negb (initialized e) then Some (- EINVAL, e)
  else
    e ← checkpoint_if Journal.is_near_full e;
    let old := KeyMap.lookup (km e) key in
    '(r, e) ← put_write_data value now old e;
    match r with
    | inl err => Some (err, e)
    | inr c =>
        let e := upd_em (record_io (target_extent_id c) WRITE (ctx_now c)) e in
        '(r, e) ← put_journal_transaction key c e;
        if r <? 0 then Some (r, put_cleanup_on_failure c e)
        else
          e ← checkpoint_if Journal.needs_checkpoint e;
          Some (0, put_commit_memory_state key c e)
    end.

(** ** get and del *)

Definition get (key : bytes) (now : Z) (e : Impl) : option (Z * bytes * Impl) :=
  if negb (initialized e) then Some (- EINVAL, [], e)
  else
    match KeyMap.lookup (km e) key with
    | None => Some (- ENOENT, [], e)
    | Some kl =>
        match get_location (extent_id kl) (em e) with
        | None => Some (- ENOENT, [], e)
        | Some l =>
            let e := upd_em (fun m => io_ref_inc (extent_id kl) (record_io (extent_id kl) READ now m)) e in
            '(r, value) ← tier_read (tier l) (offset l +64 HEADER_SIZE +64 koffset kl) (klength kl)
                            (devs (tiers e));
            let e := upd_em (io_ref_dec (extent_id kl)) e in
            Some (if r <? 0 then r else 0, value, e)
        end
    end.

Definition del (key : bytes) (e : Impl) : option (Z * Impl) :=
  if negb (initialized e) then Some (- EINVAL, e)
  else
    match KeyMap.lookup (km e) key with
    | None => Some (- ENOENT, e)
    | Some kl =>
        '(r, e) ← with_journal (Journal.transaction [key_del key; mark_dead kl]) e;
        if r <? 0 then Some (r, e)
        else Some (0, drop_slot kl (upd_km (fun m => KeyMap.erase m key) e))
    end.

(** ** Scoring, migration and settings *)

Record ScoredExtent := mk_scored { sc_extent_id : Z; sc_score : spec_float; sc_tier : Tier }.

Definition run_scoring_pass (now : Z) (e : Impl) : list ScoredExtent * Impl :=
  if negb (initialized e) then ([], e)
  else
    let e := upd_em (refresh_randomness (km e)) e in
    let w := Migration.set_weights (Scoring.adapt_weights (cfg e) (fast_watermark (em e))) (tiers e) in
    let e := set_tiers w e in
    let result := (fun s => mk_scored (s_extent_id s) (score_snapshot (cfg e) now w s)
                              (tier (s_location s))) <$> snapshot (em e) in
    (merge_sort (by_score sc_score) result, e).

Definition compact_extent (id : Z) (e : Impl) : option (bool * Impl) :=
  if negb (initialized e) then Some (false, e)
  else
    '(r, w) ← compact id (tiers e);
    Some (match r with COMMITTED => true | _ => false end, set_tiers w e).

Definition run_migration_cycle (now : Z) (e : Impl) : option Impl :=
  if negb (initialized e) then Some e
  else w ← run_cycle (cfg e) now (tiers e); Some (set_tiers w e).

Record Stats := mk_estats {
  num_keys : nat;
  num_extents : nat;
  fast_extents : nat;
  slow_extents : nat;
  st_fast_watermark : spec_float;
  journal_bytes : Z;
  migrations_pending : nat;
  migration : MigrationStats;
}.

Definition get_stats (e : Impl) : Stats :=
  if negb (initialized e) then mk_estats 0 0 0 0 (to_double 0) 0 0 no_stats
  else
    let snaps := snapshot (em e) in
    mk_estats (KeyMap.size (km e)) (List.length snaps)
      (List.length (List.filter (fun s => bool_decide (tier (s_location s) = FAST)) snaps))
      (List.length (List.filter (fun s => negb (bool_decide (tier (s_location s) = FAST))) snaps))
      (fast_watermark (em e))
      match journal e with Some j => Journal.get_used_bytes j | None => 0 end
      (pending (tiers e)) (stats (tiers e)).

Definition set_weights (w : Config.WeightSet) (e : Impl) : Impl :=
  set_cfg (Config.set_base_weights w (cfg e)) e.
Definition set_watermarks (low high : spec_float) (e : Impl) : Impl :=
  set_cfg (Config.set_cfg_watermarks low high (cfg e)) e.
Definition set_scan_interval (ms : Z) (e : Impl) : Impl :=
  set_cfg (Config.set_cfg_scan_interval ms (cfg e)) e.
End Ops.
Arguments Impl : clear implicits.
End Engine.
