(* ===== verification/EngineInv.v ===== *)
(** * The invariant of the engine

    The state of an initialized engine and the abstract map it holds: the
    space of the extents and of the journal, the layout of the values, the
    index of the keys, and the journal in its region.  One lemma per building
    block of the operations says what it does to the invariant, on any device
    that meets the contract, also when reads and writes fail. *)
From stdpp Require Import base numbers list gmap.
From Stdlib Require Import ZArith Lia.
From S2P Require Import Prelude IntArith Allocator Device BtierTypes KeyMap ExtentMap ExtentSpace Journal JournalSpec Layout Config Migration Engine.
Import BtierTypes Device ExtentMap ExtentSpace JournalFrame Layout Migration Engine.

Module EngineInv.

Definition slot_of (e : ExtentEntry) : slot_t := (location e, used_bytes e, live_bytes e).

Lemma zrange_apart a n b m : 0 < n -> 0 < m -> zrange a n ## zrange b m -> a + n <= b \/ b + m <= a.
Proof.
  intros Hn Hm Hd. destruct (decide (a + n <= b)); [by left|]. destruct (decide (b + m <= a)); [by right|].
  exfalso. apply (Hd (Z.max a b)); apply elem_of_zrange; lia.
Qed.

Definition apart (l1 l2 : DiskLocation) : Prop :=
  offset l1 + length l1 <= offset l2 \/ offset l2 + length l2 <= offset l1.

Section Space.
Context {A : Type} `{Allocator.AllocatorSpec A} `{Hzero : !Allocator.FromZero A}.
Implicit Types (em : ExtentMap A).

Definition slots (em : ExtentMap A) : slots_t := slot_of <$> entries_ em.

Lemma lookup_slots em id : slots em !! id = slot_of <$> entries_ em !! id.
Proof. apply lookup_fmap. Qed.

Lemma slots_Some em id l u v : slots em !! id = Some (l, u, v) ->
  exists e, entries_ em !! id = Some e /\ location e = l /\ used_bytes e = u /\ live_bytes e = v.
Proof. rewrite lookup_slots. intros (e & He & E)%fmap_Some. unfold slot_of in E. simplify_eq. by exists e. Qed.

Lemma regions_apart em rs l1 l2 rest a :
  tier_ok (tier l1) em rs -> alloc_of (tier l1) em = Some a -> rs ≡ₚ l1 :: l2 :: rest ->
  tier l2 = tier l1 -> apart l1 l2.
Proof.
  intros Ht Ha Hp T2. apply (tier_ok_perm _ em em _ _ Hp) in Ht; try done.
  destruct (Ht a Ha) as (_ & _ & Hd & _ & Hall). rewrite !held_cons, !decide_True in Hd by done.
  simpl in Hd. destruct Hd as [Hd _]. rewrite Allocator.extents_set_cons in Hd.
  apply Forall_cons in Hall as [Ho1 Hall]. apply Forall_cons in Hall as [Ho2 _].
  destruct (Ho1 eq_refl) as (? & _), (Ho2 T2) as (? & _).
  apply zrange_apart; [lia..|]. unfold Allocator.extent_range in Hd. simpl in Hd. set_solver.
Qed.

Lemma entries_apart em raws id1 id2 e1 e2 a :
  space_ok em raws -> entries_ em !! id1 = Some e1 -> entries_ em !! id2 = Some e2 -> id1 <> id2 ->
  tier (location e2) = tier (location e1) -> alloc_of (tier (location e1)) em = Some a ->
  apart (location e1) (location e2).
Proof.
  intros (_ & _ & _ & Ht) E1 E2 Hne T Ha. set (em1 := set_entries (delete id1 (entries_ em)) em).
  assert (entries_ em1 !! id2 = Some e2) as E2' by (simpl; by rewrite lookup_delete_ne).
  eapply regions_apart; [apply Ht|done| |done].
  rewrite <- (regions_delete em id1 e1 raws E1). apply Permutation_skip. symmetry.
  exact (regions_delete em1 id2 e2 raws E2').
Qed.

Lemma entry_raw_apart em r raws id e a :
  space_ok em (r :: raws) -> entries_ em !! id = Some e -> tier (location e) = tier r ->
  alloc_of (tier r) em = Some a -> apart r (location e).
Proof.
  intros (_ & _ & _ & Ht) E T Ha. eapply regions_apart; [apply Ht|done| |done].
  rewrite regions_cons. apply Permutation_skip. symmetry. exact (regions_delete em id e raws E).
Qed.

Lemma entry_region_ok em raws id e a :
  space_ok em raws -> entries_ em !! id = Some e -> alloc_of (tier (location e)) em = Some a ->
  region_ok (block_size em) (Allocator.get_capacity a) (location e) /\ Allocator.get_capacity a < 2 ^ 63.
Proof.
  intros (_ & _ & _ & Ht) E Ha. destruct (Ht _ a Ha) as (Hok & _ & _ & _ & Hall).
  pose proof (Allocator.capacity_range a Hok). split; [|lia].
  rewrite <- (regions_delete em id e raws E) in Hall. apply Forall_cons in Hall as [Hl _]. by apply Hl.
Qed.

Lemma allocate_extent_spec `{BlockDevice D} t size em (ds : Devs D) raws :
  space_ok em raws -> 0 <= size -> size + block_size em < 2 ^ 63 -> next_extent_id em + 1 < 2 ^ 64 ->
  exists r em' ds', allocate_extent t size em ds = Some (r, em', ds') /\ space_ok em' raws /\
    same_caps em em' /\ block_size em' = block_size em /\
    match r with
    | None => entries_ em' = entries_ em /\ next_extent_id em' = next_extent_id em /\ ds' = ds
    | Some (id, l) =>
        id = next_extent_id em /\ next_extent_id em' = id + 1 /\ entries_ em !! id = None /\
        entries_ em' = <[id := new_entry l]> (entries_ em) /\
        length l <= aligned_size size em /\ ds' = write_extent_header id l ds
    end.
Proof.
  intros Hok Hs Ho Hid. pose proof Hok as (_ & Hlt & Hn & _).
  destruct (allocate_extent_space t size em ds raws Hok Hs Ho Hid) as (r & em' & ds' & E & Hok').
  exists r, em', ds'. split; [done|]. split; [done|]. clear Hok'. unfold allocate_extent in E.
  destruct (alloc_space_retry_spec t size em raws Hok Hs Ho) as (r0 & em1 & E1 & Hse & Hcap & Hr).
  rewrite E1 in E. clear E1. destruct Hse as (Een & _ & Ebs & Eid & _). simpl in E.
  destruct r0 as [l|]; simplify_eq/=; [|done].
  set (em2 := set_entry _ _ _).
  split; [intros t'; destruct (tier l), t'; [exact (Hcap FAST)|exact (Hcap SLOW)|exact (Hcap FAST)|exact (Hcap SLOW)]|]. split; [by destruct (tier l)|].
  split; [done|]. rewrite Eid in *. split.
  { transitivity (next_extent_id em2); [by destruct (tier l)|]. simpl. rewrite Eid. apply u64_small. lia. }
  split; [|split; [|by destruct Hr]].
  - destruct (entries_ em !! next_extent_id em) eqn:Ee; [|done]. apply Hlt in Ee. lia.
  - transitivity (entries_ em2); [by destruct (tier l)|]. simpl. by rewrite Een, Eid.
Qed.

(** ** What the methods of the extent map do to the slots *)

Lemma slots_set_entry em id e :
  slots (set_entry id e em) = <[id := slot_of e]> (slots em).
Proof. unfold slots. simpl. apply fmap_insert. Qed.
Lemma slots_same em em' : entries_ em' = entries_ em -> slots em' = slots em.
Proof. unfold slots. by intros ->. Qed.
Lemma slots_inplace em id e e' :
  entries_ em !! id = Some e -> slot_of e' = slot_of e -> slots (set_entry id e' em) = slots em.
Proof. intros He E. rewrite slots_set_entry, E. apply insert_id. by rewrite lookup_slots, He. Qed.
Lemma slots_record_io id op now em : slots (record_io id op now em) = slots em.
Proof.
  unfold record_io, lookup. destruct (entries_ em !! id) as [e|] eqn:He; [|done]. by eapply slots_inplace.
Qed.
Lemma slots_io_ref_inc id em : slots (io_ref_inc id em) = slots em.
Proof. unfold io_ref_inc, lookup. destruct (entries_ em !! id) as [e|] eqn:He; [|done]. by eapply slots_inplace. Qed.
Lemma slots_io_ref_dec id em : slots (io_ref_dec id em) = slots em.
Proof. unfold io_ref_dec, lookup. destruct (entries_ em !! id) as [e|] eqn:He; [|done]. by eapply slots_inplace. Qed.
Lemma slots_set_randomness id r em : slots (set_randomness id r em) = slots em.
Proof. unfold set_randomness, lookup. destruct (entries_ em !! id) as [e|] eqn:He; [|done]. by eapply slots_inplace. Qed.
Lemma slots_begin id em : slots (begin_migration id em).2 = slots em.
Proof.
  unfold begin_migration, lookup. destruct (entries_ em !! id) as [e|] eqn:He; [|done].
  case_match; [done|]. by eapply slots_inplace.
Qed.
Lemma slots_abort h em : slots (abort_migration h em) = slots em.
Proof.
  unfold abort_migration, lookup. destruct (entries_ em !! h_extent_id h) as [e|] eqn:He; [|done].
  case_match; [done|]. by eapply slots_inplace.
Qed.
Lemma slots_free id em : slots (free id em) = delete id (slots em).
Proof.
  unfold free, lookup. destruct (entries_ em !! id) as [e|] eqn:He.
  - transitivity (slots (set_entries (delete id (entries_ em)) em)); [apply slots_same; by destruct (tier _)|].
    unfold slots. simpl. apply fmap_delete.
  - rewrite delete_id; [done|]. by rewrite lookup_slots, He.
Qed.

Lemma slots_append id size em s :
  slots em !! id = Some s -> geo_ok s -> 0 <= size < 2 ^ 31 ->
  let '(l, u, v) := s in
  append_slot id size em = (UINT32_MAX, em) \/
  exists em', append_slot id size em = (u, em') /\ u + size <= length l - HEADER_SIZE /\
    slots em' = <[id := (l, u + size, v + size)]> (slots em).
Proof.
  destruct s as [[l u] v]. intros (e & He & <- & <- & <-)%slots_Some (Hl & Hu & Hv) Hs.
  unfold HEADER_SIZE in *. unfold append_slot, lookup. rewrite He. case_match; [by left|].
  assert (capacity_of (location e) = length (location e) - 4096) as -> by (apply u32_small; unfold HEADER_SIZE; lia).
  rewrite (u32_small (used_bytes e + size)), (u32_small (live_bytes e + size)) by lia.
  destruct (Z.ltb_spec (length (location e) - 4096) (used_bytes e + size)); [by left|right].
  eexists. split; [done|]. split; [lia|]. set (e1 := bump_generation _).
  transitivity (slots (set_entry id e1 em)); [|by rewrite slots_set_entry].
  apply slots_same. unfold update_free_list. by destruct (tier (location e1)).
Qed.

Lemma slots_append_absent id size em : slots em !! id = None -> append_slot id size em = (UINT32_MAX, em).
Proof.
  rewrite lookup_slots. intros E%fmap_None. unfold append_slot, lookup. by rewrite E.
Qed.

Lemma slots_mark_dead id len em l u v :
  slots em !! id = Some (l, u, v) -> 0 <= v < 2 ^ 32 -> 0 <= len ->
  slots (mark_dead_slot id len em) = <[id := (l, u, Z.max 0 (v - len))]> (slots em).
Proof.
  intros (e & He & <- & <- & <-)%slots_Some Hv Hn. unfold mark_dead_slot, lookup. rewrite He.
  set (live := if len <=? live_bytes e then live_bytes e -32 len else 0).
  assert (live = Z.max 0 (live_bytes e - len)) as El.
  { subst live. destruct (Z.leb_spec len (live_bytes e)); rewrite ?u32_small by lia; lia. }
  rewrite <- El. clearbody live. set (e1 := bump_generation _). set (em1 := mark_dirty id _).
  transitivity (slots em1); [unfold update_free_list; apply slots_same; by destruct (tier _)|].
  transitivity (slots (set_entry id e1 em)); [done|]. by rewrite slots_set_entry.
Qed.

Lemma same_space_caps em em' : same_space em em' -> same_caps em em' /\ block_size em' = block_size em.
Proof. intros (_ & _ & Ef & Es & Eb & _). split; [|done]. intros t. destruct t; simpl; congruence. Qed.

Lemma free_caps id em : same_caps em (free id em) /\ block_size (free id em) = block_size em.
Proof.
  unfold free, lookup. destruct (entries_ em !! id) as [e|]; [|done].
  split; [intros t|]; destruct (tier (location e)); try destruct t; done.
Qed.
End Space.

(** ** The invariant *)

Section Inv.
Context {A D : Type} `{Allocator.AllocatorSpec A} `{Hzero : !Allocator.FromZero A} `{DeviceSpec D}.
Implicit Types (e : Impl A D) (M : gmap bytes bytes).

Definition jregion (jsz : Z) : DiskLocation := mk_loc 0 jsz FAST.

(** [jsz] is the size of the journal's region, [pend] the reserved bytes as in
    [layout], [M] the abstract map. *)
Record einv (jsz : Z) (pend : Z -> Z) (e : Impl A D) (M : gmap bytes bytes) : Prop := {
  ei_init : initialized e = true;
  ei_space : space_ok (em e) [jregion jsz];
  ei_block : block_size (em e) mod HEADER_SIZE = 0;
  ei_cfg : 0 <= Config.extent_size (cfg e) /\ Config.extent_size (cfg e) + block_size (em e) <= 2 ^ 31;
  ei_devs : forall t, exists a d, alloc_of t (em e) = Some a /\ dev_of t (devs (tiers e)) = Some d /\
    Allocator.get_capacity a <= dev_size d;
  ei_lay : layout (slots (em e)) (KeyMap.abs (km e)) (devs (tiers e)) pend M;
  ei_keys : KeyMap.inv (km e);
  ei_journal : exists j, journal e = Some j /\ journal_ok jsz j;
}.

Definition jdata (e : Impl A D) : Z :=
  match journal e with Some j => Journal.data_size j | None => 0 end.

(** The parts in memory that journal and device operations leave alone. *)
Definition same_mem (e e' : Impl A D) : Prop :=
  cfg e' = cfg e /\ em e' = em e /\ km e' = km e /\ jdata e' = jdata e.

Lemma einv_both jsz pend e M : einv jsz pend e M -> both (devs (tiers e)).
Proof. intros He t. destruct (ei_devs _ _ _ _ He t) as (a & d & _ & Hd & _). by eexists. Qed.

(** Where the slots of an extent lie. *)
Lemma einv_extent jsz pend e M id l u v :
  einv jsz pend e M -> slots (em e) !! id = Some (l, u, v) ->
  exists ent d, entries_ (em e) !! id = Some ent /\ location ent = l /\
    dev_of (tier l) (devs (tiers e)) = Some d /\
    0 <= offset l /\ offset l + length l <= dev_size d /\ offset l + length l < 2 ^ 63 /\
    HEADER_SIZE <= length l <= 2 ^ 31 /\ 0 <= u <= length l - HEADER_SIZE /\ 0 <= v <= u.
Proof.
  intros He Hid. destruct (slots_Some _ _ _ _ _ Hid) as (ent & Hent & <- & <- & <-).
  destruct (ei_devs _ _ _ _ He (tier (location ent))) as (a & d & Ha & Hd & Hc).
  destruct (entry_region_ok _ _ _ _ _ (ei_space _ _ _ _ He) Hent Ha) as [(_ & _ & _ & ? & ?) ?].
  pose proof (lay_geo _ _ _ _ _ (ei_lay _ _ _ _ He) _ _ Hid) as (? & ? & ?).
  exists ent, d. split_and!; try done; lia.
Qed.

Lemma journal_below jsz pend e M id l u v :
  einv jsz pend e M -> slots (em e) !! id = Some (l, u, v) -> tier l = FAST -> jsz <= offset l.
Proof.
  intros He Hid Ht.
  destruct (einv_extent _ _ _ _ _ _ _ _ He Hid) as (ent & d & Hent & <- & _ & ? & _ & _ & ? & _).
  destruct (ei_devs _ _ _ _ He FAST) as (a & _ & Ha & _).
  pose proof (entry_raw_apart _ _ _ _ _ a (ei_space _ _ _ _ He) Hent Ht Ha) as [Hx|Hx];
    simpl in Hx; unfold HEADER_SIZE in *; lia.
Qed.

Lemma clear_journal jsz pend e M :
  einv jsz pend e M -> clear_of (slots (em e)) (KeyMap.abs (km e)) FAST 0 jsz.
Proof.
  intros He k kl l u v Hk Hid Ht. right. pose proof (journal_below _ _ _ _ _ _ _ _ He Hid Ht).
  destruct (lay_slot _ _ _ _ _ (ei_lay _ _ _ _ He) k kl Hk) as (_ & _ & _ & _ & ? & _).
  unfold HEADER_SIZE in *. lia.
Qed.

(** What the journal writes does not reach any slot, reserved ones included. *)
Lemma value_of_journal jsz pend e M ds kl :
  einv jsz pend e M -> writes_in FAST 0 jsz (devs (tiers e)) ds -> 0 <= koffset kl -> 0 < klength kl ->
  value_of (slots (em e)) ds kl = value_of (slots (em e)) (devs (tiers e)) kl.
Proof.
  intros He Hw Ho Hn. eapply (value_of_frame _ {[ [] := kl ]} _ _ FAST 0 jsz []); try done.
  intros k kl' l u v Hk Hid Ht. apply lookup_singleton_Some in Hk as [_ <-]. right.
  pose proof (journal_below _ _ _ _ _ _ _ _ He Hid Ht). unfold HEADER_SIZE. lia.
Qed.

(** A write into an extent, above or below the slots of its keys. *)
Lemma clear_extent jsz pend e M id l u v off len :
  einv jsz pend e M -> slots (em e) !! id = Some (l, u, v) ->
  0 <= off -> off + len <= length l ->
  (off + len <= HEADER_SIZE \/
   forall k kl, KeyMap.abs (km e) !! k = Some kl -> extent_id kl = id ->
     HEADER_SIZE + koffset kl + klength kl <= off) ->
  clear_of (slots (em e)) (KeyMap.abs (km e)) (tier l) (offset l + off) len.
Proof.
  intros He Hid Ho Hlen Hor k kl l' u' v' Hk Hid' Ht.
  destruct (lay_slot _ _ _ _ _ (ei_lay _ _ _ _ He) k kl Hk) as (l0 & u0 & v0 & Hid0 & ? & ? & ?).
  rewrite Hid' in Hid0. symmetry in Hid0. simplify_eq.
  destruct (decide (extent_id kl = id)) as [<-|Hne].
  - rewrite Hid in Hid'. simplify_eq. destruct Hor as [Hor|Hor]; [right; lia|left].
    specialize (Hor k kl Hk eq_refl). lia.
  - destruct (einv_extent _ _ _ _ _ _ _ _ He Hid) as (e1 & d1 & He1 & <- & _).
    destruct (einv_extent _ _ _ _ _ _ _ _ He Hid') as (e2 & d2 & He2 & <- & _ & ? & _ & _ & ? & ? & _).
    destruct (ei_devs _ _ _ _ He (tier (location e1))) as (a & _ & Ha & _).
    pose proof (entries_apart _ _ _ _ _ _ _ (ei_space _ _ _ _ He) He1 He2 (not_eq_sym Hne) Ht Ha) as [Hx|Hx];
      [right|left]; unfold HEADER_SIZE in *; lia.
Qed.

(** ** Changes of one part *)

Lemma einv_write jsz pend e M t off len ds :
  einv jsz pend e M -> writes_in t off len (devs (tiers e)) ds ->
  clear_of (slots (em e)) (KeyMap.abs (km e)) t off len ->
  einv jsz pend (upd_devs ds e) M /\ same_mem e (upd_devs ds e).
Proof.
  intros [Hi Hs Hb Hc Hd Hl Hk Hj] Hw Hcl. split; [|done]. split; try done.
  - intros t'. destruct (Hd t') as (a & d & Ha & Hd' & Hle).
    destruct (Hw t') as (d0 & d' & E & E' & Es & _). rewrite Hd' in E. injection E as <-.
    exists a, d'. split_and!; try done. cbn. lia.
  - by eapply layout_write.
Qed.

Lemma einv_em jsz pend pend' e M M' em' :
  einv jsz pend e M -> space_ok em' [jregion jsz] -> same_caps (em e) em' ->
  block_size em' = block_size (em e) ->
  layout (slots em') (KeyMap.abs (km e)) (devs (tiers e)) pend' M' ->
  einv jsz pend' (upd_em (fun _ => em') e) M'.
Proof.
  intros [Hi Hs Hb Hc Hd Hl Hk Hj] Hs' Hcap Hbs Hl'. split; try done.
  - cbn. by rewrite Hbs.
  - cbn. by rewrite Hbs.
  - intros t. destruct (Hd t) as (a & d & Ha & Hd' & Hle). specialize (Hcap t). rewrite Ha in Hcap.
    cbn. destruct (alloc_of t em') as [a'|]; simplify_eq/=. exists a', d. split_and!; try done. congruence.
Qed.

Lemma einv_same_slots jsz pend e M em' :
  einv jsz pend e M -> same_space (em e) em' -> slots em' = slots (em e) ->
  einv jsz pend (upd_em (fun _ => em') e) M.
Proof.
  intros He Hs Hsl. destruct (same_space_caps _ _ Hs) as [? ?].
  eapply einv_em; try done; [eapply same_space_ok, He; done|]. rewrite Hsl. apply He.
Qed.

Lemma einv_pend jsz pend pend' e M :
  (forall id, is_Some (slots (em e) !! id) -> pend' id = pend id) -> einv jsz pend e M -> einv jsz pend' e M.
Proof. intros Hp [Hi Hs Hb Hc Hd Hl Hk Hj]. split; try done. by eapply layout_pend. Qed.

Lemma einv_free jsz pend pend' e M id :
  einv jsz pend e M -> no_keys (KeyMap.abs (km e)) id -> (forall i, i <> id -> pend' i = pend i) ->
  einv jsz pend' (upd_em (free id) e) M.
Proof.
  intros He Hn Hp. destruct (free_caps id (em e)) as [? ?].
  change (einv jsz pend' (upd_em (fun _ => free id (em e)) e) M).
  eapply einv_em; try done; [apply free_space, He|]. rewrite slots_free. by eapply layout_free; [apply He|..].
Qed.

Lemma einv_mark_dead jsz pend e M id l u v len :
  einv jsz pend e M -> slots (em e) !! id = Some (l, u, v) -> 0 <= len <= v ->
  einv jsz (fun i => pend i + pend_at id (- len) i) (upd_em (mark_dead_slot id len) e) M.
Proof.
  intros He Hid Hlen. destruct (einv_extent _ _ _ _ _ _ _ _ He Hid) as (ent & d & _ & _ & _ & _ & _ & _ & ? & ? & ?).
  pose proof (mark_dead_slot_space id len (em e)) as Hs. destruct (same_space_caps _ _ Hs) as [? ?].
  change (einv jsz (fun i => pend i + pend_at id (- len) i) (upd_em (fun _ => mark_dead_slot id len (em e)) e) M).
  eapply einv_em; try done; [eapply same_space_ok, He; done|].
  rewrite (slots_mark_dead id len (em e) l u v Hid) by (unfold HEADER_SIZE in *; lia).
  replace (Z.max 0 (v - len)) with (v - len) by lia. replace (- len) with (v - len - v) by lia.
  eapply layout_resize; [apply He|done|lia|]. unfold geo_ok. lia.
Qed.

(** ** Journal *)

Lemma with_journal_inv jsz pend e M (f : Journal.Journal -> D -> Z * Journal.Journal * D) :
  einv jsz pend e M ->
  (forall j d, journal e = Some j -> journal_ok jsz j ->
     exists r j' d', f j d = (r, j', d') /\ journal_ok jsz j' /\
       Journal.data_size j' = Journal.data_size j /\ frame jsz d d') ->
  exists r e', with_journal f e = Some (r, e') /\ einv jsz pend e' M /\ same_mem e e' /\
    writes_in FAST 0 jsz (devs (tiers e)) (devs (tiers e')).
Proof.
  intros He Hf. destruct (ei_journal _ _ _ _ He) as (j & Hj & Hok).
  destruct (ei_devs _ _ _ _ He FAST) as (a & d & Ha & Hd & Hc).
  destruct (Hf j d Hj Hok) as (r & j' & d' & E & Hok' & Eds & Es & Hfr).
  unfold with_journal. rewrite Hj. simpl. change (fast_dev (devs (tiers e))) with (dev_of FAST (devs (tiers e))).
  rewrite Hd. simpl. rewrite E. eexists r, _. split; [done|].
  set (e1 := mk_impl _ _ _ _). assert (einv jsz pend e1 M) as He1.
  { destruct He as [Hi Hs Hb Hcf Hdv Hl Hk _]. split; try done. by exists j'. }
  assert (writes_in FAST 0 jsz (devs (tiers e)) (set_dev FAST d' (devs (tiers e1)))) as Hw.
  { eapply writes_set; [by eapply einv_both|exact Hd|done|]. intros x Hx. apply Hfr. lia. }
  destruct (einv_write jsz pend e1 M FAST 0 jsz (set_dev FAST d' (devs (tiers e1))) He1 Hw) as [He2 Hs2].
  - by eapply clear_journal.
  - split; [exact He2|]. split; [|exact Hw]. unfold same_mem in *. split_and!; try done. unfold jdata. by rewrite Hj.
Qed.

Lemma transaction_inv jsz pend e M rs :
  einv jsz pend e M -> recs_len rs + 4117 <= jdata e ->
  exists r e', with_journal (Journal.transaction rs) e = Some (r, e') /\ einv jsz pend e' M /\
    same_mem e e' /\ writes_in FAST 0 jsz (devs (tiers e)) (devs (tiers e')).
Proof.
  intros He Hfit. apply with_journal_inv; [done|]. intros j d Hj Hok. unfold jdata in Hfit.
  rewrite Hj in Hfit. by apply transaction_frame.
Qed.

Lemma checkpoint_inv jsz pend e M :
  einv jsz pend e M -> recs_len (build_checkpoint_state e) + 4126 <= jdata e ->
  exists e', do_checkpoint e = Some e' /\ einv jsz pend e' M /\ same_mem e e' /\
    writes_in FAST 0 jsz (devs (tiers e)) (devs (tiers e')).
Proof.
  intros He Hfit. unfold do_checkpoint.
  destruct (with_journal_inv jsz pend e M (Journal.checkpoint (build_checkpoint_state e)) He) as (r & e' & -> & ? & ? & ?).
  - intros j d Hj Hok. unfold jdata in Hfit. rewrite Hj in Hfit. by apply checkpoint_frame.
  - by exists e'.
Qed.

Lemma checkpoint_if_inv jsz pend e M f :
  einv jsz pend e M -> recs_len (build_checkpoint_state e) + 4126 <= jdata e ->
  exists e', checkpoint_if f e = Some e' /\ einv jsz pend e' M /\ same_mem e e' /\
    writes_in FAST 0 jsz (devs (tiers e)) (devs (tiers e')).
Proof.
  intros He Hfit. pose proof (writes_refl FAST 0 jsz _ (einv_both _ _ _ _ He)).
  unfold checkpoint_if. destruct (journal e) as [j|] eqn:Hj; [|by exists e].
  destruct (f j); [by apply checkpoint_inv|by exists e].
Qed.
End Inv.
End EngineInv.
