(* ===== verification/EnginePut.v ===== *)
(** * put, get and del against the invariant

    The pieces of [put] in the order the code runs them, then the three
    operations. *)
From stdpp Require Import base numbers list gmap.
From Stdlib Require Import ZArith Lia.
From S2P Require Import Prelude IntArith Crc32 Allocator Device BtierTypes KeyMap ExtentMap ExtentSpace Journal JournalSpec Layout Config Migration Engine EngineInv.
Import BtierTypes Device ExtentMap ExtentSpace JournalFrame Layout Migration Engine EngineInv.

Module EnginePut.

(** ** The size of a checkpoint *)

Definition ext_len (m : KeyMap.KeyMap) (id : Z) : Z := 30 + recs_len (checkpoint_keys m id).
Definition state_len (V : slots_t) (m : KeyMap.KeyMap) : Z :=
  sumZ (fun p => ext_len m p.1) (map_to_list V).

Lemma recs_len_app a b : recs_len (a ++ b) = recs_len a + recs_len b.
Proof. apply sumZ_app. Qed.
Lemma recs_len_nonneg rs : 0 <= recs_len rs.
Proof. apply sumZ_nonneg, Forall_forall. intros r _. unfold rec_len. lia. Qed.
Lemma ext_len_nonneg m id : 0 <= ext_len m id.
Proof. unfold ext_len. pose proof (recs_len_nonneg (checkpoint_keys m id)). lia. Qed.

Lemma state_len_delete V m id s : V !! id = Some s -> state_len V m = ext_len m id + state_len (delete id V) m.
Proof.
  intros Hid. unfold state_len.
  by rewrite <- (sumZ_Permutation _ _ _ (map_to_list_delete V id s Hid)), sumZ_cons.
Qed.
Lemma state_len_delete_le V m id : state_len (delete id V) m <= state_len V m.
Proof.
  destruct (V !! id) as [s|] eqn:E; [|by rewrite delete_id].
  rewrite (state_len_delete V m id s E). pose proof (ext_len_nonneg m id). lia.
Qed.
Lemma state_len_insert V m id s :
  state_len (<[id := s]> V) m = ext_len m id + state_len (delete id V) m.
Proof. rewrite (state_len_delete _ m id s) by apply lookup_insert_eq. by rewrite delete_insert_eq. Qed.
Lemma state_len_update V m id s s' : V !! id = Some s -> state_len (<[id := s']> V) m = state_len V m.
Proof. intros E. by rewrite state_len_insert, (state_len_delete V m id s E). Qed.

(** An extent without keys adds its own record. *)
Lemma ext_len_new m id : KeyMap.inv m -> no_keys (KeyMap.abs m) id -> ext_len m id = 30.
Proof.
  intros [[Hix _] _] Hn. unfold ext_len, checkpoint_keys.
  assert (KeyMap.keys_in_extent m id = ∅) as ->; [|by rewrite elements_empty].
  apply set_eq. intros k. rewrite Hix. split; [|set_solver].
  intros (l & Hl & Hid). rewrite KeyMap.lookup_abs in Hl. by destruct (Hn k l).
Qed.

Section Put.
Context {A D : Type} `{Allocator.AllocatorSpec A} `{Hzero : !Allocator.FromZero A} `{DeviceSpec D}.
Implicit Types (e : Impl A D) (M : gmap bytes bytes).

Lemma checkpoint_len e : recs_len (build_checkpoint_state e) = state_len (slots (em e)) (km e).
Proof.
  unfold build_checkpoint_state, state_len, slots, snapshot. rewrite map_to_list_fmap.
  induction (map_to_list (entries_ (em e))) as [|[id en] l IH]; [done|].
  rewrite !fmap_cons, sumZ_cons, <- IH. cbn [mjoin list_join]. rewrite recs_len_app. f_equal.
Qed.

(** The parts that the phases of an operation before its commit leave alone. *)
Definition same_rest (e e' : Impl A D) : Prop := cfg e' = cfg e /\ km e' = km e /\ jdata e' = jdata e.

Lemma same_mem_rest e e' : same_mem e e' -> same_rest e e'.
Proof. by intros (? & _ & ? & ?). Qed.
Lemma same_rest_trans e1 e2 e3 : same_rest e1 e2 -> same_rest e2 e3 -> same_rest e1 e3.
Proof. unfold same_rest. intros (? & ? & ?) (? & ? & ?). split_and!; congruence. Qed.
Lemma upd_em_rest f e : same_rest e (upd_em f e).
Proof. done. Qed.

Lemma length_header id len used live gen : List.length (header_bytes id len used live gen) = Z.to_nat 4096.
Proof.
  unfold header_bytes, header_prefix. rewrite !length_app, !length_le_bytes, length_replicate. lia.
Qed.

(** ** New extents *)

Lemma allocate_inv jsz e M t size :
  einv jsz no_pend e M -> 0 <= size -> size + block_size (em e) <= 2 ^ 31 ->
  next_extent_id (em e) + 1 < 2 ^ 64 ->
  exists r em' ds, allocate_extent t size (em e) (devs (tiers e)) = Some (r, em', ds) /\
    let e' := upd_devs ds (upd_em (fun _ => em') e) in
    einv jsz no_pend e' M /\ next_extent_id em' <= next_extent_id (em e) + 1 /\
    block_size em' = block_size (em e) /\
    match r with
    | None => slots em' = slots (em e)
    | Some (id, l) => slots (em e) !! id = None /\ slots em' = <[id := (l, 0, 0)]> (slots (em e))
    end.
Proof.
  intros He Hs Hsz Hid. pose proof (ei_space _ _ _ _ He) as Hsp.
  destruct (allocate_extent_spec t size (em e) (devs (tiers e)) [jregion jsz] Hsp Hs ltac:(lia) Hid)
    as (r & em' & ds & E & Hsp' & Hcap & Hbs & Hr).
  exists r, em', ds. split; [done|]. cbv zeta.
  destruct r as [[id l]|].
  - destruct Hr as (-> & Hn' & Hnone & Hent & Hlen & ->). set (id := next_extent_id (em e)) in *.
    assert (slots (em e) !! id = None) as Hsn by (rewrite lookup_slots, Hnone; done).
    assert (slots em' = <[id := (l, 0, 0)]> (slots (em e))) as Hsl by (unfold slots; by rewrite Hent, fmap_insert).
    split; [|split; [lia|by split]].
    assert (entries_ em' !! id = Some (new_entry l)) as Hid' by (rewrite Hent; apply lookup_insert_eq).
    assert (HEADER_SIZE <= length l <= 2 ^ 31) as Hl.
    { split.
      - destruct (ei_devs _ _ _ _ He (tier l)) as (a & _ & Ha & _). pose proof (Hcap (tier l)) as Hc. rewrite Ha in Hc.
        destruct (alloc_of (tier l) em') as [a'|] eqn:Ha'; simplify_eq/=.
        destruct (entry_region_ok em' _ id (new_entry l) a' Hsp' Hid' Ha') as [(Hp & _ & Hm & _) _]. simpl in Hp, Hm.
        rewrite Hbs in Hm. pose proof (ei_block _ _ _ _ He) as Hb. destruct Hsp as (Hb0 & _).
        unfold HEADER_SIZE in *. apply Z.mod_divide in Hb as [c Hc']; [|lia]. apply Z.mod_divide in Hm as [c' Hm]; [|lia].
        nia.
      - etrans; [exact Hlen|]. pose proof Hsp as (Hb0 & _). unfold aligned_size. rewrite IntArith.round_up_to_spec by lia.
        pose proof (IntArith.ceil_mul_bounds size (block_size (em e)) ltac:(lia)). case_match; lia. }
    assert (einv jsz no_pend (upd_em (fun _ => em') e) M) as He1.
    { eapply einv_em; try done. rewrite Hsl. apply layout_new; try done. apply He. }
    unfold write_extent_header. destruct (ei_devs _ _ _ _ He (tier l)) as (a & d & _ & Hd & _). rewrite Hd.
    destruct (einv_write jsz no_pend (upd_em (fun _ => em') e) M (tier l) (offset l + 0) 4096
      (set_dev (tier l) (dev_write (offset l) (header_bytes id (length l) 0 0 0) false d).2 (devs (tiers e)))) as [He2 _]; try done.
    + rewrite Z.add_0_r. pose proof (dev_write_in (tier l) (offset l) (header_bytes id (length l) 0 0 0) false
        (devs (tiers e)) d (einv_both _ _ _ _ He) Hd) as Hw. rewrite length_header in Hw. exact Hw.
    + eapply (clear_extent jsz no_pend _ M id l 0 0); try done.
      * cbn. rewrite Hsl. apply lookup_insert_eq.
      * unfold HEADER_SIZE in *. lia.
      * left. unfold HEADER_SIZE. lia.
  - destruct Hr as (Hent & Hn & ->). assert (slots em' = slots (em e)) as Hsl by (by apply slots_same).
    split; [|split; [lia|by split]].
    assert (einv jsz no_pend (upd_em (fun _ => em') e) M) as He1.
    { eapply einv_em; try done. rewrite Hsl. apply He. }
    eapply (einv_write _ _ _ _ FAST 0 0); [exact He1|apply writes_refl; by eapply einv_both|].
    intros k kl l u v Hk Hx Ht. destruct (clear_journal _ _ _ _ He1 k kl l u v Hk Hx Ht) as [?|?]; [left; lia|right].
    destruct (einv_extent _ _ _ _ _ _ _ _ He1 Hx) as (_ & _ & _ & _ & _ & ? & _).
    destruct (lay_slot _ _ _ _ _ (ei_lay _ _ _ _ He1) k kl Hk) as (_ & _ & _ & _ & ? & _). unfold HEADER_SIZE. lia.
Qed.

Lemma put_allocate_inv jsz e M t size :
  einv jsz no_pend e M -> 0 <= size -> size + block_size (em e) <= 2 ^ 31 ->
  next_extent_id (em e) + 1 < 2 ^ 64 -> 4147 <= jdata e ->
  exists r e', put_allocate_new_extent t size e = Some (r, e') /\ einv jsz no_pend e' M /\
    same_rest e e' /\ next_extent_id (em e') <= next_extent_id (em e) + 1 /\
    block_size (em e') = block_size (em e) /\
    match r with
    | inl err => err < 0 /\ slots (em e') = slots (em e)
    | inr (id, l) => slots (em e) !! id = None /\ slots (em e') = <[id := (l, 0, 0)]> (slots (em e))
    end.
Proof.
  intros He Hs Hsz Hid Hj. unfold put_allocate_new_extent.
  destruct (allocate_inv jsz e M t size He Hs Hsz Hid) as (r & em' & ds & -> & He1 & Hn & Hb & Hr).
  cbn [mbind option_bind]. set (e1 := upd_devs ds (upd_em (fun _ => em') e)) in *.
  destruct r as [[id l]|]; [|by exists (inl (- ENOSPC)), e1].
  destruct Hr as [Hsn Hsl]. unfold put_pre_transaction_extent.
  destruct (transaction_inv jsz no_pend e1 M [extent_new id l] He1) as (r & e2 & -> & He2 & Hm & _).
  { change (jdata e1) with (jdata e). change (recs_len [extent_new id l]) with 30. lia. }
  cbn [mbind option_bind]. pose proof Hm as (_ & Eem & Ekm & _).
  assert (same_rest e e2) as Hrest by (by apply same_mem_rest in Hm).
  destruct (Z.ltb_spec r 0) as [Hr|Hr]; cbn [mbind option_bind].
  - destruct (Z.ltb_spec r 0); [|lia]. exists (inl r). eexists. split; [done|].
    assert (no_keys (KeyMap.abs (km e2)) id) as Hnk.
    { rewrite Ekm. eapply layout_absent; [apply (ei_lay _ _ _ _ He)|done]. }
    split; [by eapply einv_free|]. split; [done|].
    destruct (free_caps id (em e2)) as [_ Hfb].
    assert (next_extent_id (free id (em e2)) = next_extent_id (em e2)) as Hfn.
    { unfold free, ExtentMap.lookup. destruct (entries_ (em e2) !! id) as [en|]; [|done]. by destruct (tier (location en)). }
    assert (em (upd_em (free id) e2) = free id (em e2)) as -> by done.
    rewrite Hfn, Hfb, slots_free, Eem. change (em e1) with em'. rewrite Hsl, delete_insert_id by done. done.
  - destruct (Z.ltb_spec 0 0); [lia|]. exists (inr (id, l)), e2. split; [done|].
    rewrite Eem. done.
Qed.

(** ** Slots *)

Lemma upd_em_id e : upd_em (fun _ => em e) e = e.
Proof. by destruct e as [c [? ? ? ? ? ?] j i]. Qed.

Definition fits_slot (e : Impl A D) (id off n : Z) (l : DiskLocation) : Prop :=
  exists u v, slots (em e) !! id = Some (l, u, v) /\ 0 <= off /\ off + n <= u /\ n <= v /\
    forall k kl, KeyMap.abs (km e) !! k = Some kl -> extent_id kl = id -> koffset kl + klength kl <= off.

Lemma reserve_inv jsz e M id size l u v :
  einv jsz no_pend e M -> slots (em e) !! id = Some (l, u, v) -> 0 < size < 2 ^ 31 ->
  reserve id size e = (UINT32_MAX, e) \/
  exists off e', reserve id size e = (off, e') /\ off <> UINT32_MAX /\ einv jsz (pend_at id size) e' M /\
    same_rest e e' /\ fits_slot e' id off size l /\
    state_len (slots (em e')) (km e') = state_len (slots (em e)) (km e).
Proof.
  intros He Hid Hs. unfold reserve.
  destruct (einv_extent _ _ _ _ _ _ _ _ He Hid) as (_ & _ & _ & _ & _ & _ & _ & _ & Hl & Hu & Hv).
  pose proof (slots_append id size (em e) (l, u, v) Hid (lay_geo _ _ _ _ _ (ei_lay _ _ _ _ He) _ _ Hid) ltac:(lia))
    as [E|(em' & E & Hle & Hsl)].
  - left. by rewrite E, upd_em_id.
  - right. pose proof (append_slot_space id size (em e)) as Hsp. rewrite E in Hsp |- *. cbn [snd] in Hsp.
    destruct (same_space_caps _ _ Hsp) as [? ?]. exists u. eexists. split; [done|].
    split; [unfold HEADER_SIZE in *; change UINT32_MAX with (2 ^ 32 - 1); lia|]. split.
    + eapply einv_em; try done; [eapply same_space_ok, He; done|]. rewrite Hsl.
      eapply layout_pend; [|eapply (layout_resize _ _ _ no_pend _ id l u v (u + size) (v + size)); [apply He|done|lia|unfold geo_ok; lia]].
      intros i _. unfold no_pend, pend_at. case_match; lia.
    + split; [done|]. split; [|cbn [em km upd_em set_tiers tiers set_em extent_map key_map]; rewrite Hsl; by eapply state_len_update].
      exists (u + size), (v + size). cbn. rewrite Hsl. split; [apply lookup_insert_eq|]. split_and!; try lia.
      intros k kl Hk Hx. destruct (lay_slot _ _ _ _ _ (ei_lay _ _ _ _ He) k kl Hk) as (l0 & u0 & v0 & E0 & _ & _ & ?).
      rewrite Hx, Hid in E0. simplify_eq. lia.
Qed.

Lemma write_value_inv jsz pend e M id off l value :
  einv jsz pend e M -> fits_slot e id off (Z.of_nat (List.length value)) l -> value <> [] ->
  exists r e', write_value l off value e = Some (r, e') /\ einv jsz pend e' M /\ same_mem e e' /\
    (0 <= r -> value_of (slots (em e')) (devs (tiers e')) (mk_kloc id off (Z.of_nat (List.length value))) = Some value).
Proof.
  intros He (u & v & Hid & Ho & Hu & Hv & Hfr) Hne. unfold write_value, tier_write.
  destruct (einv_extent _ _ _ _ _ _ _ _ He Hid) as (ent & d & Hent & _ & Hd & ? & ? & ? & ? & ? & ?).
  rewrite Hd. cbn [mbind option_bind]. unfold HEADER_SIZE in *.
  rewrite (u64_small (offset l + 4096)), (u64_small (offset l + 4096 + off)) by lia.
  pose proof (dev_write_in (tier l) (offset l + 4096 + off) value true (devs (tiers e)) d (einv_both _ _ _ _ He) Hd) as Hw.
  pose proof (write_spec d (offset l + 4096 + off) value true) as Hspec.
  destruct (dev_write (offset l + 4096 + off) value true d) as [r d']. cbn [fst snd] in *.
  exists r. eexists. split; [done|].
  destruct (einv_write jsz pend e M (tier l) (offset l + (4096 + off)) (Z.of_nat (List.length value))
    (set_dev (tier l) d' (devs (tiers e))) He) as [He' Hm].
  - by rewrite Z.add_assoc.
  - eapply clear_extent; try done; unfold HEADER_SIZE; try lia. right. intros k kl Hk Hx. specialize (Hfr k kl Hk Hx). lia.
  - split; [done|]. split; [done|]. intros Hr. unfold value_of.
    cbn [extent_id koffset klength]. change (em (upd_devs ?ds e)) with (em e). rewrite Hid.
    cbn [mbind option_bind]. change (devs (tiers (upd_devs ?ds e))) with ds. rewrite dev_of_set_eq.
    cbn [mbind option_bind]. f_equal. rewrite Nat2Z.id. unfold HEADER_SIZE.
    etrans; [|apply (image_range_write (image d) (offset l + 4096 + off) value)].
    apply image_range_ext. intros x _. apply Hspec; lia.
Qed.

Lemma fits_slot_mem e e' id off n l : same_mem e e' -> fits_slot e id off n l -> fits_slot e' id off n l.
Proof. intros (_ & Eem & Ekm & _). unfold fits_slot. by rewrite Eem, Ekm. Qed.

(** A slot of [n] bytes is reserved at [off] of extent [id]; nothing else
    happened since [e0], and a checkpoint is at most one extent longer. *)
Definition placed (jsz : Z) (e0 : Impl A D) (M : gmap bytes bytes) (id off : Z) (l : DiskLocation)
    (created : bool) (n : Z) (e : Impl A D) : Prop :=
  einv jsz (pend_at id n) e M /\ same_rest e0 e /\ fits_slot e id off n l /\
  (created = true -> no_keys (KeyMap.abs (km e0)) id) /\
  state_len (slots (em e)) (km e) <= state_len (slots (em e0)) (km e0) + 30.

Definition gave_up (jsz : Z) (e0 : Impl A D) (M : gmap bytes bytes) (err : Z) (e : Impl A D) : Prop :=
  err < 0 /\ einv jsz no_pend e M /\ same_rest e0 e.

Lemma new_extent_keys jsz pend e M id :
  einv jsz pend e M -> slots (em e) !! id = None -> no_keys (KeyMap.abs (km e)) id.
Proof. intros He. eapply layout_absent, He. Qed.

Lemma new_extent_len jsz pend e M id s :
  einv jsz pend e M -> slots (em e) !! id = None ->
  state_len (<[id := s]> (slots (em e))) (km e) = state_len (slots (em e)) (km e) + 30.
Proof.
  intros He Hn. rewrite state_len_insert, delete_id, ext_len_new by
    (done || apply He || by eapply new_extent_keys). lia.
Qed.

Lemma put_fresh_inv jsz e M ext_size size :
  einv jsz no_pend e M -> 0 <= ext_size -> ext_size + block_size (em e) <= 2 ^ 31 ->
  next_extent_id (em e) + 1 < 2 ^ 64 -> 4147 <= jdata e -> 0 < size < 2 ^ 31 ->
  exists r e', put_fresh ext_size size e = Some (r, e') /\
    match r with
    | inl err => gave_up jsz e M err e'
    | inr (id, off, l) => placed jsz e M id off l true size e'
    end.
Proof.
  intros He H1' H2' H3' H4' Hs. unfold put_fresh.
  destruct (put_allocate_inv jsz e M FAST ext_size He) as (r & e1 & -> & He1 & Hr1 & _ & _ & Hr); try done.
  cbn [mbind option_bind]. destruct r as [err|[id l]]; [exists (inl err), e1; by destruct Hr|].
  destruct Hr as [Hnone Hsl]. pose proof (new_extent_keys _ _ _ _ _ He Hnone) as Hnk.
  destruct (reserve_inv jsz e1 M id size l 0 0 He1) as [->|(off & e2 & -> & Hne & He2 & Hr2 & Hfit & Hlen)];
    [rewrite Hsl; apply lookup_insert_eq|done| |].
  - rewrite Z.eqb_refl. eexists _, _. split; [done|]. split; [done|]. split; [|done].
    eapply einv_free; [done| |done]. pose proof Hr1 as (_ & -> & _). done.
  - destruct (Z.eqb_spec off UINT32_MAX); [done|]. exists (inr (id, off, l)), e2. split; [done|].
    split; [done|]. split; [by eapply same_rest_trans|]. split; [done|]. split; [done|].
    rewrite Hlen, Hsl. pose proof Hr1 as (_ & -> & _). erewrite new_extent_len by done. lia.
Qed.

Lemma put_find_inv jsz e M size :
  einv jsz no_pend e M -> next_extent_id (em e) + 1 < 2 ^ 64 -> 4147 <= jdata e ->
  exists r e', put_find size e = Some (r, e') /\
    match r with
    | inl err => gave_up jsz e M err e'
    | inr (id, l, created) =>
        einv jsz no_pend e' M /\ same_rest e e' /\
        next_extent_id (em e') <= next_extent_id (em e) + 1 /\ block_size (em e') = block_size (em e) /\
        (exists u v, slots (em e') !! id = Some (l, u, v)) /\
        if created then slots (em e) !! id = None /\ slots (em e') = <[id := (l, 0, 0)]> (slots (em e))
        else slots (em e') = slots (em e)
    end.
Proof.
  intros He Hn Hj. unfold put_find. destruct (_ =? UINT64_MAX).
  - pose proof (ei_cfg _ _ _ _ He) as [? ?].
    destruct (put_allocate_inv jsz e M FAST (Config.extent_size (cfg e)) He) as (r & e1 & -> & He1 & Hr1 & Hn1 & Hb1 & Hr); try done.
    cbn [mbind option_bind]. destruct r as [err|[id l]]; [exists (inl err), e1; by destruct Hr|].
    exists (inr (id, l, true)), e1. destruct Hr as [Hnone Hsl]. split_and!; try done.
    exists 0, 0. rewrite Hsl. apply lookup_insert_eq.
  - set (target := find_extent_with_space _ _ _). unfold get_location, ExtentMap.lookup.
    destruct (entries_ (em e) !! target) as [en|] eqn:Een; [|by eexists (inl _), e].
    exists (inr (target, location en, false)), e. split; [done|]. split_and!; try done; try lia.
    eexists _, _. by rewrite lookup_slots, Een.
Qed.

Lemma put_small_inv jsz e M size :
  einv jsz no_pend e M -> next_extent_id (em e) + 2 < 2 ^ 64 -> 4147 <= jdata e -> 0 < size < 2 ^ 31 ->
  exists r e', put_small size e = Some (r, e') /\
    match r with
    | inl err => gave_up jsz e M err e'
    | inr (id, off, l, created) => placed jsz e M id off l created size e'
    end.
Proof.
  intros He Hn Hj Hs. unfold put_small.
  destruct (put_find_inv jsz e M size He ltac:(lia) Hj) as (r & e1 & -> & Hr). cbn [mbind option_bind].
  destruct r as [err|[[id l] created]]; [by exists (inl err), e1|].
  destruct Hr as (He1 & Hr1 & Hn1 & Hb1 & (u & v & Hid) & Hc).
  destruct (reserve_inv jsz e1 M id size l u v He1 Hid Hs) as [->|(off & e2 & -> & Hne & He2 & Hr2 & Hfit & Hlen)].
  - rewrite Z.eqb_refl.
    set (e2 := if created then upd_em (free id) e1 else e1).
    assert (einv jsz no_pend e2 M /\ same_rest e e2 /\ slots (em e2) = slots (em e) /\
      next_extent_id (em e2) <= next_extent_id (em e1) /\ block_size (em e2) = block_size (em e)) as (He2 & Hr2 & Hs2 & Hn2 & Hb2).
    { subst e2. destruct created; [|by split_and!]. destruct Hc as [Hnone Hsl].
      split; [eapply einv_free; [done| |done]; pose proof Hr1 as (_ & -> & _); by eapply new_extent_keys|].
      split; [done|]. assert (em (upd_em (free id) e1) = free id (em e1)) as -> by done.
      destruct (free_caps id (em e1)) as [_ ->]. split; [by rewrite slots_free, Hsl, delete_insert_id|]. split; [|done].
      unfold free, ExtentMap.lookup. destruct (entries_ (em e1) !! id) as [en|]; [|done]. by destruct (tier (location en)). }
    clearbody e2. pose proof Hr2 as (Ecfg & Ekm & Ejd). pose proof (ei_cfg _ _ _ _ He2) as [? ?].
    destruct (put_fresh_inv jsz e2 M (Config.extent_size (cfg e2)) size He2) as (r & e3 & -> & Hr); try done; try lia.
    cbn [mbind option_bind]. destruct r as [err|[[id' off'] l']].
    + exists (inl err), e3. split; [done|]. destruct Hr as (? & ? & ?). split_and!; try done. by eapply same_rest_trans.
    + exists (inr (id', off', l', true)), e3. split; [done|]. destruct Hr as (? & ? & ? & ? & Hle).
      rewrite Hs2, Ekm in *. split_and!; try done. by eapply same_rest_trans.
  - destruct (Z.eqb_spec off UINT32_MAX); [done|]. exists (inr (id, off, l, created)), e2. split; [done|].
    split; [done|]. split; [by eapply same_rest_trans|]. split; [done|]. pose proof Hr1 as (_ & Ekm & _).
    split; [intros ->; by eapply new_extent_keys; [|apply Hc]|]. rewrite Hlen, Ekm. destruct created.
    + destruct Hc as [Hnone ->]. erewrite new_extent_len by done. lia.
    + rewrite Hc. lia.
Qed.

(** ** Undoing a reservation *)

Lemma placed_free jsz e0 M id off l n e :
  placed jsz e0 M id off l true n e -> gave_up jsz e0 M (-1) (upd_em (free id) e).
Proof.
  intros (He & Hr & _ & Hnk & _). split; [lia|]. split; [|done]. pose proof Hr as (_ & Ekm & _).
  eapply einv_free; [exact He|rewrite Ekm; by apply Hnk|]. intros i Hi. unfold pend_at, no_pend.
  by destruct (Z.eqb_spec i id).
Qed.

Lemma placed_dead jsz e0 M id off l created n e :
  0 <= n -> placed jsz e0 M id off l created n e -> gave_up jsz e0 M (-1) (upd_em (mark_dead_slot id n) e).
Proof.
  intros Hn (He & Hr & (u & v & Hid & _ & _ & Hv & _) & _). split; [lia|]. split; [|done].
  eapply einv_pend; [|eapply einv_mark_dead; [exact He|exact Hid|lia]].
  intros i _. unfold pend_at, no_pend. case_match; lia.
Qed.

Lemma placed_mem jsz e0 M id off l created n e e' :
  placed jsz e0 M id off l created n e -> einv jsz (pend_at id n) e' M -> same_mem e e' ->
  placed jsz e0 M id off l created n e'.
Proof.
  intros (He & Hr & Hf & Hk & Hl) He' Hm. split; [done|].
  split; [eapply same_rest_trans; [exact Hr|by apply same_mem_rest]|].
  split; [by eapply fits_slot_mem|]. split; [done|]. by destruct Hm as (_ & -> & -> & _).
Qed.

(** ** put *)

(** What a value must satisfy: not empty, and its extent does not exceed 2 GiB. *)
Definition value_ok (e : Impl A D) (value : bytes) : Prop :=
  value <> [] /\ Z.of_nat (List.length value) + HEADER_SIZE + block_size (em e) <= 2 ^ 31.

(** There are extent ids left, and the log can hold the transaction of [key] and
    a checkpoint with one more extent. *)
Definition put_room (e : Impl A D) (key : bytes) : Prop :=
  next_extent_id (em e) + 2 < 2 ^ 64 /\ Z.of_nat (List.length key) + 4177 <= jdata e /\
  state_len (slots (em e)) (km e) + 4156 <= jdata e.

Definition written (jsz : Z) (e0 : Impl A D) (M : gmap bytes bytes) (value : bytes) (c : PutWriteResult)
    (e : Impl A D) : Prop :=
  placed jsz e0 M (target_extent_id c) (ctx_offset c) (ctx_extent_loc c) (new_extent_created c) (ctx_size c) e /\
  ctx_size c = Z.of_nat (List.length value) /\
  value_of (slots (em e)) (devs (tiers e)) (ctx_kloc c) = Some value.

Lemma put_write_data_inv jsz e M value now old :
  einv jsz no_pend e M -> value_ok e value -> next_extent_id (em e) + 2 < 2 ^ 64 -> 4147 <= jdata e ->
  exists r e', put_write_data value now old e = Some (r, e') /\
    match r with
    | inl err => gave_up jsz e M err e'
    | inr c => written jsz e M value c e' /\ old_kloc c = old
    end.
Proof.
  intros He [Hne Hlen] Hn Hj. pose proof (ei_space _ _ _ _ He) as (Hb & _). unfold HEADER_SIZE in *.
  assert (0 < Z.of_nat (List.length value)) as Hpos by (destruct value; simpl; [done|lia]).
  unfold put_write_data. rewrite (u32_small (Z.of_nat (List.length value))) by lia.
  set (n := Z.of_nat (List.length value)) in *.
  destruct (Config.large_value_threshold (cfg e) <=? n).
  - unfold HEADER_SIZE. rewrite (u32_small (n + 4096)) by lia.
    destruct (put_fresh_inv jsz e M (n + 4096) n He) as (r & e1 & -> & Hr); try lia.
    cbn [mbind option_bind]. destruct r as [err|[[id off] l]]; [by exists (inl err), e1|].
    pose proof Hr as (He1 & Hr1 & Hfit & _).
    destruct (write_value_inv jsz _ e1 M id off l value He1 Hfit Hne) as (r & e2 & -> & He2 & Hm & Hv).
    cbn [mbind option_bind]. pose proof (placed_mem _ _ _ _ _ _ _ _ _ _ Hr He2 Hm) as Hp2.
    destruct (Z.ltb_spec r 0).
    + eexists (inl r), _. split; [done|]. split; [done|]. by eapply placed_free.
    + eexists (inr _), e2. split; [done|]. split; [|done]. split; [done|]. split; [done|]. by apply Hv.
  - destruct (put_small_inv jsz e M n He Hn Hj ltac:(lia)) as (r & e1 & -> & Hr).
    cbn [mbind option_bind]. destruct r as [err|[[[id off] l] created]]; [by exists (inl err), e1|].
    pose proof Hr as (He1 & Hr1 & Hfit & _).
    destruct (write_value_inv jsz _ e1 M id off l value He1 Hfit Hne) as (r & e2 & -> & He2 & Hm & Hv).
    cbn [mbind option_bind]. pose proof (placed_mem _ _ _ _ _ _ _ _ _ _ Hr He2 Hm) as Hp2.
    destruct (Z.ltb_spec r 0).
    + eexists (inl r), _. split; [done|]. split; [done|].
      destruct created; [by eapply placed_free|]. eapply (placed_dead _ _ _ _ _ _ false); [|exact Hp2]. lia.
    + eexists (inr _), e2. split; [done|]. split; [|done]. split; [done|]. split; [done|]. by apply Hv.
Qed.

Lemma written_step jsz e0 M value c e e' :
  written jsz e0 M value c e -> 0 < ctx_size c ->
  einv jsz (pend_at (target_extent_id c) (ctx_size c)) e' M -> same_mem e e' ->
  writes_in FAST 0 jsz (devs (tiers e)) (devs (tiers e')) -> written jsz e0 M value c e'.
Proof.
  intros (Hp & Hs & Hv) Hpos He' Hm Hw. pose proof Hp as (He & _ & (u & v & _ & Ho & _) & _).
  split; [by eapply placed_mem|]. split; [done|]. pose proof Hm as (_ & -> & _).
  by rewrite (value_of_journal _ _ _ _ _ _ He Hw).
Qed.

(** ** Dropping the old slot *)

Lemma drop_slot_inv jsz e M kl :
  einv jsz (pend_at (extent_id kl) (klength kl)) e M -> 0 < klength kl ->
  is_Some (slots (em e) !! extent_id kl) -> einv jsz no_pend (drop_slot kl e) M.
Proof.
  intros He Hpos [[[l u] v] Hid]. unfold drop_slot. set (id := extent_id kl) in *.
  pose proof (lay_live _ _ _ _ _ (ei_lay _ _ _ _ He) _ _ _ _ Hid) as Hlive.
  pose proof (live_sum_nonneg _ id (layout_positive _ _ _ _ _ (ei_lay _ _ _ _ He))) as Hnn.
  unfold pend_at in Hlive. rewrite Z.eqb_refl in Hlive.
  set (e1 := upd_em (mark_dead_slot id (klength kl)) e).
  assert (einv jsz no_pend e1 M) as He1.
  { eapply einv_pend; [|eapply (einv_mark_dead jsz _ e M id l u v); [exact He|done|lia]].
    intros i _. unfold no_pend, pend_at. case_match; lia. }
  destruct (einv_extent _ _ _ _ _ _ _ _ He Hid) as (_ & _ & _ & _ & _ & _ & _ & _ & ? & ? & ?).
  assert (slots (em e1) !! id = Some (l, u, v - klength kl)) as Hid1.
  { assert (em e1 = mark_dead_slot id (klength kl) (em e)) as -> by done.
    rewrite (slots_mark_dead _ _ _ l u v Hid) by (unfold HEADER_SIZE in *; lia).
    rewrite lookup_insert_eq. do 2 f_equal. lia. }
  assert (get_live_bytes id (em e1) = v - klength kl) as ->.
  { destruct (slots_Some _ _ _ _ _ Hid1) as (en & Hen & _ & _ & <-). unfold get_live_bytes, ExtentMap.lookup. by rewrite Hen. }
  destruct (Z.eqb_spec (v - klength kl) 0) as [Hz|]; [|done].
  eapply einv_free; [done| |done]. apply live_sum_zero; [eapply layout_positive, He|].
  change (KeyMap.abs (km e1)) with (KeyMap.abs (km e)). lia.
Qed.

Lemma einv_km jsz pend pend' e M M' km' :
  einv jsz pend e M -> KeyMap.inv km' ->
  layout (slots (em e)) (KeyMap.abs km') (devs (tiers e)) pend' M' ->
  einv jsz pend' (upd_km (fun _ => km') e) M'.
Proof. intros [Hi Hs Hb Hc Hd Hl Hk Hj] Hk' Hl'. by split. Qed.

Lemma put_commit_inv jsz e0 M value c e key :
  written jsz e0 M value c e -> 0 < ctx_size c -> old_kloc c = KeyMap.lookup (km e) key ->
  einv jsz no_pend (put_commit_memory_state key c e) (<[key := value]> M).
Proof.
  intros (Hp & Hs & Hv) Hpos Hold. pose proof Hp as (He & _ & (u & v & Hid & Ho & Hu & Hnv & Hfr) & _).
  unfold put_commit_memory_state. set (e1 := upd_km _ e). set (lba := offset _ +64 _ +64 _) in e1.
  assert (KeyMap.abs (km e1) = <[key := ctx_kloc c]> (KeyMap.abs (km e))) as Habs
    by (apply (KeyMap.abs_apply (km e) (KeyMap.Put key (ctx_kloc c) lba))).
  rewrite KeyMap.lookup_abs in Hold.
  assert (einv jsz (pend_old (old_kloc c)) e1 (<[key := value]> M)) as He1.
  { apply (einv_km jsz _ _ e M _ (KeyMap.put (km e) key (ctx_kloc c) lba) He).
    - apply (KeyMap.apply_inv _ (KeyMap.Put key (ctx_kloc c) lba)), He.
    - change (KeyMap.put (km e) key (ctx_kloc c) lba) with (km e1). rewrite Habs, Hold.
      eapply layout_put; [apply He|exact Hid|done..]. }
  destruct (old_kloc c) as [kl|] eqn:Eo; [|exact He1]. symmetry in Hold.
  destruct (lay_slot _ _ _ _ _ (ei_lay _ _ _ _ He) key kl Hold) as (l0 & u0 & v0 & Hid0 & _ & ? & _).
  apply drop_slot_inv; [exact He1|done|]. by eexists.
Qed.

Lemma put_inv jsz e M key value now :
  einv jsz no_pend e M -> value_ok e value -> put_room e key ->
  exists r e', put key value now e = Some (r, e') /\
    (r = 0 /\ einv jsz no_pend e' (<[key := value]> M) \/ r < 0 /\ einv jsz no_pend e' M).
Proof.
  intros He Hval (Hn & Hkey & Hlen). unfold put. rewrite (ei_init _ _ _ _ He). cbn [negb].
  destruct (checkpoint_if_inv jsz no_pend e M Journal.is_near_full He) as (e1 & -> & He1 & Hm1 & _);
    [rewrite checkpoint_len; lia|].
  cbn [mbind option_bind]. pose proof Hm1 as (Ecfg1 & Eem1 & Ekm1 & Ejd1).
  destruct (put_write_data_inv jsz e1 M value now (KeyMap.lookup (km e1) key) He1) as (r & e2 & -> & Hr);
    [unfold value_ok; by rewrite Eem1|by rewrite Eem1|lia|].
  cbn [mbind option_bind]. destruct r as [err|c]; [exists err, e2; split; [done|right]; split; apply Hr|].
  destruct Hr as [Hwr Hold].
  assert (0 < ctx_size c) as Hpos.
  { destruct Hwr as (_ & -> & _), Hval as [Hne _]. destruct value; simpl; [done|lia]. }
  set (e3 := upd_em _ e2). assert (written jsz e1 M value c e3) as Hw3.
  { destruct Hwr as ((He2 & Hr2 & Hfit & Hnk & Hsl) & Hs & Hv).
    assert (slots (em e3) = slots (em e2)) as Es by apply slots_record_io. split; [|split; [done|by rewrite Es]].
    split; [apply (einv_same_slots jsz _ e2); [done|apply record_io_space|done]|]. split; [done|].
    split; [unfold fits_slot; by rewrite Es|]. split; [done|]. by rewrite Es. }
  pose proof Hw3 as ((He3 & (Ecfg3 & Ekm3 & Ejd3) & _ & _ & Hl3) & _). unfold put_journal_transaction.
  set (recs := _ ++ [key_put key (ctx_kloc c)]).
  assert (recs_len recs + 4117 <= jdata e3) as Hrl.
  { unfold recs. rewrite recs_len_app.
    assert (recs_len [key_put key (ctx_kloc c)] = 30 + Z.of_nat (List.length key)) as ->
      by (unfold recs_len; rewrite sumZ_cons, sumZ_nil; unfold rec_len; cbn; lia).
    assert (recs_len (match old_kloc c with Some kl => [mark_dead kl] | None => [] end) <= 30) by (by destruct (old_kloc c)). lia. }
  destruct (transaction_inv jsz _ e3 M recs He3 Hrl) as (r & e4 & -> & He4 & Hm4 & Hwr4).
  cbn [mbind option_bind]. pose proof (written_step _ _ _ _ _ _ _ Hw3 Hpos He4 Hm4 Hwr4) as Hw4.
  pose proof Hm4 as (Ecfg4 & Eem4 & Ekm4 & Ejd4).
  destruct (Z.ltb_spec r 0).
  - eexists r, _. split; [done|]. right. split; [done|]. unfold put_cleanup_on_failure. destruct Hw4 as (Hp4 & _).
    destruct (new_extent_created c); [by eapply placed_free|]. eapply placed_dead; [|exact Hp4]. lia.
  - destruct (checkpoint_if_inv jsz _ e4 M Journal.needs_checkpoint He4) as (e5 & -> & He5 & Hm5 & Hwr5).
    { rewrite checkpoint_len, Eem4, Ekm4. rewrite Eem1, Ekm1 in Hl3. lia. }
    cbn [mbind option_bind]. pose proof (written_step _ _ _ _ _ _ _ Hw4 Hpos He5 Hm5 Hwr5) as Hw5.
    eexists 0, _. split; [done|]. left. split; [done|]. eapply put_commit_inv; [done|done|].
    destruct Hm5 as (_ & _ & -> & _). by rewrite Ekm4, Ekm3, Hold.
Qed.

(** ** get and del *)

Lemma get_inv jsz e M key now :
  einv jsz no_pend e M ->
  exists r v e', get key now e = Some (r, v, e') /\ einv jsz no_pend e' M /\
    match M !! key with
    | None => r = - ENOENT
    | Some value => (r = 0 /\ v = value) \/ (r < 0 /\ forall kl l d, KeyMap.lookup (km e) key = Some kl ->
        get_location (extent_id kl) (em e) = Some l -> dev_of (tier l) (devs (tiers e)) = Some d ->
        (dev_read (offset l + HEADER_SIZE + koffset kl) (klength kl) true d).1 < 0)
    end.
Proof.
  intros He. unfold get. rewrite (ei_init _ _ _ _ He). cbn [negb].
  pose proof (lay_data _ _ _ _ _ (ei_lay _ _ _ _ He) key) as Hd. rewrite <- KeyMap.lookup_abs in Hd.
  destruct (KeyMap.lookup (km e) key) as [kl|] eqn:Ek.
  2: { exists (- ENOENT), [], e. split; [done|]. split; [done|]. cbn in Hd. by rewrite Hd. }
  pose proof Ek as Ek'. rewrite KeyMap.lookup_abs in Ek'.
  destruct (lay_slot _ _ _ _ _ (ei_lay _ _ _ _ He) key kl Ek') as (l & u & v & Hid & Ho & Hpos & Hu).
  destruct (einv_extent _ _ _ _ _ _ _ _ He Hid) as (en & d & Hen & Hloc & Hdev & ? & ? & ? & ? & ? & ?).
  unfold get_location at 1. unfold ExtentMap.lookup at 1. rewrite Hen. cbn [fmap option_fmap option_map].
  rewrite Hloc. set (e1 := upd_em _ e). unfold tier_read. change (devs (tiers e1)) with (devs (tiers e)). rewrite Hdev.
  cbn [mbind option_bind]. unfold HEADER_SIZE in *.
  rewrite (u64_small (offset l + 4096)), (u64_small (offset l + 4096 + koffset kl)) by lia.
  pose proof (read_spec d (offset l + 4096 + koffset kl) (klength kl) true) as Hread.
  cbn in Hd. unfold value_of in Hd. rewrite Hid in Hd. cbn [mbind option_bind] in Hd. rewrite Hdev in Hd. cbn in Hd. rewrite Hd.
  destruct (dev_read (offset l + 4096 + koffset kl) (klength kl) true d) as [r val] eqn:Er. cbn [fst snd] in Hread.
  eexists _, val, _. split; [done|]. split.
  - set (em1 := io_ref_dec (extent_id kl) (em e1)).
    apply (einv_same_slots jsz no_pend e M em1 He); unfold em1, e1.
    + eapply same_space_trans; [apply record_io_space|]. eapply same_space_trans; [apply io_ref_inc_space|apply io_ref_dec_space].
    + rewrite slots_io_ref_dec. etrans; [apply slots_io_ref_inc|]. apply slots_record_io.
  - destruct (Z.ltb_spec r 0).
    + right. split; [done|]. intros kl' l' d' [= <-]. unfold get_location, ExtentMap.lookup. rewrite Hen. cbn. rewrite Hloc.
      intros [= <-]. rewrite Hdev. intros [= <-]. by rewrite Er.
    + left. split; [done|]. apply Hread; lia.
Qed.

Lemma del_inv jsz e M key :
  einv jsz no_pend e M -> Z.of_nat (List.length key) + 4177 <= jdata e ->
  exists r e', del key e = Some (r, e') /\
    match M !! key with
    | None => r = - ENOENT /\ e' = e
    | Some _ => r = 0 /\ einv jsz no_pend e' (delete key M) \/ r < 0 /\ einv jsz no_pend e' M
    end.
Proof.
  intros He Hkey. unfold del. rewrite (ei_init _ _ _ _ He). cbn [negb].
  pose proof (lay_data _ _ _ _ _ (ei_lay _ _ _ _ He) key) as Hd. rewrite <- KeyMap.lookup_abs in Hd.
  destruct (KeyMap.lookup (km e) key) as [kl|] eqn:Ek.
  2: { exists (- ENOENT), e. cbn in Hd. by rewrite Hd. }
  pose proof Ek as Ek'. rewrite KeyMap.lookup_abs in Ek'.
  destruct (lay_slot _ _ _ _ _ (ei_lay _ _ _ _ He) key kl Ek') as (l & u & v & Hid & Ho & Hpos & Hu).
  assert (is_Some (M !! key)) as [value Hval].
  { destruct (einv_extent _ _ _ _ _ _ _ _ He Hid) as (_ & d & _ & _ & Hdev & _).
    rewrite Hd. cbn. unfold value_of. rewrite Hid. cbn [mbind option_bind]. rewrite Hdev. by eexists. }
  destruct (transaction_inv jsz no_pend e M [key_del key; mark_dead kl] He) as (r & e1 & -> & He1 & Hm & _).
  { unfold recs_len. rewrite !sumZ_cons, sumZ_nil. unfold rec_len. cbn. lia. }
  cbn [mbind option_bind]. rewrite Hval. destruct (Z.ltb_spec r 0); [by exists r, e1; auto|].
  eexists 0, _. split; [done|]. left. split; [done|]. destruct Hm as (_ & Eem & Ekm & _).
  assert (KeyMap.abs (KeyMap.erase (km e1) key) = delete key (KeyMap.abs (km e1))) as Habs
    by apply (KeyMap.abs_apply (km e1) (KeyMap.Erase key)).
  apply drop_slot_inv; [|done|].
  - apply (einv_km jsz _ _ e1 M _ (KeyMap.erase (km e1) key) He1).
    + apply (KeyMap.apply_inv _ (KeyMap.Erase key)), He1.
    + rewrite Habs. apply layout_del; [apply He1|]. by rewrite Ekm.
  - change (is_Some (slots (em e1) !! extent_id kl)). rewrite Eem, Hid. by eexists.
Qed.
End Put.
End EnginePut.
