(* ===== verification/EngineSpec.v ===== *)
(** * The engine is a map from keys to values

    [sync], initialization on empty devices, and the refinement theorem: in any
    sequence of [put], [get], [del] and [sync], on any devices that meet the
    contract, the engine answers as the finite map does. *)
From stdpp Require Import base numbers list gmap sorting.
From Stdlib Require Import ZArith Lia.
From S2P Require Import Prelude IntArith IntervalSet Crc32 Allocator AvlAllocator AvlSpec Device BtierTypes KeyMap ExtentMap ExtentSpace Journal JournalSpec Layout Config Scoring Migration Engine EngineInv EnginePut.
Import BtierTypes Device ExtentMap ExtentSpace JournalFrame Layout Migration Engine EngineInv EnginePut.

Module EngineSpec.
Section Sync.
Context {A D : Type} `{Allocator.AllocatorSpec A} `{Hzero : !Allocator.FromZero A} `{Hremove : !Allocator.RemoveSpec A} `{DeviceSpec D}.
Implicit Types (e : Impl A D) (M : gmap bytes bytes) (ds : Devs D).

(** ** sync *)

Lemma upd_devs_twice ds1 ds2 e : upd_devs ds2 (upd_devs ds1 e) = upd_devs ds2 e.
Proof. done. Qed.

Lemma flush_header_inv jsz pend e M id ds :
  einv jsz pend (upd_devs ds e) M -> einv jsz pend (upd_devs (flush_header (em e) ds id) e) M.
Proof.
  intros He. unfold flush_header, ExtentMap.lookup. destruct (entries_ (em e) !! id) as [en|] eqn:Een; [|done].
  destruct (dev_of (tier (location en)) ds) as [d|] eqn:Hd; [|done].
  set (hdr := header_bytes _ _ _ _ _). rewrite <- (upd_devs_twice ds).
  assert (slots (em (upd_devs ds e)) !! id = Some (location en, used_bytes en, live_bytes en)) as Hid
    by (change (em (upd_devs ds e)) with (em e); by rewrite lookup_slots, Een).
  destruct (einv_extent _ _ _ _ _ _ _ _ He Hid) as (_ & _ & _ & _ & _ & _ & _ & _ & ? & _).
  apply (einv_write jsz pend (upd_devs ds e) M (tier (location en)) (offset (location en) + 0) 4096); [done| |].
  - rewrite Z.add_0_r. pose proof (dev_write_in (tier (location en)) (offset (location en)) hdr false ds d
      (einv_both _ _ _ _ He) Hd) as Hw. unfold hdr in Hw at 1. rewrite length_header in Hw. exact Hw.
  - eapply clear_extent; try done; unfold HEADER_SIZE in *; [lia|]. left. lia.
Qed.

Lemma flush_list_inv jsz pend e M ids : forall ds,
  einv jsz pend (upd_devs ds e) M -> einv jsz pend (upd_devs (foldl (flush_header (em e)) ds ids) e) M.
Proof.
  induction ids as [|id ids IH]; intros ds He; [done|]. cbn [foldl]. by apply IH, flush_header_inv.
Qed.

Lemma upd_devs_id e : upd_devs (devs (tiers e)) e = e.
Proof. by destruct e as [c [? ? ? ? ? ?] j i]. Qed.

Lemma sync_inv jsz e M :
  einv jsz no_pend e M -> exists e', sync e = Some (0, e') /\ einv jsz no_pend e' M /\
    cfg e' = cfg e /\ km e' = km e /\ jdata e' = jdata e /\ slots (em e') = slots (em e) /\
    next_extent_id (em e') = next_extent_id (em e) /\ block_size (em e') = block_size (em e).
Proof.
  intros He. unfold sync. rewrite (ei_init _ _ _ _ He). cbn [negb].
  unfold flush_dirty_headers. set (ids := merge_sort _ _). set (ds := foldl _ _ ids).
  assert (einv jsz no_pend (upd_devs ds e) M) as He1 by (apply flush_list_inv; by rewrite upd_devs_id).
  set (e1 := upd_devs ds (upd_em (fun _ => set_dirty ∅ (em e)) e)).
  assert (einv jsz no_pend e1 M) as He2 by (by apply (einv_same_slots jsz no_pend (upd_devs ds e))).
  destruct (with_journal_inv jsz no_pend e1 M (fun j d => (0, j, Journal.sync d)) He2) as (r & e2 & -> & He3 & Hm & _).
  { intros j d _ Hok. exists 0, j, (Journal.sync d). split; [done|]. split; [done|]. split; [done|]. apply frame_flush. }
  cbn [mbind option_bind]. destruct Hm as (Ec & Ee & Ek & Ej).
  destruct (ei_devs _ _ _ _ He3 SLOW) as (a & d & _ & Hd & _). rewrite Hd. eexists. split; [done|].
  split; [|change (cfg e2 = cfg e /\ km e2 = km e /\ jdata e2 = jdata e /\ slots (em e2) = slots (em e) /\
    next_extent_id (em e2) = next_extent_id (em e) /\ block_size (em e2) = block_size (em e));
    by rewrite Ec, Ek, Ej, Ee].
  eapply (einv_write _ _ _ _ SLOW 0 0); [done| |].
  - eapply writes_set; [by eapply einv_both|done|apply flush_size|]. intros. apply flush_spec.
  - intros k kl l u v Hk Hx _. right. destruct (einv_extent _ _ _ _ _ _ _ _ He3 Hx) as (_ & _ & _ & _ & _ & ? & _).
    destruct (lay_slot _ _ _ _ _ (ei_lay _ _ _ _ He3) k kl Hk) as (_ & _ & _ & _ & ? & _). unfold HEADER_SIZE. lia.
Qed.

(** ** Operations and their specification *)

Inductive eop :=
| OPut (key value : bytes) (now : Z)
| OGet (key : bytes) (now : Z)
| ODel (key : bytes)
| OSync.

Definition run (o : eop) (e : Impl A D) : option (Z * bytes * Impl A D) :=
  match o with
  | OPut key value now => '(r, e) ← put key value now e; Some (r, [], e)
  | OGet key now => get key now e
  | ODel key => '(r, e) ← del key e; Some (r, [], e)
  | OSync => '(r, e) ← sync e; Some (r, [], e)
  end.

Definition op_ok (o : eop) (e : Impl A D) : Prop :=
  match o with
  | OPut key value _ => value_ok e value /\ put_room e key
  | ODel key => Z.of_nat (List.length key) + 4177 <= jdata e
  | _ => True
  end.

(** The read that [get] makes failed on the device. *)
Definition read_failed (e : Impl A D) (key : bytes) : Prop :=
  forall kl l d, KeyMap.lookup (km e) key = Some kl -> get_location (extent_id kl) (em e) = Some l ->
    dev_of (tier l) (devs (tiers e)) = Some d ->
    (dev_read (offset l + HEADER_SIZE + koffset kl) (klength kl) true d).1 < 0.

(** What the finite map answers; an error of [put] or [del] leaves it as it was. *)
Definition spec (o : eop) (e : Impl A D) (M : gmap bytes bytes) (r : Z) (v : bytes) (M' : gmap bytes bytes) : Prop :=
  match o with
  | OPut key value _ => r = 0 /\ M' = <[key := value]> M \/ r < 0 /\ M' = M
  | OGet key _ => M' = M /\
      match M !! key with
      | Some value => r = 0 /\ v = value \/ r < 0 /\ read_failed e key
      | None => r = - ENOENT
      end
  | ODel key =>
      match M !! key with
      | Some _ => r = 0 /\ M' = delete key M \/ r < 0 /\ M' = M
      | None => r = - ENOENT /\ M' = M
      end
  | OSync => r = 0 /\ M' = M
  end.

Lemma run_inv jsz o e M :
  einv jsz no_pend e M -> op_ok o e ->
  exists r v e' M', run o e = Some (r, v, e') /\ spec o e M r v M' /\ einv jsz no_pend e' M'.
Proof.
  intros He Hok. destruct o as [key value now|key now|key|]; simpl in *.
  - destruct (put_inv jsz e M key value now He) as (r & e' & -> & Hr); [apply Hok..|]. simpl.
    destruct Hr as [[-> He']|[Hr He']]; eexists _, _, _, _; split_and!; try done; [by left|by right].
  - destruct (get_inv jsz e M key now He) as (r & v & e' & -> & He' & Hr). exists r, v, e', M. by split_and!.
  - destruct (del_inv jsz e M key He Hok) as (r & e' & -> & Hr). simpl. destruct (M !! key).
    + destruct Hr as [[-> He']|[Hr He']]; eexists _, _, _, _; split_and!; try done; [by left|by right].
    + destruct Hr as [-> ->]. by eexists _, _, _, M.
  - destruct (sync_inv jsz e M He) as (e' & -> & He' & _). by exists 0, [], e', M.
Qed.

(** Executions with the answers they gave. *)
Inductive trace : Impl A D -> list (eop * Z * bytes) -> Impl A D -> Prop :=
| t_nil e : trace e [] e
| t_cons e o r v e' tr e'' :
    op_ok o e -> run o e = Some (r, v, e') -> trace e' tr e'' -> trace e ((o, r, v) :: tr) e''.

(** The same answers, given by the finite map. *)
Inductive spec_trace : Impl A D -> gmap bytes bytes -> list (eop * Z * bytes) -> gmap bytes bytes -> Prop :=
| st_nil e M : spec_trace e M [] M
| st_cons e M o r v e' M' tr M'' :
    run o e = Some (r, v, e') -> spec o e M r v M' -> spec_trace e' M' tr M'' ->
    spec_trace e M ((o, r, v) :: tr) M''.

Lemma trace_inv jsz e tr e' M :
  trace e tr e' -> einv jsz no_pend e M -> exists M', spec_trace e M tr M' /\ einv jsz no_pend e' M'.
Proof.
  intros Ht. revert M. induction Ht as [e|e o r v e' tr e'' Hok Hrun _ IH]; intros M He; [exists M; by split; [constructor|]|].
  destruct (run_inv jsz o e M He Hok) as (r0 & v0 & e0 & M' & E & Hsp & He'). rewrite Hrun in E. simplify_eq.
  destruct (IH M' He') as (M'' & Hst & He''). exists M''. split; [|done]. by econstructor.
Qed.
End Sync.

(** ** Initialization *)

Section Init.
Context {A D : Type} `{Allocator.AllocatorSpec A} `{Hzero : !Allocator.FromZero A} `{Hremove : !Allocator.RemoveSpec A} `{DeviceSpec D} `{!ReliableDevice D}.
Implicit Types (e : Impl A D).

(** A new allocator has no free space. *)
Definition fresh_alloc (mk_alloc : Z -> Z -> A) (size bs : Z) : Prop :=
  Allocator.ok (mk_alloc size bs) /\ Allocator.free (mk_alloc size bs) = ∅ /\
  Allocator.get_capacity (mk_alloc size bs) = size /\ Allocator.get_block_size (mk_alloc size bs) = bs.

Lemma init_tier_spec mk_alloc size bs (em : ExtentMap A) t :
  fresh_alloc mk_alloc size bs -> 0 < bs -> 0 < size -> size mod bs = 0 ->
  alloc_of t em = Some (mk_alloc size bs) ->
  exists a, init_free_space_tier t em = Some (add_allocator t a em) /\ Allocator.ok a /\
    Allocator.get_capacity a = size /\ Allocator.get_block_size a = bs /\ Allocator.free a = zrange 0 size.
Proof.
  intros (Hok & Hf & Hc & Hb) Hbs Hs Hm Ha. unfold init_free_space_tier. rewrite Ha.
  destruct (Allocator.init_add_free_spec (mk_alloc size bs) 0 size Hok) as (a & E & Hok' & Hc' & Hb' & Hf');
    rewrite ?Hc, ?Hb, ?Hf, ?Allocator.from_zero; try done; try lia.
  rewrite E. exists a. split; [done|]. rewrite Hc', Hb', Hf', Hf. split_and!; try done. set_solver.
Qed.

Lemma init_space (em : ExtentMap A) fa sa js :
  entries_ em = ∅ -> deferred_free_ em = [] -> 0 < block_size em < 2 ^ 32 -> next_extent_id em = 1 ->
  fast_alloc em = Some fa -> slow_alloc em = Some sa -> Allocator.ok fa -> Allocator.ok sa ->
  Allocator.get_block_size fa = block_size em -> Allocator.get_block_size sa = block_size em ->
  zrange 0 js ## Allocator.free fa -> 0 < js < 2 ^ 32 -> js mod block_size em = 0 ->
  js <= Allocator.get_capacity fa -> space_ok em [jregion js].
Proof.
  intros He Hd Hb Hn Ef Es Hf Hs Bf Bs Hfree Hj Hjm Hc.
  assert (regions em [jregion js] = [jregion js]) as Er by (unfold regions; by rewrite He, Hd).
  split; [done|]. split; [by rewrite He|]. split; [lia|]. intros t. rewrite Er. intros a Ha.
  destruct t; cbn in Ha; rewrite ?Ef, ?Es in Ha; injection Ha as <-.
  - split; [done|]. split; [done|]. change (held FAST [jregion js]) with [ext_of (jregion js)].
    rewrite Allocator.extents_set_cons, Allocator.extents_set_nil, union_empty_r_L.
    split; [split; [rewrite Allocator.extents_set_nil; set_solver|done]|]. split; [exact Hfree|].
    apply Forall_singleton. intros _. unfold region_ok, jregion. cbn [offset length].
    split; [done|]. split; [by apply Z.mod_0_l; lia|]. split; [done|]. lia.
  - split; [done|]. split; [done|]. change (held SLOW [jregion js]) with (@nil Allocator.pextent_t).
    rewrite Allocator.extents_set_nil. split; [done|]. split; [set_solver|]. by apply Forall_singleton.
Qed.

Definition set_init (e : Impl A D) : Impl A D := mk_impl (cfg e) (tiers e) (journal e) true.

Lemma with_journal_init {R} (f : Journal.Journal -> D -> R * Journal.Journal * D) e :
  with_journal f (set_init e) = (fun p => (p.1, set_init p.2)) <$> with_journal f e.
Proof.
  unfold with_journal. cbn [set_init journal tiers cfg initialized]. destruct (journal e) as [j|]; [|done].
  cbn [mbind option_bind]. destruct (dev_of FAST (devs (tiers e))) as [d|]; [|done].
  cbn [mbind option_bind]. by destruct (f j d) as [[r j'] d'].
Qed.

Lemma journal_create_ok js (d : D) :
  reliable d -> JournalSpec.blank d -> 4096 < js -> js <= dev_size d < 2 ^ 62 ->
  exists j d', Journal.create js d = (j, d') /\ journal_ok js j /\ Journal.data_size j = js - 4096 /\
    frame js d d' /\ exists j', Journal.recover j d' = Some ([], j', d') /\ journal_ok js j' /\
      Journal.data_size j' = js - 4096.
Proof.
  intros Hr Hb Hjs Hds. destruct (JournalSpec.create_blank js d Hr Hb Hjs ltac:(lia)) as [Hi Hd].
  assert (frame js d (Journal.create js d).2 /\ Journal.active_txns_ (Journal.create js d).1 = ∅) as [Hf Ha].
  { unfold Journal.create. unfold Journal.read_superblock. set (j0 := Journal.mk_journal _ _ _ _ _).
    destruct (dev_read 0 4096 false d) as [r bl]. destruct (r <? 0); [done|]. destruct (_ <? _)%nat; [done|].
    destruct (negb (Journal.magic _ =? _)); [|done]. pose proof (write_superblock_frame js (Journal.set_sb Journal.fresh_sb 0 j0) d) as Hf.
    destruct (Journal.write_superblock _ d) as [r' d']. split; [|done]. apply Hf.
    unfold journal_ok. cbn [j0 Journal.set_sb Journal.data_size Journal.write_offset Journal.superblock_ Journal.active_txns_].
    unfold Journal.kSuperblockSize. destruct (Z.ltb_spec 4096 js); [|lia].
    split_and!; try lia; [by unfold Journal.fresh_sb; cbn [Journal.pad]; rewrite length_replicate|done]. }
  destruct (Journal.create js d) as [j d'] eqn:Ecr. cbn [fst snd] in *.
  destruct Hi as (ts & Hlog & Hj & _ & Hw & _). cbn [fst snd] in *.
  pose proof (JournalSpec.log_inv_bounds _ _ _ Hlog) as [Hbd _].
  pose proof Hlog as (_ & Hsb & _ & _ & _ & _ & Hlt & _).
  assert (forall j1, Journal.data_size j1 = js - 4096 -> Journal.superblock_ j1 = Journal.superblock_ j ->
    Journal.write_offset j1 = Journal.write_offset j -> Journal.active_txns_ j1 = ∅ -> journal_ok js j1) as Hmk.
  { intros j1 E1 E2 E3 E4. unfold journal_ok, Journal.kSuperblockSize. rewrite E1, E2, E3. split_and!; try done; try lia; [].
    apply Hsb. }
  exists j, d'. split; [done|]. split; [by apply Hmk|]. split; [done|]. split; [done|].
  eexists. rewrite (JournalSpec.recover_spec j j d' ts Hlog eq_refl), Hj. split; [done|]. split; [by apply Hmk|done].
Qed.

(** The geometry that the engine is configured with. *)
Definition config_ok (c : Config.BtierConfig) (fsz ssz : Z) : Prop :=
  0 < Config.block_size c < 2 ^ 32 /\ Config.block_size c mod HEADER_SIZE = 0 /\
  0 <= Config.extent_size c /\ Config.extent_size c + Config.block_size c <= 2 ^ 31 /\
  fsz mod Config.block_size c = 0 /\ ssz mod Config.block_size c = 0 /\ 0 < ssz < 2 ^ 62 /\
  Config.journal_size c mod Config.block_size c = 0 /\
  3 * 4096 <= Config.journal_size c < 2 ^ 32 /\ Config.journal_size c <= fsz < 2 ^ 62.

Lemma init_blank mk_alloc c r1 r2 (fd sd : D) e0 :
  config_ok c (dev_size fd) (dev_size sd) -> 0 <= r1 -> 0 <= r2 -> reliable fd -> JournalSpec.blank fd ->
  fresh_alloc mk_alloc (dev_size fd) (Config.block_size c) ->
  fresh_alloc mk_alloc (dev_size sd) (Config.block_size c) ->
  exists e, init mk_alloc c (r1, fd) (r2, sd) e0 = Some (0, e) /\
    einv (Config.journal_size c) no_pend e ∅ /\ jdata e = Config.journal_size c - 4096 /\
    next_extent_id (em e) = 1 /\ slots (em e) = ∅ /\ block_size (em e) = Config.block_size c.
Proof.
  intros (Hbs & Hbm & Hes & Hes2 & Hfm & Hsm & Hss & Hjm & Hj & Hjf) Hr1 Hr2 Hrel Hbl Hfa Hsa.
  set (bs := Config.block_size c) in *. set (js := Config.journal_size c) in *. unfold init.
  destruct (Z.ltb_spec r1 0); [lia|]. destruct (Z.ltb_spec r2 0); [lia|]. cbv zeta. fold bs js.
  destruct (Z.ltb_spec (dev_size fd) js); [lia|].
  set (em1 := add_allocator SLOW _ _). unfold init_free_space.
  destruct (init_tier_spec mk_alloc (dev_size fd) bs em1 FAST Hfa ltac:(lia) ltac:(lia) Hfm eq_refl)
    as (fa & -> & Hfok & Hfc & Hfb & Hff). cbn [mbind option_bind].
  destruct (init_tier_spec mk_alloc (dev_size sd) bs (add_allocator FAST fa em1) SLOW Hsa ltac:(lia) ltac:(lia) Hsm eq_refl)
    as (sa & -> & Hsok & Hsc & Hsb & Hsf). cbn [mbind option_bind].
  set (em2 := add_allocator SLOW sa _). change (alloc_of FAST em2) with (Some fa). cbn [mbind option_bind].
  destruct (Allocator.init_rm_free_spec fa 0 js Hfok) as (fa' & -> & Hfok' & Hfc' & Hfb' & Hff');
    rewrite ?Hfc, ?Hfb, ?Hff; try done; try lia; [intros x; rewrite !elem_of_zrange; lia|].
  cbn [mbind option_bind]. set (em3 := add_allocator FAST fa' em2).
  destruct (journal_create_ok js fd Hrel Hbl ltac:(lia) ltac:(lia)) as (j & fd' & -> & _ & _ & [Hfs _] & j' & Erec & Hjok & Hjd).
  unfold journal_recover. cbn [journal mbind option_bind]. set (w := mk_tiering _ _ _ _ _ _).
  change (dev_of FAST (devs (tiers (mk_impl c w (Some j) false)))) with (Some fd'). cbn [mbind option_bind].
  rewrite Erec. cbn [mbind option_bind]. set (e1 := upd_devs _ _).
  assert (einv js no_pend (set_init e1) ∅) as He1.
  { split; try done.
    - change (em (set_init e1)) with em3. change (block_size em3) with bs in *.
      apply (init_space em3 fa' sa js); change (block_size em3) with bs; try done; try lia.
      rewrite Hff'. clear. set_solver.
    - intros t. destruct t; [exists fa', fd'|exists sa, sd]; cbn; split_and!; try done; lia.
    - apply KeyMap.empty_inv.
    - by exists j'. }
  destruct (with_journal_inv js no_pend (set_init e1) ∅ (Journal.checkpoint []) He1) as (r & e2 & E2 & He2 & Hm & _).
  { intros j1 d1 Hj1 Hok1. apply checkpoint_frame; [done|]. cbn in Hj1. simplify_eq. unfold recs_len. rewrite sumZ_nil. lia. }
  rewrite with_journal_init in E2. destruct (with_journal (Journal.checkpoint []) e1) as [[r' e2']|]; [|done].
  cbn in E2. simplify_eq. cbn [fmap option_fmap option_map mbind option_bind snd].
  eexists. split; [done|]. destruct Hm as (_ & Ee & _ & Ejd). cbn [set_init em tiers] in Ee.
  split; [exact He2|]. split; [rewrite <- Hjd; exact Ejd|].
  change (em (set_init e2')) with (em e2') in Ee. change (em (set_init e1)) with em3 in Ee.
  change (em (mk_impl (cfg e2') (tiers e2') (journal e2') true)) with (em e2'). rewrite Ee. done.
Qed.

(** ** The refinement theorem *)

End Init.

(** ** A small engine *)

Definition demo_config : Config.BtierConfig :=
  let d := Config.default_config in
  Config.mk_config [] [] 65536 4096 32768 (Config.base_weights d) (Config.low_watermark d)
    (Config.high_watermark d) 1000 16 4 (Config.promote_threshold d) (Config.demote_threshold d)
    (Config.compaction_dead_ratio d) (Config.compaction_usage_ratio d) 300 65536 65536.

Definition demo_disk : ramdisk := mk_ram ∅ 1048576 4096.
Definition mk_avl (size bs : Z) : Avl.AvlAllocator unit := Avl.create 80 size bs 0 tt.
Definition demo_impl : Type := Impl (Avl.AvlAllocator unit) ramdisk.
Definition demo_blank : demo_impl :=
  mk_impl demo_config (mk_tiering (ExtentMap.create 0 0) KeyMap.empty_keymap (mk_devs None None)
    Config.default_weights [] no_stats) None false.

#[local] Instance demo_allocator : Allocator.Allocator (Avl.AvlAllocator unit) := AvlSpec.avl_allocator 0.

Definition demo_init (c : Config.BtierConfig) (fd sd : ramdisk) : option (Z * demo_impl) :=
  init mk_avl c (0, fd) (0, sd) demo_blank.

(** Put two keys, overwrite one, delete the other. *)
Example engine_smoke :
  ('(_, e) ← demo_init demo_config demo_disk demo_disk;
   '(r1, e) ← put [1] [10; 11; 12] 5 e;
   '(r2, e) ← put [2] [20] 5 e;
   '(r3, e) ← put [1] [13; 14] 6 e;
   '(r4, e) ← del [2] e;
   '(r5, v, e) ← get [1] 7 e;
   '(r6, _, _) ← get [2] 7 e;
   Some (r1, r2, r3, r4, r5, v, r6)) = Some (0, 0, 0, 0, 0, [13; 14], -2).
Proof. vm_compute. reflexivity. Qed.

Lemma demo_fresh :
  fresh_alloc (H0 := AvlSpec.avl_allocator_spec 0) mk_avl (dev_size demo_disk) (Config.block_size demo_config).
Proof. destruct (AvlSpec.avl_create_ok 80 1048576 12) as [? ?]; [lia..|]. by split_and!. Qed.

Lemma demo_config_ok : config_ok demo_config (dev_size demo_disk) (dev_size demo_disk).
Proof. change (dev_size demo_disk) with 1048576. unfold config_ok, HEADER_SIZE. cbn [demo_config Config.block_size Config.extent_size Config.journal_size]. split_and!; try lia; reflexivity. Qed.

Lemma demo_disk_reliable : reliable demo_disk.
Proof. reflexivity. Qed.

Lemma demo_disk_blank : JournalSpec.blank demo_disk.
Proof. vm_compute. discriminate. Qed.

End EngineSpec.
