(* ===== verification/Findings.v ===== *)
(** * Findings

    Runs of the engine on devices in memory that end in a state the code does
    not mean to reach.  Each theorem evaluates the model on one input. *)
From stdpp Require Import base numbers list gmap.
From Stdlib Require Import ZArith Lia.
From S2P Require Import Prelude Allocator AvlAllocator AvlSpec Device BtierTypes KeyMap ExtentMap Journal Config Migration Engine EngineSpec.
Import BtierTypes Device ExtentMap Migration Engine EngineSpec.

Module Findings.
#[local] Existing Instance EngineSpec.demo_allocator.

(** The engine is opened again on the devices it left, after a crash. *)
Definition restart (c : Config.BtierConfig) (e : demo_impl) : option (Z * demo_impl) :=
  fd ← dev_of FAST (devs (tiers e)); sd ← dev_of SLOW (devs (tiers e)); demo_init c fd sd.

Definition value_of_key (key : bytes) (e : demo_impl) : option (Z * bytes) :=
  '(r, v, _) ← get key 9 e; Some (r, v).

(** After a restart, [used_bytes] of an extent is restored to the sum of the
    live lengths.  When an earlier slot of the extent is dead, the next slot is
    handed out inside a live one: a value that was put, acknowledged and
    recovered is overwritten by a later [put] of another key. *)
Theorem restart_overwrites_live_value :
  ('(_, e) ← demo_init demo_config demo_disk demo_disk;
   '(_, e) ← put [1] [10; 10; 10; 10] 5 e;
   '(_, e) ← put [2] [20; 21; 22; 23] 5 e;
   '(_, e) ← del [1] e;
   '(_, e) ← restart demo_config e;
   before ← value_of_key [2] e;
   '(r, e) ← put [3] [30; 31] 6 e;
   after ← value_of_key [2] e;
   Some (before, r, after)) = Some ((0, [20; 21; 22; 23]), 0, (0, [30; 31; 22; 23])).
Proof. vm_compute. reflexivity. Qed.

(** Ten keys, one after the other. *)
Definition put_all (n : nat) (e : demo_impl) : option (Z * demo_impl) :=
  foldl (fun acc i => '(_, e) ← acc; put [Z.of_nat i] [Z.of_nat i; 7] 5 e) (Some (0, e)) (seq 1 n).

(** [put] writes the checkpoint of phase 4 from the key map before phase 5
    puts the key into it.  When the journal is 80% full, the acknowledged key is
    neither in the checkpoint nor in the log behind it, and a restart loses it. *)
Theorem checkpoint_in_put_loses_key :
  ('(_, e) ← demo_init demo_config demo_disk demo_disk;
   '(r, e) ← put_all 10 e;
   before ← value_of_key [10] e;
   '(_, e) ← restart demo_config e;
   ninth ← value_of_key [9] e;
   tenth ← value_of_key [10] e;
   Some (r, before, ninth, tenth)) = Some (0, (0, [10; 7]), (0, [9; 7]), (- ENOENT, [])).
Proof. vm_compute. reflexivity. Qed.

(** An empty value counts no live bytes.  Deleting the last non-empty value
    of an extent frees the extent, and the keys with empty values in it are gone. *)
Theorem empty_value_lost :
  ('(_, e) ← demo_init demo_config demo_disk demo_disk;
   '(r1, e) ← put [1] [] 5 e;
   '(r2, e) ← put [2] [20] 5 e;
   before ← value_of_key [1] e;
   '(r3, e) ← del [2] e;
   after ← value_of_key [1] e;
   Some (r1, r2, before, r3, after)) = Some (0, 0, (0, []), 0, (- ENOENT, [])).
Proof. vm_compute. reflexivity. Qed.

(** Extents of 16 KiB, and a fast device with room for the journal and one of
    them. *)
Definition small_config (journal_size : Z) : Config.BtierConfig :=
  let d := Config.default_config in
  Config.mk_config [] [] 16384 4096 8192 (Config.base_weights d) (Config.low_watermark d)
    (Config.high_watermark d) 1000 16 4 (Config.promote_threshold d) (Config.demote_threshold d)
    (Config.compaction_dead_ratio d) (Config.compaction_usage_ratio d) 300 65536 journal_size.
Definition small_disk (journal_size : Z) : ramdisk := mk_ram ∅ (journal_size + 16384) 4096.

(** A promotion whose allocation falls back to the slow tier writes the data
    to the fast device at the offset it was given on the slow one.  The extent
    that lies there on the fast device is overwritten, and the promoted extent
    is committed to space that was never written. *)
Theorem promotion_fallback_corrupts :
  ('(_, e) ← demo_init (small_config 16384) (small_disk 16384) demo_disk;
   '(_, e) ← put [1] [10; 11; 12; 13] 5 e;
   '(_, e) ← put [2] (replicate (Z.to_nat 12288) 99) 5 e;
   tier_of_2 ← get_location 2 (em e);
   '(r, w) ← migrate_tier 2 SLOW FAST (tiers e);
   let e := set_tiers w e in
   '(r1, v1) ← value_of_key [1] e;
   '(r2, v2) ← value_of_key [2] e;
   Some (tier tier_of_2, r, r1, v1, r2, take 4 v2)) =
  Some (SLOW, COMMITTED, 0, [99; 99; 99; 99], 0, [0; 0; 0; 0]).
Proof. vm_compute. reflexivity. Qed.

(** Migrations are not journaled.  After a committed demotion whose old space
    was freed and given to another extent, the journal describes two extents in
    the same place, and opening the engine fails an assertion of the allocator. *)
Theorem migration_not_journaled :
  ('(_, e) ← demo_init (small_config 65536) (small_disk 65536) demo_disk;
   '(_, e) ← put [1] [10; 11; 12; 13] 5 e;
   '(r, w) ← migrate_tier 1 FAST SLOW (tiers e);
   em1 ← process_deferred_free (extent_map w);
   em2 ← process_deferred_free em1;
   em3 ← process_deferred_free em2;
   let e := set_tiers (set_em em3 w) e in
   '(r2, e) ← put [2] (replicate (Z.to_nat 8192) 99) 5 e;
   v1 ← value_of_key [1] e;
   Some (r, r2, v1, match restart (small_config 65536) e with None => true | Some _ => false end)) =
  Some (COMMITTED, 0, (0, [10; 11; 12; 13]), true).
Proof. vm_compute. reflexivity. Qed.

(** A transaction or checkpoint that is longer than the log is written from
    the start of the log beyond its end: [pad_and_write] wraps to 0 but does not
    check that the data fits.  Here the journal owns the first 8 KiB of the
    device, and a checkpoint of 200 extents changes bytes behind them. *)
Theorem checkpoint_overruns_journal :
  let '(j, d) := Journal.create 8192 demo_disk in
  let '(r, _, d') := Journal.checkpoint (replicate 200 (extent_new 5 (mk_loc 65536 65536 SLOW))) j d in
  r = 0 /\ image_range (image d) 8192 4 = [0; 0; 0; 0] /\ image_range (image d') 8192 4 = [0; 1; 5; 0].
Proof. vm_compute. split; [|split]; reflexivity. Qed.
End Findings.
