(* ===== verification/KeyValue.v ===== *)
(** * kv/key_value_db.h: transactions, merge operators and prefix iterators

    The types every key-value store shares ([src/kv/key_value_db.h],
    [src/kv/key_value_db.cc]) and the merge operators ([src/kv/merge_op]).  The
    two virtual interfaces are classes of operations with a class of laws: a
    whole-space iterator walks the full keys [prefix \0 key] in order, and a
    store gives its clients transactions and iterators over one prefix.
    [PrefixIterator] is built on the first and proved against its laws. *)
From stdpp Require Import base numbers list gmap.
From Stdlib Require Import ZArith Lia Sorted.
From S2P Require Import Prelude.

Module KeyValue.

Definition EINVAL : Z := 22.

(** ** Strings *)

(** [operator<] of [std::string]: bytes compare as [unsigned char]. *)
Fixpoint str_lt (a b : bytes) : bool :=
  match a, b with
  | _, [] => false
  | [], _ :: _ => true
  | x :: a, y :: b => (x <? y) || ((x =? y) && str_lt a b)
  end.

Definition str_eq (a b : bytes) : bool := bool_decide (a = b).

Definition encode_key (prefix key : bytes) : bytes := prefix ++ 0 :: key.

(** [find('\0')] and the two [substr]s; without a NUL the whole is the prefix. *)
Fixpoint decode_key (full_key : bytes) : bytes * bytes :=
  match full_key with
  | [] => ([], [])
  | c :: t => if c =? 0 then ([], t) else let '(p, k) := decode_key t in (c :: p, k)
  end.

(** ** Merge operators *)

(** [MergeOperator]: [merge] is [None] where it asserts. The two counters are
    the statistics of the object. *)
Record MergeOperator := mk_mop {
  name : bytes;
  merge_nonexistent : bytes -> bytes;
  merge : bytes -> bytes -> option bytes;
  merge_count_ : Z;
  merge_bytes_ : Z;
}.

Definition _record_merge (n : Z) (m : MergeOperator) : MergeOperator :=
  mk_mop (name m) (merge_nonexistent m) (merge m) (merge_count_ m +64 1) (merge_bytes_ m +64 n).

Definition reset_merge_stats (m : MergeOperator) : MergeOperator :=
  mk_mop (name m) (merge_nonexistent m) (merge m) 0 0.

(** [for (i < llen) out[i] ^= rdata[i]]. *)
Definition xor_merge (ldata rdata : bytes) : option bytes :=
  _ ← cxxlab_assert (length ldata =? length rdata)%nat;
  Some (zip_with Z.lxor ldata rdata).

(** [name()] is "bitwise_xor". *)
Definition XorMergeOperator : MergeOperator :=
  mk_mop [98; 105; 116; 119; 105; 115; 101; 95; 120; 111; 114] (fun r => r) xor_merge 0 0.

(** The words of the two arrays are added modulo [2^64]; [n] is [count]. *)
Fixpoint int64_add (n : nat) (out inp : bytes) : bytes :=
  match n with
  | O => out
  | S n =>
      le_bytes 8 (le_val (take 8 out) +64 le_val (take 8 inp)) ++ int64_add n (drop 8 out) (drop 8 inp)
  end.

Definition int64_merge (ldata rdata : bytes) : option bytes :=
  _ ← cxxlab_assert ((length ldata =? length rdata) && (length ldata mod 8 =? 0))%nat;
  Some (int64_add (length ldata / 8) ldata rdata).

(** [name()] is "int64_array". *)
Definition Int64ArrayMergeOperator : MergeOperator :=
  mk_mop [105; 110; 116; 54; 52; 95; 97; 114; 114; 97; 121] (fun r => r) int64_merge 0 0.

(** ** Transactions: the operations in the order they were added *)

Inductive OpType := SET | RMKEY | RMKEY_BY_PREFIX | RM_RANGE_KEYS | MERGE.

Record Op := mk_op {
  op_type : OpType;
  op_prefix : bytes;
  op_key : bytes;
  op_end : bytes;
  op_value : bytes;
}.

Definition Transaction := list Op.

Definition txn_set (prefix k bl : bytes) (t : Transaction) : Transaction :=
  t ++ [mk_op SET prefix k [] bl].
Definition txn_rmkey (prefix k : bytes) (t : Transaction) : Transaction :=
  t ++ [mk_op RMKEY prefix k [] []].
Definition txn_rmkeys_by_prefix (prefix : bytes) (t : Transaction) : Transaction :=
  t ++ [mk_op RMKEY_BY_PREFIX prefix [] [] []].
Definition txn_rm_range_keys (prefix start end_ : bytes) (t : Transaction) : Transaction :=
  t ++ [mk_op RM_RANGE_KEYS prefix start end_ []].
Definition txn_merge (prefix k value : bytes) (t : Transaction) : Transaction :=
  t ++ [mk_op MERGE prefix k [] value].

(** ** The order of strings *)

Lemma str_lt_irrefl a : str_lt a a = false.
Proof. induction a as [|x a IH]; simpl; [done|]. by rewrite Z.ltb_irrefl, Z.eqb_refl, IH. Qed.

Lemma str_lt_cons x a y b :
  str_lt (x :: a) (y :: b) = true <-> x < y \/ (x = y /\ str_lt a b = true).
Proof. simpl. rewrite orb_true_iff, andb_true_iff, Z.ltb_lt, Z.eqb_eq. done. Qed.

Lemma str_lt_trans a b c : str_lt a b = true -> str_lt b c = true -> str_lt a c = true.
Proof.
  revert b c. induction a as [|x a IH]; intros [|y b] [|z c]; try done.
  rewrite !str_lt_cons. intros [?|[-> ?]] [?|[-> ?]]; [lia..|]. right. eauto.
Qed.

Lemma str_lt_total a b : str_lt a b = false -> str_lt b a = false -> a = b.
Proof.
  revert b. induction a as [|x a IH]; intros [|y b]; simpl; try done.
  intros Hab Hba. zbool. assert (x = y) as -> by lia. f_equal.
  destruct H0; [lia|]. destruct H2; [lia|]. auto.
Qed.

Lemma str_lt_app p a b : str_lt (p ++ a) (p ++ b) = str_lt a b.
Proof. induction p as [|x p IH]; simpl; [done|]. by rewrite Z.ltb_irrefl, Z.eqb_refl, IH. Qed.

Lemma str_le_lt_trans a b c : str_lt b a = false -> str_lt b c = true -> str_lt a c = true.
Proof.
  intros H1 H2. destruct (str_lt a b) eqn:E; [by eapply str_lt_trans|].
  by rewrite (str_lt_total a b).
Qed.
Lemma str_lt_le_trans a b c : str_lt a b = true -> str_lt c b = false -> str_lt a c = true.
Proof.
  intros H1 H2. destruct (str_lt b c) eqn:E; [by eapply str_lt_trans|].
  by rewrite (str_lt_total c b).
Qed.
Lemma str_lt_asym a b : str_lt a b = true -> str_lt b a = false.
Proof.
  intros H. destruct (str_lt b a) eqn:E; [|done].
  by rewrite <- (str_lt_irrefl a), (str_lt_trans a b a).
Qed.

(** ** Encoded keys *)

(** A prefix of the code's namespaces holds no NUL. *)
Definition nul_free (p : bytes) : Prop := Forall (fun c => c <> 0) p.
#[global] Instance nul_free_dec p : Decision (nul_free p).
Proof. unfold nul_free. apply _. Defined.

Lemma decode_encode p k : nul_free p -> decode_key (encode_key p k) = (p, k).
Proof.
  unfold encode_key. induction 1 as [|c p Hc _ IH]; simpl; [done|].
  destruct (Z.eqb_spec c 0); [done|]. by rewrite IH.
Qed.

Lemma encode_key_inj p k q j : nul_free p -> nul_free q -> encode_key p k = encode_key q j -> p = q /\ k = j.
Proof.
  intros Hp Hq E. apply (f_equal decode_key) in E. rewrite !decode_encode in E by done. by injection E.
Qed.

Lemma decode_nul_free s : nul_free (decode_key s).1.
Proof.
  induction s as [|c s IH]; simpl; [by constructor|]. destruct (Z.eqb_spec c 0); [by constructor|].
  destruct (decode_key s) as [p k]. constructor; done.
Qed.

Lemma encode_lt p j k : str_lt (encode_key p j) (encode_key p k) = str_lt j k.
Proof. unfold encode_key. rewrite str_lt_app. simpl. done. Qed.

(** [s.compare(0, n, start) == 0]. *)
Definition starts_with (start s : bytes) : bool := str_eq (take (length start) s) start.

Lemma starts_with_spec start s : starts_with start s = true <-> exists r, s = start ++ r.
Proof.
  unfold starts_with, str_eq. rewrite bool_decide_eq_true. split.
  - intros E. exists (drop (length start) s). by rewrite <- E, take_drop at 1.
  - intros [r ->]. by rewrite take_app_length.
Qed.

Lemma starts_with_encode p q k :
  nul_free p -> nul_free q -> starts_with (encode_key p []) (encode_key q k) = bool_decide (p = q).
Proof.
  intros Hp Hq. apply eq_true_iff_eq. rewrite starts_with_spec, bool_decide_eq_true. split.
  - intros [r E]. unfold encode_key in E. rewrite <- app_assoc in E. symmetry.
    by destruct (encode_key_inj q k p r Hq Hp E).
  - intros ->. exists k. unfold encode_key. by rewrite <- app_assoc.
Qed.

(** The keys of a prefix are an interval of the order. *)
Lemma starts_with_interval start s t :
  str_lt s start = false -> str_lt s t = true -> starts_with start t = true -> starts_with start s = true.
Proof.
  rewrite !starts_with_spec. intros Hs Hst [r ->].
  revert s Hs Hst. induction start as [|c start IH]; intros s Hs Hst; [by exists s|].
  destruct s as [|x s]; [done|]. cbn [app] in Hst. apply str_lt_cons in Hst.
  simpl in Hs. zbool. destruct Hst as [?|[-> ?]]; [lia|].
  destruct H0 as [?|?]; [lia|]. destruct (IH s) as [r' ->]; try done. by exists r'.
Qed.

(** A stored key holds the NUL that [encode_key] writes. *)
Lemma encode_decode s : 0 ∈ s -> s = encode_key (decode_key s).1 (decode_key s).2.
Proof.
  induction s as [|c s IH]; [by intros ?%not_elem_of_nil|]. simpl.
  destruct (Z.eqb_spec c 0) as [->|Hc]; [done|].
  intros [?|Hs]%elem_of_cons; [done|]. specialize (IH Hs).
  destruct (decode_key s) as [p k]. simpl in *. by rewrite IH.
Qed.

Lemma encode_key_nul p k : 0 ∈ encode_key p k.
Proof. unfold encode_key. apply elem_of_app. right. apply elem_of_cons. by left. Qed.

(** ** Sorted pairs *)

Definition key_lt (a b : bytes * bytes) : Prop := str_lt a.1 b.1 = true.

(** The pairs of a store: in the order of the keys, every key encoded. *)
Definition wf_items (l : list (bytes * bytes)) : Prop :=
  StronglySorted key_lt l /\ Forall (fun kv => 0 ∈ kv.1) l.

Lemma sorted_lookup_unique l a b : StronglySorted key_lt l -> a ∈ l -> b ∈ l -> a.1 = b.1 -> a = b.
Proof.
  induction 1 as [|x l Hl IH Hx]; [by intros ?%not_elem_of_nil|].
  rewrite Forall_forall in Hx. intros [->|Ha]%elem_of_cons [->|Hb]%elem_of_cons E; try done; [| |by auto].
  - specialize (Hx b Hb). unfold key_lt in Hx. by rewrite E, str_lt_irrefl in Hx.
  - specialize (Hx a Ha). unfold key_lt in Hx. by rewrite E, str_lt_irrefl in Hx.
Qed.

Lemma filter_all {A} (P : A -> Prop) `{!forall x, Decision (P x)} l : Forall P l -> filter P l = l.
Proof. induction 1; [done|]. by rewrite filter_cons_True; f_equal. Qed.
Lemma filter_none {A} (P : A -> Prop) `{!forall x, Decision (P x)} l : Forall (fun x => ~ P x) l -> filter P l = [].
Proof. induction 1; [done|]. by rewrite filter_cons_False. Qed.

Lemma filter_ext_in {A} (P Q : A -> Prop) `{!forall x, Decision (P x)} `{!forall x, Decision (Q x)} l :
  Forall (fun x => P x <-> Q x) l -> filter P l = filter Q l.
Proof.
  induction 1 as [|x l Hx _ IH]; [done|]. rewrite !filter_cons, IH.
  destruct (decide (P x)), (decide (Q x)); tauto.
Qed.
Lemma sorted_filter {A} (R : A -> A -> Prop) (P : A -> Prop) `{!forall x, Decision (P x)} l :
  StronglySorted R l -> StronglySorted R (filter P l).
Proof.
  induction 1 as [|x l Hl IH Hx]; [constructor|]. rewrite filter_cons. case_decide; [|done].
  constructor; [done|]. rewrite Forall_forall in Hx |- *. intros y [_ Hy]%list_elem_of_filter. auto.
Qed.

(** In a list sorted by [R], a position found with a predicate that stays true
    splits the list into the elements that do not satisfy it and those that do. *)
Lemma span_filter {A} (R : A -> A -> Prop) (P : A -> Prop) (p : A -> bool) l :
  StronglySorted R l -> Forall P l ->
  (forall a b, P a -> P b -> R a b -> p a = true -> p b = true) ->
  span p l = (filter (fun a => p a = false) l, filter (fun a => p a = true) l).
Proof.
  intros Hl HP Hmono. induction l as [|a l IH]; [done|].
  inversion Hl as [|? ? Hl' Ha]; subst. inversion HP as [|? ? Pa HP']; subst. simpl.
  destruct (p a) eqn:E.
  - assert (Forall (fun b => p b = true) l) as Hall.
    { rewrite Forall_forall in Ha, HP' |- *. intros b Hb. eauto. }
    rewrite filter_cons_False by congruence. rewrite filter_cons_True by done.
    rewrite (filter_all (fun b => p b = true) l Hall), filter_none; [done|].
    eapply Forall_impl; [done|]. simpl. intros b ->. done.
  - rewrite IH by done. rewrite filter_cons_True by done. by rewrite filter_cons_False by congruence.
Qed.

(** ** What a store promises to its clients *)

(** The contents of a store: prefix and key to value. *)
Abbreviation kvmap := (gmap (bytes * bytes) bytes).
(** The functions of the operator registered for a prefix. *)
Abbreviation mop_fns := (bytes -> option ((bytes -> bytes) * (bytes -> bytes -> option bytes))).

Definition op_spec (mop : mop_fns) (o : Op) (m : kvmap) : option (Z * kvmap) :=
  let p := op_prefix o in
  match op_type o with
  | SET => Some (0, <[(p, op_key o) := op_value o]> m)
  | RMKEY => Some (0, delete (p, op_key o) m)
  | RMKEY_BY_PREFIX => Some (0, filter (fun kv => kv.1.1 <> p) m)
  | RM_RANGE_KEYS =>
      Some (0, filter (fun kv => ~ (kv.1.1 = p /\ str_lt kv.1.2 (op_key o) = false /\ str_lt kv.1.2 (op_end o) = true)) m)
  | MERGE =>
      match mop p with
      | None => Some (- EINVAL, m)
      | Some (fresh, comb) =>
          v ← match m !! (p, op_key o) with None => Some (fresh (op_value o)) | Some l => comb l (op_value o) end;
          Some (0, <[(p, op_key o) := v]> m)
      end
  end.

(** The operations apply one after the other; the first error ends the
    transaction, and what was applied before it stays. *)
Fixpoint txn_spec (mop : mop_fns) (t : Transaction) (m : kvmap) : option (Z * kvmap) :=
  match t with
  | [] => Some (0, m)
  | o :: t =>
      '(r, m) ← op_spec mop o m;
      if r <? 0 then Some (r, m) else txn_spec mop t m
  end.

Class KeyValueDB (DB It : Type) := {
  kv_submit : DB -> Transaction -> option (Z * DB);
  kv_get : DB -> bytes -> bytes -> Z * bytes;
  kv_get_iterator : DB -> bytes -> It;
  it_lower_bound : DB -> It -> bytes -> Z * It;
  it_valid : It -> option bool;
  it_next : It -> Z * It;
  it_key : It -> option bytes;
  it_value : It -> option bytes;
}.

(** [it_shows]: the pairs an iterator will still show. *)
Class KeyValueDBSpec (DB It : Type) `{!KeyValueDB DB It} := {
  kv_ok : DB -> Prop;
  kv_map : DB -> kvmap;
  kv_mop : DB -> mop_fns;
  it_ok : It -> Prop;
  it_shows : It -> list (bytes * bytes);

  kv_submit_spec db t : kv_ok db -> Forall (fun o => nul_free (op_prefix o)) t ->
    match txn_spec (kv_mop db) t (kv_map db) with
    | None => kv_submit db t = None
    | Some (r, m) => exists db', kv_submit db t = Some (r, db') /\ kv_ok db' /\ kv_map db' = m /\ (forall p, kv_mop db' p = kv_mop db p)
    end;
  kv_get_spec db p k : kv_ok db -> nul_free p ->
    kv_get db p k = match kv_map db !! (p, k) with None => (- ENOENT, []) | Some v => (0, v) end;
  it_lower_bound_spec db p : kv_ok db -> nul_free p ->
    exists it, it_lower_bound db (kv_get_iterator db p) [] = (0, it) /\ it_ok it /\
      StronglySorted key_lt (it_shows it) /\
      forall k v, (k, v) ∈ it_shows it <-> kv_map db !! (p, k) = Some v;
  it_valid_spec it : it_ok it -> it_valid it = Some (match it_shows it with [] => false | _ => true end);
  it_key_spec it k v l : it_ok it -> it_shows it = (k, v) :: l -> it_key it = Some k;
  it_value_spec it k v l : it_ok it -> it_shows it = (k, v) :: l -> it_value it = Some v;
  it_next_spec it k v l : it_ok it -> it_shows it = (k, v) :: l ->
    exists it', it_next it = (0, it') /\ it_ok it' /\ it_shows it' = l;
}.

End KeyValue.
