(* ===== verification/PrefixIterator.v ===== *)
(** * kv/key_value_db.cc: iterators

    The virtual [WholeSpaceIteratorImpl] as a class of operations with its laws,
    [PrefixIteratorImpl], which wraps one and shows the keys of one prefix, and
    what clients of a store rely on.

    A store's iterator points at its store and may look at it again when it
    seeks, so the seeks take the store.  The bounds passed by
    [set_iterate_lower_bound] and [set_iterate_upper_bound] are hints for
    RocksDB; the laws are those of a store that ignores them. *)
From stdpp Require Import base numbers list gmap sorting.
From Stdlib Require Import ZArith Lia Sorted.
From S2P Require Import Prelude KeyValue.
Import KeyValue.

Module PrefixIterator.

(** ** The interface of whole-space iterators *)

Class WholeSpaceIterator (DB W : Type) := {
  ws_seek_to_first : DB -> W -> Z * W;
  ws_seek_to_last : DB -> W -> Z * W;
  ws_lower_bound : DB -> W -> bytes -> Z * W;
  ws_upper_bound : DB -> W -> bytes -> Z * W;
  ws_valid : W -> bool;
  ws_next : W -> Z * W;
  ws_prev : W -> Z * W;
  ws_value : W -> option bytes;
  ws_status : W -> Z;
  ws_raw_key : W -> option (bytes * bytes);
  ws_raw_key_is_prefixed : W -> bytes -> option bool;
  set_iterate_lower_bound : bytes -> W -> W;
  set_iterate_upper_bound : bytes -> W -> W;
}.

(** What an iterator shows: the pairs of the store, and where in them it
    stands: what it has passed and what it will still show, starting with the
    current pair.  An iterator that is not valid has nothing to show. *)
Class WholeSpaceSpec (DB W : Type) `{!WholeSpaceIterator DB W} := {
  db_items : DB -> list (bytes * bytes);
  ws_ok : DB -> W -> Prop;
  ws_passed : W -> list (bytes * bytes);
  ws_rest : W -> list (bytes * bytes);

  ws_ok_items db w : ws_ok db w -> wf_items (db_items db);
  ws_valid_spec w : ws_valid w = match ws_rest w with [] => false | _ => true end;
  ws_raw_key_spec w : ws_raw_key w = (fun kv => decode_key kv.1) <$> head (ws_rest w);
  ws_value_spec w : ws_value w = snd <$> head (ws_rest w);
  ws_prefixed_spec w p : ws_raw_key_is_prefixed w p = (fun kv => str_eq (decode_key kv.1).1 p) <$> head (ws_rest w);

  ws_seek_to_first_spec db w : ws_ok db w ->
    exists w', ws_seek_to_first db w = (0, w') /\ ws_ok db w' /\
      ws_passed w' = [] /\ ws_rest w' = db_items db;
  ws_seek_to_last_spec db w : ws_ok db w ->
    exists w', ws_seek_to_last db w = (0, w') /\ ws_ok db w' /\
      (db_items db = [] /\ ws_rest w' = [] \/
       exists x, ws_rest w' = [x] /\ db_items db = ws_passed w' ++ [x]);
  ws_lower_bound_spec db w k : ws_ok db w ->
    exists w', ws_lower_bound db w k = (0, w') /\ ws_ok db w' /\
      ws_rest w' = (span (fun kv => negb (str_lt kv.1 k)) (db_items db)).2 /\
      (ws_rest w' <> [] -> ws_passed w' ++ ws_rest w' = db_items db);
  ws_upper_bound_spec db w k : ws_ok db w ->
    exists w', ws_upper_bound db w k = (0, w') /\ ws_ok db w' /\
      ws_rest w' = (span (fun kv => str_lt k kv.1) (db_items db)).2 /\
      (ws_rest w' <> [] -> ws_passed w' ++ ws_rest w' = db_items db);
  ws_next_spec db w : ws_ok db w ->
    exists w', ws_next w = (0, w') /\ ws_ok db w' /\ ws_rest w' = tail (ws_rest w) /\
      (ws_rest w' <> [] -> ws_passed w' ++ ws_rest w' = ws_passed w ++ ws_rest w);
  ws_prev_spec db w : ws_ok db w ->
    exists w', ws_prev w = (0, w') /\ ws_ok db w' /\
      ws_rest w' = match ws_rest w, last (ws_passed w) with [], _ | _, None => [] | r, Some x => x :: r end /\
      (ws_rest w' <> [] -> ws_passed w' ++ ws_rest w' = ws_passed w ++ ws_rest w);
  ws_hint_lower_spec db w b : ws_ok db w ->
    ws_ok db (set_iterate_lower_bound b w) /\
    ws_passed (set_iterate_lower_bound b w) = ws_passed w /\ ws_rest (set_iterate_lower_bound b w) = ws_rest w;
  ws_hint_upper_spec db w b : ws_ok db w ->
    ws_ok db (set_iterate_upper_bound b w) /\
    ws_passed (set_iterate_upper_bound b w) = ws_passed w /\ ws_rest (set_iterate_upper_bound b w) = ws_rest w;
}.

(** ** PrefixIteratorImpl *)

Record IteratorBounds := mk_bounds {
  bounds_lower : option bytes;
  bounds_upper : option bytes;
}.
Definition no_bounds : IteratorBounds := mk_bounds None None.

Section Ops.
Context {DB W : Type} `{!WholeSpaceIterator DB W}.

Record PrefixIteratorImpl := mk_pi {
  w_iter_ : W;
  prefix_ : bytes;
  prefix_start_ : bytes;
  prefix_next_ : bytes;
  seek_lower_bound_ : bytes;
  seek_upper_bound_ : bytes;
  upper_bound_ : bytes;
  upper_bound_set_ : bool;
}.

Definition with_w (w : W) (i : PrefixIteratorImpl) : PrefixIteratorImpl :=
  mk_pi w (prefix_ i) (prefix_start_ i) (prefix_next_ i) (seek_lower_bound_ i) (seek_upper_bound_ i)
    (upper_bound_ i) (upper_bound_set_ i).

(** The constructor. *)
Definition make_iterator (db : DB) (prefix : bytes) (w : W) (bounds : IteratorBounds) : PrefixIteratorImpl :=
  let prefix_start := encode_key prefix [] in
  let prefix_next := prefix ++ [1] in
  let '(seek_lower, w) :=
    match bounds_lower bounds with
    | Some b => (prefix_start ++ b, (ws_lower_bound db w (prefix_start ++ b)).2)
    | None => (prefix_start, w)
    end in
  let '(seek_upper, ub, ub_set) :=
    match bounds_upper bounds with
    | Some b => (prefix_start ++ b, b, true)
    | None => (prefix_next, [], false)
    end in
  let w := set_iterate_upper_bound seek_upper (set_iterate_lower_bound seek_lower w) in
  mk_pi w prefix prefix_start prefix_next seek_lower seek_upper ub ub_set.

Definition seek_to_first (db : DB) (i : PrefixIteratorImpl) : Z * PrefixIteratorImpl :=
  let '(r, w) := ws_lower_bound db (w_iter_ i) (seek_lower_bound_ i) in (r, with_w w i).

(** The loop of [seek_to_last] that steps back while the key has another
    prefix; [n] bounds the number of keys.  [None]: a read through an iterator
    that is not valid, or more than [2^n] steps. *)
Definition back_step (p : bytes) (w : W) : W + option W :=
  if ws_valid w then
    match ws_raw_key_is_prefixed w p with
    | None => inr None
    | Some true => inr (Some w)
    | Some false => inl (ws_prev w).2
    end
  else inr (Some w).

Definition seek_to_last (db : DB) (i : PrefixIteratorImpl) : option (Z * PrefixIteratorImpl) :=
  let '(r, w) := ws_upper_bound db (w_iter_ i) (prefix_next_ i) in
  if negb (r =? 0) then Some (r, with_w w i) else
  if ws_valid w then let '(r, w) := ws_prev w in Some (r, with_w w i) else
  let '(r, w) := ws_seek_to_last db w in
  if negb (r =? 0) then Some (r, with_w w i) else
  w ← mjoin (while (back_step (prefix_ i)) 64 w);
  Some (0, with_w w i).

Definition lower_bound (db : DB) (i : PrefixIteratorImpl) (to : bytes) : Z * PrefixIteratorImpl :=
  let '(r, w) := ws_lower_bound db (w_iter_ i) (prefix_start_ i ++ to) in (r, with_w w i).

Definition upper_bound (db : DB) (i : PrefixIteratorImpl) (after : bytes) : option (Z * PrefixIteratorImpl) :=
  let seek_upper := prefix_start_ i ++ after in
  let w := set_iterate_upper_bound seek_upper (w_iter_ i) in
  let i := mk_pi w (prefix_ i) (prefix_start_ i) (prefix_next_ i) (seek_lower_bound_ i) seek_upper after true in
  let '(r, w) := ws_lower_bound db w (prefix_start_ i ++ after) in
  if negb (r =? 0) then Some (r, with_w w i) else
  if ws_valid w then
    '(_, inner) ← ws_raw_key w;
    let w := if str_eq inner after then (ws_next w).2 else w in
    Some (0, with_w w i)
  else Some (0, with_w w i).

(** The short-circuit of [&&]: the key is read only from a valid iterator. *)
Definition valid (i : PrefixIteratorImpl) : option bool :=
  if ws_valid (w_iter_ i) then
    b ← ws_raw_key_is_prefixed (w_iter_ i) (prefix_ i);
    if (b : bool) then
      if upper_bound_set_ i then
        k ← ws_raw_key (w_iter_ i); Some (str_lt k.2 (upper_bound_ i))
      else Some true
    else Some false
  else Some false.

Definition next (i : PrefixIteratorImpl) : Z * PrefixIteratorImpl :=
  if negb (ws_valid (w_iter_ i)) then (- EINVAL, i) else (0, with_w (ws_next (w_iter_ i)).2 i).

Definition prev (i : PrefixIteratorImpl) : Z * PrefixIteratorImpl :=
  if negb (ws_valid (w_iter_ i)) then (- EINVAL, i) else (0, with_w (ws_prev (w_iter_ i)).2 i).

Definition key (i : PrefixIteratorImpl) : option bytes := snd <$> ws_raw_key (w_iter_ i).
Definition value (i : PrefixIteratorImpl) : option bytes := ws_value (w_iter_ i).
Definition status (i : PrefixIteratorImpl) : Z := ws_status (w_iter_ i).

End Ops.
Arguments PrefixIteratorImpl : clear implicits.

(** The loop of a client: [while (it->valid()) { key(); value(); next(); }]. *)
Fixpoint drain {DB W} `{!WholeSpaceIterator DB W} (n : nat) (i : PrefixIteratorImpl W) : option (list (bytes * bytes)) :=
  match n with
  | O => None
  | S n =>
      b ← valid i;
      if (b : bool) then
        k ← key i; v ← value i; l ← drain n (next i).2; Some ((k, v) :: l)
      else Some []
  end.

(** ** What an iterator shows *)

Definition inner (kv : bytes * bytes) : bytes * bytes := ((decode_key kv.1).2, kv.2).

(** The pairs of prefix [p] with a key from [lo] on and below [hi]. *)
Definition in_range (p lo : bytes) (hi : option bytes) (kv : bytes * bytes) : Prop :=
  (decode_key kv.1).1 = p /\ str_lt (decode_key kv.1).2 lo = false /\
  match hi with None => True | Some h => str_lt (decode_key kv.1).2 h = true end.
#[global] Instance in_range_dec p lo hi kv : Decision (in_range p lo hi kv).
Proof. unfold in_range. destruct hi; apply _. Defined.

Definition prefix_range (p lo : bytes) (hi : option bytes) (l : list (bytes * bytes)) : list (bytes * bytes) :=
  inner <$> filter (in_range p lo hi) l.

Section Spec.
Context {DB W : Type} `{!WholeSpaceIterator DB W} `{!WholeSpaceSpec DB W}.
Implicit Types (i : PrefixIteratorImpl W) (db : DB) (w : W).

Definition shown (i : PrefixIteratorImpl W) (kv : bytes * bytes) : bool :=
  str_eq (decode_key kv.1).1 (prefix_ i) &&
  (if upper_bound_set_ i then str_lt (decode_key kv.1).2 (upper_bound_ i) else true).

Definition shows (i : PrefixIteratorImpl W) : list (bytes * bytes) :=
  inner <$> (span (fun kv => negb (shown i kv)) (ws_rest (w_iter_ i))).1.

(** The fields an iterator keeps from its constructor. *)
Definition pi_ok (db : DB) (i : PrefixIteratorImpl W) : Prop :=
  nul_free (prefix_ i) /\ prefix_start_ i = encode_key (prefix_ i) [] /\
  prefix_next_ i = prefix_ i ++ [1] /\ ws_ok db (w_iter_ i).

Definition hi_of (i : PrefixIteratorImpl W) : option bytes :=
  if upper_bound_set_ i then Some (upper_bound_ i) else None.

Lemma shows_cons i kv l :
  ws_rest (w_iter_ i) = kv :: l ->
  shows i = if shown i kv then inner kv :: (inner <$> (span (fun kv => negb (shown i kv)) l).1) else [].
Proof.
  intros E. unfold shows. rewrite E. simpl. destruct (shown i kv); simpl; [|done].
  by destruct (span _ l).
Qed.

Lemma valid_shows i : valid i = Some (match shows i with [] => false | _ => true end).
Proof.
  unfold valid. rewrite ws_valid_spec, ws_prefixed_spec, ws_raw_key_spec.
  destruct (ws_rest (w_iter_ i)) as [|kv l] eqn:E; [unfold shows; by rewrite E|].
  rewrite (shows_cons i kv l E). unfold shown. simpl.
  destruct (str_eq _ _), (upper_bound_set_ i); simpl; try done. by destruct (str_lt _ _).
Qed.

Lemma shows_head i k v l :
  shows i = (k, v) :: l ->
  exists kv r, ws_rest (w_iter_ i) = kv :: r /\ shown i kv = true /\ inner kv = (k, v) /\
    l = inner <$> (span (fun kv => negb (shown i kv)) r).1.
Proof.
  intros E. destruct (ws_rest (w_iter_ i)) as [|kv r] eqn:Er; [unfold shows in E; by rewrite Er in E|].
  rewrite (shows_cons i kv r Er) in E. destruct (shown i kv) eqn:Es; [|done].
  exists kv, r. split_and!; [done..|congruence|congruence].
Qed.

Lemma key_shows i k v l : shows i = (k, v) :: l -> key i = Some k.
Proof.
  intros (kv & r & E & _ & Hi & _)%shows_head. unfold key. rewrite ws_raw_key_spec, E. simpl.
  unfold inner in Hi. by injection Hi as ->.
Qed.
Lemma value_shows i k v l : shows i = (k, v) :: l -> value i = Some v.
Proof.
  intros (kv & r & E & _ & Hi & _)%shows_head. unfold value. rewrite ws_value_spec, E. simpl.
  unfold inner in Hi. by injection Hi as _ ->.
Qed.
Lemma next_shows db i k v l :
  pi_ok db i -> shows i = (k, v) :: l ->
  exists i', next i = (0, i') /\ pi_ok db i' /\ shows i' = l /\ length (ws_rest (w_iter_ i')) = pred (length (ws_rest (w_iter_ i))).
Proof.
  intros (Hp & Hs & Hn & Hok) (kv & r & E & _ & _ & ->)%shows_head.
  unfold next. rewrite ws_valid_spec, E. cbn [negb].
  destruct (ws_next_spec db (w_iter_ i) Hok) as (w' & -> & Hok' & Hr & _). rewrite E in Hr.
  eexists. split; [done|]. split; [done|]. unfold shows. simpl in *. by rewrite Hr.
Qed.

(** Draining shows what the iterator shows. *)
Lemma drain_shows db n i :
  pi_ok db i -> (length (ws_rest (w_iter_ i)) < n)%nat -> drain n i = Some (shows i).
Proof.
  revert i. induction n as [|n IH]; intros i Hok Hn; [lia|]. simpl. rewrite valid_shows. simpl.
  destruct (shows i) as [|[k v] l] eqn:E; [done|].
  rewrite (key_shows i k v l E), (value_shows i k v l E). simpl.
  destruct (next_shows db i k v l Hok E) as (i' & -> & Hok' & <- & Hl). simpl.
  destruct (shows_head i _ _ _ E) as (kv & r & Er & _). rewrite Er in Hn, Hl. simpl in *.
  rewrite (IH i' Hok'); [done|lia].
Qed.

(** The comparisons of [lower_bound] in terms of the decoded key. *)
Lemma encode_from_start p to :
  encode_key p to = encode_key p [] ++ to.
Proof. unfold encode_key. by rewrite <- app_assoc. Qed.

Lemma shown_in_range i lo kv :
  nul_free (prefix_ i) -> 0 ∈ kv.1 -> str_lt kv.1 (encode_key (prefix_ i) lo) = false ->
  shown i kv = true <-> in_range (prefix_ i) lo (hi_of i) kv.
Proof.
  intros Hp Hk Hlo. unfold shown, in_range, hi_of, str_eq.
  rewrite andb_true_iff, bool_decide_eq_true.
  assert ((decode_key kv.1).1 = prefix_ i -> str_lt (decode_key kv.1).2 lo = false) as Hx.
  { intros E. by rewrite (encode_decode kv.1 Hk), E, encode_lt in Hlo. }
  destruct (upper_bound_set_ i); naive_solver.
Qed.

(** The keys an iterator shows end where the prefix or the bound ends. *)
Lemma shown_mono i lo a b :
  nul_free (prefix_ i) -> 0 ∈ a.1 -> 0 ∈ b.1 ->
  str_lt a.1 (encode_key (prefix_ i) lo) = false -> key_lt a b -> shown i b = true -> shown i a = true.
Proof.
  intros Hp Ha Hb Hlo Hab Hshow. pose proof Hshow as Hb2.
  unfold shown in Hshow. apply andb_prop in Hshow as [Hpre Hub].
  unfold str_eq in Hpre. apply bool_decide_eq_true in Hpre.
  assert (starts_with (encode_key (prefix_ i) []) a.1 = true) as Hst.
  { apply (starts_with_interval _ _ b.1); [|exact Hab|].
    - destruct (str_lt a.1 (encode_key (prefix_ i) [])) eqn:E; [|done].
      rewrite <- Hlo. symmetry. eapply str_lt_le_trans; [exact E|].
      rewrite encode_lt. by destruct lo.
    - apply starts_with_spec. exists (decode_key b.1).2.
      rewrite (encode_decode b.1 Hb) at 1. by rewrite Hpre, encode_from_start. }
  rewrite (encode_decode a.1 Ha), starts_with_encode, bool_decide_eq_true in Hst by (done || apply decode_nul_free).
  unfold shown, str_eq. rewrite bool_decide_eq_true_2 by done. simpl.
  destruct (upper_bound_set_ i); [|done]. eapply str_lt_trans; [|exact Hub].
  rewrite <- (encode_lt (prefix_ i)). rewrite Hst at 1. rewrite <- Hpre at 1.
  rewrite <- !encode_decode by done. exact Hab.
Qed.

Lemma span_lower lo l :
  StronglySorted key_lt l ->
  span (fun kv => negb (str_lt kv.1 lo)) l =
  (filter (fun kv => negb (str_lt kv.1 lo) = false) l, filter (fun kv => negb (str_lt kv.1 lo) = true) l).
Proof.
  intros Hs. apply (span_filter key_lt (fun _ => True)); [done|by apply Forall_forall|].
  intros a b _ _ Hab. rewrite !negb_true_iff. intros Ha.
  destruct (str_lt b.1 lo) eqn:E; [|done]. by rewrite <- Ha, (str_lt_trans a.1 b.1).
Qed.

(** The keys found by a [lower_bound] of the underlying iterator. *)
Lemma shows_from i lo l :
  nul_free (prefix_ i) -> wf_items l ->
  ws_rest (w_iter_ i) = (span (fun kv => negb (str_lt kv.1 (encode_key (prefix_ i) lo))) l).2 ->
  shows i = prefix_range (prefix_ i) lo (hi_of i) l.
Proof.
  intros Hp [Hs Hk] Hr. unfold shows, prefix_range. f_equal. rewrite Hr, span_lower by done.
  cbn [snd]. set (l' := filter _ l).
  assert (Forall (fun kv => 0 ∈ kv.1 /\ str_lt kv.1 (encode_key (prefix_ i) lo) = false) l') as Hl'.
  { apply Forall_forall. intros kv [Hlo Hin]%list_elem_of_filter. rewrite Forall_forall in Hk.
    apply negb_true_iff in Hlo. auto. }
  rewrite (span_filter key_lt _ _ l' ltac:(by apply sorted_filter) Hl').
  2: { intros a b [Ha1 Ha2] [Hb1 Hb2] Hab. rewrite !negb_true_iff. intros Ha.
       destruct (shown i b) eqn:E; [|done]. by rewrite <- Ha, (shown_mono i lo a b). }
  cbn [fst]. subst l'. rewrite list_filter_filter. apply filter_ext_in.
  eapply Forall_impl; [exact Hk|]. intros kv Hkv. cbn beta. rewrite negb_false_iff, negb_true_iff. split.
  - intros [Hsh Hlo]. by apply shown_in_range.
  - intros Hin. assert (str_lt kv.1 (encode_key (prefix_ i) lo) = false) as Hlo; [|split; [|done]; by apply (shown_in_range i lo)].
    destruct Hin as (E & Hlo & _). by rewrite (encode_decode kv.1 Hkv), E, encode_lt.
Qed.

Lemma lower_bound_shows db i to :
  pi_ok db i ->
  exists i', lower_bound db i to = (0, i') /\ pi_ok db i' /\
    shows i' = prefix_range (prefix_ i) to (hi_of i) (db_items db) /\
    (length (ws_rest (w_iter_ i')) <= length (db_items db))%nat.
Proof.
  intros (Hp & Hs & Hn & Hok). unfold lower_bound. rewrite Hs, <- encode_from_start.
  pose proof (ws_ok_items db _ Hok) as Hwf.
  destruct (ws_lower_bound_spec db (w_iter_ i) (encode_key (prefix_ i) to) Hok) as (w' & -> & Hok' & Hr & _).
  eexists. split; [done|]. split; [done|]. split.
  - by apply (shows_from (with_w w' i) to).
  - cbn. rewrite Hr, span_lower by apply Hwf. apply length_filter.
Qed.

Lemma make_iterator_ok db p w b :
  nul_free p -> ws_ok db w ->
  pi_ok db (make_iterator db p w b) /\ prefix_ (make_iterator db p w b) = p /\
  hi_of (make_iterator db p w b) = bounds_upper b /\
  seek_lower_bound_ (make_iterator db p w b) = encode_key p [] ++ default [] (bounds_lower b).
Proof.
  intros Hp Hok. unfold make_iterator.
  destruct (ws_lower_bound_spec db w (encode_key p [] ++ default [] (bounds_lower b)) Hok) as (w' & E & Hok' & _).
  destruct b as [[lo|] [hi|]]; cbn -[encode_key] in *; rewrite ?E; cbn -[encode_key].
  all: split; [|by rewrite ?app_nil_r]; unfold pi_ok; cbn -[encode_key].
  all: split_and!; [done..|]; eapply ws_hint_upper_spec, ws_hint_lower_spec; done.
Qed.

(** [seek_to_first] is [lower_bound] of the user's lower bound. *)
Lemma seek_to_first_lower db p w b :
  seek_lower_bound_ (make_iterator db p w b) = encode_key p [] ++ default [] (bounds_lower b) ->
  prefix_start_ (make_iterator db p w b) = encode_key p [] ->
  seek_to_first db (make_iterator db p w b) = lower_bound db (make_iterator db p w b) (default [] (bounds_lower b)).
Proof. intros E1 E2. unfold seek_to_first, lower_bound. by rewrite E1, E2. Qed.

(** C28: an iterator over a prefix, with or without bounds, started by
    [seek_to_first] and advanced by [next] until it is not valid, shows exactly
    the pairs of its prefix whose keys are within the bounds, in the order of
    the keys, and ends; whatever other prefixes the store holds. *)
Theorem prefix_iterator_enumerates db p w b n :
  nul_free p -> ws_ok db w -> (length (db_items db) < n)%nat ->
  exists i, seek_to_first db (make_iterator db p w b) = (0, i) /\
    drain n i = Some (prefix_range p (default [] (bounds_lower b)) (bounds_upper b) (db_items db)).
Proof.
  intros Hp Hok Hn. destruct (make_iterator_ok db p w b Hp Hok) as (Hi & Ep & Eh & El).
  rewrite seek_to_first_lower by (done || (destruct Hi as (_ & -> & _); by rewrite Ep)).
  destruct (lower_bound_shows db _ (default [] (bounds_lower b)) Hi) as (i & -> & Hi' & Hs & Hl).
  exists i. split; [done|]. rewrite (drain_shows db), Hs, Ep, Eh by (done || lia). done.
Qed.

(** An iterator stands at [kv]. *)
Definition stands_at (w : W) (kv : bytes * bytes) : Prop := exists r, ws_rest w = kv :: r.

Lemma stands_valid i kv :
  stands_at (w_iter_ i) kv -> (decode_key kv.1).1 = prefix_ i -> upper_bound_set_ i = false ->
  valid i = Some true /\ key i = Some (inner kv).1 /\ value i = Some (inner kv).2.
Proof.
  intros [r E] Hp Hu. unfold valid, key, value. rewrite ws_valid_spec, ws_prefixed_spec, ws_raw_key_spec, ws_value_spec, E.
  simpl. unfold str_eq. by rewrite bool_decide_eq_true_2, Hu by done.
Qed.

Lemma not_prefixed_invalid i :
  match ws_rest (w_iter_ i) with [] => True | kv :: _ => (decode_key kv.1).1 <> prefix_ i end -> valid i = Some false.
Proof.
  unfold valid. rewrite ws_valid_spec, ws_prefixed_spec. destruct (ws_rest (w_iter_ i)) as [|kv r]; [done|].
  intros Hp. simpl. unfold str_eq. by rewrite bool_decide_eq_false_2.
Qed.

(** The last pair of a prefix in a list that ends with pairs of others. *)
Definition of_prefix (p : bytes) (kv : bytes * bytes) : Prop := (decode_key kv.1).1 = p.
#[local] Instance of_prefix_dec p kv : Decision (of_prefix p kv).
Proof. unfold of_prefix. apply _. Defined.

Lemma last_of_prefix p l kv r :
  Forall (fun kv => ~ of_prefix p kv) r -> of_prefix p kv -> last (filter (of_prefix p) (l ++ kv :: r)) = Some kv.
Proof.
  intros Hr Hkv. rewrite filter_app, filter_cons_True by done. rewrite (filter_none _ r) by done. apply last_snoc.
Qed.

(** The loop of [seek_to_last] ends at the last pair of the prefix. *)
Lemma back_loop db p w :
  ws_ok db w -> Z.of_nat (length (db_items db)) < 2 ^ 64 ->
  (ws_rest w = [] /\ db_items db = [] \/ exists x, ws_rest w = [x] /\ db_items db = ws_passed w ++ [x]) ->
  exists w', while (back_step p) 64 w = Some (Some w') /\ ws_ok db w' /\
    match last (filter (of_prefix p) (db_items db)) with
    | Some kv => stands_at w' kv
    | None => ws_rest w' = []
    end.
Proof.
  intros Hok Hlen Hw.
  set (I := fun w => ws_ok db w /\ Forall (fun kv => ~ of_prefix p kv) (tail (ws_rest w)) /\
    (ws_rest w = [] /\ Forall (fun kv => ~ of_prefix p kv) (db_items db) \/
     ws_rest w <> [] /\ ws_passed w ++ ws_rest w = db_items db)).
  set (m := fun w => match ws_rest w with [] => 0 | _ => 1 + Z.of_nat (length (ws_passed w)) end).
  set (Q := fun r => exists w', r = Some w' /\ ws_ok db w' /\
      match last (filter (of_prefix p) (db_items db)) with Some kv => stands_at w' kv | None => ws_rest w' = [] end).
  enough (exists r, while (back_step p) 64 w = Some r /\ Q r) as (r & Hr & w' & -> & Hok' & HQ) by eauto.
  apply (while_spec _ I m Q).
  - clear w Hok Hw. intros w (Hok & Ht & Hw). unfold back_step. rewrite ws_valid_spec, ws_prefixed_spec.
    destruct (ws_rest w) as [|kv r] eqn:E.
    { exists w. split_and!; try done. destruct Hw as [[_ Hall]|[? _]]; [|done].
      rewrite (filter_none (of_prefix p)) by done. done. }
    destruct Hw as [[? _]|[_ Hitems]]; [done|]. simpl in Ht |- *. unfold str_eq.
    case_bool_decide as Hp.
    { exists w. split_and!; try done. rewrite <- Hitems, (last_of_prefix p _ kv r Ht Hp). by exists r. }
    destruct (ws_prev_spec db w Hok) as (w' & -> & Hok' & Hr' & Hpass). cbn [snd]. rewrite E in Hr', Hpass.
    assert (Forall (fun kv => ~ of_prefix p kv) (kv :: r)) as Hall by (by constructor).
    unfold I, m. rewrite E.
    destruct (last (ws_passed w)) as [x|] eqn:El.
    + rewrite Hr' in Hpass |- *. specialize (Hpass ltac:(done)). split; [split_and!; try done|].
      { right. split; [done|]. congruence. }
      apply (f_equal length) in Hpass. rewrite !length_app in Hpass. simpl in Hpass. lia.
    + apply last_None in El. rewrite Hr'. split; [split_and!; try done|lia].
      left. split; [done|]. by rewrite <- Hitems, El.
  - unfold I. destruct Hw as [[Hr Hd]|(x & Hr & Hd)]; rewrite Hr, Hd; split_and!; try done; [by left|by right].
  - unfold m.
    destruct Hw as [[-> _]|(x & -> & Hd)]; [done|]. rewrite Hd, length_app in Hlen. simpl in Hlen.
    change (Z.of_nat 64) with 64. lia.
Qed.

(** No stored key lies between the keys of a prefix and the next prefix. *)
Lemma le_prefix_next p a kv :
  nul_free p -> 0 ∈ kv.1 -> of_prefix p a -> 0 ∈ a.1 -> key_lt a kv -> str_lt (p ++ [1]) kv.1 = false -> of_prefix p kv.
Proof.
  intros Hp Hk Ha Ha0 Hlt Hle. unfold of_prefix in *. unfold key_lt in Hlt. rewrite (encode_decode a.1 Ha0), Ha in Hlt.
  set (k := (decode_key a.1).2) in *. clearbody k. clear a Ha Ha0.
  destruct kv as [s v]. simpl in *. unfold encode_key in Hlt.
  revert s Hk Hlt Hle. induction Hp as [|c p Hc Hp IH]; intros s Hk Hlt Hle; destruct s as [|x s]; try done.
  - apply str_lt_cons in Hlt. cbn [app] in Hle. simpl in Hle |- *. zbool.
    destruct (Z.eqb_spec x 0); [done|]. assert (x = 1) as -> by (destruct Hlt; lia).
    destruct H0 as [?|?]; [done|]. destruct s; [|done].
    apply elem_of_cons in Hk as [?|Hk]; [done|]. by apply not_elem_of_nil in Hk.
  - cbn [app] in Hlt, Hle. apply str_lt_cons in Hlt. simpl in Hle |- *. zbool.
    assert (c = x) as -> by (destruct Hlt; lia). destruct (Z.eqb_spec x 0); [done|].
    destruct Hlt as [?|[_ Hlt]]; [lia|]. destruct H0 as [?|Hle]; zbool; [lia|].
    apply elem_of_cons in Hk as [?|Hk]; [done|]. specialize (IH s Hk Hlt Hle).
    destruct (decode_key s) as [q j]. simpl in *. by subst.
Qed.

Lemma span_upper lo l :
  StronglySorted key_lt l ->
  span (fun kv => str_lt lo kv.1) l =
  (filter (fun kv => str_lt lo kv.1 = false) l, filter (fun kv => str_lt lo kv.1 = true) l).
Proof.
  intros Hs. apply (span_filter key_lt (fun _ => True)); [done|by apply Forall_forall|].
  intros a b _ _ Hab Ha. by eapply str_lt_trans.
Qed.

Lemma of_prefix_below p kv : nul_free p -> 0 ∈ kv.1 -> of_prefix p kv -> str_lt (p ++ [1]) kv.1 = false.
Proof.
  unfold of_prefix. intros Hp Hk E. rewrite (encode_decode kv.1 Hk), E. unfold encode_key. by rewrite str_lt_app.
Qed.

(** What precedes the keys above the prefix ends with its last key. *)
Lemma before_next p l0 x r :
  nul_free p -> wf_items (l0 ++ x :: r) -> str_lt (p ++ [1]) x.1 = false ->
  Forall (fun kv => str_lt (p ++ [1]) kv.1 = true) r ->
  last (filter (of_prefix p) (l0 ++ x :: r)) = if decide (of_prefix p x) then Some x else None.
Proof.
  intros Hp [Hs Hk] Hx Hr. rewrite Forall_app, Forall_cons in Hk. destruct Hk as (Hk0 & Hkx & Hkr).
  assert (Forall (fun kv => ~ of_prefix p kv) r) as Hr'.
  { rewrite Forall_forall in Hr, Hkr |- *. intros kv Hin Hof.
    specialize (Hr kv Hin). by rewrite of_prefix_below in Hr by auto. }
  case_decide as Hof; [by apply last_of_prefix|].
  rewrite (filter_none (of_prefix p)); [done|]. rewrite Forall_app, Forall_cons. split_and!; try done.
  rewrite Forall_forall in Hk0 |- *. intros a Ha Haof. apply Hof.
  apply (le_prefix_next p a x); auto.
  apply StronglySorted_app in Hs as (Hs & _). apply Hs; [done|]. apply elem_of_cons. by left.
Qed.

(** [seek_to_last] of an iterator over a prefix without bounds stands at
    the last pair of the prefix, also when keys of other prefixes follow or the
    prefix is the last one; it is not valid exactly when the prefix is empty. *)
Theorem prefix_seek_to_last db p w :
  nul_free p -> ws_ok db w -> Z.of_nat (length (db_items db)) < 2 ^ 64 ->
  exists i, seek_to_last db (make_iterator db p w no_bounds) = Some (0, i) /\
    match last (prefix_range p [] None (db_items db)) with
    | Some kv => valid i = Some true /\ key i = Some kv.1 /\ value i = Some kv.2
    | None => valid i = Some false
    end.
Proof.
  intros Hp Hw Hlen. destruct (make_iterator_ok db p w no_bounds Hp Hw) as (Hi & Ep & Eh & _).
  set (i := make_iterator db p w no_bounds) in *. destruct Hi as (_ & _ & Hn & Hok).
  assert (upper_bound_set_ i = false) as Hu by done.
  assert (last (prefix_range p [] None (db_items db)) = inner <$> last (filter (of_prefix p) (db_items db))) as ->.
  { unfold prefix_range. rewrite fmap_last. do 2 f_equal. apply list_filter_iff.
    intros kv. unfold in_range, of_prefix. destruct (decode_key kv.1).2; naive_solver. }
  pose proof (ws_ok_items db _ Hok) as Hwf.
  unfold seek_to_last. rewrite Hn, Ep.
  destruct (ws_upper_bound_spec db (w_iter_ i) (p ++ [1]) Hok) as (w1 & -> & Hok1 & Hr1 & Hpass).
  cbn [negb Z.eqb]. rewrite ws_valid_spec. rewrite span_upper in Hr1 by apply Hwf. cbn [snd] in Hr1.
  destruct (ws_rest w1) as [|y r] eqn:E1.
  - destruct (ws_seek_to_last_spec db w1 Hok1) as (w2 & -> & Hok2 & Hw2). cbn [negb Z.eqb].
    destruct (back_loop db p w2 Hok2 Hlen) as (w3 & -> & Hok3 & H3); [naive_solver|].
    cbn [mjoin option_join mbind option_bind]. eexists. split; [done|].
    destruct (last _) as [kv|] eqn:El; simpl.
    + apply stands_valid; [done| |done]. apply last_Some in El as (l' & El). simpl.
      assert (kv ∈ filter (of_prefix p) (db_items db)) as [Hof _]%list_elem_of_filter by (rewrite El; set_solver).
      exact Hof.
    + apply not_prefixed_invalid. cbn. by rewrite H3.
  - specialize (Hpass ltac:(done)). destruct (ws_prev_spec db w1 Hok1) as (w2 & -> & Hok2 & Hr2 & _).
    eexists. split; [done|]. rewrite E1 in Hr2.
    assert (Forall (fun kv => str_lt (p ++ [1]) kv.1 = true) (y :: r)) as Habove.
    { rewrite Hr1. apply Forall_forall. by intros kv [? _]%list_elem_of_filter. }
    destruct (last (ws_passed w1)) as [x|] eqn:El.
    + apply last_Some in El as [l0 El]. rewrite El, <- app_assoc in Hpass. cbn [app] in Hpass.
      rewrite <- Hpass in *. rewrite before_next; try done.
      * case_decide as Hof; simpl.
        -- apply stands_valid; [by exists (y :: r)|exact Hof|done].
        -- apply not_prefixed_invalid. cbn. by rewrite Hr2.
      * destruct (str_lt (p ++ [1]) x.1) eqn:Ex; [|done]. exfalso.
        rewrite filter_app, filter_cons_True in Hr1 by done.
        apply (f_equal length) in Hr1. rewrite length_app in Hr1. simpl in Hr1.
        rewrite (filter_all _ (y :: r)) in Hr1 by done. simpl in Hr1. lia.
    + apply last_None in El. rewrite El in Hpass. simpl in Hpass. rewrite (filter_none (of_prefix p)).
      * apply not_prefixed_invalid. cbn. by rewrite Hr2.
      * rewrite <- Hpass. destruct Hwf as [_ Hk]. rewrite <- Hpass in Hk. rewrite Forall_forall in Hk, Habove |- *.
        intros kv Hin Hof. specialize (Habove kv Hin). by rewrite of_prefix_below in Habove by auto.
Qed.

(** [upper_bound(after)] is meant to move to the first key behind [after],
    but it also makes [after] the upper bound that [valid()] checks: whatever the
    store holds, the iterator is not valid after the call. *)
Theorem prefix_upper_bound_never_valid db p w b after :
  nul_free p -> ws_ok db w ->
  exists i, upper_bound db (make_iterator db p w b) after = Some (0, i) /\ valid i = Some false.
Proof.
  intros Hp Hw. destruct (make_iterator_ok db p w b Hp Hw) as ((_ & Hs & _ & Hok) & Ep & _).
  set (i := make_iterator db p w b) in *. unfold upper_bound. rewrite Hs, Ep, <- encode_from_start. cbn [prefix_start_].
  rewrite <- ?encode_from_start.
  destruct (ws_hint_upper_spec db (w_iter_ i) (encode_key p after) Hok) as (Hok' & _ & _).
  destruct (ws_lower_bound_spec db _ (encode_key p after) Hok') as (w1 & -> & Hok1 & Hr1 & _).
  cbn [negb Z.eqb]. rewrite ws_valid_spec, ws_raw_key_spec.
  destruct (ws_ok_items db _ Hok) as [Hsort Hk]. rewrite span_lower in Hr1 by done. cbn [snd] in Hr1.
  assert (Forall (fun kv => str_lt kv.1 (encode_key p after) = false /\ 0 ∈ kv.1) (ws_rest w1)) as Hall.
  { rewrite Hr1. apply Forall_forall. intros kv [E Hin]%list_elem_of_filter. apply negb_true_iff in E.
    rewrite Forall_forall in Hk. auto. }
  assert (forall w2 i2, Forall (fun kv => str_lt kv.1 (encode_key p after) = false /\ 0 ∈ kv.1) (ws_rest w2) ->
    prefix_ i2 = p -> upper_bound_ i2 = after -> upper_bound_set_ i2 = true -> valid (with_w w2 i2) = Some false) as Hinv.
  { intros w2 i2 H2 E1 E2 E3. rewrite valid_shows. destruct (ws_rest w2) as [|kv r] eqn:E; [unfold shows; cbn; by rewrite E|].
    rewrite (shows_cons (with_w w2 i2) kv r E). apply Forall_cons in H2 as [[Hge Hk0] _].
    unfold shown, str_eq. cbn. rewrite E1, E2, E3. case_bool_decide as Ek; [|done]. simpl.
    rewrite (encode_decode kv.1 Hk0), Ek, encode_lt in Hge. by rewrite Hge. }
  destruct (ws_rest w1) as [|kv r] eqn:E1; [eexists; split; [done|]; apply Hinv; by rewrite ?E1|].
  simpl. destruct (decode_key kv.1) as [q j]. simpl. eexists. split; [done|]. apply Hinv; try done.
  destruct (str_eq j after); [|by rewrite E1].
  destruct (ws_next_spec db w1 Hok1) as (w2 & -> & _ & Hr2 & _). cbn. rewrite Hr2, E1. by inversion Hall.
Qed.

End Spec.

End PrefixIterator.
