(* ===== verification/MemDB.v ===== *)
(** * kv/mem/mem_db.cc: the store in memory

    [db_] is a [std::map] from full keys to values, here the list of its pairs in
    order.  Iterators copy it and copy it again on a seek when [seqno_] shows
    that it changed.  The merge operators are objects shared with the caller:
    [merge_ops_] refers to them by position in [mops].  Every method holds
    [m_lock_], so it is one step; the performance counters are left out. *)
From stdpp Require Import base numbers list gmap sorting.
From Stdlib Require Import ZArith Lia Sorted.
From S2P Require Import Prelude KeyValue PrefixIterator.
Import KeyValue.

Module MemDB.

(** ** std::map *)

Fixpoint map_find (k : bytes) (l : list (bytes * bytes)) : option bytes :=
  match l with
  | [] => None
  | (k', v) :: t => if str_eq k k' then Some v else map_find k t
  end.

(** [m[k] = v]. *)
Fixpoint map_set (k v : bytes) (l : list (bytes * bytes)) : list (bytes * bytes) :=
  match l with
  | [] => [(k, v)]
  | (k', v') :: t =>
      if str_lt k k' then (k, v) :: l
      else if str_lt k' k then (k', v') :: map_set k v t
      else (k, v) :: t
  end.

Fixpoint map_erase (k : bytes) (l : list (bytes * bytes)) : list (bytes * bytes) :=
  match l with
  | [] => []
  | (k', v') :: t => if str_eq k k' then t else (k', v') :: map_erase k t
  end.

(** ** The store *)

Record MemDB := mk_memdb {
  db_ : list (bytes * bytes);
  seqno_ : Z;
  merge_ops_ : list (bytes * nat);
  mops : list MergeOperator;
}.

Definition empty_memdb (objs : list MergeOperator) : MemDB := mk_memdb [] 0 [] objs.

(** [set_merge_operator(prefix, mop)], [mop] being the object number [id]. *)
Definition set_merge_operator (prefix : bytes) (id : nat) (m : MemDB) : Z * MemDB :=
  (0, mk_memdb (db_ m) (seqno_ m) (merge_ops_ m ++ [(prefix, id)]) (mops m)).

(** The end of each operation: the new pairs, and [++seqno_]. *)
Definition changed (l : list (bytes * bytes)) (m : MemDB) : MemDB :=
  mk_memdb l (seqno_ m +64 1) (merge_ops_ m) (mops m).

Definition _set_key (full_key bl : bytes) (m : MemDB) : MemDB :=
  changed (map_set full_key bl (db_ m)) m.

Definition _rmkey (full_key : bytes) (m : MemDB) : MemDB :=
  changed (map_erase full_key (db_ m)) m.

(** [it = lower_bound(start); while (it != end && more(it)) it = erase(it)]. *)
Definition erase_from (start : bytes) (more : bytes -> bool) (l : list (bytes * bytes)) : list (bytes * bytes) :=
  let '(before, it) := span (fun kv => negb (str_lt kv.1 start)) l in
  before ++ (span (fun kv => negb (more kv.1)) it).2.

Definition _rmkeys_by_prefix (prefix : bytes) (m : MemDB) : MemDB :=
  let start := encode_key prefix [] in
  changed (erase_from start (starts_with start) (db_ m)) m.

Definition _rm_range_keys (prefix start end_ : bytes) (m : MemDB) : MemDB :=
  let s := encode_key prefix start in
  let e := encode_key prefix end_ in
  changed (erase_from s (fun k => str_lt k e) (db_ m)) m.

(** The operator of the first entry for [prefix], and which object it is. *)
Fixpoint find_mop (prefix : bytes) (l : list (bytes * nat)) : option nat :=
  match l with
  | [] => None
  | (p, id) :: t => if str_eq p prefix then Some id else find_mop prefix t
  end.

Definition _merge (prefix full_key bl : bytes) (m : MemDB) : option (Z * MemDB) :=
  match (id ← find_mop prefix (merge_ops_ m); mop ← mops m !! id; Some (id, mop)) with
  | None => Some (- EINVAL, m)
  | Some (id, mop) =>
      let rlen := Z.of_nat (length bl) in
      '(new_value, n) ←
        match map_find full_key (db_ m) with
        | None => Some (merge_nonexistent mop bl, rlen)
        | Some l => v ← merge mop l bl; Some (v, Z.of_nat (length l) + rlen)
        end;
      let m := changed (map_set full_key new_value (db_ m)) m in
      Some (0, mk_memdb (db_ m) (seqno_ m) (merge_ops_ m) (<[id := _record_merge n mop]> (mops m)))
  end.

(** One iteration of the loop of [submit_transaction]. *)
Definition apply_op (o : Op) (m : MemDB) : option (Z * MemDB) :=
  match op_type o with
  | SET => Some (0, _set_key (encode_key (op_prefix o) (op_key o)) (op_value o) m)
  | RMKEY => Some (0, _rmkey (encode_key (op_prefix o) (op_key o)) m)
  | RMKEY_BY_PREFIX => Some (0, _rmkeys_by_prefix (op_prefix o) m)
  | RM_RANGE_KEYS => Some (0, _rm_range_keys (op_prefix o) (op_key o) (op_end o) m)
  | MERGE => _merge (op_prefix o) (encode_key (op_prefix o) (op_key o)) (op_value o) m
  end.

Fixpoint submit_transaction (m : MemDB) (ops : Transaction) : option (Z * MemDB) :=
  match ops with
  | [] => Some (0, m)
  | o :: t =>
      '(r, m) ← apply_op o m;
      if r <? 0 then Some (r, m) else submit_transaction m t
  end.

Definition submit_transaction_sync := submit_transaction.

Definition close (m : MemDB) : MemDB := mk_memdb [] (seqno_ m) (merge_ops_ m) (mops m).

(** [get(prefix, keys, out)]: adds the keys that exist to [out]. *)
Definition get_keys (m : MemDB) (prefix : bytes) (keys : list bytes) (out : gmap bytes bytes) : Z * gmap bytes bytes :=
  (0, foldl (fun out k =>
         match map_find (encode_key prefix k) (db_ m) with
         | Some v => <[k := v]> out
         | None => out
         end) out keys).

(** [KeyValueDB::get(prefix, key, out)]. *)
Definition get (m : MemDB) (prefix key : bytes) : Z * bytes :=
  let '(r, result) := get_keys m prefix [key] ∅ in
  if negb (r =? 0) then (r, []) else
  match result !! key with
  | None => (- ENOENT, [])
  | Some bl => (0, bl)
  end.

Definition get_estimated_size (m : MemDB) : Z :=
  foldl (fun total kv => total +64 (Z.of_nat (length kv.1) + Z.of_nat (length kv.2))) 0 (db_ m).

(** [get_merge_op_stats]: prefix, name and counters. *)
Definition get_merge_op_stats (m : MemDB) : option (list (bytes * bytes * Z * Z)) :=
  mapM (fun x => mop ← mops m !! x.2; Some (x.1, name mop, merge_count_ mop, merge_bytes_ mop)) (merge_ops_ m).

(** ** MDBWholeSpaceIteratorImpl *)

Record MDBIterator := mk_it {
  items_ : list (bytes * bytes);
  it_seqno_ : Z;
  pos_ : Z;
  iterate_lower_bound_ : option bytes;
  iterate_upper_bound_ : option bytes;
}.

Definition get_wholespace_iterator (m : MemDB) : MDBIterator := mk_it (db_ m) (seqno_ m) (-1) None None.

Definition at_pos (p : Z) (i : MDBIterator) : MDBIterator :=
  mk_it (items_ i) (it_seqno_ i) p (iterate_lower_bound_ i) (iterate_upper_bound_ i).

Definition refresh (m : MemDB) (i : MDBIterator) : MDBIterator :=
  if seqno_ m =? it_seqno_ i then i
  else mk_it (db_ m) (seqno_ m) (pos_ i) (iterate_lower_bound_ i) (iterate_upper_bound_ i).

Definition size_ (i : MDBIterator) : Z := Z.of_nat (length (items_ i)).

Definition seek_to_first (m : MemDB) (i : MDBIterator) : Z * MDBIterator :=
  let i := refresh m i in
  (0, at_pos (match items_ i with [] => -1 | _ => 0 end) i).

Definition seek_to_last (m : MemDB) (i : MDBIterator) : Z * MDBIterator :=
  let i := refresh m i in
  (0, at_pos (match items_ i with [] => -1 | _ => size_ i - 1 end) i).

(** [std::lower_bound] and [std::upper_bound]: the index of the first pair that
    is not below, or above, the key. *)
Definition seek_index (found : bytes * bytes -> bool) (i : MDBIterator) : MDBIterator :=
  let idx := Z.of_nat (length (span found (items_ i)).1) in
  at_pos (if size_ i <=? idx then -1 else idx) i.

Definition lower_bound (m : MemDB) (i : MDBIterator) (to : bytes) : Z * MDBIterator :=
  (0, seek_index (fun kv => negb (str_lt kv.1 to)) (refresh m i)).

Definition upper_bound (m : MemDB) (i : MDBIterator) (after : bytes) : Z * MDBIterator :=
  (0, seek_index (fun kv => str_lt after kv.1) (refresh m i)).

Definition valid (i : MDBIterator) : bool := (0 <=? pos_ i) && (pos_ i <? size_ i).

Definition next (i : MDBIterator) : Z * MDBIterator :=
  if 0 <=? pos_ i then
    (0, at_pos (if size_ i <=? pos_ i + 1 then -1 else pos_ i + 1) i)
  else (0, i).

Definition prev (i : MDBIterator) : Z * MDBIterator :=
  if 0 <? pos_ i then (0, at_pos (pos_ i - 1) i)
  else if pos_ i =? 0 then (0, at_pos (-1) i)
  else (0, i).

(** [items_[pos_]]; [None] out of range. *)
Definition current (i : MDBIterator) : option (bytes * bytes) :=
  if pos_ i <? 0 then None else items_ i !! Z.to_nat (pos_ i).

Definition key (i : MDBIterator) : option bytes := fst <$> current i.
Definition value (i : MDBIterator) : option bytes := snd <$> current i.
Definition raw_key (i : MDBIterator) : option (bytes * bytes) := (fun kv => decode_key kv.1) <$> current i.
Definition raw_key_is_prefixed (i : MDBIterator) (prefix : bytes) : option bool :=
  (fun kv => str_eq (decode_key kv.1).1 prefix) <$> current i.

#[global] Instance memdb_iterator : PrefixIterator.WholeSpaceIterator MemDB MDBIterator := {
  ws_seek_to_first := seek_to_first;
  ws_seek_to_last := seek_to_last;
  ws_lower_bound := lower_bound;
  ws_upper_bound := upper_bound;
  ws_valid := valid;
  ws_next := next;
  ws_prev := prev;
  ws_value := value;
  ws_status := fun _ => 0;
  ws_raw_key := raw_key;
  ws_raw_key_is_prefixed := raw_key_is_prefixed;
  set_iterate_lower_bound := fun b i => mk_it (items_ i) (it_seqno_ i) (pos_ i) (Some b) (iterate_upper_bound_ i);
  set_iterate_upper_bound := fun b i => mk_it (items_ i) (it_seqno_ i) (pos_ i) (iterate_lower_bound_ i) (Some b);
}.

(** [get_iterator(prefix, opts, bounds)]. *)
Definition get_iterator (m : MemDB) (prefix : bytes) (b : PrefixIterator.IteratorBounds) :
  PrefixIterator.PrefixIteratorImpl MDBIterator :=
  PrefixIterator.make_iterator m prefix (get_wholespace_iterator m) b.

#[global] Instance memdb_kv : KeyValueDB MemDB (PrefixIterator.PrefixIteratorImpl MDBIterator) := {
  kv_submit := submit_transaction;
  kv_get := get;
  kv_get_iterator := fun m p => get_iterator m p PrefixIterator.no_bounds;
  it_lower_bound := PrefixIterator.lower_bound;
  it_valid := PrefixIterator.valid;
  it_next := PrefixIterator.next;
  it_key := PrefixIterator.key;
  it_value := PrefixIterator.value;
}.

(** ** The map operations *)

Lemma map_find_elem k v l : StronglySorted key_lt l -> map_find k l = Some v <-> (k, v) ∈ l.
Proof.
  induction 1 as [|[k' v'] l Hl IH Hx]; simpl; [split; [done|by intros ?%not_elem_of_nil]|].
  rewrite elem_of_cons. unfold str_eq. case_bool_decide as E; [subst k'|rewrite IH; naive_solver].
  split; [intros [= ->]; by left|]. intros [[= ->]|Hin]; [done|].
  rewrite Forall_forall in Hx. specialize (Hx _ Hin). unfold key_lt in Hx. simpl in Hx.
  by rewrite str_lt_irrefl in Hx.
Qed.

Lemma elem_map_set k v l kv : kv ∈ map_set k v l -> kv = (k, v) \/ kv ∈ l.
Proof.
  induction l as [|[k' v'] l IH]; simpl; [set_solver|]. repeat case_match; rewrite !elem_of_cons; naive_solver.
Qed.

Lemma map_set_sorted k v l : StronglySorted key_lt l -> StronglySorted key_lt (map_set k v l).
Proof.
  induction 1 as [|[k' v'] l Hl IH Hx]; simpl; [by repeat constructor|].
  destruct (str_lt k k') eqn:E1; [|destruct (str_lt k' k) eqn:E2].
  - constructor; [by constructor|]. constructor; [done|]. eapply Forall_impl; [exact Hx|].
    intros kv. unfold key_lt. by apply str_lt_trans.
  - constructor; [done|]. rewrite Forall_forall in Hx |- *. intros kv [->|Hin]%elem_map_set; [done|auto].
  - rewrite <- (str_lt_total k k' E1 E2) in Hx. by constructor.
Qed.

Lemma find_map_set k k' v l :
  StronglySorted key_lt l -> map_find k (map_set k' v l) = if decide (k = k') then Some v else map_find k l.
Proof.
  induction 1 as [|[k2 v2] l Hl IH Hx]; simpl; [unfold str_eq; case_bool_decide; by case_decide|].
  destruct (str_lt k' k2) eqn:E1; [|destruct (str_lt k2 k') eqn:E2]; simpl; unfold str_eq in *.
  - repeat case_bool_decide; by case_decide.
  - rewrite IH. repeat case_bool_decide; case_decide; subst; try done. by rewrite str_lt_irrefl in E2.
  - rewrite (str_lt_total k' k2 E1 E2). repeat case_bool_decide; repeat case_decide; congruence.
Qed.

Lemma map_erase_filter k l :
  StronglySorted key_lt l -> map_erase k l = filter (fun kv => kv.1 <> k) l.
Proof.
  induction 1 as [|[k' v'] l Hl IH Hx]; simpl; [done|]. unfold str_eq. case_bool_decide as E.
  - rewrite filter_cons_False by (simpl; congruence). symmetry. apply filter_all.
    eapply Forall_impl; [exact Hx|]. intros kv. unfold key_lt. simpl. intros Hlt E'. by rewrite E', E, str_lt_irrefl in Hlt.
  - rewrite filter_cons_True by (simpl; congruence). by rewrite IH.
Qed.

Lemma find_filter (P : bytes * bytes -> Prop) `{!forall kv, Decision (P kv)} k v l :
  (forall k v w, P (k, v) -> P (k, w)) ->
  map_find k (filter P l) = Some v <-> map_find k l = Some v /\ P (k, v).
Proof.
  intros HP. induction l as [|[k' v'] l IH]; [naive_solver|]. rewrite filter_cons. simpl. unfold str_eq in *.
  destruct (decide (P (k', v'))) as [Hd|Hd]; simpl; unfold str_eq; case_bool_decide; subst; rewrite ?IH; naive_solver.
Qed.

(** The erase loops remove exactly the keys they are meant to. *)
Lemma erase_from_filter start more l :
  StronglySorted key_lt l ->
  (forall a b, str_lt a start = false -> str_lt a b = true -> more b = true -> more a = true) ->
  erase_from start more l = filter (fun kv => ~ (str_lt kv.1 start = false /\ more kv.1 = true)) l.
Proof.
  intros Hs Hmono. unfold erase_from. pose proof (PrefixIterator.span_lower start l Hs) as E.
  pose proof (span_spec _ _ _ _ E) as (Hl & _ & _). rewrite E. rewrite Hl at 3.
  set (x := filter (fun kv => negb (str_lt kv.1 start) = false) l) in *. set (y := filter (fun kv => negb (str_lt kv.1 start) = true) l) in *. rewrite filter_app. f_equal.
  - symmetry. apply filter_all. apply Forall_forall. intros kv [Hx _]%list_elem_of_filter.
    apply negb_false_iff in Hx. rewrite Hx. naive_solver.
  - assert (Forall (fun kv => str_lt kv.1 start = false) y) as Hy.
    { apply Forall_forall. intros kv [Hx _]%list_elem_of_filter. by apply negb_true_iff. }
    rewrite (span_filter key_lt _ _ y ltac:(by apply sorted_filter) Hy).
    + cbn [snd]. apply filter_ext_in. eapply Forall_impl; [exact Hy|]. intros kv Hkv. cbn beta.
      rewrite negb_true_iff, Hkv. destruct (more kv.1); naive_solver.
    + intros a b Ha _ Hab. rewrite !negb_true_iff. intros Hm. destruct (more b.1) eqn:Eb; [|done].
      by rewrite <- Hm, (Hmono a.1 b.1).
Qed.

(** ** The contents *)

Definition contents (l : list (bytes * bytes)) : kvmap := list_to_map ((fun kv => (decode_key kv.1, kv.2)) <$> l).

Lemma contents_lookup l p k :
  wf_items l -> contents l !! (p, k) = if decide (nul_free p) then map_find (encode_key p k) l else None.
Proof.
  intros [Hs Hk]. apply option_eq. intros v. unfold contents.
  rewrite <- elem_of_list_to_map.
  - rewrite list_elem_of_fmap. case_decide as Hp.
    + rewrite map_find_elem by done. split.
      * intros ([s v'] & [= E ->] & Hin). simpl in *. rewrite Forall_forall in Hk.
        specialize (Hk _ Hin). simpl in Hk. rewrite (encode_decode s Hk), <- E in Hin. done.
      * intros Hin. eexists. split; [|exact Hin]. simpl. by rewrite decode_encode.
    + split; [|done]. intros ([s v'] & [= E ->] & Hin). exfalso. apply Hp.
      pose proof (decode_nul_free s) as Hn. simpl in *. by rewrite <- E in Hn.
  - rewrite <- list_fmap_compose. clear v. induction Hs as [|[s v] l Hl IH Hx]; [constructor|].
    apply Forall_cons in Hk as [Hks Hk]. simpl. constructor; [|by apply IH].
    rewrite list_elem_of_fmap. intros ([s' v'] & E & Hin). simpl in *.
    rewrite Forall_forall in Hk, Hx. specialize (Hk _ Hin). specialize (Hx _ Hin). unfold key_lt in Hx. simpl in *.
    by rewrite (encode_decode s Hks), (encode_decode s' Hk), E, str_lt_irrefl in Hx.
Qed.

Lemma contents_eq (l : list (bytes * bytes)) (m : kvmap) :
  wf_items l -> (forall p k, nul_free p -> m !! (p, k) = map_find (encode_key p k) l) ->
  (forall p k, ~ nul_free p -> m !! (p, k) = None) -> contents l = m.
Proof.
  intros Hwf H1 H2. apply map_eq. intros [p k]. rewrite contents_lookup by done. symmetry. case_decide; auto.
Qed.

Lemma contents_dirty l p k : wf_items l -> ~ nul_free p -> contents l !! (p, k) = None.
Proof. intros. by rewrite contents_lookup, decide_False. Qed.
Lemma contents_clean l p k : wf_items l -> nul_free p -> contents l !! (p, k) = map_find (encode_key p k) l.
Proof. intros. by rewrite contents_lookup, decide_True. Qed.

Lemma wf_set p k v l : wf_items l -> wf_items (map_set (encode_key p k) v l).
Proof.
  intros [Hs Hk]. split; [by apply map_set_sorted|]. rewrite Forall_forall in Hk |- *.
  intros kv [->|Hin]%elem_map_set; [apply encode_key_nul|auto].
Qed.
Lemma wf_filter P `{!forall kv, Decision (P kv)} l : wf_items l -> wf_items (filter P l).
Proof. intros [Hs Hk]. split; [by apply sorted_filter|]. rewrite Forall_forall in Hk |- *. intros kv [_ ?]%list_elem_of_filter. auto. Qed.

Lemma contents_set p k v l :
  wf_items l -> nul_free p -> contents (map_set (encode_key p k) v l) = <[(p, k) := v]> (contents l).
Proof.
  intros Hwf Hp. apply contents_eq; [by apply wf_set| |]; intros q j Hq.
  - rewrite find_map_set by apply Hwf. destruct (decide (encode_key q j = encode_key p k)) as [E|E].
    + destruct (encode_key_inj q j p k Hq Hp E) as [-> ->]. by rewrite lookup_insert_eq.
    + rewrite lookup_insert_ne by congruence. by apply contents_clean.
  - rewrite lookup_insert_ne by congruence. by apply contents_dirty.
Qed.

(** Removing pairs by their key. *)
Lemma contents_filter (P : bytes * bytes -> Prop) `{!forall kv, Decision (P kv)}
    (Q : (bytes * bytes) * bytes -> Prop) `{!forall x, Decision (Q x)} l :
  wf_items l -> (forall k v w, P (k, v) -> P (k, w)) ->
  (forall p k v, nul_free p -> Q ((p, k), v) <-> P (encode_key p k, v)) ->
  contents (filter P l) = filter Q (contents l).
Proof.
  intros Hwf HP HPQ. apply contents_eq; [by apply wf_filter| |]; intros p k Hp.
  - apply option_eq. intros v. rewrite find_filter, map_lookup_filter_Some, (HPQ p k v Hp), contents_clean by done. done.
  - apply map_lookup_filter_None. left. by apply contents_dirty.
Qed.

(** ** Transactions *)

Definition mop_of (m : MemDB) : mop_fns := fun p =>
  id ← find_mop p (merge_ops_ m); mop ← mops m !! id; Some (merge_nonexistent mop, merge mop).

(** [mop_of] is a function of the operators' code; counting a merge keeps it. *)
Definition same_code (a b : MergeOperator) : Prop :=
  merge_nonexistent a = merge_nonexistent b /\ merge a = merge b.

Definition same_mops (m m' : MemDB) : Prop :=
  merge_ops_ m' = merge_ops_ m /\ Forall2 same_code (mops m) (mops m').

Lemma same_mops_of m m' p : same_mops m m' -> mop_of m' p = mop_of m p.
Proof.
  intros [E H]. unfold mop_of. rewrite E. destruct (find_mop p (merge_ops_ m)) as [id|]; [|done]. simpl.
  destruct (mops m !! id) as [a|] eqn:Ea.
  - destruct (Forall2_lookup_l _ _ _ _ _ H Ea) as (b & -> & [E1 E2]). simpl. by rewrite E1, E2.
  - destruct (mops m' !! id) as [b|] eqn:Eb; [|done].
    destruct (Forall2_lookup_r _ _ _ _ _ H Eb) as (a & Ea' & _). congruence.
Qed.
#[global] Instance same_code_po : PreOrder same_code.
Proof. split; [done|]. unfold same_code. intros a b c [] []. split; congruence. Qed.
#[global] Instance same_mops_po : PreOrder same_mops.
Proof.
  split; [by intros m|]. intros a b c [E1 H1] [E2 H2]. split; [congruence|]. by etrans.
Qed.

Definition ok (m : MemDB) : Prop := wf_items (db_ m) /\ uint 64 (seqno_ m).

Lemma changed_ok l m : wf_items l -> ok (changed l m).
Proof. intros. split; [done|]. apply u64_range. Qed.

Lemma op_refines o m :
  ok m -> nul_free (op_prefix o) ->
  match op_spec (mop_of m) o (contents (db_ m)) with
  | None => apply_op o m = None
  | Some (r, c) => exists m', apply_op o m = Some (r, m') /\ ok m' /\ contents (db_ m') = c /\ same_mops m m'
  end.
Proof.
  intros [Hwf Hq] Hp. destruct o as [ty p k e v]. cbn [op_prefix] in Hp. unfold op_spec, apply_op. cbn [op_type op_prefix op_key op_end op_value].
  destruct ty.
  - eexists. split; [done|]. split; [by apply changed_ok, wf_set|]. split; [|done]. by apply contents_set.
  - eexists. split; [done|]. unfold _rmkey. rewrite map_erase_filter by apply Hwf.
    split; [by apply changed_ok, wf_filter|]. split; [|done]. cbn [db_ changed].
    etrans; [apply (contents_filter _ (fun x => x.1 <> (p, k))); [done..|]|].
    { intros q j w Hq'. simpl. split; [|congruence].
      intros Hne E. apply Hne. by destruct (encode_key_inj q j p k Hq' Hp E) as [-> ->]. }
    apply map_eq. intros x. destruct (decide (x = (p, k))) as [->|Hne].
    + rewrite lookup_delete_eq. apply map_lookup_filter_None. naive_solver.
    + rewrite lookup_delete_ne by done. apply option_eq. intros w. rewrite map_lookup_filter_Some. naive_solver.
  - eexists. split; [done|]. unfold _rmkeys_by_prefix. rewrite erase_from_filter; [|apply Hwf|apply starts_with_interval].
    split; [by apply changed_ok, wf_filter|]. split; [|done]. cbn [db_ changed].
    apply contents_filter; [done..|].
    intros q j w Hq'. cbn [fst]. rewrite starts_with_encode, bool_decide_eq_true by done. split; [naive_solver|].
    intros Hn ->. apply Hn. rewrite encode_lt. by destruct j.
  - eexists. split; [done|]. unfold _rm_range_keys.
    rewrite erase_from_filter; [|apply Hwf|intros a b _ Hab Hb; by eapply str_lt_trans].
    split; [by apply changed_ok, wf_filter|]. split; [|done]. cbn [db_ changed].
    apply contents_filter; [done..|].
    intros q j w Hq'. cbn [fst snd]. split.
    + intros Hn [H1 H2]. destruct (decide (q = p)) as [->|Hne]; [rewrite !encode_lt in *; naive_solver|].
      assert (starts_with (encode_key p []) (encode_key q j) = true) as Hst.
      { apply (starts_with_interval _ _ (encode_key p e)); [|done|].
        - destruct (str_lt (encode_key q j) (encode_key p [])) eqn:E; [|done]. rewrite <- H1. symmetry.
          eapply str_lt_le_trans; [exact E|]. rewrite encode_lt. by destruct k.
        - rewrite starts_with_encode by done. by apply bool_decide_eq_true. }
      rewrite starts_with_encode, bool_decide_eq_true in Hst by done. congruence.
    + intros Hn (-> & H1 & H2). apply Hn. by rewrite !encode_lt.
  - unfold _merge, mop_of. destruct (find_mop p (merge_ops_ m)) as [id|]; [|by eexists]. simpl.
    destruct (mops m !! id) as [mop|] eqn:Em; [|by eexists]. simpl.
    rewrite contents_clean by done.
    assert (forall w n, exists m', Some (0, mk_memdb (map_set (encode_key p k) w (db_ m)) (seqno_ m +64 1) (merge_ops_ m)
        (<[id:=_record_merge n mop]> (mops m))) = Some (0, m') /\ ok m' /\
        contents (db_ m') = <[(p, k) := w]> (contents (db_ m)) /\ same_mops m m') as Hgo.
    { intros w n. eexists. split; [done|]. split; [split; [by apply wf_set|apply u64_range]|]. split; [by apply contents_set|].
      split; [done|]. cbn [mops]. rewrite <- (list_insert_id _ _ _ Em) at 1. by apply Forall2_insert. }
    destruct (map_find (encode_key p k) (db_ m)) as [l|]; cbn [mbind option_bind]; [|apply Hgo].
    destruct (merge mop l v) as [w|]; cbn [mbind option_bind]; [apply Hgo|done].
Qed.

Lemma op_spec_ext f g o c : (forall p, f p = g p) -> op_spec f o c = op_spec g o c.
Proof. intros E. unfold op_spec. by rewrite E. Qed.
Lemma txn_spec_ext f g t c : (forall p, f p = g p) -> txn_spec f t c = txn_spec g t c.
Proof.
  intros E. revert c. induction t as [|o t IH]; intros c; [done|]. simpl. rewrite (op_spec_ext f g) by done.
  destruct (op_spec g o c) as [[r c']|]; [|done]. simpl. by rewrite IH.
Qed.

Lemma submit_refines t m :
  ok m -> Forall (fun o => nul_free (op_prefix o)) t ->
  match txn_spec (mop_of m) t (contents (db_ m)) with
  | None => submit_transaction m t = None
  | Some (r, c) => exists m', submit_transaction m t = Some (r, m') /\ ok m' /\ contents (db_ m') = c /\ same_mops m m'
  end.
Proof.
  revert m. induction t as [|o t IH]; intros m Hok Ht; simpl; [by exists m|].
  apply Forall_cons in Ht as [Ho Ht]. pose proof (op_refines o m Hok Ho) as H.
  destruct (op_spec (mop_of m) o (contents (db_ m))) as [[r c]|]; simpl; [|by rewrite H].
  destruct H as (m1 & -> & Hok1 & <- & Hm1). simpl. destruct (r <? 0); [by eauto|].
  specialize (IH m1 Hok1 Ht). rewrite (txn_spec_ext _ (mop_of m)) in IH by (intros p; by apply same_mops_of).
  destruct (txn_spec (mop_of m) t (contents (db_ m1))) as [[r' c']|]; [|done].
  destruct IH as (m2 & -> & Hok2 & Hc & Hm2). exists m2. split_and!; try done. by etrans.
Qed.

Lemma submit_ok t m r m' :
  ok m -> Forall (fun o => nul_free (op_prefix o)) t -> submit_transaction m t = Some (r, m') -> ok m'.
Proof.
  intros Hok Ht E. pose proof (submit_refines t m Hok Ht) as H. rewrite E in H.
  destruct (txn_spec _ _ _) as [[r' c]|]; [|done]. by destruct H as (m1 & [= _ <-] & ? & _).
Qed.

(** ** Iterators *)

(** An iterator is in step with its store: when the sequence numbers agree, its
    copy is current. *)
Definition it_ok (m : MemDB) (i : MDBIterator) : Prop :=
  ok m /\ wf_items (items_ i) /\ 0 <= it_seqno_ i <= seqno_ m /\
  (it_seqno_ i = seqno_ m -> items_ i = db_ m) /\ -1 <= pos_ i < size_ i.

Definition rest (i : MDBIterator) : list (bytes * bytes) :=
  if pos_ i <? 0 then [] else drop (Z.to_nat (pos_ i)) (items_ i).
Definition passed (i : MDBIterator) : list (bytes * bytes) := take (Z.to_nat (pos_ i)) (items_ i).

Lemma refresh_ok m i : it_ok m i -> items_ (refresh m i) = db_ m /\ it_seqno_ (refresh m i) = seqno_ m.
Proof. intros (_ & _ & _ & H & _). unfold refresh. destruct (Z.eqb_spec (seqno_ m) (it_seqno_ i)); naive_solver. Qed.

Lemma at_pos_ok m i p : it_ok m i -> -1 <= p < Z.of_nat (length (db_ m)) -> it_ok m (at_pos p (refresh m i)).
Proof.
  intros Hi Hp. destruct (refresh_ok m i Hi) as [E1 E2]. destruct Hi as (Hok & Hw & Hs & _).
  unfold it_ok, size_. cbn. rewrite E1, E2. split_and!; try done; try apply Hok; lia.
Qed.

Lemma current_rest i : current i = head (rest i).
Proof. unfold current, rest. destruct (pos_ i <? 0); [done|]. by rewrite head_lookup, lookup_drop, Nat.add_0_r. Qed.

Lemma rest_at m i p :
  it_ok m i -> rest (at_pos p (refresh m i)) = if p <? 0 then [] else drop (Z.to_nat p) (db_ m).
Proof. intros Hi. unfold rest. cbn. by rewrite (proj1 (refresh_ok m i Hi)). Qed.
Lemma passed_at m i p : it_ok m i -> passed (at_pos p (refresh m i)) = take (Z.to_nat p) (db_ m).
Proof. intros Hi. unfold passed. cbn. by rewrite (proj1 (refresh_ok m i Hi)). Qed.

(** The position of a search. *)
Lemma seek_index_spec found m i :
  it_ok m i ->
  let i' := seek_index found (refresh m i) in
  it_ok m i' /\ rest i' = (span found (db_ m)).2 /\ (rest i' <> [] -> passed i' ++ rest i' = db_ m).
Proof.
  intros Hi. unfold seek_index. cbv zeta. unfold size_. rewrite (proj1 (refresh_ok m i Hi)).
  destruct (span found (db_ m)) as [x y] eqn:E. destruct (span_spec _ _ _ _ E) as (El & _ & _). cbn [fst snd].
  assert (Z.of_nat (length (db_ m)) = Z.of_nat (length x) + Z.of_nat (length y)) as Hlen by (rewrite El, length_app; lia).
  destruct (Z.leb_spec (Z.of_nat (length (db_ m))) (Z.of_nat (length x))) as [Hle|Hgt].
  - assert (y = []) as -> by (destruct y; simpl in *; [done|lia]).
    split; [apply at_pos_ok; [done|lia]|]. rewrite rest_at by done. simpl. done.
  - split; [apply at_pos_ok; [done|lia]|]. rewrite rest_at, passed_at by done.
    destruct (Z.ltb_spec (Z.of_nat (length x)) 0); [lia|]. rewrite Nat2Z.id.
    split; [by rewrite El, drop_app_length|]. intros _. apply take_drop.
Qed.

Lemma tail_drop {A} n (l : list A) : tail (drop n l) = drop (S n) l.
Proof. revert l. induction n as [|n IH]; intros [|x l]; simpl; try done. Qed.

Lemma move_ok m i p : it_ok m i -> -1 <= p < size_ i -> it_ok m (at_pos p i).
Proof. intros (? & ? & ? & ? & ?) Hp. done. Qed.

#[global] Program Instance memdb_ws : PrefixIterator.WholeSpaceSpec MemDB MDBIterator := {
  db_items := db_;
  ws_ok := it_ok;
  ws_passed := passed;
  ws_rest := rest;
}.
Next Obligation. intros m i (Hok & _). apply Hok. Qed.
Next Obligation.
  intros i. cbn. unfold valid, rest, size_.
  destruct (Z.leb_spec 0 (pos_ i)); destruct (Z.ltb_spec (pos_ i) 0); try lia; simpl; try done.
  destruct (drop (Z.to_nat (pos_ i)) (items_ i)) eqn:E.
  - apply (f_equal length) in E. rewrite length_drop in E. simpl in E. destruct (Z.ltb_spec (pos_ i) (Z.of_nat (length (items_ i)))); [lia|done].
  - apply (f_equal length) in E. rewrite length_drop in E. simpl in E. destruct (Z.ltb_spec (pos_ i) (Z.of_nat (length (items_ i)))); [done|lia].
Qed.
Next Obligation. intros i. cbn. unfold raw_key. by rewrite current_rest. Qed.
Next Obligation. intros i. cbn. unfold value. by rewrite current_rest. Qed.
Next Obligation. intros i p. cbn. unfold raw_key_is_prefixed. by rewrite current_rest. Qed.
Next Obligation.
  intros m i Hi. cbn. unfold seek_to_first. cbv zeta. rewrite (proj1 (refresh_ok m i Hi)).
  eexists. split; [done|]. destruct (db_ m) as [|kv l] eqn:E.
  - split; [apply at_pos_ok; rewrite ?E; done|]. by rewrite rest_at, passed_at, E by done.
  - split; [apply at_pos_ok; rewrite ?E; [done|simpl; lia]|]. by rewrite rest_at, passed_at, E by done.
Qed.
Next Obligation.
  intros m i Hi. cbn. unfold seek_to_last, size_. cbv zeta. rewrite (proj1 (refresh_ok m i Hi)).
  eexists. split; [done|]. destruct (db_ m) as [|kv l] eqn:E using rev_ind; [|clear IHl].
  - split; [apply at_pos_ok; rewrite ?E; done|]. left. by rewrite rest_at by done.
  - assert (forall A (a b : A), match l ++ [kv] with [] => a | _ => b end = b) as Hm by (by destruct l).
    rewrite Hm. rewrite length_app. simpl. split; [apply at_pos_ok; rewrite ?E, ?length_app; [done|simpl; lia]|].
    right. exists kv. rewrite rest_at, passed_at, E by done.
    replace (Z.of_nat (length l + 1) - 1) with (Z.of_nat (length l)) by lia.
    destruct (Z.ltb_spec (Z.of_nat (length l)) 0); [lia|]. by rewrite Nat2Z.id, drop_app_length, take_app_length.
Qed.
Next Obligation. intros m i k Hi. eexists. split; [done|]. by apply seek_index_spec. Qed.
Next Obligation. intros m i k Hi. eexists. split; [done|]. by apply seek_index_spec. Qed.
Next Obligation.
  intros m i Hi. cbn. unfold next. pose proof Hi as (_ & _ & _ & _ & Hp). unfold size_ in *.
  destruct (Z.leb_spec 0 (pos_ i)); cycle 1.
  { exists i. split_and!; try done. unfold rest. destruct (Z.ltb_spec (pos_ i) 0); [done|lia]. }
  eexists. split; [done|]. unfold rest, passed. cbn [pos_ items_ at_pos].
  destruct (Z.ltb_spec (pos_ i) 0); [lia|]. rewrite tail_drop.
  replace (S (Z.to_nat (pos_ i))) with (Z.to_nat (pos_ i + 1)) by lia.
  destruct (Z.leb_spec (Z.of_nat (length (items_ i))) (pos_ i + 1)).
  - split; [apply move_ok; [done|unfold size_; lia]|]. split; [|done]. symmetry. apply drop_ge. lia.
  - split; [apply move_ok; [done|unfold size_; lia]|]. destruct (Z.ltb_spec (pos_ i + 1) 0); [lia|].
    by rewrite !take_drop.
Qed.
Next Obligation.
  intros m i Hi. cbn. unfold prev. pose proof Hi as (_ & _ & _ & _ & Hp). unfold size_ in *.
  destruct (Z.ltb_spec 0 (pos_ i)); [|destruct (Z.eqb_spec (pos_ i) 0)].
  - eexists. split; [done|]. split; [apply move_ok; [done|unfold size_; lia]|]. unfold rest, passed. cbn [pos_ items_ at_pos].
    destruct (Z.ltb_spec (pos_ i) 0); [lia|]. destruct (Z.ltb_spec (pos_ i - 1) 0); [lia|]. rewrite !take_drop. split; [|done].
    destruct (lookup_lt_is_Some_2 (items_ i) (Z.to_nat (pos_ i - 1)) ltac:(lia)) as [x Hx].
    assert (Z.to_nat (pos_ i) = S (Z.to_nat (pos_ i - 1))) as -> by lia.
    rewrite (take_S_r _ _ x Hx), last_snoc, (drop_S _ x _ Hx).
    destruct (drop (S (Z.to_nat (pos_ i - 1))) (items_ i)) eqn:E; [|done].
    apply (f_equal length) in E. rewrite length_drop in E. simpl in E. lia.
  - eexists. split; [done|]. split; [apply move_ok; [done|unfold size_; lia]|]. unfold rest, passed. cbn [pos_ items_ at_pos].
    rewrite e. simpl. split; [|done]. by destruct (items_ i).
  - exists i. split_and!; try done. unfold rest. by destruct (Z.ltb_spec (pos_ i) 0); [|lia].
Qed.
Next Obligation. done. Qed.
Next Obligation. done. Qed.

(** The pairs of a prefix, in order. *)
Lemma prefix_range_elem p lo hi l k v :
  wf_items l -> nul_free p ->
  (k, v) ∈ PrefixIterator.prefix_range p lo hi l <->
  contents l !! (p, k) = Some v /\ str_lt k lo = false /\ match hi with None => True | Some h => str_lt k h = true end.
Proof.
  intros Hwf Hp. unfold PrefixIterator.prefix_range. rewrite contents_clean, map_find_elem, list_elem_of_fmap by (done || apply Hwf).
  destruct Hwf as [_ Hk]. rewrite Forall_forall in Hk. split.
  - intros ([s w] & E & [[Hpre Hr] Hin]%list_elem_of_filter). unfold PrefixIterator.inner in E. injection E as Ek Ev.
    simpl in *. rewrite Ek, Ev. split; [|done]. specialize (Hk _ Hin). simpl in Hk.
    rewrite (encode_decode s Hk), Hpre in Hin. done.
  - intros [Hin Hr]. eexists. split; [|apply list_elem_of_filter; split; [|exact Hin]].
    + unfold PrefixIterator.inner. simpl. by rewrite decode_encode.
    + unfold PrefixIterator.in_range. simpl. by rewrite decode_encode.
Qed.

Lemma prefix_range_sorted p lo hi l :
  wf_items l -> StronglySorted key_lt (PrefixIterator.prefix_range p lo hi l).
Proof.
  intros [Hs Hk]. unfold PrefixIterator.prefix_range.
  induction Hs as [|kv l Hl IH Hx]; [constructor|]. apply Forall_cons in Hk as [Hk0 Hk]. rewrite filter_cons. case_decide as Hin; [|auto].
  simpl. constructor; [auto|]. rewrite Forall_forall in Hx, Hk |- *. intros x Hmem.
  apply list_elem_of_fmap in Hmem as (kv' & -> & [Hin' Hkv']%list_elem_of_filter).
  destruct Hin as [E _], Hin' as [E' _]. specialize (Hx _ Hkv'). specialize (Hk _ Hkv'). unfold key_lt in *. simpl.
  by rewrite (encode_decode kv.1 Hk0), (encode_decode kv'.1 Hk), E, E', encode_lt in Hx.
Qed.

Lemma new_iterator_ok m : ok m -> PrefixIterator.ws_ok m (get_wholespace_iterator m).
Proof. intros [Hwf Hq]. cbn. unfold it_ok, size_. cbn. split_and!; try done; try apply Hwf; try apply Hq; unfold uint in Hq; lia. Qed.

Lemma get_spec m p k :
  ok m -> nul_free p -> get m p k = match contents (db_ m) !! (p, k) with None => (- ENOENT, []) | Some v => (0, v) end.
Proof.
  intros [Hwf _] Hp. rewrite contents_clean by done. unfold get. simpl.
  destruct (map_find (encode_key p k) (db_ m)); simpl; [by rewrite lookup_insert_eq|by rewrite lookup_empty].
Qed.

(** [MemDB] is a store as its clients expect it. *)
#[global] Program Instance memdb_spec : KeyValueDBSpec MemDB (PrefixIterator.PrefixIteratorImpl MDBIterator) := {
  kv_ok := ok;
  kv_map := fun m => contents (db_ m);
  kv_mop := mop_of;
  KeyValue.it_ok := fun it => exists m, PrefixIterator.pi_ok m it;
  it_shows := PrefixIterator.shows;
}.
Next Obligation.
  intros m t Hok Ht. pose proof (submit_refines t m Hok Ht) as H. destruct (txn_spec _ _ _) as [[r c]|]; [|done].
  destruct H as (m' & ? & ? & ? & Hm). exists m'. split_and!; try done. intros p. by apply same_mops_of.
Qed.
Next Obligation. intros m p k. apply get_spec. Qed.
Next Obligation.
  intros m p Hok Hp. change (it_lower_bound m (kv_get_iterator m p) []) with
    (PrefixIterator.lower_bound m (PrefixIterator.make_iterator m p (get_wholespace_iterator m) PrefixIterator.no_bounds) []).
  destruct (PrefixIterator.make_iterator_ok m p (get_wholespace_iterator m) PrefixIterator.no_bounds Hp (new_iterator_ok m Hok)) as (Hi & Ep & Eh & _).
  destruct (PrefixIterator.lower_bound_shows m _ [] Hi) as (i & -> & Hi' & Hs & _). exists i.
  split; [done|]. split; [by exists m|]. rewrite Hs, Ep, Eh. split; [by apply prefix_range_sorted, Hok|].
  intros k v. rewrite prefix_range_elem by (done || apply Hok). cbn. destruct k; naive_solver.
Qed.
Next Obligation. intros i _. apply PrefixIterator.valid_shows. Qed.
Next Obligation. intros i k v l _. apply PrefixIterator.key_shows. Qed.
Next Obligation. intros i k v l _. apply PrefixIterator.value_shows. Qed.
Next Obligation.
  intros i k v l [m Hi] E. destruct (PrefixIterator.next_shows m i k v l Hi E) as (i' & ? & ? & ? & _). eauto 6.
Qed.

(** ** Properties *)

(** A store with operators registered, and a sequence of transactions. *)
Definition with_mops (objs : list MergeOperator) (regs : list (bytes * nat)) : MemDB :=
  foldl (fun m r => (set_merge_operator r.1 r.2 m).2) (empty_memdb objs) regs.

Fixpoint submit_all (m : MemDB) (ts : list Transaction) : option (list Z * MemDB) :=
  match ts with
  | [] => Some ([], m)
  | t :: ts => '(r, m) ← submit_transaction m t; '(rs, m) ← submit_all m ts; Some (r :: rs, m)
  end.
Fixpoint spec_all (f : mop_fns) (ts : list Transaction) (c : kvmap) : option (list Z * kvmap) :=
  match ts with
  | [] => Some ([], c)
  | t :: ts => '(r, c) ← txn_spec f t c; '(rs, c) ← spec_all f ts c; Some (r :: rs, c)
  end.

Lemma with_mops_ok objs regs : ok (with_mops objs regs) /\ db_ (with_mops objs regs) = [].
Proof.
  unfold with_mops. assert (ok (empty_memdb objs) /\ db_ (empty_memdb objs) = []) as H.
  { repeat split; try constructor; done. }
  revert H. generalize (empty_memdb objs). induction regs as [|r regs IH]; intros m H; [done|].
  simpl. apply IH. exact H.
Qed.

Lemma submit_all_refines ts m f :
  ok m -> (forall p, mop_of m p = f p) -> Forall (Forall (fun o => nul_free (op_prefix o))) ts ->
  match spec_all f ts (contents (db_ m)) with
  | None => submit_all m ts = None
  | Some (rs, c) => exists m', submit_all m ts = Some (rs, m') /\ ok m' /\ contents (db_ m') = c
  end.
Proof.
  revert m. induction ts as [|t ts IH]; intros m Hok Hf Hts; simpl; [by exists m|].
  apply Forall_cons in Hts as [Ht Hts]. pose proof (submit_refines t m Hok Ht) as H.
  rewrite (txn_spec_ext _ f) in H by done.
  destruct (txn_spec f t (contents (db_ m))) as [[r c]|]; simpl; [|by rewrite H].
  destruct H as (m1 & -> & Hok1 & <- & Hm1). simpl.
  specialize (IH m1 Hok1 ltac:(intros p; rewrite (same_mops_of m m1); auto) Hts).
  destruct (spec_all f ts (contents (db_ m1))) as [[rs c']|]; simpl; [|by rewrite IH].
  destruct IH as (m2 & -> & ? & ?). simpl. eauto.
Qed.

(** A transaction returns 0 or a negative result. *)
Lemma txn_spec_result f t c r c' : txn_spec f t c = Some (r, c') -> r = 0 \/ r < 0.
Proof.
  revert c. induction t as [|o t IH]; intros c; simpl; [intros [= <- _]; by left|].
  destruct (op_spec f o c) as [[r1 c1]|]; simpl; [|done]. destruct (Z.ltb_spec r1 0); [|apply IH].
  intros [= <- _]. by right.
Qed.
Lemma spec_all_results f ts c rs c' :
  spec_all f ts c = Some (rs, c') -> Forall2 (fun r r' => r = 0 /\ r' = 0 \/ r < 0 /\ r' < 0) rs rs.
Proof.
  revert c rs c'. induction ts as [|t ts IH]; intros c rs c'; simpl; [intros [= <- _]; constructor|].
  destruct (txn_spec f t c) as [[r c1]|] eqn:Et; simpl; [|done]. destruct (spec_all f ts c1) as [[rs1 c2]|] eqn:Es; simpl; [|done].
  intros [= <- _]. constructor; [|by eapply IH]. destruct (txn_spec_result _ _ _ _ _ Et); auto.
Qed.

(** C21: the in-memory store is a finite map from (prefix, key) to values: for
    every sequence of transactions with prefixes free of NUL, each transaction
    returns 0 and is applied, or it returns a negative result at the first merge
    whose prefix has no operator, with the operations before it kept; the program
    aborts exactly where a merge operator asserts, and [get] afterwards reads that
    map. *)
Theorem memdb_refines_map objs regs ts :
  Forall (Forall (fun o => nul_free (op_prefix o))) ts ->
  match spec_all (mop_of (with_mops objs regs)) ts ∅ with
  | None => submit_all (with_mops objs regs) ts = None
  | Some (rs, c) => exists rs' m, submit_all (with_mops objs regs) ts = Some (rs', m) /\
      Forall2 (fun r r' => r = 0 /\ r' = 0 \/ r < 0 /\ r' < 0) rs rs' /\
      forall p k, nul_free p -> get m p k = match c !! (p, k) with None => (- ENOENT, []) | Some v => (0, v) end
  end.
Proof.
  intros Hts. destruct (with_mops_ok objs regs) as [Hok Hdb].
  pose proof (submit_all_refines ts _ _ Hok (fun _ => eq_refl) Hts) as H. rewrite Hdb in H. change (contents []) with (∅ : kvmap) in H.
  destruct (spec_all _ ts ∅) as [[rs c]|] eqn:E; [|done]. destruct H as (m & ? & Hm & <-). exists rs, m. split; [done|]. split; [by apply (spec_all_results _ _ _ _ _ E)|].
  intros p k Hp. by apply get_spec.
Qed.

(** An iterator stays in step with its store over transactions. *)
Lemma op_seqno o m r m' i :
  apply_op o m = Some (r, m') -> ok m' -> it_ok m i -> seqno_ m + 1 < 2 ^ 64 ->
  it_ok m' i /\ seqno_ m' <= seqno_ m + 1.
Proof.
  intros E Hok' (Hok & Hw & Hs & Hc & Hp) Hb.
  assert (m' = m \/ seqno_ m' = seqno_ m + 1) as [->|Hq].
  { unfold apply_op in E. destruct Hok as [_ Hu]. unfold uint in Hu.
    destruct (op_type o); try (injection E as <- <-; right; cbn; rewrite u64_small by lia; lia).
    unfold _merge in E. destruct (find_mop _ _ ≫= _) as [[id mop]|]; [|injection E as <- <-; by left].
    destruct (match map_find _ _ with None => _ | Some _ => _ end) as [[w n]|]; [|done]. simpl in E.
    injection E as <- <-. right. cbn. rewrite u64_small by lia. lia. }
  - split; [done|lia].
  - split; [|lia]. split_and!; try done; lia.
Qed.

Lemma submit_seqno t m r m' i :
  submit_transaction m t = Some (r, m') -> Forall (fun o => nul_free (op_prefix o)) t -> it_ok m i ->
  seqno_ m + Z.of_nat (length t) < 2 ^ 64 ->
  it_ok m' i /\ seqno_ m' <= seqno_ m + Z.of_nat (length t).
Proof.
  revert m. induction t as [|o t IH]; intros m E Ht Hi Hb; simpl in *; [injection E as <- <-; split; [done|lia]|].
  apply Forall_cons in Ht as [Ho Ht]. destruct (apply_op o m) as [[r1 m1]|] eqn:E1; [|done]. simpl in E.
  pose proof (op_refines o m (proj1 Hi) Ho) as H. rewrite E1 in H.
  assert (ok m1) as Hok1. { destruct (op_spec _ _ _) as [[? ?]|]; [|done]. destruct H as (? & [= _ <-] & ? & _). done. }
  destruct (op_seqno o m r1 m1 i E1 Hok1 Hi ltac:(lia)) as [Hi1 Hq].
  destruct (r1 <? 0); [injection E as <- <-; split; [done|lia]|].
  destruct (IH m1 E Ht Hi1 ltac:(lia)) as [? ?]. split; [done|lia].
Qed.

(** An iterator that was created before a transaction follows it: after the
    next [seek_to_first] it shows exactly the pairs the store then has under its
    prefix, in the order of the keys.  (The sequence number must not wrap.) *)
Theorem memdb_iterator_follows_writes m t r m' p n :
  ok m -> nul_free p -> Forall (fun o => nul_free (op_prefix o)) t ->
  submit_transaction m t = Some (r, m') -> seqno_ m + Z.of_nat (length t) < 2 ^ 64 -> (length (db_ m') < n)%nat ->
  exists i l, PrefixIterator.seek_to_first m' (PrefixIterator.make_iterator m' p (get_wholespace_iterator m) PrefixIterator.no_bounds) = (0, i) /\
    PrefixIterator.drain n i = Some l /\ StronglySorted key_lt l /\
    forall k v, (k, v) ∈ l <-> get m' p k = (0, v).
Proof.
  intros Hok Hp Ht E Hb Hn.
  destruct (submit_seqno t m r m' _ E Ht (new_iterator_ok m Hok) Hb) as [Hi _].
  assert (PrefixIterator.ws_ok m' (get_wholespace_iterator m)) as Hw by exact Hi.
  destruct (PrefixIterator.make_iterator_ok m' p _ PrefixIterator.no_bounds Hp Hw) as (Hpi & Ep & Eh & El).
  destruct (PrefixIterator.lower_bound_shows m' _ [] Hpi) as (i & Elb & Hi' & Hs & Hl).
  exists i, (PrefixIterator.shows i). split_and!.
  - rewrite PrefixIterator.seek_to_first_lower by (done || (destruct Hpi as (_ & -> & _); by rewrite Ep)). exact Elb.
  - apply (PrefixIterator.drain_shows m'); [done|]. cbn in Hl |- *. lia.
  - rewrite Hs, Ep, Eh. apply prefix_range_sorted, Hi.
  - intros k v. rewrite Hs, Ep, Eh. rewrite prefix_range_elem, get_spec by (done || apply Hi).
    change (PrefixIterator.db_items m') with (db_ m').
    destruct (contents (db_ m') !! (p, k)); (split; [intros (E1 & _); congruence|]).
    + intros [= ->]. split_and!; try done. by destruct k.
    + done.
Qed.

(** ** Examples *)

(** Prefixes "A" and "B" with an XOR operator on "B". *)
Definition demo_txn : Transaction :=
  txn_merge [66] [2] [1] (txn_merge [66] [2] [3] (txn_set [65] [9] [7] (txn_set [66] [1] [5] []))).
Definition demo : MemDB := with_mops [XorMergeOperator] [([66], 0%nat)].
Definition demo2 : MemDB := default demo (snd <$> submit_transaction demo demo_txn).

(** Values 3 and 1 merge to 2; the last transaction stops at the merge. *)
Lemma memdb_refines_map_witness :
  (exists r m, submit_all demo [demo_txn; txn_merge [65] [9] [1] (txn_rmkey [66] [1] [])] = Some ([0; r], m) /\ r < 0 /\
    forall p k, nul_free p -> get m p k =
      match (<[([65], [9]) := [7]]> (<[([66], [2]) := [2]]> ∅) : kvmap) !! (p, k) with None => (- ENOENT, []) | Some v => (0, v) end).
Proof.
  pose proof (memdb_refines_map [XorMergeOperator] [([66], 0%nat)] [demo_txn; txn_merge [65] [9] [1] (txn_rmkey [66] [1] [])]
    ltac:(by repeat (constructor; try done))) as H.
  replace (spec_all _ _ _) with (Some ([0; -22], (<[([65], [9]) := [7]]> (<[([66], [2]) := [2]]> ∅) : kvmap))) in H
    by (vm_compute; reflexivity).
  destruct H as (rs & m & E & Hr & Hg). inversion Hr as [|? r0 ? ? Ha Hr1]. subst. inversion Hr1 as [|? r1 ? ? Hb Hr2]. subst. inversion Hr2. subst.
  exists r1, m. replace r0 with 0 in E by lia. split; [exact E|]. split; [lia|exact Hg].
Defined.

Lemma demo2_ok : ok demo2.
Proof.
  pose proof (submit_refines demo_txn demo (proj1 (with_mops_ok _ _)) ltac:(by repeat (constructor; try done))) as H.
  unfold demo2. destruct (txn_spec _ _ _) as [[r c]|] eqn:E; [|by vm_compute in E].
  destruct H as (m & -> & Hok & _). exact Hok.
Qed.
Lemma demo2_it : PrefixIterator.ws_ok demo2 (get_wholespace_iterator demo2).
Proof. exact (new_iterator_ok demo2 demo2_ok). Qed.

Lemma prefix_iterator_enumerates_witness :
  exists i, PrefixIterator.seek_to_first demo2 (get_iterator demo2 [66] (PrefixIterator.mk_bounds (Some [2]) None)) = (0, i) /\
    PrefixIterator.drain 10 i = Some [([2], [2])].
Proof.
  exact (PrefixIterator.prefix_iterator_enumerates demo2 [66] (get_wholespace_iterator demo2) (PrefixIterator.mk_bounds (Some [2]) None) 10
    ltac:(by repeat constructor) demo2_it ltac:(vm_compute; lia)).
Defined.

Lemma prefix_seek_to_last_witness :
  exists i, PrefixIterator.seek_to_last demo2 (get_iterator demo2 [65] PrefixIterator.no_bounds) = Some (0, i) /\
    PrefixIterator.valid i = Some true /\ PrefixIterator.key i = Some [9] /\ PrefixIterator.value i = Some [7].
Proof.
  exact (PrefixIterator.prefix_seek_to_last demo2 [65] (get_wholespace_iterator demo2)
    ltac:(by repeat constructor) demo2_it ltac:(vm_compute; reflexivity)).
Defined.

(** Key 2 follows key 1, and yet [upper_bound(1)] finds nothing. *)
Lemma prefix_upper_bound_never_valid_witness :
  get demo2 [66] [2] = (0, [2]) /\
  exists i, PrefixIterator.upper_bound demo2 (get_iterator demo2 [66] PrefixIterator.no_bounds) [1] = Some (0, i) /\ PrefixIterator.valid i = Some false.
Proof.
  split; [reflexivity|].
  exact (PrefixIterator.prefix_upper_bound_never_valid demo2 [66] (get_wholespace_iterator demo2) PrefixIterator.no_bounds [1]
    ltac:(by repeat constructor) demo2_it).
Defined.

Lemma memdb_iterator_follows_writes_witness :
  exists i l, PrefixIterator.seek_to_first demo2 (PrefixIterator.make_iterator demo2 [66] (get_wholespace_iterator demo) PrefixIterator.no_bounds) = (0, i) /\
    PrefixIterator.drain 10 i = Some l /\ StronglySorted key_lt l /\ forall k v, (k, v) ∈ l <-> get demo2 [66] k = (0, v).
Proof.
  apply (memdb_iterator_follows_writes demo demo_txn 0 demo2 [66] 10).
  - apply with_mops_ok.
  - by repeat constructor.
  - by repeat (constructor; try done).
  - reflexivity.
  - vm_compute. reflexivity.
  - vm_compute. lia.
Defined.

(** [seek_to_last] of an iterator with an upper bound goes to the last key
    of the prefix and not to the last key below the bound: here the bound is 2,
    key 1 is below it, and the iterator is not valid. *)
Theorem seek_to_last_ignores_upper_bound :
  let i := get_iterator demo2 [66] (PrefixIterator.mk_bounds None (Some [2])) in
  (PrefixIterator.drain 10 (PrefixIterator.seek_to_first demo2 i).2 = Some [([1], [5])]) /\
  (exists i', PrefixIterator.seek_to_last demo2 i = Some (0, i') /\ PrefixIterator.valid i' = Some false).
Proof. split; [reflexivity|]. eexists. split; vm_compute; reflexivity. Qed.

End MemDB.
