(* ===== verification/Freelist.v ===== *)
(** * bluestore/bitmap_freelist_manager.cc: the free list on disk

    Which blocks are allocated is a bitmap kept in a key-value store, one key
    per [blocks_per_key_] blocks; allocating and releasing flip bits with XOR
    merges.  A missing key is a group of free blocks.  The store is any
    [KeyValueDB]; the manager adds its changes to a transaction of its caller.
    Every public method is one step.  [None] is a failed assertion, an access
    out of bounds or an exception. *)
From stdpp Require Import base numbers list gmap.
From Stdlib Require Import ZArith Lia Ascii String.
From S2P Require Import Prelude IntArith KeyValue.
Import KeyValue.

Module Freelist.
#[local] Abbreviation length := Datatypes.length.

(** A string literal of the source. *)
Definition lit (s : string) : bytes := (fun c => Z.of_N (N_of_ascii c)) <$> list_ascii_of_string s.

(** ** Keys, bits and numbers *)

Definition key_encode_u64 (val : Z) : bytes :=
  [u8 (Z.shiftr val 56); u8 (Z.shiftr val 48); u8 (Z.shiftr val 40); u8 (Z.shiftr val 32);
   u8 (Z.shiftr val 24); u8 (Z.shiftr val 16); u8 (Z.shiftr val 8); u8 val].

(** [p] points at a [std::string]: the byte behind its last one is 0, and what
    follows must not be read. *)
Definition key_decode_u64 (p : bytes) : option Z :=
  if (length p <? 7)%nat then None else
  let at_ i := nth i p 0 in
  Some (fold_left Z.lor
    [Z.shiftl (at_ 0%nat) 56; Z.shiftl (at_ 1%nat) 48; Z.shiftl (at_ 2%nat) 40; Z.shiftl (at_ 3%nat) 32;
     Z.shiftl (at_ 4%nat) 24; Z.shiftl (at_ 5%nat) 16; Z.shiftl (at_ 6%nat) 8; at_ 7%nat] 0).

(** Bit [i] of the buffer: [p[i >> 3] & (1u << (i & 7))]. *)
Definition bit_at (bl : bytes) (i : Z) : bool := Z.testbit (nth (Z.to_nat (i / 8)) bl 0) (i mod 8).

(** The loop of the two searches: [n] bits are left. *)
Fixpoint next_bit (want : bool) (n : nat) (bl : bytes) (start : Z) : Z :=
  match n with
  | O => -1
  | S n => if Bool.eqb (bit_at bl start) want then start else next_bit want n bl (start + 1)
  end.

Definition bits_of (bl : bytes) : Z := 8 * Z.of_nat (length bl).
Definition get_next_clear_bit (bl : bytes) (start : Z) : Z := next_bit false (Z.to_nat (bits_of bl - start)) bl start.
Definition get_next_set_bit (bl : bytes) (start : Z) : Z := next_bit true (Z.to_nat (bits_of bl - start)) bl start.

Definition is_power_of_2 (v : Z) : bool := negb (v =? 0) && (Z.land v (v -64 1) =? 0).

(** [std::to_string(uint64_t)]: at most 20 digits, here from the last one. *)
Fixpoint digits (n : nat) (x : Z) (acc : bytes) : bytes :=
  match n with
  | O => acc
  | S n => let acc := (48 + x mod 10) :: acc in if x / 10 =? 0 then acc else digits n (x / 10) acc
  end.
Definition to_string (x : Z) : bytes := digits 20 x [].

(** [std::stoull]: white space, a sign and digits; [None] is the exception
    [invalid_argument] or [out_of_range]. *)
Definition is_space (c : Z) : bool := (c =? 32) || ((9 <=? c) && (c <=? 13)).
Definition is_digit (c : Z) : bool := (48 <=? c) && (c <=? 57).

Fixpoint scan_digits (s : bytes) (acc : Z) : Z :=
  match s with
  | [] => acc
  | c :: t => if is_digit c then scan_digits t (10 * acc + (c - 48)) else acc
  end.

Fixpoint skip_space (s : bytes) : bytes :=
  match s with
  | [] => []
  | c :: t => if is_space c then skip_space t else s
  end.

Definition stoull (s : bytes) : option Z :=
  let s := skip_space s in
  let '(neg, s) := match s with
    | 45 :: t => (true, t)
    | 43 :: t => (false, t)
    | _ => (false, s) end in
  match s with
  | [] => None
  | c :: _ =>
      if negb (is_digit c) then None else
      let v := scan_digits s 0 in
      if UINT64_MAX <? v then None else Some (if (neg : bool) then u64 (- v) else v)
  end.

Section Ops.
Context {DB It : Type} `{!KeyValueDB DB It}.

(** ** State *)

Record BitmapFreelistManager := mk_fm {
  meta_prefix_ : bytes;
  bitmap_prefix_ : bytes;
  size_ : Z;
  bytes_per_block_ : Z;
  blocks_per_key_ : Z;
  bytes_per_key_ : Z;
  blocks_ : Z;
  block_mask_ : Z;
  key_mask_ : Z;
  all_set_bl_ : bytes;
  enumerate_p_ : option It;
  enumerate_offset_ : Z;
  enumerate_bl_ : bytes;
  enumerate_bl_pos_ : Z;
  null_manager_ : bool;
}.

Definition new_fm (meta_prefix bitmap_prefix : bytes) : BitmapFreelistManager :=
  mk_fm meta_prefix bitmap_prefix 0 0 128 0 0 0 0 [] None 0 [] 0 false.

Definition set_null_manager (f : BitmapFreelistManager) : BitmapFreelistManager :=
  mk_fm (meta_prefix_ f) (bitmap_prefix_ f) (size_ f) (bytes_per_block_ f) (blocks_per_key_ f) (bytes_per_key_ f)
    (blocks_ f) (block_mask_ f) (key_mask_ f) (all_set_bl_ f) (enumerate_p_ f) (enumerate_offset_ f)
    (enumerate_bl_ f) (enumerate_bl_pos_ f) true.

(** The four fields that are stored. *)
Definition with_cfg (size blocks bpb bpk : Z) (f : BitmapFreelistManager) : BitmapFreelistManager :=
  mk_fm (meta_prefix_ f) (bitmap_prefix_ f) size bpb bpk (bytes_per_key_ f) blocks (block_mask_ f) (key_mask_ f)
    (all_set_bl_ f) (enumerate_p_ f) (enumerate_offset_ f) (enumerate_bl_ f) (enumerate_bl_pos_ f) (null_manager_ f).

(** The four fields of the enumeration. *)
Definition with_enum (p : option It) (off : Z) (bl : bytes) (pos : Z) (f : BitmapFreelistManager) : BitmapFreelistManager :=
  mk_fm (meta_prefix_ f) (bitmap_prefix_ f) (size_ f) (bytes_per_block_ f) (blocks_per_key_ f) (bytes_per_key_ f)
    (blocks_ f) (block_mask_ f) (key_mask_ f) (all_set_bl_ f) p off bl pos (null_manager_ f).

Definition _get_offset (f : BitmapFreelistManager) (key_off bit : Z) : Z := key_off +64 u64 (bit * bytes_per_block_ f).

Definition _init_misc (f : BitmapFreelistManager) : BitmapFreelistManager :=
  let all := replicate (Z.to_nat (Z.shiftr (blocks_per_key_ f) 3)) 255 in
  let bytes_per_key := bytes_per_block_ f *64 blocks_per_key_ f in
  mk_fm (meta_prefix_ f) (bitmap_prefix_ f) (size_ f) (bytes_per_block_ f) (blocks_per_key_ f) bytes_per_key
    (blocks_ f) (not64 (bytes_per_block_ f -64 1)) (not64 (bytes_per_key -64 1)) all (enumerate_p_ f)
    (enumerate_offset_ f) (enumerate_bl_ f) (enumerate_bl_pos_ f) (null_manager_ f).

Definition _size_2_block_count (f : BitmapFreelistManager) (target_size : Z) : Z :=
  let target_blocks := target_size / bytes_per_block_ f in
  if negb (target_blocks / blocks_per_key_ f * blocks_per_key_ f =? target_blocks)
  then (target_blocks / blocks_per_key_ f + 1) *64 blocks_per_key_ f
  else target_blocks.

(** ** Flipping bits *)

(** [n] iterations of [p[i >> 3] ^= 1ull << (i & 7)] from bit [i] on. *)
Fixpoint flip_bits (n : nat) (i : Z) (p : bytes) : option bytes :=
  match n with
  | O => Some p
  | S n =>
      b ← p !! Z.to_nat (Z.shiftr i 3);
      flip_bits n (i + 1) (<[Z.to_nat (Z.shiftr i 3) := u8 (Z.lxor b (Z.shiftl 1 (Z.land i 7)))]> p)
  end.

(** A zeroed buffer with the bits [s .. e-1] flipped, merged into key [k]. *)
Definition merge_bits (f : BitmapFreelistManager) (k s e : Z) (txn : Transaction) : option Transaction :=
  p ← flip_bits (Z.to_nat (e - s)) s (replicate (Z.to_nat (Z.shiftr (blocks_per_key_ f) 3)) 0);
  Some (txn_merge (bitmap_prefix_ f) (key_encode_u64 k) p txn).

(** [while (first_key < last_key)]. *)
Definition xor_step (f : BitmapFreelistManager) (last_key : Z) (s : Z * Transaction) : (Z * Transaction) + (Z * Transaction) :=
  let '(first_key, txn) := s in
  if first_key <? last_key then
    inl (first_key +64 bytes_per_key_ f, txn_merge (bitmap_prefix_ f) (key_encode_u64 first_key) (all_set_bl_ f) txn)
  else inr s.

Definition _xor (f : BitmapFreelistManager) (offset len : Z) (txn : Transaction) : option Transaction :=
  _ ← cxxlab_assert (Z.land offset (block_mask_ f) =? offset);
  _ ← cxxlab_assert (Z.land len (block_mask_ f) =? len);
  let last := offset +64 len -64 1 in
  let first_key := Z.land offset (key_mask_ f) in
  let last_key := Z.land last (key_mask_ f) in
  let s := u32 (Z.land offset (not64 (key_mask_ f)) / bytes_per_block_ f) in
  let e := u32 (Z.land last (not64 (key_mask_ f)) / bytes_per_block_ f) in
  if first_key =? last_key then merge_bits f first_key s (e + 1) txn
  else
    txn ← merge_bits f first_key s (u32 (blocks_per_key_ f)) txn;
    '(first_key, txn) ← while (xor_step f last_key) 64 (first_key +64 bytes_per_key_ f, txn);
    _ ← cxxlab_assert (first_key =? last_key);
    merge_bits f first_key 0 (e + 1) txn.

Definition allocate (f : BitmapFreelistManager) (offset len : Z) (txn : Transaction) : option Transaction :=
  if null_manager_ f then Some txn else _xor f offset len txn.
Definition release (f : BitmapFreelistManager) (offset len : Z) (txn : Transaction) : option Transaction :=
  if null_manager_ f then Some txn else _xor f offset len txn.

(** ** Creation *)

Definition create (new_size granularity : Z) (txn : Transaction) (f : BitmapFreelistManager) :
  option (Z * Transaction * BitmapFreelistManager) :=
  _ ← cxxlab_assert (is_power_of_2 granularity);
  let f := with_cfg (Z.land new_size (not64 (granularity -64 1))) (blocks_ f) granularity 128 f in
  let f := _init_misc f in
  let f := with_cfg (size_ f) (_size_2_block_count f (size_ f)) (bytes_per_block_ f) (blocks_per_key_ f) f in
  let total := blocks_ f *64 bytes_per_block_ f in
  txn ← if size_ f <? total then _xor f (size_ f) (total -64 size_ f) txn else Some txn;
  txn ← _xor f 0 (bytes_per_block_ f) txn;
  let put k v txn := txn_set (meta_prefix_ f) (lit k) (le_bytes 8 v) txn in
  let txn := put "size"%string (size_ f) (put "blocks"%string (blocks_ f)
    (put "blocks_per_key"%string (blocks_per_key_ f) (put "bytes_per_block"%string (bytes_per_block_ f) txn))) in
  Some (0, txn, f).

(** ** Opening *)

(** One entry of [_read_cfg]: the value is stored when the reader has it. *)
Definition read_entry (cfg_reader : bytes -> Z * bytes) (key : string)
    (store : Z -> BitmapFreelistManager -> BitmapFreelistManager) (f : BitmapFreelistManager) :
  option (Z * BitmapFreelistManager) :=
  let '(r, val) := cfg_reader (lit key) in
  if negb (r =? 0) then Some (r, f) else v ← stoull val; Some (0, store v f).

Fixpoint read_entries (cfg_reader : bytes -> Z * bytes)
    (l : list (string * (Z -> BitmapFreelistManager -> BitmapFreelistManager))) (f : BitmapFreelistManager) :
  option (Z * BitmapFreelistManager) :=
  match l with
  | [] => Some (0, f)
  | (k, store) :: l =>
      '(r, f) ← read_entry cfg_reader k store f;
      if negb (r =? 0) then Some (r, f) else read_entries cfg_reader l f
  end.

Definition set_size v f := with_cfg v (blocks_ f) (bytes_per_block_ f) (blocks_per_key_ f) f.
Definition set_blocks v f := with_cfg (size_ f) v (bytes_per_block_ f) (blocks_per_key_ f) f.
Definition set_bytes_per_block v f := with_cfg (size_ f) (blocks_ f) v (blocks_per_key_ f) f.
Definition set_blocks_per_key v f := with_cfg (size_ f) (blocks_ f) (bytes_per_block_ f) v f.

(** [cfg_reader] may be empty. *)
Definition _read_cfg (cfg_reader : option (bytes -> Z * bytes)) (f : BitmapFreelistManager) :
  option (Z * BitmapFreelistManager) :=
  match cfg_reader with
  | None => Some (-1, f)
  | Some rd =>
      read_entries rd [("bfm_size"%string, set_size); ("bfm_blocks"%string, set_blocks);
        ("bfm_bytes_per_block"%string, set_bytes_per_block); ("bfm_blocks_per_key"%string, set_blocks_per_key)] f
  end.

(** The body of the loop of [_load_from_db]. *)
Definition load_entry (k bl : bytes) (f : BitmapFreelistManager) : option BitmapFreelistManager :=
  let num store := _ ← cxxlab_assert (length bl =? 8)%nat; Some (store (le_val bl) f) in
  if str_eq k (lit "bytes_per_block") then num set_bytes_per_block
  else if str_eq k (lit "blocks") then num set_blocks
  else if str_eq k (lit "size") then num set_size
  else if str_eq k (lit "blocks_per_key") then num set_blocks_per_key
  else Some f.

Definition load_step (s : It * BitmapFreelistManager) : (It * BitmapFreelistManager) + option BitmapFreelistManager :=
  let '(it, f) := s in
  match it_valid it with
  | None => inr None
  | Some false => inr (Some f)
  | Some true =>
      match (k ← it_key it; bl ← it_value it; load_entry k bl f) with
      | None => inr None
      | Some f => inl ((it_next it).2, f)
      end
  end.

Definition _load_from_db (kvdb : DB) (f : BitmapFreelistManager) : option BitmapFreelistManager :=
  let it := kv_get_iterator kvdb (meta_prefix_ f) in
  let '(_, it) := it_lower_bound kvdb it [] in
  mjoin (while load_step 64 (it, f)).

Definition init (kvdb : DB) (cfg_reader : option (bytes -> Z * bytes)) (f : BitmapFreelistManager) :
  option (Z * BitmapFreelistManager) :=
  '(r, f) ← _read_cfg cfg_reader f;
  f ← if negb (r =? 0) then _load_from_db kvdb f else Some f;
  Some (0, _init_misc f).

Definition get_meta (f : BitmapFreelistManager) (target_size : Z) : list (bytes * bytes) :=
  let '(blocks, size) :=
    if target_size =? 0 then (blocks_ f, size_ f)
    else let t := Z.land target_size (not64 (bytes_per_block_ f -64 1)) in (_size_2_block_count f t, t) in
  [(lit "bfm_blocks", to_string blocks); (lit "bfm_size", to_string size);
   (lit "bfm_bytes_per_block", to_string (bytes_per_block_ f)); (lit "bfm_blocks_per_key", to_string (blocks_per_key_ f))].

(** ** Enumeration *)

Definition enumerate_reset (f : BitmapFreelistManager) : BitmapFreelistManager := with_enum None 0 [] 0 f.

(** The next key of the iterator, when there is one: its block offset and bits. *)
Definition next_key (it : It) : option (option (Z * bytes)) :=
  b ← it_valid it;
  if (b : bool) then
    k ← it_key it; off ← key_decode_u64 k; bl ← it_value it; Some (Some (off, bl))
  else Some None.

(** The first loop: finds the start of the next free range. *)
Definition find_free (f : BitmapFreelistManager) : option (BitmapFreelistManager + (Z * BitmapFreelistManager)) :=
  let pos := get_next_clear_bit (enumerate_bl_ f) (enumerate_bl_pos_ f) in
  it ← enumerate_p_ f;
  if 0 <=? pos then
    Some (inr (_get_offset f (enumerate_offset_ f) pos, with_enum (Some it) (enumerate_offset_ f) (enumerate_bl_ f) pos f))
  else
    let it := (it_next it).2 in
    let next := enumerate_offset_ f +64 bytes_per_key_ f in
    r ← next_key it;
    match r with
    | None => Some (inr (_get_offset f next 0, with_enum (Some it) next [] 0 f))
    | Some (off, bl) =>
        let f := with_enum (Some it) off bl 0 f in
        Some (if next <? off then inr (next, f) else inl f)
    end.

(** The second loop: the end of the range, [None] when the keys run out. *)
Definition find_used (f : BitmapFreelistManager) : option (BitmapFreelistManager + (option Z * BitmapFreelistManager)) :=
  let pos := get_next_set_bit (enumerate_bl_ f) (enumerate_bl_pos_ f) in
  it ← enumerate_p_ f;
  if 0 <=? pos then
    let e := Z.min (blocks_ f *64 bytes_per_block_ f) (_get_offset f (enumerate_offset_ f) pos) in
    Some (inr (Some e, with_enum (Some it) (enumerate_offset_ f) (enumerate_bl_ f) pos f))
  else
    let it := (it_next it).2 in
    r ← next_key it;
    match r with
    | None => Some (inr (None, with_enum (Some it) (enumerate_offset_ f) [] 0 f))
    | Some (off, bl) => Some (inl (with_enum (Some it) off bl 0 f))
    end.

(** The start of an enumeration; [None] inside is "the free list is empty". *)
Definition enumerate_start (kvdb : DB) (f : BitmapFreelistManager) : option (option BitmapFreelistManager) :=
  if (enumerate_offset_ f =? 0) && (enumerate_bl_pos_ f =? 0) then
    let it := kv_get_iterator kvdb (bitmap_prefix_ f) in
    let '(_, it) := it_lower_bound kvdb it [] in
    r ← next_key it;
    match r with
    | None => Some None
    | Some (off, bl) =>
        _ ← cxxlab_assert (off =? 0);
        Some (Some (with_enum (Some it) off bl (enumerate_bl_pos_ f) f))
    end
  else Some (Some f).

(** The result is the extent that [*offset] and [*length] are set to, or [None]
    where the method returns false. *)
Definition enumerate_next (kvdb : DB) (f : BitmapFreelistManager) : option (option (Z * Z) * BitmapFreelistManager) :=
  s ← enumerate_start kvdb f;
  match s with
  | None => Some (None, with_enum (Some (it_lower_bound kvdb (kv_get_iterator kvdb (bitmap_prefix_ f)) []).2) 0 (enumerate_bl_ f) 0 f)
  | Some f =>
      if size_ f <=? enumerate_offset_ f then Some (None, f) else
      '(offset, f) ← whileM find_free 64 f;
      it ← enumerate_p_ f;
      valid ← it_valid it;
      '(end_, f) ← if (valid : bool) then whileM find_used 64 f else Some (None, f);
      match end_ with
      | Some e => Some (Some (offset, e -64 offset), f)
      | None =>
          if enumerate_offset_ f <? size_ f then
            Some (Some (offset, blocks_ f *64 bytes_per_block_ f -64 offset),
              with_enum (enumerate_p_ f) (size_ f) (enumerate_bl_ f) (blocks_per_key_ f) f)
          else Some (None, f)
      end
  end.

End Ops.
Arguments BitmapFreelistManager : clear implicits.

End Freelist.
