(* ===== verification/FreelistBits.v ===== *)
(** * The bitmap of the free list: keys, bits and merges

    Facts about the encodings of [Freelist]: big-endian keys keep the order of
    the offsets, the bit searches find the next bit, and a transaction of XOR
    merges flips a range of blocks. *)
From stdpp Require Import base numbers list gmap.
From Stdlib Require Import ZArith Lia ZifyBool.
From S2P Require Import Prelude IntArith KeyValue Freelist.
Import KeyValue Freelist.

Module FreelistBits.
#[local] Abbreviation length := Datatypes.length.

(** ** Keys *)

Lemma u8_shift_bit x k n :
  0 <= k -> 0 <= n ->
  Z.testbit (Z.shiftl (u8 (Z.shiftr x k)) k) n = ((k <=? n) && (n <? k + 8)) && Z.testbit x n.
Proof.
  intros Hk Hn. rewrite Z.shiftl_spec by done. destruct (Z.leb_spec k n); [|by rewrite Z.testbit_neg_r by lia].
  unfold u8, wrap. destruct (Z.ltb_spec n (k + 8)); simpl.
  - rewrite Z.mod_pow2_bits_low by lia. rewrite Z.shiftr_spec by lia. f_equal. lia.
  - by rewrite Z.mod_pow2_bits_high by lia.
Qed.

Lemma key_decode_encode x : 0 <= x < 2 ^ 64 -> key_decode_u64 (key_encode_u64 x) = Some x.
Proof.
  intros Hx. unfold key_decode_u64, key_encode_u64. cbn [Datatypes.length Nat.ltb Nat.leb nth fold_left]. f_equal.
  apply Z.bits_inj'. intros n Hn. 
  replace (u8 x) with (Z.shiftl (u8 (Z.shiftr x 0)) 0) by (by rewrite Z.shiftl_0_r, Z.shiftr_0_r).
  rewrite !Z.lor_spec, Z.bits_0. rewrite !u8_shift_bit by lia.
  destruct (Z.testbit x n) eqn:E; [|by rewrite !andb_false_r].
  assert (n < 64) by (destruct (Z.lt_ge_cases n 64); [done|]; rewrite Z.bits_above_log2 in E; [done|lia|];
    destruct (decide (x = 0)) as [->|]; [simpl; lia|]; assert (Z.log2 x < 64) by (apply Z.log2_lt_pow2; lia); lia).
  lia.
Qed.

(** Big-endian digits of [x], most significant first. *)
Fixpoint be (n : nat) (x : Z) : bytes :=
  match n with O => [] | S m => (x / 256 ^ Z.of_nat m) mod 256 :: be m x end.

Lemma be_mod n x k : (n <= k)%nat -> be n (x mod 256 ^ Z.of_nat k) = be n x.
Proof.
  induction n as [|n IH]; intros Hk; [done|]. simpl. rewrite IH by lia. f_equal.
  set (P := 256 ^ Z.of_nat n). set (Q := 256 ^ (Z.of_nat k - Z.of_nat n - 1)).
  assert (256 ^ Z.of_nat k = Q * 256 * P) as ->.
  { subst P Q. replace (Z.of_nat k) with ((Z.of_nat k - Z.of_nat n - 1) + 1 + Z.of_nat n) at 1 by lia.
    by rewrite !Z.pow_add_r by lia. }
  assert (0 < P) by (subst P; lia). assert (0 < Q) by (subst Q; apply Z.pow_pos_nonneg; lia).
  pose proof (Z.div_mod x (Q * 256 * P) ltac:(lia)) as E. set (r := x mod (Q * 256 * P)) in *. set (q := x / (Q * 256 * P)) in *.
  assert (x / P = r / P + q * Q * 256) as ->; [|by rewrite Z.mod_add by lia].
  rewrite <- Z.div_add by lia. f_equal. lia.
Qed.

Lemma be_lt n a b :
  0 <= a < 256 ^ Z.of_nat n -> 0 <= b < 256 ^ Z.of_nat n -> str_lt (be n a) (be n b) = (a <? b).
Proof.
  revert a b. induction n as [|n IH]; intros a b Ha Hb; [simpl in *; lia|].
  cbn [be str_lt]. rewrite Nat2Z.inj_succ, Z.pow_succ_r in Ha, Hb by lia. set (P := 256 ^ Z.of_nat n) in *.
  assert (0 < P) by (subst P; lia).
  rewrite !(Z.mod_small (_ / P)) by (split; [apply Z.div_pos; lia|apply Z.div_lt_upper_bound; lia]).
  rewrite <- (be_mod n a n), <- (be_mod n b n) by done. fold P.
  rewrite IH by (apply Z.mod_pos_bound; lia).
  pose proof (Z.div_mod a P ltac:(lia)). pose proof (Z.div_mod b P ltac:(lia)).
  pose proof (Z.mod_pos_bound a P ltac:(lia)). pose proof (Z.mod_pos_bound b P ltac:(lia)).
  destruct (Z.ltb_spec (a / P) (b / P)); simpl; [symmetry; apply Z.ltb_lt; nia|].
  destruct (Z.eqb_spec (a / P) (b / P)) as [E|]; simpl.
  - rewrite E in *. destruct (Z.ltb_spec (a mod P) (b mod P)); lia.
  - symmetry. apply Z.ltb_ge. nia.
Qed.

Lemma key_encode_be x : key_encode_u64 x = be 8 x.
Proof.
  unfold key_encode_u64, u8, wrap. rewrite !Z.shiftr_div_pow2 by lia. cbn [be].
  change (256 ^ Z.of_nat 0) with 1. by rewrite Z.div_1_r.
Qed.

Lemma key_encode_lt a b :
  0 <= a < 2 ^ 64 -> 0 <= b < 2 ^ 64 -> str_lt (key_encode_u64 a) (key_encode_u64 b) = (a <? b).
Proof. intros. rewrite !key_encode_be. by apply be_lt. Qed.

Lemma key_encode_inj a b :
  0 <= a < 2 ^ 64 -> 0 <= b < 2 ^ 64 -> key_encode_u64 a = key_encode_u64 b -> a = b.
Proof. intros Ha Hb E. apply (f_equal key_decode_u64) in E. rewrite !key_decode_encode in E by done. congruence. Qed.

(** ** Bits *)

Lemma next_bit_spec want n bl start :
  (next_bit want n bl start = -1 /\ forall j, start <= j < start + Z.of_nat n -> bit_at bl j = negb want) \/
  (exists r, next_bit want n bl start = r /\ start <= r < start + Z.of_nat n /\ bit_at bl r = want /\
    forall j, start <= j < r -> bit_at bl j = negb want).
Proof.
  revert start. induction n as [|n IH]; intros start; simpl; [left; split; [done|lia]|].
  destruct (Bool.eqb_spec (bit_at bl start) want) as [E|E].
  - right. exists start. split_and!; try done; lia.
  - assert (bit_at bl start = negb want) as E' by (by destruct (bit_at bl start), want).
    assert (forall r j, (forall j, start + 1 <= j < r -> bit_at bl j = negb want) -> start <= j < r -> bit_at bl j = negb want) as Hext.
    { intros r j Hr Hj. destruct (decide (j = start)) as [->|]; [done|]. apply Hr. lia. }
    destruct (IH (start + 1)) as [[-> Hn]|(r & -> & Hr & Hb & Hn)].
    + left. split; [done|]. intros j Hj. apply (Hext (start + Z.of_nat (S n))); [|done].
      intros j' Hj'. apply Hn. lia.
    + right. exists r. split_and!; try done; [lia..|]. intros j Hj. by apply (Hext r).
Qed.

(** One search: the bits from [start] on, up to the result, are all the other way. *)
Definition scan_result (want : bool) (bl : bytes) (start r : Z) : Prop :=
  (r = -1 /\ forall j, start <= j < bits_of bl -> bit_at bl j = negb want) \/
  (start <= r < bits_of bl /\ bit_at bl r = want /\ forall j, start <= j < r -> bit_at bl j = negb want).

Lemma next_bit_scan want bl start :
  0 <= start -> scan_result want bl start (next_bit want (Z.to_nat (bits_of bl - start)) bl start).
Proof.
  intros Hs. destruct (next_bit_spec want (Z.to_nat (bits_of bl - start)) bl start) as [[-> Hn]|(r & -> & Hr & Hb & Hn)].
  - left. split; [done|]. intros j Hj. apply Hn. lia.
  - right. split_and!; try done; lia.
Qed.

Lemma testbit_flip b i j : 0 <= i < 8 -> 0 <= j < 8 ->
  Z.testbit (u8 (Z.lxor b (Z.shiftl 1 i))) j = xorb (Z.testbit b j) (j =? i).
Proof.
  intros Hi Hj. unfold u8, wrap. rewrite Z.mod_pow2_bits_low by lia. rewrite Z.lxor_spec, Z.shiftl_spec by lia. f_equal.
  destruct (Z.eqb_spec j i) as [->|]; [by rewrite Z.sub_diag|].
  destruct (Z.lt_ge_cases j i); [by rewrite Z.testbit_neg_r by lia|].
  change 1 with (2 ^ 0). rewrite Z.pow2_bits_eqb by lia. lia.
Qed.

Lemma bit_at_insert p i v j :
  0 <= j -> (i < length p)%nat ->
  bit_at (<[i := v]> p) j = if decide (Z.to_nat (j / 8) = i) then Z.testbit v (j mod 8) else bit_at p j.
Proof.
  intros Hj Hi. unfold bit_at. rewrite !nth_lookup. case_decide as E.
  - by rewrite E, list_lookup_insert_eq.
  - by rewrite list_lookup_insert_ne by done.
Qed.

Lemma flip_bits_spec n i p :
  0 <= i -> i + Z.of_nat n <= bits_of p ->
  exists p', flip_bits n i p = Some p' /\ length p' = length p /\
    forall j, 0 <= j -> bit_at p' j = xorb (bit_at p j) ((i <=? j) && (j <? i + Z.of_nat n)).
Proof.
  unfold bits_of. revert i p. induction n as [|n IH]; intros i p Hi Hn; cbn [flip_bits].
  { exists p. split_and!; try done. intros j Hj. replace ((i <=? j) && (j <? i + Z.of_nat 0)) with false by lia. by rewrite xorb_false_r. }
  change 7 with (Z.ones 3). rewrite Z.shiftr_div_pow2, Z.land_ones by lia. change (2 ^ 3) with 8.
  pose proof (Z.div_mod i 8 ltac:(lia)). pose proof (Z.mod_pos_bound i 8 ltac:(lia)).
  destruct (lookup_lt_is_Some_2 p (Z.to_nat (i / 8)) ltac:(lia)) as [b Hb]. rewrite Hb. cbn [mbind option_bind].
  destruct (IH (i + 1) (<[Z.to_nat (i / 8) := u8 (Z.lxor b (Z.shiftl 1 (i mod 8)))]> p)) as (p' & -> & Hl & Hp');
    [lia|rewrite length_insert; lia|]. rewrite length_insert in Hl.
  exists p'. split_and!; try done. intros j Hj. rewrite Hp' by done. rewrite bit_at_insert by lia.
  pose proof (Z.div_mod j 8 ltac:(lia)). pose proof (Z.mod_pos_bound j 8 ltac:(lia)).
  case_decide as E.
  - rewrite testbit_flip by lia. unfold bit_at. rewrite (nth_lookup_Some p (Z.to_nat (j / 8)) 0 b) by (by rewrite E).
    assert (j / 8 = i / 8) as E' by (apply Z2Nat.inj in E; [done|apply Z.div_pos; lia..]).
    destruct (Z.testbit b (j mod 8)); lia.
  - assert (j <> i) by congruence. f_equal. lia.
Qed.

Lemma bit_at_replicate n v j : 0 <= j < 8 * Z.of_nat n -> bit_at (replicate n v) j = Z.testbit v (j mod 8).
Proof.
  intros Hj. unfold bit_at. rewrite nth_lookup. pose proof (Z.div_mod j 8 ltac:(lia)). pose proof (Z.mod_pos_bound j 8 ltac:(lia)).
  rewrite lookup_replicate_2 by lia. done.
Qed.

Lemma testbit_255 j : 0 <= j < 8 -> Z.testbit 255 j = true.
Proof. intros. change 255 with (Z.ones 8). rewrite Z.ones_spec_low; lia. Qed.

Lemma bit_at_xor l r j : length l = length r -> bit_at (zip_with Z.lxor l r) j = xorb (bit_at l j) (bit_at r j).
Proof.
  intros E. unfold bit_at. rewrite !nth_lookup, lookup_zip_with.
  destruct (l !! Z.to_nat (j / 8)) as [x|] eqn:El; simpl.
  - destruct (lookup_lt_is_Some_2 r (Z.to_nat (j / 8))) as [y Hy]; [apply lookup_lt_Some in El; lia|].
    rewrite Hy. simpl. apply Z.lxor_spec.
  - apply lookup_ge_None in El. rewrite (lookup_ge_None_2 r) by lia. simpl. by rewrite Z.bits_0.
Qed.

(** ** Geometry *)

(** The fields of an opened manager: [2^g] bytes per block, [2^b] blocks per
    key, [blocks_] a whole number of keys that just covers [size_]. *)
Record geometry {It} (f : BitmapFreelistManager It) (g b : Z) : Prop := {
  geo_g : 0 <= g;
  geo_b : 3 <= b < 32;
  geo_gb : g + b < 64;
  geo_bpb : bytes_per_block_ f = 2 ^ g;
  geo_bpk : blocks_per_key_ f = 2 ^ b;
  geo_bytes : bytes_per_key_ f = 2 ^ (g + b);
  geo_bmask : block_mask_ f = not64 (2 ^ g - 1);
  geo_kmask : key_mask_ f = not64 (2 ^ (g + b) - 1);
  geo_all : all_set_bl_ f = replicate (Z.to_nat (2 ^ b / 8)) 255;
  geo_mult : blocks_ f mod 2 ^ b = 0;
  geo_total : blocks_ f * 2 ^ g < 2 ^ 64;
  geo_size : blocks_ f * 2 ^ g - 2 ^ (g + b) < size_ f <= blocks_ f * 2 ^ g;
  geo_pos : 0 < size_ f;
  geo_align : size_ f mod 2 ^ g = 0;
  geo_meta : nul_free (meta_prefix_ f);
  geo_bitmap : nul_free (bitmap_prefix_ f);
  geo_prefixes : meta_prefix_ f <> bitmap_prefix_ f;
  geo_null : null_manager_ f = false;
}.

Lemma not64_mask k : 0 <= k < 64 -> not64 (2 ^ k - 1) = wrap 64 (- 2 ^ k).
Proof. intros. unfold not64, u64. f_equal. unfold Z.lnot. lia. Qed.

Lemma land_not64 x k : 0 <= k < 64 -> 0 <= x < 2 ^ 64 -> Z.land x (not64 (2 ^ k - 1)) = x - x mod 2 ^ k.
Proof. intros Hk Hx. rewrite not64_mask by done. etrans; [apply (IntArith.p2align_spec 64); first [exact Hx|lia]|]. pose proof (Z.div_mod x (2 ^ k)). assert (0 < 2 ^ k) by (apply Z.pow_pos_nonneg; lia). lia. Qed.

Lemma not64_not64 k : 0 <= k < 64 -> not64 (not64 (2 ^ k - 1)) = 2 ^ k - 1.
Proof.
  intros Hk. unfold not64. assert (2 ^ k <= 2 ^ 63) by (apply Z.pow_le_mono_r; lia). assert (0 < 2 ^ k) by (apply Z.pow_pos_nonneg; lia).
  unfold Z.lnot. assert (u64 (Z.pred (- (2 ^ k - 1))) = 2 ^ 64 - 2 ^ k) as ->.
  { symmetry. apply (Z.mod_unique _ _ (-1)); lia. }
  symmetry. apply (Z.mod_unique _ _ (-1)); lia.
Qed.

Lemma land_low x k : 0 <= k < 64 -> Z.land x (not64 (not64 (2 ^ k - 1))) = x mod 2 ^ k.
Proof. intros Hk. rewrite not64_not64 by done. replace (2 ^ k - 1) with (Z.ones k) by (rewrite Z.ones_equiv; lia). apply Z.land_ones. lia. Qed.

(** ** What the store holds *)

Section Rep.
Context {It : Type} (f : BitmapFreelistManager It) (g b : Z) (Hgeo : geometry f g b).
#[local] Abbreviation N := (2 ^ b).
#[local] Abbreviation U := (2 ^ g).
#[local] Abbreviation K := (blocks_ f / 2 ^ b).
#[local] Abbreviation bp := (bitmap_prefix_ f).

Definition key_of (i : Z) : bytes := key_encode_u64 (i * 2 ^ (g + b)).

(** The store holds the bitmap [al] ([al x] : block [x] is allocated). *)
Definition holds (c : kvmap) (al : Z -> bool) : Prop :=
  (forall k v, c !! (bp, k) = Some v -> exists i, 0 <= i < K /\ k = key_of i /\ bits_of v = N) /\
  (forall i j, 0 <= i < K -> 0 <= j < N ->
     al (i * N + j) = match c !! (bp, key_of i) with None => false | Some v => bit_at v j end).

Lemma pow_facts : 0 < U /\ 8 <= N /\ 0 < 2 ^ (g + b) < 2 ^ 64 /\ 2 ^ (g + b) = N * U /\ N mod 8 = 0 /\ N < 2 ^ 32.
Proof using Hgeo.
  destruct Hgeo. assert (2 ^ b = 8 * 2 ^ (b - 3)) as Eb by (change 8 with (2 ^ 3); rewrite <- Z.pow_add_r by lia; f_equal; lia).
  assert (0 < 2 ^ (b - 3)) by (apply Z.pow_pos_nonneg; lia). split_and!.
  - apply Z.pow_pos_nonneg; lia.
  - lia.
  - apply Z.pow_pos_nonneg; lia.
  - apply Z.pow_lt_mono_r; lia.
  - rewrite Z.pow_add_r by lia. lia.
  - rewrite Eb, Z.mul_comm. apply Z.mod_mul. lia.
  - apply Z.pow_lt_mono_r; lia.
Qed.

Lemma blocks_eq : blocks_ f = K * N.
Proof using Hgeo.
  assert (N <> 0) as Hn by (destruct pow_facts as (_ & ? & _); lia).
  pose proof (Z.div_mod (blocks_ f) N Hn) as E. rewrite (geo_mult _ _ _ Hgeo) in E. lia.
Qed.

Lemma key_bound i : 0 <= i < K -> 0 <= i * 2 ^ (g + b) < 2 ^ 64.
Proof using Hgeo.
  destruct pow_facts as (? & ? & _ & -> & _). pose proof blocks_eq as E. pose proof (geo_total _ _ _ Hgeo) as Ht.
  intros Hi. rewrite E in Ht. nia.
Qed.

Lemma key_of_inj i j : 0 <= i < K -> 0 <= j < K -> key_of i = key_of j -> i = j.
Proof using Hgeo.
  intros Hi Hj E. apply (key_encode_inj _ _ (key_bound i Hi) (key_bound j Hj)) in E.
  apply Z.mul_reg_r in E; [done|]. destruct pow_facts as (_ & _ & ? & _). lia.
Qed.

Lemma block_split x : 0 <= x < blocks_ f -> 0 <= x / N < K /\ 0 <= x mod N < N /\ x = x / N * N + x mod N.
Proof using Hgeo.
  intros Hx. destruct pow_facts as (_ & ? & _). pose proof blocks_eq. split_and!.
  - apply Z.div_pos; lia.
  - apply Z.div_lt_upper_bound; lia.
  - apply Z.mod_pos_bound; lia.
  - apply Z.mod_pos_bound; lia.
  - pose proof (Z.div_mod x N). lia.
Qed.

Lemma split_div i j : 0 <= j < N -> (i * N + j) / N = i /\ (i * N + j) mod N = j.
Proof using Hgeo.
  intros Hj. rewrite Z.add_comm. rewrite Z.div_add, Z.mod_add by lia. rewrite Z.div_small, Z.mod_small by done. lia.
Qed.

Lemma holds_ext c al al' : holds c al -> (forall x, 0 <= x < blocks_ f -> al' x = al x) -> holds c al'.
Proof using Hgeo.
  intros [H1 H2] E. split; [done|]. intros i j Hi Hj. rewrite <- H2 by done. apply E.
  pose proof blocks_eq. nia.
Qed.

(** The transaction [ops] flips the blocks [lo .. hi-1]. *)
Definition flips (mop : mop_fns) (ops : Transaction) (lo hi : Z) : Prop :=
  Forall (fun o => op_prefix o = bp) ops /\
  forall c al, holds c al -> exists c', txn_spec mop ops c = Some (0, c') /\
    holds c' (fun x => xorb (al x) ((lo <=? x) && (x <? hi))) /\
    forall p k, p <> bp -> c' !! (p, k) = c !! (p, k).

Lemma txn_spec_app mop t1 t2 c c1 :
  txn_spec mop t1 c = Some (0, c1) -> txn_spec mop (t1 ++ t2) c = txn_spec mop t2 c1.
Proof using.
  clear Hgeo. revert c. induction t1 as [|o t1 IH]; intros c; simpl; [by intros [= ->]|].
  destruct (op_spec mop o c) as [[r c']|]; [|done]. simpl. destruct (Z.ltb_spec r 0); [intros [= -> ->]; lia|apply IH].
Qed.

Lemma flips_app mop t1 t2 lo mid hi :
  lo <= mid <= hi -> flips mop t1 lo mid -> flips mop t2 mid hi -> flips mop (t1 ++ t2) lo hi.
Proof using Hgeo.
  intros Hm [P1 H1] [P2 H2]. split; [by apply Forall_app|]. intros c al Hc.
  destruct (H1 c al Hc) as (c1 & E1 & Hc1 & F1). destruct (H2 c1 _ Hc1) as (c2 & E2 & Hc2 & F2).
  exists c2. rewrite (txn_spec_app _ _ _ _ _ E1). split; [done|]. split; [|intros; rewrite F2; auto].
  eapply holds_ext; [exact Hc2|]. intros x _. cbn beta. rewrite xorb_assoc. f_equal. lia.
Qed.

Lemma flips_nil mop lo : flips mop [] lo lo.
Proof using Hgeo.
  split; [done|]. intros c al Hc. exists c. split_and!; try done. eapply holds_ext; [exact Hc|].
  intros x _. replace ((lo <=? x) && (x <? lo)) with false by lia. apply xorb_false_r.
Qed.

(** A merge into the key [i] with the bits [s .. e-1] set. *)
Lemma flips_one mop i s e m :
  mop bp = Some (merge_nonexistent XorMergeOperator, merge XorMergeOperator) ->
  0 <= i < K -> 0 <= s <= e -> e <= N -> bits_of m = N ->
  (forall j, 0 <= j < N -> bit_at m j = (s <=? j) && (j <? e)) ->
  flips mop [mk_op MERGE bp (key_of i) [] m] (i * N + s) (i * N + e).
Proof using Hgeo.
  intros Hmop Hi Hs He Hm Hbits. split; [by repeat constructor|]. intros c al [H1 H2].
  assert (exists v, bits_of v = N /\ (forall j, 0 <= j < N -> bit_at v j = xorb (al (i * N + j)) (bit_at m j)) /\
    op_spec mop (mk_op MERGE bp (key_of i) [] m) c = Some (0, <[(bp, key_of i) := v]> c)) as (v & Hv & Hvb & Hop).
  { unfold op_spec. cbn [op_type op_prefix op_key op_value]. rewrite Hmop. cbn [merge_nonexistent merge XorMergeOperator].
    destruct (c !! (bp, key_of i)) as [l|] eqn:El.
    - destruct (H1 _ _ El) as (i' & _ & _ & Hl). unfold bits_of in *. unfold xor_merge.
      assert (length l = length m) as E by lia. rewrite (proj2 (Nat.eqb_eq _ _) E). cbn [cxxlab_assert mbind option_bind].
      eexists. split_and!; [| |done]; [rewrite length_zip_with_l_eq by done; done|].
      intros j Hj. rewrite bit_at_xor by done. by rewrite H2, El by done.
    - exists m. split_and!; try done. intros j Hj. by rewrite H2, El, xorb_false_l by done. }
  exists (<[(bp, key_of i) := v]> c). split; [simpl; by rewrite Hop|]. split; [split|].
  - intros k w. destruct (decide (k = key_of i)) as [->|Hne].
    + rewrite lookup_insert_eq. intros [= <-]. eauto.
    + rewrite lookup_insert_ne by congruence. apply H1.
  - intros i' j Hi' Hj. destruct (decide (i' = i)) as [->|Hne].
    + rewrite lookup_insert_eq, Hvb, Hbits by done. f_equal. lia.
    + assert (key_of i <> key_of i') as Hk by (intros E; apply Hne; symmetry; by apply key_of_inj).
      rewrite lookup_insert_ne by congruence. rewrite <- H2 by done.
      destruct pow_facts as (_ & ? & _).
      replace ((i * N + s <=? i' * N + j) && (i' * N + j <? i * N + e)) with false; [apply xorb_false_r|].
      destruct (Z.lt_ge_cases i' i); nia.
  - intros p k Hp. by rewrite lookup_insert_ne by congruence.
Qed.

End Rep.

End FreelistBits.
