(* ===== verification/FreelistSpec.v ===== *)
(** * What the free list promises

    [allocate] and [release] flip the bits of their range in the stored bitmap;
    enumeration returns the maximal runs of free blocks; a created manager opens
    again with the same geometry.  All of it for any store that meets
    [KeyValueDBSpec]. *)
From stdpp Require Import base numbers list gmap sorting.
From Stdlib Require Import ZArith Lia ZifyBool Sorted String.
From S2P Require Import Prelude IntArith KeyValue Freelist FreelistBits.
Import KeyValue Freelist FreelistBits.

Module FreelistSpec.
#[local] Abbreviation length := Datatypes.length.

(** ** Flipping a range *)

Section Xor.
Context {It : Type} (f : BitmapFreelistManager It) (g b : Z) (Hgeo : geometry f g b).
Context (mop : mop_fns) (Hmop : mop (bitmap_prefix_ f) = Some (merge_nonexistent XorMergeOperator, merge XorMergeOperator)).
#[local] Abbreviation N := (2 ^ b).
#[local] Abbreviation U := (2 ^ g).
#[local] Abbreviation K := (blocks_ f / 2 ^ b).
#[local] Abbreviation B := (2 ^ (g + b)).

Lemma mask_bytes v : bits_of (replicate (Z.to_nat (Z.shiftr (blocks_per_key_ f) 3)) v) = N.
Proof using Hgeo.
  unfold bits_of. rewrite length_replicate, (geo_bpk _ _ _ Hgeo), Z.shiftr_div_pow2 by lia. change (2 ^ 3) with 8.
  destruct (pow_facts f g b Hgeo) as (_ & ? & _ & _ & ? & _).
  pose proof (Z.div_mod N 8 ltac:(lia)). pose proof (Z.div_pos N 8 ltac:(lia) ltac:(lia)). lia.
Qed.

Lemma merge_bits_flips i s e t :
  0 <= i < K -> 0 <= s <= e -> e <= N ->
  exists o, merge_bits f (i * 2 ^ (g + b)) s e t = Some (t ++ [o]) /\ flips f g b mop [o] (i * N + s) (i * N + e).
Proof using Hgeo Hmop.
  intros Hi Hs He. unfold merge_bits. set (z := replicate _ 0).
  assert (bits_of z = N) as Hz by apply mask_bytes.
  destruct (flip_bits_spec (Z.to_nat (e - s)) s z ltac:(lia) ltac:(lia)) as (p & -> & Hl & Hp).
  cbn [mbind option_bind]. eexists. split; [done|].
  apply flips_one; try done; [by unfold bits_of in *; rewrite Hl|].
  intros j Hj. rewrite Hp by lia. unfold z. rewrite bit_at_replicate, Z.bits_0 by (unfold bits_of, z in Hz; rewrite length_replicate in Hz; lia).
  rewrite xorb_false_l. f_equal. lia.
Qed.

Lemma all_set_flips i :
  0 <= i < K ->
  flips f g b mop [mk_op MERGE (bitmap_prefix_ f) (key_of g b i) [] (all_set_bl_ f)] (i * N) ((i + 1) * N).
Proof using Hgeo Hmop.
  intros Hi. replace (i * N) with (i * N + 0) by lia. replace ((i + 1) * N) with (i * N + N) by lia.
  destruct (pow_facts f g b Hgeo) as (_ & ? & _). pose proof (mask_bytes 255) as Hm.
  rewrite (geo_bpk _ _ _ Hgeo), Z.shiftr_div_pow2 in Hm by lia. change (2 ^ 3) with 8 in Hm.
  rewrite (geo_all _ _ _ Hgeo). apply flips_one; try done; [lia..|].
  intros j Hj. unfold bits_of in Hm. rewrite length_replicate in Hm.
  rewrite bit_at_replicate, testbit_255 by (lia || (apply Z.mod_pos_bound; lia)). lia.
Qed.

(** The loop over the keys in the middle. *)
Lemma xor_loop i l t :
  0 <= i <= l -> l < K ->
  exists ops, while (xor_step f (l * 2 ^ (g + b))) 64 (i * 2 ^ (g + b), t) = Some (l * 2 ^ (g + b), t ++ ops) /\
    flips f g b mop ops (i * N) (l * N).
Proof using Hgeo Hmop.
  intros Hi Hl. destruct (pow_facts f g b Hgeo) as (HU & HN & HB & HBN & _).
  set (I := fun s : Z * Transaction => exists m ops, s = (m * B, t ++ ops) /\ i <= m <= l /\ flips f g b mop ops (i * N) (m * N)).
  enough (exists r, while (xor_step f (l * B)) 64 (i * B, t) = Some r /\ exists ops, r = (l * B, t ++ ops) /\ flips f g b mop ops (i * N) (l * N))
    as (r & Hr & ops & -> & Hf) by eauto.
  apply (while_spec _ I (fun s => l * B - s.1)).
  - intros s (m & ops & -> & Hm & Hf). unfold xor_step.
    destruct (Z.ltb_spec (m * B) (l * B)) as [Hlt|Hge].
    + assert (m < l) by nia. pose proof (key_bound f g b Hgeo (m + 1) ltac:(lia)) as Hb.
      rewrite (geo_bytes _ _ _ Hgeo). rewrite u64_small by lia. split; [|simpl; nia].
      exists (m + 1), (ops ++ [mk_op MERGE (bitmap_prefix_ f) (key_of g b m) [] (all_set_bl_ f)]).
      split; [unfold txn_merge, key_of; rewrite app_assoc; f_equal; lia|]. split; [lia|].
      eapply (flips_app _ _ _ Hgeo _ _ _ _ (m * N)); [nia|done|]. apply all_set_flips. lia.
    + assert (m = l) as -> by nia. exists ops. done.
  - exists i, []. rewrite app_nil_r. split; [done|]. split; [lia|]. apply (flips_nil _ _ _ Hgeo).
  - simpl. pose proof (key_bound f g b Hgeo l ltac:(lia)) as Hb. change (Z.of_nat 64) with 64. nia.
Qed.

Lemma _xor_flips s n t :
  0 <= s -> 0 < n -> s + n <= blocks_ f ->
  exists ops, _xor f (s * U) (n * U) t = Some (t ++ ops) /\ flips f g b mop ops s (s + n).
Proof using Hgeo Hmop.
  intros Hs Hn Hsn. pose proof Hgeo as G. destruct (pow_facts f g b Hgeo) as (HU & HN & HB & HBN & _ & H32).
  pose proof (geo_total _ _ _ G) as Ht. pose proof (blocks_eq f g b Hgeo) as HK.
  pose proof (geo_g _ _ _ G). pose proof (geo_b _ _ _ G). pose proof (geo_gb _ _ _ G).
  assert (forall x, 0 <= x * U < 2 ^ 64 -> Z.land (x * U) (block_mask_ f) = x * U) as Hal.
  { intros x Hx. rewrite (geo_bmask _ _ _ G), land_not64 by lia. rewrite Z.mod_mul by lia. lia. }
  assert (0 <= s * U < 2 ^ 64) as Hso by nia. assert (0 <= n * U < 2 ^ 64) as Hno by nia.
  unfold _xor. rewrite !Hal by done. rewrite !Z.eqb_refl. cbn [cxxlab_assert mbind option_bind].
  assert (u64 (u64 (s * U + n * U) - 1) = (s + n) * U - 1) as -> by (rewrite (u64_small (s * U + n * U)), u64_small by nia; lia).
  set (last := (s + n) * U - 1). assert (0 <= last < 2 ^ 64) as Hlast by (subst last; nia).
  rewrite (geo_kmask _ _ _ G), !land_low, !land_not64 by lia.
  (* the key and the bit of a byte offset *)
  assert (forall x r, 0 <= r < U -> (x * U + r) - (x * U + r) mod B = (x / N) * B /\ (x * U + r) mod B / 2 ^ g = x mod N) as Hkb.
  { intros x r Hr. pose proof (Z.div_mod x N ltac:(lia)) as Ex. pose proof (Z.mod_pos_bound x N ltac:(lia)).
    assert ((x * U + r) mod B = x mod N * U + r) as ->.
    { symmetry. apply (Z.mod_unique _ _ (x / N)); [left; nia|]. rewrite HBN. nia. }
    split; [nia|]. rewrite Z.add_comm, Z.div_add by lia. rewrite Z.div_small by done. lia. }
  destruct (Hkb s 0 ltac:(lia)) as [Ek1 Eb1]. rewrite !Z.add_0_r in Ek1, Eb1.
  destruct (Hkb (s + n - 1) (U - 1) ltac:(lia)) as [Ek2 Eb2].
  replace ((s + n - 1) * U + (U - 1)) with last in Ek2, Eb2 by (subst last; lia).
  rewrite (geo_bpb _ _ _ G), Ek1, Ek2, Eb1, Eb2.
  destruct (block_split f g b Hgeo s ltac:(lia)) as (Hi1 & Hj1 & Hs1).
  destruct (block_split f g b Hgeo (s + n - 1) ltac:(lia)) as (Hi2 & Hj2 & Hs2).
  set (i1 := s / N) in *. set (i2 := (s + n - 1) / N) in *. set (j1 := s mod N) in *. set (j2 := (s + n - 1) mod N) in *.
  assert (i1 <= i2) as Hle by (apply Z.div_le_mono; lia). clearbody i1 i2 j1 j2. clear Hkb Ek1 Ek2 Eb1 Eb2.
  rewrite !u32_small by lia. destruct (Z.eqb_spec (i1 * B) (i2 * B)) as [E|E].
  - assert (i1 = i2) as E' by (apply Z.mul_reg_r in E; [done|lia]).
    destruct (merge_bits_flips i1 j1 (j2 + 1) t) as (o & Hm & Hf); [lia..|]. rewrite Hm. exists [o]. split; [done|].
    replace s with (i1 * N + j1) by lia. by replace (i1 * N + j1 + n) with (i1 * N + (j2 + 1)) by lia.
  - assert (i1 < i2) as Hlt by (assert (i1 <> i2) by congruence; lia).
    rewrite (geo_bpk _ _ _ G), (u32_small N) by lia.
    destruct (merge_bits_flips i1 j1 N t) as (o1 & Hm1 & Hf1); [lia..|]. rewrite Hm1, some_bind.
    pose proof (key_bound f g b Hgeo (i1 + 1) ltac:(lia)) as Hb1.
    rewrite (geo_bytes _ _ _ G). rewrite u64_small by lia. replace (i1 * B + B) with ((i1 + 1) * B) by lia.
    destruct (xor_loop (i1 + 1) i2 (t ++ [o1]) ltac:(lia) ltac:(lia)) as (ops & Hl & Hf2). rewrite Hl. cbn [mbind option_bind].
    rewrite Z.eqb_refl. cbn [cxxlab_assert mbind option_bind].
    destruct (merge_bits_flips i2 0 (j2 + 1) ((t ++ [o1]) ++ ops)) as (o2 & Hm & Hf3); [lia..|]. rewrite Hm.
    exists (([o1] ++ ops) ++ [o2]). split; [by rewrite <- !app_assoc|].
    replace s with (i1 * N + j1) at 1 by lia. replace (s + n) with (i2 * N + (j2 + 1)) by lia.
    assert ((i1 + 1) * N <= i2 * N) as Hmul by (apply Z.mul_le_mono_nonneg_r; lia).
    apply (flips_app _ _ _ Hgeo) with (i2 * N); [lia| |by rewrite Z.add_0_r in Hf3].
    apply (flips_app _ _ _ Hgeo) with ((i1 + 1) * N); [lia| |done].
    by replace ((i1 + 1) * N) with (i1 * N + N) by lia.
Qed.

End Xor.

(** ** Transactions that flip any set of blocks *)

Section Flipping.
Context {It : Type} (f : BitmapFreelistManager It) (g b : Z) (Hgeo : geometry f g b).
Context (mop : mop_fns) (Hmop : mop (bitmap_prefix_ f) = Some (merge_nonexistent XorMergeOperator, merge XorMergeOperator)).

(** [ops] flips the blocks [x] with [ch x]. *)
Definition flipping (ops : Transaction) (ch : Z -> bool) : Prop :=
  Forall (fun o => op_prefix o = bitmap_prefix_ f) ops /\
  forall c al, holds f g b c al -> exists c', txn_spec mop ops c = Some (0, c') /\
    holds f g b c' (fun x => xorb (al x) (ch x)) /\
    forall p k, p <> bitmap_prefix_ f -> c' !! (p, k) = c !! (p, k).

Lemma flips_flipping ops lo hi : flips f g b mop ops lo hi -> flipping ops (fun x => (lo <=? x) && (x <? hi)).
Proof. done. Qed.

Lemma flipping_ext ops ch ch' :
  flipping ops ch -> (forall x, 0 <= x < blocks_ f -> ch' x = ch x) -> flipping ops ch'.
Proof using Hgeo.
  intros [H1 H2] E. split; [done|]. intros c al Hc. destruct (H2 c al Hc) as (c' & ? & Hc' & ?). exists c'. split_and!; try done.
  eapply (holds_ext _ _ _ Hgeo); [exact Hc'|]. intros x Hx. simpl. by rewrite E.
Qed.

Lemma flipping_nil : flipping [] (fun _ => false).
Proof using Hgeo.
  split; [done|]. intros c al Hc. exists c. split_and!; try done. eapply (holds_ext _ _ _ Hgeo); [exact Hc|].
  intros x _. apply xorb_false_r.
Qed.

Lemma flipping_app t1 t2 c1 c2 : flipping t1 c1 -> flipping t2 c2 -> flipping (t1 ++ t2) (fun x => xorb (c1 x) (c2 x)).
Proof using Hgeo.
  intros [P1 H1] [P2 H2]. split; [by apply Forall_app|]. intros c al Hc.
  destruct (H1 c al Hc) as (d1 & E1 & Hd1 & F1). destruct (H2 d1 _ Hd1) as (d2 & E2 & Hd2 & F2).
  exists d2. rewrite (txn_spec_app _ _ _ _ _ E1). split; [done|]. split; [|intros; rewrite F2; auto].
  eapply (holds_ext _ _ _ Hgeo); [exact Hd2|]. intros x _. simpl. by rewrite xorb_assoc.
Qed.

Lemma _xor_flipping s n t :
  0 <= s -> 0 < n -> s + n <= blocks_ f ->
  exists ops, _xor f (s * 2 ^ g) (n * 2 ^ g) t = Some (t ++ ops) /\ flipping ops (fun x => (s <=? x) && (x <? s + n)).
Proof using Hgeo Hmop. apply (_xor_flips f g b Hgeo mop Hmop). Qed.

End Flipping.

(** ** Creation *)

(** The records that [create] leaves for [_load_from_db]. *)
Definition meta_ops {It} (f : BitmapFreelistManager It) : Transaction :=
  let rec k v := mk_op SET (meta_prefix_ f) (lit k) [] (le_bytes 8 v) in
  [rec "bytes_per_block"%string (bytes_per_block_ f); rec "blocks_per_key"%string (blocks_per_key_ f);
   rec "blocks"%string (blocks_ f); rec "size"%string (size_ f)].

Lemma is_power_of_2_pow g : 0 <= g < 64 -> is_power_of_2 (2 ^ g) = true.
Proof.
  intros Hg. pose proof (IntArith.isp2_pow2 64 g Hg) as H. unfold IntArith.isp2 in H. unfold is_power_of_2.
  apply andb_prop in H as [H1 H2]. apply andb_true_intro. split; [|exact H2]. apply negb_true_iff, Z.eqb_neq. lia.
Qed.

Lemma init_misc_geometry {It} (f : BitmapFreelistManager It) g b :
  0 <= g -> 3 <= b < 32 -> g + b < 64 -> bytes_per_block_ f = 2 ^ g -> blocks_per_key_ f = 2 ^ b ->
  blocks_ f mod 2 ^ b = 0 -> blocks_ f * 2 ^ g < 2 ^ 64 -> blocks_ f * 2 ^ g - 2 ^ (g + b) < size_ f <= blocks_ f * 2 ^ g ->
  0 < size_ f -> size_ f mod 2 ^ g = 0 -> nul_free (meta_prefix_ f) -> nul_free (bitmap_prefix_ f) ->
  meta_prefix_ f <> bitmap_prefix_ f -> null_manager_ f = false -> geometry (_init_misc f) g b.
Proof.
  intros Hg Hb Hgb E1 E2. intros. assert (0 < 2 ^ (g + b) < 2 ^ 64) by (split; [apply Z.pow_pos_nonneg|apply Z.pow_lt_mono_r]; lia).
  assert (0 < 2 ^ g < 2 ^ 64) by (split; [apply Z.pow_pos_nonneg|apply Z.pow_lt_mono_r]; lia).
  assert (u64 (bytes_per_block_ f * blocks_per_key_ f) = 2 ^ (g + b)) as Eb.
  { rewrite E1, E2, <- Z.pow_add_r by lia. by apply u64_small; lia. }
  constructor; try done; unfold _init_misc; cbn; rewrite ?Eb, ?E1, ?E2; try done.
  - by rewrite u64_small by lia.
  - by rewrite u64_small by lia.
  - by rewrite Z.shiftr_div_pow2 by lia.
Qed.

Lemma size_2_block_count_spec {It} (f : BitmapFreelistManager It) g b s :
  0 <= g -> 3 <= b < 32 -> g + b < 64 -> bytes_per_block_ f = 2 ^ g -> blocks_per_key_ f = 2 ^ b ->
  0 < s -> s mod 2 ^ g = 0 -> s + 2 ^ (g + b) <= 2 ^ 64 ->
  let n := _size_2_block_count f s in
  n mod 2 ^ b = 0 /\ n * 2 ^ g < 2 ^ 64 /\ n * 2 ^ g - 2 ^ (g + b) < s <= n * 2 ^ g.
Proof.
  intros Hg Hb Hgb E1 E2 Hs Hm Hmax n. subst n. unfold _size_2_block_count. rewrite E1, E2.
  assert (0 < 2 ^ g) by (apply Z.pow_pos_nonneg; lia). assert (0 < 2 ^ b) by (apply Z.pow_pos_nonneg; lia).
  rewrite Z.pow_add_r in * by lia. apply Z.div_exact in Hm; [|lia]. set (t := s / 2 ^ g) in *.
  pose proof (Z.div_mod t (2 ^ b) ltac:(lia)). pose proof (Z.mod_pos_bound t (2 ^ b) ltac:(lia)).
  set (q := t / 2 ^ b) in *. set (u := 2 ^ g) in *. set (n := 2 ^ b) in *. assert (0 <= q) by (apply Z.div_pos; nia).
  clearbody t q u n. destruct (Z.eqb_spec (q * n) t) as [E|E]; cbn [negb].
  - split; [rewrite <- E; apply Z.mod_mul; lia|]. nia.
  - assert (q * n < t < (q + 1) * n) by nia. assert ((q + 1) * n * u < 2 ^ 64) by nia.
    rewrite u64_small by nia. split; [apply Z.mod_mul; lia|]. nia.
Qed.

Lemma leb_mul a x u : 0 < u -> (a * u <=? x * u) = (a <=? x).
Proof.
  intros Hu. destruct (Z.leb_spec a x); [apply Z.leb_le|apply Z.leb_gt]; nia.
Qed.

(** A new manager on a device of [new_size] bytes with blocks of [2^g] bytes. *)
Definition creatable (new_size g : Z) (mp bp : bytes) : Prop :=
  0 <= g /\ g + 7 < 64 /\ 2 ^ g <= new_size /\ new_size + 2 ^ (g + 7) <= 2 ^ 64 /\ nul_free mp /\ nul_free bp /\ mp <> bp.

Lemma create_ok {It} new_size g mp bp mop t :
  creatable new_size g mp bp ->
  mop bp = Some (merge_nonexistent XorMergeOperator, merge XorMergeOperator) ->
  exists ops (f : BitmapFreelistManager It), create new_size (2 ^ g) t (new_fm mp bp) = Some (0, t ++ ops ++ meta_ops f, f) /\
    geometry f g 7 /\ size_ f = new_size - new_size mod 2 ^ g /\ meta_prefix_ f = mp /\ bitmap_prefix_ f = bp /\
    f = _init_misc (with_cfg (size_ f) (blocks_ f) (2 ^ g) 128 (new_fm mp bp)) /\
    flipping f g 7 mop ops (fun x => (x =? 0) || (size_ f <=? x * 2 ^ g)).
Proof.
  intros (Hg & Hg7 & Hns & Hmax & Hmp & Hbp & Hne) Hmop. unfold create.
  rewrite is_power_of_2_pow by lia. change (cxxlab_assert true) with (Some tt). rewrite some_bind. cbv zeta.
  assert (0 < 2 ^ g < 2 ^ 64) as HU by (split; [apply Z.pow_pos_nonneg|apply Z.pow_lt_mono_r]; lia).
  assert (0 < 2 ^ (g + 7)) by (apply Z.pow_pos_nonneg; lia).
  rewrite (u64_small (2 ^ g - 1)) by lia. rewrite land_not64 by lia. set (sz := new_size - new_size mod 2 ^ g).
  pose proof (Z.div_mod new_size (2 ^ g) ltac:(lia)) as Hd. pose proof (Z.mod_pos_bound new_size (2 ^ g) ltac:(lia)) as Hr.
  assert (0 < sz) as Hsz by (subst sz; lia).
  assert (sz mod 2 ^ g = 0) as Hszm. { subst sz. replace (new_size - _) with (new_size / 2 ^ g * 2 ^ g) by lia. apply Z.mod_mul. lia. }
  set (f1 := with_cfg sz _ (2 ^ g) 128 _). set (f2 := _init_misc f1).
  destruct (size_2_block_count_spec f2 g 7 sz) as (Hb1 & Hb2 & Hb3); try done; try lia.
  change (size_ f2) with sz. set (n := _size_2_block_count f2 sz) in *. clearbody n.
  change (bytes_per_block_ f2) with (2 ^ g). change (blocks_per_key_ f2) with 128.
  set (f3 := with_cfg sz n (2 ^ g) 128 f2).
  assert (geometry f3 g 7) as G.
  { change f3 with (_init_misc (with_cfg sz n (2 ^ g) 128 (new_fm (It := It) mp bp))). apply init_misc_geometry; cbn; try done; lia. }
  change (blocks_ f3) with n. change (size_ f3) with sz. change (bytes_per_block_ f3) with (2 ^ g).
  assert (0 < n) by nia. rewrite (u64_small (n * 2 ^ g)) by lia.
  apply Z.div_exact in Hszm; [|lia]. set (s0 := sz / 2 ^ g) in *. assert (0 < s0 <= n) as Hs0 by nia.
  assert (exists ops1, (if sz <? n * 2 ^ g then _xor f3 sz (n * 2 ^ g -64 sz) t else Some t) = Some (t ++ ops1) /\
    flipping f3 g 7 mop ops1 (fun x => sz <=? x * 2 ^ g)) as (ops1 & -> & Hf1).
  { destruct (Z.ltb_spec sz (n * 2 ^ g)).
    - rewrite u64_small by lia. replace (n * 2 ^ g - sz) with ((n - s0) * 2 ^ g) by lia. replace sz with (s0 * 2 ^ g) by lia.
      destruct (_xor_flipping f3 g 7 G mop Hmop s0 (n - s0) t) as (ops1 & E & Hf); [lia|nia|cbn; lia|].
      exists ops1. split; [exact E|]. eapply (flipping_ext _ _ _ G); [exact Hf|]. intros x Hx. cbn in Hx. cbv beta.
      rewrite leb_mul by lia. lia.
    - exists []. rewrite app_nil_r. split; [done|]. eapply (flipping_ext _ _ _ G); [by apply flipping_nil|].
      intros x Hx. cbn in Hx. cbv beta. replace sz with (s0 * 2 ^ g) by lia. rewrite leb_mul by lia. assert (s0 = n) by nia. lia. }
  rewrite some_bind.
  destruct (_xor_flipping f3 g 7 G mop Hmop 0 1 (t ++ ops1)) as (ops2 & E2 & Hf2); [lia..|cbn; lia|].
  rewrite Z.mul_0_l, Z.mul_1_l in E2. rewrite E2, some_bind.
  exists (ops1 ++ ops2), f3. split; [|split_and!; try done].
  - unfold txn_set, meta_ops. cbn. by rewrite <- !app_assoc.
  - eapply (flipping_ext _ _ _ G); [by eapply flipping_app|]. intros x Hx. cbn in Hx. cbv beta.
    change (size_ f3) with sz. replace sz with (s0 * 2 ^ g) by lia. rewrite leb_mul by lia. lia.
Qed.

(** ** Opening *)

(** The loop of [_load_from_db] on the pairs it sees. *)
Fixpoint load_all {It} (l : list (bytes * bytes)) (f : BitmapFreelistManager It) : option (BitmapFreelistManager It) :=
  match l with
  | [] => Some f
  | (k, v) :: l => f ← load_entry k v f; load_all l f
  end.

Lemma load_loop {DB It} `{KeyValueDBSpec DB It} (it : It) (f : BitmapFreelistManager It) :
  it_ok it -> Z.of_nat (length (it_shows it)) < 2 ^ 64 ->
  while load_step 64 (it, f) = Some (load_all (it_shows it) f).
Proof.
  intros Hok Hlen.
  set (I := fun s : It * BitmapFreelistManager It => it_ok s.1 /\ load_all (it_shows s.1) s.2 = load_all (it_shows it) f).
  enough (exists r, while load_step 64 (it, f) = Some r /\ r = load_all (it_shows it) f) as (r & -> & ->) by done.
  apply (while_spec _ I (fun s => Z.of_nat (length (it_shows s.1)))); [|done|exact Hlen].
  intros [it1 f1] [Hok1 E]. simpl in *. rewrite (it_valid_spec it1 Hok1).
  destruct (it_shows it1) as [|[k v] l] eqn:Es; [done|].
  rewrite (it_key_spec it1 k v l Hok1 Es), some_bind, (it_value_spec it1 k v l Hok1 Es), some_bind. simpl in E.
  destruct (load_entry k v f1) as [f2|]; [|done].
  destruct (it_next_spec it1 k v l Hok1 Es) as (it2 & -> & Hok2 & Es2). cbn [snd fst]. unfold I. simpl. rewrite Es2. split; [done|]. lia.
Qed.

(** The records of the four numbers among the pairs [l]. *)
Record records (sz bl bpb bpk : Z) (l : list (bytes * bytes)) : Prop := {
  rec_bpb v : (lit "bytes_per_block", v) ∈ l -> v = le_bytes 8 bpb;
  rec_bpk v : (lit "blocks_per_key", v) ∈ l -> v = le_bytes 8 bpk;
  rec_blocks v : (lit "blocks", v) ∈ l -> v = le_bytes 8 bl;
  rec_size v : (lit "size", v) ∈ l -> v = le_bytes 8 sz;
}.

Lemma le_val_8 x : 0 <= x < 2 ^ 64 -> le_val (le_bytes 8 x) = x.
Proof. intros. rewrite le_val_bytes. by apply Z.mod_small. Qed.

Lemma load_entry_ok {It} sz bl bpb bpk k v (f : BitmapFreelistManager It) :
  uint 64 sz -> uint 64 bl -> uint 64 bpb -> uint 64 bpk -> records sz bl bpb bpk [(k, v)] ->
  load_entry k v f = Some (with_cfg (if decide (lit "size" = k) then sz else size_ f) (if decide (lit "blocks" = k) then bl else blocks_ f)
    (if decide (lit "bytes_per_block" = k) then bpb else bytes_per_block_ f) (if decide (lit "blocks_per_key" = k) then bpk else blocks_per_key_ f) f).
Proof.
  intros H1 H2 H3 H4 [R1 R2 R3 R4].
  assert (forall x (store : Z -> BitmapFreelistManager It -> BitmapFreelistManager It), v = le_bytes 8 x -> uint 64 x ->
    (_ ← cxxlab_assert (length v =? 8)%nat; Some (store (le_val v) f)) = Some (store x f)) as Hnum.
  { intros x store -> Hx. rewrite length_le_bytes. change (cxxlab_assert (8 =? 8)%nat) with (Some tt).
    by rewrite some_bind, le_val_8. }
  unfold load_entry, str_eq. case_bool_decide as E1; [|case_bool_decide as E2; [|case_bool_decide as E3; [|case_bool_decide as E4]]].
  - rewrite (Hnum bpb) by (try done; apply R1; rewrite E1; by apply list_elem_of_here). rewrite E1. done.
  - rewrite (Hnum bl) by (try done; apply R3; rewrite E2; by apply list_elem_of_here). rewrite E2. done.
  - rewrite (Hnum sz) by (try done; apply R4; rewrite E3; by apply list_elem_of_here). rewrite E3. done.
  - rewrite (Hnum bpk) by (try done; apply R2; rewrite E4; by apply list_elem_of_here). rewrite E4. done.
  - rewrite !decide_False by congruence. by destruct f.
Qed.

Lemma decide_mem_cons {A} `{EqDecision A} {T} (x k : A) (l : list A) (a b : T) :
  (if decide (x ∈ k :: l) then a else b) = if decide (x ∈ l) then a else if decide (x = k) then a else b.
Proof. repeat case_decide; set_solver. Qed.

Lemma load_all_ok {It} sz bl bpb bpk l (f : BitmapFreelistManager It) :
  uint 64 sz -> uint 64 bl -> uint 64 bpb -> uint 64 bpk -> records sz bl bpb bpk l ->
  load_all l f = Some (with_cfg (if decide (lit "size" ∈ l.*1) then sz else size_ f) (if decide (lit "blocks" ∈ l.*1) then bl else blocks_ f)
    (if decide (lit "bytes_per_block" ∈ l.*1) then bpb else bytes_per_block_ f) (if decide (lit "blocks_per_key" ∈ l.*1) then bpk else blocks_per_key_ f) f).
Proof.
  intros H1 H2 H3 H4. revert f. induction l as [|[k v] l IH]; intros f Hr; [by destruct f|].
  assert (records sz bl bpb bpk l) as Hr' by (destruct Hr as [R1 R2 R3 R4]; constructor; intros w Hw; eauto using list_elem_of_further).
  assert (records sz bl bpb bpk [(k, v)]) as Hr1.
  { destruct Hr as [R1 R2 R3 R4]; constructor; intros w [= <- <-]%list_elem_of_singleton; eauto using list_elem_of_here. }
  cbn [load_all]. rewrite (load_entry_ok sz bl bpb bpk) by done. rewrite some_bind, IH by done.
  cbn [fmap list_fmap fst]. rewrite !decide_mem_cons. done.
Qed.

(** ** Numbers in decimal *)

Lemma digits_spec n x acc :
  0 <= x < 10 ^ Z.of_nat n -> (0 < n)%nat ->
  exists ds, digits n x acc = ds ++ acc /\ ds <> [] /\ Forall (fun c => 48 <= c <= 57) ds /\
    forall a, scan_digits (ds ++ acc) a = scan_digits acc (a * 10 ^ Z.of_nat (length ds) + x).
Proof.
  revert x acc. induction n as [|n IH]; intros x acc Hx Hn; [lia|]. cbn [digits]. cbv zeta.
  pose proof (Z.mod_pos_bound x 10 ltac:(lia)) as Hm. pose proof (Z.div_mod x 10 ltac:(lia)) as Hd.
  assert (is_digit (48 + x mod 10) = true) as Hdig by (unfold is_digit; lia).
  destruct (Z.eqb_spec (x / 10) 0) as [E|E].
  - exists [48 + x mod 10]. split_and!; try done; [repeat constructor; lia|]. intros a. cbn [app scan_digits length]. rewrite Hdig. f_equal. lia.
  - rewrite Nat2Z.inj_succ, Z.pow_succ_r in Hx by lia.
    assert (0 <= x / 10 < 10 ^ Z.of_nat n) as Hx' by (split; [apply Z.div_pos; lia|apply Z.div_lt_upper_bound; lia]).
    destruct n as [|n]; [simpl in Hx'; lia|].
    destruct (IH (x / 10) ((48 + x mod 10) :: acc) Hx' ltac:(lia)) as (ds & -> & Hne & Hall & Hscan).
    exists (ds ++ [48 + x mod 10]). rewrite <- app_assoc. split_and!; try done; [by destruct ds| |].
    + apply Forall_app. split; [done|]. repeat constructor; lia.
    + intros a. rewrite Hscan. cbn [scan_digits]. rewrite Hdig. f_equal. rewrite length_app, Nat2Z.inj_add. cbn [length].
      rewrite Z.pow_add_r by lia. change (10 ^ Z.of_nat 1) with 10. lia.
Qed.

Lemma stoull_to_string x : 0 <= x < 2 ^ 64 -> stoull (to_string x) = Some x.
Proof.
  intros Hx. unfold to_string. destruct (digits_spec 20 x []) as (ds & -> & Hne & Hall & Hscan); [change (10 ^ Z.of_nat 20) with 100000000000000000000; lia|lia|].
  rewrite app_nil_r in *. destruct ds as [|c ds]; [done|]. apply Forall_cons in Hall as [Hc _].
  specialize (Hscan 0). rewrite Z.mul_0_l, Z.add_0_l in Hscan. cbn [scan_digits] in Hscan.
  unfold stoull. assert (skip_space (c :: ds) = c :: ds) as ->.
  { cbn [skip_space]. unfold is_space. by replace ((c =? 32) || ((9 <=? c) && (c <=? 13))) with false by lia. }
  assert ((match c :: ds with 45 :: t => (true, t) | 43 :: t => (false, t) | _ => (false, c :: ds) end) = (false, c :: ds)) as ->.
  { assert (c = 48 \/ c = 49 \/ c = 50 \/ c = 51 \/ c = 52 \/ c = 53 \/ c = 54 \/ c = 55 \/ c = 56 \/ c = 57) as Hcs by lia.
    repeat destruct Hcs as [->|Hcs]; [done..|]. by subst c. }
  assert (is_digit c = true) as Hdig by (unfold is_digit; lia). cbn [scan_digits]. rewrite Hscan, Hdig. cbn [negb].
  unfold UINT64_MAX. by destruct (Z.ltb_spec (2 ^ 64 - 1) x); [lia|].
Qed.

(** A reader of the pairs that [get_meta] returns. *)
Fixpoint meta_reader (l : list (bytes * bytes)) (k : bytes) : Z * bytes :=
  match l with
  | [] => (- ENOENT, [])
  | (k', v) :: l => if str_eq k k' then (0, v) else meta_reader l k
  end.

(** A manager opened from the text that [get_meta] printed has the printed
    size, number of blocks and geometry, whatever the store holds. *)
Theorem get_meta_init {DB It} `{KeyValueDB DB It} (f f' : BitmapFreelistManager It) (db : DB) :
  uint 64 (size_ f) -> uint 64 (blocks_ f) -> uint 64 (bytes_per_block_ f) -> uint 64 (blocks_per_key_ f) ->
  init db (Some (meta_reader (get_meta f 0))) f' =
  Some (0, _init_misc (with_cfg (size_ f) (blocks_ f) (bytes_per_block_ f) (blocks_per_key_ f) f')).
Proof.
  intros H1 H2 H3 H4. unfold init, _read_cfg. cbn [read_entries]. unfold read_entry.
  unfold get_meta. change (0 =? 0) with true. cbv iota beta.
  cbn [meta_reader]. 
  repeat match goal with |- context [str_eq (lit ?a) (lit ?b)] =>
    let r := eval vm_compute in (str_eq (lit a) (lit b)) in change (str_eq (lit a) (lit b)) with r end.
  cbv iota beta. change (negb (0 =? 0)) with false. cbv iota.
  rewrite !stoull_to_string by done. rewrite !some_bind. cbv iota beta. change (negb (0 =? 0)) with false. cbv iota.
  rewrite !some_bind. cbv iota beta. change (negb (0 =? 0)) with false. cbv iota. rewrite !some_bind. done.
Qed.

End FreelistSpec.
