(* ===== verification/FreelistEnum.v ===== *)
(** * Enumeration of the free list

    [enumerate_next] walks the stored bitmap and returns the maximal runs of
    free blocks, one per call, in order. *)
From stdpp Require Import base numbers list gmap sorting.
From Stdlib Require Import ZArith Lia ZifyBool Sorted String.
From S2P Require Import Prelude IntArith KeyValue Freelist FreelistBits FreelistSpec.
Import KeyValue Freelist FreelistBits FreelistSpec.

Module FreelistEnum.
#[local] Abbreviation length := Datatypes.length.

(** The loop of a client: the extents until [enumerate_next] returns false. *)
Fixpoint enumerate_all {DB It} `{!KeyValueDB DB It} (n : nat) (kvdb : DB) (f : BitmapFreelistManager It) : option (list (Z * Z)) :=
  match n with
  | O => None
  | S n =>
      '(r, f) ← enumerate_next kvdb f;
      match r with
      | None => Some []
      | Some e => l ← enumerate_all n kvdb f; Some (e :: l)
      end
  end.

Section Enum.
Context {DB It : Type} `{!KeyValueDB DB It} `{!KeyValueDBSpec DB It}.
(** [f0] gives the geometry, which enumeration does not change; [al] is the
    bitmap. *)
Context (f0 : BitmapFreelistManager It) (g b : Z) (Hgeo : geometry f0 g b) (al : Z -> bool).
#[local] Abbreviation N := (2 ^ b).
#[local] Abbreviation U := (2 ^ g).
#[local] Abbreviation B := (2 ^ (g + b)).
#[local] Abbreviation K := (blocks_ f0 / 2 ^ b).
Implicit Types f : BitmapFreelistManager It.

(** All blocks of [lo .. hi-1] are allocated, or free. *)
Definition all_are (v : bool) (lo hi : Z) : Prop := forall x, lo <= x < hi -> al x = v.

(** The pairs [l] are those of the keys from number [lo] on. *)
Fixpoint covers (lo : Z) (l : list (bytes * bytes)) : Prop :=
  match l with
  | [] => all_are false (lo * N) (blocks_ f0)
  | (k, v) :: l => exists i, lo <= i < K /\ k = key_of g b i /\ bits_of v = N /\ all_are false (lo * N) (i * N) /\
      (forall j, 0 <= j < N -> al (i * N + j) = bit_at v j) /\ covers (i + 1) l
  end.

Lemma holds_covers_from c l lo :
  holds f0 g b c al -> 0 <= lo -> StronglySorted key_lt l ->
  (forall k v, (k, v) ∈ l <-> c !! (bitmap_prefix_ f0, k) = Some v /\ exists i, k = key_of g b i /\ lo <= i < K) ->
  covers lo l.
Proof using Hgeo.
  intros [H1 H2] Hlo Hs. revert lo Hlo. induction Hs as [|[k v] l Hl IH Hx]; intros lo Hlo Hmem; simpl.
  - intros x Hx. destruct (pow_facts f0 g b Hgeo) as (_ & HN & _).
    assert (lo <= x / N) by (apply Z.div_le_lower_bound; lia).
    destruct (block_split f0 g b Hgeo x) as (Hi & Hj & ->); [nia|]. rewrite H2 by done.
    destruct (c !! _) as [v|] eqn:E; [|done]. exfalso. apply (not_elem_of_nil (key_of g b (x / N), v)), Hmem.
    split; [done|]. exists (x / N). split; [done|lia].
  - destruct (proj1 (Hmem k v)) as [Hk (i & -> & Hi)]; [set_solver|]. exists i.
    destruct (H1 _ _ Hk) as (i' & Hi' & Ei & Hv). split; [lia|]. split; [done|]. split; [done|].
    destruct (pow_facts f0 g b Hgeo) as (_ & HN & HB & _).
    assert (forall i', 0 <= i' < K -> (key_of g b i', default [] (c !! (bitmap_prefix_ f0, key_of g b i'))) ∈ l -> i < i') as Hlt.
    { intros i2 Hi2 Hin. rewrite Forall_forall in Hx. specialize (Hx _ Hin). unfold key_lt, key_of in Hx. cbn [fst] in Hx.
      rewrite key_encode_lt in Hx by (apply (key_bound f0 g b Hgeo); lia). nia. }
    split_and!.
    + intros x Hxr. destruct (block_split f0 g b Hgeo x) as (Hq & Hj & ->).
      { pose proof (blocks_eq f0 g b Hgeo). nia. }
      assert (lo <= x / N < i) by (split; [apply Z.div_le_lower_bound|apply Z.div_lt_upper_bound]; lia).
      rewrite H2 by done. destruct (c !! (_, key_of g b (x / N))) as [w|] eqn:E; [|done]. exfalso.
      assert ((key_of g b (x / N), w) ∈ (key_of g b i, v) :: l) as Hin.
      { apply Hmem. split; [done|]. exists (x / N). split; [done|lia]. }
      apply elem_of_cons in Hin as [Ein|Hin].
      * assert (key_of g b (x / N) = key_of g b i) as Ek by congruence.
        apply (key_of_inj f0 g b Hgeo) in Ek; lia.
      * specialize (Hlt (x / N) Hq). rewrite E in Hlt. specialize (Hlt Hin). lia.
    + intros j Hj. by rewrite H2, Hk by (done || lia).
    + apply IH; [lia|]. intros k' v'. split.
      * intros Hin. destruct (proj1 (Hmem k' v')) as [Hk' (i2 & -> & Hi2)]; [set_solver|]. split; [done|].
        exists i2. split; [done|]. specialize (Hlt i2 ltac:(lia)). rewrite Hk' in Hlt. specialize (Hlt Hin). lia.
      * intros [Hk' (i2 & -> & Hi2)]. assert ((key_of g b i2, v') ∈ (key_of g b i, v) :: l) as Hin.
        { apply Hmem. split; [done|]. exists i2. split; [done|lia]. }
        apply elem_of_cons in Hin as [Ein|Hin]; [|done].
        assert (key_of g b i2 = key_of g b i) as Ek by congruence. apply (key_of_inj f0 g b Hgeo) in Ek; lia.
Qed.

Lemma holds_covers c l :
  holds f0 g b c al -> StronglySorted key_lt l ->
  (forall k v, (k, v) ∈ l <-> c !! (bitmap_prefix_ f0, k) = Some v) -> covers 0 l.
Proof using Hgeo.
  intros Hc Hs Hmem. apply (holds_covers_from c); try done. intros k v. rewrite Hmem. split; [|naive_solver].
  intros E. split; [done|]. destruct Hc as [H1 _]. destruct (H1 _ _ E) as (i & ? & -> & _). eauto.
Qed.

(** ** The state of an enumeration *)

(** Only the four fields of the enumeration differ from [f0]. *)
Definition like_f0 f : Prop := exists p o bl pos, f = with_enum p o bl pos f0.

(** At key [i], with the bits from [enumerate_bl_pos_] on still to be looked at. *)
Definition at_key f (i : Z) : Prop :=
  like_f0 f /\ exists it v l, enumerate_p_ f = Some it /\ it_ok it /\ it_shows it = (key_of g b i, v) :: l /\
    enumerate_offset_ f = i * B /\ enumerate_bl_ f = v /\ 0 <= i < K /\ bits_of v = N /\
    (forall j, 0 <= j < N -> al (i * N + j) = bit_at v j) /\ covers (i + 1) l /\ 0 <= enumerate_bl_pos_ f < N.

(** The keys are used up. *)
Definition exhausted f : Prop :=
  like_f0 f /\ exists it, enumerate_p_ f = Some it /\ it_ok it /\ it_shows it = [].

Definition posn f (i : Z) : Z := i * N + enumerate_bl_pos_ f.

Lemma next_key_cons it k v l lo :
  it_ok it -> it_shows it = (k, v) :: l -> covers lo ((k, v) :: l) -> 0 <= lo ->
  exists i, lo <= i < K /\ k = key_of g b i /\ next_key it = Some (Some (i * B, v)) /\ bits_of v = N /\
    all_are false (lo * N) (i * N) /\ (forall j, 0 <= j < N -> al (i * N + j) = bit_at v j) /\ covers (i + 1) l.
Proof using Hgeo.
  intros Hok Hs (i & Hi & -> & Hv & Hgap & Hb & Hc) Hlo. exists i. split_and!; try done; [lia..|].
  unfold next_key. rewrite (it_valid_spec it Hok), Hs, some_bind.
  rewrite (it_key_spec it _ _ _ Hok Hs), (it_value_spec it _ _ _ Hok Hs), some_bind. unfold key_of.
  rewrite key_decode_encode by (apply (key_bound f0 g b Hgeo); lia). done.
Qed.

Lemma next_key_nil it : it_ok it -> it_shows it = [] -> next_key it = Some None.
Proof using Hgeo. intros Hok Hs. unfold next_key. by rewrite (it_valid_spec it Hok), Hs. Qed.

Lemma get_offset_eq f k j : like_f0 f -> 0 <= k * N + j -> 0 <= j -> k * N + j <= blocks_ f0 -> _get_offset f (k * B) j = (k * N + j) * U.
Proof using Hgeo.
  intros (p & o & bl & pos & ->) Hk Hj Hb. unfold _get_offset. cbn. rewrite (geo_bpb _ _ _ Hgeo).
  destruct (pow_facts f0 g b Hgeo) as (HU & HN & HB & HBN & _). pose proof (geo_total _ _ _ Hgeo).
  rewrite u64_add_r. rewrite HBN. replace (k * (N * U) + j * U) with ((k * N + j) * U) by lia. apply u64_small. nia.
Qed.

(** The result of the first loop, started to look for a free block from [X] on. *)
Definition free_found (X : Z) (r : option (Z * BitmapFreelistManager It)) : Prop :=
  exists F f, r = Some (F * U, f) /\ X <= F /\ all_are true X F /\
    ((exists i, at_key f i /\ F <= posn f i /\ all_are false F (posn f i) /\ al F = false /\ F < blocks_ f0) \/
     (exhausted f /\ enumerate_offset_ f = F * U /\ F <= blocks_ f0 /\ F mod N = 0 /\ all_are false F (blocks_ f0))).

Lemma all_are_app v lo mid hi : all_are v lo mid -> all_are v mid hi -> all_are v lo hi.
Proof using. clear. intros H1 H2 x Hx. destruct (Z.lt_ge_cases x mid); [apply H1|apply H2]; lia. Qed.

(** What is left to look at, for the measure of the loops. *)
Definition left f : Z := match enumerate_p_ f with None => 0 | Some it => Z.of_nat (length (it_shows it)) end.

Lemma covers_length lo l : 0 <= lo <= K -> covers lo l -> Z.of_nat (length l) <= K - lo.
Proof using.
  clear. revert lo. induction l as [|[k v] l IH]; intros lo Hlo; simpl; [lia|].
  intros (i & Hi & _ & _ & _ & _ & Hc). specialize (IH (i + 1) ltac:(lia) Hc). lia.
Qed.

(** A step of the first loop: it ends, or goes on at a later key, everything in
    between being allocated. *)
Lemma find_free_step f i :
  at_key f i ->
  match fallible find_free f with
  | inl f' => exists i', at_key f' i' /\ i < i' /\ all_are true (posn f i) (posn f' i') /\ 0 <= left f' < left f
  | inr r => free_found (posn f i) r
  end.
Proof using Hgeo.
  intros (Hlike & it & v & l & Hp & Hok & Hs & Ho & Hbl & Hi & Hv & Hb & Hc & Hpos).
  destruct (pow_facts f0 g b Hgeo) as (HU & HN & HB & HBN & _). pose proof (blocks_eq f0 g b Hgeo) as HK.
  unfold fallible, find_free. rewrite Hp, some_bind, Hbl. unfold get_next_clear_bit.
  pose proof (next_bit_scan false v (enumerate_bl_pos_ f) ltac:(lia)) as Hscan.
  set (pos := next_bit _ _ v _) in *. clearbody pos. unfold posn.
  destruct Hscan as [[-> Hn]|(Hr & Hbit & Hn)].
  - assert (all_are true (i * N + enumerate_bl_pos_ f) ((i + 1) * N)) as Halloc.
    { intros x Hx. replace x with (i * N + (x - i * N)) by lia. rewrite Hb by lia. rewrite Hn by lia. done. }
    change (0 <=? -1) with false. cbv iota zeta.
    destruct (it_next_spec it _ _ _ Hok Hs) as (it' & -> & Hok' & Hs'). cbn [snd].
    assert (u64 (enumerate_offset_ f + bytes_per_key_ f) = (i + 1) * B) as ->.
    { destruct Hlike as (? & ? & ? & ? & E). rewrite Ho. subst f. cbn. rewrite (geo_bytes _ _ _ Hgeo).
      pose proof (geo_total _ _ _ Hgeo) as Ht. rewrite HK in Ht. replace (i * B + B) with ((i + 1) * B) by lia.
      apply u64_small. rewrite HBN. nia. }
    destruct l as [|[k' v'] l'].
    + rewrite (next_key_nil it' Hok' Hs'), some_bind. exists ((i + 1) * N). eexists.
      split; [f_equal; f_equal|]. { rewrite get_offset_eq; [lia|done|nia..]. }
      split; [nia|]. split; [done|]. right. split_and!.
      * split; [|by exists it']. destruct Hlike as (? & ? & ? & ? & ->). by repeat eexists.
      * cbn. rewrite HBN. lia.
      * nia.
      * apply Z.mod_mul. lia.
      * exact Hc.
    + destruct (next_key_cons it' k' v' l' (i + 1) Hok' Hs' Hc ltac:(lia)) as (i' & Hi' & -> & -> & Hv' & Hgap & Hb' & Hc').
      rewrite some_bind. cbv iota.
      assert (at_key (with_enum (Some it') (i' * B) v' 0 f) i') as Hat.
      { split; [destruct Hlike as (? & ? & ? & ? & ->); by repeat eexists|]. exists it', v', l'. cbn. split_and!; try done; lia. }
      destruct (Z.ltb_spec ((i + 1) * B) (i' * B)).
      * exists ((i + 1) * N). eexists. split; [f_equal; f_equal; rewrite HBN; lia|]. split; [nia|]. split; [done|]. left.
        exists i'. assert (i + 1 < i') by nia. unfold posn. cbn. rewrite Z.add_0_r. split_and!; try done; try nia.
        apply Hgap. nia.
      * assert (i' = i + 1) as -> by nia. exists (i + 1). split; [done|]. split; [lia|]. split.
        -- cbn. by rewrite Z.add_0_r.
        -- unfold left. cbn. rewrite Hp, Hs, Hs'. simpl. lia.
  - destruct (Z.leb_spec 0 pos); [|lia]. cbv iota. exists (i * N + pos). eexists.
    split; [f_equal; f_equal; rewrite Ho; apply get_offset_eq; [done|nia..]|]. split; [lia|]. split.
    { intros x Hx. replace x with (i * N + (x - i * N)) by lia. rewrite Hb by lia. rewrite Hn by lia. done. }
    left. exists i. unfold posn. cbn. split_and!; try nia.
    + split; [destruct Hlike as (? & ? & ? & ? & ->); by repeat eexists|]. exists it, v, l. cbn. split_and!; try done; lia.
    + intros x Hx. lia.
    + rewrite Hb by lia. done.
Qed.

Lemma mul_ge k n u : 0 <= k -> 1 <= n -> 1 <= u -> k <= k * n * u.
Proof using. intros. rewrite <- Z.mul_assoc. assert (1 <= n * u) by nia. nia. Qed.

Lemma at_key_left f i : at_key f i -> 0 <= left f < 2 ^ 64.
Proof using Hgeo.
  intros (_ & it & v & l & Hp & _ & Hs & _ & _ & Hi & _ & _ & Hc & _). unfold left. rewrite Hp, Hs. cbn [length].
  pose proof (covers_length (i + 1) l ltac:(lia) Hc). destruct (pow_facts f0 g b Hgeo) as (HU & HN & _).
  pose proof (geo_total _ _ _ Hgeo) as Ht. rewrite (blocks_eq f0 g b Hgeo) in Ht.
  pose proof (mul_ge K N U). lia.
Qed.

Lemma find_free_loop f i :
  at_key f i -> exists r, while (fallible find_free) 64 f = Some r /\ free_found (posn f i) r.
Proof using Hgeo.
  intros Hat. set (X := posn f i).
  set (I := fun f' : BitmapFreelistManager It => exists i', at_key f' i' /\ X <= posn f' i' /\ all_are true X (posn f' i')).
  apply (while_spec _ I left).
  - intros f' (i' & Hat' & HX & Hall). pose proof (find_free_step f' i' Hat') as H.
    destruct (fallible find_free f') as [f2|r].
    + destruct H as (i2 & Hat2 & Hlt & Hall2 & Hleft). split; [|done]. exists i2. split; [done|].
      assert (posn f' i' <= posn f2 i2).
      { destruct Hat' as (_ & ? & ? & ? & _ & _ & _ & _ & _ & _ & _ & _ & _ & Hp1).
        destruct Hat2 as (_ & ? & ? & ? & _ & _ & _ & _ & _ & _ & _ & _ & _ & Hp2). unfold posn. nia. }
      split; [lia|]. by eapply all_are_app.
    + destruct H as (F & f2 & -> & HF & Hall2 & Hcase). exists F, f2. split; [done|]. split; [lia|]. split; [|done].
      by eapply all_are_app.
  - exists i. split; [done|]. split; [lia|]. intros x Hx. lia.
  - exact (proj2 (at_key_left f i Hat)).
Qed.

(** The result of the second loop, started to look for a used block from [S] on. *)
Definition used_found (S : Z) (r : option (option Z * BitmapFreelistManager It)) : Prop :=
  exists f, (exists i, r = Some (Some (posn f i * U), f) /\ at_key f i /\ S <= posn f i /\ all_are false S (posn f i) /\ al (posn f i) = true) \/
    (exists i, r = Some (None, f) /\ exhausted f /\ enumerate_offset_ f = i * B /\ 0 <= i < K /\ S <= blocks_ f0 /\ all_are false S (blocks_ f0)).

Lemma find_used_step f i :
  at_key f i ->
  match fallible find_used f with
  | inl f' => exists i', at_key f' i' /\ i < i' /\ all_are false (posn f i) (posn f' i') /\ 0 <= left f' < left f
  | inr r => used_found (posn f i) r
  end.
Proof using Hgeo.
  intros (Hlike & it & v & l & Hp & Hok & Hs & Ho & Hbl & Hi & Hv & Hb & Hc & Hpos).
  destruct (pow_facts f0 g b Hgeo) as (HU & HN & HB & HBN & _). pose proof (blocks_eq f0 g b Hgeo) as HK.
  unfold fallible, find_used. rewrite Hp, some_bind, Hbl. unfold get_next_set_bit.
  pose proof (next_bit_scan true v (enumerate_bl_pos_ f) ltac:(lia)) as Hscan.
  set (pos := next_bit _ _ v _) in *. clearbody pos. unfold posn.
  destruct Hscan as [[-> Hn]|(Hr & Hbit & Hn)].
  - assert (all_are false (i * N + enumerate_bl_pos_ f) ((i + 1) * N)) as Hfree.
    { intros x Hx. replace x with (i * N + (x - i * N)) by lia. rewrite Hb by lia. rewrite Hn by lia. done. }
    change (0 <=? -1) with false. cbv iota zeta.
    destruct (it_next_spec it _ _ _ Hok Hs) as (it' & -> & Hok' & Hs'). cbn [snd].
    destruct l as [|[k' v'] l'].
    + rewrite (next_key_nil it' Hok' Hs'), some_bind. eexists. right. exists i. split; [done|]. split_and!; try done; try nia.
      * split; [|by exists it']. destruct Hlike as (? & ? & ? & ? & ->). by repeat eexists.
      * eapply all_are_app; [exact Hfree|]. exact Hc.
    + destruct (next_key_cons it' k' v' l' (i + 1) Hok' Hs' Hc ltac:(lia)) as (i' & Hi' & -> & -> & Hv' & Hgap & Hb' & Hc').
      rewrite some_bind. cbv iota. exists i'. split_and!.
      * split; [destruct Hlike as (? & ? & ? & ? & ->); by repeat eexists|]. exists it', v', l'. cbn. split_and!; try done; lia.
      * lia.
      * cbn. rewrite Z.add_0_r. by eapply all_are_app.
      * unfold left. cbn. lia.
      * unfold left. cbn. rewrite Hp, Hs, Hs'. simpl. lia.
  - destruct (Z.leb_spec 0 pos); [|lia]. cbv iota zeta. eexists. left. exists i. unfold posn.
    split; [f_equal; f_equal; f_equal|].
    { rewrite Ho, get_offset_eq by (done || nia). destruct Hlike as (? & ? & ? & ? & ->). cbn. rewrite (geo_bpb _ _ _ Hgeo).
      pose proof (geo_total _ _ _ Hgeo) as Ht. rewrite u64_small by nia. apply Z.min_r. nia. }
    cbn. split_and!; try lia.
    + split; [destruct Hlike as (? & ? & ? & ? & ->); by repeat eexists|]. exists it, v, l. cbn. split_and!; try done; lia.
    + intros x Hx. replace x with (i * N + (x - i * N)) by lia. rewrite Hb by lia. rewrite Hn by lia. done.
    + rewrite Hb by lia. done.
Qed.

Lemma find_used_loop f i :
  at_key f i -> exists r, while (fallible find_used) 64 f = Some r /\ used_found (posn f i) r.
Proof using Hgeo.
  intros Hat. set (X := posn f i).
  set (I := fun f' : BitmapFreelistManager It => exists i', at_key f' i' /\ X <= posn f' i' /\ all_are false X (posn f' i')).
  apply (while_spec _ I left).
  - intros f' (i' & Hat' & HX & Hall). pose proof (find_used_step f' i' Hat') as H.
    destruct (fallible find_used f') as [f2|r].
    + destruct H as (i2 & Hat2 & Hlt & Hall2 & Hleft). split; [|done]. exists i2. split; [done|].
      assert (posn f' i' <= posn f2 i2).
      { destruct Hat' as (_ & ? & ? & ? & _ & _ & _ & _ & _ & _ & _ & _ & _ & Hp1).
        destruct Hat2 as (_ & ? & ? & ? & _ & _ & _ & _ & _ & _ & _ & _ & _ & Hp2). unfold posn. nia. }
      split; [lia|]. by eapply all_are_app.
    + destruct H as (f2 & [(i2 & -> & Hat2 & HS & Hall2 & Ha)|(i2 & -> & Hex & Ho & Hi & HS & Hall2)]).
      * exists f2. left. exists i2. split_and!; try done; [lia|]. by eapply all_are_app.
      * exists f2. right. exists i2. split_and!; try done; try lia. by eapply all_are_app.
  - exists i. split; [done|]. split; [lia|]. intros x Hx. lia.
  - exact (proj2 (at_key_left f i Hat)).
Qed.

(** ** enumerate_next *)

(** Ready to return the first run of free blocks from [X] on. *)
Inductive ready (db : DB) : Z -> BitmapFreelistManager It -> Prop :=
  | ready_fresh f : like_f0 f -> enumerate_offset_ f = 0 -> enumerate_bl_pos_ f = 0 -> ready db 0 f
  | ready_mid f i : at_key f i -> 0 < posn f i -> ready db (posn f i) f
  | ready_done f : like_f0 f -> size_ f0 <= enumerate_offset_ f -> ready db (blocks_ f0) f.

(** What one call returns: nothing, when no free block is left, or a maximal run. *)
Definition run_from (db : DB) (X : Z) (r : option (Z * Z)) f : Prop :=
  match r with
  | None => all_are true X (blocks_ f0)
  | Some (o, len) => exists F E, o = F * U /\ len = (E - F) * U /\ X <= F < E /\ E <= blocks_ f0 /\
      all_are true X F /\ all_are false F E /\ (E < blocks_ f0 -> al E = true) /\ ready db E f
  end.

Lemma key_below_size i : 0 <= i < K -> i * B < size_ f0.
Proof using Hgeo.
  intros Hi. destruct (geo_size _ _ _ Hgeo) as [Hs _]. rewrite (blocks_eq f0 g b Hgeo) in Hs.
  destruct (pow_facts f0 g b Hgeo) as (HU & HN & HB & HBN & _). rewrite HBN in *. nia.
Qed.

(** The two loops, from a key on. *)
Lemma enumerate_from db f i :
  at_key f i ->
  exists r f', ('(offset, f) ← whileM find_free 64 f;
      it ← enumerate_p_ f;
      valid ← it_valid it;
      '(end_, f) ← if (valid : bool) then whileM find_used 64 f else Some (None, f);
      match end_ with
      | Some e => Some (Some (offset, e -64 offset), f)
      | None =>
          if enumerate_offset_ f <? size_ f then
            Some (Some (offset, blocks_ f *64 bytes_per_block_ f -64 offset),
              with_enum (enumerate_p_ f) (size_ f) (enumerate_bl_ f) (blocks_per_key_ f) f)
          else Some (None, f)
      end) = Some (r, f') /\ run_from db (posn f i) r f'.
Proof using Hgeo.
  intros Hat. unfold whileM. destruct (find_free_loop f i Hat) as (r1 & -> & F & f1 & -> & HF & Hall & Hcase).
  rewrite mjoin_some, some_bind. cbv iota beta.
  destruct (pow_facts f0 g b Hgeo) as (HU & HN & HB & HBN & _). pose proof (blocks_eq f0 g b Hgeo) as HK.
  pose proof (geo_total _ _ _ Hgeo) as Ht. pose proof (geo_size _ _ _ Hgeo) as Hsz.
  assert (forall f2, like_f0 f2 -> blocks_ f2 = blocks_ f0 /\ bytes_per_block_ f2 = U /\ size_ f2 = size_ f0) as Hgeo2.
  { intros f2 (? & ? & ? & ? & ->). cbn. split; [done|]. split; [apply (geo_bpb _ _ _ Hgeo)|done]. }
  assert (0 <= F) as HF0.
  { destruct Hat as (_ & ? & ? & ? & _ & _ & _ & _ & _ & ? & _ & _ & _ & ?). unfold posn in HF. nia. }
  assert (forall f2, like_f0 f2 -> F < blocks_ f0 -> all_are false F (blocks_ f0) -> enumerate_offset_ f2 < size_ f0 ->
    run_from db (posn f i) (Some (F * U, blocks_ f2 *64 bytes_per_block_ f2 -64 F * U))
      (with_enum (enumerate_p_ f2) (size_ f0) (enumerate_bl_ f2) (blocks_per_key_ f2) f2)) as Hlast.
  { intros f2 Hl HFb Hfree Hoff. destruct (Hgeo2 f2 Hl) as (-> & -> & _). exists F, (blocks_ f0). split_and!; try done; try lia.
    - rewrite (u64_small (blocks_ f0 * U)) by nia. rewrite u64_small by nia. lia.
    - apply ready_done; [destruct Hl as (? & ? & ? & ? & ->); by repeat eexists|]. cbn. lia. }
  destruct Hcase as [(j & Hat1 & HFp & Hfree & HaF & HFb)|(Hex & Hoff & HFb & HFm & Hfree)].
  - pose proof Hat1 as (Hl1 & it & v & l & Hp & Hok & Hs & _). rewrite Hp, some_bind.
    rewrite (it_valid_spec it Hok), Hs, some_bind. cbv iota.
    destruct (find_used_loop f1 j Hat1) as (r2 & -> & f2 & [(k & -> & Hat2 & HS & Hfree2 & Ha)|(k & -> & Hex & Ho & Hk & HS & Hfree2)]);
      rewrite mjoin_some, some_bind; cbv iota beta.
    + eexists _, f2. split; [done|]. exists F, (posn f2 k).
      assert (posn f2 k < blocks_ f0) as Hkb.
      { destruct Hat2 as (_ & ? & ? & ? & _ & _ & _ & _ & _ & ? & _ & _ & _ & ?). unfold posn. nia. }
      assert (F <> posn f2 k) by congruence.
      split_and!; try done; try lia.
      * rewrite u64_small by nia. lia.
      * by eapply all_are_app.
      * apply ready_mid; [done|lia].
    + destruct Hex as [Hl2 _]. rewrite (proj2 (proj2 (Hgeo2 f2 Hl2))).
      assert (enumerate_offset_ f2 < size_ f0) as Hlt by (rewrite Ho; by apply key_below_size).
      destruct (Z.ltb_spec (enumerate_offset_ f2) (size_ f0)); [|lia].
      eexists _, _. split; [done|]. apply Hlast; try done. by eapply all_are_app.
  - destruct Hex as [Hl1 (it & Hp & Hok & Hs)]. rewrite Hp, some_bind, (it_valid_spec it Hok), Hs, some_bind. cbv iota. rewrite some_bind. cbv iota beta.
    rewrite (proj2 (proj2 (Hgeo2 f1 Hl1))).
    destruct (Z.ltb_spec (enumerate_offset_ f1) (size_ f0)) as [Hlt|Hge]; rewrite Hoff in *.
    + eexists _, _. split; [done|]. rewrite Hp in *. rewrite <- Hp. apply Hlast; try done; [nia|]. by rewrite Hoff.
    + eexists _, _. split; [done|]. assert (F = blocks_ f0) as ->; [|done].
      destruct (Z.eq_dec F (blocks_ f0)); [done|]. exfalso. apply Z.div_exact in HFm; [|lia].
      assert (F / N < K) by nia. rewrite HBN in *. nia.
Qed.

(** Block 0 is reserved, as [create] leaves it. *)
Context (db : DB) (Hdb : kv_ok db) (Hholds : holds f0 g b (kv_map db) al) (Hal0 : al 0 = true).

Lemma enumerate_key f i :
  at_key f i -> ~ (enumerate_offset_ f = 0 /\ enumerate_bl_pos_ f = 0) ->
  exists r f', enumerate_next db f = Some (r, f') /\ run_from db (posn f i) r f'.
Proof using Hgeo Hal0.
  intros Hat Hn. pose proof Hat as (Hl & _ & _ & _ & _ & _ & _ & Ho & _ & Hi & _).
  unfold enumerate_next, enumerate_start.
  replace ((enumerate_offset_ f =? 0) && (enumerate_bl_pos_ f =? 0)) with false by lia. rewrite some_bind. cbv iota.
  assert (size_ f = size_ f0) as -> by (by destruct Hl as (? & ? & ? & ? & ->)).
  pose proof (key_below_size i Hi). destruct (Z.leb_spec (size_ f0) (enumerate_offset_ f)); [lia|].
  by apply enumerate_from.
Qed.

Lemma enumerate_fresh f :
  like_f0 f -> enumerate_offset_ f = 0 -> enumerate_bl_pos_ f = 0 ->
  exists r f', enumerate_next db f = Some (r, f') /\ run_from db 0 r f'.
Proof using Hgeo Hdb Hholds Hal0.
  intros Hl Ho Hp. destruct (pow_facts f0 g b Hgeo) as (HU & HN & HB & HBN & _). pose proof (blocks_eq f0 g b Hgeo) as HK.
  unfold enumerate_next, enumerate_start. rewrite Ho, Hp. cbn [Z.eqb andb].
  assert (bitmap_prefix_ f = bitmap_prefix_ f0) as Ebp by (by destruct Hl as (? & ? & ? & ? & ->)). rewrite Ebp.
  destruct (it_lower_bound_spec db (bitmap_prefix_ f0) Hdb (geo_bitmap _ _ _ Hgeo)) as (it & -> & Hok & Hsort & Hmem).
  pose proof (holds_covers _ _ Hholds Hsort Hmem) as Hc.
  assert (0 < blocks_ f0) as Hpos.
  { pose proof (geo_size _ _ _ Hgeo) as Hs. pose proof (geo_pos _ _ _ Hgeo) as Hs0. nia. }
  destruct (it_shows it) as [|[k v] l] eqn:Es.
  { exfalso. rewrite (Hc 0) in Hal0; [done|lia]. }
  destruct (next_key_cons it k v l 0 Hok Es Hc ltac:(lia)) as (i & Hi & -> & -> & Hv & Hgap & Hb & Hc').
  assert (i = 0) as -> by (destruct (Z.eq_dec i 0); [done|]; rewrite (Hgap 0) in Hal0; [done|nia]).
  cbn [snd]. rewrite some_bind, Z.mul_0_l. cbv iota beta. change (cxxlab_assert (0 =? 0)) with (Some tt).
  rewrite !some_bind. cbv iota beta.
  set (f1 := with_enum (Some it) 0 v 0 f).
  assert (at_key f1 0) as Hat.
  { split; [destruct Hl as (? & ? & ? & ? & ->); by repeat eexists|]. exists it, v, l. cbn. split_and!; try done; lia. }
  assert (size_ f1 = size_ f0) as -> by (by destruct Hl as (? & ? & ? & ? & ->)).
  change (enumerate_offset_ f1) with 0. pose proof (geo_pos _ _ _ Hgeo).
  destruct (Z.leb_spec (size_ f0) 0); [lia|]. by apply (enumerate_from db f1 0).
Qed.

Lemma enumerate_next_run X f : ready db X f -> exists r f', enumerate_next db f = Some (r, f') /\ run_from db X r f'.
Proof using Hgeo Hdb Hholds Hal0.
  intros [f' Hl Ho Hp|f' i Hat Hpos|f' Hl Ho].
  - by apply enumerate_fresh.
  - apply enumerate_key; [done|]. destruct Hat as (_ & ? & ? & ? & _ & _ & _ & Eo & _ & Hi & _). rewrite Eo.
    destruct (pow_facts f0 g b Hgeo) as (_ & _ & HB & _). unfold posn in Hpos. intros [E1 E2]. rewrite E2 in Hpos. nia.
  - pose proof (geo_pos _ _ _ Hgeo). unfold enumerate_next, enumerate_start.
    replace ((enumerate_offset_ f' =? 0) && (enumerate_bl_pos_ f' =? 0)) with false by lia. rewrite some_bind. cbv iota.
    assert (size_ f' = size_ f0) as -> by (by destruct Hl as (? & ? & ? & ? & ->)).
    destruct (Z.leb_spec (size_ f0) (enumerate_offset_ f')); [|lia]. eexists _, _. split; [done|]. intros x Hx. lia.
Qed.

(** The extents of an enumeration from block [X] on. *)
Fixpoint runs (X : Z) (l : list (Z * Z)) : Prop :=
  match l with
  | [] => all_are true X (blocks_ f0)
  | (o, len) :: l => exists F E, o = F * U /\ len = (E - F) * U /\ X <= F < E /\ E <= blocks_ f0 /\
      all_are true X F /\ all_are false F E /\ (E < blocks_ f0 -> al E = true) /\ runs E l
  end.

Lemma enumerate_all_runs n X f :
  ready db X f -> 0 <= X <= blocks_ f0 -> blocks_ f0 - X < Z.of_nat n -> exists l, enumerate_all n db f = Some l /\ runs X l.
Proof using Hgeo Hdb Hholds Hal0.
  revert X f. induction n as [|n IH]; intros X f Hr HX Hn; [lia|]. cbn [enumerate_all].
  destruct (enumerate_next_run X f Hr) as (r & f' & -> & Hrun). rewrite some_bind. cbv iota beta.
  destruct r as [[o len]|]; [|by exists []].
  destruct Hrun as (F & E & -> & -> & HXF & HE & H1 & H2 & H3 & H4).
  destruct (IH E f' H4 ltac:(lia) ltac:(lia)) as (l & -> & Hl). rewrite some_bind. eexists. split; [done|].
  exists F, E. done.
Qed.

(** What [runs] says of the blocks and of the order. *)
Lemma runs_spec X l :
  0 <= X -> runs X l ->
  (forall x, X <= x < blocks_ f0 -> al x = false <-> exists o len, (o, len) ∈ l /\ o <= x * U < o + len) /\
  Forall (fun e => X * U <= e.1 /\ 0 < e.2 /\ e.1 + e.2 <= blocks_ f0 * U /\ e.1 mod U = 0 /\ e.2 mod U = 0) l /\
  StronglySorted (fun e1 e2 => e1.1 + e1.2 < e2.1) l.
Proof using Hgeo.
  clear Hdb Hholds Hal0. destruct (pow_facts f0 g b Hgeo) as (HU & _).
  revert X. induction l as [|[o len] l IH]; intros X HX Hr; simpl in Hr.
  - split; [|by repeat constructor]. intros x Hx. rewrite (Hr x Hx). split; [done|]. intros (? & ? & []%not_elem_of_nil & _).
  - destruct Hr as (F & E & -> & -> & HXF & HE & H1 & H2 & H3 & H4).
    destruct (IH E ltac:(lia) H4) as (Hmem & Hall & Hsort). split_and!.
    + intros x Hx. split.
      * intros Hf. assert (F <= x). { destruct (Z.lt_ge_cases x F); [|done]. rewrite (H1 x) in Hf; [done|lia]. }
        destruct (Z.lt_ge_cases x E); [exists (F * U), ((E - F) * U); split; [set_solver|nia]|].
        apply Hmem in Hf as (o & len & Hin & Ho); [|lia]. exists o, len. split; [set_solver|done].
      * intros (o & len & [Eq|Hin]%elem_of_cons & Ho).
        -- injection Eq as -> ->. apply H2. nia.
        -- apply Hmem; [|eauto]. rewrite Forall_forall in Hall. destruct (Hall _ Hin) as (? & _). simpl in *. nia.
    + constructor; [simpl; rewrite !Z.mod_mul by lia; nia|]. eapply Forall_impl; [exact Hall|]. intros e (? & ? & ? & ? & ?). split_and!; try done. nia.
    + constructor; [done|]. destruct l as [|[o2 len2] l]; [done|]. simpl in H4. destruct H4 as (F2 & E2 & -> & -> & HF2 & HE2 & G1 & G2 & _).
      assert (E < F2) as HEF. { destruct (Z.eq_dec E F2) as [<-|]; [|lia]. rewrite (G2 E) in H3; [|lia]. by specialize (H3 ltac:(lia)). }
      apply StronglySorted_inv in Hsort as [_ Hx2]. constructor; [simpl; nia|]. eapply Forall_impl; [exact Hx2|].
      simpl. intros e He. nia.
Qed.

End Enum.

(** C22: after any store contents that hold the bitmap [al] with block 0
    reserved, an enumeration from the start ends and returns exactly the free
    blocks: every free block lies in a returned extent and no allocated one
    does, the extents are non-empty, aligned, within the device and in order,
    and two of them never touch, so each is a maximal run. *)
Theorem enumerate_returns_free_runs {DB It} `{KeyValueDBSpec DB It} (f : BitmapFreelistManager It) g b al (db : DB) n :
  geometry f g b -> kv_ok db -> holds f g b (kv_map db) al -> al 0 = true -> blocks_ f < Z.of_nat n ->
  exists l, enumerate_all n db (enumerate_reset f) = Some l /\
    (forall x, 0 <= x < blocks_ f -> al x = false <-> exists o len, (o, len) ∈ l /\ o <= x * 2 ^ g < o + len) /\
    Forall (fun e => 0 <= e.1 /\ 0 < e.2 /\ e.1 + e.2 <= blocks_ f * 2 ^ g /\ e.1 mod 2 ^ g = 0 /\ e.2 mod 2 ^ g = 0) l /\
    StronglySorted (fun e1 e2 => e1.1 + e1.2 < e2.1) l.
Proof.
  intros Hgeo Hdb Hh H0 Hn.
  destruct (enumerate_all_runs f g b Hgeo al db Hdb Hh H0 n 0 (enumerate_reset f)) as (l & Hl & Hr).
  - apply ready_fresh; try done. by repeat eexists.
  - destruct (pow_facts f g b Hgeo) as (? & _). pose proof (geo_size _ _ _ Hgeo). pose proof (geo_pos _ _ _ Hgeo). nia.
  - lia.
  - exists l. split; [done|]. exact (runs_spec f g b Hgeo al 0 l ltac:(lia) Hr).
Qed.

End FreelistEnum.
