(* ===== verification/FreelistDemo.v ===== *)
(** * The free list on the store in memory

    A run of the free list over [MemDB]: a device of 1 MiB with blocks of 4 KiB,
    created, with some blocks allocated, and enumerated. *)
From stdpp Require Import base numbers list gmap sorting.
From Stdlib Require Import ZArith Lia ZifyBool Sorted String.
From S2P Require Import Prelude KeyValue PrefixIterator MemDB Freelist FreelistBits FreelistSpec FreelistEnum.
Import KeyValue Freelist FreelistBits FreelistSpec FreelistEnum.

Module FreelistDemo.

Abbreviation It := (PrefixIterator.PrefixIteratorImpl MemDB.MDBIterator).

Definition S_ : bytes := lit "S".
Definition b_ : bytes := lit "b".
Definition empty_db : MemDB.MemDB := MemDB.with_mops [XorMergeOperator] [(b_, 0%nat)].

Definition created_txn : option (Transaction * BitmapFreelistManager It) :=
  '(_, t, f) ← create 1048576 4096 [] (new_fm S_ b_);
  t ← allocate f 40960 8192 t;
  t ← allocate f 520192 8192 t;
  Some (t, f).

Definition txn : Transaction := default [] (fst <$> created_txn).
Definition fm : BitmapFreelistManager It := default (new_fm S_ b_) (snd <$> created_txn).
Definition db : MemDB.MemDB := default empty_db (snd <$> kv_submit empty_db txn).

(** 256 blocks in two keys; the second range crosses from one to the other. *)
Example enumerate_smoke :
  enumerate_all 300 db (enumerate_reset fm) = Some [(4096, 36864); (49152, 471040); (528384, 520192)].
Proof. vm_compute. reflexivity. Qed.

Definition al (x : Z) : bool :=
  (x =? 0) || ((10 <=? x) && (x <? 12)) || ((127 <=? x) && (x <? 129)).

Lemma fm_geometry : geometry fm 12 7.
Proof. constructor; try reflexivity; try (vm_compute; split; congruence); try (vm_compute; congruence); by repeat constructor. Qed.

Lemma db_ok : kv_ok db.
Proof.
  apply (MemDB.submit_ok txn empty_db 0 db).
  - apply MemDB.with_mops_ok.
  - apply (bool_decide_unpack _). vm_compute. exact I.
  - vm_compute. reflexivity.
Qed.

(** The pairs of the store, and the bits of its two keys. *)
Definition keys_check (m : kvmap) : bool :=
  forallb (fun x : (bytes * bytes) * bytes => negb (bool_decide (x.1.1 = b_)) ||
    ((bool_decide (x.1.2 = key_of 12 7 0) || bool_decide (x.1.2 = key_of 12 7 1)) && (bits_of x.2 =? 128))) (map_to_list m).
Definition bits_check (m : kvmap) : bool :=
  forallb (fun x => Bool.eqb (al x) (match m !! (b_, key_of 12 7 (x / 128)) with None => false | Some v => bit_at v (x mod 128) end)) (seqZ 0 256).

Lemma db_holds : holds fm 12 7 (kv_map db) al.
Proof.
  assert (keys_check (kv_map db) = true) as H1 by (vm_compute; reflexivity).
  assert (bits_check (kv_map db) = true) as H2 by (vm_compute; reflexivity).
  revert H1 H2. generalize (kv_map db). intros m H1 H2.
  unfold keys_check in H1. unfold bits_check in H2. apply Is_true_true, forallb_True in H1. apply Is_true_true, forallb_True in H2.
  change (bitmap_prefix_ fm) with b_. split.
  - intros k v Hk. apply elem_of_map_to_list in Hk. rewrite Forall_forall in H1. specialize (H1 _ Hk). cbn [fst snd] in H1.
    rewrite bool_decide_eq_true_2 in H1 by done. apply Is_true_true, andb_prop in H1 as [H1 Hv]. apply Z.eqb_eq in Hv.
    change (blocks_ fm / 2 ^ 7) with 2. apply orb_prop in H1 as [H1|H1]; apply bool_decide_eq_true in H1 as ->; [exists 0|exists 1]; (split; [lia|done]).
  - change (blocks_ fm / 2 ^ 7) with 2. intros i j Hi Hj. rewrite Forall_forall in H2. specialize (H2 (i * 2 ^ 7 + j)).
    rewrite elem_of_seqZ in H2. specialize (H2 ltac:(lia)). apply Is_true_true, Bool.eqb_prop in H2. rewrite H2.
    change (2 ^ 7) with 128 in *. by rewrite Z.add_comm, Z.div_add, Z.mod_add, Z.div_small, Z.mod_small by lia.
Qed.

Lemma enumerate_returns_free_runs_witness :
  exists l, enumerate_all 300 db (enumerate_reset fm) = Some l /\
    forall x, 0 <= x < 256 -> al x = false <-> exists o len, (o, len) ∈ l /\ o <= x * 2 ^ 12 < o + len.
Proof.
  destruct (enumerate_returns_free_runs fm 12 7 al db 300 fm_geometry db_ok db_holds eq_refl ltac:(vm_compute; reflexivity)) as (l & E & H & _).
  exists l. split; [exact E|exact H].
Defined.

Lemma get_meta_init_witness :
  init db (Some (meta_reader (get_meta fm 0))) (new_fm S_ b_) = Some (0, _init_misc (with_cfg 1048576 256 4096 128 (new_fm S_ b_))).
Proof.
  apply (get_meta_init fm (new_fm S_ b_) db); (split; [vm_compute; congruence|vm_compute; reflexivity]).
Defined.

End FreelistDemo.
