(* ===== verification/BlueStoreSpace.v ===== *)
(** * bluestore/bluestore.cc: the life of a block

    How the object store keeps its space: [mkfs] creates the free list, a
    transaction records what it allocated and released in the free list,
    [mount] opens the free list and fills an allocator from it.  Composition of
    the free list, the key-value store and the allocator, each behind its
    interface.  Opening the device and the store, the other parts of [mkfs] and
    [mount], and the writing of objects are not modelled: the store is passed
    in, with the XOR operator that [_open_db] registers. *)
From stdpp Require Import base numbers list gmap sorting.
From Stdlib Require Import ZArith Lia ZifyBool Sorted String.
From S2P Require Import Prelude IntArith IntervalSet Allocator AvlAllocator AvlSpec KeyValue PrefixIterator MemDB Freelist FreelistBits FreelistSpec FreelistEnum.
Import KeyValue Freelist FreelistSpec.

Module BlueStoreSpace.
#[local] Abbreviation length := Datatypes.length.

Definition PREFIX_SUPER : bytes := lit "S".
Definition PREFIX_ALLOC_BITMAP : bytes := lit "b".
Definition CSUM_CRC32C : Z := 4.

Section Ops.
Context {DB It : Type} `{!KeyValueDB DB It}.

(** The part of [mkfs] between opening and closing. *)
Definition mkfs (db : DB) (dev_size min_alloc_size : Z) : option (Z * DB) :=
  '(r, t, _) ← create (It := It) dev_size min_alloc_size [] (new_fm PREFIX_SUPER PREFIX_ALLOC_BITMAP);
  if r <? 0 then Some (r, db) else
  let set k v t := txn_set PREFIX_SUPER (lit k) v t in
  let t := set "nid_max"%string (le_bytes 8 0) t in
  let t := set "blobid_max"%string (le_bytes 8 0) t in
  let t := set "min_alloc_size"%string (le_bytes 8 min_alloc_size) t in
  let t := set "freelist_type"%string (lit "bitmap") t in
  let t := set "csum_type"%string (le_bytes 1 CSUM_CRC32C) t in
  let t := set "csum_order"%string (le_bytes 1 12) t in
  let t := set "mkfs_done"%string (lit "done") t in
  kv_submit db t.

(** [_open_fm(txn, false)]: the configuration reader asks the store. *)
Definition _open_fm (db : DB) : option (Z * BitmapFreelistManager It) :=
  let cfg_reader key := kv_get db PREFIX_SUPER key in
  init db (Some (fun k => let '(r, bl) := cfg_reader k in if r <? 0 then (r, []) else (0, bl)))
    (new_fm PREFIX_SUPER PREFIX_ALLOC_BITMAP).

(** The loops of [_txc_finalize_kv]. *)
Fixpoint each_extent (op : Z -> Z -> Transaction -> option Transaction) (l : list (Z * Z)) (t : Transaction) : option Transaction :=
  match l with
  | [] => Some t
  | (start, len) :: l => t ← op start len t; each_extent op l t
  end.

Definition _txc_finalize_kv (f : BitmapFreelistManager It) (allocated released : IntervalSet.interval_set) (t : Transaction) : option Transaction :=
  t ← each_extent (allocate f) (IntervalSet.m_ allocated) t;
  each_extent (release f) (IntervalSet.m_ released) t.

(** [_txc_apply_kv] without the injected error; [r == 0] is asserted. *)
Definition _txc_apply_kv (db : DB) (t : Transaction) : option DB :=
  '(r, db) ← kv_submit db t;
  _ ← cxxlab_assert (r =? 0);
  Some db.

Section Alloc.
Context {A : Type} `{!Allocator.Allocator A}.

Definition init_alloc_step (db : DB) (s : BitmapFreelistManager It * A) :
  (BitmapFreelistManager It * A) + option (BitmapFreelistManager It * A) :=
  let '(f, a) := s in
  match enumerate_next db f with
  | None => inr None
  | Some (None, f) => inr (Some (f, a))
  | Some (Some (offset, len), f) =>
      match Allocator.init_add_free offset len a with
      | None => inr None
      | Some a => inl (f, a)
      end
  end.

(** [_init_alloc], the allocator being the one [Allocator::create] made. *)
Definition _init_alloc (db : DB) (f : BitmapFreelistManager It) (alloc : A) : option (Z * BitmapFreelistManager It * A) :=
  '(f, alloc) ← mjoin (while (init_alloc_step db) 64 (enumerate_reset f, alloc));
  Some (0, f, alloc).

Definition _txc_release_alloc (released : IntervalSet.interval_set) (alloc : A) : option A :=
  if negb (IntervalSet.is_empty released) then Allocator.release released alloc else Some alloc.

End Alloc.
End Ops.

(** ** Filling the allocator *)

Section InitAlloc.
Context {DB It : Type} `{!KeyValueDB DB It} `{!KeyValueDBSpec DB It}.
Context {A : Type} `{!Allocator.Allocator A} `{!Allocator.AllocatorSpec A}.
Context (f : BitmapFreelistManager It) (g b : Z) (Hgeo : FreelistBits.geometry f g b) (al : Z -> bool) (db : DB).
Context (Hdb : kv_ok db) (Hholds : FreelistBits.holds f g b (kv_map db) al) (Hal0 : al 0 = true).
Context (Htail : forall x, x < blocks_ f -> size_ f <= x * 2 ^ g -> al x = true).

(** The free bytes below block [X]. *)
Definition free_below (X : Z) (s : gset Z) : Prop :=
  forall y, y ∈ s <-> 0 <= y < X * 2 ^ g /\ al (y / 2 ^ g) = false.

(** Where an enumeration stands. *)
Definition xpos (f' : BitmapFreelistManager It) : Z :=
  if size_ f <=? enumerate_offset_ f' then blocks_ f else enumerate_offset_ f' / 2 ^ g + enumerate_bl_pos_ f'.

Lemma ready_xpos X f' : FreelistEnum.ready f g b al db X f' -> xpos f' = X.
Proof.
  pose proof (FreelistBits.geo_pos _ _ _ Hgeo) as Hs. unfold xpos. intros [f1 Hl Ho Hp|f1 i Hat Hpos|f1 Hl Ho].
  - rewrite Ho, Hp. destruct (Z.leb_spec (size_ f) 0); [lia|]. rewrite Z.div_0_l; [lia|].
    destruct (FreelistBits.pow_facts f g b Hgeo) as (? & _). lia.
  - destruct Hat as (_ & it & v & l & _ & _ & _ & Ho & _ & Hi & _). rewrite Ho.
    pose proof (FreelistEnum.key_below_size f g b Hgeo i Hi). destruct (Z.leb_spec (size_ f) (i * 2 ^ (g + b))); [lia|].
    destruct (FreelistBits.pow_facts f g b Hgeo) as (HU & _ & _ & -> & _). unfold FreelistEnum.posn. f_equal.
    rewrite Z.mul_assoc. apply Z.div_mul. lia.
  - by destruct (Z.leb_spec (size_ f) (enumerate_offset_ f1)); [|lia].
Qed.

Lemma free_below_extend X F E s :
  0 <= X <= F -> F <= E -> FreelistEnum.all_are al true X F -> FreelistEnum.all_are al false F E ->
  free_below X s -> free_below E (zrange (F * 2 ^ g) ((E - F) * 2 ^ g) ∪ s) /\ zrange (F * 2 ^ g) ((E - F) * 2 ^ g) ## s.
Proof.
  intros HXF HFE H1 H2 Hs. destruct (FreelistBits.pow_facts f g b Hgeo) as (HU & _). split.
  - intros y. rewrite elem_of_union, elem_of_zrange, (Hs y). split.
    + intros [Hy|[Hy Hf]]; [|split; [nia|done]]. split; [nia|]. apply H2.
      split; [apply Z.div_le_lower_bound|apply Z.div_lt_upper_bound]; lia.
    + intros [Hy Hf]. destruct (Z.lt_ge_cases y (X * 2 ^ g)); [right; split; [lia|done]|]. left.
      destruct (Z.lt_ge_cases y (F * 2 ^ g)) as [HyF|]; [|lia]. exfalso. rewrite (H1 (y / 2 ^ g)) in Hf; [done|].
      split; [apply Z.div_le_lower_bound|apply Z.div_lt_upper_bound]; lia.
  - intros y. rewrite elem_of_zrange, (Hs y). intros Hy [Hy' _]. nia.
Qed.

Lemma init_alloc_free (a : A) :
  Allocator.ok a -> Allocator.free a = ∅ -> Allocator.first_usable <= 2 ^ g -> Allocator.get_block_size a = 2 ^ g -> size_ f <= Allocator.get_capacity a ->
  exists f' a', _init_alloc db f a = Some (0, f', a') /\ Allocator.ok a' /\ free_below (blocks_ f) (Allocator.free a').
Proof.
  intros Ha Hfree Hfirst Hbs Hcap. destruct (FreelistBits.pow_facts f g b Hgeo) as (HU & HN & _).
  pose proof (FreelistBits.geo_size _ _ _ Hgeo) as Hsz. pose proof (FreelistBits.geo_total _ _ _ Hgeo) as Htot.
  pose proof (FreelistBits.geo_pos _ _ _ Hgeo) as Hsz0. pose proof (FreelistBits.geo_align _ _ _ Hgeo) as Halign.
  assert (0 < blocks_ f) as Hb0 by nia.
  set (I := fun s : BitmapFreelistManager It * A => exists X, FreelistEnum.ready f g b al db X s.1 /\ 0 <= X <= blocks_ f /\
    Allocator.ok s.2 /\ free_below X (Allocator.free s.2) /\ Allocator.get_block_size s.2 = 2 ^ g /\
    Allocator.get_capacity s.2 = Allocator.get_capacity a).
  set (Q := fun r : option (BitmapFreelistManager It * A) => exists f' a', r = Some (f', a') /\ Allocator.ok a' /\
    free_below (blocks_ f) (Allocator.free a')).
  enough (exists r, while (init_alloc_step db) 64 (enumerate_reset f, a) = Some r /\ Q r) as (r & Hw & f' & a' & -> & Hok' & Hf').
  { exists f', a'. split; [|done]. unfold _init_alloc. by rewrite Hw, mjoin_some, some_bind. }
  apply (while_spec _ I (fun s => blocks_ f - xpos s.1)).
  - intros [f1 a1] (X & Hr & HX & Hok1 & Hf1 & Hbs1 & Hcap1). cbn [fst snd] in *. unfold init_alloc_step.
    destruct (FreelistEnum.enumerate_next_run f g b Hgeo al db Hdb Hholds Hal0 X f1 Hr) as (r & f2 & -> & Hrun).
    destruct r as [[o len]|].
    + destruct Hrun as (F & E & -> & -> & HXF & HE & H1 & H2 & H3 & Hr2).
      destruct (free_below_extend X F E _ ltac:(lia) ltac:(lia) H1 H2 Hf1) as [Hf2 Hdisj].
      assert (E * 2 ^ g <= size_ f) as HEs.
      { destruct (Z.le_gt_cases (size_ f) ((E - 1) * 2 ^ g)) as [Hge|Hlt].
        - pose proof (Htail (E - 1) ltac:(lia) Hge) as Ht. by rewrite (H2 (E - 1)) in Ht by lia.
        - apply Z.div_exact in Halign; [|lia]. rewrite Halign, (Z.mul_comm (2 ^ g)) in Hlt |- *.
          apply Z.mul_lt_mono_pos_r in Hlt; [|lia]. apply Z.mul_le_mono_nonneg_r; lia. }
      assert (Allocator.first_usable <= F * 2 ^ g) as HF1.
      { destruct (decide (F = 0)) as [->|]; [by rewrite (H2 0) in Hal0 by lia|]. assert (1 * 2 ^ g <= F * 2 ^ g) by (apply Z.mul_le_mono_nonneg_r; lia). lia. }
      destruct (Allocator.init_add_free_spec a1 (F * 2 ^ g) ((E - F) * 2 ^ g) Hok1) as (a2 & -> & Hok2 & Hc2 & Hb2 & Hfr2);
        rewrite ?Hbs1, ?Z.mod_mul by lia; try done; try nia.
      rewrite (ready_xpos X f1 Hr). cbn [fst]. rewrite (ready_xpos E f2 Hr2). split; [|lia].
      exists E. cbn [fst snd]. rewrite Hfr2. split_and!; try done; try lia; congruence.
    + exists f2, a1. split; [done|]. split; [done|]. intros y. rewrite (Hf1 y). split.
      * intros [Hy Hal]. split; [nia|done].
      * intros [Hy Hal]. split; [|done]. destruct (Z.lt_ge_cases y (X * 2 ^ g)); [lia|]. exfalso.
        rewrite (Hrun (y / 2 ^ g)) in Hal; [done|]. split; [apply Z.div_le_lower_bound|apply Z.div_lt_upper_bound]; lia.
  - exists 0. cbn [fst snd]. split_and!; try done; try lia.
    + apply FreelistEnum.ready_fresh; [by repeat eexists|done..].
    + intros y. rewrite Hfree. split; [by intros ?%not_elem_of_empty|lia].
  - cbn [fst]. unfold xpos. cbn. destruct (Z.leb_spec (size_ f) 0); [lia|]. rewrite Z.div_0_l by lia. nia.
Qed.

End InitAlloc.

(** ** Transactions *)

Section Commit.
Context {It : Type} (f : BitmapFreelistManager It) (g b : Z) (Hgeo : FreelistBits.geometry f g b).
Context (mop : mop_fns) (Hmop : mop (bitmap_prefix_ f) = Some (merge_nonexistent XorMergeOperator, merge XorMergeOperator)).
#[local] Abbreviation U := (2 ^ g).

(** The ranges of an extent list are whole blocks of the device. *)
Definition whole_blocks (l : list (Z * Z)) : Prop :=
  Forall (fun p => p.1 mod U = 0 /\ p.2 mod U = 0 /\ p.1 + p.2 <= blocks_ f * U) l.

Lemma each_extent_flipping op l lb t :
  (forall o n t, op o n t = _xor f o n t) -> 0 <= lb -> IntervalSet.wf_from lb l -> whole_blocks l ->
  exists ops, each_extent op l t = Some (t ++ ops) /\
    flipping f g b mop ops (fun x => bool_decide (x * U ∈ IntervalSet.points l)).
Proof.
  intros Hop. destruct (FreelistBits.pow_facts f g b Hgeo) as (HU & _).
  revert lb t. induction l as [|[k v] l IH]; intros lb t Hlb Hwf Hb.
  { exists []. rewrite app_nil_r. split; [done|]. eapply (flipping_ext _ _ _ Hgeo); [by apply flipping_nil|].
    intros x _. by rewrite bool_decide_eq_false_2. }
  destruct Hwf as (Hk & Hv & _ & Hwf). apply Forall_cons in Hb as [(Hkm & Hvm & Hend) Hb]. cbn [fst snd] in *.
  apply Z.div_exact in Hkm; [|lia]. apply Z.div_exact in Hvm; [|lia]. set (s := k / U) in *. set (n := v / U) in *. clearbody s n. subst k v.
  cbn [each_extent]. rewrite Hop, (Z.mul_comm U s), (Z.mul_comm U n).
  destruct (_xor_flipping f g b Hgeo mop Hmop s n t) as (ops1 & -> & Hf1); [nia..|]. rewrite some_bind.
  destruct (IH (U * s + U * n + 1) (t ++ ops1) ltac:(lia) Hwf Hb) as (ops2 & -> & Hf2). exists (ops1 ++ ops2). split; [by rewrite app_assoc|].
  eapply (flipping_ext _ _ _ Hgeo); [by apply (flipping_app _ _ _ Hgeo)|]. intros x Hx. cbv beta.
  rewrite IntervalSet.points_cons.
  assert ((s <=? x) && (x <? s + n) = bool_decide (x * U ∈ zrange (s * U) (n * U))) as ->.
  { apply eq_true_iff_eq. rewrite bool_decide_eq_true, elem_of_zrange. nia. }
  destruct (decide (x * U ∈ IntervalSet.points l)) as [Hin|Hin].
  - assert (x * U ∉ zrange (s * U) (n * U)) as Hnin.
    { rewrite elem_of_zrange. apply IntervalSet.elem_of_points in Hin. pose proof (IntervalSet.covers_lb _ _ _ Hwf Hin). lia. }
    rewrite (bool_decide_eq_true_2 _ Hin), (bool_decide_eq_false_2 _ Hnin). apply bool_decide_eq_true_2, elem_of_union. by right.
  - rewrite (bool_decide_eq_false_2 _ Hin), xorb_false_r. apply bool_decide_ext. rewrite elem_of_union. tauto.
Qed.

Lemma allocate_xor o n t : allocate f o n t = _xor f o n t.
Proof. unfold allocate. by rewrite (FreelistBits.geo_null _ _ _ Hgeo). Qed.
Lemma release_xor o n t : release f o n t = _xor f o n t.
Proof. unfold release. by rewrite (FreelistBits.geo_null _ _ _ Hgeo). Qed.

Lemma finalize_flipping (al re : IntervalSet.interval_set) t :
  IntervalSet.wf al -> IntervalSet.wf re -> whole_blocks (IntervalSet.m_ al) -> whole_blocks (IntervalSet.m_ re) ->
  exists ops, _txc_finalize_kv f al re t = Some (t ++ ops) /\
    flipping f g b mop ops (fun x => xorb (bool_decide (x * U ∈ IntervalSet.pts al)) (bool_decide (x * U ∈ IntervalSet.pts re))).
Proof.
  intros [Ha _] [Hr _] Hba Hbr. unfold _txc_finalize_kv.
  destruct (each_extent_flipping (allocate f) _ 0 t allocate_xor ltac:(lia) Ha Hba) as (ops1 & -> & Hf1). rewrite some_bind.
  destruct (each_extent_flipping (release f) _ 0 (t ++ ops1) release_xor ltac:(lia) Hr Hbr) as (ops2 & -> & Hf2).
  exists (ops1 ++ ops2). split; [by rewrite app_assoc|]. by apply (flipping_app _ _ _ Hgeo).
Qed.

End Commit.

(** ** The store of an object store *)

Definition super_keys : list bytes :=
  [lit "bytes_per_block"; lit "blocks_per_key"; lit "blocks"; lit "size"; lit "nid_max"; lit "blobid_max";
   lit "min_alloc_size"; lit "freelist_type"; lit "csum_type"; lit "csum_order"; lit "mkfs_done"].

(** [used]: the bytes in use according to the bitmap [al]. *)
Definition tracks {It} (f : BitmapFreelistManager It) (g : Z) (al : Z -> bool) (used : gset Z) : Prop :=
  (forall y, y ∈ used <-> 0 <= y < size_ f /\ al (y / 2 ^ g) = true) /\
  (forall x, x < blocks_ f -> size_ f <= x * 2 ^ g -> al x = true) /\ al 0 = true.

(** [_assign_nid] of an object with the number [nid]: its number, [nid_last_], [nid_max_]
    and the transaction.  (That the object is also listed in [TransContext::onodes] does
    not show in the transaction here.) *)
Definition _assign_nid (nid nid_last nid_max : Z) (t : Transaction) : Z * Z * Z * Transaction :=
  if nid =? 0 then
    let nid_last := nid_last +64 1 in
    if nid_max <? nid_last then
      let nid_max := nid_last +64 1024 in
      (nid_last, nid_last, nid_max, txn_set PREFIX_SUPER (lit "nid_max") (le_bytes 8 nid_max) t)
    else (nid_last, nid_last, nid_max, t)
  else (nid, nid_last, nid_max, t).

(** What the rest of the object store puts into a transaction: changes under other
    prefixes, without merging, and the record of [_assign_nid]. *)
Definition foreign_op (o : Op) : Prop :=
  nul_free (op_prefix o) /\
  (op_prefix o <> PREFIX_SUPER /\ op_prefix o <> PREFIX_ALLOC_BITMAP /\ op_type o <> MERGE \/
   op_type o = SET /\ op_prefix o = PREFIX_SUPER /\ op_key o = lit "nid_max").
Definition foreign (t : Transaction) : Prop := Forall foreign_op t.

Lemma assign_nid_foreign nid nid_last nid_max t : foreign t -> foreign (_assign_nid nid nid_last nid_max t).2.
Proof.
  intros Ht. unfold _assign_nid. destruct (nid =? 0); [|done]. destruct (_ <? _); [|done]. apply Forall_app. split; [done|]. apply Forall_singleton. split; [by repeat constructor|]. by right.
Qed.

(** What a transaction may allocate and release: whole blocks, free ones and
    used ones, never the first block. *)
Definition legal {It} (f : BitmapFreelistManager It) (g : Z) (used : gset Z) (al re : IntervalSet.interval_set) : Prop :=
  IntervalSet.wf al /\ IntervalSet.wf re /\
  Forall (fun p => p.1 mod 2 ^ g = 0 /\ p.2 mod 2 ^ g = 0) (IntervalSet.m_ al) /\
  Forall (fun p => p.1 mod 2 ^ g = 0 /\ p.2 mod 2 ^ g = 0) (IntervalSet.m_ re) /\
  IntervalSet.pts al ⊆ zrange 0 (size_ f) ∖ used /\ IntervalSet.pts re ⊆ used ∖ zrange 0 (2 ^ g).

Section Tracks.
Context {It : Type} (f : BitmapFreelistManager It) (g b : Z) (Hgeo : FreelistBits.geometry f g b).
#[local] Abbreviation U := (2 ^ g).

Lemma aligned_points l y :
  Forall (fun p => p.1 mod U = 0 /\ p.2 mod U = 0) l -> y ∈ IntervalSet.points l <-> y / U * U ∈ IntervalSet.points l.
Proof.
  destruct (FreelistBits.pow_facts f g b Hgeo) as (HU & _). induction 1 as [|[k v] l [Hk Hv] _ IH]; [done|]. cbn [fst snd] in *.
  rewrite IntervalSet.points_cons, !elem_of_union, IH, !elem_of_zrange. apply Z.div_exact in Hk; [|lia]. apply Z.div_exact in Hv; [|lia].
  set (s := k / U) in *. set (n := v / U) in *. clearbody s n. subst k v.
  pose proof (Z.div_mod y U ltac:(lia)). pose proof (Z.mod_pos_bound y U HU). set (q := y / U) in *. set (m := y mod U) in *. clearbody q m.
  assert (U * s <= y < U * s + U * n <-> U * s <= q * U < U * s + U * n) as ->; [|done].
  assert (s <= q < s + n <-> U * s <= q * U < U * s + U * n) as <- by nia. nia.
Qed.

Lemma legal_blocks used al re : legal f g used al re -> (forall y, y ∈ used -> 0 <= y < size_ f) ->
  whole_blocks f g (IntervalSet.m_ al) /\ whole_blocks f g (IntervalSet.m_ re).
Proof.
  intros (Ha & Hr & Ma & Mr & Sa & Sr) Hu. pose proof (FreelistBits.geo_size _ _ _ Hgeo) as Hs.
  assert (forall s, IntervalSet.wf s -> Forall (fun p => p.1 mod U = 0 /\ p.2 mod U = 0) (IntervalSet.m_ s) ->
    (forall y, y ∈ IntervalSet.pts s -> y < size_ f) -> whole_blocks f g (IntervalSet.m_ s)) as H.
  { intros s [Hw _] Hm Hin. unfold IntervalSet.pts in Hin. revert Hw Hm Hin.
    assert (exists lb, lb = 0) as [lb E] by eauto. rewrite <- E at 1. clear E. revert lb.
    induction (IntervalSet.m_ s) as [|[k v] l IH]; intros lb Hw Hm Hin; [constructor|].
    destruct Hw as (Hk & Hv & _ & Hw). apply Forall_cons in Hm as [[H1 H2] Hm]. constructor.
    - cbn [fst snd] in *. split_and!; try done. specialize (Hin (k + v - 1)). rewrite IntervalSet.points_cons, elem_of_union, elem_of_zrange in Hin.
      specialize (Hin ltac:(left; lia)). lia.
    - eapply IH; [exact Hw|done|]. intros y Hy. apply Hin. rewrite IntervalSet.points_cons. apply elem_of_union. by right. }
  split; apply H; try done.
  - intros y Hy. apply Sa in Hy. rewrite elem_of_difference, elem_of_zrange in Hy. lia.
  - intros y Hy. apply Sr in Hy. rewrite elem_of_difference in Hy. destruct Hy as [Hy _]. apply Hu in Hy. lia.
Qed.

(** A legal transaction: the flipped bitmap tracks the new set. *)
Lemma tracks_step bits used al re :
  tracks f g bits used -> legal f g used al re ->
  tracks f g (fun x => xorb (bits x) (xorb (bool_decide (x * U ∈ IntervalSet.pts al)) (bool_decide (x * U ∈ IntervalSet.pts re))))
    ((used ∪ IntervalSet.pts al) ∖ IntervalSet.pts re).
Proof.
  intros (Ht & Htail & H0) (_ & _ & Ma & Mr & Sa & Sr). destruct (FreelistBits.pow_facts f g b Hgeo) as (HU & _).
  pose proof (FreelistBits.geo_pos _ _ _ Hgeo) as Hsz.
  assert (forall y, y ∈ IntervalSet.pts al -> 0 <= y < size_ f /\ y ∉ used) as Sa'.
  { intros y Hy. apply Sa in Hy. rewrite elem_of_difference, elem_of_zrange in Hy. split; [lia|tauto]. }
  assert (forall y, y ∈ IntervalSet.pts re -> y ∈ used /\ ~ (0 <= y < U)) as Sr'.
  { intros y Hy. apply Sr in Hy. rewrite elem_of_difference, elem_of_zrange in Hy. split; [tauto|lia]. }
  split_and!.
  - intros y. rewrite elem_of_difference, elem_of_union.
    pose proof (aligned_points _ y Ma) as Ea. pose proof (aligned_points _ y Mr) as Er. fold (IntervalSet.pts al) in Ea. fold (IntervalSet.pts re) in Er.
    set (x := y / U) in *.
    assert (0 <= y < size_ f -> x * U ∈ used <-> bits x = true) as Eu.
    { intros Hy. rewrite Ht, Z.div_mul by lia. pose proof (Z.div_mod y U ltac:(lia)). pose proof (Z.mod_pos_bound y U HU). fold x in H.
      assert (0 <= x) by (apply Z.div_pos; lia). assert (0 <= x * U < size_ f) by nia. tauto. }
    rewrite Ea, Er, Ht. fold x.
    destruct (decide (0 <= y < size_ f)) as [Hy|Hy].
    + specialize (Eu Hy). destruct (bits x) eqn:Eb.
      * assert (x * U ∉ IntervalSet.pts al) as Hn by (intros Hin; apply Sa' in Hin as [_ []]; by apply Eu).
        rewrite (bool_decide_eq_false_2 _ Hn), xorb_false_l. case_bool_decide; naive_solver.
      * assert (x * U ∉ IntervalSet.pts re) as Hn by (intros Hin; apply Sr' in Hin as [Hin _]; apply Eu in Hin; done).
        rewrite (bool_decide_eq_false_2 _ Hn), xorb_false_r. case_bool_decide; naive_solver.
    + split; [|tauto]. intros [[[? _]|Hin] _]; [done|]. exfalso. apply Hy. apply Ea in Hin. by apply Sa' in Hin as [? _].
  - intros x Hx Hge. rewrite (Htail x Hx Hge).
    rewrite (bool_decide_eq_false_2 (_ ∈ IntervalSet.pts al)) by (intros Hin; apply Sa' in Hin; lia).
    rewrite (bool_decide_eq_false_2 (_ ∈ IntervalSet.pts re)) by (intros Hin; apply Sr' in Hin as [Hin _]; apply Ht in Hin; lia). done.
  - rewrite H0, Z.mul_0_l. assert (0 ∈ used) by (apply Ht; rewrite Z.div_0_l by lia; split; [lia|done]).
    rewrite (bool_decide_eq_false_2 (_ ∈ IntervalSet.pts al)) by (intros Hin; by apply Sa' in Hin as [_ []]).
    rewrite (bool_decide_eq_false_2 (_ ∈ IntervalSet.pts re)) by (intros Hin; apply Sr' in Hin as [_ Hin]; apply Hin; lia). done.
Qed.

End Tracks.

(** ** Sessions *)

Section Session.
Context {DB It : Type} `{!KeyValueDB DB It} `{!KeyValueDBSpec DB It}.
Implicit Types (db : DB) (f : BitmapFreelistManager It).

Definition xor_fns : (bytes -> bytes) * (bytes -> bytes -> option bytes) :=
  (merge_nonexistent XorMergeOperator, merge XorMergeOperator).

(** What lies under [PREFIX_SUPER] for [_open_fm]. *)
Definition super_ok (c : kvmap) f (g : Z) : Prop :=
  c !! (PREFIX_SUPER, lit "bytes_per_block") = Some (le_bytes 8 (2 ^ g)) /\
  c !! (PREFIX_SUPER, lit "blocks_per_key") = Some (le_bytes 8 128) /\
  c !! (PREFIX_SUPER, lit "blocks") = Some (le_bytes 8 (blocks_ f)) /\
  c !! (PREFIX_SUPER, lit "size") = Some (le_bytes 8 (size_ f)) /\
  forall k, is_Some (c !! (PREFIX_SUPER, k)) -> k ∈ super_keys.

Record store_ok db f (g : Z) (used : gset Z) : Prop := {
  so_geo : FreelistBits.geometry f g 7;
  so_fm : f = _init_misc (with_cfg (size_ f) (blocks_ f) (2 ^ g) 128 (new_fm PREFIX_SUPER PREFIX_ALLOC_BITMAP));
  so_kv : kv_ok db;
  so_mop : kv_mop db PREFIX_ALLOC_BITMAP = Some xor_fns;
  so_super : super_ok (kv_map db) f g;
  so_bits : exists al, FreelistBits.holds f g 7 (kv_map db) al /\ tracks f g al used;
}.

Lemma store_bitmap_prefix db f g used : store_ok db f g used -> bitmap_prefix_ f = PREFIX_ALLOC_BITMAP.
Proof. intros [_ -> _ _ _ _]. done. Qed.

(** Such a transaction leaves the bitmap alone, and of the other prefix everything but the
    highest number. *)
Lemma foreign_spec mop t c :
  foreign t -> exists c', txn_spec mop t c = Some (0, c') /\
    (forall k, c' !! (PREFIX_ALLOC_BITMAP, k) = c !! (PREFIX_ALLOC_BITMAP, k)) /\
    (forall k, k <> lit "nid_max" -> c' !! (PREFIX_SUPER, k) = c !! (PREFIX_SUPER, k)).
Proof.
  intros Ht. revert c. induction Ht as [|o t (Hn & Ho) Ht IH]; intros c; [by exists c|].
  assert (exists c1, op_spec mop o c = Some (0, c1) /\ (forall k, c1 !! (PREFIX_ALLOC_BITMAP, k) = c !! (PREFIX_ALLOC_BITMAP, k)) /\
    (forall k, k <> lit "nid_max" -> c1 !! (PREFIX_SUPER, k) = c !! (PREFIX_SUPER, k))) as (c1 & E & B1 & S1).
  { unfold op_spec. destruct Ho as [(H1 & H2 & Hm)|(Hm & H1 & H2)].
    - assert (forall p, p = PREFIX_SUPER \/ p = PREFIX_ALLOC_BITMAP -> p <> op_prefix o) as Hne by naive_solver.
      assert (exists c1, op_spec mop o c = Some (0, c1) /\ forall p k, p = PREFIX_SUPER \/ p = PREFIX_ALLOC_BITMAP -> c1 !! (p, k) = c !! (p, k)) as (c1 & E & Hc1); [|exists c1; split_and!; [exact E|intros k; apply Hc1; auto|intros k _; apply Hc1; auto]].
      unfold op_spec. destruct (op_type o); [| | | |done]; eexists; (split; [done|]); intros p k Hp; specialize (Hne p Hp).
      + by rewrite lookup_insert_ne by congruence.
      + by rewrite lookup_delete_ne by congruence.
      + apply option_eq. intros v. rewrite map_lookup_filter_Some. naive_solver.
      + apply option_eq. intros v. rewrite map_lookup_filter_Some. naive_solver.
    - rewrite Hm, H1, H2. eexists. split; [done|]. split; intros k; [by rewrite lookup_insert_ne|]. intros Hk. rewrite lookup_insert_ne by congruence. done. }
  simpl. rewrite E, some_bind. destruct (IH c1) as (c' & -> & B' & S'). exists c'. split; [done|]. split; intros k; [by rewrite B', B1|]. intros Hk. by rewrite S', S1.
Qed.

Lemma holds_frame f g b c c' al :
  (forall k, c' !! (bitmap_prefix_ f, k) = c !! (bitmap_prefix_ f, k)) -> FreelistBits.holds f g b c al -> FreelistBits.holds f g b c' al.
Proof. intros E [H1 H2]. split; intros; [apply (H1 k v); by rewrite <- E|by rewrite E, H2]. Qed.

Lemma super_frame f g c c' :
  (forall k, k <> lit "nid_max" -> c' !! (PREFIX_SUPER, k) = c !! (PREFIX_SUPER, k)) -> super_ok c f g -> super_ok c' f g.
Proof.
  intros E (? & ? & ? & ? & H). unfold super_ok. rewrite !E by done. split_and!; try done. intros k. destruct (decide (k = lit "nid_max")) as [->|Hk]; [|rewrite E by done; apply H]. intros _. by apply (bool_decide_unpack _).
Qed.

(** A transaction of the object store. *)
Definition txc : Type := Transaction * IntervalSet.interval_set * IntervalSet.interval_set.

Definition commit (f : BitmapFreelistManager It) (x : txc) (db : DB) : option DB :=
  let '(t, al, re) := x in
  t ← _txc_finalize_kv f al re t;
  _txc_apply_kv db t.

Definition used_after (used : gset Z) (x : txc) : gset Z := (used ∪ IntervalSet.pts x.1.2) ∖ IntervalSet.pts x.2.

Lemma commit_ok db f g used x :
  store_ok db f g used -> foreign x.1.1 -> legal f g used x.1.2 x.2 ->
  exists db', commit f x db = Some db' /\ store_ok db' f g (used_after used x).
Proof.
  destruct x as [[t al] re]. cbn [fst snd]. intros Hs Hf Hl. pose proof (store_bitmap_prefix _ _ _ _ Hs) as Hbp.
  destruct Hs as [G Efm Hkv Hmop Hsup (bits & Hh & Htr)].
  destruct (legal_blocks f g 7 G used al re Hl) as [Hba Hbr]. { intros y Hy. by apply (proj1 Htr) in Hy as [? _]. }
  pose proof Hl as (Ha & Hr & _).
  destruct (finalize_flipping f g 7 G (kv_mop db) ltac:(by rewrite Hbp) al re t Ha Hr Hba Hbr) as (ops & Ef & [Hpre Hfl]).
  unfold commit. rewrite Ef, some_bind. unfold _txc_apply_kv.
  destruct (foreign_spec (kv_mop db) t (kv_map db) Hf) as (c1 & E1 & F1 & F1').
  destruct (Hfl c1 bits) as (c2 & E2 & Hh2 & F2). { eapply holds_frame; [|exact Hh]. intros k. rewrite Hbp. apply F1. }
  pose proof (kv_submit_spec db (t ++ ops) Hkv) as Hsub. rewrite (FreelistBits.txn_spec_app _ _ _ _ _ E1), E2 in Hsub.
  destruct Hsub as (db' & -> & Hkv' & Hmap' & Hmop').
  { apply Forall_app. split; [eapply Forall_impl; [exact Hf|]; by intros o [? _]|].
    eapply Forall_impl; [exact Hpre|]. simpl. intros o ->. rewrite Hbp. by repeat constructor. }
  rewrite some_bind. exists db'. split; [done|]. constructor; try done.
  - by rewrite Hmop'.
  - rewrite Hmap'. eapply super_frame; [|exact Hsup]. intros k Hk. rewrite F2 by (rewrite Hbp; done). by apply F1'.
  - rewrite Hmap'. eexists. split; [exact Hh2|]. by eapply (tracks_step f g 7 G).
Qed.

(** Opening finds the manager that [mkfs] created. *)
Lemma NoDup_sorted_keys l : StronglySorted key_lt l -> NoDup l.*1.
Proof.
  induction 1 as [|kv l Hl IH Hx]; simpl; constructor; [|done]. intros Hin. apply list_elem_of_fmap in Hin as (kv' & E & Hin).
  rewrite Forall_forall in Hx. specialize (Hx _ Hin). unfold key_lt in Hx. by rewrite E, str_lt_irrefl in Hx.
Qed.

Lemma open_fm_ok db f g used : store_ok db f g used -> _open_fm db = Some (0, f).
Proof.
  intros [G Efm Hkv Hmop (S1 & S2 & S3 & S4 & S5) _]. unfold _open_fm, init, _read_cfg. cbn [read_entries]. unfold read_entry.
  assert (nul_free PREFIX_SUPER) as Hnf by (by repeat constructor).
  assert (kv_get db PREFIX_SUPER (lit "bfm_size") = (- ENOENT, [])) as Hget.
  { rewrite (kv_get_spec db PREFIX_SUPER _ Hkv Hnf). destruct (kv_map db !! (PREFIX_SUPER, lit "bfm_size")) eqn:E; [|done].
    exfalso. assert (lit "bfm_size" ∈ super_keys) as Hin by (apply S5; by rewrite E).
    exact (bool_decide_eq_false_1 (lit "bfm_size" ∈ super_keys) eq_refl Hin). }
  cbv beta. rewrite Hget. change (- ENOENT <? 0) with true. cbv iota beta.
  change (negb (- ENOENT =? 0)) with true. cbv iota. rewrite !some_bind. cbv iota beta.
  change (negb (- ENOENT =? 0)) with true. cbv iota. rewrite ?some_bind. cbv iota beta. change (negb (- ENOENT =? 0)) with true. cbv iota.
  unfold _load_from_db. destruct (it_lower_bound_spec db PREFIX_SUPER Hkv Hnf) as (it & Eit & Hok & Hsort & Hmem).
  change (meta_prefix_ (new_fm PREFIX_SUPER PREFIX_ALLOC_BITMAP)) with PREFIX_SUPER. rewrite Eit.
  rewrite load_loop, mjoin_some; [|done|].
  - set (l := it_shows it) in *. pose proof (FreelistBits.geo_total _ _ _ G). destruct (FreelistBits.pow_facts f g 7 G) as (HU & _).
    pose proof (FreelistBits.geo_size _ _ _ G). pose proof (FreelistBits.geo_pos _ _ _ G).
    assert (0 <= blocks_ f) by nia.
    rewrite (load_all_ok (size_ f) (blocks_ f) (2 ^ g) 128).
    + assert (forall k v, kv_map db !! (PREFIX_SUPER, k) = Some v -> k ∈ l.*1) as Hin.
      { intros k v Hk. apply Hmem in Hk. apply list_elem_of_fmap. by exists (k, v). }
      rewrite !decide_True by eauto. rewrite some_bind. f_equal. f_equal. by rewrite Efm at 3.
    + unfold uint. nia.
    + unfold uint. nia.
    + unfold uint. split; [lia|]. apply Z.pow_lt_mono_r; [lia..|]. pose proof (FreelistBits.geo_gb _ _ _ G). lia.
    + done.
    + constructor; intros v Hv; apply Hmem in Hv; congruence.
  - assert (length (it_shows it) <= length super_keys)%nat as Hlen; [|cbn in Hlen; lia].
    rewrite <- (length_fmap fst (it_shows it)). apply submseteq_length, NoDup_submseteq; [by apply NoDup_sorted_keys|].
    intros k Hk. apply list_elem_of_fmap in Hk as ([k' v] & -> & Hin). apply Hmem in Hin. apply S5. by exists v.
Qed.

(** The records of [mkfs] itself. *)
Definition mkfs_ops (min_alloc_size : Z) : Transaction :=
  let set k v := mk_op SET PREFIX_SUPER (lit k) [] v in
  [set "nid_max"%string (le_bytes 8 0); set "blobid_max"%string (le_bytes 8 0);
   set "min_alloc_size"%string (le_bytes 8 min_alloc_size); set "freelist_type"%string (lit "bitmap");
   set "csum_type"%string (le_bytes 1 CSUM_CRC32C); set "csum_order"%string (le_bytes 1 12); set "mkfs_done"%string (lit "done")].

(** Setting keys, in terms of look-ups. *)
Fixpoint last_set (t : Transaction) (pk : bytes * bytes) (v : option bytes) : option bytes :=
  match t with
  | [] => v
  | o :: t => last_set t pk (if decide ((op_prefix o, op_key o) = pk) then Some (op_value o) else v)
  end.

Lemma sets_spec mop t c :
  Forall (fun o => op_type o = SET) t ->
  exists c', txn_spec mop t c = Some (0, c') /\ forall pk, c' !! pk = last_set t pk (c !! pk).
Proof.
  intros Ht. revert c. induction Ht as [|o t Ho Ht IH]; intros c; [by exists c|].
  simpl. unfold op_spec. rewrite Ho, some_bind. destruct (IH (<[(op_prefix o, op_key o) := op_value o]> c)) as (c' & -> & Hc').
  exists c'. split; [done|]. intros pk. rewrite Hc'. f_equal. case_decide as E; [subst; apply lookup_insert_eq|by apply lookup_insert_ne].
Qed.

Lemma last_set_other t p k v : Forall (fun o => op_prefix o <> p) t -> last_set t (p, k) v = v.
Proof. intros Ht. revert v. induction Ht as [|o t Ho _ IH]; intros v; [done|]. simpl. rewrite decide_False by congruence. apply IH. Qed.

Lemma super_after_sets f (g : Z) (c : kvmap) :
  bytes_per_block_ f = 2 ^ g -> blocks_per_key_ f = 128 -> meta_prefix_ f = PREFIX_SUPER ->
  (forall k, c !! (PREFIX_SUPER, k) = None) ->
  forall c' : kvmap, (forall pk, c' !! pk = last_set (meta_ops f ++ mkfs_ops (2 ^ g)) pk (c !! pk)) -> super_ok c' f g.
Proof.
  intros E1 E2 E3 Hc c' Hc'. unfold meta_ops in Hc'. rewrite E1, E2, E3 in Hc'. unfold super_ok. rewrite !Hc', !Hc.
  generalize (le_bytes 8 (2 ^ g)) (le_bytes 8 (blocks_ f)) (le_bytes 8 (size_ f)) (le_bytes 8 128). intros v1 v2 v3 v4.
  split_and!; try (vm_compute; reflexivity).
  intros k. rewrite Hc', Hc. intros [v Hv]. cbn [app mkfs_ops last_set op_prefix op_key op_value] in Hv.
  assert (forall n, (PREFIX_SUPER, n) = (PREFIX_SUPER, k) -> n ∈ super_keys -> k ∈ super_keys) as Hk by (intros n [= ->]; done).
  repeat match type of Hv with context [decide (?a = _)] =>
    destruct (decide (a = (PREFIX_SUPER, k))) as [E|_] in Hv; [apply (Hk _ E); by apply (bool_decide_unpack _)|] end.
  done.
Qed.

Lemma mkfs_ok db dev_size g :
  kv_ok db -> kv_map db = ∅ -> kv_mop db PREFIX_ALLOC_BITMAP = Some xor_fns ->
  creatable dev_size g PREFIX_SUPER PREFIX_ALLOC_BITMAP ->
  exists db' f, mkfs db dev_size (2 ^ g) = Some (0, db') /\ store_ok db' f g (zrange 0 (2 ^ g)) /\ size_ f = dev_size - dev_size mod 2 ^ g.
Proof.
  intros Hkv Hmap Hmop Hc.
  destruct (create_ok (It := It) dev_size g PREFIX_SUPER PREFIX_ALLOC_BITMAP (kv_mop db) [] Hc Hmop) as (ops & f & E & G & Esz & Emp & Ebp & Efm & [Hpre Hfl]).
  unfold mkfs. rewrite E, some_bind. cbv iota beta zeta. change (0 <? 0) with false. cbv iota.
  unfold txn_set. rewrite <- !app_assoc. cbn [app]. change (ops ++ meta_ops f ++ _) with (ops ++ meta_ops f ++ mkfs_ops (2 ^ g)).
  destruct (FreelistBits.pow_facts f g 7 G) as (HU & HN & _). pose proof (FreelistBits.geo_pos _ _ _ G) as Hpos.
  pose proof (FreelistBits.geo_align _ _ _ G) as Hal.
  destruct (Hfl ∅ (fun _ => false)) as (c1 & E1 & Hh1 & F1).
  { split; [intros k v Hk; by rewrite lookup_empty in Hk|]. intros. by rewrite lookup_empty. }
  destruct (sets_spec (kv_mop db) (meta_ops f ++ mkfs_ops (2 ^ g)) c1) as (c2 & E2 & L2).
  { by repeat constructor. }
  pose proof (kv_submit_spec db (ops ++ meta_ops f ++ mkfs_ops (2 ^ g)) Hkv) as Hsub.
  rewrite Hmap, (FreelistBits.txn_spec_app _ _ _ _ _ E1), E2 in Hsub.
  destruct Hsub as (db' & -> & Hkv' & Hmap' & Hmop').
  { apply Forall_app. split; [eapply Forall_impl; [exact Hpre|]; simpl; intros o ->; rewrite Ebp; by repeat constructor|].
    unfold meta_ops. rewrite Emp. repeat constructor; done. }
  exists db', f. split; [done|]. split; [|done]. constructor; try done.
  - by rewrite Hmop'.
  - rewrite Hmap'. apply (super_after_sets f g c1); try done; try apply (FreelistBits.geo_bpb _ _ _ G); try apply (FreelistBits.geo_bpk _ _ _ G).
    intros k. rewrite F1 by (rewrite Ebp; done). apply lookup_empty.
  - rewrite Hmap'. eexists. split.
    + eapply holds_frame; [|exact Hh1]. intros k. rewrite L2. rewrite Ebp. apply last_set_other. unfold meta_ops. rewrite Emp. by repeat constructor.
    + cbv beta. split_and!.
      * intros y. rewrite elem_of_zrange, xorb_false_l.
        assert (2 ^ g <= size_ f).
        { apply Z.div_exact in Hal; [|lia]. set (q := size_ f / 2 ^ g) in *. clearbody q.
          assert (0 < q) by (apply (Z.mul_pos_cancel_l (2 ^ g)); lia). nia. }
        split.
        -- intros Hy. split; [lia|]. rewrite (Z.div_small y) by lia. done.
        -- intros [Hy Hb]. apply orb_prop in Hb as [Hb|Hb]; [apply Z.eqb_eq, Z.div_small_iff in Hb; lia|].
           apply Z.leb_le in Hb. pose proof (Z.mul_div_le y (2 ^ g) HU). lia.
      * intros x Hx Hge. rewrite xorb_false_l. destruct (Z.leb_spec (size_ f) (x * 2 ^ g)); [by rewrite orb_true_r|lia].
      * done.
Qed.

(** A sequence of transactions, each legal when it runs. *)
Fixpoint legal_all f (g : Z) (used : gset Z) (l : list txc) : Prop :=
  match l with
  | [] => True
  | x :: l => foreign x.1.1 /\ legal f g used x.1.2 x.2 /\ legal_all f g (used_after used x) l
  end.

Fixpoint commits f (l : list txc) db : option DB :=
  match l with [] => Some db | x :: l => db ← commit f x db; commits f l db end.

Definition used_finally (used : gset Z) (l : list txc) : gset Z := foldl used_after used l.

Lemma commits_ok l db f g used :
  store_ok db f g used -> legal_all f g used l ->
  exists db', commits f l db = Some db' /\ store_ok db' f g (used_finally used l).
Proof.
  revert db used. induction l as [|x l IH]; intros db used Hs Hl; [by exists db|]. destruct Hl as (Hf & Hx & Hl).
  destruct (commit_ok db f g used x Hs Hf Hx) as (db1 & E & Hs1). cbn [commits]. rewrite E, some_bind. by apply IH.
Qed.

Lemma mount_ok {A} `{!Allocator.Allocator A} `{!Allocator.AllocatorSpec A} db f g used (a : A) :
  store_ok db f g used -> Allocator.ok a -> Allocator.free a = ∅ -> Allocator.first_usable <= 2 ^ g -> Allocator.get_block_size a = 2 ^ g ->
  size_ f <= Allocator.get_capacity a ->
  exists f' a', _init_alloc db f a = Some (0, f', a') /\ Allocator.ok a' /\ Allocator.free a' = zrange 0 (size_ f) ∖ used.
Proof.
  intros [G _ Hkv _ _ (al & Hh & Ht & Htail & Hz)] Ha Hfree Hfirst Hbs Hcap.
  destruct (init_alloc_free f g 7 G al db Hkv Hh Hz Htail a Ha Hfree Hfirst Hbs Hcap) as (f' & a' & E & Hok & Hf).
  exists f', a'. split; [done|]. split; [done|]. apply set_eq. intros y.
  rewrite (Hf y), elem_of_difference, elem_of_zrange, Ht.
  destruct (FreelistBits.pow_facts f g 7 G) as (HU & _). pose proof (FreelistBits.geo_size _ _ _ G) as Hs.
  pose proof (FreelistBits.geo_align _ _ _ G) as Hal. apply Z.div_exact in Hal; [|lia].
  assert (0 <= y < blocks_ f * 2 ^ g -> size_ f <= y -> al (y / 2 ^ g) = true) as Hbig.
  { intros Hy Hge. apply Htail; [apply Z.div_lt_upper_bound; lia|]. rewrite Hal, Z.mul_comm.
    apply Z.mul_le_mono_nonneg_r; [lia|]. apply Z.div_le_mono; lia. }
  destruct (al (y / 2 ^ g)); [naive_solver lia|]. split; [|intros; split; [lia|done]].
  intros [Hy _]. destruct (Z.lt_ge_cases y (size_ f)) as [|Hge]; [|by specialize (Hbig Hy Hge)]. split; [lia|]. by intros [_ ?].
Qed.

End Session.

(** C4: the object store does not lose or share space over a restart.  A store
    made by [mkfs] opens; then, whatever sequence of transactions runs, each
    allocating free blocks and releasing blocks in use, in units of [min_alloc_size],
    (and writing what it likes under other prefixes, and the highest object number
    [nid_max]), every transaction commits, the store opens again, and [_init_alloc] leaves the allocator with exactly the bytes free
    that are not in use: the device without the reserved first block, what was
    allocated and not released, and the tail shorter than a block.  For any
    key-value store and any allocator that meet their contracts. *)
Theorem mount_restores_free_space {DB It A} `{KeyValueDBSpec DB It} `{Allocator.AllocatorSpec A} (db0 : DB) dev_size g (a : A) :
  kv_ok db0 -> kv_map db0 = ∅ -> kv_mop db0 PREFIX_ALLOC_BITMAP = Some xor_fns ->
  creatable dev_size g PREFIX_SUPER PREFIX_ALLOC_BITMAP ->
  Allocator.ok a -> Allocator.free a = ∅ -> Allocator.first_usable <= 2 ^ g ->
  Allocator.get_block_size a = 2 ^ g -> Allocator.get_capacity a = dev_size ->
  exists db1 (f : BitmapFreelistManager It), mkfs db0 dev_size (2 ^ g) = Some (0, db1) /\ _open_fm db1 = Some (0, f) /\
    size_ f = dev_size - dev_size mod 2 ^ g /\
    forall l, legal_all f g (zrange 0 (2 ^ g)) l ->
      exists db2, commits f l db1 = Some db2 /\ _open_fm db2 = Some (0, f) /\
      exists f' a', _init_alloc db2 f a = Some (0, f', a') /\ Allocator.ok a' /\
        Allocator.free a' = zrange 0 (size_ f) ∖ used_finally (zrange 0 (2 ^ g)) l.
Proof.
  intros Hkv Hmap Hmop Hc Ha Hfree Hfirst Hbs Hcap.
  destruct (mkfs_ok (It := It) db0 dev_size g Hkv Hmap Hmop Hc) as (db1 & f & E & Hs & Esz).
  exists db1, f. split; [done|]. split; [by eapply open_fm_ok|]. split; [done|]. intros l Hl.
  destruct (commits_ok l db1 f g _ Hs Hl) as (db2 & E2 & Hs2). exists db2. split; [done|]. split; [by eapply open_fm_ok|].
  eapply mount_ok; try done. rewrite Esz, Hcap. destruct Hc as (Hg & _). pose proof (Z.mod_pos_bound dev_size (2 ^ g)).
  assert (0 < 2 ^ g) by (apply Z.pow_pos_nonneg; lia). lia.
Qed.

(** ** Example: a device of 1 MiB with blocks of 4 KiB *)

Definition demo_db : MemDB.MemDB := MemDB.with_mops [XorMergeOperator] [(PREFIX_ALLOC_BITMAP, 0%nat)].
Definition demo_alloc : Avl.AvlAllocator unit := Avl.create 80 1048576 4096 0 tt.

(** One transaction takes two blocks and writes a new object, the next one returns
    the second block. *)
Definition demo_txcs : list txc :=
  [(txn_set [79] [1] [2; 3] (_assign_nid 0 0 0 []).2, IntervalSet.insert IntervalSet.empty_set 8192 8192, IntervalSet.empty_set);
   ([], IntervalSet.empty_set, IntervalSet.insert IntervalSet.empty_set 12288 4096)].

Lemma demo_pts o n : 0 <= o -> 0 <= n -> o + n < 2 ^ 64 -> IntervalSet.pts (IntervalSet.insert IntervalSet.empty_set o n) = zrange o n.
Proof. intros. rewrite IntervalSet.pts_insert by (done || lia). apply union_empty_r_L. Qed.

Lemma demo_legal {It} (f : BitmapFreelistManager It) : size_ f = 1048576 -> legal_all f 12 (zrange 0 (2 ^ 12)) demo_txcs.
Proof.
  intros Hs. unfold demo_txcs. cbn [legal_all fst snd].
  pose proof (demo_pts 8192 8192 ltac:(lia) ltac:(lia) ltac:(lia)) as E1. pose proof (demo_pts 12288 4096 ltac:(lia) ltac:(lia) ltac:(lia)) as E2.
  assert (forall s : gset Z, (∅ : gset Z) ⊆ s) as Hemp by (intros s y ?%not_elem_of_empty; tauto).
  split; [|split; [|split; [|split; [|exact I]]]].
  - apply (Forall_app_2 _ (_assign_nid 0 0 0 []).2); [exact (assign_nid_foreign 0 0 0 [] (Forall_nil_2 _))|]. apply Forall_singleton. split; [by repeat constructor|]. left. by split_and!.
  - unfold legal. rewrite E1, Hs. split; [apply IntervalSet.insert_wf; [exact IntervalSet.empty_wf|lia..]|]. split; [exact IntervalSet.empty_wf|].
    split; [vm_compute; by repeat constructor|]. split; [constructor|]. split; [|apply Hemp].
    intros y. rewrite elem_of_difference, !elem_of_zrange. lia.
  - by repeat constructor.
  - unfold legal, used_after. cbn [fst snd]. rewrite E1, E2. split; [exact IntervalSet.empty_wf|].
    split; [apply IntervalSet.insert_wf; [exact IntervalSet.empty_wf|lia..]|]. split; [constructor|].
    split; [vm_compute; by repeat constructor|]. split; [apply Hemp|].
    intros y. rewrite !elem_of_difference, elem_of_union, !elem_of_zrange. intros Hy. split; [split; [right; lia|apply not_elem_of_empty]|lia].
Qed.

Lemma mount_restores_free_space_witness :
  exists db1 f, mkfs demo_db 1048576 (2 ^ 12) = Some (0, db1) /\ _open_fm db1 = Some (0, f) /\
    exists db2, commits f demo_txcs db1 = Some db2 /\ _open_fm db2 = Some (0, f) /\
    exists f' a', _init_alloc (H := AvlSpec.avl_allocator 0) db2 f demo_alloc = Some (0, f', a') /\
      @Allocator.free _ _ (AvlSpec.avl_allocator_spec 0) a' = zrange 0 1048576 ∖ used_finally (zrange 0 (2 ^ 12)) demo_txcs.
Proof.
  destruct (mount_restores_free_space (H0 := AvlSpec.avl_allocator 0) (H1 := AvlSpec.avl_allocator_spec 0) demo_db 1048576 12 demo_alloc) as (db1 & f & E1 & E2 & Es & Hl).
  - apply MemDB.with_mops_ok.
  - reflexivity.
  - reflexivity.
  - unfold creatable. split_and!; try lia; try done; by repeat constructor.
  - by apply (AvlSpec.avl_create_ok 80 1048576 12).
  - by apply (AvlSpec.avl_create_ok 80 1048576 12).
  - simpl. lia.
  - reflexivity.
  - reflexivity.
  - exists db1, f. split; [exact E1|]. split; [exact E2|].
    destruct (Hl demo_txcs (demo_legal f Es)) as (db2 & E3 & E4 & f' & a' & E5 & _ & E6).
    exists db2. split; [exact E3|]. split; [exact E4|]. exists f', a'. split; [exact E5|]. rewrite E6, Es. reflexivity.
Defined.

End BlueStoreSpace.
