(* ===== verification/Denc.v ===== *)
(** * common/denc.h: encoding of integers, strings and containers

    Every type has a bound on the size of its encoding, which the buffer reserves
    and the encoder does not check, an encoder, and a decoder that consumes bytes
    from the front of what is left and may throw.  The contents of a buffer are
    its bytes; how they are spread over memory is not modelled. *)
From stdpp Require Import base numbers list.
From Stdlib Require Import ZArith Lia ZifyBool.
From S2P Require Import Prelude IntArith.

Module Denc.

(** ** Decoding that may throw *)

(** [common/buffer_error.h]; [undefined] is a shift by the width of the type or
    more. *)
Inductive buffer_error := end_of_buffer | malformed_input | undefined.

Inductive result (A : Type) := Ok (a : A) | Throw (e : buffer_error).
#[global] Arguments Ok {A} a.
#[global] Arguments Throw {A} e.

#[global] Instance result_ret : MRet result := fun A a => Ok a.
#[global] Instance result_bind : MBind result := fun A B f r => match r with Ok a => f a | Throw e => Throw e end.

Lemma ok_bind {A B} (a : A) (f : A -> result B) : (Ok a ≫= f) = f a.
Proof. done. Qed.

(** [buffer::ptr::const_iterator::get_pos_add]. *)
Definition get_pos_add (n : Z) (p : bytes) : result (bytes * bytes) :=
  if n <=? Z.of_nat (length p) then Ok (take (Z.to_nat n) p, drop (Z.to_nat n) p) else Throw end_of_buffer.

(** [denc_traits<T>]. *)
Record denc_traits (T : Type) := mk_traits {
  bound_encode : T -> Z;
  encode : T -> bytes;
  decode : bytes -> result (T * bytes);
}.
#[global] Arguments mk_traits {T} _ _ _.
#[global] Arguments bound_encode {T} _ _.
#[global] Arguments encode {T} _ _.
#[global] Arguments decode {T} _ _.

(** ** Integers *)

(** [cxxlab_le<T>] with [n] bytes. *)
Definition denc_le (n : nat) : denc_traits Z := {|
  bound_encode _ := Z.of_nat n;
  encode x := le_bytes n x;
  decode p := '(b, p) ← get_pos_add (Z.of_nat n) p; Ok (le_val b, p);
|}.
Definition denc_u8 : denc_traits Z := denc_le 1.
Definition denc_u32 : denc_traits Z := denc_le 4.
Definition denc_u64 : denc_traits Z := denc_le 8.

(** [denc_varint(T v, contiguous_appender&)]: the loop, with fuel. *)
Fixpoint varint_bytes (fuel : nat) (byte v : Z) : bytes :=
  match fuel with
  | O => [byte]
  | S fuel => if v =? 0 then [byte] else Z.lor byte 0x80 :: varint_bytes fuel (Z.land v 0x7f) (Z.shiftr v 7)
  end.

Definition varint_encode (v : Z) : bytes := varint_bytes 64 (Z.land v 0x7f) (Z.shiftr v 7).

(** [denc_varint(T &v, It &p)]: the loop of [while (byte & 0x80)]. *)
Fixpoint varint_loop (w byte v shift : Z) (p : bytes) : result (Z * bytes) :=
  if Z.land byte 0x80 =? 0 then Ok (v, p)
  else
    match p with
    | [] => Throw end_of_buffer
    | byte :: p =>
        if w <=? shift then Throw undefined
        else varint_loop w byte (Z.lor v (wrap w (Z.shiftl (Z.land byte 0x7f) shift))) (shift + 7) p
    end.

Definition varint_decode (w : Z) (p : bytes) : result (Z * bytes) :=
  match p with
  | [] => Throw end_of_buffer
  | byte :: p => varint_loop w byte (Z.land byte 0x7f) 7 p
  end.

(** [T] has [w] bits. *)
Definition denc_varint (w : Z) : denc_traits Z := {|
  bound_encode _ := w / 8 + 1;
  encode := varint_encode;
  decode := varint_decode w;
|}.

(** The number of low zero nibbles that is stored. *)
Definition lowznib (v : Z) : Z := Z.min 3 (if v =? 0 then 0 else IntArith.ctz 64 v / 4).

(** [denc_varint_lowz]; [T] has [w] bits. *)
Definition denc_varint_lowz (w : Z) : denc_traits Z := {|
  bound_encode _ := 8 + 2;
  encode v :=
    let n := lowznib v in
    varint_encode (Z.lor (u64 (Z.shiftl (Z.shiftr v (n * 4)) 2)) n);
  decode p :=
    '(i, p) ← varint_decode 64 p;
    let n := Z.land i 3 in
    Ok (wrap w (u64 (Z.shiftl (Z.shiftr i 2) (n * 4))), p);
|}.

(** [denc_lba]. *)
Definition lba_encode (v : Z) : bytes :=
  let low_zero_nibbles := if v =? 0 then 0 else IntArith.ctz 64 v / 4 in
  let t := low_zero_nibbles - 3 in
  let '(v, pos, word) :=
    if t <? 0 then (v, 3, 0x7)
    else if t <? 3 then (Z.shiftr v (low_zero_nibbles * 4), t + 1, Z.shiftl 1 t - 1)
    else (Z.shiftr v 20, 3, 0x3) in
  let word := Z.lor word (Z.land (u64 (Z.shiftl v pos)) 0x7fffffff) in
  let v := Z.shiftr v (31 - pos) in
  if v =? 0 then le_bytes 4 word
  else le_bytes 4 (Z.lor word 0x80000000) ++ varint_bytes 64 (Z.land v 0x7f) (Z.shiftr v 7).

(** The loop over the bytes that follow the first word. *)
Fixpoint lba_loop (byte v shift : Z) (p : bytes) : result (Z * bytes) :=
  if Z.land byte 0x80 =? 0 then Ok (v, p)
  else
    match p with
    | [] => Throw end_of_buffer
    | byte :: p =>
        if 64 <=? shift then Throw undefined
        else lba_loop byte (Z.lor v (u64 (Z.shiftl (Z.land byte 0x7f) shift))) (shift + 7) p
    end.

Definition lba_decode (p : bytes) : result (Z * bytes) :=
  '(b, p) ← get_pos_add 4 p;
  let word := le_val b in
  let k := Z.land word 7 in
  let '(v, shift) :=
    if Z.land k 1 =? 0 then (Z.shiftl (Z.land word 0x7ffffffe) 11, 12 + 30)
    else if (k =? 1) || (k =? 5) then (Z.shiftl (Z.land word 0x7ffffffc) 14, 16 + 29)
    else if k =? 3 then (Z.shiftl (Z.land word 0x7ffffff8) 17, 20 + 28)
    else (Z.shiftr (Z.land word 0x7ffffff8) 3, 28) in
  lba_loop (u8 (Z.shiftr word 24)) v shift p.

Definition denc_lba : denc_traits Z := {| bound_encode _ := 8 + 2; encode := lba_encode; decode := lba_decode |}.

(** ** Strings, buffers and containers *)

(** [std::string] and [buffer::list]: a [uint32_t] length and the bytes. *)
Definition denc_string : denc_traits bytes := {|
  bound_encode s := 4 + Z.of_nat (length s);
  encode s := encode denc_u32 (u32 (Z.of_nat (length s))) ++ s;
  decode p := '(len, p) ← decode denc_u32 p; get_pos_add len p;
|}.

(** [container_base::decode_nohead]. *)
Fixpoint decode_nohead {T} (d : denc_traits T) (num : nat) (p : bytes) : result (list T * bytes) :=
  match num with
  | O => Ok ([], p)
  | S num => '(t, p) ← decode d p; '(s, p) ← decode_nohead d num p; Ok (t :: s, p)
  end.

(** A container of a type that is not bounded. *)
Definition denc_vector {T} (d : denc_traits T) : denc_traits (list T) := {|
  bound_encode s := 4 + sumZ (bound_encode d) s;
  encode s := encode denc_u32 (u32 (Z.of_nat (length s))) ++ concat (encode d <$> s);
  decode p := '(num, p) ← decode denc_u32 p; decode_nohead d (Z.to_nat num) p;
|}.

(** [DENC_START(v, compat, p)] ... [DENC_FINISH(p)] around a body. *)
Definition denc_struct {T} (v compat : Z) (body : denc_traits T) : denc_traits T := {|
  bound_encode x := 2 + 4 + bound_encode body x;
  encode x :=
    let b := encode body x in
    encode denc_u8 v ++ encode denc_u8 compat ++ encode denc_u32 (u32 (Z.of_nat (length b))) ++ b;
  decode p :=
    '(struct_v, p) ← decode denc_u8 p;
    '(struct_compat, p) ← decode denc_u8 p;
    '(struct_len, start) ← decode denc_u32 p;
    '(x, p) ← decode body start;
    let pos := Z.of_nat (length start) - Z.of_nat (length p) in
    if struct_len <? pos then Throw malformed_input
    else '(_, p) ← get_pos_add (struct_len - pos) p; Ok (x, p);
|}.

(** A few values. *)
Example denc_smoke :
  encode (denc_varint 64) 300 = [172; 2] /\
  encode denc_lba 0x12345000 = [138; 70; 2; 0] /\
  decode denc_lba (encode denc_lba 0x123456789abcdef0 ++ [7]) = Ok (0x123456789abcdef0, [7]) /\
  decode (denc_varint_lowz 32) (encode (denc_varint_lowz 32) 0x7000) = Ok (0x7000, []).
Proof. vm_compute. done. Qed.
End Denc.
