(* ===== verification/DencSpec.v ===== *)
(** * The encodings of denc.h are lawful

    What is encoded is decoded unchanged and consumed exactly, whatever follows
    it, and the encoding is not longer than the bound the buffer reserves. *)
From stdpp Require Import base numbers list.
From Stdlib Require Import ZArith Lia ZifyBool.
From S2P Require Import Prelude IntArith Denc.
Import Denc.

Module DencSpec.

Abbreviation zlen l := (Z.of_nat (length l)).

Record lawful {T} (d : denc_traits T) (valid : T -> Prop) : Prop := {
  l_roundtrip x rest : valid x -> decode d (encode d x ++ rest) = Ok (x, rest);
  l_bound x : valid x -> zlen (encode d x) <= bound_encode d x;
}.

(** One field after the other. *)
Ltac read_field L := rewrite <- ?app_assoc; rewrite (l_roundtrip _ _ L) by (cbv beta; (done || tauto || lia)); rewrite ok_bind.
Ltac bound_field L x := pose proof (l_bound _ _ L x ltac:(cbv beta; (done || tauto || lia))).

(** ** Fixed-width integers *)

Lemma get_pos_add_app a b : get_pos_add (zlen a) (a ++ b) = Ok (a, b).
Proof.
  unfold get_pos_add. rewrite length_app, Nat2Z.id. destruct (Z.leb_spec (zlen a) (Z.of_nat (length a + length b))); [|lia].
  by rewrite take_app_length, drop_app_length.
Qed.

Lemma denc_le_lawful n : lawful (denc_le n) (uint (8 * Z.of_nat n)).
Proof.
  constructor; intros x; simpl; intros; [|by rewrite length_le_bytes].
  rewrite <- (length_le_bytes n x) at 1. rewrite get_pos_add_app, ok_bind, le_val_bytes. by rewrite Z.mod_small.
Qed.

Lemma u8_lawful : lawful denc_u8 (uint 8).
Proof. exact (denc_le_lawful 1). Qed.
Lemma u32_lawful : lawful denc_u32 (uint 32).
Proof. exact (denc_le_lawful 4). Qed.
Lemma u64_lawful : lawful denc_u64 (uint 64).
Proof. exact (denc_le_lawful 8). Qed.

(** ** Variable-length integers *)

Lemma land_127 x : Z.land x 0x7f = x mod 128.
Proof. change 0x7f with (Z.ones 7). by rewrite Z.land_ones by lia. Qed.

Lemma high_bit b : 0 <= b < 128 -> Z.land b 0x80 = 0 /\ Z.land (Z.lor b 0x80) 0x80 = 128 /\ Z.land (Z.lor b 0x80) 0x7f = b.
Proof.
  intros Hb. assert (Z.lor b 0x80 = b + 1 * 2 ^ 7) as -> by (apply (lor_disjoint b 1 7); lia). change (1 * 2 ^ 7) with 128.
  assert (forall x, 0 <= x < 256 -> Z.land x 0x80 = 128 * (x / 128)) as Hl.
  { intros x Hx. assert (Forall (fun x => Z.land x 0x80 = 128 * (x / 128)) (seqZ 0 256)) as H by (vm_compute; repeat constructor).
    rewrite Forall_forall in H. apply H, elem_of_seqZ. lia. }
  rewrite !Hl, land_127 by lia. Z.div_mod_to_equations. lia.
Qed.

(** The bytes of [x], as the decoder sees them: the first one, and what the loop
    does from there with the low bits [v] already read. *)
Lemma varint_loop_spec fuel : forall x, 0 <= x < 2 ^ (7 * (Z.of_nat fuel + 1)) ->
  exists b t, varint_bytes fuel (Z.land x 0x7f) (Z.shiftr x 7) = b :: t /\ Z.land b 0x7f = x mod 128 /\
    forall w v s rest, 0 <= s -> 0 <= v < 2 ^ s -> x * 2 ^ s < 2 ^ w ->
      varint_loop w b (v + x mod 128 * 2 ^ s) (s + 7) (t ++ rest) = Ok (v + x * 2 ^ s, rest).
Proof.
  induction fuel as [|fuel IH]; intros x Hx; pose proof (Z.mod_pos_bound x 128 ltac:(lia)) as Hm; destruct (high_bit (x mod 128) Hm) as (H1 & H2 & H3).
  - exists (x mod 128), []. cbn [varint_bytes]. rewrite land_127. rewrite Z.mod_small by (simpl in Hx; lia). split; [done|]. split; [rewrite land_127; by rewrite Z.mod_small|].
    intros w v s rest Hs Hv Hw. rewrite Z.mod_small in H1 by (simpl in Hx; lia). destruct rest; simpl varint_loop; by rewrite H1.
  - cbn [varint_bytes]. rewrite land_127. rewrite Z.shiftr_div_pow2 by lia. change (2 ^ 7) with 128. destruct (Z.eqb_spec (x / 128) 0) as [E|E].
    + assert (0 <= x < 128) as Hsm by (Z.div_mod_to_equations; lia). rewrite Z.mod_small in * by done. exists x, []. split; [done|]. split; [rewrite land_127; by rewrite Z.mod_small|].
      intros w v s rest Hs Hv Hw. destruct rest; simpl varint_loop; by rewrite H1.
    + destruct (IH (x / 128)) as (b & t & Eb & Hb & Hloop).
      { split; [apply Z.div_pos; lia|]. apply Z.div_lt_upper_bound; [lia|]. replace (128 * 2 ^ (7 * (Z.of_nat fuel + 1))) with (2 ^ (7 * (Z.of_nat (S fuel) + 1))); [lia|].
        change 128 with (2 ^ 7). rewrite <- Z.pow_add_r by lia. f_equal. lia. }
      rewrite Z.shiftr_div_pow2 in Eb by lia. change (2 ^ 7) with 128 in Eb. rewrite land_127 in Eb. rewrite Z.shiftr_div_pow2 by lia. change (2 ^ 7) with 128. rewrite land_127, Eb.
      exists (Z.lor (x mod 128) 0x80), (b :: t). split; [done|]. split; [done|]. intros w v s rest Hs Hv Hw. cbn [varint_loop app]. rewrite H2. cbn [Z.eqb].
      assert (0 < 2 ^ s) by lia. assert (1 <= x / 128) by (assert (0 <= x / 128) by (apply Z.div_pos; lia); lia).
      assert (2 ^ (s + 7) = 128 * 2 ^ s) as Ep by (rewrite Z.pow_add_r by lia; lia). pose proof (Z.div_mod x 128 ltac:(lia)) as Ex.
      assert (x / 128 * 2 ^ (s + 7) <= x * 2 ^ s) as Hle by (rewrite Ep; nia).
      destruct (Z.leb_spec w (s + 7)) as [Hws|_].
      { exfalso. assert (2 ^ w <= 2 ^ (s + 7)) by (apply Z.pow_le_mono_r; lia). nia. }
      rewrite Hb. rewrite Z.shiftl_mul_pow2 by lia. pose proof (Z.mod_pos_bound (x / 128) 128 ltac:(lia)). pose proof (Z.mod_le (x / 128) 128 ltac:(lia) ltac:(lia)).
      rewrite wrap_small by (unfold uint; nia). rewrite lor_disjoint by nia.
      rewrite (Hloop w (v + x mod 128 * 2 ^ s) (s + 7) rest) by (lia || nia). f_equal. f_equal. rewrite Ep. nia.
Qed.

Lemma varint_roundtrip w x rest : 7 < w <= 64 -> uint w x -> varint_decode w (varint_encode x ++ rest) = Ok (x, rest).
Proof.
  intros Hw Hx. unfold uint in Hx. assert (2 ^ w <= 2 ^ 64) by (apply Z.pow_le_mono_r; lia).
  destruct (varint_loop_spec 64 x) as (b & t & E & Hb & Hloop); [change (7 * (Z.of_nat 64 + 1)) with 455; assert (2 ^ 64 <= 2 ^ 455) by (apply Z.pow_le_mono_r; lia); lia|].
  unfold varint_encode. rewrite E. cbn [app varint_decode]. rewrite Hb. specialize (Hloop w 0 0 rest ltac:(lia) ltac:(lia) ltac:(lia)).
  by rewrite Z.pow_0_r, !Z.mul_1_r, !Z.add_0_l in Hloop.
Qed.

(** A value below [2^(7 k)] takes at most [k] bytes. *)
Lemma varint_length fuel : forall x k, 0 <= x -> 0 < k -> x < 2 ^ (7 * k) -> zlen (varint_bytes fuel (Z.land x 0x7f) (Z.shiftr x 7)) <= k.
Proof.
  induction fuel as [|fuel IH]; intros x k Hx Hk Hlt; cbn [varint_bytes]; [simpl; lia|].
  destruct (Z.eqb_spec (Z.shiftr x 7) 0) as [E|E]; [simpl; lia|]. cbn [length]. rewrite Nat2Z.inj_succ.
  rewrite Z.shiftr_div_pow2 in * by lia. change (2 ^ 7) with 128 in *.
  assert (0 <= x / 128) by (apply Z.div_pos; lia). destruct (decide (k = 1)) as [->|].
  { exfalso. apply E. apply Z.div_small. change (2 ^ (7 * 1)) with 128 in Hlt. lia. }
  enough (x / 128 < 2 ^ (7 * (k - 1))) as Hd by (pose proof (IH (x / 128) (k - 1) ltac:(lia) ltac:(lia) Hd) as H1;
    rewrite Z.shiftr_div_pow2 in H1 by lia; change (2 ^ 7) with 128 in H1; rewrite Z.shiftr_div_pow2 by lia; change (2 ^ 7) with 128; lia).
  apply Z.div_lt_upper_bound; [lia|]. change 128 with (2 ^ 7). rewrite <- Z.pow_add_r by lia. by replace (7 + 7 * (k - 1)) with (7 * k) by lia.
Qed.

(** A 64-bit varint is lawful below [2^63]; from there on it takes ten bytes and
    the bound is nine. *)
Lemma varint64_lawful : lawful (denc_varint 64) (fun x => 0 <= x < 2 ^ 63).
Proof.
  constructor; intros x.
  - intros rest Hx. apply varint_roundtrip; [lia|]. unfold uint. lia.
  - intros Hx. apply (varint_length 64 x 9); lia.
Qed.

Lemma varint32_lawful : lawful (denc_varint 32) (uint 32).
Proof.
  constructor; intros x.
  - intros rest Hx. apply varint_roundtrip; [lia|done].
  - intros Hx. unfold uint in Hx. apply (varint_length 64 x 5); lia.
Qed.

(** ** Integers with low zero bits *)

Lemma ctz_multiple x n : 0 < x -> 0 <= n <= IntArith.ctz 64 x -> x mod 2 ^ n = 0.
Proof.
  intros Hx Hn. destruct x as [|p|]; try lia. simpl in Hn. destruct (IntArith.pos_ctz_spec p) as (q & -> & Ht).
  replace (2 ^ IntArith.pos_ctz p) with (2 ^ (IntArith.pos_ctz p - n) * 2 ^ n) by (rewrite <- Z.pow_add_r by lia; f_equal; lia).
  rewrite Z.mul_assoc. apply Z.mod_mul. lia.
Qed.

Lemma lowznib_spec v : 0 <= v -> 0 <= lowznib v <= 3 /\ v = v / 2 ^ (lowznib v * 4) * 2 ^ (lowznib v * 4).
Proof.
  intros Hv. unfold lowznib. destruct (Z.eqb_spec v 0) as [->|Hne]; [done|].
  assert (0 <= IntArith.ctz 64 v) as Hc by (destruct v as [|p|]; try lia; simpl; destruct (IntArith.pos_ctz_spec p) as (? & _ & ?); lia).
  set (c := IntArith.ctz 64 v) in *. assert (0 <= c / 4) by (apply Z.div_pos; lia). pose proof (Z.mul_div_le c 4 ltac:(lia)).
  set (n := Z.min 3 (c / 4)). assert (0 <= n <= 3 /\ n * 4 <= c) as [Hn Hnc] by lia. split; [done|].
  pose proof (ctz_multiple v (n * 4) ltac:(lia) ltac:(lia)) as Hm. assert (0 < 2 ^ (n * 4)) by lia. pose proof (Z.div_mod v (2 ^ (n * 4)) ltac:(lia)). lia.
Qed.

Lemma land_3 x : Z.land x 3 = x mod 4.
Proof. change 3 with (Z.ones 2). by rewrite Z.land_ones by lia. Qed.

Lemma lowz_lawful w : 0 < w <= 62 -> lawful (denc_varint_lowz w) (uint w).
Proof.
  intros Hw. assert (forall v, uint w v -> exists q, Z.lor (u64 (Z.shiftl (Z.shiftr v (lowznib v * 4)) 2)) (lowznib v) = 4 * q + lowznib v /\
    0 <= q < 2 ^ 62 /\ v = q * 2 ^ (lowznib v * 4)) as Henc.
  { intros v Hv. unfold uint in Hv. assert (2 ^ w <= 2 ^ 62) by (apply Z.pow_le_mono_r; lia). destruct (lowznib_spec v ltac:(lia)) as [Hn Ev].
    set (n := lowznib v) in *. assert (0 < 2 ^ (n * 4)) by lia. rewrite Z.shiftr_div_pow2 by lia. set (q := v / 2 ^ (n * 4)) in *. exists q.
    assert (0 <= q <= v) by (split; [apply Z.div_pos; lia|apply Z.div_le_upper_bound; nia]). split; [|lia].
    rewrite Z.shiftl_mul_pow2, u64_small by lia. rewrite Z.lor_comm, lor_disjoint by lia. change (2 ^ 2) with 4. lia. }
  constructor; intros v.
  - intros rest Hv. destruct (Henc v Hv) as (q & E & Hq & Ev). destruct (lowznib_spec v ltac:(unfold uint in Hv; lia)) as [Hn _]. cbn [encode decode denc_varint_lowz].
    cbv zeta. rewrite E. rewrite varint_roundtrip by (unfold uint; lia). rewrite ok_bind, land_3. cbv zeta.
    replace ((4 * q + lowznib v) mod 4) with (lowznib v) by (Z.div_mod_to_equations; lia).
    rewrite Z.shiftr_div_pow2 by lia. change (2 ^ 2) with 4. replace ((4 * q + lowznib v) / 4) with q by (Z.div_mod_to_equations; lia).
    rewrite Z.shiftl_mul_pow2, <- Ev by lia. unfold uint in Hv. assert (2 ^ w <= 2 ^ 62) by (apply Z.pow_le_mono_r; lia). rewrite u64_small by lia. by rewrite wrap_small.
  - intros Hv. destruct (Henc v Hv) as (q & E & Hq & Ev). destruct (lowznib_spec v ltac:(unfold uint in Hv; lia)) as [Hn _]. cbn [encode bound_encode denc_varint_lowz]. cbv zeta. rewrite E.
    apply (varint_length 64 _ 10); lia.
Qed.

(** ** Logical block addresses *)

Lemma lba_varint_loop p : forall b v s, lba_loop b v s p = varint_loop 64 b v s p.
Proof. induction p as [|c p IH]; intros b v s; cbn [lba_loop varint_loop]; [done|]. destruct (_ =? 0); [done|]. destruct (64 <=? s); [done|]. apply IH. Qed.

(** The bits of a word below 31, without the lowest [k]. *)
Lemma land_word x k : 0 <= k <= 31 -> Z.land x (2 ^ 31 - 2 ^ k) = (x mod 2 ^ 31) / 2 ^ k * 2 ^ k.
Proof.
  intros Hk. replace (2 ^ 31 - 2 ^ k) with (Z.shiftl (Z.ones (31 - k)) k).
  2:{ rewrite Z.shiftl_mul_pow2, Z.ones_equiv by lia. rewrite <- Z.sub_1_r, Z.mul_sub_distr_r, <- Z.pow_add_r by lia. f_equal; [f_equal|]; lia. }
  rewrite <- Z.shiftr_div_pow2, <- Z.shiftl_mul_pow2 by lia. apply Z.bits_inj'. intros i Hi. rewrite Z.land_spec, !Z.shiftl_spec by lia.
  destruct (decide (i < k)); [rewrite !(Z.testbit_neg_r _ (i - k)) by lia; apply andb_false_r|].
  rewrite Z.shiftr_spec by lia. replace (i - k + k) with i by lia. rewrite Z.testbit_ones by lia. destruct (decide (i < 31)).
  - rewrite Z.mod_pow2_bits_low by lia. replace ((0 <=? i - k) && (i - k <? 31 - k)) with true by lia. apply andb_true_r.
  - rewrite Z.mod_pow2_bits_high by lia. replace ((0 <=? i - k) && (i - k <? 31 - k)) with false by lia. apply andb_false_r.
Qed.

(** The first word: the tag, the low bits of [q], and whether more follows. *)
Definition lba_word (tag pos q : Z) : Z := tag + 2 ^ pos * (q mod 2 ^ (31 - pos)) + (if q / 2 ^ (31 - pos) =? 0 then 0 else 2 ^ 31).

Definition lba_bytes (tag pos q : Z) : bytes :=
  le_bytes 4 (lba_word tag pos q) ++
  (let r := q / 2 ^ (31 - pos) in if r =? 0 then [] else varint_bytes 64 (Z.land r 0x7f) (Z.shiftr r 7)).

(** The tail of [lba_encode] for a quotient. *)
Lemma lba_encode_bytes tag pos q :
  1 <= pos <= 3 -> 0 <= tag < 2 ^ pos -> 0 <= q < 2 ^ 64 ->
  (let word := Z.lor tag (Z.land (u64 (Z.shiftl q pos)) 0x7fffffff) in
   let r := Z.shiftr q (31 - pos) in
   if r =? 0 then le_bytes 4 word
   else le_bytes 4 (Z.lor word 0x80000000) ++ varint_bytes 64 (Z.land r 0x7f) (Z.shiftr r 7)) = lba_bytes tag pos q.
Proof.
  intros Hp Ht Hq. cbv zeta. unfold lba_bytes, lba_word. rewrite Z.shiftr_div_pow2 by lia. set (r := q / 2 ^ (31 - pos)).
  assert (0 < 2 ^ (31 - pos)) as H0 by lia. assert (2 ^ 31 = 2 ^ pos * 2 ^ (31 - pos)) as E31 by (rewrite <- Z.pow_add_r by lia; f_equal; lia).
  pose proof (Z.mod_pos_bound q (2 ^ (31 - pos)) H0).
  assert (Z.land (u64 (Z.shiftl q pos)) 0x7fffffff = 2 ^ pos * (q mod 2 ^ (31 - pos))) as ->.
  { change 0x7fffffff with (Z.ones 31). rewrite Z.land_ones by lia. unfold u64, wrap. rewrite Z.shiftl_mul_pow2 by lia.
    rewrite <- (Znumtheory.Zmod_div_mod (2 ^ 31) (2 ^ 64)) by (try lia; by exists (2 ^ 33)). rewrite E31, (Z.mul_comm q). apply Z.mul_mod_distr_l; lia. }
  set (m := q mod 2 ^ (31 - pos)) in *. rewrite (Z.mul_comm (2 ^ pos) m), lor_disjoint by lia.
  destruct (Z.eqb_spec r 0); [by rewrite Z.add_0_r, app_nil_r|]. change 0x80000000 with (1 * 2 ^ 31). rewrite lor_disjoint by nia. by rewrite Z.mul_1_l.
Qed.

Lemma byte3_high x : 0 <= x < 2 ^ 32 -> Z.land (u8 (Z.shiftr x 24)) 0x80 = if x <? 2 ^ 31 then 0 else 128.
Proof.
  intros Hx. rewrite Z.shiftr_div_pow2 by lia. assert (0 <= x / 2 ^ 24 < 256) as Hb by (split; [apply Z.div_pos; lia|apply Z.div_lt_upper_bound; lia]).
  unfold u8. rewrite wrap_small by (unfold uint; lia). pose proof (Z.div_mod x (2 ^ 24) ltac:(lia)). pose proof (Z.mod_pos_bound x (2 ^ 24) ltac:(lia)).
  set (y := x / 2 ^ 24) in *. destruct (Z.ltb_spec x (2 ^ 31)).
  - apply high_bit. lia.
  - destruct (high_bit (y - 128) ltac:(lia)) as (_ & E & _). replace (Z.lor (y - 128) 128) with y in E; [done|].
    change 128 with (1 * 2 ^ 7) at 2. rewrite lor_disjoint; lia.
Qed.

(** What the decoder does after the first word, for a shift of [sh] bits. *)
Lemma lba_decode_bytes tag pos sh q rest :
  1 <= pos <= 3 -> 0 <= tag < 2 ^ pos -> 0 <= sh <= 20 -> 0 <= q -> q * 2 ^ sh < 2 ^ 64 ->
  let word := lba_word tag pos q in
  0 <= word < 2 ^ 32 /\ word mod 2 ^ pos = tag /\ (word mod 2 ^ 31) / 2 ^ pos = q mod 2 ^ (31 - pos) /\
  lba_loop (u8 (Z.shiftr word 24)) (q mod 2 ^ (31 - pos) * 2 ^ sh) (sh + (31 - pos))
    ((let r := q / 2 ^ (31 - pos) in if r =? 0 then [] else varint_bytes 64 (Z.land r 0x7f) (Z.shiftr r 7)) ++ rest) = Ok (q * 2 ^ sh, rest).
Proof.
  intros Hp Ht Hsh Hq Hlt. cbv zeta. unfold lba_word. set (r := q / 2 ^ (31 - pos)). assert (0 < 2 ^ (31 - pos)) as H0 by lia. assert (0 < 2 ^ sh) by lia.
  assert (2 ^ 31 = 2 ^ pos * 2 ^ (31 - pos)) as E31 by (rewrite <- Z.pow_add_r by lia; f_equal; lia).
  pose proof (Z.mod_pos_bound q (2 ^ (31 - pos)) H0) as Hm. pose proof (Z.div_mod q (2 ^ (31 - pos)) ltac:(lia)) as Eq. fold r in Eq.
  set (m := q mod 2 ^ (31 - pos)) in *. assert (0 <= r) by (apply Z.div_pos; lia). set (c := if r =? 0 then 0 else 2 ^ 31).
  assert (0 <= tag + 2 ^ pos * m < 2 ^ 31) as Hlow by nia. assert (exists z, c = 2 ^ 31 * z /\ 0 <= z <= 1) as (z & Ec & Hz) by (subst c; destruct (r =? 0); [exists 0|exists 1]; lia).
  assert (0 <= tag + 2 ^ pos * m + c < 2 ^ 32) as Hw by lia. split; [done|].
  assert (c mod 2 ^ pos = 0) as Hcp by (rewrite Ec, E31, <- Z.mul_assoc, Z.mul_comm; apply Z.mod_mul; lia). split.
  { rewrite Ec, E31. replace (tag + 2 ^ pos * m + 2 ^ pos * 2 ^ (31 - pos) * z) with (tag + (m + 2 ^ (31 - pos) * z) * 2 ^ pos) by lia. rewrite Z.mod_add by lia. by apply Z.mod_small. }
  split.
  { rewrite Ec. replace (tag + 2 ^ pos * m + 2 ^ 31 * z) with (tag + 2 ^ pos * m + z * 2 ^ 31) by lia. rewrite Z.mod_add, Z.mod_small by lia.
    rewrite (Z.mul_comm (2 ^ pos)), Z.div_add, Z.div_small by lia. lia. }
  pose proof (byte3_high _ Hw) as Hb3. set (b3 := u8 _) in *. subst c. destruct (Z.eqb_spec r 0) as [E0|E0].
  - replace (tag + 2 ^ pos * m + 0 <? 2 ^ 31) with true in Hb3 by lia. cbn [app]. assert (m = q) as -> by nia. destruct rest; cbn [lba_loop]; by rewrite Hb3.
  - replace (tag + 2 ^ pos * m + 2 ^ 31 <? 2 ^ 31) with false in Hb3 by lia. assert (2 ^ (sh + (31 - pos)) = 2 ^ sh * 2 ^ (31 - pos)) as Es by (rewrite Z.pow_add_r by lia; done).
    assert (r * 2 ^ (sh + (31 - pos)) < 2 ^ 64) as Hr by (rewrite Es; nia).
    destruct (varint_loop_spec 64 r) as (b & t & Eb & Hb & Hloop).
    { split; [done|]. change (7 * (Z.of_nat 64 + 1)) with 455. assert (2 ^ 64 <= 2 ^ 455) by (apply Z.pow_le_mono_r; lia). nia. }
    rewrite Eb. cbn [app lba_loop]. rewrite Hb3. cbn [Z.eqb]. rewrite lba_varint_loop, Hb. rewrite Z.shiftl_mul_pow2 by lia.
    assert (1 <= r) by lia. pose proof (Z.mod_pos_bound r 128 ltac:(lia)). pose proof (Z.mod_le r 128 ltac:(lia) ltac:(lia)).
    destruct (Z.leb_spec 64 (sh + (31 - pos))) as [Hbig|_].
    { exfalso. assert (2 ^ 64 <= 2 ^ (sh + (31 - pos))) by (apply Z.pow_le_mono_r; lia). nia. }
    unfold u64. rewrite wrap_small by (unfold uint; nia). rewrite lor_disjoint by nia.
    rewrite Hloop by (lia || nia). f_equal. f_equal. rewrite Es. nia.
Qed.

(** The four forms: the tag, its width, and the number of zero bits left out. *)
Inductive lba_form : Z -> Z -> Z -> Prop :=
| form12 : lba_form 0 1 12
| form16 : lba_form 1 2 16
| form20 : lba_form 3 3 20
| form_byte : lba_form 7 3 0.

Lemma form_range tag pos sh : lba_form tag pos sh -> 1 <= pos <= 3 /\ 0 <= tag < 2 ^ pos /\ 0 <= sh <= 20.
Proof. destruct 1; split_and!; reflexivity || lia. Qed.

Lemma lba_encode_form v : 0 <= v < 2 ^ 64 -> exists tag pos sh q, lba_form tag pos sh /\ 0 <= q /\ v = q * 2 ^ sh /\ lba_encode v = lba_bytes tag pos q.
Proof.
  intros Hv. unfold lba_encode. set (z := if v =? 0 then 0 else IntArith.ctz 64 v / 4).
  assert (0 <= z) as Hz0.
  { subst z. destruct (Z.eqb_spec v 0); [lia|]. apply Z.div_pos; [|lia]. destruct v as [|p|]; try lia. simpl. destruct (IntArith.pos_ctz_spec p) as (? & _ & ?). lia. }
  assert (forall n, 0 <= n -> n * 4 <= z * 4 -> v = v / 2 ^ (n * 4) * 2 ^ (n * 4) /\ 0 <= v / 2 ^ (n * 4) < 2 ^ 64) as Hdiv.
  { intros n Hn Hle. assert (0 < 2 ^ (n * 4)) by lia. split; [|split; [apply Z.div_pos; lia|apply Z.div_lt_upper_bound; nia]].
    assert (v mod 2 ^ (n * 4) = 0) as Hm; [|pose proof (Z.div_mod v (2 ^ (n * 4)) ltac:(lia)); lia].
    subst z. destruct (Z.eqb_spec v 0) as [->|]; [apply Z.mod_0_l; lia|]. apply ctz_multiple; [lia|]. pose proof (Z.mul_div_le (IntArith.ctz 64 v) 4 ltac:(lia)). lia. }
  destruct (Z.ltb_spec (z - 3) 0).
  { exists 7, 3, 0, v. split; [constructor|]. split; [lia|]. split; [lia|]. apply lba_encode_bytes; lia. }
  destruct (Z.ltb_spec (z - 3) 3).
  - destruct (Hdiv z ltac:(lia) ltac:(lia)) as [Ev Hq]. rewrite (Z.shiftr_div_pow2 v) by lia.
    clearbody z. assert (z = 3 \/ z = 4 \/ z = 5) as [-> |[-> | ->]] by lia.
    + change (3 * 4) with 12 in *. exists 0, 1, 12, (v / 2 ^ 12). split; [constructor|]. split; [lia|]. split; [exact Ev|]. apply (lba_encode_bytes 0 1); lia.
    + change (4 * 4) with 16 in *. exists 1, 2, 16, (v / 2 ^ 16). split; [constructor|]. split; [lia|]. split; [exact Ev|]. apply (lba_encode_bytes 1 2); lia.
    + change (5 * 4) with 20 in *. exists 3, 3, 20, (v / 2 ^ 20). split; [constructor|]. split; [lia|]. split; [exact Ev|]. apply (lba_encode_bytes 3 3); lia.
  - destruct (Hdiv 5 ltac:(lia) ltac:(lia)) as [Ev Hq]. change (5 * 4) with 20 in *. rewrite (Z.shiftr_div_pow2 v) by lia.
    exists 3, 3, 20, (v / 2 ^ 20). split; [constructor|]. split; [lia|]. split; [exact Ev|]. apply lba_encode_bytes; lia.
Qed.

Lemma land_7 x : Z.land x 7 = x mod 8.
Proof. change 7 with (Z.ones 3). by rewrite Z.land_ones by lia. Qed.
Lemma land_1 x : Z.land x 1 = x mod 2.
Proof. change 1 with (Z.ones 1). by rewrite Z.land_ones by lia. Qed.

Lemma lba_decode_form tag pos sh q rest :
  lba_form tag pos sh -> 0 <= q -> q * 2 ^ sh < 2 ^ 64 -> lba_decode (lba_bytes tag pos q ++ rest) = Ok (q * 2 ^ sh, rest).
Proof.
  intros Hf Hq Hlt. destruct (form_range _ _ _ Hf) as (Hp & Ht & Hs). destruct (lba_decode_bytes tag pos sh q rest Hp Ht Hs Hq Hlt) as (Hw & Hmod & Hdiv & Hloop).
  unfold lba_bytes, lba_decode. rewrite <- app_assoc. change 4 with (zlen (le_bytes 4 (lba_word tag pos q))) at 1. rewrite get_pos_add_app, ok_bind.
  rewrite le_val_bytes. change (8 * Z.of_nat 4) with 32. rewrite Z.mod_small by lia. cbv zeta. set (word := lba_word tag pos q) in *. rewrite land_7, land_1.
  change 0x7ffffffe with (2 ^ 31 - 2 ^ 1). change 0x7ffffffc with (2 ^ 31 - 2 ^ 2). change 0x7ffffff8 with (2 ^ 31 - 2 ^ 3). rewrite !land_word by lia.
  destruct Hf.
  - change (2 ^ 1) with 2 in Hmod. replace (word mod 8 mod 2) with 0 by (Z.div_mod_to_equations; lia). cbn [Z.eqb]. rewrite Hdiv.
    rewrite Z.shiftl_mul_pow2 by lia. rewrite <- Hloop. f_equal. rewrite <- Z.mul_assoc. reflexivity.
  - change (2 ^ 2) with 4 in Hmod. replace (word mod 8 mod 2) with 1 by (Z.div_mod_to_equations; lia). cbn [Z.eqb].
    replace ((word mod 8 =? 1) || (word mod 8 =? 5)) with true by (Z.div_mod_to_equations; lia). rewrite Hdiv.
    rewrite Z.shiftl_mul_pow2 by lia. rewrite <- Hloop. f_equal. rewrite <- Z.mul_assoc. reflexivity.
  - change (2 ^ 3) with 8 in Hmod. rewrite Hmod. cbn [Z.eqb Pos.eqb orb]. change (3 mod 2) with 1. cbn [Z.eqb]. rewrite Hdiv.
    rewrite Z.shiftl_mul_pow2 by lia. rewrite <- Hloop. f_equal. rewrite <- Z.mul_assoc. reflexivity.
  - change (2 ^ 3) with 8 in Hmod. rewrite Hmod. cbn [Z.eqb Pos.eqb orb]. change (7 mod 2) with 1. cbn [Z.eqb]. rewrite Hdiv.
    rewrite (Z.shiftr_div_pow2 (_ * 2 ^ 3)), Z.div_mul by lia. rewrite Z.pow_0_r, Z.mul_1_r in Hloop. exact Hloop.
Qed.

Lemma lba_lawful : lawful denc_lba (uint 64).
Proof.
  constructor; intros v; unfold uint; cbn [encode decode bound_encode denc_lba].
  - intros rest Hv. destruct (lba_encode_form v Hv) as (tag & pos & sh & q & Hf & Hq & -> & ->). apply lba_decode_form; [done|done|lia].
  - intros Hv. destruct (lba_encode_form v Hv) as (tag & pos & sh & q & Hf & Hq & Ev & ->). destruct (form_range _ _ _ Hf) as (Hp & _ & Hs).
    unfold lba_bytes. rewrite length_app, length_le_bytes. set (r := q / 2 ^ (31 - pos)). cbv zeta. destruct (Z.eqb_spec r 0); [simpl; lia|].
    assert (0 <= r < 2 ^ 42) as Hr.
    { split; [apply Z.div_pos; lia|]. apply Z.div_lt_upper_bound; [lia|]. rewrite <- Z.pow_add_r by lia.
      assert (2 ^ 64 <= 2 ^ (31 - pos + 42)) by (apply Z.pow_le_mono_r; lia). assert (1 <= 2 ^ sh) by lia. nia. }
    pose proof (varint_length 64 r 6 ltac:(lia) ltac:(lia) ltac:(lia)). lia.
Qed.

(** ** Strings, containers, structures *)

Lemma u32_roundtrip n rest : 0 <= n < 2 ^ 32 -> decode denc_u32 (encode denc_u32 n ++ rest) = Ok (n, rest).
Proof. intros Hn. by apply (l_roundtrip _ _ u32_lawful). Qed.

Lemma string_lawful : lawful denc_string (fun s => zlen s < 2 ^ 32).
Proof.
  constructor; intros s; cbn [encode decode bound_encode denc_string].
  - intros rest Hs. rewrite u32_small by lia. rewrite <- app_assoc, u32_roundtrip by lia. rewrite ok_bind. apply get_pos_add_app.
  - intros Hs. rewrite length_app. cbn [encode denc_u32 denc_le]. rewrite length_le_bytes. lia.
Qed.

Lemma vector_lawful {T} (d : denc_traits T) valid : lawful d valid -> lawful (denc_vector d) (fun s => Forall valid s /\ zlen s < 2 ^ 32).
Proof.
  intros Hd. constructor; intros s; cbn [encode decode bound_encode denc_vector]; intros.
  - destruct H as [Hs Hl]. rewrite u32_small by lia. rewrite <- app_assoc, u32_roundtrip by lia. rewrite ok_bind, Nat2Z.id. clear Hl.
    induction Hs as [|x s Hx Hs IH]; [done|]. cbn [length decode_nohead fmap list_fmap concat]. rewrite <- app_assoc, (l_roundtrip _ _ Hd) by done.
    rewrite ok_bind. rewrite IH, ok_bind. done.
  - destruct H as [Hs Hl]. rewrite length_app. cbn [encode denc_u32 denc_le]. rewrite length_le_bytes. clear Hl.
    enough (zlen (concat (encode d <$> s)) <= sumZ (bound_encode d) s) by lia. induction Hs as [|x s Hx Hs IH]; [done|].
    cbn [fmap list_fmap concat]. rewrite length_app, sumZ_cons. pose proof (l_bound _ _ Hd x Hx). lia.
Qed.

Lemma struct_lawful {T} v compat (d : denc_traits T) valid :
  uint 8 v -> uint 8 compat -> lawful d valid -> lawful (denc_struct v compat d) (fun x => valid x /\ zlen (encode d x) < 2 ^ 32).
Proof.
  intros Hv Hc Hd. constructor; intros x; cbn [encode decode bound_encode denc_struct]; cbv zeta; intros.
  - destruct H as [Hx Hl]. rewrite <- !app_assoc, u32_small by lia. rewrite (l_roundtrip _ _ u8_lawful), ok_bind, (l_roundtrip _ _ u8_lawful), ok_bind, u32_roundtrip, ok_bind by (done || lia).
    rewrite (l_roundtrip _ _ Hd), ok_bind by done. rewrite length_app. replace (Z.of_nat (_ + length rest) - zlen rest) with (zlen (encode d x)) by lia.
    rewrite Z.ltb_irrefl, Z.sub_diag. by destruct rest.
  - destruct H as [Hx Hl]. rewrite !length_app. cbn [encode denc_u8 denc_u32 denc_le]. rewrite !length_le_bytes. pose proof (l_bound _ _ Hd x Hx). lia.
Qed.

(** ** What the integer encodings promise *)

(** C39: every integer is read back as it was written, whatever follows it in
    the buffer: 64-bit and 32-bit variable-length integers, lengths whose low
    zero nibbles are dropped, and block addresses. *)
Theorem integers_roundtrip (rest : bytes) :
  (forall x, uint 64 x -> decode (denc_varint 64) (encode (denc_varint 64) x ++ rest) = Ok (x, rest)) /\
  (forall x, uint 32 x -> decode (denc_varint 32) (encode (denc_varint 32) x ++ rest) = Ok (x, rest)) /\
  (forall x, uint 32 x -> decode (denc_varint_lowz 32) (encode (denc_varint_lowz 32) x ++ rest) = Ok (x, rest)) /\
  (forall x, uint 64 x -> decode denc_lba (encode denc_lba x ++ rest) = Ok (x, rest)).
Proof.
  split_and!; intros x Hx; [by apply varint_roundtrip|by apply varint_roundtrip| |by apply (l_roundtrip _ _ lba_lawful)].
  by apply (l_roundtrip _ _ (lowz_lawful 32 ltac:(lia))).
Qed.

Lemma varint_longer fuel : forall x k, 0 <= x -> 0 <= k -> 2 ^ (7 * k) <= x -> k < Z.of_nat fuel -> k < zlen (varint_bytes fuel (Z.land x 0x7f) (Z.shiftr x 7)).
Proof.
  induction fuel as [|fuel IH]; intros x k Hx Hk Hge Hf; [lia|]. cbn [varint_bytes].
  destruct (decide (k = 0)) as [->|Hne]; [destruct (_ =? 0); simpl; lia|].
  replace (Z.shiftr x 7) with (x / 128) by (by rewrite Z.shiftr_div_pow2).
  assert (2 ^ (7 * (k - 1)) <= x / 128) as Hd.
  { apply Z.div_le_lower_bound; [lia|]. replace (7 * k) with (7 + 7 * (k - 1)) in Hge by lia. rewrite Z.pow_add_r in Hge by lia. lia. }
  assert (0 < 2 ^ (7 * (k - 1))) by (apply Z.pow_pos_nonneg; lia). destruct (Z.eqb_spec (x / 128) 0); [lia|]. cbn [length].
  specialize (IH (x / 128) (k - 1)). lia.
Qed.

(** The space reserved for a 64-bit variable-length integer, [sizeof(T) + 1]
    bytes, is enough exactly for the values below 2^63; the tenth byte of a
    larger one is written behind the reservation. *)
Theorem varint_bound_iff (x : Z) :
  uint 64 x -> zlen (encode (denc_varint 64) x) <= bound_encode (denc_varint 64) x <-> x < 2 ^ 63.
Proof.
  unfold uint. intros Hx. split; intros H.
  - destruct (Z.lt_ge_cases x (2 ^ 63)) as [|Hge]; [done|]. pose proof (varint_longer 64 x 9 ltac:(lia) ltac:(lia) Hge ltac:(lia)) as Hl.
    cbn [encode bound_encode denc_varint] in *. unfold varint_encode in H. change (64 / 8 + 1) with 9 in H. lia.
  - apply (l_bound _ _ varint64_lawful). lia.
Qed.

Lemma varint_bound_iff_witness : zlen (encode (denc_varint 64) 300) <= bound_encode (denc_varint 64) 300 <-> 300 < 2 ^ 63.
Proof. apply varint_bound_iff. split; [discriminate|reflexivity]. Defined.
End DencSpec.
