(* ===== verification/BluefsTypes.v ===== *)
(** * bluefs/bluefs_types.{h,cc}: extents, file nodes, the superblock, transactions *)
From stdpp Require Import base numbers list.
From Stdlib Require Import ZArith Lia ZifyBool.
From S2P Require Import Prelude IntArith Crc32 Denc.
Import Denc.

Module BluefsTypes.

(** ** Extents *)

Record bluefs_extent_t := mk_extent { offset : Z; length : Z; bdev : Z }.

#[global] Instance extent_eq_dec : EqDecision bluefs_extent_t.
Proof. solve_decision. Defined.

(** The constructor [bluefs_extent_t(uint8_t b, uint64_t o, uint32_t l)]. *)
Definition bluefs_extent (b o l : Z) : bluefs_extent_t := mk_extent o (u32 l) (u8 b).

Definition extent_end (e : bluefs_extent_t) : Z := offset e +64 length e.

Definition denc_extent : denc_traits bluefs_extent_t := {|
  bound_encode v := bound_encode denc_lba (offset v) + bound_encode (denc_varint_lowz 32) (length v) + bound_encode denc_u8 (bdev v);
  encode v := encode denc_lba (offset v) ++ encode (denc_varint_lowz 32) (length v) ++ encode denc_u8 (bdev v);
  decode p :=
    '(o, p) ← decode denc_lba p;
    '(l, p) ← decode (denc_varint_lowz 32) p;
    '(b, p) ← decode denc_u8 p;
    Ok (mk_extent o l b, p);
|}.

(** The time, split into seconds and nanoseconds. *)
Definition denc_mtime : denc_traits Z := {|
  bound_encode _ := 4 + 4;
  encode t := encode denc_u32 (u32 (t / 1000000000)) ++ encode denc_u32 (u32 (t mod 1000000000));
  decode p :=
    '(sec, p) ← decode denc_u32 p;
    '(nsec, p) ← decode denc_u32 p;
    Ok (u64 (sec * 1000000000 + nsec), p);
|}.

(** ** Deltas of file nodes *)

Record bluefs_fnode_delta_t := mk_delta { d_ino : Z; d_size : Z; d_mtime : Z; d_offset : Z; d_extents : list bluefs_extent_t }.

Definition denc_delta : denc_traits bluefs_fnode_delta_t := {|
  bound_encode v := bound_encode (denc_varint 64) (d_ino v) + bound_encode (denc_varint 64) (d_size v) + bound_encode denc_mtime (d_mtime v) +
    bound_encode denc_lba (d_offset v) + bound_encode (denc_vector denc_extent) (d_extents v);
  encode v := encode (denc_varint 64) (d_ino v) ++ encode (denc_varint 64) (d_size v) ++ encode denc_mtime (d_mtime v) ++
    encode denc_lba (d_offset v) ++ encode (denc_vector denc_extent) (d_extents v);
  decode p :=
    '(i, p) ← decode (denc_varint 64) p;
    '(s, p) ← decode (denc_varint 64) p;
    '(t, p) ← decode denc_mtime p;
    '(o, p) ← decode denc_lba p;
    '(e, p) ← decode (denc_vector denc_extent) p;
    Ok (mk_delta i s t o e, p);
|}.

(** ** File nodes *)

Record bluefs_fnode_t := mk_fnode {
  ino : Z;
  size : Z;
  mtime : Z;
  unused_ : Z;
  extents : list bluefs_extent_t;
  extents_index : list Z;
  allocated : Z;
  allocated_committed : Z;
}.

#[global] Instance fnode_eq_dec : EqDecision bluefs_fnode_t.
Proof. solve_decision. Defined.

Definition fnode (i s m : Z) : bluefs_fnode_t := mk_fnode i s m 0 [] [] 0 0.

Definition set_extents (e : list bluefs_extent_t) (x : list Z) (a c : Z) (f : bluefs_fnode_t) : bluefs_fnode_t :=
  mk_fnode (ino f) (size f) (mtime f) (unused_ f) e x a c.
Definition set_size (s : Z) (f : bluefs_fnode_t) : bluefs_fnode_t :=
  mk_fnode (ino f) s (mtime f) (unused_ f) (extents f) (extents_index f) (allocated f) (allocated_committed f).
Definition set_mtime (m : Z) (f : bluefs_fnode_t) : bluefs_fnode_t :=
  mk_fnode (ino f) (size f) m (unused_ f) (extents f) (extents_index f) (allocated f) (allocated_committed f).
Definition set_ino (i : Z) (f : bluefs_fnode_t) : bluefs_fnode_t :=
  mk_fnode i (size f) (mtime f) (unused_ f) (extents f) (extents_index f) (allocated f) (allocated_committed f).

Definition get_allocated (f : bluefs_fnode_t) : Z := allocated f.

(** The loop of [recalc_allocated]: the index and the sum. *)
Definition recalc (l : list bluefs_extent_t) : list Z * Z :=
  foldl (fun '(x, a) e => (x ++ [a], a +64 length e)) ([], 0) l.

Definition recalc_allocated (f : bluefs_fnode_t) : bluefs_fnode_t :=
  let '(x, a) := recalc (extents f) in set_extents (extents f) x a a f.

Definition reset_delta (f : bluefs_fnode_t) : bluefs_fnode_t :=
  set_extents (extents f) (extents_index f) (allocated f) (allocated f) f.

(** Whether [append_extent] extends the last extent. *)
Definition can_merge (last ext : bluefs_extent_t) : bool :=
  (extent_end last =? offset ext) && (bdev last =? bdev ext) && (length last +64 length ext <? 0xffffffff).

Definition append_extent (ext : bluefs_extent_t) (f : bluefs_fnode_t) : bluefs_fnode_t :=
  let a := allocated f +64 length ext in
  match last (extents f) with
  | Some l =>
      if can_merge l ext then
        set_extents (removelast (extents f) ++ [mk_extent (offset l) (length l +32 length ext) (bdev l)]) (extents_index f) a (allocated_committed f) f
      else set_extents (extents f ++ [ext]) (extents_index f ++ [allocated f]) a (allocated_committed f) f
  | None => set_extents (extents f ++ [ext]) (extents_index f ++ [allocated f]) a (allocated_committed f) f
  end.

Definition claim_extents (e : list bluefs_extent_t) (f : bluefs_fnode_t) : bluefs_fnode_t :=
  foldl (fun f x => append_extent x f) f e.

(** [clone_extents], and the copy constructor. *)
Definition clone_extents (other f : bluefs_fnode_t) : bluefs_fnode_t := claim_extents (extents other) f.
Definition fnode_copy (other : bluefs_fnode_t) : bluefs_fnode_t :=
  clone_extents other (mk_fnode (ino other) (size other) (mtime other) 0 [] [] (allocated other) (allocated_committed other)).

Definition pop_front_extent (f : bluefs_fnode_t) : option bluefs_fnode_t :=
  match extents f, extents_index f with
  | e :: t, _ :: x => Some (set_extents t ((fun i => i -64 length e) <$> x) (allocated f -64 length e) (allocated_committed f) f)
  | _, _ => None
  end.

Definition clear_extents (f : bluefs_fnode_t) : bluefs_fnode_t := set_extents [] [] 0 0 f.

(** [std::upper_bound] on the index, as a position. *)
Definition index_upper_bound (x : list Z) (off : Z) : nat := List.length (span (fun i => off <? i) x).1.

(** The position of the extent and the offset in it; [None] is [extents.end()]. *)
Definition seek (off : Z) (f : bluefs_fnode_t) : option (nat * Z) :=
  match extents f with
  | [] => None
  | _ =>
      if allocated f <=? off then None
      else
        match index_upper_bound (extents_index f) off with
        | O => None
        | S idx => Some (idx, off -64 nth idx (extents_index f) 0)
        end
  end.

(** The loop of [make_delta]. *)
Fixpoint delta_extents (committed pos : Z) (l : list bluefs_extent_t) : list bluefs_extent_t :=
  match l with
  | [] => []
  | e :: t =>
      if pos +64 length e <=? committed then delta_extents committed (pos +64 length e) t
      else
        let skip := if pos <? committed then committed -64 pos else 0 in
        (if skip =? 0 then e else bluefs_extent (bdev e) (offset e +64 skip) (length e -64 skip)) ::
        delta_extents committed (pos +64 length e) t
  end.

Definition make_delta (f : bluefs_fnode_t) : bluefs_fnode_delta_t :=
  mk_delta (ino f) (size f) (mtime f) (allocated_committed f) (delta_extents (allocated_committed f) 0 (extents f)).

Definition denc_fnode : denc_traits bluefs_fnode_t := {|
  bound_encode v := bound_encode (denc_varint 64) (ino v) + bound_encode (denc_varint 64) (size v) + bound_encode denc_mtime (mtime v) +
    bound_encode denc_u8 (unused_ v) + bound_encode (denc_vector denc_extent) (extents v);
  encode v := encode (denc_varint 64) (ino v) ++ encode (denc_varint 64) (size v) ++ encode denc_mtime (mtime v) ++
    encode denc_u8 (unused_ v) ++ encode (denc_vector denc_extent) (extents v);
  decode p :=
    '(i, p) ← decode (denc_varint 64) p;
    '(s, p) ← decode (denc_varint 64) p;
    '(t, p) ← decode denc_mtime p;
    '(u, p) ← decode denc_u8 p;
    '(e, p) ← decode (denc_vector denc_extent) p;
    Ok (recalc_allocated (mk_fnode i s t u e [] 0 0), p);
|}.

(** ** The superblock *)

(** [uuid_d] is sixteen bytes. *)
Fixpoint decode_uuid_bytes (n : nat) (p : bytes) : result (bytes * bytes) :=
  match n with
  | O => Ok ([], p)
  | S n => '(b, p) ← decode denc_u8 p; '(t, p) ← decode_uuid_bytes n p; Ok (b :: t, p)
  end.

Definition denc_uuid : denc_traits bytes := denc_struct 1 1 {|
  bound_encode _ := 16;
  encode u := concat (encode denc_u8 <$> u);
  decode := decode_uuid_bytes 16;
|}.

Record bluefs_super_t := mk_super { s_uuid : bytes; osd_uuid : bytes; version : Z; block_size : Z; log_fnode : bluefs_fnode_t }.

Definition super_new : bluefs_super_t := mk_super (replicate 16 0) (replicate 16 0) 0 4096 (fnode 0 0 0).

Definition block_mask (s : bluefs_super_t) : Z := not64 (block_size s -64 1).

Definition denc_super : denc_traits bluefs_super_t := denc_struct 1 1 {|
  bound_encode v := bound_encode denc_uuid (s_uuid v) + bound_encode denc_uuid (osd_uuid v) + bound_encode denc_u64 (version v) +
    bound_encode denc_u32 (block_size v) + bound_encode denc_fnode (log_fnode v);
  encode v := encode denc_uuid (s_uuid v) ++ encode denc_uuid (osd_uuid v) ++ encode denc_u64 (version v) ++
    encode denc_u32 (block_size v) ++ encode denc_fnode (log_fnode v);
  decode p :=
    '(u, p) ← decode denc_uuid p;
    '(o, p) ← decode denc_uuid p;
    '(v, p) ← decode denc_u64 p;
    '(b, p) ← decode denc_u32 p;
    '(f, p) ← decode denc_fnode p;
    Ok (mk_super u o v b f, p);
|}.

(** ** Transactions *)

Definition OP_INIT : Z := 1.
Definition OP_DIR_LINK : Z := 4.
Definition OP_DIR_UNLINK : Z := 5.
Definition OP_DIR_CREATE : Z := 6.
Definition OP_DIR_REMOVE : Z := 7.
Definition OP_FILE_UPDATE : Z := 8.
Definition OP_FILE_REMOVE : Z := 9.
Definition OP_JUMP : Z := 10.
Definition OP_JUMP_SEQ : Z := 11.
Definition OP_FILE_UPDATE_INC : Z := 12.

Record bluefs_transaction_t := mk_txn { uuid : bytes; seq : Z; op_bl : bytes }.

Definition txn_new : bluefs_transaction_t := mk_txn (replicate 16 0) 0 [].
Definition txn_empty (t : bluefs_transaction_t) : bool := (List.length (op_bl t) =? 0)%nat.
Definition add_op (b : bytes) (t : bluefs_transaction_t) : bluefs_transaction_t := mk_txn (uuid t) (seq t) (op_bl t ++ b).

Definition op_init (t : bluefs_transaction_t) := add_op (encode denc_u8 OP_INIT) t.
Definition op_dir_create (dir : bytes) (t : bluefs_transaction_t) := add_op (encode denc_u8 OP_DIR_CREATE ++ encode denc_string dir) t.
Definition op_dir_remove (dir : bytes) (t : bluefs_transaction_t) := add_op (encode denc_u8 OP_DIR_REMOVE ++ encode denc_string dir) t.
Definition op_dir_link (dir file : bytes) (i : Z) (t : bluefs_transaction_t) :=
  add_op (encode denc_u8 OP_DIR_LINK ++ encode denc_string dir ++ encode denc_string file ++ encode denc_u64 i) t.
Definition op_dir_unlink (dir file : bytes) (t : bluefs_transaction_t) :=
  add_op (encode denc_u8 OP_DIR_UNLINK ++ encode denc_string dir ++ encode denc_string file) t.
Definition op_file_remove (i : Z) (t : bluefs_transaction_t) := add_op (encode denc_u8 OP_FILE_REMOVE ++ encode denc_u64 i) t.
Definition op_jump (next_seq off : Z) (t : bluefs_transaction_t) :=
  add_op (encode denc_u8 OP_JUMP ++ encode denc_u64 next_seq ++ encode denc_u64 off) t.
Definition op_jump_seq (next_seq : Z) (t : bluefs_transaction_t) := add_op (encode denc_u8 OP_JUMP_SEQ ++ encode denc_u64 next_seq) t.

(** These two also reset the delta of the file. *)
Definition op_file_update (f : bluefs_fnode_t) (t : bluefs_transaction_t) : bluefs_fnode_t * bluefs_transaction_t :=
  (reset_delta f, add_op (encode denc_u8 OP_FILE_UPDATE ++ encode denc_fnode f) t).
Definition op_file_update_inc (f : bluefs_fnode_t) (t : bluefs_transaction_t) : bluefs_fnode_t * bluefs_transaction_t :=
  (reset_delta f, add_op (encode denc_u8 OP_FILE_UPDATE_INC ++ encode denc_delta (make_delta f)) t).

(** [bufferlist::crc32c(-1)]. *)
Definition crc32c (bl : bytes) : Z := Crc32.calc_crc32 bl UINT32_MAX.

Definition denc_transaction : denc_traits bluefs_transaction_t := denc_struct 1 1 {|
  bound_encode v := bound_encode denc_uuid (uuid v) + bound_encode denc_u64 (seq v) + bound_encode denc_string (op_bl v) + 4;
  encode v := encode denc_uuid (uuid v) ++ encode denc_u64 (seq v) ++ encode denc_string (op_bl v) ++ encode denc_u32 (crc32c (op_bl v));
  decode p :=
    '(u, p) ← decode denc_uuid p;
    '(s, p) ← decode denc_u64 p;
    '(b, p) ← decode denc_string p;
    '(expected_crc, p) ← decode denc_u32 p;
    if crc32c b =? expected_crc then Ok (mk_txn u s b, p) else Throw malformed_input;
|}.

(** A file node whose extents were merged, and its delta. *)
Example fnode_smoke :
  let f := append_extent (mk_extent 4096 4096 1) (fnode 7 0 0) in
  let f := reset_delta f in
  let f := append_extent (mk_extent 8192 4096 1) f in
  let f := append_extent (mk_extent 65536 8192 1) f in
  (extents f, seek 9000 f, d_extents (make_delta f)) =
  ([mk_extent 4096 8192 1; mk_extent 65536 8192 1], Some (1%nat, 808), [mk_extent 8192 4096 1; mk_extent 65536 8192 1]).
Proof. vm_compute. reflexivity. Qed.
End BluefsTypes.
