(* ===== verification/BluefsTypesSpec.v ===== *)
(** * File nodes and their encodings are correct

    The index of a file node gives the extent of every offset, a delta replayed
    on the committed node gives the node it was taken from, and everything the
    log and the superblock hold is read back as it was written. *)
From stdpp Require Import base numbers list.
From Stdlib Require Import ZArith Lia ZifyBool.
From S2P Require Import Prelude IntArith Crc32 IntervalSet Denc DencSpec BluefsTypes.
Import Denc DencSpec BluefsTypes.

Module BluefsTypesSpec.

(** ** Encodings *)

Definition extent_valid (e : bluefs_extent_t) : Prop := uint 64 (offset e) /\ uint 32 (length e) /\ uint 8 (bdev e).

Lemma extent_lawful : lawful denc_extent extent_valid.
Proof.
  pose proof (lowz_lawful 32 ltac:(lia)) as Hl. constructor; intros [o l b] ; unfold extent_valid; cbn [encode decode bound_encode denc_extent offset length bdev].
  - intros rest (? & ? & ?). read_field lba_lawful. read_field Hl. read_field u8_lawful. done.
  - intros (? & ? & ?). rewrite !length_app. bound_field lba_lawful o. bound_field Hl l. bound_field u8_lawful b. lia.
Qed.

Lemma extents_lawful : lawful (denc_vector denc_extent) (fun s => Forall extent_valid s /\ zlen s < 2 ^ 32).
Proof. exact (vector_lawful _ _ extent_lawful). Qed.

Lemma mtime_lawful : lawful denc_mtime (fun t => 0 <= t < 2 ^ 32 * 1000000000).
Proof.
  constructor; intros t; cbn [encode decode bound_encode denc_mtime].
  - intros rest Ht. pose proof (Z.div_mod t 1000000000 ltac:(lia)). pose proof (Z.mod_pos_bound t 1000000000 ltac:(lia)).
    assert (0 <= t / 1000000000 < 2 ^ 32) by (split; [apply Z.div_pos; lia|apply Z.div_lt_upper_bound; lia]). rewrite !u32_small by lia.
    rewrite <- app_assoc, u32_roundtrip, ok_bind, u32_roundtrip, ok_bind by lia. rewrite u64_small by lia. do 2 f_equal. lia.
  - intros _. rewrite length_app. cbn [encode denc_u32 denc_le]. rewrite !length_le_bytes. lia.
Qed.

Definition delta_valid (d : bluefs_fnode_delta_t) : Prop :=
  0 <= d_ino d < 2 ^ 63 /\ 0 <= d_size d < 2 ^ 63 /\ 0 <= d_mtime d < 2 ^ 32 * 1000000000 /\ uint 64 (d_offset d) /\
  Forall extent_valid (d_extents d) /\ zlen (d_extents d) < 2 ^ 32.

Lemma delta_lawful : lawful denc_delta delta_valid.
Proof.
  constructor; intros [i s m o e]; unfold delta_valid; cbn [encode decode bound_encode denc_delta d_ino d_size d_mtime d_offset d_extents].
  - intros rest (? & ? & ? & ? & ? & ?). read_field varint64_lawful. read_field varint64_lawful. read_field mtime_lawful. read_field lba_lawful. read_field extents_lawful. done.
  - intros (? & ? & ? & ? & ? & ?). rewrite !length_app. bound_field varint64_lawful i. bound_field varint64_lawful s. bound_field mtime_lawful m. bound_field lba_lawful o.
    bound_field extents_lawful e. cbn [bound_encode denc_varint] in *. lia.
Qed.

(** The part of a file node that is stored. *)
Definition fields_valid (f : bluefs_fnode_t) : Prop :=
  0 <= ino f < 2 ^ 63 /\ 0 <= size f < 2 ^ 63 /\ 0 <= mtime f < 2 ^ 32 * 1000000000 /\ uint 8 (unused_ f) /\
  Forall extent_valid (extents f) /\ zlen (extents f) < 2 ^ 32.

Lemma fnode_decodes f rest : fields_valid f -> decode denc_fnode (encode denc_fnode f ++ rest) = Ok (recalc_allocated f, rest).
Proof.
  destruct f as [i s m u e x a c]. unfold fields_valid. cbn [encode decode denc_fnode ino size mtime unused_ extents].
  intros (? & ? & ? & ? & ? & ?). read_field varint64_lawful. read_field varint64_lawful. read_field mtime_lawful. read_field u8_lawful. read_field extents_lawful.
  unfold recalc_allocated. simpl. by destruct (recalc e).
Qed.

(** A node whose counters are up to date. *)
Lemma fnode_lawful : lawful denc_fnode (fun f => fields_valid f /\ recalc_allocated f = f).
Proof.
  constructor; intros f.
  - intros rest [Hf E]. rewrite fnode_decodes by done. by rewrite E.
  - intros [Hf _]. destruct f as [i s m u e x a c]. unfold fields_valid in Hf. cbn [ino size mtime unused_ extents] in Hf. destruct Hf as (? & ? & ? & ? & ? & ?).
    cbn [encode bound_encode denc_fnode ino size mtime unused_ extents]. rewrite !length_app. bound_field varint64_lawful i. bound_field varint64_lawful s. bound_field mtime_lawful m.
    bound_field u8_lawful u. bound_field extents_lawful e. cbn [bound_encode denc_varint] in *. lia.
Qed.

Abbreviation is_bytes := Crc32.is_bytes.

Definition uuid_valid (u : bytes) : Prop := List.length u = 16%nat /\ is_bytes u.

Lemma uuid_bytes_decode u rest : is_bytes u -> decode_uuid_bytes (List.length u) (concat (encode denc_u8 <$> u) ++ rest) = Ok (u, rest).
Proof.
  induction 1 as [|b u Hb Hu IH]; [done|]. cbn [List.length decode_uuid_bytes fmap list_fmap concat]. read_field u8_lawful. rewrite IH, ok_bind. done.
Qed.

Lemma uuid_bytes_length u : zlen (concat (encode denc_u8 <$> u)) = zlen u.
Proof. induction u as [|b u IH]; [done|]. cbn [fmap list_fmap concat List.length]. rewrite length_app. cbn [encode denc_u8 denc_le]. rewrite length_le_bytes. cbn [fmap list_fmap] in IH. cbn [encode denc_u8 denc_le] in IH. lia. Qed.

Lemma uuid_lawful : lawful denc_uuid uuid_valid.
Proof.
  assert (lawful {| bound_encode _ := 16; encode u := concat (encode denc_u8 <$> u); decode := decode_uuid_bytes 16 |} uuid_valid) as Hb.
  { constructor; intros u; cbn [encode decode bound_encode].
    - intros rest [Hl Hu]. rewrite <- Hl. by apply uuid_bytes_decode.
    - intros [Hl _]. rewrite uuid_bytes_length. lia. }
  destruct (struct_lawful 1 1 _ _ ltac:(unfold uint; lia) ltac:(unfold uint; lia) Hb) as [H1 H2].
  assert (forall u, uuid_valid u -> uuid_valid u /\ zlen (concat (encode denc_u8 <$> u)) < 2 ^ 32) as Hv by (intros u [Hl Hu]; rewrite uuid_bytes_length, Hl; done).
  constructor; intros; [apply H1|apply H2]; by apply Hv.
Qed.

Lemma uuid_length u : uuid_valid u -> zlen (encode denc_uuid u) = 22.
Proof.
  intros [Hl _]. unfold denc_uuid, denc_struct. cbn [encode]. cbv zeta. rewrite !length_app. cbn [encode denc_u8 denc_u32 denc_le]. rewrite !length_le_bytes.
  pose proof (uuid_bytes_length u) as H. cbn [encode denc_u8 denc_le] in H. lia.
Qed.

Definition super_valid (s : bluefs_super_t) : Prop :=
  uuid_valid (s_uuid s) /\ uuid_valid (osd_uuid s) /\ uint 64 (version s) /\ uint 32 (block_size s) /\
  fields_valid (log_fnode s) /\ recalc_allocated (log_fnode s) = log_fnode s /\ zlen (encode denc_fnode (log_fnode s)) < 2 ^ 31.

Lemma super_lawful : lawful denc_super super_valid.
Proof.
  unfold denc_super.
  match goal with |- lawful (denc_struct _ _ ?d) _ => assert (lawful d super_valid) as Hb end.
  { constructor; intros [u o v b f]; unfold super_valid; cbn [encode decode bound_encode s_uuid osd_uuid version block_size log_fnode].
    - intros rest (? & ? & ? & ? & ? & ? & ?). read_field uuid_lawful. read_field uuid_lawful. read_field u64_lawful. read_field u32_lawful. read_field fnode_lawful. done.
    - intros (? & ? & ? & ? & ? & ? & ?). rewrite !length_app. bound_field uuid_lawful u. bound_field uuid_lawful o. bound_field u64_lawful v. bound_field u32_lawful b.
      bound_field fnode_lawful f. lia. }
  destruct (struct_lawful 1 1 _ _ ltac:(unfold uint; lia) ltac:(unfold uint; lia) Hb) as [H1 H2].
  constructor; intros x; intros; [apply H1|apply H2]; (split; [done|]); cbn [encode]; rewrite !length_app, !Nat2Z.inj_add; unfold super_valid in *;
    rewrite !uuid_length by tauto; cbn [encode denc_u64 denc_u32 denc_le]; rewrite !length_le_bytes; lia.
Qed.

Definition txn_valid (t : bluefs_transaction_t) : Prop := uuid_valid (uuid t) /\ uint 64 (seq t) /\ is_bytes (op_bl t) /\ zlen (op_bl t) < 2 ^ 31.

Lemma crc32c_range b : is_bytes b -> uint 32 (crc32c b).
Proof. intros Hb. apply Crc32.calc_crc32_range; [done|]. unfold uint, UINT32_MAX. lia. Qed.

Lemma transaction_lawful : lawful denc_transaction txn_valid.
Proof.
  unfold denc_transaction.
  match goal with |- lawful (denc_struct _ _ ?d) _ => assert (lawful d txn_valid) as Hb end.
  { constructor; intros [u s b]; unfold txn_valid; cbn [encode decode bound_encode uuid seq op_bl].
    - intros rest (? & ? & Hb & ?). pose proof (crc32c_range b Hb). read_field uuid_lawful. read_field u64_lawful. read_field string_lawful. read_field u32_lawful.
      by rewrite Z.eqb_refl.
    - intros (? & ? & Hb & ?). rewrite !length_app. bound_field uuid_lawful u. bound_field u64_lawful s. bound_field string_lawful b.
      cbn [encode denc_u32 denc_le]. rewrite length_le_bytes. cbn [bound_encode denc_u64 denc_le] in *. lia. }
  destruct (struct_lawful 1 1 _ _ ltac:(unfold uint; lia) ltac:(unfold uint; lia) Hb) as [H1 H2].
  constructor; intros x; intros; [apply H1|apply H2]; (split; [done|]); cbn [encode]; rewrite !length_app, !Nat2Z.inj_add; unfold txn_valid in *;
    rewrite !uuid_length by tauto; cbn [encode denc_string denc_u64 denc_u32 denc_le]; rewrite ?length_app, !length_le_bytes; lia.
Qed.


(** ** File nodes *)

(** Where the extents start, from the offset [a] on. *)
Fixpoint starts (a : Z) (l : list bluefs_extent_t) : list Z :=
  match l with [] => [] | e :: t => a :: starts (a + length e) t end.

Definition total (l : list bluefs_extent_t) : Z := sumZ length l.
#[global] Arguments total : simpl never.

(** An extent that may be appended. *)
Definition extent_ok (e : bluefs_extent_t) : Prop := 0 < length e < 2 ^ 32 /\ 0 <= offset e /\ offset e + length e < 2 ^ 64 /\ uint 8 (bdev e).

Record fnode_wf (f : bluefs_fnode_t) : Prop := {
  f_extents : Forall extent_ok (extents f);
  f_index : extents_index f = starts 0 (extents f);
  f_allocated : allocated f = total (extents f);
  f_small : total (extents f) < 2 ^ 63;
}.

Lemma total_nonneg l : Forall extent_ok l -> 0 <= total l.
Proof. intros Hl. apply sumZ_nonneg. eapply Forall_impl; [exact Hl|]. intros e (? & _). lia. Qed.
Lemma ext_total_app l1 l2 : total (l1 ++ l2) = total l1 + total l2.
Proof. apply sumZ_app. Qed.
Lemma ext_total_cons e l : total (e :: l) = length e + total l.
Proof. done. Qed.
Lemma starts_app a l1 l2 : starts a (l1 ++ l2) = starts a l1 ++ starts (a + total l1) l2.
Proof. revert a. induction l1 as [|e l1 IH]; intros a; simpl; [by rewrite Z.add_0_r|]. by rewrite IH, ext_total_cons, Z.add_assoc. Qed.
Lemma length_starts a l : List.length (starts a l) = List.length l.
Proof. revert a. induction l as [|e l IH]; intros a; simpl; [done|]. by rewrite IH. Qed.

(** The new list of extents. *)
Definition grow (l : bluefs_extent_t) (n : Z) : bluefs_extent_t := mk_extent (offset l) (length l + n) (bdev l).
Definition push (E : list bluefs_extent_t) (e : bluefs_extent_t) : list bluefs_extent_t :=
  match last E with
  | Some l => if can_merge l e then removelast E ++ [grow l (length e)] else E ++ [e]
  | None => E ++ [e]
  end.

Lemma can_merge_spec l e : extent_ok l -> extent_ok e -> can_merge l e = true <-> offset l + length l = offset e /\ bdev l = bdev e /\ length l + length e < 0xffffffff.
Proof. intros (? & ? & ? & _) (? & ? & ? & _). unfold can_merge, extent_end. rewrite !u64_small by lia. lia. Qed.

Lemma snoc_removelast {A} (E : list A) l : last E = Some l -> E = removelast E ++ [l].
Proof. intros H. by apply IntervalSet.last_snoc_inv in H. Qed.

Lemma oks_snoc I l : Forall extent_ok (I ++ [l]) <-> Forall extent_ok I /\ extent_ok l.
Proof. rewrite Forall_app, Forall_cons. intuition. Qed.

Lemma push_cases E e : Forall extent_ok E -> extent_ok e ->
  (exists I l, E = I ++ [l] /\ can_merge l e = true /\ push E e = I ++ [grow l (length e)] /\ extent_ok (grow l (length e))) \/
  (push E e = E ++ [e] /\ (E = [] \/ exists I l, E = I ++ [l] /\ can_merge l e = false)).
Proof.
  intros HE He. unfold push. destruct (last E) as [l|] eqn:El; [|right; split; [done|left; by apply last_None]].
  pose proof (snoc_removelast E l El) as EE. assert (extent_ok l) as Hl by (rewrite EE in HE; by apply oks_snoc in HE as [_ ?]).
  destruct (can_merge l e) eqn:Em; [left|right].
  - exists (removelast E), l. split; [done|]. split; [done|]. split; [done|]. apply can_merge_spec in Em as (? & ? & ?); [|done..].
    destruct Hl as (? & ? & ? & ?), He as (? & ? & ? & ?). unfold extent_ok, grow. simpl. split_and!; try done; lia.
  - split; [done|]. right. by exists (removelast E), l.
Qed.

Lemma append_extent_wf e f :
  fnode_wf f -> extent_ok e -> total (extents f) + length e < 2 ^ 63 ->
  fnode_wf (append_extent e f) /\ extents (append_extent e f) = push (extents f) e /\ total (push (extents f) e) = total (extents f) + length e.
Proof.
  intros [HE Hx Ha Hs] He Ht. pose proof (total_nonneg _ HE). pose proof He as (? & _). unfold append_extent, push. destruct (last (extents f)) as [l|] eqn:El.
  - pose proof (snoc_removelast _ l El) as EE. set (I := removelast (extents f)) in *. assert (Forall extent_ok I /\ extent_ok l) as [HI Hl].
    { rewrite EE in HE. by apply oks_snoc in HE. }
    destruct (can_merge l e) eqn:Em.
    + destruct (push_cases (extents f) e HE He) as [(I' & l' & E' & _ & _ & Hg)|[_ [E'|(I' & l' & E' & Em')]]].
      2: rewrite E' in El; done.
      2: rewrite E', last_snoc in El; congruence.
      rewrite E', last_snoc in El. injection El as ->. apply can_merge_spec in Em as (? & ? & ?); [|done..].
      assert (u32 (length l + length e) = length l + length e) as -> by (apply u32_small; destruct Hl as (? & _); lia). fold (grow l (length e)).
      assert (total (I ++ [grow l (length e)]) = total (extents f) + length e) as Et by (rewrite EE, !ext_total_app; unfold grow; rewrite !ext_total_cons; simpl; lia).
      split; [|split; [done|done]]. constructor; simpl.
      * by apply oks_snoc.
      * rewrite Hx, EE, !starts_app. done.
      * rewrite Ha, Et, u64_small by lia. done.
      * lia.
    + assert (total (extents f ++ [e]) = total (extents f) + length e) as Et by (rewrite ext_total_app, ext_total_cons; unfold total; simpl; lia).
      split; [|done]. constructor; simpl; [by apply oks_snoc|by rewrite Hx, Ha, starts_app|rewrite Ha, Et, u64_small; lia|lia].
  - assert (total (extents f ++ [e]) = total (extents f) + length e) as Et by (rewrite ext_total_app, ext_total_cons; unfold total; simpl; lia).
    split; [|done]. constructor; simpl; [by apply oks_snoc|by rewrite Hx, Ha, starts_app|rewrite Ha, Et, u64_small; lia|lia].
Qed.

(** The other fields stay. *)
Lemma append_extent_fields e f : 
  ino (append_extent e f) = ino f /\ size (append_extent e f) = size f /\ mtime (append_extent e f) = mtime f /\ unused_ (append_extent e f) = unused_ f /\
  allocated_committed (append_extent e f) = allocated_committed f.
Proof. unfold append_extent. by destruct (last (extents f)) as [l|]; [destruct (can_merge l e)|]. Qed.

Lemma claim_extents_wf es : forall f,
  fnode_wf f -> Forall extent_ok es -> total (extents f) + total es < 2 ^ 63 ->
  fnode_wf (claim_extents es f) /\ extents (claim_extents es f) = foldl push (extents f) es /\
  total (extents (claim_extents es f)) = total (extents f) + total es.
Proof.
  induction es as [|e es IH]; intros f Hf He Ht; [rewrite Z.add_0_r in *; done|]. apply Forall_cons in He as [He Hes]. rewrite ext_total_cons in Ht.
  pose proof (total_nonneg _ Hes). destruct (append_extent_wf e f Hf He ltac:(lia)) as (Hf' & Ee & Et). simpl.
  destruct (IH (append_extent e f) Hf' Hes) as (H1 & H2 & H3); [rewrite Ee; lia|]. unfold claim_extents in *. rewrite H2, Ee.
  split; [done|]. split; [done|]. rewrite <- Ee, <- H2, H3, Ee, Et, ext_total_cons. lia.
Qed.

Lemma claim_extents_fields es : forall f,
  ino (claim_extents es f) = ino f /\ size (claim_extents es f) = size f /\ mtime (claim_extents es f) = mtime f /\ unused_ (claim_extents es f) = unused_ f /\
  allocated_committed (claim_extents es f) = allocated_committed f.
Proof.
  induction es as [|e es IH]; intros f; [done|]. change (claim_extents (e :: es) f) with (claim_extents es (append_extent e f)). destruct (IH (append_extent e f)) as (-> & -> & -> & -> & ->). apply append_extent_fields.
Qed.

Lemma claim_allocated es : forall f, Forall extent_ok es -> 0 <= allocated f -> allocated f + total es < 2 ^ 64 ->
  allocated (claim_extents es f) = allocated f + total es.
Proof.
  induction es as [|e es IH]; intros f Hes Ha Ht; [change (total []) with 0; simpl; lia|]. apply Forall_cons in Hes as [(He & _) Hes]. rewrite ext_total_cons in *.
  pose proof (total_nonneg _ Hes). change (claim_extents (e :: es) f) with (claim_extents es (append_extent e f)).
  assert (allocated (append_extent e f) = allocated f + length e) as E.
  { unfold append_extent. rewrite u64_small by lia. by destruct (last (extents f)) as [l|]; [destruct (can_merge l e)|]. }
  rewrite IH, E by (done || lia). lia.
Qed.

(** Two nodes with the same extents and the same other fields. *)
Lemma fnode_wf_eq f g :
  fnode_wf f -> fnode_wf g -> extents f = extents g -> ino f = ino g -> size f = size g -> mtime f = mtime g -> unused_ f = unused_ g ->
  allocated_committed f = allocated_committed g -> f = g.
Proof. intros [_ Hx Ha _] [_ Gx Ga _] E. destruct f, g; simpl in *. intros. subst. done. Qed.

(** ** Seeking *)

(** The device and the byte on it of an offset in a list of extents. *)
Fixpoint phys (l : list bluefs_extent_t) (off : Z) : option (Z * Z) :=
  match l with
  | [] => None
  | e :: t => if off <? length e then Some (bdev e, offset e + off) else phys t (off - length e)
  end.

Lemma upper_bound_starts l : forall a off,
  Forall extent_ok l -> a <= off < a + total l ->
  exists idx e, index_upper_bound (starts a l) off = S idx /\ l !! idx = Some e /\ 0 <= off - nth idx (starts a l) 0 < length e /\
    phys l (off - a) = Some (bdev e, offset e + (off - nth idx (starts a l) 0)) /\ a <= nth idx (starts a l) 0.
Proof.
  induction l as [|e l IH]; intros a off Hl Ho; [unfold total in Ho; simpl in Ho; lia|].
  apply Forall_cons in Hl as [(He & _) Hl]. rewrite ext_total_cons in Ho. unfold index_upper_bound in *. simpl. destruct (Z.ltb_spec off a) as [|Hge]; [lia|].
  destruct (span (fun i => off <? i) (starts (a + length e) l)) as [x y] eqn:Es. simpl. destruct (Z.ltb_spec (off - a) (length e)) as [Hin|Hout].
  - exists 0%nat, e. assert (x = []) as ->.
    { destruct l as [|e' l]; simpl in Es; [by injection Es|]. destruct (Z.ltb_spec off (a + length e)); [by injection Es|lia]. }
    simpl. split; [done|]. split; [done|]. split; [lia|]. split; [done|lia].
  - destruct (IH (a + length e) off Hl ltac:(lia)) as (idx & e' & E & Hlk & Hr & Hp & Hlow). rewrite Es in E. simpl in E.
    exists (S idx), e'. split; [by rewrite E|]. split; [done|]. simpl. split; [done|]. split; [|lia]. by replace (off - a - length e) with (off - (a + length e)) by lia.
Qed.

(** ** Deltas *)

Lemma delta_app c l1 l2 : forall pos, 0 <= pos -> Forall extent_ok l1 -> Forall extent_ok l2 -> pos + total l1 + total l2 < 2 ^ 64 ->
  delta_extents c pos (l1 ++ l2) = delta_extents c pos l1 ++ delta_extents c (pos + total l1) l2.
Proof.
  induction l1 as [|e l1 IH]; intros pos Hp H1 H2 Ht; simpl; [by rewrite Z.add_0_r|]. apply Forall_cons in H1 as [(He & _) H1]. rewrite ext_total_cons in *.
  pose proof (total_nonneg _ H1). pose proof (total_nonneg _ H2). rewrite !u64_small by lia. destruct (pos + length e <=? c); [|simpl; f_equal]; rewrite IH by (done || lia); f_equal; f_equal; lia.
Qed.

(** The part of an extent behind its first [k] bytes. *)
Definition behind (e : bluefs_extent_t) (k : Z) : bluefs_extent_t := mk_extent (offset e + k) (length e - k) (bdev e).

Lemma delta_one c pos e : 0 <= pos -> 0 <= c -> pos + length e < 2 ^ 64 -> extent_ok e ->
  delta_extents c pos [e] = if pos + length e <=? c then [] else [behind e (Z.max 0 (c - pos))].
Proof.
  intros Hp Hc Ht (? & ? & ? & Hb). simpl. rewrite u64_small by lia. destruct (Z.leb_spec (pos + length e) c); [done|].
  destruct (Z.ltb_spec pos c); [|replace (Z.max 0 (c - pos)) with 0 by lia; simpl; unfold behind; by rewrite Z.add_0_r, Z.sub_0_r; destruct e].
  rewrite (u64_small (c - pos)) by lia. replace (Z.max 0 (c - pos)) with (c - pos) by lia. destruct (Z.eqb_spec (c - pos) 0); [lia|].
  unfold bluefs_extent, behind. unfold u8. rewrite !u64_small, u32_small, wrap_small by (done || lia). done.
Qed.

Lemma push_snoc I y e : push (I ++ [y]) e = if can_merge y e then I ++ [grow y (length e)] else (I ++ [y]) ++ [e].
Proof. unfold push. by rewrite last_snoc, removelast_last. Qed.

(** Appending a longer extent is appending a shorter one and then the rest. *)
Lemma push_grow F x e I l :
  Forall extent_ok F -> extent_ok x -> extent_ok e -> push F x = I ++ [l] -> can_merge l e = true -> can_merge x e = true ->
  push F (grow x (length e)) = push (push F x) e.
Proof.
  intros HF Hx He Ep Hm Hxe. pose proof Hx as (? & ? & ? & ?). pose proof He as (? & ? & ? & ?). apply can_merge_spec in Hxe as (? & ? & ?); [|done..].
  assert (extent_ok (grow x (length e))) as Hg by (unfold extent_ok, grow; simpl; split_and!; try done; lia).
  destruct (push_cases F x HF Hx) as [(I1 & y & -> & Hmy & Epush & Hgy)|[Epush HFy]]; rewrite Epush in *.
  - apply oks_snoc in HF as [HI Hy]. apply app_inj_2 in Ep as [<- [= <-]]; [|done]. pose proof Hy as (? & _). apply (can_merge_spec y) in Hmy as (? & ? & ?); [|done..].
    apply can_merge_spec in Hm as (A1 & A2 & A3); [|done..]. simpl in A1, A2, A3. rewrite !push_snoc.
    replace (can_merge y (grow x (length e))) with true by (symmetry; apply can_merge_spec; [done..|]; simpl; lia).
    replace (can_merge (grow y (length x)) e) with true by (symmetry; apply can_merge_spec; [done..|]; simpl; lia).
    unfold grow. simpl. do 3 f_equal. lia.
  - rewrite push_snoc. replace (can_merge x e) with true by (symmetry; apply can_merge_spec; [done..|]; lia).
    destruct HFy as [->|(I1 & y & -> & Hmy)]; [done|]. apply oks_snoc in HF as [HI Hy]. rewrite push_snoc.
    destruct (can_merge y (grow x (length e))) eqn:E; [|done]. exfalso. apply can_merge_spec in E as (A1 & A2 & A3); [|done..]. simpl in A1, A2, A3.
    assert (can_merge y x = true) as E' by (apply can_merge_spec; [done..|lia]). congruence.
Qed.

Lemma foldl_push_ok es : forall E, Forall extent_ok E -> Forall extent_ok es -> Forall extent_ok (foldl push E es).
Proof.
  induction es as [|e es IH]; intros E HE Hes; [done|]. apply Forall_cons in Hes as [He Hes]. apply IH; [|done].
  destruct (push_cases E e HE He) as [(I & l & -> & _ & -> & Hg)|[-> _]]; apply oks_snoc; [|done]. apply oks_snoc in HE as [HI _]. done.
Qed.

Lemma ext_total_snoc I l : total (I ++ [l]) = total I + length l.
Proof. rewrite ext_total_app, ext_total_cons. change (total []) with 0. lia. Qed.

Lemma total_push E e : Forall extent_ok E -> extent_ok e -> total (push E e) = total E + length e.
Proof.
  intros HE He. destruct (push_cases E e HE He) as [(I & l & -> & _ & -> & Hg)|[-> _]]; rewrite !ext_total_snoc; simpl; lia.
Qed.

Lemma delta_small c l : forall pos, 0 <= pos -> Forall extent_ok l -> pos + total l <= c -> c < 2 ^ 63 -> delta_extents c pos l = [].
Proof.
  induction l as [|x l IH]; intros pos Hp Hl Hle Hb; simpl; [done|]. apply Forall_cons in Hl as [(Hx & _) Hl]. rewrite ext_total_cons in Hle. pose proof (total_nonneg _ Hl).
  rewrite u64_small by lia. destruct (Z.leb_spec (pos + length x) c); [|lia]. apply IH; (done || lia).
Qed.

Lemma delta_snoc c I l : 0 <= c -> Forall extent_ok (I ++ [l]) -> total (I ++ [l]) < 2 ^ 63 ->
  delta_extents c 0 (I ++ [l]) = delta_extents c 0 I ++ (if total I + length l <=? c then [] else [behind l (Z.max 0 (c - total I))]).
Proof.
  intros Hc Hok Ht. rewrite ext_total_snoc in Ht. apply oks_snoc in Hok as [HI Hl]. pose proof (total_nonneg _ HI).
  rewrite delta_app, Z.add_0_l; [rewrite delta_one; [done|lia|done|lia|done]|lia|done|by apply Forall_singleton|].
  rewrite ext_total_cons. change (total []) with 0. lia.
Qed.

Lemma behind_zero e : behind e 0 = e.
Proof. unfold behind. rewrite Z.add_0_r, Z.sub_0_r. by destruct e. Qed.

Lemma behind_grow l n k : behind (grow l n) k = grow (behind l k) n.
Proof. unfold behind, grow. simpl. f_equal. lia. Qed.

Lemma behind_ok e k : extent_ok e -> 0 <= k < length e -> extent_ok (behind e k).
Proof. intros (? & ? & ? & ?) ?. unfold extent_ok, behind. simpl. split_and!; (done || lia). Qed.

Lemma delta_oks c l : 0 <= c -> Forall extent_ok l -> total l < 2 ^ 63 -> Forall extent_ok (delta_extents c 0 l).
Proof.
  intros Hc. induction l as [|x l IH] using rev_ind; intros Hl Ht; [constructor|]. rewrite delta_snoc by (done || lia).
  apply oks_snoc in Hl as [Hl Hx]. rewrite ext_total_snoc in Ht. pose proof Hx as (? & _). pose proof (total_nonneg _ Hl). apply Forall_app. split; [apply IH; (done || lia)|].
  destruct (Z.leb_spec (total l + length x) c); [constructor|]. apply Forall_singleton, behind_ok; (done || lia).
Qed.

Lemma total_foldl_push es : forall E, Forall extent_ok E -> Forall extent_ok es -> total (foldl push E es) = total E + total es.
Proof.
  induction es as [|e es IH]; intros E HE Hes; [change (total []) with 0; simpl; lia|]. apply Forall_cons in Hes as [He Hes]. simpl.
  rewrite IH; [|by apply (foldl_push_ok [e]); [|apply Forall_singleton]|done]. rewrite total_push, ext_total_cons by done. lia.
Qed.

(** The step of [delta_push]: [E] replays from its own delta, and so does [E]
    with one more extent. *)
Lemma delta_push_one E0 E e :
  Forall extent_ok E0 -> Forall extent_ok E -> extent_ok e -> total E0 <= total E -> total E + length e < 2 ^ 63 -> (total E = total E0 -> E = E0) ->
  foldl push E0 (delta_extents (total E0) 0 E) = E ->
  foldl push E0 (delta_extents (total E0) 0 (push E e)) = push E e.
Proof.
  intros H0 HokE He Hle Ht Hfirst HE. pose proof (total_nonneg _ H0) as Hc. pose proof He as (Hlen & _).
  pose proof (total_push E e HokE He) as HT'. pose proof (foldl_push_ok [e] E HokE (proj2 (Forall_singleton _ _) He)) as HokE'. simpl in HokE'.
  destruct (push_cases E e HokE He) as [(I & l & -> & Hm & Ep & Hg)|[Ep HEl]]; rewrite Ep in *; rewrite delta_snoc, foldl_app by (done || lia).
  - pose proof HokE as HokI. apply oks_snoc in HokI as [HI Hl]. pose proof (total_nonneg _ HI). pose proof Hl as (? & _). rewrite ext_total_snoc in *. rewrite delta_snoc, foldl_app in HE by (done || rewrite ext_total_snoc; lia).
    destruct (Z.leb_spec (total I + length (grow l (length e))) (total E0)) as [Hx|_]; [simpl in Hx; lia|]. simpl foldl at 1.
    set (k := Z.max 0 (total E0 - total I)) in *. destruct (Z.leb_spec (total I + length l) (total E0)) as [Hs|Hs].
    + replace (I ++ [l]) with E0 in * by (symmetry; apply Hfirst; lia). rewrite delta_small by (done || lia). simpl.
      replace (behind (grow l (length e)) k) with e; [done|]. apply can_merge_spec in Hm as (? & ? & ?); [|done..].
      replace k with (length l) by lia. unfold behind, grow. simpl. destruct e; simpl in *. f_equal; (done || lia).
    + simpl in HE |- *. rewrite behind_grow, (push_grow _ (behind l k) e I l), HE by
        (done || (by apply foldl_push_ok; [|apply delta_oks; (done || lia)]) || (apply behind_ok; (done || lia))
         || (apply can_merge_spec in Hm as (? & ? & ?); [|done..]; apply can_merge_spec; [apply behind_ok; (done || lia)|done|]; simpl; lia)).
      done.
  - pose proof (total_nonneg _ HokE). destruct (Z.leb_spec (total E + length e) (total E0)); [lia|].
    replace (Z.max 0 (total E0 - total E)) with 0 by lia. rewrite behind_zero, HE. simpl. done.
Qed.

(** What is appended to the committed extents [E0] is what [make_delta] finds
    behind them. *)
Lemma delta_push E0 es :
  Forall extent_ok E0 -> Forall extent_ok es -> total E0 + total es < 2 ^ 63 ->
  let E := foldl push E0 es in
  foldl push E0 (delta_extents (total E0) 0 E) = E /\ total E = total E0 + total es.
Proof.
  intros H0. induction es as [|e es IH] using rev_ind; intros Hes Ht.
  { simpl in *. change (total []) with 0 in *. rewrite delta_small by (done || lia). split; [done|lia]. }
  apply oks_snoc in Hes as [Hes He]. rewrite ext_total_snoc in *. pose proof He as (Hlen & _). pose proof (total_nonneg _ Hes).
  destruct (IH Hes ltac:(lia)) as (HE & HT). cbv zeta. rewrite foldl_snoc.
  assert (Forall extent_ok (foldl push E0 es)) as HokE by (by apply foldl_push_ok). split; [|rewrite total_push by done; lia].
  apply delta_push_one; try done; [lia|lia|]. intros Heq. destruct es as [|e1 es]; [done|]. apply Forall_cons in Hes as [(? & _) Hes]. pose proof (total_nonneg _ Hes).
  rewrite HT, ext_total_cons in Heq. lia.
Qed.

(** C38: [seek] splits an offset exactly, in a file node whose extents are not
    empty and whose allocated length and table of starts are those of its extents:
    it fails only at and behind the allocated length, and otherwise names the extent, and the offset in it, of
    the byte the list of extents puts at that offset. *)
Theorem seek_correct (f : bluefs_fnode_t) (off : Z) :
  fnode_wf f -> 0 <= off ->
  match seek off f with
  | None => allocated f <= off
  | Some (idx, x_off) => exists e, extents f !! idx = Some e /\ 0 <= x_off < length e /\ phys (extents f) off = Some (bdev e, offset e + x_off)
  end.
Proof.
  intros [HE Hx Ha Hs] Ho. pose proof (total_nonneg _ HE). unfold seek. rewrite Ha, Hx. destruct (extents f) as [|e0 E0] eqn:EE; [done|]. rewrite <- EE in *.
  destruct (Z.leb_spec (total (extents f)) off); [done|].
  destruct (upper_bound_starts (extents f) 0 off HE ltac:(lia)) as (idx & e & -> & Hlk & Hr & Hp & Hlow). exists e. pose proof (Forall_lookup_1 _ _ _ _ HE Hlk) as (? & _).
  rewrite u64_small by lia. rewrite Z.sub_0_r in Hp. done.
Qed.

(** C33: the delta that is logged for a file carries what was appended since the
    last one: appended to the file node as it was logged before, it gives the
    node as it is now, however the appended extents merged with the old ones. *)
Theorem delta_replays (f0 : bluefs_fnode_t) (es : list bluefs_extent_t) :
  fnode_wf f0 -> allocated_committed f0 = allocated f0 -> Forall extent_ok es -> total (extents f0) + total es < 2 ^ 63 ->
  let f := claim_extents es f0 in
  d_offset (make_delta f) = allocated f0 /\ claim_extents (d_extents (make_delta f)) f0 = f.
Proof.
  intros Hf Hc Hes Ht. cbv zeta. pose proof (claim_extents_fields es f0) as (F1 & F2 & F3 & F4 & F5). destruct (claim_extents_wf es f0 Hf Hes Ht) as (Hw & Ee & Et).
  pose proof (total_nonneg _ (f_extents _ Hf)). unfold make_delta. simpl. rewrite F5, Hc. split; [done|]. rewrite (f_allocated _ Hf).
  destruct (delta_push (extents f0) es (f_extents _ Hf) Hes Ht) as (HD & HT). rewrite <- Ee in HD.
  set (ds := delta_extents (total (extents f0)) 0 (extents (claim_extents es f0))) in *.
  assert (Forall extent_ok ds) as Hds by (apply delta_oks; [lia|apply Hw|apply Hw]).
  assert (total ds = total es) as Eds.
  { pose proof (total_foldl_push ds (extents f0) (f_extents _ Hf) Hds) as E. rewrite HD, Et in E. lia. }
  destruct (claim_extents_wf ds f0 Hf Hds ltac:(lia)) as (Gw & Ge & Gt). pose proof (claim_extents_fields ds f0) as (G1 & G2 & G3 & G4 & G5).
  apply fnode_wf_eq; try done; congruence.
Qed.

(** ** The copy constructor *)

(** Copying a file node counts its extents twice: the copy starts from the
    allocated length of the original and appends every extent again, so that
    its length, and every entry of its index, is off by the whole file. *)
Theorem fnode_copy_doubles (f : bluefs_fnode_t) :
  fnode_wf f -> allocated f < 2 ^ 62 -> allocated (fnode_copy f) = 2 * allocated f.
Proof.
  intros Hf Hb. unfold fnode_copy, clone_extents. rewrite (f_allocated _ Hf) in *. pose proof (total_nonneg _ (f_extents _ Hf)).
  rewrite claim_allocated; simpl; [lia|apply Hf|lia|lia].
Qed.

(** ** Witnesses *)

Definition demo_node : bluefs_fnode_t := reset_delta (append_extent (mk_extent 4096 4096 1) (fnode 7 0 0)).
Definition demo_added : list bluefs_extent_t := [mk_extent 8192 4096 1; mk_extent 65536 8192 1].

Lemma demo_node_wf : fnode_wf demo_node.
Proof. constructor; [|done..]. by repeat constructor. Defined.
Lemma demo_added_ok : Forall extent_ok demo_added.
Proof. by repeat constructor. Defined.

Lemma seek_correct_witness : exists e, extents demo_node !! 0%nat = Some e /\ 0 <= 100 < length e /\ phys (extents demo_node) 100 = Some (bdev e, offset e + 100).
Proof. exact (seek_correct demo_node 100 demo_node_wf ltac:(lia)). Defined.

Lemma delta_replays_witness : claim_extents (d_extents (make_delta (claim_extents demo_added demo_node))) demo_node = claim_extents demo_added demo_node.
Proof. exact (proj2 (delta_replays demo_node demo_added demo_node_wf eq_refl demo_added_ok eq_refl)). Defined.

Lemma fnode_copy_doubles_witness : allocated (fnode_copy demo_node) = 2 * allocated demo_node.
Proof. exact (fnode_copy_doubles demo_node demo_node_wf eq_refl). Defined.
End BluefsTypesSpec.
