(* ===== verification/VolumeSelector.v ===== *)
(** * bluefs/bluefs_volume_selector.{h,cc}: which device a file goes to

    A selector maps a directory to a hint, a hint to the device that is tried
    first, and is told what space the files of a hint use.  The abstract class is
    [VolumeSelector]; [None] is a failed assertion or an access outside an array.
    [SelectorSpec] is what its clients may rely on: what was added can be taken
    back. *)
From stdpp Require Import base numbers list gmap.
From Stdlib Require Import ZArith Lia ZifyBool SpecFloat.
From S2P Require Import Prelude Floats BluefsTypes.
Import Floats BluefsTypes.

Module VolumeSelector.

Definition BDEV_WAL : Z := 0.
Definition BDEV_DB : Z := 1.
Definition BDEV_SLOW : Z := 2.
Definition MAX_BDEV : Z := 3.

Definition RDB_LEVEL_FIRST : Z := 1.
Definition RDB_LEVEL_LOG : Z := RDB_LEVEL_FIRST.
Definition RDB_LEVEL_WAL : Z := 2.
Definition RDB_LEVEL_DB : Z := 3.
Definition RDB_LEVEL_SLOW : Z := 4.
Definition RDB_LEVEL_MAX : Z := 5.

Definition nullptr : Z := 0.

(** A hint is a [void *] that holds a small number. *)
Class VolumeSelector (V : Type) := {
  get_hint_for_log : V -> Z;
  get_hint_by_dir : bytes -> V -> Z;
  add_usage_extent : Z -> bluefs_extent_t -> V -> option V;
  sub_usage_extent : Z -> bluefs_extent_t -> V -> option V;
  add_usage_size : Z -> Z -> bool -> V -> option V;
  sub_usage_size : Z -> Z -> bool -> V -> option V;
  select_prefer_bdev : Z -> V -> option Z;
  get_paths : bytes -> V -> list (bytes * Z);
  get_avail_by_bdev : Z -> V -> Z;
}.

(** The loops over the extents of a file node. *)
Fixpoint add_usage_extents `{VolumeSelector V} (hint : Z) (l : list bluefs_extent_t) (v : V) : option V :=
  match l with [] => Some v | e :: t => v ← add_usage_extent hint e v; add_usage_extents hint t v end.
Fixpoint sub_usage_extents `{VolumeSelector V} (hint : Z) (l : list bluefs_extent_t) (v : V) : option V :=
  match l with [] => Some v | e :: t => v ← sub_usage_extent hint e v; sub_usage_extents hint t v end.

Definition add_usage `{VolumeSelector V} (hint : Z) (f : bluefs_fnode_t) (v : V) : option V :=
  v ← add_usage_extents hint (extents f) v; add_usage_size hint (size f) true v.
Definition sub_usage `{VolumeSelector V} (hint : Z) (f : bluefs_fnode_t) (v : V) : option V :=
  v ← sub_usage_extents hint (extents f) v; sub_usage_size hint (size f) true v.

(** ** The selectors that do not track usage *)

Definition dot_slow : bytes := [46; 115; 108; 111; 119].
Definition dot_wal : bytes := [46; 119; 97; 108].

(** [dirname.compare(dirname.size() - n, n, s) == 0]. *)
Definition ends_with (s dirname : bytes) : bool := bool_decide (drop (List.length dirname - List.length s) dirname = s).

Record original_selector := mk_original { wal_total_ : Z; db_total_ : Z; slow_total_ : Z }.

Definition original_hint_by_dir (dirname : bytes) (v : original_selector) : Z :=
  if (5 <? List.length dirname)%nat then
    if (5 <=? List.length dirname)%nat && ends_with dot_slow dirname && (0 <? slow_total_ v) then BDEV_SLOW
    else if (4 <=? List.length dirname)%nat && ends_with dot_wal dirname && (0 <? wal_total_ v) then BDEV_WAL
    else BDEV_DB
  else BDEV_DB.

Definition original_paths (base : bytes) (v : original_selector) : list (bytes * Z) :=
  [(base, db_total_ v); (base ++ dot_slow, if slow_total_ v =? 0 then db_total_ v else slow_total_ v)].

Definition original_avail (bdev : Z) (v : original_selector) : Z :=
  if bdev =? BDEV_WAL then wal_total_ v
  else if bdev =? BDEV_DB then db_total_ v
  else if bdev =? BDEV_SLOW then slow_total_ v
  else 0.

#[global] Instance OriginalVolumeSelector : VolumeSelector original_selector := {|
  get_hint_for_log _ := BDEV_WAL;
  get_hint_by_dir := original_hint_by_dir;
  add_usage_extent _ _ v := Some v;
  sub_usage_extent _ _ v := Some v;
  add_usage_size _ _ _ v := Some v;
  sub_usage_size _ _ _ v := Some v;
  select_prefer_bdev hint _ := Some (u8 hint);
  get_paths := original_paths;
  get_avail_by_bdev := original_avail;
|}.

(** [FitToFastVolumeSelector] inherits all but [get_paths]. *)
Record fit_to_fast_selector := mk_fit { fit_base : original_selector }.

#[global] Instance FitToFastVolumeSelector : VolumeSelector fit_to_fast_selector := {|
  get_hint_for_log v := get_hint_for_log (fit_base v);
  get_hint_by_dir d v := get_hint_by_dir d (fit_base v);
  add_usage_extent _ _ v := Some v;
  sub_usage_extent _ _ v := Some v;
  add_usage_size _ _ _ v := Some v;
  sub_usage_size _ _ _ v := Some v;
  select_prefer_bdev hint v := select_prefer_bdev hint (fit_base v);
  get_paths base _ := [(base, 1)];
  get_avail_by_bdev b v := get_avail_by_bdev b (fit_base v);
|}.

(** ** The selector that tracks usage per level and device *)

Definition LEVELS : Z := RDB_LEVEL_MAX - RDB_LEVEL_FIRST + 1.
Definition BDEVS : Z := MAX_BDEV + 1.

(** A two-dimensional array of counters, all 0 at first. *)
Abbreviation table := (gmap (Z * Z) Z).
Definition cell (t : table) (b l : Z) : Z := default 0 (t !! (b, l)).

Record rocksdb_selector := mk_rocksdb {
  usage_ : table;
  max_usage_ : table;
  per_level_files_ : gmap Z Z;
  l_totals_ : Z -> Z;
  db_avail4slow_ : Z;
  level0_size_ : Z;
  level_base_ : Z;
  level_multiplier_ : Z;
}.

Definition set_usage (u m : table) (v : rocksdb_selector) : rocksdb_selector :=
  mk_rocksdb u m (per_level_files_ v) (l_totals_ v) (db_avail4slow_ v) (level0_size_ v) (level_base_ v) (level_multiplier_ v).
Definition set_files (f : gmap Z Z) (v : rocksdb_selector) : rocksdb_selector :=
  mk_rocksdb (usage_ v) (max_usage_ v) f (l_totals_ v) (db_avail4slow_ v) (level0_size_ v) (level_base_ v) (level_multiplier_ v).

(** The array [l_totals_]. *)
Definition totals (wal_total db_total slow_total l : Z) : Z :=
  if l =? RDB_LEVEL_WAL - RDB_LEVEL_FIRST then wal_total
  else if l =? RDB_LEVEL_DB - RDB_LEVEL_FIRST then db_total
  else if l =? RDB_LEVEL_SLOW - RDB_LEVEL_FIRST then slow_total
  else 0.

(** An iteration of the loop of the constructor: the levels before the current
    one, the current one, and the threshold; the result is the threshold. *)
Definition level_step (db_total level_multiplier : Z) (s : Z * Z * Z) : (Z * Z * Z) + Z :=
  let '(prev_levels, cur_level, cur_threshold) := s in
  let next_level := cur_level *64 level_multiplier in
  let next_threshold := prev_levels +64 cur_level +64 next_level in
  if db_total <=? next_threshold then inr cur_threshold
  else inl (prev_levels +64 cur_level, next_level, next_threshold).

Definition level_threshold (db_total level0_size level_base level_multiplier : Z) : option Z :=
  while (level_step db_total level_multiplier) 64 (level0_size, level_base, level0_size +64 level_base).

Definition dmul : spec_float -> spec_float -> spec_float := SFmul 53 1024.

(** [static_cast<uint64_t>] of a [double]. *)
Definition u64_of_double (d : spec_float) : option Z :=
  match d with
  | S754_zero _ => Some 0
  | S754_finite s m e =>
      let z := Z.shiftl (Z.pos m) e in
      if s then (if z =? 0 then Some 0 else None) else if z <? 2 ^ 64 then Some z else None
  | _ => None
  end.

(** The constructor. *)
Definition rocksdb_new (wal_total db_total slow_total level0_size level_base level_multiplier : Z) (reserved_factor : spec_float) (reserved : Z) (use_db_extra : bool) :
  option rocksdb_selector :=
  let new a l0 lb lm := mk_rocksdb ∅ ∅ ∅ (totals wal_total db_total slow_total) a l0 lb lm in
  if negb use_db_extra then Some (new 0 0 0 0)
  else if reserved =? 0 then
    cur_threshold ← level_threshold db_total level0_size level_base level_multiplier;
    cur_threshold ← u64_of_double (dmul (to_double cur_threshold) reserved_factor);
    Some (new (if cur_threshold <? db_total then db_total -64 cur_threshold else 0) level0_size level_base level_multiplier)
  else Some (new (if reserved <? db_total then db_total -64 reserved else 0) 0 0 0).

Definition rocksdb_hint_by_dir (dirname : bytes) : Z :=
  if (5 <? List.length dirname)%nat then
    if (5 <=? List.length dirname)%nat && ends_with dot_slow dirname then RDB_LEVEL_SLOW
    else if (4 <=? List.length dirname)%nat && ends_with dot_wal dirname then RDB_LEVEL_WAL
    else RDB_LEVEL_DB
  else RDB_LEVEL_DB.

Definition hint_to_level (hint : Z) : Z := u8 hint.

(** [fetch_add] on a counter. *)
Definition fetch_add (b l n : Z) (v : rocksdb_selector) : rocksdb_selector :=
  set_usage (<[(b, l) := cell (usage_ v) b l +64 n]> (usage_ v)) (max_usage_ v) v.
Definition fetch_sub (b l n : Z) (v : rocksdb_selector) : rocksdb_selector :=
  set_usage (<[(b, l) := cell (usage_ v) b l -64 n]> (usage_ v)) (max_usage_ v) v.

Definition update_max (b l : Z) (v : rocksdb_selector) : rocksdb_selector :=
  let m := Z.max (cell (max_usage_ v) b l) (cell (usage_ v) b l) in
  set_usage (usage_ v) (<[(b, l) := m]> (max_usage_ v)) v.

(** [hint - RDB_LEVEL_FIRST] as an index into an array of [LEVELS]. *)
Definition level_pos (hint : Z) : option Z :=
  let pos := hint -64 RDB_LEVEL_FIRST in if pos <? LEVELS then Some pos else None.

Definition rocksdb_add_extent (hint : Z) (e : bluefs_extent_t) (v : rocksdb_selector) : option rocksdb_selector :=
  if hint =? nullptr then Some v
  else if negb (bdev e <? BDEVS) then None
  else
    pos ← level_pos hint;
    let v := update_max (bdev e) pos (fetch_add (bdev e) pos (length e) v) in
    Some (update_max (bdev e) (LEVELS - 1) (fetch_add (bdev e) (LEVELS - 1) (length e) v)).

Definition rocksdb_sub_extent (hint : Z) (e : bluefs_extent_t) (v : rocksdb_selector) : option rocksdb_selector :=
  if hint =? nullptr then Some v
  else if negb (bdev e <? BDEVS) then None
  else
    pos ← level_pos hint;
    if cell (usage_ v) (bdev e) pos <? length e then None
    else
      let v := fetch_sub (bdev e) pos (length e) v in
      if cell (usage_ v) (bdev e) (LEVELS - 1) <? length e then None
      else Some (fetch_sub (bdev e) (LEVELS - 1) (length e) v).

(** [++] and [--] on the number of files of a level. *)
Definition files_at (v : rocksdb_selector) (l : Z) : Z := default 0 (per_level_files_ v !! l).
Definition inc_files (l : Z) (v : rocksdb_selector) : rocksdb_selector := set_files (<[l := files_at v l +64 1]> (per_level_files_ v)) v.
Definition dec_files (l : Z) (v : rocksdb_selector) : option rocksdb_selector :=
  if 0 <? files_at v l then Some (set_files (<[l := files_at v l -64 1]> (per_level_files_ v)) v) else None.

Definition rocksdb_add_size (hint fsize : Z) (upd_files : bool) (v : rocksdb_selector) : option rocksdb_selector :=
  if hint =? nullptr then Some v
  else
    pos ← level_pos hint;
    let v := update_max MAX_BDEV pos (fetch_add MAX_BDEV pos fsize v) in
    Some (if upd_files then inc_files (LEVELS - 1) (inc_files pos v) else v).

Definition rocksdb_sub_size (hint fsize : Z) (upd_files : bool) (v : rocksdb_selector) : option rocksdb_selector :=
  if hint =? nullptr then Some v
  else
    pos ← level_pos hint;
    if cell (usage_ v) MAX_BDEV pos <? fsize then None
    else
      let v := fetch_sub MAX_BDEV pos fsize v in
      if upd_files then v ← dec_files pos v; dec_files (LEVELS - 1) v else Some v.

Definition rocksdb_select (h : Z) (v : rocksdb_selector) : option Z :=
  if h =? nullptr then None
  else
    let level := hint_to_level h in
    if level =? RDB_LEVEL_SLOW then
      if 0 <? db_avail4slow_ v then
        let max_at b l := cell (max_usage_ v) b (l - RDB_LEVEL_FIRST) in
        let max_db_use := max_at BDEV_DB RDB_LEVEL_LOG +64 max_at BDEV_DB RDB_LEVEL_WAL +64 max_at BDEV_DB RDB_LEVEL_DB +64 max_at BDEV_SLOW RDB_LEVEL_DB in
        let db_total := l_totals_ v (RDB_LEVEL_DB - RDB_LEVEL_FIRST) in
        let avail := Z.min (db_avail4slow_ v) (if max_db_use <? db_total then db_total -64 max_db_use else 0) in
        Some (if cell (usage_ v) BDEV_DB (RDB_LEVEL_SLOW - RDB_LEVEL_FIRST) <? avail then BDEV_DB else BDEV_SLOW)
      else Some BDEV_SLOW
    else if (level =? RDB_LEVEL_LOG) || (level =? RDB_LEVEL_WAL) then Some BDEV_WAL
    else Some BDEV_DB.

Definition rocksdb_paths (base : bytes) (v : rocksdb_selector) : list (bytes * Z) :=
  let db_size := l_totals_ v (RDB_LEVEL_DB - RDB_LEVEL_FIRST) in
  let slow_size := l_totals_ v (RDB_LEVEL_SLOW - RDB_LEVEL_FIRST) in
  [(base, db_size); (base ++ dot_slow, if slow_size =? 0 then db_size else slow_size)].

Definition rocksdb_avail (bdev : Z) (v : rocksdb_selector) : Z :=
  let avail level :=
    let total := l_totals_ v (level - RDB_LEVEL_FIRST) in
    let used := cell (usage_ v) bdev (LEVELS - 1) in
    if used <? total then total -64 used else 0 in
  if bdev =? BDEV_WAL then avail RDB_LEVEL_WAL
  else if bdev =? BDEV_DB then avail RDB_LEVEL_DB
  else if bdev =? BDEV_SLOW then avail RDB_LEVEL_SLOW
  else 0.

Definition get_level_usage (level bdev : Z) (v : rocksdb_selector) : Z := cell (usage_ v) bdev (level - RDB_LEVEL_FIRST).

#[global] Instance RocksDBBlueFSVolumeSelector : VolumeSelector rocksdb_selector := {|
  get_hint_for_log _ := RDB_LEVEL_LOG;
  get_hint_by_dir d _ := rocksdb_hint_by_dir d;
  add_usage_extent := rocksdb_add_extent;
  sub_usage_extent := rocksdb_sub_extent;
  add_usage_size := rocksdb_add_size;
  sub_usage_size := rocksdb_sub_size;
  select_prefer_bdev := rocksdb_select;
  get_paths := rocksdb_paths;
  get_avail_by_bdev := rocksdb_avail;
|}.

(** A directory name, and a file that is added and taken back. *)
Example selector_smoke :
  let f := append_extent (mk_extent 4096 8192 1) (set_size 5000 (fnode 7 0 0)) in
  rocksdb_hint_by_dir [100; 98; 46; 119; 97; 108] = RDB_LEVEL_WAL /\
  (v ← rocksdb_new 0 (2 ^ 30) 0 0 0 0 (to_double 0) 0 false;
   v ← add_usage RDB_LEVEL_DB f v;
   w ← sub_usage RDB_LEVEL_DB f v;
   Some (get_level_usage RDB_LEVEL_DB 1 v, get_level_usage RDB_LEVEL_DB 3 v, get_avail_by_bdev BDEV_DB v, get_level_usage RDB_LEVEL_DB 1 w, files_at w 2))
  = Some (8192, 5000, 2 ^ 30 - 8192, 0, 0).
Proof. vm_compute. done. Qed.
End VolumeSelector.
