(* ===== verification/VolumeSelectorSpec.v ===== *)
(** * What a volume selector counts, and when its constructor ends

    The tracking selector counts, per level and device, exactly the space of the
    files it was told of, and its assertions hold as long as only what was added
    is taken back.  The loop of its constructor ends exactly when the sizes of
    the levels grow or already reach the device. *)
From stdpp Require Import base numbers list gmap.
From Stdlib Require Import ZArith Lia ZifyBool SpecFloat.
From S2P Require Import Prelude BluefsTypes BluefsTypesSpec VolumeSelector.
Import BluefsTypes BluefsTypesSpec VolumeSelector.

Module VolumeSelectorSpec.

(** A file with its hint. *)
Abbreviation entry := (Z * bluefs_fnode_t)%type.

(** A file that may be tracked: it lies on the three devices. *)
Definition entry_ok (x : entry) : Prop :=
  0 <= x.1 < RDB_LEVEL_MAX /\ 0 <= size x.2 /\ Forall (fun e => 0 <= length e /\ 0 <= bdev e < MAX_BDEV) (extents x.2).
#[global] Instance entry_ok_dec x : Decision (entry_ok x).
Proof. unfold entry_ok. apply _. Defined.

(** The bytes of a list of extents on a device. *)
Definition bytes_on (b : Z) (l : list bluefs_extent_t) : Z := sumZ (fun e => if bdev e =? b then length e else 0) l.

(** What an entry adds to a counter: to the row of every device the space on it,
    in the column of its level and in the last one, and to the last row its size. *)
Definition share (b l : Z) (x : entry) : Z :=
  if x.1 =? 0 then 0
  else if b =? MAX_BDEV then (if l =? x.1 - 1 then size x.2 else 0)
  else if (l =? x.1 - 1) || (l =? LEVELS - 1) then bytes_on b (extents x.2) else 0.
Definition file_share (l : Z) (x : entry) : Z :=
  if x.1 =? 0 then 0 else if (l =? x.1 - 1) || (l =? LEVELS - 1) then 1 else 0.
Definition weight (x : entry) : Z := total (extents x.2) + size x.2 + 1.

(** What a selector promises: files can be added, and what was added can be
    taken back. *)
Class SelectorSpec (V : Type) `{VolumeSelector V} := {
  tracks : V -> list entry -> Prop;
  add_tracks v l x : tracks v l -> entry_ok x -> sumZ weight (x :: l) < 2 ^ 64 -> exists v', add_usage x.1 x.2 v = Some v' /\ tracks v' (x :: l);
  sub_tracks v l l' x : tracks v l -> l ≡ₚ x :: l' -> exists v', sub_usage x.1 x.2 v = Some v' /\ tracks v' l';
}.

(** ** The selectors that do not track *)

Lemma sub_extents_id `{VolumeSelector V} h l : forall v : V, (forall e v, sub_usage_extent h e v = Some v) -> sub_usage_extents h l v = Some v.
Proof. induction l as [|e l IH]; intros v Hs; simpl; [done|]. rewrite Hs. by apply IH. Qed.
Lemma add_extents_id `{VolumeSelector V} h l : forall v : V, (forall e v, add_usage_extent h e v = Some v) -> add_usage_extents h l v = Some v.
Proof. induction l as [|e l IH]; intros v Hs; simpl; [done|]. rewrite Hs. by apply IH. Qed.

#[global] Program Instance original_spec : SelectorSpec original_selector := {| tracks _ _ := True |}.
Next Obligation. intros v l x _ _ _. exists v. unfold add_usage. rewrite add_extents_id by done. done. Qed.
Next Obligation. intros v l l' x _ _. exists v. unfold sub_usage. rewrite sub_extents_id by done. done. Qed.

(** ** The selector that tracks *)

Record counts (v : rocksdb_selector) (l : list entry) : Prop := {
  c_usage b p : cell (usage_ v) b p = sumZ (share b p) l;
  c_files p : files_at v p = sumZ (file_share p) l;
  c_ok : Forall entry_ok l;
  c_small : sumZ weight l < 2 ^ 64;
}.

Lemma cell_insert t b p x b' p' : cell (<[(b, p) := x]> t) b' p' = if (b' =? b) && (p' =? p) then x else cell t b' p'.
Proof.
  unfold cell. destruct (Z.eqb_spec b' b) as [->|], (Z.eqb_spec p' p) as [->|]; simpl; [by rewrite lookup_insert_eq|..]; rewrite lookup_insert_ne by congruence; done.
Qed.

Lemma level_pos_ok h : 0 < h < RDB_LEVEL_MAX -> level_pos h = Some (h - 1).
Proof.
  unfold RDB_LEVEL_MAX, level_pos. change RDB_LEVEL_FIRST with 1. change LEVELS with 5. intros Hh. rewrite u64_small by lia. cbv zeta.
  by destruct (Z.ltb_spec (h - 1) 5); [|lia].
Qed.

Lemma bytes_on_cons b e l : bytes_on b (e :: l) = (if bdev e =? b then length e else 0) + bytes_on b l.
Proof. done. Qed.
Lemma bytes_on_bounds b l : Forall (fun e => 0 <= length e /\ 0 <= bdev e < MAX_BDEV) l -> 0 <= bytes_on b l <= total l.
Proof.
  induction 1 as [|e l [He _] _ IH]; [done|]. rewrite bytes_on_cons, ext_total_cons. destruct (_ =? _); lia.
Qed.
Lemma bytes_on_none b l : Forall (fun e => 0 <= length e /\ 0 <= bdev e < MAX_BDEV) l -> MAX_BDEV <= b -> bytes_on b l = 0.
Proof. intros Hl Hb. induction Hl as [|e l [_ He] _ IH]; [done|]. rewrite bytes_on_cons. destruct (Z.eqb_spec (bdev e) b); lia. Qed.

(** The counters that extents of the level at [p] change. *)
Definition in_columns (p q : Z) : bool := (q =? p) || (q =? LEVELS - 1).

Lemma add_extents_counts h l : forall v,
  0 < h < RDB_LEVEL_MAX -> Forall (fun e => 0 <= length e /\ 0 <= bdev e < MAX_BDEV) l ->
  (forall b q, 0 <= cell (usage_ v) b q) -> (forall b q, cell (usage_ v) b q + bytes_on b l < 2 ^ 64) ->
  exists v', add_usage_extents h l v = Some v' /\ per_level_files_ v' = per_level_files_ v /\
    forall b q, cell (usage_ v') b q = cell (usage_ v) b q + (if in_columns (h - 1) q then bytes_on b l else 0).
Proof.
  induction l as [|e l IH]; intros v Hh Hl H0 Hs.
  { exists v. split; [done|]. split; [done|]. intros. change (bytes_on b []) with 0. destruct (in_columns (h - 1) q); lia. }
  apply Forall_cons in Hl as [[He Hb] Hl]. cbn [add_usage_extents add_usage_extent RocksDBBlueFSVolumeSelector]. unfold rocksdb_add_extent.
  destruct (Z.eqb_spec h nullptr) as [E|_]; [unfold nullptr in E; lia|]. destruct (Z.ltb_spec (bdev e) BDEVS) as [_|E]; [|unfold BDEVS in E; lia]. cbn [negb].
  rewrite level_pos_ok by done. cbn [mbind option_bind].
  set (v1 := update_max _ _ (fetch_add _ _ _ (update_max _ _ _))).
  assert (forall b q, cell (usage_ v1) b q = cell (usage_ v) b q + (if in_columns (h - 1) q then if bdev e =? b then length e else 0 else 0)) as Hv1.
  { intros b q. unfold v1, update_max, fetch_add, in_columns. cbn [usage_ set_usage]. rewrite !cell_insert. change (LEVELS - 1) with 4 in *. unfold RDB_LEVEL_MAX in Hh.
    pose proof (Hs (bdev e) (h - 1)) as S1. pose proof (Hs (bdev e) 4) as S2. rewrite bytes_on_cons, Z.eqb_refl in S1, S2. pose proof (bytes_on_bounds (bdev e) l Hl).
    pose proof (H0 (bdev e) (h - 1)). pose proof (H0 (bdev e) 4).
    destruct (Z.eqb_spec b (bdev e)) as [->|Hn], (Z.eqb_spec q 4) as [->|Hq]; cbn [andb orb]; rewrite ?Z.eqb_refl.
    - destruct (Z.eqb_spec 4 (h - 1)); [lia|]. cbn [orb andb]. rewrite u64_small by lia. done.
    - destruct (Z.eqb_spec q (h - 1)) as [->|]; cbn [orb andb]; [|lia]. rewrite u64_small by lia. done.
    - destruct (Z.eqb_spec (bdev e) b); [lia|]. destruct (_ || _); lia.
    - destruct (Z.eqb_spec (bdev e) b); [lia|]. destruct (_ || _); lia. }
  destruct (IH v1 Hh Hl) as (v' & Ev & Ef & Hv').
  { intros b q. rewrite Hv1. pose proof (H0 b q). destruct (in_columns (h - 1) q), (bdev e =? b); lia. }
  { intros b q. rewrite Hv1. specialize (Hs b q). rewrite bytes_on_cons in Hs. destruct (in_columns (h - 1) q), (bdev e =? b); lia. }
  exists v'. split; [done|]. split; [by rewrite Ef|]. intros b q. rewrite Hv', Hv1, bytes_on_cons. destruct (in_columns (h - 1) q); lia.
Qed.

Lemma sub_extents_counts h l : forall v,
  0 < h < RDB_LEVEL_MAX -> Forall (fun e => 0 <= length e /\ 0 <= bdev e < MAX_BDEV) l ->
  (forall b q, cell (usage_ v) b q < 2 ^ 64) -> (forall b q, in_columns (h - 1) q = true -> bytes_on b l <= cell (usage_ v) b q) ->
  exists v', sub_usage_extents h l v = Some v' /\ per_level_files_ v' = per_level_files_ v /\
    forall b q, cell (usage_ v') b q = cell (usage_ v) b q - (if in_columns (h - 1) q then bytes_on b l else 0).
Proof.
  unfold in_columns. induction l as [|e l IH]; intros v Hh Hl H0 Hs.
  { exists v. split; [done|]. split; [done|]. intros. change (bytes_on b []) with 0. destruct (_ || _); lia. }
  apply Forall_cons in Hl as [[He Hb] Hl]. cbn [sub_usage_extents sub_usage_extent RocksDBBlueFSVolumeSelector]. unfold rocksdb_sub_extent.
  destruct (Z.eqb_spec h nullptr) as [E|_]; [unfold nullptr in E; lia|]. destruct (Z.ltb_spec (bdev e) BDEVS) as [_|E]; [|unfold BDEVS in E; lia]. cbn [negb].
  rewrite level_pos_ok by done. cbn [mbind option_bind]. change (LEVELS - 1) with 4 in *. unfold RDB_LEVEL_MAX in Hh.
  pose proof (Hs (bdev e) (h - 1) ltac:(lia)) as S1. pose proof (Hs (bdev e) 4 ltac:(lia)) as S2. rewrite bytes_on_cons, Z.eqb_refl in S1, S2. pose proof (bytes_on_bounds (bdev e) l Hl).
  pose proof (H0 (bdev e) (h - 1)). pose proof (H0 (bdev e) 4).
  destruct (Z.ltb_spec (cell (usage_ v) (bdev e) (h - 1)) (length e)); [lia|]. cbv zeta.
  assert (cell (usage_ (fetch_sub (bdev e) (h - 1) (length e) v)) (bdev e) 4 = cell (usage_ v) (bdev e) 4) as E4.
  { unfold fetch_sub. cbn [usage_ set_usage]. rewrite cell_insert, Z.eqb_refl. by destruct (Z.eqb_spec 4 (h - 1)); [lia|]. }
  rewrite E4. destruct (Z.ltb_spec (cell (usage_ v) (bdev e) 4) (length e)); [lia|].
  set (v1 := fetch_sub _ 4 _ _).
  assert (forall b q, cell (usage_ v1) b q = cell (usage_ v) b q - (if (q =? h - 1) || (q =? 4) then if bdev e =? b then length e else 0 else 0)) as Hv1.
  { intros b q. unfold v1. unfold fetch_sub at 1. cbn [usage_ set_usage]. rewrite cell_insert, E4. unfold fetch_sub. cbn [usage_ set_usage]. rewrite cell_insert.
    destruct (Z.eqb_spec b (bdev e)) as [->|Hn], (Z.eqb_spec q 4) as [->|Hq]; cbn [andb orb]; rewrite ?Z.eqb_refl.
    - destruct (Z.eqb_spec 4 (h - 1)); [lia|]. cbn [orb andb]. rewrite u64_small by lia. done.
    - destruct (Z.eqb_spec q (h - 1)) as [->|]; cbn [orb andb]; [|lia]. rewrite u64_small by lia. done.
    - destruct (Z.eqb_spec (bdev e) b); [lia|]. destruct (_ || _); lia.
    - destruct (Z.eqb_spec (bdev e) b); [lia|]. destruct (_ || _); lia. }
  destruct (IH v1 Hh Hl) as (v' & Ev & Ef & Hv').
  { intros b q. rewrite Hv1. pose proof (H0 b q). destruct ((q =? h - 1) || (q =? 4)), (bdev e =? b); lia. }
  { intros b q Hc. rewrite Hv1. specialize (Hs b q Hc). rewrite bytes_on_cons in Hs. destruct ((q =? h - 1) || (q =? 4)), (bdev e =? b); lia. }
  exists v'. split; [done|]. split; [by rewrite Ef|]. intros b q. rewrite Hv', Hv1, bytes_on_cons. destruct (_ || _); lia.
Qed.

Lemma share_bounds b p x : entry_ok x -> 0 <= share b p x /\ share b p x < weight x.
Proof.
  intros (_ & Hs & He). pose proof (bytes_on_bounds b _ He). unfold share, weight. repeat case_match; lia.
Qed.
Lemma file_share_bounds p x : entry_ok x -> 0 <= file_share p x <= weight x.
Proof. intros (_ & Hs & He). pose proof (bytes_on_bounds 0 _ He). unfold file_share, weight. repeat case_match; lia. Qed.

Lemma sum_between {A} (f g : A -> Z) l : Forall (fun x => 0 <= f x <= g x) l -> 0 <= sumZ f l <= sumZ g l.
Proof. induction 1 as [|x l Hx _ IH]; [done|]. rewrite !sumZ_cons. lia. Qed.

Lemma cells_bound v l : counts v l -> (forall b p, 0 <= cell (usage_ v) b p <= sumZ weight l) /\ (forall p, 0 <= files_at v p <= sumZ weight l).
Proof.
  intros [Hu Hf Hok _]. split; intros; [rewrite Hu|rewrite Hf]; apply sum_between; (eapply Forall_impl; [exact Hok|]); intros x Hx.
  - pose proof (share_bounds b p x Hx). lia.
  - by apply file_share_bounds.
Qed.

Lemma files_insert n p v q : files_at (set_files (<[p := n]> (per_level_files_ v)) v) q = if q =? p then n else files_at v q.
Proof. unfold files_at. cbn [per_level_files_ set_files]. destruct (Z.eqb_spec q p) as [->|]; [by rewrite lookup_insert_eq|by rewrite lookup_insert_ne]. Qed.

Lemma inc_files_at p v q : files_at (inc_files p v) q = if q =? p then files_at v p +64 1 else files_at v q.
Proof. apply files_insert. Qed.

(** A file without a level is not counted. *)
Lemma null_add f v : add_usage 0 f v = Some v.
Proof. unfold add_usage. by rewrite add_extents_id. Qed.
Lemma null_sub f v : sub_usage 0 f v = Some v.
Proof. unfold sub_usage. by rewrite sub_extents_id. Qed.

Lemma add_counts v l x : counts v l -> entry_ok x -> sumZ weight (x :: l) < 2 ^ 64 -> exists v', add_usage x.1 x.2 v = Some v' /\ counts v' (x :: l).
Proof.
  intros Hc Hx Hs. destruct x as [h f]. destruct (cells_bound _ _ Hc) as [Bu Bf]. pose proof Hx as (Hh & Hsz & He). rewrite sumZ_cons in Hs. unfold weight at 1 in Hs. simpl in Hh, Hsz, He, Hs |- *.
  destruct (decide (h = 0)) as [->|Hne].
  { exists v. split; [apply null_add|]. destruct Hc as [Hu Hf Hok Hsm]. constructor; [..|by constructor|rewrite sumZ_cons; unfold weight at 1; simpl; lia]; intros; rewrite sumZ_cons; [rewrite Hu|rewrite Hf]; done. }
  unfold RDB_LEVEL_MAX in Hh.
  destruct (add_extents_counts h (extents f) v ltac:(unfold RDB_LEVEL_MAX; lia) He) as (v1 & E1 & F1 & U1).
  { intros. apply Bu. }
  { intros b q. pose proof (Bu b q). pose proof (bytes_on_bounds b _ He). lia. }
  unfold add_usage. rewrite E1. cbn [mbind option_bind add_usage_size RocksDBBlueFSVolumeSelector]. unfold rocksdb_add_size.
  destruct (Z.eqb_spec h nullptr) as [E|_]; [unfold nullptr in E; lia|]. rewrite level_pos_ok by (unfold RDB_LEVEL_MAX; lia). cbn [mbind option_bind]. eexists. split; [done|].
  assert (forall q, files_at v1 q = files_at v q) as F1' by (intros; unfold files_at; by rewrite F1).
  pose proof (bytes_on_bounds 0 _ He). pose proof (Bf (h - 1)). pose proof (Bf 4). change (LEVELS - 1) with 4.
  constructor; [| |by constructor; [|apply Hc]|rewrite sumZ_cons; unfold weight at 1; simpl; lia].
  - intros b p. rewrite sumZ_cons, <- (c_usage _ _ Hc). unfold inc_files. cbn [usage_ set_files]. unfold update_max. cbn [usage_ set_usage]. unfold fetch_add. cbn [usage_ set_usage].
    rewrite cell_insert, !U1. unfold share, in_columns. cbn [fst snd]. destruct (Z.eqb_spec h 0); [lia|]. change (LEVELS - 1) with 4.
    destruct (Z.eqb_spec b MAX_BDEV) as [->|Hb]; cbn [andb]; [|destruct (_ || _); lia]. rewrite !bytes_on_none by done.
    pose proof (Bu MAX_BDEV (h - 1)). destruct (Z.eqb_spec p (h - 1)) as [->|]; rewrite ?Z.eqb_refl; cbn [orb]; [|destruct (_ =? _); lia]. rewrite u64_small; lia.
  - intros p. rewrite sumZ_cons, <- (c_files _ _ Hc), !inc_files_at. unfold update_max, fetch_add, file_share. cbn [fst].
    change (files_at (set_usage _ _ (set_usage _ _ v1)) ?q) with (files_at v1 q). rewrite !F1'. destruct (Z.eqb_spec h 0); [lia|]. change (LEVELS - 1) with 4.
    destruct (Z.eqb_spec 4 (h - 1)); [lia|]. destruct (Z.eqb_spec p 4) as [->|]; [destruct (Z.eqb_spec 4 (h - 1)); [lia|]; cbn [orb]; rewrite u64_small; lia|].
    destruct (Z.eqb_spec p (h - 1)) as [->|]; cbn [orb]; [rewrite u64_small|]; lia.
Qed.

Lemma dec_files_at p v : 0 < files_at v p < 2 ^ 64 -> exists v', dec_files p v = Some v' /\ usage_ v' = usage_ v /\
  forall q, files_at v' q = if q =? p then files_at v p - 1 else files_at v q.
Proof.
  intros H. unfold dec_files. destruct (Z.ltb_spec 0 (files_at v p)); [|lia]. eexists. split; [done|]. split; [done|]. intros q. rewrite files_insert, u64_small by lia. done.
Qed.

Lemma sub_counts v l l' x : counts v l -> l ≡ₚ x :: l' -> exists v', sub_usage x.1 x.2 v = Some v' /\ counts v' l'.
Proof.
  intros Hc Hp. destruct (cells_bound _ _ Hc) as [Bu Bf]. destruct Hc as [Hu Hf Hok Hsm]. rewrite Hp in Hok. apply Forall_cons in Hok as [Hx Hok].
  assert (forall b p, cell (usage_ v) b p = share b p x + sumZ (share b p) l') as Hu' by (intros; by rewrite Hu, (sumZ_Permutation _ _ _ Hp)).
  assert (forall p, files_at v p = file_share p x + sumZ (file_share p) l') as Hf' by (intros; by rewrite Hf, (sumZ_Permutation _ _ _ Hp)).
  assert (forall b p, 0 <= sumZ (share b p) l') as Pu by (intros; apply sumZ_nonneg; eapply Forall_impl; [exact Hok|]; intros y Hy; by apply share_bounds).
  assert (forall p, 0 <= sumZ (file_share p) l') as Pf by (intros; apply sumZ_nonneg; eapply Forall_impl; [exact Hok|]; intros y Hy; by apply file_share_bounds).
  assert (sumZ weight l' < 2 ^ 64) as Hw.
  { rewrite (sumZ_Permutation _ _ _ Hp), sumZ_cons in Hsm. pose proof (share_bounds 0 0 x Hx). lia. }
  destruct x as [h f]. pose proof Hx as (Hh & Hsz & He). simpl in Hh, Hsz, He |- *.
  destruct (decide (h = 0)) as [->|Hne].
  { exists v. split; [apply null_sub|]. by constructor. }
  unfold RDB_LEVEL_MAX in Hh. assert ((h =? 0) = false) as E0 by lia. 
  assert (forall b p, share b p (h, f) = if b =? MAX_BDEV then (if p =? h - 1 then size f else 0) else if (p =? h - 1) || (p =? 4) then bytes_on b (extents f) else 0) as Sh
    by (intros; unfold share; cbn [fst snd]; by rewrite E0).
  assert (forall p, file_share p (h, f) = if (p =? h - 1) || (p =? 4) then 1 else 0) as Fs by (intros; unfold file_share; cbn [fst snd]; by rewrite E0).
  setoid_rewrite Sh in Hu'. setoid_rewrite Fs in Hf'.
  destruct (sub_extents_counts h (extents f) v ltac:(unfold RDB_LEVEL_MAX; lia) He) as (v1 & E1 & F1 & U1).
  { intros b q. pose proof (Bu b q). lia. }
  { intros b q Hq. unfold in_columns in Hq. change (LEVELS - 1) with 4 in Hq. rewrite Hu', Hq. pose proof (Pu b q). destruct (Z.eqb_spec b MAX_BDEV) as [->|]; [|lia].
    rewrite bytes_on_none by done. destruct (q =? h - 1); lia. }
  unfold sub_usage. rewrite E1. cbn [mbind option_bind sub_usage_size RocksDBBlueFSVolumeSelector]. unfold rocksdb_sub_size.
  destruct (Z.eqb_spec h nullptr) as [E|_]; [unfold nullptr in E; lia|]. rewrite level_pos_ok by (unfold RDB_LEVEL_MAX; lia). cbn [mbind option_bind].
  assert (forall q, files_at v1 q = files_at v q) as F1' by (intros; unfold files_at; by rewrite F1).
  assert (cell (usage_ v1) MAX_BDEV (h - 1) = size f + sumZ (share MAX_BDEV (h - 1)) l') as Es.
  { rewrite U1, Hu', bytes_on_none, !Z.eqb_refl by done. destruct (in_columns _ _); lia. }
  pose proof (Pu MAX_BDEV (h - 1)). destruct (Z.ltb_spec (cell (usage_ v1) MAX_BDEV (h - 1)) (size f)); [lia|]. cbv zeta.
  set (v2 := fetch_sub _ _ _ v1). change (LEVELS - 1) with 4. assert (forall q, files_at v2 q = files_at v q) as F2 by (intros; apply F1').
  pose proof (Hf' (h - 1)) as G1. assert (files_at v 4 = 1 + sumZ (file_share 4) l') as G2 by (by rewrite Hf', orb_true_r). rewrite Z.eqb_refl in G1. cbn [orb] in G1. pose proof (Pf (h - 1)). pose proof (Pf 4). pose proof (Bf (h - 1)). pose proof (Bf 4).
  destruct (dec_files_at (h - 1) v2) as (v3 & -> & U3 & F3); [rewrite F2; lia|]. cbn [mbind option_bind].
  assert ((4 =? h - 1) = false) as E4 by lia. destruct (dec_files_at 4 v3) as (v4 & -> & U4 & F4); [rewrite F3, E4, F2; lia|]. exists v4. split; [done|]. constructor; [| |done|done].
  - intros b p. rewrite U4, U3. unfold v2, fetch_sub. cbn [usage_ set_usage]. rewrite cell_insert, Es, U1, Hu'. unfold in_columns. change (LEVELS - 1) with 4.
    destruct (Z.eqb_spec b MAX_BDEV) as [->|]; cbn [andb]; [|repeat case_match; lia]. rewrite !bytes_on_none by done. pose proof (Bu MAX_BDEV (h - 1)) as B. rewrite Hu', !Z.eqb_refl in B.
    destruct (Z.eqb_spec p (h - 1)) as [->|]; rewrite ?Z.eqb_refl; cbn [orb]; [rewrite u64_small by lia; lia|repeat case_match; lia].
  - intros p. rewrite F4, !F3, !F2, E4. specialize (Hf' p). destruct (Z.eqb_spec p 4) as [E|]; [rewrite E; lia|].
    destruct (Z.eqb_spec p (h - 1)) as [E|]; cbn [orb] in Hf'; [rewrite E in *|]; lia.
Qed.

#[global] Instance rocksdb_spec : SelectorSpec rocksdb_selector := {| tracks := counts; add_tracks := add_counts; sub_tracks := sub_counts |}.

(** ** Runs *)

Inductive sel_op := Add (x : entry) | Sub (x : entry).

Definition sel_step `{VolumeSelector V} (o : sel_op) (v : V) : option V :=
  match o with Add x => add_usage x.1 x.2 v | Sub x => sub_usage x.1 x.2 v end.
Fixpoint sel_run `{VolumeSelector V} (ops : list sel_op) (v : V) : option V :=
  match ops with [] => Some v | o :: t => v ← sel_step o v; sel_run t v end.

(** A list without the first occurrence of an element. *)
Fixpoint take_back (x : entry) (l : list entry) : option (list entry) :=
  match l with [] => None | y :: t => if decide (y = x) then Some t else t ← take_back x t; Some (y :: t) end.

Lemma take_back_perm x l : forall l', take_back x l = Some l' -> l ≡ₚ x :: l'.
Proof.
  induction l as [|y l IH]; intros l' H; simpl in H; [done|]. destruct (decide (y = x)) as [->|]; [by injection H as <-|].
  destruct (take_back x l) as [t|]; [|done]. simpl in H. injection H as <-. rewrite (IH t eq_refl). apply Permutation_swap.
Qed.

(** The files that are tracked, when every operation is legal: what is added is
    a file and the space still fits 64 bits, what is taken back was added. *)
Definition track_step (o : sel_op) (l : list entry) : option (list entry) :=
  match o with
  | Add x => if decide (entry_ok x /\ sumZ weight (x :: l) < 2 ^ 64) then Some (x :: l) else None
  | Sub x => take_back x l
  end.
Fixpoint track_run (ops : list sel_op) (l : list entry) : option (list entry) :=
  match ops with [] => Some l | o :: t => l ← track_step o l; track_run t l end.

Lemma runs_track `{SelectorSpec V} ops : forall (v : V) l l', tracks v l -> track_run ops l = Some l' -> exists v', sel_run ops v = Some v' /\ tracks v' l'.
Proof.
  induction ops as [|o ops IH]; intros v l l' Hv Hr; simpl in Hr; [injection Hr as <-; by exists v|].
  destruct (track_step o l) as [l1|] eqn:E; [|done]. simpl in Hr.
  assert (exists v1, sel_step o v = Some v1 /\ tracks v1 l1) as (v1 & E1 & Hv1).
  { destruct o as [x|x]; simpl in E |- *.
    - destruct (decide _) as [[Hx Hs]|]; [|done]. injection E as <-. by apply add_tracks.
    - apply take_back_perm in E. by apply (sub_tracks v l). }
  simpl. rewrite E1. cbn [mbind option_bind]. by apply (IH v1 l1).
Qed.

(** The space on device [b] of the files of [level]. *)
Definition level_space (level b : Z) (l : list entry) : Z := sumZ (fun x => if x.1 =? level then bytes_on b (extents x.2) else 0) l.

(** C34: from a new tracking selector on, as long as only files that were added
    are taken back, no assertion of it fails, and what it reports for a level
    and a device is the space the files of that level have there. *)
Theorem rocksdb_usage_exact w d s l0 lb lm rf r x (v : rocksdb_selector) (ops : list sel_op) (l : list entry) :
  rocksdb_new w d s l0 lb lm rf r x = Some v -> track_run ops [] = Some l ->
  exists v', sel_run ops v = Some v' /\
    forall level b, 0 < level < RDB_LEVEL_MAX -> 0 <= b < MAX_BDEV -> get_level_usage level b v' = level_space level b l.
Proof.
  intros Hn Hr. assert (counts v []) as Hv.
  { assert (usage_ v = ∅ /\ per_level_files_ v = ∅) as [Eu Ef].
    { unfold rocksdb_new in Hn. destruct x; simpl in Hn; [|by injection Hn as <-]. destruct (r =? 0); [|by injection Hn as <-].
      destruct (level_threshold _ _ _ _) as [t|]; [|done]. simpl in Hn. destruct (u64_of_double _) as [c|]; [|done]. by injection Hn as <-. }
    constructor; [..|constructor|done]; intros; unfold cell, files_at; rewrite ?Eu, ?Ef, lookup_empty; done. }
  destruct (@runs_track rocksdb_selector _ rocksdb_spec ops v [] l Hv Hr) as (v' & E & Hv'). exists v'. split; [done|]. intros level b Hl Hb. unfold get_level_usage. rewrite (c_usage _ _ Hv').
  unfold level_space. clear -Hl Hb. unfold RDB_LEVEL_FIRST, MAX_BDEV, RDB_LEVEL_MAX in *. induction l as [|y l IH]; [done|]. rewrite !sumZ_cons, IH. f_equal. clear IH.
  unfold share. change (LEVELS - 1) with 4. change MAX_BDEV with 3. destruct (Z.eqb_spec (y.1) 0), (Z.eqb_spec b 3), (Z.eqb_spec (level - 1) (y.1 - 1)), (Z.eqb_spec (level - 1) 4), (Z.eqb_spec (y.1) level); simpl; (done || lia).
Qed.

(** ** The loop of the constructor *)

(** The loop that sizes the reserve for the database ends exactly when the
    first two levels reach the device or the levels grow; with an empty base
    level, or a multiplier of 0, it runs for ever on any larger device.  The
    hypothesis says that the sizes do not wrap around. *)
Theorem level_loop_ends_iff (db_total level0_size level_base level_multiplier : Z) :
  0 <= db_total -> 0 <= level0_size -> 0 <= level_base -> 0 <= level_multiplier ->
  (level0_size + level_base + db_total) * (level_multiplier + 1) < 2 ^ 62 ->
  (exists t, level_threshold db_total level0_size level_base level_multiplier = Some t) <->
  db_total <= level0_size + level_base + level_base * level_multiplier \/ (0 < level_base /\ 0 < level_multiplier).
Proof.
  intros Hd H0 Hb Hm Hw. unfold level_threshold. remember (level0_size + level_base + db_total) as W eqn:EW.
  assert (W + W * level_multiplier < 2 ^ 62 /\ 0 <= W * level_multiplier) as [HW HW'] by (split; [lia|apply Z.mul_nonneg_nonneg; lia]). split.
  - intros [t Ht]. destruct (Z.le_gt_cases db_total (level0_size + level_base + level_base * level_multiplier)) as [|Hgt]; [by left|].
    destruct (decide (0 < level_base /\ 0 < level_multiplier)) as [|Hno]; [by right|]. exfalso.
    assert (level_base * level_multiplier = 0) as Hz by (destruct (decide (level_base = 0)); [|assert (level_multiplier = 0) by lia]; nia).
    rewrite (while_diverges _ (fun s => 0 <= s.1.1 /\ 0 <= s.1.2 /\ s.1.1 + s.1.2 <= level0_size + level_base /\ s.1.2 * level_multiplier = 0)) in Ht; [done| |simpl; lia].
    clear t Ht. intros [[p c] t] (Hp & Hc & Hs & Hcz). simpl in *. unfold level_step. rewrite Hcz.
    change (u64 0) with 0. rewrite (u64_small (p + c)), (u64_small (p + c + 0)) by lia. destruct (Z.leb_spec db_total (p + c + 0)); [lia|]. eexists. split; [done|]. simpl. split_and!; lia.
  - intros Hor.
    destruct (while_spec (level_step db_total level_multiplier)
      (fun s => 0 <= s.1.1 /\ 0 <= s.1.2 /\ s.1.1 + s.1.2 <= W /\
                (db_total <= s.1.1 + s.1.2 + s.1.2 * level_multiplier \/ (0 < s.1.2 /\ 0 < level_multiplier)))
      (fun s => db_total - s.1.1 + W) (fun _ => True)) with (n := 64%nat) (s := (level0_size, level_base, level0_size +64 level_base)) as (t & Et & _).
    + intros [[p c] t] (Hp & Hc & Hs & Hz). simpl in *. unfold level_step.
      assert (0 <= c * level_multiplier <= W * level_multiplier) by (split; [apply Z.mul_nonneg_nonneg|apply Z.mul_le_mono_nonneg_r]; lia).
      rewrite (u64_small (c * level_multiplier)), (u64_small (p + c)), (u64_small (p + c + c * level_multiplier)) by lia. destruct (Z.leb_spec db_total (p + c + c * level_multiplier)); [done|]. simpl. destruct Hz as [|[? ?]]; [lia|]. assert (0 < c * level_multiplier) by (apply Z.mul_pos_pos; lia). split_and!; lia.
    + simpl. split_and!; lia.
    + simpl. lia.
    + by exists t.
Qed.

(** ** Witnesses *)

Definition demo_file : entry := (RDB_LEVEL_DB, append_extent (mk_extent 4096 8192 1) (set_size 5000 (fnode 7 0 0))).

Lemma rocksdb_usage_exact_witness :
  exists v v', rocksdb_new 0 (2 ^ 30) 0 0 0 0 (S754_zero false) 0 false = Some v /\ sel_run [Add demo_file; Add demo_file; Sub demo_file] v = Some v' /\
    get_level_usage RDB_LEVEL_DB BDEV_DB v' = 8192.
Proof.
  destruct (rocksdb_usage_exact 0 (2 ^ 30) 0 0 0 0 (S754_zero false) 0 false _ [Add demo_file; Add demo_file; Sub demo_file] [demo_file] eq_refl eq_refl) as (v' & E & Hu).
  eexists. exists v'. split; [reflexivity|]. split; [exact E|]. rewrite Hu by (unfold RDB_LEVEL_DB, RDB_LEVEL_MAX, BDEV_DB, MAX_BDEV; lia). reflexivity.
Defined.

Lemma level_loop_ends_iff_witness : exists t, level_threshold (2 ^ 30) 1024 4096 10 = Some t.
Proof. apply level_loop_ends_iff; [lia..|]. right. lia. Defined.
End VolumeSelectorSpec.
