(* ===== verification/BlueFS.v ===== *)
(** * bluefs/bluefs.{h,cc}: the state of the file system, its log and its recovery

    Files are shared objects: directories, the table of files by number, the
    lists of dirty files and the writers hold references into [heap].  An
    operation is a function of the state that returns a result and a new state;
    [None] is a failed assertion, an exception nobody catches, or a null pointer.
    Every method holds its locks from its first to its last access, so that it is
    one step.  Writers and readers are values that the methods take and return;
    the counters of open handles, which nothing reads, the asynchronous I/O
    contexts, which are always idle, and the performance counters are left out. *)
From stdpp Require Import base numbers list gmap sorting.
From Stdlib Require Import ZArith Lia ZifyBool SpecFloat.
From S2P Require Import Prelude Floats IntArith IntervalSet Allocator Device Denc BluefsTypes VolumeSelector.
Import Floats Denc BluefsTypes VolumeSelector.

Module BlueFS.

Definition EBUSY : Z := 16.
Definition EEXIST : Z := 17.
Definition ENODEV : Z := 19.
Definition EINVAL : Z := 22.
Definition ENOLCK : Z := 37.
Definition ENOTEMPTY : Z := 39.

Definition SUPER_OFFSET : Z := 4096.
Definition SUPER_LENGTH : Z := 4096.
Definition BLUEFS_LOG_INITIAL : Z := 4194304.

(** [bluefs/bluefs_config.h]. *)
Record BlueFSConfig := mk_config {
  alloc_size : Z;
  max_log_runway : Z;
  min_log_runway : Z;
  min_flush_size : Z;
  buffered_io : bool;
  log_compact_min_size : Z;
  log_compact_min_ratio : spec_float;
  max_prefetch : Z;
}.

Definition default_config : BlueFSConfig :=
  mk_config 1048576 4194304 1048576 524288 false 16777216 (to_double 2) 1048576.

Abbreviation zlen l := (Z.of_nat (List.length l)).

(** A [FileRef]. *)
Abbreviation fileref := Z (only parsing).

Record File := mk_file {
  f_node : bluefs_fnode_t;
  dirty_seq : Z;
  refs : Z;
  locked : bool;
  deleted : bool;
  is_dirty : bool;
  vselector_hint : Z;
}.

(** [File(ino)]. *)
Definition new_file (i : Z) : File := mk_file (fnode i 0 0) 0 0 false false false nullptr.

Definition with_node (n : bluefs_fnode_t) (f : File) : File := mk_file n (dirty_seq f) (refs f) (locked f) (deleted f) (is_dirty f) (vselector_hint f).
Definition with_dirty_seq (s : Z) (f : File) : File := mk_file (f_node f) s (refs f) (locked f) (deleted f) (is_dirty f) (vselector_hint f).
Definition with_refs (n : Z) (f : File) : File := mk_file (f_node f) (dirty_seq f) n (locked f) (deleted f) (is_dirty f) (vselector_hint f).
Definition with_locked (b : bool) (f : File) : File := mk_file (f_node f) (dirty_seq f) (refs f) b (deleted f) (is_dirty f) (vselector_hint f).
Definition with_deleted (b : bool) (f : File) : File := mk_file (f_node f) (dirty_seq f) (refs f) (locked f) b (is_dirty f) (vselector_hint f).
Definition with_is_dirty (b : bool) (f : File) : File := mk_file (f_node f) (dirty_seq f) (refs f) (locked f) (deleted f) b (vselector_hint f).
Definition with_hint (h : Z) (f : File) : File := mk_file (f_node f) (dirty_seq f) (refs f) (locked f) (deleted f) (is_dirty f) h.

Record FileWriter := mk_writer { w_file : fileref; w_pos : Z; w_buffer : bytes; w_tail : bytes; w_dirty : gset Z }.

Definition with_pos (p : Z) (h : FileWriter) : FileWriter := mk_writer (w_file h) p (w_buffer h) (w_tail h) (w_dirty h).
Definition with_buffer (b : bytes) (h : FileWriter) : FileWriter := mk_writer (w_file h) (w_pos h) b (w_tail h) (w_dirty h).
Definition with_dirty (d : gset Z) (h : FileWriter) : FileWriter := mk_writer (w_file h) (w_pos h) (w_buffer h) (w_tail h) d.

(** [std::map<uint64_t, uint64_t>::insert]: nothing happens to a key that is there. *)
Fixpoint map_insert (k v : Z) (m : list (Z * Z)) : list (Z * Z) :=
  match m with
  | [] => [(k, v)]
  | (k', v') :: t => if k <? k' then (k, v) :: m else if k =? k' then m else (k', v') :: map_insert k v t
  end.

(** [bluefs_shared_alloc_context_t]; [has_a] is whether [a] is set. *)
Record shared_context := mk_shared { has_a : bool; bluefs_used : Z }.

(** ** The state *)

Section BlueFS.
Context {D A V : Type} `{!Device.BlockDevice D} `{!Allocator.Allocator A} `{!VolumeSelector V}.

(** The devices, the space on them, and the context of the shared allocator. *)
Record disk_t := mk_disk {
  bdev_ : gmap Z D;
  block_reserved_ : gmap Z Z;
  alloc_ : gmap Z A;
  alloc_size_ : gmap Z Z;
  shared_alloc_ : option shared_context;
  shared_alloc_id_ : option Z;
}.

Record nodes_t := mk_nodes {
  heap : gmap fileref File;
  next_ref : fileref;
  dir_map : gmap bytes (gmap bytes fileref);
  file_map : gmap Z fileref;
  ino_last_ : Z;
}.

Record log_t := mk_log { seq_live : Z; writer : option FileWriter; log_txn : bluefs_transaction_t; log_is_compacting_ : bool }.

Record dirty_t := mk_dirty { seq_stable : Z; dirty_seq_live : Z; dirty_files : gmap Z (list fileref); pending_release : gmap Z (list (Z * Z)) }.

Record bluefs := mk_fs {
  cfg_ : BlueFSConfig;
  disk : disk_t;
  super_ : bluefs_super_t;
  vselector_ : option V;
  nodes_ : nodes_t;
  log_ : log_t;
  dirty_ : dirty_t;
}.

Definition M (X : Type) : Type := bluefs -> option (X * bluefs).
#[global] Instance M_ret : MRet M := fun X x s => Some (x, s).
#[global] Instance M_bind : MBind M := fun X Y f m s => match m s with Some (x, s) => f x s | None => None end.

Definition gets {X} (f : bluefs -> X) : M X := fun s => Some (f s, s).
Definition modify (f : bluefs -> bluefs) : M unit := fun s => Some (tt, f s).
Definition lift {X} (o : option X) : M X := fun s => match o with Some x => Some (x, s) | None => None end.
Definition cxxlab_assert (b : bool) : M unit := fun s => if b then Some (tt, s) else None.

(** A loop, of at most 2^64 iterations. *)
Definition whileS {S R} (body : S -> M (S + R)) (s : S) : M R :=
  fun fs => whileM (fun '(s, fs) =>
    match body s fs with
    | None => None
    | Some (inl s, fs) => Some (inl (s, fs))
    | Some (inr r, fs) => Some (inr (r, fs))
    end) 64 (s, fs).

(** The steps that change one part of the state. *)
Definition in_disk (f : disk_t -> disk_t) : M unit := modify (fun s => mk_fs (cfg_ s) (f (disk s)) (super_ s) (vselector_ s) (nodes_ s) (log_ s) (dirty_ s)).
Definition in_super (f : bluefs_super_t -> bluefs_super_t) : M unit := modify (fun s => mk_fs (cfg_ s) (disk s) (f (super_ s)) (vselector_ s) (nodes_ s) (log_ s) (dirty_ s)).
Definition in_vselector (f : option V -> option V) : M unit := modify (fun s => mk_fs (cfg_ s) (disk s) (super_ s) (f (vselector_ s)) (nodes_ s) (log_ s) (dirty_ s)).
Definition in_nodes (f : nodes_t -> nodes_t) : M unit := modify (fun s => mk_fs (cfg_ s) (disk s) (super_ s) (vselector_ s) (f (nodes_ s)) (log_ s) (dirty_ s)).
Definition in_log (f : log_t -> log_t) : M unit := modify (fun s => mk_fs (cfg_ s) (disk s) (super_ s) (vselector_ s) (nodes_ s) (f (log_ s)) (dirty_ s)).
Definition in_dirty (f : dirty_t -> dirty_t) : M unit := modify (fun s => mk_fs (cfg_ s) (disk s) (super_ s) (vselector_ s) (nodes_ s) (log_ s) (f (dirty_ s))).

Definition set_device (id : Z) (d : D) : M unit :=
  in_disk (fun k => mk_disk (<[id := d]> (bdev_ k)) (block_reserved_ k) (alloc_ k) (alloc_size_ k) (shared_alloc_ k) (shared_alloc_id_ k)).
Definition set_allocs (m : gmap Z A) : M unit :=
  in_disk (fun k => mk_disk (bdev_ k) (block_reserved_ k) m (alloc_size_ k) (shared_alloc_ k) (shared_alloc_id_ k)).
Definition set_alloc (id : Z) (a : A) : M unit :=
  in_disk (fun k => mk_disk (bdev_ k) (block_reserved_ k) (<[id := a]> (alloc_ k)) (alloc_size_ k) (shared_alloc_ k) (shared_alloc_id_ k)).
(** [shared_alloc_->bluefs_used += n], if there is a context. *)
Definition add_used (n : Z) : M unit :=
  in_disk (fun k => mk_disk (bdev_ k) (block_reserved_ k) (alloc_ k) (alloc_size_ k)
    ((fun c => mk_shared (has_a c) (bluefs_used c +64 n)) <$> shared_alloc_ k) (shared_alloc_id_ k)).

Definition set_heap (h : gmap fileref File) (n : nodes_t) : nodes_t := mk_nodes h (next_ref n) (dir_map n) (file_map n) (ino_last_ n).
Definition set_dir_map (d : gmap bytes (gmap bytes fileref)) (n : nodes_t) : nodes_t := mk_nodes (heap n) (next_ref n) d (file_map n) (ino_last_ n).
Definition set_file_map (m : gmap Z fileref) (n : nodes_t) : nodes_t := mk_nodes (heap n) (next_ref n) (dir_map n) m (ino_last_ n).
Definition set_ino_last (i : Z) (n : nodes_t) : nodes_t := mk_nodes (heap n) (next_ref n) (dir_map n) (file_map n) i.

Definition set_seq_live (s : Z) (l : log_t) : log_t := mk_log s (writer l) (log_txn l) (log_is_compacting_ l).
Definition set_writer (w : option FileWriter) (l : log_t) : log_t := mk_log (seq_live l) w (log_txn l) (log_is_compacting_ l).
Definition set_txn (t : bluefs_transaction_t) (l : log_t) : log_t := mk_log (seq_live l) (writer l) t (log_is_compacting_ l).
Definition set_compacting (b : bool) (l : log_t) : log_t := mk_log (seq_live l) (writer l) (log_txn l) b.

Definition set_dirty_files (m : gmap Z (list fileref)) (d : dirty_t) : dirty_t := mk_dirty (seq_stable d) (dirty_seq_live d) m (pending_release d).
Definition set_pending (m : gmap Z (list (Z * Z))) (d : dirty_t) : dirty_t := mk_dirty (seq_stable d) (dirty_seq_live d) (dirty_files d) m.
Definition set_seqs (stable live : Z) (d : dirty_t) : dirty_t := mk_dirty stable live (dirty_files d) (pending_release d).

(** An operation of [log_.t]. *)
Definition log_op (f : bluefs_transaction_t -> bluefs_transaction_t) : M unit := in_log (fun l => set_txn (f (log_txn l)) l).

(** ** Files *)

Definition get_file (r : fileref) : M File := o ← gets (fun s => heap (nodes_ s) !! r); lift o.
Definition put_file (r : fileref) (f : File) : M unit := in_nodes (fun n => set_heap (<[r := f]> (heap n)) n).
Definition update_file (r : fileref) (g : File -> File) : M unit := f ← get_file r; put_file r (g f).

(** [std::make_shared<File>]. *)
Definition make_file (f : File) : M fileref :=
  r ← gets (fun s => next_ref (nodes_ s));
  in_nodes (fun n => mk_nodes (<[r := f]> (heap n)) (r + 1) (dir_map n) (file_map n) (ino_last_ n));;
  mret r.

Definition _file_exists (i : Z) (s : bluefs) : bool := bool_decide (is_Some (file_map (nodes_ s) !! i)).

Definition _get_file (i : Z) : M fileref :=
  o ← gets (fun s => file_map (nodes_ s) !! i);
  match o with
  | Some r => mret r
  | None =>
      r ← make_file (new_file i);
      in_nodes (fun n => set_file_map (<[i := r]> (file_map n)) n);;
      mret r
  end.

(** These two log an update of a file and reset its delta. *)
Definition log_file_update (r : fileref) : M unit :=
  f ← get_file r; t ← gets (fun s => log_txn (log_ s));
  let '(n, t) := op_file_update (f_node f) t in
  put_file r (with_node n f);; in_log (set_txn t).
Definition log_file_update_inc (r : fileref) : M unit :=
  f ← get_file r; t ← gets (fun s => log_txn (log_ s));
  let '(n, t) := op_file_update_inc (f_node f) t in
  put_file r (with_node n f);; in_log (set_txn t).

(** ** The volume selector *)

(** [if (vselector_) vselector_->add_usage(...)], and so on. *)
Definition with_selector (f : V -> option V) : M unit :=
  o ← gets vselector_;
  match o with None => mret tt | Some v => v ← lift (f v); in_vselector (fun _ => Some v) end.
(** [vselector_->...] without a test. *)
Definition the_selector : M V := o ← gets vselector_; lift o.
Definition select_bdev (hint : Z) : M Z := v ← the_selector; lift (select_prefer_bdev hint v).

(** ** Devices and space *)

Definition is_shared_alloc (id : Z) (s : bluefs) : bool := bool_decide (shared_alloc_id_ (disk s) = Some id).

(** [MAX_BDEV] devices. *)
Definition ids : list Z := [0; 1; 2].

Definition get_block_device_size (id : Z) (s : bluefs) : Z := match bdev_ (disk s) !! id with Some d => Device.dev_size d | None => 0 end.

Definition reserved_of (id : Z) (s : bluefs) : Z := default 0 (block_reserved_ (disk s) !! id).

Definition _get_total (id : Z) (s : bluefs) : Z :=
  match bdev_ (disk s) !! id with
  | None => 0
  | Some _ =>
      let sz := get_block_device_size id s in
      if sz <=? reserved_of id s then 0 else sz -64 reserved_of id s
  end.

Definition get_total (id : Z) (s : bluefs) : Z := _get_total id s.

Definition shared_used (s : bluefs) : Z := match shared_alloc_ (disk s) with Some c => bluefs_used c | None => 0 end.

Definition get_free (id : Z) (s : bluefs) : Z :=
  match bdev_ (disk s) !! id with
  | None => 0
  | Some _ =>
      if is_shared_alloc id s then
        let total := _get_total id s in if shared_used s <? total then total -64 shared_used s else 0
      else match alloc_ (disk s) !! id with Some a => Allocator.get_free a | None => 0 end
  end.

Definition get_used_of (id : Z) (s : bluefs) : Z :=
  match bdev_ (disk s) !! id with
  | None => 0
  | Some _ =>
      if is_shared_alloc id s then shared_used s
      else match alloc_ (disk s) !! id with Some a => _get_total id s -64 Allocator.get_free a | None => 0 end
  end.
Definition get_used (s : bluefs) : Z := foldl (fun used id => used +64 get_used_of id s) 0 ids.

(** [opened] is what [BlockDevice::create] and [open] of the path give, and
    [discard] what the device does to its image; [shared] is the allocator and
    the context that are passed, if any. *)
Definition add_block_device (id : Z) (opened : Z + D) (trim : bool) (discard : D -> D) (reserved : Z) (shared : option (option A * shared_context)) : M Z :=
  s ← gets (fun s => s);
  if negb ((0 <=? id) && (id <? MAX_BDEV)) || bool_decide (is_Some (bdev_ (disk s) !! id)) then mret (- EBUSY)
  else if bool_decide (is_Some shared) && bool_decide (is_Some (shared_alloc_ (disk s))) then mret (- EBUSY)
  else
    match opened with
    | inl r => mret r
    | inr d =>
        if Device.dev_size d <? reserved then mret (- EINVAL)
        else
          in_disk (fun k => mk_disk (<[id := if trim then discard d else d]> (bdev_ k)) (<[id := reserved]> (block_reserved_ k))
            (match shared with Some (Some a, _) => <[id := a]> (alloc_ k) | _ => alloc_ k end) (alloc_size_ k)
            (match shared with Some (_, c) => Some c | None => shared_alloc_ k end)
            (match shared with Some _ => Some id | None => shared_alloc_id_ k end));;
          mret 0
    end.

(** [Allocator::create("avl", size, block_size)]. *)
Context (create : Z -> Z -> A).

(** One iteration of the loop of [_init_alloc]. *)
Definition init_alloc_of (id : Z) : M unit :=
  s ← gets (fun s => s);
  match bdev_ (disk s) !! id with
  | None => mret tt
  | Some d =>
      if is_shared_alloc id s then mret tt
      else
        let a := create (Device.dev_size d) (alloc_size (cfg_ s)) in
        let total := _get_total id s in
        let skip := reserved_of id s in
        let skip := if id =? BDEV_DB then Z.max skip (SUPER_OFFSET + SUPER_LENGTH) else skip in
        a ← (if skip <? total then lift (Allocator.init_add_free skip (total -64 skip) a) else mret a);
        set_alloc id a
  end.

Fixpoint each {X} (f : X -> M unit) (l : list X) : M unit :=
  match l with [] => mret tt | x :: t => f x;; each f t end.

Definition _init_alloc : M unit := each init_alloc_of ids.

(** What is not shared is deleted. *)
Definition _stop_alloc : M unit :=
  s ← gets (fun s => s);
  let keep := match shared_alloc_ (disk s), shared_alloc_id_ (disk s) with
    | Some c, Some id => if has_a c then (match alloc_ (disk s) !! id with Some a => {[id := a]} | None => ∅ end) else ∅
    | _, _ => ∅ end in
  set_allocs keep.

(** ** The superblock *)

(** The copy of a superblock, which copies the file node of the log. *)
Definition super_copy (s : bluefs_super_t) : bluefs_super_t :=
  mk_super (s_uuid s) (osd_uuid s) (version s) (block_size s) (fnode_copy (log_fnode s)).

Definition _write_super (dev : Z) : M Z :=
  s ← gets (fun s => s);
  match bdev_ (disk s) !! dev with
  | None => mret (- ENODEV)
  | Some d =>
      let tmp := super_copy (super_ s) in
      let tmp := mk_super (s_uuid tmp) (osd_uuid tmp) (version tmp +64 1) (block_size tmp) (log_fnode tmp) in
      let bl := encode denc_super tmp in
      let bl := bl ++ encode denc_u32 (crc32c bl) in
      if SUPER_LENGTH <? zlen bl then mret (- EIO)
      else
        let bl := bl ++ replicate (Z.to_nat (SUPER_LENGTH - zlen bl)) 0 in
        let '(r, d) := Device.dev_write SUPER_OFFSET bl false d in
        set_device dev d;;
        if r <? 0 then mret r
        else
          in_super (fun u => mk_super (s_uuid u) (osd_uuid u) (version tmp) (block_size u) (log_fnode u));;
          mret 0
  end.

(** Only [malformed_input] is caught.  When the superblock cannot be decoded,
    what was read of it is not kept. *)
Definition _open_super : M Z :=
  s ← gets (fun s => s);
  match bdev_ (disk s) !! BDEV_DB with
  | None => mret (- ENODEV)
  | Some d =>
      let '(r, bl) := Device.dev_read SUPER_OFFSET SUPER_LENGTH false d in
      if r <? 0 then mret r
      else
        match decode denc_super bl with
        | Throw malformed_input => mret (- EIO)
        | Throw _ => lift None
        | Ok (u, p) =>
            in_super (fun _ => u);;
            let actual_crc := crc32c (take (List.length bl - List.length p) bl) in
            match decode denc_u32 p with
            | Throw malformed_input => mret (- EIO)
            | Throw _ => lift None
            | Ok (expected_crc, _) => if actual_crc =? expected_crc then mret 0 else mret (- EIO)
            end
        end
  end.

(** ** Allocation *)

(** The extents that an allocator returned, appended to a node. *)
Definition append_pextents (id : Z) (exts : list Allocator.pextent_t) (node : bluefs_fnode_t) : bluefs_fnode_t :=
  foldl (fun n e => append_extent (mk_extent (Allocator.offset e) (Allocator.length e) id) n) node exts.

(** The loop over the devices of [_allocate]; the new node and the new hint. *)
Fixpoint allocate_from (l : list Z) (prefer_bdev need alloc_unit : Z) (node : bluefs_fnode_t) (hint : option Z) : M (Z * bluefs_fnode_t * option Z) :=
  match l with
  | [] => mret (- ENOSPC, node, hint)
  | id :: t =>
      s ← gets (fun s => s);
      let next := allocate_from t prefer_bdev need alloc_unit node hint in
      if negb (bool_decide (is_Some (bdev_ (disk s) !! id))) then next
      else if is_shared_alloc id s && negb (match shared_alloc_ (disk s) with Some c => has_a c | None => false end) then next
      else
        let hint_val := match hint with Some h => if id =? prefer_bdev then i64 h else 0 | None => 0 end in
        a ← lift (alloc_ (disk s) !! id);
        '(alloc_len, exts, a) ← lift (Allocator.allocate need alloc_unit 0 hint_val a);
        set_alloc id a;;
        if (alloc_len <? 0) || (alloc_len <? need) then
          (if 0 <? alloc_len then
             a ← lift (Allocator.release_vec exts a);
             set_alloc id a;;
             if is_shared_alloc id s then add_used (- alloc_len) else mret tt
           else mret tt);;
          next
        else
          (if is_shared_alloc id s then add_used alloc_len else mret tt);;
          let node := append_pextents id exts node in
          match hint with
          | None => mret (0, node, hint)
          | Some _ => last ← lift (last exts); mret (0, node, Some (Allocator.offset last +64 Allocator.length last))
          end
  end.

Definition _allocate (prefer_bdev len alloc_unit : Z) (node : bluefs_fnode_t) (hint : option Z) : M (Z * bluefs_fnode_t * option Z) :=
  s ← gets (fun s => s);
  let unit0 := default 0 (alloc_size_ (disk s) !! prefer_bdev) in
  let alloc_unit := if alloc_unit =? 0 then (if unit0 =? 0 then alloc_size (cfg_ s) else unit0) else alloc_unit in
  let need := IntArith.p2roundup 64 len alloc_unit in
  allocate_from (filter (fun id => prefer_bdev <= id) ids) prefer_bdev need alloc_unit node hint.

(** [_allocate] on the node of a file. *)
Definition allocate_file (r : fileref) (prefer_bdev len alloc_unit : Z) (hint : option Z) : M Z :=
  f ← get_file r;
  '(e, node, _) ← _allocate prefer_bdev len alloc_unit (f_node f) hint;
  put_file r (with_node node f);;
  mret e.

(** ** Writing extents *)

(** The loop of [_flush_data] and [_flush_log_data] over the extents from the
    one that was found on: the result, the bytes that are left, the devices. *)
Fixpoint write_extents (l : list bluefs_extent_t) (x_off : Z) (bl : bytes) (buffered : bool) (dirty : gset Z) : M (Z * bytes * gset Z) :=
  match l with
  | [] => mret (0, bl, dirty)
  | e :: t =>
      if (List.length bl =? 0)%nat then mret (0, bl, dirty)
      else
        let x_len := Z.min (length e -64 x_off) (zlen bl) in
        d ← (o ← gets (fun s => bdev_ (disk s) !! bdev e); lift o);
        let '(r, d) := Device.dev_write (offset e +64 x_off) (take (Z.to_nat x_len) bl) buffered d in
        set_device (bdev e) d;;
        if r <? 0 then mret (r, bl, dirty)
        else write_extents t 0 (drop (Z.to_nat x_len) bl) buffered ({[bdev e]} ∪ dirty)
  end.

(** [_flush_bdev]: the devices that were written are flushed. *)
Definition _flush_bdev (h : FileWriter) : M FileWriter :=
  each (fun id =>
    if bool_decide (id ∈ w_dirty h) then
      o ← gets (fun s => bdev_ (disk s) !! id);
      match o with Some d => set_device id (Device.dev_flush d).2 | None => mret tt end
    else mret tt) ids;;
  mret (with_dirty ∅ h).

Definition _create_writer (r : fileref) : M FileWriter := f ← get_file r; mret (mk_writer r (size (f_node f)) [] [] ∅).

(** ** The log *)

(** The writer of the log. *)
Definition log_writer : M FileWriter := o ← gets (fun s => writer (log_ s)); lift o.

Definition _flush_log_data (bl : bytes) : M Z :=
  h ← log_writer;
  f ← get_file (w_file h);
  let node := f_node f in
  let pos := w_pos h in
  '(r, rest, dirty) ←
    match seek pos node with
    | Some (idx, x_off) => write_extents (drop idx (extents node)) x_off bl false (w_dirty h)
    | None => mret (0, bl, w_dirty h)
    end;
  if r <? 0 then in_log (set_writer (Some (with_dirty dirty h)));; mret r
  else
    let written := zlen bl - zlen rest in
    let pos := pos +64 written in
    in_log (set_writer (Some (with_pos pos (with_dirty dirty h))));;
    put_file (w_file h) (if size node <? pos then with_node (set_size pos node) f else f);;
    if (List.length rest =? 0)%nat then mret 0 else mret (- ENOSPC).

Definition _consume_dirty (sq : Z) : M Z :=
  o ← gets (fun s => dirty_files (dirty_ s) !! sq);
  match o with
  | None => mret 0
  | Some l => each log_file_update_inc l;; mret 0
  end.

Definition _maybe_extend_log : M Z :=
  h ← log_writer;
  f ← get_file (w_file h);
  s ← gets (fun s => s);
  let expected_log_size := bound_encode denc_transaction (log_txn (log_ s)) in
  if w_pos h +64 expected_log_size +64 min_log_runway (cfg_ s) <? allocated (f_node f) then mret 0
  else
    let alloc_len := IntArith.p2roundup 64 (Z.max (min_log_runway (cfg_ s)) (expected_log_size +64 max_log_runway (cfg_ s))) (alloc_size (cfg_ s)) in
    v ← the_selector;
    prefer ← select_bdev (get_hint_for_log v);
    r ← allocate_file (w_file h) prefer alloc_len (alloc_size (cfg_ s)) (Some 0);
    if r <? 0 then mret r else log_file_update_inc (w_file h);; mret 0.

(** The bytes of a transaction, padded to whole blocks; the length is rounded
    up as a word of [w] bits. *)
Definition padded_to (w : Z) (t : bluefs_transaction_t) (block : Z) : bytes :=
  let bl := encode denc_transaction t in
  bl ++ replicate (Z.to_nat (IntArith.p2roundup w (zlen bl) block - zlen bl)) 0.
Definition padded : bluefs_transaction_t -> Z -> bytes := padded_to 32.

(** What is pending on one device is released. *)
Definition release_pending (id : Z) : M unit :=
  s ← gets (fun s => s);
  let p := default [] (pending_release (dirty_ s) !! id) in
  if (List.length p =? 0)%nat then mret tt
  else
    let released := foldl (fun n x => n +64 x.2) 0 p in
    (if is_shared_alloc id s then add_used (- released)
     else match alloc_ (disk s) !! id with
          | Some a => a ← lift (Allocator.release_vec ((fun x => Allocator.pextent x.1 x.2) <$> p) a); set_alloc id a
          | None => mret tt
          end);;
    in_dirty (fun d => set_pending (delete id (pending_release d)) d).

Definition _flush_and_sync_log (want_seq : Z) : M Z :=
  s ← gets (fun s => s);
  if negb (want_seq =? 0) && (want_seq <=? seq_stable (dirty_ s)) then mret 0
  else
    cxxlab_assert ((want_seq =? 0) || (want_seq <=? dirty_seq_live (dirty_ s)));;
    let sq := seq_live (log_ s) in
    in_log (set_seq_live (sq +64 1));;
    in_dirty (fun d => set_seqs (seq_stable d) (sq +64 1) d);;
    r ← _consume_dirty sq;
    if r <? 0 then mret r
    else
      r ← _maybe_extend_log;
      if r <? 0 then mret r
      else
        s ← gets (fun s => s);
        let t := mk_txn (s_uuid (super_ s)) sq (op_bl (log_txn (log_ s))) in
        in_log (fun l => set_txn (mk_txn (uuid (log_txn l)) (seq_live l) []) l);;
        r ← _flush_log_data (padded t (block_size (super_ s)));
        if r <? 0 then mret r
        else
          h ← log_writer;
          h ← _flush_bdev h;
          in_log (set_writer (Some (with_buffer [] h)));;
          o ← gets (fun s => dirty_files (dirty_ s) !! sq);
          each (fun r => update_file r (with_dirty_seq 0)) (default [] o);;
          in_dirty (fun d => set_dirty_files (delete sq (dirty_files d)) (set_seqs sq (dirty_seq_live d) d));;
          each release_pending ids;;
          mret 0.

(** ** Replaying the log *)

(** Decoding whose exceptions nobody catches. *)
Definition dec {T} (d : denc_traits T) (p : bytes) : M (T * bytes) := match decode d p with Ok x => mret x | Throw _ => lift None end.

(** [if (vselector_ && file->vselector_hint && fnode.ino != 1)] around the
    change of a node: its usage is taken back before and added after. *)
Definition change_node (r : fileref) (i : Z) (g : bluefs_fnode_t -> bluefs_fnode_t) : M unit :=
  f ← get_file r;
  let tracked := negb (vselector_hint f =? nullptr) && negb (i =? 1) in
  (if tracked then with_selector (sub_usage (vselector_hint f) (f_node f)) else mret tt);;
  put_file r (with_node (g (f_node f)) f);;
  (if tracked then with_selector (add_usage (vselector_hint f) (g (f_node f))) else mret tt).

(** [if (ino > ino_last_) ino_last_ = ino]. *)
Definition see_ino (i : Z) : M unit := in_nodes (fun n => set_ino_last (Z.max (ino_last_ n) i) n).

Definition replay_dir_create (dirname : bytes) : M unit := in_nodes (fun n => set_dir_map (<[dirname := ∅]> (dir_map n)) n).
Definition replay_dir_remove (dirname : bytes) : M unit := in_nodes (fun n => set_dir_map (delete dirname (dir_map n)) n).

Definition replay_dir_link (dirname filename : bytes) (i : Z) : M unit :=
  r ← _get_file i;
  o ← gets vselector_;
  (match o with
   | None => mret tt
   | Some v =>
       f ← get_file r;
       v ← lift (sub_usage (vselector_hint f) (f_node f) v);
       let hint := get_hint_by_dir dirname v in
       v ← lift (add_usage hint (f_node f) v);
       in_vselector (fun _ => Some v);;
       put_file r (with_hint hint f)
   end);;
  in_nodes (fun n => set_dir_map (alter (fun d => <[filename := r]> d) dirname (dir_map n)) n);;
  update_file r (fun f => with_refs (refs f + 1) f);;
  see_ino i.

Definition replay_dir_unlink (dirname filename : bytes) : M unit :=
  o ← gets (fun s => d ← dir_map (nodes_ s) !! dirname; d !! filename);
  match o with
  | None => mret tt
  | Some r =>
      f ← get_file r;
      cxxlab_assert (0 <? refs f);;
      put_file r (with_refs (refs f - 1) f);;
      in_nodes (fun n => set_dir_map (alter (delete filename) dirname (dir_map n)) n)
  end.

Definition replay_file_update (n : bluefs_fnode_t) : M unit :=
  r ← _get_file (ino n);
  change_node r (ino n) (fun _ => n);;
  see_ino (ino n).

Definition replay_file_update_inc (delta : bluefs_fnode_delta_t) : M unit :=
  r ← _get_file (d_ino delta);
  f ← get_file r;
  cxxlab_assert (d_offset delta =? allocated (f_node f));;
  change_node r (d_ino delta) (fun n => claim_extents (d_extents delta) (set_size (d_size delta) (set_mtime (d_mtime delta) n)));;
  see_ino (d_ino delta).

Definition replay_file_remove (i : Z) : M unit :=
  o ← gets (fun s => file_map (nodes_ s) !! i);
  match o with
  | None => mret tt
  | Some r =>
      f ← get_file r;
      (if negb (vselector_hint f =? nullptr) then with_selector (sub_usage (vselector_hint f) (f_node f)) else mret tt);;
      in_nodes (fun n => set_file_map (delete i (file_map n)) n)
  end.

(** How the operations of a transaction end: the sequence number, a jump to an
    offset, or an error. *)
Inductive op_result := ops_done (log_seq : Z) | ops_jump (log_seq pos : Z) | ops_error (r : Z).

(** One operation; [r] is the file of the log. *)
Definition replay_op (r : fileref) (s : bytes * Z) : M ((bytes * Z) + op_result) :=
  let '(p, log_seq) := s in
  if (List.length p =? 0)%nat then mret (inr (ops_done log_seq))
  else
    '(op, p) ← dec denc_u8 p;
    let next p := mret (inl (p, log_seq)) in
    if op =? OP_INIT then next p
    else if op =? OP_JUMP then
      '(next_seq, p) ← dec denc_u64 p;
      '(off, p) ← dec denc_u64 p;
      f ← get_file r;
      if next_seq <=? log_seq then mret (inr (ops_error (- EIO)))
      else if size (f_node f) <=? off then mret (inr (ops_error (- EIO)))
      else mret (inr (ops_jump (next_seq -64 1) off))
    else if op =? OP_JUMP_SEQ then
      '(next_seq, p) ← dec denc_u64 p;
      if next_seq <=? log_seq then mret (inr (ops_error (- EIO)))
      else mret (inl (p, next_seq -64 1))
    else if op =? OP_DIR_CREATE then '(dirname, p) ← dec denc_string p; replay_dir_create dirname;; next p
    else if op =? OP_DIR_REMOVE then '(dirname, p) ← dec denc_string p; replay_dir_remove dirname;; next p
    else if op =? OP_DIR_LINK then
      '(dirname, p) ← dec denc_string p;
      '(filename, p) ← dec denc_string p;
      '(i, p) ← dec denc_u64 p;
      replay_dir_link dirname filename i;; next p
    else if op =? OP_DIR_UNLINK then
      '(dirname, p) ← dec denc_string p;
      '(filename, p) ← dec denc_string p;
      replay_dir_unlink dirname filename;; next p
    else if op =? OP_FILE_UPDATE then '(n, p) ← dec denc_fnode p; replay_file_update n;; next p
    else if op =? OP_FILE_UPDATE_INC then '(d, p) ← dec denc_delta p; replay_file_update_inc d;; next p
    else if op =? OP_FILE_REMOVE then '(i, p) ← dec denc_u64 p; replay_file_remove i;; next p
    else mret (inr (ops_error (- EIO))).

(** Reading [len] bytes of the log at [pos] from the extent that holds it. *)
Definition read_log (r : fileref) (pos len : Z) : M (option (Z * bytes)) :=
  f ← get_file r;
  match seek pos (f_node f) with
  | None => mret None
  | Some (idx, x_off) =>
      e ← lift (extents (f_node f) !! idx);
      d ← (o ← gets (fun s => bdev_ (disk s) !! bdev e); lift o);
      mret (Some (Device.dev_read (offset e +64 x_off) (Z.min (length e -64 x_off) len) false d))
  end.

(** The loop that reads the rest of a transaction: [inl] is an error. *)
Definition read_more (r : fileref) (bs pos : Z) (s : bytes * Z) : M ((bytes * Z) + (Z + bytes)) :=
  let '(bl, more) := s in
  if more <=? 0 then mret (inr (inr bl))
  else
    f ← get_file r;
    let r_off := pos +64 zlen bl in
    let r_len := Z.min bs (size (f_node f) -64 r_off) in
    x ← read_log r r_off r_len;
    match x with
    | None => mret (inr (inr bl))
    | Some (e, more_bl) =>
        if e <? 0 then mret (inr (inl e))
        else mret (inl (bl ++ more_bl, more -64 IntArith.p2roundup 64 r_len bs))
    end.

(** One transaction: the state is the sequence number, the position and whether
    a transaction was seen; the result is the code and the first two. *)
Definition replay_step (r : fileref) (s : Z * Z * bool) : M ((Z * Z * bool) + (Z * Z * Z)) :=
  let '(log_seq, pos, seen_recs) := s in
  f ← get_file r;
  fs ← gets (fun s => s);
  let bs := block_size (super_ fs) in
  let sz := size (f_node f) in
  let break := mret (inr (0, log_seq, pos)) in
  let return_ e := mret (inr (e, log_seq, pos)) in
  let broken : M ((Z * Z * bool) + (Z * Z * Z)) := if negb seen_recs then return_ (- EIO) else break in
  if negb (pos <? sz) then break
  else
    x ← read_log r pos (Z.min bs (sz -64 pos));
    match x with
    | None => break
    | Some (e, bl) =>
        if e <? 0 then return_ e
        else if (List.length bl =? 0)%nat then break
        else
          '(_, p) ← dec denc_u8 bl;
          '(_, p) ← dec denc_u8 p;
          '(sl, _) ← dec denc_u32 p;
          let raw_tx_size := sl + 6 in
          let need := IntArith.p2roundup 64 raw_tx_size bs in
          y ← (if zlen bl <? need then whileS (read_more r bs pos) (bl, need -64 zlen bl) else mret (inr bl));
          match y with
          | inl e => return_ e
          | inr bl =>
              match decode denc_transaction bl with
              | Throw malformed_input => broken
              | Throw _ => lift None
              | Ok (t, _) =>
                  if negb (bool_decide (uuid t = s_uuid (super_ fs))) then broken
                  else if negb (seq t =? log_seq +64 1) then
                    (if seq t =? log_seq then break else return_ (- EIO))
                  else
                    z ← whileS (replay_op r) (op_bl t, log_seq);
                    match z with
                    | ops_error e => return_ e
                    | ops_jump log_seq pos => mret (inl (log_seq, pos, true))
                    | ops_done log_seq => mret (inl (log_seq +64 1, pos +64 need, true))
                    end
              end
          end
    end.

(** Files without links, other than the log, are dropped. *)
Definition is_orphan (n : nodes_t) (x : Z * fileref) : bool :=
  (1 <? x.1) && match heap n !! x.2 with Some f => refs f <=? 0 | None => false end.
Definition drop_orphans (n : nodes_t) : nodes_t :=
  set_file_map (filter (fun x => is_orphan n x = false) (file_map n)) n.

Definition _replay : M Z :=
  r ← _get_file 1;
  f ← get_file r;
  if (List.length (extents (f_node f)) =? 0)%nat then mret 0
  else
    '(e, log_seq, pos) ← whileS (replay_step r) (0, 0, false);
    if e <? 0 then mret e
    else
      in_log (set_seq_live (log_seq +64 1));;
      in_dirty (set_seqs log_seq (log_seq +64 1));;
      update_file r (fun f => with_node (set_size pos (f_node f)) f);;
      in_nodes drop_orphans;;
      mret 0.

(** ** [mkfs], [mount] and [umount] *)

(** The selector that is made when none was set, from the sizes of the devices. *)
Context (new_selector : Z -> Z -> Z -> V).

Definition ensure_selector : M unit :=
  s ← gets (fun s => s);
  match vselector_ s with
  | Some _ => mret tt
  | None => in_vselector (fun _ => Some (new_selector (_get_total BDEV_WAL s) (_get_total BDEV_DB s) (_get_total BDEV_SLOW s)))
  end.

Definition flush_device (id : Z) : M unit :=
  o ← gets (fun s => bdev_ (disk s) !! id);
  match o with Some d => set_device id (Device.dev_flush d).2 | None => mret tt end.

(** [id] is what [uuid.generate()] gives. *)
Definition mkfs (bluefs_alloc_size : Z) (id : bytes) : M Z :=
  ensure_selector;;
  _init_alloc;;
  in_super (fun u => mk_super id (replicate 16 0) (version u) 4096 (log_fnode u));;
  v ← the_selector;
  r ← make_file (with_hint (get_hint_for_log v) (new_file 1));
  prefer ← select_bdev (get_hint_for_log v);
  e ← allocate_file r prefer BLUEFS_LOG_INITIAL bluefs_alloc_size (Some 0);
  if e <? 0 then mret e
  else
    f ← get_file r;
    v ← the_selector;
    v ← lift (add_usage (vselector_hint f) (f_node f) v);
    in_vselector (fun _ => Some v);;
    h ← _create_writer r;
    in_log (fun l => set_writer (Some h) (set_txn (op_init (mk_txn id 1 (op_bl (log_txn l)))) l));;
    t ← gets (fun s => log_txn (log_ s));
    _ ← _flush_log_data (padded t 4096);
    h ← log_writer;
    h ← _flush_bdev h;
    f ← get_file r;
    in_super (fun u => mk_super (s_uuid u) (osd_uuid u) (version u) (block_size u) (f_node f));;
    e ← _write_super BDEV_DB;
    if e <? 0 then mret e
    else
      flush_device BDEV_DB;;
      in_log (set_writer None);;
      mret 0.

(** The space of a file is taken from the allocators. *)
Definition claim_extent (e : bluefs_extent_t) : M unit :=
  s ← gets (fun s => s);
  if is_shared_alloc (bdev e) s then add_used (length e)
  else match alloc_ (disk s) !! bdev e with
       | Some a => a ← lift (Allocator.init_rm_free (offset e) (length e) a); set_alloc (bdev e) a
       | None => mret tt
       end.
Definition claim_file (r : fileref) : M unit :=
  f ← get_file r;
  each claim_extent (extents (f_node f));;
  with_selector (add_usage (vselector_hint f) (f_node f)).

(** The order of an [unordered_map] is that of [map_to_list]. *)
Definition mount : M Z :=
  e ← _open_super;
  if e <? 0 then mret e
  else
    ensure_selector;;
    _init_alloc;;
    v ← the_selector;
    s ← gets (fun s => s);
    r ← make_file (with_hint (get_hint_for_log v) (with_node (log_fnode (super_ s)) (new_file 1)));
    in_nodes (fun n => set_ino_last 1 (set_file_map (<[1 := r]> (file_map n)) n));;
    e ← _replay;
    if e <? 0 then mret e
    else
      m ← gets (fun s => file_map (nodes_ s));
      each claim_file (map_to_list m).*2;;
      r1 ← _get_file 1;
      h ← _create_writer r1;
      f ← get_file r;
      in_log (set_writer (Some (with_pos (size (f_node f)) h)));;
      put_file r (with_node (reset_delta (f_node f)) f);;
      mret 0.
End BlueFS.
End BlueFS.
