(* ===== verification/BlueFSOps.v ===== *)
(** * bluefs/bluefs.cc: the operations on files and directories

    Creation, removal and renaming, the data path, synchronization of metadata,
    compaction of the log, and unmounting. *)
From stdpp Require Import base numbers list gmap sorting.
From Stdlib Require Import ZArith Lia ZifyBool SpecFloat.
From S2P Require Import Prelude Floats IntArith Allocator Device Denc BluefsTypes VolumeSelector KeyValue BlueFS.
Import Floats Denc BluefsTypes VolumeSelector BlueFS.

Module BlueFSOps.

(** The keys of a [std::map] of strings, in order. *)
Definition str_le (a b : bytes) : Prop := KeyValue.str_lt b a = false.
#[global] Instance str_le_dec a b : Decision (str_le a b).
Proof. unfold str_le. apply _. Defined.
Definition sorted_keys {X} (m : gmap bytes X) : list bytes := merge_sort str_le (map_to_list m).*1.

Record FileReader := mk_reader { r_file : fileref; bl_off : Z; r_bl : bytes; r_pos : Z; r_max_prefetch : Z; random : bool; ignore_eof : bool }.

Definition get_buf_end (h : FileReader) : Z := bl_off h +64 zlen (r_bl h).
Definition get_buf_remaining (p : Z) (h : FileReader) : Z :=
  if (bl_off h <=? p) && (p <? bl_off h +64 zlen (r_bl h)) then bl_off h +64 zlen (r_bl h) -64 p else 0.
Definition with_buf (off : Z) (b : bytes) (h : FileReader) : FileReader := mk_reader (r_file h) off b (r_pos h) (r_max_prefetch h) (random h) (ignore_eof h).
Definition with_rpos (p : Z) (h : FileReader) : FileReader := mk_reader (r_file h) (bl_off h) (r_bl h) p (r_max_prefetch h) (random h) (ignore_eof h).

(** [FileReaderBuffer::skip] and [invalidate_cache]. *)
Definition skip (n : Z) (h : FileReader) : FileReader := with_rpos (r_pos h +64 n) h.
Definition buf_invalidate_cache (off len : Z) (h : FileReader) : FileReader :=
  if (bl_off h <=? off) && (off <? get_buf_end h) then with_buf 0 [] h else h.

Section Ops.
Context {D A V : Type} `{!Device.BlockDevice D} `{!Allocator.Allocator A} `{!VolumeSelector V}.
(** [BlockDevice::get_block_size]. *)
Context (dev_block_size : D -> Z).

Abbreviation M := (M (D := D) (A := A) (V := V)).

(** [nodes_.dir_map.find(dirname)] and [dir->file_map.find(filename)]. *)
Definition find_dir (dirname : bytes) : M (option (gmap bytes fileref)) := gets (fun s => dir_map (nodes_ s) !! dirname).
Definition find_file (dirname filename : bytes) : M (option fileref) := gets (fun s => d ← dir_map (nodes_ s) !! dirname; d !! filename).
Definition set_entry (dirname filename : bytes) (r : fileref) : M unit :=
  in_nodes (fun n => set_dir_map (alter (fun d => <[filename := r]> d) dirname (dir_map n)) n).
Definition erase_entry (dirname filename : bytes) : M unit :=
  in_nodes (fun n => set_dir_map (alter (delete filename) dirname (dir_map n)) n).

(** Extents are released by the next flush of the log. *)
Definition pend_extent (e : bluefs_extent_t) : M unit :=
  in_dirty (fun d => set_pending (<[bdev e := map_insert (offset e) (length e) (default [] (pending_release d !! bdev e))]> (pending_release d)) d).

(** ** Directories *)

Definition mkdir (dirname : bytes) : M Z :=
  o ← find_dir dirname;
  match o with
  | Some _ => mret (- EEXIST)
  | None =>
      in_nodes (fun n => set_dir_map (<[dirname := ∅]> (dir_map n)) n);;
      log_op (op_dir_create dirname);;
      mret 0
  end.

Definition rmdir (dirname : bytes) : M Z :=
  o ← find_dir dirname;
  match o with
  | None => mret (- ENOENT)
  | Some dir =>
      if negb (bool_decide (dir = ∅)) then mret (- ENOTEMPTY)
      else
        in_nodes (fun n => set_dir_map (delete dirname (dir_map n)) n);;
        log_op (op_dir_remove dirname);;
        mret 0
  end.

Definition dir_exists (dirname : bytes) (s : bluefs (D := D) (A := A) (V := V)) : bool := bool_decide (is_Some (dir_map (nodes_ s) !! dirname)).

(** The trailing slashes of a name. *)
Fixpoint strip_slashes (l : bytes) : bytes :=
  match l with 47 :: t => strip_slashes t | _ => l end.

Definition readdir (dirname : bytes) : M (Z * list bytes) :=
  let dirname := reverse (strip_slashes (reverse dirname)) in
  s ← gets (fun s => s);
  if (List.length dirname =? 0)%nat then mret (0, sorted_keys (dir_map (nodes_ s)))
  else
    o ← find_dir dirname;
    match o with
    | None => mret (- ENOENT, [])
    | Some dir => mret (0, sorted_keys dir)
    end.

(** ** Files *)

(** The result, the size and the time. *)
Definition stat (dirname filename : bytes) : M (Z * Z * Z) :=
  o ← find_file dirname filename;
  match o with
  | None => mret (- ENOENT, 0, 0)
  | Some r => f ← get_file r; mret (0, size (f_node f), mtime (f_node f))
  end.

Definition _drop_link (r : fileref) : M unit :=
  f ← get_file r;
  cxxlab_assert (0 <? refs f);;
  put_file r (with_refs (refs f - 1) f);;
  if negb (refs f - 1 =? 0) then mret tt
  else
    with_selector (sub_usage (vselector_hint f) (f_node f));;
    log_op (op_file_remove (ino (f_node f)));;
    in_nodes (fun n => set_file_map (delete (ino (f_node f)) (file_map n)) n);;
    update_file r (with_deleted true);;
    each pend_extent (extents (f_node f));;
    stable ← gets (fun s => seq_stable (dirty_ s));
    if stable <? dirty_seq f then
      in_dirty (fun d => set_dirty_files
        (match dirty_files d !! dirty_seq f with
         | None => dirty_files d
         | Some l => let l := filter (fun x => x <> r) l in if (List.length l =? 0)%nat then delete (dirty_seq f) (dirty_files d) else <[dirty_seq f := l]> (dirty_files d)
         end) d);;
      update_file r (with_dirty_seq stable)
    else mret tt.

Definition unlink (dirname filename : bytes) : M Z :=
  o ← find_file dirname filename;
  match o with
  | None => mret (- ENOENT)
  | Some r =>
      erase_entry dirname filename;;
      log_op (op_dir_unlink dirname filename);;
      _drop_link r;;
      mret 0
  end.

Definition rename (old_dirname old_filename new_dirname new_filename : bytes) : M Z :=
  o ← find_file old_dirname old_filename;
  match o with
  | None => mret (- ENOENT)
  | Some r =>
      nd ← find_dir new_dirname;
      match nd with
      | None => mret (- ENOENT)
      | Some dir =>
          (match dir !! new_filename with
           | Some r' => if negb (r' =? r) then log_op (op_dir_unlink new_dirname new_filename) else mret tt
           | None => mret tt
           end);;
          set_entry new_dirname new_filename r;;
          erase_entry old_dirname old_filename;;
          f ← get_file r;
          log_op (op_dir_link new_dirname new_filename (ino (f_node f)));;
          log_op (op_dir_unlink old_dirname old_filename);;
          mret 0
      end
  end.

(** [now] is the time of the steady clock. *)
Definition open_for_write (dirname filename : bytes) (overwrite : bool) (now : Z) : M (Z * option FileWriter) :=
  od ← find_dir dirname;
  match od with
  | None => mret (- ENOENT, None)
  | Some dir =>
      if negb (bool_decide (is_Some (dir !! filename))) && overwrite then mret (- ENOENT, None)
      else
        '(r, created, old) ←
          match dir !! filename with
          | None =>
              v ← the_selector;
              i ← gets (fun s => ino_last_ (nodes_ s) +64 1);
              r ← make_file (with_refs 1 (with_hint (get_hint_by_dir dirname v) (new_file i)));
              in_nodes (fun n => set_ino_last i (set_file_map (<[i := r]> (file_map n)) n));;
              set_entry dirname filename r;;
              mret (r, true, [])
          | Some r =>
              if overwrite then mret (r, false, [])
              else
                f ← get_file r;
                v ← the_selector;
                v ← lift (sub_usage (vselector_hint f) (f_node f) v);
                in_vselector (fun _ => Some v);;
                put_file r (with_node (clear_extents (set_size 0 (f_node f))) f);;
                mret (r, false, extents (f_node f))
          end;
        update_file r (fun f => with_node (set_mtime now (f_node f)) f);;
        log_file_update r;;
        (if created : bool then f ← get_file r; log_op (op_dir_link dirname filename (ino (f_node f))) else mret tt);;
        each pend_extent old;;
        h ← _create_writer r;
        mret (0, Some h)
  end.

Definition open_for_read (dirname filename : bytes) (rnd : bool) : M (Z * option FileReader) :=
  o ← find_file dirname filename;
  match o with
  | None => mret (- ENOENT, None)
  | Some r =>
      pf ← gets (fun s => max_prefetch (cfg_ s));
      mret (0, Some (mk_reader r 0 [] 0 (if rnd then 4096 else pf) rnd false))
  end.

(** The new file that a lock of a missing name makes is not logged. *)
Definition lock_file (dirname filename : bytes) : M (Z * option fileref) :=
  od ← find_dir dirname;
  match od with
  | None => mret (- ENOENT, None)
  | Some dir =>
      match dir !! filename with
      | None =>
          i ← gets (fun s => ino_last_ (nodes_ s) +64 1);
          r ← make_file (with_refs 1 (new_file i));
          in_nodes (fun n => set_ino_last i (set_file_map (<[i := r]> (file_map n)) n));;
          set_entry dirname filename r;;
          update_file r (with_locked true);;
          mret (0, Some r)
      | Some r =>
          f ← get_file r;
          if locked f then mret (- ENOLCK, None)
          else put_file r (with_locked true f);; mret (0, Some r)
      end
  end.

Definition unlock_file (r : fileref) : M Z :=
  f ← get_file r;
  cxxlab_assert (locked f);;
  put_file r (with_locked false f);;
  mret 0.

(** ** Writing *)

(** [FileWriter::flush_buffer]. *)
Definition flush_buffer (block_size block_mask : Z) (h : FileWriter) : bytes * FileWriter :=
  let bl := w_tail h ++ w_buffer h in
  let tail := Z.land (zlen bl) block_mask in
  let bl := if (1 <? block_size) && negb (tail =? 0) then bl ++ replicate (Z.to_nat (block_size - tail)) 0 else bl in
  (bl, mk_writer (w_file h) (w_pos h) [] [] (w_dirty h)).

Definition _flush_data (h : FileWriter) (off len : Z) (bl : bytes) (buffered : bool) : M (Z * FileWriter) :=
  f ← get_file (w_file h);
  if len =? 0 then mret (0, h)
  else
    match seek off (f_node f) with
    | None => mret (- ENOENT, h)
    | Some (idx, x_off) =>
        '(r, _, dirty) ← write_extents (drop idx (extents (f_node f))) x_off bl buffered (w_dirty h);
        mret (r, with_dirty dirty h)
    end.

(** [bl] is the padded buffer, if there is one. *)
Definition _flush_range_F (h : FileWriter) (off len : Z) (bl : option bytes) : M (Z * FileWriter) :=
  f ← get_file (w_file h);
  if deleted f then mret (0, h)
  else if off +64 len <=? w_pos h then mret (0, h)
  else
    let '(off, len) := if off <? w_pos h then (w_pos h, len -64 (w_pos h -64 off)) else (off, len) in
    let write_length := match bl with Some b => Z.max (zlen b) len | None => len end in
    let alloc := get_allocated (f_node f) in
    e ← (if alloc <? off +64 write_length then
           prefer ← select_bdev (vselector_hint f);
           e ← allocate_file (w_file h) prefer (off +64 write_length -64 alloc) 0 None;
           if e <? 0 then mret e else update_file (w_file h) (with_is_dirty true);; mret 0
         else mret 0);
    if e <? 0 then mret (e, h)
    else
      f ← get_file (w_file h);
      (if size (f_node f) <? off +64 len then
         (if negb (vselector_hint f =? nullptr) then with_selector (add_usage_size (vselector_hint f) (off +64 len -64 size (f_node f)) false) else mret tt);;
         update_file (w_file h) (fun f => with_is_dirty true (with_node (set_size (off +64 len) (f_node f)) f))
       else mret tt);;
      buffered ← gets (fun s => buffered_io (cfg_ s));
      '(e, h) ←
        match bl with
        | Some b => if (0 <? zlen b) then _flush_data h off (zlen b) b buffered else mret (0, h)
        | None => mret (0, h)
        end;
      if e <? 0 then mret (e, h) else mret (0, with_pos (w_pos h +64 len) h).

Definition _flush_F (h : FileWriter) (force : bool) : M (Z * FileWriter) :=
  let len := zlen (w_buffer h) in
  s ← gets (fun s => s);
  if len =? 0 then mret (0, h)
  else if negb force && (len <? min_flush_size (cfg_ s)) then mret (0, h)
  else
    let block_size := if buffered_io (cfg_ s) then 1 else match bdev_ (disk s) !! 0 with Some d => dev_block_size d | None => 4096 end in
    let '(bl, h) := flush_buffer block_size (block_size -64 1) h in
    if (List.length bl =? 0)%nat then mret (0, h) else _flush_range_F h (w_pos h) len (Some bl).

Definition append_try_flush (h : FileWriter) (buf : bytes) : M (Z * FileWriter) :=
  let h := with_buffer (w_buffer h ++ buf) h in
  m ← gets (fun s => min_flush_size (cfg_ s));
  if m <=? zlen (w_buffer h) then _flush_F h false else mret (0, h).

Definition flush (h : FileWriter) (force : bool) : M (Z * FileWriter) := _flush_F h force.

Definition flush_range (h : FileWriter) (off len : Z) : M FileWriter := '(_, h) ← _flush_range_F h off len None; mret h.

Definition close_writer (h : FileWriter) : M Z :=
  '(e, h) ← _flush_F h true;
  if e <? 0 then mret e else _ ← _flush_bdev h; mret 0.

Definition _signal_dirty_to_log (r : fileref) : M unit :=
  f ← get_file r;
  s ← gets (fun s => s);
  let d := dirty_ s in
  if deleted f then mret tt
  else
    (if (seq_stable d <? dirty_seq f) && negb (dirty_seq f =? dirty_seq_live d) then
       let files :=
         match dirty_files d !! dirty_seq f with
         | None => dirty_files d
         | Some l => let l := filter (fun x => x <> r) l in if (List.length l =? 0)%nat then delete (dirty_seq f) (dirty_files d) else <[dirty_seq f := l]> (dirty_files d)
         end in
       put_file r (with_dirty_seq (dirty_seq_live d) f);;
       in_dirty (set_dirty_files (<[dirty_seq_live d := default [] (files !! dirty_seq_live d) ++ [r]]> files))
     else if (dirty_seq f <=? seq_stable d) || (dirty_seq f =? 0) then
       put_file r (with_dirty_seq (dirty_seq_live d) f);;
       in_dirty (set_dirty_files (<[dirty_seq_live d := default [] (dirty_files d !! dirty_seq_live d) ++ [r]]> (dirty_files d)))
     else mret tt);;
    update_file r (with_is_dirty false).

Definition fsync (h : FileWriter) : M (Z * FileWriter) :=
  '(e, h) ← _flush_F h true;
  if e <? 0 then mret (e, h)
  else
    h ← _flush_bdev h;
    f ← get_file (w_file h);
    (if is_dirty f then _signal_dirty_to_log (w_file h);; update_file (w_file h) (with_is_dirty false) else mret tt);;
    f ← get_file (w_file h);
    stable ← gets (fun s => seq_stable (dirty_ s));
    if stable <? dirty_seq f then
      e ← _flush_and_sync_log (dirty_seq f);
      mret (e, h)
    else mret (0, h).

(** The extents of a truncated file: what is kept, and what is freed. *)
Fixpoint truncate_extents (off pos : Z) (l : list bluefs_extent_t) (node : bluefs_fnode_t) (to_free : list bluefs_extent_t) : bluefs_fnode_t * list bluefs_extent_t :=
  match l with
  | [] => (node, to_free)
  | e :: t =>
      let '(node, to_free) :=
        if pos <? off then
          let keep := Z.min (length e) (off -64 pos) in
          (append_extent (bluefs_extent (bdev e) (offset e) keep) node,
           if keep <? length e then to_free ++ [bluefs_extent (bdev e) (offset e +64 keep) (length e -64 keep)] else to_free)
        else (node, to_free ++ [bluefs_extent (bdev e) (offset e) (length e)]) in
      truncate_extents off (pos +64 length e) t node to_free
  end.

Definition truncate (h : FileWriter) (off : Z) : M (Z * FileWriter) :=
  f ← get_file (w_file h);
  if deleted f then mret (0, h)
  else if ino (f_node f) <=? 1 then mret (- EINVAL, h)
  else if size (f_node f) <? off then mret (- EINVAL, h)
  else if off =? size (f_node f) then mret (0, h)
  else
    '(e, h) ← (if 0 <? zlen (w_buffer h) then _flush_F h true else mret (0, h));
    if e <? 0 then mret (e, h)
    else
      h ← _flush_bdev h;
      f ← get_file (w_file h);
      with_selector (sub_usage (vselector_hint f) (f_node f));;
      let node := f_node f in
      let '(node, to_free) := truncate_extents off 0 (extents node) (set_extents [] [] 0 (allocated_committed node) node) [] in
      put_file (w_file h) (with_is_dirty true (with_node (set_size off node) f));;
      with_selector (add_usage (vselector_hint f) (set_size off node));;
      each pend_extent to_free;;
      log_file_update (w_file h);;
      mret (0, h).

Definition preallocate (r : fileref) (off len : Z) : M Z :=
  f ← get_file r;
  if deleted f then mret 0
  else
    cxxlab_assert (1 <? ino (f_node f));;
    let alloc := get_allocated (f_node f) in
    if alloc <? off +64 len then
      prefer ← select_bdev (vselector_hint f);
      e ← allocate_file r prefer (off +64 len -64 alloc) 0 None;
      if e <? 0 then mret e else log_file_update_inc r;; mret 0
    else mret 0.

(** ** Reading *)

(** The length that can be read, at the end of the file. *)
Definition clip_len (h : FileReader) (sz off len : Z) : Z :=
  if negb (ignore_eof h) && (sz <? off +64 len) then (if sz <? off then 0 else sz -64 off) else len.

(** An iteration of [_read]: the reader, the offset, the rest of the length and
    what was read. *)
Definition read_step (s : FileReader * Z * Z * bytes) : M ((FileReader * Z * Z * bytes) + (Z * bytes * FileReader)) :=
  let '(h, off, len, out) := s in
  if negb (0 <? len) then mret (inr (zlen out, out, h))
  else
    fs ← gets (fun s => s);
    f ← get_file (r_file h);
    if (off <? bl_off h) || (get_buf_end h <=? off) then
      let h := with_buf (Z.land off (block_mask (super_ fs))) [] h in
      match seek (bl_off h) (f_node f) with
      | None => mret (inr (zlen out, out, h))
      | Some (idx, x_off) =>
          e ← lift (extents (f_node f) !! idx);
          d ← lift (bdev_ (disk fs) !! bdev e);
          let bs := block_size (super_ fs) in
          let off_align := Z.land off (not64 (block_mask (super_ fs))) in
          let want := Z.max (IntArith.p2roundup 64 (len +64 off_align) bs) (r_max_prefetch h) in
          let l := Z.min (Z.min (length e -64 x_off) want) (2 ^ 30) in
          let eof_offset := IntArith.p2roundup 64 (size (f_node f)) bs in
          let l := if negb (ignore_eof h) && (eof_offset <? bl_off h +64 l) then eof_offset -64 bl_off h else l in
          let use_buffered := if ino (f_node f) =? 1 then false else buffered_io (cfg_ fs) in
          let '(r, b) := Device.dev_read (offset e +64 x_off) l use_buffered d in
          if r <? 0 then mret (inr (r, out, h)) else mret (inl (with_buf (bl_off h) b h, off, len, out))
      end
    else
      let r := Z.min len (get_buf_remaining off h) in
      let b := take (Z.to_nat r) (drop (Z.to_nat (off - bl_off h)) (r_bl h)) in
      mret (inl (with_rpos (r_pos h +64 r) h, off +64 r, len -64 r, out ++ b)).

Definition _read (h : FileReader) (off len : Z) : M (Z * bytes * FileReader) :=
  f ← get_file (r_file h);
  whileS read_step (h, off, clip_len h (size (f_node f)) off len, []).

Definition read_random_step (h : FileReader) (s : Z * Z * bytes) : M ((Z * Z * bytes) + (Z * bytes)) :=
  let '(off, len, out) := s in
  if negb (0 <? len) then mret (inr (zlen out, out))
  else
    fs ← gets (fun s => s);
    f ← get_file (r_file h);
    match seek off (f_node f) with
    | None => mret (inr (zlen out, out))
    | Some (idx, x_off) =>
        e ← lift (extents (f_node f) !! idx);
        d ← lift (bdev_ (disk fs) !! bdev e);
        let l := Z.min (Z.min (length e -64 x_off) len) (2 ^ 30) in
        let use_buffered := if ino (f_node f) =? 1 then false else buffered_io (cfg_ fs) in
        let '(r, b) := Device.dev_read (offset e +64 x_off) l use_buffered d in
        if r <? 0 then mret (inr (r, out)) else mret (inl (off +64 l, len -64 l, out ++ b))
    end.

Definition _read_random (h : FileReader) (off len : Z) : M (Z * bytes) :=
  f ← get_file (r_file h);
  whileS (read_random_step h) (off, clip_len h (size (f_node f)) off len, []).

(** ** The log and its compaction *)

(** [sizeof] of the two structs is a constant of the platform. *)
Context (sizeof_fnode sizeof_delta : Z).

Definition _estimate_log_size (s : bluefs (D := D) (A := A) (V := V)) : Z :=
  let files := Z.of_nat (base.size (file_map (nodes_ s))) in
  let dirs := Z.of_nat (base.size (dir_map (nodes_ s))) in
  let sz := 4096 * 2 +64 files *64 (1 + sizeof_fnode + sizeof_delta) +64 dirs *64 (1 + 40) +64 files *64 (1 + 40 + 12) +64 24 in
  IntArith.p2roundup 64 sz (block_size (super_ s)).

Definition _should_compact : M bool :=
  c ← gets (fun s => log_is_compacting_ (log_ s));
  if c : bool then mret false
  else
    r ← _get_file 1;
    f ← get_file r;
    s ← gets (fun s => s);
    let current := size (f_node f) in
    let expected := _estimate_log_size s in
    if current <? log_compact_min_size (cfg_ s) then mret false
    else mret (negb (SFltb (ddiv (to_double current) (to_double expected)) (log_compact_min_ratio (cfg_ s)))).

(** Every directory, every link and every file but the log. *)
Definition dump_dir (s : bluefs (D := D) (A := A) (V := V)) (t : bluefs_transaction_t) (dirname : bytes) : bluefs_transaction_t :=
  let dir := default ∅ (dir_map (nodes_ s) !! dirname) in
  foldl (fun t fname =>
      match (r ← dir !! fname; heap (nodes_ s) !! r) with
      | Some f => if ino (f_node f) =? 1 then t else op_dir_link dirname fname (ino (f_node f)) t
      | None => t
      end) (op_dir_create dirname t) (sorted_keys dir).

Definition dump_file (x : Z * fileref) (t : bluefs_transaction_t) : M bluefs_transaction_t :=
  if x.1 =? 1 then mret t
  else
    f ← get_file x.2;
    let '(n, t) := op_file_update (f_node f) t in
    put_file x.2 (with_node n f);; mret t.
Fixpoint dump_files (l : list (Z * fileref)) (t : bluefs_transaction_t) : M bluefs_transaction_t :=
  match l with [] => mret t | x :: l => t ← dump_file x t; dump_files l t end.

Definition _compact_log_dump_metadata (t : bluefs_transaction_t) : M bluefs_transaction_t :=
  s ← gets (fun s => s);
  let t := mk_txn (s_uuid (super_ s)) (seq t) (op_bl t) in
  let t := foldl (dump_dir s) t (sorted_keys (dir_map (nodes_ s))) in
  dump_files (map_to_list (file_map (nodes_ s))) t.

(** [if (vselector_ && log_hint)] around the two calls for a node. *)
Definition log_usage (hint : Z) (f : V -> option V) : M unit := if hint =? nullptr then mret tt else with_selector f.

Definition _compact_log_async : M Z :=
  was_compacting ← gets (fun s => log_is_compacting_ (log_ s));
  in_log (set_compacting true);;
  let leave r := in_log (set_compacting false);; mret r in
  if was_compacting : bool then mret 0
  else
    cur_seq ← gets (fun s => seq_live (log_ s));
    c ← _should_compact;
    if negb c then leave 0
    else
      r ← _get_file 1;
      f ← get_file r;
      v ← the_selector;
      prefer ← select_bdev (get_hint_for_log v);
      let log_hint := vselector_hint f in
      let old_fnode := fnode_copy (f_node f) in
      s ← gets (fun s => s);
      t ← _compact_log_dump_metadata (mk_txn (s_uuid (super_ s)) 1 []);
      let bl := padded_to 64 (op_jump_seq cur_seq t) (block_size (super_ s)) in
      log_usage log_hint (fun v => v ← sub_usage log_hint old_fnode v; sub_usage_size log_hint (size old_fnode) true v);;
      update_file r (fun f => with_node (clear_extents (f_node f)) f);;
      e ← allocate_file r prefer (zlen bl) (alloc_size (cfg_ s)) (Some 0);
      if e <? 0 then update_file r (with_node old_fnode);; leave e
      else
        f ← get_file r;
        log_usage log_hint (fun v => v ← add_usage log_hint (f_node f) v; add_usage_size log_hint (size (f_node f)) true v);;
        h ← _create_writer r;
        update_file r (fun f => with_node (set_size 0 (f_node f)) f);;
        '(e, h) ← _flush_data (with_pos 0 h) 0 (zlen bl) bl false;
        if e <? 0 then in_log (set_writer (Some h));; leave e
        else
          h ← _flush_bdev (with_pos (w_pos h +64 zlen bl) h);
          in_log (set_writer (Some h));;
          f ← get_file r;
          in_super (fun u => mk_super (s_uuid u) (osd_uuid u) (version u) (block_size u) (f_node f));;
          e ← _write_super BDEV_DB;
          if e <? 0 then leave e
          else
            flush_device BDEV_DB;;
            each pend_extent (extents old_fnode);;
            in_log (fun l => set_txn (mk_txn (s_uuid (super_ s)) (seq_live l) []) l);;
            leave 0.

Definition _maybe_compact_log : M unit := c ← _should_compact; if c : bool then _ ← _compact_log_async; mret tt else mret tt.

Definition compact_log : M Z := _compact_log_async.

(** The superblock gets the node of the log. *)
Definition store_log_fnode : M unit :=
  r ← _get_file 1;
  f ← get_file r;
  in_super (fun u => mk_super (s_uuid u) (osd_uuid u) (version u) (block_size u) (f_node f)).

Definition sync_metadata (avoid_compact : bool) : M Z :=
  e ← _flush_and_sync_log 0;
  if e <? 0 then mret e
  else
    store_log_fnode;;
    e ← _write_super BDEV_DB;
    if e <? 0 then mret e
    else
      flush_device BDEV_DB;;
      (if avoid_compact then mret tt else _maybe_compact_log);;
      mret 0.

Definition umount (avoid_compact : bool) : M unit :=
  o ← gets (fun s => writer (log_ s));
  (match o with
   | None => mret tt
   | Some _ =>
       _ ← _flush_and_sync_log 0;
       h ← log_writer;
       h ← _flush_bdev h;
       in_log (set_writer (Some h));;
       (if avoid_compact then mret tt else _maybe_compact_log);;
       store_log_fnode;;
       _ ← _write_super BDEV_DB;
       in_log (set_writer None)
   end);;
  in_vselector (fun _ => None);;
  _stop_alloc;;
  in_nodes (fun n => set_file_map ∅ (set_dir_map ∅ n));;
  in_dirty (fun d => set_dirty_files ∅ (set_seqs 0 1 d));;
  in_log (fun l => mk_log 1 (writer l) txn_new (log_is_compacting_ l));;
  in_super (fun _ => super_new).
End Ops.
End BlueFSOps.
