(* ===== verification/BlueFSNodes.v ===== *)
(** * The directories of the file system, and the log of their changes

    [names] is what a client can see: every directory with its files and their
    nodes.  A change of it is logged as a group of operations; the operation
    changes [names] as [change] says, and so does the replay of its group. *)
From stdpp Require Import base numbers list gmap.
From Stdlib Require Import ZArith Lia ZifyBool.
From S2P Require Import Prelude Allocator Device Denc DencSpec BluefsTypes BluefsTypesSpec VolumeSelector BlueFS BlueFSOps.
Import Denc DencSpec BluefsTypes BluefsTypesSpec VolumeSelector BlueFS BlueFSOps.

Module BlueFSNodes.

(** A selector that does not track usage. *)
Class Untracked (V : Type) `{VolumeSelector V} : Prop := {
  untracked_add h f (v : V) : add_usage h f v = Some v;
  untracked_sub h f (v : V) : sub_usage h f v = Some v;
}.
#[global] Instance original_untracked : Untracked original_selector.
Proof. split; intros h f v; unfold add_usage, sub_usage; generalize (extents f); intros l; induction l; simpl in *; auto. Qed.
#[global] Instance fit_to_fast_untracked : Untracked fit_to_fast_selector.
Proof. split; intros h f v; unfold add_usage, sub_usage; generalize (extents f); intros l; induction l; simpl in *; auto. Qed.

(** ** Operations of the log *)

Inductive lop :=
  | OpInit
  | OpDirCreate (d : bytes)
  | OpDirRemove (d : bytes)
  | OpDirLink (d f : bytes) (i : Z)
  | OpDirUnlink (d f : bytes)
  | OpFileUpdate (n : bluefs_fnode_t)
  | OpFileRemove (i : Z).

Definition enc (o : lop) : bytes :=
  match o with
  | OpInit => encode denc_u8 OP_INIT
  | OpDirCreate d => encode denc_u8 OP_DIR_CREATE ++ encode denc_string d
  | OpDirRemove d => encode denc_u8 OP_DIR_REMOVE ++ encode denc_string d
  | OpDirLink d f i => encode denc_u8 OP_DIR_LINK ++ encode denc_string d ++ encode denc_string f ++ encode denc_u64 i
  | OpDirUnlink d f => encode denc_u8 OP_DIR_UNLINK ++ encode denc_string d ++ encode denc_string f
  | OpFileUpdate n => encode denc_u8 OP_FILE_UPDATE ++ encode denc_fnode n
  | OpFileRemove i => encode denc_u8 OP_FILE_REMOVE ++ encode denc_u64 i
  end.

Definition name_ok (s : bytes) : Prop := is_bytes s /\ zlen s < 2 ^ 32.

Definition lop_ok (o : lop) : Prop :=
  match o with
  | OpInit => True
  | OpDirCreate d | OpDirRemove d => name_ok d
  | OpDirLink d f i => name_ok d /\ name_ok f /\ uint 64 i
  | OpDirUnlink d f => name_ok d /\ name_ok f
  | OpFileUpdate n => fields_valid n
  | OpFileRemove i => uint 64 i
  end.

Section Nodes.
Context {D A V : Type} `{!Device.BlockDevice D} `{!Allocator.Allocator A} `{!VolumeSelector V} `{!Untracked V}.
Abbreviation M := (M (D := D) (A := A) (V := V)).
Abbreviation fs_t := (bluefs (D := D) (A := A) (V := V)).

Lemma M_bind_eq {X Y} (m : M X) (f : X -> M Y) s : (m ≫= f) s = match m s with Some (x, s) => f x s | None => None end.
Proof. done. Qed.

Lemma M_bind_some {X Y} (m : M X) (f : X -> M Y) s x s' : m s = Some (x, s') -> (m ≫= f) s = f x s'.
Proof. intros E. unfold mbind, M_bind. by rewrite E. Qed.

(** A loop from an invariant and a measure. *)
Lemma whileS_spec {S R} (body : S -> M (S + R)) (I : S -> fs_t -> Prop) (m : S -> Z) (Q : R -> fs_t -> Prop) s fs :
  (forall s fs, I s fs -> exists x fs', body s fs = Some (x, fs') /\ match x with inl s' => I s' fs' /\ 0 <= m s' < m s | inr r => Q r fs' end) ->
  I s fs -> m s < 2 ^ 64 -> exists r fs', whileS body s fs = Some (r, fs') /\ Q r fs'.
Proof.
  intros Hb Hs Hm. unfold whileS.
  destruct (whileM_spec (fun '(s, fs) => match body s fs with None => None | Some (inl s, fs) => Some (inl (s, fs)) | Some (inr r, fs) => Some (inr (r, fs)) end)
    (fun x => I x.1 x.2) (fun x => m x.1) (fun x => Q x.1 x.2) 64%nat (s, fs)) as ([r fs'] & E & Hq); [|done|done|by exists r, fs'].
  intros [s1 fs1] H1. destruct (Hb s1 fs1 H1) as (x & fs' & E & Hx). rewrite E. destruct x as [s'|r]; eexists; (split; [done|]); done.
Qed.

(** The new nodes in a state. *)
Definition with_nodes (n : nodes_t) (s : fs_t) : fs_t := mk_fs (cfg_ s) (disk s) (super_ s) (vselector_ s) n (log_ s) (dirty_ s).

Lemma with_nodes_id s : with_nodes (nodes_ s) s = s.
Proof. by destruct s. Qed.

Definition apply (o : lop) : M unit :=
  match o with
  | OpInit => mret tt
  | OpDirCreate d => replay_dir_create d
  | OpDirRemove d => replay_dir_remove d
  | OpDirLink d f i => replay_dir_link d f i
  | OpDirUnlink d f => replay_dir_unlink d f
  | OpFileUpdate n => replay_file_update (recalc_allocated n)
  | OpFileRemove i => replay_file_remove i
  end.

Lemma dec_bind {T Y} (d : denc_traits T) valid x rest (f : T * bytes -> M Y) s :
  lawful d valid -> valid x -> (dec d (encode d x ++ rest) ≫= f) s = f (x, rest) s.
Proof. intros L Hx. unfold mbind, M_bind, dec. by rewrite (l_roundtrip _ _ L). Qed.

Ltac dec_field L := rewrite (dec_bind _ _ _ _ _ _ L) by (done || (unfold name_ok in *; cbv beta; tauto)); cbv beta iota.

(** Comparisons of the codes of operations. *)
Ltac ops := repeat (match goal with |- context [if ?a =? ?b then _ else _] => first [change (a =? b) with false | change (a =? b) with true] end; cbv beta iota).

Lemma enc_length o : (0 < List.length (enc o))%nat.
Proof. destruct o; cbn [enc]; rewrite ?length_app; cbn [encode denc_u8 denc_le]; rewrite ?length_le_bytes; lia. Qed.

(** An operation is read back and applied. *)
Lemma replay_op_apply lr o rest q s :
  lop_ok o -> replay_op lr (enc o ++ rest, q) s = match apply o s with Some (_, s') => Some (inl (rest, q), s') | None => None end.
Proof.
  intros Ho. pose proof (enc_length o). unfold replay_op. cbv beta iota. destruct (Nat.eqb_spec (List.length (enc o ++ rest)) 0) as [E0|_]; [rewrite length_app in E0; lia|].
  destruct o; cbn [enc lop_ok apply] in *; rewrite <- ?app_assoc; dec_field u8_lawful; ops.
  - done.
  - dec_field string_lawful. by rewrite M_bind_eq; destruct (replay_dir_create d s) as [[[] s']|].
  - dec_field string_lawful. by rewrite M_bind_eq; destruct (replay_dir_remove d s) as [[[] s']|].
  - dec_field string_lawful. dec_field string_lawful. dec_field u64_lawful. by rewrite M_bind_eq; destruct (replay_dir_link d f i s) as [[[] s']|].
  - dec_field string_lawful. dec_field string_lawful. by rewrite M_bind_eq; destruct (replay_dir_unlink d f s) as [[[] s']|].
  - rewrite M_bind_eq. unfold dec. rewrite fnode_decodes by done. cbv beta iota. unfold mret, M_ret. cbv beta iota. rewrite M_bind_eq. by destruct (replay_file_update (recalc_allocated n) s) as [[[] s']|].
  - dec_field u64_lawful. by rewrite M_bind_eq; destruct (replay_file_remove i s) as [[[] s']|].
Qed.

Definition enc_all (l : list lop) : bytes := concat (enc <$> l).

(** The operations of a transaction are applied in order. *)
Lemma replay_ops_apply lr l q s s' :
  Forall lop_ok l -> zlen (enc_all l) < 2 ^ 64 -> each apply l s = Some (tt, s') ->
  whileS (replay_op lr) (enc_all l, q) s = Some (ops_done q, s').
Proof.
  intros Hok Hl Ha.
  destruct (whileS_spec (replay_op lr) (fun x fs => exists l, x = (enc_all l, q) /\ Forall lop_ok l /\ each apply l fs = Some (tt, s'))
    (fun x => zlen x.1) (fun r fs => r = ops_done q /\ fs = s') (enc_all l, q) s) as (r & fs' & E & -> & ->); [|by exists l|done|done].
  clear. intros x fs (l & -> & Hok & Ha). destruct l as [|o l].
  - exists (inr (ops_done q)), fs. split; [done|]. by injection Ha as ->.
  - apply Forall_cons in Hok as [Ho Hok]. change (enc_all (o :: l)) with (enc o ++ enc_all l). rewrite replay_op_apply by done.
    cbn [each] in Ha. rewrite M_bind_eq in Ha. destruct (apply o fs) as [[[] fs1]|]; [|done]. eexists _, fs1. split; [done|]. split; [by exists l|].
    cbn [fst]. rewrite length_app. pose proof (enc_length o). lia.
Qed.

(** ** What a client sees *)

Definition node_at (n : nodes_t) (r : fileref) : option bluefs_fnode_t := (fun f => recalc_allocated (f_node f)) <$> heap n !! r.

(** Every directory, with its files and their nodes. *)
Definition names (n : nodes_t) : gmap bytes (gmap bytes bluefs_fnode_t) :=
  fmap (M := gmap bytes) (omap (M := gmap bytes) (node_at n)) (dir_map n).

Definition entry (n : nodes_t) (d x : bytes) : option fileref := dir ← dir_map n !! d; dir !! x.

(** The tables agree: files are found by their number, a name refers to a file
    with one link, and two names to two files. *)
Record nodes_wf (n : nodes_t) : Prop := {
  w_files i r : file_map n !! i = Some r -> exists f, heap n !! r = Some f /\ ino (f_node f) = i /\ fields_valid (f_node f);
  w_entry d x r : entry n d x = Some r -> exists f, heap n !! r = Some f /\ refs f = 1 /\ file_map n !! ino (f_node f) = Some r;
  w_unique d1 x1 d2 x2 r : entry n d1 x1 = Some r -> entry n d2 x2 = Some r -> d1 = d2 /\ x1 = x2;
  w_heap r f : heap n !! r = Some f -> r < next_ref n;
  w_last i r : file_map n !! i = Some r -> i <= ino_last_ n;
}.

Lemma names_lookup n d : names n !! d = fmap (M := option) (omap (M := gmap bytes) (node_at n)) (dir_map n !! d).
Proof. apply lookup_fmap. Qed.

Lemma names_file n d dir x : dir_map n !! d = Some dir -> (names n !! d ≫= fun m => m !! x) = dir !! x ≫= node_at n.
Proof. intros E. rewrite names_lookup, E. simpl. by rewrite lookup_omap. Qed.

(** The names do not depend on files without a name. *)
Lemma names_ext (n n' : nodes_t) : dir_map n' = dir_map n -> (forall d x r, entry n d x = Some r -> node_at n' r = node_at n r) -> names n' = names n.
Proof.
  intros Ed Hn. apply map_eq. intros d. rewrite !names_lookup, Ed. destruct (dir_map n !! d) as [dir|] eqn:E; [|done]. simpl. f_equal. apply map_eq. intros x. rewrite !lookup_omap.
  destruct (dir !! x) as [r|] eqn:Ex; [|done]. simpl. apply (Hn d x). unfold entry. by rewrite E.
Qed.

Lemma names_alter (n n' : nodes_t) (d : bytes) (g : gmap bytes fileref -> gmap bytes fileref) (h : gmap bytes bluefs_fnode_t -> gmap bytes bluefs_fnode_t) :
  dir_map n' = alter g d (dir_map n) ->
  (forall e x r, e <> d -> entry n e x = Some r -> node_at n' r = node_at n r) ->
  (forall dir, dir_map n !! d = Some dir -> omap (M := gmap bytes) (node_at n') (g dir) = h (omap (M := gmap bytes) (node_at n) dir)) ->
  names n' = alter h d (names n).
Proof.
  intros Ed Ho Hd. apply map_eq. intros e. rewrite names_lookup, Ed. destruct (decide (e = d)) as [->|Hne].
  - rewrite !lookup_alter_eq, names_lookup. destruct (dir_map n !! d) as [dir|] eqn:E; [|done]. simpl. f_equal. by apply Hd.
  - rewrite !lookup_alter_ne, names_lookup by done. destruct (dir_map n !! e) as [dir|] eqn:E; [|done]. simpl. f_equal. apply map_eq. intros x. rewrite !lookup_omap.
    destruct (dir !! x) as [r|] eqn:Ex; [|done]. simpl. apply (Ho e x); [done|]. unfold entry. by rewrite E.
Qed.

Lemma entry_alter (n n' : nodes_t) (d : bytes) (g : gmap bytes fileref -> gmap bytes fileref) e x : dir_map n' = alter g d (dir_map n) -> entry n' e x = if decide (e = d) then dir ← dir_map n !! d; g dir !! x else entry n e x.
Proof.
  intros Ed. unfold entry. rewrite Ed. destruct (decide (e = d)) as [->|Hne]; [rewrite lookup_alter_eq; by destruct (dir_map n !! d)|by rewrite lookup_alter_ne].
Qed.

Lemma entry_set (n n' : nodes_t) (d f : bytes) r e x : dir_map n' = alter (fun dir => <[f := r]> dir) d (dir_map n) -> is_Some (dir_map n !! d) ->
  entry n' e x = if decide (e = d /\ x = f) then Some r else entry n e x.
Proof.
  intros Ed [dir Hd]. rewrite (entry_alter n n' d _ e x Ed). unfold entry. destruct (decide (e = d)) as [->|Hne]; [|by rewrite decide_False by tauto]. rewrite Hd. simpl.
  destruct (decide (x = f)) as [->|Hx]; [by rewrite lookup_insert_eq, decide_True|by rewrite lookup_insert_ne, decide_False by (done || tauto)].
Qed.

Lemma entry_del (n n' : nodes_t) (d f : bytes) e x : dir_map n' = alter (delete f) d (dir_map n) -> entry n' e x = if decide (e = d /\ x = f) then None else entry n e x.
Proof.
  intros Ed. rewrite (entry_alter n n' d _ e x Ed). unfold entry. destruct (decide (e = d)) as [->|Hne]; [|by rewrite decide_False by tauto]. destruct (dir_map n !! d) as [dir|]; simpl; [|by destruct (decide _)].
  destruct (decide (x = f)) as [->|Hx]; [by rewrite lookup_delete_eq, decide_True|by rewrite lookup_delete_ne, decide_False by (done || tauto)].
Qed.

(** ** Changes *)

(** A new file. *)
Lemma create_shape (n n' : nodes_t) (d f : bytes) F :
  nodes_wf n -> is_Some (dir_map n !! d) -> ino_last_ n < ino (f_node F) -> refs F = 1 -> fields_valid (f_node F) ->
  n' = mk_nodes (<[next_ref n := F]> (heap n)) (next_ref n + 1) (alter (fun dir => <[f := next_ref n]> dir) d (dir_map n)) (<[ino (f_node F) := next_ref n]> (file_map n)) (ino (f_node F)) ->
  nodes_wf n' /\ names n' = alter (<[f := recalc_allocated (f_node F)]>) d (names n).
Proof.
  intros Hw Hd Hi Hr Hv ->. set (r := next_ref n). set (i := ino (f_node F)). set (n' := mk_nodes _ _ _ _ _).
  assert (forall e x, entry n' e x = if decide (e = d /\ x = f) then Some r else entry n e x) as He by (intros; by apply entry_set).
  assert (heap n !! r = None) as Hfresh by (destruct (heap n !! r) eqn:E; [apply (w_heap _ Hw) in E; lia|done]).
  assert (forall q g, heap n !! q = Some g -> heap n' !! q = Some g) as Hh by (intros q g E; simpl; rewrite lookup_insert_ne; [done|congruence]).
  assert (forall j q, file_map n !! j = Some q -> file_map n' !! j = Some q) as Hm.
  { intros j q E. simpl. rewrite lookup_insert_ne; [done|]. apply (w_last _ Hw) in E. subst i. lia. }
  split; [constructor|].
  - intros j q. simpl. destruct (decide (j = i)) as [->|Hj]; [rewrite lookup_insert_eq|rewrite lookup_insert_ne by done].
    + intros [= <-]. exists F. by rewrite lookup_insert_eq.
    + intros E. destruct (w_files _ Hw j q E) as (g & Hg & ?). exists g. split; [by apply Hh|done].
  - intros e x q. rewrite He. destruct (decide _) as [[-> ->]|_]; [|intros E; destruct (w_entry _ Hw e x q E) as (g & Hg & Hr' & Hf); exists g; split; [by apply Hh|split; [done|by apply Hm]]].
    intros [= <-]. exists F. simpl. by rewrite !lookup_insert_eq.
  - intros d1 x1 d2 x2 q. rewrite !He. assert (forall e x, entry n e x <> Some r) as Hno by (intros e x E; destruct (w_entry _ Hw e x r E) as (? & ? & _); congruence).
    destruct (decide (d1 = d /\ x1 = f)) as [[-> ->]|_], (decide (d2 = d /\ x2 = f)) as [[-> ->]|_]; [done| | |apply (w_unique _ Hw)]; intros E1 E2; [injection E1 as <-|injection E2 as <-]; exfalso; by eapply Hno.
  - intros q g. simpl. destruct (decide (q = r)) as [->|Hq]; [lia|rewrite lookup_insert_ne by done]. intros E. apply (w_heap _ Hw) in E. lia.
  - intros j q. simpl. destruct (decide (j = i)) as [->|Hj]; [lia|rewrite lookup_insert_ne by done]. intros E. apply (w_last _ Hw) in E. subst i. lia.
  - apply (names_alter n n' d (fun dir => <[f := r]> dir)); [done| |].
    + intros e x q _ E. destruct (w_entry _ Hw e x q E) as (g & Hg & _). unfold node_at. by rewrite (Hh q g Hg), Hg.
    + intros dir Edir. apply map_eq. intros x. rewrite lookup_omap. destruct (decide (x = f)) as [->|Hx].
      * rewrite !lookup_insert_eq. simpl. unfold node_at. simpl. by rewrite lookup_insert_eq.
      * rewrite !lookup_insert_ne, lookup_omap by done. destruct (dir !! x) as [q|] eqn:E; [|done]. simpl. assert (entry n d x = Some q) as Ee by (unfold entry; by rewrite Edir).
        destruct (w_entry _ Hw d x q Ee) as (g & Hg & _). unfold node_at. by rewrite (Hh q g Hg), Hg.
Qed.

Lemma mkdir_shape (n : nodes_t) (d : bytes) : nodes_wf n -> dir_map n !! d = None ->
  nodes_wf (set_dir_map (<[d := ∅]> (dir_map n)) n) /\ names (set_dir_map (<[d := ∅]> (dir_map n)) n) = <[d := ∅]> (names n).
Proof.
  intros Hw Hd. set (n' := set_dir_map _ n). assert (forall e x, entry n' e x = entry n e x) as He.
  { intros e x. unfold entry. simpl. destruct (decide (e = d)) as [->|]; [by rewrite lookup_insert_eq, Hd|by rewrite lookup_insert_ne]. }
  split; [destruct Hw; constructor; [done|..|done|done]; intros *; rewrite !He; eauto|]. unfold names. simpl. by rewrite fmap_insert, omap_empty.
Qed.

Lemma rmdir_shape (n : nodes_t) (d : bytes) : nodes_wf n -> dir_map n !! d = Some ∅ ->
  nodes_wf (set_dir_map (delete d (dir_map n)) n) /\ names (set_dir_map (delete d (dir_map n)) n) = delete d (names n).
Proof.
  intros Hw Hd. set (n' := set_dir_map _ n). assert (forall e x, entry n' e x = entry n e x) as He.
  { intros e x. unfold entry. simpl. destruct (decide (e = d)) as [->|]; [by rewrite lookup_delete_eq, Hd|by rewrite lookup_delete_ne]. }
  split; [destruct Hw; constructor; [done|..|done|done]; intros *; rewrite !He; eauto|]. unfold names. simpl. by rewrite fmap_delete.
Qed.

(** The node of a file with a name. *)
Lemma write_shape (n : nodes_t) (d f : bytes) r F F' :
  nodes_wf n -> entry n d f = Some r -> heap n !! r = Some F -> refs F' = refs F -> ino (f_node F') = ino (f_node F) -> fields_valid (f_node F') ->
  nodes_wf (set_heap (<[r := F']> (heap n)) n) /\ names (set_heap (<[r := F']> (heap n)) n) = alter (<[f := recalc_allocated (f_node F')]>) d (names n).
Proof.
  intros Hw He HF Hr Hi Hv. set (n' := set_heap _ n).
  assert (forall q g, heap n !! q = Some g -> exists g', heap n' !! q = Some g' /\ refs g' = refs g /\ ino (f_node g') = ino (f_node g) /\ (q <> r -> g' = g) /\ (fields_valid (f_node g) -> fields_valid (f_node g'))) as Hh.
  { intros q g E. simpl. destruct (decide (q = r)) as [->|Hq]; [rewrite lookup_insert_eq; exists F'; rewrite HF in E; injection E as <-|rewrite lookup_insert_ne by done; exists g]; done. }
  split; [constructor|].
  - intros j q E. destruct (w_files _ Hw j q E) as (g & Hg & Hj & Hv'). destruct (Hh q g Hg) as (g' & ? & _ & ? & _ & Hv2). exists g'. split_and!; [done|congruence|by apply Hv2].
  - intros e x q E. destruct (w_entry _ Hw e x q E) as (g & Hg & Hr1 & Hm). destruct (Hh q g Hg) as (g' & ? & ? & Ei & _). exists g'. split_and!; [done|congruence|by rewrite Ei].
  - intros *. apply (w_unique _ Hw).
  - intros q g. simpl. destruct (decide (q = r)) as [->|Hq]; [intros _; by apply (w_heap _ Hw r F)|rewrite lookup_insert_ne by done; apply (w_heap _ Hw)].
  - apply (w_last _ Hw).
  - assert (forall e x q, ~ (e = d /\ x = f) -> entry n e x = Some q -> node_at n' q = node_at n q) as Hother.
    { intros e x q Hne E. unfold node_at. simpl. rewrite lookup_insert_ne; [done|]. intros <-. exact (Hne (w_unique _ Hw e x d f r E He)). }
    apply (names_alter n n' d (fun x => x)); [simpl; symmetry; apply alter_id; done|intros e x q Hne; apply (Hother e x); tauto|].
    intros dir Edir. unfold entry in He. rewrite Edir in He. simpl in He. apply map_eq. intros x. rewrite lookup_omap. destruct (decide (x = f)) as [->|Hx].
    + rewrite He, lookup_insert_eq. simpl. unfold node_at. simpl. by rewrite lookup_insert_eq.
    + rewrite lookup_insert_ne, lookup_omap by done. destruct (dir !! x) as [q|] eqn:E; [|done]. simpl. apply (Hother d x); [tauto|]. unfold entry. by rewrite Edir.
Qed.

(** A file loses its name and leaves the table of files. *)
Lemma unlink_shape (n n' : nodes_t) (d f : bytes) r F F' :
  nodes_wf n -> entry n d f = Some r -> heap n !! r = Some F ->
  n' = mk_nodes (<[r := F']> (heap n)) (next_ref n) (alter (delete f) d (dir_map n)) (delete (ino (f_node F)) (file_map n)) (ino_last_ n) ->
  nodes_wf n' /\ names n' = alter (delete f) d (names n).
Proof.
  intros Hw He HF En'. assert (forall e x, entry n' e x = if decide (e = d /\ x = f) then None else entry n e x) as Hent by (intros; apply entry_del; by rewrite En').
  assert (forall q, q <> r -> heap n' !! q = heap n !! q) as Hh by (intros; rewrite En'; simpl; by rewrite lookup_insert_ne).
  assert (forall e x q, ~ (e = d /\ x = f) -> entry n e x = Some q -> q <> r) as Hne by (intros e x q Hn E ->; exact (Hn (w_unique _ Hw e x d f r E He))).
  assert (forall j q, file_map n' !! j = Some q -> file_map n !! j = Some q /\ q <> r) as Hm.
  { intros j q. rewrite En'. simpl. intros [Hj E]%lookup_delete_Some. split; [done|]. intros ->. destruct (w_files _ Hw j r E) as (g & Hg & Ej & _). congruence. }
  split; [constructor|].
  - intros j q E. apply Hm in E as [E Hq]. destruct (w_files _ Hw j q E) as (g & Hg & ?). exists g. by rewrite Hh.
  - intros e x q. rewrite Hent. destruct (decide _) as [|Hn]; [done|]. intros E. pose proof (Hne e x q Hn E) as Hq. destruct (w_entry _ Hw e x q E) as (g & Hg & Hr & Hf). exists g. rewrite Hh by done.
    split_and!; [done|done|]. rewrite En'. simpl. apply lookup_delete_Some. split; [|done]. intros Ei. destruct (w_entry _ Hw d f r He) as (F1 & HF1 & _ & Hf1). rewrite HF in HF1. injection HF1 as <-. congruence.
  - intros d1 x1 d2 x2 q. rewrite !Hent. destruct (decide _); [done|]. destruct (decide _); [done|]. apply (w_unique _ Hw).
  - intros q g. rewrite En'. simpl. destruct (decide (q = r)) as [->|Hq]; [intros _; by apply (w_heap _ Hw r F)|rewrite lookup_insert_ne by done; apply (w_heap _ Hw)].
  - intros j q E. rewrite En'. simpl. apply Hm in E as [E _]. by apply (w_last _ Hw j q).
  - apply (names_alter n n' d (delete f)); [by rewrite En'| |].
    + intros e x q Hed E. unfold node_at. rewrite Hh; [done|]. apply (Hne e x); [tauto|done].
    + intros dir Edir. apply map_eq. intros x. rewrite lookup_omap. destruct (decide (x = f)) as [->|Hx]; [by rewrite !lookup_delete_eq|].
      rewrite !lookup_delete_ne, lookup_omap by done. destruct (dir !! x) as [q|] eqn:E; [|done]. simpl. unfold node_at. rewrite Hh; [done|]. apply (Hne d x); [tauto|]. unfold entry. by rewrite Edir.
Qed.

(** A file moves to another name, whose old file loses it. *)
Lemma rename_shape (n n' : nodes_t) (od ox nd nx : bytes) r x :
  nodes_wf n -> entry n od ox = Some r -> node_at n r = Some x -> is_Some (dir_map n !! nd) ->
  dir_map n' = alter (delete ox) od (alter (fun dir => <[nx := r]> dir) nd (dir_map n)) ->
  file_map n' = file_map n -> next_ref n' = next_ref n -> ino_last_ n' = ino_last_ n ->
  (forall q g, heap n !! q = Some g -> exists g', heap n' !! q = Some g' /\ f_node g' = f_node g /\ (q = r \/ entry n nd nx <> Some q -> refs g' = refs g)) ->
  (forall q g', heap n' !! q = Some g' -> is_Some (heap n !! q)) ->
  nodes_wf n' /\ names n' = alter (delete ox) od (alter (<[nx := x]>) nd (names n)).
Proof.
  intros Hw He Hx Hnd Ed Em En El Hh Hh'. set (n1 := set_dir_map (alter (fun dir => <[nx := r]> dir) nd (dir_map n)) n').
  assert (forall e y, entry n1 e y = if decide (e = nd /\ y = nx) then Some r else entry n e y) as He1 by (intros; by apply entry_set).
  assert (forall e y, entry n' e y = if decide (e = od /\ y = ox) then None else entry n1 e y) as He' by (intros; by apply entry_del).
  assert (forall e y q, entry n' e y = Some q -> (e = nd /\ y = nx /\ q = r) \/ (entry n e y = Some q /\ q <> r /\ ~ (e = nd /\ y = nx))) as Hc.
  { intros e y q. rewrite He', He1. destruct (decide (e = od /\ y = ox)); [done|]. destruct (decide (e = nd /\ y = nx)) as [[-> ->]|Hn]; [intros [= <-]; by left|]. intros E. right. split_and!; [done| |done].
    intros ->. pose proof (w_unique _ Hw e y od ox r E He). tauto. }
  assert (forall q, node_at n' q = node_at n q) as Hnode.
  { intros q. unfold node_at. destruct (heap n !! q) as [g|] eqn:E; [destruct (Hh q g E) as (g' & -> & Eg & _); simpl; by rewrite Eg|].
    destruct (heap n' !! q) as [g'|] eqn:E'; [|done]. destruct (Hh' q g' E'). congruence. }
  split; [constructor|].
  - intros j q E. rewrite Em in E. destruct (w_files _ Hw j q E) as (g & Hg & ? & ?). destruct (Hh q g Hg) as (g' & ? & Eg & _). exists g'. by rewrite Eg.
  - intros e y q E. assert (exists g, heap n !! q = Some g /\ refs g = 1 /\ file_map n !! ino (f_node g) = Some q /\ (q = r \/ entry n nd nx <> Some q)) as (g & Hg & Hr & Hf & Hor).
    { destruct (Hc e y q E) as [(-> & -> & ->)|(E' & Hq & Hno)]; [destruct (w_entry _ Hw od ox r He) as (g & ? & ? & ?); exists g; split_and!; (done || by left)|].
      destruct (w_entry _ Hw e y q E') as (g & ? & ? & ?). exists g. split_and!; try done. right. intros E2. exact (Hno (w_unique _ Hw e y nd nx q E' E2)). }
    destruct (Hh q g Hg) as (g' & ? & Eg & Er). exists g'. rewrite Eg, Em, Er by done. done.
  - intros d1 x1 d2 x2 q E1 E2. destruct (Hc _ _ _ E1) as [(-> & -> & ->)|(E1' & Hq & _)], (Hc _ _ _ E2) as [(-> & -> & ?)|(E2' & ? & _)]; try done. by apply (w_unique _ Hw _ _ _ _ q).
  - intros q g' E. rewrite En. destruct (Hh' q g' E) as [g Eg]. by apply (w_heap _ Hw q g).
  - intros j q. rewrite Em, El. apply (w_last _ Hw).
  - assert (names n1 = alter (<[nx := x]>) nd (names n)) as E1.
    { apply (names_alter n n1 nd (fun dir => <[nx := r]> dir)); [done|intros; apply Hnode|]. intros dir Edir. apply map_eq. intros y. rewrite lookup_omap. change (node_at n1) with (node_at n').
      destruct (decide (y = nx)) as [->|Hy]; [rewrite !lookup_insert_eq; simpl; by rewrite Hnode|]. rewrite !lookup_insert_ne, lookup_omap by done. destruct (dir !! y); [|done]. simpl. apply Hnode. }
    rewrite <- E1. apply (names_alter n1 n' od (delete ox)); [done|done|]. intros dir Edir. apply map_eq. intros y. rewrite lookup_omap. destruct (decide (y = ox)) as [->|Hy]; [by rewrite !lookup_delete_eq|].
    rewrite !lookup_delete_ne, lookup_omap by done. done.
Qed.

(** ** Replaying one operation *)

Lemma get_file_run r F (s : fs_t) : heap (nodes_ s) !! r = Some F -> get_file r s = Some (F, s).
Proof. intros HF. unfold get_file. rewrite M_bind_eq. unfold gets. by rewrite HF. Qed.
Lemma put_file_run r F (s : fs_t) : put_file r F s = Some (tt, with_nodes (set_heap (<[r := F]> (heap (nodes_ s))) (nodes_ s)) s).
Proof. done. Qed.
Lemma update_file_run r F g (s : fs_t) : heap (nodes_ s) !! r = Some F -> update_file r g s = Some (tt, with_nodes (set_heap (<[r := g F]> (heap (nodes_ s))) (nodes_ s)) s).
Proof. intros HF. unfold update_file. by rewrite (M_bind_some _ _ _ _ _ (get_file_run _ _ _ HF)). Qed.
Lemma in_nodes_run g (s : fs_t) : in_nodes g s = Some (tt, with_nodes (g (nodes_ s)) s).
Proof. done. Qed.
Lemma same_selector v (s : fs_t) : vselector_ s = Some v -> in_vselector (fun _ => Some v) s = Some (tt, s).
Proof. intros E. unfold in_vselector, modify. destruct s; simpl in *. by rewrite E. Qed.
Lemma get_file_known i r (s : fs_t) : file_map (nodes_ s) !! i = Some r -> _get_file i s = Some (r, s).
Proof. intros Hi. unfold _get_file. rewrite M_bind_eq. unfold gets. by rewrite Hi. Qed.
Lemma get_file_new i (s : fs_t) : file_map (nodes_ s) !! i = None -> _get_file i s = Some (next_ref (nodes_ s),
  with_nodes (mk_nodes (<[next_ref (nodes_ s) := new_file i]> (heap (nodes_ s))) (next_ref (nodes_ s) + 1) (dir_map (nodes_ s)) (<[i := next_ref (nodes_ s)]> (file_map (nodes_ s))) (ino_last_ (nodes_ s))) s).
Proof. intros Hi. unfold _get_file. rewrite M_bind_eq. unfold gets. by rewrite Hi. Qed.

(** One step of an execution. *)
Ltac step L := rewrite (M_bind_some _ _ _ _ _ L); cbv beta iota.

Lemma run_unlink d f (s : fs_t) r F :
  entry (nodes_ s) d f = Some r -> heap (nodes_ s) !! r = Some F -> 0 < refs F ->
  replay_dir_unlink d f s = Some (tt, with_nodes (mk_nodes (<[r := with_refs (refs F - 1) F]> (heap (nodes_ s))) (next_ref (nodes_ s)) (alter (delete f) d (dir_map (nodes_ s))) (file_map (nodes_ s)) (ino_last_ (nodes_ s))) s).
Proof.
  intros He HF Hr. unfold entry in He. unfold replay_dir_unlink. rewrite M_bind_eq. unfold gets. rewrite He. step (get_file_run _ _ _ HF).
  rewrite M_bind_eq. unfold cxxlab_assert. rewrite (proj2 (Z.ltb_lt 0 (refs F))) by done. done.
Qed.

Lemma run_selector g (s : fs_t) : (forall v, g v = Some v) -> with_selector g s = Some (tt, s).
Proof.
  intros Hg. unfold with_selector. rewrite M_bind_eq. unfold gets. destruct (vselector_ s) as [v|] eqn:Ev; [|done]. rewrite M_bind_eq, Hg. cbn [lift]. by apply same_selector.
Qed.

Lemma run_remove i (s : fs_t) r F :
  file_map (nodes_ s) !! i = Some r -> heap (nodes_ s) !! r = Some F ->
  replay_file_remove i s = Some (tt, with_nodes (set_file_map (delete i (file_map (nodes_ s))) (nodes_ s)) s).
Proof.
  intros Hi HF. unfold replay_file_remove. rewrite M_bind_eq. unfold gets. rewrite Hi. step (get_file_run _ _ _ HF).
  destruct (negb _); [step (run_selector _ s (untracked_sub (vselector_hint F) (f_node F)))|]; done.
Qed.

Lemma run_link d f i (s : fs_t) r F :
  file_map (nodes_ s) !! i = Some r -> heap (nodes_ s) !! r = Some F ->
  exists h, replay_dir_link d f i s = Some (tt, with_nodes (mk_nodes (<[r := with_refs (refs F + 1) (with_hint h F)]> (heap (nodes_ s))) (next_ref (nodes_ s))
    (alter (fun dir => <[f := r]> dir) d (dir_map (nodes_ s))) (file_map (nodes_ s)) (Z.max (ino_last_ (nodes_ s)) i)) s).
Proof.
  intros Hi HF. unfold replay_dir_link. step (get_file_known _ _ _ Hi). rewrite M_bind_eq. unfold gets. set (rest := fun _ : () => _).
  assert (forall s1 F1, nodes_ s1 = set_heap (<[r := F1]> (heap (nodes_ s))) (nodes_ s) -> rest tt s1 = Some (tt, with_nodes (mk_nodes (<[r := with_refs (refs F1 + 1) F1]> (heap (nodes_ s))) (next_ref (nodes_ s))
    (alter (fun dir => <[f := r]> dir) d (dir_map (nodes_ s))) (file_map (nodes_ s)) (Z.max (ino_last_ (nodes_ s)) i)) s1)) as Hrest.
  { intros s1 F1 E1. unfold rest. step (in_nodes_run (fun n => set_dir_map (alter (fun dir => <[f := r]> dir) d (dir_map n)) n) s1). rewrite E1.
    match goal with |- (_ ≫= _) ?s2 = _ => assert (heap (nodes_ s2) !! r = Some F1) as H2 by (simpl; apply lookup_insert_eq) end.
    step (update_file_run _ _ (fun f => with_refs (refs f + 1) f) _ H2). unfold see_ino, in_nodes, modify, with_nodes, set_ino_last. simpl. by rewrite insert_insert_eq. }
  destruct (vselector_ s) as [v|] eqn:Ev.
  - exists (get_hint_by_dir d v). rewrite M_bind_eq. step (get_file_run _ _ _ HF). rewrite M_bind_eq, untracked_sub. cbn [lift]. rewrite M_bind_eq, untracked_add. cbn [lift]. step (same_selector _ _ Ev). rewrite put_file_run.
    rewrite (Hrest _ (with_hint (get_hint_by_dir d v) F)); done.
  - exists (vselector_hint F). rewrite M_bind_eq. unfold mret, M_ret. rewrite (Hrest s F); [by destruct F|]. rewrite insert_id by done. by destruct (nodes_ s).
Qed.

Lemma run_change r i F g (s : fs_t) :
  heap (nodes_ s) !! r = Some F -> change_node r i g s = Some (tt, with_nodes (set_heap (<[r := with_node (g (f_node F)) F]> (heap (nodes_ s))) (nodes_ s)) s).
Proof.
  intros HF. unfold change_node. step (get_file_run _ _ _ HF). destruct (_ && _).
  - step (run_selector _ s (untracked_sub (vselector_hint F) (f_node F))). rewrite M_bind_eq, put_file_run. apply run_selector. intros v. apply untracked_add.
  - done.
Qed.

Lemma run_update_new x (s : fs_t) :
  file_map (nodes_ s) !! ino x = None -> replay_file_update x s = Some (tt,
    with_nodes (mk_nodes (<[next_ref (nodes_ s) := with_node x (new_file (ino x))]> (heap (nodes_ s))) (next_ref (nodes_ s) + 1) (dir_map (nodes_ s))
      (<[ino x := next_ref (nodes_ s)]> (file_map (nodes_ s))) (Z.max (ino_last_ (nodes_ s)) (ino x))) s).
Proof.
  intros Hi. unfold replay_file_update. step (get_file_new _ _ Hi).
  match goal with |- (_ ≫= _) ?s2 = _ => assert (heap (nodes_ s2) !! next_ref (nodes_ s) = Some (new_file (ino x))) as H2 by (simpl; apply lookup_insert_eq) end.
  step (run_change _ (ino x) _ (fun _ => x) _ H2). unfold see_ino, in_nodes, modify, with_nodes, set_ino_last. simpl. by rewrite insert_insert_eq.
Qed.

Lemma run_update_old x (s : fs_t) r F :
  file_map (nodes_ s) !! ino x = Some r -> heap (nodes_ s) !! r = Some F -> ino x <= ino_last_ (nodes_ s) ->
  replay_file_update x s = Some (tt, with_nodes (set_heap (<[r := with_node x F]> (heap (nodes_ s))) (nodes_ s)) s).
Proof.
  intros Hi HF Hl. unfold replay_file_update. step (get_file_known _ _ _ Hi). step (run_change _ (ino x) _ (fun _ => x) _ HF).
  unfold see_ino, in_nodes, modify, with_nodes, set_ino_last. simpl. by rewrite Z.max_l.
Qed.

(** ** Groups of operations *)

(** What an operation of a client logs. *)
Inductive group :=
  | GInit
  | GMkdir (d : bytes)
  | GRmdir (d : bytes)
  | GCreate (d f : bytes) (x : bluefs_fnode_t)
  | GWrite (d f : bytes) (x : bluefs_fnode_t)
  | GUnlink (d f : bytes) (i : Z)
  | GRename (d1 f1 d2 f2 : bytes) (i : Z) (over : bool).

Definition group_ops (g : group) : list lop :=
  match g with
  | GInit => [OpInit]
  | GMkdir d => [OpDirCreate d]
  | GRmdir d => [OpDirRemove d]
  | GCreate d f x => [OpFileUpdate x; OpDirLink d f (ino x)]
  | GWrite d f x => [OpFileUpdate x]
  | GUnlink d f i => [OpDirUnlink d f; OpFileRemove i]
  | GRename d1 f1 d2 f2 i over => (if over then [OpDirUnlink d2 f2] else []) ++ [OpDirLink d2 f2 i; OpDirUnlink d1 f1]
  end.

(** The names and the last number that was given to a file. *)
Record view := mk_view { v_names : gmap bytes (gmap bytes bluefs_fnode_t); v_last : Z }.
Definition view_of (n : nodes_t) : view := mk_view (names n) (ino_last_ n).

Definition file_in (v : view) (d f : bytes) : option bluefs_fnode_t := m ← v_names v !! d; m !! f.

Definition change (g : group) (v : view) : view :=
  match g with
  | GInit => v
  | GMkdir d => mk_view (<[d := ∅]> (v_names v)) (v_last v)
  | GRmdir d => mk_view (delete d (v_names v)) (v_last v)
  | GCreate d f x => mk_view (alter (<[f := recalc_allocated x]>) d (v_names v)) (ino x)
  | GWrite d f x => mk_view (alter (<[f := recalc_allocated x]>) d (v_names v)) (v_last v)
  | GUnlink d f i => mk_view (alter (delete f) d (v_names v)) (v_last v)
  | GRename d1 f1 d2 f2 i over =>
      match file_in v d1 f1 with
      | Some x => mk_view (alter (delete f1) d1 (alter (<[f2 := x]>) d2 (v_names v))) (v_last v)
      | None => v
      end
  end.

Definition legal (g : group) (v : view) : Prop :=
  match g with
  | GInit => True
  | GMkdir d => name_ok d /\ v_names v !! d = None
  | GRmdir d => name_ok d /\ v_names v !! d = Some ∅
  | GCreate d f x => name_ok d /\ name_ok f /\ fields_valid x /\ is_Some (v_names v !! d) /\ v_last v < ino x
  | GWrite d f x => fields_valid x /\ exists y, file_in v d f = Some y /\ ino y = ino x
  | GUnlink d f i => name_ok d /\ name_ok f /\ exists y, file_in v d f = Some y /\ ino y = i
  | GRename d1 f1 d2 f2 i over =>
      name_ok d1 /\ name_ok f1 /\ name_ok d2 /\ name_ok f2 /\ is_Some (v_names v !! d2) /\ (exists y, file_in v d1 f1 = Some y /\ ino y = i) /\
      (over = true <-> is_Some (file_in v d2 f2) /\ ~ (d1 = d2 /\ f1 = f2))
  end.

Lemma recalc_ino x : ino (recalc_allocated x) = ino x.
Proof. unfold recalc_allocated. by destruct (recalc (extents x)). Qed.
Lemma recalc_extents x : extents (recalc_allocated x) = extents x.
Proof. unfold recalc_allocated. by destruct (recalc (extents x)). Qed.
Lemma recalc_idem x : recalc_allocated (recalc_allocated x) = recalc_allocated x.
Proof. unfold recalc_allocated at 1. rewrite recalc_extents. unfold recalc_allocated. by destruct (recalc (extents x)). Qed.
Lemma recalc_valid x : fields_valid x -> fields_valid (recalc_allocated x).
Proof. unfold fields_valid, recalc_allocated. by destruct (recalc (extents x)). Qed.

Lemma entry_file n d f r : nodes_wf n -> entry n d f = Some r -> exists F, heap n !! r = Some F /\ refs F = 1 /\ file_map n !! ino (f_node F) = Some r /\ fields_valid (f_node F) /\
  file_in (view_of n) d f = Some (recalc_allocated (f_node F)).
Proof.
  intros Hw He. destruct (w_entry _ Hw d f r He) as (F & HF & Hr & Hm). destruct (w_files _ Hw _ _ Hm) as (F' & HF' & _ & Hv). rewrite HF in HF'. injection HF' as <-.
  exists F. split_and!; try done. unfold entry in He. destruct (dir_map n !! d) as [dir|] eqn:Ed; [|done]. unfold file_in. simpl in He |- *. rewrite names_lookup, Ed. simpl. rewrite lookup_omap, He. simpl. unfold node_at. by rewrite HF.
Qed.

Lemma file_entry n d f y : nodes_wf n -> file_in (view_of n) d f = Some y -> exists r F, entry n d f = Some r /\ heap n !! r = Some F /\ refs F = 1 /\
  file_map n !! ino y = Some r /\ fields_valid (f_node F) /\ y = recalc_allocated (f_node F) /\ node_at n r = Some y.
Proof.
  intros Hw Hf. assert (exists r, entry n d f = Some r) as [r He].
  { unfold file_in in Hf. simpl in Hf. rewrite names_lookup in Hf. unfold entry. destruct (dir_map n !! d) as [dir|]; [|done]. simpl in Hf |- *. rewrite lookup_omap in Hf. destruct (dir !! f) as [r|]; [by exists r|done]. }
  destruct (entry_file n d f r Hw He) as (F & HF & Hr & Hm & Hv & Hy). rewrite Hf in Hy. injection Hy as ->. exists r, F. rewrite recalc_ino. split_and!; try done. unfold node_at. by rewrite HF.
Qed.

Lemma names_dir n d : is_Some (names n !! d) <-> is_Some (dir_map n !! d).
Proof. rewrite names_lookup. by rewrite fmap_is_Some. Qed.

Lemma each_cons {X} (f : X -> M unit) x l (s s' : fs_t) : f x s = Some (tt, s') -> each f (x :: l) s = each f l s'.
Proof. intros E. cbn [each]. by rewrite (M_bind_some _ _ _ _ _ E). Qed.

(** No name refers to the log, and numbers are in range. *)
Definition view_ok (v : view) : Prop := 1 <= v_last v < 2 ^ 63 /\ forall d f y, file_in v d f = Some y -> 1 < ino y < 2 ^ 63.

Lemma file_in_set (m : gmap bytes (gmap bytes bluefs_fnode_t)) l l' (d f : bytes) x e y z :
  file_in (mk_view (alter (<[f := x]>) d m) l) e y = Some z -> z = x \/ file_in (mk_view m l') e y = Some z.
Proof.
  unfold file_in. simpl. destruct (decide (e = d)) as [->|]; [rewrite lookup_alter_eq|rewrite lookup_alter_ne by done; by right]. destruct (m !! d) as [dir|]; [|done]. simpl.
  destruct (decide (y = f)) as [->|]; [rewrite lookup_insert_eq; intros [= <-]; by left|rewrite lookup_insert_ne by done; by right].
Qed.

Lemma file_in_del (m : gmap bytes (gmap bytes bluefs_fnode_t)) l (d f : bytes) e y z :
  file_in (mk_view (alter (delete f) d m) l) e y = Some z -> file_in (mk_view m l) e y = Some z.
Proof.
  unfold file_in. simpl. destruct (decide (e = d)) as [->|]; [rewrite lookup_alter_eq|by rewrite lookup_alter_ne]. destruct (m !! d) as [dir|]; [|done]. simpl. by intros [_ ?]%lookup_delete_Some.
Qed.

Lemma view_ok_change g v : view_ok v -> legal g v -> view_ok (change g v).
Proof.
  intros [Hl Hv] Hg. assert (forall d f y, file_in (mk_view (v_names v) (v_last v)) d f = Some y -> 1 < ino y < 2 ^ 63) as Hv' by (destruct v; exact Hv).
  destruct g as [|d|d|d f x|d f x|d f i|d1 f1 d2 f2 i over]; cbn [change legal] in *.
  - done.
  - split; [done|]. intros e y z. unfold file_in. simpl. destruct (decide (e = d)) as [->|]; [by rewrite lookup_insert_eq|rewrite lookup_insert_ne by done; apply Hv].
  - split; [done|]. intros e y z. unfold file_in. simpl. destruct (decide (e = d)) as [->|]; [by rewrite lookup_delete_eq|rewrite lookup_delete_ne by done; apply Hv].
  - destruct Hg as (_ & _ & (Hi & _) & _ & Hlast). split; [simpl; lia|]. intros e y z Hz. apply (file_in_set _ _ (v_last v)) in Hz as [->|Hz]; [rewrite recalc_ino; lia|by apply Hv' in Hz].
  - destruct Hg as (_ & u & Hu & Ei). split; [done|]. intros e y z Hz. apply (file_in_set _ _ (v_last v)) in Hz as [->|Hz]; [rewrite recalc_ino, <- Ei; by apply Hv in Hu|by apply Hv' in Hz].
  - split; [done|]. intros e y z Hz. apply file_in_del in Hz. by apply Hv' in Hz.
  - destruct (file_in v d1 f1) as [x|] eqn:Ex; [|done]. split; [done|]. intros e y z Hz. apply file_in_del in Hz. apply (file_in_set _ _ (v_last v)) in Hz as [->|Hz]; [by apply Hv in Ex|by apply Hv' in Hz].
Qed.

(** The file of the log stays as it was. *)
Definition log_kept (n n' : nodes_t) : Prop := forall rl, file_map n !! 1 = Some rl -> file_map n' !! 1 = Some rl /\ heap n' !! rl = heap n !! rl.

(** The file of the log has no name. *)
Lemma log_unnamed n d f r rl : nodes_wf n -> view_ok (view_of n) -> entry n d f = Some r -> file_map n !! 1 = Some rl -> r <> rl /\ forall F, heap n !! r = Some F -> ino (f_node F) <> 1.
Proof.
  intros Hw [_ Hv] He Hl. destruct (entry_file n d f r Hw He) as (F & HF & _ & Hm & _ & Hy). apply Hv in Hy. rewrite recalc_ino in Hy. split; [|intros F' HF'; rewrite HF in HF'; injection HF' as <-; lia].
  intros ->. destruct (w_files _ Hw 1 rl Hl) as (F' & HF' & Hi & _). rewrite HF in HF'. injection HF' as <-. lia.
Qed.

(** The last two operations of a rename; [n] are the nodes before the first. *)
Lemma replay_rename n (s : fs_t) d1 f1 d2 f2 r F x :
  nodes_wf n -> entry n d1 f1 = Some r -> heap n !! r = Some F -> refs F = 1 -> file_map n !! ino (f_node F) = Some r -> node_at n r = Some x -> is_Some (dir_map n !! d2) ->
  heap (nodes_ s) !! r = Some F -> file_map (nodes_ s) = file_map n -> next_ref (nodes_ s) = next_ref n -> ino_last_ (nodes_ s) = ino_last_ n ->
  entry (nodes_ s) d1 f1 = Some r -> is_Some (dir_map (nodes_ s) !! d2) ->
  alter (fun dir => <[f2 := r]> dir) d2 (dir_map (nodes_ s)) = alter (fun dir => <[f2 := r]> dir) d2 (dir_map n) ->
  (forall q g, heap n !! q = Some g -> exists g', heap (nodes_ s) !! q = Some g' /\ f_node g' = f_node g /\ (q = r \/ entry n d2 f2 <> Some q -> refs g' = refs g)) ->
  (forall q g', heap (nodes_ s) !! q = Some g' -> is_Some (heap n !! q)) ->
  exists n', each apply [OpDirLink d2 f2 (ino (f_node F)); OpDirUnlink d1 f1] s = Some (tt, with_nodes n' s) /\ nodes_wf n' /\
    names n' = alter (delete f1) d1 (alter (<[f2 := x]>) d2 (names n)) /\ ino_last_ n' = ino_last_ n /\ file_map n' = file_map n /\ (forall q, q <> r -> heap n' !! q = heap (nodes_ s) !! q).
Proof.
  intros Hw He HF Hr Hm Hx Hd HFs Em En El Hes Hds Ed Hh Hh'.
  destruct (run_link d2 f2 (ino (f_node F)) s r F) as [h Eh]; [by rewrite Em|done|]. rewrite (each_cons apply (OpDirLink d2 f2 _) _ s _ Eh). set (s1 := with_nodes _ s).
  assert (entry (nodes_ s1) d1 f1 = Some r) as He1 by (rewrite (entry_set (nodes_ s) (nodes_ s1) d2 f2 r d1 f1); [by destruct (decide _)|done|done]).
  rewrite (each_cons apply (OpDirUnlink d1 f1) _ s1 _ (run_unlink d1 f1 s1 r _ He1 ltac:(simpl; apply lookup_insert_eq) ltac:(simpl; lia))). eexists. split; [done|]. simpl.
  assert (Z.max (ino_last_ (nodes_ s)) (ino (f_node F)) = ino_last_ n) as -> by (rewrite El; pose proof (w_last _ Hw _ _ Hm); lia). rewrite insert_insert_eq, Ed, Em, En.
  match goal with |- nodes_wf ?n' /\ _ => destruct (rename_shape n n' d1 f1 d2 f2 r x Hw He Hx Hd eq_refl eq_refl eq_refl eq_refl) as [Hw' Hn]; [..|split_and!; try done; intros q Hq; simpl; by rewrite lookup_insert_ne] end; simpl.
  - intros q g Eq. destruct (decide (q = r)) as [->|Hq]; [rewrite lookup_insert_eq|rewrite lookup_insert_ne by done; by apply Hh]. rewrite HF in Eq. injection Eq as <-. eexists. split; [done|]. simpl. split; [done|]. intros _. lia.
  - intros q g'. destruct (decide (q = r)) as [->|Hq]; [by rewrite HF|rewrite lookup_insert_ne by done; apply Hh'].
Qed.

(** The replay of a group does what the group stands for. *)
Lemma replay_group g (s : fs_t) :
  nodes_wf (nodes_ s) -> view_ok (view_of (nodes_ s)) -> legal g (view_of (nodes_ s)) ->
  exists n, each apply (group_ops g) s = Some (tt, with_nodes n s) /\ nodes_wf n /\ view_of n = change g (view_of (nodes_ s)) /\ log_kept (nodes_ s) n.
Proof.
  intros Hw Hvok Hl. destruct g as [|d|d|d f x|d f x|d f i|d1 f1 d2 f2 i over]; cbn [legal group_ops] in *.
  - exists (nodes_ s). rewrite with_nodes_id. done.
  - destruct Hl as [_ Hd]. simpl in Hd. assert (dir_map (nodes_ s) !! d = None) as Hd' by (apply eq_None_not_Some; rewrite <- names_dir, Hd; apply is_Some_None).
    destruct (mkdir_shape (nodes_ s) d Hw Hd') as [Hw' Hn]. eexists. split; [done|]. split; [done|]. split; [|done]. unfold view_of. simpl. by rewrite Hn.
  - destruct Hl as [_ Hd]. simpl in Hd. rewrite names_lookup in Hd. destruct (dir_map (nodes_ s) !! d) as [dir|] eqn:Ed; [|done]. simpl in Hd. assert (dir = ∅) as ->.
    { apply map_eq. intros y. rewrite lookup_empty. destruct (dir !! y) as [r|] eqn:Ey; [|done]. exfalso. assert (entry (nodes_ s) d y = Some r) as He by (unfold entry; by rewrite Ed).
      destruct (w_entry _ Hw d y r He) as (F & HF & _). injection Hd as Hd. apply (f_equal (fun m => m !! y)) in Hd. rewrite lookup_omap, Ey, lookup_empty in Hd. simpl in Hd. unfold node_at in Hd. by rewrite HF in Hd. }
    destruct (rmdir_shape (nodes_ s) d Hw Ed) as [Hw' Hn]. eexists. split; [done|]. split; [done|]. split; [|done]. unfold view_of. simpl. by rewrite Hn.
  - destruct Hl as (_ & _ & Hv & Hd & Hlast). simpl in Hd, Hlast. apply names_dir in Hd.
    assert (file_map (nodes_ s) !! ino (recalc_allocated x) = None) as Hi by (rewrite recalc_ino; destruct (file_map (nodes_ s) !! ino x) eqn:E; [apply (w_last _ Hw) in E; lia|done]).
    rewrite (each_cons apply (OpFileUpdate x) _ s _ (run_update_new _ s Hi)). rewrite recalc_ino in *. set (s1 := with_nodes _ s).
    destruct (run_link d f (ino x) s1 (next_ref (nodes_ s)) (with_node (recalc_allocated x) (new_file (ino x)))) as [h Eh]; [simpl; apply lookup_insert_eq|simpl; apply lookup_insert_eq|].
    rewrite (each_cons apply (OpDirLink d f (ino x)) _ s1 _ Eh). eexists. split; [done|]. simpl. rewrite insert_insert_eq, Z.max_r by lia. set (F := with_refs _ _).
    destruct (create_shape (nodes_ s) _ d f F Hw Hd ltac:(simpl; rewrite recalc_ino; lia) eq_refl (recalc_valid _ Hv) eq_refl) as [Hw' Hn]. simpl in Hw', Hn. rewrite recalc_ino in Hw', Hn.
    split; [exact Hw'|]. split; [unfold view_of; simpl; f_equal; rewrite Hn; by rewrite recalc_idem|].
    intros rl Hrl. destruct (w_files _ Hw 1 rl Hrl) as (FL & HL & _). apply (w_heap _ Hw) in HL. destruct Hvok as [[H1 _] _]. simpl in H1 |- *. by rewrite !lookup_insert_ne by lia.
  - destruct Hl as (Hv & y & Hy & Ei). destruct (file_entry _ d f y Hw Hy) as (r & F & He & HF & Hr & Hm & Hv' & -> & _). rewrite recalc_ino in *. rewrite Ei in Hm.
    assert (ino x <= ino_last_ (nodes_ s)) as Hlast by (by apply (w_last _ Hw _ r)).
    rewrite (each_cons apply (OpFileUpdate x) [] s _ (run_update_old (recalc_allocated x) s r F ltac:(by rewrite recalc_ino) HF ltac:(by rewrite recalc_ino))). eexists. split; [done|].
    destruct (write_shape (nodes_ s) d f r F (with_node (recalc_allocated x) F) Hw He HF eq_refl ltac:(simpl; by rewrite recalc_ino) (recalc_valid _ Hv)) as [Hw' Hn].
    split; [done|]. split; [unfold view_of; simpl; f_equal; rewrite Hn; simpl; by rewrite recalc_idem|].
    intros rl Hrl. destruct (log_unnamed _ d f r rl Hw Hvok He Hrl) as [Hne _]. simpl. by rewrite lookup_insert_ne.
  - destruct Hl as (_ & _ & y & Hy & Ei). destruct (file_entry _ d f y Hw Hy) as (r & F & He & HF & Hr & Hm & Hv' & -> & _). rewrite recalc_ino in *. subst i.
    rewrite (each_cons apply (OpDirUnlink d f) _ s _ (run_unlink d f s r F He HF ltac:(lia))). set (s1 := with_nodes _ s).
    rewrite (each_cons apply (OpFileRemove (ino (f_node F))) _ s1 _ (run_remove _ s1 r (with_refs (refs F - 1) F) Hm ltac:(simpl; apply lookup_insert_eq))). eexists. split; [done|].
    destruct (unlink_shape (nodes_ s) _ d f r F (with_refs (refs F - 1) F) Hw He HF eq_refl) as [Hw' Hn]. split; [done|]. split; [unfold view_of; simpl; by f_equal|].
    intros rl Hrl. destruct (log_unnamed _ d f r rl Hw Hvok He Hrl) as [Hne Hi1]. simpl. by rewrite lookup_delete_ne, lookup_insert_ne by (done || by apply Hi1).
  - destruct Hl as (_ & _ & _ & _ & Hd & (y & Hy & Ei) & Hover). simpl in Hd. apply names_dir in Hd.
    destruct (file_entry _ d1 f1 y Hw Hy) as (r & F & He & HF & Hr & Hm & Hv & -> & Hx). rewrite recalc_ino in *. subst i. cbn [change]. rewrite Hy. destruct over.
    + destruct (proj1 Hover eq_refl) as [[z Hz] Hne]. destruct (file_entry _ d2 f2 z Hw Hz) as (r2 & F2 & He2 & HF2 & Hr2 & _). assert (r2 <> r) as Hr2r by (intros ->; exact (Hne (w_unique _ Hw _ _ _ _ _ He He2))).
      cbn [app]. rewrite (each_cons apply (OpDirUnlink d2 f2) _ s _ (run_unlink d2 f2 s r2 F2 He2 HF2 ltac:(lia))). set (s1 := with_nodes _ s).
      destruct (replay_rename (nodes_ s) s1 d1 f1 d2 f2 r F (recalc_allocated (f_node F))) as (n' & E & Hw' & Hn & El & Em & Eh); simpl; try done.
      * by rewrite lookup_insert_ne.
      * rewrite (entry_del (nodes_ s) _ d2 f2 d1 f1) by done. by rewrite decide_False.
      * by rewrite lookup_alter_eq, fmap_is_Some.
      * rewrite alter_alter_eq. apply alter_ext. intros dir _. apply insert_delete_eq.
      * intros q g Eq. destruct (decide (q = r2)) as [->|Hq]; [rewrite lookup_insert_eq|rewrite lookup_insert_ne by done; by exists g]. rewrite HF2 in Eq. injection Eq as <-. eexists. split; [done|]. split; [done|]. intros [|Hno]; [done|]. by rewrite He2 in Hno.
      * intros q g'. destruct (decide (q = r2)) as [->|Hq]; [by rewrite HF2|by rewrite lookup_insert_ne].
      * exists n'. split; [exact E|]. split; [done|]. split; [unfold view_of; by rewrite Hn, El|]. intros rl Hrl. destruct (log_unnamed _ d1 f1 r rl Hw Hvok He Hrl) as [Hne1 _].
        destruct (log_unnamed _ d2 f2 r2 rl Hw Hvok He2 Hrl) as [Hne2 _]. rewrite Em, Eh by done. simpl. by rewrite lookup_insert_ne.
    + cbn [app]. destruct (replay_rename (nodes_ s) s d1 f1 d2 f2 r F (recalc_allocated (f_node F))) as (n' & E & Hw' & Hn & El & Em & Eh); try done; [by eauto|].
      exists n'. split; [exact E|]. split; [done|]. split; [unfold view_of; by rewrite Hn, El|]. intros rl Hrl. destruct (log_unnamed _ d1 f1 r rl Hw Hvok He Hrl) as [Hne1 _]. by rewrite Em, Eh.
Qed.

(** ** A sequence of groups *)

Fixpoint changes (l : list group) (v : view) : view := match l with [] => v | g :: t => changes t (change g v) end.
Fixpoint legal_all (l : list group) (v : view) : Prop := match l with [] => True | g :: t => legal g v /\ legal_all t (change g v) end.

Lemma each_app {X} (f : X -> M unit) l1 l2 (s s' : fs_t) : each f l1 s = Some (tt, s') -> each f (l1 ++ l2) s = each f l2 s'.
Proof.
  revert s. induction l1 as [|x l1 IH]; intros s E; [by injection E as ->|]. cbn [each app] in *. rewrite M_bind_eq in *. destruct (f x s) as [[[] s1]|]; [|done]. by apply IH.
Qed.

Definition ops_of (l : list group) : list lop := concat (group_ops <$> l).

Lemma with_nodes_twice a b (s : fs_t) : with_nodes a (with_nodes b s) = with_nodes a s.
Proof. done. Qed.

Lemma replay_groups l : forall s : fs_t,
  nodes_wf (nodes_ s) -> view_ok (view_of (nodes_ s)) -> legal_all l (view_of (nodes_ s)) ->
  exists n, each apply (ops_of l) s = Some (tt, with_nodes n s) /\ nodes_wf n /\ view_of n = changes l (view_of (nodes_ s)) /\ log_kept (nodes_ s) n.
Proof.
  induction l as [|g l IH]; intros s Hw Hvok Hl; [exists (nodes_ s); rewrite with_nodes_id; done|]. destruct Hl as [Hg Hl]. destruct (replay_group g s Hw Hvok Hg) as (n1 & E1 & Hw1 & V1 & K1).
  destruct (IH (with_nodes n1 s) Hw1) as (n2 & E2 & Hw2 & V2 & K2); [simpl; rewrite V1; by apply view_ok_change|simpl; by rewrite V1|]. exists n2. change (ops_of (g :: l)) with (group_ops g ++ ops_of l). rewrite (each_app _ _ _ _ _ E1), E2.
  split; [done|]. split; [done|]. split; [rewrite V2; simpl; by rewrite V1|]. intros rl Hrl. destruct (K1 rl Hrl) as [Hm1 Hh1]. destruct (K2 rl Hm1) as [Hm2 Hh2]. split; [done|]. simpl in Hh2. by rewrite Hh2.
Qed.
End Nodes.
End BlueFSNodes.
