(* ===== verification/BlueFSLive.v ===== *)
(** * The operations on names log what they do

    Every operation either fails without an effect or changes the names as the
    group says that it appends to the pending transaction. *)
From stdpp Require Import base numbers list gmap.
From Stdlib Require Import ZArith Lia ZifyBool.
From S2P Require Import Prelude Allocator Device Denc DencSpec BluefsTypes BluefsTypesSpec VolumeSelector BlueFS BlueFSOps BlueFSNodes.
Import Denc DencSpec BluefsTypes BluefsTypesSpec VolumeSelector BlueFS BlueFSOps BlueFSNodes.

Module BlueFSLive.

(** ** What the operations promise *)

(** An operation of a client on the names. *)
Inductive cmd :=
  | Mkdir (d : bytes)
  | Rmdir (d : bytes)
  | Open (d f : bytes) (overwrite : bool) (now : Z)
  | Unlink (d f : bytes)
  | Rename (d1 f1 d2 f2 : bytes).

(** The error that it returns, or the change that it makes. *)
Definition plan (c : cmd) (v : view) : Z + group :=
  match c with
  | Mkdir d => match v_names v !! d with Some _ => inl (- EEXIST) | None => inr (GMkdir d) end
  | Rmdir d =>
      match v_names v !! d with
      | None => inl (- ENOENT)
      | Some m => if bool_decide (m = ∅) then inr (GRmdir d) else inl (- ENOTEMPTY)
      end
  | Open d f overwrite now =>
      match v_names v !! d, file_in v d f with
      | None, _ => inl (- ENOENT)
      | Some _, None => if overwrite then inl (- ENOENT) else inr (GCreate d f (set_mtime now (fnode (v_last v + 1) 0 0)))
      | Some _, Some y => inr (GWrite d f (set_mtime now (if overwrite then y else clear_extents (set_size 0 y))))
      end
  | Unlink d f => match file_in v d f with None => inl (- ENOENT) | Some y => inr (GUnlink d f (ino y)) end
  | Rename d1 f1 d2 f2 =>
      match file_in v d1 f1, v_names v !! d2 with
      | Some y, Some _ => inr (GRename d1 f1 d2 f2 (ino y) (bool_decide (is_Some (file_in v d2 f2) /\ ~ (d1 = d2 /\ f1 = f2))))
      | _, _ => inl (- ENOENT)
      end
  end.

(** The specification of one call and of a sequence of calls: the results, and
    the names that are left. *)
Definition spec_cmd (c : cmd) (v : view) : Z * view := match plan c v with inl e => (e, v) | inr g => (0, change g v) end.
Fixpoint spec_all (l : list cmd) (v : view) : list Z * view :=
  match l with [] => ([], v) | c :: t => let '(r, v) := spec_cmd c v in let '(rs, v) := spec_all t v in (r :: rs, v) end.

Lemma spec_last c v : v_last (spec_cmd c v).2 <= v_last v + 1.
Proof. unfold spec_cmd. destruct c; cbn [plan]; repeat case_match; simplify_eq; simpl; repeat case_match; simpl; lia. Qed.

(** The arguments that a call may have. *)
Definition cmd_ok (c : cmd) : Prop :=
  match c with
  | Mkdir d | Rmdir d => name_ok d
  | Open d f _ now => name_ok d /\ name_ok f /\ 0 <= now < 2 ^ 32 * 1000000000
  | Unlink d f => name_ok d /\ name_ok f
  | Rename d1 f1 d2 f2 => name_ok d1 /\ name_ok f1 /\ name_ok d2 /\ name_ok f2
  end.

Section Live.
Context {D A V : Type} `{!Device.BlockDevice D} `{!Allocator.Allocator A} `{!VolumeSelector V} `{!Untracked V}.
Abbreviation M := (M (D := D) (A := A) (V := V)).
Abbreviation fs_t := (bluefs (D := D) (A := A) (V := V)).

(** The state with other nodes, another pending transaction and other dirty data. *)
Definition with_parts (n : nodes_t) (t : bluefs_transaction_t) (p : dirty_t) (s : fs_t) : fs_t :=
  mk_fs (cfg_ s) (disk s) (super_ s) (vselector_ s) n (set_txn t (log_ s)) p.

Lemma with_parts_id s : with_parts (nodes_ s) (log_txn (log_ s)) (dirty_ s) s = s.
Proof. destruct s as [c k u v n [] d]. done. Qed.

(** Files that were not dirty stay so. *)
Definition dirty_kept (p p' : dirty_t) : Prop :=
  seq_stable p' = seq_stable p /\ dirty_seq_live p' = dirty_seq_live p /\ forall q, dirty_files p !! q = None -> dirty_files p' !! q = None.

(** An operation that did what [g] stands for. *)
Definition did (g : group) (s s' : fs_t) : Prop :=
  exists n p, s' = with_parts n (add_op (enc_all (group_ops g)) (log_txn (log_ s))) p s /\
    legal g (view_of (nodes_ s)) /\ nodes_wf n /\ view_of n = change g (view_of (nodes_ s)) /\ dirty_kept (dirty_ s) p /\
    log_kept (nodes_ s) n.

(** A call ends as [plan] says: with an error and no effect, or with 0. *)
Definition outcome (p : Z + group) (r : Z) (s s' : fs_t) : Prop :=
  match p with inl e => r = e /\ s' = s | inr g => r = 0 /\ did g s s' end.

(** A directory has no names exactly if it is empty. *)
Lemma names_empty n d dir : nodes_wf n -> dir_map n !! d = Some dir -> (names n !! d = Some ∅ <-> dir = ∅).
Proof.
  intros Hw Ed. rewrite names_lookup, Ed. cbn [fmap option_fmap option_map]. split; [|intros ->; by rewrite omap_empty]. intros [= Hd]. apply map_eq. intros y. rewrite lookup_empty. destruct (dir !! y) as [r|] eqn:Ey; [|done]. exfalso.
  assert (entry n d y = Some r) as He by (unfold entry; by rewrite Ed). destruct (w_entry _ Hw d y r He) as (F & HF & _). apply (f_equal (fun m => m !! y)) in Hd. rewrite lookup_omap, Ey, lookup_empty in Hd. simpl in Hd. unfold node_at in Hd. by rewrite HF in Hd.
Qed.

Lemma names_none n d : dir_map n !! d = None -> names n !! d = None.
Proof. intros E. by rewrite names_lookup, E. Qed.

Lemma file_in_none n d f : nodes_wf n -> entry n d f = None -> file_in (view_of n) d f = None.
Proof. intros Hw E. destruct (file_in (view_of n) d f) as [y|] eqn:Ey; [|done]. destruct (file_entry n d f y Hw Ey) as (r & ? & Er & _). congruence. Qed.

Lemma dirty_kept_refl p : dirty_kept p p.
Proof. done. Qed.

Lemma add_op_app a b t : add_op b (add_op a t) = add_op (a ++ b) t.
Proof. unfold add_op. simpl. by rewrite app_assoc. Qed.

Lemma set_txn_twice a b l : set_txn a (set_txn b l) = set_txn a l.
Proof. done. Qed.

Lemma enc_one o : enc_all [o] = enc o.
Proof. unfold enc_all. simpl. apply app_nil_r. Qed.
Lemma enc_two a b : enc_all [a; b] = enc a ++ enc b.
Proof. unfold enc_all. simpl. by rewrite app_nil_r. Qed.

Lemma mkdir_live d s : nodes_wf (nodes_ s) -> name_ok d -> exists r s', mkdir d s = Some (r, s') /\ outcome (plan (Mkdir d) (view_of (nodes_ s))) r s s'.
Proof.
  intros Hw Hd. unfold mkdir, find_dir. rewrite M_bind_eq. unfold gets. cbn [plan v_names view_of]. rewrite names_lookup. destruct (dir_map (nodes_ s) !! d) as [dir|] eqn:E; [by exists (- EEXIST), s|].
  destruct (mkdir_shape _ d Hw E) as [Hw' Hn]. eexists _, _. split; [done|]. split; [done|]. exists (set_dir_map (<[d := ∅]> (dir_map (nodes_ s))) (nodes_ s)), (dirty_ s).
  split; [cbn [group_ops]; by rewrite enc_one|]. split; [split; [done|]; simpl; by rewrite names_lookup, E|]. split; [done|]. split; [unfold view_of; simpl; by rewrite Hn|]. split; [done|]. done.
Qed.

Lemma rmdir_live d s : nodes_wf (nodes_ s) -> name_ok d -> exists r s', rmdir d s = Some (r, s') /\ outcome (plan (Rmdir d) (view_of (nodes_ s))) r s s'.
Proof.
  intros Hw Hd. unfold rmdir, find_dir. rewrite M_bind_eq. unfold gets. cbn [plan v_names view_of]. destruct (dir_map (nodes_ s) !! d) as [dir|] eqn:E; [|rewrite (names_none _ _ E); by exists (- ENOENT), s].
  pose proof (names_empty _ _ _ Hw E) as Hemp. destruct (proj2 (names_dir (nodes_ s) d) ltac:(by rewrite E)) as [m Em]. rewrite Em in *. destruct (bool_decide_reflect (dir = ∅)) as [->|Hne]; simpl.
  2:{ rewrite bool_decide_false by (intros ->; by apply Hne, Hemp). by exists (- ENOTEMPTY), s. }
  assert (m = ∅) as -> by (destruct Hemp as [_ Hemp]; by injection (Hemp eq_refl)). rewrite bool_decide_true by done.
  destruct (rmdir_shape _ d Hw E) as [Hw' Hn]. eexists _, _. split; [done|]. split; [done|]. exists (set_dir_map (delete d (dir_map (nodes_ s))) (nodes_ s)), (dirty_ s).
  split; [cbn [group_ops]; by rewrite enc_one|]. split; [split; [done|]; exact Em|]. split; [done|]. split; [unfold view_of; simpl; by rewrite Hn|]. split; [done|]. done.
Qed.

(** ** Extents that wait for their release *)

Lemma each_pend l : forall s : fs_t, exists m, each pend_extent l s = Some (tt, with_parts (nodes_ s) (log_txn (log_ s)) (set_pending m (dirty_ s)) s).
Proof.
  induction l as [|e l IH]; intros s.
  - exists (pending_release (dirty_ s)). cbn [each]. unfold mret, M_ret. rewrite <- (with_parts_id s) at 1. by destruct (dirty_ s).
  - set (s1 := with_parts (nodes_ s) (log_txn (log_ s)) (set_pending (<[bdev e := map_insert (offset e) (length e) (default [] (pending_release (dirty_ s) !! bdev e))]> (pending_release (dirty_ s))) (dirty_ s)) s).
    assert (pend_extent e s = Some (tt, s1)) as E by (destruct s as [c k u v n [] d]; done). rewrite (each_cons _ _ _ _ _ E). destruct (IH s1) as [m Em]. exists m. by rewrite Em.
Qed.

(** The bookkeeping of [_drop_link] for a file that was dirty. *)
Definition retract (r : fileref) (q : Z) (d : dirty_t) : dirty_t :=
  set_dirty_files
    (match dirty_files d !! q with
     | None => dirty_files d
     | Some l => let l := filter (fun x => x <> r) l in if (List.length l =? 0)%nat then delete q (dirty_files d) else <[q := l]> (dirty_files d)
     end) d.

Lemma retract_kept r q m d : dirty_kept d (retract r q (set_pending m d)).
Proof.
  unfold retract. split; [done|]. split; [done|]. intros k Hk. cbn [dirty_files set_dirty_files set_pending]. destruct (dirty_files d !! q) as [l|] eqn:E; [|done]. cbv zeta.
  destruct (_ =? 0)%nat; [by rewrite lookup_delete_ne by congruence|by rewrite lookup_insert_ne by congruence].
Qed.

Lemma drop_link_run r F (s : fs_t) :
  heap (nodes_ s) !! r = Some F -> refs F = 1 ->
  exists F' p, _drop_link r s = Some (tt, with_parts (mk_nodes (<[r := F']> (heap (nodes_ s))) (next_ref (nodes_ s)) (dir_map (nodes_ s)) (delete (ino (f_node F)) (file_map (nodes_ s))) (ino_last_ (nodes_ s)))
    (op_file_remove (ino (f_node F)) (log_txn (log_ s))) p s) /\ dirty_kept (dirty_ s) p.
Proof.
  intros HF Hr. unfold _drop_link. rewrite (M_bind_some _ _ _ _ _ (get_file_run _ _ _ HF)), M_bind_eq, Hr. change (cxxlab_assert (0 <? 1) s) with (Some (tt, s)). cbv beta iota. rewrite M_bind_eq, put_file_run. change (1 - 1) with 0. change (negb (0 =? 0)) with false. cbv beta iota.
  set (s1 := with_nodes _ s). rewrite (M_bind_some _ _ _ _ _ (run_selector _ s1 (untracked_sub (vselector_hint F) (f_node F)))).
  set (G := with_deleted true (with_refs 0 F)).
  set (s3 := with_parts (mk_nodes (<[r := G]> (heap (nodes_ s))) (next_ref (nodes_ s)) (dir_map (nodes_ s)) (delete (ino (f_node F)) (file_map (nodes_ s))) (ino_last_ (nodes_ s)))
    (op_file_remove (ino (f_node F)) (log_txn (log_ s))) (dirty_ s) s).
  rewrite M_bind_eq. cbn [log_op in_log modify]. rewrite M_bind_eq, in_nodes_run.
  match goal with |- context [(update_file r _ ≫= _) ?s2] => assert (heap (nodes_ s2) !! r = Some (with_refs 0 F)) as H2 by (simpl; apply lookup_insert_eq); rewrite (M_bind_some _ _ _ _ _ (update_file_run r _ (with_deleted true) s2 H2)) end.
  match goal with |- context [(each pend_extent _ ≫= _) ?s2] => assert (s2 = s3) as -> by (subst s3 s1; unfold with_nodes, with_parts, set_heap, set_file_map; cbn; by rewrite insert_insert_eq) end.
  destruct (each_pend (extents (f_node F)) s3) as [m Em]. rewrite (M_bind_some _ _ _ _ _ Em), M_bind_eq. unfold gets. destruct (_ <? _).
  - rewrite M_bind_eq. cbn [in_dirty modify]. match goal with |- context [update_file r _ ?s2] => assert (heap (nodes_ s2) !! r = Some G) as H3 by (simpl; apply lookup_insert_eq); rewrite (update_file_run r _ _ s2 H3) end.
    eexists _, (retract r (dirty_seq F) (set_pending m (dirty_ s))). split; [|apply retract_kept]. unfold with_nodes, with_parts, set_heap, s3. cbn. rewrite insert_insert_eq. done.
  - eexists G, (set_pending m (dirty_ s)). split; [|done]. done.
Qed.

Lemma unlink_live d f s : nodes_wf (nodes_ s) -> view_ok (view_of (nodes_ s)) -> name_ok d -> name_ok f -> exists r s', unlink d f s = Some (r, s') /\ outcome (plan (Unlink d f) (view_of (nodes_ s))) r s s'.
Proof.
  intros Hw Hv Hd Hf. unfold unlink, find_file. rewrite M_bind_eq. unfold gets. fold (entry (nodes_ s) d f). cbn [plan]. destruct (entry (nodes_ s) d f) as [r|] eqn:He; [|rewrite (file_in_none _ _ _ Hw He); by exists (- ENOENT), s].
  destruct (entry_file _ d f r Hw He) as (F & HF & Hr & Hm & Hfv & Hy). rewrite Hy, recalc_ino. unfold erase_entry. rewrite M_bind_eq, in_nodes_run, M_bind_eq. cbn [log_op in_log modify].
  match goal with |- context [(_drop_link r ≫= _) ?s2] => destruct (drop_link_run r F s2 HF Hr) as (F' & p & E & Hp) end. rewrite (M_bind_some _ _ _ _ _ E).
  eexists 0, _. split; [done|]. split; [done|]. eexists _, p. split; [cbn [group_ops]; rewrite enc_two; unfold with_parts; cbn; unfold op_file_remove, op_dir_unlink; by rewrite add_op_app|].
  destruct (unlink_shape (nodes_ s) _ d f r F F' Hw He HF eq_refl) as [Hw' Hn]. split; [split; [done|]; split; [done|]; eexists; split; [done|apply recalc_ino]|]. split; [done|]. split; [unfold view_of; simpl; by rewrite Hn|]. split; [done|].
  intros rl Hl. destruct (log_unnamed _ d f r rl Hw Hv He Hl) as [Hne Hi]. simpl. by rewrite lookup_delete_ne, lookup_insert_ne by (done || by apply Hi).
Qed.

Lemma rename_live d1 f1 d2 f2 s :
  nodes_wf (nodes_ s) -> view_ok (view_of (nodes_ s)) -> name_ok d1 -> name_ok f1 -> name_ok d2 -> name_ok f2 -> exists r s', rename d1 f1 d2 f2 s = Some (r, s') /\ outcome (plan (Rename d1 f1 d2 f2) (view_of (nodes_ s))) r s s'.
Proof.
  intros Hw Hv ? ? ? ?. unfold rename, find_file, find_dir. rewrite M_bind_eq. unfold gets. fold (entry (nodes_ s) d1 f1). cbn [plan v_names view_of]. fold (view_of (nodes_ s)). destruct (entry (nodes_ s) d1 f1) as [r|] eqn:He; [|rewrite (file_in_none _ _ _ Hw He); by exists (- ENOENT), s].
  destruct (entry_file _ d1 f1 r Hw He) as (F & HF & Hr & Hm & Hfv & Hy). rewrite Hy, recalc_ino.
  rewrite M_bind_eq. unfold gets. destruct (dir_map (nodes_ s) !! d2) as [dir|] eqn:Ed; [|rewrite (names_none _ _ Ed); by exists (- ENOENT), s].
  destruct (proj2 (names_dir (nodes_ s) d2) ltac:(by rewrite Ed)) as [m2 Em2]. rewrite Em2.
  set (over := match dir !! f2 with Some r' => negb (r' =? r) | None => false end).
  assert (over = true <-> is_Some (file_in (view_of (nodes_ s)) d2 f2) /\ ~ (d1 = d2 /\ f1 = f2)) as Hover.
  { assert (entry (nodes_ s) d2 f2 = dir !! f2) as E2 by (unfold entry; by rewrite Ed). subst over. destruct (dir !! f2) as [r'|] eqn:Ef.
    - destruct (entry_file _ d2 f2 r' Hw E2) as (F' & HF' & _ & _ & _ & Hy'). rewrite Hy'. split; [intros Hn; split; [by eexists|]|intros [_ Hn]].
      + intros [<- <-]. rewrite He in E2. injection E2 as ->. by rewrite Z.eqb_refl in Hn.
      + destruct (Z.eqb_spec r' r) as [->|]; [|done]. exfalso. exact (Hn (w_unique _ Hw _ _ _ _ _ He E2)).
    - split; [done|]. intros [[y Hy'] _]. destruct (file_entry _ d2 f2 y Hw Hy') as (q & ? & Hq & _). congruence. }
  set (t1 := if over then op_dir_unlink d2 f2 (log_txn (log_ s)) else log_txn (log_ s)).
  match goal with |- context [((match dir !! f2 with _ => _ end) ≫= _) s] => idtac end.
  rewrite M_bind_eq. replace (match dir !! f2 with Some r' => if negb (r' =? r) then log_op (op_dir_unlink d2 f2) else mret () | None => mret () end s) with (Some (tt, with_parts (nodes_ s) t1 (dirty_ s) s)).
  2:{ subst t1 over. destruct (dir !! f2) as [r'|]; [destruct (negb (r' =? r)); [done|]|]; by rewrite with_parts_id. }
  unfold set_entry, erase_entry. rewrite M_bind_eq, in_nodes_run, M_bind_eq, in_nodes_run.
  match goal with |- context [(get_file r ≫= _) ?s2] => rewrite (M_bind_some _ _ _ _ _ (get_file_run r F s2 HF)) end.
  assert (bool_decide (is_Some (file_in (view_of (nodes_ s)) d2 f2) /\ ~ (d1 = d2 /\ f1 = f2)) = over) as -> by (destruct over; [apply bool_decide_true; by apply Hover|apply bool_decide_false; intros Hx; by apply Hover in Hx]).
  eexists 0, _. split; [done|]. split; [done|]. exists (set_dir_map (alter (delete f1) d1 (alter (fun dir => <[f2 := r]> dir) d2 (dir_map (nodes_ s)))) (nodes_ s)), (dirty_ s).
  split.
  { cbn [group_ops]. unfold with_parts. cbn. unfold t1, op_dir_unlink, op_dir_link. rewrite !set_txn_twice. f_equal. f_equal.
    destruct over; cbn [app]; rewrite !add_op_app; unfold enc_all; cbn [fmap list_fmap concat enc]; f_equal; rewrite app_nil_r, <- !app_assoc; reflexivity. }
  assert (is_Some (dir_map (nodes_ s) !! d2)) as Hd2 by (by rewrite Ed).
  assert (node_at (nodes_ s) r = Some (recalc_allocated (f_node F))) as Hx by (unfold node_at; by rewrite HF).
  destruct (rename_shape (nodes_ s) (set_dir_map (alter (delete f1) d1 (alter (fun dir => <[f2 := r]> dir) d2 (dir_map (nodes_ s)))) (nodes_ s)) d1 f1 d2 f2 r _ Hw He Hx Hd2) as [Hw' Hn]; try done; [by eauto|].
  split; [split_and!; try done; eexists; split; [done|apply recalc_ino]|]. split; [done|]. split; [cbn [change]; rewrite Hy; unfold view_of; by rewrite Hn|]. done.
Qed.

Lemma cleared_valid now x : fields_valid x -> 0 <= now < 2 ^ 32 * 1000000000 -> fields_valid (set_mtime now (clear_extents (set_size 0 x))).
Proof. unfold fields_valid. simpl. intros (? & ? & ? & ? & ? & ?) ?. split_and!; try done; lia. Qed.
Lemma touched_valid now x : fields_valid x -> 0 <= now < 2 ^ 32 * 1000000000 -> fields_valid (set_mtime now x).
Proof. unfold fields_valid. simpl. tauto. Qed.
Lemma reset_valid x : fields_valid x -> fields_valid (reset_delta x).
Proof. done. Qed.
Lemma reset_recalc x : recalc_allocated (reset_delta x) = recalc_allocated x.
Proof. unfold recalc_allocated. simpl. by destruct (recalc (extents x)). Qed.

(** The new node of a file is logged. *)
Lemma log_update_run r F (s : fs_t) : heap (nodes_ s) !! r = Some F ->
  log_file_update r s = Some (tt, with_parts (set_heap (<[r := with_node (reset_delta (f_node F)) F]> (heap (nodes_ s))) (nodes_ s)) (add_op (enc (OpFileUpdate (f_node F))) (log_txn (log_ s))) (dirty_ s) s).
Proof. intros HF. unfold log_file_update. by rewrite (M_bind_some _ _ _ _ _ (get_file_run _ _ _ HF)). Qed.

(** The rest of [open_for_write] when the file is there. *)
Lemma open_existing_live d f r F F1 now old (s s1 : fs_t) :
  nodes_wf (nodes_ s) -> view_ok (view_of (nodes_ s)) -> entry (nodes_ s) d f = Some r -> heap (nodes_ s) !! r = Some F ->
  s1 = with_nodes (set_heap (<[r := F1]> (heap (nodes_ s))) (nodes_ s)) s -> refs F1 = refs F -> ino (f_node F1) = ino (f_node F) -> fields_valid (set_mtime now (f_node F1)) ->
  exists h s', (update_file r (fun f => with_node (set_mtime now (f_node f)) f);; log_file_update r;; mret tt;; each pend_extent old;; h ← _create_writer r; mret (0, Some h)) s1 = Some ((0, Some h), s') /\
    did (GWrite d f (set_mtime now (f_node F1))) s s'.
Proof.
  intros Hw Hv He HF -> Hr Hi Hval. set (s1 := with_nodes _ s). assert (heap (nodes_ s1) !! r = Some F1) as H1 by (simpl; apply lookup_insert_eq).
  rewrite (M_bind_some _ _ _ _ _ (update_file_run r F1 (fun f => with_node (set_mtime now (f_node f)) f) s1 H1)). set (F2 := with_node (set_mtime now (f_node F1)) F1).
  match goal with |- context [(log_file_update r ≫= _) ?s2] => assert (heap (nodes_ s2) !! r = Some F2) as H2 by (simpl; apply lookup_insert_eq); rewrite (M_bind_some _ _ _ _ _ (log_update_run r F2 s2 H2)) end.
  set (F3 := with_node (reset_delta (f_node F2)) F2). rewrite M_bind_eq. cbn [mret M_ret].
  match goal with |- context [(each pend_extent old ≫= _) ?s3] => destruct (each_pend old s3) as [m Em]; rewrite (M_bind_some _ _ _ _ _ Em); assert (nodes_ s3 = set_heap (<[r := F3]> (heap (nodes_ s))) (nodes_ s)) as E3
    by (cbn; unfold set_heap; cbn; by rewrite !insert_insert_eq) end.
  unfold _create_writer. rewrite M_bind_eq.
  match goal with |- context [(get_file r ≫= _) ?s4] => assert (nodes_ s4 = set_heap (<[r := F3]> (heap (nodes_ s))) (nodes_ s)) as E4 by exact E3; rewrite (M_bind_some _ _ _ _ _ (get_file_run r F3 s4 ltac:(rewrite E4; simpl; apply lookup_insert_eq))) end.
  eexists _, _. split; [done|]. exists (set_heap (<[r := F3]> (heap (nodes_ s))) (nodes_ s)), (set_pending m (dirty_ s)). split; [cbn [group_ops]; rewrite enc_one, E3; reflexivity|].
  destruct (entry_file _ d f r Hw He) as (F' & HF' & _ & Hm & _ & Hy). rewrite HF in HF'. injection HF' as <-.
  destruct (write_shape (nodes_ s) d f r F F3 Hw He HF Hr Hi Hval) as [Hw' Hn].
  split; [split; [done|]; eexists; split; [done|]; rewrite recalc_ino; simpl; congruence|]. split; [done|]. split; [unfold view_of; cbn [change v_names v_last]; rewrite Hn; change (f_node F3) with (reset_delta (f_node F2)); by rewrite reset_recalc|]. split; [done|].
  intros rl Hl. destruct (log_unnamed _ d f r rl Hw Hv He Hl) as [Hne _]. simpl. by rewrite lookup_insert_ne.
Qed.

(** The rest of [open_for_write] for a new file. *)
Lemma open_new_live d f now hint (s s1 : fs_t) i :
  nodes_wf (nodes_ s) -> view_ok (view_of (nodes_ s)) -> is_Some (dir_map (nodes_ s) !! d) -> name_ok d -> name_ok f -> 0 <= now < 2 ^ 32 * 1000000000 ->
  i = ino_last_ (nodes_ s) + 1 -> 0 <= i < 2 ^ 63 ->
  let r := next_ref (nodes_ s) in
  let F0 := with_refs 1 (with_hint hint (new_file i)) in
  s1 = with_nodes (mk_nodes (<[r := F0]> (heap (nodes_ s))) (r + 1) (alter (fun dir => <[f := r]> dir) d (dir_map (nodes_ s))) (<[i := r]> (file_map (nodes_ s))) i) s ->
  exists h s', (update_file r (fun f => with_node (set_mtime now (f_node f)) f);; log_file_update r;; (F ← get_file r; log_op (op_dir_link d f (ino (f_node F))));; each pend_extent [];; h ← _create_writer r; mret (0, Some h)) s1 = Some ((0, Some h), s') /\
    did (GCreate d f (set_mtime now (f_node F0))) s s'.
Proof.
  intros Hw Hv Hd Hnd Hnf Hnow Hi Hu r F0 Es1. assert (heap (nodes_ s1) !! r = Some F0) as H1 by (subst s1; simpl; apply lookup_insert_eq).
  rewrite (M_bind_some _ _ _ _ _ (update_file_run r F0 (fun f => with_node (set_mtime now (f_node f)) f) s1 H1)). set (F2 := with_node (set_mtime now (f_node F0)) F0).
  match goal with |- context [(log_file_update r ≫= _) ?s2] => assert (heap (nodes_ s2) !! r = Some F2) as H2 by (simpl; apply lookup_insert_eq); rewrite (M_bind_some _ _ _ _ _ (log_update_run r F2 s2 H2)) end.
  set (F3 := with_node (reset_delta (f_node F2)) F2). rewrite M_bind_eq.
  match goal with |- context [(get_file r ≫= _) ?s3] => rewrite (M_bind_some _ _ _ _ _ (get_file_run r F3 s3 ltac:(simpl; apply lookup_insert_eq))) end.
  cbn [log_op in_log modify]. rewrite M_bind_eq. cbn [each mret M_ret]. unfold _create_writer. rewrite M_bind_eq.
  match goal with |- context [(get_file r ≫= _) ?s4] => rewrite (M_bind_some _ _ _ _ _ (get_file_run r F3 s4 ltac:(simpl; apply lookup_insert_eq))) end.
  eexists _, _. split; [done|]. assert (fields_valid (f_node F3)) as Hfv by (unfold fields_valid, uint; simpl; split_and!; try done; try lia; by apply Forall_nil).
  destruct (create_shape (nodes_ s) _ d f F3 Hw Hd ltac:(simpl; lia) eq_refl Hfv eq_refl) as [Hw' Hn].
  eexists _, (dirty_ s). split.
  { cbn [group_ops]. rewrite enc_two. subst s1. unfold with_parts, with_nodes, set_heap. cbn. unfold op_dir_link. rewrite add_op_app, !insert_insert_eq. reflexivity. }
  split; [split_and!; try done; [by apply names_dir|simpl; lia]|]. split; [exact Hw'|].
  split; [unfold view_of; cbn [change v_names v_last]; f_equal; refine (eq_trans Hn _); change (f_node F3) with (reset_delta (f_node F2)); by rewrite reset_recalc|]. split; [done|].
  intros rl Hl. destruct Hv as [Hl1 _]. simpl in Hl1. destruct (w_files _ Hw 1 rl Hl) as (FL & HL & _). apply (w_heap _ Hw) in HL. simpl. by rewrite !lookup_insert_ne by lia.
Qed.

(** Counters that the encoding leaves out do not matter. *)
Lemma encode_fnode_recalc x : encode denc_fnode (recalc_allocated x) = encode denc_fnode x.
Proof. unfold recalc_allocated. by destruct (recalc (extents x)). Qed.

Lemma did_write d f x y (s s' : fs_t) : recalc_allocated y = recalc_allocated x -> fields_valid y -> did (GWrite d f x) s s' -> did (GWrite d f y) s s'.
Proof.
  intros E Hy (n & p & Es & (_ & z & Hz & Ei) & Hw & Hv & Hrest). assert (encode denc_fnode y = encode denc_fnode x) as Ee by (by rewrite <- encode_fnode_recalc, E, encode_fnode_recalc).
  assert (ino y = ino x) as Eino by (by rewrite <- (recalc_ino y), E, recalc_ino). exists n, p. split; [rewrite Es; cbn [group_ops]; rewrite !enc_one; cbn [enc]; by rewrite Ee|].
  split; [split; [done|]; exists z; by rewrite Eino|]. split; [done|]. split; [|done]. rewrite Hv. cbn [change]. by rewrite E.
Qed.

Lemma recalc_mtime now x : recalc_allocated (set_mtime now (recalc_allocated x)) = recalc_allocated (set_mtime now x).
Proof.
  destruct x as [i z m u e y a c]. unfold recalc_allocated at 2 3. cbn [extents set_mtime]. destruct (recalc e) as [y' a'] eqn:E. unfold recalc_allocated. cbn [extents set_mtime set_extents]. by rewrite E.
Qed.
Lemma recalc_cleared now x : recalc_allocated (set_mtime now (clear_extents (set_size 0 (recalc_allocated x)))) = recalc_allocated (set_mtime now (clear_extents (set_size 0 x))).
Proof. destruct x as [i z m u e y a c]. unfold recalc_allocated at 2. cbn [extents]. by destruct (recalc e) as [y' a']. Qed.

(** The result of [open_for_write] is the code and the writer. *)
Lemma open_for_write_live d f overwrite now s :
  nodes_wf (nodes_ s) -> view_ok (view_of (nodes_ s)) -> is_Some (vselector_ s) -> ino_last_ (nodes_ s) < 2 ^ 62 -> name_ok d -> name_ok f -> 0 <= now < 2 ^ 32 * 1000000000 ->
  exists r h s', open_for_write d f overwrite now s = Some ((r, h), s') /\ outcome (plan (Open d f overwrite now) (view_of (nodes_ s))) r s s'.
Proof.
  intros Hw Hv [v Hsel] Hlast Hd Hf Hnow. unfold open_for_write, find_dir. rewrite M_bind_eq. unfold gets. cbn [plan v_names view_of]. fold (view_of (nodes_ s)).
  destruct (dir_map (nodes_ s) !! d) as [dir|] eqn:Ed; [|rewrite (names_none _ _ Ed); by exists (- ENOENT), None, s]. destruct (proj2 (names_dir (nodes_ s) d) ltac:(by rewrite Ed)) as [m Em]. rewrite Em.
  assert (entry (nodes_ s) d f = dir !! f) as Ee by (unfold entry; by rewrite Ed). assert (the_selector s = Some (v, s)) as Ev by (unfold the_selector; rewrite M_bind_eq; unfold gets; by rewrite Hsel).
  destruct (dir !! f) as [r|] eqn:Ef.
  - rewrite bool_decide_true by done. cbn [negb andb]. destruct (entry_file _ d f r Hw Ee) as (F & HF & Hr & Hm & Hfv & Hy). rewrite Hy. destruct overwrite.
    + rewrite M_bind_eq. cbn [mret M_ret]. destruct (open_existing_live d f r F F now [] s s) as (h & s' & E & Hdid); try done; [rewrite insert_id by done; destruct s as [? ? ? ? [] ? ?]; done|by apply touched_valid|].
      exists 0, (Some h), s'. split; [exact E|]. split; [done|]. apply (did_write _ _ _ _ _ _ (recalc_mtime _ _)); [|done]. apply touched_valid; [by apply recalc_valid|done].
    + rewrite M_bind_eq, (M_bind_some _ _ _ _ _ (get_file_run _ _ _ HF)), (M_bind_some _ _ _ _ _ Ev), M_bind_eq, untracked_sub. cbn [lift]. rewrite (M_bind_some _ _ _ _ _ (same_selector _ _ Hsel)), M_bind_eq, put_file_run. cbn [mret M_ret].
      destruct (open_existing_live d f r F (with_node (clear_extents (set_size 0 (f_node F))) F) now (extents (f_node F)) s _ Hw Hv Ee HF eq_refl eq_refl eq_refl (cleared_valid _ _ Hfv Hnow)) as (h & s' & E & Hdid).
      exists 0, (Some h), s'. split; [exact E|]. split; [done|]. apply (did_write _ _ _ _ _ _ (recalc_cleared _ _)); [|done]. apply cleared_valid; [by apply recalc_valid|done].
  - rewrite bool_decide_false by apply is_Some_None. rewrite (file_in_none _ _ _ Hw Ee). cbn [negb andb]. destruct overwrite; [by exists (- ENOENT), None, s|].
    destruct Hv as [Hl1 Hv]. cbn [v_last view_of] in Hl1 |- *. assert (ino_last_ (nodes_ s) +64 1 = ino_last_ (nodes_ s) + 1) as Ei by (apply u64_small; lia).
    rewrite M_bind_eq, (M_bind_some _ _ _ _ _ Ev). unfold make_file, set_entry.
    destruct (open_new_live d f now (get_hint_by_dir d v) s _ (ino_last_ (nodes_ s) + 1) Hw ltac:(by split) ltac:(by rewrite Ed) Hd Hf Hnow eq_refl ltac:(lia) eq_refl) as (h & s' & E & Hdid).
    exists 0, (Some h), s'. split; [|by split]. rewrite <- E. rewrite !M_bind_eq. unfold gets. rewrite Ei. reflexivity.
Qed.

(** ** Calls *)

Definition run_cmd (c : cmd) : M Z :=
  match c with
  | Mkdir d => mkdir d
  | Rmdir d => rmdir d
  | Open d f overwrite now => '(r, _) ← open_for_write d f overwrite now; mret r
  | Unlink d f => unlink d f
  | Rename d1 f1 d2 f2 => rename d1 f1 d2 f2
  end.

Lemma cmd_live c s : nodes_wf (nodes_ s) -> view_ok (view_of (nodes_ s)) -> is_Some (vselector_ s) -> ino_last_ (nodes_ s) < 2 ^ 62 -> cmd_ok c ->
  exists r s', run_cmd c s = Some (r, s') /\ outcome (plan c (view_of (nodes_ s))) r s s'.
Proof.
  intros Hw Hv Hs Hl Hc. destruct c as [d|d|d f ow now|d f|d1 f1 d2 f2]; cbn [cmd_ok run_cmd] in *.
  - by apply mkdir_live.
  - by apply rmdir_live.
  - destruct Hc as (? & ? & ?). destruct (open_for_write_live d f ow now s) as (r & h & s' & E & Ho); try done. exists r, s'. by rewrite (M_bind_some _ _ _ _ _ E).
  - destruct Hc. by apply unlink_live.
  - destruct Hc as (? & ? & ? & ?). by apply rename_live.
Qed.

Fixpoint run_all (l : list cmd) : M (list Z) :=
  match l with [] => mret [] | c :: t => r ← run_cmd c; rs ← run_all t; mret (r :: rs) end.

(** The groups that a sequence of calls logs. *)
Fixpoint planned (l : list cmd) (v : view) : list group :=
  match l with [] => [] | c :: t => (match plan c v with inl _ => [] | inr g => [g] end) ++ planned t (spec_cmd c v).2 end.

Lemma outcome_view p r s s' : nodes_wf (nodes_ s) -> view_ok (view_of (nodes_ s)) -> outcome p r s s' ->
  (r, view_of (nodes_ s')) = (match p with inl e => (e, view_of (nodes_ s)) | inr g => (0, change g (view_of (nodes_ s))) end) /\ nodes_wf (nodes_ s') /\ view_ok (view_of (nodes_ s')) /\ vselector_ s' = vselector_ s.
Proof.
  intros Hw Hv. destruct p as [e|g]; [by intros [-> ->]|]. intros [-> (n & p & -> & Hl & Hwn & Hvn & _)]. cbn [nodes_ with_parts vselector_]. rewrite Hvn. split_and!; try done. by apply view_ok_change.
Qed.

Lemma run_all_live l : forall s, nodes_wf (nodes_ s) -> view_ok (view_of (nodes_ s)) -> is_Some (vselector_ s) -> v_last (view_of (nodes_ s)) + zlen l < 2 ^ 62 -> Forall cmd_ok l ->
  exists s', run_all l s = Some ((spec_all l (view_of (nodes_ s))).1, s') /\ view_of (nodes_ s') = (spec_all l (view_of (nodes_ s))).2 /\ nodes_wf (nodes_ s').
Proof.
  induction l as [|c l IH]; intros s Hw Hv Hs Hl Hc; [by exists s|]. apply Forall_cons in Hc as [Hc Hcs]. cbn [List.length] in Hl. destruct (cmd_live c s Hw Hv Hs) as (r & s1 & E & Ho); [simpl in Hl |- *; lia|done|].
  destruct (outcome_view _ _ _ _ Hw Hv Ho) as (Er & Hw1 & Hv1 & Es1). change ((r, view_of (nodes_ s1)) = spec_cmd c (view_of (nodes_ s))) in Er. pose proof (spec_last c (view_of (nodes_ s))) as Hlast. rewrite <- Er in Hlast. cbn [snd] in Hlast.
  destruct (IH s1 Hw1 Hv1) as (s2 & E2 & V2 & W2); [by rewrite Es1|lia|done|]. exists s2. cbn [run_all spec_all]. rewrite (M_bind_some _ _ _ _ _ E), (M_bind_some _ _ _ _ _ E2), <- Er.
  destruct (spec_all l (view_of (nodes_ s1))) as [rs v']. done.
Qed.
End Live.
End BlueFSLive.
