(* ===== verification/BlueFSLog.v ===== *)
(** * The log on the devices

    What is written to the log at its end is read back from its extents: the
    bytes of a file are those its extents put at every offset, a write of whole
    blocks changes the bytes it covers and no others, and a read returns them. *)
From stdpp Require Import base numbers list gmap.
From Stdlib Require Import ZArith Lia ZifyBool.
From S2P Require Import Prelude IntArith Allocator Device Denc DencSpec BluefsTypes BluefsTypesSpec VolumeSelector BlueFS BlueFSOps BlueFSNodes.
Import Denc DencSpec BluefsTypes BluefsTypesSpec VolumeSelector BlueFS BlueFSOps BlueFSNodes.

Module BlueFSLog.
Section Log.
Context {D A V : Type} `{!Device.BlockDevice D} `{!Device.DeviceSpec D} `{!Device.ReliableDevice D} `{!Allocator.Allocator A} `{!VolumeSelector V}.
Abbreviation M := (M (D := D) (A := A) (V := V)).
Abbreviation fs_t := (bluefs (D := D) (A := A) (V := V)).
Abbreviation devs_t := (gmap Z D).

Definition with_devs (m : devs_t) (s : fs_t) : fs_t :=
  mk_fs (cfg_ s) (mk_disk m (block_reserved_ (disk s)) (alloc_ (disk s)) (alloc_size_ (disk s)) (shared_alloc_ (disk s)) (shared_alloc_id_ (disk s))) (super_ s) (vselector_ s) (nodes_ s) (log_ s) (dirty_ s).
Abbreviation devs s := (bdev_ (disk s)).

Lemma with_devs_id s : with_devs (devs s) s = s.
Proof. by destruct s as [? [] ? ? ? ? ?]. Qed.

(** A byte of a device, and of a file. *)
Definition byte_at (m : devs_t) (p : Z * Z) : Z := match m !! p.1 with Some d => Device.image d p.2 | None => 0 end.
Definition file_byte (m : devs_t) (E : list bluefs_extent_t) (x : Z) : Z := match phys E x with Some p => byte_at m p | None => 0 end.

(** The same devices, with other bytes on them. *)
Definition same_devs (m m' : devs_t) : Prop :=
  forall id, match m !! id, m' !! id with
  | Some d, Some d' => Device.dev_size d' = Device.dev_size d /\ (Device.reliable d -> Device.reliable d')
  | None, None => True
  | _, _ => False
  end.

#[global] Instance same_devs_preorder : PreOrder same_devs.
Proof.
  split.
  - intros m id. by destruct (m !! id).
  - intros m1 m2 m3 Ha Hb id. specialize (Ha id). specialize (Hb id). destruct (m1 !! id), (m2 !! id), (m3 !! id); try done. destruct Ha as [E1 R1], Hb as [E2 R2]. split; [congruence|auto].
Qed.

(** An extent that a file of the log may have: whole blocks of a device that
    works, behind the superblock. *)
Definition usable (m : devs_t) (e : bluefs_extent_t) : Prop :=
  extent_ok e /\ offset e mod 4096 = 0 /\ length e mod 4096 = 0 /\ (bdev e = BDEV_DB -> 8192 <= offset e) /\
  exists d, m !! bdev e = Some d /\ Device.reliable d /\ offset e + length e <= Device.dev_size d.

Definition one_to_one (E : list bluefs_extent_t) : Prop := forall x y p, 0 <= x -> 0 <= y -> phys E x = Some p -> phys E y = Some p -> x = y.

Lemma usable_same m m' e : same_devs m m' -> usable m e -> usable m' e.
Proof.
  intros Hs (? & ? & ? & ? & d & Hd & Hr & Hb). split_and!; try done. specialize (Hs (bdev e)). rewrite Hd in Hs. destruct (m' !! bdev e) as [d'|]; [|done]. destruct Hs as [E Hr']. exists d'. rewrite E. auto.
Qed.

Lemma usables_same m m' E : same_devs m m' -> Forall (usable m) E -> Forall (usable m') E.
Proof. intros Hs HE. eapply Forall_impl; [exact HE|]. intros e. by apply usable_same. Qed.

Lemma usables_ok m E : Forall (usable m) E -> Forall extent_ok E.
Proof. intros HE. eapply Forall_impl; [exact HE|]. by intros e [? _]. Qed.

Lemma phys_tail e t x : 0 < length e -> 0 <= x -> phys (e :: t) (length e + x) = phys t x.
Proof. intros ? ?. simpl. destruct (Z.ltb_spec (length e + x) (length e)); [lia|]. f_equal. lia. Qed.

Lemma one_to_one_tail e t : 0 < length e -> one_to_one (e :: t) -> one_to_one t.
Proof.
  intros He Hinj x y p Hx Hy Ex Ey. rewrite <- (phys_tail e) in Ex, Ey by done. pose proof (Hinj (length e + x) (length e + y) p ltac:(lia) ltac:(lia) Ex Ey). lia.
Qed.

Lemma mod_le_mul a b : 0 <= a -> a mod 4096 = 0 -> b mod 4096 = 0 -> a < b -> a + 4096 <= b.
Proof. intros. pose proof (Z.div_mod a 4096). pose proof (Z.div_mod b 4096). nia. Qed.

(** A write of whole blocks to one extent. *)
Lemma write_extent_run (m : devs_t) e d off bl :
  m !! bdev e = Some d -> Device.reliable d -> 0 <= off -> off mod 4096 = 0 -> zlen bl mod 4096 = 0 -> off + zlen bl <= Device.dev_size d ->
  let '(r, d') := Device.dev_write off bl false d in
  0 <= r /\ same_devs m (<[bdev e := d']> m) /\
  (forall x, 0 <= x < zlen bl -> byte_at (<[bdev e := d']> m) (bdev e, off + x) = nth (Z.to_nat x) bl 0) /\
  (forall p, ~ (p.1 = bdev e /\ off <= p.2 < off + zlen bl) -> byte_at (<[bdev e := d']> m) p = byte_at m p).
Proof.
  intros Hd Hr Ho Ha Hb Hl. pose proof (Device.write_direct_succeeds d off bl Hr Ho Hl Ha Hb) as Hok. pose proof (Device.write_size d off bl false) as Hs. pose proof (Device.write_reliable d off bl false Hr) as Hr'.
  pose proof (fun x => Device.write_spec d off bl false x Ho Hl Hok) as Hi. destruct (Device.dev_write off bl false d) as [r d']. simpl in *. split; [done|]. split; [|split].
  - intros id. destruct (decide (id = bdev e)) as [->|]; [by rewrite lookup_insert_eq, Hd|rewrite lookup_insert_ne by done; by destruct (m !! id)].
  - intros x Hx. unfold byte_at. simpl. rewrite lookup_insert_eq, Hi. unfold Device.image_write. rewrite (proj2 (Z.leb_le _ _)), (proj2 (Z.ltb_lt _ _)) by lia. simpl. f_equal. lia.
  - intros [id o] Hp. unfold byte_at. simpl in *. destruct (decide (id = bdev e)) as [->|]; [rewrite lookup_insert_eq, Hd, Hi|by rewrite lookup_insert_ne]. unfold Device.image_write.
    destruct (Z.leb_spec off o), (Z.ltb_spec o (off + zlen bl)); simpl; try done. exfalso. apply Hp. lia.
Qed.

(** [write_extents] from [x_off] in the first extent on. *)
Lemma write_extents_run l : forall x_off bl dirty (s : fs_t),
  Forall (usable (devs s)) l -> one_to_one l -> 0 <= x_off -> x_off mod 4096 = 0 -> zlen bl mod 4096 = 0 ->
  (forall e, head l = Some e -> x_off < length e) -> x_off + zlen bl <= total l ->
  exists m dirty', write_extents l x_off bl false dirty s = Some ((0, [], dirty'), with_devs m s) /\ same_devs (devs s) m /\
    (forall x, 0 <= x < zlen bl -> file_byte m l (x_off + x) = nth (Z.to_nat x) bl 0) /\
    (forall p, (forall x, 0 <= x < zlen bl -> phys l (x_off + x) <> Some p) -> byte_at m p = byte_at (devs s) p).
Proof.
  induction l as [|e t IH]; intros x_off bl dirty s Hu Hinj Hx Hxm Hbm Hhd Ht.
  { change (total []) with 0 in Ht. assert (bl = []) as -> by (destruct bl; [done|simpl in Ht; lia]). exists (devs s), dirty. rewrite with_devs_id. split_and!; [done|done|simpl; lia|done]. }
  apply Forall_cons in Hu as [(He & Hom & Hlm & _ & d & Hd & Hr & Hdl) Hu]. pose proof He as (Hlen & Hoff & Hend & _). specialize (Hhd e eq_refl). rewrite ext_total_cons in Ht. pose proof (total_nonneg _ (usables_ok _ _ Hu)) as Htt.
  cbn [write_extents]. destruct (Nat.eqb_spec (List.length bl) 0) as [E0|E0].
  { destruct bl; [|done]. exists (devs s), dirty. rewrite with_devs_id. split_and!; [done|done|simpl; lia|done]. }
  rewrite (u64_small (length e - x_off)), (u64_small (offset e + x_off)) by lia. set (x_len := Z.min (length e - x_off) (zlen bl)).
  assert (0 < x_len <= zlen bl /\ x_len <= length e - x_off /\ x_len mod 4096 = 0) as (Hxl & Hxe & Hxlm) by (unfold x_len; split_and!; try lia; destruct (Z.min_spec (length e - x_off) (zlen bl)) as [[_ ->]|[_ ->]]; [rewrite Zminus_mod, Hlm, Hxm; done|done]).
  set (b1 := take (Z.to_nat x_len) bl). set (b2 := drop (Z.to_nat x_len) bl). assert (zlen b1 = x_len) as Hb1 by (unfold b1; rewrite length_take; lia). assert (zlen b2 = zlen bl - x_len) as Hb2 by (unfold b2; rewrite length_drop; lia).
  pose proof (write_extent_run (devs s) e d (offset e + x_off) b1 Hd Hr ltac:(lia) ltac:(rewrite Zplus_mod, Hom, Hxm; done) ltac:(by rewrite Hb1) ltac:(lia)) as Hw.
  rewrite !M_bind_eq. unfold gets. rewrite Hd. cbn [lift]. destruct (Device.dev_write (offset e + x_off) b1 false d) as [r d'] eqn:Ew. destruct Hw as (Hr0 & Hs & Hin & Hout). rewrite Hb1 in Hin, Hout.
  rewrite M_bind_eq. unfold set_device, in_disk, modify. cbv beta iota. rewrite (proj2 (Z.ltb_ge r 0)) by lia. set (m1 := <[bdev e := d']> (devs s)) in *.
  destruct (IH 0 b2 ({[bdev e]} ∪ dirty) (with_devs m1 s)) as (m & dirty' & E & Hs2 & Hin2 & Hout2).
  - by apply (usables_same (devs s)).
  - by apply (one_to_one_tail e); [lia|].
  - lia.
  - done.
  - by rewrite Hb2, Zminus_mod, Hbm, Hxlm.
  - intros e' He'. destruct t as [|e1 t]; [done|]. injection He' as ->. apply Forall_cons in Hu as [((? & _) & _) _]. lia.
  - lia.
  - exists m, dirty'. split; [exact E|]. split; [by transitivity m1|]. change (devs (with_devs m1 s)) with m1 in *. simpl in Hin2, Hout2. rewrite Hb2 in Hin2, Hout2. split.
    + intros x Hx'. destruct (Z.lt_ge_cases x x_len) as [Hlt|Hge].
      * unfold file_byte. cbn [phys]. rewrite (proj2 (Z.ltb_lt (x_off + x) (length e))) by lia. rewrite Hout2.
        -- rewrite Z.add_assoc, Hin by lia. unfold b1. rewrite !nth_lookup, lookup_take_lt by lia. done.
        -- intros y Hy Ey. rewrite <- (phys_tail e) in Ey by lia. assert (x_off + x = length e + y); [|lia]. apply (Hinj _ _ (bdev e, offset e + (x_off + x))); [lia|lia| |done]. cbn [phys]. by rewrite (proj2 (Z.ltb_lt (x_off + x) (length e))) by lia.
      * assert (x_len = length e - x_off) as El by (unfold x_len in *; lia). replace (x_off + x) with (length e + (x - x_len)) by lia. unfold file_byte. rewrite phys_tail by lia. specialize (Hin2 (x - x_len) ltac:(lia)). unfold file_byte in Hin2. rewrite Z.add_0_l in Hin2. rewrite Hin2.
        unfold b2. rewrite !nth_lookup, lookup_drop. do 2 f_equal. lia.
    + intros p Hp. rewrite Hout2.
      * apply Hout. intros [E1 E2]. apply (Hp (p.2 - offset e - x_off)); [lia|]. cbn [phys]. rewrite (proj2 (Z.ltb_lt _ (length e))) by lia. destruct p; simpl in *. subst. do 2 f_equal. lia.
      * intros x Hx' Ex. assert (x_len = length e - x_off) as El by (unfold x_len in *; lia). apply (Hp (x_len + x)); [lia|]. replace (x_off + (x_len + x)) with (length e + x) by lia. by rewrite phys_tail by lia.
Qed.

(** ** Offsets in a file *)

Lemma starts_nth l : forall a idx, (idx < List.length l)%nat -> nth idx (starts a l) 0 = a + total (take idx l).
Proof.
  induction l as [|e l IH]; intros a idx Hi; simpl in Hi; [lia|]. destruct idx as [|idx]; cbn [starts nth take]; [change (total []) with 0; lia|]. rewrite IH, ext_total_cons by lia. lia.
Qed.

Lemma seek_split f off : fnode_wf f -> 0 <= off < allocated f ->
  exists idx e, seek off f = Some (idx, off - total (take idx (extents f))) /\ extents f !! idx = Some e /\ 0 <= off - total (take idx (extents f)) < length e.
Proof.
  intros [HE Hx Ha Hs] Ho. rewrite Ha in Ho. destruct (upper_bound_starts (extents f) 0 off HE ltac:(lia)) as (idx & e & Eu & Hlk & Hr & _ & Hlow). exists idx, e. pose proof (Forall_lookup_1 _ _ _ _ HE Hlk) as (? & _).
  assert (idx < List.length (extents f))%nat as Hidx by (by apply lookup_lt_Some in Hlk). rewrite starts_nth in Hr by done. simpl in Hr. split_and!; [|done|lia|lia]. unfold seek. destruct (extents f) as [|e0 E0] eqn:EE; [done|]. rewrite <- EE in *.
  rewrite Hx, Eu, Ha. rewrite (proj2 (Z.leb_gt (total (extents f)) off)) by lia. rewrite starts_nth, u64_small by (done || lia). done.
Qed.

Lemma total_take_le l idx : Forall extent_ok l -> total (take idx l) <= total l.
Proof. intros Hl. rewrite <- (take_drop idx l) at 2. rewrite ext_total_app. pose proof (total_nonneg (drop idx l) (Forall_drop _ _ _ Hl)). lia. Qed.

Lemma phys_drop l : forall idx y, Forall extent_ok l -> 0 <= y -> phys l (total (take idx l) + y) = phys (drop idx l) y.
Proof.
  induction l as [|e l IH]; intros idx y Hl Hy; [by rewrite take_nil, drop_nil|]. destruct idx as [|idx]; [done|]. apply Forall_cons in Hl as [(He & _) Hl]. cbn [take drop]. rewrite ext_total_cons.
  pose proof (total_nonneg (take idx l) (Forall_take _ _ _ Hl)). rewrite <- Z.add_assoc, phys_tail by lia. by apply IH.
Qed.

Lemma one_to_one_drop l : forall idx, Forall extent_ok l -> one_to_one l -> one_to_one (drop idx l).
Proof.
  induction l as [|e l IH]; intros idx Hl Hi; [by rewrite drop_nil|]. destruct idx as [|idx]; [done|]. apply Forall_cons in Hl as [(He & _) Hl]. apply IH; [done|]. by apply (one_to_one_tail e); [lia|].
Qed.

Lemma total_blocks (m : devs_t) l : Forall (usable m) l -> total l mod 4096 = 0.
Proof. induction 1 as [|e l (_ & _ & He & _) Hl IH]; [done|]. rewrite ext_total_cons, Zplus_mod, He, IH. done. Qed.

(** ** The file of the log *)

(** [f] is a file of whole usable blocks. *)
Record log_file (m : devs_t) (f : bluefs_fnode_t) : Prop := {
  lf_wf : fnode_wf f;
  lf_usable : Forall (usable m) (extents f);
  lf_inj : one_to_one (extents f);
}.

Lemma log_file_same m m' f : same_devs m m' -> log_file m f -> log_file m' f.
Proof. intros Hs [? ? ?]. constructor; [done| |done]. by apply (usables_same m). Qed.

Lemma log_file_extents m f g : fnode_wf g -> extents g = extents f -> log_file m f -> log_file m g.
Proof. intros Hg E [? ? ?]. constructor; [done| |]; by rewrite E. Qed.

Lemma set_size_wf n f : fnode_wf f -> fnode_wf (set_size n f).
Proof. by intros []. Qed.

(** The bytes of the log are those of [L] up to its end. *)
Definition holds (m : devs_t) (E : list bluefs_extent_t) (L : bytes) : Prop := forall x, 0 <= x < zlen L -> file_byte m E x = nth (Z.to_nat x) L 0.

(** The state after [bl] was appended to the log. *)
Definition appended (m : devs_t) (dirty : gset Z) (h : FileWriter) (f : File) (bl : bytes) (s : fs_t) : fs_t :=
  let s := with_devs m s in
  mk_fs (cfg_ s) (disk s) (super_ s) (vselector_ s) (set_heap (<[w_file h := with_node (set_size (w_pos h + zlen bl) (f_node f)) f]> (heap (nodes_ s))) (nodes_ s))
    (set_writer (Some (with_pos (w_pos h + zlen bl) (with_dirty dirty h))) (log_ s)) (dirty_ s).

Lemma flush_log_run (s : fs_t) h f L bl :
  writer (log_ s) = Some h -> heap (nodes_ s) !! w_file h = Some f -> log_file (devs s) (f_node f) -> w_pos h = zlen L -> size (f_node f) = zlen L -> holds (devs s) (extents (f_node f)) L ->
  zlen L mod 4096 = 0 -> zlen bl mod 4096 = 0 -> 0 < zlen bl -> zlen L + zlen bl <= allocated (f_node f) ->
  exists m dirty, _flush_log_data bl s = Some (0, appended m dirty h f bl s) /\ same_devs (devs s) m /\ holds m (extents (f_node f)) (L ++ bl) /\
    (forall p, (forall x, 0 <= x -> phys (extents (f_node f)) x <> Some p) -> byte_at m p = byte_at (devs s) p).
Proof.
  intros Hwr Hf [Hw Hu Hi] Hp Hsz HL HLm Hbm Hb0 Hroom. set (E := extents (f_node f)) in *. pose proof (f_extents _ Hw) as HE. pose proof (f_small _ Hw) as Hsm. pose proof (f_allocated _ Hw) as Ha. fold E in HE, Ha, Hsm.
  destruct (seek_split (f_node f) (zlen L) Hw ltac:(lia)) as (idx & e & Es & Hlk & Hr). fold E in Es, Hlk, Hr. set (T := total (take idx E)) in *.
  assert (0 <= T) as HT by (apply total_nonneg; by apply Forall_take). assert (T mod 4096 = 0) as HTm by (apply (total_blocks (devs s)); by apply Forall_take).
  unfold _flush_log_data, log_writer. rewrite M_bind_eq, M_bind_eq. unfold gets. rewrite Hwr. cbn [lift]. rewrite (M_bind_some _ _ _ _ _ (get_file_run _ _ _ Hf)), Hp, Es.
  destruct (write_extents_run (drop idx E) (zlen L - T) bl (w_dirty h) s) as (m & dirty & Ew & Hs & Hin & Hout).
  - by apply Forall_drop.
  - by apply one_to_one_drop.
  - lia.
  - by rewrite Zminus_mod, HLm, HTm.
  - done.
  - intros e'. rewrite (drop_S _ _ _ Hlk). intros [= <-]. lia.
  - rewrite <- (take_drop idx E) in Ha. rewrite ext_total_app in Ha. fold T in Ha. lia.
  - rewrite (M_bind_some _ _ _ _ _ Ew). change (0 <? 0) with false. cbv beta iota. change (zlen (@nil Z)) with 0. rewrite Z.sub_0_r, u64_small by lia.
    exists m, dirty. split; [|split; [done|split]].
    + rewrite !M_bind_eq. unfold in_log, modify. rewrite M_bind_eq, put_file_run. cbn [Nat.eqb]. rewrite (proj2 (Z.ltb_lt _ _)) by (rewrite Hsz; lia). unfold appended, with_nodes. rewrite Hp. done.
    + intros x Hx. rewrite length_app in Hx. destruct (Z.lt_ge_cases x (zlen L)) as [Hlt|Hge].
      * rewrite app_nth1 by lia. rewrite <- (HL x) by lia. unfold file_byte. destruct (phys E x) as [p|] eqn:Ep; [|done]. apply Hout. intros y Hy Ey. rewrite <- phys_drop in Ey by (done || lia). fold T in Ey.
        assert (x = T + (zlen L - T + y)); [|lia]. apply (Hi _ _ p); (done || lia).
      * rewrite app_nth2 by lia. replace (Z.to_nat x - List.length L)%nat with (Z.to_nat (x - zlen L)) by lia. rewrite <- (Hin (x - zlen L)) by lia. unfold file_byte. rewrite <- phys_drop by (done || lia). fold T.
        replace (T + (zlen L - T + (x - zlen L))) with x by lia. done.
    + intros p Hnp. apply Hout. intros x Hx Ex. rewrite <- phys_drop in Ex by (done || lia). refine (Hnp _ _ Ex). fold T. lia.
Qed.

(** The same bytes on the same devices. *)
Definition same_bytes (m m' : devs_t) : Prop := same_devs m m' /\ forall p, byte_at m' p = byte_at m p.

#[global] Instance same_bytes_preorder : PreOrder same_bytes.
Proof. split; [intros m; by split|]. intros m1 m2 m3 [S1 B1] [S2 B2]. split; [by transitivity m2|]. intros p. by rewrite B2, B1. Qed.

Lemma flush_same (m : devs_t) id d : m !! id = Some d -> same_bytes m (<[id := (Device.dev_flush d).2]> m).
Proof.
  intros Hd. split.
  - intros i. destruct (decide (i = id)) as [->|]; [rewrite lookup_insert_eq, Hd; split; [apply Device.flush_size|apply Device.flush_reliable]|rewrite lookup_insert_ne by done; by destruct (m !! i)].
  - intros [i o]. unfold byte_at. simpl. destruct (decide (i = id)) as [->|]; [rewrite lookup_insert_eq, Hd; apply Device.flush_spec|by rewrite lookup_insert_ne].
Qed.

(** Flushing some of the devices. *)
Lemma flush_each_run (g : Z -> M unit) l : (forall id s, exists m, g id s = Some (tt, with_devs m s) /\ same_bytes (devs s) m) ->
  forall s, exists m, each g l s = Some (tt, with_devs m s) /\ same_bytes (devs s) m.
Proof.
  intros Hg. induction l as [|id l IH]; intros s; [exists (devs s); by rewrite with_devs_id|]. destruct (Hg id s) as (m & E & Hm). destruct (IH (with_devs m s)) as (m' & E' & Hm'). exists m'.
  cbn [each]. rewrite (M_bind_some _ _ _ _ _ E), E'. split; [done|]. by transitivity m.
Qed.

Lemma flush_device_run id (s : fs_t) : exists m, flush_device id s = Some (tt, with_devs m s) /\ same_bytes (devs s) m.
Proof.
  unfold flush_device. rewrite M_bind_eq. unfold gets. destruct (devs s !! id) as [d|] eqn:Hd.
  - exists (<[id := (Device.dev_flush d).2]> (devs s)). split; [done|]. by apply flush_same.
  - exists (devs s). split; [by rewrite with_devs_id|done].
Qed.

Lemma flush_bdev_run h (s : fs_t) : exists m, _flush_bdev h s = Some (with_dirty ∅ h, with_devs m s) /\ same_bytes (devs s) m.
Proof.
  unfold _flush_bdev. edestruct (flush_each_run (fun id => if bool_decide (id ∈ w_dirty h) then flush_device id else mret tt) ids) as (m & E & Hm).
  { intros id s1. destruct (bool_decide _); [apply flush_device_run|exists (devs s1); by rewrite with_devs_id]. }
  exists m. split; [|exact Hm]. unfold flush_device in E. by rewrite (M_bind_some _ _ _ _ _ E).
Qed.

Lemma holds_same m m' E L : same_bytes m m' -> holds m E L -> holds m' E L.
Proof. intros [_ Hb] HL x Hx. rewrite <- HL by done. unfold file_byte. destruct (phys E x); [apply Hb|done]. Qed.

(** ** Reading the log *)

Lemma read_log_run (s : fs_t) r f L pos :
  heap (nodes_ s) !! r = Some f -> log_file (devs s) (f_node f) -> holds (devs s) (extents (f_node f)) L -> zlen L <= allocated (f_node f) ->
  0 <= pos -> pos mod 4096 = 0 -> pos + 4096 <= zlen L ->
  exists e, read_log r pos 4096 s = Some (Some (e, take 4096 (drop (Z.to_nat pos) L)), s) /\ 0 <= e.
Proof.
  intros Hf [Hw Hu Hi] HL Ha Hp Hpm Hpl. set (E := extents (f_node f)) in *. pose proof (f_extents _ Hw) as HE. fold E in HE.
  destruct (seek_split (f_node f) pos Hw ltac:(lia)) as (idx & e & Es & Hlk & Hr). fold E in Es, Hlk, Hr. set (T := total (take idx E)) in *.
  assert (T mod 4096 = 0) as HTm by (apply (total_blocks (devs s)); by apply Forall_take). pose proof (Forall_lookup_1 _ _ _ _ Hu Hlk) as ((? & ? & ? & _) & Hom & Hlm & _ & d & Hd & Hrel & Hdl).
  assert (4096 <= length e - (pos - T)) as Hl. { pose proof (mod_le_mul (pos - T) (length e) ltac:(lia) ltac:(by rewrite Zminus_mod, Hpm, HTm) Hlm ltac:(lia)). lia. }
  unfold read_log. rewrite (M_bind_some _ _ _ _ _ (get_file_run _ _ _ Hf)), Es. fold E. rewrite Hlk, !M_bind_eq. cbn [lift]. rewrite !M_bind_eq. unfold gets. rewrite Hd. cbn [lift].
  rewrite (u64_small (length e - (pos - T))), (u64_small (offset e + (pos - T))), Z.min_r by lia.
  assert ((offset e + (pos - T)) mod 4096 = 0) as Hoa by (rewrite Zplus_mod, Hom, Zminus_mod, Hpm, HTm; done).
  pose proof (Device.read_direct_succeeds d (offset e + (pos - T)) 4096 Hrel ltac:(lia) ltac:(lia) ltac:(lia) Hoa eq_refl) as Hok.
  assert (offset e + (pos - T) + 4096 <= Device.dev_size d) as Hin by lia. pose proof (Device.read_spec d (offset e + (pos - T)) 4096 false ltac:(lia) ltac:(lia) Hin Hok) as Hrd. destruct (Device.dev_read _ _ _ d) as [c b]. simpl in Hok, Hrd. exists c. split; [|done]. unfold mret, M_ret. do 4 f_equal. rewrite Hrd.
  change (Z.to_nat 4096) with 4096%nat. apply list_eq_same_length with (n := 4096%nat); [rewrite length_take, length_drop; lia|apply Device.length_image_range|].
  intros i x y Hi4. rewrite Device.lookup_image_range, lookup_take_lt, lookup_drop by done. intros [= <-] Hy. apply nth_lookup_Some with (d := 0) in Hy. rewrite <- Hy.
  specialize (HL (pos + Z.of_nat i) ltac:(lia)). replace (Z.to_nat (pos + Z.of_nat i)) with (Z.to_nat pos + i)%nat in HL by lia. rewrite <- HL. unfold file_byte.
  replace (pos + Z.of_nat i) with (T + (pos - T + Z.of_nat i)) by lia. assert (phys E (T + (pos - T + Z.of_nat i)) = phys (drop idx E) (pos - T + Z.of_nat i)) as -> by (apply phys_drop; [done|lia]). rewrite (drop_S _ _ _ Hlk). cbn [phys]. rewrite (proj2 (Z.ltb_lt _ (length e))) by lia. unfold byte_at. simpl. rewrite Hd. f_equal. lia.
Qed.
End Log.
End BlueFSLog.
