(* ===== verification/BlueFSReplay.v ===== *)
(** * Replaying the log

    The log is a sequence of transactions, each padded to whole blocks.  Read
    back from the devices they are applied in order, and the directories are
    those that the operations of all of them make of an empty file system. *)
From stdpp Require Import base numbers list gmap.
From Stdlib Require Import ZArith Lia ZifyBool.
From S2P Require Import Prelude IntArith Allocator Device Denc DencSpec BluefsTypes BluefsTypesSpec VolumeSelector BlueFS BlueFSOps BlueFSNodes BlueFSLog.
Import Denc DencSpec BluefsTypes BluefsTypesSpec VolumeSelector BlueFS BlueFSOps BlueFSNodes BlueFSLog.

Module BlueFSReplay.

(** ** Encodings are bytes *)

Definition emits {T} (d : denc_traits T) (valid : T -> Prop) : Prop := forall x, valid x -> is_bytes (encode d x).

Create HintDb emits.

Lemma bytes_app a b : is_bytes a -> is_bytes b -> is_bytes (a ++ b).
Proof. intros. by apply Forall_app. Qed.
#[export] Hint Resolve bytes_app : emits.

Lemma le_bytes_emits n x : is_bytes (le_bytes n x).
Proof. apply le_bytes_range. Qed.
Lemma u8_emits x : is_bytes (encode denc_u8 x).
Proof. apply le_bytes_range. Qed.
Lemma u32_emits x : is_bytes (encode denc_u32 x).
Proof. apply le_bytes_range. Qed.
Lemma u64_emits x : is_bytes (encode denc_u64 x).
Proof. apply le_bytes_range. Qed.
#[export] Hint Resolve le_bytes_emits u8_emits u32_emits u64_emits : emits.

Lemma varint_bytes_emits fuel : forall b v, 0 <= b < 128 -> is_bytes (varint_bytes fuel b v).
Proof.
  induction fuel as [|fuel IH]; intros b v Hb; cbn [varint_bytes]; [repeat constructor; lia|]. destruct (v =? 0); [repeat constructor; lia|]. constructor.
  - assert (Z.lor b 0x80 = b + 1 * 2 ^ 7) as -> by (apply (lor_disjoint b 1 7); lia). lia.
  - apply IH. rewrite land_127. apply Z.mod_pos_bound. lia.
Qed.
Lemma varint_emits x : is_bytes (varint_encode x).
Proof. apply varint_bytes_emits. rewrite land_127. apply Z.mod_pos_bound. lia. Qed.
Lemma lba_emits x : is_bytes (lba_encode x).
Proof.
  unfold lba_encode. cbv zeta. destruct (if _ <? 0 then _ else _) as [[v pos] word]. destruct (_ =? 0); [apply le_bytes_range|]. apply bytes_app; [apply le_bytes_range|]. apply varint_bytes_emits. rewrite land_127. apply Z.mod_pos_bound. lia.
Qed.
#[export] Hint Resolve varint_emits lba_emits : emits.

Lemma string_emits s : is_bytes s -> is_bytes (encode denc_string s).
Proof. intros. cbn [encode denc_string]. auto with emits. Qed.
Lemma mtime_emits t : is_bytes (encode denc_mtime t).
Proof. cbn [encode denc_mtime]. auto with emits. Qed.
Lemma extent_emits e : is_bytes (encode denc_extent e).
Proof. cbn [encode denc_extent denc_lba denc_varint_lowz]. cbv zeta. auto with emits. Qed.
Lemma extents_emits l : is_bytes (encode (denc_vector denc_extent) l).
Proof.
  cbn [encode denc_vector]. apply bytes_app; [auto with emits|]. induction l as [|e l IH]; [by apply Forall_nil|]. cbn [fmap list_fmap concat]. apply bytes_app; [apply extent_emits|exact IH].
Qed.
#[export] Hint Resolve string_emits mtime_emits extents_emits : emits.
Lemma fnode_emits f : is_bytes (encode denc_fnode f).
Proof. cbn [encode denc_fnode denc_varint]. auto 10 with emits. Qed.
#[export] Hint Resolve fnode_emits : emits.
Lemma struct_emits {T} v c (d : denc_traits T) x : is_bytes (encode d x) -> is_bytes (encode (denc_struct v c d) x).
Proof. intros. cbn [encode denc_struct]. cbv zeta. auto with emits. Qed.
Lemma uuid_emits u : is_bytes (encode denc_uuid u).
Proof. apply struct_emits. cbn [encode]. induction u as [|b u IH]; [by apply Forall_nil|]. cbn [fmap list_fmap concat]. apply bytes_app; [auto with emits|exact IH]. Qed.
#[export] Hint Resolve uuid_emits : emits.
Lemma super_emits u : is_bytes (encode denc_super u).
Proof. apply struct_emits. cbn [encode]. auto 10 with emits. Qed.

Lemma enc_emits o : lop_ok o -> is_bytes (enc o).
Proof. destruct o; unfold name_ok; cbn [enc lop_ok]; unfold name_ok; intros; destruct_and?; auto 10 with emits. Qed.

Lemma enc_all_emits l : Forall lop_ok l -> is_bytes (enc_all l).
Proof. induction 1 as [|o l Ho Hl IH]; [by apply Forall_nil|]. unfold enc_all. cbn [fmap list_fmap concat]. apply bytes_app; [by apply enc_emits|exact IH]. Qed.

(** Legal groups log operations that can be read back. *)
Lemma legal_lops g v : view_ok v -> legal g v -> Forall lop_ok (group_ops g).
Proof.
  intros [_ Hv] Hg. assert (forall i, 1 < i < 2 ^ 63 -> uint 64 i) as Hu by (unfold uint; lia).
  destruct g as [|d|d|d f x|d f x|d f i|d1 f1 d2 f2 i over]; cbn [legal group_ops] in *; rewrite ?Forall_app, ?Forall_cons, ?Forall_nil; cbn [lop_ok].
  - done.
  - tauto.
  - tauto.
  - destruct Hg as (? & ? & Hx & _). pose proof Hx as (? & _). assert (uint 64 (ino x)) by (unfold uint; lia). tauto.
  - tauto.
  - destruct Hg as (? & ? & y & Hy & <-). apply Hv, Hu in Hy. tauto.
  - destruct Hg as (? & ? & ? & ? & _ & (y & Hy & <-) & _). apply Hv, Hu in Hy. split; [|tauto]. destruct over; rewrite ?Forall_cons, ?Forall_nil; cbn [lop_ok]; tauto.
Qed.

Lemma legal_all_lops l : forall v, view_ok v -> legal_all l v -> Forall lop_ok (ops_of l).
Proof.
  induction l as [|g l IH]; intros v Hv Hl; [by apply Forall_nil|]. destruct Hl as [Hg Hl]. change (ops_of (g :: l)) with (group_ops g ++ ops_of l). apply Forall_app. split; [by apply (legal_lops g v)|].
  apply (IH (change g v)); [by apply view_ok_change|done].
Qed.

Lemma changes_app l1 : forall l2 v, changes (l1 ++ l2) v = changes l2 (changes l1 v).
Proof. induction l1; intros; simpl; auto. Qed.
Lemma legal_all_app l1 : forall l2 v, legal_all (l1 ++ l2) v <-> legal_all l1 v /\ legal_all l2 (changes l1 v).
Proof. induction l1 as [|g l1 IH]; intros; simpl; [tauto|]. rewrite IH. tauto. Qed.
Lemma view_ok_changes l : forall v, view_ok v -> legal_all l v -> view_ok (changes l v).
Proof. induction l as [|g l IH]; intros v Hv Hl; [done|]. destruct Hl. simpl. apply IH; [by apply view_ok_change|done]. Qed.

(** ** Transactions on the log *)

Lemma roundup_block w x : 12 <= w -> 0 <= x -> x + 4095 < 2 ^ w -> IntArith.p2roundup w x 4096 = 4096 * ((x + 4095) / 4096).
Proof. intros Hw Hx Ho. change 4096 with (2 ^ 12) at 1. rewrite IntArith.p2roundup_spec by lia. change (2 ^ 12) with 4096. f_equal. f_equal. lia. Qed.

(** The length of a transaction without its header. *)
Definition body_len (t : bluefs_transaction_t) : Z := zlen (encode denc_transaction t) - 6.

Lemma transaction_header t : txn_valid t -> exists body, encode denc_transaction t = encode denc_u8 1 ++ encode denc_u8 1 ++ encode denc_u32 (body_len t) ++ body /\ 0 <= body_len t < 2 ^ 31 + 100.
Proof.
  intros (Hu & _ & _ & Hl). unfold body_len, denc_transaction, denc_struct. cbn [encode]. cbv zeta. set (body := encode denc_uuid (uuid t) ++ _).
  assert (zlen body = 22 + 8 + 4 + zlen (op_bl t) + 4) as Hb. { unfold body. rewrite !length_app, !Nat2Z.inj_add, uuid_length by done. cbn [encode denc_string denc_u64 denc_u32 denc_le]. rewrite !length_app, !length_le_bytes. lia. }
  exists body. rewrite !length_app. cbn [encode denc_u8 denc_u32 denc_le]. rewrite !length_le_bytes. split; [|lia]. rewrite u32_small by lia. repeat f_equal. lia.
Qed.

Lemma padded_shape t : txn_valid t ->
  zlen (padded t 4096) = IntArith.p2roundup 64 (body_len t + 6) 4096 /\ zlen (padded t 4096) mod 4096 = 0 /\ 4096 <= zlen (padded t 4096) /\
  zlen (encode denc_transaction t) <= zlen (padded t 4096) < zlen (encode denc_transaction t) + 4096 /\ zlen (padded t 4096) < 2 ^ 32 /\
  exists rest, padded t 4096 = encode denc_transaction t ++ rest.
Proof.
  intros Ht. destruct (transaction_header t Ht) as (body & _ & Hlen). unfold body_len in *. unfold padded, padded_to. set (b := encode denc_transaction t) in *. rewrite Z.sub_add.
  rewrite !roundup_block by lia. pose proof (Z.div_mod (zlen b + 4095) 4096 ltac:(lia)). pose proof (Z.mod_pos_bound (zlen b + 4095) 4096 ltac:(lia)). set (n := (zlen b + 4095) / 4096) in *.
  rewrite length_app, length_replicate, Nat2Z.inj_add, Z2Nat.id by lia. replace (zlen b + (4096 * n - zlen b)) with (4096 * n) by lia. split_and!; try lia; [by rewrite Z.mul_comm, Z_mod_mult|by eexists].
Qed.

Section Replay.
Context {D A V : Type} `{!Device.BlockDevice D} `{!Device.DeviceSpec D} `{!Device.ReliableDevice D} `{!Allocator.Allocator A} `{!VolumeSelector V}.
Abbreviation M := (M (D := D) (A := A) (V := V)).
Abbreviation fs_t := (bluefs (D := D) (A := A) (V := V)).
Abbreviation devs s := (bdev_ (disk s)).

(** The log is readable: its file holds [L] and nothing behind it. *)
Record readable (r : fileref) (f : File) (L : bytes) (s : fs_t) : Prop := {
  rd_file : heap (nodes_ s) !! r = Some f;
  rd_log : log_file (devs s) (f_node f);
  rd_holds : holds (devs s) (extents (f_node f)) L;
  rd_size : size (f_node f) = zlen L;
  rd_room : zlen L <= allocated (f_node f);
  rd_block : block_size (super_ s) = 4096;
}.

Lemma readable_small r f L s : readable r f L s -> zlen L < 2 ^ 63.
Proof. intros [_ [Hw _ _] _ _ Hr _]. rewrite (f_allocated _ Hw) in Hr. pose proof (f_small _ Hw). lia. Qed.

(** A block of a transaction. *)
Lemma read_block r f L s L1 b L2 k :
  readable r f L s -> L = L1 ++ b ++ L2 -> zlen L1 mod 4096 = 0 -> 0 <= k -> k mod 4096 = 0 -> k + 4096 <= zlen b ->
  exists e, read_log r (zlen L1 + k) 4096 s = Some (Some (e, take 4096 (drop (Z.to_nat k) b)), s) /\ 0 <= e.
Proof.
  intros [Hf Hlf HL Hsz Hroom Hbs] -> Hm Hk Hkm Hkl. rewrite !length_app in Hroom. destruct (read_log_run s r f _ (zlen L1 + k) Hf Hlf HL) as (e & E & He); [rewrite !length_app; lia|lia|by rewrite Zplus_mod, Hm, Hkm|rewrite !length_app; lia|].
  exists e. split; [|done]. rewrite E. do 4 f_equal. replace (Z.to_nat (zlen L1 + k)) with (List.length L1 + Z.to_nat k)%nat by lia. rewrite drop_app_add', drop_app_le by lia. by rewrite take_app_le by (rewrite length_drop; lia).
Qed.

Lemma read_more_run r f L s L1 b L2 :
  readable r f L s -> L = L1 ++ b ++ L2 -> zlen L1 mod 4096 = 0 -> zlen b mod 4096 = 0 -> 4096 <= zlen b ->
  whileS (read_more r 4096 (zlen L1)) (take 4096 b, zlen b - 4096) s = Some (inr b, s).
Proof.
  intros Hrd EL Hm Hbm Hb. pose proof (readable_small _ _ _ _ Hrd) as Hsm. assert (zlen L = zlen L1 + zlen b + zlen L2) as HLl by (rewrite EL, !length_app; lia).
  destruct (whileS_spec (read_more r 4096 (zlen L1)) (fun x fs => fs = s /\ exists k, 0 <= k <= zlen b /\ k mod 4096 = 0 /\ x = (take (Z.to_nat k) b, zlen b - k)) (fun x => x.2)
    (fun y fs => y = inr b /\ fs = s) (take 4096 b, zlen b - 4096) s) as (y & fs & E & -> & ->); [|split; [done|]; exists 4096; split_and!; (done || lia)|simpl; lia|done].
  intros x fs (-> & k & Hk & Hkm & ->). unfold read_more. cbn [snd]. destruct (Z.leb_spec (zlen b - k) 0) as [Hle|Hgt].
  - exists (inr (inr (take (Z.to_nat k) b))), s. split; [done|]. by rewrite take_ge by lia.
  - pose proof (mod_le_mul k (zlen b) ltac:(lia) Hkm Hbm ltac:(lia)) as Hk4. rewrite (M_bind_some _ _ _ _ _ (get_file_run _ _ _ (rd_file _ _ _ _ Hrd))), (rd_size _ _ _ _ Hrd).
    assert (zlen (take (Z.to_nat k) b) = k) as Etk by (rewrite length_take; lia). rewrite Etk, (u64_small (zlen L1 + k)), (u64_small (zlen L - (zlen L1 + k))), Z.min_l by lia.
    destruct (read_block r f L s L1 b L2 k Hrd EL Hm ltac:(lia) Hkm Hk4) as (e & Er & He). rewrite (M_bind_some _ _ _ _ _ Er), (proj2 (Z.ltb_ge e 0)) by lia.
    eexists _, s. split; [done|]. change (IntArith.p2roundup 64 4096 4096) with 4096. rewrite u64_small by lia. cbn [snd]. split; [|lia]. split; [done|]. exists (k + 4096). split; [lia|]. split; [rewrite Zplus_mod, Hkm; done|]. f_equal; [|lia].
    replace (Z.to_nat (k + 4096)) with (Z.to_nat k + 4096)%nat by lia. by rewrite take_take_drop.
Qed.

(** One transaction is read and applied. *)
Lemma replay_step_run r f L s L1 t L2 q seen s' :
  readable r f L s -> L = L1 ++ padded t 4096 ++ L2 -> zlen L1 mod 4096 = 0 -> txn_valid t -> uuid t = s_uuid (super_ s) -> 0 <= q < 2 ^ 63 -> seq t = q + 1 ->
  whileS (replay_op r) (op_bl t, q) s = Some (ops_done q, s') ->
  replay_step r (q, zlen L1, seen) s = Some (inl (q + 1, zlen L1 + zlen (padded t 4096), true), s').
Proof.
  intros Hrd EL Hm Ht Hu Hq Hseq Hops. pose proof (readable_small _ _ _ _ Hrd) as Hsm. destruct (padded_shape t Ht) as (Hneed & Hbm & Hb4 & _ & _ & rest & Eb). destruct (transaction_header t Ht) as (body & Eh & Hbl).
  pose proof (read_more_run r f L s L1 _ L2 Hrd EL Hm Hbm Hb4) as Hmore. destruct (read_block r f L s L1 _ L2 0 Hrd EL Hm ltac:(lia) eq_refl ltac:(lia)) as (e & Er & He). rewrite Z.add_0_r in Er. change (drop (Z.to_nat 0) (padded t 4096)) with (padded t 4096) in Er.
  set (b := padded t 4096) in *. assert (zlen L = zlen L1 + zlen b + zlen L2) as HLl by (rewrite EL, !length_app; lia).
  unfold replay_step. rewrite (M_bind_some _ _ _ _ _ (get_file_run _ _ _ (rd_file _ _ _ _ Hrd))), (M_bind_some _ _ _ _ _ (eq_refl : gets (fun s => s) s = Some (s, s))), (rd_size _ _ _ _ Hrd), (rd_block _ _ _ _ Hrd).
  rewrite (proj2 (Z.ltb_lt _ _)) by lia. cbn [negb]. rewrite (u64_small (zlen L - zlen L1)), Z.min_l, (M_bind_some _ _ _ _ _ Er), (proj2 (Z.ltb_ge e 0)) by lia.
  destruct (Nat.eqb_spec (List.length (take 4096 b)) 0) as [E0|_]; [rewrite length_take in E0; lia|].
  assert (take 4096 b = encode denc_u8 1 ++ encode denc_u8 1 ++ encode denc_u32 (body_len t) ++ take 4090 (body ++ rest)) as Etk by (rewrite Eb, Eh; reflexivity).
  rewrite Etk at 1. rewrite (dec_bind _ _ _ _ _ _ u8_lawful) by done. cbv beta iota. rewrite (dec_bind _ _ _ _ _ _ u8_lawful) by done. cbv beta iota. rewrite (dec_bind _ _ _ _ _ _ u32_lawful) by (unfold uint; lia). cbv beta iota zeta.
  rewrite <- Hneed. assert ((if zlen (take 4096 b) <? zlen b then whileS (read_more r 4096 (zlen L1)) (take 4096 b, zlen b -64 zlen (take 4096 b)) else mret (inr (take 4096 b))) s = Some (inr b, s)) as Ey.
  { assert (zlen (take 4096 b) = 4096) as -> by (rewrite length_take; lia). rewrite u64_small by lia. destruct (Z.ltb_spec 4096 (zlen b)); [done|]. by rewrite take_ge by lia. }
  rewrite (M_bind_some _ _ _ _ _ Ey). assert (decode denc_transaction b = Ok (t, rest)) as -> by (rewrite Eb; exact (l_roundtrip _ _ transaction_lawful t rest Ht)). rewrite Hu, bool_decide_true by done. cbn [negb]. rewrite Hseq, (u64_small (q + 1)), Z.eqb_refl by lia. cbn [negb].
  rewrite (M_bind_some _ _ _ _ _ Hops). rewrite (u64_small (q + 1)), u64_small by lia. done.
Qed.

(** ** The whole log *)

Context `{!Untracked V}.

(** The node of a file without a name. *)
Lemma unnamed_shape (n : nodes_t) r F F' :
  nodes_wf n -> (forall d f, entry n d f <> Some r) -> heap n !! r = Some F -> ino (f_node F') = ino (f_node F) -> fields_valid (f_node F') ->
  nodes_wf (set_heap (<[r := F']> (heap n)) n) /\ view_of (set_heap (<[r := F']> (heap n)) n) = view_of n.
Proof.
  intros Hw Hno HF Hi Hv. set (n' := set_heap _ n). assert (forall q, q <> r -> heap n' !! q = heap n !! q) as Hh by (intros; simpl; by rewrite lookup_insert_ne). split; [constructor|].
  - intros j q E. destruct (w_files _ Hw j q E) as (g & Hg & Hj & Hv'). destruct (decide (q = r)) as [->|Hq]; [|exists g; by rewrite Hh]. exists F'. rewrite HF in Hg. injection Hg as <-. split_and!; [apply lookup_insert_eq|congruence|done].
  - intros d x q E. destruct (w_entry _ Hw d x q E) as (g & Hg & ?). exists g. rewrite Hh; [done|]. intros ->. by apply Hno in E.
  - apply (w_unique _ Hw).
  - intros q g. simpl. destruct (decide (q = r)) as [->|Hq]; [intros _; by apply (w_heap _ Hw r F)|rewrite lookup_insert_ne by done; apply (w_heap _ Hw)].
  - apply (w_last _ Hw).
  - unfold view_of. f_equal. apply names_ext; [done|]. intros d x q E. unfold node_at. rewrite Hh; [done|]. intros ->. by apply Hno in E.
Qed.

Lemma drop_orphans_shape n : nodes_wf n -> nodes_wf (drop_orphans n) /\ view_of (drop_orphans n) = view_of n /\ file_map (drop_orphans n) !! 1 = file_map n !! 1.
Proof.
  intros Hw. assert (forall i r, file_map (drop_orphans n) !! i = Some r <-> file_map n !! i = Some r /\ is_orphan n (i, r) = false) as Hf by (intros; apply map_lookup_filter_Some). split_and!; [constructor|done|].
  - intros i r [E _]%Hf. by apply (w_files _ Hw).
  - intros d x r E. destruct (w_entry _ Hw d x r E) as (f & HF & Hr & Hm). exists f. split_and!; try done. apply Hf. split; [done|]. unfold is_orphan. cbn [fst snd]. rewrite HF, Hr. apply andb_false_r.
  - apply (w_unique _ Hw).
  - apply (w_heap _ Hw).
  - intros i r [E _]%Hf. by apply (w_last _ Hw i r).
  - apply option_eq. intros r. rewrite Hf. split; [tauto|done].
Qed.

(** The transactions of a log from the sequence number [q] on. *)
Definition txn_of (u : bytes) (q : Z) (gs : list group) : bluefs_transaction_t := mk_txn u q (enc_all (ops_of gs)).
Fixpoint log_bytes (u : bytes) (q : Z) (gss : list (list group)) : bytes :=
  match gss with [] => [] | gs :: t => padded (txn_of u q gs) 4096 ++ log_bytes u (q + 1) t end.

Lemma txn_bytes_app u gss1 gss2 : forall q, log_bytes u q (gss1 ++ gss2) = log_bytes u q gss1 ++ log_bytes u (q + zlen gss1) gss2.
Proof. induction gss1 as [|gs t IH]; intros q; cbn [log_bytes app List.length]; [by rewrite Z.add_0_r|]. rewrite IH, <- app_assoc. do 3 f_equal. lia. Qed.

Definition short (gs : list group) : Prop := zlen (enc_all (ops_of gs)) < 2 ^ 31.

Lemma txn_of_valid u q gs v : uuid_valid u -> uint 64 q -> view_ok v -> legal_all gs v -> short gs -> txn_valid (txn_of u q gs).
Proof. intros Hu Hq Hv Hl Hs. split_and!; try done. apply enc_all_emits. by apply (legal_all_lops gs v). Qed.

(** What a log must satisfy to be replayed from the view [v]. *)
Record log_valid (u : bytes) (gss : list (list group)) (v : view) : Prop := {
  lv_uuid : uuid_valid u;
  lv_view : view_ok v;
  lv_legal : legal_all (concat gss) v;
  lv_short : Forall short gss;
  lv_count : zlen gss < 2 ^ 62;
}.

Lemma log_valid_snoc u gss gs v : log_valid u (gss ++ [gs]) v <-> log_valid u gss v /\ legal_all gs (changes (concat gss) v) /\ short gs /\ zlen gss + 1 < 2 ^ 62.
Proof.
  rewrite <- (app_nil_r gs) at 2. change (gs ++ []) with (concat [gs]). split.
  - intros [? ? Hl Hs Hc]. rewrite concat_app, legal_all_app in Hl. rewrite Forall_app, Forall_singleton in Hs. rewrite length_app in Hc. simpl in Hc. destruct Hl, Hs. split_and!; [constructor; (done || lia)|done|done|lia].
  - intros ([? ? Hl Hs Hc] & ? & ? & ?). constructor; [done|done|by rewrite concat_app, legal_all_app|by rewrite Forall_app, Forall_singleton|rewrite length_app; simpl; lia].
Qed.

(** The transaction behind a prefix of the log. *)
Lemma log_valid_mid u a gs b v : log_valid u (a ++ gs :: b) v -> legal_all gs (changes (concat a) v) /\ view_ok (changes (concat a) v) /\ txn_valid (txn_of u (zlen a + 1) gs).
Proof.
  intros [Hu Hv Hl Hs Hc]. rewrite length_app in Hc. simpl in Hc. rewrite concat_app, legal_all_app in Hl. destruct Hl as [Ha Hl]. simpl in Hl. rewrite legal_all_app in Hl. destruct Hl as [Hg _]. rewrite Forall_app, Forall_cons in Hs. destruct Hs as (_ & Hs & _).
  assert (view_ok (changes (concat a) v)) as Hv' by (by apply view_ok_changes). split_and!; try done. apply (txn_of_valid _ _ _ (changes (concat a) v)); try done. unfold uint. lia.
Qed.

Lemma log_bytes_blocks u gss v : log_valid u gss v -> zlen (log_bytes u 1 gss) mod 4096 = 0 /\ zlen gss <= zlen (log_bytes u 1 gss).
Proof.
  induction gss as [|gs gss IH] using rev_ind; intros Hl; [done|]. pose proof (log_valid_mid u gss gs [] v Hl) as (_ & _ & Ht). apply log_valid_snoc in Hl as [Hl _]. destruct (IH Hl) as [IH1 IH2].
  destruct (padded_shape _ Ht) as (_ & Hm & H4 & _). rewrite txn_bytes_app, !length_app, !Nat2Z.inj_add. cbn [log_bytes]. rewrite app_nil_r. rewrite (Z.add_comm 1). split; [rewrite Zplus_mod, IH1, Hm; done|simpl; lia].
Qed.

Lemma replay_loop r f u gss v (s : fs_t) :
  readable r f (log_bytes u 1 gss) s -> u = s_uuid (super_ s) -> log_valid u gss v -> nodes_wf (nodes_ s) -> view_of (nodes_ s) = v -> file_map (nodes_ s) !! 1 = Some r ->
  exists n, whileS (replay_step r) (0, 0, false) s = Some ((0, zlen gss, zlen (log_bytes u 1 gss)), with_nodes n s) /\ nodes_wf n /\ view_of n = changes (concat gss) v /\ log_kept (nodes_ s) n.
Proof.
  intros Hrd Hu Hlv Hw Hv Hr. pose proof (readable_small _ _ _ _ Hrd) as Hsm. set (L := log_bytes u 1 gss) in *.
  destruct (whileS_spec (replay_step r)
    (fun x fs => exists a b n, gss = a ++ b /\ x.1 = (zlen a, zlen (log_bytes u 1 a)) /\ fs = with_nodes n s /\ nodes_wf n /\ view_of n = changes (concat a) v /\ log_kept (nodes_ s) n)
    (fun x => zlen L - x.1.2) (fun y fs => y = (0, zlen gss, zlen L) /\ exists n, fs = with_nodes n s /\ nodes_wf n /\ view_of n = changes (concat gss) v /\ log_kept (nodes_ s) n) (0, 0, false) s)
    as (y & fs & E & -> & n & -> & Hn); [|exists [], gss, (nodes_ s); rewrite with_nodes_id; split_and!; try done; intros rl; done|cbn [fst snd]; lia|by exists n].
  intros [[q pos] seen] fs (a & b & n & Eg & Ex & -> & Hwn & Hvn & Hk). cbn [fst snd] in *. injection Ex as -> ->. destruct (Hk r Hr) as [Hr' Hh].
  assert (readable r f L (with_nodes n s)) as Hrd' by (destruct Hrd; constructor; try done; simpl; by rewrite Hh).
  assert (L = log_bytes u 1 a ++ log_bytes u (1 + zlen a) b) as EL by (unfold L; by rewrite Eg, txn_bytes_app). destruct b as [|gs b].
  - rewrite app_nil_r in Eg, EL. subst a. exists (inr (0, zlen gss, zlen L)), (with_nodes n s). split; [|split; [done|by exists n]]. unfold replay_step.
    rewrite (M_bind_some _ _ _ _ _ (get_file_run _ _ _ (rd_file _ _ _ _ Hrd'))), M_bind_eq. unfold gets. rewrite (rd_size _ _ _ _ Hrd'), <- EL, (proj2 (Z.ltb_ge _ _)) by lia. done.
  - subst gss. destruct (log_valid_mid u a gs b v Hlv) as (Hgl & Hgv & Ht). pose proof (lv_count _ _ _ Hlv) as Hc. rewrite length_app in Hc. simpl in Hc.
    destruct (replay_groups gs (with_nodes n s)) as (n' & Ea & Hwn' & Hvn' & Hk'); [done|simpl; by rewrite Hvn|simpl; by rewrite Hvn|]. rewrite with_nodes_twice in Ea.
    assert (whileS (replay_op r) (op_bl (txn_of u (zlen a + 1) gs), zlen a) (with_nodes n s) = Some (ops_done (zlen a), with_nodes n' s)) as Ho.
    { apply replay_ops_apply; [by apply (legal_all_lops gs (changes (concat a) v))|destruct Ht as (_ & _ & _ & Hs); simpl in Hs; lia|done]. }
    cbn [log_bytes] in EL. rewrite (Z.add_comm 1) in EL. assert (log_valid u a v) as Hla.
    { destruct Hlv as [? ? Hl Hs _]. rewrite concat_app, legal_all_app in Hl. apply Forall_app in Hs as [? _]. destruct Hl. constructor; (done || lia). }
    rewrite (replay_step_run r f L (with_nodes n s) _ _ _ (zlen a) seen _ Hrd' EL (proj1 (log_bytes_blocks u a v Hla)) Ht Hu ltac:(lia) eq_refl Ho).
    eexists _, _. split; [done|]. cbn [fst snd]. destruct (padded_shape _ Ht) as (_ & _ & H4 & _). split.
    + exists (a ++ [gs]), b, n'. split_and!; try done; [by rewrite <- app_assoc| |by rewrite concat_app, changes_app; cbn [concat]; rewrite app_nil_r, Hvn', <- Hvn|].
      * rewrite txn_bytes_app, !length_app. cbn [log_bytes List.length]. rewrite app_nil_r, (Z.add_comm 1). f_equal; lia.
      * intros rl Hrl. destruct (Hk rl Hrl) as [Hm1 Hh1]. destruct (Hk' rl Hm1) as [Hm2 Hh2]. split; [done|]. simpl in Hh2. by rewrite Hh2.
    + rewrite EL, !length_app. lia.
Qed.

(** The state that [_replay] leaves. *)
Definition replayed (n : nodes_t) (q : Z) (s : fs_t) : fs_t :=
  mk_fs (cfg_ s) (disk s) (super_ s) (vselector_ s) n (set_seq_live (q + 1) (log_ s)) (set_seqs q (q + 1) (dirty_ s)).

Lemma fields_set_size k f : fields_valid f -> 0 <= k < 2 ^ 63 -> fields_valid (set_size k f).
Proof. unfold fields_valid. simpl. tauto. Qed.

Lemma replay_run r f u gss v (s : fs_t) :
  readable r f (log_bytes u 1 gss) s -> u = s_uuid (super_ s) -> log_valid u gss v -> gss <> [] -> nodes_wf (nodes_ s) -> view_of (nodes_ s) = v -> file_map (nodes_ s) !! 1 = Some r ->
  exists n, _replay s = Some (0, replayed n (zlen gss) s) /\ nodes_wf n /\ view_of n = changes (concat gss) v /\ file_map n !! 1 = Some r /\
    heap n !! r = Some (with_node (set_size (zlen (log_bytes u 1 gss)) (f_node f)) f).
Proof.
  intros Hrd Hu Hlv Hne Hw Hv Hr. pose proof (readable_small _ _ _ _ Hrd) as Hsm. pose proof (log_bytes_blocks u gss v Hlv) as [_ Hc]. pose proof (lv_count _ _ _ Hlv) as Hc2. assert (0 < zlen gss) as Hc0 by (destruct gss; [done|simpl; lia]).
  destruct (replay_loop r f u gss v s Hrd Hu Hlv Hw Hv Hr) as (n & E & Hwn & Hvn & Hk). destruct (Hk r Hr) as [Hr' Hh]. rewrite (rd_file _ _ _ _ Hrd) in Hh. set (L := log_bytes u 1 gss) in *.
  unfold _replay. rewrite (M_bind_some _ _ _ _ _ (get_file_known _ _ _ Hr)), (M_bind_some _ _ _ _ _ (get_file_run _ _ _ (rd_file _ _ _ _ Hrd))).
  destruct (Nat.eqb_spec (List.length (extents (f_node f))) 0) as [E0|_].
  { pose proof (rd_room _ _ _ _ Hrd) as Hroom. rewrite (f_allocated _ (lf_wf _ _ (rd_log _ _ _ _ Hrd))) in Hroom. destruct (extents (f_node f)); [|done]. change (total []) with 0 in Hroom. lia. }
  rewrite (M_bind_some _ _ _ _ _ E). change (0 <? 0) with false. cbv beta iota. rewrite (u64_small (zlen gss + 1)) by lia. rewrite M_bind_eq. cbn [in_log modify]. rewrite M_bind_eq. cbn [in_dirty modify].
  match goal with |- context [(update_file r _ ≫= _) ?s2] => rewrite (M_bind_some _ _ _ _ _ (update_file_run r f (fun f => with_node (set_size (zlen L) (f_node f)) f) s2 Hh)) end.
  rewrite M_bind_eq, in_nodes_run. destruct (w_files _ Hwn 1 r Hr') as (f' & Hf' & Hi1 & Hfv). rewrite Hh in Hf'. injection Hf' as <-.
  assert (forall d x, entry n d x <> Some r) as Hno. { intros d x Ee. destruct (log_unnamed n d x r r Hwn) as [Hn _]; [rewrite Hvn; by apply view_ok_changes; apply Hlv|done|done|done]. }
  destruct (unnamed_shape n r f (with_node (set_size (zlen L) (f_node f)) f) Hwn Hno Hh eq_refl ltac:(apply fields_set_size; [done|lia])) as [Hw1 Hv1].
  destruct (drop_orphans_shape _ Hw1) as (Hw2 & Hv2 & Hm2). eexists. split; [reflexivity|]. cbn [nodes_ with_nodes]. split; [exact Hw2|]. split; [refine (eq_trans Hv2 _); by rewrite Hv1|]. split; [refine (eq_trans Hm2 _); done|]. simpl. apply lookup_insert_eq.
Qed.
End Replay.
End BlueFSReplay.
