(* ===== verification/BlueFSSync.v ===== *)
(** * Synchronizing metadata

    The invariant of a mounted file system: its log holds the transactions of
    [gss], the pending one is [cur], and the directories are what all of them
    make of an empty file system.  Operations on names extend [cur], and a flush
    of the log moves it to the end of [gss]. *)
From stdpp Require Import base numbers list gmap.
From Stdlib Require Import ZArith Lia ZifyBool.
From S2P Require Import Prelude IntArith Allocator Device Denc DencSpec BluefsTypes BluefsTypesSpec VolumeSelector BlueFS BlueFSOps BlueFSNodes BlueFSLive BlueFSLog BlueFSReplay.
Import Denc DencSpec BluefsTypes BluefsTypesSpec VolumeSelector BlueFS BlueFSOps BlueFSNodes BlueFSLive BlueFSLog BlueFSReplay.

Module BlueFSSync.

(** An empty file system: the log has the number 1. *)
Definition view0 : view := mk_view ∅ 1.

Lemma view0_ok : view_ok view0.
Proof. by split; [split|]. Qed.

Section Sync.
Context {D A V : Type} `{!Device.BlockDevice D} `{!Device.DeviceSpec D} `{!Device.ReliableDevice D} `{!Allocator.Allocator A} `{!VolumeSelector V} `{!Untracked V}.
Abbreviation M := (M (D := D) (A := A) (V := V)).
Abbreviation fs_t := (bluefs (D := D) (A := A) (V := V)).
Abbreviation devs s := (bdev_ (disk s)).

(** The device of the superblock. *)
Definition super_device (m : gmap Z D) : Prop := exists d, m !! BDEV_DB = Some d /\ Device.reliable d /\ 8192 <= Device.dev_size d.

(** [h] and [f] are the writer and the file of the log, which holds [L]. *)
Record log_at (h : FileWriter) (f : File) (L : bytes) (s : fs_t) : Prop := {
  la_writer : writer (log_ s) = Some h;
  la_file : file_map (nodes_ s) !! 1 = Some (w_file h);
  la_read : readable (w_file h) f L s;
  la_pos : w_pos h = zlen L;
  la_merged : foldl push [] (extents (f_node f)) = extents (f_node f);
}.

Record log_inv (gss : list (list group)) (cur : list group) (s : fs_t) : Prop := {
  i_wf : nodes_wf (nodes_ s);
  i_view : view_of (nodes_ s) = changes (concat gss ++ cur) view0;
  i_legal : legal_all cur (changes (concat gss) view0);
  i_pending : op_bl (log_txn (log_ s)) = enc_all (ops_of cur);
  i_log : log_valid (s_uuid (super_ s)) gss view0;
  i_some : gss <> [];
  i_seq : seq_live (log_ s) = zlen gss + 1;
  i_clean : forall q, seq_live (log_ s) <= q -> dirty_files (dirty_ s) !! q = None;
  i_sel : is_Some (vselector_ s);
  i_file : exists h f, log_at h f (log_bytes (s_uuid (super_ s)) 1 gss) s;
  i_osd : uuid_valid (osd_uuid (super_ s));
  i_super : super_device (devs s);
}.

Lemma log_inv_view gss cur s : log_inv gss cur s -> view_ok (view_of (nodes_ s)).
Proof.
  intros HI. rewrite (i_view _ _ _ HI), changes_app. apply view_ok_changes; [|apply HI]. apply view_ok_changes; [apply view0_ok|apply (i_log _ _ _ HI)].
Qed.

(** ** Operations on names *)

Lemma changes_snoc l g v : changes (l ++ [g]) v = change g (changes l v).
Proof. by rewrite changes_app. Qed.

Lemma did_inv gss cur g s s' : log_inv gss cur s -> did g s s' -> log_inv gss (cur ++ [g]) s'.
Proof.
  intros HI (n & p & -> & Hg & Hw & Hv & (_ & _ & Hd) & Hk). pose proof HI as [Hw0 Hv0 Hl0 Hp0 HL Hne Hq Hc Hs (h & f & [Hh Hf Hrd Hpos Hm]) Ho Hsd]. rewrite Hv0 in Hg, Hv. destruct (Hk _ Hf) as [Hf' Hh'].
  constructor; try done; simpl.
  - by rewrite app_assoc, changes_snoc.
  - rewrite legal_all_app. split; [done|]. split; [|done]. by rewrite <- changes_app.
  - rewrite Hp0. unfold enc_all, ops_of. rewrite !fmap_app, !concat_app, fmap_app, concat_app. simpl. by rewrite app_nil_r.
  - intros q Hge. apply Hd. by apply Hc.
  - exists h, f. constructor; try done. destruct Hrd as [Hr1 ? ? ? ? ?]. constructor; try done. simpl. by rewrite Hh'.
Qed.

(** A sequence of calls extends the pending transaction by what it plans. *)
Lemma run_all_inv gss l : forall cur s, log_inv gss cur s -> v_last (view_of (nodes_ s)) + zlen l < 2 ^ 62 -> Forall cmd_ok l ->
  exists s', run_all l s = Some ((spec_all l (view_of (nodes_ s))).1, s') /\ view_of (nodes_ s') = (spec_all l (view_of (nodes_ s))).2 /\ log_inv gss (cur ++ planned l (view_of (nodes_ s))) s'.
Proof.
  induction l as [|c l IH]; intros cur s HI Hl Hc; [exists s; cbn [planned]; by rewrite app_nil_r|]. apply Forall_cons in Hc as [Hc Hcs]. cbn [List.length] in Hl. pose proof (log_inv_view _ _ _ HI) as Hv. pose proof (i_wf _ _ _ HI) as Hw.
  destruct (cmd_live c s Hw Hv (i_sel _ _ _ HI)) as (r & s1 & E & Ho); [cbn [view_of v_last] in Hl; lia|done|]. destruct (outcome_view _ _ _ _ Hw Hv Ho) as (Er & _). change ((r, view_of (nodes_ s1)) = spec_cmd c (view_of (nodes_ s))) in Er.
  pose proof (spec_last c (view_of (nodes_ s))) as Hlast. rewrite <- Er in Hlast. cbn [snd] in Hlast.
  assert (log_inv gss (cur ++ (match plan c (view_of (nodes_ s)) with inl _ => [] | inr g => [g] end)) s1) as HI1.
  { destruct (plan c (view_of (nodes_ s))) as [e|g]; [destruct Ho as [_ ->]; by rewrite app_nil_r|destruct Ho as [_ Hd]; by apply (did_inv gss cur g s)]. }
  destruct (IH _ s1 HI1) as (s2 & E2 & V2 & W2); [lia|done|]. exists s2. cbn [run_all spec_all planned]. rewrite (M_bind_some _ _ _ _ _ E), (M_bind_some _ _ _ _ _ E2), <- Er. cbn [snd]. rewrite app_assoc.
  destruct (spec_all l (view_of (nodes_ s1))) as [rs v']. done.
Qed.

(** ** Space *)

(** Only the allocators and what they wait for are different. *)
Definition space_only (s s' : fs_t) : Prop := exists al sh p,
  s' = mk_fs (cfg_ s) (mk_disk (devs s) (block_reserved_ (disk s)) al (alloc_size_ (disk s)) sh (shared_alloc_id_ (disk s))) (super_ s) (vselector_ s) (nodes_ s) (log_ s) (set_pending p (dirty_ s)).

Lemma set_pending_id d : set_pending (pending_release d) d = d.
Proof. by destruct d. Qed.

#[global] Instance space_only_preorder : PreOrder space_only.
Proof.
  split.
  - intros s. exists (alloc_ (disk s)), (shared_alloc_ (disk s)), (pending_release (dirty_ s)). by destruct s as [? [] ? ? ? ? []].
  - intros s1 s2 s3 (? & ? & ? & ->) (al & sh & p & ->). by exists al, sh, p.
Qed.

Lemma log_inv_space gss cur s s' : space_only s s' -> log_inv gss cur s -> log_inv gss cur s'.
Proof.
  intros (al & sh & p & ->) [? ? ? ? ? ? ? ? ? (h & f & [? ? [? ? ? ? ? ?] ? ?]) ? ?]. constructor; try done. exists h, f. constructor; [done|done|by constructor|done|done].
Qed.

(** What is pending on a device can be released. *)
Definition releasable (id : Z) (s : fs_t) : Prop :=
  forall a, alloc_ (disk s) !! id = Some a -> is_Some (Allocator.release_vec ((fun x => Allocator.pextent x.1 x.2) <$> default [] (pending_release (dirty_ s) !! id)) a).

Lemma releasable_eq id (s s' : fs_t) : alloc_ (disk s') = alloc_ (disk s) -> pending_release (dirty_ s') = pending_release (dirty_ s) -> releasable id s -> releasable id s'.
Proof. intros Ea Ep Hr a. rewrite Ea, Ep. apply Hr. Qed.

Lemma ids_nodup : NoDup ids.
Proof. unfold ids. repeat constructor; set_solver. Qed.

Lemma release_run id (s : fs_t) : releasable id s ->
  exists s', release_pending id s = Some (tt, s') /\ space_only s s' /\ forall i, i <> id -> releasable i s -> releasable i s'.
Proof.
  intros Hr. unfold release_pending. rewrite M_bind_eq. unfold gets. destruct (_ =? 0)%nat; [exists s; by repeat split|]. rewrite M_bind_eq.
  set (p := delete id (pending_release (dirty_ s))). assert (forall s1, space_only s s1 -> (forall i, i <> id -> alloc_ (disk s1) !! i = alloc_ (disk s) !! i) -> pending_release (dirty_ s1) = pending_release (dirty_ s) ->
    exists s', in_dirty (fun d => set_pending (delete id (pending_release d)) d) s1 = Some (tt, s') /\ space_only s s' /\ forall i, i <> id -> releasable i s -> releasable i s') as Hend.
  { intros s1 Hs Ha Hp. eexists. split; [done|]. split; [transitivity s1; [done|]; exists (alloc_ (disk s1)), (shared_alloc_ (disk s1)), (delete id (pending_release (dirty_ s1))); by destruct s1 as [? [] ? ? ? ? []]|].
    intros i Hi Hok a. simpl. rewrite Ha, Hp, lookup_delete_ne by done. apply Hok. }
  destruct (is_shared_alloc id s); [apply Hend; [|done|done]; eexists _, _, (pending_release (dirty_ s)); rewrite set_pending_id; reflexivity|].
  destruct (alloc_ (disk s) !! id) as [a|] eqn:Ea; [|by apply Hend]. destruct (Hr a Ea) as [a' Ea']. rewrite M_bind_eq. unfold lift. rewrite Ea'. cbv beta iota. apply Hend; [|intros i Hi; simpl; by rewrite lookup_insert_ne|done].
  exists (<[id := a']> (alloc_ (disk s))), (shared_alloc_ (disk s)), (pending_release (dirty_ s)). by destruct s as [? [] ? ? ? ? []].
Qed.

Lemma release_all_run l : forall s : fs_t, NoDup l -> (forall id, id ∈ l -> releasable id s) -> exists s', each release_pending l s = Some (tt, s') /\ space_only s s'.
Proof.
  induction l as [|id l IH]; intros s Hl Hok; [by exists s|]. apply NoDup_cons in Hl as [Hid Hl]. destruct (release_run id s) as (s1 & E1 & S1 & K1); [apply Hok; by left|].
  destruct (IH s1 Hl) as (s2 & E2 & S2); [intros i Hi; apply K1; [set_solver|apply Hok; by right]|]. exists s2. rewrite (each_cons _ _ _ _ _ E1). split; [done|by transitivity s1].
Qed.

(** ** Flushing the log *)

(** The log has room for the pending transaction and for the runway behind it. *)
Definition room (s : fs_t) : Prop := forall h f, writer (log_ s) = Some h -> heap (nodes_ s) !! w_file h = Some f ->
  0 <= min_log_runway (cfg_ s) /\ w_pos h + bound_encode denc_transaction (log_txn (log_ s)) + min_log_runway (cfg_ s) < allocated (f_node f) /\ zlen (op_bl (log_txn (log_ s))) < 2 ^ 31.

Lemma log_writer_run h (s : fs_t) : writer (log_ s) = Some h -> log_writer s = Some (h, s).
Proof. intros E. unfold log_writer. rewrite M_bind_eq. unfold gets. by rewrite E. Qed.

Lemma consume_clean q (s : fs_t) : dirty_files (dirty_ s) !! q = None -> _consume_dirty q s = Some (0, s).
Proof. intros E. unfold _consume_dirty. rewrite M_bind_eq. unfold gets. by rewrite E. Qed.

Lemma bound_txn t : txn_valid t -> 0 <= zlen (encode denc_transaction t) <= bound_encode denc_transaction t.
Proof. intros Ht. split; [lia|]. exact (l_bound _ _ transaction_lawful t Ht). Qed.

Lemma extend_roomy h f L (s : fs_t) : log_at h f L s -> room s -> 0 <= bound_encode denc_transaction (log_txn (log_ s)) -> _maybe_extend_log s = Some (0, s).
Proof.
  intros [Hh Hf Hrd Hp _] Hroom Hb. pose proof (readable_small _ _ _ _ Hrd) as Hsm. destruct (Hroom h f Hh (rd_file _ _ _ _ Hrd)) as (H0' & Hr & _). pose proof (lf_wf _ _ (rd_log _ _ _ _ Hrd)) as Hw. pose proof (f_small _ Hw) as Hs. rewrite (f_allocated _ Hw) in *.
  unfold _maybe_extend_log. rewrite (M_bind_some _ _ _ _ _ (log_writer_run _ _ Hh)), (M_bind_some _ _ _ _ _ (get_file_run _ _ _ (rd_file _ _ _ _ Hrd))), M_bind_eq. unfold gets. cbv beta iota zeta.
  rewrite (f_allocated _ Hw). rewrite (u64_small (w_pos h + _)), u64_small, (proj2 (Z.ltb_lt _ _)) by lia. done.
Qed.

(** The state once a flush took the pending transaction. *)
Definition taken (q : Z) (s : fs_t) : fs_t :=
  mk_fs (cfg_ s) (disk s) (super_ s) (vselector_ s) (nodes_ s) (mk_log (q + 1) (writer (log_ s)) (mk_txn (uuid (log_txn (log_ s))) (q + 1) []) (log_is_compacting_ (log_ s))) (set_seqs (seq_stable (dirty_ s)) (q + 1) (dirty_ s)).

(** The state once the transaction is on the devices [m]. *)
Definition flushed (q : Z) (m : gmap Z D) (h : FileWriter) (f : File) (bl : bytes) (s : fs_t) : fs_t :=
  mk_fs (cfg_ s) (disk (with_devs m s)) (super_ s) (vselector_ s) (set_heap (<[w_file h := with_node (set_size (w_pos h + zlen bl) (f_node f)) f]> (heap (nodes_ s))) (nodes_ s))
    (mk_log (q + 1) (Some (with_buffer [] (with_dirty ∅ (with_pos (w_pos h + zlen bl) h)))) (mk_txn (uuid (log_txn (log_ s))) (q + 1) []) (log_is_compacting_ (log_ s)))
    (set_dirty_files (delete q (dirty_files (dirty_ s))) (set_seqs q (q + 1) (dirty_ s))).

Lemma flushed_inv gss cur m h f (s : fs_t) :
  let u := s_uuid (super_ s) in let L := log_bytes u 1 gss in let q := zlen gss + 1 in let bl := padded (txn_of u q cur) 4096 in
  log_inv gss cur s -> log_at h f L s -> short cur -> zlen gss + 1 < 2 ^ 62 -> zlen L + zlen bl <= allocated (f_node f) ->
  same_devs (devs s) m -> holds m (extents (f_node f)) (L ++ bl) -> log_inv (gss ++ [cur]) [] (flushed q m h f bl s).
Proof.
  intros u L q bl HI [Hh Hf Hrd Hp Hm] Hsh Hc Hroom Hs HL. pose proof HI as [Hw Hv Hl Hpend Hlv Hne Hq Hcl Hsel _ Ho Hsd]. pose proof Hrd as [Hf' Hlf _ Hsz _ Hbs]. pose proof (f_small _ (lf_wf _ _ Hlf)) as Hsm. rewrite (f_allocated _ (lf_wf _ _ Hlf)) in Hroom.
  assert (log_bytes u 1 (gss ++ [cur]) = L ++ bl) as EL by (rewrite txn_bytes_app; cbn [log_bytes]; rewrite app_nil_r, (Z.add_comm 1); done).
  destruct (w_files _ Hw 1 _ Hf) as (F & HF & Hi & Hfv). rewrite Hf' in HF. injection HF as <-.
  assert (forall d x, entry (nodes_ s) d x <> Some (w_file h)) as Hno. { intros d x Ee. destruct (log_unnamed _ d x _ _ Hw (log_inv_view _ _ _ HI) Ee Hf) as [Hn _]. done. }
  destruct (unnamed_shape (nodes_ s) (w_file h) f (with_node (set_size (w_pos h + zlen bl) (f_node f)) f) Hw Hno Hf' eq_refl ltac:(apply fields_set_size; [done|lia])) as [Hw1 Hv1].
  constructor.
  - exact Hw1.
  - refine (eq_trans Hv1 _). rewrite Hv, concat_app. cbn [concat]. by rewrite !app_nil_r.
  - exact I.
  - reflexivity.
  - apply log_valid_snoc. by split_and!.
  - by destruct gss.
  - rewrite length_app. cbn [flushed log_ seq_live List.length]. lia.
  - cbn [flushed log_ seq_live dirty_ dirty_files set_dirty_files]. intros k Hk. rewrite lookup_delete_ne by lia. apply Hcl. lia.
  - exact Hsel.
  - change (s_uuid (super_ (flushed q m h f bl s))) with u. rewrite EL. exists (with_buffer [] (with_dirty ∅ (with_pos (w_pos h + zlen bl) h))), (with_node (set_size (w_pos h + zlen bl) (f_node f)) f).
    assert (zlen (L ++ bl) = w_pos h + zlen bl) as El by (rewrite length_app; lia). constructor; [reflexivity|exact Hf| |exact (eq_sym El)|exact Hm].
    constructor; [apply lookup_insert_eq| |exact HL|exact (eq_sym El)|rewrite El; change (w_pos h + zlen bl <= allocated (f_node f)); rewrite (f_allocated _ (lf_wf _ _ Hlf)); lia|exact Hbs].
    apply (log_file_extents _ (f_node f)); [by apply set_size_wf, Hlf|done|by apply (log_file_same (devs s))].
  - exact Ho.
  - destruct Hsd as (d & Hd & Hr & Hds). specialize (Hs BDEV_DB). rewrite Hd in Hs. destruct (m !! BDEV_DB) as [d'|] eqn:Ed'; [|done]. destruct Hs as [E Hr']. exists d'. split_and!; [done|by apply Hr'|lia].
Qed.

(** The log has the extents that it had. *)
Definition same_extents (s s' : fs_t) : Prop := forall h' f', writer (log_ s') = Some h' -> heap (nodes_ s') !! w_file h' = Some f' ->
  exists h f, writer (log_ s) = Some h /\ heap (nodes_ s) !! w_file h = Some f /\ extents (f_node f') = extents (f_node f).

Lemma flush_log_inv gss cur (s : fs_t) :
  log_inv gss cur s -> room s -> (forall id, id ∈ ids -> releasable id s) -> zlen gss + 1 < 2 ^ 62 ->
  exists s', _flush_and_sync_log 0 s = Some (0, s') /\ log_inv (gss ++ [cur]) [] s' /\ super_ s' = super_ s /\ same_extents s s'.
Proof.
  intros HI Hroom Hrel Hc. pose proof HI as [Hw Hv Hl Hpend Hlv Hne Hq Hcl Hsel (h & f & Hla) Ho Hsd]. set (u := s_uuid (super_ s)) in *. set (L := log_bytes u 1 gss) in *. set (q := zlen gss + 1).
  pose proof Hla as [Hh Hf Hrd Hp Hm]. pose proof Hrd as [Hf' Hlf HL Hsz Hall Hbs]. destruct (Hroom h f Hh Hf') as (Hr0 & Hr & Hshort). pose proof (f_small _ (lf_wf _ _ Hlf)) as Hsm. pose proof (f_allocated _ (lf_wf _ _ Hlf)) as Ha.
  assert (short cur) as Hsh by (unfold short; by rewrite <- Hpend). assert (txn_valid (txn_of u q cur)) as Ht.
  { apply (txn_of_valid _ _ _ (changes (concat gss) view0)); [apply Hlv|unfold uint; lia|apply view_ok_changes; [apply view0_ok|apply Hlv]|done|done]. }
  set (bl := padded (txn_of u q cur) 4096). destruct (padded_shape _ Ht) as (_ & Hbm & Hb4 & Hbb & _ & _). fold bl in Hbm, Hb4, Hbb. destruct (log_bytes_blocks _ _ _ Hlv) as [HLm _]. fold L in HLm.
  assert (bound_encode denc_transaction (log_txn (log_ s)) = bound_encode denc_transaction (txn_of u q cur)) as Eb by (cbn [bound_encode denc_transaction denc_struct denc_string txn_of op_bl]; by rewrite Hpend). pose proof (bound_txn _ Ht) as [Ht0 Htb].
  assert (zlen L + zlen bl <= allocated (f_node f)) as Hfit.
  { pose proof (total_blocks _ _ (lf_usable _ _ Hlf)) as Htm. rewrite Ha, Eb, Hp in Hr. rewrite Ha. pose proof (Z.div_mod (total (extents (f_node f))) 4096). pose proof (Z.div_mod (zlen L) 4096). pose proof (Z.div_mod (zlen bl) 4096). lia. }
  set (s1 := mk_fs (cfg_ s) (disk s) (super_ s) (vselector_ s) (nodes_ s) (set_seq_live (q + 1) (log_ s)) (set_seqs (seq_stable (dirty_ s)) (q + 1) (dirty_ s))).
  assert (log_at h f L s1) as Hla1 by (constructor; [done|done|by constructor|done|done]).
  destruct (flush_log_run (taken q s) h f L bl Hh Hf' Hlf Hp Hsz HL HLm Hbm ltac:(lia) Hfit) as (m & dirty & Ef & Hs & HL' & _).
  destruct (flush_bdev_run (with_pos (w_pos h + zlen bl) (with_dirty dirty h)) (appended m dirty h f bl (taken q s))) as (m2 & Eg & Hs2).
  destruct (release_all_run ids (flushed q m2 h f bl s)) as (s3 & E3 & S3); [exact ids_nodup|intros id Hid; exact (releasable_eq id s (flushed q m2 h f bl s) eq_refl eq_refl (Hrel id Hid))|]. change (devs (appended m dirty h f bl (taken q s))) with m in Hs2.
  exists s3. split; [|split; [|split]].
  - unfold _flush_and_sync_log. rewrite M_bind_eq. unfold gets. change (negb (0 =? 0)) with false. change ((0 =? 0) || (0 <=? dirty_seq_live (dirty_ s))) with true. cbn [andb]. rewrite M_bind_eq. unfold cxxlab_assert. cbv beta iota zeta. rewrite Hq. fold q. rewrite (u64_small (q + 1)) by lia.
    rewrite M_bind_eq. cbn [in_log modify]. rewrite M_bind_eq. cbn [in_dirty modify].
    match goal with |- (_ ≫= _) ?x = _ => change x with s1 end. assert (dirty_files (dirty_ s1) !! q = None) as Hcl1 by (simpl; apply Hcl; lia).
    rewrite (M_bind_some _ _ _ _ _ (consume_clean q s1 Hcl1)). change (0 <? 0) with false. cbv beta iota. assert (_maybe_extend_log s1 = Some (0, s1)) as Eext by (apply (extend_roomy h f L); [done|done|change (log_txn (log_ s1)) with (log_txn (log_ s)); rewrite Eb; lia]).
    rewrite (M_bind_some _ _ _ _ _ Eext). change (0 <? 0) with false. cbv beta iota. rewrite M_bind_eq. unfold gets. cbv beta iota zeta. rewrite M_bind_eq. unfold in_log at 1, modify at 1.
    match goal with |- (_ ≫= _) ?x = _ => change x with (taken q s) end. change (op_bl (log_txn (log_ s1))) with (op_bl (log_txn (log_ s))). rewrite Hpend. change (super_ s1) with (super_ s). rewrite Hbs. fold u. change (mk_txn u q (enc_all (ops_of cur))) with (txn_of u q cur). fold bl.
    rewrite (M_bind_some _ _ _ _ _ Ef). change (0 <? 0) with false. cbv beta iota. rewrite (M_bind_some _ _ _ _ _ (log_writer_run (with_pos (w_pos h + zlen bl) (with_dirty dirty h)) (appended m dirty h f bl (taken q s)) eq_refl)), (M_bind_some _ _ _ _ _ Eg).
    rewrite M_bind_eq. unfold in_log at 1, modify at 1. cbv beta iota. rewrite M_bind_eq. unfold gets. match goal with |- context [dirty_files ?d !! q] => change (dirty_files d) with (dirty_files (dirty_ s)) end. rewrite Hcl by lia. cbn [default each]. rewrite M_bind_eq. cbn [mret M_ret].
    rewrite M_bind_eq. unfold in_dirty at 1, modify at 1. cbv beta iota. match goal with |- (_ ≫= _) ?x = _ => change x with (flushed q m2 h f bl s) end. by rewrite (M_bind_some _ _ _ _ _ E3).
  - apply (log_inv_space _ _ (flushed q m2 h f bl s)); [done|]. apply flushed_inv; try done; [by transitivity m; [|apply Hs2]|by apply (holds_same m)].
  - by destruct S3 as (? & ? & ? & ->).
  - destruct S3 as (? & ? & ? & ->). intros h' f' Eh' Ef'. injection Eh' as <-. cbn [nodes_ flushed heap set_heap w_file with_buffer with_dirty with_pos] in Ef'. rewrite lookup_insert_eq in Ef'. injection Ef' as <-. by exists h, f.
Qed.
End Sync.
End BlueFSSync.
