(* ===== verification/BlueFSDurable.v ===== *)
(** * Metadata is durable

    [sync_metadata] writes the pending transaction and a superblock that covers
    it; mounting what is on the devices then restores every directory and every
    file node, and the invariant that later operations need. *)
From stdpp Require Import base numbers list gmap.
From Stdlib Require Import ZArith Lia ZifyBool.
From S2P Require Import Prelude IntArith Allocator Device Denc DencSpec BluefsTypes BluefsTypesSpec VolumeSelector BlueFS BlueFSOps BlueFSNodes BlueFSLive BlueFSLog BlueFSReplay BlueFSSync.
Import Denc DencSpec BluefsTypes BluefsTypesSpec VolumeSelector BlueFS BlueFSOps BlueFSNodes BlueFSLive BlueFSLog BlueFSReplay BlueFSSync.

Module BlueFSDurable.

(** ** The superblock *)

Lemma append_extent_same e f g : extents f = extents g -> extents (append_extent e f) = extents (append_extent e g).
Proof. intros E. unfold append_extent. rewrite E. by destruct (last (extents g)) as [l|]; [destruct (can_merge l e)|]. Qed.
Lemma claim_extents_same es : forall f g, extents f = extents g -> extents (claim_extents es f) = extents (claim_extents es g).
Proof. induction es as [|e es IH]; intros f g E; [done|]. apply (IH (append_extent e f) (append_extent e g)). by apply append_extent_same. Qed.

(** A copy of a node whose extents are merged has the same extents. *)
Lemma fnode_copy_extents f : fnode_wf f -> foldl push [] (extents f) = extents f -> extents (fnode_copy f) = extents f.
Proof.
  intros Hw Hm. unfold fnode_copy, clone_extents. set (base := mk_fnode _ _ _ _ _ _ _ _). rewrite (claim_extents_same _ base (fnode 0 0 0)) by done.
  assert (fnode_wf (fnode 0 0 0)) as H0 by (constructor; [by apply Forall_nil|done..]). pose proof (f_small _ Hw).
  destruct (claim_extents_wf (extents f) (fnode 0 0 0) H0 (f_extents _ Hw)) as (_ & E & _); [change (total (extents (fnode 0 0 0))) with 0; lia|]. by rewrite E.
Qed.

Lemma recalc_spec l : forall x a, Forall extent_ok l -> 0 <= a -> a + total l < 2 ^ 64 ->
  foldl (fun '(x, a) e => (x ++ [a], a +64 length e)) (x, a) l = (x ++ starts a l, a + total l).
Proof.
  induction l as [|e l IH]; intros x a Hl Ha Ht; [simpl; change (total []) with 0; by rewrite app_nil_r, Z.add_0_r|]. apply Forall_cons in Hl as [(He & _) Hl]. rewrite ext_total_cons in *. pose proof (total_nonneg _ Hl).
  cbn [foldl starts]. rewrite u64_small, IH by (done || lia). rewrite <- app_assoc. f_equal. lia.
Qed.

Lemma recalc_wf f : Forall extent_ok (extents f) -> total (extents f) < 2 ^ 63 -> fnode_wf (recalc_allocated f).
Proof.
  intros He Ht. unfold recalc_allocated, recalc. rewrite recalc_spec by (done || lia). by constructor.
Qed.

Lemma encode_recalc f : encode denc_fnode (recalc_allocated f) = encode denc_fnode f.
Proof. unfold recalc_allocated. by destruct (recalc (extents f)). Qed.

(** What [_write_super] stores for a superblock, and what is read back. *)
Definition next_super (u : bluefs_super_t) : bluefs_super_t := mk_super (s_uuid u) (osd_uuid u) (version u +64 1) (block_size u) (fnode_copy (log_fnode u)).
Definition read_super (u : bluefs_super_t) : bluefs_super_t := mk_super (s_uuid u) (osd_uuid u) (version u) (block_size u) (recalc_allocated (log_fnode u)).
Definition super_block (u : bluefs_super_t) : bytes :=
  let bl := encode denc_super u ++ encode denc_u32 (crc32c (encode denc_super u)) in bl ++ replicate (Z.to_nat (SUPER_LENGTH - zlen bl)) 0.

Lemma encode_read_super u : encode denc_super (read_super u) = encode denc_super u.
Proof. unfold denc_super, denc_struct. cbn [encode]. cbv zeta. unfold read_super. cbn [s_uuid osd_uuid version block_size log_fnode]. by rewrite encode_recalc. Qed.

Lemma bound_extents l : bound_encode (denc_vector denc_extent) l = 4 + 21 * zlen l.
Proof.
  cbn [bound_encode denc_vector]. f_equal. induction l as [|e l IH]; [done|]. change (sumZ (bound_encode denc_extent) (e :: l)) with (bound_encode denc_extent e + sumZ (bound_encode denc_extent) l). rewrite IH. cbn [List.length]. change (bound_encode denc_extent e) with 21. lia.
Qed.

(** A log of up to 190 extents leaves room for the checksum. *)
Lemma super_fits u : super_valid (read_super u) -> zlen (extents (log_fnode u)) <= 190 -> zlen (encode denc_super u) + 4 <= 4096.
Proof.
  intros Hv Hn. rewrite <- encode_read_super. pose proof (l_bound _ _ super_lawful _ Hv) as Hb. enough (bound_encode denc_super (read_super u) <= 4092) by lia.
  assert (bound_encode denc_super (read_super u) = 62 + bound_encode denc_fnode (log_fnode (read_super u))) as -> by (unfold denc_super, denc_struct, denc_uuid; cbn; lia).
  cbn [bound_encode denc_fnode]. rewrite bound_extents. cbn [read_super log_fnode]. rewrite recalc_extents. change (bound_encode (denc_varint 64) _) with 9. cbn. lia.
Qed.

Lemma fnode_short f : fields_valid f -> zlen (extents f) <= 190 -> zlen (encode denc_fnode f) < 2 ^ 31.
Proof.
  intros Hf Hn. rewrite <- encode_recalc. assert (fields_valid (recalc_allocated f) /\ recalc_allocated (recalc_allocated f) = recalc_allocated f) as Hv by (split; [by apply recalc_valid|apply recalc_idem]).
  pose proof (l_bound _ _ fnode_lawful _ Hv) as Hb. cbn [bound_encode denc_fnode] in Hb. rewrite bound_extents, recalc_extents in Hb. change (bound_encode (denc_varint 64) (ino (recalc_allocated f))) with 9 in Hb.
  change (bound_encode (denc_varint 64) (BluefsTypes.size (recalc_allocated f))) with 9 in Hb. change (bound_encode denc_u8 (unused_ (recalc_allocated f))) with 1 in Hb. change (bound_encode denc_mtime (mtime (recalc_allocated f))) with 8 in Hb. lia.
Qed.

Section Durable.
Context {D A V : Type} `{!Device.BlockDevice D} `{!Device.DeviceSpec D} `{!Device.ReliableDevice D} `{!Allocator.Allocator A} `{!VolumeSelector V} `{!Untracked V}.
Abbreviation M := (M (D := D) (A := A) (V := V)).
Abbreviation fs_t := (bluefs (D := D) (A := A) (V := V)).
Abbreviation devs s := (bdev_ (disk s)).

Definition with_super (u : bluefs_super_t) (s : fs_t) : fs_t := mk_fs (cfg_ s) (disk s) u (vselector_ s) (nodes_ s) (log_ s) (dirty_ s).

(** The superblock [u] is on its device. *)
Definition super_on (m : gmap Z D) (u : bluefs_super_t) : Prop := forall x, 0 <= x < 4096 -> byte_at m (BDEV_DB, 4096 + x) = nth (Z.to_nat x) (super_block u) 0.

Lemma super_block_length u : zlen (encode denc_super u) + 4 <= 4096 -> zlen (super_block u) = 4096.
Proof.
  intros Hf. unfold super_block, SUPER_LENGTH. cbv zeta. rewrite !length_app, length_replicate. cbn [encode denc_u32 denc_le]. rewrite length_le_bytes. lia.
Qed.

Lemma write_super_run (s : fs_t) :
  super_device (devs s) -> zlen (encode denc_super (next_super (super_ s))) + 4 <= 4096 ->
  exists m, _write_super BDEV_DB s = Some (0, with_super (mk_super (s_uuid (super_ s)) (osd_uuid (super_ s)) (version (super_ s) +64 1) (block_size (super_ s)) (log_fnode (super_ s))) (with_devs m s)) /\
    same_devs (devs s) m /\ super_on m (next_super (super_ s)) /\ forall p, ~ (p.1 = BDEV_DB /\ 4096 <= p.2 < 8192) -> byte_at m p = byte_at (devs s) p.
Proof.
  intros (d & Hd & Hr & Hsz) Hfit. pose proof (super_block_length _ Hfit) as Hlen. set (u := next_super (super_ s)) in *.
  pose proof (write_extent_run (devs s) (mk_extent 4096 4096 BDEV_DB) d 4096 (super_block u) Hd Hr ltac:(lia) eq_refl ltac:(by rewrite Hlen) ltac:(lia)) as Hw. change (bdev (mk_extent 4096 4096 BDEV_DB)) with BDEV_DB in Hw.
  unfold _write_super. rewrite M_bind_eq. unfold gets. rewrite Hd. cbv beta iota zeta. change (mk_super _ _ _ _ (log_fnode (super_copy (super_ s)))) with u.
  assert (zlen (encode denc_super u ++ encode denc_u32 (crc32c (encode denc_super u))) = zlen (encode denc_super u) + 4) as El by (rewrite length_app; cbn [encode denc_u32 denc_le]; rewrite length_le_bytes; lia).
  rewrite (proj2 (Z.ltb_ge SUPER_LENGTH _)) by (unfold SUPER_LENGTH; lia). fold (super_block u). change SUPER_OFFSET with 4096. destruct (Device.dev_write 4096 (super_block u) false d) as [r d']. destruct Hw as (Hr0 & Hs & Hin & Hout). rewrite Hlen in Hin, Hout.
  exists (<[BDEV_DB := d']> (devs s)). split_and!; [|done|done|exact Hout]. rewrite M_bind_eq. unfold set_device, in_disk, modify. cbv beta iota. rewrite (proj2 (Z.ltb_ge r 0)) by lia. done.
Qed.

Lemma open_super_run (s : fs_t) u :
  super_device (devs s) -> super_on (devs s) u -> super_valid (read_super u) -> zlen (encode denc_super u) + 4 <= 4096 -> _open_super s = Some (0, with_super (read_super u) s).
Proof.
  intros (d & Hd & Hr & Hsz) Hon Hv Hfit. pose proof (super_block_length _ Hfit) as Hlen.
  assert (4096 + 4096 <= Device.dev_size d) as Hin by lia. pose proof (Device.read_direct_succeeds d 4096 4096 Hr ltac:(lia) ltac:(lia) Hin eq_refl eq_refl) as Hok. pose proof (Device.read_spec d 4096 4096 false ltac:(lia) ltac:(lia) Hin Hok) as Hrd.
  unfold _open_super. rewrite M_bind_eq. unfold gets. rewrite Hd. change SUPER_OFFSET with 4096. change SUPER_LENGTH with 4096. destruct (Device.dev_read 4096 4096 false d) as [c b]. cbn [fst snd] in Hok, Hrd.
  assert (b = super_block u) as ->.
  { rewrite Hrd. change (Z.to_nat 4096) with 4096%nat. apply list_eq_same_length with (n := 4096%nat); [lia|apply Device.length_image_range|]. intros i x y Hi. rewrite Device.lookup_image_range by done. intros [= <-] Hy. apply nth_lookup_Some with (d := 0) in Hy.
    specialize (Hon (Z.of_nat i) ltac:(lia)). rewrite Nat2Z.id, Hy in Hon. rewrite <- Hon. unfold byte_at. cbn [fst snd]. by rewrite Hd. }
  rewrite (proj2 (Z.ltb_ge c 0)) by lia. unfold super_block. cbv zeta. set (e := encode denc_super u). set (z := replicate _ 0).
  assert (decode denc_super ((e ++ encode denc_u32 (crc32c e)) ++ z) = Ok (read_super u, encode denc_u32 (crc32c e) ++ z)) as ->.
  { unfold e. rewrite <- app_assoc, <- encode_read_super. exact (l_roundtrip _ _ super_lawful _ _ Hv). }
  cbv beta iota. rewrite M_bind_eq. unfold in_super, modify. cbv beta iota. rewrite <- app_assoc, length_app, Nat.add_sub, take_app_length.
  rewrite u32_roundtrip by (apply crc32c_range, super_emits). by rewrite Z.eqb_refl.
Qed.

(** ** [sync_metadata] *)

Context (sizeof_fnode sizeof_delta : Z).

(** Compaction is announced before it is decided on, and the decision is never
    to compact while a compaction is announced. *)
Lemma compact_nothing (s : fs_t) : _compact_log_async sizeof_fnode sizeof_delta s = Some (0, s).
Proof. destruct s as [c k u v n [q w t b] p]. by destruct b. Qed.

Lemma maybe_compact_nothing r f (s : fs_t) : file_map (nodes_ s) !! 1 = Some r -> heap (nodes_ s) !! r = Some f -> _maybe_compact_log sizeof_fnode sizeof_delta s = Some (tt, s).
Proof.
  intros Hr Hf. assert (exists b, _should_compact sizeof_fnode sizeof_delta s = Some (b, s)) as [b E].
  { unfold _should_compact. rewrite M_bind_eq. unfold gets. destruct (log_is_compacting_ (log_ s)); [by eexists|]. rewrite (M_bind_some _ _ _ _ _ (get_file_known _ _ _ Hr)), (M_bind_some _ _ _ _ _ (get_file_run _ _ _ Hf)), M_bind_eq. destruct (_ <? _); by eexists. }
  unfold _maybe_compact_log. rewrite (M_bind_some _ _ _ _ _ E). destruct b; [|done]. by rewrite (M_bind_some _ _ _ _ _ (compact_nothing s)).
Qed.

(** The superblock only serves the identity of the log while it is mounted. *)
Lemma log_inv_super gss cur u (s : fs_t) : log_inv gss cur s -> s_uuid u = s_uuid (super_ s) -> osd_uuid u = osd_uuid (super_ s) -> block_size u = block_size (super_ s) -> log_inv gss cur (with_super u s).
Proof.
  intros [? ? ? ? Hl ? ? ? ? (h & f & [? ? [? ? ? ? ? ?] ? ?]) ? ?] Eu Eo Eb. constructor; unfold with_super; cbn [super_]; rewrite ?Eu, ?Eo; try done. exists h, f. constructor; [done|done| |done|done]. constructor; try done. cbn [super_]. by rewrite Eb.
Qed.

(** Other bytes on the devices, but not in the log. *)
Lemma log_inv_devs gss cur m (s : fs_t) : log_inv gss cur s -> same_devs (devs s) m ->
  (forall h f x p, log_at h f (log_bytes (s_uuid (super_ s)) 1 gss) s -> phys (extents (f_node f)) x = Some p -> 0 <= x -> byte_at m p = byte_at (devs s) p) -> log_inv gss cur (with_devs m s).
Proof.
  intros [? ? ? ? Hl ? ? ? ? (h & f & Hla) ? Hsd] Hs Hb. constructor; try done.
  - exists h, f. pose proof Hla as [? ? [? ? HL ? ? ?] ? ?]. constructor; [done|done| |done|done]. constructor; try done; [by apply (log_file_same (devs s))|].
    intros x Hx. rewrite <- HL by done. unfold file_byte. destruct (phys (extents (f_node f)) x) as [p|] eqn:Ep; [|done]. apply (Hb h f x p); (done || lia).
  - destruct Hsd as (d & Hd & Hr & Hds). specialize (Hs BDEV_DB). rewrite Hd in Hs. destruct (m !! BDEV_DB) as [d'|] eqn:Ed'; [|done]. destruct Hs as [E Hr']. exists d'. split_and!; [done|by apply Hr'|lia].
Qed.

(** The bytes of the log are not in the superblock. *)
Lemma phys_usable (m : gmap Z D) l : forall x p, Forall (usable m) l -> 0 <= x -> phys l x = Some p -> ~ (p.1 = BDEV_DB /\ 4096 <= p.2 < 8192).
Proof.
  induction l as [|e l IH]; intros x p Hu Hx; [done|]. apply Forall_cons in Hu as [((? & _) & _ & _ & Hdb & _) Hu]. cbn [phys]. destruct (Z.ltb_spec x (length e)) as [Hlt|Hge]; [|apply IH; [done|lia]].
  intros [= <-]. cbn [fst snd]. intros [E Ho]. specialize (Hdb E). lia.
Qed.

(** What [mount] needs to find on the devices: a superblock and the log that it
    describes, with the transactions of [gss]. *)
Definition mountable (gss : list (list group)) (m : gmap Z D) : Prop := exists u,
  let L := log_bytes (s_uuid u) 1 gss in
  super_device m /\ super_on m u /\ super_valid (read_super u) /\ zlen (encode denc_super u) + 4 <= 4096 /\ block_size u = 4096 /\ ino (log_fnode u) = 1 /\
  log_valid (s_uuid u) gss view0 /\ gss <> [] /\ log_file m (recalc_allocated (log_fnode u)) /\ foldl push [] (extents (log_fnode u)) = extents (log_fnode u) /\
  holds m (extents (log_fnode u)) L /\ BluefsTypes.size (log_fnode u) = zlen L /\ zlen L <= total (extents (log_fnode u)).

Definition few_extents (s : fs_t) : Prop := forall h f, writer (log_ s) = Some h -> heap (nodes_ s) !! w_file h = Some f -> zlen (extents (f_node f)) <= 190.

Lemma sync_run gss cur avoid (s : fs_t) :
  log_inv gss cur s -> room s -> few_extents s -> (forall id, id ∈ ids -> releasable id s) -> zlen gss + 1 < 2 ^ 62 ->
  exists s', sync_metadata sizeof_fnode sizeof_delta avoid s = Some (0, s') /\ log_inv (gss ++ [cur]) [] s' /\ mountable (gss ++ [cur]) (devs s').
Proof.
  intros HI Hroom Hfew Hrel Hc. destruct (flush_log_inv gss cur s HI Hroom Hrel Hc) as (s1 & E1 & HI1 & Es1 & Hext). set (gss' := gss ++ [cur]) in *. pose proof HI1 as [Hw1 _ _ _ Hlv1 _ _ _ _ (h & f & Hla) Ho1 Hsd1]. pose proof Hla as [Hh Hf Hrd Hp Hm]. pose proof Hrd as [Hf' Hlf HL Hsz Hall Hbs].
  assert (zlen (extents (f_node f)) <= 190) as Hn by (destruct (Hext h f Hh Hf') as (h0 & f0 & Eh0 & Ef0 & ->); by apply (Hfew h0 f0)). destruct (w_files _ Hw1 1 _ Hf) as (f1 & Ef1 & Hino & Hfv). rewrite Hf' in Ef1. injection Ef1 as <-.
  set (u1 := mk_super (s_uuid (super_ s1)) (osd_uuid (super_ s1)) (version (super_ s1)) (block_size (super_ s1)) (f_node f)). set (s2 := with_super u1 s1). assert (log_inv gss' [] s2) as HI2 by (by apply log_inv_super).
  set (u := next_super u1). assert (extents (log_fnode u) = extents (f_node f)) as Eex by (apply fnode_copy_extents; [apply Hlf|done]). pose proof (claim_extents_fields (extents (f_node f)) (mk_fnode (ino (f_node f)) (BluefsTypes.size (f_node f)) (mtime (f_node f)) 0 [] [] (allocated (f_node f)) (allocated_committed (f_node f)))) as (F1 & F2 & F3 & F4 & _).
  change (claim_extents _ _) with (log_fnode u) in F1, F2, F3, F4. cbn [ino BluefsTypes.size mtime unused_] in F1, F2, F3, F4.
  assert (fields_valid (log_fnode u)) as Hfu by (destruct Hfv as (? & ? & ? & ? & ? & ?); unfold fields_valid; rewrite F1, F2, F3, F4, Eex; split_and!; done || lia).
  assert (super_valid (read_super u)) as Hsv.
  { split_and!; [apply Hlv1|exact Ho1|unfold uint; cbn; pose proof (Z.mod_pos_bound (version (super_ s1) + 1) (2 ^ 64)); unfold u64, wrap; lia|cbn; rewrite Hbs; unfold uint; lia|by apply recalc_valid|apply recalc_idem|].
    cbn [read_super log_fnode]. rewrite encode_recalc. apply fnode_short; [done|by rewrite Eex]. }
  assert (zlen (encode denc_super u) + 4 <= 4096) as Hfit by (apply super_fits; [done|by rewrite Eex]).
  destruct (write_super_run s2 Hsd1 Hfit) as (m & E2 & Hs & Hon & Hout). set (u2 := mk_super _ _ _ _ _) in E2. set (s3 := with_super u2 (with_devs m s2)) in E2.
  assert (log_inv gss' [] s3) as HI3.
  { apply log_inv_super; [|done..]. apply log_inv_devs; [done|done|]. intros h' f1 x p Hla' Ep Hx. apply Hout. apply (phys_usable (devs s2) (extents (f_node f1)) x); [|done|done]. exact (lf_usable _ _ (rd_log _ _ _ _ (la_read _ _ _ _ Hla'))). }
  destruct (flush_device_run BDEV_DB s3) as (m' & E3 & Hs').
  assert (log_inv gss' [] (with_devs m' s3)) as HI4 by (apply log_inv_devs; [done|apply Hs'|intros; apply Hs']). pose proof HI4 as [_ _ _ _ _ _ _ _ _ (h4 & f4 & Hla4) _ _]. pose proof Hla4 as [Hh4 Hf4 [Hf4' _ _ _ _ _] _ _].
  exists (with_devs m' s3). split; [|split; [done|]].
  - unfold sync_metadata. rewrite (M_bind_some _ _ _ _ _ E1). change (0 <? 0) with false. cbv beta iota. unfold store_log_fnode. rewrite M_bind_eq, (M_bind_some _ _ _ _ _ (get_file_known _ _ _ Hf)), (M_bind_some _ _ _ _ _ (get_file_run _ _ _ Hf')). unfold in_super, modify. cbv beta iota.
    match goal with |- (_ ≫= _) ?x = _ => change x with s2 end. rewrite (M_bind_some _ _ _ _ _ E2). change (0 <? 0) with false. cbv beta iota. rewrite (M_bind_some _ _ _ _ _ E3).
    destruct avoid; [done|]. by rewrite (M_bind_some _ _ _ _ _ (maybe_compact_nothing (w_file h4) f4 _ Hf4 Hf4')).
  - assert (h4 = h) as -> by (cbn in Hh4; congruence). assert (f4 = f) as -> by (cbn in Hf4'; congruence). pose proof Hla4 as [_ _ [_ Hlf4 HL4 Hsz4 Hall4 _] _ _]. change (s_uuid (super_ (with_devs m' s3))) with (s_uuid u) in HL4, Hsz4, Hall4.
    exists u. cbv zeta. rewrite Eex, F2. rewrite (f_allocated _ (lf_wf _ _ Hlf4)) in Hall4. split_and!; [apply HI4| |done|done|exact Hbs|congruence|exact Hlv1|exact (i_some _ _ _ HI4)| |done|done|done|done]; [|apply (log_file_extents _ (f_node f)); [apply recalc_wf; rewrite Eex; [apply Hlf|apply (f_small _ (lf_wf _ _ Hlf))]|by rewrite recalc_extents, Eex|done]].
    intros x Hx. destruct Hs' as [_ Hb]. change (byte_at m' (BDEV_DB, 4096 + x) = nth (Z.to_nat x) (super_block u) 0). rewrite Hb. by apply Hon.
Qed.

(** ** [mount] *)

Context `{!Allocator.CarveSpec A}.
Context (create : Z -> Z -> A) (new_selector : Z -> Z -> Z -> V).

(** The first byte of a device that an allocator is given. *)
Definition skip_of (id : Z) (s : fs_t) : Z := if id =? BDEV_DB then Z.max (reserved_of id s) (SUPER_OFFSET + SUPER_LENGTH) else reserved_of id s.

(** New allocators are empty and as large as their device. *)
Definition can_init (s : fs_t) : Prop := forall id d, devs s !! id = Some d ->
  let a := create (Device.dev_size d) (alloc_size (cfg_ s)) in
  Allocator.carve_ok a /\ Allocator.carvable a = ∅ /\ Allocator.get_capacity a = Device.dev_size d /\ 0 <= reserved_of id s.

(** A file system object that holds the devices but no files. *)
Record unmounted (m : gmap Z D) (s : fs_t) : Prop := {
  um_devs : devs s = m;
  um_dirs : dir_map (nodes_ s) = ∅;
  um_files : file_map (nodes_ s) = ∅;
  um_heap : forall r f, heap (nodes_ s) !! r = Some f -> r < next_ref (nodes_ s);
  um_txn : op_bl (log_txn (log_ s)) = [];
  um_dirty : dirty_files (dirty_ s) = ∅;
  um_init : can_init s;
}.

(** The allocator of the device [id] has the space behind what is skipped. *)
Definition filled (id : Z) (s : fs_t) : Prop := exists a, alloc_ (disk s) !! id = Some a /\ Allocator.carve_ok a /\ _get_total id s <= Allocator.get_capacity a /\
  Allocator.carvable a = zrange (skip_of id s) (_get_total id s - skip_of id s).

Lemma get_total_bounds id d (s : fs_t) : devs s !! id = Some d -> 0 <= reserved_of id s -> 0 < Device.dev_size d < 2 ^ 63 -> 0 <= _get_total id s <= Device.dev_size d.
Proof.
  intros Hd Hr Hs. unfold _get_total, get_block_device_size. rewrite Hd. destruct (Z.leb_spec (Device.dev_size d) (reserved_of id s)); [lia|]. rewrite u64_small by lia. lia.
Qed.

Lemma init_alloc_one id (s : fs_t) : can_init s -> exists s', init_alloc_of create id s = Some (tt, s') /\ space_only s s' /\
  (is_shared_alloc id s = false -> is_Some (devs s !! id) -> filled id s') /\ forall i, i <> id -> alloc_ (disk s') !! i = alloc_ (disk s) !! i.
Proof.
  intros Hc. unfold init_alloc_of. rewrite M_bind_eq. unfold gets. destruct (devs s !! id) as [d|] eqn:Hd; [|exists s; split_and!; [done|done|by intros _ [? [=]]|done]]. destruct (is_shared_alloc id s) eqn:Esh; [by exists s|]. cbv zeta. fold (skip_of id s).
  destruct (Hc id d Hd) as (Hok & Hemp & Hcap & Hres). set (a0 := create _ _) in *. pose proof (Allocator.carve_capacity _ Hok) as Hs. rewrite Hcap in Hs. pose proof (get_total_bounds id d s Hd Hres Hs) as Ht. assert (0 <= skip_of id s) as Hsk by (unfold skip_of; destruct (_ =? _); lia).
  assert (exists a1, (if skip_of id s <? _get_total id s then lift (Allocator.init_add_free (skip_of id s) (_get_total id s -64 skip_of id s) a0) else mret a0) s = Some (a1, s) /\ Allocator.carve_ok a1 /\ Allocator.get_capacity a1 = Device.dev_size d /\ Allocator.carvable a1 = zrange (skip_of id s) (_get_total id s - skip_of id s)) as (a1 & E1 & Hok1 & Hcap1 & Hf1).
  { destruct (Z.ltb_spec (skip_of id s) (_get_total id s)).
    - rewrite u64_small by lia. destruct (Allocator.carve_add a0 (skip_of id s) (_get_total id s - skip_of id s) Hok) as (a1 & -> & Q1 & Q2 & Q3); [lia|lia|lia|rewrite Hemp; apply disjoint_empty_r|]. exists a1. rewrite Q2, Q3, Hemp, union_empty_r_L. done.
    - exists a0. rewrite Hemp, Hcap. split_and!; try done. symmetry. apply set_eq. intros x. rewrite elem_of_zrange. split; [lia|by intros ?%not_elem_of_empty]. }
  rewrite (M_bind_some _ _ _ _ _ E1). eexists. split; [reflexivity|]. split; [|split].
  - eexists _, _, (pending_release (dirty_ s)). rewrite set_pending_id. reflexivity.
  - intros _ _. exists a1. cbn [disk alloc_]. rewrite lookup_insert_eq. split; [done|]. split; [done|]. unfold _get_total, get_block_device_size, skip_of, reserved_of in *. cbn [disk bdev_ block_reserved_] in *. split; [lia|done].
  - intros i Hi. cbn [disk alloc_]. by rewrite lookup_insert_ne.
Qed.

(** What [filled] is about stays. *)
Lemma filled_same id (s s' : fs_t) : space_only s s' -> alloc_ (disk s') !! id = alloc_ (disk s) !! id -> filled id s -> filled id s'.
Proof. intros (al & sh & p & ->) E (a & Ha & Hf). exists a. rewrite E. done. Qed.

Lemma init_alloc_run l : forall s : fs_t, NoDup l -> can_init s -> exists s', each (init_alloc_of create) l s = Some (tt, s') /\ space_only s s' /\
  (forall id, id ∈ l -> is_shared_alloc id s = false -> is_Some (devs s !! id) -> filled id s') /\ forall id, id ∉ l -> alloc_ (disk s') !! id = alloc_ (disk s) !! id.
Proof.
  induction l as [|id l IH]; intros s Hnd Hc; [exists s; split_and!; [done|done|by intros ? ?%not_elem_of_nil|done]|]. apply NoDup_cons in Hnd as [Hid Hnd]. destruct (init_alloc_one id s Hc) as (s1 & E1 & S1 & F1 & K1).
  destruct (IH s1 Hnd) as (s2 & E2 & S2 & F2 & K2); [destruct S1 as (? & ? & ? & ->); exact Hc|]. exists s2. rewrite (each_cons _ _ _ _ _ E1). split; [done|]. split; [by transitivity s1|]. split.
  - intros i [->|Hi]%elem_of_cons Hsh Hd; [apply (filled_same _ s1); [done|by apply K2|by apply F1]|]. destruct S1 as (? & ? & ? & ->). by apply F2.
  - intros i [Hi Hil]%not_elem_of_cons. rewrite K2 by done. by apply K1.
Qed.

Lemma claim_extent_space e (s s' : fs_t) : claim_extent e s = Some (tt, s') -> space_only s s'.
Proof.
  unfold claim_extent. rewrite M_bind_eq. unfold gets. destruct (is_shared_alloc (bdev e) s); [intros [= <-]; eexists _, _, (pending_release (dirty_ s)); rewrite set_pending_id; reflexivity|].
  destruct (alloc_ (disk s) !! bdev e) as [a|]; [|by intros [= <-]]. rewrite M_bind_eq. destruct (Allocator.init_rm_free _ _ a) as [a'|]; [|done]. intros [= <-]. eexists _, _, (pending_release (dirty_ s)); rewrite set_pending_id; reflexivity.
Qed.

Lemma each_space {X} (g : X -> M unit) l : (forall x s s', g x s = Some (tt, s') -> space_only s s') -> forall s s', each g l s = Some (tt, s') -> space_only s s'.
Proof.
  intros Hg. induction l as [|x l IH]; intros s s'; cbn [each]; [by intros [= <-]|]. rewrite M_bind_eq. destruct (g x s) as [[[] s1]|] eqn:E; [|done]. intros E'. transitivity s1; [by apply (Hg x)|by apply IH].
Qed.

Lemma claim_file_space r (s s' : fs_t) : claim_file r s = Some (tt, s') -> space_only s s'.
Proof.
  unfold claim_file. rewrite M_bind_eq. unfold get_file. rewrite M_bind_eq. unfold gets. destruct (heap (nodes_ s) !! r) as [f|]; [|done]. cbn [lift]. rewrite M_bind_eq. destruct (each claim_extent (extents (f_node f)) s) as [[[] s1]|] eqn:E; [|done].
  rewrite (run_selector _ s1 (untracked_add (vselector_hint f) (f_node f))). intros [= <-]. refine (each_space claim_extent _ _ _ _ E). apply claim_extent_space.
Qed.

(** The node of the log as [mount] finds it in the superblock. *)
Lemma mounted_nodes (n : nodes_t) F : dir_map n = ∅ -> file_map n = ∅ -> (forall r f, heap n !! r = Some f -> r < next_ref n) -> ino (f_node F) = 1 -> fields_valid (f_node F) ->
  let n' := mk_nodes (<[next_ref n := F]> (heap n)) (next_ref n + 1) (dir_map n) (<[1 := next_ref n]> (file_map n)) 1 in
  nodes_wf n' /\ view_of n' = view0.
Proof.
  intros Ed Em Hh Hi Hv n'. assert (forall d x, entry n' d x = None) as He by (intros; unfold entry; cbn [n' dir_map]; by rewrite Ed, lookup_empty). split; [constructor|].
  - intros i r. cbn [n' file_map]. rewrite Em, insert_empty, lookup_singleton_Some. intros [<- <-]. exists F. cbn [n' heap]. by rewrite lookup_insert_eq.
  - intros d x r. by rewrite He.
  - intros d1 x1 d2 x2 r. by rewrite He.
  - intros r f. cbn [n' heap next_ref]. destruct (decide (r = next_ref n)) as [->|]; [lia|rewrite lookup_insert_ne by done]. intros E. apply Hh in E. lia.
  - intros i r. cbn [n' file_map ino_last_]. rewrite Em, insert_empty, lookup_singleton_Some. lia.
  - unfold view_of, view0, names. cbn [n' dir_map ino_last_]. by rewrite Ed, fmap_empty.
Qed.

(** ** The space of the files *)

(** The files in the order in which [mount] claims their space. *)
Definition mounted_files (s : fs_t) : list fileref := (map_to_list (file_map (nodes_ s))).*2.
Definition extents_of (n : nodes_t) (r : fileref) : list bluefs_extent_t := match heap n !! r with Some f => extents (f_node f) | None => [] end.
Definition mounted_extents (s : fs_t) : list bluefs_extent_t := mounted_files s ≫= extents_of (nodes_ s).

(** Extents on one device do not overlap. *)
Definition bytes_of (e : bluefs_extent_t) : gset Z := zrange (offset e) (length e).
Fixpoint apart (l : list bluefs_extent_t) : Prop :=
  match l with [] => True | e :: t => Forall (fun e' => bdev e = bdev e' -> bytes_of e ## bytes_of e') t /\ apart t end.

(** The allocators can give away the extents. *)
Definition ready (l : list bluefs_extent_t) (s : fs_t) : Prop := apart l /\
  Forall (fun e => is_shared_alloc (bdev e) s = false -> exists a, alloc_ (disk s) !! bdev e = Some a /\ Allocator.carve_ok a /\
    0 <= offset e /\ 0 < length e /\ offset e + length e <= Allocator.get_capacity a /\ bytes_of e ⊆ Allocator.carvable a) l.

Lemma claim_extent_ready e l (s : fs_t) : ready (e :: l) s -> exists s', claim_extent e s = Some (tt, s') /\ ready l s'.
Proof.
  intros [[Hap Hapl] [He Hl]%Forall_cons]. unfold claim_extent. rewrite M_bind_eq. unfold gets. destruct (is_shared_alloc (bdev e) s) eqn:Esh; [eexists; split; [reflexivity|]; split; [done|exact Hl]|].
  destruct (He eq_refl) as (a & Ha & Hok & Ho & Hn & Hc & Hsub). rewrite Ha, M_bind_eq. destruct (Allocator.carve_rm a (offset e) (length e) Hok Ho Hn Hc Hsub) as (a' & -> & Hok' & Hc' & Hf'). cbn [lift]. eexists. split; [reflexivity|]. split; [done|].
  apply Forall_forall. intros e' He' Hsh. rewrite Forall_forall in Hl, Hap. destruct (Hl e' He' Hsh) as (b & Hb & ? & ? & ? & ? & Hs'). cbn [disk alloc_]. destruct (decide (bdev e = bdev e')) as [E|Hne]; [|exists b; by rewrite lookup_insert_ne].
  rewrite <- E in *. rewrite Ha in Hb. injection Hb as <-. exists a'. rewrite lookup_insert_eq, Hc', Hf'. split_and!; try done. specialize (Hap e' He' E). unfold bytes_of in *. set_solver.
Qed.

Lemma claim_extents_ready l1 l2 : forall s : fs_t, ready (l1 ++ l2) s -> exists s', each claim_extent l1 s = Some (tt, s') /\ ready l2 s'.
Proof.
  induction l1 as [|e l1 IH]; intros s Hr; [by exists s|]. destruct (claim_extent_ready e (l1 ++ l2) s Hr) as (s1 & E1 & R1). rewrite (each_cons _ _ _ _ _ E1). by apply IH.
Qed.

Lemma claim_files_ready l : forall s : fs_t, Forall (fun r => is_Some (heap (nodes_ s) !! r)) l -> ready (l ≫= extents_of (nodes_ s)) s -> exists s', each claim_file l s = Some (tt, s').
Proof.
  induction l as [|r l IH]; intros s Hh Hr; [by exists s|]. apply Forall_cons in Hh as [[f Hf] Hh]. cbn [mbind list_bind] in Hr. unfold extents_of at 1 in Hr. rewrite Hf in Hr. destruct (claim_extents_ready _ _ s Hr) as (s1 & E1 & R1).
  assert (claim_file r s = Some (tt, s1)) as E. { unfold claim_file. rewrite (M_bind_some _ _ _ _ _ (get_file_run _ _ _ Hf)), (M_bind_some _ _ _ _ _ E1). apply (run_selector _ s1 (untracked_add (vselector_hint f) (f_node f))). }
  rewrite (each_cons _ _ _ _ _ E). destruct (claim_file_space _ _ _ E) as (al & sh & p & ->). by apply IH.
Qed.

(** The extents of files lie on the devices, behind what is reserved, and do not
    overlap. *)
Definition placed (s : fs_t) : Prop := apart (mounted_extents s) /\
  Forall (fun e => is_shared_alloc (bdev e) s = false -> bdev e ∈ ids /\ is_Some (devs s !! bdev e) /\ 0 < length e /\ skip_of (bdev e) s <= offset e /\ offset e + length e <= _get_total (bdev e) s) (mounted_extents s).

Lemma placed_ready (s : fs_t) : (forall id, is_Some (devs s !! id) -> 0 <= reserved_of id s) -> (forall id, id ∈ ids -> is_shared_alloc id s = false -> is_Some (devs s !! id) -> filled id s) -> placed s -> ready (mounted_extents s) s.
Proof.
  intros Hres Hf [Hap Hp]. split; [done|]. eapply Forall_impl; [exact Hp|]. cbv beta. intros e He Hsh. destruct (He Hsh) as (Hid & Hd & Hn & Ho & Hc). destruct (Hf _ Hid Hsh Hd) as (a & Ha & Hok & Hcap & Hcv). pose proof (Hres (bdev e) Hd).
  assert (0 <= skip_of (bdev e) s) by (unfold skip_of; destruct (_ =? _); lia). exists a. split_and!; try done; try lia. rewrite Hcv. intros x. unfold bytes_of. rewrite !elem_of_zrange. lia.
Qed.

Definition with_sel (v : V) (s : fs_t) : fs_t := mk_fs (cfg_ s) (disk s) (super_ s) (Some v) (nodes_ s) (log_ s) (dirty_ s).

Lemma ensure_selector_run (s : fs_t) : exists v, ensure_selector new_selector s = Some (tt, with_sel v s).
Proof.
  unfold ensure_selector. rewrite M_bind_eq. unfold gets. destruct (vselector_ s) as [v|] eqn:Ev; [exists v; destruct s; cbn in *; by subst|by eexists].
Qed.

(** What is left of [mount] once the space of the files was claimed. *)
Lemma mount_end gss r f (s : fs_t) :
  nodes_wf (nodes_ s) -> view_of (nodes_ s) = changes (concat gss) view0 -> file_map (nodes_ s) !! 1 = Some r -> readable r f (log_bytes (s_uuid (super_ s)) 1 gss) s ->
  op_bl (log_txn (log_ s)) = [] -> log_valid (s_uuid (super_ s)) gss view0 -> gss <> [] -> seq_live (log_ s) = zlen gss + 1 -> dirty_files (dirty_ s) = ∅ -> is_Some (vselector_ s) ->
  foldl push [] (extents (f_node f)) = extents (f_node f) -> uuid_valid (osd_uuid (super_ s)) -> super_device (devs s) ->
  exists s2, (r1 ← _get_file 1; h ← _create_writer r1; f ← get_file r; in_log (set_writer (Some (with_pos (BluefsTypes.size (f_node f)) h)));; put_file r (with_node (reset_delta (f_node f)) f);; mret 0) s = Some (0, s2) /\ log_inv gss [] s2.
Proof.
  intros Hw Hv Hr Hrd Ht Hlv Hne Hq Hd Hsel Hm Ho Hsd. pose proof Hrd as [Hf Hlf HL Hsz Hall Hbs]. destruct (w_files _ Hw 1 _ Hr) as (f1 & Ef1 & Hino & Hfv). rewrite Hf in Ef1. injection Ef1 as <-.
  assert (view_ok (view_of (nodes_ s))) as Hvok by (rewrite Hv; apply view_ok_changes; [apply view0_ok|apply Hlv]).
  assert (forall d x, entry (nodes_ s) d x <> Some r) as Hno. { intros d x Ee. destruct (log_unnamed _ d x r r Hw Hvok Ee Hr) as [Hn _]. done. }
  destruct (unnamed_shape (nodes_ s) r f (with_node (reset_delta (f_node f)) f) Hw Hno Hf eq_refl Hfv) as [Hw1 Hv1].
  rewrite (M_bind_some _ _ _ _ _ (get_file_known _ _ _ Hr)). unfold _create_writer. rewrite M_bind_eq, (M_bind_some _ _ _ _ _ (get_file_run _ _ _ Hf)). cbn [mret M_ret]. rewrite (M_bind_some _ _ _ _ _ (get_file_run _ _ _ Hf)), M_bind_eq. unfold in_log, modify. cbv beta iota. rewrite M_bind_eq, put_file_run.
  eexists. split; [reflexivity|]. constructor; try done.
  - refine (eq_trans Hv1 _). by rewrite app_nil_r.
  - intros q _. cbn [dirty_ with_nodes]. rewrite Hd. apply lookup_empty.
  - eexists _, (with_node (reset_delta (f_node f)) f). constructor; [reflexivity|exact Hr| |exact Hsz|exact Hm]. constructor; [apply lookup_insert_eq| |exact HL|exact Hsz|exact Hall|exact Hbs].
    apply (log_file_extents _ (f_node f)); [by destruct (lf_wf _ _ Hlf)|done|exact Hlf].
Qed.

(** [mount] up to the replay of the log. *)
Definition found : M Z :=
  e ← _open_super;
  if e <? 0 then mret e
  else
    ensure_selector new_selector;;
    _init_alloc create;;
    v ← the_selector;
    s ← gets (fun s => s);
    r ← make_file (with_hint (get_hint_for_log v) (with_node (log_fnode (super_ s)) (new_file 1)));
    in_nodes (fun n => set_ino_last 1 (set_file_map (<[1 := r]> (file_map n)) n));;
    _replay.

Lemma mount_run gss m (s0 : fs_t) :
  mountable gss m -> unmounted m s0 ->
  exists s1, found s0 = Some (0, s1) /\ view_of (nodes_ s1) = changes (concat gss) view0 /\ (placed s1 -> is_Some (each claim_file (mounted_files s1) s1)) /\
    match each claim_file (mounted_files s1) s1 with
    | Some _ => exists s2, mount create new_selector s0 = Some (0, s2) /\ log_inv gss [] s2
    | None => mount create new_selector s0 = None
    end.
Proof.
  intros (u & Hsd & Hon & Hsv & Hfit & Hbs & Ei & Hlv & Hne & Hlf & Hm & HL & Esz & Hall) [Em Ed Ef Hh Ht Hd Hi]. pose proof Hsv as (_ & Ho & _ & _ & Hfv & _). set (L := log_bytes (s_uuid u) 1 gss) in *. rewrite <- Em in Hsd, Hon, Hlf, HL.
  set (sA := with_super (read_super u) s0). destruct (ensure_selector_run sA) as [v Ev]. set (sB := with_sel v sA) in Ev. destruct (init_alloc_run ids sB ids_nodup Hi) as (sC & EC & (al & sh & p & EsC) & HfC & _).
  set (r := next_ref (nodes_ s0)). set (F := with_hint (get_hint_for_log v) (with_node (log_fnode (read_super u)) (new_file 1))).
  assert (ino (f_node F) = 1) as EiF by (refine (eq_trans (recalc_ino _) Ei)). destruct (mounted_nodes (nodes_ s0) F Ed Ef Hh EiF Hfv) as [Hw0 Hv0]. set (n0 := mk_nodes _ _ _ _ 1) in Hw0, Hv0. set (sD := with_nodes n0 sC).
  assert (extents (f_node F) = extents (log_fnode u)) as EeF by apply recalc_extents. assert (BluefsTypes.size (f_node F) = zlen L) as EsF by (rewrite <- Esz; cbn [F f_node with_hint with_node read_super log_fnode]; unfold recalc_allocated; by destruct (recalc _)).
  pose proof (lf_wf _ _ Hlf : fnode_wf (f_node F)) as HwF. assert (devs sD = devs s0) as EdD by (subst sD; by rewrite EsC). assert (super_ sD = read_super u) as EsD by (subst sD; by rewrite EsC).
  assert (readable r F L sD) as HrdD.
  { constructor; rewrite ?EdD, ?EeF, ?EsD; [apply lookup_insert_eq|exact Hlf|done|done|rewrite (f_allocated _ HwF), EeF; done|exact Hbs]. }
  assert (s_uuid (super_ sD) = s_uuid u) as EuD by (by rewrite EsD). rewrite <- EuD in Hlv. assert (L = log_bytes (s_uuid (super_ sD)) 1 gss) as EL by (by rewrite EuD). rewrite EL in HrdD.
  destruct (replay_run r F (s_uuid (super_ sD)) gss view0 sD HrdD eq_refl Hlv Hne Hw0 Hv0 ltac:(apply lookup_insert_eq)) as (n & En & Hwn & Hvn & Hrn & Hfn). set (sE := replayed n (zlen gss) sD) in En.
  assert (found s0 = Some (0, sE)) as Efound.
  { unfold found. rewrite (M_bind_some _ _ _ _ _ (open_super_run s0 u Hsd Hon Hsv Hfit)). change (0 <? 0) with false. cbv beta iota. rewrite (M_bind_some _ _ _ _ _ Ev). unfold _init_alloc. rewrite (M_bind_some _ _ _ _ _ EC).
    assert (the_selector sC = Some (v, sC)) as Ec by (unfold the_selector; rewrite M_bind_eq; unfold gets; by rewrite EsC). rewrite (M_bind_some _ _ _ _ _ Ec), M_bind_eq. unfold gets at 1. cbv beta iota. unfold make_file. rewrite M_bind_eq, M_bind_eq. unfold gets at 1. cbv beta iota. rewrite M_bind_eq, in_nodes_run. cbn [mret M_ret]. rewrite M_bind_eq, in_nodes_run.
    assert (next_ref (nodes_ sC) = r) as Er by (by rewrite EsC). rewrite Er. assert (log_fnode (super_ sC) = log_fnode (read_super u)) as Efn by (by rewrite EsC). rewrite Efn. fold F.
    match goal with |- _replay ?x = _ => assert (x = sD) as -> by (subst sD; rewrite EsC; reflexivity) end. exact En. }
  assert (placed sE -> is_Some (each claim_file (mounted_files sE) sE)) as Hplaced.
  { intros Hp. destruct (claim_files_ready (mounted_files sE) sE) as (sF & ->); [| |done].
    - apply Forall_forall. intros q Hin. apply list_elem_of_fmap in Hin as ([i q'] & -> & Hq). apply elem_of_map_to_list in Hq. destruct (w_files _ Hwn i q' Hq) as (f & Hf' & _). by exists f.
    - apply placed_ready; [| |done].
      + intros id [d Hdv]. change (reserved_of id sE) with (reserved_of id sC). change (devs sE) with (devs sC) in Hdv. rewrite EsC in Hdv |- *. by destruct (Hi id d Hdv) as (_ & _ & _ & ?).
      + intros id Hid Hsh Hdv. change (filled id sC). change (is_shared_alloc id sC = false) in Hsh. change (is_Some (devs sC !! id)) in Hdv. apply HfC; [done|..]; [rewrite EsC in Hsh; exact Hsh|rewrite EsC in Hdv; exact Hdv]. }
  exists sE. split; [exact Efound|]. split; [done|]. split; [exact Hplaced|].
  assert (mount create new_selector s0 = (each claim_file (mounted_files sE);; r1 ← _get_file 1; h ← _create_writer r1; f ← get_file r; in_log (set_writer (Some (with_pos (BluefsTypes.size (f_node f)) h)));; put_file r (with_node (reset_delta (f_node f)) f);; mret 0) sE) as ->.
  { unfold mount. rewrite (M_bind_some _ _ _ _ _ (open_super_run s0 u Hsd Hon Hsv Hfit)). change (0 <? 0) with false. cbv beta iota. rewrite (M_bind_some _ _ _ _ _ Ev). unfold _init_alloc. rewrite (M_bind_some _ _ _ _ _ EC).
    assert (the_selector sC = Some (v, sC)) as Ec by (unfold the_selector; rewrite M_bind_eq; unfold gets; by rewrite EsC). rewrite (M_bind_some _ _ _ _ _ Ec), M_bind_eq. unfold gets at 1. cbv beta iota. unfold make_file. rewrite M_bind_eq, M_bind_eq. unfold gets at 1. cbv beta iota. rewrite M_bind_eq, in_nodes_run. cbn [mret M_ret]. rewrite M_bind_eq, in_nodes_run.
    assert (next_ref (nodes_ sC) = r) as Er by (by rewrite EsC). rewrite Er. assert (log_fnode (super_ sC) = log_fnode (read_super u)) as Efn by (by rewrite EsC). rewrite Efn. fold F.
    match goal with |- (_ ≫= _) ?x = _ => assert (x = sD) as -> by (subst sD; rewrite EsC; reflexivity) end. rewrite (M_bind_some _ _ _ _ _ En). change (0 <? 0) with false. cbv beta iota. rewrite M_bind_eq. unfold gets at 1. done. }
  rewrite M_bind_eq. destruct (each claim_file (mounted_files sE) sE) as [[[] sF]|] eqn:EF; [|done].
  destruct (each_space claim_file _ claim_file_space _ _ EF) as (al' & sh' & p' & EsF').
  subst sF. apply (mount_end gss r (with_node (set_size (zlen (log_bytes (s_uuid (super_ sD)) 1 gss)) (f_node F)) F)); try done.
  - rewrite <- EL. destruct HrdD as [_ ? ? ? ? ?]. cbn [super_ sE replayed]. rewrite <- EL in *. constructor; try done. apply (log_file_extents _ (f_node F)); [by apply set_size_wf|done|done].
  - cbn. subst sD. rewrite EsC. exact Ht.
  - cbn. subst sD. rewrite EsC. exact Hd.
  - cbn. subst sD. by rewrite EsC.
  - cbn [f_node with_node set_size extents]. by rewrite EeF.
  - cbn [super_ sE replayed]. rewrite EsD. exact Ho.
  - cbn [disk sE replayed]. change (super_device (devs sD)). by rewrite EdD.
Qed.

(** The log is replayed to the names of [v]; if the files found have their space to
    themselves, [mount] ends with 0 and these names. *)
Definition mounts (s0 : fs_t) (v : view) : Prop := exists sm, found s0 = Some (0, sm) /\ view_of (nodes_ sm) = v /\
  (placed sm -> exists s, mount create new_selector s0 = Some (0, s) /\ view_of (nodes_ s) = v).

Lemma mounts_run gss m (s0 : fs_t) : mountable gss m -> unmounted m s0 -> mounts s0 (changes (concat gss) view0).
Proof.
  intros Hm Hs. destruct (mount_run gss m s0 Hm Hs) as (sm & Ef & Hv & Hp & Hc). exists sm. split; [done|]. split; [done|]. intros [x Hx]%Hp. rewrite Hx in Hc. destruct Hc as (s & E & HI). exists s. split; [done|]. by rewrite (i_view _ _ _ HI), app_nil_r.
Qed.

Lemma mounted_inv gss m (s0 s : fs_t) : mountable gss m -> unmounted m s0 -> mount create new_selector s0 = Some (0, s) -> log_inv gss [] s /\ view_of (nodes_ s) = changes (concat gss) view0.
Proof.
  intros Hm Hs E. destruct (mount_run gss m s0 Hm Hs) as (sm & _ & _ & _ & Hc). destruct (each claim_file (mounted_files sm) sm); [|congruence]. destruct Hc as (s' & E' & HI). rewrite E in E'. injection E' as <-. split; [done|]. by rewrite (i_view _ _ _ HI), app_nil_r.
Qed.

End Durable.
End BlueFSDurable.
