(* ===== verification/BlueFSDemo.v ===== *)
(** * A file system in memory

    BlueFS on one device of 16 MiB with the AVL allocator: it is made, mounted,
    used, synced and mounted again.  The runs are evaluated; they show that the
    hypotheses of the theorems can be met. *)
From stdpp Require Import base numbers list gmap.
From Stdlib Require Import ZArith Lia ZifyBool SpecFloat.
From S2P Require Import Prelude Floats IntArith Allocator Device AvlAllocator AvlSpec Denc DencSpec BluefsTypes BluefsTypesSpec VolumeSelector BlueFS BlueFSOps BlueFSNodes BlueFSLive BlueFSLog BlueFSReplay BlueFSSync BlueFSDurable.
Import Denc DencSpec BluefsTypes BluefsTypesSpec VolumeSelector BlueFS BlueFSOps BlueFSNodes BlueFSLive BlueFSLog BlueFSReplay BlueFSSync BlueFSDurable.

Module BlueFSDemo.
Abbreviation dev := Device.ramdisk.
Abbreviation avl := (Avl.AvlAllocator unit).
#[local] Instance demo_allocator : Allocator.Allocator avl := AvlSpec.avl_allocator 0.
Abbreviation FS := (bluefs (D := dev) (A := avl) (V := original_selector)).

Definition demo_create (size bs : Z) : avl := Avl.create 80 size bs 0 tt.
Definition demo_fs (c : BlueFSConfig) (m : gmap Z dev) : FS :=
  mk_fs c (mk_disk m ∅ ∅ ∅ None None) super_new None (mk_nodes ∅ 0 ∅ ∅ 0) (mk_log 1 None txn_new false) (mk_dirty 0 1 ∅ ∅).
Definition demo_id : bytes := replicate 16 7.
Definition demo_disk : dev := Device.mk_ram ∅ 16777216 4096.

(** The state of a run that succeeds. *)
Definition state_of {X} (c : BlueFSConfig) (o : option (X * FS)) : FS := match o with Some (_, s) => s | None => demo_fs c ∅ end.

Definition demo_made (c : BlueFSConfig) : option (Z * FS) := mkfs demo_create mk_original 1048576 demo_id (demo_fs c {[1 := demo_disk]}).
Definition demo_mounted (c : BlueFSConfig) : option (Z * FS) := mount demo_create mk_original (demo_fs c (bdev_ (disk (state_of c (demo_made c))))).

Definition cfg0 : BlueFSConfig := default_config.
Definition made : FS := state_of cfg0 (demo_made cfg0).
Definition made_devs : gmap Z dev := bdev_ (disk made).
Definition fresh : FS := demo_fs cfg0 made_devs.
Definition mounted : FS := state_of cfg0 (demo_mounted cfg0).

(** The superblock that [mkfs] wrote. *)
Definition demo_super : bluefs_super_t := mk_super demo_id (replicate 16 0) 1 4096 (mk_fnode 1 4096 0 0 [mk_extent 1048576 4194304 1] [0] 4194304 4194304).

(** A list of bytes that was read is what the bytes are. *)
Lemma range_bytes (g : Z -> Z) off n b : Device.image_range g off n = b -> forall x, 0 <= x < Z.of_nat n -> g (off + x) = nth (Z.to_nat x) b 0.
Proof. intros <- x Hx. symmetry. apply nth_lookup_Some. rewrite Device.lookup_image_range by lia. do 2 f_equal. lia. Qed.

Lemma one_extent e : 0 < length e -> one_to_one [e].
Proof. intros He x y p Hx Hy. cbn [phys]. destruct (x <? length e), (y <? length e); try done. intros [= <-] [= ?]. lia. Qed.

(** Only the device of the database is there. *)
Definition only_db (m : gmap Z dev) : bool := bool_decide (map_Forall (fun id d => id = BDEV_DB /\ Device.ram_block d = 4096 /\ Device.ram_size d = 16777216) m) && bool_decide (is_Some (m !! BDEV_DB)).

Lemma only_db_spec m : only_db m = true -> (exists d, m !! BDEV_DB = Some d /\ Device.ram_block d = 4096 /\ Device.ram_size d = 16777216) /\ forall id d, m !! id = Some d -> id = BDEV_DB /\ Device.ram_size d = 16777216.
Proof.
  intros [Hf [d Hd]%bool_decide_eq_true]%andb_true_iff. apply bool_decide_eq_true in Hf. split; [exists d; split; [done|]; by destruct (Hf _ _ Hd)|]. intros id e He. by destruct (Hf _ _ He) as (? & _ & ?).
Qed.

Lemma made_only_db : only_db made_devs = true.
Proof. vm_compute. reflexivity. Qed.

(** The first log: one extent whose first block holds the first transaction. *)
Definition demo_log : list bluefs_extent_t := [mk_extent 1048576 4194304 1].

Lemma mountable_by (m : gmap Z dev) : only_db m = true ->
  Device.image_range (fun o => byte_at m (BDEV_DB, o)) 4096 4096 = super_block demo_super ->
  Device.image_range (file_byte m demo_log) 0 4096 = log_bytes demo_id 1 [[GInit]] -> mountable [[GInit]] m.
Proof.
  intros Ho Hu HL. destruct (only_db_spec _ Ho) as [(d & Hd & Hb & Hs) _]. assert (zlen (log_bytes demo_id 1 [[GInit]]) = 4096) as El by (rewrite <- HL, Device.length_image_range; reflexivity).
  exists demo_super. cbv zeta. change (s_uuid demo_super) with demo_id. change (extents (log_fnode demo_super)) with demo_log. set (L := log_bytes demo_id 1 [[GInit]]) in *.
  assert (Forall extent_valid demo_log) as Hx by (by repeat constructor). assert (Forall extent_ok demo_log) as Hxo by (by repeat constructor).
  assert (Forall (usable m) demo_log) as Hus.
  { apply Forall_singleton. split; [by repeat constructor|]. split; [done|]. split; [done|]. split; [done|]. exists d. split; [exact Hd|]. split; [exact Hb|]. cbn. rewrite Hs. done. }
  split; [exists d; split; [exact Hd|]; split; [exact Hb|]; cbn; rewrite Hs; done|].
  split; [intros x Hxr; exact (range_bytes (fun o => byte_at m (BDEV_DB, o)) 4096 4096 _ Hu x Hxr)|].
  split; [repeat (split; [by repeat constructor|]); done|].
  split; [apply Z.leb_le; vm_compute; reflexivity|]. split; [done|]. split; [done|].
  split; [constructor; [split; [done|by repeat constructor]|apply view0_ok|by repeat constructor|apply Forall_singleton; vm_compute; reflexivity|done]|].
  split; [done|]. split; [constructor; [by apply recalc_wf|exact Hus|apply one_extent; done]|]. split; [done|].
  split; [intros x Hxr; rewrite El in Hxr; exact (range_bytes (file_byte m demo_log) 0 4096 _ HL x Hxr)|].
  clearbody L. rewrite El. split; [reflexivity|]. apply Z.leb_le. reflexivity.
Qed.

Lemma demo_mountable : mountable [[GInit]] made_devs.
Proof. apply mountable_by; vm_compute; reflexivity. Qed.

(** A new object over devices like these is unmounted. *)
Lemma demo_unmounted c m : only_db m = true -> unmounted demo_create m (demo_fs c m).
Proof.
  intros Ho. destruct (only_db_spec _ Ho) as [_ Hall]. constructor; try reflexivity.
  - intros r f. cbn [demo_fs nodes_ heap]. by rewrite lookup_empty.
  - intros id e He. cbn [demo_fs disk bdev_] in He. destruct (Hall id e He) as [-> Hes]. cbv zeta. change (Device.dev_size e) with (Device.ram_size e). rewrite Hes. split_and!; [by apply AvlSpec.avl_create_carve|reflexivity|reflexivity|done].
Qed.

Lemma demo_mounts : mount demo_create mk_original fresh = Some (0, mounted).
Proof.
  unfold fresh, made_devs, made. fold (demo_mounted cfg0). unfold mounted. assert (fst <$> demo_mounted cfg0 = Some 0) as E by (vm_compute; reflexivity). revert E. generalize (demo_mounted cfg0). intros [[r s]|]; [|done]. by intros [= ->].
Qed.

(** The premises of a sync, as a check that can be run. *)
Definition can_sync (s : FS) : bool :=
  match writer (log_ s) with
  | Some h =>
      match heap (nodes_ s) !! w_file h with
      | Some f => (0 <=? min_log_runway (cfg_ s)) && (w_pos h + bound_encode denc_transaction (log_txn (log_ s)) + min_log_runway (cfg_ s) <? allocated (f_node f)) && (zlen (op_bl (log_txn (log_ s))) <? 2 ^ 31) && (zlen (extents (f_node f)) <=? 190)
      | None => false
      end
  | None => false
  end &&
  forallb (fun id => match alloc_ (disk s) !! id with Some a => bool_decide (is_Some (Allocator.release_vec ((fun x => Allocator.pextent x.1 x.2) <$> default [] (pending_release (dirty_ s) !! id)) a)) | None => true end) ids.

Lemma can_sync_spec s : can_sync s = true -> room s /\ few_extents s /\ forall id, id ∈ ids -> releasable id s.
Proof.
  intros [Hr Hl]%andb_true_iff. split_and!.
  - intros h f Eh Ef. rewrite Eh, Ef in Hr. lia.
  - intros h f Eh Ef. rewrite Eh, Ef in Hr. lia.
  - intros id Hid a Ha. rewrite forallb_forall in Hl. specialize (Hl id). rewrite <- list_elem_of_In, Ha in Hl. exact (proj1 (bool_decide_eq_true _) (Hl Hid)).
Qed.

(** Directories, files, a rename, a removal and two calls that fail. *)
Definition demo_cmds : list cmd :=
  [Mkdir [97]; Mkdir [98]; Open [97] [120] false 5; Open [97] [121] false 6; Rename [97] [120] [98] [122]; Unlink [97] [121]; Mkdir [97]; Rmdir [98]].

Definition demo_results : list Z := [0; 0; 0; 0; 0; 0; - EEXIST; - ENOTEMPTY].

Lemma demo_can_sync : (fun x => can_sync x.2) <$> run_all demo_cmds mounted = Some true.
Proof. vm_compute. reflexivity. Qed.

Lemma demo_cmds_ok : Forall cmd_ok demo_cmds.
Proof. by repeat constructor. Qed.

(** The extents of the files that are found, as a check that can be run. *)
Definition apartb (l : list bluefs_extent_t) : bool :=
  (fix go l := match l with [] => true | e :: t => forallb (fun e' => negb (bdev e =? bdev e') || (offset e + length e <=? offset e') || (offset e' + length e' <=? offset e)) t && go t end) l.
Definition placedb (s : FS) : bool := apartb (mounted_extents s) &&
  forallb (fun e => is_shared_alloc (bdev e) s || bool_decide (bdev e ∈ ids) && bool_decide (is_Some (bdev_ (disk s) !! bdev e)) && (0 <? length e) && (skip_of (bdev e) s <=? offset e) && (offset e + length e <=? _get_total (bdev e) s)) (mounted_extents s).

Lemma placedb_spec s : placedb s = true -> placed s.
Proof.
  intros [Ha Hf]%andb_true_iff. split.
  - induction (mounted_extents s) as [|e l IH]; [done|]. cbn in Ha. apply andb_true_iff in Ha as [He Ha]. cbn [forallb] in Hf. apply andb_true_iff in Hf as [_ Hf]. split; [|by apply IH]. apply Forall_forall. intros e' He' E. rewrite forallb_forall in He. specialize (He e'). rewrite <- list_elem_of_In in He. specialize (He He').
    unfold bytes_of. intros x. rewrite !elem_of_zrange. lia.
  - apply Forall_forall. intros e He Hsh. rewrite forallb_forall in Hf. specialize (Hf e). rewrite <- list_elem_of_In in Hf. specialize (Hf He). rewrite Hsh in Hf. cbn [orb] in Hf. rewrite !andb_true_iff in Hf. destruct Hf as ((((H1 & H2) & H3) & H4) & H5). apply bool_decide_eq_true in H1, H2. split_and!; try done; lia.
Qed.

Lemma demo_again_ok : (x ← run_all demo_cmds mounted; s2 ← sync_metadata 100 50 false x.2; sm ← found demo_create mk_original (demo_fs cfg0 (bdev_ (disk s2.2))); Some (placedb sm.2)) = Some true.
Proof. vm_compute. reflexivity. Qed.

Lemma demo_devs_ok : (s ← run_all demo_cmds mounted; s2 ← sync_metadata 100 50 false s.2; Some (only_db (bdev_ (disk s2.2)))) = Some true.
Proof. vm_compute. reflexivity. Qed.

Lemma demo_left r s1 s2 : run_all demo_cmds mounted = Some (r, s1) -> sync_metadata 100 50 false s1 = Some (0, s2) ->
  only_db (bdev_ (disk s2)) = true /\ forall e sm, found demo_create mk_original (demo_fs cfg0 (bdev_ (disk s2))) = Some (e, sm) -> placed sm.
Proof.
  intros E1 E2. pose proof demo_devs_ok as Ho. rewrite E1 in Ho. cbn [mbind option_bind snd] in Ho. rewrite E2 in Ho. cbn [mbind option_bind snd] in Ho. injection Ho as Ho. split; [exact Ho|].
  intros e sm E3. pose proof demo_again_ok as H. rewrite E1 in H. cbn [mbind option_bind snd] in H. rewrite E2 in H. cbn [mbind option_bind snd] in H. rewrite E3 in H. injection H as H. by apply placedb_spec.
Qed.

End BlueFSDemo.
