(* ===== verification/BlueFSFindings.v ===== *)
(** * What BlueFS does not do

    Behaviour of the file system that its design does not intend: a compaction
    that never compacts, a rename that loses a name, an [fsync] whose metadata
    a crash undoes, a log that cannot be replayed once it was extended, and an
    assertion that a tracking selector fails. *)
From stdpp Require Import base numbers list gmap.
From Stdlib Require Import ZArith Lia ZifyBool SpecFloat.
From S2P Require Import Prelude Floats IntArith Allocator Device AvlAllocator AvlSpec Denc DencSpec BluefsTypes BluefsTypesSpec VolumeSelector BlueFS BlueFSOps BlueFSNodes BlueFSLive BlueFSLog BlueFSReplay BlueFSSync BlueFSDurable BlueFSDemo.
Import Floats Denc BluefsTypes VolumeSelector BlueFS BlueFSOps BlueFSNodes BlueFSLive BlueFSDurable BlueFSDemo.

Module BlueFSFindings.
#[local] Existing Instance demo_allocator.

(** ** For every file system *)
Section Any.
Context {D A V : Type} `{!Device.BlockDevice D} `{!Allocator.Allocator A} `{!VolumeSelector V}.

(** [compact_log] succeeds without doing anything, in every state: it sets
    the flag that a compaction runs and then asks [_should_compact], which says
    no while the flag is set. *)
Theorem compact_log_does_nothing sizeof_fnode sizeof_delta (s : bluefs (D := D) (A := A) (V := V)) : compact_log sizeof_fnode sizeof_delta s = Some (0, s).
Proof. exact (compact_nothing sizeof_fnode sizeof_delta s). Qed.

(** A file that is renamed to its own name is lost: [rename] succeeds, no
    entry has the name any more, and replaying what it logged agrees. *)
Theorem rename_to_itself_loses_name d x r f (s : bluefs (D := D) (A := A) (V := V)) :
  entry (nodes_ s) d x = Some r -> heap (nodes_ s) !! r = Some f ->
  exists s', rename d x d x s = Some (0, s') /\ entry (nodes_ s') d x = None /\
    log_txn (log_ s') = op_dir_unlink d x (op_dir_link d x (ino (f_node f)) (log_txn (log_ s))).
Proof.
  unfold entry. intros He Hf. destruct (dir_map (nodes_ s) !! d) as [m|] eqn:Hd; [|done]. cbn [mbind option_bind] in He.
  unfold rename. rewrite M_bind_eq. unfold find_file, gets. rewrite Hd. cbn [mbind option_bind]. rewrite He, M_bind_eq. unfold find_dir, gets. rewrite Hd, He, Z.eqb_refl.
  rewrite M_bind_eq. cbn [negb mret M_ret]. unfold set_entry, erase_entry. rewrite M_bind_eq, in_nodes_run, M_bind_eq, in_nodes_run.
  match goal with |- context [(get_file r ≫= _) ?t] => rewrite (M_bind_some _ _ _ _ _ (get_file_run r f t Hf)) end. eexists. split; [reflexivity|]. split; [|done].
  cbn -[alter]. rewrite lookup_alter_eq, lookup_alter_eq, Hd. cbn [fmap option_fmap option_map mbind option_bind]. apply lookup_delete_eq.
Qed.
End Any.

(** A file [a/x]. *)
Definition one_file : list cmd := [Mkdir [97]; Open [97] [120] false 5].

Lemma rename_to_itself_loses_name_witness : exists s s', run_all one_file mounted = Some ([0; 0], s) /\ rename [97] [120] [97] [120] s = Some (0, s') /\ entry (nodes_ s') [97] [120] = None.
Proof.
  assert ((fun x => (x.1, entry (nodes_ x.2) [97] [120], bool_decide (is_Some (heap (nodes_ x.2) !! 1)))) <$> run_all one_file mounted = Some ([0; 0], Some 1, true)) as E by (vm_compute; reflexivity).
  destruct (run_all one_file mounted) as [[rs s]|]; [|done]. injection E as -> Ee Eh. apply bool_decide_eq_true in Eh as [f Hf]. destruct (rename_to_itself_loses_name [97] [120] 1 f s Ee Hf) as (s' & E & El & _). by exists s, s'.
Defined.

(** ** On the example disk *)

(** The block size of the device, and the file system after a crash. *)
Definition block_of (d : dev) : Z := Device.ram_block d.
Definition crashed (c : BlueFSConfig) (s : FS) : FS := demo_fs c (bdev_ (disk s)).

(** A file of ten bytes that is written and synced. *)
Definition write_and_fsync : M (D := dev) (A := avl) (V := original_selector) (list Z) :=
  a ← mkdir [97];
  '(b, h) ← open_for_write [97] [120] false 5;
  h ← lift h;
  '(c, h) ← append_try_flush block_of h (replicate 10 65);
  '(e, _) ← fsync block_of h;
  mret [a; b; c; e].

(** A crash undoes [fsync].  The log is written, but the size of the log in
    the superblock, up to which [mount] replays it, is only written by
    [sync_metadata] and [umount]: the file system mounts and the file, its
    directory and its data are gone. *)
Theorem fsynced_file_lost : exists s s',
  write_and_fsync mounted = Some ([0; 0; 0; 0], s) /\ is_Some (entry (nodes_ s) [97] [120]) /\
  mount demo_create mk_original (crashed cfg0 s) = Some (0, s') /\ dir_map (nodes_ s') = ∅.
Proof.
  assert ((x ← write_and_fsync mounted; y ← mount demo_create mk_original (crashed cfg0 x.2); Some (x.1, bool_decide (is_Some (entry (nodes_ x.2) [97] [120])), y.1, bool_decide (dir_map (nodes_ y.2) = ∅))) = Some ([0; 0; 0; 0], true, 0, true)) as E by (vm_compute; reflexivity).
  destruct (write_and_fsync mounted) as [[rs s]|]; [|done]. cbn [mbind option_bind snd fst] in E. destruct (mount demo_create mk_original (crashed cfg0 s)) as [[r s']|] eqn:Em; [|done]. cbn [mbind option_bind snd fst] in E.
  injection E as -> Hs -> Hd. exists s, s'. split; [done|]. split; [by apply bool_decide_eq_true in Hs|]. split; [exact Em|]. by apply bool_decide_eq_true in Hd.
Qed.

(** A runway as long as the first log. *)
Definition long_runway : BlueFSConfig := mk_config 1048576 4194304 4194304 524288 false 16777216 (to_double 2) 1048576.
Definition mounted_long : FS := state_of long_runway (demo_mounted long_runway).

(** A log that was extended cannot be replayed.  The sync logs the new
    extent of the log in the log, and stores the node that has it already in
    the superblock; the replay then finds a delta that does not start where the
    node ends, and the assertion in [mount] fails. *)
Theorem extended_log_unmountable : exists s1 s2,
  mkdir [97] mounted_long = Some (0, s1) /\ sync_metadata 100 50 false s1 = Some (0, s2) /\
  mount demo_create mk_original (crashed long_runway s2) = None.
Proof.
  assert ((x ← mkdir [97] mounted_long; y ← sync_metadata 100 50 false x.2; Some (x.1, y.1, bool_decide (is_Some (mount demo_create mk_original (crashed long_runway y.2))))) = Some (0, 0, false)) as E by (vm_compute; reflexivity).
  destruct (mkdir [97] mounted_long) as [[r s1]|]; [|done]. cbn [mbind option_bind snd fst] in E. destruct (sync_metadata 100 50 false s1) as [[r2 s2]|] eqn:E2; [|done]. cbn [mbind option_bind snd fst] in E. injection E as -> -> Hm. exists s1, s2. split; [done|]. split; [exact E2|].
  apply bool_decide_eq_false in Hm. by apply eq_None_not_Some.
Qed.

(** The same disk with the selector that tracks the usage of levels. *)
Abbreviation TFS := (bluefs (D := dev) (A := avl) (V := rocksdb_selector)).
Definition tracked_fs (m : gmap Z dev) : TFS :=
  mk_fs cfg0 (mk_disk m ∅ ∅ ∅ None None) super_new None (mk_nodes ∅ 0 ∅ ∅ 0) (mk_log 1 None txn_new false) (mk_dirty 0 1 ∅ ∅).
Definition new_tracked (wal db slow : Z) : rocksdb_selector := mk_rocksdb ∅ ∅ ∅ (totals wal db slow) 0 0 0 0.
Definition tracked_mount : option (Z * TFS) := mount demo_create new_tracked (tracked_fs made_devs).

(** With the tracking selector a new file cannot be removed.  A file that
    [open_for_write] creates is never added to the selector, but [unlink] takes
    it back: an assertion fails. *)
Theorem tracked_unlink_asserts : exists s1 s2,
  tracked_mount = Some (0, s1) /\ run_all one_file s1 = Some ([0; 0], s2) /\ unlink [97] [120] s2 = None.
Proof.
  assert ((x ← tracked_mount; y ← run_all one_file x.2; Some (x.1, y.1, bool_decide (is_Some (unlink [97] [120] y.2)))) = Some (0, [0; 0], false)) as E by (vm_compute; reflexivity).
  destruct tracked_mount as [[r s1]|]; [|done]. cbn [mbind option_bind snd fst] in E. destruct (run_all one_file s1) as [[rs s2]|] eqn:E2; [|done]. cbn [mbind option_bind snd fst] in E. injection E as -> -> Hm. exists s1, s2. split; [done|]. split; [exact E2|].
  apply bool_decide_eq_false in Hm. by apply eq_None_not_Some.
Qed.
End BlueFSFindings.
