(* ===== verification/Armor.v ===== *)
(** * common/armor.{h,cc}: base64

    Text for bytes, with line breaks, into a buffer of a fixed size; and back.
    The destination is the text written so far and the room [cap] of the buffer;
    running out of room ends the function with [-ERANGE].  The counters are of type
    [int]: an addition that leaves its range is undefined, [None]. *)
From stdpp Require Import base numbers list.
From Stdlib Require Import ZArith Lia ZifyBool.
From S2P Require Import Prelude.

Module Armor.
Local Open Scope Z_scope.

Definition ERANGE : Z := 34.
Definition EINVAL : Z := 22.
Abbreviation zlen l := (Z.of_nat (List.length l)).

Definition pem_key : list Z := seqZ 65 26 ++ seqZ 97 26 ++ seqZ 48 10 ++ [43; 47].

Definition encode_bits (c : Z) : Z := nth (Z.to_nat c) pem_key 0.

Definition decode_bits (c : Z) : Z :=
  if (65 <=? c) && (c <=? 90) then c - 65
  else if (97 <=? c) && (c <=? 122) then c - 97 + 26
  else if (48 <=? c) && (c <=? 57) then c - 48 + 52
  else if (c =? 43) || (c =? 45) then 62
  else if (c =? 47) || (c =? 95) then 63
  else if c =? 61 then 0
  else - EINVAL.

(** The text so far; an early return is [inl], undefined behaviour is [None]. *)
Definition W (X : Type) : Type := list Z -> option (list Z * (Z + X)).
#[global] Instance W_ret : MRet W := fun X x dst => Some (dst, inr x).
#[global] Instance W_bind : MBind W := fun X Y f m dst =>
  match m dst with Some (dst, inr x) => f x dst | Some (dst, inl e) => Some (dst, inl e) | None => None end.
Definition return_ {X} (r : Z) : W X := fun dst => Some (dst, inl r).

(** Addition of [int]. *)
Definition int_add (x y : Z) : W Z := fun dst =>
  if (- 2 ^ 31 <=? x + y) && (x + y <? 2 ^ 31) then Some (dst, inr (x + y)) else None.

Section Buffer.
Context (cap : Z).

Definition set_str_val (c : Z) (dst : list Z) : list Z * Z := if zlen dst <? cap then (dst ++ [c], 0) else (dst, - ERANGE).
Definition SET_DST (c : Z) : W unit := fun dst => let '(dst, r) := set_str_val c dst in if r <? 0 then Some (dst, inl r) else Some (dst, inr tt).

(** The loop of [armor_linebreak]; it ends after a group that is not full. *)
Fixpoint armor_loop (line_width olen line : Z) (src : list Z) : W Z :=
  let next (k : Z -> Z -> W Z) : W Z :=
    olen ← int_add olen 4;
    line ← int_add line 4;
    if negb (line_width =? 0) && (line =? line_width) then SET_DST 10;; olen ← int_add olen 1; k olen 0 else k olen line in
  match src with
  | [] => mret olen
  | a :: src =>
      SET_DST (encode_bits (Z.shiftr a 2));;
      match src with
      | b :: src =>
          SET_DST (encode_bits (Z.lor (Z.shiftl (Z.land a 3) 4) (Z.shiftr b 4)));;
          match src with
          | c :: src =>
              SET_DST (encode_bits (Z.lor (Z.shiftl (Z.land b 15) 2) (Z.shiftr c 6)));;
              SET_DST (encode_bits (Z.land c 63));;
              next (fun olen line => armor_loop line_width olen line src)
          | [] =>
              SET_DST (encode_bits (Z.shiftl (Z.land b 15) 2));;
              SET_DST 61;;
              next (fun olen _ => mret olen)
          end
      | [] =>
          SET_DST (encode_bits (Z.shiftl (Z.land a 3) 4));;
          SET_DST 61;;
          SET_DST 61;;
          next (fun olen _ => mret olen)
      end
  end.

(** The text and the result. *)
Definition result (x : option (list Z * (Z + Z))) : option (list Z * Z) := '(dst, r) ← x; Some (dst, match r with inl r | inr r => r end).
Definition armor_linebreak (src : list Z) (line_width : Z) : option (list Z * Z) := result (armor_loop line_width 0 0 src []).
Definition armor (src : list Z) : option (list Z * Z) := armor_linebreak src 0.

Fixpoint unarmor_loop (olen : Z) (src : list Z) : W Z :=
  match src with
  | [] => mret olen
  | c0 :: t =>
      if c0 =? 10 then unarmor_loop olen t
      else
        match t with
        | c1 :: c2 :: c3 :: t =>
            let a := decode_bits c0 in
            let b := decode_bits c1 in
            let c := decode_bits c2 in
            let d := decode_bits c3 in
            if (a <? 0) || (b <? 0) || (c <? 0) || (d <? 0) then return_ (- EINVAL)
            else
              SET_DST (Z.lor (Z.shiftl a 2) (Z.shiftr b 4));;
              if c2 =? 61 then r ← int_add olen 1; return_ r
              else
                SET_DST (Z.lor (Z.shiftl (Z.land b 15) 4) (Z.shiftr c 2));;
                if c3 =? 61 then r ← int_add olen 2; return_ r
                else
                  SET_DST (Z.lor (Z.shiftl (Z.land c 3) 6) d);;
                  olen ← int_add olen 3;
                  unarmor_loop olen t
        | _ => return_ (- EINVAL)
        end
  end.

Definition unarmor (src : list Z) : option (list Z * Z) := result (unarmor_loop 0 src []).
End Buffer.

Example armor_man : armor 10 [77; 97; 110; 77] = Some ([84; 87; 70; 117; 84; 81; 61; 61], 8).
Proof. reflexivity. Qed.
Example unarmor_short : unarmor 2 [84; 87; 70; 117] = Some ([77; 97], - ERANGE).
Proof. reflexivity. Qed.

(** ** The text *)

Definition brk (w line : Z) : list Z := if negb (w =? 0) && (line + 4 =? w) then [10] else [].
Definition next_line (w line : Z) : Z := if negb (w =? 0) && (line + 4 =? w) then 0 else line + 4.

Definition sextets (a b c : Z) : list Z :=
  [Z.shiftr a 2; Z.lor (Z.shiftl (Z.land a 3) 4) (Z.shiftr b 4); Z.lor (Z.shiftl (Z.land b 15) 2) (Z.shiftr c 6); Z.land c 63].

(** Groups of four characters; the last one is filled up. *)
Fixpoint armored (w line : Z) (src : list Z) : list Z :=
  match src with
  | [] => []
  | [a] => (encode_bits <$> take 2 (sextets a 0 0)) ++ [61; 61] ++ brk w line
  | [a; b] => (encode_bits <$> take 3 (sextets a b 0)) ++ [61] ++ brk w line
  | a :: b :: c :: t => (encode_bits <$> sextets a b c) ++ brk w line ++ armored w (next_line w line) t
  end.

Lemma by_three {X} (P : list X -> Prop) : P [] -> (forall a, P [a]) -> (forall a b, P [a; b]) -> (forall a b c t, P t -> P (a :: b :: c :: t)) -> forall l, P l.
Proof.
  intros H0 H1 H2 H3 l. enough (P l /\ (forall a, P (a :: l)) /\ forall a b, P (a :: b :: l)) by tauto.
  induction l as [|c l (IH0 & IH1 & IH2)]; [auto|]. split_and!; [apply IH1|intros a; apply IH2|intros a b; apply H3, IH0].
Qed.

(** Without line breaks the text has four characters for every three bytes,
    and for what is left of them. *)
Lemma armored_length line src : zlen (armored 0 line src) = 4 * ((zlen src + 2) / 3).
Proof.
  revert line. induction src as [|a|a b|a b c t IH] using by_three; intros line; [done..|]. cbn [armored]. rewrite !length_app, !Nat2Z.inj_add, IH. cbn [brk Z.eqb negb andb List.length]. cbn. Z.to_euclidean_division_equations. lia.
Qed.

Section Prints.
Context (cap : Z) (Hcap : cap < 2 ^ 31).

(** With [n] characters or more in the buffer, [m] writes [l] and returns [r] if there
    is room for [l]. *)
Definition prints (n : Z) (m : W Z) (l : list Z) (r : Z) : Prop := forall dst, n <= zlen dst <= cap ->
  result (m dst) = Some (if zlen dst + zlen l <=? cap then (dst ++ l, r) else (take (Z.to_nat cap) (dst ++ l), - ERANGE)).

Lemma prints_ret n r : prints n (mret r) [] r.
Proof. intros dst Hd. rewrite app_nil_r. cbn [List.length]. rewrite (proj2 (Z.leb_le _ _)) by lia. done. Qed.
Lemma prints_return n r : prints n (return_ r) [] r.
Proof. intros dst Hd. rewrite app_nil_r. cbn [List.length]. rewrite (proj2 (Z.leb_le _ _)) by lia. done. Qed.

(** What was counted was written, so the counter stays in its range. *)
Lemma prints_add n x y (m : Z -> W Z) l r : 0 <= x + y <= n -> prints n (m (x + y)) l r -> prints n (z ← int_add x y; m z) l r.
Proof.
  intros Hn Hm dst Hd. rewrite <- (Hm dst Hd). change ((z ← int_add x y; m z) dst) with (match int_add x y dst with Some (dst, inr z) => m z dst | Some (dst, inl e) => Some (dst, inl e) | None => None end).
  unfold int_add. by rewrite (proj2 (Z.leb_le _ _)), (proj2 (Z.ltb_lt _ _)) by lia.
Qed.

Lemma set_run {X} c (m : W X) dst : (SET_DST cap c;; m) dst = if zlen dst <? cap then m (dst ++ [c]) else Some (dst, inl (- ERANGE)).
Proof.
  change ((SET_DST cap c;; m) dst) with (match SET_DST cap c dst with Some (dst, inr _) => m dst | Some (dst, inl e) => Some (dst, inl e) | None => None end). unfold SET_DST, set_str_val. by destruct (_ <? _).
Qed.

Lemma prints_set n c m l r : prints (n + 1) m l r -> prints n (SET_DST cap c;; m) (c :: l) r.
Proof.
  intros Hm dst Hd. rewrite set_run. cbn [List.length]. destruct (Z.ltb_spec (zlen dst) cap).
  - rewrite Hm by (rewrite length_app; cbn [List.length]; lia). rewrite <- app_assoc, length_app. cbn [List.length app]. by replace (zlen dst + Z.of_nat (S (List.length l))) with (Z.of_nat (List.length dst + 1) + zlen l) by lia.
  - rewrite (proj2 (Z.leb_gt _ _)) by lia. unfold result. cbn [mbind option_bind fst snd]. do 2 f_equal. rewrite take_app_le by lia. rewrite take_ge by lia. done.
Qed.

Lemma prints_brk w line (m : Z -> Z -> W Z) olen l r : 0 <= line <= olen ->
  prints (olen + 4 + zlen (brk w line)) (m (olen + 4 + zlen (brk w line)) (next_line w line)) l r ->
  prints (olen + 4) (olen' ← int_add olen 4; line' ← int_add line 4;
    if negb (w =? 0) && (line' =? w) then SET_DST cap 10;; olen'' ← int_add olen' 1; m olen'' 0 else m olen' line') (brk w line ++ l) r.
Proof.
  intros Hl Hm. apply prints_add, prints_add; [lia..|]. revert Hm. unfold brk, next_line. destruct (negb (w =? 0) && (line + 4 =? w)); cbn [List.length app].
  - intros Hm. apply prints_set, prints_add; [lia|done].
  - by rewrite Z.add_0_r.
Qed.

Lemma next_line_bounds w line olen : 0 <= line <= olen -> 0 <= next_line w line <= olen + 4 + zlen (brk w line).
Proof. unfold next_line, brk. destruct (_ && _); cbn [List.length]; lia. Qed.

Lemma plus_four n : n + 1 + 1 + 1 + 1 = n + 4. Proof. lia. Qed.

Lemma armor_prints w src : forall olen line, 0 <= line <= olen -> prints olen (armor_loop cap w olen line src) (armored w line src) (olen + zlen (armored w line src)).
Proof.
  induction src as [|a|a b|a b c t IH] using by_three; intros olen line Hl; cbn [armor_loop armored sextets take fmap list_fmap app List.length].
  - rewrite Z.add_0_r. apply prints_ret.
  - rewrite Z.shiftr_0_l, Z.lor_0_r. do 4 apply prints_set. rewrite plus_four. rewrite <- (app_nil_r (brk w line)) at 1. apply (prints_brk w line (fun o _ => mret o)); [done|]. match goal with |- prints _ _ _ ?r => replace r with (olen + 4 + zlen (brk w line)) by lia end. apply prints_ret.
  - rewrite Z.shiftr_0_l, Z.lor_0_r. do 4 apply prints_set. rewrite plus_four. rewrite <- (app_nil_r (brk w line)) at 1. apply (prints_brk w line (fun o _ => mret o)); [done|]. match goal with |- prints _ _ _ ?r => replace r with (olen + 4 + zlen (brk w line)) by lia end. apply prints_ret.
  - do 4 apply prints_set. rewrite plus_four. apply (prints_brk w line (fun o l => armor_loop cap w o l t)); [done|]. rewrite length_app. match goal with |- prints _ _ _ ?r => replace r with (olen + 4 + zlen (brk w line) + zlen (armored w (next_line w line) t)) by lia end. apply IH. by apply next_line_bounds.
Qed.
End Prints.

(** ** Reading it back *)

Definition is_byte (x : Z) : Prop := 0 <= x < 256.

Lemma for_all (P : Z -> bool) n : forallb P (seqZ 0 n) = true -> forall x, 0 <= x < n -> P x = true.
Proof. rewrite forallb_forall. intros H x Hx. apply H, list_elem_of_In, elem_of_seqZ. lia. Qed.
Lemma for_bytes2 (P : Z -> Z -> bool) : forallb (fun a => forallb (P a) (seqZ 0 256)) (seqZ 0 256) = true -> forall a b, is_byte a -> is_byte b -> P a b = true.
Proof. intros H a b Ha Hb. apply (for_all (P a) 256); [|done]. exact (for_all (fun a => forallb (P a) (seqZ 0 256)) 256 H a Ha). Qed.

Lemma bits_back x : 0 <= x < 64 -> decode_bits (encode_bits x) = x /\ encode_bits x <> 61 /\ encode_bits x <> 10.
Proof.
  intros Hx. assert ((decode_bits (encode_bits x) =? x) && negb (encode_bits x =? 61) && negb (encode_bits x =? 10) = true) as H; [|lia].
  revert x Hx. apply (for_all (fun x => (decode_bits (encode_bits x) =? x) && negb (encode_bits x =? 61) && negb (encode_bits x =? 10))). reflexivity.
Qed.

(** What the sextets of two neighbours say about the first. *)
Lemma sextets_ab a b : is_byte a -> is_byte b -> let x1 := Z.lor (Z.shiftl (Z.land a 3) 4) (Z.shiftr b 4) in
  0 <= Z.shiftr a 2 < 64 /\ 0 <= x1 < 64 /\ Z.lor (Z.shiftl (Z.shiftr a 2) 2) (Z.shiftr x1 4) = a /\ Z.land x1 15 = Z.shiftr b 4.
Proof.
  set (P := fun a b => let x1 := Z.lor (Z.shiftl (Z.land a 3) 4) (Z.shiftr b 4) in
    (0 <=? Z.shiftr a 2) && (Z.shiftr a 2 <? 64) && (0 <=? x1) && (x1 <? 64) && (Z.lor (Z.shiftl (Z.shiftr a 2) 2) (Z.shiftr x1 4) =? a) && (Z.land x1 15 =? Z.shiftr b 4)).
  intros Ha Hb. assert (P a b = true) as H by (apply for_bytes2; [vm_compute; reflexivity|done..]). unfold P in H. cbv zeta in *. lia.
Qed.
Lemma sextets_bc b c : is_byte b -> is_byte c -> let x2 := Z.lor (Z.shiftl (Z.land b 15) 2) (Z.shiftr c 6) in
  0 <= x2 < 64 /\ 0 <= Z.land c 63 < 64 /\ Z.lor (Z.shiftl (Z.shiftr b 4) 4) (Z.shiftr x2 2) = b /\ Z.lor (Z.shiftl (Z.land x2 3) 6) (Z.land c 63) = c.
Proof.
  set (P := fun b c => let x2 := Z.lor (Z.shiftl (Z.land b 15) 2) (Z.shiftr c 6) in
    (0 <=? x2) && (x2 <? 64) && (0 <=? Z.land c 63) && (Z.land c 63 <? 64) && (Z.lor (Z.shiftl (Z.shiftr b 4) 4) (Z.shiftr x2 2) =? b) && (Z.lor (Z.shiftl (Z.land x2 3) 6) (Z.land c 63) =? c)).
  intros Hb Hc. assert (P b c = true) as H by (apply for_bytes2; [vm_compute; reflexivity|done..]). unfold P in H. cbv zeta in *. lia.
Qed.

Lemma skip_brk cap w line olen t : unarmor_loop cap olen (brk w line ++ t) = unarmor_loop cap olen t.
Proof. unfold brk. by destruct (negb (w =? 0) && (line + 4 =? w)). Qed.

(** One step of the loop on four characters of which the first two, three or
    all four are sextets. *)
Lemma unarmor_group cap olen x0 x1 c2 c3 t : 0 <= x0 < 64 -> 0 <= x1 < 64 -> 0 <= decode_bits c2 -> 0 <= decode_bits c3 ->
  unarmor_loop cap olen (encode_bits x0 :: encode_bits x1 :: c2 :: c3 :: t) =
    (SET_DST cap (Z.lor (Z.shiftl x0 2) (Z.shiftr x1 4));;
     if c2 =? 61 then r ← int_add olen 1; return_ r
     else
       SET_DST cap (Z.lor (Z.shiftl (Z.land x1 15) 4) (Z.shiftr (decode_bits c2) 2));;
       if c3 =? 61 then r ← int_add olen 2; return_ r
       else SET_DST cap (Z.lor (Z.shiftl (Z.land (decode_bits c2) 3) 6) (decode_bits c3));; olen ← int_add olen 3; unarmor_loop cap olen t).
Proof.
  intros H0 H1 H2 H3. destruct (bits_back x0 H0) as (E0 & _ & N0), (bits_back x1 H1) as (E1 & _ & _). cbn [unarmor_loop]. rewrite (proj2 (Z.eqb_neq _ _) N0), E0, E1. cbv zeta.
  by rewrite !(proj2 (Z.ltb_ge _ _)) by lia.
Qed.

Lemma unarmor_prints cap w src : cap < 2 ^ 31 -> Forall is_byte src -> forall olen line, 0 <= olen -> prints cap olen (unarmor_loop cap olen (armored w line src)) src (olen + zlen src).
Proof.
  intros Hcap. assert (0 <= decode_bits 61) as H61 by done. assert (is_byte 0) as B0 by done.
  induction src as [|a|a b|a b c t IH] using by_three; intros Hs olen line Ho; cbn [armored sextets take fmap list_fmap app].
  - rewrite Z.add_0_r. apply prints_ret.
  - rewrite Forall_singleton in Hs. destruct (sextets_ab a 0 Hs B0) as (R0 & R1 & Ea & _). rewrite unarmor_group by done. rewrite Ea. apply prints_set, prints_add; [done|lia|]. apply prints_return.
  - rewrite !Forall_cons in Hs. destruct Hs as (Ha & Hb & _). destruct (sextets_ab a b Ha Hb) as (R0 & R1 & Ea & Eb1), (sextets_bc b 0 Hb B0) as (R2 & _ & Eb & _). destruct (bits_back _ R2) as (E2 & N2 & _).
    rewrite unarmor_group by (done || lia). rewrite (proj2 (Z.eqb_neq _ _) N2), E2, Ea, Eb1, Eb. do 2 apply prints_set. apply prints_add; [done|lia|]. apply prints_return.
  - rewrite !Forall_cons in Hs. destruct Hs as (Ha & Hb & Hc & Ht). destruct (sextets_ab a b Ha Hb) as (R0 & R1 & Ea & Eb1), (sextets_bc b c Hb Hc) as (R2 & R3 & Eb & Ec). destruct (bits_back _ R2) as (E2 & N2 & _), (bits_back _ R3) as (E3 & N3 & _).
    rewrite unarmor_group by lia. rewrite (proj2 (Z.eqb_neq _ _) N2), (proj2 (Z.eqb_neq _ _) N3), E2, E3, Ea, Eb1, Eb, Ec. do 3 apply prints_set. apply prints_add; [done|lia|]. rewrite skip_brk. cbn [List.length].
    replace (olen + 1 + 1 + 1) with (olen + 3) by lia. match goal with |- prints _ _ _ _ ?r => replace r with (olen + 3 + zlen t) by lia end. apply IH; [done|lia].
Qed.

(** C37: base64 reads back what it wrote.  For buffers below 2 GiB, whose lengths an
    [int] can count, no counter overflows: for every width of lines, text that
    fits its buffer decodes to the bytes it was made from, into any buffer that
    holds them; the results are the lengths.  A buffer that is too small gets
    the beginning of the output and the result [-ERANGE], in both directions. *)
Theorem armor_roundtrip cap cap' w src : Forall is_byte src -> 0 <= cap < 2 ^ 31 -> 0 <= cap' < 2 ^ 31 ->
  let text := armored w 0 src in
  armor_linebreak cap src w = Some (if zlen text <=? cap then (text, zlen text) else (take (Z.to_nat cap) text, - ERANGE)) /\
  unarmor cap' text = Some (if zlen src <=? cap' then (src, zlen src) else (take (Z.to_nat cap') src, - ERANGE)).
Proof.
  intros Hs [Hc Hc2] [Hc' Hc2'] text. split.
  - exact (armor_prints cap Hc2 w src 0 0 (conj (Z.le_refl 0) (Z.le_refl 0)) [] (conj (Z.le_refl 0) Hc)).
  - exact (unarmor_prints cap' w src Hc2' Hs 0 0 (Z.le_refl 0) [] (conj (Z.le_refl 0) Hc')).
Qed.

Lemma armor_roundtrip_witness : armor_linebreak 20 [72; 97; 108; 108; 111] 4 = Some ([83; 71; 70; 115; 10; 98; 71; 56; 61; 10], 10) /\ unarmor 5 [83; 71; 70; 115; 10; 98; 71; 56; 61; 10] = Some ([72; 97; 108; 108; 111], 5).
Proof. refine (armor_roundtrip 20 5 4 [72; 97; 108; 108; 111] _ _ _); [by repeat constructor|done|done]. Defined.
End Armor.
