(* ===== verification/Throttle.v ===== *)
(** * common/throttle.{h,cc}: a throttle with a queue

    Threads take and return amounts of a resource; who cannot have its amount
    waits in [conds_], a list with a condition variable per waiter, in the order
    of arrival.  Every method holds the lock, except while it waits, so that the
    steps of an execution are: a call up to its return or its wait, a waiter that
    wakes up (after a notification or spuriously) and evaluates its predicate,
    and the end of a timed wait.  A history is the list of these steps and their
    replies. *)
From stdpp Require Import base numbers list sets.
From Stdlib Require Import ZArith Lia ZifyBool.
From S2P Require Import Prelude.

Module Throttle.
Local Open Scope Z_scope.

(** A waiter: its condition variable, the amount, whether it waits with a
    timeout, and whether it was notified since it last slept. *)
Record waiter := mk_waiter { cv : Z; amount : Z; timed : bool; notified : bool }.

Record Throttle := mk_throttle { count_ : Z; max_ : Z; conds_ : list waiter }.

Definition create (max : Z) : Throttle := mk_throttle 0 max [].

(** [~Throttle]. *)
Definition destroy (t : Throttle) : option unit := cxxlab_assert (List.length (conds_ t) =? 0)%nat.

Definition should_wait (n : Z) (t : Throttle) : bool :=
  negb (max_ t =? 0) &&
  (((n <=? max_ t) && (max_ t <? count_ t +64 n)) || ((max_ t <=? n) && (max_ t <? count_ t))).

Definition fetch_add (n : Z) (t : Throttle) : Throttle := mk_throttle (count_ t +64 n) (max_ t) (conds_ t).
Definition set_conds (l : list waiter) (t : Throttle) : Throttle := mk_throttle (count_ t) (max_ t) l.

(** [if (!conds_.empty()) conds_.front().notify_one()]. *)
Definition notify_front (t : Throttle) : Throttle :=
  set_conds (match conds_ t with [] => [] | w :: l => mk_waiter (cv w) (amount w) (timed w) true :: l end) t.

Definition erase (c : Z) (t : Throttle) : Throttle := set_conds (filter (fun w => cv w <> c) (conds_ t)) t.

(** What a call or a waiter does: it has the amount, it waits, or it gives up. *)
Inductive reply := Granted | Waits | Refused | Done (r : Z).
#[global] Instance reply_eq_dec : EqDecision reply.
Proof. solve_decision. Defined.

(** [!should_wait(n) && &cv == &conds_.front()]. *)
Definition predicate (w : waiter) (t : Throttle) : bool :=
  negb (should_wait (amount w) t) && match conds_ t with x :: _ => cv x =? cv w | [] => false end.

(** What follows a wait whose predicate is true. *)
Definition acquire (w : waiter) (t : Throttle) : Throttle := notify_front (erase (cv w) (fetch_add (amount w) t)).

(** A waiter is at the condition of its wait. *)
Definition at_wait (w : waiter) (t : Throttle) : reply * Throttle :=
  if predicate w t then (Granted, acquire w t)
  else (Waits, set_conds ((fun x => if cv x =? cv w then mk_waiter (cv x) (amount x) (timed x) false else x) <$> conds_ t) t).

(** [get], and [try_get] up to its wait; [c] is the new condition variable. *)
Definition get_or_queue (c n : Z) (timed : bool) (t : Throttle) : reply * Throttle :=
  if negb (should_wait n t) && (List.length (conds_ t) =? 0)%nat then (Granted, fetch_add n t)
  else
    let w := mk_waiter c n timed false in
    at_wait w (set_conds (conds_ t ++ [w]) t).
Definition get (c n : Z) : Throttle -> reply * Throttle := get_or_queue c n false.
Definition try_get (c n : Z) : Throttle -> reply * Throttle := get_or_queue c n true.

Definition get_or_fail (n : Z) (t : Throttle) : reply * Throttle :=
  if should_wait n t || negb (List.length (conds_ t) =? 0)%nat then (Refused, t) else (Granted, fetch_add n t).

(** The end of [wait_for] of [try_get]. *)
Definition timeout (w : waiter) (t : Throttle) : reply * Throttle :=
  if predicate w t then (Granted, acquire w t) else (Refused, notify_front (erase (cv w) t)).

Definition take (n : Z) (t : Throttle) : reply * Throttle :=
  if max_ t =? 0 then (Done 0, t) else (Done (count_ (fetch_add n t)), fetch_add n t).

Definition put (n : Z) (t : Throttle) : option (reply * Throttle) :=
  _ ← cxxlab_assert (n <=? count_ t);
  Some (Done 0, notify_front (mk_throttle (count_ t -64 n) (max_ t) (conds_ t))).

Definition reset_max (new_max : Z) (t : Throttle) : reply * Throttle :=
  if max_ t =? new_max then (Done 0, t) else (Done 0, notify_front (mk_throttle (count_ t) new_max (conds_ t))).

Definition reset (t : Throttle) : reply * Throttle := (Done 0, notify_front (mk_throttle 0 (max_ t) (conds_ t))).

Definition get_available (t : Throttle) : Z := if count_ t <? max_ t then max_ t -64 count_ t else 0.
Definition past_midpoint (t : Throttle) : bool := max_ t / 2 <=? count_ t.

(** ** Executions *)

Inductive event :=
  | Get (c n : Z) | TryGet (c n : Z) | GetOrFail (c n : Z)
  | Wake (c : Z) | TimedOut (c : Z)
  | Take (n : Z) | Put (n : Z) | ResetMax (m : Z) | ResetCount.

Definition find_waiter (c : Z) (t : Throttle) : option waiter := list_find (fun w => cv w = c) (conds_ t) ≫= fun x => Some x.2.

(** [None]: an assertion failed, or there is no such waiter. *)
Definition step (e : event) (t : Throttle) : option (reply * Throttle) :=
  match e with
  | Get c n => Some (get c n t)
  | TryGet c n => Some (try_get c n t)
  | GetOrFail _ n => Some (get_or_fail n t)
  | Wake c => w ← find_waiter c t; Some (at_wait w t)
  | TimedOut c => w ← find_waiter c t; if timed w then Some (timeout w t) else None
  | Take n => Some (take n t)
  | Put n => put n t
  | ResetMax m => Some (reset_max m t)
  | ResetCount => Some (reset t)
  end.

(** A new condition variable differs from those in the list. *)
Definition fresh (e : event) (t : Throttle) : Prop :=
  match e with Get c _ | TryGet c _ => c ∉ cv <$> conds_ t | _ => True end.
Definition asked (e : event) : Z := match e with Get _ n | TryGet _ n | GetOrFail _ n | Take n => n | _ => 0 end.
Definition args_ok (e : event) : Prop := match e with Get _ n | TryGet _ n | GetOrFail _ n | Take n | Put n | ResetMax n => 0 <= n < 2 ^ 64 | _ => True end.

Inductive run (m : Z) : list (event * reply) -> Throttle -> Prop :=
  | run_new : run m [] (create m)
  | run_step h t e r t' : run m h t -> fresh e t -> args_ok e -> step e t = Some (r, t') -> run m (h ++ [(e, r)]) t'.

(** Who came, and who got its amount, in order. *)
Definition arrival (x : event * reply) : list Z :=
  match x with (Get c _, _) | (TryGet c _, _) | (GetOrFail c _, Granted) => [c] | _ => [] end.
Definition grant (x : event * reply) : list Z :=
  match x with ((Get c _ | TryGet c _ | GetOrFail c _ | Wake c | TimedOut c), Granted) => [c] | _ => [] end.
Definition arrivals (h : list (event * reply)) : list Z := concat (arrival <$> h).
Definition grants (h : list (event * reply)) : list Z := concat (grant <$> h).
Definition waiting (t : Throttle) : list Z := cv <$> conds_ t.
Definition requested (h : list (event * reply)) : Z := sumZ (fun x => asked x.1) h.

(** ** The order of grants *)

Lemma notify_waiting t : waiting (notify_front t) = waiting t.
Proof. destruct t as [k m [|w l]]; done. Qed.
Lemma erase_waiting c t : waiting (erase c t) = filter (fun x => x <> c) (waiting t).
Proof. unfold waiting, erase. cbn [conds_ set_conds]. induction (conds_ t) as [|w l IH]; [done|]. rewrite fmap_cons, !filter_cons. destruct (decide (cv w <> c)); [by rewrite fmap_cons, IH|done]. Qed.
Lemma find_waiter_spec c t w : find_waiter c t = Some w -> w ∈ conds_ t /\ cv w = c.
Proof. unfold find_waiter. destruct (list_find _ _) as [[i x]|] eqn:E; [|done]. intros [= <-]. apply list_find_Some in E as (E & ? & _). split; [by eapply list_elem_of_lookup_2|done]. Qed.

Lemma filter_away c (l : list Z) : c ∉ l -> filter (fun x => x <> c) l = l.
Proof. induction l as [|x l IH]; [done|]. rewrite not_elem_of_cons. intros [? ?]. rewrite filter_cons_True by congruence. by rewrite IH. Qed.
Lemma filter_sub c (l : list Z) : filter (fun x => x <> c) l `sublist_of` l.
Proof. induction l as [|x l IH]; [done|]. rewrite filter_cons. case_decide; [by apply sublist_skip|by apply sublist_cons]. Qed.

(** The waiter of a true predicate is the first one, and leaves the list. *)
Lemma acquire_order w t : NoDup (waiting t) -> predicate w t = true -> waiting t = cv w :: waiting (acquire w t).
Proof.
  intros Hd [_ Hf]%andb_true_iff. unfold acquire. rewrite notify_waiting, erase_waiting. change (waiting (fetch_add (amount w) t)) with (waiting t). unfold waiting in *. destruct (conds_ t) as [|x l]; [done|]. apply Z.eqb_eq in Hf. cbn [fmap list_fmap] in *. apply NoDup_cons in Hd as [Hx _].
  rewrite Hf in *. rewrite filter_cons_False by (intros H; by apply H). by rewrite filter_away.
Qed.

Lemma at_wait_order w t r t' : NoDup (waiting t) -> at_wait w t = (r, t') -> (r = Granted /\ waiting t = cv w :: waiting t') \/ (r = Waits /\ waiting t' = waiting t).
Proof.
  intros Hd. unfold at_wait. destruct (predicate w t) eqn:Hp; intros [= <- <-]; [left; split; [done|by apply acquire_order]|right; split; [done|]].
  unfold waiting. cbn [conds_ set_conds]. rewrite <- list_fmap_compose. apply list_fmap_ext. intros i x _. cbn. by destruct (cv x =? cv w).
Qed.

Lemma queue_order c n b t r t' : c ∉ waiting t -> NoDup (waiting t) -> get_or_queue c n b t = (r, t') ->
  (r = Granted /\ waiting t ++ [c] = c :: waiting t') \/ (r = Waits /\ waiting t' = waiting t ++ [c]).
Proof.
  intros Hc Hd. unfold get_or_queue. destruct (_ && _) eqn:E.
  - intros [= <- <-]. left. apply andb_true_iff in E as [_ E]. unfold waiting. cbn [conds_ fetch_add]. by destruct (conds_ t).
  - assert (waiting (set_conds (conds_ t ++ [mk_waiter c n b false]) t) = waiting t ++ [c]) as Ew by (unfold waiting; cbn [conds_ set_conds]; by rewrite fmap_app). rewrite <- Ew. apply (at_wait_order (mk_waiter c n b false)). rewrite Ew. apply NoDup_app. split_and!; [done|set_solver|apply NoDup_singleton].
Qed.

(** What a step grants and admits, once its reply is known. *)
Ltac settle := cbn [grant arrival app]; first [rewrite bool_decide_eq_true_2 by done | rewrite bool_decide_eq_false_2 by done]; rewrite ?app_nil_r.

Lemma step_exact e t r t' : fresh e t -> NoDup (waiting t) -> step e t = Some (r, t') ->
  if bool_decide (r = Refused) then grant (e, r) ++ waiting t' `sublist_of` waiting t ++ arrival (e, r) else grant (e, r) ++ waiting t' = waiting t ++ arrival (e, r).
Proof.
  intros Hf Hd. destruct e as [c n|c n|c n|c|c|n|n|m|]; cbn [step].
  - intros [= E]. destruct (queue_order c n false t r t' Hf Hd E) as [[-> E']|[-> E']]; settle; by rewrite E'.
  - intros [= E]. destruct (queue_order c n true t r t' Hf Hd E) as [[-> E']|[-> E']]; settle; by rewrite E'.
  - unfold get_or_fail. destruct (should_wait n t); cbn [orb]; [intros [= <- <-]; by settle|]. destruct (conds_ t) as [|x l] eqn:El; cbn [List.length Nat.eqb negb]; intros [= <- <-]; settle; [|done]. unfold waiting. cbn [conds_ fetch_add]. by rewrite El.
  - destruct (find_waiter c t) as [w|] eqn:Ew; [|done]. apply find_waiter_spec in Ew as [_ <-]. intros [= E]. destruct (at_wait_order w t r t' Hd E) as [[-> E']|[-> E']]; settle; by rewrite E'.
  - destruct (find_waiter c t) as [w|] eqn:Ew; [|done]. apply find_waiter_spec in Ew as [_ <-]. cbn [mbind option_bind]. destruct (timed w); [|done]. unfold timeout. destruct (predicate w t) eqn:Hp; intros [= <- <-]; settle.
    + by rewrite <- acquire_order.
    + rewrite notify_waiting, erase_waiting. apply filter_sub.
  - unfold take. destruct (max_ t =? 0); intros [= <- <-]; by settle.
  - unfold put. destruct (n <=? count_ t); cbn; [|done]. intros [= <- <-]. settle. by rewrite notify_waiting.
  - unfold reset_max. destruct (max_ t =? m); intros [= <- <-]; settle; [done|]. by rewrite notify_waiting.
  - intros [= <- <-]. settle. by rewrite notify_waiting.
Qed.

Lemma step_order e t r t' : fresh e t -> NoDup (waiting t) -> step e t = Some (r, t') -> grant (e, r) ++ waiting t' `sublist_of` waiting t ++ arrival (e, r).
Proof. intros Hf Hd E. pose proof (step_exact e t r t' Hf Hd E) as H. case_bool_decide; [done|by rewrite H]. Qed.

Lemma step_nodup e t r t' : fresh e t -> NoDup (waiting t) -> step e t = Some (r, t') -> NoDup (waiting t').
Proof.
  intros Hf Hd E. pose proof (step_order e t r t' Hf Hd E) as Ho. assert (waiting t' `sublist_of` waiting t ++ arrival (e, r)) as Hs by (etransitivity; [|exact Ho]; by apply sublist_inserts_l).
  assert (forall c, c ∉ waiting t -> NoDup (waiting t ++ [c])) as Hn by (intros c Hc; apply NoDup_app; split_and!; [done|set_solver|apply NoDup_singleton]).
  destruct e as [c n|c n|c n|c|c|n|n|m|]; cbn [fresh arrival] in *; try (eapply sublist_NoDup; [|exact Hs]; by apply Hn); try (eapply sublist_NoDup; [|exact Hs]; by rewrite app_nil_r).
  cbn [step] in E. unfold get_or_fail in E. destruct (_ || _); injection E as <- <-; done.
Qed.

Lemma run_order m h t : run m h t -> NoDup (waiting t) /\ (grants h ++ waiting t) `sublist_of` arrivals h.
Proof.
  induction 1 as [|h t e r t' _ [Hd Hs] Hf _ E]; [split; [apply NoDup_nil_2|done]|]. split; [by eapply step_nodup|]. unfold grants, arrivals in *. rewrite !fmap_app, !concat_app. cbn [fmap list_fmap concat]. rewrite !app_nil_r, <- app_assoc.
  etransitivity; [apply sublist_app; [reflexivity|by eapply step_order]|]. rewrite app_assoc. by apply sublist_app.
Qed.

(** C5: the throttle is fair.  In every execution, whatever the order of
    calls, notifications, spurious wake-ups and timeouts, those that got their
    amount, in the order in which they got it, followed by those that wait, are
    in the order of their calls: no call overtakes one that came before it.
    Without timeouts and refusals nobody is left out. *)
Theorem throttle_fifo m h t : run m h t ->
  (grants h ++ waiting t) `sublist_of` arrivals h /\
  (Forall (fun x => x.2 <> Refused) h -> grants h ++ waiting t = arrivals h).
Proof.
  intros Hr. split; [by apply run_order in Hr as [_ ?]|]. induction Hr as [|h t e r t' Hr IH Hf _ E]; [done|]. intros [Hh Hx]%Forall_app. rewrite Forall_singleton in Hx. specialize (IH Hh). apply run_order in Hr as [Hd _].
  pose proof (step_exact e t r t' Hf Hd E) as He. rewrite bool_decide_eq_false_2 in He by done. unfold grants, arrivals in *. rewrite !fmap_app, !concat_app. cbn [fmap list_fmap concat]. by rewrite !app_nil_r, <- app_assoc, He, app_assoc, IH.
Qed.

(** ** Amounts *)

(** What is counted and what is waited for was asked for. *)
Record amounts (total : Z) (t : Throttle) : Prop := {
  a_count : 0 <= count_ t;
  a_waiting : Forall (fun w => 0 <= amount w) (conds_ t);
  a_total : count_ t + sumZ amount (conds_ t) <= total;
}.

Lemma kept c l : Forall (fun w => 0 <= amount w) l -> Forall (fun w => 0 <= amount w) (filter (fun w => cv w <> c) l).
Proof. rewrite !Forall_forall. intros H w [_ Hw]%list_elem_of_filter. by apply H. Qed.
Lemma sum_filter c l : Forall (fun w => 0 <= amount w) l -> sumZ amount (filter (fun w => cv w <> c) l) <= sumZ amount l.
Proof. induction 1 as [|w l Hw Hl IH]; [done|]. rewrite filter_cons. destruct (decide _); rewrite ?sumZ_cons; lia. Qed.
Lemma sum_erase w l : Forall (fun w => 0 <= amount w) l -> w ∈ l -> amount w + sumZ amount (filter (fun x => cv x <> cv w) l) <= sumZ amount l.
Proof.
  intros Hl Hw. apply list_elem_of_split in Hw as (l1 & l2 & ->). apply Forall_app in Hl as [H1 H2]. apply Forall_cons in H2 as [_ H2]. rewrite filter_app, filter_cons_False by (intros H; by apply H). rewrite !sumZ_app, sumZ_cons. pose proof (sum_filter (cv w) l1 H1). pose proof (sum_filter (cv w) l2 H2). lia.
Qed.

(** The amounts of a list whose waiters only change their flags. *)
Lemma sum_flags f l : (forall w, amount (f w) = amount w) -> sumZ amount (f <$> l) = sumZ amount l.
Proof. intros Hf. induction l as [|w l IH]; [done|]. by rewrite fmap_cons, !sumZ_cons, Hf, IH. Qed.

Lemma notify_amounts total t : amounts total t -> amounts total (notify_front t).
Proof.
  intros [Hc Hw Ht]. destruct t as [k m [|w l]]; [done|]. apply Forall_cons in Hw as [Hw Hl]. constructor; [done|by constructor|]. cbn [notify_front count_ conds_ set_conds] in *. by rewrite sumZ_cons in *.
Qed.
Lemma erase_amounts total c t : amounts total t -> amounts total (erase c t).
Proof. intros [Hc Hw Ht]. constructor; [done|by apply kept|]. cbn [erase count_ conds_ set_conds]. pose proof (sum_filter c _ Hw). lia. Qed.
Lemma amounts_mono a b t : a <= b -> amounts a t -> amounts b t.
Proof. intros ? []. constructor; try done. lia. Qed.
Lemma sum_waiting total t : amounts total t -> 0 <= sumZ amount (conds_ t).
Proof. intros [_ Hw _]. by apply sumZ_nonneg. Qed.

Lemma acquire_amounts total w t : amounts total t -> total < 2 ^ 64 -> w ∈ conds_ t -> amounts total (acquire w t) /\ count_ (acquire w t) = count_ t + amount w.
Proof.
  intros Ha Hl Hw. pose proof Ha as [Hc Hf Ht]. pose proof (sum_erase w _ Hf Hw) as Hs. pose proof (sumZ_nonneg amount _ (kept (cv w) _ Hf)) as Hn. assert (0 <= amount w) by (rewrite Forall_forall in Hf; by apply Hf).
  assert (count_ t +64 amount w = count_ t + amount w) as E by (apply u64_small; lia). split; [|exact E]. apply notify_amounts. constructor; cbn [erase fetch_add count_ conds_ set_conds]; rewrite ?E; [lia|by apply kept|lia].
Qed.

Lemma at_wait_amounts total w t r t' : amounts total t -> total < 2 ^ 64 -> w ∈ conds_ t -> at_wait w t = (r, t') -> amounts total t'.
Proof.
  intros Ha Hl Hw. unfold at_wait. destruct (predicate w t); intros [= <- <-]; [by apply acquire_amounts|]. destruct Ha as [Hc Hf Ht]. constructor; cbn [count_ conds_ set_conds]; [done| |].
  - apply Forall_fmap. eapply Forall_impl; [exact Hf|]. intros x Hx. cbn. by destruct (cv x =? cv w).
  - rewrite sum_flags; [done|]. intros x. by destruct (cv x =? cv w).
Qed.

Lemma add_amounts total n t : amounts total t -> 0 <= n -> total + n < 2 ^ 64 -> amounts (total + n) (fetch_add n t) /\ count_ (fetch_add n t) = count_ t + n.
Proof.
  intros Ha Hn Hl. pose proof (sum_waiting _ _ Ha). destruct Ha as [Hc Hf Ht]. assert (count_ t +64 n = count_ t + n) as E by (apply u64_small; lia). split; [|exact E]. constructor; cbn [fetch_add count_ conds_]; rewrite ?E; [lia|done|lia].
Qed.

Lemma queue_amounts total c n b t r t' : amounts total t -> 0 <= n -> total + n < 2 ^ 64 -> get_or_queue c n b t = (r, t') -> amounts (total + n) t'.
Proof.
  intros Ha Hn Hl. unfold get_or_queue. destruct (_ && _); [intros [= <- <-]; by apply add_amounts|]. apply at_wait_amounts; [|done|set_solver]. destruct Ha as [Hc Hf Ht]. constructor; cbn [count_ conds_ set_conds]; [done|apply Forall_app; split; [done|by apply Forall_singleton]|rewrite sumZ_app, sumZ_cons, sumZ_nil; cbn [amount]; lia].
Qed.

Lemma step_amounts total e t r t' : amounts total t -> args_ok e -> total + asked e < 2 ^ 64 -> step e t = Some (r, t') -> amounts (total + asked e) t'.
Proof.
  intros Ha He Hl. destruct e as [c n|c n|c n|c|c|n|n|m|]; cbn [step asked args_ok] in *; rewrite ?Z.add_0_r in *.
  - intros [= E]. eapply queue_amounts; [exact Ha|lia|lia|exact E].
  - intros [= E]. eapply queue_amounts; [exact Ha|lia|lia|exact E].
  - unfold get_or_fail. destruct (_ || _); intros [= <- <-]; [by eapply amounts_mono; [|exact Ha]; lia|apply add_amounts; (done || lia)].
  - destruct (find_waiter c t) as [w|] eqn:Ew; [|done]. apply find_waiter_spec in Ew as [Hw _]. intros [= E]. by eapply at_wait_amounts.
  - destruct (find_waiter c t) as [w|] eqn:Ew; [|done]. apply find_waiter_spec in Ew as [Hw _]. cbn [mbind option_bind]. destruct (timed w); [|done]. unfold timeout. destruct (predicate w t); intros [= <- <-]; [by apply acquire_amounts|by apply notify_amounts, erase_amounts].
  - unfold take. destruct (max_ t =? 0); intros [= <- <-]; [by eapply amounts_mono; [|exact Ha]; lia|apply add_amounts; (done || lia)].
  - unfold put. destruct (Z.leb_spec n (count_ t)); cbn; [|done]. intros [= <- <-]. apply notify_amounts. pose proof (sum_waiting _ _ Ha). destruct Ha as [Hc Hf Ht]. constructor; cbn [count_ conds_]; rewrite ?u64_small by lia; [lia|done|lia].
  - unfold reset_max. destruct (max_ t =? m); intros [= <- <-]; [done|]. apply notify_amounts. by destruct Ha.
  - intros [= <- <-]. apply notify_amounts. destruct Ha as [Hc Hf Ht]. constructor; cbn [count_ conds_]; [done|done|lia].
Qed.

Lemma requested_snoc h e r : requested (h ++ [(e, r)]) = requested h + asked e.
Proof. unfold requested. rewrite sumZ_app, sumZ_cons, sumZ_nil. cbn [fst]. lia. Qed.
Lemma asked_nonneg e : args_ok e -> 0 <= asked e.
Proof. destruct e; cbn; lia. Qed.

Lemma run_amounts m h t : run m h t -> requested h < 2 ^ 64 -> amounts (requested h) t.
Proof.
  induction 1 as [|h t e r t' _ IH Hf He E]; [done|]. rewrite requested_snoc. intros Hl. pose proof (asked_nonneg e He). eapply step_amounts; [apply IH; lia|done|done|done].
Qed.

(** ** Wake-ups *)

(** The first waiter, if it need not wait any more, was notified. *)
Definition head_ok (t : Throttle) : Prop := match conds_ t with [] => True | w :: _ => should_wait (amount w) t = false -> notified w = true end.

Lemma head_notify t : head_ok (notify_front t).
Proof. destruct t as [k m [|w l]]; done. Qed.

Lemma at_wait_head w t r t' : NoDup (waiting t) -> w ∈ conds_ t -> head_ok t -> at_wait w t = (r, t') -> head_ok t'.
Proof.
  intros Hd Hw Hh. unfold at_wait. destruct (predicate w t) eqn:Hp; intros [= <- <-]; [apply head_notify|]. unfold head_ok, predicate, waiting in *. cbn [conds_ set_conds]. destruct (conds_ t) as [|x l]; [done|]. rewrite fmap_cons in *. apply NoDup_cons in Hd as [Hx _].
  destruct (Z.eqb_spec (cv x) (cv w)) as [Ec|]; [|exact Hh]. assert (w = x) as -> by (apply elem_of_cons in Hw as [?|Hw]; [done|]; exfalso; apply Hx; rewrite Ec; by apply list_elem_of_fmap_2).
  cbn [amount]. rewrite andb_true_r in Hp. apply negb_false_iff in Hp. intros E. change (should_wait (amount x) t = false) in E. congruence.
Qed.

Lemma queue_head c n b t r t' : c ∉ waiting t -> NoDup (waiting t) -> head_ok t -> get_or_queue c n b t = (r, t') -> head_ok t'.
Proof.
  intros Hc Hd Hh. unfold get_or_queue. destruct (_ && _) eqn:E.
  - intros [= <- <-]. apply andb_true_iff in E as [_ E]. unfold head_ok. cbn [conds_ fetch_add]. by destruct (conds_ t).
  - apply at_wait_head; [|set_solver|].
    + unfold waiting. cbn [conds_ set_conds]. rewrite fmap_app. apply NoDup_app. split_and!; [done|set_solver|apply NoDup_singleton].
    + unfold head_ok in *. cbn [conds_ set_conds]. destruct (conds_ t) as [|x l]; [|exact Hh]. cbn [app amount]. intros E'. change (should_wait n t = false) in E'. by rewrite E' in E.
Qed.

Lemma step_head total e t r t' : amounts total t -> NoDup (waiting t) -> fresh e t -> args_ok e -> total + asked e < 2 ^ 64 -> head_ok t -> step e t = Some (r, t') -> head_ok t'.
Proof.
  intros Ha Hd Hf He Hl Hh. destruct e as [c n|c n|c n|c|c|n|n|m|]; cbn [step asked args_ok fresh] in *.
  - intros [= E]. by apply (queue_head c n false t r t').
  - intros [= E]. by apply (queue_head c n true t r t').
  - unfold get_or_fail. destruct (_ || _) eqn:E; intros [= <- <-]; [done|]. apply orb_false_iff in E as [_ E]. unfold head_ok. cbn [conds_ fetch_add]. by destruct (conds_ t).
  - destruct (find_waiter c t) as [w|] eqn:Ew; [|done]. apply find_waiter_spec in Ew as [Hw _]. intros [= E]. by apply (at_wait_head w t r t').
  - destruct (find_waiter c t) as [w|] eqn:Ew; [|done]. cbn [mbind option_bind]. destruct (timed w); [|done]. unfold timeout. destruct (predicate w t); intros [= <- <-]; apply head_notify.
  - unfold take. destruct (max_ t =? 0); intros [= <- <-]; [done|]. destruct (add_amounts total n t Ha ltac:(lia) Hl) as [[Hc Hw Ht] Ec]. unfold head_ok in *. cbn [conds_ fetch_add] in *. destruct (conds_ t) as [|w l]; [done|]. intros E. apply Hh. apply Forall_cons in Hw as [Hw Hls]. pose proof (sumZ_nonneg _ _ Hls). rewrite sumZ_cons in Ht. destruct Ha as [Hc0 _ _].
    unfold should_wait in *. cbn [count_ max_ fetch_add] in *. rewrite Ec in *. rewrite !u64_small in * by lia. lia.
  - unfold put. destruct (n <=? count_ t); cbn; [|done]. intros [= <- <-]. apply head_notify.
  - unfold reset_max. destruct (max_ t =? m); intros [= <- <-]; [done|apply head_notify].
  - intros [= <- <-]. apply head_notify.
Qed.

Lemma run_head m h t : run m h t -> requested h < 2 ^ 64 -> head_ok t.
Proof.
  induction 1 as [|h t e r t' Hr IH Hf He E]; [done|]. rewrite requested_snoc. intros Hl. pose proof (asked_nonneg e He). apply (step_head (requested h) e t r t'); [apply (run_amounts m); [done|lia]|by apply (run_order m h)|done|done|done|apply IH; lia|done].
Qed.

Lemma step_max e t r t' : args_ok e -> 0 <= max_ t -> step e t = Some (r, t') -> 0 <= max_ t'.
Proof.
  intros He Hm. destruct e as [c n|c n|c n|c|c|n|n|m|]; cbn [step args_ok] in *.
  1,2: (intros [= E]; revert E; unfold get, try_get, get_or_queue, at_wait; repeat case_match; by intros [= <- <-]).
  - unfold get_or_fail. case_match; by intros [= <- <-].
  - destruct (find_waiter c t); [|done]. intros [= E]. revert E. unfold at_wait. case_match; by intros [= <- <-].
  - destruct (find_waiter c t); [|done]. cbn. repeat case_match; [|done]. intros [= E]. revert E. unfold timeout. case_match; by intros [= <- <-].
  - unfold take. case_match; by intros [= <- <-].
  - unfold put. destruct (n <=? count_ t); cbn; [|done]. by intros [= <- <-].
  - unfold reset_max. case_match; intros [= <- <-]; [done|]. cbn. lia.
  - by intros [= <- <-].
Qed.
Lemma run_max m h t : 0 <= m -> run m h t -> 0 <= max_ t.
Proof. intros Hm. induction 1; [done|]. by eapply step_max. Qed.

(** ** Draining *)

Definition key (w : waiter) : Z * Z := (cv w, amount w).
(** A waiter wakes up, gets its amount and returns it. *)
Definition serve (k : Z * Z) : list (event * reply) := [(Wake k.1, Granted); (Put k.2, Done 0)].
(** Everything is returned, and the waiters are served in their order. *)
Definition drain (t : Throttle) : list (event * reply) := (Put (count_ t), Done 0) :: concat (serve <$> (key <$> conds_ t)).

Lemma notify_key t : key <$> conds_ (notify_front t) = key <$> conds_ t.
Proof. by destruct t as [k m [|w l]]. Qed.

Lemma requested_app h h' : requested (h ++ h') = requested h + requested h'.
Proof. apply sumZ_app. Qed.

Lemma wake_first m h t w l : 0 <= m -> run m h t -> requested h < 2 ^ 64 -> count_ t = 0 -> conds_ t = w :: l ->
  exists t', step (Wake (cv w)) t = Some (Granted, t') /\ count_ t' = amount w /\ key <$> conds_ t' = key <$> l.
Proof.
  intros Hm Hr Hl Hc El. destruct (run_order _ _ _ Hr) as [Hd _]. pose proof (run_amounts _ _ _ Hr Hl) as Ha. pose proof (run_max _ _ _ Hm Hr) as Hmax. assert (w ∈ conds_ t) as Hw by (rewrite El; set_solver). destruct (acquire_amounts _ w t Ha Hl Hw) as [_ Ec].
  assert (find_waiter (cv w) t = Some w) as Ew by (unfold find_waiter; rewrite El; cbn; by rewrite decide_True by done).
  assert (predicate w t = true) as Hp.
  { unfold predicate. rewrite El, Z.eqb_refl, andb_true_r. destruct Ha as [_ Hf Ht]. rewrite El in Hf, Ht. apply Forall_cons in Hf as [Hw0 Hls]. pose proof (sumZ_nonneg _ _ Hls). rewrite sumZ_cons in Ht. unfold should_wait. rewrite Hc, u64_small by lia. lia. }
  exists (acquire w t). cbn [step]. rewrite Ew. cbn [mbind option_bind]. unfold at_wait. rewrite Hp. split_and!; [done|lia|].
  unfold acquire. rewrite notify_key. cbn [erase conds_ set_conds fetch_add]. rewrite El, filter_cons_False by (intros H; by apply H). f_equal. unfold waiting in Hd. rewrite El, fmap_cons in Hd. apply NoDup_cons in Hd as [Hx _]. clear -Hx. induction l as [|x l IH]; [done|]. rewrite fmap_cons, not_elem_of_cons in Hx. destruct Hx as [? Hx]. rewrite filter_cons_True by congruence. by rewrite IH.
Qed.

Lemma put_all m h t : 0 <= m -> run m h t -> requested h < 2 ^ 64 -> exists t', run m (h ++ [(Put (count_ t), Done 0)]) t' /\ count_ t' = 0 /\ key <$> conds_ t' = key <$> conds_ t.
Proof.
  intros Hm Hr Hl. pose proof (run_amounts _ _ _ Hr Hl) as Ha. pose proof (sum_waiting _ _ Ha). destruct Ha as [Hc _ Ht]. eexists. split_and!; [eapply run_step; [exact Hr|done|cbn; lia|]|..].
  - cbn [step]. unfold put. rewrite (proj2 (Z.leb_le _ _)) by lia. reflexivity.
  - cbn [notify_front set_conds count_]. rewrite Z.sub_diag. done.
  - by rewrite notify_key.
Qed.

Lemma drain_queue m : 0 <= m -> forall ks h t, run m h t -> requested h < 2 ^ 64 -> count_ t = 0 -> key <$> conds_ t = ks ->
  exists t', run m (h ++ concat (serve <$> ks)) t' /\ conds_ t' = [] /\ count_ t' = 0.
Proof.
  intros Hm. induction ks as [|k ks IH]; intros h t Hr Hl Hc Hk; [exists t; rewrite app_nil_r; by destruct (conds_ t)|]. destruct (conds_ t) as [|w l] eqn:El; [done|]. rewrite fmap_cons in Hk. injection Hk as <- Hk.
  destruct (wake_first m h t w l Hm Hr Hl Hc El) as (t1 & E1 & Hc1 & Hk1). assert (run m (h ++ [(Wake (cv w), Granted)]) t1) as Hr1 by (by eapply run_step). destruct (put_all m _ t1 Hm Hr1) as (t2 & Hr2 & Hc2 & Hk2); [rewrite requested_snoc; cbn [asked]; lia|].
  rewrite Hc1, <- app_assoc in Hr2. destruct (IH _ t2 Hr2) as (t3 & Hr3 & ? & ?); [rewrite requested_app; unfold requested at 2; cbn; lia|done|congruence|]. exists t3. split; [|done]. rewrite fmap_cons. cbn [concat]. by rewrite app_assoc.
Qed.

(** C8: nobody waits for ever.  In every execution in which fewer than 2^64
    units were asked for, the first waiter was notified if it can go on, so that
    no wake-up is lost; and when everybody returns what it has, the waiters get
    their amounts one after the other, however large the amounts, until nobody
    waits. *)
Theorem throttle_progress m h t : 0 <= m -> run m h t -> requested h < 2 ^ 64 ->
  (forall w l, conds_ t = w :: l -> should_wait (amount w) t = false -> notified w = true) /\
  exists t', run m (h ++ drain t) t' /\ conds_ t' = [] /\ count_ t' = 0.
Proof.
  intros Hm Hr Hl. split; [intros w l El; pose proof (run_head _ _ _ Hr Hl) as H; unfold head_ok in H; by rewrite El in H|].
  destruct (put_all m h t Hm Hr Hl) as (t1 & Hr1 & Hc1 & Hk1). destruct (drain_queue m Hm _ _ t1 Hr1 ltac:(rewrite requested_snoc; cbn [asked]; lia) Hc1 Hk1) as (t2 & Hr2 & ?). exists t2. split; [|done]. unfold drain. by rewrite <- app_assoc in Hr2.
Qed.

(** ** The limit *)

Definition within (m N : Z) (n : Z) : Prop := n <= m \/ n <= N.
(** Calls that keep to the limit [m], up to single amounts of [N]. *)
Definition calm (m N : Z) (e : event) : Prop :=
  match e with Get _ n | TryGet _ n | GetOrFail _ n => within m N n | Take _ | ResetMax _ => False | _ => True end.

Record limited (m N : Z) (t : Throttle) : Prop := {
  l_max : max_ t = m;
  l_count : count_ t <= m + N;
  l_queue : Forall (fun w => within m N (amount w)) (conds_ t);
}.

Lemma go_limited m N n t : 0 < m -> 0 <= N -> max_ t = m -> should_wait n t = false -> within m N n -> 0 <= count_ t -> 0 <= n -> count_ t + n < 2 ^ 64 -> count_ t + n <= m + N.
Proof. intros Hm HN E Hs [Hn|Hn] ? ? ?; unfold should_wait in Hs; rewrite E, u64_small in Hs by lia; lia. Qed.

Lemma limited_conds m N t l : limited m N t -> Forall (fun w => within m N (amount w)) l -> limited m N (set_conds l t).
Proof. intros [] ?. by constructor. Qed.
Lemma limited_notify m N t : limited m N t -> limited m N (notify_front t).
Proof. intros Hl. apply limited_conds; [done|]. destruct Hl as [_ _ Hq]. destruct (conds_ t); [done|]. apply Forall_cons in Hq as [? ?]. by constructor. Qed.
Lemma limited_erase m N c t : limited m N t -> limited m N (erase c t).
Proof. intros Hl. apply limited_conds; [done|]. destruct Hl as [_ _ Hq]. rewrite Forall_forall in *. intros w [_ Hw]%list_elem_of_filter. by apply Hq. Qed.

Lemma acquire_limited m N total w t : 0 < m -> 0 <= N -> amounts total t -> total < 2 ^ 64 -> w ∈ conds_ t -> limited m N t -> predicate w t = true -> limited m N (acquire w t).
Proof.
  intros Hm HN Ha Hl Hw Hlim [Hs%negb_true_iff _]%andb_true_iff. destruct (acquire_amounts total w t Ha Hl Hw) as [[_ _ Ht] Ec]. pose proof Ha as [Hc Hf Ht0]. assert (0 <= amount w) by (rewrite Forall_forall in Hf; by apply Hf). pose proof (sum_erase w _ Hf Hw). pose proof (sumZ_nonneg _ _ (kept (cv w) _ Hf)).
  destruct Hlim as [Em Hcl Hq]. assert (within m N (amount w)) by (rewrite Forall_forall in Hq; by apply Hq). assert (count_ t + amount w <= m + N) by (apply go_limited; (done || lia)).
  apply limited_notify, limited_erase. constructor; [done| |done]. change (count_ (acquire w t) <= m + N). lia.
Qed.

Lemma at_wait_limited m N total w t r t' : 0 < m -> 0 <= N -> amounts total t -> total < 2 ^ 64 -> w ∈ conds_ t -> limited m N t -> at_wait w t = (r, t') -> limited m N t'.
Proof.
  intros Hm HN Ha Hl Hw Hlim. unfold at_wait. destruct (predicate w t) eqn:Hp; intros [= <- <-]; [by eapply acquire_limited|]. apply limited_conds; [done|]. apply Forall_fmap. destruct Hlim as [_ _ Hq]. eapply Forall_impl; [exact Hq|]. intros x Hx. cbn. by destruct (cv x =? cv w).
Qed.

Lemma add_limited m N total n t : 0 < m -> 0 <= N -> amounts total t -> 0 <= n -> total + n < 2 ^ 64 -> limited m N t -> within m N n -> should_wait n t = false -> limited m N (fetch_add n t).
Proof.
  intros Hm HN Ha Hn Hl [Em Hc Hq] Hwn Hs. destruct (add_amounts total n t Ha Hn Hl) as [[_ _ Ht] Ec]. pose proof (sum_waiting _ _ Ha). destruct Ha as [Hc0 _ Ht0]. constructor; [done| |done]. rewrite Ec. apply go_limited; (done || lia).
Qed.

Lemma queue_limited m N total c n b t r t' : 0 < m -> 0 <= N -> amounts total t -> 0 <= n -> total + n < 2 ^ 64 -> limited m N t -> within m N n -> get_or_queue c n b t = (r, t') -> limited m N t'.
Proof.
  intros Hm HN Ha Hn Hl Hlim Hwn. unfold get_or_queue. destruct (_ && _) eqn:E; [apply andb_true_iff in E as [E%negb_true_iff _]; intros [= <- <-]; by eapply add_limited|].
  apply (at_wait_limited m N (total + n)); [done|done| |done|set_solver|].
  - destruct Ha as [Hc Hf Ht]. constructor; cbn [count_ conds_ set_conds]; [done|apply Forall_app; split; [done|by apply Forall_singleton]|rewrite sumZ_app, sumZ_cons, sumZ_nil; cbn [amount]; lia].
  - apply limited_conds; [done|]. destruct Hlim as [_ _ Hq]. apply Forall_app. split; [done|by apply Forall_singleton].
Qed.

Lemma step_limited m N total e t r t' : 0 < m -> 0 <= N -> amounts total t -> args_ok e -> total + asked e < 2 ^ 64 -> calm m N e -> limited m N t -> step e t = Some (r, t') -> limited m N t'.
Proof.
  intros Hm HN Ha He Hl Hcalm Hlim. destruct e as [c n|c n|c n|c|c|n|n|k|]; cbn [step asked args_ok calm] in *; try done; rewrite ?Z.add_0_r in *.
  - intros [= E]. eapply queue_limited; [..|exact E]; (done || lia).
  - intros [= E]. eapply queue_limited; [..|exact E]; (done || lia).
  - unfold get_or_fail. destruct (_ || _) eqn:E; intros [= <- <-]; [done|]. apply orb_false_iff in E as [E _]. eapply add_limited; (done || lia).
  - destruct (find_waiter c t) as [w|] eqn:Ew; [|done]. apply find_waiter_spec in Ew as [Hw _]. intros [= E]. by eapply at_wait_limited.
  - destruct (find_waiter c t) as [w|] eqn:Ew; [|done]. apply find_waiter_spec in Ew as [Hw _]. cbn [mbind option_bind]. destruct (timed w); [|done]. unfold timeout. destruct (predicate w t) eqn:Hp; intros [= <- <-]; [by eapply acquire_limited|by apply limited_notify, limited_erase].
  - unfold put. destruct (Z.leb_spec n (count_ t)); cbn; [|done]. intros [= <- <-]. pose proof (sum_waiting _ _ Ha). destruct Ha as [Hc0 _ Ht0], Hlim as [Em Hc Hq]. apply limited_notify. constructor; cbn [max_ count_ conds_]; [done|rewrite u64_small by lia; lia|done].
  - intros [= <- <-]. destruct Hlim as [Em Hc Hq]. apply limited_notify. constructor; cbn [max_ count_ conds_]; (done || lia).
Qed.

(** C35: the limit holds.  As long as nobody takes without asking and the limit
    stays, no more than the limit is in use, in every execution; a single amount
    above the limit, which is let through to avoid a deadlock, exceeds it by no
    more than itself. *)
Theorem throttle_bounded m N h t : 0 < m -> 0 <= N -> run m h t -> requested h < 2 ^ 64 -> Forall (fun x => calm m N x.1) h -> 0 <= count_ t <= m + N.
Proof.
  intros Hm HN Hr Hl Hcalm. split; [by apply (run_amounts m h t)|]. enough (limited m N t) as [_ Hc _] by done. revert Hl Hcalm. induction Hr as [|h t e r t' Hr IH Hf He E]; [intros _ _; constructor; cbn; (done || lia)|].
  rewrite requested_snoc. intros Hl [Hh Hx]%Forall_app. rewrite Forall_singleton in Hx. pose proof (asked_nonneg e He). eapply (step_limited m N (requested h) e t r t'); [done|done|apply (run_amounts m); [done|lia]|done|done|done|apply IH; [lia|done]|done].
Qed.

(** [take] counts nothing when there is no limit, but [put] expects that it did. *)
Lemma take_put_asserts n : 0 < n -> take n (create 0) = (Done 0, create 0) /\ put n (create 0) = None.
Proof. intros Hn. split; [done|]. unfold put, create. cbn [count_]. by rewrite (proj2 (Z.leb_gt _ _)) by lia. Qed.

(** ** An execution *)

Definition fresh_b (e : event) (t : Throttle) : bool := match e with Get c _ | TryGet c _ => bool_decide (c ∉ cv <$> conds_ t) | _ => true end.
Definition args_b (e : event) : bool := match e with Get _ n | TryGet _ n | GetOrFail _ n | Take n | Put n | ResetMax n => (0 <=? n) && (n <? 2 ^ 64) | _ => true end.
Fixpoint exec (l : list event) (h : list (event * reply)) (t : Throttle) : option (list (event * reply) * Throttle) :=
  match l with
  | [] => Some (h, t)
  | e :: l => if fresh_b e t && args_b e then '(r, t') ← step e t; exec l (h ++ [(e, r)]) t' else None
  end.

Lemma exec_run m l : forall h t h' t', run m h t -> exec l h t = Some (h', t') -> run m h' t'.
Proof.
  induction l as [|e l IH]; intros h t h' t' Hr; cbn [exec]; [by intros [= <- <-]|]. destruct (fresh_b e t && args_b e) eqn:Eb; [|done]. apply andb_true_iff in Eb as [Hf Ha]. destruct (step e t) as [[r t1]|] eqn:E; [|done]. cbn [mbind option_bind]. apply IH. eapply run_step; [exact Hr| | |exact E].
  - destruct e; cbn in *; try done; by apply bool_decide_eq_true in Hf.
  - destruct e; cbn in *; try done; lia.
Qed.

(** The second call waits, wakes up too early once, and gets its amount before
    the third, whose timed wait ends when there is room; the fourth fails, and
    the last asks for more than the limit. *)
Definition demo_events : list event := [Get 1 6; Get 2 6; TryGet 3 2; GetOrFail 4 1; Wake 2; Put 6; Wake 2; TimedOut 3; Get 5 20].
Definition demo_history : list (event * reply) := zip demo_events [Granted; Waits; Waits; Refused; Waits; Done 0; Granted; Granted; Granted].
Definition demo_throttle : Throttle := mk_throttle 28 10 [].

Lemma demo_run : run 10 demo_history demo_throttle.
Proof. apply (exec_run 10 demo_events [] (create 10)); [apply run_new|reflexivity]. Qed.

(** A large amount is let through, and the next caller waits. *)
Definition full_events : list event := [Get 1 6; Get 2 30; Get 3 7].
Definition full_history : list (event * reply) := zip full_events [Granted; Granted; Waits].
Definition full_throttle : Throttle := mk_throttle 36 10 [mk_waiter 3 7 false false].

Lemma full_run : run 10 full_history full_throttle.
Proof. apply (exec_run 10 full_events [] (create 10)); [apply run_new|reflexivity]. Qed.

Lemma throttle_fifo_witness : grants demo_history `sublist_of` arrivals demo_history /\ grants full_history ++ [3] = arrivals full_history.
Proof.
  split; [destruct (throttle_fifo 10 demo_history demo_throttle demo_run) as [H _]; by rewrite app_nil_r in H|]. apply (throttle_fifo 10 full_history full_throttle full_run). repeat (constructor; [done|]). constructor.
Defined.

Lemma throttle_progress_witness : exists t, run 10 (full_history ++ [(Put 36, Done 0); (Wake 3, Granted); (Put 7, Done 0)]) t /\ conds_ t = [] /\ count_ t = 0.
Proof. exact (proj2 (throttle_progress 10 full_history full_throttle ltac:(done) full_run ltac:(reflexivity))). Defined.

Lemma throttle_bounded_witness : 0 <= count_ full_throttle <= 10 + 30.
Proof. apply (throttle_bounded 10 30 full_history full_throttle); [done|done|exact full_run|reflexivity|]. repeat (constructor; [cbn; unfold within; lia|]). constructor. Defined.
End Throttle.
