(* ===== verification/UseTracker.v ===== *)
(** * bluestore/bluestore_types.{h,cc}: the references to a blob

    [bluestore_blob_use_tracker_t] counts, for each allocation unit of a blob,
    the bytes that are referenced.  A blob of one unit has a single counter; the
    two share their storage, and reading the one that was not written last is
    undefined, as is a division by zero and an access outside of the array:
    [None]. *)
From stdpp Require Import base numbers list.
From Stdlib Require Import ZArith Lia ZifyBool.
From S2P Require Import Prelude IntervalSet Allocator Denc.
Import Allocator.

Module UseTracker.
Local Open Scope Z_scope.

(** The union. *)
Inductive storage := total_bytes (n : Z) | bytes_per_au (l : list Z).

Record use_tracker := mk_tracker { au_size : Z; num_au : Z; alloc_au : Z; usage : storage }.

Definition read_total (t : use_tracker) : option Z := match usage t with total_bytes n => Some n | bytes_per_au _ => None end.
Definition read_bytes (t : use_tracker) : option (list Z) := match usage t with bytes_per_au l => Some l | total_bytes _ => None end.
Definition set_usage (u : storage) (t : use_tracker) : use_tracker := mk_tracker (au_size t) (num_au t) (alloc_au t) u.

(** The default constructor and [clear()]; a null pointer is a total of 0. *)
Definition tracker_new : use_tracker := mk_tracker 0 0 0 (total_bytes 0).
Definition clear (t : use_tracker) : use_tracker := tracker_new.

Definition allocate (n : Z) (t : use_tracker) : use_tracker := mk_tracker (au_size t) n n (bytes_per_au (replicate (Z.to_nat n) 0)).

Definition init (full_length _au_size : Z) (t : use_tracker) : option use_tracker :=
  let t := mk_tracker _au_size 0 0 (total_bytes 0) in
  if _au_size =? 0 then None
  else
    let n := (full_length +32 _au_size -32 1) / _au_size in
    if n <=? 1 then Some t else Some (allocate n t).

(** The first [num_au] counters. *)
Definition counters (t : use_tracker) : option (list Z) :=
  l ← read_bytes t; if (Z.to_nat (num_au t) <=? List.length l)%nat then Some (take (Z.to_nat (num_au t)) l) else None.

(** The copy constructor and the assignment. *)
Definition tracker_copy (other : use_tracker) : option use_tracker :=
  if au_size other =? 0 then Some tracker_new
  else
    t ← init (u32 (au_size other * (if num_au other =? 0 then 1 else num_au other))) (au_size other) tracker_new;
    if num_au other =? 0 then n ← read_total other; Some (set_usage (total_bytes n) t)
    else
      dst ← read_bytes t;
      l ← counters other;
      if (List.length l <=? List.length dst)%nat then Some (set_usage (bytes_per_au (l ++ drop (List.length l) dst)) t) else None.

Definition get_referenced_bytes (t : use_tracker) : option Z :=
  if num_au t =? 0 then read_total t else l ← counters t; Some (foldl (fun total n => total +32 n) 0 l).

Definition is_empty (t : use_tracker) : option bool :=
  if num_au t =? 0 then n ← read_total t; Some (n =? 0) else l ← counters t; Some (forallb (fun n => n =? 0) l).
Definition is_not_empty (t : use_tracker) : option bool := e ← is_empty t; Some (negb e).

(** An iteration of the loop of [get]. *)
Definition get_step (au e : Z) (s : Z * list Z) : option ((Z * list Z) + list Z) :=
  let '(offset, l) := s in
  if offset <? e then
    let phase := offset mod au in
    let pos := Z.to_nat (offset / au) in
    let diff := Z.min (au -32 phase) (e -32 offset) in
    b ← l !! pos;
    Some (inl (offset +32 diff, <[pos := b +32 diff]> l))
  else Some (inr l).

Definition get (offset len : Z) (t : use_tracker) : option use_tracker :=
  if num_au t =? 0 then n ← read_total t; Some (set_usage (total_bytes (n +32 len)) t)
  else if au_size t =? 0 then None
  else
    l ← read_bytes t;
    l ← whileM (get_step (au_size t) (offset +32 len)) 64 (offset, l);
    Some (set_usage (bytes_per_au l) t).

(** The units that lost their last reference, runs of them as one extent. *)
Definition add_released (pos au next_offs : Z) (release : list pextent_t) : Z * list pextent_t :=
  match last release with
  | Some e =>
      if negb (next_offs =? pos *64 au) then (pos *64 au +64 au, release ++ [pextent (pos *64 au) au])
      else (next_offs +64 au, removelast release ++ [mk_pextent (offset e) (length e +32 au)])
  | None => (pos *64 au +64 au, release ++ [pextent (pos *64 au) au])
  end.

Record put_state := mk_put { p_offset : Z; p_bytes : list Z; p_next : Z; p_release : list pextent_t; p_empty : bool }.

Definition put_step (au e : Z) (s : put_state) : option (put_state + put_state) :=
  if p_offset s <? e then
    let phase := p_offset s mod au in
    let pos := p_offset s / au in
    let diff := Z.min (au -32 phase) (e -32 p_offset s) in
    b ← p_bytes s !! Z.to_nat pos;
    _ ← cxxlab_assert (diff <=? b);
    let l := <[Z.to_nat pos := b -32 diff]> (p_bytes s) in
    let offset := p_offset s +32 (if phase =? 0 then au else au -32 phase) in
    if b -32 diff =? 0 then
      let '(next, release) := add_released pos au (p_next s) (p_release s) in
      Some (inl (mk_put offset l next release (p_empty s)))
    else Some (inl (mk_put offset l (p_next s) (p_release s) false))
  else Some (inr s).

(** The result, what is to be released (nothing when all of the blob is), and
    the tracker. *)
Definition put (offset len : Z) (t : use_tracker) : option (bool * list pextent_t * use_tracker) :=
  if num_au t =? 0 then
    n ← read_total t;
    if n <=? len then Some (true, [], set_usage (total_bytes 0) t) else Some (false, [], set_usage (total_bytes (n -32 len)) t)
  else if au_size t =? 0 then None
  else
    l ← read_bytes t;
    s ← whileM (put_step (au_size t) (offset +32 len)) 64 (mk_put offset l 0 [] true);
    let t := set_usage (bytes_per_au (p_bytes s)) t in
    ne ← is_not_empty t;
    let empty := if p_empty s then negb ne else false in
    Some (empty, if empty then [] else p_release s, t).

Definition can_split (t : use_tracker) : bool := 0 <? num_au t.
Definition can_split_at (blob_offset : Z) (t : use_tracker) : option bool :=
  _ ← cxxlab_assert (negb (au_size t =? 0));
  Some ((blob_offset mod au_size t =? 0) && (blob_offset <? u32 (num_au t * au_size t))).

(** The tracker that stays, and the one of the right part. *)
Definition split (blob_offset : Z) (t : use_tracker) : option (use_tracker * use_tracker) :=
  if au_size t =? 0 then None
  else
    let split_au := blob_offset / au_size t in
    let right_num_au := num_au t -32 split_au in
    l ← read_bytes t;
    if (Z.to_nat split_au + Z.to_nat right_num_au <=? List.length l)%nat then
      Some (mk_tracker (au_size t) split_au split_au (bytes_per_au (take (Z.to_nat split_au) l)),
            mk_tracker (au_size t) right_num_au right_num_au (bytes_per_au (take (Z.to_nat right_num_au) (drop (Z.to_nat split_au) l))))
    else None.

Definition add_tail (new_len _au_size : Z) (t : use_tracker) : option use_tracker :=
  let full_size := u32 (au_size t * (if num_au t =? 0 then 1 else num_au t)) in
  if new_len =? full_size then Some t
  else if num_au t =? 0 then
    old_total ← read_total t;
    t ← init new_len _au_size t;
    if num_au t =? 0 then Some t else l ← read_bytes t; Some (set_usage (bytes_per_au (<[0%nat := old_total]> l)) t)
  else if _au_size =? 0 then None
  else
    let n := new_len / _au_size in
    if num_au t <? n then
      l ← counters t;
      Some (mk_tracker (au_size t) n n (bytes_per_au (l ++ replicate (Z.to_nat (n - num_au t)) 0)))
    else Some t.

Definition equal (t other : use_tracker) : option bool :=
  if (num_au t =? 0) && (num_au other =? 0) then
    a ← read_total t; b ← read_total other; Some ((a =? b) && (au_size t =? au_size other))
  else if negb (num_au t =? 0) && negb (num_au other =? 0) then
    if negb (num_au t =? num_au other) || negb (au_size t =? au_size other) then Some false
    else a ← counters t; b ← counters other; Some (bool_decide (a = b))
  else
    referenced ← (if negb (num_au t =? 0) then get_referenced_bytes other else get_referenced_bytes t);
    l ← (if negb (num_au t =? 0) then counters t else counters other);
    if negb (referenced =? 0) || negb (au_size t =? au_size other) then Some false else Some (forallb (fun n => n =? 0) l).
End UseTracker.
