(* ===== verification/UseTrackerSpec.v ===== *)
(** * The use tracker counts references

    Against the list of the ranges that are referenced: each counter is the
    number of referenced bytes in its unit, [put] reports the units that lost
    their last reference, and whether nothing is referenced any more. *)
From stdpp Require Import base numbers list sets.
From Stdlib Require Import ZArith Lia ZifyBool.
From S2P Require Import Prelude IntervalSet Allocator Denc UseTracker.
Import Allocator UseTracker.

Module UseTrackerSpec.
Local Open Scope Z_scope.
Abbreviation zlen l := (Z.of_nat (List.length l)).

(** Ranges are pairs of an offset and a length. *)
Definition total (R : list (Z * Z)) : Z := sumZ snd R.

Section Tracker.
Context (au : Z).

(** The bytes of a range in the unit [i]. *)
Definition overlap (i : Z) (r : Z * Z) : Z := Z.max 0 (Z.min (r.1 + r.2) ((i + 1) * au) - Z.max r.1 (i * au)).
Definition need (i : Z) (R : list (Z * Z)) : Z := sumZ (overlap i) R.

Lemma overlap_bounds i r : 0 <= r.2 -> 0 <= overlap i r <= r.2.
Proof. unfold overlap. lia. Qed.
Lemma need_bounds i R : Forall (fun r => 0 <= r.2) R -> 0 <= need i R <= total R.
Proof. induction 1 as [|r R Hr HR IH]; [done|]. unfold need, total in *. rewrite !sumZ_cons. pose proof (overlap_bounds i r Hr). lia. Qed.

Context (au_pos : 0 < au).

(** A unit that begins at or behind the end, or ends before the start. *)
Lemma overlap_out i r : (i + 1) * au <= r.1 \/ r.1 + r.2 <= i * au -> overlap i r = 0.
Proof. unfold overlap. lia. Qed.

Lemma unit_of o : o / au * au <= o < (o / au + 1) * au.
Proof using au_pos. pose proof (Z.div_mod o au ltac:(lia)). pose proof (Z.mod_pos_bound o au au_pos). lia. Qed.
Lemma unit_lt i j : i < j -> (i + 1) * au <= j * au.
Proof using au_pos. intros. apply Z.mul_le_mono_nonneg_r; lia. Qed.
Lemma unit_unique i x : i * au <= x < (i + 1) * au -> x / au = i.
Proof using au_pos. intros H. symmetry. apply (Z.div_unique_pos x au i (x - i * au)); lia. Qed.

(** Another [d] bytes of the unit in which the range ends. *)
Lemma overlap_grow i off o d : off <= o -> 0 <= d -> o + d <= (o / au + 1) * au ->
  overlap i (off, o + d - off) = overlap i (off, o - off) + if i =? o / au then d else 0.
Proof using au_pos.
  intros Ho Hd He. pose proof (unit_of o). unfold overlap. cbn [fst snd]. destruct (Z.eqb_spec i (o / au)) as [->|Hne]; [lia|]. destruct (decide (i < o / au)).
  - pose proof (unit_lt i (o / au) ltac:(lia)). lia.
  - pose proof (unit_lt (o / au) i ltac:(lia)). lia.
Qed.

(** The step from [o] to the end of its unit or of the range. *)
Definition chunk (e o : Z) : Z := Z.min (au - o mod au) (e - o).
Lemma chunk_spec e o : o < e -> 0 < chunk e o /\ o + chunk e o <= e /\ o + chunk e o <= (o / au + 1) * au /\ (o + chunk e o = e \/ o + chunk e o = (o / au + 1) * au).
Proof using au_pos. intros H. unfold chunk. pose proof (Z.div_mod o au ltac:(lia)). pose proof (Z.mod_pos_bound o au au_pos). lia. Qed.

(** What the range has in its unit [p], when the loop is there. *)
Lemma overlap_here off len o : off <= o < off + len -> (o = off \/ o = o / au * au) -> overlap (o / au) (off, o - off) = 0 /\ overlap (o / au) (off, len) = chunk (off + len) o.
Proof using au_pos.
  intros Ho Hat. destruct (chunk_spec (off + len) o ltac:(lia)) as (Hd & Hde & Hdu & Hend). pose proof (unit_of o). assert (overlap (o / au) (off, o - off) = 0) as E0 by (unfold overlap; cbn [fst snd]; lia). split; [done|].
  pose proof (overlap_grow (o / au) off o (chunk (off + len) o) ltac:(lia) ltac:(lia) Hdu) as Hg. rewrite Z.eqb_refl, E0 in Hg. rewrite <- (Z.add_0_l (chunk _ _)), <- Hg. unfold overlap. cbn [fst snd]. lia.
Qed.

(** ** Counters *)

(** The counters are those of [f]. *)
Definition shows (n : Z) (f : Z -> Z) (l : list Z) : Prop := zlen l = n /\ forall i, 0 <= i < n -> l !! Z.to_nat i = Some (f i).

Lemma shows_update n f l i x : shows n f l -> 0 <= i < n -> shows n (fun j => if j =? i then x else f j) (<[Z.to_nat i := x]> l).
Proof.
  intros [Hl Hs] Hi. split; [by rewrite length_insert|]. intros j Hj. destruct (Z.eqb_spec j i) as [->|Hne]; [rewrite list_lookup_insert_eq by lia; done|]. rewrite list_lookup_insert_ne by lia. by apply Hs.
Qed.
Lemma shows_ext n f g l : (forall i, 0 <= i < n -> f i = g i) -> shows n f l -> shows n g l.
Proof. intros H [Hl Hs]. split; [done|]. intros i Hi. rewrite <- H by done. by apply Hs. Qed.

Context (n : Z) (n_big : 2 <= n) (n_fits : n * au < 2 ^ 32).

(** A range of the blob. *)
Definition in_blob (r : Z * Z) : Prop := 0 <= r.1 /\ 0 <= r.2 /\ r.1 + r.2 <= n * au.

Lemma unit_in_blob o : 0 <= o < n * au -> 0 <= o / au < n.
Proof using au_pos. intros. split; [apply Z.div_pos; lia|]. apply Z.div_lt_upper_bound; lia. Qed.

Lemma au_fits : au < 2 ^ 32.
Proof using au_pos n_big n_fits. nia. Qed.

Lemma get_loop f l off len : in_blob (off, len) -> shows n f l -> (forall i, 0 <= i < n -> 0 <= f i /\ f i + overlap i (off, len) < 2 ^ 32) ->
  exists l', whileM (get_step au (off +32 len)) 64 (off, l) = Some l' /\ shows n (fun i => f i + overlap i (off, len)) l'.
Proof using au_pos n_big n_fits.
  pose proof au_fits. intros (Ho & Hl & He) Hs Hf. cbn [fst snd] in *. rewrite u32_small by lia. set (e := off + len) in *.
  destruct (whileM_spec (get_step au e) (fun s => off <= s.1 <= e /\ shows n (fun i => f i + overlap i (off, s.1 - off)) s.2) (fun s => e - s.1) (shows n (fun i => f i + overlap i (off, len))) 64 (off, l)) as (l' & E & Hl'); [|..|by exists l'].
  - intros [o l1] [Hoe Hs1]. cbn [fst snd] in *. unfold get_step. destruct (Z.ltb_spec o e) as [Hlt|Hge].
    + pose proof (Z.mod_pos_bound o au au_pos). rewrite !(u32_small (_ - _)) by lia. fold (chunk e o). destruct (chunk_spec e o Hlt) as (Hd & Hde & Hdu & _). pose proof (unit_in_blob o ltac:(lia)) as Hp. destruct (Hs1) as [Hln Hlk]. rewrite (Hlk _ Hp). cbn [mbind option_bind].
      pose proof (overlap_grow (o / au) off o (chunk e o) ltac:(lia) ltac:(lia) Hdu) as Hg. rewrite Z.eqb_refl in Hg. destruct (Hf _ Hp) as [Hf0 Hf1].
      assert (overlap (o / au) (off, o + chunk e o - off) <= overlap (o / au) (off, len)) as Hmono by (unfold overlap; cbn [fst snd]; lia).
      assert (0 <= overlap (o / au) (off, o - off)) by (unfold overlap; lia). rewrite !u32_small by lia. eexists. split; [reflexivity|]. cbn [fst snd]. split; [|lia]. split; [lia|].
      eapply shows_ext; [|by apply shows_update]. intros i Hi. cbv beta. rewrite (overlap_grow i off o (chunk e o)) by lia. destruct (Z.eqb_spec i (o / au)) as [->|]; lia.
    + eexists. split; [reflexivity|]. eapply shows_ext; [|exact Hs1]. intros i Hi. cbv beta. assert (o - off = len) as -> by lia. done.
  - cbn [fst snd]. split; [lia|]. eapply shows_ext; [|exact Hs]. intros i Hi. cbv beta. rewrite Z.sub_diag. unfold overlap. cbn [fst snd]. lia.
  - cbn [fst]. change (2 ^ Z.of_nat 64) with (2 ^ 64). lia.
Qed.

(** ** Releases *)

Definition covered (rel : list pextent_t) (x : Z) : Prop := exists e, e ∈ rel /\ offset e <= x < offset e + length e.

Lemma covered_snoc rel e x : covered (rel ++ [e]) x <-> covered rel x \/ offset e <= x < offset e + length e.
Proof. unfold covered. setoid_rewrite elem_of_app. setoid_rewrite list_elem_of_singleton. split; [intros (y & [Hy| ->] & ?); eauto|intros [(y & ? & ?)|?]; eauto 10]. Qed.

(** The extents so far end at [next], not behind the unit [p]. *)
Definition rel_ok (p next : Z) (rel : list pextent_t) : Prop :=
  match last rel with Some e => next = offset e + length e /\ 0 <= offset e /\ 0 <= length e /\ next <= p * au | None => True end.

Lemma add_released_spec p next rel : 0 <= p < n -> rel_ok p next rel ->
  let '(next', rel') := add_released p au next rel in rel_ok (p + 1) next' rel' /\ forall x, covered rel' x <-> covered rel x \/ p * au <= x < (p + 1) * au.
Proof using au_pos n_big n_fits.
  intros Hp Hr. pose proof au_fits. assert ((p + 1) * au <= n * au) by (apply Z.mul_le_mono_nonneg_r; lia). assert (0 <= p * au) by nia. assert (u64 (p * au) = p * au) as E1 by (apply u64_small; lia). assert (p * au +64 au = (p + 1) * au) as E2 by (rewrite u64_small; lia).
  assert (rel_ok (p + 1) ((p + 1) * au) (rel ++ [pextent (p * au) au]) /\ forall x, covered (rel ++ [pextent (p * au) au]) x <-> covered rel x \/ p * au <= x < (p + 1) * au) as Hnew.
  { unfold rel_ok. rewrite last_snoc. unfold pextent. rewrite u32_small by lia. cbn [offset length]. split; [lia|]. intros x. rewrite covered_snoc. cbn [offset length]. by replace ((p + 1) * au) with (p * au + au) by lia. }
  unfold add_released. rewrite E1, E2. unfold rel_ok in Hr. destruct (last rel) as [e|] eqn:El; [|exact Hnew]. destruct (Z.eqb_spec next (p * au)) as [->|]; cbn [negb]; [|exact Hnew]. destruct Hr as (En & Ho & Hl & _).
  apply last_Some in El as [rel0 ->]. rewrite removelast_last. rewrite E2. unfold rel_ok. rewrite last_snoc. cbn [offset length]. rewrite (u32_small (length e + au)) by lia. split; [lia|]. intros x. rewrite !covered_snoc. cbn [offset length]. split; [intros [?|?]; [tauto|]|intros [[?|?]|?]; [tauto|right; lia|right; lia]]. destruct (decide (x < offset e + length e)); [left; right; lia|right; lia].
Qed.

(** The loop of [put] is at the unit [p]. *)
Record put_inv (f : Z -> Z) (off len : Z) (s : put_state) (p : Z) : Prop := {
  pi_at : (p = off / au /\ p_offset s = off) \/ (off / au < p /\ p_offset s = p * au /\ (p - 1) * au < off + len /\ 0 < len);
  pi_le : p <= n;
  pi_bytes : shows n (fun i => f i - overlap i (off, Z.min (p_offset s) (off + len) - off)) (p_bytes s);
  pi_rel : rel_ok p (p_next s) (p_release s);
  pi_covered : forall x, covered (p_release s) x <-> exists i, off / au <= i < p /\ f i - overlap i (off, len) = 0 /\ i * au <= x < (i + 1) * au;
  pi_empty : p_empty s = true <-> forall i, off / au <= i < p -> f i - overlap i (off, len) = 0;
}.

Lemma put_step_inv f off len s p : in_blob (off, len) -> (forall i, 0 <= i < n -> overlap i (off, len) <= f i < 2 ^ 32) -> put_inv f off len s p -> p_offset s < off + len ->
  exists s', put_step au (off + len) s = Some (inl s') /\ put_inv f off len s' (p + 1) /\ p_offset s < p_offset s'.
Proof using au_pos n_big n_fits.
  intros (Ho & Hl & He) Hf [Hat Hple Hb Hrel Hcov Hemp] Hlt. cbn [fst snd] in *. pose proof au_fits. set (o := p_offset s) in *.
  assert (off <= o /\ o / au = p /\ (o = off \/ o = o / au * au)) as (Hoo & Ep & Hcase).
  { destruct Hat as [[-> ->]|(Hp & -> & _)]; [split_and!; [lia|done|by left]|]. rewrite Z.div_mul by lia. split_and!; [|done|by right]. pose proof (unit_of off). pose proof (unit_lt (off / au) p Hp). lia. }
  destruct (overlap_here off len o ltac:(lia) Hcase) as [E0 Ec]. rewrite Ep in E0, Ec. destruct (chunk_spec (off + len) o Hlt) as (Hd & Hde & Hdu & Hend). pose proof (unit_in_blob o ltac:(lia)) as Hpn. rewrite Ep in Hpn, Hdu, Hend.
  pose proof (Z.mod_pos_bound o au au_pos) as Hm. pose proof (unit_of o) as Hu. rewrite Ep in Hu. pose proof (Z.div_mod o au ltac:(lia)) as Hdm. rewrite Ep in Hdm. assert ((p + 1) * au <= n * au) by (apply Z.mul_le_mono_nonneg_r; lia).
  unfold put_step. fold o. rewrite (proj2 (Z.ltb_lt _ _) Hlt), Ep, !(u32_small (_ - _)) by lia. fold (chunk (off + len) o). destruct (Hb) as [Hlen Hlook]. rewrite (Hlook p Hpn), Z.min_l, E0, Z.sub_0_r by lia. cbn [mbind option_bind]. destruct (Hf p Hpn) as [Hf1 Hf2]. rewrite Ec in Hf1.
  rewrite (proj2 (Z.leb_le _ _) Hf1). cbn [cxxlab_assert mbind option_bind]. rewrite (u32_small (f p - chunk _ _)) by lia.
  assert (o +32 (if o mod au =? 0 then au else au - o mod au) = (p + 1) * au) as Eo by (destruct (Z.eqb_spec (o mod au) 0); rewrite u32_small; lia). rewrite Eo.
  set (l' := <[Z.to_nat p := f p - chunk (off + len) o]> (p_bytes s)).
  assert (shows n (fun i => f i - overlap i (off, Z.min ((p + 1) * au) (off + len) - off)) l') as Hs'.
  { assert (Z.min ((p + 1) * au) (off + len) = o + chunk (off + len) o) as -> by lia. eapply shows_ext; [|by apply shows_update]. intros i Hi. cbv beta. rewrite (overlap_grow i off o (chunk (off + len) o)) by (rewrite ?Ep; lia). rewrite Ep, Z.min_l by lia. destruct (Z.eqb_spec i p) as [->|]; lia. }
  assert (off / au <= p) as Hop by (destruct Hat as [[? _]|[? _]]; lia).
  assert (((p + 1 = off / au /\ (p + 1) * au = off) \/ (off / au < p + 1 /\ (p + 1) * au = (p + 1) * au /\ (p + 1 - 1) * au < off + len /\ 0 < len))) as Hat' by (right; replace (p + 1 - 1) with p by lia; split_and!; [lia|done|lia|lia]).
  destruct (Z.eqb_spec (f p - chunk (off + len) o) 0) as [Hz|Hnz].
  - pose proof (add_released_spec p (p_next s) (p_release s) Hpn Hrel) as Ha. destruct (add_released p au (p_next s) (p_release s)) as [next' rel']. destruct Ha as [Hr' Hc']. eexists. split; [reflexivity|]. split; [|cbn [p_offset]; lia]. constructor; cbn [p_offset p_bytes p_next p_release p_empty]; [exact Hat'|lia|done|done| |].
    + intros x. rewrite Hc', Hcov. split; [intros [(i & ? & ? & ?)|?]; [exists i; split_and!; (done || lia)|exists p; split_and!; (done || lia)]|]. intros (i & Hi & Hg & Hx). destruct (decide (i = p)) as [->|]; [by right|left; exists i; split_and!; (done || lia)].
    + rewrite Hemp. split; intros H' i Hi; [|apply H'; lia]. destruct (decide (i = p)) as [->|]; [lia|apply H'; lia].
  - eexists. split; [reflexivity|]. split; [|cbn [p_offset]; lia]. constructor; cbn [p_offset p_bytes p_next p_release p_empty]; [exact Hat'|lia|done| | |].
    + unfold rel_ok in *. destruct (last (p_release s)); [|done]. lia.
    + intros x. rewrite Hcov. split; intros (i & Hi & Hg & Hx); [exists i; split_and!; (done || lia)|]. destruct (decide (i = p)) as [->|]; [lia|exists i; split_and!; (done || lia)].
    + split; [done|]. intros H'. specialize (H' p ltac:(lia)). lia.
Qed.

(** The end of the loop: the units that the range touched were visited. *)
Definition touched (r : Z * Z) (i : Z) : Prop := 0 < overlap i r.

Lemma visited f off len s p : put_inv f off len s p -> off + len <= p_offset s -> 0 <= len -> forall i, touched (off, len) i <-> off / au <= i < p.
Proof using au_pos n_big.
  intros [Hat _ _ _ _ _] Hend Hl i. unfold touched, overlap. cbn [fst snd]. pose proof (unit_of off) as Hu. destruct Hat as [[-> E]|(Hp & E & He & Hl0)]; rewrite E in Hend.
  - split; [|lia]. intros H. lia.
  - split; [intros H; split; [destruct (decide (i < off / au)) as [Hi|]; [|lia]; pose proof (unit_lt i (off / au) Hi); lia|destruct (decide (p <= i)) as [Hi|]; [|lia]; assert (p * au <= i * au) by (apply Z.mul_le_mono_nonneg_r; lia); lia]|].
    intros [Hi1 Hi2]. assert (i * au <= (p - 1) * au) by (apply Z.mul_le_mono_nonneg_r; lia). assert (off / au * au <= i * au) by (apply Z.mul_le_mono_nonneg_r; lia). lia.
Qed.

Lemma put_loop f l off len : in_blob (off, len) -> shows n f l -> (forall i, 0 <= i < n -> overlap i (off, len) <= f i < 2 ^ 32) ->
  exists s, whileM (put_step au (off +32 len)) 64 (mk_put off l 0 [] true) = Some s /\ let g i := f i - overlap i (off, len) in
    shows n g (p_bytes s) /\ (forall x, covered (p_release s) x <-> touched (off, len) (x / au) /\ g (x / au) = 0) /\
    (p_empty s = true <-> forall i, touched (off, len) i -> g i = 0).
Proof using au_pos n_big n_fits.
  intros Hr Hs Hf. pose proof Hr as (Ho & Hl & He). cbn [fst snd] in *. rewrite u32_small by lia.
  destruct (whileM_spec (put_step au (off + len)) (fun s => exists p, put_inv f off len s p) (fun s => Z.max 0 (off + len - p_offset s)) (fun s => (exists p, put_inv f off len s p) /\ off + len <= p_offset s) 64 (mk_put off l 0 [] true)) as (s & E & (p & Hp) & Hend).
  - intros s [p Hp]. destruct (Z.ltb_spec (p_offset s) (off + len)) as [Hlt|Hge].
    + destruct (put_step_inv f off len s p Hr Hf Hp Hlt) as (s' & E & Hp' & Hgt). exists (inl s'). split; [done|]. split; [by exists (p + 1)|lia].
    + exists (inr s). unfold put_step. rewrite (proj2 (Z.ltb_ge _ _) Hge). split; [done|]. split; [by exists p|done].
  - exists (off / au). assert (off / au <= n) as Hn.
    { destruct (decide (off < n * au)); [pose proof (unit_in_blob off ltac:(lia)); lia|]. assert (off = n * au) as -> by lia. rewrite Z.div_mul by lia. lia. }
    constructor; cbn [p_offset p_bytes p_next p_release p_empty]; [by left|done| |done| |].
    + eapply shows_ext; [|exact Hs]. intros i Hi. cbv beta. rewrite Z.min_l, Z.sub_diag by lia. unfold overlap. cbn [fst snd]. lia.
    + intros x. split; [intros (e & He' & _); set_solver|intros (i & Hi & _); lia].
    + split; [intros _ i Hi; lia|done].
  - cbn [p_offset]. change (2 ^ Z.of_nat 64) with (2 ^ 64). lia.
  - exists s. split; [done|]. cbv zeta. pose proof (visited f off len s p Hp Hend ltac:(lia)) as Hv. destruct Hp as [_ _ Hb _ Hc Hm]. split_and!.
    + eapply shows_ext; [|exact Hb]. intros i Hi. cbv beta. rewrite Z.min_r by lia. by replace (off + len - off) with len by lia.
    + intros x. rewrite Hc. split.
      * intros (i & Hi & Hg & Hx). apply unit_unique in Hx as ->. split; [by apply Hv|done].
      * intros [Ht Hg]. exists (x / au). split; [by apply Hv|]. split; [done|]. apply unit_of.
    + rewrite Hm. by setoid_rewrite Hv.
Qed.
End Tracker.

(** ** The whole tracker *)

(** A tracker of a blob of [full] bytes in units of [au]. *)
Definition in_range (full : Z) (r : Z * Z) : Prop := 0 <= r.1 /\ 0 <= r.2 /\ r.1 + r.2 <= full.

Record tracks (full au : Z) (R : list (Z * Z)) (t : use_tracker) : Prop := {
  t_au : 0 < au /\ au_size t = au;
  t_ranges : Forall (in_range full) R;
  t_usage :
    (num_au t = 0 /\ full <= au /\ usage t = total_bytes (total R)) \/
    (2 <= num_au t /\ full <= num_au t * au < 2 ^ 32 /\ exists l, usage t = bytes_per_au l /\ shows (num_au t) (fun i => need au i R) l);
}.

Lemma ranges_nonneg full R : Forall (in_range full) R -> Forall (fun r => 0 <= r.2) R.
Proof. intros H. eapply Forall_impl; [exact H|]. by intros r (? & ? & ?). Qed.

Lemma need_perm au i R R' : R ≡ₚ R' -> need au i R = need au i R'.
Proof. apply sumZ_Permutation. Qed.

Lemma total_zero R : Forall (fun r => 0 <= r.2) R -> total R = 0 <-> Forall (fun r => r.2 = 0) R.
Proof.
  induction 1 as [|r R Hr HR IH]; [split; [by constructor|done]|]. unfold total in *. rewrite sumZ_cons, Forall_cons, <- IH. pose proof (sumZ_nonneg _ _ HR). lia.
Qed.

(** Nothing is referenced exactly when all counters are 0. *)
Lemma need_zero full au n R : 0 < au -> full <= n * au -> Forall (in_range full) R -> (forall i, 0 <= i < n -> need au i R = 0) <-> total R = 0.
Proof.
  intros Ha Hf HR. split.
  - intros H. apply total_zero; [by eapply ranges_nonneg|]. rewrite Forall_forall in *. intros r Hr. destruct (HR r Hr) as (H1 & H2 & H3). destruct (decide (r.2 = 0)) as [|Hne]; [done|].
    assert (0 <= r.1 / au < n) as Hi by (split; [apply Z.div_pos; lia|apply Z.div_lt_upper_bound; lia]). specialize (H _ Hi). apply list_elem_of_split in Hr as (R1 & R2 & ->). unfold need in H. rewrite sumZ_app, sumZ_cons in H.
    assert (forall R, Forall (fun r => 0 <= r.2) R -> 0 <= sumZ (overlap au (r.1 / au)) R) as Hnn by (intros Q HQ; apply sumZ_nonneg; eapply Forall_impl; [exact HQ|]; intros q Hq; by apply overlap_bounds).
    assert (Forall (fun r => 0 <= r.2) R1 /\ Forall (fun r => 0 <= r.2) R2) as [G1 G2] by (rewrite !Forall_forall; split; intros q Hq; apply HR; set_solver). pose proof (Hnn R1 G1). pose proof (Hnn R2 G2). pose proof (unit_of au Ha r.1). unfold overlap at 2 in H. lia.
  - intros H i _. pose proof (need_bounds au i R (ranges_nonneg _ _ HR)). lia.
Qed.

Lemma init_tracks full au : 0 < au -> 0 <= full -> full + au - 1 < 2 ^ 32 -> exists t, init full au tracker_new = Some t /\ tracks full au [] t.
Proof.
  intros Ha Hf Hw. unfold init. rewrite (proj2 (Z.eqb_neq _ _)) by lia. assert (full +32 au -32 1 = full + au - 1) as E by (destruct (decide (full + au < 2 ^ 32)); [rewrite (u32_small (full + au)) by lia; apply u32_small; lia|]; assert (full + au = 2 ^ 32) as -> by lia; done). rewrite E.
  pose proof (Z.div_mod (full + au - 1) au ltac:(lia)). pose proof (Z.mod_pos_bound (full + au - 1) au Ha). set (n := (full + au - 1) / au) in *. cbv zeta. destruct (Z.leb_spec n 1).
  - eexists. split; [reflexivity|]. constructor; [done|by constructor|]. left. split_and!; [done|nia|done].
  - eexists. split; [reflexivity|]. constructor; [done|by constructor|]. right. cbn [num_au allocate usage]. split_and!; [lia|lia|lia|]. eexists. split; [reflexivity|]. split; [rewrite length_replicate; lia|]. intros i Hi. by apply lookup_replicate_2; lia.
Qed.

Lemma tracks_get full au R r t : tracks full au R t -> in_range full r -> total (r :: R) < 2 ^ 32 -> exists t', get r.1 r.2 t = Some t' /\ tracks full au (r :: R) t'.
Proof.
  intros [[Ha Ea] HR Hu] Hr Ht. unfold get. destruct r as [off len]. cbn [fst snd]. pose proof (ranges_nonneg _ _ HR) as Hnn. pose proof (sumZ_nonneg _ _ Hnn) as Htot. unfold total in Ht. rewrite sumZ_cons in Ht. cbn [snd] in Ht. pose proof Hr as (H1 & H2 & H3). cbn [fst snd] in *.
  destruct Hu as [(En & Hfull & Eu)|(Hn & [Hfull Hfit] & l & Eu & Hs)].
  - rewrite En. unfold read_total. rewrite Eu. cbn [mbind option_bind Z.eqb]. unfold total. rewrite u32_small by lia. eexists. split; [reflexivity|]. constructor; [done|by constructor|]. left. split_and!; [done|done|]. cbn [usage set_usage]. f_equal. unfold total. rewrite sumZ_cons. cbn [snd]. lia.
  - rewrite (proj2 (Z.eqb_neq (num_au t) 0)), Ea, (proj2 (Z.eqb_neq au 0)) by lia. assert (read_bytes t = Some l) as Er by (unfold read_bytes; by rewrite Eu). rewrite Er, some_bind.
    destruct (get_loop au Ha (num_au t) Hn Hfit (fun i => need au i R) l off len) as (l' & E & Hs'); [by split_and!; cbn [fst snd]; lia|done| |].
    { intros i Hi. pose proof (need_bounds au i R Hnn). pose proof (overlap_bounds au i (off, len) H2). unfold total in *. cbn [snd] in *. lia. }
    rewrite E, some_bind. eexists. split; [reflexivity|]. constructor; [done|by constructor|]. right. cbn [num_au set_usage usage]. split_and!; try done. eexists. split; [reflexivity|]. eapply shows_ext; [|exact Hs']. intros i Hi. cbv beta. unfold need. rewrite sumZ_cons. lia.
Qed.

(** What [put] returns for the range [r], when [R] is left. *)
Definition put_result (au : Z) (r : Z * Z) (R : list (Z * Z)) (b : bool) (rel : list pextent_t) : Prop :=
  (b = true <-> total R = 0) /\ (b = true -> rel = []) /\ (b = false -> forall x, covered rel x <-> touched au r (x / au) /\ need au (x / au) R = 0).

Lemma is_empty_shows n f l t : num_au t = n -> 0 < n -> usage t = bytes_per_au l -> shows n f l -> exists b, is_empty t = Some b /\ (b = true <-> forall i, 0 <= i < n -> f i = 0).
Proof.
  intros En Hn Eu [Hl Hs]. unfold is_empty. rewrite En, (proj2 (Z.eqb_neq _ _)) by lia. unfold counters, read_bytes. rewrite Eu, En. cbn [mbind option_bind]. rewrite (proj2 (Nat.leb_le _ _)) by lia. cbn [mbind option_bind]. rewrite take_ge by lia. eexists. split; [reflexivity|]. rewrite forallb_forall. split.
  - intros H i Hi. apply Z.eqb_eq, H, list_elem_of_In. eapply list_elem_of_lookup_2. by apply Hs.
  - intros H x Hx%list_elem_of_In. apply list_elem_of_lookup in Hx as [j Hj]. pose proof (lookup_lt_Some _ _ _ Hj). specialize (Hs (Z.of_nat j) ltac:(lia)). rewrite Nat2Z.id, Hj in Hs. injection Hs as ->. apply Z.eqb_eq, H. lia.
Qed.

Lemma tracks_put full au R r R' t : tracks full au R t -> R ≡ₚ r :: R' -> total R < 2 ^ 32 -> exists b rel t', put r.1 r.2 t = Some (b, rel, t') /\ tracks full au R' t' /\ put_result au r R' b rel.
Proof.
  intros [[Ha Ea] HR Hu] HP Ht. rewrite HP in HR. apply Forall_cons in HR as [Hr HR']. pose proof Hr as (H1 & H2 & H3). pose proof (ranges_nonneg _ _ HR') as Hnn. pose proof (sumZ_nonneg _ _ Hnn : 0 <= total R') as Htot. assert (total R = r.2 + total R') as Et by (unfold total; by rewrite (sumZ_Permutation _ _ _ HP), sumZ_cons). destruct r as [off len]. cbn [fst snd] in *. unfold put.
  destruct Hu as [(En & Hfull & Eu)|(Hn & [Hfull Hfit] & l & Eu & Hs)].
  - rewrite En. unfold read_total. rewrite Eu. cbn [mbind option_bind Z.eqb]. rewrite Et. destruct (Z.leb_spec (len + total R') len).
    + do 3 eexists. split; [reflexivity|]. split; [constructor; [done|done|left; split_and!; [done|done|cbn [usage set_usage]; f_equal; lia]]|]. split_and!; [split; [intros _; lia|done]|done|done].
    + rewrite u32_small by lia. do 3 eexists. split; [reflexivity|]. split; [constructor; [done|done|left; split_and!; [done|done|cbn [usage set_usage]; f_equal; lia]]|]. split_and!; [split; [done|lia]|done|]. intros _ x. split; [intros (e & He & _); set_solver|]. intros [Hto Hne]. exfalso. unfold touched, overlap in Hto. cbn [fst snd] in Hto.
      destruct (decide (x / au = 0)) as [E0|Hx]; [|destruct (decide (x / au < 0)); [pose proof (unit_lt au Ha (x / au) 0 ltac:(lia)); lia|pose proof (unit_lt au Ha 0 (x / au) ltac:(lia)); lia]]. assert (total R' = 0); [|lia]. apply (need_zero full au 1 R' Ha ltac:(lia) HR'). intros i Hi. assert (i = 0) as -> by lia. by rewrite E0 in Hne.
  - rewrite (proj2 (Z.eqb_neq (num_au t) 0)), Ea, (proj2 (Z.eqb_neq au 0)) by lia. assert (read_bytes t = Some l) as Er by (unfold read_bytes; by rewrite Eu). rewrite Er, some_bind.
    assert (forall i, need au i R = overlap au i (off, len) + need au i R') as En by (intros i; rewrite (need_perm au i _ _ HP); unfold need; by rewrite sumZ_cons).
    destruct (put_loop au Ha (num_au t) Hn Hfit (fun i => need au i R) l off len) as (s & E & Hb & Hcov & Hemp); [by split_and!; cbn [fst snd]; lia|done| |].
    { intros i Hi. rewrite En. pose proof (need_bounds au i R' Hnn). pose proof (overlap_bounds au i (off, len) H2). cbn [snd] in *. unfold total in *. lia. }
    rewrite E, some_bind. set (t' := set_usage (bytes_per_au (p_bytes s)) t). assert (shows (num_au t) (fun i => need au i R') (p_bytes s)) as Hb' by (eapply shows_ext; [|exact Hb]; intros i Hi; cbv beta; rewrite En; lia).
    destruct (is_empty_shows (num_au t) _ (p_bytes s) t' eq_refl ltac:(lia) eq_refl Hb') as (b & Eb & Hbz). rewrite (need_zero full au (num_au t) R' Ha Hfull HR') in Hbz. unfold is_not_empty. rewrite Eb, !some_bind. cbv zeta. rewrite negb_involutive.
    assert (tracks full au R' t') as Ht' by (constructor; [done|done|right; split_and!; try done; by eexists]). assert (b = true -> p_empty s = true) as Hbe.
    { intros Hbt. apply Hemp. intros i Hi. cbv beta. rewrite En. apply Hbz in Hbt. pose proof (need_bounds au i R' Hnn). lia. }
    do 3 eexists. split; [reflexivity|]. split; [exact Ht'|]. assert ((if p_empty s then b else false) = b) as -> by (destruct (p_empty s), b; naive_solver). split_and!; [done|by intros ->|]. intros ->. intros x. rewrite Hcov, En. by replace (overlap au (x / au) (off, len) + need au (x / au) R' - overlap au (x / au) (off, len)) with (need au (x / au) R') by lia.
Qed.

(** ** Sequences of calls *)

Inductive op := OGet (r : Z * Z) | OPut (r : Z * Z).
Definition apply_op (o : op) (t : use_tracker) : option use_tracker :=
  match o with OGet r => get r.1 r.2 t | OPut r => '(_, _, t) ← put r.1 r.2 t; Some t end.
Fixpoint apply_ops (l : list op) (t : use_tracker) : option use_tracker := match l with [] => Some t | o :: l => t ← apply_op o t; apply_ops l t end.

(** Ranges that are referenced, after calls that drop only such. *)
Inductive legal (full : Z) : list op -> list (Z * Z) -> Prop :=
  | legal_nil : legal full [] []
  | legal_get l R r : legal full l R -> in_range full r -> legal full (l ++ [OGet r]) (r :: R)
  | legal_put l R r R' : legal full l R -> R ≡ₚ r :: R' -> legal full (l ++ [OPut r]) R'.

Definition asked (l : list op) : Z := sumZ (fun o => match o with OGet r => r.2 | OPut _ => 0 end) l.

Lemma apply_ops_app l1 l2 t : apply_ops (l1 ++ l2) t = (t ← apply_ops l1 t; apply_ops l2 t).
Proof. revert t. induction l1 as [|o l1 IH]; intros t; [done|]. cbn [apply_ops app]. destruct (apply_op o t); [rewrite !some_bind; apply IH|done]. Qed.

Lemma legal_total full l R : legal full l R -> Forall (in_range full) R /\ total R <= asked l.
Proof.
  induction 1 as [|l R r Hl [HR Ht] Hr|l R r R' Hl [HR Ht] HP]; [done|..]; unfold asked, total in *; rewrite sumZ_app, !sumZ_cons, sumZ_nil.
  - split; [by constructor|]. lia.
  - rewrite HP in HR. apply Forall_cons in HR as [(_ & ? & _) HR]. split; [done|]. rewrite (sumZ_Permutation _ _ _ HP), sumZ_cons in Ht. lia.
Qed.

Lemma legal_tracks full au l R t : legal full l R -> asked l < 2 ^ 32 -> tracks full au [] t -> exists t', apply_ops l t = Some t' /\ tracks full au R t'.
Proof.
  intros Hl. revert t. induction Hl as [|l R r Hl IH Hr|l R r R' Hl IH HP]; intros t Ha Ht; [by exists t|..].
  - pose proof (legal_total _ _ _ (legal_get _ _ _ _ Hl Hr)) as [_ Htot]. unfold asked in *. rewrite sumZ_app, sumZ_cons, sumZ_nil in *. pose proof Hr as (_ & ? & _). destruct (IH t ltac:(lia) Ht) as (t1 & E1 & Ht1). destruct (tracks_get full au R r t1 Ht1 Hr ltac:(lia)) as (t2 & E2 & Ht2).
    exists t2. split; [|done]. rewrite apply_ops_app, E1, some_bind. cbn [apply_ops apply_op]. by rewrite E2.
  - pose proof (legal_total _ _ _ Hl) as [_ Htot]. unfold asked in *. rewrite sumZ_app, sumZ_cons, sumZ_nil in *. destruct (IH t ltac:(lia) Ht) as (t1 & E1 & Ht1). destruct (tracks_put full au R r R' t1 Ht1 HP ltac:(lia)) as (b & rel & t2 & E2 & Ht2 & _).
    exists t2. split; [|done]. rewrite apply_ops_app, E1, some_bind. cbn [apply_ops apply_op]. by rewrite E2.
Qed.

(** C6: the tracker of a blob is exact.  After any sequence of [get] and [put]
    of ranges of the blob in which only referenced ranges are put, no assertion
    failed and each counter is the number of referenced bytes in its unit.
    Putting another range then says whether nothing is referenced any more, and
    if something is, returns exactly the bytes of the units that lost their last
    reference. *)
Theorem use_tracker_exact full au l R : 0 < au -> 0 <= full -> full + au - 1 < 2 ^ 32 -> legal full l R -> asked l < 2 ^ 32 ->
  exists t0 t, init full au tracker_new = Some t0 /\ apply_ops l t0 = Some t /\ tracks full au R t /\
    forall r R', R ≡ₚ r :: R' -> exists b rel t', put r.1 r.2 t = Some (b, rel, t') /\ tracks full au R' t' /\ put_result au r R' b rel.
Proof.
  intros Ha Hf Hw Hl Hs. destruct (init_tracks full au Ha Hf Hw) as (t0 & E0 & H0). destruct (legal_tracks full au l R t0 Hl Hs H0) as (t & E & Ht). exists t0, t. split_and!; [done|done|done|]. intros r R' HP. apply (tracks_put full au R r R' t Ht HP). pose proof (legal_total _ _ _ Hl). lia.
Qed.

(** Three units; the last of two references to the middle one goes. *)
Definition demo_ops : list op := [OGet (0, 8192); OGet (4096, 100); OPut (0, 8192)].

Lemma ops_legal : legal 12288 demo_ops [(4096, 100)].
Proof.
  refine (legal_put _ [OGet (0, 8192); OGet (4096, 100)] [(4096, 100); (0, 8192)] (0, 8192) _ _ _); [|by apply perm_swap].
  refine (legal_get _ [OGet (0, 8192)] [(0, 8192)] (4096, 100) _ _); [|by split_and!]. refine (legal_get _ [] [] (0, 8192) _ _); [constructor|by split_and!].
Qed.

Lemma use_tracker_exact_witness : exists t0 t b rel t', init 12288 4096 tracker_new = Some t0 /\ apply_ops demo_ops t0 = Some t /\ put 4096 100 t = Some (b, rel, t') /\ b = true /\ rel = [].
Proof.
  destruct (use_tracker_exact 12288 4096 demo_ops [(4096, 100)] ltac:(lia) ltac:(lia) ltac:(lia) ops_legal ltac:(reflexivity)) as (t0 & t & E0 & E & _ & Hput).
  destruct (Hput (4096, 100) [] ltac:(reflexivity)) as (b & rel & t' & Ep & _ & Hb & Hr & _). exists t0, t, b, rel, t'. split; [exact E0|]. split; [exact E|]. split; [exact Ep|]. assert (b = true) as Hbt by (by apply Hb). split; [exact Hbt|exact (Hr Hbt)].
Defined.
End UseTrackerSpec.
