(* ===== verification/Blob.v ===== *)
(** * bluestore/bluestore_types.{h,cc} and bluestore/blob.{h,cc}: blobs

    [bluestore_blob_t] maps the bytes of a blob to the disk by a list of extents,
    some of which have no space yet, and keeps checksums and a bitmap of parts
    that were never written.  [Blob] adds the tracker of references.  Undefined
    behaviour (a division by zero, an access outside of a buffer, an
    uninitialized value) is [None], like a failed assertion. *)
From stdpp Require Import base numbers list.
From Stdlib Require Import ZArith Lia ZifyBool.
From S2P Require Import Prelude IntArith Crc32 IntervalSet Allocator Denc UseTracker.
Import Allocator.

Module Blob.
Local Open Scope Z_scope.
Abbreviation zlen l := (Z.of_nat (List.length l)).

Definition CSUM_NONE : Z := 1.
Definition CSUM_XXHASH32 : Z := 2.
Definition CSUM_XXHASH64 : Z := 3.
Definition CSUM_CRC32C : Z := 4.
Definition CSUM_CRC32C_16 : Z := 5.
Definition CSUM_CRC32C_8 : Z := 6.

Definition csum_value_size (type : Z) : Z :=
  if type =? CSUM_NONE then 0
  else if (type =? CSUM_CRC32C) || (type =? CSUM_XXHASH32) then 4
  else if type =? CSUM_CRC32C_16 then 2
  else if type =? CSUM_CRC32C_8 then 1
  else if type =? CSUM_XXHASH64 then 8
  else 0.

Definition FLAG_CSUM : Z := 4.
Definition FLAG_HAS_UNUSED : Z := 8.

Record bluestore_blob_t := mk_blob {
  extents : list pextent_t;
  logical_length : Z;
  flags : Z;
  csum_type : Z;
  csum_chunk_order : Z;
  csum_data : bytes;
  unused : Z;
}.

Definition blob_new : bluestore_blob_t := mk_blob [] 0 0 CSUM_NONE 0 [] 0.

Definition set_extents (l : list pextent_t) (len : Z) (b : bluestore_blob_t) : bluestore_blob_t := mk_blob l len (flags b) (csum_type b) (csum_chunk_order b) (csum_data b) (unused b).
Definition set_flags (f : Z) (b : bluestore_blob_t) : bluestore_blob_t := mk_blob (extents b) (logical_length b) f (csum_type b) (csum_chunk_order b) (csum_data b) (unused b).
Definition set_csum_data (d : bytes) (b : bluestore_blob_t) : bluestore_blob_t := mk_blob (extents b) (logical_length b) (flags b) (csum_type b) (csum_chunk_order b) d (unused b).
Definition set_unused (u : Z) (b : bluestore_blob_t) : bluestore_blob_t := mk_blob (extents b) (logical_length b) (flags b) (csum_type b) (csum_chunk_order b) (csum_data b) u.

Definition has_flag (f : Z) (b : bluestore_blob_t) : bool := negb (Z.land (flags b) f =? 0).
Definition set_flag (f : Z) (b : bluestore_blob_t) : bluestore_blob_t := set_flags (Z.lor (flags b) f) b.
Definition clear_flag (f : Z) (b : bluestore_blob_t) : bluestore_blob_t := set_flags (Z.land (flags b) (Crc32.not32 f)) b.
Definition has_csum : bluestore_blob_t -> bool := has_flag FLAG_CSUM.
Definition has_unused : bluestore_blob_t -> bool := has_flag FLAG_HAS_UNUSED.

Definition get_csum_chunk_size (b : bluestore_blob_t) : Z := u32 (Z.shiftl 1 (csum_chunk_order b)).
Definition get_chunk_size (dev_block_size : Z) (b : bluestore_blob_t) : Z := if has_csum b then Z.max dev_block_size (get_csum_chunk_size b) else dev_block_size.
Definition get_ondisk_length (b : bluestore_blob_t) : Z := foldl (fun len e => len +32 length e) 0 (extents b).
Definition get_csum_value_size (b : bluestore_blob_t) : Z := csum_value_size (csum_type b).

(** [buffer::create(n)] gives [n] bytes that are not initialized. *)
Definition init_csum (create : Z -> bytes) (type order len : Z) (b : bluestore_blob_t) : bluestore_blob_t :=
  let chunk := u32 (Z.shiftl 1 order) in
  mk_blob (extents b) (logical_length b) (Z.lor (flags b) FLAG_CSUM) type order (create (u64 (csum_value_size type * len) / chunk)) (unused b).

(** The checksums of what was there are kept, the others are 0. *)
Definition add_tail (new_len : Z) (b : bluestore_blob_t) : option bluestore_blob_t :=
  let b := set_extents (extents b ++ [pextent INVALID_OFFSET (new_len -32 logical_length b)]) new_len b in
  if has_csum b then
    let n := u64 (get_csum_value_size b * logical_length b) / get_csum_chunk_size b in
    if zlen (csum_data b) <=? n then Some (set_csum_data (csum_data b ++ replicate (Z.to_nat (n - zlen (csum_data b))) 0) b) else None
  else Some b.

Definition can_split (b : bluestore_blob_t) : bool := negb (has_flag FLAG_HAS_UNUSED b).
Definition can_split_at (blob_offset : Z) (b : bluestore_blob_t) : bool := negb (has_csum b) || (blob_offset mod get_csum_chunk_size b =? 0).

(** Every extent that meets the range satisfies [ok]. *)
Fixpoint range_all (ok : pextent_t -> bool) (b_off b_len extent_off : Z) (l : list pextent_t) : bool :=
  match l with
  | [] => true
  | e :: t =>
      let extent_end := extent_off +64 length e in
      if (b_off <? extent_end) && (extent_off <? b_off +64 b_len) && negb (ok e) then false
      else if b_off +64 b_len <=? extent_end then true
      else range_all ok b_off b_len extent_end t
  end.
Definition is_unallocated (b_off b_len : Z) (b : bluestore_blob_t) : bool :=
  if logical_length b <? b_off +64 b_len then false else range_all (fun e => negb (is_valid e)) b_off b_len 0 (extents b).
Definition is_allocated (b_off b_len : Z) (b : bluestore_blob_t) : bool :=
  if logical_length b <? b_off +64 b_len then false else range_all is_valid b_off b_len 0 (extents b).

(** The calls of [f] that [map] makes. *)
Fixpoint map_extents (b_off b_len extent_off : Z) (l : list pextent_t) : list (Z * Z) :=
  match l with
  | [] => []
  | e :: t =>
      let extent_end := extent_off +64 length e in
      (if (b_off <? extent_end) && (extent_off <? b_off +64 b_len) then
         let s := Z.max b_off extent_off in
         let e_end := Z.min (b_off +64 b_len) extent_end in
         [(offset e +64 (s -64 extent_off), e_end -64 s)]
       else []) ++
      (if b_off +64 b_len <=? extent_end then [] else map_extents b_off b_len extent_end t)
  end.
Definition map (b_off b_len : Z) (b : bluestore_blob_t) : list (Z * Z) := map_extents b_off b_len 0 (extents b).

(** ** Parts that were never written *)

(** The size of a chunk of the bitmap of 16 bits. *)
Definition unused_chunk (off len : Z) (b : bluestore_blob_t) : option Z :=
  let blob_len := logical_length b in
  _ ← cxxlab_assert (blob_len mod 16 =? 0);
  _ ← cxxlab_assert (off +64 len <=? blob_len);
  if blob_len / 16 =? 0 then None else Some (blob_len / 16).

Fixpoint all_set (u : Z) (i : Z) (n : nat) : bool := match n with O => true | S n => Z.testbit u i && all_set u (i + 1) n end.
Definition is_unused (off len : Z) (b : bluestore_blob_t) : option bool :=
  if negb (has_unused b) then Some false
  else
    chunk ← unused_chunk off len b;
    let s := off / chunk in
    let e := IntArith.round_up_to 64 (off +64 len) chunk / chunk in
    Some (all_set (unused b) s (Z.to_nat (e - s))).

Definition add_unused (off len : Z) (b : bluestore_blob_t) : option bluestore_blob_t :=
  chunk ← unused_chunk off len b;
  let s := IntArith.round_up_to 64 off chunk / chunk in
  let e := (off +64 len) / chunk in
  let b' := set_unused (foldl (fun u i => wrap 16 (Z.lor u (u32 (Z.shiftl 1 i)))) (unused b) (seqZ s (e - s))) b in
  Some (if negb (s =? e) then set_flag FLAG_HAS_UNUSED b' else b').

Definition mark_used (off len : Z) (b : bluestore_blob_t) : option bluestore_blob_t :=
  if negb (has_unused b) then Some b
  else
    chunk ← unused_chunk off len b;
    let s := off / chunk in
    let e := IntArith.round_up_to 64 (off +64 len) chunk / chunk in
    let b' := set_unused (foldl (fun u i => wrap 16 (Z.land u (Crc32.not32 (u32 (Z.shiftl 1 i))))) (unused b) (seqZ s (e - s))) b in
    Some (if unused b' =? 0 then clear_flag FLAG_HAS_UNUSED b' else b').

(** ** Space *)

Definition allocated (b_off len : Z) (allocs : list pextent_t) (b : bluestore_blob_t) : bluestore_blob_t := set_extents allocs len b.

(** The extents left and right of [blob_offset]; [off] is where the list begins. *)
Fixpoint split_extents (blob_offset off : Z) (l : list pextent_t) : list pextent_t * list pextent_t :=
  match l with
  | [] => ([], [])
  | e :: t =>
      if off +32 length e <=? blob_offset then let '(a, b) := split_extents blob_offset (off +32 length e) t in (e :: a, b)
      else if off <? blob_offset then
        let split_len := blob_offset -32 off in
        ([mk_pextent (offset e) split_len],
         (if is_valid e then pextent (offset e +64 split_len) (length e -32 split_len) else pextent INVALID_OFFSET (length e -32 split_len)) :: t)
      else ([], l)
  end.

(** The blob that stays, and the right part [rb]. *)
Definition split (blob_offset : Z) (b rb : bluestore_blob_t) : option (bluestore_blob_t * bluestore_blob_t) :=
  let '(l, r) := split_extents blob_offset 0 (extents b) in
  let rb := mk_blob r (logical_length b -32 blob_offset) (flags b) (csum_type rb) (csum_chunk_order rb) (csum_data rb) (unused rb) in
  let b := set_extents l blob_offset b in
  if has_csum b then
    let csum_size := get_csum_value_size b in
    let left_chunks := blob_offset / get_csum_chunk_size b in
    let right_chunks := logical_length rb / get_csum_chunk_size b in
    if csum_size * (left_chunks + right_chunks) <=? zlen (csum_data b) then
      Some (set_csum_data (take (Z.to_nat (csum_size * left_chunks)) (csum_data b)) b,
            mk_blob r (logical_length rb) (Z.lor (flags rb) FLAG_CSUM) (csum_type b) (csum_chunk_order b)
              (take (Z.to_nat (csum_size * right_chunks)) (drop (Z.to_nat (csum_size * left_chunks)) (csum_data b))) (unused rb))
    else None
  else Some (b, rb).

(** Extents that a range of [logical] covers go to the list of releases. *)
Fixpoint release_some (logical : list pextent_t) (logical_off : Z) (l : list pextent_t) : list pextent_t * list pextent_t :=
  match l with
  | [] => ([], [])
  | e :: t =>
      let e_end := logical_off +32 length e in
      let '(kept, released) := release_some logical e_end t in
      if existsb (fun x => (offset x <=? logical_off) && (e_end <=? offset x +64 length x)) logical
      then (kept, (if is_valid e then [e] else []) ++ released) else (e :: kept, released)
  end.

(** The result, what is released, and the blob. *)
Definition release_extents (all : bool) (logical : list pextent_t) (b : bluestore_blob_t) : bool * list pextent_t * bluestore_blob_t :=
  if all then (true, filter (fun e => is_valid e = true) (extents b), set_extents [] 0 b)
  else
    let '(kept, released) := release_some logical 0 (extents b) in
    (match kept with [] => true | _ => false end, released, set_extents kept (foldl (fun len e => len +32 length e) 0 kept) b).

(** ** Checksums *)

(** [memcpy] of [src] to the offset [off] of a buffer. *)
Definition copy_in (off : Z) (src dst : bytes) : option bytes :=
  if off + zlen src <=? zlen dst then Some (take (Z.to_nat off) dst ++ src ++ drop (Z.to_nat (off + zlen src)) dst) else None.

Definition chunk_crc (i chunk_size : Z) (bl : bytes) : Z := Crc32.calc_crc32 (take (Z.to_nat chunk_size) (drop (Z.to_nat (i * chunk_size)) bl)) 0.

Definition calc_csum (b_off : Z) (bl : bytes) (dev_block_size : Z) (b : bluestore_blob_t) : option bluestore_blob_t :=
  if negb (has_csum b) || (zlen bl =? 0) then Some b
  else
    let chunk_size := get_chunk_size dev_block_size b in
    let vsz := get_csum_value_size b in
    d ← for_ 0 (u32 (zlen bl / chunk_size)) (fun i d =>
      let csum_idx := u32 (b_off / chunk_size + i) in
      if vsz <=? 4 then copy_in (csum_idx * vsz) (take (Z.to_nat vsz) (le_bytes 4 (chunk_crc i chunk_size bl))) d else None) (csum_data b);
    Some (set_csum_data d b).

(** The stored value, of which all four bytes must be there. *)
Definition stored_crc (idx vsz : Z) (d : bytes) : option Z :=
  if (vsz =? 4) && (idx * vsz + 4 <=? zlen d) then Some (le_val (take 4 (drop (Z.to_nat (idx * vsz)) d))) else None.

Definition to_int (x : Z) : Z := if u32 x <? 2 ^ 31 then u32 x else u32 x - 2 ^ 32.

Fixpoint verify_loop (b_off chunk_size vsz : Z) (d bl : bytes) (i : Z) (n : nat) : option Z :=
  match n with
  | O => Some (- 1)
  | S n =>
      crc ← stored_crc (u32 (b_off / chunk_size + i)) vsz d;
      if negb (chunk_crc i chunk_size bl =? crc) then Some (to_int (b_off +64 u64 (i * chunk_size)))
      else verify_loop b_off chunk_size vsz d bl (i + 1) n
  end.
Definition verify_csum (b_off : Z) (bl : bytes) (dev_block_size : Z) (b : bluestore_blob_t) : option Z :=
  if negb (has_csum b) || (zlen bl =? 0) then Some (- 1)
  else
    let chunk_size := get_chunk_size dev_block_size b in
    verify_loop b_off chunk_size (get_csum_value_size b) (csum_data b) bl 0 (Z.to_nat (u32 (zlen bl / chunk_size))).

(** ** blob.{h,cc} *)

(** The part of [Blob] that is not about caches. *)
Record Blob := mk_Blob { id_ : Z; blob_ : bluestore_blob_t; used_in_blob_ : UseTracker.use_tracker }.

Definition is_referenced (x : Blob) : option bool := UseTracker.is_not_empty (used_in_blob_ x).
Definition get_referenced_bytes (x : Blob) : option Z := UseTracker.get_referenced_bytes (used_in_blob_ x).
Definition is_spanning (x : Blob) : bool := 0 <=? id_ x.
Definition Blob_can_split (x : Blob) : bool := UseTracker.can_split (used_in_blob_ x) && can_split (blob_ x).
Definition Blob_can_split_at (blob_offset : Z) (x : Blob) : option bool :=
  u ← UseTracker.can_split_at blob_offset (used_in_blob_ x); Some (u && can_split_at blob_offset (blob_ x)).

(** The unit in which space is released. *)
Definition release_unit (min_alloc_size : Z) (b : bluestore_blob_t) : Z := if has_csum b then Z.max min_alloc_size (get_csum_chunk_size b) else min_alloc_size.

Definition get_ref (offset length min_alloc_size : Z) (x : Blob) : option Blob :=
  _ ← cxxlab_assert (negb (logical_length (blob_ x) =? 0));
  e ← UseTracker.is_empty (used_in_blob_ x);
  t ← (if e : bool then UseTracker.init (logical_length (blob_ x)) (release_unit min_alloc_size (blob_ x)) (used_in_blob_ x) else Some (used_in_blob_ x));
  t ← UseTracker.get offset length t;
  Some (mk_Blob (id_ x) (blob_ x) t).

Definition put_ref (offset length : Z) (x : Blob) : option (bool * list pextent_t * Blob) :=
  '(empty, logical, t) ← UseTracker.put offset length (used_in_blob_ x);
  if negb empty && (List.length logical =? 0)%nat then Some (false, [], mk_Blob (id_ x) (blob_ x) t)
  else let '(r, released, b) := release_extents empty logical (blob_ x) in Some (r, released, mk_Blob (id_ x) b t).

Definition Blob_split (blob_offset : Z) (x rb : Blob) : option (Blob * Blob) :=
  '(t, rt) ← UseTracker.split blob_offset (used_in_blob_ x);
  '(b, r) ← split blob_offset (blob_ x) (blob_ rb);
  Some (mk_Blob (id_ x) b t, mk_Blob (id_ rb) r rt).

(** The result, the length that can be written, and the blob. *)
Definition can_reuse_blob (min_alloc_size target_blob_size b_offset length0 : Z) (x : Blob) : option (bool * Z * Blob) :=
  let b := blob_ x in
  let e := b_offset +32 length0 in
  if has_csum b && (negb (b_offset mod get_csum_chunk_size b =? 0) || negb (e mod get_csum_chunk_size b =? 0)) then Some (false, length0, x)
  else
    let blen := logical_length b in
    let target_blob_size := Z.max blen target_blob_size in
    let new_blen := if blen <=? b_offset then e else Z.max blen e in
    let overlap := if blen <? new_blen then blen -32 b_offset else length0 in
    if negb (blen <=? b_offset) && negb (is_unallocated b_offset overlap b) then Some (false, length0, x)
    else if blen <? new_blen then
      let new_blen := Z.land (new_blen +32 min_alloc_size -32 1) (Crc32.not32 (min_alloc_size -32 1)) in
      let overflow := new_blen - target_blob_size in
      if length0 <=? overflow then Some (false, length0, x)
      else if has_unused b then Some (false, length0, x)
      else
        let '(new_blen, len) := if 0 <? overflow then (u32 (new_blen - overflow), u32 (length0 - overflow)) else (new_blen, length0) in
        if blen <? new_blen then
          b ← add_tail new_blen b;
          t ← UseTracker.add_tail new_blen (release_unit min_alloc_size b) (used_in_blob_ x);
          Some (true, len, mk_Blob (id_ x) b t)
        else Some (true, len, x)
    else Some (true, length0, x).
End Blob.
