(* ===== verification/BlobSpec.v ===== *)
(** * Blobs: addresses and checksums

    Splitting a blob keeps the address of every byte, mapping a range gives the
    addresses of its bytes, checksums accept what they were computed from and
    find a changed byte.  Module [BlobFindings] shows where blobs go wrong. *)
From stdpp Require Import base numbers list sets.
From Stdlib Require Import ZArith Lia ZifyBool.
From S2P Require Import Prelude IntArith Crc32 IntervalSet Allocator Denc UseTracker Blob.
Import Allocator Blob.

Module BlobSpec.
Local Open Scope Z_scope.
Abbreviation zlen l := (Z.of_nat (List.length l)).

(** ** Addresses *)

(** The address of the byte [x]: [Some None] if it has no space. *)
Fixpoint addr (l : list pextent_t) (x : Z) : option (option Z) :=
  match l with
  | [] => None
  | e :: t => if x <? length e then Some (if is_valid e then Some (offset e + x) else None) else addr t (x - length e)
  end.

Definition extent_fits (e : pextent_t) : Prop := 0 <= length e /\ 0 <= offset e /\ (is_valid e = true -> offset e + length e < 2 ^ 64 - 1).
Definition size (l : list pextent_t) : Z := sumZ length l.

(** The extents cover the blob. *)
Record blob_wf (b : bluestore_blob_t) : Prop := {
  b_extents : Forall extent_fits (extents b);
  b_size : size (extents b) = logical_length b;
  b_small : logical_length b < 2 ^ 32;
}.

Lemma size_cons e l : size (e :: l) = length e + size l.
Proof. done. Qed.
Lemma size_nonneg l : Forall extent_fits l -> 0 <= size l.
Proof. intros H. apply sumZ_nonneg. eapply Forall_impl; [exact H|]. by intros e (? & _). Qed.

(** The extents right of a cut in the extent [e]. *)
Lemma cut_addr e k x : extent_fits e -> 0 < k < length e -> length e < 2 ^ 32 -> 0 <= x < length e - k ->
  let e' := if is_valid e then pextent (offset e +64 k) (length e -32 k) else pextent INVALID_OFFSET (length e -32 k) in
  length e' = length e - k /\ extent_fits e' /\ (if is_valid e' then Some (offset e' + x) else None) = (if is_valid e then Some (offset e + (k + x)) else None).
Proof.
  intros (Hl & Ho & Hv) Hk Hs Hx. unfold is_valid, pextent in *. rewrite (u32_small (length e - k)) by lia. destruct (Z.eqb_spec (offset e) INVALID_OFFSET) as [E|Hne]; cbn [negb] in *.
  - cbn [offset length]. rewrite Z.eqb_refl. cbn [negb]. rewrite u32_small by lia. split_and!; [done| |done]. split_and!; [cbn [length]; lia|done|]. unfold is_valid. cbn [offset]. by rewrite Z.eqb_refl.
  - specialize (Hv eq_refl). rewrite (u64_small (offset e + k)) by lia. cbn [offset length]. rewrite u32_small by lia. unfold INVALID_OFFSET, UINT64_MAX in *. rewrite (proj2 (Z.eqb_neq _ _)) by lia. cbn [negb]. split_and!; [done| |f_equal; lia]. split_and!; cbn [offset length]; lia.
Qed.

Lemma split_extents_addr B l : forall off, Forall extent_fits l -> 0 <= off <= B -> B <= off + size l < 2 ^ 32 ->
  let '(a, r) := split_extents B off l in
  Forall extent_fits a /\ Forall extent_fits r /\ size a = B - off /\ size r = off + size l - B /\
  (forall x, 0 <= x < B - off -> addr a x = addr l x) /\ (forall x, 0 <= x -> addr r x = addr l (B - off + x)).
Proof.
  induction l as [|e l IH]; intros off Hl Ho HB; cbn [split_extents].
  - unfold size in *. cbn in *. split_and!; (done || (intros; lia)).
  - apply Forall_cons in Hl as [He Hl]. pose proof He as (Hlen & _ & _). rewrite size_cons in *. pose proof (size_nonneg l Hl). rewrite (u32_small (off + length e)) by lia. destruct (Z.leb_spec (off + length e) B).
    + specialize (IH (off + length e) Hl ltac:(lia) ltac:(lia)). destruct (split_extents B (off + length e) l) as [a r]. destruct IH as (Ha & Hr & Hsa & Hsr & Aa & Ar). split_and!; [by constructor|done|rewrite size_cons; lia|lia| |].
      * intros x Hx. cbn [addr]. destruct (Z.ltb_spec x (length e)); [done|]. apply Aa. lia.
      * intros x Hx. cbn [addr]. rewrite (proj2 (Z.ltb_ge _ _)) by lia. rewrite Ar by done. f_equal. lia.
    + destruct (Z.ltb_spec off B).
      * rewrite (u32_small (B - off)) by lia. pose proof (cut_addr e (B - off) 0 He ltac:(lia) ltac:(lia) ltac:(lia)) as Hc0. cbv zeta in Hc0. set (e' := if is_valid e then _ else _) in *. destruct Hc0 as (El & Hf & _).
        split_and!; [constructor; [|done]|by constructor|rewrite size_cons; cbn; lia|rewrite size_cons; lia| |].
        -- destruct He as (? & ? & Hv). split_and!; cbn [offset length]; [lia|lia|]. change (is_valid (mk_pextent (offset e) (B - off))) with (is_valid e). intros Hve. specialize (Hv Hve). lia.
        -- intros x Hx. cbn [addr length]. rewrite !(proj2 (Z.ltb_lt _ _)) by lia. done.
        -- intros x Hx. cbn [addr]. rewrite El. destruct (Z.ltb_spec x (length e - (B - off))).
           ++ rewrite (proj2 (Z.ltb_lt _ _)) by lia. f_equal. destruct (cut_addr e (B - off) x He ltac:(lia) ltac:(lia) ltac:(lia)) as (_ & _ & Hc). exact Hc.
           ++ rewrite (proj2 (Z.ltb_ge _ _)) by lia. f_equal. lia.
      * assert (off = B) as -> by lia. split_and!; [done|by constructor|unfold size; cbn; lia|rewrite size_cons; lia|intros; lia|]. intros x Hx. f_equal. lia.
Qed.

(** ** Mapping a range *)

Definition flatten (l : list (Z * Z)) : list Z := concat ((fun p => seqZ p.1 p.2) <$> l).

Lemma seqZ_split a m n : 0 <= m -> 0 <= n -> seqZ a (m + n) = seqZ a m ++ seqZ (a + m) n.
Proof. intros. by rewrite seqZ_app by lia. Qed.

Lemma map_extents_addr s e l : forall eo, Forall extent_fits l -> 0 <= eo -> 0 <= s <= e -> eo + size l < 2 ^ 64 -> e <= eo + size l -> range_all is_valid s (e - s) eo l = true ->
  (fun a => Some (Some a)) <$> flatten (map_extents s (e - s) eo l) = (fun x => addr l (x - eo)) <$> seqZ (Z.max s eo) (e - Z.max s eo).
Proof.
  induction l as [|x l IH]; intros eo Hl Heo Hs Hw He Hall.
  - unfold size in *. cbn in *. rewrite seqZ_nil by lia. done.
  - apply Forall_cons in Hl as [Hx Hl]. pose proof Hx as (Hlen & Hoff & Hval). rewrite size_cons in *. pose proof (size_nonneg l Hl). cbn [map_extents range_all] in *. rewrite (u64_small (eo + length x)) in * by lia. replace (s +64 (e - s)) with e in * by (rewrite u64_small; lia).
    set (ee := eo + length x) in *. assert (forall y, ee <= y -> addr (x :: l) (y - eo) = addr l (y - ee)) as Htail by (intros y Hy; cbn [addr]; rewrite (proj2 (Z.ltb_ge _ _)) by lia; f_equal; lia).
    destruct ((s <? ee) && (eo <? e)) eqn:Hmeet.
    + destruct (is_valid x) eqn:Hv; cbn [andb negb] in Hall; [|done]. specialize (Hval eq_refl). cbn [app]. set (p := Z.max s eo) in *. set (q := Z.min e ee) in *. assert (eo <= p /\ p <= q /\ q <= ee) as (? & ? & ?) by lia. rewrite (u64_small (p - eo)), (u64_small (offset x + _)), (u64_small (q - p)) by lia.
      assert (forall t, (fun a => Some (Some a)) <$> flatten t = (fun y => addr (x :: l) (y - eo)) <$> seqZ q (e - q) -> (fun a => Some (Some a)) <$> flatten ((offset x + (p - eo), q - p) :: t) = (fun y => addr (x :: l) (y - eo)) <$> seqZ p (e - p)) as Hcons.
      { intros t Ht. unfold flatten in *. rewrite fmap_cons. cbn [concat fst snd]. rewrite fmap_app, Ht. replace (e - p) with ((q - p) + (e - q)) by lia. rewrite seqZ_split, fmap_app by lia. replace (p + (q - p)) with q by lia. f_equal.
        assert (seqZ (offset x + (p - eo)) (q - p) = (fun y => offset x + (y - eo)) <$> seqZ p (q - p)) as ->.
        { apply list_eq. intros i. rewrite list_lookup_fmap. destruct (decide (Z.of_nat i < q - p)); [rewrite !lookup_seqZ_lt by lia; cbn; f_equal; lia|rewrite !lookup_seqZ_ge by lia; done]. }
        rewrite <- list_fmap_compose. apply list_fmap_ext. intros i y Hy%lookup_seqZ. cbn [compose addr]. unfold compose. rewrite (proj2 (Z.ltb_lt _ _)) by lia. by rewrite Hv. }
      apply Hcons. destruct (Z.leb_spec e ee); [unfold q; rewrite seqZ_nil by lia; done|]. specialize (IH ee Hl ltac:(lia) Hs ltac:(lia) ltac:(lia) Hall). rewrite IH. assert (Z.max s ee = q) as -> by lia. apply list_fmap_ext. intros i y Hy%lookup_seqZ. symmetry. apply Htail. lia.
    + cbn [andb app] in *. destruct (Z.leb_spec e ee).
      * assert (e <= Z.max s eo) by lia. rewrite seqZ_nil by lia. done.
      * specialize (IH ee Hl ltac:(lia) Hs ltac:(lia) ltac:(lia) Hall). rewrite IH. assert (Z.max s ee = s /\ Z.max s eo = s) as [-> ->] by lia. apply list_fmap_ext. intros i y Hy%lookup_seqZ. symmetry. apply Htail. lia.
Qed.

Lemma map_addr p off len : blob_wf p -> 0 <= off -> 0 <= len -> off + len < 2 ^ 64 -> is_allocated off len p = true ->
  (fun a => Some (Some a)) <$> flatten (map off len p) = addr (extents p) <$> seqZ off len.
Proof.
  intros [Hf Hs Hsm] Ho Hl Hw. unfold is_allocated. rewrite u64_small by lia. destruct (Z.ltb_spec (logical_length p) (off + len)); [done|]. intros Hall. replace len with (off + len - off) in Hall |- * at 1 by lia.
  unfold map. rewrite (map_extents_addr off (off + len) (extents p) 0) by (done || lia). rewrite Z.max_l by lia. replace (off + len - off) with len by lia. apply list_fmap_ext. intros i x _. by rewrite Z.sub_0_r.
Qed.

(** ** Splitting *)

(** There is a checksum for every chunk, and the cut is between chunks. *)
Definition csum_wf (cut : Z) (b : bluestore_blob_t) : Prop :=
  has_csum b = true -> 0 <= csum_chunk_order b < 31 /\ cut mod get_csum_chunk_size b = 0 /\ zlen (csum_data b) = get_csum_value_size b * (logical_length b / get_csum_chunk_size b).

Lemma chunk_pos b : 0 <= csum_chunk_order b < 31 -> 0 < get_csum_chunk_size b.
Proof.
  intros Ho. unfold get_csum_chunk_size. rewrite Z.shiftl_1_l. pose proof (Z.pow_pos_nonneg 2 (csum_chunk_order b) ltac:(lia) ltac:(lia)). assert (2 ^ csum_chunk_order b < 2 ^ 31) by (apply Z.pow_lt_mono_r; lia). rewrite u32_small; lia.
Qed.

Lemma value_size_nonneg b : 0 <= get_csum_value_size b.
Proof. unfold get_csum_value_size, csum_value_size. repeat case_match; lia. Qed.

(** C7: a blob is split without moving a byte.  Cutting a blob at an offset
    between two checksum chunks succeeds; both parts are blobs whose extents
    cover them, every byte keeps its address, and so does every checksum.
    Mapping an allocated range of any of the three gives the addresses of its
    bytes, in order. *)
Theorem blob_split_exact cut b : blob_wf b -> 0 <= cut <= logical_length b -> csum_wf cut b ->
  exists l r, split cut b blob_new = Some (l, r) /\ logical_length l = cut /\ logical_length r = logical_length b - cut /\
    (forall x, 0 <= x < cut -> addr (extents l) x = addr (extents b) x) /\ (forall x, 0 <= x -> addr (extents r) x = addr (extents b) (cut + x)) /\
    (has_csum b = true -> csum_data b = csum_data l ++ csum_data r) /\
    forall p, p ∈ [b; l; r] -> blob_wf p /\ forall off len, 0 <= off -> 0 <= len -> off + len < 2 ^ 64 -> is_allocated off len p = true ->
      (fun a => Some (Some a)) <$> flatten (map off len p) = addr (extents p) <$> seqZ off len.
Proof.
  intros [Hf Hs Hsm] Hcut Hcs. pose proof (split_extents_addr cut (extents b) 0 Hf ltac:(lia) ltac:(lia)) as Hsp. unfold split. destruct (split_extents cut 0 (extents b)) as [el er]. destruct Hsp as (Fl & Fr & Sl & Sr & Al & Ar). rewrite Z.sub_0_r in Al, Ar, Sl.
  assert (forall l r, extents l = el -> extents r = er -> logical_length l = cut -> logical_length r = logical_length b - cut -> forall p, p ∈ [b; l; r] -> blob_wf p) as Hwf.
  { intros l r El Er Ll Lr p Hp. rewrite !elem_of_cons in Hp. destruct Hp as [->|[->|[->|Hp]]]; [by constructor| | |by apply not_elem_of_nil in Hp]; constructor; rewrite ?El, ?Er, ?Ll, ?Lr; (done || lia). }
  rewrite (u32_small (logical_length b - cut)) by lia. cbv zeta. change (has_csum (set_extents el cut b)) with (has_csum b). destruct (has_csum b) eqn:Ec.
  - destruct (Hcs Ec) as (Hor & Hmod & Hlen). pose proof (chunk_pos b Hor) as Hck. change (get_csum_chunk_size (set_extents el cut b)) with (get_csum_chunk_size b). change (get_csum_value_size (set_extents el cut b)) with (get_csum_value_size b). cbn [logical_length csum_data set_extents].
    set (ck := get_csum_chunk_size b) in *. set (v := get_csum_value_size b) in *. pose proof (value_size_nonneg b : 0 <= v). assert (cut / ck + (logical_length b - cut) / ck = logical_length b / ck) as Esum.
    { pose proof (Z.div_mod cut ck ltac:(lia)). replace (logical_length b) with (cut / ck * ck + (logical_length b - cut)) at 2 by lia. rewrite Z.div_add_l by lia. done. }
    rewrite Esum, <- Hlen, Z.leb_refl. do 2 eexists. split; [reflexivity|]. split_and!; [done|done|exact Al|exact Ar| |].
    + intros _. cbn [csum_data set_csum_data]. rewrite (take_ge (drop _ _)); [by rewrite take_drop|]. rewrite length_drop. assert (0 <= cut / ck) by (apply Z.div_pos; lia). nia.
    + intros p Hp. split; [by eapply Hwf; [..|exact Hp]|]. intros off len H0 H1 H2. apply map_addr; [by eapply Hwf; [..|exact Hp]|done..].
  - do 2 eexists. split; [reflexivity|]. split_and!; [done|done|exact Al|exact Ar|done|]. intros p Hp. split; [by eapply Hwf; [..|exact Hp]|]. intros off len H0 H1 H2. apply map_addr; [by eapply Hwf; [..|exact Hp]|done..].
Qed.

(** A blob of two extents, one without space, cut in the first. *)
Definition demo_blob : bluestore_blob_t := mk_blob [pextent 65536 8192; pextent INVALID_OFFSET 4096] 12288 FLAG_CSUM CSUM_CRC32C 12 (seqZ 0 12) 0.

Lemma blob_split_exact_witness : exists l r, split 4096 demo_blob blob_new = Some (l, r) /\ addr (extents r) 4096 = addr (extents demo_blob) 8192 /\ flatten (map 0 10 r) = seqZ 69632 10.
Proof.
  assert (blob_wf demo_blob) as Hw by (constructor; [by repeat constructor|done|done]). assert (csum_wf 4096 demo_blob) as Hc by (intros _; done). destruct (blob_split_exact 4096 demo_blob Hw ltac:(done) Hc) as (l & r & E & _ & _ & _ & Ar & _ & Hp). exists l, r. split; [exact E|]. split; [by apply (Ar 4096)|].
  destruct (Hp r) as [_ Hm]; [set_solver|]. assert (extents r = [pextent 69632 4096; pextent INVALID_OFFSET 4096] /\ is_allocated 0 10 r = true) as [Ee Hal] by (injection E as _ <-; split; reflexivity).
  apply (inj (fmap (fun a : Z => Some (Some a)))). rewrite (Hm 0 10 ltac:(done) ltac:(done) ltac:(done) Hal), Ee. reflexivity.
Defined.

(** ** Checksums *)

Lemma copy_in_spec i v d : 0 <= i -> i * 4 + 4 <= zlen d -> 0 <= v < 2 ^ 32 ->
  exists d', copy_in (i * 4) (le_bytes 4 v) d = Some d' /\ zlen d' = zlen d /\ stored_crc i 4 d' = Some v /\ forall j, 0 <= j -> j <> i -> stored_crc j 4 d' = stored_crc j 4 d.
Proof.
  intros Hi Hd Hv. unfold copy_in. rewrite length_le_bytes, (proj2 (Z.leb_le _ _)) by lia. set (d' := take _ d ++ _). assert (zlen d' = zlen d) as El by (subst d'; rewrite !length_app, length_take, length_le_bytes, length_drop; lia). exists d'.
  assert (forall k, d' !! k = if (Z.to_nat (i * 4) <=? k)%nat && (k <? Z.to_nat (i * 4) + 4)%nat then le_bytes 4 v !! (k - Z.to_nat (i * 4))%nat else d !! k) as Hk.
  { intros k. subst d'. destruct (Nat.leb_spec (Z.to_nat (i * 4)) k); cbn [andb]; [|by rewrite lookup_app_l, lookup_take_lt by (rewrite ?length_take; lia)]. rewrite lookup_app_r by (rewrite length_take; lia). rewrite length_take_le by lia. destruct (Nat.ltb_spec k (Z.to_nat (i * 4) + 4)); [by rewrite lookup_app_l by (rewrite length_le_bytes; lia)|].
    rewrite lookup_app_r by (rewrite length_le_bytes; lia). rewrite length_le_bytes, lookup_drop. f_equal. lia. }
  assert (forall e j, 0 <= j -> (forall k, (k < 4)%nat -> e !! (Z.to_nat (j * 4) + k)%nat = d' !! (Z.to_nat (j * 4) + k)%nat) -> zlen e = zlen d' -> stored_crc j 4 d' = stored_crc j 4 e) as Hsame.
  { intros e j Hj He Hle. unfold stored_crc. rewrite Hle. destruct (_ && _); [|done]. do 2 f_equal. apply list_eq. intros k. rewrite !lookup_take. destruct (decide (k < 4)%nat); [rewrite !lookup_drop; symmetry; by apply He|done]. }
  split_and!; [done|done| |].
  - unfold stored_crc. rewrite El, (proj2 (Z.leb_le _ _)) by lia. cbn [Z.eqb Pos.eqb andb]. rewrite <- (Z.mod_small v (2 ^ 32)) by lia. change (2 ^ 32) with (2 ^ (8 * Z.of_nat 4)). rewrite <- le_val_bytes. do 2 f_equal.
    apply list_eq. intros k. rewrite lookup_take. destruct (decide (k < 4)%nat); [|by rewrite lookup_ge_None_2 by (rewrite length_le_bytes; lia)]. rewrite lookup_drop, Hk, (proj2 (Nat.leb_le _ _)), (proj2 (Nat.ltb_lt _ _)) by lia. cbn [andb]. f_equal. lia.
  - intros j Hj Hne. apply Hsame; [done| |done]. intros k Hk4. rewrite Hk. destruct (Nat.leb_spec (Z.to_nat (i * 4)) (Z.to_nat (j * 4) + k)), (Nat.ltb_spec (Z.to_nat (j * 4) + k) (Z.to_nat (i * 4) + 4)); cbn [andb]; (done || lia).
Qed.

(** The blob stores a CRC of four bytes per chunk, and has room for those of the whole
    chunks of [bl], which is put at the start of a chunk. *)
Record csum_fits (b_off : Z) (bl : bytes) (dev : Z) (b : bluestore_blob_t) : Prop := {
  cf_csum : has_csum b = true;
  cf_value : get_csum_value_size b = 4;
  cf_chunk : 0 < get_chunk_size dev b;
  cf_off : 0 <= b_off /\ b_off mod get_chunk_size dev b = 0;
  cf_len : 0 < zlen bl;
  cf_end : b_off + zlen bl < 2 ^ 31;
  cf_room : (b_off / get_chunk_size dev b + zlen bl / get_chunk_size dev b) * 4 <= zlen (csum_data b);
}.

Section Csum.
Context (b_off dev : Z) (bl : bytes) (b : bluestore_blob_t) (Hfit : csum_fits b_off bl dev b) (Hbytes : Crc32.is_bytes bl).
Let ck := get_chunk_size dev b.
Let blocks := zlen bl / ck.
Let first := b_off / ck.

Lemma csum_shape : 0 <= first /\ 0 <= blocks /\ b_off = first * ck /\ blocks * ck <= zlen bl < (blocks + 1) * ck /\ 0 < ck /\ (first + blocks) * 4 <= zlen (csum_data b) /\ first + blocks < 2 ^ 31.
Proof using Hfit.
  destruct Hfit as [_ _ Hck [Ho Hom] Hl He Hr]. fold ck in Hck, Hom, Hr. fold first in Hr. fold blocks in Hr. assert (b_off = first * ck) as Eo by (unfold first; pose proof (Z.div_mod b_off ck ltac:(lia)); lia). assert (blocks * ck <= zlen bl < (blocks + 1) * ck) as El by (unfold blocks; pose proof (Z.div_mod (zlen bl) ck ltac:(lia)); pose proof (Z.mod_pos_bound (zlen bl) ck); lia).
  assert (0 <= first) by (apply Z.div_pos; lia). assert (0 <= blocks) by (apply Z.div_pos; lia). split_and!; (done || nia).
Qed.

Lemma chunk_crc_range i : 0 <= chunk_crc i ck bl < 2 ^ 32.
Proof using Hbytes. apply (Crc32.calc_crc32_range _ 0); [|done]. apply Forall_take, Forall_drop, Hbytes. Qed.

(** The checksums of all chunks are stored. *)
Definition stores (d : bytes) (n : Z) : Prop := zlen d = zlen (csum_data b) /\ forall j, 0 <= j < n -> stored_crc (first + j) 4 d = Some (chunk_crc j ck bl).

Lemma calc_csum_stores : exists d, calc_csum b_off bl dev b = Some (set_csum_data d b) /\ stores d blocks.
Proof using Hfit Hbytes.
  destruct csum_shape as (Hf & Hb & Eo & El & Hck & Hroom & Hsmall). pose proof Hfit as [Hc Hv _ _ Hl He _]. unfold calc_csum. rewrite Hc, (proj2 (Z.eqb_neq (zlen bl) 0)) by lia. cbn [negb orb]. fold ck. fold blocks. rewrite (u32_small blocks) by lia. rewrite Hv. cbv zeta.
  destruct (for_spec 0 blocks (fun i d => if 4 <=? 4 then copy_in (u32 (b_off / ck + i) * 4) (take (Z.to_nat 4) (le_bytes 4 (chunk_crc i ck bl))) d else None) (fun i d => stores d i) (csum_data b)) as (d & E & Hd); [|lia|split; [done|intros; lia]|].
  - intros i d Hi [Hlen Hst]. change (4 <=? 4) with true. cbv iota. fold first. rewrite (u32_small (first + i)) by lia. rewrite take_ge by (rewrite length_le_bytes; lia).
    destruct (copy_in_spec (first + i) (chunk_crc i ck bl) d ltac:(lia) ltac:(lia) (chunk_crc_range i)) as (d' & E & Hl' & Hs & Ho). exists d'. split; [done|]. split; [lia|]. intros j Hj. destruct (decide (j = i)) as [->|]; [done|]. rewrite Ho by lia. apply Hst. lia.
  - exists d. rewrite E, some_bind. done.
Qed.

(** [verify_csum] compares the chunks of [bl'] from the chunk [i] on. *)
Lemma verify_loop_spec d bl' n : stores d blocks -> zlen bl' = zlen bl -> forall i, 0 <= i -> i + Z.of_nat n = blocks ->
  (forall j, i <= j < blocks -> chunk_crc j ck bl' = chunk_crc j ck bl) -> verify_loop b_off ck 4 d bl' i n = Some (- 1).
Proof using Hfit.
  destruct csum_shape as (Hf & Hb & Eo & El & Hck & Hroom & Hsmall). intros [Hlen Hst] Hl'. induction n as [|n IH]; intros i Hi Hn Hsame; [done|]. cbn [verify_loop]. fold first. rewrite (u32_small (first + i)), Hst, some_bind by lia. rewrite (Hsame i) by lia. rewrite Z.eqb_refl. cbn [negb]. apply IH; [lia|lia|]. intros j Hj. apply Hsame. lia.
Qed.

Lemma verify_loop_finds d bl' k n : stores d blocks -> 0 <= k < blocks -> (forall j, 0 <= j < k -> chunk_crc j ck bl' = chunk_crc j ck bl) -> chunk_crc k ck bl' <> chunk_crc k ck bl ->
  forall i, 0 <= i <= k -> i + Z.of_nat n = blocks -> verify_loop b_off ck 4 d bl' i n = Some (b_off + k * ck).
Proof using Hfit.
  destruct csum_shape as (Hf & Hb & Eo & El & Hck & Hroom & Hsmall). pose proof Hfit as [_ _ _ [Hoff _] _ He _]. intros [Hlen Hst] Hk Hsame Hdiff. induction n as [|n IH]; intros i Hi Hn; [lia|]. cbn [verify_loop]. fold first. rewrite (u32_small (first + i)), Hst, some_bind by lia. destruct (decide (i = k)) as [->|].
  - rewrite (proj2 (Z.eqb_neq _ _) Hdiff). cbn [negb]. assert (0 <= k * ck) by nia. assert (k * ck < zlen bl) by nia. unfold to_int. rewrite (u64_small (k * ck)), (u64_small (b_off + k * ck)), (u32_small (b_off + k * ck)), (proj2 (Z.ltb_lt _ _)) by lia. done.
  - rewrite (Hsame i), Z.eqb_refl by lia. cbn [negb]. apply IH; lia.
Qed.
End Csum.

(** The chunk of one byte, and those before it. *)
Lemma chunk_of (a : bytes) x (c : bytes) ck k : 0 < ck -> k = zlen a / ck -> (k + 1) * ck <= zlen (a ++ x :: c) ->
  take (Z.to_nat ck) (drop (Z.to_nat (k * ck)) (a ++ x :: c)) = drop (Z.to_nat (k * ck)) a ++ x :: take (Z.to_nat ((k + 1) * ck - zlen a - 1)) c.
Proof.
  intros Hck -> Hl. pose proof (Z.div_mod (zlen a) ck ltac:(lia)). pose proof (Z.mod_pos_bound (zlen a) ck Hck). assert (0 <= zlen a / ck) by (apply Z.div_pos; lia). set (k := zlen a / ck) in *. assert (0 <= k * ck) by nia. rewrite drop_app_le by lia. rewrite take_app_ge by (rewrite length_drop; lia). f_equal. rewrite length_drop. replace (Z.to_nat ck - (List.length a - Z.to_nat (k * ck)))%nat with (S (Z.to_nat ((k + 1) * ck - zlen a - 1))) by lia. done.
Qed.
Lemma chunk_before a x y c ck j : 0 < ck -> 0 <= j < zlen a / ck -> chunk_crc j ck (a ++ y :: c) = chunk_crc j ck (a ++ x :: c).
Proof.
  intros Hck Hj. unfold chunk_crc. pose proof (Z.div_mod (zlen a) ck ltac:(lia)). pose proof (Z.mod_pos_bound (zlen a) ck Hck). assert (0 <= j * ck /\ (j + 1) * ck <= zlen a) by nia. rewrite !drop_app_le by lia. rewrite !take_app_le by (rewrite length_drop; lia). done.
Qed.

Lemma chunk_after a x y c ck j : 0 < ck -> 0 <= j -> (j + 1) * ck <= zlen a -> chunk_crc j ck (a ++ y :: c) = chunk_crc j ck (a ++ x :: c).
Proof. intros Hck Hj Hl. apply chunk_before; [done|]. split; [done|]. apply Z.lt_le_trans with (j + 1); [lia|]. by apply Z.div_le_lower_bound; lia. Qed.

(** C9: checksums of a blob.  For a blob with CRC32C checksums of four bytes and data
    that starts at a chunk and ends below 2 GiB, with room for the checksums of its
    whole chunks: data for which [calc_csum] stored the checksums passes
    [verify_csum].  If any one byte of it is changed, [verify_csum] returns the offset
    of the chunk in which the byte is; only the bytes behind the last whole chunk,
    which have no checksum, can change unnoticed. *)
Theorem checksums_detect b_off dev a x y c b : csum_fits b_off (a ++ x :: c) dev b -> Crc32.is_bytes (a ++ x :: c) -> 0 <= y < 256 -> x <> y ->
  exists b', calc_csum b_off (a ++ x :: c) dev b = Some b' /\ verify_csum b_off (a ++ x :: c) dev b' = Some (- 1) /\
    let ck := get_chunk_size dev b in
    verify_csum b_off (a ++ y :: c) dev b' = Some (if zlen a <? zlen (a ++ x :: c) / ck * ck then b_off + zlen a / ck * ck else - 1).
Proof.
  intros Hfit Hb Hy Hne. destruct (csum_shape _ _ _ _ Hfit) as (_ & Hblocks & _ & El & Hck & _ & Hsmall). pose proof Hfit as [Hc Hv _ _ Hl _ _]. destruct (calc_csum_stores _ _ _ _ Hfit Hb) as (d & E & Hst). exists (set_csum_data d b). split; [exact E|].
  cbv zeta. set (ck := get_chunk_size dev b) in *. assert (zlen (a ++ y :: c) = zlen (a ++ x :: c)) as Elen by (by rewrite !length_app). set (bl := a ++ x :: c) in *. assert (0 <= b_off / ck) by (apply Z.div_pos; [apply Hfit|done]).
  assert (forall bl', zlen bl' = zlen bl -> verify_csum b_off bl' dev (set_csum_data d b) = verify_loop b_off ck 4 d bl' 0 (Z.to_nat (zlen bl / ck))) as Hver.
  { intros bl' Hl'. unfold verify_csum. change (has_csum (set_csum_data d b)) with (has_csum b). rewrite Hc, Hl', (proj2 (Z.eqb_neq _ _)) by lia. cbn [negb orb]. change (get_chunk_size dev (set_csum_data d b)) with ck. change (get_csum_value_size (set_csum_data d b)) with (get_csum_value_size b). rewrite Hv. cbn [csum_data set_csum_data]. by rewrite u32_small by lia. }
  split.
  - rewrite Hver by done. apply (verify_loop_spec b_off dev bl b Hfit d bl); [done|done|lia|fold ck; lia|done].
  - rewrite (Hver _ Elen). assert (zlen a < zlen bl) by (subst bl; rewrite length_app; cbn [List.length]; lia). pose proof (Z.div_mod (zlen a) ck ltac:(lia)). pose proof (Z.mod_pos_bound (zlen a) ck Hck). destruct (Z.ltb_spec (zlen a) (zlen bl / ck * ck)) as [Hin|Hout].
    2: { apply (verify_loop_spec b_off dev bl b Hfit d (a ++ y :: c)); [done|done|lia|fold ck; lia|]. fold ck. intros j Hj. apply chunk_after; [done|lia|]. set (n := zlen bl / ck) in *. nia. }
    assert (0 <= zlen a / ck < zlen bl / ck) as Hk by (split; [apply Z.div_pos; lia|]; set (n := zlen bl / ck) in *; set (k := zlen a / ck) in *; nia).
    apply (verify_loop_finds b_off dev bl b Hfit d (a ++ y :: c) (zlen a / ck)); [done|fold ck; done| | |lia|fold ck; lia].
    + intros j Hj. by apply chunk_before.
    + apply Forall_app in Hb as [Ha Hxc]. apply Forall_cons in Hxc as [Hx Hcc]. unfold chunk_crc. unfold bl. rewrite !(chunk_of a _ c ck (zlen a / ck)) by (try done; rewrite ?Elen; fold bl; nia). apply not_eq_sym, Crc32.crc32_byte_error; [by apply Forall_drop|by apply Forall_take|done|done|done|done].
Qed.

(** Two chunks of 4 bytes, of which the second is damaged, and two bytes more. *)
Definition tiny_blob : bluestore_blob_t := mk_blob [pextent 65536 4096] 4096 FLAG_CSUM CSUM_CRC32C 2 (replicate 4096 0) 0.

Lemma checksums_detect_witness : exists b, calc_csum 8 [1; 2; 3; 4; 5; 6; 7; 8; 9; 10] 4 tiny_blob = Some b /\ verify_csum 8 [1; 2; 3; 4; 5; 6; 7; 8; 9; 10] 4 b = Some (- 1) /\ verify_csum 8 [1; 2; 3; 4; 5; 9; 7; 8; 9; 10] 4 b = Some 12.
Proof. apply (checksums_detect 8 4 [1; 2; 3; 4; 5] 6 9 [7; 8; 9; 10] tiny_blob); [constructor; done|by repeat constructor|done|done]. Defined.
End BlobSpec.

(** * Where blobs go wrong

    Releasing a part of a blob moves the rest of it, checksums of less than four
    bytes are compared with memory that was never written, and a tracker that is
    split at its start has no total. *)
Import Allocator UseTracker Blob BlobSpec.

Module BlobFindings.

(** Two extents of one unit, both referenced. *)
Definition two_extents : Blob := mk_Blob (- 1) (mk_blob [pextent 65536 4096; pextent 131072 4096] 8192 0 CSUM_NONE 0 [] 0) (mk_tracker 4096 2 2 (bytes_per_au [4096; 4096])).

(** Releasing the first part of a blob moves the second.  [put_ref] of the
    first unit releases its extent and takes it out of the list, instead of
    leaving a hole: the second unit, whose 4096 bytes are still referenced at
    offset 4096, has no address any more, and offset 0 has its address. *)
Theorem put_ref_moves_data : exists x released,
  put_ref 0 4096 two_extents = Some (false, released, x) /\ released = [pextent 65536 4096] /\ counters (used_in_blob_ x) = Some [0; 4096] /\
  addr (extents (blob_ two_extents)) 4096 = Some (Some 131072) /\ addr (extents (blob_ x)) 4096 = None /\ addr (extents (blob_ x)) 0 = Some (Some 131072).
Proof. eexists _, _. split; [vm_compute; reflexivity|]. split_and!; reflexivity. Qed.

(** A unit that is released together with a part of an extent is never given
    back: the extent is not covered, and the next release does not repeat it. *)
Lemma partial_release_leaks : exists x,
  put_ref 0 4096 (mk_Blob (- 1) (mk_blob [pextent 65536 8192] 8192 0 CSUM_NONE 0 [] 0) (mk_tracker 4096 2 2 (bytes_per_au [4096; 4096]))) = Some (false, [], x) /\
  extents (blob_ x) = [pextent 65536 8192].
Proof. eexists. split; [vm_compute; reflexivity|]. reflexivity. Qed.

(** A stored checksum of one, two or eight bytes cannot be verified. *)
Lemma short_checksum_undefined b_off bl dev b : has_csum b = true -> 0 < u32 (zlen bl / get_chunk_size dev b) -> get_csum_value_size b <> 4 -> verify_csum b_off bl dev b = None.
Proof.
  intros Hc Hn Hv. unfold verify_csum. rewrite Hc. destruct bl as [|y bl]; [by destruct (get_chunk_size dev b)|]. cbn [negb orb]. rewrite (proj2 (Z.eqb_neq _ _)) by (cbn [List.length]; lia). set (n := u32 _) in *. cbv zeta. destruct (Z.to_nat n) eqn:E; [lia|]. cbn [verify_loop]. unfold stored_crc. by rewrite (proj2 (Z.eqb_neq _ _) Hv).
Qed.

(** A split at offset 0 leaves a tracker without units whose total is a part of
    a pointer. *)
Lemma split_at_zero au n l : 0 < au -> 0 < n < 2 ^ 32 -> zlen l = n -> exists t r, UseTracker.split 0 (mk_tracker au n n (bytes_per_au l)) = Some (t, r) /\ UseTracker.get_referenced_bytes t = None.
Proof.
  intros Ha Hn Hl. unfold UseTracker.split. cbn [au_size num_au]. rewrite (proj2 (Z.eqb_neq au 0)) by lia. rewrite Z.div_0_l, Z.sub_0_r, u32_small by lia. cbn [read_bytes usage]. rewrite some_bind. rewrite (proj2 (Nat.leb_le _ _)) by lia. by do 2 eexists.
Qed.
End BlobFindings.
