(* ===== verification/BlobUnused.v ===== *)
(** * The bitmap of unwritten parts of a blob

    A blob remembers in 16 bits which of its sixteenths were never written.
    Against the history of declarations and writes: the bits are exact per
    sixteenth, and a range that is reported as unused was not written since it
    was declared so. *)
From stdpp Require Import base numbers list sets.
From Stdlib Require Import ZArith Lia ZifyBool.
From S2P Require Import Prelude IntArith Crc32 IntervalSet Allocator Denc UseTracker Blob.
Import Allocator Blob.

Module BlobUnused.
Local Open Scope Z_scope.

(** ** Bits *)

Lemma testbit_wrap u c : 0 <= c < 16 -> Z.testbit (wrap 16 u) c = Z.testbit u c.
Proof. intros Hc. unfold wrap. by rewrite Z.mod_pow2_bits_low by lia. Qed.

Lemma bit_word i c : 0 <= i < 16 -> 0 <= c < 16 -> Z.testbit (u32 (Z.shiftl 1 i)) c = (c =? i).
Proof.
  intros Hi Hc. rewrite Z.shiftl_1_l. assert (0 < 2 ^ i < 2 ^ 16) by (split; [apply Z.pow_pos_nonneg; lia|apply Z.pow_lt_mono_r; lia]). rewrite u32_small by lia. rewrite Z.pow2_bits_eqb by lia. apply Z.eqb_sym.
Qed.

Lemma testbit_not32 x c : 0 <= c < 16 -> Z.testbit (Crc32.not32 x) c = negb (Z.testbit x c).
Proof. intros Hc. unfold Crc32.not32, u32, wrap. rewrite Z.mod_pow2_bits_low by lia. apply Z.lnot_spec. lia. Qed.

Definition set_bits (u s e : Z) : Z := foldl (fun u i => wrap 16 (Z.lor u (u32 (Z.shiftl 1 i)))) u (seqZ s (e - s)).
Definition clear_bits (u s e : Z) : Z := foldl (fun u i => wrap 16 (Z.land u (Crc32.not32 (u32 (Z.shiftl 1 i))))) u (seqZ s (e - s)).

Lemma fold_bits (f : Z -> Z -> Z) (k : Z -> bool) l : forall u c,
  (forall i, i ∈ l -> 0 <= i < 16) -> 0 <= c < 16 -> (forall u i, 0 <= i < 16 -> Z.testbit (f u i) c = if c =? i then k c else Z.testbit u c) ->
  Z.testbit (foldl f u l) c = if bool_decide (c ∈ l) then k c else Z.testbit u c.
Proof.
  induction l as [|i l IH]; intros u c Hl Hc Hf; [by rewrite bool_decide_eq_false_2 by set_solver|]. cbn [foldl]. rewrite IH by (try done; intros; apply Hl; set_solver). rewrite Hf by (apply Hl; set_solver).
  destruct (Z.eqb_spec c i) as [->|]; [rewrite (bool_decide_eq_true_2 (i ∈ i :: l)) by set_solver; by case_match|]. by rewrite (bool_decide_ext (c ∈ i :: l) (c ∈ l)) by set_solver.
Qed.

Lemma in_seqZ s e c : bool_decide (c ∈ seqZ s (e - s)) = (s <=? c) && (c <? e).
Proof. destruct (Z.leb_spec s c), (Z.ltb_spec c e); cbn; [apply bool_decide_eq_true_2|apply bool_decide_eq_false_2..]; rewrite elem_of_seqZ; lia. Qed.

Lemma set_bits_spec u s e c : 0 <= s -> e <= 16 -> 0 <= c < 16 -> Z.testbit (set_bits u s e) c = ((s <=? c) && (c <? e)) || Z.testbit u c.
Proof.
  intros Hs He Hc. unfold set_bits. rewrite (fold_bits _ (fun _ => true)); [rewrite in_seqZ; by destruct ((s <=? c) && (c <? e))| |done|].
  - intros i Hi%elem_of_seqZ. lia.
  - intros u' i Hi. rewrite testbit_wrap, Z.lor_spec, bit_word by done. destruct (c =? i); [apply orb_true_r|apply orb_false_r].
Qed.
Lemma clear_bits_spec u s e c : 0 <= s -> e <= 16 -> 0 <= c < 16 -> Z.testbit (clear_bits u s e) c = negb ((s <=? c) && (c <? e)) && Z.testbit u c.
Proof.
  intros Hs He Hc. unfold clear_bits. rewrite (fold_bits _ (fun _ => false)); [rewrite in_seqZ; by destruct ((s <=? c) && (c <? e))| |done|].
  - intros i Hi%elem_of_seqZ. lia.
  - intros u' i Hi. rewrite testbit_wrap, Z.land_spec, testbit_not32, bit_word by done. destruct (c =? i); [apply andb_false_r|apply andb_true_r].
Qed.

(** A word of 16 bits all of which are 0. *)
Lemma no_bits u : 0 <= u < 2 ^ 16 -> (forall c, 0 <= c < 16 -> Z.testbit u c = false) -> u = 0.
Proof.
  intros Hu H. apply Z.bits_inj'. intros c Hc. rewrite Z.bits_0. destruct (decide (c < 16)); [apply H; lia|]. destruct (decide (u = 0)) as [->|]; [apply Z.bits_0|]. apply Z.bits_above_log2; [lia|]. apply Z.log2_lt_pow2; [lia|]. pose proof (Z.pow_le_mono_r 2 16 c). lia.
Qed.

Lemma foldl_range (f : Z -> Z -> Z) l : (forall u i, 0 <= f u i < 2 ^ 16) -> forall u, 0 <= u < 2 ^ 16 -> 0 <= foldl f u l < 2 ^ 16.
Proof. intros Hf. induction l as [|i l IH]; intros u Hu; [done|]. cbn [foldl]. apply IH, Hf. Qed.
Lemma wrap16 x : 0 <= wrap 16 x < 2 ^ 16.
Proof. unfold wrap. apply Z.mod_pos_bound. lia. Qed.

Lemma all_set_spec u n : forall i, all_set u i n = true <-> forall c, i <= c < i + Z.of_nat n -> Z.testbit u c = true.
Proof.
  induction n as [|n IH]; intros i; cbn [all_set]; [split; [intros _ c Hc; lia|done]|]. rewrite andb_true_iff, IH. split.
  - intros [H0 H] c Hc. destruct (decide (c = i)) as [->|]; [done|apply H; lia].
  - intros H. split; [apply H; lia|]. intros c Hc. apply H. lia.
Qed.

(** ** Chunks *)

Section Blob.
Context (L : Z) (L_pos : 0 < L) (L_16 : L mod 16 = 0) (L_small : L < 2 ^ 32).
Let chunk := L / 16.

Lemma chunk_16 : L = 16 * chunk /\ 0 < chunk.
Proof using L_pos L_16. unfold chunk. pose proof (Z.div_mod L 16 ltac:(lia)). lia. Qed.

(** The chunk [c] lies in a range; it has a byte in common with one. *)
Definition inside (c : Z) (r : Z * Z) : bool := (r.1 <=? c * chunk) && ((c + 1) * chunk <=? r.1 + r.2).
Definition meets (c : Z) (r : Z * Z) : bool := (r.1 <? (c + 1) * chunk) && (c * chunk <? r.1 + r.2).
Definition in_blob (r : Z * Z) : Prop := 0 <= r.1 /\ 0 <= r.2 /\ r.1 + r.2 <= L.

Lemma ceil_div x : 0 <= x <= L -> let q := IntArith.round_up_to 64 x chunk / chunk in 0 <= q <= 16 /\ forall c, (c <? q) = (c * chunk <? x).
Proof using L_pos L_16 L_small.
  intros Hx. destruct chunk_16 as [EL Hc]. cbv zeta. unfold IntArith.round_up_to. pose proof (Z.div_mod x chunk ltac:(lia)). pose proof (Z.mod_pos_bound x chunk Hc). assert (0 <= x / chunk) by (apply Z.div_pos; lia). destruct (Z.eqb_spec (x mod chunk) 0) as [E|Hne].
  - set (q := x / chunk) in *. assert (x = q * chunk) as Ex by lia. split; [nia|]. intros c. clearbody q. rewrite Ex. destruct (Z.ltb_spec c q), (Z.ltb_spec (c * chunk) (q * chunk)); (done || nia).
  - rewrite wrap_small by (unfold uint; lia). set (q := x / chunk) in *. replace (x + (chunk - x mod chunk)) with ((q + 1) * chunk) by lia. rewrite Z.div_mul by lia. split; [nia|]. intros c. destruct (Z.ltb_spec c (q + 1)), (Z.ltb_spec (c * chunk) x); (done || nia).
Qed.
Lemma floor_div x : 0 <= x <= L -> 0 <= x / chunk <= 16 /\ forall c, (x / chunk <=? c) = (x <? (c + 1) * chunk) /\ (c <? x / chunk) = ((c + 1) * chunk <=? x).
Proof using L_pos L_16.
  intros Hx. destruct chunk_16 as [EL Hc]. pose proof (Z.div_mod x chunk ltac:(lia)). pose proof (Z.mod_pos_bound x chunk Hc). assert (0 <= x / chunk) by (apply Z.div_pos; lia). set (q := x / chunk) in *. split; [nia|]. intros c. split.
  - destruct (Z.leb_spec q c), (Z.ltb_spec x ((c + 1) * chunk)); (done || nia).
  - destruct (Z.ltb_spec c q), (Z.leb_spec ((c + 1) * chunk) x); (done || nia).
Qed.
Lemma ceil_le x : 0 <= x <= L -> forall c, (IntArith.round_up_to 64 x chunk / chunk <=? c) = (x <=? c * chunk).
Proof using L_pos L_16 L_small. intros Hx c. destruct (ceil_div x Hx) as [_ H]. specialize (H c). lia. Qed.

(** ** Histories, latest first *)

Inductive uop := UAdd (r : Z * Z) | UUse (r : Z * Z).
Definition uop_ok (o : uop) : Prop := match o with UAdd r | UUse r => in_blob r end.
Definition apply_uop (o : uop) (b : bluestore_blob_t) : option bluestore_blob_t := match o with UAdd r => add_unused r.1 r.2 b | UUse r => mark_used r.1 r.2 b end.
Fixpoint history (l : list uop) (b : bluestore_blob_t) : option bluestore_blob_t := match l with [] => Some b | o :: l => b ← history l b; apply_uop o b end.

(** A chunk was declared unused as a whole and not written since. *)
Fixpoint marked (l : list uop) (c : Z) : bool :=
  match l with [] => false | UAdd r :: l => inside c r || marked l c | UUse r :: l => negb (meets c r) && marked l c end.
(** The same for a byte. *)
Fixpoint clean (l : list uop) (x : Z) : Prop :=
  match l with [] => False | UAdd r :: l => r.1 <= x < r.1 + r.2 \/ clean l x | UUse r :: l => ~ (r.1 <= x < r.1 + r.2) /\ clean l x end.

Lemma marked_clean l c x : marked l c = true -> c * chunk <= x < (c + 1) * chunk -> clean l x.
Proof.
  intros Hm Hx. induction l as [|[r|r] l IH]; [done|..]; cbn [marked clean] in *.
  - apply orb_true_iff in Hm as [Hi|Hm]; [left; unfold inside in Hi; lia|right; by apply IH].
  - apply andb_true_iff in Hm as [Hn Hm]. split; [unfold meets in Hn; lia|by apply IH].
Qed.

Record exact (l : list uop) (b : bluestore_blob_t) : Prop := {
  e_length : logical_length b = L;
  e_range : 0 <= unused b < 2 ^ 16;
  e_bits : forall c, 0 <= c < 16 -> Z.testbit (unused b) c = marked l c;
  e_flag : unused b <> 0 -> has_unused b = true;
}.

Lemma unused_chunk_run r b : in_blob r -> logical_length b = L -> unused_chunk r.1 r.2 b = Some chunk.
Proof using L_pos L_16 L_small.
  intros (H1 & H2 & H3) EL. unfold unused_chunk. rewrite EL, L_16, u64_small, (proj2 (Z.leb_le _ _)) by lia. cbn. rewrite (proj2 (Z.eqb_neq _ _)); [done|]. pose proof chunk_16. fold chunk. lia.
Qed.

Lemma add_exact l r b : exact l b -> in_blob r -> exists b', add_unused r.1 r.2 b = Some b' /\ exact (UAdd r :: l) b'.
Proof using L_pos L_16 L_small.
  intros [EL Hr Hb Hf] Hin. pose proof Hin as (H1 & H2 & H3). unfold add_unused. rewrite (unused_chunk_run r b Hin EL), some_bind, u64_small by lia. cbv zeta. destruct (ceil_div r.1 ltac:(lia)) as [Hs _]. pose proof (ceil_le r.1 ltac:(lia)) as Hsc. destruct (floor_div (r.1 + r.2) ltac:(lia)) as [He Hec].
  set (s := IntArith.round_up_to 64 r.1 chunk / chunk) in *. set (e := (r.1 + r.2) / chunk) in *. fold (set_bits (unused b) s e). set (u := set_bits (unused b) s e). assert (0 <= u < 2 ^ 16) as Hu by (apply foldl_range; [intros; apply wrap16|done]).
  assert (forall c, 0 <= c < 16 -> Z.testbit u c = marked (UAdd r :: l) c) as Hm by (intros c Hc; unfold u; rewrite set_bits_spec by lia; cbn [marked]; unfold inside; destruct (Hec c) as [_ ->]; by rewrite Hsc, Hb).
  eexists. split; [reflexivity|]. destruct (Z.eqb_spec s e) as [E|Hne]; cbn [negb].
  - constructor; [done|done|exact Hm|]. cbn [unused set_unused]. intros Hnz. apply Hf. intros Hz. apply Hnz. unfold u, set_bits. rewrite E, Z.sub_diag. done.
  - constructor; [done|done|exact Hm|]. intros _. unfold has_unused, has_flag. cbn [flags set_flag set_flags]. apply negb_true_iff, Z.eqb_neq. intros H0. assert (Z.testbit (Z.land (Z.lor (flags (set_unused u b)) FLAG_HAS_UNUSED) FLAG_HAS_UNUSED) 3 = true) as Ht by (rewrite Z.land_spec, Z.lor_spec; change (Z.testbit FLAG_HAS_UNUSED 3) with true; by rewrite orb_true_r). rewrite H0 in Ht. done.
Qed.

Lemma use_exact l r b : exact l b -> in_blob r -> exists b', mark_used r.1 r.2 b = Some b' /\ exact (UUse r :: l) b'.
Proof using L_pos L_16 L_small.
  intros [EL Hr Hb Hf] Hin. pose proof Hin as (H1 & H2 & H3). unfold mark_used. destruct (has_unused b) eqn:Eh; cbn [negb].
  - rewrite (unused_chunk_run r b Hin EL), some_bind, u64_small by lia. cbv zeta. destruct (ceil_div (r.1 + r.2) ltac:(lia)) as [He Hec]. destruct (floor_div r.1 ltac:(lia)) as [Hs Hsc].
    set (s := r.1 / chunk) in *. set (e := IntArith.round_up_to 64 (r.1 + r.2) chunk / chunk) in *. fold (clear_bits (unused b) s e). set (u := clear_bits (unused b) s e). assert (0 <= u < 2 ^ 16) as Hu by (apply foldl_range; [intros; apply wrap16|done]).
    assert (forall c, 0 <= c < 16 -> Z.testbit u c = marked (UUse r :: l) c) as Hm by (intros c Hc; unfold u; rewrite clear_bits_spec by lia; cbn [marked]; unfold meets; destruct (Hsc c) as [-> _]; by rewrite Hec, Hb).
    eexists. split; [reflexivity|]. cbn [unused set_unused]. destruct (Z.eqb_spec u 0) as [E|Hne]; constructor; try done.
  - exists b. split; [done|]. assert (unused b = 0) as Ez by (destruct (decide (unused b = 0)) as [|Hnz]; [done|]; specialize (Hf Hnz); congruence). constructor; [done|done| |done]. intros c Hc. rewrite Hb by done. cbn [marked]. rewrite <- Hb, Ez, Z.bits_0 by done. by rewrite andb_false_r.
Qed.

Lemma history_exact l b : logical_length b = L -> unused b = 0 -> Forall uop_ok l -> exists b', history l b = Some b' /\ exact l b'.
Proof using L_pos L_16 L_small.
  intros EL Eu. induction 1 as [|o l Ho Hl (b1 & E1 & H1)]; [exists b; split; [done|]; constructor; rewrite ?Eu; [done|done|intros; apply Z.bits_0|done]|]. cbn [history]. rewrite E1, some_bind. destruct o as [r|r]; cbn [apply_uop uop_ok] in *; [by apply add_exact|by apply use_exact].
Qed.
End Blob.

(** C10: what a blob reports as unused was not written.  After any history of
    declarations and writes in a new blob, [is_unused] says yes for a range
    exactly when every sixteenth of the blob that the range meets was declared
    as a whole and not written since; then no byte of the range was written since
    it was declared. *)
Theorem unused_exact L l b : 0 < L -> L mod 16 = 0 -> L < 2 ^ 32 -> logical_length b = L -> unused b = 0 -> Forall (uop_ok L) l ->
  exists b', history l b = Some b' /\ forall off len, in_blob L (off, len) -> 0 < len -> exists r, is_unused off len b' = Some r /\
    (r = true <-> forall c, 0 <= c < 16 -> meets L c (off, len) = true -> marked L l c = true) /\
    (r = true -> forall x, off <= x < off + len -> clean l x).
Proof.
  intros HL H16 Hs EL Eu Hl. destruct (history_exact L HL H16 Hs l b EL Eu Hl) as (b' & E & [EL' Hr Hb Hf]). exists b'. split; [done|]. intros off len Hin Hlen. pose proof Hin as (H1 & H2 & H3). cbn [fst snd] in *. destruct (chunk_16 L HL H16) as [EL16 Hck].
  assert (forall r, (r = true <-> forall c, 0 <= c < 16 -> meets L c (off, len) = true -> marked L l c = true) -> r = true -> forall x, off <= x < off + len -> clean l x) as Hclean.
  { intros r Hr' Ht x Hx. pose proof (Z.div_mod x (L / 16) ltac:(lia)). pose proof (Z.mod_pos_bound x (L / 16) Hck). set (c := x / (L / 16)) in *. assert (0 <= c < 16) by (split; [apply Z.div_pos; lia|apply Z.div_lt_upper_bound; lia]). apply (marked_clean L l c); [|lia]. apply Hr'; [done|done|]. unfold meets. cbn [fst snd]. lia. }
  unfold is_unused. destruct (has_unused b') eqn:Eh; cbn [negb].
  - pose proof (unused_chunk_run L HL H16 Hs (off, len) b' Hin EL') as Euc. cbn [fst snd] in Euc. rewrite Euc, some_bind, u64_small by lia. cbv zeta. eexists. split; [reflexivity|]. destruct (ceil_div L HL H16 Hs (off + len) ltac:(lia)) as [He Hec]. destruct (floor_div L HL H16 off ltac:(lia)) as [Hst Hsc].
    match goal with |- (?r = true <-> ?P) /\ _ => assert (r = true <-> P) as Hiff; [|split; [exact Hiff|exact (Hclean r Hiff)]] end. rewrite all_set_spec. split.
    + intros H c Hc Hm. rewrite <- Hb by done. apply H. unfold meets in Hm. cbn [fst snd] in Hm. specialize (Hec c). destruct (Hsc c) as [Hc1 _]. lia.
    + intros H c Hc. specialize (Hec c). destruct (Hsc c) as [Hc1 _]. rewrite Hb by lia. apply H; [lia|]. unfold meets. cbn [fst snd]. lia.
  - exists false. split; [done|]. match goal with |- (?r = true <-> ?P) /\ _ => assert (r = true <-> P) as Hiff; [|split; [exact Hiff|exact (Hclean r Hiff)]] end. split; [done|]. intros H. exfalso.
    assert (unused b' = 0) as Ez by (destruct (decide (unused b' = 0)) as [|Hnz]; [done|]; specialize (Hf Hnz); congruence). pose proof (Z.div_mod off (L / 16) ltac:(lia)). pose proof (Z.mod_pos_bound off (L / 16) Hck). set (c := off / (L / 16)) in *. assert (0 <= c < 16) as Hc by (split; [apply Z.div_pos; lia|apply Z.div_lt_upper_bound; lia]).
    specialize (H c Hc). rewrite <- Hb, Ez, Z.bits_0 in H by done. discriminate H. unfold meets. cbn [fst snd]. lia.
Qed.

(** A blob of 64 KiB whose second half is declared and then written in part. *)
Definition half_blob : bluestore_blob_t := mk_blob [pextent 65536 65536] 65536 0 CSUM_NONE 0 [] 0.
Definition half_history : list uop := [UUse (49152, 100); UAdd (32768, 32768)].

Lemma unused_exact_witness : exists b, history half_history half_blob = Some b /\ is_unused 32768 16384 b = Some true /\ is_unused 49152 1 b = Some false.
Proof.
  destruct (unused_exact 65536 half_history half_blob ltac:(lia) eq_refl ltac:(lia) eq_refl eq_refl) as (b & E & H); [by repeat constructor|]. exists b. split; [exact E|]. injection E as <-. split; reflexivity.
Defined.
End BlobUnused.
