(* ===== verification/BlobDenc.v ===== *)
(** * The encodings of blobs

    [blk/extent_types.h] and the [DENC] functions of
    [bluestore/bluestore_types.h]: extents, trackers, blobs, collections, shards
    and deferred writes are read back as they were written. *)
From stdpp Require Import base numbers list sets.
From Stdlib Require Import ZArith Lia ZifyBool.
From S2P Require Import Prelude IntArith Crc32 IntervalSet Allocator Denc DencSpec UseTracker Blob.
Import Denc DencSpec Allocator UseTracker Blob.

Module BlobDenc.
Local Open Scope Z_scope.
Abbreviation zlen l := (Z.of_nat (List.length l)).

Definition denc_pextent : denc_traits pextent_t := {|
  bound_encode v := bound_encode denc_lba (offset v) + bound_encode (denc_varint_lowz 32) (length v);
  encode v := encode denc_lba (offset v) ++ encode (denc_varint_lowz 32) (length v);
  decode p := '(o, p) ← decode denc_lba p; '(l, p) ← decode (denc_varint_lowz 32) p; Ok (mk_pextent o l, p);
|}.

(** [PExtentVector]; the bound takes the first extent for all. *)
Definition denc_pextents : denc_traits (list pextent_t) := {|
  bound_encode v := bound_encode (denc_varint 32) (u32 (zlen v)) + match v with [] => 0 | e :: _ => bound_encode denc_pextent e * zlen v end;
  encode v := encode (denc_varint 32) (u32 (zlen v)) ++ concat (encode denc_pextent <$> v);
  decode p := '(num, p) ← decode (denc_varint 32) p; decode_nohead denc_pextent (Z.to_nat num) p;
|}.

(** What the union of a tracker holds, as its users read it. *)
Definition stored_total (t : use_tracker) : Z := default 0 (read_total t).
Definition stored_bytes (t : use_tracker) : list Z := default [] (counters t).

Definition denc_tracker : denc_traits use_tracker := {|
  bound_encode t := bound_encode denc_u32 (au_size t) + if au_size t =? 0 then 0 else bound_encode denc_u32 (num_au t) + if num_au t =? 0 then bound_encode denc_u32 (stored_total t) else 4 * num_au t;
  encode t := encode denc_u32 (au_size t) ++ if au_size t =? 0 then [] else encode denc_u32 (num_au t) ++ if num_au t =? 0 then encode denc_u32 (stored_total t) else concat (encode denc_u32 <$> stored_bytes t);
  decode p :=
    '(au, p) ← decode denc_u32 p;
    if au =? 0 then Ok (tracker_new, p)
    else
      '(n, p) ← decode denc_u32 p;
      if n =? 0 then '(total, p) ← decode denc_u32 p; Ok (mk_tracker au 0 0 (total_bytes total), p)
      else '(l, p) ← decode_nohead denc_u32 (Z.to_nat n) p; Ok (mk_tracker au n n (bytes_per_au l), p);
|}.

Definition denc_u16 : denc_traits Z := denc_le 2.

(** The body of [bluestore_blob_t]: the checksums and the bitmap are there when
    the flags say so. *)
Definition denc_blob_body : denc_traits bluestore_blob_t := {|
  bound_encode v := bound_encode denc_pextents (extents v) + bound_encode denc_u32 (logical_length v) + bound_encode denc_u32 (flags v) +
    (if has_csum v then bound_encode denc_u8 (csum_type v) + bound_encode denc_u8 (csum_chunk_order v) + bound_encode denc_string (csum_data v) else 0) +
    (if has_unused v then bound_encode denc_u16 (unused v) else 0);
  encode v := encode denc_pextents (extents v) ++ encode denc_u32 (logical_length v) ++ encode denc_u32 (flags v) ++
    (if has_csum v then encode denc_u8 (csum_type v) ++ encode denc_u8 (csum_chunk_order v) ++ encode denc_string (csum_data v) else []) ++
    (if has_unused v then encode denc_u16 (unused v) else []);
  decode p :=
    '(e, p) ← decode denc_pextents p;
    '(len, p) ← decode denc_u32 p;
    '(f, p) ← decode denc_u32 p;
    let v := mk_blob e len f CSUM_NONE 0 [] 0 in
    '(v, p) ← (if has_csum v then
                 '(t, p) ← decode denc_u8 p;
                 '(o, p) ← decode denc_u8 p;
                 '(d, p) ← decode denc_string p;
                 Ok (mk_blob e len f t o d 0, p)
               else Ok (v, p));
    if has_unused v then '(u, p) ← decode denc_u16 p; Ok (set_unused u v, p) else Ok (v, p);
|}.
Definition denc_blob : denc_traits bluestore_blob_t := denc_struct 2 2 denc_blob_body.

(** [bluestore_cnode_t], a number of bits. *)
Definition denc_cnode : denc_traits Z := denc_struct 1 1 denc_u32.

(** [bluestore_onode_t::shard_info], offset and bytes. *)
Definition denc_shard_info : denc_traits (Z * Z) := denc_struct 1 1 {|
  bound_encode v := bound_encode denc_u32 v.1 + bound_encode denc_u32 v.2;
  encode v := encode denc_u32 v.1 ++ encode denc_u32 v.2;
  decode p := '(o, p) ← decode denc_u32 p; '(b, p) ← decode denc_u32 p; Ok ((o, b), p);
|}.

Record deferred_op := mk_deferred { d_op : Z; d_extents : list pextent_t; d_data : bytes }.
Definition denc_deferred_body : denc_traits deferred_op := {|
  bound_encode v := bound_encode denc_u8 (d_op v) + bound_encode denc_pextents (d_extents v) + bound_encode denc_string (d_data v);
  encode v := encode denc_u8 (d_op v) ++ encode denc_pextents (d_extents v) ++ encode denc_string (d_data v);
  decode p := '(o, p) ← decode denc_u8 p; '(e, p) ← decode denc_pextents p; '(d, p) ← decode denc_string p; Ok (mk_deferred o e d, p);
|}.
Definition denc_deferred_op : denc_traits deferred_op := denc_struct 1 1 denc_deferred_body.

(** ** They are lawful *)

Definition pextent_valid (e : pextent_t) : Prop := uint 64 (offset e) /\ uint 32 (length e).

Lemma pextent_lawful : lawful denc_pextent pextent_valid.
Proof.
  pose proof (lowz_lawful 32 ltac:(lia)) as Hl. constructor; intros [o l]; unfold pextent_valid; cbn [encode decode bound_encode denc_pextent offset length].
  - intros rest (? & ?). read_field lba_lawful. read_field Hl. done.
  - intros (? & ?). rewrite !length_app. bound_field lba_lawful o. bound_field Hl l. lia.
Qed.

(** Elements without a count in front. *)
Lemma nohead_roundtrip {T} (d : denc_traits T) valid l rest : lawful d valid -> Forall valid l -> decode_nohead d (List.length l) (concat (encode d <$> l) ++ rest) = Ok (l, rest).
Proof. intros Hd. induction 1 as [|x l Hx Hl IH]; [done|]. cbn [List.length decode_nohead fmap list_fmap concat]. read_field Hd. by rewrite IH, ok_bind. Qed.

Definition pextents_valid (v : list pextent_t) : Prop := Forall pextent_valid v /\ zlen v < 2 ^ 32.

Lemma pextents_bound v : Forall pextent_valid v -> zlen (concat (encode denc_pextent <$> v)) <= 20 * zlen v.
Proof. induction 1 as [|e v He Hv IH]; [done|]. cbn [List.length fmap list_fmap concat]. rewrite length_app. pose proof (l_bound _ _ pextent_lawful e He) as Hb. change (bound_encode denc_pextent e) with 20 in Hb. cbn [fmap list_fmap] in IH. lia. Qed.

Lemma pextents_lawful : lawful denc_pextents pextents_valid.
Proof.
  constructor; intros v; unfold pextents_valid; cbn [encode decode bound_encode denc_pextents].
  - intros rest [Hv Hl]. assert (uint 32 (zlen v)) by (unfold uint; lia). rewrite u32_small by lia. read_field varint32_lawful. rewrite Nat2Z.id. by apply (nohead_roundtrip _ _ _ _ pextent_lawful).
  - intros [Hv Hl]. assert (uint 32 (zlen v)) by (unfold uint; lia). rewrite u32_small by lia. rewrite length_app. bound_field varint32_lawful (zlen v). pose proof (pextents_bound v Hv). destruct v as [|e v]; [simpl in *; lia|]. change (bound_encode denc_pextent e) with 20. lia.
Qed.

(** A tracker that was written to as it says. *)
Definition tracker_valid (t : use_tracker) : Prop :=
  (t = tracker_new) \/
  (uint 32 (au_size t) /\ au_size t <> 0 /\
   ((exists n, usage t = total_bytes n /\ uint 32 n /\ num_au t = 0 /\ alloc_au t = 0) \/
    (exists l, usage t = bytes_per_au l /\ Forall (uint 32) l /\ zlen l = num_au t /\ alloc_au t = num_au t /\ 0 < num_au t < 2 ^ 32))).

Lemma u32s_bound l : zlen (concat (encode denc_u32 <$> l)) = 4 * zlen l.
Proof. induction l as [|x l IH]; [done|]. cbn [List.length fmap list_fmap concat]. rewrite length_app. cbn [encode denc_u32 denc_le]. rewrite length_le_bytes. cbn [fmap list_fmap encode denc_u32 denc_le] in IH. lia. Qed.

Lemma tracker_lawful : lawful denc_tracker tracker_valid.
Proof.
  constructor; intros t; cbn [encode decode bound_encode denc_tracker].
  - intros rest [->|(Ha & Hn & [(n & Eu & Hu & En & Eal)|(l & Eu & Hl & El & Eal & Hnum)])]; [cbn [au_size tracker_new Z.eqb]; rewrite app_nil_r; read_field u32_lawful; done|..]; rewrite (proj2 (Z.eqb_neq (au_size t) 0)) by done; read_field u32_lawful; rewrite (proj2 (Z.eqb_neq (au_size t) 0)) by done.
    + rewrite En. cbn [Z.eqb]. assert (uint 32 0) by done. assert (stored_total t = n) as -> by (unfold stored_total, read_total; by rewrite Eu). read_field u32_lawful. cbn [Z.eqb]. read_field u32_lawful. do 2 f_equal. destruct t. cbn in *. by subst.
    + assert (uint 32 (num_au t)) by (unfold uint; lia). rewrite (proj2 (Z.eqb_neq (num_au t) 0)) by lia. assert (stored_bytes t = l) as -> by (unfold stored_bytes, counters, read_bytes; rewrite Eu, some_bind, (proj2 (Nat.leb_le _ _)) by lia; cbn; by rewrite take_ge by lia).
      read_field u32_lawful. rewrite (proj2 (Z.eqb_neq (num_au t) 0)) by lia. rewrite <- El at 1. rewrite Nat2Z.id, (nohead_roundtrip _ _ _ _ u32_lawful Hl), ok_bind. do 2 f_equal. destruct t. cbn in *. by subst.
  - intros [->|(Ha & Hn & [(n & Eu & Hu & En & Eal)|(l & Eu & Hl & El & Eal & Hnum)])]; [done|..]; rewrite (proj2 (Z.eqb_neq (au_size t) 0)) by done; rewrite !length_app.
    + rewrite En. cbn [Z.eqb]. cbn [encode bound_encode denc_u32 denc_le]. rewrite !length_le_bytes. lia.
    + rewrite (proj2 (Z.eqb_neq (num_au t) 0)) by lia. assert (stored_bytes t = l) as -> by (unfold stored_bytes, counters, read_bytes; rewrite Eu, some_bind, (proj2 (Nat.leb_le _ _)) by lia; cbn; by rewrite take_ge by lia). pose proof (u32s_bound l) as Hb. cbn [encode bound_encode denc_u32 denc_le] in *. rewrite !length_le_bytes. lia.
Qed.

(** A blob whose fields fit their types, without a checksum or a bitmap where
    the flags say that there is none. *)
Record blob_valid (b : bluestore_blob_t) : Prop := {
  v_extents : pextents_valid (extents b);
  v_length : uint 32 (logical_length b);
  v_flags : uint 32 (flags b);
  v_csum : if has_csum b then uint 8 (csum_type b) /\ uint 8 (csum_chunk_order b) /\ zlen (csum_data b) < 2 ^ 32 else csum_type b = CSUM_NONE /\ csum_chunk_order b = 0 /\ csum_data b = [];
  v_unused : if has_unused b then uint 16 (unused b) else unused b = 0;
}.

Lemma u16_lawful : lawful denc_u16 (uint 16).
Proof. exact (denc_le_lawful 2). Qed.

Lemma blob_body_lawful : lawful denc_blob_body blob_valid.
Proof.
  constructor; intros [e len f ct co cd u]; cbn [encode decode bound_encode denc_blob_body extents logical_length flags csum_type csum_chunk_order csum_data unused].
  - intros rest [He Hlen Hf Hc Hu]. cbn [extents logical_length flags csum_type csum_chunk_order csum_data unused] in *. read_field pextents_lawful. read_field u32_lawful. read_field u32_lawful. cbv zeta.
    change (has_csum (mk_blob e len f CSUM_NONE 0 [] 0)) with (has_csum (mk_blob e len f ct co cd u)). change (has_unused (mk_blob e len f CSUM_NONE 0 [] 0)) with (has_unused (mk_blob e len f ct co cd u)). destruct (has_csum (mk_blob e len f ct co cd u)).
    + destruct Hc as (? & ? & ?). read_field u8_lawful. read_field u8_lawful. read_field string_lawful. rewrite ok_bind. change (has_unused (mk_blob e len f ct co cd 0)) with (has_unused (mk_blob e len f ct co cd u)). destruct (has_unused (mk_blob e len f ct co cd u)); [read_field u16_lawful; done|by subst].
    + destruct Hc as (-> & -> & ->). rewrite app_nil_l, ok_bind. change (has_unused (mk_blob e len f CSUM_NONE 0 [] 0)) with (has_unused (mk_blob e len f CSUM_NONE 0 [] u)). destruct (has_unused (mk_blob e len f CSUM_NONE 0 [] u)); [read_field u16_lawful; done|by subst].
  - intros [He Hlen Hf Hc Hu]. cbn [extents logical_length flags csum_type csum_chunk_order csum_data unused] in *. rewrite !length_app. bound_field pextents_lawful e. bound_field u32_lawful len. bound_field u32_lawful f. destruct (has_csum (mk_blob e len f ct co cd u)).
    + destruct Hc as (? & ? & ?). rewrite !length_app. bound_field u8_lawful ct. bound_field u8_lawful co. bound_field string_lawful cd. destruct (has_unused (mk_blob e len f ct co cd u)); [bound_field u16_lawful u|cbn [List.length]]; lia.
    + destruct (has_unused (mk_blob e len f ct co cd u)); [bound_field u16_lawful u|]; cbn [List.length]; lia.
Qed.

Definition deferred_valid (v : deferred_op) : Prop := uint 8 (d_op v) /\ pextents_valid (d_extents v) /\ zlen (d_data v) < 2 ^ 32.
Lemma deferred_body_lawful : lawful denc_deferred_body deferred_valid.
Proof.
  constructor; intros [o e d]; unfold deferred_valid; cbn [encode decode bound_encode denc_deferred_body d_op d_extents d_data].
  - intros rest (? & ? & ?). read_field u8_lawful. read_field pextents_lawful. read_field string_lawful. done.
  - intros (? & ? & ?). rewrite !length_app. bound_field u8_lawful o. bound_field pextents_lawful e. bound_field string_lawful d. lia.
Qed.

(** C36: blobs, trackers and deferred writes are read back as they were written,
    whatever follows them, and fit the space that is reserved for them. *)
Theorem blob_roundtrip (b : bluestore_blob_t) (t : use_tracker) (v : deferred_op) (rest : bytes) :
  blob_valid b -> zlen (encode denc_blob_body b) < 2 ^ 32 -> tracker_valid t -> deferred_valid v -> zlen (encode denc_deferred_body v) < 2 ^ 32 ->
  (decode denc_blob (encode denc_blob b ++ rest) = Ok (b, rest) /\ zlen (encode denc_blob b) <= bound_encode denc_blob b) /\
  (decode denc_tracker (encode denc_tracker t ++ rest) = Ok (t, rest) /\ zlen (encode denc_tracker t) <= bound_encode denc_tracker t) /\
  (decode denc_deferred_op (encode denc_deferred_op v ++ rest) = Ok (v, rest) /\ zlen (encode denc_deferred_op v) <= bound_encode denc_deferred_op v).
Proof.
  intros Hb Hlb Ht Hv Hlv. assert (uint 8 2 /\ uint 8 1) as [H2 H1] by done. destruct (struct_lawful 2 2 _ _ H2 H2 blob_body_lawful) as [B1 B2]. destruct (struct_lawful 1 1 _ _ H1 H1 deferred_body_lawful) as [D1 D2]. destruct tracker_lawful as [T1 T2]. split_and!; auto.
Qed.

Lemma blob_roundtrip_witness :
  let b := mk_blob [mk_pextent 0x12345000 0x10000; mk_pextent INVALID_OFFSET 4096] 69632 12 CSUM_CRC32C 12 (seqZ 0 68) 3 in
  let t := mk_tracker 4096 3 3 (bytes_per_au [1; 2; 3]) in
  let v := mk_deferred 1 [mk_pextent 8192 4096] [1; 2; 3] in
  decode denc_blob (encode denc_blob b ++ [9]) = Ok (b, [9]) /\ decode denc_tracker (encode denc_tracker t ++ [9]) = Ok (t, [9]) /\ decode denc_deferred_op (encode denc_deferred_op v ++ [9]) = Ok (v, [9]).
Proof.
  intros b t v. assert (uint 64 0x12345000 /\ uint 64 INVALID_OFFSET /\ uint 64 8192) as (? & ? & ?) by (by unfold uint). destruct (blob_roundtrip b t v [9]) as ((E1 & _) & (E2 & _) & (E3 & _)); [..|done].
  - constructor; [split; [by repeat constructor|done]|done..].
  - vm_compute. reflexivity.
  - right. split; [done|]. split; [done|]. right. exists [1; 2; 3]. by repeat constructor.
  - split; [done|]. split; [split; [by repeat constructor|done]|done].
  - vm_compute. reflexivity.
Defined.
End BlobDenc.
