(* ===== verification/Lextent.v ===== *)
(** * bluestore/extent_map.{h,cc}: the extents of an object

    [ExtentMap] maps the bytes of an object to the bytes of its blobs: a
    [std::set<Extent>], ordered by the logical offset, that is an ordered list.  An
    iterator is a position in it, [end()] being the length.  A [Blob *] is an index
    of a store of blobs, in which a missing blob is undefined behaviour, [None]. *)
From stdpp Require Import base numbers list gmap.
From Stdlib Require Import ZArith Lia ZifyBool.
From S2P Require Import Prelude IntervalSet Allocator UseTracker Blob.
Import Allocator.

Module Lextent.
Local Open Scope Z_scope.
Abbreviation BlobRef := nat.
Abbreviation blobs := (gmap BlobRef Blob.Blob).

Record Extent := mk_Extent { logical_offset : Z; blob_offset : Z; length : Z; blob : BlobRef }.

Definition logical_end (e : Extent) : Z := logical_offset e +32 length e.
Definition blob_start (e : Extent) : Z := logical_offset e -32 blob_offset e.
Definition blob_end (B : blobs) (e : Extent) : option Z := b ← B !! blob e; Some (blob_start e +32 Blob.logical_length (Blob.blob_ b)).
Definition blob_escapes_range (o l : Z) (B : blobs) (e : Extent) : option bool :=
  if blob_start e <? o then Some true else b ← blob_end B e; Some (o +32 l <? b).

Record OldExtent := mk_OldExtent { e : Extent; released : list pextent_t; blob_empty : bool }.
Definition OldExtent_new (lo bo l : Z) (b : BlobRef) : OldExtent := mk_OldExtent (mk_Extent (u32 lo) (u32 bo) (u32 l) b) [] false.

(** ** std::set<Extent> *)
Abbreviation extent_map := (list Extent).
Abbreviation iterator := nat.
Abbreviation end_ m := (List.length (m : extent_map)).

(** The first extent that is not before the key. *)
Fixpoint lower_bound (key : Z) (m : extent_map) : iterator :=
  match m with [] => O | x :: t => if logical_offset x <? key then S (lower_bound key t) else O end.
Definition erase (it : iterator) (m : extent_map) : extent_map := take it m ++ drop (S it) m.

Definition seek_lextent (offset : Z) (m : extent_map) : iterator :=
  match lower_bound (u32 (offset +64 1)) m with
  | O => end_ m
  | S i => match m !! i with Some x => if offset <? logical_end x then i else end_ m | None => end_ m end
  end.

(** [end()] if there is an extent at [lo]. *)
Definition add (lo bo l : Z) (b : BlobRef) (m : extent_map) : iterator * extent_map :=
  let i := lower_bound lo m in
  let m' := take i m ++ mk_Extent lo bo l b :: drop i m in
  match m !! i with Some x => if logical_offset x =? lo then (end_ m, m) else (i, m') | None => (i, m') end.

Definition rm (it : iterator) (m : extent_map) : extent_map := erase it m.

Definition or_begin (it : iterator) (m : extent_map) : iterator := if (it =? end_ m)%nat then O else it.

Definition punch_step (offset hole_end : Z) (s : iterator * extent_map * list OldExtent) : (iterator * extent_map * list OldExtent) + (extent_map * list OldExtent) :=
  let '(it, m, old) := s in
  match m !! it with
  | None => inr (m, old)
  | Some x =>
      let e_lo := logical_offset x in
      let e_end := logical_end x in
      let e_bo := blob_offset x in
      if hole_end <=? e_lo then inr (m, old)
      else if e_end <=? offset then inl (S it, m, old)
      else
        let punch_lo := Z.max e_lo offset in
        let punch_end := Z.min e_end hole_end in
        let old := old ++ [OldExtent_new punch_lo (e_bo +64 (punch_lo -64 e_lo)) (punch_end -64 punch_lo) (blob x)] in
        if (e_lo <? offset) && (hole_end <? e_end) then
          let m := (add e_lo e_bo (u32 (offset - e_lo)) (blob x) (erase it m)).2 in
          inr ((add (u32 hole_end) (u32 (e_bo +64 (hole_end -64 e_lo))) (u32 (e_end - hole_end)) (blob x) m).2, old)
        else if e_lo <? offset then
          let m := (add e_lo e_bo (u32 (offset - e_lo)) (blob x) (erase it m)).2 in
          inl (or_begin (seek_lextent offset m) m, m, old)
        else if hole_end <? e_end then
          inr ((add (u32 hole_end) (u32 (e_bo +64 (hole_end -64 e_lo))) (u32 (e_end - hole_end)) (blob x) (erase it m)).2, old)
        else
          let m := erase it m in
          inl (or_begin (seek_lextent offset m) m, m, old)
  end.

Definition punch_hole (offset len : Z) (m : extent_map) (old_extents : list OldExtent) : option (extent_map * list OldExtent) :=
  while (punch_step offset (offset +64 len)) 128 (or_begin (seek_lextent offset m) m, m, old_extents).

(** With [old_extents] not null, the range is punched first. *)
Definition set_lextent (logical_offset blob_offset len : Z) (b : BlobRef) (min_alloc_size : Z) (B : blobs) (m : extent_map) (old_extents : option (list OldExtent))
  : option (iterator * blobs * extent_map * option (list OldExtent)) :=
  '(B, m, old) ←
    match old_extents with
    | Some old =>
        x ← B !! b;
        x ← Blob.get_ref blob_offset len (u32 min_alloc_size) x;
        '(m, old) ← punch_hole logical_offset len m old;
        Some (<[b := x]> B, m, Some old)
    | None => Some (B, m, None)
    end;
  let '(it, m) := add logical_offset blob_offset len b m in
  Some (it, B, m, old).

Fixpoint has_any_lextents (offset len : Z) (m : extent_map) : bool :=
  match m with
  | [] => false
  | x :: t => if offset +64 len <=? logical_offset x then false else if logical_end x <=? offset then has_any_lextents offset len t else true
  end.

(** The addresses of two offsets of a blob, 0 if it has none. *)
Definition phys_step (curr_end_blob_off next_start_blob_off : Z) (s : Z * Z * Z) (p : pextent_t) : Z * Z * Z :=
  let '(blob_off, curr_phys_end, next_phys_start) := s in
  let inside x := (blob_off <=? x) && (x <? blob_off +32 Allocator.length p) in
  (blob_off +32 Allocator.length p,
   if inside curr_end_blob_off then offset p +64 (curr_end_blob_off -32 blob_off) else curr_phys_end,
   if inside next_start_blob_off then offset p +64 (next_start_blob_off -32 blob_off) else next_phys_start).
Definition phys_contiguous (b : Blob.Blob) (x next : Extent) : bool :=
  let '(_, curr_phys_end, next_phys_start) := foldl (phys_step (blob_offset x +32 length x) (blob_offset next)) (0, 0, 0) (Blob.extents (Blob.blob_ b)) in
  curr_phys_end =? next_phys_start.

Definition compress_step (B : blobs) (offset len : Z) (s : iterator * extent_map * Z) : option ((iterator * extent_map * Z) + (Z * extent_map)) :=
  let '(it, m, compressed) := s in
  match m !! it with
  | None => Some (inr (compressed, m))
  | Some x =>
      if offset +64 len <=? logical_offset x then Some (inr (compressed, m))
      else if logical_end x <=? offset then Some (inl (S it, m, compressed))
      else
        match m !! S it with
        | None => Some (inr (compressed, m))
        | Some next =>
            if (logical_end x =? logical_offset next) && (blob x =? blob next)%nat && (blob_offset x +32 length x =? blob_offset next) then
              b ← B !! blob x;
              if negb (phys_contiguous b x next) then Some (inl (S it, m, compressed))
              else
                let m := (add (logical_offset x) (blob_offset x) (length x +32 length next) (blob x) (erase it (erase it m))).2 in
                Some (inl (O, m, compressed + 1))
            else Some (inl (S it, m, compressed))
        end
  end.

(** The number of merges, and the map. *)
Definition compress_extent_map (offset len : Z) (B : blobs) (m : extent_map) : option (Z * extent_map) :=
  whileM (compress_step B offset len) 128 (O, m, 0).
End Lextent.
