(* ===== verification/LextentSpec.v ===== *)
(** * What the extent map of an object promises

    [find] reads the map as a function from the bytes of the object to the bytes of
    blobs.  Punching a hole removes exactly its bytes and hands them over, setting an
    extent redirects exactly its bytes, compressing redirects none. *)
From stdpp Require Import base numbers list gmap.
From Stdlib Require Import ZArith Lia ZifyBool.
From S2P Require Import Prelude IntervalSet Allocator UseTracker Blob BlobSpec Lextent.
Import Allocator Lextent.

Module LextentSpec.
Local Open Scope Z_scope.
Abbreviation zlen l := (Z.of_nat (List.length l)).

(** The blob and the offset in it of the byte [x] of the object. *)
Definition find1 (x : Z) (e : Extent) : option (BlobRef * Z) :=
  if (logical_offset e <=? x) && (x <? logical_offset e + length e) then Some (blob e, blob_offset e + (x - logical_offset e)) else None.
Fixpoint find (m : extent_map) (x : Z) : option (BlobRef * Z) :=
  match m with [] => None | e :: t => match find1 x e with Some r => Some r | None => find t x end end.

Definition lend (e : Extent) : Z := logical_offset e + length e.
Definition extent_ok (e : Extent) : Prop := 0 < length e /\ lend e < 2 ^ 32 /\ 0 <= blob_offset e /\ blob_offset e + length e < 2 ^ 32.

(** Extents from [lo] on that are ordered, not empty and do not overlap. *)
Fixpoint wf (lo : Z) (m : extent_map) : Prop :=
  match m with [] => True | e :: t => lo <= logical_offset e /\ extent_ok e /\ wf (lend e) t end.

Definition last_end (lo : Z) (m : extent_map) : Z := foldl (fun _ e => lend e) lo m.

Lemma wf_app lo a b : wf lo (a ++ b) <-> wf lo a /\ wf (last_end lo a) b.
Proof. revert lo. induction a as [|e a IH]; intros lo; cbn [app wf last_end foldl]; [tauto|]. rewrite IH. unfold last_end. tauto. Qed.

Lemma wf_weaken lo lo' m : lo' <= lo -> wf lo m -> wf lo' m.
Proof. destruct m; cbn; [done|]. intros ? (? & ? & ?). split_and!; (done || lia). Qed.

Lemma wf_bounds lo m : wf lo m -> Forall (fun e => lo <= logical_offset e /\ extent_ok e) m.
Proof.
  revert lo. induction m as [|e m IH]; intros lo; cbn [wf]; [done|]. intros (H1 & H2 & H3). constructor; [done|]. eapply Forall_impl; [by apply (IH (lend e))|]. intros y (? & ?). destruct H2. split; [unfold lend in *; lia|done].
Qed.

Lemma last_end_ge lo m : wf lo m -> lo <= last_end lo m /\ Forall (fun e => lend e <= last_end lo m) m.
Proof.
  revert lo. induction m as [|e m IH]; intros lo; cbn [wf last_end foldl]; [intros; split; [lia|done]|]. intros (H1 & (H2 & _) & H3). destruct (IH _ H3) as [H4 H5]. unfold last_end, lend in *. split; [lia|]. constructor; [lia|done].
Qed.

(** The number of extents is bounded. *)
Lemma wf_length lo m : 0 <= lo -> wf lo m -> lo <= 2 ^ 32 -> lo + zlen m <= 2 ^ 32.
Proof.
  revert lo. induction m as [|e m IH]; intros lo Hlo; cbn [wf List.length]; [lia|]. intros (H1 & (H2 & H3 & _) & H4) _. specialize (IH (lend e)). unfold lend in *. specialize (IH ltac:(lia) H4 ltac:(lia)). lia.
Qed.

Lemma logical_end_ok e : 0 <= logical_offset e -> extent_ok e -> logical_end e = lend e.
Proof. intros ? (? & ? & _). unfold logical_end, lend in *. rewrite u32_small; lia. Qed.

Lemma wf_mid lo a e b : wf lo (a ++ e :: b) -> 0 <= lo -> 0 <= logical_offset e /\ extent_ok e /\ Forall (fun y => lend y <= logical_offset e) a /\ Forall (fun y => lend e <= logical_offset y /\ extent_ok y) b /\ wf (lend e) b.
Proof.
  intros (Ha & H1 & H2 & H3)%wf_app Hlo. destruct (last_end_ge _ _ Ha) as [H4 H5]. split_and!; [lia|done| |by apply wf_bounds|done]. eapply Forall_impl; [exact H5|]. cbn. intros; lia.
Qed.

(** ** Positions *)

Lemma lextent_lower_bound_app k a b : Forall (fun e => logical_offset e < k) a -> match b with [] => True | e :: _ => k <= logical_offset e end -> lower_bound k (a ++ b) = List.length a.
Proof.
  induction 1 as [|e a He Ha IH]; intros Hb; cbn [app lower_bound List.length].
  - destruct b as [|e b]; cbn [lower_bound]; [done|]. by rewrite (proj2 (Z.ltb_ge _ _)).
  - rewrite (proj2 (Z.ltb_lt _ _)) by done. by rewrite IH.
Qed.

Lemma lower_bound_prefix k m : Forall (fun e => logical_offset e < k) (take (lower_bound k m) m).
Proof. induction m as [|e m IH]; cbn [lower_bound]; [done|]. destruct (Z.ltb_spec (logical_offset e) k); cbn [take]; by constructor. Qed.

Lemma add_app lo bo l r a b : Forall (fun e => logical_offset e < lo) a -> match b with [] => True | e :: _ => lo < logical_offset e end ->
  add lo bo l r (a ++ b) = (List.length a, a ++ mk_Extent lo bo l r :: b).
Proof.
  intros Ha Hb. unfold add. rewrite (lextent_lower_bound_app lo a b) by (done || (destruct b; [done|lia])). rewrite take_app_length, drop_app_length, lookup_app_r, Nat.sub_diag by done.
  destruct b as [|e b]; cbn [lookup list_lookup]; [done|]. by rewrite (proj2 (Z.eqb_neq _ _)) by lia.
Qed.

Lemma erase_app a e b : erase (List.length a) (a ++ e :: b) = a ++ b.
Proof. unfold erase. rewrite take_app_length. f_equal. by rewrite (cons_middle e a b), app_assoc, drop_app_length' by (rewrite length_app; cbn; lia). Qed.

(** The position from which a search begins: nothing before it reaches [off]. *)
Definition start_at (off : Z) (m : extent_map) : nat := or_begin (seek_lextent off m) m.

Lemma start_at_spec off m : wf 0 m -> 0 <= off < 2 ^ 64 -> (start_at off m <= List.length m)%nat /\ Forall (fun e => lend e <= off) (take (start_at off m) m).
Proof.
  intros Hwf Hoff. unfold start_at, or_begin, seek_lextent. pose proof (lower_bound_prefix (u32 (off +64 1)) m) as Hp. destruct (lower_bound _ m) as [|i]; [rewrite Nat.eqb_refl; split; [lia|done]|].
  destruct (m !! i) as [x|] eqn:Ex; [|rewrite Nat.eqb_refl; split; [lia|done]]. pose proof (lookup_lt_Some _ _ _ Ex) as Hi. destruct (Z.ltb_spec off (logical_end x)) as [Hlt|]; [|rewrite Nat.eqb_refl; split; [lia|done]].
  rewrite (proj2 (Nat.eqb_neq _ _)) by lia. split; [lia|]. rewrite (take_S_r _ _ x Ex) in Hp. apply Forall_app in Hp as [_ Hx]. rewrite Forall_singleton in Hx.
  rewrite <- (take_drop_middle m i x Ex) in Hwf. apply wf_mid in Hwf as (H1 & H2 & H3 & _); [|done]. rewrite logical_end_ok in Hlt by done. destruct H2 as (? & ? & _). rewrite (u64_small (off + 1)), u32_small in Hx by lia. eapply Forall_impl; [exact H3|]. cbv beta. intros y Hy. lia.
Qed.

(** ** Holes *)

Section Hole.
Context (off he : Z) (off_ok : 0 <= off) (he_ok : off <= he) (he_fits : he < 2 ^ 64).

Definition meets (e : Extent) : bool := (logical_offset e <? he) && (off <? lend e).

(** What is left of an extent, and what is handed over. *)
Definition keep1 (e : Extent) : list Extent :=
  if meets e then
    (if logical_offset e <? off then [mk_Extent (logical_offset e) (blob_offset e) (off - logical_offset e) (blob e)] else []) ++
    (if he <? lend e then [mk_Extent he (blob_offset e + (he - logical_offset e)) (lend e - he) (blob e)] else [])
  else [e].
Definition gone1 (e : Extent) : list Extent :=
  if meets e then
    let lo := Z.max (logical_offset e) off in
    [mk_Extent lo (blob_offset e + (lo - logical_offset e)) (Z.min (lend e) he - lo) (blob e)]
  else [].
Definition keep (m : extent_map) : extent_map := m ≫= keep1.
Definition gone (m : extent_map) : extent_map := m ≫= gone1.
Abbreviation old_of l := ((fun e => mk_OldExtent e [] false) <$> l).

Lemma lkeep_away m : Forall (fun e => lend e <= off \/ he <= logical_offset e) m -> keep m = m /\ gone m = [].
Proof.
  induction 1 as [|e m He Hm [IH1 IH2]]; [done|]. unfold keep, gone in *. cbn [mbind list_bind]. rewrite IH1, IH2. unfold keep1, gone1. assert (meets e = false) as -> by (unfold meets; lia). done.
Qed.

Lemma keep_mid a e b : Forall (fun y => lend y <= off) a -> keep (a ++ e :: b) = a ++ keep1 e ++ keep b /\ gone (a ++ e :: b) = gone1 e ++ gone b.
Proof.
  intros Ha. unfold keep, gone. rewrite !bind_app. fold (keep a) (gone a). destruct (lkeep_away a) as [-> ->]; [|done]. eapply Forall_impl; [exact Ha|]. intros; by left.
Qed.

Lemma wf_keep lo m : 0 <= lo -> wf lo m -> wf lo (keep m).
Proof using off_ok he_ok.
  revert lo. induction m as [|e m IH]; intros lo Hlo; [done|]. cbn [wf]. intros (H1 & H2 & H3). unfold keep. cbn [mbind list_bind]. fold (keep m). pose proof H2 as (? & ? & ? & ?). specialize (IH (lend e) ltac:(unfold lend; lia) H3).
  unfold keep1. destruct (meets e) eqn:Em; [|cbn [app wf]; split_and!; done]. unfold meets in Em. zbool. destruct (Z.ltb_spec (logical_offset e) off), (Z.ltb_spec he (lend e)); cbn [app wf]; unfold extent_ok, lend in *; cbn [logical_offset length blob_offset]; try split_and!; try lia; (eapply wf_weaken; [|exact IH]; lia).
Qed.

Lemma wf_gone lo m : off < he -> 0 <= lo -> wf lo m -> wf lo (gone m).
Proof using off_ok.
  intros Hlt. revert lo. induction m as [|e m IH]; intros lo Hlo; [done|]. cbn [wf]. intros (H1 & H2 & H3). unfold gone. cbn [mbind list_bind]. fold (gone m). pose proof H2 as (? & ? & ? & ?). specialize (IH (lend e) ltac:(unfold lend; lia) H3).
  unfold gone1. destruct (meets e) eqn:Em; [|eapply wf_weaken; [|exact IH]; unfold lend; lia]. unfold meets in Em. zbool. cbn [app wf]. unfold extent_ok, lend in *; cbn [logical_offset length blob_offset]. split_and!; try lia. eapply wf_weaken; [|exact IH]; lia.
Qed.

Lemma find_app a b x : find (a ++ b) x = match find a x with Some r => Some r | None => find b x end.
Proof. induction a as [|e a IH]; cbn [app find]; [done|]. by destruct (find1 x e). Qed.

Ltac find_cases :=
  repeat match goal with
  | |- context [?a <=? ?b] => destruct (Z.leb_spec a b); cbn [andb]
  | |- context [?c <? ?d] => destruct (Z.ltb_spec c d); cbn [andb]
  end.

Lemma find_keep m x : find (keep m) x = if (off <=? x) && (x <? he) then None else find m x.
Proof.
  induction m as [|e m IH]; [by destruct (_ && _)|]. unfold keep. cbn [mbind list_bind]. fold (keep m). rewrite find_app, IH. cbn [find].
  assert (find (keep1 e) x = if (off <=? x) && (x <? he) then None else find1 x e) as ->.
  { unfold keep1, meets. destruct ((logical_offset e <? he) && (off <? lend e)) eqn:Em; unfold lend in *; zbool.
    - destruct (Z.ltb_spec (logical_offset e) off), (Z.ltb_spec he (logical_offset e + length e)); cbn [app find]; unfold find1; cbn [logical_offset length blob_offset blob]; find_cases; try done; try lia; do 2 f_equal; lia.
    - cbn [find]. unfold find1. find_cases; (done || lia). }
  by destruct (_ && _).
Qed.

Lemma find_gone m x : find (gone m) x = if (off <=? x) && (x <? he) then find m x else None.
Proof.
  induction m as [|e m IH]; [by destruct (_ && _)|]. unfold gone. cbn [mbind list_bind]. fold (gone m). rewrite find_app, IH. cbn [find].
  assert (find (gone1 e) x = if (off <=? x) && (x <? he) then find1 x e else None) as ->.
  { unfold gone1, meets. destruct ((logical_offset e <? he) && (off <? lend e)) eqn:Em; unfold lend in *; zbool.
    - cbn [find]; unfold find1; cbn [logical_offset length blob_offset blob]; find_cases; try done; try lia; do 2 f_equal; lia.
    - cbn [find]. unfold find1. find_cases; (done || lia). }
  by destruct (_ && _).
Qed.

(** ** The loop *)

Definition meeting (m : extent_map) : nat := List.length (List.filter meets m).

Record punch_inv (m0 : extent_map) (old0 : list OldExtent) (s : nat * extent_map * list OldExtent) : Prop := {
  pi_wf : wf 0 s.1.2;
  pi_it : (s.1.1 <= List.length s.1.2)%nat;
  pi_before : Forall (fun e => lend e <= off) (take s.1.1 s.1.2);
  pi_keep : keep s.1.2 = keep m0;
  pi_gone : s.2 ++ old_of (gone s.1.2) = old0 ++ old_of (gone m0);
}.
Definition punch_measure (s : nat * extent_map * list OldExtent) : Z := Z.of_nat (meeting s.1.2) * (zlen s.1.2 + 1) + (zlen s.1.2 - Z.of_nat s.1.1).

Lemma meeting_app a b : meeting (a ++ b) = (meeting a + meeting b)%nat.
Proof. unfold meeting. by rewrite List.filter_app, length_app. Qed.
Lemma meeting_away m : Forall (fun e => meets e = false) m -> meeting m = 0%nat.
Proof. induction 1 as [|e m He Hm IH]; [done|]. unfold meeting in *. cbn [List.filter]. by rewrite He. Qed.
Lemma meeting_le m : (meeting m <= List.length m)%nat.
Proof. apply List.filter_length_le. Qed.

(** An extent that meets the hole, at the position of the loop. *)
Lemma old_piece x : 0 <= logical_offset x -> extent_ok x -> meets x = true ->
  [OldExtent_new (Z.max (logical_offset x) off) (blob_offset x +64 (Z.max (logical_offset x) off -64 logical_offset x)) (Z.min (lend x) he -64 Z.max (logical_offset x) off) (blob x)] = old_of (gone1 x).
Proof using off_ok he_ok.
  intros H0 (H1 & H2 & H3 & H4) Hm. unfold gone1. rewrite Hm. unfold meets, lend in *. zbool. cbn [fmap list_fmap]. unfold OldExtent_new. rewrite (u64_small (Z.max _ _ - _)), (u64_small (blob_offset x + _)), (u64_small (Z.min _ _ - _)), !u32_small by lia. done.
Qed.

(** Going on after an extent was replaced by what is left before the hole. *)
Lemma punch_again m0 old0 a x b old hd : punch_inv m0 old0 (List.length a, a ++ x :: b, old) -> Forall (fun e => lend e <= off) a -> meets x = true -> keep1 x = hd -> Forall (fun e => lend e <= off) hd -> (List.length hd <= 1)%nat ->
  let m := a ++ hd ++ b in
  punch_inv m0 old0 (start_at off m, m, old ++ old_of (gone1 x)) /\ 0 <= punch_measure (start_at off m, m, old ++ old_of (gone1 x)) < punch_measure (List.length a, a ++ x :: b, old).
Proof using off_ok he_ok he_fits.
  intros [Hwf Hit Hb Hk Hg] Ha Hm E Hhd Hl m. cbn [fst snd] in *. destruct (keep_mid a x b Ha) as [Ek Eg]. assert (keep (hd ++ b) = hd ++ keep b /\ gone (hd ++ b) = gone b) as [Ek1 Eg1].
  { unfold keep, gone. rewrite !bind_app. fold (keep hd) (gone hd). destruct (lkeep_away hd) as [-> ->]; [|done]. eapply Forall_impl; [exact Hhd|]. intros; by left. }
  destruct (lkeep_away a) as [Ek2 Eg2]; [eapply Forall_impl; [exact Ha|]; intros; by left|]. assert (wf 0 m) as Hwm.
  { unfold m. destruct hd as [|h []]; [| |cbn in Hl; lia].
    - cbn [app]. apply wf_app in Hwf as (H1 & H2 & H3 & H4). apply wf_app. split; [done|]. eapply wf_weaken; [|exact H4]. destruct H3 as (? & _). unfold lend. lia.
    - pose proof (wf_keep 0 (a ++ [x])) as Hw. destruct (keep_mid a x [] Ha) as [E1 _]. rewrite E1, E in Hw. apply wf_app in Hwf as (H1 & H2 & H3 & H4). assert (wf 0 (a ++ [h])) as (_ & H5 & H6 & _)%wf_app.
      { unfold keep in Hw. cbn [mbind list_bind] in Hw. rewrite app_nil_r in Hw. apply Hw; [lia|]. apply wf_app. by cbn [wf]. }
      apply wf_app. split; [done|]. cbn [app wf]. split_and!; [done..|]. eapply wf_weaken; [|exact H4]. rewrite Forall_singleton in Hhd. unfold meets in Hm. zbool. lia. }
  destruct (start_at_spec off m Hwm ltac:(lia)) as [Hs1 Hs2]. split; [constructor; cbn [fst snd]; try done|].
  - rewrite <- Hk, Ek, E. unfold m, keep. rewrite bind_app. fold (keep a) (keep (hd ++ b)). by rewrite Ek2, Ek1.
  - rewrite <- Hg, Eg. unfold m, gone. rewrite (bind_app _ a). fold (gone a) (gone (hd ++ b)). rewrite Eg2, Eg1. cbn [app]. by rewrite fmap_app, app_assoc.
  - assert (Forall (fun e => meets e = false) hd) as Hm0 by (eapply Forall_impl; [exact Hhd|]; intros y Hy; unfold meets; cbv beta in Hy; lia). unfold punch_measure. cbn [fst snd].
    assert (meeting (a ++ x :: b) = S (meeting m)) as ->. { unfold m. rewrite !meeting_app, (meeting_away hd Hm0). unfold meeting. cbn [List.filter]. rewrite Hm. cbn [List.length]. lia. }
    assert (List.length m <= List.length (a ++ x :: b))%nat by (unfold m; rewrite !length_app; cbn [List.length]; lia). assert (List.length a <= List.length (a ++ x :: b))%nat by (rewrite length_app; lia). nia.
Qed.

Lemma punch_step_ok m0 old0 s : punch_inv m0 old0 s ->
  match punch_step off he s with inl s' => punch_inv m0 old0 s' /\ 0 <= punch_measure s' < punch_measure s | inr r => r = (keep m0, old0 ++ old_of (gone m0)) end.
Proof using off_ok he_ok he_fits.
  destruct s as [[it m] old]. intros Hi. pose proof Hi as [Hwf Hit Hb Hk Hg]. cbn [fst snd] in *. cbn [punch_step].
  assert (forall l, Forall (fun e => lend e <= off \/ he <= logical_offset e) (take it m ++ l) -> take it m ++ l = m -> (m, old) = (keep m0, old0 ++ old_of (gone m0))) as Hdone.
  { intros l Hl E. rewrite E in Hl. destruct (lkeep_away _ Hl) as [E1 E2]. rewrite E1 in Hk. rewrite E2 in Hg. cbn in Hg. rewrite app_nil_r in Hg. by rewrite Hk, Hg. }
  destruct (m !! it) as [x|] eqn:Ex; cbn [negb].
  2:{ apply (Hdone []); rewrite app_nil_r; [|apply take_ge; by apply lookup_ge_None]. eapply Forall_impl; [exact Hb|]. intros; by left. }
  pose proof (take_drop_middle m it x Ex) as Em. set (a := take it m) in *. set (b := drop (S it) m) in *. assert (List.length a = it) as Ea by (unfold a; rewrite length_take; apply lookup_lt_Some in Ex; lia).
  pose proof Hwf as Hmid. rewrite <- Em in Hmid. apply wf_mid in Hmid as (H0 & Hok & _ & Hbs & _); [|done]. rewrite logical_end_ok by done. destruct (Z.leb_spec he (logical_offset x)).
  { apply (Hdone (x :: b)); [|done]. apply Forall_app. split; [eapply Forall_impl; [exact Hb|]; intros; by left|]. constructor; [by right|]. eapply Forall_impl; [exact Hbs|]. intros y [? _]. right. destruct Hok. unfold lend in *. lia. }
  destruct (Z.leb_spec (lend x) off).
  { apply lookup_lt_Some in Ex as Hlt. split; [|unfold punch_measure; cbn [fst snd]; lia]. constructor; cbn [fst snd]; try done. rewrite (take_S_r m it x Ex). apply Forall_app. split; [done|]. by constructor. }
  assert (meets x = true) as Hm by (unfold meets; lia). rewrite (old_piece x H0 Hok Hm). pose proof Hok as (Hl & Hle & Hbo & Hbe).
  assert (Forall (fun e => logical_offset e < logical_offset x) a) as Hax.
  { pose proof Hwf as Hmid. rewrite <- Em in Hmid. pose proof (wf_mid _ _ _ _ Hmid ltac:(done)) as (_ & _ & H3 & _). apply wf_app in Hmid as [Hwa _]. apply wf_bounds in Hwa. rewrite Forall_forall in *. intros y Hy. specialize (H3 y Hy). destruct (Hwa y Hy) as [_ (? & _)]. unfold lend in *. lia. }
  assert (match b with [] => True | e :: _ => lend x <= logical_offset e end) as Hbh by (destruct b; [done|]; apply Forall_cons in Hbs; tauto).
  assert (erase it m = a ++ b) as Eer by (rewrite <- Em, <- Ea; apply erase_app). rewrite Eer. rewrite <- Em in Hi. rewrite <- Ea in Hi. destruct (keep_mid a x b Hb) as [Ek Eg].
  assert (he < lend x -> keep b = b /\ gone b = []) as Htail.
  { intros Hlt. apply lkeep_away. eapply Forall_impl; [exact Hbs|]. intros y [? _]. right. lia. }
  assert (keep1 x = (if logical_offset x <? off then [mk_Extent (logical_offset x) (blob_offset x) (off - logical_offset x) (blob x)] else []) ++ (if he <? lend x then [mk_Extent he (blob_offset x + (he - logical_offset x)) (lend x - he) (blob x)] else [])) as Ex1 by (unfold keep1; by rewrite Hm).
  rewrite <- Em in Hk, Hg. rewrite Ek in Hk. rewrite Eg, fmap_app, app_assoc in Hg.
  destruct (Z.ltb_spec (logical_offset x) off) as [Hlo|Hlo], (Z.ltb_spec he (lend x)) as [Hhi|Hhi]; cbn [andb].
  - destruct (Htail Hhi) as [Eb1 Eb2]. rewrite Eb1 in Hk. rewrite Eb2 in Hg. cbn [fmap list_fmap] in Hg. rewrite app_nil_r in Hg. rewrite <- Hg, <- Hk, Ex1. f_equal. unfold lend in *. rewrite (u64_small (he - _)), (u64_small (blob_offset x + _)), !u32_small by lia.
    rewrite (add_app (logical_offset x)) by (done || (destruct b; [done|lia])). cbn [snd]. rewrite (cons_middle _ a b), app_assoc, add_app; [cbn [snd]; by rewrite <- app_assoc| |destruct b; [done|lia]]. apply Forall_app. split; [eapply Forall_impl; [exact Hax|]; cbn; intros; lia|]. repeat constructor. cbn. intros; lia.
  - rewrite u32_small by (unfold lend in *; lia). rewrite add_app by (done || (destruct b; [done|unfold lend in *; lia])). cbn [snd]. replace (it, m, old) with (List.length a, a ++ x :: b, old) by (by rewrite Ea, Em). apply (punch_again m0 old0 a x b old [mk_Extent (logical_offset x) (blob_offset x) (off - logical_offset x) (blob x)]); try done. constructor; [|done]. unfold lend. cbn. intros; lia.
  - destruct (Htail Hhi) as [Eb1 Eb2]. rewrite Eb1 in Hk. rewrite Eb2 in Hg. cbn [fmap list_fmap] in Hg. rewrite app_nil_r in Hg. rewrite <- Hg, <- Hk, Ex1. f_equal. unfold lend in *. rewrite (u64_small (he - _)), (u64_small (blob_offset x + _)), !u32_small by lia.
    rewrite add_app; [done| |destruct b; [done|lia]]. eapply Forall_impl; [exact Hax|]. cbn. intros; lia.
  - replace (it, m, old) with (List.length a, a ++ x :: b, old) by (by rewrite Ea, Em). apply (punch_again m0 old0 a x b old []); try done. cbn. intros; lia.
Qed.
End Hole.

Lemma punch_hole_spec off len m old : wf 0 m -> 0 <= off -> 0 <= len -> off + len < 2 ^ 64 ->
  punch_hole off len m old = Some (keep off (off + len) m, old ++ ((fun e => mk_OldExtent e [] false) <$> gone off (off + len) m)).
Proof.
  intros Hwf Ho Hl Hw. unfold punch_hole. rewrite u64_small by lia. fold (start_at off m). destruct (start_at_spec off m Hwf ltac:(lia)) as [Hs1 Hs2].
  destruct (while_spec (punch_step off (off + len)) (punch_inv off (off + len) m old) (punch_measure off (off + len)) (fun r => r = (keep off (off + len) m, old ++ ((fun e => mk_OldExtent e [] false) <$> gone off (off + len) m))) (punch_step_ok off (off + len) Ho ltac:(lia) Hw m old) 128 (start_at off m, m, old)) as (r & E & ->); [done| |exact E].
  pose proof (wf_length 0 m ltac:(lia) Hwf ltac:(lia)). pose proof (meeting_le off (off + len) m). unfold punch_measure. cbn [fst snd]. change (2 ^ Z.of_nat 128) with (2 ^ 64 * 2 ^ 64). nia.
Qed.

Lemma old_extents_of (l : list Extent) : e <$> ((fun x => mk_OldExtent x [] false) <$> l) = l.
Proof. rewrite <- list_fmap_compose. by apply list_fmap_id. Qed.

(** C13: punching a hole is exact.  On a map of extents that are in order, not
    empty and do not overlap, the search and its restarts end.  The bytes of the
    hole are not mapped any more, every other byte is mapped as before, and the map
    is again in order.  The extents handed to the caller are in order too, and they
    map the bytes of the hole as the map did, and nothing else. *)
Theorem punch_hole_exact off len m old : wf 0 m -> 0 <= off -> 0 <= len -> off + len < 2 ^ 64 ->
  exists m' new, punch_hole off len m old = Some (m', old ++ new) /\ wf 0 m' /\ (0 < len -> wf 0 (e <$> new)) /\
    forall x, find m' x = (if (off <=? x) && (x <? off + len) then None else find m x) /\
              find (e <$> new) x = (if (off <=? x) && (x <? off + len) then find m x else None).
Proof.
  intros Hwf Ho Hl Hw. do 2 eexists. split; [by apply punch_hole_spec|]. rewrite old_extents_of. split_and!.
  - apply wf_keep; (done || lia).
  - intros. apply wf_gone; (done || lia).
  - intros x. split; [apply find_keep; lia|apply find_gone].
Qed.

(** Three extents; the hole begins in the first and ends in the last. *)
Definition demo_map : extent_map := [mk_Extent 0 0 100 0%nat; mk_Extent 100 4096 50 1%nat; mk_Extent 200 0 100 2%nat].

Lemma punch_hole_exact_witness : exists m' new, punch_hole 60 200 demo_map [] = Some (m', new) /\ m' = [mk_Extent 0 0 60 0%nat; mk_Extent 260 60 40 2%nat] /\ find (e <$> new) 110 = Some (1%nat, 4106) /\ find m' 59 = Some (0%nat, 59) /\ find m' 60 = None.
Proof.
  assert (wf 0 demo_map) as Hwf by (cbn; unfold extent_ok, lend; cbn; lia). destruct (punch_hole_exact 60 200 demo_map [] Hwf ltac:(lia) ltac:(lia) ltac:(lia)) as (m' & new & E & _ & _ & Hf). exists m', new. split; [exact E|]. destruct (Hf 110) as [_ H1]. destruct (Hf 59) as [H2 _]. destruct (Hf 60) as [H3 _]. split; [assert (fst <$> punch_hole 60 200 demo_map [] = Some [mk_Extent 0 0 60 0%nat; mk_Extent 260 60 40 2%nat]) as Hm by (vm_compute; reflexivity); rewrite E in Hm; by injection Hm|]. rewrite H1, H2, H3. clear. split_and!; reflexivity.
Defined.

(** ** set_lextent *)

Lemma find_none_below lo m x : wf lo m -> x < lo -> find m x = None.
Proof.
  revert lo. induction m as [|y m IH]; intros lo; cbn [wf find]; [done|]. intros (H1 & (H2 & _) & H3) Hx. unfold find1. rewrite (proj2 (Z.leb_gt _ _)) by lia. cbn [andb]. apply (IH (lend y)); [done|]. unfold lend. lia.
Qed.

Lemma lower_bound_suffix k m : match drop (lower_bound k m) m with [] => True | y :: _ => k <= logical_offset y end.
Proof. induction m as [|h m IH]; cbn [lower_bound]; [done|]. destruct (Z.ltb_spec (logical_offset h) k); cbn [drop]; done. Qed.

Lemma last_end_le lo k m : lo <= k -> Forall (fun y => lend y <= k) m -> last_end lo m <= k.
Proof. intros Hk Hm. revert lo Hk. induction Hm as [|y m Hy Hm IH]; intros lo Hk; [done|]. by apply (IH (lend y)). Qed.

Lemma find_hit a y b x : logical_offset y <= x < lend y -> find (a ++ y :: b) x <> None.
Proof.
  intros Hx. rewrite find_app. destruct (find a x); [done|]. cbn [find]. unfold find1, lend in *. by rewrite (proj2 (Z.leb_le _ _)), (proj2 (Z.ltb_lt _ _)) by lia.
Qed.

(** An extent fits where nothing is mapped. *)
Lemma add_free m x : wf 0 m -> 0 <= logical_offset x -> extent_ok x -> (forall y, logical_offset x <= y < lend x -> find m y = None) ->
  exists a b, m = a ++ b /\ add (logical_offset x) (blob_offset x) (length x) (blob x) m = (List.length a, a ++ x :: b) /\ wf 0 (a ++ x :: b).
Proof.
  intros Hwf Hx Hok Hfree. pose proof (lower_bound_prefix (logical_offset x) m) as Hp. pose proof (lower_bound_suffix (logical_offset x) m) as Hs. pose proof (take_drop (lower_bound (logical_offset x) m) m) as Em. set (a := take _ m) in *. set (b := drop _ m) in *. clearbody a b. subst m. pose proof Hok as (Hl & _).
  assert (match b with [] => True | y :: _ => lend x <= logical_offset y end) as Hq.
  { destruct b as [|y b]; [done|]. destruct (decide (lend x <= logical_offset y)) as [|Hn]; [done|exfalso]. apply wf_app in Hwf as [_ (_ & (Hy & _) & _)]. apply (find_hit a y b (logical_offset y)); [unfold lend; lia|]. apply Hfree. lia. }
  assert (Forall (fun y => lend y <= logical_offset x) a) as Ha.
  { rewrite Forall_forall in Hp |- *. intros y Hy. specialize (Hp y Hy). destruct (decide (lend y <= logical_offset x)) as [|Hn]; [done|exfalso]. apply list_elem_of_split in Hy as (l1 & l2 & ->). apply (find_hit l1 y (l2 ++ b) (logical_offset x)); [lia|]. rewrite app_comm_cons, app_assoc. apply Hfree. unfold lend. lia. }
  exists a, b. split; [done|]. split.
  - destruct x as [lo bo l r]. apply add_app; [done|]. cbn [logical_offset blob_offset length blob] in *. destruct b; [done|]. unfold lend in Hq. cbn in Hq. lia.
  - apply wf_app in Hwf as [Hwa Hwb]. apply wf_app. split; [done|]. cbn [wf]. split_and!; [by apply last_end_le|done|]. destruct b as [|y t]; [done|]. destruct Hwb as (? & ? & ?). by split_and!.
Qed.

Lemma find_insert a x b y : find (a ++ b) y = None \/ ~ (logical_offset x <= y < lend x) -> find (a ++ x :: b) y = if (logical_offset x <=? y) && (y <? lend x) then Some (blob x, blob_offset x + (y - logical_offset x)) else find (a ++ b) y.
Proof.
  intros Hy. rewrite !find_app in *. cbn [find]. unfold find1. fold (lend x). destruct (find a y) eqn:E; [|by destruct (_ && _)]. destruct Hy as [?|Hy]; [done|]. rewrite (proj2 (andb_false_iff _ _)); [done|]. destruct (Z.leb_spec (logical_offset x) y); [right; lia|by left].
Qed.

(** C14: writing an extent redirects exactly its bytes.  [set_lextent] with a list of
    old extents takes the references to the blob, and afterwards the bytes of the
    extent are those of the blob from [bo] on, every other byte is mapped as before,
    and the iterator points to the new extent.  What was mapped there is in the list
    of old extents.  Without a list, the same holds if nothing is mapped there. *)
Theorem set_lextent_exact lo bo len b min_alloc B x x' m old : wf 0 m -> 0 <= lo -> extent_ok (mk_Extent lo bo len b) ->
  B !! b = Some x -> Blob.get_ref bo len (u32 min_alloc) x = Some x' -> (old = None -> forall y, lo <= y < lo + len -> find m y = None) ->
  exists (it : nat) (m' : extent_map) (new : list OldExtent), set_lextent lo bo len b min_alloc B m old = Some (it, match old with Some _ => <[b := x']> B | None => B end, m', match old with Some l => Some (l ++ new) | None => None end) /\
    wf 0 m' /\ m' !! it = Some (mk_Extent lo bo len b) /\
    forall y, find m' y = (if (lo <=? y) && (y <? lo + len) then Some (b, bo + (y - lo)) else find m y) /\
              (lo <= y < lo + len -> is_Some old -> find (e <$> new) y = find m y).
Proof.
  intros Hwf Hlo Hok Hx Hx' Hfree. set (n := mk_Extent lo bo len b) in *. pose proof Hok as (Hl & Hle & _). unfold lend in Hle. cbn [n logical_offset length] in Hl, Hle.
  assert (forall m1, wf 0 m1 -> (forall y, lo <= y < lo + len -> find m1 y = None) -> (forall y, ~ (lo <= y < lo + len) -> find m1 y = find m y) ->
    exists it m', add lo bo len b m1 = (it, m') /\ wf 0 m' /\ m' !! it = Some n /\ forall y, find m' y = (if (lo <=? y) && (y <? lo + len) then Some (b, bo + (y - lo)) else find m y)) as Hadd.
  { intros m1 Hw1 Hf1 Hf2. destruct (add_free m1 n Hw1 Hlo Hok Hf1) as (p & q & -> & E & Hw'). exists (List.length p), (p ++ n :: q). split; [exact E|]. split; [done|]. split; [by rewrite lookup_app_r, Nat.sub_diag|]. intros y. rewrite find_insert; unfold lend; cbn [n logical_offset length blob blob_offset].
    - destruct (Z.leb_spec lo y), (Z.ltb_spec y (lo + len)); cbn [andb]; try done; apply Hf2; lia.
    - destruct (decide (lo <= y < lo + len)); [left; by apply Hf1|by right]. }
  unfold set_lextent. destruct old as [old|].
  - rewrite Hx. bind. rewrite Hx'. bind. rewrite (punch_hole_spec lo len m old) by (done || lia). do 2 bind. destruct (Hadd (keep lo (lo + len) m)) as (it & m' & E & Hw' & Hit & Hf).
    + apply wf_keep; (done || lia).
    + intros y Hy. rewrite find_keep by lia. by rewrite (proj2 (Z.leb_le _ _)), (proj2 (Z.ltb_lt _ _)) by lia.
    + intros y Hy. rewrite find_keep by lia. destruct (Z.leb_spec lo y), (Z.ltb_spec y (lo + len)); cbn [andb]; (done || lia).
    + rewrite E. do 3 eexists. split; [reflexivity|]. split_and!; [done..|]. intros y. split; [apply Hf|]. intros Hy _. rewrite old_extents_of, find_gone. by rewrite (proj2 (Z.leb_le _ _)), (proj2 (Z.ltb_lt _ _)) by lia.
  - bind. destruct (Hadd m Hwf (Hfree eq_refl) ltac:(done)) as (it & m' & E & Hw' & Hit & Hf). rewrite E. exists it, m', []. split; [reflexivity|]. split_and!; [done..|]. intros y. split; [apply Hf|]. intros _ [? [=]].
Qed.

(** An extent of a blob without checksums over the middle of another. *)
Definition demo_Blob : Blob.Blob := Blob.mk_Blob (- 1) (Blob.mk_blob [pextent 65536 8192] 8192 0 Blob.CSUM_NONE 0 [] 0) UseTracker.tracker_new.

Lemma set_lextent_exact_witness : exists it m' B' new, set_lextent 40 4096 100 7%nat 4096 {[7%nat := demo_Blob]} demo_map (Some []) = Some (it, B', m', Some new) /\
  m' !! it = Some (mk_Extent 40 4096 100 7%nat) /\ find m' 50 = Some (7%nat, 4106) /\ find m' 39 = find demo_map 39 /\ find (e <$> new) 110 = Some (1%nat, 4106).
Proof.
  assert (wf 0 demo_map) as Hwf by (cbn; unfold extent_ok, lend; cbn; lia). assert (extent_ok (mk_Extent 40 4096 100 7%nat)) as Hok by (unfold extent_ok, lend; cbn; lia). destruct (Blob.get_ref 4096 100 (u32 4096) demo_Blob) as [x'|] eqn:Ex; [|exfalso; revert Ex; vm_compute; discriminate].
  destruct (set_lextent_exact 40 4096 100 7%nat 4096 {[7%nat := demo_Blob]} demo_Blob x' demo_map (Some []) Hwf ltac:(lia) Hok ltac:(by rewrite lookup_singleton_eq) Ex ltac:(done)) as (it & m' & new & E & _ & Hit & Hf).
  exists it, m', (<[7%nat := x']> {[7%nat := demo_Blob]}), new. split; [exact E|]. split; [exact Hit|]. destruct (Hf 50) as [-> _]. destruct (Hf 39) as [-> _]. destruct (Hf 110) as [_ H110]. split_and!; [reflexivity..|]. rewrite H110; [reflexivity|lia|by eexists].
Defined.

(** ** compress_extent_map *)

(** Two extents that continue each other, in the object and in a blob. *)
Definition mergeable (x next : Extent) : bool :=
  (lend x =? logical_offset next) && (blob x =? blob next)%nat && (blob_offset x + length x =? blob_offset next).

(** The first byte of [next] follows the last byte of [x] on the disk. *)
Definition disk_adjacent (B : blobs) (x next : Extent) : Prop :=
  exists b a, B !! blob x = Some b /\
    BlobSpec.addr (Blob.extents (Blob.blob_ b)) (blob_offset x + length x - 1) = Some (Some a) /\
    BlobSpec.addr (Blob.extents (Blob.blob_ b)) (blob_offset next) = Some (Some (a + 1)).

(** The addresses that are compared are those of one offset of the blob: the
    comparison never prevents a merge, also where the bytes are far apart. *)
Lemma phys_contiguous_always b x next : blob_offset x +32 length x = blob_offset next -> phys_contiguous b x next = true.
Proof.
  intros E. unfold phys_contiguous. rewrite E. generalize (Blob.extents (Blob.blob_ b)). intros l. assert (forall l s, s.1.2 = s.2 -> (foldl (phys_step (blob_offset next) (blob_offset next)) s l).1.2 = (foldl (phys_step (blob_offset next) (blob_offset next)) s l).2) as H.
  { clear. induction l as [|p l IH]; intros s Hs; [done|]. cbn [foldl]. apply IH. destruct s as [[o c] n]. cbn in *. by rewrite Hs. }
  specialize (H l (0, 0, 0) eq_refl). destruct (foldl _ _ l) as [[o c] n]. cbn in H. subst. apply Z.eqb_refl.
Qed.

Section Compress.
Context (B : blobs) (off len : Z) (m0 : extent_map).
Context (off_ok : 0 <= off) (len_ok : 0 <= len) (end_ok : off + len < 2 ^ 64).

Record compress_inv (s : nat * extent_map * Z) : Prop := {
  ci_wf : wf 0 s.1.2;
  ci_blobs : Forall (fun e => is_Some (B !! blob e)) s.1.2;
  ci_find : forall x, find s.1.2 x = find m0 x;
  ci_count : s.2 + zlen s.1.2 = zlen m0;
  ci_before : forall j x next, (j < s.1.1)%nat -> s.1.2 !! j = Some x -> s.1.2 !! S j = Some next -> lend x <= off \/ mergeable x next = false;
  ci_it : (s.1.1 <= List.length s.1.2)%nat;
}.
Definition compress_measure (s : nat * extent_map * Z) : Z := zlen s.1.2 * (zlen s.1.2 + 2) + (zlen s.1.2 - Z.of_nat s.1.1).

(** Nothing in the range can be merged. *)
Definition compressed_map (m : extent_map) : Prop :=
  forall j x next, m !! j = Some x -> m !! S j = Some next -> off < lend x -> logical_offset x < off + len -> mergeable x next = false.
Definition compress_done (r : Z * extent_map) : Prop := wf 0 r.2 /\ (forall x, find r.2 x = find m0 x) /\ r.1 + zlen r.2 = zlen m0 /\ compressed_map r.2.

Lemma compress_stop it m c : compress_inv (it, m, c) -> (forall j x next, (it <= j)%nat -> m !! j = Some x -> m !! S j = Some next -> off + len <= logical_offset x) -> compress_done (c, m).
Proof.
  intros [Hwf Hbl Hf Hc Hb Hit] Hrest. cbn [fst snd] in *. split_and!; try done. intros j x next Ej En Hlo Hhi. destruct (decide (j < it)%nat) as [Hj|Hj]; [|specialize (Hrest j x next ltac:(lia) Ej En); lia]. destruct (Hb j x next Hj Ej En); [lia|done].
Qed.

Lemma compress_next it m c : compress_inv (it, m, c) -> (it < List.length m)%nat -> (forall x next, m !! it = Some x -> m !! S it = Some next -> lend x <= off \/ mergeable x next = false) ->
  compress_inv (S it, m, c) /\ 0 <= compress_measure (S it, m, c) < compress_measure (it, m, c).
Proof.
  intros [Hwf Hbl Hf Hc Hb Hit] Hlt Hm. cbn [fst snd] in *. split; [|unfold compress_measure; cbn [fst snd]; lia]. constructor; cbn [fst snd]; try done. intros j x next Hj Ej En. destruct (decide (j = it)) as [->|]; [by eapply Hm|]. eapply Hb; [|done..]. lia.
Qed.

Lemma find_merge a x y b z : mergeable x y = true -> extent_ok x -> extent_ok y -> find (a ++ mk_Extent (logical_offset x) (blob_offset x) (length x + length y) (blob x) :: b) z = find (a ++ x :: y :: b) z.
Proof.
  intros Hm (Hx & _) (Hy & _). unfold mergeable, lend in Hm. zbool. apply Nat.eqb_eq in H1. rewrite !find_app. destruct (find a z); [done|]. cbn [find]. unfold find1. cbn [logical_offset blob_offset length blob]. rewrite <- H1, <- H, <- H0.
  destruct (Z.leb_spec (logical_offset x) z), (Z.ltb_spec z (logical_offset x + length x)), (Z.leb_spec (logical_offset x + length x) z), (Z.ltb_spec z (logical_offset x + (length x + length y))), (Z.ltb_spec z (logical_offset x + length x + length y)); cbn [andb]; try done; try lia. do 2 f_equal. lia.
Qed.

Lemma compress_step_ok s : compress_inv s -> exists r, compress_step B off len s = Some r /\ match r with inl s' => compress_inv s' /\ 0 <= compress_measure s' < compress_measure s | inr r => compress_done r end.
Proof using off_ok len_ok end_ok.
  destruct s as [[it m] c]. intros Hi. pose proof Hi as [Hwf Hbl Hf Hc Hb Hit]. cbn [fst snd] in *. cbn [compress_step]. rewrite (u64_small (off + len)) by lia.
  destruct (m !! it) as [x|] eqn:Ex; [|eexists; split; [reflexivity|]; apply (compress_stop it); [done|]; intros j y next Hj Ej; apply lookup_lt_Some in Ej; apply lookup_ge_None in Ex; lia].
  pose proof (lookup_lt_Some _ _ _ Ex) as Hlt. pose proof Hwf as Hmid. rewrite <- (take_drop_middle m it x Ex) in Hmid. pose proof (wf_mid _ _ _ _ Hmid ltac:(lia)) as (H0 & Hok & Hax & Hbs & _). rewrite logical_end_ok by done.
  destruct (Z.leb_spec (off + len) (logical_offset x)).
  { eexists. split; [reflexivity|]. apply (compress_stop it); [done|]. intros j y next Hj Ej _. destruct (decide (j = it)) as [->|]; [rewrite Ex in Ej; by injection Ej as <-|].
    assert (y ∈ drop (S it) m) as Hy by (apply list_elem_of_lookup; exists (j - S it)%nat; rewrite lookup_drop; rewrite <- Ej; f_equal; lia). rewrite Forall_forall in Hbs. destruct (Hbs y Hy) as [? _]. destruct Hok. unfold lend in *. lia. }
  destruct (Z.leb_spec (lend x) off). { eexists. split; [reflexivity|]. apply compress_next; [done..|]. intros y next Ey _. rewrite Ex in Ey. injection Ey as <-. by left. }
  destruct (m !! S it) as [nx|] eqn:En; [|eexists; split; [reflexivity|]; apply (compress_stop it); [done|]; intros j y next Hj Ej Ejn; apply lookup_lt_Some in Ejn; apply lookup_ge_None in En; lia].
  pose proof (drop_S m nx (S it) En) as Ed. set (b := drop (S (S it)) m) in *. rewrite Ed in Hbs, Hmid. apply Forall_cons in Hbs as [[Hxn Hokn] _]. pose proof Hok as (Hl & Hle & Hbo & Hbe). pose proof Hokn as (Hln & Hlen & Hbon & Hben).
  rewrite (u32_small (blob_offset x + length x)) by lia. fold (mergeable x nx). destruct (mergeable x nx) eqn:Emg.
  2:{ eexists. split; [reflexivity|]. apply compress_next; [done..|]. intros y next Ey En'. rewrite Ex in Ey. rewrite En in En'. injection Ey as <-. injection En' as <-. by right. }
  assert (is_Some (B !! blob x)) as [bx Hbx] by (rewrite Forall_forall in Hbl; apply Hbl; apply list_elem_of_lookup; by exists it). rewrite Hbx. bind. pose proof Emg as Emg'. unfold mergeable in Emg'. zbool.
  rewrite phys_contiguous_always by (rewrite u32_small; lia). cbn [negb]. eexists. split; [reflexivity|]. set (a := take it m) in *. assert (m = a ++ x :: nx :: b) as Em by (rewrite <- Ed; symmetry; by apply take_drop_middle). assert (List.length a = it) as Ea by (unfold a; rewrite length_take; lia).
  assert (erase it (erase it m) = a ++ b) as -> by (rewrite Em, <- Ea, !erase_app; done). rewrite u32_small by (unfold lend in *; lia).
  assert (Forall (fun e => logical_offset e < logical_offset x) a) as Hax'. { apply wf_app in Hmid as [Hwa _]. apply wf_bounds in Hwa. rewrite Forall_forall in *. intros y Hy. specialize (Hax y Hy). destruct (Hwa y Hy) as [_ (? & _)]. unfold lend in *. lia. }
  apply wf_app in Hmid as (Hwa & Hx1 & _ & _ & _ & Hwb). assert (match b with [] => True | e :: _ => logical_offset x < logical_offset e end) as Hbh by (destruct b; [done|]; destruct Hwb as (? & _); unfold lend in *; lia). rewrite add_app by done. cbn [snd]. set (mm := a ++ _ :: b).
  assert (List.length m = S (List.length mm)) as Hlm by (rewrite Em; unfold mm; rewrite !length_app; cbn [List.length]; lia). split; [|unfold compress_measure; cbn [fst snd]; rewrite Hlm in Hlt |- *; nia]. constructor; cbn [fst snd].
  - unfold mm. apply wf_app. split; [done|]. cbn [wf]. unfold extent_ok, lend. cbn [logical_offset blob_offset length]. unfold lend in *. split_and!; try lia. eapply wf_weaken; [|exact Hwb]. lia.
  - rewrite Em in Hbl. unfold mm. rewrite Forall_app, Forall_cons in Hbl |- *. cbn [blob]. destruct Hbl as (Hb1 & Hb2 & Hb3). apply Forall_cons in Hb3 as [_ Hb3]. done.
  - intros z. rewrite <- Hf, Em. unfold mm. by apply find_merge.
  - lia.
  - intros j y next Hj. lia.
  - lia.
Qed.
End Compress.

(** C17: compressing moves no byte and leaves nothing adjacent unmerged.  For a
    well-formed map whose extents are of known blobs, and a range that ends below
    2^64, it ends and returns the number of extents the map has lost; the map stays
    well-formed; every byte of the object is mapped as before; and of the extents
    that meet the range none continues in the one after it in the object, in the
    same blob and on the disk. *)
Theorem compress_extent_map_exact B off len m : wf 0 m -> Forall (fun e => is_Some (B !! blob e)) m -> 0 <= off -> 0 <= len -> off + len < 2 ^ 64 ->
  exists n m', compress_extent_map off len B m = Some (n, m') /\ wf 0 m' /\ (forall x, find m' x = find m x) /\ n + zlen m' = zlen m /\
    forall j x next, m' !! j = Some x -> m' !! S j = Some next -> off < lend x -> logical_offset x < off + len ->
      ~ (mergeable x next = true /\ disk_adjacent B x next).
Proof.
  intros Hwf Hbl Ho Hl Hw. destruct (whileM_spec (compress_step B off len) (compress_inv B off m) compress_measure (compress_done off len m) 128 (O, m, 0)) as ([n m'] & E & H1 & H2 & H3 & H4).
  - by apply compress_step_ok.
  - constructor; cbn [fst snd]; (done || lia).
  - pose proof (wf_length 0 m ltac:(lia) Hwf ltac:(lia)). unfold compress_measure. cbn [fst snd]. change (2 ^ Z.of_nat 128) with (2 ^ 64 * 2 ^ 64). nia.
  - exists n, m'. split_and!; try done. intros j x next Hj Hn Hlo Hhi [Hm _]. pose proof (H4 j x next Hj Hn Hlo Hhi). congruence.
Qed.

(** Two neighbouring extents of a blob that is one run of the disk. *)
Definition near_Blob : Blob.Blob := Blob.mk_Blob (- 1) (Blob.mk_blob [pextent 65536 8192] 8192 0 Blob.CSUM_NONE 0 [] 0) UseTracker.tracker_new.

Lemma compress_extent_map_exact_witness : exists n m', compress_extent_map 0 8192 {[3%nat := near_Blob]} [mk_Extent 0 0 4096 3%nat; mk_Extent 4096 4096 4096 3%nat] = Some (n, m') /\
  n = 1 /\ m' = [mk_Extent 0 0 8192 3%nat] /\ find m' 5000 = Some (3%nat, 5000).
Proof.
  set (m := [mk_Extent 0 0 4096 3%nat; mk_Extent 4096 4096 4096 3%nat]). assert (wf 0 m) as Hwf by (cbn; unfold extent_ok, lend; cbn; lia). assert (Forall (fun e => is_Some (({[3%nat := near_Blob]} : blobs) !! blob e)) m) as Hb by (repeat constructor; eexists; apply lookup_singleton_eq).
  destruct (compress_extent_map_exact {[3%nat := near_Blob]} 0 8192 m Hwf Hb ltac:(lia) ltac:(lia) ltac:(lia)) as (n & m' & E & _ & Hf & _). exists n, m'. split; [exact E|].
  assert (compress_extent_map 0 8192 {[3%nat := near_Blob]} m = Some (1, [mk_Extent 0 0 8192 3%nat])) as Ec by (vm_compute; reflexivity). rewrite Ec in E. injection E as <- <-. split_and!; [reflexivity..|]. rewrite (Hf 5000). reflexivity.
Defined.

(** ** has_any_lextents *)

Lemma has_any_lextents_iff off len m : wf 0 m -> 0 <= off -> 0 < len -> off + len < 2 ^ 64 ->
  has_any_lextents off len m = true <-> exists x, off <= x < off + len /\ find m x <> None.
Proof.
  intros Hwf Ho Hl Hw. assert (forall lo, 0 <= lo -> wf lo m -> has_any_lextents off len m = true <-> exists x, off <= x < off + len /\ find m x <> None) as H; [|by apply (H 0)]. clear Hwf. induction m as [|y m IH]; intros lo Hlo; cbn [has_any_lextents wf].
  - intros _. split; [done|]. by intros (x & _ & ?).
  - intros (H1 & H2 & H3). rewrite u64_small, logical_end_ok by (done || lia). pose proof H2 as (Hy & _). destruct (Z.leb_spec (off + len) (logical_offset y)); [|destruct (Z.leb_spec (lend y) off)].
    + split; [done|]. intros (x & Hx & Hn). destruct Hn. apply (find_none_below (logical_offset y) (y :: m)); [|lia]. cbn [wf]. split_and!; (done || lia).
    + rewrite (IH (lend y)) by (done || (unfold lend; lia)). cbn [find]. unfold find1. fold (lend y). split; intros (x & Hx & Hn); exists x; (split; [done|]); rewrite (proj2 (andb_false_iff _ _)) in * by (right; lia); done.
    + split; [intros _|done]. exists (Z.max off (logical_offset y)). split; [lia|]. apply (find_hit [] y m). unfold lend in *. lia.
Qed.
End LextentSpec.
