(* ===== verification/Deferred.v ===== *)
(** * bluestore/deferred_writer.{h,cc}: deferred writes

    A [DeferredBatch] collects small writes of a sequencer: [iomap] maps an address to
    data and the transaction it belongs to, [seq_bytes] counts the bytes of every
    transaction.  [DeferredWriter] submits the batches, one of a sequencer at a time.
    A buffer list is its bytes; a failed assertion, an exception and an overflow of a
    signed integer are [None]. *)
From stdpp Require Import base numbers list gmap.
From Stdlib Require Import ZArith Lia ZifyBool.
From S2P Require Import Prelude IntervalSet Allocator Blob.
Import Allocator.

Module Deferred.
Local Open Scope Z_scope.
Abbreviation zlen l := (Z.of_nat (List.length l)).

(** The bytes of [buffer::list::substr_of]: throws behind the end. *)
Definition substr_of (bl : bytes) (off len : Z) : option bytes :=
  if u32 off + u32 len <=? zlen bl then Some (take (Z.to_nat (u32 len)) (drop (Z.to_nat (u32 off)) bl)) else None.

(** [int] arithmetic. *)
Definition int_add (a b : Z) : option Z := if (- 2 ^ 31 <=? a + b) && (a + b <? 2 ^ 31) then Some (a + b) else None.

(** ** DeferredBatch *)

Record deferred_io := mk_io { bl : bytes; seq : Z }.
Abbreviation iomap := (list (Z * deferred_io)).

(** [iomap[k] = v]. *)
Fixpoint set_io (k : Z) (v : deferred_io) (m : iomap) : iomap :=
  match m with
  | [] => [(k, v)]
  | (k', v') :: t => if k' <? k then (k', v') :: set_io k v t else if k =? k' then (k, v) :: t else (k, v) :: m
  end.

(** [seq_bytes] of a transaction that is there, less [n]. *)
Definition sub_seq (s n : Z) (sb : gmap Z Z) : option (gmap Z Z) :=
  c ← sb !! s;
  c ← int_add c (- Blob.to_int n);
  _ ← cxxlab_assert (0 <=? c);
  Some (<[s := c]> sb).

(** The loop of [_discard] from an iterator on: what is left there. *)
Fixpoint discard_loop (offset length : Z) (n : nat) (m : iomap) (sb : gmap Z Z) : option (iomap * gmap Z Z) :=
  match n, m with
  | O, _ => None
  | S _, [] => Some ([], sb)
  | S n, (k, io) :: t =>
      if offset +64 length <=? k then Some (m, sb)
      else
        let e := k +64 zlen (bl io) in
        if offset +64 length <? e then
          let drop_front := (offset +64 length) -64 k in
          let keep_tail := e -64 (offset +64 length) in
          d ← substr_of (bl io) drop_front keep_tail;
          sb ← sub_seq (seq io) drop_front sb;
          discard_loop offset length n (set_io (offset +64 length) (mk_io d (seq io)) t) sb
        else
          sb ← sub_seq (seq io) (zlen (bl io)) sb;
          discard_loop offset length n t sb
  end.

(** The entry before the range: what replaces it, and what is put behind the range. *)
Definition discard_head (offset length : Z) (p : Z * deferred_io) (sb : gmap Z Z) : option (Z * deferred_io * option deferred_io * gmap Z Z) :=
  let '(k, io) := p in
  let e := k +64 zlen (bl io) in
  if offset <? e then
    head ← substr_of (bl io) 0 (offset -64 k);
    '(tail, sb) ←
      (if offset +64 length <? e then
         d ← substr_of (bl io) ((offset +64 length) -64 k) (e -64 (offset +64 length));
         sb ← sub_seq (seq io) length sb;
         Some (Some (mk_io d (seq io)), sb)
       else
         sb ← sub_seq (seq io) (e -64 offset) sb;
         Some (None, sb));
    Some ((k, mk_io head (seq io)), tail, sb)
  else Some (p, None, sb).

Definition discard (offset length : Z) (m : iomap) (sb : gmap Z Z) : option (iomap * gmap Z Z) :=
  let '(pre, post) := span (fun p => offset <=? p.1) m in
  '(pre, post, sb) ←
    match last pre with
    | None => Some (pre, post, sb)
    | Some p =>
        '(p, tail, sb) ← discard_head offset length p sb;
        Some (removelast pre ++ [p], match tail with Some io => set_io (offset +64 length) io post | None => post end, sb)
    end;
  '(post, sb) ← discard_loop offset length (S (S (List.length post))) post sb;
  Some (pre ++ post, sb).

Definition prepare_write (s offset length : Z) (data : bytes) (data_pos : Z) (b : iomap * gmap Z Z) : option (iomap * gmap Z Z) :=
  '(m, sb) ← discard offset length b.1 b.2;
  _ ← cxxlab_assert (negb (existsb (fun p => p.1 =? offset) m));
  d ← substr_of data data_pos length;
  c ← int_add (default 0 (sb !! s)) (Blob.to_int length);
  Some (set_io offset (mk_io d s) m, <[s := c]> sb).

(** The extents of an operation, filled with its data. *)
Fixpoint queue_extents (s : Z) (data : bytes) (data_pos : Z) (l : list pextent_t) (b : iomap * gmap Z Z) : option (iomap * gmap Z Z) :=
  match l with
  | [] => Some b
  | x :: t =>
      if offset x =? INVALID_OFFSET then queue_extents s data data_pos t b
      else
        let write_len := Z.min (length x) (zlen data -64 data_pos) in
        if write_len =? 0 then Some b
        else b ← prepare_write s (offset x) write_len data data_pos b; queue_extents s data (data_pos +64 write_len) t b
  end.

(** A [bluestore_deferred_transaction_t]: the number and the operations. *)
Record deferred_txn := mk_txn { txn_seq : Z; ops : list (list pextent_t * bytes) }.

Fixpoint queue_ops (s : Z) (l : list (list pextent_t * bytes)) (b : iomap * gmap Z Z) : option (iomap * gmap Z Z) :=
  match l with [] => Some b | (x, data) :: t => b ← queue_extents s data 0 x b; queue_ops s t b end.

(** The [aio_write]s of [try_submit]: entries that continue each other are one. *)
Fixpoint submit_writes (start pos : Z) (acc : bytes) (m : iomap) : list (Z * bytes) :=
  match m with
  | [] => if zlen acc =? 0 then [] else [(start, acc)]
  | (k, io) :: t =>
      if k =? pos then submit_writes (if zlen acc =? 0 then pos else start) (pos +64 zlen (bl io)) (acc ++ bl io) t
      else (if zlen acc =? 0 then [] else [(start, acc)]) ++ submit_writes k (k +64 zlen (bl io)) (bl io) t
  end.
Definition writes_of (m : iomap) : list (Z * bytes) := submit_writes 0 0 [] m.

(** ** DeferredWriter *)

Abbreviation OpSequencer := nat.

(** A batch has an identity, its address. *)
Record DeferredBatch := mk_batch { bid : nat; osr : OpSequencer; txcs : list deferred_txn; io : iomap; seq_bytes : gmap Z Z }.
Definition batch_new (i : nat) (o : OpSequencer) : DeferredBatch := mk_batch i o [] [] ∅.

(** Where a thread is: before [try_submit], in its loop, before [flush_done], and
    between its two critical sections.  The call of [flush_done] for a batch without
    writes is a thread of its own, which allows more interleavings than the code. *)
Inductive thread :=
  | Try_submit
  | Submitting (osrs : list OpSequencer)
  | Flush_done (b : DeferredBatch)
  | Flush_queue (b : DeferredBatch) (has_pending : bool).

Record writer := mk_writer {
  deferred_pending : gmap OpSequencer DeferredBatch;
  deferred_running : gmap OpSequencer DeferredBatch;
  deferred_queue_ : list OpSequencer;
  deferred_done_queue_ : list DeferredBatch;
  deferred_stable_queue_ : list DeferredBatch;
  threads : list thread;
  aios : list (DeferredBatch * list (Z * bytes));
  next_bid : nat;
}.
Definition writer_new : writer := mk_writer ∅ ∅ [] [] [] [] [] O.

(** [queue], with the lock of the sequencer. *)
Definition queue (o : OpSequencer) (t : deferred_txn) (w : writer) : option writer :=
  let b := default (batch_new (next_bid w) o) (deferred_pending w !! o) in
  '(m, sb) ← queue_ops (txn_seq t) (ops t) (io b, seq_bytes b);
  let b := mk_batch (bid b) o (txcs b ++ [t]) m sb in
  Some (mk_writer (<[o := b]> (deferred_pending w)) (deferred_running w)
          (match deferred_running w !! o with Some _ => deferred_queue_ w | None => deferred_queue_ w ++ [o] end)
          (deferred_done_queue_ w) (deferred_stable_queue_ w) (Try_submit :: threads w) (aios w) (S (next_bid w))).

(** [try_submit] for one sequencer. *)
Definition submit_one (o : OpSequencer) (w : writer) : writer * list thread :=
  match deferred_pending w !! o, deferred_running w !! o with
  | Some b, None =>
      let writes := writes_of (io b) in
      let w := mk_writer (delete o (deferred_pending w)) (<[o := b]> (deferred_running w)) (deferred_queue_ w) (deferred_done_queue_ w) (deferred_stable_queue_ w) (threads w) (aios w) (next_bid w) in
      match writes with
      | [] => (w, [Flush_done b])
      | _ => (mk_writer (deferred_pending w) (deferred_running w) (deferred_queue_ w) (deferred_done_queue_ w) (deferred_stable_queue_ w) (threads w) (aios w ++ [(b, writes)]) (next_bid w), [])
      end
  | _, _ => (w, [])
  end.

Definition set_threads (l : list thread) (w : writer) : writer :=
  mk_writer (deferred_pending w) (deferred_running w) (deferred_queue_ w) (deferred_done_queue_ w) (deferred_stable_queue_ w) l (aios w) (next_bid w).

(** One critical section of a thread; [rest] are the other threads. *)
Definition run_thread (t : thread) (rest : list thread) (w : writer) : option writer :=
  match t with
  | Try_submit => Some (mk_writer (deferred_pending w) (deferred_running w) [] (deferred_done_queue_ w) (deferred_stable_queue_ w) (Submitting (deferred_queue_ w) :: rest) (aios w) (next_bid w))
  | Submitting [] => Some (set_threads rest w)
  | Submitting (o :: l) => let '(w, more) := submit_one o w in Some (set_threads (Submitting l :: more ++ rest) w)
  | Flush_done b =>
      running ← deferred_running w !! osr b;
      _ ← cxxlab_assert (bid running =? bid b)%nat;
      Some (mk_writer (deferred_pending w) (delete (osr b) (deferred_running w)) (deferred_queue_ w) (deferred_done_queue_ w) (deferred_stable_queue_ w)
              (Flush_queue b (bool_decide (is_Some (deferred_pending w !! osr b))) :: rest) (aios w) (next_bid w))
  | Flush_queue b has_pending =>
      Some (mk_writer (deferred_pending w) (deferred_running w) (if has_pending then deferred_queue_ w ++ [osr b] else deferred_queue_ w)
              (deferred_done_queue_ w ++ [b]) (deferred_stable_queue_ w) (if has_pending then Try_submit :: rest else rest) (aios w) (next_bid w))
  end.

(** The callback of the device, once a batch is written. *)
Definition aio_finish (b : DeferredBatch) (rest : list (DeferredBatch * list (Z * bytes))) (w : writer) : writer :=
  mk_writer (deferred_pending w) (deferred_running w) (deferred_queue_ w) (deferred_done_queue_ w) (deferred_stable_queue_ w) (Flush_done b :: threads w) rest (next_bid w).

Definition flush_done_to_stable (w : writer) : writer :=
  mk_writer (deferred_pending w) (deferred_running w) (deferred_queue_ w) [] (deferred_stable_queue_ w ++ deferred_done_queue_ w) (threads w) (aios w) (next_bid w).
Definition swap_stable_queue (w : writer) : list DeferredBatch * writer :=
  (deferred_stable_queue_ w, mk_writer (deferred_pending w) (deferred_running w) (deferred_queue_ w) (deferred_done_queue_ w) [] (threads w) (aios w) (next_bid w)).
Definition has_done (w : writer) : bool := negb (match deferred_done_queue_ w with [] => true | _ => false end).

(** What the locks let happen: [taken] are the batches that left the stable queue,
    [ts] the transactions that were queued. *)
Inductive step : (writer * list (OpSequencer * deferred_txn) * list DeferredBatch) -> (writer * list (OpSequencer * deferred_txn) * list DeferredBatch) -> Prop :=
  | step_queue o t w w' ts taken : queue o t w = Some w' -> step (w, ts, taken) (w', ts ++ [(o, t)], taken)
  | step_thread l1 t l2 w w' ts taken : threads w = l1 ++ t :: l2 -> run_thread t (l1 ++ l2) w = Some w' -> step (w, ts, taken) (w', ts, taken)
  | step_aio l1 b d l2 w ts taken : aios w = l1 ++ (b, d) :: l2 -> step (w, ts, taken) (aio_finish b (l1 ++ l2) w, ts, taken)
  | step_stable w ts taken : step (w, ts, taken) (flush_done_to_stable w, ts, taken)
  | step_take w ts taken : step (w, ts, taken) ((swap_stable_queue w).2, ts, taken ++ (swap_stable_queue w).1).
End Deferred.
