(* ===== verification/DeferredSpec.v ===== *)
(** * What deferred writes promise: the last write wins

    [find_io] reads the [iomap] of a batch as a partial disk.  The writes a batch
    submits have the effect of the writes that were queued, one after the other. *)
From stdpp Require Import base numbers list gmap.
From Stdlib Require Import ZArith Lia ZifyBool.
From S2P Require Import Prelude IntervalSet Allocator Blob Deferred.
Import Allocator Deferred.

Module DeferredSpec.
Local Open Scope Z_scope.
Abbreviation zlen l := (Z.of_nat (List.length l)).

(** A write to a disk. *)
Definition upd (off : Z) (d : bytes) (f : Z -> option Z) (x : Z) : option Z :=
  if (off <=? x) && (x <? off + zlen d) then d !! Z.to_nat (x - off) else f x.
Definition apply (ws : list (Z * bytes)) (f : Z -> option Z) : Z -> option Z := foldl (fun f w => upd w.1 w.2 f) f ws.

Lemma apply_app a b f : apply (a ++ b) f = apply b (apply a f).
Proof. unfold apply. by rewrite foldl_app. Qed.
Lemma upd_ext off d f g : (forall x, f x = g x) -> forall x, upd off d f x = upd off d g x.
Proof. intros H x. unfold upd. by rewrite H. Qed.
Lemma apply_ext ws : forall f g, (forall x, f x = g x) -> forall x, apply ws f x = apply ws g x.
Proof. induction ws as [|w ws IH]; intros f g H x; [apply H|]. cbn. apply IH. by apply upd_ext. Qed.

(** ** Batches *)

Definition io_end (p : Z * deferred_io) : Z := p.1 + zlen (bl p.2).
Fixpoint find_io (m : iomap) (x : Z) : option Z :=
  match m with [] => None | p :: t => if (p.1 <=? x) && (x <? io_end p) then bl p.2 !! Z.to_nat (x - p.1) else find_io t x end.

(** Entries from [lo] on that are ordered, not empty and do not overlap. *)
Fixpoint io_wf (lo : Z) (m : iomap) : Prop :=
  match m with [] => True | p :: t => lo <= p.1 /\ 0 < zlen (bl p.2) /\ io_end p < 2 ^ 64 /\ io_wf (io_end p) t end.

Definition total (m : iomap) : Z := sumZ (fun p => zlen (bl p.2)) m.
Definition bytes_of (s : Z) (m : iomap) : Z := sumZ (fun p => if seq p.2 =? s then zlen (bl p.2) else 0) m.
Definition counted (m : iomap) (sb : gmap Z Z) : Prop := forall s, sb !! s = Some (bytes_of s m) \/ (sb !! s = None /\ bytes_of s m = 0).

Lemma io_wf_weaken lo lo' m : lo' <= lo -> io_wf lo m -> io_wf lo' m.
Proof. destruct m; cbn; [done|]. intros ? (? & ? & ? & ?). split_and!; (done || lia). Qed.

Lemma io_wf_bounds lo m : io_wf lo m -> Forall (fun p => lo <= p.1 /\ 0 < zlen (bl p.2) /\ io_end p < 2 ^ 64) m.
Proof.
  revert lo. induction m as [|p m IH]; intros lo; cbn [io_wf]; [done|]. intros (H1 & H2 & H3 & H4). constructor; [done|]. eapply Forall_impl; [by apply (IH (io_end p))|]. cbv beta. intros q (? & ? & ?). unfold io_end in *. split_and!; (done || lia).
Qed.

Lemma bytes_of_app s a b : bytes_of s (a ++ b) = bytes_of s a + bytes_of s b.
Proof. apply sumZ_app. Qed.
Lemma bytes_of_cons s p m : bytes_of s (p :: m) = (if seq p.2 =? s then zlen (bl p.2) else 0) + bytes_of s m.
Proof. done. Qed.
Lemma bytes_of_bounds s m : 0 <= bytes_of s m <= total m.
Proof. induction m as [|p m IH]; [done|]. unfold bytes_of, total in *. rewrite !sumZ_cons. destruct (_ =? _); lia. Qed.
Lemma io_total_app a b : total (a ++ b) = total a + total b.
Proof. apply sumZ_app. Qed.
Lemma io_total_nonneg m : 0 <= total m.
Proof. pose proof (bytes_of_bounds 0 m). lia. Qed.

Lemma to_int_small n : 0 <= n < 2 ^ 31 -> Blob.to_int n = n.
Proof. intros. unfold Blob.to_int. rewrite u32_small by lia. by rewrite (proj2 (Z.ltb_lt _ _)) by lia. Qed.

(** A transaction loses [n] of the bytes it has. *)
Lemma sub_seq_ok s n m sb : counted m sb -> 0 < bytes_of s m -> 0 <= n <= bytes_of s m -> total m < 2 ^ 31 ->
  exists sb', sub_seq s n sb = Some sb' /\ forall m', (forall s', bytes_of s' m' = bytes_of s' m - if s =? s' then n else 0) -> counted m' sb'.
Proof.
  intros Hc Hp Hn Ht. pose proof (bytes_of_bounds s m). unfold sub_seq. destruct (Hc s) as [E|[E E0]]; [|lia]. rewrite E. bind. rewrite to_int_small by lia. unfold int_add. rewrite (proj2 (Z.leb_le _ _)), (proj2 (Z.ltb_lt _ _)) by lia. cbn [andb]. bind. rewrite (proj2 (Z.leb_le _ _)) by lia. unfold cxxlab_assert. bind.
  eexists. split; [reflexivity|]. intros m' Hm' s'. rewrite Hm'. destruct (Z.eqb_spec s s') as [<-|Hne]; [rewrite lookup_insert_eq; left; f_equal; lia|]. rewrite lookup_insert_ne by done. destruct (Hc s') as [E'|[E' ?]]; rewrite E'; [left; f_equal; lia|right; split; [done|lia]].
Qed.

Lemma substr_ok d a n : 0 <= a -> 0 <= n -> a + n <= zlen d -> zlen d < 2 ^ 32 -> substr_of d a n = Some (take (Z.to_nat n) (drop (Z.to_nat a) d)).
Proof. intros. unfold substr_of. rewrite !u32_small by lia. by rewrite (proj2 (Z.leb_le _ _)) by lia. Qed.

Section Hole.
Context (off len : Z) (off_ok : 0 <= off) (len_ok : 0 < len) (fits : off + len < 2 ^ 64).
Abbreviation he := (off + len).

Definition head_of (p : Z * deferred_io) : Z * deferred_io := (p.1, mk_io (take (Z.to_nat (off - p.1)) (bl p.2)) (seq p.2)).
Definition tail_of (p : Z * deferred_io) : Z * deferred_io := (he, mk_io (drop (Z.to_nat (he - p.1)) (bl p.2)) (seq p.2)).
Definition meets (p : Z * deferred_io) : bool := (p.1 <? he) && (off <? io_end p).
Definition keep1 (p : Z * deferred_io) : iomap :=
  if meets p then (if p.1 <? off then [head_of p] else []) ++ (if he <? io_end p then [tail_of p] else []) else [p].
Definition keep (m : iomap) : iomap := m ≫= keep1.

Definition away (p : Z * deferred_io) : Prop := io_end p <= off \/ he <= p.1.

Lemma io_keep_away m : Forall away m -> keep m = m.
Proof. induction 1 as [|p m Hp Hm IH]; [done|]. unfold keep in *. cbn [mbind list_bind]. rewrite IH. unfold keep1. assert (meets p = false) as -> by (unfold meets, away in *; lia). done. Qed.

Lemma length_head p : 0 <= p.1 -> p.1 < off -> off < io_end p -> zlen (take (Z.to_nat (off - p.1)) (bl p.2)) = off - p.1.
Proof. unfold io_end. intros. rewrite length_take. lia. Qed.
Lemma length_tail p : p.1 <= he -> he < io_end p -> zlen (drop (Z.to_nat (he - p.1)) (bl p.2)) = io_end p - he.
Proof. unfold io_end. intros. rewrite length_drop. lia. Qed.

Lemma head_end p : 0 <= p.1 -> p.1 < off -> off < io_end p -> zlen (bl (head_of p).2) = off - p.1 /\ io_end (head_of p) = off.
Proof. intros. unfold io_end at 1, head_of. cbn [fst snd bl]. rewrite length_head by done. lia. Qed.
Lemma tail_end p : p.1 <= he -> he < io_end p -> zlen (bl (tail_of p).2) = io_end p - he /\ io_end (tail_of p) = io_end p.
Proof. intros. unfold io_end at 2, tail_of. cbn [fst snd bl]. rewrite length_tail by done. lia. Qed.

Lemma keep1_away p : 0 <= p.1 -> Forall away (keep1 p).
Proof using len_ok.
  intros Hp. unfold keep1. destruct (meets p) eqn:E; [|apply Forall_singleton; unfold meets, away in *; lia]. unfold meets in E. zbool. apply Forall_app. split.
  - destruct (Z.ltb_spec p.1 off); [|done]. apply Forall_singleton. unfold away, io_end, head_of. cbn [fst snd bl]. rewrite length_head by done. left. lia.
  - destruct (Z.ltb_spec he (io_end p)); [|done]. apply Forall_singleton. unfold away. right. cbn. lia.
Qed.

Lemma io_wf_keep lo m : 0 <= lo -> io_wf lo m -> io_wf lo (keep m) /\ Forall away (keep m) /\ total (keep m) <= total m.
Proof using off_ok len_ok.
  revert lo. induction m as [|p m IH]; intros lo Hlo; [done|]. cbn [io_wf]. intros (H1 & H2 & H3 & H4). unfold keep. cbn [mbind list_bind]. fold (keep m). destruct (IH (io_end p) ltac:(unfold io_end; lia) H4) as (I1 & I2 & I3). split_and!; [|apply Forall_app; split; [apply keep1_away; lia|done]|].
  - unfold keep1. destruct (meets p) eqn:E; [|cbn [app io_wf]; split_and!; done]. unfold meets in E. zbool. pose proof (head_end p ltac:(lia)) as Hh. pose proof (tail_end p ltac:(lia)) as Ht. assert ((head_of p).1 = p.1 /\ (tail_of p).1 = he /\ io_end p = p.1 + zlen (bl p.2)) as (Hh1 & Ht1 & He1) by done. destruct (Z.ltb_spec p.1 off), (Z.ltb_spec he (io_end p)); cbn [app io_wf]; try split_and!; try lia; (eapply io_wf_weaken; [|exact I1]; lia).
  - unfold total in *. rewrite sumZ_app, sumZ_cons. enough (sumZ (fun p => zlen (bl p.2)) (keep1 p) <= zlen (bl p.2)) by lia. unfold keep1. destruct (meets p) eqn:E; [|cbn; lia]. unfold meets in E. zbool. destruct (Z.ltb_spec p.1 off), (Z.ltb_spec he (io_end p)); cbn [app]; rewrite ?sumZ_cons, ?sumZ_nil; unfold head_of, tail_of; cbn [fst snd bl]; rewrite ?length_head, ?length_tail by (done || lia); unfold io_end in *; lia.
Qed.

Lemma find_io_keep lo m x : 0 <= lo -> io_wf lo m -> find_io (keep m) x = if (off <=? x) && (x <? he) then None else find_io m x.
Proof using off_ok len_ok.
  revert lo. induction m as [|p m IH]; intros lo Hlo; [by destruct (_ && _)|]. cbn [io_wf]. intros (H1 & H2 & H3 & H4). unfold keep. cbn [mbind list_bind]. fold (keep m). specialize (IH (io_end p) ltac:(unfold io_end; lia) H4). cbn [find_io].
  assert (find_io (keep1 p ++ keep m) x = if (p.1 <=? x) && (x <? io_end p) && negb ((off <=? x) && (x <? he)) then bl p.2 !! Z.to_nat (x - p.1) else find_io (keep m) x) as ->.
  { unfold keep1. destruct (meets p) eqn:E; [|cbn [app find_io]; unfold meets in E; destruct ((p.1 <=? x) && (x <? io_end p)) eqn:E1; cbn [andb]; [|done]; by rewrite (proj2 (andb_false_iff (off <=? x) (x <? he))) by (zbool; lia)]. unfold meets in E. zbool.
    destruct (Z.ltb_spec p.1 off), (Z.ltb_spec he (io_end p)); cbn [app find_io]; rewrite ?(fun h => proj2 (head_end p ltac:(lia) h ltac:(lia))), ?(fun h => proj2 (tail_end p ltac:(lia) h)) by lia; unfold head_of, tail_of; cbn [fst snd bl].
    all: repeat match goal with |- context [?a <=? ?b] => destruct (Z.leb_spec a b); cbn [andb negb] | |- context [?a <? ?b] => destruct (Z.ltb_spec a b); cbn [andb negb] end; try done; try lia; rewrite ?lookup_drop, ?lookup_take_lt by lia; try (f_equal; lia). }
  rewrite IH. destruct ((off <=? x) && (x <? he)) eqn:E; cbn [negb]; [by rewrite andb_false_r|]. by rewrite andb_true_r.
Qed.

(** Every transaction loses what is cut of its entries. *)
Lemma bytes_of_keep1 s p : meets p = true -> 0 <= p.1 ->
  bytes_of s (keep1 p) = bytes_of s [p] - if seq p.2 =? s then Z.min he (io_end p) - Z.max off p.1 else 0.
Proof using off_ok len_ok.
  intros E Hp. unfold keep1. rewrite E. unfold meets in E. zbool. rewrite bytes_of_app, bytes_of_cons. destruct (Z.ltb_spec p.1 off), (Z.ltb_spec he (io_end p)); rewrite ?bytes_of_cons; unfold head_of, tail_of; cbn [fst snd bl seq]; rewrite ?length_head, ?length_tail by (done || lia); unfold bytes_of; rewrite !sumZ_nil; unfold io_end in *; destruct (_ =? s); lia.
Qed.

(** ** The loop of a discard *)

Lemma set_io_front k v m : match m with [] => True | p :: _ => k < p.1 end -> set_io k v m = (k, v) :: m.
Proof. destruct m as [|[k' v'] m]; cbn; [done|]. intros H. rewrite (proj2 (Z.ltb_ge _ _)), (proj2 (Z.eqb_neq _ _)) by lia. done. Qed.

(** Cutting the entry [p] of the map [F ++ p :: t]. *)
Lemma sub_cut F p t sb : counted (F ++ p :: t) sb -> total (F ++ p :: t) < 2 ^ 31 -> meets p = true -> 0 <= p.1 -> 0 < zlen (bl p.2) ->
  exists sb', sub_seq (seq p.2) (Z.min he (io_end p) - Z.max off p.1) sb = Some sb' /\ counted (F ++ keep1 p ++ t) sb'.
Proof using off_ok len_ok.
  intros Hc Ht Hm Hp Hl. pose proof (bytes_of_bounds (seq p.2) F). pose proof (bytes_of_bounds (seq p.2) t). assert (bytes_of (seq p.2) (F ++ p :: t) = bytes_of (seq p.2) F + (zlen (bl p.2) + bytes_of (seq p.2) t)) as Eb by (by rewrite bytes_of_app, bytes_of_cons, Z.eqb_refl).
  pose proof Hm as Hm'. unfold meets in Hm'. zbool. destruct (sub_seq_ok (seq p.2) (Z.min he (io_end p) - Z.max off p.1) _ sb Hc) as (sb' & E & H'); [unfold io_end in *; lia..|done|]. exists sb'. split; [done|]. apply H'. intros s'. rewrite !bytes_of_app, bytes_of_keep1, !bytes_of_cons by done. change (bytes_of s' []) with 0. destruct (_ =? s'); lia.
Qed.

Lemma discard_loop_ok F m : forall lo n sb, off <= lo -> io_wf lo m -> (S (List.length m) < n)%nat -> counted (F ++ m) sb -> total (F ++ m) < 2 ^ 31 ->
  exists sb', discard_loop off len n m sb = Some (keep m, sb') /\ counted (F ++ keep m) sb'.
Proof using off_ok len_ok fits.
  induction m as [|[k io] m IH]; intros lo n sb Hlo Hwf Hn Hc Ht; (destruct n as [|n]; [lia|]).
  - exists sb. by rewrite app_nil_r in *.
  - pose proof Hwf as (H1 & H2 & H3 & H4). cbn [discard_loop]. set (p := (k, io)) in *. cbn [fst snd p] in H1, H2. rewrite (u64_small (off + len)) by lia. destruct (Z.leb_spec he k) as [Hk|Hk].
    { exists sb. rewrite io_keep_away; [done|]. constructor; [by right|]. eapply Forall_impl; [by apply io_wf_bounds|]. intros q (? & _). right. unfold io_end in *. cbn [fst snd p] in *. lia. }
    assert (meets p = true) as Hm by (unfold meets, io_end in *; cbn [fst snd p] in *; lia). change (k + zlen (bl io)) with (io_end p). rewrite (u64_small (io_end p)) by (unfold io_end in *; cbn [fst snd p] in *; lia).
    destruct (sub_cut F p m sb Hc Ht Hm ltac:(cbn; lia) H2) as (sb1 & E1 & Hc1). cbn [fst snd p] in E1. rewrite (Z.max_r off k) in E1 by lia. assert (total (F ++ p :: m) = total F + (zlen (bl io) + total m)) as Et by (by rewrite io_total_app). pose proof (io_total_nonneg F). pose proof (io_total_nonneg m).
    assert (Forall (fun q => io_end p <= q.1) m) as Hrest by (eapply Forall_impl; [by apply (io_wf_bounds (io_end p))|]; by intros q (? & _)).
    destruct (Z.ltb_spec he (io_end p)) as [Hh|Hh].
    + rewrite (u64_small (off + len - k)), (u64_small (io_end p - he)) by (unfold io_end in *; cbn [fst snd p] in *; lia). rewrite substr_ok by (unfold io_end in *; cbn [fst snd p] in *; lia). bind. rewrite Z.min_l in E1 by lia. rewrite E1. bind. rewrite take_ge by (rewrite length_drop; unfold io_end in *; cbn [fst snd p] in *; lia).
      assert (keep1 p = [tail_of p]) as Ek by (unfold keep1; rewrite Hm; cbn [fst p]; rewrite (proj2 (Z.ltb_ge _ _)), (proj2 (Z.ltb_lt _ _)) by lia; done). rewrite set_io_front by (destruct m; [done|]; apply Forall_cons in Hrest as [? _]; lia). change (he, mk_io (drop (Z.to_nat (he - k)) (bl io)) (seq io)) with (tail_of p).
      assert (keep (p :: m) = tail_of p :: m) as Ekm. { unfold keep. cbn [mbind list_bind]. fold (keep m). rewrite Ek, io_keep_away; [done|]. eapply Forall_impl; [exact Hrest|]. cbv beta. intros q ?. right. lia. }
      rewrite Ekm. exists sb1. split; [|by rewrite Ek in Hc1]. destruct n as [|n]; [cbn in Hn; lia|]. cbn [discard_loop tail_of]. by rewrite (u64_small (off + len)), Z.leb_refl by lia.
    + rewrite Z.min_r in E1 by lia. replace (io_end p - k) with (zlen (bl io)) in E1 by (unfold io_end; cbn; lia). rewrite E1. bind. assert (keep1 p = []) as Ek by (unfold keep1; rewrite Hm; cbn [fst p]; rewrite !(proj2 (Z.ltb_ge _ _)) by lia; done). unfold keep. cbn [mbind list_bind]. fold (keep m). rewrite Ek in Hc1 |- *. cbn [app] in *.
      apply (IH (io_end p)); [unfold io_end; cbn [fst snd p]; lia|done|cbn in Hn; lia|done|rewrite io_total_app; lia].
Qed.

(** The entry before the range. *)
Lemma discard_head_ok F p t sb : counted (F ++ p :: t) sb -> total (F ++ p :: t) < 2 ^ 31 -> 0 <= p.1 -> p.1 < off -> 0 < zlen (bl p.2) -> io_end p < 2 ^ 64 ->
  exists tail sb', discard_head off len p sb = Some (match keep1 p with [] => p | q :: _ => q end, tail, sb') /\ counted (F ++ keep1 p ++ t) sb' /\
    (tail = None /\ (exists q, keep1 p = [q]) \/ exists q io, tail = Some io /\ keep1 p = [q; (he, io)] /\ he < io_end p).
Proof using off_ok len_ok fits.
  intros Hc Ht H0 H1 H2 H3. destruct p as [k io]. unfold discard_head. change (k + zlen (bl io)) with (io_end (k, io)). set (p := (k, io)) in *. cbn [fst snd p] in H0, H1, H2. rewrite (u64_small (io_end p)) by (unfold io_end in *; cbn [fst snd p] in *; lia). pose proof (io_total_nonneg F). pose proof (io_total_nonneg t). assert (total (F ++ p :: t) = total F + (zlen (bl io) + total t)) as Et by (by rewrite io_total_app).
  assert (zlen (bl io) < 2 ^ 31 /\ io_end p = k + zlen (bl io)) as [Hz Hend] by (split; [lia|done]). rewrite (u64_small (off + len)) by lia. destruct (Z.ltb_spec off (io_end p)) as [Hlt|Hge].
  - assert (meets p = true) as Hm by (unfold meets; cbn [fst p]; lia). destruct (sub_cut F p t sb Hc Ht Hm H0 H2) as (sb1 & E1 & Hc1). cbn [fst snd p] in E1. rewrite (Z.max_l off k) in E1 by lia. rewrite (u64_small (off - k)) by lia. rewrite (substr_ok (bl io) 0) by lia. bind. change (drop (Z.to_nat 0) (bl io)) with (bl io).
    unfold keep1. rewrite Hm. cbn [fst snd p]. rewrite (proj2 (Z.ltb_lt k off)) by lia. destruct (Z.ltb_spec he (io_end p)) as [Hh|Hh].
    + rewrite (u64_small (he - k)), (u64_small (io_end p - he)), substr_ok by lia. bind. rewrite Z.min_l in E1 by lia. replace (he - off) with len in E1 by lia. rewrite E1. bind. rewrite (take_ge (drop _ _)) by (rewrite length_drop; lia). do 2 eexists. split; [reflexivity|]. split; [unfold keep1 in Hc1; rewrite Hm in Hc1; cbn [fst p] in Hc1; rewrite (proj2 (Z.ltb_lt k off)), (proj2 (Z.ltb_lt he _)) in Hc1 by lia; exact Hc1|]. right. by do 2 eexists.
    + rewrite (u64_small (io_end p - off)) by lia. rewrite Z.min_r in E1 by lia. rewrite E1. bind. do 2 eexists. split; [reflexivity|]. split; [unfold keep1 in Hc1; rewrite Hm in Hc1; cbn [fst p] in Hc1; rewrite (proj2 (Z.ltb_lt k off)), (proj2 (Z.ltb_ge he _)) in Hc1 by lia; exact Hc1|]. left. split; [done|]. by eexists.
  - assert (keep1 p = [p]) as -> by (unfold keep1; assert (meets p = false) as -> by (unfold meets; cbn [fst p]; lia); done). do 2 eexists. split; [reflexivity|]. split; [done|]. left. split; [done|]. by eexists.
Qed.

Lemma io_wf_app lo a b : io_wf lo (a ++ b) -> io_wf lo a /\ exists lo', lo <= lo' /\ io_wf lo' b /\ Forall (fun q => io_end q <= lo') a.
Proof.
  revert lo. induction a as [|p a IH]; intros lo; cbn [app io_wf]; [intros H; split; [done|]; exists lo; split_and!; (done || lia)|]. intros (H1 & H2 & H3 & H4). destruct (IH _ H4) as [H5 (lo' & H6 & H7 & H8)]. split; [done|]. exists lo'. unfold io_end in *. split_and!; [lia|done|]. by constructor.
Qed.

Lemma discard_ok m sb : io_wf 0 m -> counted m sb -> total m < 2 ^ 31 -> exists sb', discard off len m sb = Some (keep m, sb') /\ counted (keep m) sb'.
Proof using off_ok len_ok fits.
  intros Hwf Hc Ht. unfold discard. destruct (span (fun p => off <=? p.1) m) as [pre post] eqn:Es. apply span_spec in Es as (-> & Hpre & Hpost). destruct (io_wf_app _ _ _ Hwf) as [Hwa (lo & Hlo & Hwb & Hends)].
  assert (io_wf (Z.max off lo) post) as Hwp. { destruct post as [|q post]; [done|]. destruct Hwb as (? & ? & ? & ?). cbn [io_wf]. split_and!; (done || lia). }
  destruct pre as [|p a _] using rev_ind; [cbn [last]; bind; destruct (discard_loop_ok [] post (Z.max off lo) (S (S (List.length post))) sb ltac:(lia) Hwp ltac:(lia) Hc Ht) as (sb' & -> & Hc'); bind; by exists sb'|]. rewrite last_snoc.
  apply Forall_app in Hpre as [_ Hp]. rewrite Forall_singleton in Hp. apply Z.leb_gt in Hp. rewrite Forall_app, Forall_singleton in Hends. destruct Hends as [_ Hpe]. destruct (io_wf_app _ _ _ Hwa) as [_ (lo1 & Hlo1 & (Hp1 & Hp2 & Hp3 & _) & Ha)]. rewrite <- app_assoc in Hc, Ht. cbn [app] in Hc, Ht.
  destruct (discard_head_ok a p post sb Hc Ht ltac:(lia) Hp Hp2 Hp3) as (tail & sb1 & E & Hc1 & Hcase). rewrite E. bind. rewrite removelast_last.
  assert (keep ((a ++ [p]) ++ post) = a ++ keep1 p ++ keep post) as Ek. { unfold keep. rewrite !bind_app. fold (keep a). rewrite io_keep_away by (eapply Forall_impl; [exact Ha|]; cbv beta; intros q ?; left; lia). cbn [mbind list_bind]. by rewrite app_nil_r, <- app_assoc. }
  rewrite Ek. destruct Hcase as [[-> [q Eq]]|(q & io & -> & Eq & Hh)]; rewrite Eq in *; bind.
  - cbn [app] in Hc1. rewrite (cons_middle q a post), app_assoc in Hc1. destruct (discard_loop_ok (a ++ [q]) post (Z.max off lo) (S (S (List.length post))) sb1 ltac:(lia) Hwp ltac:(lia) Hc1) as (sb' & E2 & Hc').
    { pose proof (io_wf_keep 0 [p]) as Hk. unfold keep in Hk. cbn [mbind list_bind] in Hk. rewrite app_nil_r, Eq in Hk. destruct Hk as (_ & _ & Hk); [lia|cbn; split_and!; (done || lia)|]. rewrite !io_total_app in *. unfold total in *. rewrite !sumZ_cons, !sumZ_nil in *. lia. }
    rewrite E2. bind. exists sb'. by rewrite <- !app_assoc in *.
  - rewrite (u64_small (off + len)) by lia. assert (Forall (fun q => he < q.1) post) as Hfar by (eapply Forall_impl; [by apply (io_wf_bounds lo)|]; cbv beta; intros r (? & _); lia). rewrite set_io_front by (destruct post; [done|]; apply Forall_cons in Hfar; tauto). cbn [discard_loop]. rewrite (u64_small (off + len)), Z.leb_refl by lia. bind.
    rewrite (io_keep_away post) by (eapply Forall_impl; [exact Hfar|]; cbv beta; intros r ?; right; lia). exists sb1. rewrite <- app_assoc. done.
Qed.

(** ** A write *)

(** An entry put where nothing is. *)
Lemma set_io_free v m : forall lo, io_wf lo m -> lo <= off -> Forall away m -> zlen (bl v) = len ->
  let m' := set_io off v m in io_wf lo m' /\ (forall s, bytes_of s m' = bytes_of s m + if seq v =? s then len else 0) /\ total m' = total m + len /\
    (forall x, find_io m' x = if (off <=? x) && (x <? he) then bl v !! Z.to_nat (x - off) else find_io m x) /\ existsb (fun p => p.1 =? off) m = false.
Proof using off_ok len_ok fits.
  induction m as [|p m IH]; intros lo Hwf Hlo Ha Hv m'.
  - subst m'. cbn [set_io]. split_and!; [|intros s; rewrite bytes_of_cons; cbn [snd]; rewrite Hv; change (bytes_of s []) with 0; lia|unfold total; rewrite sumZ_cons; cbn [snd]; rewrite Hv, sumZ_nil; lia| |done].
    + cbn [io_wf]. unfold io_end. cbn [fst snd]. split_and!; (done || lia).
    + intros x. cbn [find_io]. unfold io_end. cbn [fst snd]. by rewrite Hv.
  - apply Forall_cons in Ha as [Hp Ha]. destruct p as [k io]. destruct Hwf as (H1 & H2 & H3 & H4). cbn [fst snd] in *. subst m'. cbn [set_io]. set (p := (k, io)) in *. assert (io_end p = k + zlen (bl io)) as Hend by done. destruct (Z.ltb_spec k off) as [Hk|Hk].
    + assert (io_end p <= off) as Hpe by (destruct Hp; cbn [fst p] in *; lia). destruct (IH (io_end p) H4 Hpe Ha Hv) as (I1 & I2 & I3 & I4 & I5). split_and!.
      * cbn [io_wf fst snd p]. split_and!; (done || lia).
      * intros s. rewrite !bytes_of_cons, I2. lia.
      * unfold total in *. rewrite !sumZ_cons. lia.
      * intros x. cbn [find_io]. rewrite I4. cbn [fst snd p]. destruct (Z.leb_spec off x), (Z.ltb_spec x he), (Z.leb_spec k x), (Z.ltb_spec x (io_end p)); cbn [andb]; (done || lia).
      * cbn [existsb fst p]. rewrite (proj2 (Z.eqb_neq _ _)) by lia. done.
    + assert (he <= k) as Hpe by (destruct Hp; cbn [fst p] in *; lia). rewrite (proj2 (Z.eqb_neq off k)) by lia. split_and!.
      * assert (io_end (off, v) = he) as Ev by (unfold io_end; cbn [fst snd]; lia). cbn [io_wf fst snd p]. rewrite Ev, Hv. split_and!; (done || lia).
      * intros s. rewrite (bytes_of_cons s (off, v)). cbn [snd]. rewrite Hv. lia.
      * unfold total. rewrite (sumZ_cons _ (off, v)). cbn [snd]. rewrite Hv. lia.
      * intros x. cbn [find_io]. unfold io_end at 1. cbn [fst snd]. by rewrite Hv.
      * cbn [existsb fst p]. rewrite (proj2 (Z.eqb_neq k off)) by lia. cbn [orb]. apply not_true_iff_false. intros (q & Hq & E)%existsb_exists. apply Z.eqb_eq in E. apply io_wf_bounds in H4. rewrite Forall_forall in H4. destruct (H4 q) as (? & _); [by apply list_elem_of_In|lia].
Qed.

Lemma prepare_write_ok s data pos m sb : io_wf 0 m -> counted m sb -> total m + len < 2 ^ 31 -> 0 <= pos -> pos + len <= zlen data < 2 ^ 32 ->
  exists m' sb', prepare_write s off len data pos (m, sb) = Some (m', sb') /\ io_wf 0 m' /\ counted m' sb' /\ total m' <= total m + len /\
    forall x, find_io m' x = upd off (take (Z.to_nat len) (drop (Z.to_nat pos) data)) (find_io m) x.
Proof using off_ok len_ok fits.
  intros Hwf Hc Ht Hpos Hd. pose proof (io_total_nonneg m). unfold prepare_write. cbn [fst snd]. destruct (discard_ok m sb Hwf Hc ltac:(lia)) as (sb1 & -> & Hc1). bind. destruct (io_wf_keep 0 m ltac:(lia) Hwf) as (Hk1 & Hk2 & Hk3). set (d := take (Z.to_nat len) (drop (Z.to_nat pos) data)). assert (zlen d = len) as Hld by (unfold d; rewrite length_take, length_drop; lia).
  destruct (set_io_free (mk_io d s) (keep m) 0 Hk1 ltac:(lia) Hk2 Hld) as (S1 & S2 & S3 & S4 & ->). cbn [negb]. unfold cxxlab_assert. bind. rewrite substr_ok by lia. bind. fold d. rewrite to_int_small by lia. pose proof (bytes_of_bounds s (keep m)).
  assert (default 0 (sb1 !! s) = bytes_of s (keep m)) as -> by (by destruct (Hc1 s) as [->|[-> ->]]). unfold int_add. rewrite (proj2 (Z.leb_le _ _)), (proj2 (Z.ltb_lt _ _)) by lia. cbn [andb]. bind. do 2 eexists. split; [reflexivity|]. split_and!; [done| |lia|].
  - intros s'. rewrite S2. cbn [seq]. destruct (Z.eqb_spec s s') as [<-|Hne]; [left; by rewrite lookup_insert_eq|]. rewrite lookup_insert_ne by done. rewrite Z.add_0_r. apply Hc1.
  - intros x. rewrite S4. cbn [bl]. rewrite (find_io_keep 0) by (done || lia). unfold upd. rewrite Hld. by destruct (_ && _).
Qed.
End Hole.

(** ** A transaction *)

(** The writes an operation stands for: its data, along its extents. *)
Fixpoint op_writes (data : bytes) (pos : Z) (l : list pextent_t) : list (Z * bytes) :=
  match l with
  | [] => []
  | x :: t =>
      if offset x =? INVALID_OFFSET then op_writes data pos t
      else
        let d := take (Z.to_nat (length x)) (drop (Z.to_nat pos) data) in
        match d with [] => [] | _ => (offset x, d) :: op_writes data (pos + zlen d) t end
  end.
Definition txn_writes (t : deferred_txn) : list (Z * bytes) := ops t ≫= fun o => op_writes o.2 0 o.1.
Definition op_fits (o : list pextent_t * bytes) : Prop :=
  zlen o.2 < 2 ^ 32 /\ Forall (fun x => 0 <= offset x /\ 0 <= length x < 2 ^ 32 /\ (is_valid x = true -> offset x + length x < 2 ^ 64)) o.1.
Definition txn_size (t : deferred_txn) : Z := sumZ (fun o => zlen o.2) (ops t).

(** The batch [b'] is [b] after the writes [ws], of at most [n] bytes. *)
Definition after (ws : list (Z * bytes)) (n : Z) (b b' : iomap * gmap Z Z) : Prop :=
  io_wf 0 b'.1 /\ counted b'.1 b'.2 /\ total b'.1 <= total b.1 + n /\ forall x, find_io b'.1 x = apply ws (find_io b.1) x.

Lemma after_trans ws ws' n n' b1 b2 b3 : after ws n b1 b2 -> after ws' n' b2 b3 -> after (ws ++ ws') (n + n') b1 b3.
Proof.
  intros (_ & _ & T1 & F1) (W & C & T2 & F2). split_and!; [done|done|lia|]. intros x. rewrite F2, apply_app. by apply apply_ext.
Qed.

Lemma queue_extents_ok s data l : forall pos b, io_wf 0 b.1 -> counted b.1 b.2 -> 0 <= pos <= zlen data -> op_fits (l, data) -> total b.1 + (zlen data - pos) < 2 ^ 31 ->
  exists b', queue_extents s data pos l b = Some b' /\ after (op_writes data pos l) (zlen data - pos) b b'.
Proof.
  induction l as [|x l IH]; intros pos b Hwf Hc Hpos [Hd Hl] Ht; cbn [fst snd] in *; cbn [queue_extents op_writes]; [exists b; split; [done|split_and!; (done || lia)]|]. apply Forall_cons in Hl as [(Hx1 & Hx2 & Hx3) Hl].
  unfold is_valid in Hx3. destruct (Z.eqb_spec (offset x) INVALID_OFFSET) as [|Hv]; [by apply IH|]. specialize (Hx3 eq_refl). rewrite (u64_small (zlen data - pos)) by lia. set (n := Z.min (length x) (zlen data - pos)). assert (0 <= n <= zlen data - pos /\ n <= length x) as [Hnr Hnx] by (unfold n; lia).
  assert (take (Z.to_nat (length x)) (drop (Z.to_nat pos) data) = take (Z.to_nat n) (drop (Z.to_nat pos) data)) as ->. { unfold n. destruct (decide (length x <= zlen data - pos)); [by rewrite Z.min_l by lia|]. rewrite Z.min_r by lia. rewrite !take_ge by (rewrite length_drop; lia). done. }
  set (d := take (Z.to_nat n) (drop (Z.to_nat pos) data)). assert (zlen d = n) as Hn by (unfold d; rewrite length_take, length_drop; lia). destruct (Z.eqb_spec n 0) as [E|Hn0]; [destruct d; [|cbn in Hn; lia]; exists b; split; [done|split_and!; (done || lia)]|].
  destruct b as [m sb]. cbn [fst snd] in *. destruct (prepare_write_ok (offset x) n Hx1 ltac:(lia) ltac:(lia) s data pos m sb Hwf Hc ltac:(lia) ltac:(lia) ltac:(lia)) as (m1 & sb1 & E & W1 & C1 & T1 & F1). rewrite E. bind. rewrite (u64_small (pos + n)) by lia.
  destruct (IH (pos + n) (m1, sb1) W1 C1 ltac:(lia) (conj Hd Hl) ltac:(cbn [fst]; lia)) as (b' & E' & A'). exists b'. split; [done|]. destruct d as [|d0 d'] eqn:Ed; [cbn in Hn; lia|]. rewrite <- Ed in *. rewrite Hn. replace (zlen data - pos) with (n + (zlen data - (pos + n))) by lia. apply (after_trans [(offset x, d)] _ n _ _ (m1, sb1)); [|done]. by split_and!.
Qed.

Lemma queue_ops_ok s l : forall b, io_wf 0 b.1 -> counted b.1 b.2 -> Forall op_fits l -> total b.1 + sumZ (fun o => zlen o.2) l < 2 ^ 31 ->
  exists b', queue_ops s l b = Some b' /\ after (l ≫= fun o => op_writes o.2 0 o.1) (sumZ (fun o => zlen o.2) l) b b'.
Proof.
  induction l as [|[x data] l IH]; intros b Hwf Hc Hl Ht; cbn [queue_ops mbind list_bind fst snd]; [exists b; split; [done|split_and!; (done || (cbn; lia))]|]. apply Forall_cons in Hl as [Ho Hl]. rewrite sumZ_cons in Ht. cbn [snd] in Ht. assert (0 <= sumZ (fun o : list pextent_t * bytes => zlen o.2) l) by (apply sumZ_nonneg; apply Forall_forall; intros; lia).
  destruct (queue_extents_ok s data x 0 b Hwf Hc ltac:(lia) Ho ltac:(lia)) as (b1 & E1 & A1). rewrite E1. bind. pose proof A1 as (W1 & C1 & T1 & _). destruct (IH b1 W1 C1 Hl ltac:(lia)) as (b' & E' & A'). exists b'. split; [done|]. rewrite sumZ_cons. cbn [snd]. replace (zlen data) with (zlen data - 0) by lia. by eapply after_trans.
Qed.

(** The transactions of a batch, in order. *)
Fixpoint queue_txns (ts : list deferred_txn) (b : iomap * gmap Z Z) : option (iomap * gmap Z Z) :=
  match ts with [] => Some b | t :: r => b ← queue_ops (txn_seq t) (ops t) b; queue_txns r b end.

Lemma queue_txns_ok ts : forall b, io_wf 0 b.1 -> counted b.1 b.2 -> Forall (fun t => Forall op_fits (ops t)) ts -> total b.1 + sumZ txn_size ts < 2 ^ 31 ->
  exists b', queue_txns ts b = Some b' /\ after (ts ≫= txn_writes) (sumZ txn_size ts) b b'.
Proof.
  induction ts as [|t ts IH]; intros b Hwf Hc Hl Ht; cbn [queue_txns mbind list_bind]; [exists b; split; [done|split_and!; (done || (cbn; lia))]|]. apply Forall_cons in Hl as [Ho Hl]. rewrite sumZ_cons in *. assert (0 <= sumZ txn_size ts /\ 0 <= txn_size t) as [? ?] by (split; [apply sumZ_nonneg, Forall_forall; intros; apply sumZ_nonneg, Forall_forall; intros; lia|apply sumZ_nonneg, Forall_forall; intros; lia]).
  destruct (queue_ops_ok (txn_seq t) (ops t) b Hwf Hc Ho ltac:(unfold txn_size in *; lia)) as (b1 & E1 & A1). rewrite E1. bind. pose proof A1 as (W1 & C1 & T1 & _). destruct (IH b1 W1 C1 Hl ltac:(unfold txn_size in *; lia)) as (b' & E' & A'). exists b'. split; [done|]. by eapply after_trans.
Qed.

(** ** Submission *)

Abbreviation entries m := ((fun p : Z * deferred_io => (p.1, bl p.2)) <$> m).

Lemma apply_entries lo m : forall f x, io_wf lo m -> apply (entries m) f x = match find_io m x with Some v => Some v | None => f x end.
Proof.
  revert lo. induction m as [|p m IH]; intros lo f x; [done|]. cbn [io_wf]. intros (H1 & H2 & H3 & H4). cbn [fmap list_fmap]. change (apply ((p.1, bl p.2) :: entries m) f x) with (apply (entries m) (upd p.1 (bl p.2) f) x). rewrite (IH _ _ _ H4). cbn [find_io]. unfold upd. fold (io_end p).
  destruct ((p.1 <=? x) && (x <? io_end p)) eqn:E; [|done]. zbool. assert (find_io m x = None) as ->; [|by destruct (bl p.2 !! _) eqn:El; [|apply lookup_ge_None in El; unfold io_end in *; lia]].
  apply io_wf_bounds in H4. clear -H4 H0. induction H4 as [|q m (Hq & _) _ IH]; [done|]. cbn [find_io]. by rewrite (proj2 (Z.leb_gt _ _)) by lia.
Qed.

Lemma upd_join s a b f x : upd s (a ++ b) f x = upd (s + zlen a) b (upd s a f) x.
Proof.
  unfold upd. rewrite length_app. destruct (Z.leb_spec s x), (Z.ltb_spec x (s + Z.of_nat (List.length a + List.length b))), (Z.leb_spec (s + zlen a) x), (Z.ltb_spec x (s + zlen a + zlen b)), (Z.ltb_spec x (s + zlen a)); cbn [andb]; try done; try lia; [rewrite lookup_app_r by lia; f_equal; lia|by rewrite lookup_app_l by lia].
Qed.

(** Writes in order, with gaps between them. *)
Fixpoint separated (lo : Z) (ws : list (Z * bytes)) : Prop :=
  match ws with [] => True | w :: t => lo <= w.1 /\ w.2 <> [] /\ separated (w.1 + zlen w.2 + 1) t end.
Lemma separated_weaken lo lo' ws : lo' <= lo -> separated lo ws -> separated lo' ws.
Proof. destruct ws; cbn; [done|]. intros ? (? & ? & ?). split_and!; (done || lia). Qed.

Lemma submit_writes_ok m : forall start pos acc, 0 <= start -> acc <> [] -> pos = start + zlen acc -> pos < 2 ^ 64 -> io_wf pos m ->
  separated start (submit_writes start pos acc m) /\ forall f x, apply (submit_writes start pos acc m) f x = apply (entries m) (upd start acc f) x.
Proof.
  induction m as [|[k io] m IH]; intros start pos acc Hs Ha Hp Hw Hwf; cbn [submit_writes]; (assert (zlen acc <> 0) as Hz by (destruct acc; [done|cbn; lia])); rewrite (proj2 (Z.eqb_neq (zlen acc) 0)) by done; [split; [cbn; split_and!; (done || lia)|intros f x; reflexivity]|].
  destruct Hwf as (H1 & H2 & H3 & H4). unfold io_end in *. cbn [fst snd] in *. destruct (Z.eqb_spec k pos) as [->|Hne].
  - rewrite u64_small by lia. destruct (IH start (pos + zlen (bl io)) (acc ++ bl io) Hs) as [I1 I2]; [by destruct acc|rewrite length_app; lia|lia|done|]. split; [done|]. intros f x. rewrite I2. cbn [fmap list_fmap fst snd]. cbn [apply foldl fst snd]. apply apply_ext. intros y. rewrite upd_join. by subst pos.
  - rewrite u64_small by lia. destruct (IH k (k + zlen (bl io)) (bl io) ltac:(lia)) as [I1 I2]; [by destruct (bl io)|done|lia|done|]. split.
    + cbn [app separated fst snd]. split_and!; [lia|done|]. eapply separated_weaken; [|exact I1]. lia.
    + intros f x. cbn [app]. change (apply ((start, acc) :: ?l) f x) with (apply l (upd start acc f) x). rewrite I2. done.
Qed.

Lemma writes_of_ok m : io_wf 0 m -> separated 0 (writes_of m) /\ forall f x, apply (writes_of m) f x = match find_io m x with Some v => Some v | None => f x end.
Proof.
  intros Hwf. unfold writes_of. destruct m as [|[k io] m]; [done|]. setoid_rewrite <- (apply_entries 0); [|done]. pose proof Hwf as (H1 & H2 & H3 & H4). unfold io_end in *. cbn [fst snd] in *. cbn [submit_writes]. assert (bl io <> []) as Hne by (by destruct (bl io)). destruct (Z.eqb_spec k 0) as [->|]; cbn [List.length Z.of_nat Z.eqb app]; rewrite u64_small by lia.
  - apply submit_writes_ok; (done || lia).
  - destruct (submit_writes_ok m k (k + zlen (bl io)) (bl io) H1 Hne eq_refl ltac:(lia) H4) as [I1 I2]. split; [|done]. eapply separated_weaken; [|exact I1]. lia.
Qed.

(** C16: among deferred writes, the last one wins.  A batch of transactions whose
    data fits is queued without a failed assertion.  The writes it submits are in
    order, with gaps between them, and they leave the disk as the writes of the
    transactions would, one after the other; each transaction counts the bytes of the
    batch that are its own. *)
Theorem deferred_last_write_wins ts : Forall (fun t => Forall op_fits (ops t)) ts -> sumZ txn_size ts < 2 ^ 31 ->
  exists m sb, queue_txns ts ([], ∅) = Some (m, sb) /\ separated 0 (writes_of m) /\ counted m sb /\
    forall disk x, apply (writes_of m) disk x = apply (ts ≫= txn_writes) disk x.
Proof.
  intros Hl Ht. destruct (queue_txns_ok ts ([], ∅)) as ([m sb] & E & W & C & _ & F); [done|intros s; right; done|done|cbn; lia|]. cbn [fst snd] in *. exists m, sb. destruct (writes_of_ok m W) as [Hs Ha]. split_and!; [done..|]. intros disk x. rewrite Ha, F.
  assert (forall ws f g, (forall x, f x = match g x with Some v => Some v | None => disk x end) -> forall x, apply ws f x = match apply ws g x with Some v => Some v | None => disk x end) as Hgen.
  { clear. induction ws as [|w ws IH]; intros f g Hfg x; [apply Hfg|]. cbn [apply foldl]. apply (IH (upd w.1 w.2 f) (upd w.1 w.2 g)). intros y. unfold upd. destruct ((w.1 <=? y) && (y <? w.1 + zlen w.2)) eqn:Ew; [|apply Hfg]. zbool. destruct (w.2 !! _) eqn:El; [done|]. apply lookup_ge_None in El. lia. }
  symmetry. by apply (Hgen _ disk (find_io [])).
Qed.

(** Two transactions, the second over the end of the first. *)
Definition demo_txns : list deferred_txn := [mk_txn 1 [([pextent 4096 3; pextent INVALID_OFFSET 8; pextent 8192 2], [1; 2; 3; 4; 5])]; mk_txn 2 [([pextent 4098 3], [7; 8; 9])]].

Lemma deferred_last_write_wins_witness : exists m sb, queue_txns demo_txns ([], ∅) = Some (m, sb) /\ writes_of m = [(4096, [1; 2; 7; 8; 9]); (8192, [4; 5])] /\ sb !! 1 = Some 4 /\
  apply (writes_of m) (fun _ => None) 4098 = Some 7.
Proof.
  assert (Forall (fun t => Forall op_fits (ops t)) demo_txns) as Hf by (repeat constructor; cbn; (done || lia)). destruct (deferred_last_write_wins demo_txns Hf ltac:(done)) as (m & sb & E & _ & _ & Ha). exists m, sb. split; [exact E|]. rewrite (Ha (fun _ => None) 4098).
  assert (queue_txns demo_txns ([], ∅) = Some ([(4096, mk_io [1; 2] 1); (4098, mk_io [7; 8; 9] 2); (8192, mk_io [4; 5] 1)], <[2 := 3]> {[1 := 4]})) as Ed by (vm_compute; reflexivity). rewrite Ed in E. injection E as <- <-. split_and!; reflexivity.
Defined.
End DeferredSpec.
