(* ===== verification/DeferredDrain.v ===== *)
(** * Deferred writes drain: no wake-up is lost

    Whatever the order in which threads and the device take their steps, a batch that
    waits is seen by a thread, and when all threads are done, every transaction that
    was queued is in a batch that was written. *)
From stdpp Require Import base numbers list gmap relations.
From Stdlib Require Import ZArith Lia.
From S2P Require Import Prelude IntervalSet Allocator Deferred.
Import Deferred.

Module DeferredDrain.
Local Open Scope nat_scope.

(** Batches that are being written, sequencers a thread will look at, and batches
    between the two sections of [flush_done]. *)
Definition done_of (t : thread) : list DeferredBatch := match t with Flush_done b => [b] | _ => [] end.
Definition hints_of (t : thread) : list OpSequencer := match t with Submitting l => l | Flush_queue b true => [osr b] | _ => [] end.
Definition flushing_of (t : thread) : list DeferredBatch := match t with Flush_queue b _ => [b] | _ => [] end.
Definition inflight (w : writer) : list DeferredBatch := (aios w).*1 ++ (threads w ≫= done_of).
Definition waiting (w : writer) : list DeferredBatch := (map_to_list (deferred_pending w)).*2.

(** The transactions of a batch, with their sequencer. *)
Definition txns_of (b : DeferredBatch) : list (OpSequencer * deferred_txn) := (fun t => (osr b, t)) <$> txcs b.

Record inv (w : writer) (ts : list (OpSequencer * deferred_txn)) (taken : list DeferredBatch) : Prop := {
  i_running : (fun b => (osr b, b)) <$> inflight w ≡ₚ map_to_list (deferred_running w);
  i_pending : forall o b, deferred_pending w !! o = Some b -> osr b = o;
  i_wakeup : forall o, is_Some (deferred_pending w !! o) -> deferred_running w !! o = None -> o ∈ deferred_queue_ w ++ (threads w ≫= hints_of);
  i_queue : deferred_queue_ w <> [] -> Try_submit ∈ threads w;
  i_txns : (waiting w ++ inflight w ++ (threads w ≫= flushing_of) ++ deferred_done_queue_ w ++ deferred_stable_queue_ w ++ taken) ≫= txns_of ≡ₚ ts;
}.

(** What is left to do. *)
Definition work_of (t : thread) : nat :=
  match t with Try_submit => 2 | Submitting l => 1 + List.length l | Flush_done _ => 6 | Flush_queue _ true => 5 | Flush_queue _ false => 1 end.
Definition work (w : writer) : nat :=
  8 * size (deferred_pending w) + 7 * List.length (aios w) + List.length (deferred_queue_ w) + sum_list_with work_of (threads w).

(** The order of the threads does not matter. *)
Lemma bind_perm {A B} (f : A -> list B) l1 l2 : l1 ≡ₚ l2 -> l1 ≫= f ≡ₚ l2 ≫= f.
Proof. apply bind_Permutation. Qed.

Lemma inv_perm w l ts taken : threads w ≡ₚ l -> inv w ts taken -> inv (set_threads l w) ts taken.
Proof.
  intros Hp [H1 H2 H3 H4 H5]. constructor; cbn [set_threads deferred_pending deferred_running deferred_queue_ threads deferred_done_queue_ deferred_stable_queue_]; try done.
  - unfold inflight in *. cbn [set_threads aios threads]. by rewrite <- (bind_perm done_of _ _ Hp).
  - intros o Ho Hr. specialize (H3 o Ho Hr). rewrite elem_of_app, list_elem_of_bind in H3 |- *. destruct H3 as [?|(t & ? & Ht)]; [by left|right]. exists t. split; [done|]. by rewrite <- Hp.
  - intros Hq. rewrite <- Hp. by apply H4.
  - unfold waiting, inflight in *. cbn [set_threads aios threads deferred_pending]. by rewrite <- (bind_perm done_of _ _ Hp), <- (bind_perm flushing_of _ _ Hp).
Qed.

Lemma sum_list_perm {A} (f : A -> nat) l1 l2 : l1 ≡ₚ l2 -> sum_list_with f l1 = sum_list_with f l2.
Proof. induction 1; cbn; lia. Qed.

(** ** Steps *)

Lemma run_set_threads t rest l w : run_thread t rest (set_threads l w) = run_thread t rest w.
Proof.
  destruct t as [|[|o l0]|b|b h]; try done. cbn [run_thread]. unfold submit_one. cbn [set_threads deferred_pending deferred_running]. destruct (deferred_pending w !! o) as [b|], (deferred_running w !! o) as [r|]; try done. by destruct (writes_of (io b)).
Qed.

Lemma inv_queue o t w w' ts taken : queue o t w = Some w' -> inv w ts taken -> inv w' (ts ++ [(o, t)]) taken.
Proof.
  unfold queue. destruct (queue_ops _ _ _) as [[m sb]|]; [|done]. bind. intros [= <-] [H1 H2 H3 H4 H5]. set (b := default (batch_new (next_bid w) o) (deferred_pending w !! o)) in *. constructor; cbn [deferred_pending deferred_running deferred_queue_ threads deferred_done_queue_ deferred_stable_queue_]; try done.
  - intros o' b'. destruct (decide (o = o')) as [<-|Hne]; [rewrite lookup_insert_eq; by intros [= <-]|]. rewrite lookup_insert_ne by done. apply H2.
  - intros o' Ho Hr. cbn [mbind list_bind hints_of app]. destruct (decide (o = o')) as [<-|Hne]; [rewrite Hr; set_solver|]. rewrite lookup_insert_ne in Ho by done. specialize (H3 o' Ho Hr). destruct (deferred_running w !! o); set_solver.
  - intros _. set_solver.
  - assert ((waiting w ≫= txns_of) ++ [(o, t)] ≡ₚ (map_to_list (<[o := mk_batch (bid b) o (txcs b ++ [t]) m sb]> (deferred_pending w))).*2 ≫= txns_of) as Hw; [|].
    { unfold waiting, b. destruct (deferred_pending w !! o) as [b0|] eqn:E; cbn [default].
      - rewrite <- insert_delete_eq, map_to_list_insert by apply lookup_delete_eq. rewrite <- (insert_delete_id _ _ _ E) at 1. rewrite map_to_list_insert by apply lookup_delete_eq. cbn [fmap list_fmap mbind list_bind snd]. unfold txns_of at 1 3. cbn [osr txcs]. rewrite fmap_app, (H2 _ _ E). cbn [fmap list_fmap]. rewrite <- !app_assoc. apply Permutation_app_head, Permutation_app_comm.
      - rewrite map_to_list_insert by done. cbn [fmap list_fmap mbind list_bind snd]. unfold txns_of at 2. cbn [osr txcs batch_new app fmap list_fmap]. apply Permutation_app_comm. }
    unfold waiting in *. cbn [deferred_pending]. rewrite !bind_app in *. rewrite <- Hw, <- H5. unfold inflight. cbn [aios threads mbind list_bind done_of flushing_of app]. rewrite <- !app_assoc. apply Permutation_app_head. cbn [app]. rewrite Permutation_cons_append. by rewrite <- !app_assoc.
Qed.

Lemma inflight_running w b ts taken : inv w ts taken -> b ∈ inflight w -> deferred_running w !! osr b = Some b.
Proof. intros [H1 _ _ _ _] Hb. apply elem_of_map_to_list. rewrite <- H1. apply list_elem_of_fmap. by exists b. Qed.

(** A step of the first thread. *)
Definition good_step (t : thread) (rest : list thread) (w : writer) (ts : list (OpSequencer * deferred_txn)) (taken : list DeferredBatch) : Prop :=
  exists w', run_thread t rest w = Some w' /\ inv w' ts taken /\ work w' < work w.

Lemma try_submit_step rest w ts taken : threads w = Try_submit :: rest -> inv w ts taken -> good_step Try_submit rest w ts taken.
Proof.
  intros E [H1 H2 H3 H4 H5]. eexists. split; [reflexivity|]. rewrite E in *. split.
  - constructor; cbn; try done; unfold inflight, waiting in *; cbn; rewrite ?E in *; done.
  - unfold work. cbn. rewrite E. cbn. lia.
Qed.

Lemma submit_skip o l rest w ts taken : threads w = Submitting (o :: l) :: rest -> inv w ts taken -> deferred_pending w !! o = None \/ is_Some (deferred_running w !! o) ->
  inv (set_threads (Submitting l :: rest) w) ts taken /\ work (set_threads (Submitting l :: rest) w) < work w.
Proof.
  intros E [H1 H2 H3 H4 H5] Hskip. rewrite E in *. unfold inflight, waiting in *. rewrite E in *. split.
  - constructor; cbn; try done.
    + intros o' Ho Hr. specialize (H3 o' Ho Hr). cbn in H3. rewrite elem_of_app, elem_of_cons in H3. rewrite elem_of_app. destruct H3 as [?|[->|?]]; [by left| |by right]. destruct Hskip as [Hn|[? Hs]]; [rewrite Hn in Ho; by destruct Ho|congruence].
    + intros Hq. specialize (H4 Hq). set_solver.
  - unfold work. cbn. rewrite E. cbn. lia.
Qed.

(** A batch begins to run: it moves from the waiting ones to those in flight. *)
Lemma submit_run o b l rest w ts taken w' : threads w = Submitting (o :: l) :: rest -> inv w ts taken -> deferred_pending w !! o = Some b -> deferred_running w !! o = None ->
  inflight w' ≡ₚ b :: inflight w -> deferred_pending w' = delete o (deferred_pending w) -> deferred_running w' = <[o := b]> (deferred_running w) ->
  deferred_queue_ w' = deferred_queue_ w -> deferred_done_queue_ w' = deferred_done_queue_ w -> deferred_stable_queue_ w' = deferred_stable_queue_ w ->
  threads w' ≫= hints_of = l ++ (rest ≫= hints_of) -> threads w' ≫= flushing_of = threads w ≫= flushing_of -> (Try_submit ∈ threads w -> Try_submit ∈ threads w') -> inv w' ts taken.
Proof.
  intros E [H1 H2 H3 H4 H5] Hp Hr Hin Ep Er Eq Ed Es Eh Ef Ht. pose proof (H2 _ _ Hp) as Ho. constructor; rewrite ?Ep, ?Er, ?Eq, ?Ed, ?Es, ?Ef.
  - rewrite Hin, map_to_list_insert by done. cbn [fmap list_fmap]. by rewrite H1, Ho.
  - intros o' b' [_ Hb']%lookup_delete_Some. by apply H2.
  - intros o' [b' Hb'] Hr'. apply lookup_delete_Some in Hb' as [Hne Hb']. rewrite lookup_insert_ne in Hr' by done. specialize (H3 o' (mk_is_Some _ _ Hb') Hr'). rewrite E in H3. cbn in H3. rewrite Eh. rewrite elem_of_app, elem_of_cons in H3. rewrite elem_of_app. destruct H3 as [?|[?|?]]; [by left|congruence|by right].
  - intros Hq. by apply Ht, H4.
  - rewrite <- H5. unfold waiting. rewrite Ep. rewrite <- (insert_delete_id _ _ _ Hp) at 2. rewrite map_to_list_insert by apply lookup_delete_eq. cbn [fmap list_fmap snd]. rewrite Hin. cbn [app]. apply bind_perm. symmetry. apply Permutation_middle.
Qed.

Lemma submitting_step l rest w ts taken : threads w = Submitting l :: rest -> inv w ts taken -> good_step (Submitting l) rest w ts taken.
Proof.
  intros E Hi. unfold good_step. destruct l as [|o l]; cbn [run_thread].
  - eexists. split; [reflexivity|]. destruct Hi as [H1 H2 H3 H4 H5]. rewrite E in *. unfold inflight, waiting in *. rewrite E in *. split; [|unfold work; cbn; rewrite E; cbn; lia]. constructor; cbn; try done. intros Hq. specialize (H4 Hq). set_solver.
  - unfold submit_one. destruct (deferred_pending w !! o) as [b|] eqn:Hp; [destruct (deferred_running w !! o) as [r|] eqn:Hr|].
    + eexists. split; [reflexivity|]. apply (submit_skip o); [done..|]. right. by rewrite Hr.
    + assert (size (deferred_pending w) = S (size (delete o (deferred_pending w)))) as Hsz by (rewrite <- (insert_delete_id _ _ _ Hp) at 1; rewrite map_size_insert_None; [done|apply lookup_delete_eq]).
      destruct (writes_of (io b)) as [|x ws] eqn:Ew; (eexists; split; [reflexivity|]; split; [eapply (submit_run o b l rest w); try done|unfold work; cbn; rewrite E, ?Hsz, ?length_app; cbn; lia]).
      * unfold inflight. cbn. rewrite E. cbn. symmetry. apply Permutation_middle.
      * cbn. by rewrite E.
      * rewrite E. cbn. set_solver.
      * unfold inflight. cbn. rewrite E. cbn. rewrite fmap_app, <- app_assoc. cbn. symmetry. apply Permutation_middle.
      * cbn. by rewrite E.
      * rewrite E. cbn. set_solver.
    + eexists. split; [reflexivity|]. apply (submit_skip o); [done..|]. by left.
Qed.

Lemma flush_done_step b rest w ts taken : threads w = Flush_done b :: rest -> inv w ts taken -> good_step (Flush_done b) rest w ts taken.
Proof.
  intros E Hi. assert (b ∈ inflight w) as Hb by (unfold inflight; rewrite E; set_solver). pose proof (inflight_running _ _ _ _ Hi Hb) as Hr. destruct Hi as [H1 H2 H3 H4 H5]. unfold good_step. cbn [run_thread]. rewrite Hr. bind. rewrite Nat.eqb_refl. unfold cxxlab_assert. bind. eexists. split; [reflexivity|].
  rewrite E in *. unfold inflight, waiting in *. rewrite E in *. cbn in H1. split; [|unfold work; cbn; rewrite E; case_bool_decide; cbn; lia]. constructor; cbn [deferred_pending deferred_running deferred_queue_ threads deferred_done_queue_ deferred_stable_queue_ aios]; try done.
  - unfold inflight. cbn. rewrite <- (insert_delete_id _ _ _ Hr), map_to_list_insert in H1 by apply lookup_delete_eq. rewrite <- (Permutation_middle _ _ b) in H1. cbn in H1. by apply Permutation_cons_inv in H1.
  - intros o Ho Hn. cbn. destruct (decide (o = osr b)) as [->|Hne]; [rewrite bool_decide_true by done; set_solver|]. rewrite lookup_delete_ne in Hn by done. specialize (H3 o Ho Hn). cbn in H3. case_bool_decide; set_solver.
  - intros Hq. specialize (H4 Hq). set_solver.
  - rewrite <- H5. unfold inflight, waiting. cbn. apply bind_perm. apply Permutation_app_head. rewrite <- !app_assoc. apply Permutation_app_head. symmetry. cbn. apply Permutation_middle.
Qed.

Lemma flush_queue_step b h rest w ts taken : threads w = Flush_queue b h :: rest -> inv w ts taken -> good_step (Flush_queue b h) rest w ts taken.
Proof.
  intros E [H1 H2 H3 H4 H5]. eexists. split; [reflexivity|]. rewrite E in *. unfold inflight, waiting in *. rewrite E in *. split; [|unfold work; cbn; rewrite E; destruct h; rewrite ?length_app; cbn; lia]. constructor; cbn [deferred_pending deferred_running deferred_queue_ threads deferred_done_queue_ deferred_stable_queue_ aios]; try done.
  - unfold inflight. cbn. by destruct h.
  - intros o Ho Hn. specialize (H3 o Ho Hn). destruct h; cbn in *; set_solver.
  - intros Hq. destruct h; [set_solver|]. specialize (H4 Hq). set_solver.
  - rewrite <- H5. unfold inflight, waiting. cbn. assert ((if h then Try_submit :: rest else rest) ≫= done_of = rest ≫= done_of /\ (if h then Try_submit :: rest else rest) ≫= flushing_of = rest ≫= flushing_of) as [-> ->] by (by destruct h). apply bind_perm. do 2 apply Permutation_app_head. rewrite <- !app_assoc. cbn [app]. rewrite (app_assoc (rest ≫= flushing_of)), <- Permutation_middle, <- app_assoc. done.
Qed.

Lemma thread_step t l1 l2 w ts taken : threads w = l1 ++ t :: l2 -> inv w ts taken -> good_step t (l1 ++ l2) w ts taken.
Proof.
  intros E Hi. assert (threads w ≡ₚ t :: (l1 ++ l2)) as Hp by (rewrite E; symmetry; apply Permutation_middle). pose proof (inv_perm w _ ts taken Hp Hi) as Hi'. set (w1 := set_threads (t :: l1 ++ l2) w) in *. assert (good_step t (l1 ++ l2) w1 ts taken) as (w' & Er & Hi1 & Hw).
  { destruct t; [by apply try_submit_step|by apply submitting_step|by apply flush_done_step|by apply flush_queue_step]. }
  exists w'. split; [by rewrite <- (run_set_threads t (l1 ++ l2) (t :: l1 ++ l2) w)|]. split; [done|]. unfold work in *. cbn [w1 set_threads deferred_pending aios deferred_queue_ threads] in Hw. by rewrite (sum_list_perm work_of _ _ Hp).
Qed.

Lemma aio_step b d l1 l2 w ts taken : aios w = l1 ++ (b, d) :: l2 -> inv w ts taken -> inv (aio_finish b (l1 ++ l2) w) ts taken /\ work (aio_finish b (l1 ++ l2) w) < work w.
Proof.
  intros E [H1 H2 H3 H4 H5]. assert (inflight (aio_finish b (l1 ++ l2) w) ≡ₚ inflight w) as Hin.
  { unfold inflight. rewrite E. cbn. rewrite !fmap_app, fmap_cons, <- !app_assoc. cbn. apply Permutation_app_head. symmetry. apply Permutation_middle. }
  split; [|unfold work; cbn; rewrite E, !length_app; cbn; lia]. constructor; try done.
  - by rewrite Hin.
  - intros Hq. cbn. right. by apply H4.
  - rewrite Hin. exact H5.
Qed.

Lemma step_inv s s' : step s s' -> inv s.1.1 s.1.2 s.2 -> inv s'.1.1 s'.1.2 s'.2.
Proof.
  intros Hs Hi. destruct Hs as [o t w w' ts taken E|l1 t l2 w w' ts taken E Er|l1 b d l2 w ts taken E|w ts taken|w ts taken]; cbn [fst snd] in *.
  - by eapply inv_queue.
  - destruct (thread_step t l1 l2 w ts taken E Hi) as (w1 & Er' & Hi' & _). by simplify_eq.
  - by eapply aio_step.
  - destruct Hi as [H1 H2 H3 H4 H5]. constructor; try done. rewrite <- H5. unfold inflight, waiting. cbn. apply bind_perm. do 3 apply Permutation_app_head. rewrite !app_assoc. apply Permutation_app_tail, Permutation_app_comm.
  - destruct Hi as [H1 H2 H3 H4 H5]. constructor; try done. rewrite <- H5. unfold inflight, waiting. cbn. apply bind_perm. do 4 apply Permutation_app_head. apply Permutation_app_comm.
Qed.

(** C15: deferred writes drain, and no wake-up is lost.  In every state that the
    threads and the device can reach in any order, each thread can take its next
    step, with its assertion true, and each step of a thread or of the device leaves
    less to do.  A sequencer has at most one batch in flight, so that its writes reach
    the device in order.  Once no thread and no write is left, no batch waits or runs,
    and the transactions of the batches that are done are those that were queued. *)
Theorem deferred_drains w ts taken : rtc step (writer_new, [], []) (w, ts, taken) ->
  (forall l1 t l2, threads w = l1 ++ t :: l2 -> exists w', run_thread t (l1 ++ l2) w = Some w' /\ work w' < work w) /\
  (forall l1 b d l2, aios w = l1 ++ (b, d) :: l2 -> work (aio_finish b (l1 ++ l2) w) < work w) /\
  NoDup (osr <$> (aios w).*1) /\
  (threads w = [] -> aios w = [] -> deferred_pending w = ∅ /\ deferred_running w = ∅ /\ deferred_queue_ w = [] /\
     (deferred_done_queue_ w ++ deferred_stable_queue_ w ++ taken) ≫= txns_of ≡ₚ ts).
Proof.
  intros Hr. assert (inv w ts taken) as Hi.
  { change (inv (w, ts, taken).1.1 (w, ts, taken).1.2 (w, ts, taken).2). eapply (rtc_ind_r (fun s => inv s.1.1 s.1.2 s.2)); [| |exact Hr]; [constructor; try done; by intros o [? ?]|]. intros y z _ Hs. by apply step_inv. }
  split_and!.
  - intros l1 t l2 E. destruct (thread_step t l1 l2 w ts taken E Hi) as (w' & ? & _ & ?). by exists w'.
  - intros l1 b d l2 E. by eapply aio_step.
  - destruct Hi as [H1 _ _ _ _]. assert (NoDup (((fun b => (osr b, b)) <$> inflight w).*1)) as Hn by (rewrite H1; apply NoDup_fst_map_to_list). rewrite <- list_fmap_compose in Hn. unfold inflight in Hn. rewrite fmap_app in Hn. by apply NoDup_app in Hn as [? _].
  - intros Et Ea. destruct Hi as [H1 H2 H3 H4 H5]. unfold inflight in *. rewrite Et, Ea in *. cbn in H1, H5. symmetry in H1. apply Permutation_nil_r, map_to_list_empty_iff in H1. assert (deferred_queue_ w = []) as Eq by (destruct (deferred_queue_ w); [done|]; by specialize (H4 ltac:(done)) as ?%not_elem_of_nil).
    assert (deferred_pending w = ∅) as Ep by (apply map_empty; intros o; destruct (deferred_pending w !! o) eqn:Eo; [|done]; specialize (H3 o ltac:(by rewrite Eo) ltac:(by rewrite H1)); rewrite Eq in H3; by apply not_elem_of_nil in H3). split_and!; try done. rewrite <- H5. unfold waiting. by rewrite Ep, map_to_list_empty.
Qed.

(** A transaction is queued, written and done; its thread finds nothing more to do. *)
Definition demo_txn : deferred_txn := mk_txn 1 [([Allocator.pextent 4096 3], [1; 2; 3]%Z)].

Lemma deferred_drains_witness : exists w, rtc step (writer_new, [], []) (w, [(0, demo_txn)], []) /\ threads w = [] /\ aios w = [] /\ List.length (deferred_done_queue_ w) = 1 /\
  (deferred_done_queue_ w ++ deferred_stable_queue_ w ++ []) ≫= txns_of ≡ₚ [(0, demo_txn)].
Proof.
  eexists. match goal with |- ?A /\ _ => assert A as Hr end.
  { eapply rtc_l; [apply (step_queue 0 demo_txn); vm_compute; reflexivity|]. eapply rtc_l; [eapply (step_thread [] _ []); [vm_compute; reflexivity|vm_compute; reflexivity]|]. eapply rtc_l; [eapply (step_thread [] _ []); [vm_compute; reflexivity|vm_compute; reflexivity]|].
    eapply rtc_l; [eapply (step_aio [] _ _ []); vm_compute; reflexivity|]. eapply rtc_l; [eapply (step_thread [] _ [Submitting []]); [vm_compute; reflexivity|vm_compute; reflexivity]|]. eapply rtc_l; [eapply (step_thread [] _ [Submitting []]); [vm_compute; reflexivity|vm_compute; reflexivity]|]. eapply rtc_l; [eapply (step_thread [] _ []); [vm_compute; reflexivity|vm_compute; reflexivity]|]. apply rtc_refl. }
  destruct (deferred_drains _ _ _ Hr) as (_ & _ & _ & Hd). split; [exact Hr|]. split_and!; [reflexivity..|]. by apply Hd.
Defined.
End DeferredDrain.
