(* ===== verification/BufferCache.v ===== *)
(** * bluestore/buffer_cache.{h,cc}: the cache of blob data

    Every blob has a [BufferSpace], a map from offsets to buffers that owns them; one
    [BufferCache] lists the buffers of all spaces in the order of their use.  Both
    point to the buffers, and a buffer points to its space, so buffers are objects of
    a store and pointers are their indices: a pointer to a buffer that is gone, or to
    one that is not in the list it is removed from, is [None].  The methods hold the
    lock of the cache. *)
From stdpp Require Import base numbers list gmap.
From Stdlib Require Import ZArith Lia ZifyBool.
From S2P Require Import Prelude.

Module BufferCache.
Local Open Scope Z_scope.
Abbreviation zlen l := (Z.of_nat (List.length l)).
Abbreviation ptr := nat.
Abbreviation space_id := nat.

Inductive state_t := STATE_CLEAN | STATE_WRITING.
Definition FLAG_NOCACHE : Z := 1.

Record Buffer := mk_Buffer { space : space_id; state : state_t; flags : Z; seq : Z; offset : Z; length : Z; data : bytes }.
Definition is_clean (b : Buffer) : bool := match state b with STATE_CLEAN => true | STATE_WRITING => false end.
Definition is_writing (b : Buffer) : bool := negb (is_clean b).
Definition is_nocache (b : Buffer) : bool := negb (Z.land (flags b) FLAG_NOCACHE =? 0).
Definition set_length (n : Z) (b : Buffer) : Buffer := mk_Buffer (space b) (state b) (flags b) (seq b) (offset b) n (data b).
Definition set_clean (b : Buffer) : Buffer := mk_Buffer (space b) STATE_CLEAN (flags b) (seq b) (offset b) (length b) (data b).

(** [buffer_map_] is ordered by the offset. *)
Record BufferSpace := mk_space { buffer_map_ : list (Z * ptr); writing_ : list ptr }.
Definition space_new : BufferSpace := mk_space [] [].

Record world := mk_world {
  buffers : gmap ptr Buffer;
  next_ptr : ptr;
  spaces : gmap space_id BufferSpace;
  max_bytes_ : Z;
  cur_bytes_ : Z;
  lru_ : list ptr;
  hit_bytes_ : Z;
  miss_bytes_ : Z;
}.
Definition cache_new (max_bytes : Z) : world := mk_world ∅ O ∅ max_bytes 0 [] 0 0.

Definition get_space (s : space_id) (w : world) : BufferSpace := default space_new (spaces w !! s).
Definition set_space (s : space_id) (x : BufferSpace) (w : world) : world :=
  mk_world (buffers w) (next_ptr w) (<[s := x]> (spaces w)) (max_bytes_ w) (cur_bytes_ w) (lru_ w) (hit_bytes_ w) (miss_bytes_ w).
Definition set_buffers (B : gmap ptr Buffer) (w : world) : world :=
  mk_world B (next_ptr w) (spaces w) (max_bytes_ w) (cur_bytes_ w) (lru_ w) (hit_bytes_ w) (miss_bytes_ w).
Definition set_lru (l : list ptr) (cur : Z) (w : world) : world :=
  mk_world (buffers w) (next_ptr w) (spaces w) (max_bytes_ w) cur l (hit_bytes_ w) (miss_bytes_ w).

(** [lru_.erase(b->lru_it)]. *)
Definition lru_erase (p : ptr) (l : list ptr) : option (list ptr) := if decide (p ∈ l) then Some (remove_one p l) else None.
(** [writing_.remove(b)] and [buffer_map_.erase(k)], which deletes the buffer. *)
Definition list_remove (p : ptr) (l : list ptr) : list ptr := filter (.≠ p) l.
Definition map_erase (k : Z) (m : list (Z * ptr)) : list (Z * ptr) := filter (fun e => e.1 <> k) m.
Definition map_find (k : Z) (m : list (Z * ptr)) : option ptr := snd <$> head (filter (fun e => e.1 = k) m).
Fixpoint map_insert (k : Z) (p : ptr) (m : list (Z * ptr)) : list (Z * ptr) :=
  match m with
  | [] => [(k, p)]
  | (k', p') :: t => if k' <? k then (k', p') :: map_insert k p t else if k =? k' then (k, p) :: t else (k, p) :: m
  end.

(** ** BufferCache *)

Definition add (p : ptr) (w : world) : option world :=
  b ← buffers w !! p; Some (set_lru (p :: lru_ w) (cur_bytes_ w +64 length b) w).
Definition rm (p : ptr) (w : world) : option world :=
  b ← buffers w !! p; l ← lru_erase p (lru_ w); Some (set_lru l (cur_bytes_ w -64 length b) w).
Definition touch (p : ptr) (w : world) : option world :=
  l ← lru_erase p (lru_ w); Some (set_lru (p :: l) (cur_bytes_ w) w).

(** [b->space->buffer_map_.erase(b->offset)] with the buffer [p] there. *)
Definition erase_buffer (s : space_id) (k : Z) (w : world) : world :=
  let x := get_space s w in
  let w := match map_find k (buffer_map_ x) with Some p => set_buffers (delete p (buffers w)) w | None => w end in
  set_space s (mk_space (map_erase k (buffer_map_ x)) (writing_ x)) w.

Definition trim_step (s : nat * world) : option ((nat * world) + world) :=
  let '(skipped, w) := s in
  if (max_bytes_ w <? cur_bytes_ w) && (skipped <? List.length (lru_ w))%nat then
    p ← last (lru_ w);
    b ← buffers w !! p;
    if negb (is_clean b) then Some (inl (S skipped, set_lru (p :: removelast (lru_ w)) (cur_bytes_ w) w))
    else Some (inl (O, erase_buffer (space b) (offset b) (set_lru (removelast (lru_ w)) (cur_bytes_ w -64 length b) w)))
  else Some (inr w).

(** One pass over the list per buffer that goes. *)
Fixpoint trim_loop (n : nat) (s : nat * world) : option world :=
  match n with
  | O => None
  | S n => r ← trim_step s; match r with inl s => trim_loop n s | inr w => Some w end
  end.
Definition trim (w : world) : option world := trim_loop (S (List.length (lru_ w) * S (S (List.length (lru_ w))))) (O, w).

Definition set_max_bytes (max : Z) (w : world) : option world :=
  trim (mk_world (buffers w) (next_ptr w) (spaces w) max (cur_bytes_ w) (lru_ w) (hit_bytes_ w) (miss_bytes_ w)).

Definition flush_one (p : ptr) (w : world) : option world :=
  b ← buffers w !! p;
  let w := set_lru (removelast (lru_ w)) (cur_bytes_ w -64 length b) w in
  let x := get_space (space b) w in
  let w := if is_writing b then set_space (space b) (mk_space (buffer_map_ x) (list_remove p (writing_ x))) w else w in
  Some (erase_buffer (space b) (offset b) w).
Fixpoint flush_loop (l : list ptr) (w : world) : option world :=
  match l with [] => Some w | p :: t => w ← flush_one p w; flush_loop t w end.
(** From the back of the list to its front. *)
Definition flush (w : world) : option world := flush_loop (reverse (lru_ w)) w.

(** ** BufferSpace *)

(** The entries of the map from an iterator on: those that stay. *)
Fixpoint discard_loop (s : space_id) (off e : Z) (m : list (Z * ptr)) (w : world) : option (list (Z * ptr) * world) :=
  match m with
  | [] => Some ([], w)
  | (k, p) :: t =>
      b ← buffers w !! p;
      if e <=? offset b then Some (m, w)
      else if offset b +32 length b <=? off then
        '(t, w) ← discard_loop s off e t w; Some ((k, p) :: t, w)
      else if offset b <? off then
        '(t, w) ← discard_loop s off e t (set_buffers (<[p := set_length (off -32 offset b) b]> (buffers w)) w); Some ((k, p) :: t, w)
      else
        let x := get_space s w in
        let w := if is_writing b then set_space s (mk_space (buffer_map_ x) (list_remove p (writing_ x))) w else w in
        w ← rm p w;
        discard_loop s off e t (set_buffers (delete p (buffers w)) w)
  end.
Definition discard (s : space_id) (off len : Z) (w : world) : option world :=
  '(m, w) ← discard_loop s off (off +32 len) (buffer_map_ (get_space s w)) w;
  Some (set_space s (mk_space m (writing_ (get_space s w))) w).

(** [buffer_map_[offset] = b], which deletes a buffer that was there. *)
Definition put_buffer (b : Buffer) (w : world) : ptr * world :=
  let p := next_ptr w in
  let x := get_space (space b) w in
  let B := match map_find (offset b) (buffer_map_ x) with Some q => delete q (buffers w) | None => buffers w end in
  let w := mk_world (<[p := b]> B) (S p) (spaces w) (max_bytes_ w) (cur_bytes_ w) (lru_ w) (hit_bytes_ w) (miss_bytes_ w) in
  (p, set_space (space b) (mk_space (map_insert (offset b) p (buffer_map_ x)) (writing_ x)) w).

Definition write (s : space_id) (sq off : Z) (bl : bytes) (fl : Z) (w : world) : option world :=
  w ← discard s off (zlen bl) w;
  let '(p, w) := put_buffer (mk_Buffer s STATE_WRITING (wrap 16 fl) sq off (zlen bl) bl) w in
  let x := get_space s w in
  w ← add p (set_space s (mk_space (buffer_map_ x) (writing_ x ++ [p])) w);
  trim w.

(** The writes of [sq], among the buffers [l] of [writing_]. *)
Fixpoint finish_loop (s : space_id) (sq : Z) (l : list ptr) (w : world) : option world :=
  match l with
  | [] => Some w
  | p :: t =>
      b ← buffers w !! p;
      if negb (seq b =? sq) then finish_loop s sq t w
      else
        let x := get_space s w in
        let w := set_space s (mk_space (buffer_map_ x) (remove_one p (writing_ x))) w in
        w ← (if is_nocache b then w ← rm p w; Some (erase_buffer s (offset b) w)
             else w ← touch p (set_buffers (<[p := set_clean b]> (buffers w)) w); trim w);
        finish_loop s sq t w
  end.
Definition finish_write (s : space_id) (sq : Z) (w : world) : option world := finish_loop s sq (writing_ (get_space s w)) w.

Definition did_read (s : space_id) (off : Z) (bl : bytes) (w : world) : option world :=
  w ← discard s off (zlen bl) w;
  let '(p, w) := put_buffer (mk_Buffer s STATE_CLEAN 0 0 off (zlen bl) bl) w in
  w ← add p w;
  trim w.

Definition record_hit (n : Z) (w : world) : world := mk_world (buffers w) (next_ptr w) (spaces w) (max_bytes_ w) (cur_bytes_ w) (lru_ w) (hit_bytes_ w +64 n) (miss_bytes_ w).
Definition record_miss (n : Z) (w : world) : world := mk_world (buffers w) (next_ptr w) (spaces w) (max_bytes_ w) (cur_bytes_ w) (lru_ w) (hit_bytes_ w) (miss_bytes_ w +64 n).

(** The buffer [read] looks at: the one before [off] if it reaches [off], else the
    first one from [off] on. *)
Definition read_candidate (s : space_id) (off : Z) (w : world) : option (option ptr) :=
  let '(pre, post) := span (fun e => off <=? e.1) (buffer_map_ (get_space s w)) in
  let next := snd <$> head post in
  match last pre with
  | Some (_, q) => b ← buffers w !! q; Some (if off <? offset b +32 length b then Some q else next)
  | None => Some next
  end.

(** The data, if the cache has it. *)
Definition read (s : space_id) (off len : Z) (w : world) : option (option bytes * world) :=
  c ← read_candidate s off w;
  match c with
  | None => Some (None, record_miss len w)
  | Some p =>
      b ← buffers w !! p;
      if off <? offset b then Some (None, record_miss len w)
      else if offset b +32 length b <? off +32 len then Some (None, record_miss len w)
      else
        let local_off := off -32 offset b in
        if zlen (data b) <? local_off + len then None
        else
          let d := take (Z.to_nat len) (drop (Z.to_nat local_off) (data b)) in
          if is_clean b then w ← touch p w; Some (Some d, record_hit len w) else Some (Some d, w)
  end.

Fixpoint clear_loop (s : space_id) (m : list (Z * ptr)) (w : world) : option world :=
  match m with [] => Some w | (_, p) :: t => w ← rm p w; clear_loop s t w end.
Definition clear (s : space_id) (w : world) : option world :=
  let m := buffer_map_ (get_space s w) in
  w ← clear_loop s m w;
  Some (set_space s space_new (set_buffers (foldl (fun B e => delete e.2 B) (buffers w) m) w)).

(** ** Runs *)

Inductive op :=
  | Write (s : space_id) (sq off : Z) (bl : bytes) (fl : Z)
  | Finish_write (s : space_id) (sq : Z)
  | Did_read (s : space_id) (off : Z) (bl : bytes)
  | Read (s : space_id) (off len : Z)
  | Discard (s : space_id) (off len : Z)
  | Clear (s : space_id)
  | Set_max_bytes (max : Z)
  | Flush.
Definition exec (o : op) (w : world) : option (option bytes * world) :=
  match o with
  | Write s sq off bl fl => w ← write s sq off bl fl w; Some (None, w)
  | Finish_write s sq => w ← finish_write s sq w; Some (None, w)
  | Did_read s off bl => w ← did_read s off bl w; Some (None, w)
  | Read s off len => read s off len w
  | Discard s off len => w ← discard s off len w; Some (None, w)
  | Clear s => w ← clear s w; Some (None, w)
  | Set_max_bytes max => w ← set_max_bytes max w; Some (None, w)
  | Flush => w ← flush w; Some (None, w)
  end.
End BufferCache.
