(* ===== verification/BufferCacheSpec.v ===== *)
(** * What the buffer cache promises: data is what was stored, and no pointer dangles

    [T s x] is the byte that was stored last at the offset [x] of the space [s].  Every
    buffer shows it, whatever is discarded, trimmed, finished or flushed. *)
From stdpp Require Import base numbers list gmap.
From Stdlib Require Import ZArith Lia ZifyBool.
From S2P Require Import Prelude BufferCache.
Import BufferCache.

Module BufferCacheSpec.
Local Open Scope Z_scope.
Abbreviation zlen l := (Z.of_nat (List.length l)).
Abbreviation map_of s w := (buffer_map_ (get_space s w)).
Abbreviation writing_of s w := (writing_ (get_space s w)).

(** Buffers of a map from [lo] on: in order, not empty, without overlap. *)
Fixpoint msorted (B : gmap ptr Buffer) (lo : Z) (m : list (Z * ptr)) : Prop :=
  match m with
  | [] => True
  | (k, p) :: t => exists b, B !! p = Some b /\ offset b = k /\ lo <= k /\ 0 < length b /\ k + length b < 2 ^ 32 /\ msorted B (k + length b) t
  end.

Definition shows (T : space_id -> Z -> option Z) (b : Buffer) : Prop :=
  length b <= zlen (data b) /\ forall i, 0 <= i < length b -> T (space b) (offset b + i) = data b !! Z.to_nat i.

Record inv (T : space_id -> Z -> option Z) (w : world) : Prop := {
  v_sorted : forall s, msorted (buffers w) 0 (map_of s w);
  v_ptr : forall s k p, (k, p) ∈ map_of s w -> exists b, buffers w !! p = Some b /\ space b = s /\ offset b = k;
  v_own : forall p b, buffers w !! p = Some b -> (offset b, p) ∈ map_of (space b) w;
  v_lru : NoDup (lru_ w) /\ forall p, p ∈ lru_ w <-> is_Some (buffers w !! p);
  v_writing : forall s, NoDup (writing_of s w) /\ forall p, p ∈ writing_of s w <-> exists b, buffers w !! p = Some b /\ space b = s /\ is_clean b = false;
  v_data : forall p b, buffers w !! p = Some b -> shows T b;
  v_next : forall p, is_Some (buffers w !! p) -> (p < next_ptr w)%nat;
}.

Lemma get_set_space s s' x w : get_space s' (set_space s x w) = if decide (s = s') then x else get_space s' w.
Proof. unfold get_space, set_space. cbn [spaces]. destruct (decide (s = s')) as [->|Hne]; [by rewrite lookup_insert_eq|]. by rewrite lookup_insert_ne. Qed.

Lemma inv_init T max : inv T (cache_new max).
Proof.
  constructor; cbn; try done.
  - intros s k p H. by apply not_elem_of_nil in H.
  - split; [constructor|]. intros p. split; [by intros ?%not_elem_of_nil|by intros [? ?]].
  - intros s. split; [constructor|]. intros p. split; [by intros ?%not_elem_of_nil|by intros (? & ? & _)].
  - by intros p [? ?].
Qed.

(** ** Maps *)

Lemma msorted_weaken B lo lo' m : lo' <= lo -> msorted B lo m -> msorted B lo' m.
Proof. destruct m as [|[k p] m]; [done|]. cbn. intros ? (b & ? & ? & ? & ?). exists b. split_and!; try done; [lia|tauto..]. Qed.

(** Buffers behind the map do not matter. *)
Lemma msorted_ext B B' lo m : (forall p k, (k, p) ∈ m -> B' !! p = B !! p) -> msorted B lo m -> msorted B' lo m.
Proof.
  revert lo. induction m as [|[k p] m IH]; intros lo H; [done|]. cbn. intros (b & Hb & ? & ? & ? & ? & Hm). exists b. split_and!; try done; [rewrite <- Hb; apply (H p k); set_solver|]. apply IH; [|done]. intros q j Hq. apply (H q j). set_solver.
Qed.

Lemma msorted_filter B lo m p : msorted B lo m -> msorted (delete p B) lo (filter (fun e => e.2 <> p) m).
Proof.
  revert lo. induction m as [|[k q] m IH]; intros lo; [done|]. cbn [msorted]. intros (b & Hb & Ho & Hlo & Hl & He & Hm). destruct (decide (q = p)) as [->|Hne].
  - rewrite filter_cons_False by (cbn; tauto). eapply msorted_weaken; [|by apply IH]. lia.
  - rewrite filter_cons_True by done. cbn [msorted]. exists b. split_and!; try done; [by rewrite lookup_delete_ne|]. by apply IH.
Qed.

Lemma msorted_entries B lo m k p : msorted B lo m -> (k, p) ∈ m -> exists b, B !! p = Some b /\ offset b = k /\ lo <= k /\ 0 < length b /\ k + length b < 2 ^ 32.
Proof.
  revert lo. induction m as [|[j q] m IH]; intros lo; [by intros _ ?%not_elem_of_nil|]. cbn. intros (b & Hb & Ho & Hlo & Hl & He & Hm) [[= -> ->]|Hin]%elem_of_cons; [by exists b|]. destruct (IH _ Hm Hin) as (b' & ? & ? & ? & ? & ?). exists b'. split_and!; (done || lia).
Qed.

(** An offset has one buffer. *)
Lemma msorted_inj B lo m k p q : msorted B lo m -> (k, p) ∈ m -> (k, q) ∈ m -> p = q.
Proof.
  revert lo. induction m as [|[j r] m IH]; intros lo; [by intros _ ?%not_elem_of_nil|]. cbn. intros (b & Hb & Ho & Hlo & Hl & He & Hm) Hp Hq. apply elem_of_cons in Hp, Hq. destruct Hp as [Hp|Hp], Hq as [Hq|Hq]; simplify_eq; try done.
  - destruct (msorted_entries _ _ _ _ _ Hm Hq) as (? & _ & _ & ? & _). lia.
  - destruct (msorted_entries _ _ _ _ _ Hm Hp) as (? & _ & _ & ? & _). lia.
  - by eapply IH.
Qed.

Lemma filter_id {A} (P : A -> Prop) `{forall x, Decision (P x)} l : Forall P l -> filter P l = l.
Proof. induction 1; [done|]. rewrite filter_cons_True by done. by f_equal. Qed.

Lemma cache_filter_ext {A} (P Q : A -> Prop) `{forall x, Decision (P x)} `{forall x, Decision (Q x)} l : Forall (fun x => P x <-> Q x) l -> filter P l = filter Q l.
Proof. induction 1 as [|x l Hx _ IH]; [done|]. rewrite !filter_cons, IH. by repeat case_decide; try tauto. Qed.

(** ** A buffer goes *)

Record removed (p : ptr) (w w' : world) : Prop := {
  r_buffers : buffers w' = delete p (buffers w);
  r_next : next_ptr w' = next_ptr w;
  r_lru : p :: lru_ w' ≡ₚ lru_ w;
  r_map : forall s, map_of s w' = filter (fun e => e.2 <> p) (map_of s w);
  r_writing : forall s, writing_of s w' = filter (.≠ p) (writing_of s w);
}.

Lemma inv_removed T p w w' : inv T w -> removed p w w' -> inv T w'.
Proof.
  intros [I1 I2 I3 [I4 I4'] I5 I6 I7] [Rb Rn Rl Rm Rw]. rewrite <- Rl in I4. apply NoDup_cons in I4 as [Hp Hnd]. constructor; rewrite ?Rb, ?Rn.
  - intros s. rewrite Rm. by apply msorted_filter.
  - intros s k q. rewrite Rm, list_elem_of_filter. intros [Hne Hq]. rewrite lookup_delete_ne by (cbn in Hne; congruence). by apply I2.
  - intros q b [Hne Hq]%lookup_delete_Some. rewrite Rm, list_elem_of_filter. split; [cbn; congruence|]. by apply I3.
  - split; [done|]. intros q. specialize (I4' q). rewrite <- Rl, elem_of_cons in I4'. destruct (decide (q = p)) as [->|Hne]; [rewrite lookup_delete_eq; split; [done|by intros [? ?]]|]. rewrite lookup_delete_ne by done. tauto.
  - intros s. rewrite Rw. destruct (I5 s) as [H1 H2]. split; [by apply NoDup_filter|]. intros q. rewrite list_elem_of_filter, H2. split.
    + intros [Hne (b & Hb & ?)]. exists b. by rewrite lookup_delete_ne.
    + intros (b & [Hne Hb]%lookup_delete_Some & ?). split; [congruence|]. by exists b.
  - intros q b [_ Hq]%lookup_delete_Some. by apply (I6 q).
  - intros q [b [_ Hq]%lookup_delete_Some]. apply I7. by exists b.
Qed.

(** Only the space of the buffer changes. *)
Lemma removed_intro T p b w w' : inv T w -> buffers w !! p = Some b -> buffers w' = delete p (buffers w) -> next_ptr w' = next_ptr w -> p :: lru_ w' ≡ₚ lru_ w ->
  (forall s, s <> space b -> get_space s w' = get_space s w) -> map_of (space b) w' = filter (fun e => e.2 <> p) (map_of (space b) w) ->
  (writing_of (space b) w' = filter (.≠ p) (writing_of (space b) w)) -> removed p w w'.
Proof.
  intros [I1 I2 I3 I4 I5 I6 I7] Hb Eb En El Es Em Ew. constructor; try done; intros s; (destruct (decide (s = space b)) as [->|Hne]; [done|]); rewrite Es by done; symmetry; apply filter_id, Forall_forall.
  - intros [k q] Hq E. cbn in E. subst q. destruct (I2 _ _ _ Hq) as (b' & ? & ? & _). congruence.
  - intros q Hq ->. apply I5 in Hq as (b' & ? & ? & _). congruence.
Qed.

(** The entry of a buffer, by its offset and by its pointer. *)
Lemma cache_erase_filter T w p b : inv T w -> buffers w !! p = Some b -> map_erase (offset b) (map_of (space b) w) = filter (fun e => e.2 <> p) (map_of (space b) w).
Proof.
  intros Hi Hb. unfold map_erase. apply cache_filter_ext, Forall_forall. intros [k q] Hq. cbn. pose proof (v_own _ _ Hi _ _ Hb) as Hown. split.
  - intros Hne ->. destruct (v_ptr _ _ Hi _ _ _ Hq) as (b' & ? & _ & ?). congruence.
  - intros Hne ->. apply Hne. by eapply msorted_inj; [apply (v_sorted _ _ Hi)|..].
Qed.

Lemma map_find_ptr T w p b : inv T w -> buffers w !! p = Some b -> map_find (offset b) (map_of (space b) w) = Some p.
Proof.
  intros Hi Hb. unfold map_find. pose proof (v_own _ _ Hi _ _ Hb) as Hown. destruct (filter (fun e : Z * ptr => e.1 = offset b) (map_of (space b) w)) as [|[k q] l] eqn:E.
  - assert ((offset b, p) ∈ filter (fun e : Z * ptr => e.1 = offset b) (map_of (space b) w)) as H by (by apply list_elem_of_filter). rewrite E in H. by apply not_elem_of_nil in H.
  - assert ((k, q) ∈ filter (fun e : Z * ptr => e.1 = offset b) (map_of (space b) w)) as [Hk Hq]%list_elem_of_filter by (rewrite E; set_solver). cbn in *. subst k. f_equal. by eapply msorted_inj; [apply (v_sorted _ _ Hi)|..].
Qed.

(** The rest of a removal is [erase_buffer]. *)
Lemma erase_ok T p b w w1 : inv T w -> buffers w !! p = Some b -> buffers w1 = buffers w -> next_ptr w1 = next_ptr w -> p :: lru_ w1 ≡ₚ lru_ w ->
  (forall s, map_of s w1 = map_of s w) -> (forall s, writing_of s w1 = if decide (s = space b) then filter (.≠ p) (writing_of s w) else writing_of s w) ->
  removed p w (erase_buffer (space b) (offset b) w1).
Proof.
  intros Hi Hb Eb En El Em Ew. unfold erase_buffer. rewrite Em, (map_find_ptr T w p b Hi Hb). apply (removed_intro T p b); try done.
  - cbn. by rewrite Eb.
  - intros s Hs. rewrite get_set_space, decide_False by done. change (get_space s (set_buffers (delete p (buffers w1)) w1)) with (get_space s w1). specialize (Em s). specialize (Ew s). rewrite decide_False in Ew by done. destruct (get_space s w1), (get_space s w). cbn in *. by subst.
  - rewrite get_set_space, decide_True by done. cbn [buffer_map_]. by eapply cache_erase_filter.
  - rewrite get_set_space, decide_True by done. cbn [writing_]. by rewrite Ew, decide_True.
Qed.

Lemma inv_lru T l cur w : inv T w -> l ≡ₚ lru_ w -> inv T (set_lru l cur w).
Proof. intros [I1 I2 I3 I4 I5 I6 I7] Hl. constructor; cbn [set_lru buffers lru_ next_ptr]; try done. rewrite Hl. destruct I4 as [I4 I4']. split; [done|]. intros p. by rewrite Hl. Qed.

Lemma inv_same T w w' : inv T w -> buffers w' = buffers w -> next_ptr w' = next_ptr w -> (forall s, get_space s w' = get_space s w) -> lru_ w' = lru_ w -> inv T w'.
Proof.
  intros [I1 I2 I3 I4 I5 I6 I7] E1 E2 E3 E4. constructor; rewrite ?E1, ?E2, ?E4; try done.
  - intros s. rewrite E3. apply I1.
  - intros s. rewrite E3. apply I2.
  - intros p b Hb. rewrite E3. by apply I3.
  - intros s. rewrite E3. apply I5.
Qed.

Lemma lru_buffer T w p : inv T w -> p ∈ lru_ w -> exists b, buffers w !! p = Some b.
Proof. intros Hi Hp. by apply (proj2 (v_lru _ _ Hi)) in Hp. Qed.

Lemma clean_not_writing T w p b s : inv T w -> buffers w !! p = Some b -> is_clean b = true -> filter (.≠ p) (writing_of s w) = writing_of s w.
Proof. intros Hi Hb Hc. apply filter_id, Forall_forall. intros q Hq ->. apply (proj2 (v_writing _ _ Hi s)) in Hq as (b' & ? & _ & ?). congruence. Qed.

(** ** Trimming *)

Lemma trim_loop_ok T n : forall k w, inv T w -> (k <= List.length (lru_ w))%nat -> (List.length (lru_ w) * S (List.length (lru_ w)) + (List.length (lru_ w) - k) < n)%nat ->
  exists w', trim_loop n (k, w) = Some w' /\ inv T w' /\ forall s, writing_of s w' = writing_of s w.
Proof.
  induction n as [|n IH]; intros k w Hi Hk Hn; [lia|]. cbn [trim_loop]. unfold trim_step. destruct ((max_bytes_ w <? cur_bytes_ w) && (k <? List.length (lru_ w))%nat) eqn:E; [|bind; by exists w]. apply andb_prop in E as [_ E%Nat.ltb_lt].
  destruct (last (lru_ w)) as [p|] eqn:El; [|apply last_None in El; rewrite El in E; cbn in E; lia]. apply last_Some in El as [l El]. destruct (lru_buffer T w p Hi) as [b Hb]; [rewrite El; set_solver|]. bind. rewrite Hb. bind. rewrite El, removelast_last. assert (List.length (lru_ w) = S (List.length l)) as Hlen by (rewrite El, length_app; cbn; lia). assert (p :: l ≡ₚ lru_ w) as Hp by (rewrite El; apply Permutation_cons_append). destruct (is_clean b) eqn:Ec; cbn [negb]; bind.
  - set (w1 := set_lru l (cur_bytes_ w -64 length b) w). pose proof (clean_not_writing T w p b (space b) Hi Hb Ec) as Hcw. assert (removed p w (erase_buffer (space b) (offset b) w1)) as Hr. { apply (erase_ok T p b w w1); try done. intros s. case_decide as Hs; [subst s; by rewrite Hcw|done]. }
    pose proof (inv_removed T p w _ Hi Hr) as Hi'. destruct Hr as [_ _ Rl _ Rw]. assert (List.length (lru_ (erase_buffer (space b) (offset b) w1)) = List.length l) as Hl by (apply Permutation_length in Rl; cbn [List.length] in Rl; lia). destruct (IH O (erase_buffer (space b) (offset b) w1) Hi') as (w' & E' & H' & Hw'); [lia|rewrite Hl; nia|]. exists w'. split_and!; [done..|]. intros s. rewrite Hw', Rw. by eapply clean_not_writing.
  - pose proof (inv_lru T (p :: l) (cur_bytes_ w) w Hi Hp) as Hi'. destruct (IH (S k) _ Hi') as (w' & E' & H' & Hw'); [cbn [set_lru lru_ List.length]; lia|cbn [set_lru lru_ List.length]; lia|]. by exists w'.
Qed.

Lemma trim_ok T w : inv T w -> exists w', trim w = Some w' /\ inv T w' /\ forall s, writing_of s w' = writing_of s w.
Proof. intros Hi. apply (trim_loop_ok T); [done|lia|nia]. Qed.

Lemma lru_erase_ok T w p b : inv T w -> buffers w !! p = Some b -> exists l, lru_erase p (lru_ w) = Some l /\ p :: l ≡ₚ lru_ w.
Proof.
  intros Hi Hb. assert (p ∈ lru_ w) as Hp by (apply (v_lru _ _ Hi); by exists b). unfold lru_erase. rewrite decide_True by done. eexists. split; [reflexivity|]. symmetry. by apply remove_one_perm.
Qed.

(** ** Flushing *)

Lemma flush_one_ok T w p l : inv T w -> lru_ w = l ++ [p] -> exists w', flush_one p w = Some w' /\ inv T w' /\ lru_ w' = l.
Proof.
  intros Hi El. destruct (lru_buffer T w p Hi) as [b Hb]; [rewrite El; set_solver|]. unfold flush_one. rewrite Hb. bind. rewrite El, removelast_last. set (w1 := set_lru l (cur_bytes_ w -64 length b) w). set (w2 := if is_writing b then _ else w1). eexists. split; [reflexivity|]. assert (lru_ w2 = l) as El2 by (unfold w2; by destruct (is_writing b)).
  assert (removed p w (erase_buffer (space b) (offset b) w2)) as Hr.
  { apply (erase_ok T p b); try done.
    - unfold w2. by destruct (is_writing b).
    - unfold w2. by destruct (is_writing b).
    - rewrite El2, El. apply Permutation_cons_append.
    - intros s. unfold w2. destruct (is_writing b); [|done]. rewrite get_set_space. case_decide as Hs; [|done]. by subst s.
    - intros s. unfold w2, is_writing. destruct (is_clean b) eqn:Ec; cbn [negb]; [case_decide; [symmetry; change (writing_of s w1) with (writing_of s w); by eapply clean_not_writing|done]|]. rewrite get_set_space. destruct (decide (space b = s)) as [<-|Hs]; [by rewrite decide_True|by rewrite decide_False]. }
  split; [by eapply inv_removed|]. unfold erase_buffer. by destruct (map_find _ _).
Qed.

Lemma flush_ok T w : inv T w -> exists w', flush w = Some w' /\ inv T w' /\ lru_ w' = [].
Proof.
  unfold flush. remember (lru_ w) as l eqn:El. revert w El. induction l as [|p l IH] using rev_ind; intros w El Hi; [by exists w|]. rewrite reverse_app. cbn [reverse rev_append app flush_loop]. destruct (flush_one_ok T w p l Hi (eq_sym El)) as (w1 & -> & Hi1 & El1). bind. destruct (IH w1 (eq_sym El1) Hi1) as (w' & E' & ?). by exists w'.
Qed.

(** ** Discarding *)

(** The world in which the map of the space [s] is [m]. *)
Definition view (s : space_id) (m : list (Z * ptr)) (w : world) : world := set_space s (mk_space m (writing_of s w)) w.

Lemma view_map s m w : map_of s (view s m w) = m.
Proof. unfold view. by rewrite get_set_space, decide_True. Qed.
Lemma view_writing s s' m w : writing_of s' (view s m w) = writing_of s' w.
Proof. unfold view. rewrite get_set_space. by case_decide; subst. Qed.
Lemma view_other s s' m w : s <> s' -> get_space s' (view s m w) = get_space s' w.
Proof. intros. unfold view. by rewrite get_set_space, decide_False. Qed.

Lemma msorted_mid B lo a k p t : msorted B lo (a ++ (k, p) :: t) -> Forall (fun e => exists b, B !! e.2 = Some b /\ offset b = e.1 /\ 0 < length b /\ e.1 + length b <= k) a /\ msorted B k ((k, p) :: t).
Proof.
  revert lo. induction a as [|[j q] a IH]; intros lo; cbn [app].
  - cbn [msorted]. intros (b & ? & ? & ? & ? & ? & ?). split; [done|]. exists b. split_and!; (done || lia).
  - cbn [msorted]. intros (b & Hb & Ho & Hlo & Hl & He & Hm). destruct (IH _ Hm) as [H1 H2]. split; [|done]. constructor; [|done]. exists b. cbn. split_and!; try done. destruct a as [|[j' q'] a]; cbn in Hm; [destruct Hm as (? & _ & _ & ? & _); lia|]. destruct Hm as (b' & ? & ? & ? & _). apply Forall_cons in H1 as [(b'' & ? & ? & ? & ?) _]. cbn in *. lia.
Qed.

(** The pointer of an entry is in no other entry. *)
Lemma msorted_other B lo a k p t e : msorted B lo (a ++ (k, p) :: t) -> e ∈ a ++ t -> e.2 <> p.
Proof.
  intros H Hin Ep. destruct (msorted_mid _ _ _ _ _ _ H) as [Ha (b & Hb & Ho & _ & Hl & _ & Ht)]. apply elem_of_app in Hin as [Hin|Hin].
  - rewrite Forall_forall in Ha. destruct (Ha e Hin) as (b' & ? & ? & ? & ?). rewrite Ep in *. simplify_eq. lia.
  - destruct e as [j q]. cbn in Ep. subst q. destruct (msorted_entries _ _ _ _ _ Ht Hin) as (b' & ? & ? & ? & _). simplify_eq. lia.
Qed.

Lemma msorted_shrink B lo m p b n : B !! p = Some b -> 0 < n <= length b -> msorted B lo m -> msorted (<[p := set_length n b]> B) lo m.
Proof.
  intros Hb Hn. revert lo. induction m as [|[k q] m IH]; intros lo; [done|]. cbn [msorted]. intros (b' & Hb' & Ho & Hlo & Hl & He & Hm). specialize (IH _ Hm). destruct (decide (p = q)) as [<-|Hne].
  - assert (b' = b) as -> by congruence. exists (set_length n b). rewrite lookup_insert_eq. cbn [set_length offset length]. split_and!; try done; try lia. eapply msorted_weaken; [|exact IH]. lia.
  - exists b'. rewrite lookup_insert_ne by done. by split_and!.
Qed.

(** A buffer loses its end. *)
Lemma inv_shrink T w p b n : inv T w -> buffers w !! p = Some b -> 0 < n <= length b -> inv T (set_buffers (<[p := set_length n b]> (buffers w)) w).
Proof.
  intros [I1 I2 I3 [I4 I4'] I5 I6 I7] Hb Hn. assert (forall q c, <[p := set_length n b]> (buffers w) !! q = Some c -> exists c0, buffers w !! q = Some c0 /\ space c = space c0 /\ offset c = offset c0 /\ is_clean c = is_clean c0 /\ data c = data c0 /\ length c <= length c0) as Hl.
  { intros q c. destruct (decide (p = q)) as [<-|Hne]; [rewrite lookup_insert_eq; intros [= <-]; exists b; cbn; split_and!; (done || lia)|]. rewrite lookup_insert_ne by done. intros. exists c. split_and!; (done || lia). }
  assert (forall q c0, buffers w !! q = Some c0 -> exists c, <[p := set_length n b]> (buffers w) !! q = Some c /\ space c = space c0 /\ offset c = offset c0 /\ is_clean c = is_clean c0) as Hr.
  { intros q c0. destruct (decide (p = q)) as [<-|Hne]; [rewrite Hb, lookup_insert_eq; intros [= <-]; by eexists|]. rewrite lookup_insert_ne by done. intros. by exists c0. }
  constructor; cbn [set_buffers buffers lru_ next_ptr].
  - intros s. apply msorted_shrink; [done..|apply I1].
  - intros s k q Hq. destruct (I2 _ _ _ Hq) as (c0 & Hc & ? & ?). destruct (Hr _ _ Hc) as (c & ? & ? & ? & _). exists c. split_and!; congruence.
  - intros q c Hc. destruct (Hl _ _ Hc) as (c0 & Hc0 & -> & -> & _). by apply I3.
  - split; [done|]. intros q. rewrite I4'. split; [intros [c0 Hc]; destruct (Hr _ _ Hc) as (c & -> & _); by eexists|intros [c Hc]; destruct (Hl _ _ Hc) as (c0 & -> & _); by eexists].
  - intros s. destruct (I5 s) as [H1 H2]. split; [done|]. intros q. change (get_space s (set_buffers ?B w)) with (get_space s w). rewrite H2. split; [intros (c0 & Hc & ? & ?); destruct (Hr _ _ Hc) as (c & ? & ? & _ & ?); exists c|intros (c & Hc & ? & ?); destruct (Hl _ _ Hc) as (c0 & ? & ? & _ & ? & _); exists c0]; split_and!; congruence.
  - intros q c Hc. destruct (Hl _ _ Hc) as (c0 & Hc0 & E1 & E2 & _ & E3 & Hle). destruct (I6 _ _ Hc0) as [H1 H2]. unfold shows. rewrite E1, E2, E3. split; [lia|]. intros j Hj. apply H2. lia.
  - intros q [c Hc]. destruct (Hl _ _ Hc) as (c0 & Hc0 & _). apply I7. by exists c0.
Qed.

Definition ends_by (off : Z) (w : world) (e : Z * ptr) : Prop := exists b, buffers w !! e.2 = Some b /\ e.1 + length b <= off.
(** The buffers of [m] keep off the range. *)
Definition avoids (off e : Z) (w : world) (m : list (Z * ptr)) : Prop := forall k p b, (k, p) ∈ m -> buffers w !! p = Some b -> k + length b <= off \/ e <= k.

Lemma discard_remove T s w pre k p t b : inv T (view s (pre ++ (k, p) :: t) w) -> buffers w !! p = Some b -> space b = s ->
  exists w1, rm p (if is_writing b then set_space s (mk_space (map_of s w) (list_remove p (writing_of s w))) w else w) = Some w1 /\
    inv T (view s (pre ++ t) (set_buffers (delete p (buffers w1)) w1)) /\ buffers w1 = buffers w.
Proof.
  intros Hi Hb Hs. set (w0 := if is_writing b then _ else w). assert (buffers w0 = buffers w /\ lru_ w0 = lru_ w /\ next_ptr w0 = next_ptr w) as (E1 & E2 & E3) by (unfold w0; by destruct (is_writing b)). destruct (lru_erase_ok T _ p b Hi Hb) as (l & El & Hl). change (lru_ (view s (pre ++ (k, p) :: t) w)) with (lru_ w) in El, Hl. unfold rm. rewrite E1, Hb. bind. rewrite E2. rewrite El. bind. eexists. split; [reflexivity|]. split; [|exact E1].
  set (w1 := set_lru l _ w0). eapply inv_removed; [exact Hi|]. apply (removed_intro T p b); try done.
  - cbn. by rewrite E1.
  - intros s' Hs'. rewrite !view_other by congruence. unfold w1, w0. cbn. destruct (is_writing b); [|done]. change (get_space s' (set_space s (mk_space (map_of s w) (list_remove p (writing_of s w))) w) = get_space s' w). by rewrite get_set_space, decide_False by congruence.
  - rewrite Hs, !view_map. pose proof (v_sorted _ _ Hi s) as Hm. rewrite view_map in Hm. rewrite filter_app, filter_cons_False by (cbn; tauto). rewrite !filter_id; [done|apply Forall_forall; intros e He; eapply msorted_other; [exact Hm|set_solver]..].
  - rewrite !view_writing. change (writing_of (space b) (set_buffers (delete p (buffers w1)) w1)) with (writing_of (space b) w0). pose proof (clean_not_writing T _ p b (space b) Hi Hb) as Hc. rewrite view_writing in Hc. unfold w0, is_writing. destruct (is_clean b); cbn [negb]; [by rewrite Hc|]. rewrite Hs. by rewrite get_set_space, decide_True.
Qed.

Lemma cache_discard_loop_ok T s off e m : 0 <= off <= e -> e < 2 ^ 32 -> forall pre w, inv T (view s (pre ++ m) w) -> Forall (ends_by off w) pre ->
  exists m' w', discard_loop s off e m w = Some (m', w') /\ inv T (view s (pre ++ m') w') /\ avoids off e w' (pre ++ m').
Proof.
  intros Hoff He. induction m as [|[k p] m IH]; intros pre w Hi Hpre.
  - exists [], w. split_and!; [done..|]. rewrite app_nil_r. intros k p b Hin Hb. left. rewrite Forall_forall in Hpre. destruct (Hpre _ Hin) as (b' & Hb' & ?). cbn in *. by simplify_eq.
  - pose proof (v_sorted _ _ Hi s) as Hm. rewrite view_map in Hm. change (buffers (view s (pre ++ (k, p) :: m) w)) with (buffers w) in Hm. destruct (msorted_mid _ _ _ _ _ _ Hm) as [Ha (b & Hb & Ho & _ & Hl & Hend & Ht)]. cbn [discard_loop]. rewrite Hb. bind. rewrite Ho. assert (0 <= k) as Hk. { destruct (msorted_entries _ _ _ k p Hm) as (? & _ & _ & ? & _); [set_solver|lia]. }
    assert (space b = s) as Hs. { destruct (v_ptr _ _ Hi s k p) as (b' & Hb' & ? & _); [rewrite view_map; set_solver|]. change (buffers (view s (pre ++ (k, p) :: m) w)) with (buffers w) in Hb'. congruence. }
    rewrite (u32_small (k + length b)) by lia. destruct (Z.leb_spec e k); [|destruct (Z.leb_spec (k + length b) off); [|destruct (Z.ltb_spec k off)]].
    + exists ((k, p) :: m), w. split_and!; [done..|]. intros j q c [Hin|Hin]%elem_of_app Hc; [left; rewrite Forall_forall in Hpre; destruct (Hpre _ Hin) as (b' & Hb' & ?); cbn in *; by simplify_eq|]. right. apply elem_of_cons in Hin as [[= -> ->]|Hin]; [done|]. destruct (msorted_entries _ _ _ _ _ Ht Hin) as (? & _ & _ & ? & _). lia.
    + destruct (IH (pre ++ [(k, p)]) w) as (m' & w' & E & Ha1 & Ha2); [by rewrite <- app_assoc|apply Forall_app; split; [done|]; constructor; [|done]; by exists b|]. rewrite E. bind. do 2 eexists. split; [reflexivity|]. by rewrite <- app_assoc in Ha1, Ha2.
    + rewrite (u32_small (off - k)) by lia. set (w1 := set_buffers _ w). destruct (IH (pre ++ [(k, p)]) w1) as (m' & w' & E & Ha1 & Ha2).
      * rewrite <- app_assoc. by apply (inv_shrink T (view s (pre ++ (k, p) :: m) w) p b (off - k)); [..|lia].
      * apply Forall_app. split; [|constructor; [|done]; exists (set_length (off - k) b); cbn; rewrite lookup_insert_eq; split; [done|lia]]. rewrite Forall_forall in Hpre |- *. intros x Hx. destruct (Hpre x Hx) as (b' & Hb' & ?). exists b'. split; [|done]. cbn. rewrite lookup_insert_ne; [done|]. intros ->. eapply msorted_other; [exact Hm| |reflexivity]. set_solver.
      * rewrite E. bind. do 2 eexists. split; [reflexivity|]. by rewrite <- app_assoc in Ha1, Ha2.
    + destruct (discard_remove T s w pre k p m b Hi Hb Hs) as (w1 & E1 & Hi1 & Eb1). rewrite E1. bind. apply IH; [done|]. rewrite Forall_forall in Hpre |- *. intros x Hx. destruct (Hpre x Hx) as (b' & Hb' & ?). exists b'. split; [|done]. cbn. rewrite Eb1, lookup_delete_ne; [done|]. intros ->. eapply msorted_other; [exact Hm| |reflexivity]. set_solver.
Qed.

Lemma view_id s w T : inv T w -> inv T (view s (map_of s w) w).
Proof. intros Hi. apply (inv_same T w); try done. intros s'. unfold view. rewrite get_set_space. case_decide; [|done]. subst. by destruct (get_space s' w). Qed.

Lemma cache_discard_ok T s off len w : inv T w -> 0 <= off -> 0 <= len -> off + len < 2 ^ 32 ->
  exists w', discard s off len w = Some w' /\ inv T w' /\ avoids off (off + len) w' (map_of s w').
Proof.
  intros Hi Ho Hl He. unfold discard. rewrite u32_small by lia. destruct (cache_discard_loop_ok T s off (off + len) (map_of s w) ltac:(lia) He [] w) as (m' & w' & E & H1 & H2); [by apply view_id|done|]. rewrite E. bind. eexists. split; [reflexivity|]. split; [done|]. fold (view s m' w'). rewrite view_map. exact H2.
Qed.

(** ** New buffers *)

(** Bytes are stored. *)
Definition store (s : space_id) (off : Z) (bl : bytes) (T : space_id -> Z -> option Z) (s' : space_id) (x : Z) : option Z :=
  if bool_decide (s' = s) && (off <=? x) && (x <? off + zlen bl) then bl !! Z.to_nat (x - off) else T s' x.

Lemma next_free T w : inv T w -> buffers w !! next_ptr w = None.
Proof. intros Hi. destruct (buffers w !! next_ptr w) eqn:E; [|done]. pose proof (v_next _ _ Hi (next_ptr w) ltac:(by rewrite E)). lia. Qed.

Section Put.
Context (T : space_id -> Z -> option Z) (s : space_id) (off : Z) (bl : bytes) (w : world).
Context (Hi : inv T w) (off_ok : 0 <= off) (bl_ok : 0 < zlen bl) (end_ok : off + zlen bl < 2 ^ 32).
Context (Hav : avoids off (off + zlen bl) w (map_of s w)).

Lemma key_free k p : (k, p) ∈ map_of s w -> k <> off.
Proof using Hi off_ok bl_ok end_ok Hav.
  intros Hin ->. destruct (msorted_entries _ _ _ _ _ (v_sorted _ _ Hi s) Hin) as (b & Hb & ? & ? & ? & ?). destruct (Hav _ _ _ Hin Hb); lia.
Qed.

Lemma map_find_free : map_find off (map_of s w) = None.
Proof using Hi off_ok bl_ok end_ok Hav.
  unfold map_find. destruct (filter (fun e : Z * ptr => e.1 = off) (map_of s w)) as [|[k q] l] eqn:E; [done|]. assert ((k, q) ∈ filter (fun e : Z * ptr => e.1 = off) (map_of s w)) as [Hk Hq]%list_elem_of_filter by (rewrite E; set_solver). by apply key_free in Hq.
Qed.

Lemma elem_of_map_insert p m e : (forall k q, (k, q) ∈ m -> k <> off) -> e ∈ map_insert off p m <-> e = (off, p) \/ e ∈ m.
Proof.
  induction m as [|[k q] m IH]; intros Hm; cbn [map_insert]; [set_solver|]. destruct (Z.ltb_spec k off); [rewrite !elem_of_cons, IH by set_solver; tauto|]. rewrite (proj2 (Z.eqb_neq off k)) by (intros ->; eapply Hm; [left|done]). set_solver.
Qed.

Lemma msorted_insert p b m : buffers w !! p = None -> offset b = off -> length b = zlen bl -> avoids off (off + zlen bl) w m -> forall lo, lo <= off -> msorted (buffers w) lo m -> msorted (<[p := b]> (buffers w)) lo (map_insert off p m).
Proof using off_ok bl_ok end_ok.
  intros Hp Ho Hl. induction m as [|[k q] m IH]; intros Ha lo Hlo; cbn [map_insert].
  - intros _. cbn [msorted]. exists b. rewrite lookup_insert_eq. split_and!; (done || lia).
  - cbn [msorted]. intros (c & Hc & Hk & Hlk & Hcl & Hce & Hm). assert (p <> q) as Hne by congruence. pose proof (Ha k q c ltac:(left) Hc) as Hkq. destruct (Z.ltb_spec k off).
    + cbn [msorted]. exists c. rewrite lookup_insert_ne by done. split_and!; try done. apply IH; [|lia|done]. intros k' q' c' Hin. apply Ha. by right.
    + rewrite (proj2 (Z.eqb_neq off k)) by lia. cbn [msorted]. exists b. rewrite lookup_insert_eq. split_and!; try (done || lia). exists c. rewrite lookup_insert_ne by done. split_and!; try (done || lia). eapply msorted_ext; [|exact Hm]. intros r j Hr. destruct (msorted_entries _ _ _ _ _ Hm Hr) as (d & Hd & _). rewrite lookup_insert_ne; [done|congruence].
Qed.

(** The new buffer is in the map, in the list, and among the writes if it is one. *)
Lemma inv_added b w' : space b = s -> offset b = off -> length b = zlen bl -> data b = bl ->
  buffers w' = <[next_ptr w := b]> (buffers w) -> next_ptr w' = S (next_ptr w) -> lru_ w' = next_ptr w :: lru_ w ->
  (forall s', map_of s' w' = if decide (s = s') then map_insert off (next_ptr w) (map_of s w) else map_of s' w) ->
  (forall s', writing_of s' w' = if decide (s = s') then (if is_clean b then writing_of s w else writing_of s w ++ [next_ptr w]) else writing_of s' w) -> inv (store s off bl T) w'.
Proof using Hi off_ok bl_ok end_ok Hav.
  intros Bs Bo Bl Bd Eb En El Em Ew. pose proof (next_free T w Hi) as Hp. set (p := next_ptr w) in *. pose proof Hi as [I1 I2 I3 [I4 I4'] I5 I6 I7]. pose proof (elem_of_map_insert p (map_of s w)) as Hins. specialize (fun e => Hins e key_free). assert (forall q c, buffers w !! q = Some c -> q <> p) as Hold by (intros q c Hc ->; congruence).
  constructor; rewrite ?Eb, ?En, ?El.
  - intros s'. rewrite Em. case_decide as Hs; [by apply msorted_insert|]. eapply msorted_ext; [|apply I1]. intros q k Hq. destruct (I2 _ _ _ Hq) as (c & Hc & _). rewrite lookup_insert_ne; [done|]. by apply not_eq_sym, (Hold q c).
  - intros s' k q. rewrite Em. assert ((k, q) ∈ map_of s' w -> exists c, <[p := b]> (buffers w) !! q = Some c /\ space c = s' /\ offset c = k) as H. { intros Hq. destruct (I2 _ _ _ Hq) as (c & Hc & ?). exists c. rewrite lookup_insert_ne; [done|]. by apply not_eq_sym, (Hold q c). }
    case_decide as Hs; [|done]. rewrite Hins. intros [[= -> ->]|Hq]; [exists b; rewrite lookup_insert_eq; split_and!; congruence|]. apply H. by rewrite <- Hs.
  - intros q c. rewrite Em. destruct (decide (p = q)) as [<-|Hne]; [rewrite lookup_insert_eq; intros [= <-]; rewrite decide_True by done; rewrite Hins; left; by rewrite Bo|]. rewrite lookup_insert_ne by done. intros Hc. pose proof (I3 _ _ Hc) as Hin. case_decide as Hs; [rewrite Hins; right; by rewrite Hs|done].
  - split; [constructor; [|done]; rewrite I4'; rewrite Hp; by intros [? ?]|]. intros q. rewrite elem_of_cons, I4'. destruct (decide (p = q)) as [<-|Hne]; [rewrite lookup_insert_eq; split; [by eexists|by left]|]. rewrite lookup_insert_ne by done. split; [intros [?|?]; congruence|by right].
  - intros s'. rewrite Ew. destruct (I5 s') as [H1 H2]. assert (p ∉ writing_of s' w) as Hpw by (rewrite H2; intros (c & Hc & _); congruence). split.
    + case_decide as Hs; [|done]. subst s'. destruct (is_clean b); [done|]. apply NoDup_app. split_and!; [done|set_solver|apply NoDup_singleton].
    + intros q. destruct (decide (p = q)) as [<-|Hne].
      * rewrite lookup_insert_eq. split; [case_decide as Hs; [|done]; destruct (is_clean b) eqn:Ec; [subst s'; done|]; intros _; exists b; split_and!; congruence|]. intros (c & [= <-] & Hs & Hc). rewrite decide_True by congruence. rewrite Hc. set_solver.
      * rewrite lookup_insert_ne by done. rewrite <- H2. case_decide as Hs; [|done]. subst s'. destruct (is_clean b); [done|]. set_solver.
  - intros q c. destruct (decide (p = q)) as [<-|Hne]; [rewrite lookup_insert_eq; intros [= <-]; split; [by rewrite Bl, Bd|]; intros j Hj; unfold store; rewrite Bs, Bo, Bd, bool_decide_true, (proj2 (Z.leb_le _ _)), (proj2 (Z.ltb_lt _ _)) by (done || lia); cbn [andb]; f_equal; lia|]. rewrite lookup_insert_ne by done. intros Hc. destruct (I6 _ _ Hc) as [H1 H2]. split; [done|]. intros j Hj. rewrite <- H2 by done. unfold store. case_bool_decide as Hs; [|done]. pose proof (I3 _ _ Hc) as Hin. rewrite Hs in Hin.
    destruct (Hav _ _ _ Hin Hc); [rewrite (proj2 (Z.leb_gt _ _)) by lia; done|]. rewrite (proj2 (Z.ltb_ge _ _)) by lia. by rewrite andb_false_r.
  - intros q [c Hc]. destruct (decide (p = q)) as [<-|Hne]; [unfold p; lia|]. rewrite lookup_insert_ne in Hc by done. pose proof (I7 q ltac:(by eexists)). lia.
Qed.
End Put.

Lemma store_ok T s off bl w b (wr : bool) : inv T w -> 0 <= off -> 0 < zlen bl -> off + zlen bl < 2 ^ 32 -> avoids off (off + zlen bl) w (map_of s w) -> space b = s -> offset b = off -> length b = zlen bl -> data b = bl -> is_clean b = negb wr ->
  exists p w1, put_buffer b w = (p, w1) /\
    exists w2, add p (if wr then set_space s (mk_space (map_of s w1) (writing_of s w1 ++ [p])) w1 else w1) = Some w2 /\ inv (store s off bl T) w2.
Proof.
  intros Hi Ho Hl He Hav Bs Bo Bl Bd Bc. destruct (put_buffer b w) as [p w1] eqn:E. exists p, w1. split; [done|]. unfold put_buffer in E. rewrite Bs, Bo, (map_find_free T s off bl w) in E by done. injection E as <- Ew1.
  assert (buffers w1 = <[next_ptr w := b]> (buffers w) /\ next_ptr w1 = S (next_ptr w) /\ lru_ w1 = lru_ w) as (E1 & E2 & E3) by (by rewrite <- Ew1). assert (forall s', get_space s' w1 = if decide (s = s') then mk_space (map_insert off (next_ptr w) (map_of s w)) (writing_of s w) else get_space s' w) as E4 by (intros s'; rewrite <- Ew1, get_set_space; done). clear Ew1.
  unfold add. set (w2 := if wr then _ else w1). assert (buffers w2 = buffers w1 /\ next_ptr w2 = next_ptr w1 /\ lru_ w2 = lru_ w1) as (F1 & F2 & F3) by (unfold w2; by destruct wr).
  assert (forall s', get_space s' w2 = if decide (s = s') then mk_space (map_insert off (next_ptr w) (map_of s w)) (if wr then writing_of s w ++ [next_ptr w] else writing_of s w) else get_space s' w) as F4.
  { intros s'. unfold w2. destruct wr; [rewrite get_set_space|]; rewrite !E4; [|done]. case_decide; [by rewrite decide_True|done]. }
  rewrite F1, E1, lookup_insert_eq. bind. eexists. split; [reflexivity|]. apply (inv_added T s off bl w Hi Ho Hl He Hav b); try done; cbn [set_lru buffers next_ptr lru_]; try congruence; intros s'; change (get_space s' (set_lru ?l ?c w2)) with (get_space s' w2); rewrite F4; [by case_decide|]. rewrite Bc. case_decide; [|done]. by destruct wr.
Qed.

Lemma write_ok T s sq off bl fl w : inv T w -> 0 <= off -> 0 < zlen bl -> off + zlen bl < 2 ^ 32 -> exists w', write s sq off bl fl w = Some w' /\ inv (store s off bl T) w'.
Proof.
  intros Hi Ho Hl He. unfold write. destruct (cache_discard_ok T s off (zlen bl) w Hi Ho ltac:(lia) He) as (w1 & -> & Hi1 & Hav). bind. destruct (store_ok T s off bl w1 (mk_Buffer s STATE_WRITING (wrap 16 fl) sq off (zlen bl) bl) true Hi1 Ho Hl He Hav) as (p & w2 & -> & w3 & E3 & Hi3); [done..|]. rewrite E3. bind. destruct (trim_ok _ w3 Hi3) as (w' & E' & H' & _). by exists w'.
Qed.

Lemma did_read_ok T s off bl w : inv T w -> 0 <= off -> 0 < zlen bl -> off + zlen bl < 2 ^ 32 -> exists w', did_read s off bl w = Some w' /\ inv (store s off bl T) w'.
Proof.
  intros Hi Ho Hl He. unfold did_read. destruct (cache_discard_ok T s off (zlen bl) w Hi Ho ltac:(lia) He) as (w1 & -> & Hi1 & Hav). bind. destruct (store_ok T s off bl w1 (mk_Buffer s STATE_CLEAN 0 0 off (zlen bl) bl) false Hi1 Ho Hl He Hav) as (p & w2 & -> & w3 & E3 & Hi3); [done..|]. rewrite E3. bind. destruct (trim_ok _ w3 Hi3) as (w' & E' & H' & _). by exists w'.
Qed.

(** ** Finishing writes *)

Lemma filter_remove_one p (l : list ptr) : NoDup l -> remove_one p l = filter (.≠ p) l.
Proof.
  induction 1 as [|q l Hq Hl IH]; [done|]. cbn [remove_one]. case_decide as E; [subst; rewrite filter_cons_False by tauto; symmetry; apply filter_id, Forall_forall; intros x Hx ->; done|]. rewrite filter_cons_True by done. by rewrite IH.
Qed.

(** A write becomes clean. *)
Lemma inv_clean T w w' p b : inv T w -> buffers w !! p = Some b -> buffers w' = <[p := set_clean b]> (buffers w) -> next_ptr w' = next_ptr w -> lru_ w' = lru_ w ->
  (forall s, map_of s w' = map_of s w) -> (forall s, writing_of s w' = if decide (s = space b) then filter (.≠ p) (writing_of s w) else writing_of s w) -> inv T w'.
Proof.
  intros [I1 I2 I3 [I4 I4'] I5 I6 I7] Hb Eb En El Em Ew.
  assert (forall q c, <[p := set_clean b]> (buffers w) !! q = Some c -> exists c0, buffers w !! q = Some c0 /\ space c = space c0 /\ offset c = offset c0 /\ length c = length c0 /\ data c = data c0 /\ (q <> p -> is_clean c = is_clean c0)) as Hl.
  { intros q c. destruct (decide (p = q)) as [<-|Hne]; [rewrite lookup_insert_eq; intros [= <-]; by exists b|]. rewrite lookup_insert_ne by done. intros. by exists c. }
  assert (forall q c0, buffers w !! q = Some c0 -> exists c, <[p := set_clean b]> (buffers w) !! q = Some c /\ space c = space c0 /\ offset c = offset c0 /\ length c = length c0) as Hr.
  { intros q c0. destruct (decide (p = q)) as [<-|Hne]; [rewrite Hb, lookup_insert_eq; intros [= <-]; by eexists|]. rewrite lookup_insert_ne by done. intros. by exists c0. }
  constructor; rewrite ?Eb, ?En, ?El.
  - intros s. rewrite Em. generalize (I1 s). generalize 0 as lo. generalize (map_of s w) as m. induction m as [|[k q] m IH]; intros lo; [done|]. cbn [msorted]. intros (c & Hc & ? & ? & ? & ? & Hm). destruct (Hr _ _ Hc) as (c' & ? & ? & ? & El'). exists c'. rewrite El'. split_and!; try congruence. by apply IH.
  - intros s k q. rewrite Em. intros Hq. destruct (I2 _ _ _ Hq) as (c0 & Hc & ? & ?). destruct (Hr _ _ Hc) as (c & ? & ? & ? & _). exists c. split_and!; congruence.
  - intros q c Hc. rewrite Em. destruct (Hl _ _ Hc) as (c0 & Hc0 & -> & -> & _). by apply I3.
  - split; [done|]. intros q. rewrite I4'. split; [intros [c0 Hc]; destruct (Hr _ _ Hc) as (c & -> & _); by eexists|intros [c Hc]; destruct (Hl _ _ Hc) as (c0 & -> & _); by eexists].
  - intros s. destruct (I5 s) as [H1 H2]. rewrite Ew. split; [case_decide; [by apply NoDup_filter|done]|]. intros q. destruct (decide (q = p)) as [->|Hne].
    + rewrite lookup_insert_eq. split; [|by intros (c & [= <-] & _ & [=])]. case_decide as Hs; [rewrite list_elem_of_filter; tauto|]. rewrite H2. intros (c & ? & ? & _). congruence.
    + rewrite lookup_insert_ne by done. rewrite <- H2. case_decide; [rewrite list_elem_of_filter; tauto|done].
  - intros q c Hc. destruct (Hl _ _ Hc) as (c0 & Hc0 & E1 & E2 & E3 & E4 & _). destruct (I6 _ _ Hc0) as [H1 H2]. unfold shows. by rewrite E1, E2, E3, E4.
  - intros q [c Hc]. destruct (Hl _ _ Hc) as (c0 & Hc0 & _). apply I7. by exists c0.
Qed.

Lemma finish_loop_ok T s sq l : forall w, inv T w -> NoDup l -> Forall (fun p => p ∈ writing_of s w) l -> exists w', finish_loop s sq l w = Some w' /\ inv T w'.
Proof.
  induction l as [|p l IH]; intros w Hi Hnd Hl; [by exists w|]. apply NoDup_cons in Hnd as [Hp Hnd]. apply Forall_cons in Hl as [Hpw Hl]. cbn [finish_loop]. destruct (v_writing _ _ Hi s) as [Hwn Hw]. pose proof Hpw as (b & Hb & Hs & Hc)%Hw. rewrite Hb. bind. destruct (negb (seq b =? sq)); [by apply IH|].
  rewrite filter_remove_one by done. set (w1 := set_space s _ w). assert (forall s', map_of s' w1 = map_of s' w) as Em by (intros s'; unfold w1; rewrite get_set_space; by case_decide; subst). assert (forall s', writing_of s' w1 = if decide (s' = space b) then filter (.≠ p) (writing_of s' w) else writing_of s' w) as Ew by (intros s'; unfold w1; rewrite get_set_space, Hs; destruct (decide (s = s')) as [<-|]; [by rewrite decide_True|by rewrite decide_False]).
  destruct (lru_erase_ok T w p b Hi Hb) as (ll & El & Hll). assert (forall w2, inv T w2 -> (forall s', writing_of s' w2 = writing_of s' w1) -> exists w', finish_loop s sq l w2 = Some w' /\ inv T w') as Hgo.
  { intros w2 Hi2 Hw2. apply IH; [done..|]. rewrite Forall_forall in Hl |- *. intros q Hq. rewrite Hw2, Ew, decide_True by done. apply list_elem_of_filter. split; [by intros ->|by apply Hl]. }
  destruct (is_nocache b).
  - unfold rm. change (buffers w1) with (buffers w). rewrite Hb. bind. change (lru_ w1) with (lru_ w). rewrite El. do 2 bind. set (w2 := set_lru ll _ w1). assert (removed p w (erase_buffer (space b) (offset b) w2)) as Hr by (by apply (erase_ok T p b w w2)). rewrite Hs in Hr. apply Hgo; [by eapply inv_removed|]. intros s'. rewrite (r_writing _ _ _ Hr), Ew. case_decide as Hs'; [done|]. apply filter_id, Forall_forall. intros q Hq ->. apply (v_writing _ _ Hi) in Hq as (b' & ? & ? & _). congruence.
  - unfold touch. set (w2 := set_buffers _ w1). change (lru_ w2) with (lru_ w). rewrite El. do 2 bind. assert (inv T w2) as Hi2 by (by apply (inv_clean T w w2 p b)). destruct (trim_ok T (set_lru (p :: ll) (cur_bytes_ w2) w2)) as (w3 & E3 & Hi3 & Hw3); [by apply inv_lru|]. rewrite E3. bind. apply Hgo; [done|]. intros s'. by rewrite Hw3.
Qed.

Lemma finish_write_ok T s sq w : inv T w -> exists w', finish_write s sq w = Some w' /\ inv T w'.
Proof. intros Hi. apply finish_loop_ok; [done|apply (v_writing _ _ Hi)|by apply Forall_forall]. Qed.

(** ** Reading *)

Lemma read_candidate_ok T s off w : inv T w -> exists c, read_candidate s off w = Some c /\ forall p, c = Some p -> exists k, (k, p) ∈ map_of s w.
Proof.
  intros Hi. unfold read_candidate. destruct (span (fun e => off <=? e.1) (map_of s w)) as [pre post] eqn:Es. apply span_spec in Es as (Em & _ & _).
  assert (forall p, snd <$> head post = Some p -> exists k, (k, p) ∈ map_of s w) as Hnext. { intros p. destruct post as [|[k q] post]; [done|]. cbn. intros [= <-]. exists k. rewrite Em. set_solver. }
  destruct (last pre) as [[k q]|] eqn:El; [|eexists; split; [reflexivity|exact Hnext]]. apply last_Some in El as [l ->]. assert ((k, q) ∈ map_of s w) as Hq by (rewrite Em; set_solver). destruct (v_ptr _ _ Hi _ _ _ Hq) as (b & -> & _). bind. eexists. split; [reflexivity|]. case_match; [|exact Hnext]. intros p [= <-]. by exists k.
Qed.

Lemma read_ok T s off len w : inv T w -> 0 <= off -> 0 <= len -> off + len < 2 ^ 32 ->
  exists r w', read s off len w = Some (r, w') /\ inv T w' /\ forall d, r = Some d -> zlen d = len /\ forall i, 0 <= i < len -> d !! Z.to_nat i = T s (off + i).
Proof.
  intros Hi Ho Hl He. unfold read. destruct (read_candidate_ok T s off w Hi) as (c & -> & Hc). bind. assert (inv T (record_miss len w)) as Hmiss by (by apply (inv_same T w)). destruct c as [p|]; [|by exists None, (record_miss len w)]. destruct (Hc p eq_refl) as [k Hin]. destruct (v_ptr _ _ Hi _ _ _ Hin) as (b & Hb & Hs & Hk). rewrite Hb. bind.
  destruct (msorted_entries _ _ _ _ _ (v_sorted _ _ Hi s) Hin) as (b' & Hb' & Hbk & Hk0 & Hbl & Hbe). rewrite Hb in Hb'. injection Hb' as <-. destruct (v_data _ _ Hi _ _ Hb) as [Hdl Hd]. rewrite Hk in *. destruct (Z.ltb_spec off k); [by exists None, (record_miss len w)|]. rewrite !(u32_small (_ + _)) by lia. destruct (Z.ltb_spec (k + length b) (off + len)); [by exists None, (record_miss len w)|].
  rewrite (u32_small (off - k)) by lia. rewrite (proj2 (Z.ltb_ge _ _)) by lia. set (d := take _ _). assert (zlen d = len /\ forall i, 0 <= i < len -> d !! Z.to_nat i = T s (off + i)) as Hok.
  { split; [unfold d; rewrite length_take, length_drop; lia|]. intros i Hi'. unfold d. rewrite lookup_take_lt, lookup_drop by lia. rewrite Hs in Hd. replace (off + i) with (k + (off - k + i)) by lia. rewrite Hd by lia. f_equal. lia. }
  destruct (is_clean b).
  - destruct (lru_erase_ok T w p b Hi Hb) as (l & El & Hp). unfold touch. rewrite El. do 2 bind. do 2 eexists. split; [reflexivity|]. split; [|by intros d' [= <-]]. by apply (inv_same T (set_lru (p :: l) (cur_bytes_ w) w)); [apply inv_lru|..].
  - exists (Some d), w. split; [done|]. split; [done|]. by intros d' [= <-].
Qed.

(** ** Clearing *)

Lemma clear_loop_ok s m : forall w, NoDup m.*2 -> NoDup (lru_ w) -> Forall (fun p => p ∈ lru_ w /\ is_Some (buffers w !! p)) m.*2 ->
  exists w', clear_loop s m w = Some w' /\ buffers w' = buffers w /\ next_ptr w' = next_ptr w /\ spaces w' = spaces w /\ m.*2 ++ lru_ w' ≡ₚ lru_ w.
Proof.
  induction m as [|[k p] m IH]; intros w Hm Hl Hin; [by exists w|]. cbn [fmap list_fmap snd] in *. apply NoDup_cons in Hm as [Hp Hm]. apply Forall_cons in Hin as [[Hpl [b Hb]] Hin]. cbn [clear_loop]. unfold rm, lru_erase. rewrite Hb, decide_True by done. do 3 bind. set (w1 := set_lru (remove_one p (lru_ w)) _ w). pose proof (remove_one_perm p (lru_ w) Hpl) as Hperm.
  destruct (IH w1) as (w' & E & E1 & E2 & E3 & E4); [done| | |].
  - cbn. rewrite Hperm in Hl. by apply NoDup_cons in Hl as [_ ?].
  - rewrite Forall_forall in Hin |- *. intros q Hq. destruct (Hin q Hq) as [Hql ?]. split; [|done]. cbn. rewrite Hperm, elem_of_cons in Hql. destruct Hql as [->|?]; [done|done].
  - exists w'. split_and!; try done. cbn [app]. rewrite E4. cbn. by rewrite <- Hperm.
Qed.

Lemma foldl_delete (m : list (Z * ptr)) : forall (B : gmap ptr Buffer) q c, foldl (fun B e => delete e.2 B) B m !! q = Some c <-> B !! q = Some c /\ q ∉ m.*2.
Proof.
  induction m as [|[k p] m IH]; intros B q c; cbn [foldl fmap list_fmap snd]; [split; [intros; split; [done|apply not_elem_of_nil]|tauto]|]. rewrite IH, lookup_delete_Some, not_elem_of_cons. split; [intros ([? ?] & ?); split_and!; (done || congruence)|intros (? & ? & ?); split_and!; (done || congruence)].
Qed.

Lemma msorted_NoDup B lo m : msorted B lo m -> NoDup m.*2.
Proof.
  revert lo. induction m as [|[k p] m IH]; intros lo H; [constructor|]. cbn [fmap list_fmap snd]. constructor; [|cbn in H; destruct H as (? & _ & _ & _ & _ & _ & ?); by eapply IH]. intros (e & E & He)%list_elem_of_fmap. by apply (msorted_other B lo [] k p m e H He).
Qed.

Lemma clear_ok T s w : inv T w -> exists w', clear s w = Some w' /\ inv T w'.
Proof.
  intros Hi. pose proof Hi as [I1 I2 I3 [I4 I4'] I5 I6 I7]. unfold clear. destruct (clear_loop_ok s (map_of s w) w) as (w1 & -> & E1 & E2 & E3 & E4).
  - by eapply msorted_NoDup.
  - done.
  - apply Forall_forall. intros p ([k q] & -> & Hq)%list_elem_of_fmap. cbn. destruct (I2 _ _ _ Hq) as (b & Hb & _). rewrite I4', Hb. by split; eexists.
  - bind. eexists. split; [reflexivity|]. rewrite E1. set (B := foldl _ _ _). assert (forall q c, B !! q = Some c <-> buffers w !! q = Some c /\ space c <> s) as HB.
    { intros q c. unfold B. rewrite foldl_delete. split; intros [Hc Hq]; (split; [done|]).
      - intros <-. apply Hq. apply list_elem_of_fmap. exists (offset c, q). split; [done|]. by apply I3.
      - intros ([k q'] & -> & Hin)%list_elem_of_fmap. cbn in *. destruct (I2 _ _ _ Hin) as (c' & ? & ? & _). congruence. }
    assert (forall s', get_space s' (set_space s space_new (set_buffers B w1)) = if decide (s = s') then space_new else get_space s' w) as Hg by (intros s'; rewrite get_set_space; case_decide; [done|]; unfold get_space; cbn; by rewrite E3). constructor; cbn [set_space set_buffers buffers lru_ next_ptr].
    + intros s'. rewrite Hg. case_decide; [done|]. eapply msorted_ext; [|apply I1]. intros q k Hq. destruct (I2 _ _ _ Hq) as (c & Hc & ? & _). rewrite Hc. apply HB. split; [done|congruence].
    + intros s' k q. rewrite Hg. case_decide; [by intros ?%not_elem_of_nil|]. intros Hq. destruct (I2 _ _ _ Hq) as (c & Hc & ? & ?). exists c. split_and!; try done. apply HB. split; [done|congruence].
    + intros q c [Hc Hs]%HB. rewrite Hg, decide_False by done. by apply I3.
    + rewrite <- E4 in I4. apply NoDup_app in I4 as (_ & Hd & Hn). split; [done|]. intros q. split.
      * intros Hq. assert (q ∈ lru_ w) as Hqw by (rewrite <- E4; set_solver). apply I4' in Hqw as [c Hc]. exists c. apply HB. split; [done|]. intros <-. apply (Hd q); [|done]. apply list_elem_of_fmap. exists (offset c, q). split; [done|]. by apply I3.
      * intros [c [Hc Hs]%HB]. assert (q ∈ lru_ w) as Hqw by (apply I4'; by eexists). rewrite <- E4, elem_of_app in Hqw. destruct Hqw as [([k q'] & -> & Hin)%list_elem_of_fmap|?]; [|done]. cbn in *. destruct (I2 _ _ _ Hin) as (c' & ? & ? & _). congruence.
    + intros s'. rewrite Hg. case_decide as Hs; [split; [constructor|]; intros q; split; [by intros ?%not_elem_of_nil|intros (c & [_ ?]%HB & ? & _); congruence]|]. destruct (I5 s') as [H1 H2]. split; [done|]. intros q. rewrite H2. split; intros (c & Hc & ? & ?); exists c; (split_and!; [|done..]); apply HB; [split; [done|congruence]|tauto].
    + intros q c [Hc _]%HB. by eapply I6.
    + intros q [c [Hc _]%HB]. rewrite E2. apply I7. by exists c.
Qed.

(** ** Runs *)

Definition valid (o : op) : Prop :=
  match o with
  | Write _ _ off bl _ | Did_read _ off bl => 0 <= off /\ 0 < zlen bl /\ off + zlen bl < 2 ^ 32
  | Read _ off len | Discard _ off len => 0 <= off /\ 0 <= len /\ off + len < 2 ^ 32
  | _ => True
  end.
Definition stored (o : op) (T : space_id -> Z -> option Z) : space_id -> Z -> option Z :=
  match o with Write s _ off bl _ | Did_read s off bl => store s off bl T | _ => T end.

(** Data that is returned for a read is what was stored. *)
Definition answers (T : space_id -> Z -> option Z) (o : op) (r : option bytes) : Prop :=
  match o, r with
  | Read s off len, Some d => zlen d = len /\ forall i, 0 <= i < len -> d !! Z.to_nat i = T s (off + i)
  | _, None => True
  | _, Some _ => False
  end.
Fixpoint good_run (T : space_id -> Z -> option Z) (l : list op) (w : world) : Prop :=
  match l with [] => True | o :: t => exists r w', exec o w = Some (r, w') /\ answers T o r /\ good_run (stored o T) t w' end.

Lemma exec_ok T o w : inv T w -> valid o -> exists r w', exec o w = Some (r, w') /\ answers T o r /\ inv (stored o T) w'.
Proof.
  intros Hi Hv. destruct o as [s sq off bl fl|s sq|s off bl|s off len|s off len|s|max|]; cbn [exec valid stored answers] in *.
  - destruct Hv as (? & ? & ?). destruct (write_ok T s sq off bl fl w) as (w' & -> & ?); [done..|]. by exists None, w'.
  - destruct (finish_write_ok T s sq w Hi) as (w' & -> & ?). by exists None, w'.
  - destruct Hv as (? & ? & ?). destruct (did_read_ok T s off bl w) as (w' & -> & ?); [done..|]. by exists None, w'.
  - destruct Hv as (? & ? & ?). destruct (read_ok T s off len w) as (r & w' & E & ? & Hr); [done..|]. exists r, w'. split_and!; try done. destruct r; [by apply Hr|done].
  - destruct Hv as (? & ? & ?). destruct (cache_discard_ok T s off len w) as (w' & -> & ? & _); [done..|]. by exists None, w'.
  - destruct (clear_ok T s w Hi) as (w' & -> & ?). by exists None, w'.
  - unfold set_max_bytes. destruct (trim_ok T (mk_world (buffers w) (next_ptr w) (spaces w) max (cur_bytes_ w) (lru_ w) (hit_bytes_ w) (miss_bytes_ w))) as (w' & -> & ? & _); [by apply (inv_same T w)|]. by exists None, w'.
  - destruct (flush_ok T w Hi) as (w' & -> & ? & _). by exists None, w'.
Qed.

(** C12: the buffer cache returns what was stored, and never follows a pointer to a
    buffer that is gone, as long as no empty buffer is stored.  Every sequence of
    writes and fills that are not empty (the callers see to it), completions, reads,
    discards, clears, changes of the limit and flushes, with ranges that end below
    4 GiB, runs to its end; a read that hits returns, byte by byte, what the last
    write or fill stored there.  [empty_write_dangles] shows that an empty write must
    be excluded. *)
Theorem buffer_cache_coherent max l : Forall valid l -> good_run (fun _ _ => None) l (cache_new max).
Proof.
  intros Hl. pose proof (inv_init (fun _ _ => None) max) as Hi. revert Hi. generalize (cache_new max) as w. generalize (fun (_ : space_id) (_ : Z) => @None Z) as T. induction Hl as [|o l Ho Hl IH]; intros T w Hi; [done|]. destruct (exec_ok T o w Hi Ho) as (r & w' & E & Ha & Hi'). exists r, w'. split_and!; [done..|]. by apply IH.
Qed.

(** Two overlapping writes and a read of both parts. *)
Definition demo_ops : list op := [Write 0 1 4 [1; 2; 3; 4] 0; Write 0 2 6 [7; 8] 0; Read 0 6 2; Read 0 5 3].

Fixpoint run (l : list op) (w : world) : option world := match l with [] => Some w | o :: t => x ← exec o w; run t x.2 end.

Lemma buffer_cache_coherent_witness : good_run (fun _ _ => None) demo_ops (cache_new 100) /\
  (w ← run demo_ops (cache_new 100); x ← exec (Read 0 6 2) w; x.1) = Some [7; 8] /\ (w ← run demo_ops (cache_new 100); x ← exec (Read 0 4 2) w; x.1) = Some [1; 2].
Proof.
  split; [apply buffer_cache_coherent; do 4 (apply Forall_cons; split; [cbn; lia|]); constructor|]. split; vm_compute; reflexivity.
Defined.

(** The bytes in use are counted too high once a buffer has lost its end: the cache is
    empty, and it counts two bytes. *)
Lemma cur_bytes_drifts : (w ← run (demo_ops ++ [Flush]) (cache_new 100); Some (lru_ w, cur_bytes_ w)) = Some ([], 2).
Proof. vm_compute. reflexivity. Qed.

(** An empty write discards nothing, takes the place of the buffer at its offset and
    leaves the pointer to that buffer in the list of the cache. *)
Lemma empty_write_dangles : run [Write 0 1 4 [1; 2] 0; Write 0 2 4 [] 0; Flush] (cache_new 100) = None.
Proof. vm_compute. reflexivity. Qed.
End BufferCacheSpec.
