(* ===== verification/ObjectIO.v ===== *)
(** * bluestore/bluestore.cc: the data of objects

    Reading and writing the bytes of an object, over its extents, its blobs, the buffer
    cache and the device.  The device and the allocator are virtual interfaces, and
    [buffer::create] leaves bytes uninitialized: they are parameters.  Injected errors
    and performance counters are left out.  An iterator to an extent that
    [punch_hole] has erased must not be followed: that is [None], like every
    undefined behaviour and failed assertion. *)
From stdpp Require Import base numbers list gmap.
From Stdlib Require Import ZArith Lia.
From S2P Require Import Prelude IntArith IntervalSet Allocator UseTracker Blob Lextent Deferred BufferCache.
Import Allocator Lextent.

Module ObjectIO.
Local Open Scope Z_scope.
Abbreviation zlen l := (Z.of_nat (List.length l)).
Abbreviation zeros n := (replicate (Z.to_nat (u32 n)) 0).

Record BlueStoreConfig := mk_config { block_size_ : Z; min_alloc_size_ : Z; max_blob_size : Z; prefer_deferred_size : Z; cfg_csum_type : Z }.

Record write_item := mk_item {
  wi_logical_offset : Z; wi_b : BlobRef; wi_blob_length : Z; wi_b_off : Z; wi_bl : bytes;
  wi_b_off0 : Z; wi_length0 : Z; wi_mark_unused : bool; wi_new_blob : bool;
}.

(** The blobs, the cache, the object, its transaction, and the context of a write. *)
Record io := mk_state {
  B : blobs;
  next_blob : BlobRef;
  cache : BufferCache.world;
  em : extent_map;
  osize : Z;
  txc_seq : Z;
  txc_allocated : IntervalSet.interval_set;
  txc_released : IntervalSet.interval_set;
  deferred_ops : list (list pextent_t * bytes);
  aio_writes : list (Z * bytes);
  blobs_written : gset BlobRef;
  buffered : bool;
  csum_order : Z;
  target_blob_size : Z;
  writes : list write_item;
  old_extents : list OldExtent;
}.

Definition set_B (x : blobs) (s : io) : io := mk_state x (next_blob s) (cache s) (em s) (osize s) (txc_seq s) (txc_allocated s) (txc_released s) (deferred_ops s) (aio_writes s) (blobs_written s) (buffered s) (csum_order s) (target_blob_size s) (writes s) (old_extents s).
Definition set_cache (x : BufferCache.world) (s : io) : io := mk_state (B s) (next_blob s) x (em s) (osize s) (txc_seq s) (txc_allocated s) (txc_released s) (deferred_ops s) (aio_writes s) (blobs_written s) (buffered s) (csum_order s) (target_blob_size s) (writes s) (old_extents s).
Definition set_em (x : extent_map) (l : list OldExtent) (s : io) : io := mk_state (B s) (next_blob s) (cache s) x (osize s) (txc_seq s) (txc_allocated s) (txc_released s) (deferred_ops s) (aio_writes s) (blobs_written s) (buffered s) (csum_order s) (target_blob_size s) (writes s) l.
Definition set_osize (x : Z) (s : io) : io := mk_state (B s) (next_blob s) (cache s) (em s) x (txc_seq s) (txc_allocated s) (txc_released s) (deferred_ops s) (aio_writes s) (blobs_written s) (buffered s) (csum_order s) (target_blob_size s) (writes s) (old_extents s).
Definition set_space (a r : IntervalSet.interval_set) (s : io) : io := mk_state (B s) (next_blob s) (cache s) (em s) (osize s) (txc_seq s) a r (deferred_ops s) (aio_writes s) (blobs_written s) (buffered s) (csum_order s) (target_blob_size s) (writes s) (old_extents s).
Definition set_out (d : list (list pextent_t * bytes)) (a : list (Z * bytes)) (s : io) : io := mk_state (B s) (next_blob s) (cache s) (em s) (osize s) (txc_seq s) (txc_allocated s) (txc_released s) d a (blobs_written s) (buffered s) (csum_order s) (target_blob_size s) (writes s) (old_extents s).
Definition set_written (x : gset BlobRef) (s : io) : io := mk_state (B s) (next_blob s) (cache s) (em s) (osize s) (txc_seq s) (txc_allocated s) (txc_released s) (deferred_ops s) (aio_writes s) x (buffered s) (csum_order s) (target_blob_size s) (writes s) (old_extents s).
(** A [WriteContext]. *)
Definition new_wctx (order target : Z) (s : io) : io := mk_state (B s) (next_blob s) (cache s) (em s) (osize s) (txc_seq s) (txc_allocated s) (txc_released s) (deferred_ops s) (aio_writes s) (blobs_written s) true order target [] [].
Definition add_write (w : write_item) (s : io) : io := mk_state (B s) (next_blob s) (cache s) (em s) (osize s) (txc_seq s) (txc_allocated s) (txc_released s) (deferred_ops s) (aio_writes s) (blobs_written s) (buffered s) (csum_order s) (target_blob_size s) (writes s ++ [w]) (old_extents s).
Definition new_blob_ref (s : io) : BlobRef * io := (next_blob s, mk_state (<[next_blob s := Blob.mk_Blob (- 1) Blob.blob_new UseTracker.tracker_new]> (B s)) (S (next_blob s)) (cache s) (em s) (osize s) (txc_seq s) (txc_allocated s) (txc_released s) (deferred_ops s) (aio_writes s) (blobs_written s) (buffered s) (csum_order s) (target_blob_size s) (writes s) (old_extents s)).

Definition has_conflict (b : BlobRef) (b_off b_len : Z) (s : io) : bool :=
  existsb (fun w => (wi_b w =? b)%nat && (b_off <? wi_b_off w +64 wi_blob_length w) && (wi_b_off w <? b_off +64 b_len)) (writes s).

(** [dirty_blob()] under a change. *)
Definition with_blob (b : BlobRef) (f : Blob.bluestore_blob_t -> option Blob.bluestore_blob_t) (s : io) : option io :=
  x ← B s !! b; y ← f (Blob.blob_ x); Some (set_B (<[b := Blob.mk_Blob (Blob.id_ x) y (Blob.used_in_blob_ x)]> (B s)) s).
Definition get_blob (b : BlobRef) (s : io) : option Blob.bluestore_blob_t := x ← B s !! b; Some (Blob.blob_ x).

(** [punch_hole] of the object, into the old extents of the write. *)
Definition punch (offset len : Z) (s : io) : option io := '(m, old) ← punch_hole offset len (em s) (old_extents s); Some (set_em m old s).
(** [set_lextent], with the old extents, and the extent [le] points to. *)
Definition put_lextent (lo bo len : Z) (b : BlobRef) (min_alloc : Z) (s : io) : option (Extent * io) :=
  '(it, blobs, m, old) ← set_lextent lo bo len b min_alloc (B s) (em s) (Some (old_extents s));
  le ← m !! it;
  Some (le, set_em m (default [] old) (set_B blobs s)).

(** No line of the source, but a rule of the language: an iterator of a [std::set]
    must not be followed once its element was erased.  [punch_hole] erases the nodes of
    the extents that meet the hole, so what is read through the iterator of the extent
    [x] afterwards is defined only if [x] does not meet it. *)
Definition alive (offset len : Z) (x : Extent) : option unit := cxxlab_assert (negb ((logical_offset x <? offset +64 len) && (offset <? logical_end x))).

(** ** Helpers *)

Definition pad_zeros (bl : bytes) (offset chunk_size : Z) : bytes * Z :=
  let front_pad := offset mod chunk_size in
  let '(bl, offset) := if front_pad =? 0 then (bl, offset) else (zeros front_pad ++ bl, offset -64 front_pad) in
  let tail_pad := (offset +64 zlen bl) mod chunk_size in
  (if tail_pad =? 0 then bl else bl ++ zeros (chunk_size -64 tail_pad), offset).
Definition apply_padding (head_pad tail_pad : Z) (bl : bytes) : bytes :=
  (if head_pad =? 0 then [] else zeros head_pad) ++ bl ++ (if tail_pad =? 0 then [] else zeros tail_pad).

Fixpoint blob_to_phys_from (off b_off : Z) (l : list pextent_t) : Z :=
  match l with
  | [] => 0
  | x :: t => if (off <=? b_off) && (b_off <? off +64 Allocator.length x) then offset x +64 (b_off -64 off) else blob_to_phys_from (off +64 Allocator.length x) b_off t
  end.
Definition blob_to_phys (b : Blob.bluestore_blob_t) (b_off : Z) : Z := blob_to_phys_from 0 b_off (Blob.extents b).

Definition is_zero (bl : bytes) : bool := forallb (Z.eqb 0) bl.

Definition buffer_cache_write (b : BlobRef) (off : Z) (bl : bytes) (fl : Z) (s : io) : option io :=
  if zlen bl =? 0 then Some s
  else c ← BufferCache.write b (txc_seq s) (u32 off) bl fl (cache s); Some (set_written ({[b]} ∪ blobs_written s) (set_cache c s)).
Definition cache_flags (s : io) : Z := if buffered s then 0 else BufferCache.FLAG_NOCACHE.

Fixpoint finish_blobs (l : list BlobRef) (sq : Z) (c : BufferCache.world) : option BufferCache.world :=
  match l with [] => Some c | b :: t => c ← BufferCache.finish_write b sq c; finish_blobs t sq c end.
Definition finish_write (s : io) : option io := c ← finish_blobs (elements (blobs_written s)) (txc_seq s) (cache s); Some (set_written ∅ (set_cache c s)).

(** The extents and data of a new deferred operation. *)
Definition add_deferred (l : list pextent_t) (data : bytes) (s : io) : io := set_out (deferred_ops s ++ [(l, data)]) (aio_writes s) s.
Definition extents_of (l : list (Z * Z)) : list pextent_t := (fun p => pextent p.1 p.2) <$> l.

(** [aio_write] of consecutive parts of the data. *)
Fixpoint aio_parts (l : list (Z * Z)) (data : bytes) (data_off : Z) (s : io) : option io :=
  match l with
  | [] => Some s
  | (off, len) :: t => d ← Deferred.substr_of data data_off len; aio_parts t data (data_off +64 len) (set_out (deferred_ops s) (aio_writes s ++ [(off, d)]) s)
  end.


Section Store.
Context (cfg : BlueStoreConfig).
(** [bdev_->read(off, len)]: the result and the data. *)
Context (bdev_read : Z -> Z -> Z * bytes).
(** [alloc_->allocate(want, unit, 0, 0)]: the extents, none if it fails. *)
Context (allocate : Z -> Z -> option (list pextent_t)).
Context (create : Z -> bytes).
Abbreviation block_size := (block_size_ cfg).
Abbreviation min_alloc_size := (min_alloc_size_ cfg).

(** ** Reading *)

(** The data of the chunks from [start] on, from the cache or the device; a result
    below 0 is an error. *)
Definition read_chunks (b : BlobRef) (start len : Z) (blob : Blob.bluestore_blob_t) (c : BufferCache.world) : option (Z * bytes * BufferCache.world) :=
  '(hit, c) ← BufferCache.read b (u32 start) (u32 len) c;
  match hit with
  | Some d => Some (0, d, c)
  | None =>
      let '(r, raw) := bdev_read (blob_to_phys blob start) len in
      if r <? 0 then Some (r, [], c)
      else
        bad ← (if Blob.has_csum blob then Blob.verify_csum start raw block_size blob else Some (- 1));
        if 0 <=? bad then Some (- EIO, [], c)
        else c ← BufferCache.did_read b (u32 start) raw c; Some (0, raw, c)
  end.

(** The part of an extent: its chunks, as far as the blob goes. *)
Definition chunk_range (blob : Blob.bluestore_blob_t) (blob_off read_len : Z) : Z * Z * Z :=
  let chunk_size := Blob.get_chunk_size block_size blob in
  let blob_chunk_start := Z.land blob_off (not64 (chunk_size -64 1)) in
  let front_pad := blob_off -64 blob_chunk_start in
  let aligned_len := Z.land (front_pad +64 read_len +64 chunk_size -64 1) (not64 (chunk_size -64 1)) in
  let blob_len := Blob.logical_length blob in
  (blob_chunk_start, front_pad, if blob_len <? blob_chunk_start +64 aligned_len then blob_len -64 blob_chunk_start else aligned_len).

Definition read_step (Bs : blobs) (m : extent_map) (e : Z) (s : Z * nat * bytes * BufferCache.world) : option ((Z * nat * bytes * BufferCache.world) + (Z * bytes * BufferCache.world)) :=
  let '(pos, it, bl, c) := s in
  if negb (pos <? e) then Some (inr (zlen bl, bl, c))
  else
    let hole hole_end :=
      let hole_len := Z.min (hole_end -64 pos) (e -64 pos) in
      Some (inl (pos +64 hole_len, it, bl ++ zeros hole_len, c)) in
    match m !! it with
    | None => hole e
    | Some x =>
        let ext_start := logical_offset x in
        let ext_end := ext_start +64 Lextent.length x in
        if pos <? ext_start then hole ext_start
        else if ext_end <=? pos then Some (inl (pos, S it, bl, c))
        else
          let read_off := Z.max pos ext_start in
          let read_end := Z.min e ext_end in
          let read_len := read_end -64 read_off in
          let blob_off := blob_offset x +64 (read_off -64 ext_start) in
          b ← Bs !! blob x;
          let '(blob_chunk_start, front_pad, aligned_len) := chunk_range (Blob.blob_ b) blob_off read_len in
          '(r, chunk_bl, c) ← read_chunks (blob x) blob_chunk_start aligned_len (Blob.blob_ b) c;
          if r <? 0 then Some (inr (r, bl, c))
          else
            trimmed ← Deferred.substr_of chunk_bl front_pad read_len;
            Some (inl (read_end, S it, bl ++ trimmed, c))
    end.

(** The result, the data and the cache. *)
Definition do_read (Bs : blobs) (m : extent_map) (off len : Z) (c : BufferCache.world) : option (Z * bytes * BufferCache.world) :=
  whileM (read_step Bs m (off +64 len)) 64 (off, or_begin (seek_lextent off m) m, [], c).

(** [read] of an object that exists, without injected errors. *)
Definition read (off len : Z) (s : io) : option (Z * bytes * io) :=
  if osize s <=? off then Some (0, [], s)
  else
    let len := if (len =? 0) || (osize s <? off +64 len) then osize s -64 off else len in
    '(r, bl, c) ← do_read (B s) (em s) off len (cache s);
    Some (r, bl, set_cache c s).

(** [_do_read] for a read-modify-write: it must not fail, and is filled with zeros. *)
Definition read_filled (off len : Z) (s : io) : option (bytes * io) :=
  '(r, bl, c) ← do_read (B s) (em s) off len (cache s);
  _ ← cxxlab_assert (0 <=? r);
  Some (bl ++ (if zlen bl <? len then zeros (len -64 zlen bl) else []), set_cache c s).

(** ** Space that is not used any more *)

Fixpoint wctx_finish (l : list OldExtent) (s : io) : option io :=
  match l with
  | [] => Some (set_em (em s) [] s)
  | o :: t =>
      x ← B s !! blob (e o);
      '(_, rel, x) ← Blob.put_ref (blob_offset (e o)) (Lextent.length (e o)) x;
      let r := foldl (fun r p => IntervalSet.insert r (offset p) (Allocator.length p)) (txc_released s) rel in
      wctx_finish t (set_space (txc_allocated s) r (set_B (<[blob (e o) := x]> (B s)) s))
  end.

Fixpoint discard_old (l : list OldExtent) (c : BufferCache.world) : option BufferCache.world :=
  match l with [] => Some c | o :: t => c ← BufferCache.discard (blob (e o)) (blob_offset (e o)) (Lextent.length (e o)) c; discard_old t c end.

Definition do_zero (off len : Z) (s : io) : option io :=
  s ← punch off len (new_wctx 0 0 s);
  c ← discard_old (old_extents s) (cache s);
  s ← wctx_finish (old_extents s) (set_cache c s);
  let e := off +64 len in
  Some (if osize s <? e then set_osize e s else s).

(** ** Small writes *)

Definition choose_write_options (s : io) : io :=
  let t := max_blob_size cfg in
  new_wctx (IntArith.ctz 64 block_size) (if (t =? 0) || (t <? min_alloc_size) then min_alloc_size else t) s.

(** What an attempt to use an extent comes to. *)
Inductive attempt := Written (s : io) | Next (s : io).

(** Reusing the blob of the extent [x], with its conflicts: the space is taken later. *)
Definition reuse_small (offset len : Z) (bl : bytes) (x : Extent) (max_bsize : Z) (s : io) : option attempt :=
  let b_off := offset -64 blob_start x in
  y ← B s !! blob x;
  '(ok, alloc_len32, y) ← Blob.can_reuse_blob (u32 min_alloc_size) (u32 max_bsize) (u32 b_off) (u32 min_alloc_size) y;
  let s := set_B (<[blob x := y]> (B s)) s in
  if (ok : bool) && negb (has_conflict (blob x) b_off alloc_len32 s) then
    s ← punch offset len s;
    let '(padded, b_off0) := pad_zeros bl b_off block_size in
    _ ← alive offset len x;
    Some (Written (add_write (mk_item offset (blob x) alloc_len32 b_off0 padded b_off len false false) s))
  else Some (Next s).

(** Into a part of the blob that was never written. *)
Definition write_unused (offset len head_pad : Z) (x : Extent) (b_off b_len : Z) (padded : bytes) (s : io) : option io :=
  s ← buffer_cache_write (blob x) b_off padded (cache_flags s) s;
  blob' ← get_blob (blob x) s;
  s ← (if zlen padded <? prefer_deferred_size cfg then Some (add_deferred (extents_of (Blob.map b_off b_len blob')) padded s)
       else aio_parts (Blob.map b_off b_len blob') padded 0 s);
  s ← with_blob (blob x) (Blob.calc_csum b_off padded block_size) s;
  '(le, s) ← put_lextent (u32 offset) (u32 (b_off +64 head_pad)) (u32 len) (blob x) min_alloc_size s;
  _ ← alive (u32 offset) (u32 len) x;
  with_blob (blob x) (Blob.mark_used (blob_offset le) (Lextent.length le)) s.

(** Over chunks whose other bytes are read first. *)
Definition write_rmw (offset len head_pad tail_pad head_read tail_read : Z) (x : Extent) (b_off b_len : Z) (bl : bytes) (s : io) : option io :=
  let padded := apply_padding head_pad tail_pad bl in
  '(padded, s) ← (if head_read =? 0 then Some (padded, s) else '(h, s) ← read_filled (offset -64 head_pad -64 head_read) head_read s; Some (h ++ padded, s));
  '(padded, s) ← (if tail_read =? 0 then Some (padded, s) else '(t, s) ← read_filled (offset +64 len +64 tail_pad) tail_read s; Some (padded ++ t, s));
  s ← buffer_cache_write (blob x) b_off padded (cache_flags s) s;
  s ← with_blob (blob x) (Blob.calc_csum b_off padded block_size) s;
  blob' ← get_blob (blob x) s;
  let s := add_deferred (extents_of (Blob.map b_off b_len blob')) padded s in
  '(le, s) ← put_lextent (u32 offset) (u32 (offset -64 blob_start x)) (u32 len) (blob x) min_alloc_size s;
  _ ← alive (u32 offset) (u32 len) x;
  with_blob (blob x) (Blob.mark_used (blob_offset le) (Lextent.length le)) s.

(** The extent [x] at or after the write. *)
Definition try_small (offset len : Z) (bl : bytes) (max_bsize min_off : Z) (x : Extent) (s : io) : option attempt :=
  let bstart := blob_start x in
  if (offset <? bstart) || (bstart <? min_off) then Some (Next s)
  else
    blob' ← get_blob (blob x) s;
    let chunk := Blob.get_chunk_size block_size blob' in
    let end_offs := offset +64 len in
    let head_pad := IntArith.p2phase 64 offset chunk in
    let tail_pad := IntArith.p2nphase 64 end_offs chunk in
    let head_pad := if negb (head_pad =? 0) && has_any_lextents (offset -64 head_pad) head_pad (em s) then 0 else head_pad in
    let tail_pad := if negb (tail_pad =? 0) && has_any_lextents end_offs tail_pad (em s) then 0 else tail_pad in
    let b_off := offset -64 head_pad -64 bstart in
    let b_len := len +64 head_pad +64 tail_pad in
    unused ← (if (b_off mod chunk =? 0) && (b_len mod chunk =? 0) && (b_off +64 b_len <=? Blob.get_ondisk_length blob') then Blob.is_unused b_off b_len blob' else Some false);
    if (unused : bool) && Blob.is_allocated b_off b_len blob' then
      s ← write_unused offset len head_pad x b_off b_len (apply_padding head_pad tail_pad bl) s; Some (Written s)
    else
      let head_read := IntArith.p2phase 64 b_off chunk in
      let tail_read := IntArith.p2nphase 64 (b_off +64 b_len) chunk in
      let b_off' := b_off -64 head_read in
      let b_len' := b_len +64 (head_read +64 tail_read) in
      if negb ((head_read =? 0) && (tail_read =? 0)) && (b_off +64 b_len +64 tail_read <=? Blob.get_ondisk_length blob') && (head_read +64 tail_read <? min_alloc_size)
         && (b_off' mod chunk =? 0) && (b_len' mod chunk =? 0) && Blob.is_allocated b_off' b_len' blob' then
        s ← write_rmw offset len head_pad tail_pad head_read tail_read x b_off' b_len' bl s; Some (Written s)
      else reuse_small offset len bl x max_bsize s.

(** The extent [x] before the write. *)
Definition try_prev (offset len : Z) (bl : bytes) (max_bsize min_off : Z) (x : Extent) (s : io) : option attempt :=
  if (blob_start x <=? offset) && (min_off <=? blob_start x) then reuse_small offset len bl x max_bsize s else Some (Next s).

(** The search in both directions: [None] for an iterator at [end()]. *)
Fixpoint small_loop (n : nat) (offset len : Z) (bl : bytes) (max_bsize min_off : Z) (ep : nat) (prev_ep : option nat) (s : io) : option attempt :=
  match n with
  | O => None
  | S n =>
      let m := em s in
      a ← match m !! ep with
          | Some x => if logical_offset x <? offset +64 max_bsize then a ← try_small offset len bl max_bsize min_off x s; Some (a, S ep, true) else Some (Next s, ep, false)
          | None => Some (Next s, ep, false)
          end;
      let '(a, ep, any_change) := a in
      match a with
      | Written s => Some (Written s)
      | Next s =>
          p ← match prev_ep with
              | Some i =>
                  x ← m !! i;
                  if min_off <=? logical_offset x then a ← try_prev offset len bl max_bsize min_off x s; Some (a, match i with O => None | S i => Some i end, any_change || negb (i =? 0)%nat)
                  else Some (Next s, prev_ep, any_change)
              | None => Some (Next s, prev_ep, any_change)
              end;
          let '(a, prev_ep, any_change) := p in
          match a with
          | Written s => Some (Written s)
          | Next s => if any_change : bool then small_loop n offset len bl max_bsize min_off ep prev_ep s else Some (Next s)
          end
      end
  end.

Definition do_write_small (offset len : Z) (bl : bytes) (s : io) : option io :=
  let max_bsize := Z.max (target_blob_size s) min_alloc_size in
  let min_off := if max_bsize <=? offset then offset -64 max_bsize else 0 in
  if is_zero bl then punch offset len s
  else
    let start := or_begin (seek_lextent offset (em s)) (em s) in
    a ← small_loop (S (S (2 * List.length (em s)))) offset len bl max_bsize min_off start (match start with O => None | S i => Some i end) s;
    match a with
    | Written s => Some s
    | Next s =>
        let b_off := offset mod min_alloc_size in
        s ← punch offset len s;
        let '(padded, b_off0) := pad_zeros bl b_off block_size in
        let '(b, s) := new_blob_ref s in
        Some (add_write (mk_item offset b min_alloc_size b_off0 padded b_off len (negb (min_alloc_size =? block_size)) true) s)
    end.

(** ** Big writes *)

Record BigDeferredWriteContext := mk_defer { d_off : Z; d_b_off : Z; d_used : Z; d_head_read : Z; d_tail_read : Z; d_blob_ref : option BlobRef; d_blob_start : Z; d_res_extents : list pextent_t }.
Definition defer_new : BigDeferredWriteContext := mk_defer 0 0 0 0 0 None 0 [].
Definition blob_aligned_len (d : BigDeferredWriteContext) : Z := d_used d +64 d_head_read d +64 d_tail_read d.

Definition can_defer (x : Extent) (offset l : Z) (s : io) : option (bool * BigDeferredWriteContext) :=
  blob' ← get_blob (blob x) s;
  if negb (blob_start x <=? offset) then Some (false, defer_new)
  else
    let b_off := u32 (offset -64 blob_start x) in
    let chunk := Blob.get_chunk_size block_size blob' in
    let ondisk := Blob.get_ondisk_length blob' in
    if ondisk <=? b_off then Some (false, mk_defer offset b_off 0 0 0 None 0 [])
    else
      let used := u32 (Z.min l (ondisk -64 b_off)) in
      let head_read := IntArith.p2phase 64 b_off chunk in
      let tail_read := IntArith.p2nphase 64 (b_off +32 used) chunk in
      let b_off := u32 (b_off -64 head_read) in
      let d := mk_defer offset b_off used head_read tail_read None 0 [] in
      _ ← cxxlab_assert (b_off mod chunk =? 0);
      _ ← cxxlab_assert (blob_aligned_len d mod chunk =? 0);
      if (blob_aligned_len d <? prefer_deferred_size cfg) && (blob_aligned_len d <=? ondisk) && Blob.is_allocated b_off (blob_aligned_len d) blob'
      then Some (true, mk_defer offset b_off used head_read tail_read (Some (blob x)) (blob_start x) [])
      else Some (false, d).

(** The parts of the extents that are written; [false] if one is written as a whole. *)
Fixpoint defer_extents (write_start write_end blob_off : Z) (l : list pextent_t) (acc : list pextent_t) : bool * list pextent_t :=
  match l with
  | [] => (true, acc)
  | x :: t =>
      let ext_end := blob_off +64 Allocator.length x in
      if (write_start <? ext_end) && (blob_off <? write_end) then
        let s := Z.max write_start blob_off in
        let e := Z.min write_end ext_end in
        let phys_s := offset x +64 (s -64 blob_off) in
        let phys_len := e -64 s in
        if (offset x <? phys_s) || (phys_s +64 phys_len <? offset x +64 Allocator.length x) then defer_extents write_start write_end ext_end t (acc ++ [pextent phys_s phys_len])
        else (false, acc)
      else defer_extents write_start write_end ext_end t acc
  end.
Definition apply_defer (d : BigDeferredWriteContext) (s : io) : option (bool * BigDeferredWriteContext) :=
  b ← d_blob_ref d;
  blob' ← get_blob b s;
  let '(ok, l) := defer_extents (d_b_off d) (d_b_off d +64 blob_aligned_len d) 0 (Blob.extents blob') (d_res_extents d) in
  Some (ok, mk_defer (d_off d) (d_b_off d) (d_used d) (d_head_read d) (d_tail_read d) (d_blob_ref d) (d_blob_start d) l).

(** The position behind the data, and the state. *)
Definition do_write_big_apply_deferred (d : BigDeferredWriteContext) (bl : bytes) (bl_pos : Z) (s : io) : option (Z * io) :=
  b ← d_blob_ref d;
  '(out, s) ← (if d_head_read d =? 0 then Some ([], s) else read_filled (d_off d -64 d_head_read d) (d_head_read d) s);
  data ← Deferred.substr_of bl bl_pos (d_used d);
  '(tail, s) ← (if d_tail_read d =? 0 then Some ([], s) else read_filled (d_off d +64 d_used d) (d_tail_read d) s);
  let out := out ++ data ++ tail in
  s ← buffer_cache_write b (d_b_off d) out (cache_flags s) s;
  s ← with_blob b (Blob.calc_csum (d_b_off d) out block_size) s;
  '(le, s) ← put_lextent (u32 (d_off d)) (u32 (d_off d -64 d_blob_start d)) (u32 (d_used d)) b min_alloc_size s;
  s ← with_blob b (Blob.mark_used (blob_offset le) (Lextent.length le)) s;
  Some (bl_pos +64 d_used d, add_deferred (d_res_extents d) out s).

(** Both parts of a deferred overwrite, if it is possible. *)
Definition try_defer (offset l : Z) (bl : bytes) (bl_pos : Z) (s : io) : option (option (Z * io)) :=
  match em s !! seek_lextent offset (em s) with
  | None => Some None
  | Some x =>
      '(will, head_info) ← can_defer x offset l s;
      let offset_next := offset +64 d_used head_info in
      let remaining := l -64 d_used head_info in
      '(will, tail_info) ←
        (if (will : bool) && negb (remaining =? 0) then
           if remaining <=? prefer_deferred_size cfg then
             match em s !! seek_lextent offset_next (em s) with
             | None => Some (false, defer_new)
             | Some y => '(w, t) ← can_defer y offset_next remaining s; Some ((w : bool) && (remaining =? d_used t), t)
             end
           else Some (false, defer_new)
         else Some (will, defer_new));
      if negb will then Some None
      else
        '(will, head_info) ← apply_defer head_info s;
        '(will, tail_info) ← (if (will : bool) && negb (remaining =? 0) then apply_defer tail_info s else Some (will, tail_info));
        if negb will then Some None
        else
          '(bl_pos, s) ← do_write_big_apply_deferred head_info bl bl_pos s;
          if remaining =? 0 then Some (Some (bl_pos, s))
          else '(bl_pos, s) ← do_write_big_apply_deferred tail_info bl bl_pos s; Some (Some (bl_pos, s))
  end.

(** The blob of [x], if it can take the data: its offset and the length. *)
Definition reuse_big (offset l : Z) (max_bsize min_off : Z) (x : Extent) (s : io) : option (option (BlobRef * Z * Z) * io) :=
  if (blob_start x <=? offset) && (min_off <=? blob_start x) then
    let b_off := offset -64 blob_start x in
    y ← B s !! blob x;
    '(ok, l32, y) ← Blob.can_reuse_blob (u32 min_alloc_size) (u32 max_bsize) (u32 b_off) (u32 l) y;
    Some (if ok : bool then Some (blob x, b_off, l32) else None, set_B (<[blob x := y]> (B s)) s)
  else Some (None, s).

Fixpoint big_loop (n : nat) (offset l max_bsize min_off : Z) (ep : nat) (prev_ep : option nat) (s : io) : option (option (BlobRef * Z * Z) * io) :=
  match n with
  | O => None
  | S n =>
      let m := em s in
      a ← match m !! ep with
          | Some x => if logical_offset x <? offset +64 max_bsize then '(r, s) ← reuse_big offset l max_bsize min_off x s; Some (r, S ep, true, s) else Some (None, ep, false, s)
          | None => Some (None, ep, false, s)
          end;
      let '(r, ep, any_change, s) := a in
      match r with
      | Some _ => Some (r, s)
      | None =>
          p ← match prev_ep with
              | Some i =>
                  x ← m !! i;
                  if min_off <=? logical_offset x then '(r, s) ← reuse_big offset l max_bsize min_off x s; Some (r, match i with O => None | S i => Some i end, any_change || negb (i =? 0)%nat, s)
                  else Some (None, prev_ep, any_change, s)
              | None => Some (None, prev_ep, any_change, s)
              end;
          let '(r, prev_ep, any_change, s) := p in
          match r with
          | Some _ => Some (r, s)
          | None => if any_change : bool then big_loop n offset l max_bsize min_off ep prev_ep s else Some (None, s)
          end
      end
  end.

Definition big_step (bl : bytes) (s : Z * Z * Z * io) : option ((Z * Z * Z * io) + io) :=
  let '(offset, len, bl_pos, s) := s in
  if negb (0 <? len) then Some (inr s)
  else
    let max_bsize := Z.max (target_blob_size s) min_alloc_size in
    let min_off := if max_bsize <=? offset then offset -64 max_bsize else 0 in
    let l := Z.min (max_bsize -64 offset mod max_bsize) len in
    chunk_bl ← Deferred.substr_of bl bl_pos l;
    if is_zero chunk_bl then
      s ← punch offset l s; Some (inl (offset +64 l, len -64 l, bl_pos +64 l, s))
    else
      d ← (if negb (prefer_deferred_size cfg =? 0) && (l <=? prefer_deferred_size cfg *64 2) then try_defer offset l bl bl_pos s else Some None);
      match d with
      | Some (bl_pos, s) => Some (inl (offset +64 l, len -64 l, bl_pos, s))
      | None =>
          s ← punch offset l s;
          let start := or_begin (seek_lextent offset (em s)) (em s) in
          '(r, s) ← big_loop (S (S (2 * List.length (em s)))) offset l max_bsize min_off start (match start with O => None | S i => Some i end) s;
          let '(b, b_off, l, is_new, s) := match r with Some (b, b_off, l) => (b, b_off, l, false, s) | None => let '(b, s) := new_blob_ref s in (b, 0, l, true, s) end in
          Some (inl (offset +64 l, len -64 l, bl_pos +64 l, add_write (mk_item offset b l b_off chunk_bl b_off l false is_new) s))
      end.
Definition do_write_big (offset len : Z) (bl : bytes) (bl_start : Z) (s : io) : option io := whileM (big_step bl) 64 (offset, len, bl_start, s).

(** ** Allocation *)

Definition valid_ondisk (b : Blob.bluestore_blob_t) : Z := foldl (fun n x => if is_valid x then n +32 Allocator.length x else n) 0 (Blob.extents b).

Fixpoint alloc_need (l : list write_item) (s : io) : option Z :=
  match l with
  | [] => Some 0
  | wi :: t =>
      b ← get_blob (wi_b wi) s;
      let target_len := if wi_new_blob wi then u32 (wi_blob_length wi) else Blob.logical_length b in
      n ← alloc_need t s;
      Some ((target_len -32 valid_ondisk b) +64 n)
  end.

(** [remaining] bytes of what was allocated, and the rest. *)
Fixpoint take_prealloc (remaining : Z) (l : list pextent_t) : list pextent_t * list pextent_t :=
  match l with
  | [] => ([], [])
  | pe :: t =>
      if 0 <? remaining then
        let n := Z.min (Allocator.length pe) remaining in
        if n =? Allocator.length pe then let '(a, r) := take_prealloc (remaining -64 n) t in (pextent (offset pe) n :: a, r)
        else ([pextent (offset pe) n], mk_pextent (offset pe +64 n) (Allocator.length pe -32 n) :: t)
      else ([], l)
  end.

Fixpoint drop_invalid (l : list pextent_t) : list pextent_t :=
  match l with [] => [] | x :: t => match drop_invalid t with [] => if is_valid x then [x] else [] | r => x :: r end end.

(** The blob with its new space. *)
Definition add_space (wi : write_item) (new_extents : list pextent_t) (order : Z) (b : Blob.bluestore_blob_t) : option Blob.bluestore_blob_t :=
  if wi_new_blob wi then
    let b := Blob.allocated 0 (u32 (wi_blob_length wi)) new_extents b in
    Some (if negb (Blob.has_csum b) && negb (cfg_csum_type cfg =? Blob.CSUM_NONE) then Blob.init_csum create (cfg_csum_type cfg) order (u32 (wi_blob_length wi)) b else b)
  else
    let b := Blob.set_extents (drop_invalid (Blob.extents b) ++ new_extents) (Blob.logical_length b) b in
    if Blob.has_csum b then
      let vs := Blob.get_csum_value_size b in
      if (Blob.get_csum_chunk_size b =? 0) || (vs =? 0) then None
      else
        let needed := Blob.logical_length b / Blob.get_csum_chunk_size b in
        let have := u32 (zlen (Blob.csum_data b) / vs) in
        Some (if have <? needed then Blob.set_csum_data (take (Z.to_nat (have * vs)) (Blob.csum_data b) ++ drop (Z.to_nat (have * vs)) (create (vs * needed))) b else b)
    else Some b.

Definition alloc_write_one (wi : write_item) (prealloc : list pextent_t) (s : io) : option (list pextent_t * io) :=
  b ← get_blob (wi_b wi) s;
  let new_alloc_len :=
    if wi_new_blob wi then wi_blob_length wi -64 valid_ondisk b
    else Z.land ((Blob.logical_length b -32 valid_ondisk b) +64 min_alloc_size -64 1) (not64 (min_alloc_size -64 1)) in
  let '(new_extents, prealloc) := take_prealloc new_alloc_len prealloc in
  let s := set_space (foldl (fun r p => IntervalSet.insert r (offset p) (Allocator.length p)) (txc_allocated s) new_extents) (txc_released s) s in
  s ← with_blob (wi_b wi) (add_space wi new_extents (csum_order s)) s;
  s ← with_blob (wi_b wi) (fun b => if Blob.has_csum b then Blob.calc_csum (wi_b_off wi) (wi_bl wi) block_size b else Some b) s;
  x ← B s !! wi_b wi;
  x ← Blob.get_ref (u32 (wi_b_off0 wi)) (u32 (wi_length0 wi)) (u32 min_alloc_size) x;
  let s := set_B (<[wi_b wi := x]> (B s)) s in
  s ← (if wi_mark_unused wi then
         with_blob (wi_b wi) (fun b =>
           let b_off := wi_b_off0 wi in
           let b_end := b_off +64 wi_length0 wi in
           b ← (if 0 <? b_off then Blob.add_unused 0 b_off b else Some b);
           let llen := Blob.logical_length b in
           b ← (if b_end <? llen then Blob.add_unused b_end (llen -64 b_end) b else Some b);
           Blob.mark_used b_off (wi_length0 wi) b) s
       else Some s);
  '(_, blobs, m, _) ← set_lextent (u32 (wi_logical_offset wi)) (u32 (wi_b_off0 wi)) (u32 (wi_length0 wi)) (wi_b wi) 0 (B s) (em s) None;
  let s := set_em m (old_extents s) (set_B blobs s) in
  s ← buffer_cache_write (wi_b wi) (wi_b_off0 wi) (wi_bl wi) (cache_flags s) s;
  s ← (if 0 <? zlen (wi_bl wi) then
         b ← get_blob (wi_b wi) s;
         let phys_off := blob_to_phys b (wi_b_off wi) in
         Some (if zlen (wi_bl wi) <? prefer_deferred_size cfg then add_deferred [pextent phys_off (zlen (wi_bl wi))] (wi_bl wi) s
               else set_out (deferred_ops s) (aio_writes s ++ [(phys_off, wi_bl wi)]) s)
       else Some s);
  Some (prealloc, s).

Fixpoint alloc_write_loop (l : list write_item) (prealloc : list pextent_t) (s : io) : option io :=
  match l with [] => Some s | wi :: t => '(prealloc, s) ← alloc_write_one wi prealloc s; alloc_write_loop t prealloc s end.

Definition do_alloc_write (s : io) : option (Z * io) :=
  match writes s with
  | [] => Some (0, s)
  | _ =>
      need ← alloc_need (writes s) s;
      match (if 0 <? need then allocate need min_alloc_size else Some []) with
      | None => Some (- ENOSPC, s)
      | Some prealloc => s ← alloc_write_loop (writes s) prealloc s; Some (0, s)
      end
  end.

(** ** Writing *)

Definition do_write_data (offset len : Z) (bl : bytes) (s : io) : option io :=
  let e := offset +64 len in
  if negb (len =? min_alloc_size) && (offset / min_alloc_size =? (e -64 1) / min_alloc_size) then do_write_small offset len bl s
  else
    let head_len := (min_alloc_size -64 offset mod min_alloc_size) mod min_alloc_size in
    let tail_len := e mod min_alloc_size in
    let mid_off := offset +64 head_len in
    let mid_len := len -64 head_len -64 tail_len in
    s ← (if 0 <? head_len then d ← Deferred.substr_of bl 0 head_len; do_write_small offset head_len d s else Some s);
    s ← (if 0 <? mid_len then do_write_big mid_off mid_len bl head_len s else Some s);
    if 0 <? tail_len then d ← Deferred.substr_of bl (head_len +64 mid_len) tail_len; do_write_small (e -64 tail_len) tail_len d s else Some s.

Definition do_write (offset len : Z) (bl : bytes) (s : io) : option (Z * io) :=
  if len =? 0 then Some (0, s)
  else
    let s := choose_write_options s in
    s ← do_write_data offset len bl s;
    '(r, s) ← do_alloc_write s;
    if r <? 0 then Some (r, s)
    else
      s ← wctx_finish (old_extents s) s;
      let e := offset +64 len in
      let s := if osize s <? e then set_osize e s else s in
      '(_, m) ← compress_extent_map offset len (B s) (em s);
      Some (0, set_em m (old_extents s) s).
End Store.
End ObjectIO.
