(* ===== verification/ObjectRead.v ===== *)
(** * Reading an object returns its bytes

    The byte [y] of an object is the byte of the disk that its extents and blobs lead
    to, and zero where nothing is mapped.  [do_read] returns it, from the cache or from
    the device, as long as the extents of a blob are one range of the disk, or it
    reports the error of the device or of a checksum.  What happens otherwise, and where the write path goes wrong, is shown by
    [ObjectFindings]. *)
From stdpp Require Import base numbers list gmap.
From Stdlib Require Import ZArith Lia ZifyBool.
From S2P Require Import Prelude IntArith IntervalSet Allocator UseTracker Blob Lextent LextentSpec Deferred DeferredSpec BufferCache BufferCacheSpec ObjectIO.
Import Allocator Lextent LextentSpec ObjectIO.

Module ObjectRead.
Local Open Scope Z_scope.
Abbreviation zlen l := (Z.of_nat (List.length l)).

(** ** Chunks *)

Lemma align_down x k : 0 <= k < 64 -> 0 <= x < 2 ^ 64 -> Z.land x (not64 (2 ^ k -64 1)) = x - x mod 2 ^ k.
Proof.
  intros Hk Hx. pose proof (Z.pow_pos_nonneg 2 k ltac:(lia) ltac:(lia)). assert (2 ^ k < 2 ^ 64) by (apply Z.pow_lt_mono_r; lia). rewrite (u64_small (2 ^ k - 1)) by lia. unfold not64. replace (Z.lnot (2 ^ k - 1)) with (- 2 ^ k) by (unfold Z.lnot; lia).
  change (Z.land x (u64 (- 2 ^ k))) with (IntArith.p2align 64 x (2 ^ k)). rewrite IntArith.p2align_spec by (done || lia). pose proof (Z.div_mod x (2 ^ k) ltac:(lia)). lia.
Qed.

Section Read.
Context (cfg : BlueStoreConfig) (bdev_read : Z -> Z -> Z * bytes) (Bs : blobs) (m : extent_map).
(** The bytes of the disk, and where the blobs begin on it. *)
Context (disk : Z -> Z) (base : BlobRef -> Z).
Abbreviation block_size := (block_size_ cfg).

(** The device returns what is on the disk, or an error. *)
Context (device_reads : forall p n, 0 <= n -> (bdev_read p n).1 < 0 \/ bdev_read p n = (n, disk <$> seqZ p n)).
Context (map_wf : wf 0 m).

(** The blob is one range of the disk; it has the bytes the object maps to, in chunks of a
    power of two; its checksums, if any, can be checked, with any result. *)
Record blob_reads (b : BlobRef) (x : Blob.bluestore_blob_t) : Prop := {
  br_range : forall y, 0 <= y < Blob.logical_length x -> blob_to_phys x y = base b + y;
  br_mapped : forall y r, find m y = Some (b, r) -> r < Blob.logical_length x;
  br_small : 0 <= Blob.logical_length x < 2 ^ 32;
  br_chunk : exists k, 0 <= k < 32 /\ Blob.get_chunk_size block_size x = 2 ^ k;
  br_csum : Blob.has_csum x = true -> forall start n, 0 <= start -> 0 < n -> start + n <= Blob.logical_length x -> start mod Blob.get_chunk_size block_size x = 0 ->
    is_Some (Blob.verify_csum start (disk <$> seqZ (base b + start) n) block_size x);
}.
Context (blobs_read : forall y b r, find m y = Some (b, r) -> exists x, Bs !! b = Some x /\ blob_reads b (Blob.blob_ x)).

(** The cache holds nothing else. *)
Definition truth (b : BlobRef) (y : Z) : Z := disk (base b + y).
Definition coherent (c : BufferCache.world) : Prop := exists T, BufferCacheSpec.inv T c /\ forall b y v, T b y = Some v -> v = truth b y.

Lemma coherent_store T b start n c : BufferCacheSpec.inv (BufferCacheSpec.store b start (disk <$> seqZ (base b + start) n) T) c -> (forall b y v, T b y = Some v -> v = truth b y) -> coherent c.
Proof.
  intros Hi HT. eexists. split; [exact Hi|]. intros b' y v. unfold BufferCacheSpec.store. destruct (bool_decide (b' = b) && (start <=? y) && (y <? start + _)) eqn:E; [|apply HT]. zbool. apply bool_decide_eq_true in H. subst b'. rewrite list_lookup_fmap. rewrite length_fmap, length_seqZ in *. rewrite lookup_seqZ_lt by lia. intros [= <-]. unfold truth. f_equal. lia.
Qed.

(** What a read may fail with: the result of the device, or [-EIO] for bytes of
    the disk that do not have the checksums of their blob. *)
Definition read_error (r : Z) : Prop :=
  r < 0 /\ ((exists p n, 0 <= n /\ r = (bdev_read p n).1) \/
    r = - EIO /\ exists b x start n bad, Bs !! b = Some x /\ Blob.has_csum (Blob.blob_ x) = true /\ 0 <= bad /\
      Blob.verify_csum start (disk <$> seqZ (base b + start) n) block_size (Blob.blob_ x) = Some bad).

Lemma read_chunks_ok b x start n c : Bs !! b = Some x -> blob_reads b (Blob.blob_ x) -> 0 <= start -> 0 < n -> start + n <= Blob.logical_length (Blob.blob_ x) -> start mod Blob.get_chunk_size block_size (Blob.blob_ x) = 0 -> coherent c ->
  exists r d c', read_chunks cfg bdev_read b start n (Blob.blob_ x) c = Some (r, d, c') /\ coherent c' /\ (read_error r \/ 0 <= r /\ d = truth b <$> seqZ start n).
Proof using device_reads.
  intros HB [H1 H2 H3 H4 H5] Hs Hn He Hm (T & Hi & HT). unfold read_chunks. rewrite !u32_small by lia. destruct (BufferCacheSpec.read_ok T b start n c Hi Hs ltac:(lia) ltac:(lia)) as (hit & c1 & -> & Hi1 & Hhit). bind. assert (disk <$> seqZ (base b + start) n = truth b <$> seqZ start n) as Ed.
  { apply list_eq. intros i. rewrite !list_lookup_fmap. destruct (decide (Z.of_nat i < n)); [rewrite !lookup_seqZ_lt by lia; cbn; unfold truth; do 2 f_equal; lia|rewrite !lookup_seqZ_ge by lia; done]. }
  destruct hit as [d|].
  - destruct (Hhit d eq_refl) as [Hl Hd]. exists 0, d, c1. split; [done|]. split; [by exists T|]. right. split; [lia|]. apply list_eq. intros i. rewrite list_lookup_fmap. destruct (decide (Z.of_nat i < n)).
    + rewrite lookup_seqZ_lt by lia. cbn. destruct (lookup_lt_is_Some_2 d i ltac:(lia)) as [v Hv]. rewrite Hv. f_equal. apply HT. rewrite <- Hd by lia. by rewrite Nat2Z.id.
    + rewrite lookup_seqZ_ge by lia. apply lookup_ge_None. lia.
  - rewrite H1 by lia. destruct (device_reads (base b + start) n ltac:(lia)) as [Hf|Er].
    { destruct (bdev_read (base b + start) n) as [r raw] eqn:Er. cbn [fst] in Hf. rewrite (proj2 (Z.ltb_lt r 0)) by done. exists r, [], c1. split; [done|]. split; [by exists T|]. left. split; [done|]. left. exists (base b + start), n. rewrite Er. split; [lia|done]. }
    rewrite Er, (proj2 (Z.ltb_ge n 0)) by lia.
    assert (exists bad, (if Blob.has_csum (Blob.blob_ x) then Blob.verify_csum start (disk <$> seqZ (base b + start) n) block_size (Blob.blob_ x) else Some (- 1)) = Some bad /\ (0 <= bad -> read_error (- EIO))) as (bad & -> & Hbad).
    { destruct (Blob.has_csum (Blob.blob_ x)) eqn:Ecs; [|by exists (- 1)]. destruct (H5 eq_refl start n Hs Hn He Hm) as [bad Eb]. exists bad. split; [done|]. intros. split; [done|]. right. split; [done|]. by exists b, x, start, n, bad. }
    bind. destruct (Z.leb_spec 0 bad). { exists (- EIO), [], c1. split; [done|]. split; [by exists T|]. left. by apply Hbad. }
    assert (zlen (disk <$> seqZ (base b + start) n) = n) as Hl by (rewrite length_fmap, length_seqZ; lia). destruct (BufferCacheSpec.did_read_ok T b start (disk <$> seqZ (base b + start) n) c1 Hi1 Hs ltac:(lia) ltac:(lia)) as (c2 & -> & Hi2). bind. exists 0, (disk <$> seqZ (base b + start) n), c2. split; [done|]. split; [by eapply coherent_store|]. right. split; [lia|done].
Qed.

(** The chunks around a part of the blob. *)
Lemma chunk_range_ok b x o n : blob_reads b x -> 0 <= o -> 0 < n -> o + n <= Blob.logical_length x ->
  exists start len, chunk_range cfg x o n = (start, o - start, len) /\ 0 <= start <= o /\ o + n <= start + len /\ start + len <= Blob.logical_length x /\ start mod Blob.get_chunk_size block_size x = 0.
Proof.
  intros [_ _ H3 (k & Hk & Ek) _] Ho Hn He. unfold chunk_range. rewrite Ek. set (C := 2 ^ k). assert (0 < C) as HC by (apply Z.pow_pos_nonneg; lia). assert (C <= 2 ^ 31) as HC' by (apply Z.pow_le_mono_r; lia). pose proof (Z.mod_pos_bound o C HC) as Hmo. pose proof (Z.div_mod o C ltac:(lia)) as Hdo. assert (forall z, 0 <= z < 2 ^ 64 -> Z.land z (not64 (C -64 1)) = z - z mod C) as HA by (intros; unfold C; by apply align_down; lia). rewrite (HA o) by lia. set (start := o - o mod C). assert (0 <= start <= o) as Hst by (unfold start; pose proof (Z.mod_le o C Ho HC); lia).
  rewrite (u64_small (o - start)), (u64_small (o - start + n)), (u64_small (o - start + n + C)), (u64_small (o - start + n + C - 1)) by lia. set (z := o - start + n + C - 1). rewrite (HA z) by lia. pose proof (Z.mod_pos_bound z C HC). rewrite (u64_small (start + _)) by lia.
  assert (start mod C = 0) as Hal by (unfold start; rewrite Zminus_mod_idemp_r, Z.sub_diag; apply Z.mod_0_l; lia). destruct (Z.ltb_spec (Blob.logical_length x) (start + (z - z mod C))).
  - rewrite (u64_small (Blob.logical_length x - start)) by lia. do 2 eexists. split; [reflexivity|]. split_and!; (done || lia).
  - do 2 eexists. split; [reflexivity|]. split_and!; (done || (unfold z in *; lia)).
Qed.

(** ** The object *)

Definition obj_byte (y : Z) : Z := match find m y with Some (b, r) => truth b r | None => 0 end.

Lemma obj_split a b c : a <= b <= c -> obj_byte <$> seqZ a (c - a) = (obj_byte <$> seqZ a (b - a)) ++ (obj_byte <$> seqZ b (c - b)).
Proof. intros. rewrite <- fmap_app. f_equal. replace (c - a) with ((b - a) + (c - b)) by lia. rewrite seqZ_app by lia. do 2 f_equal. lia. Qed.

(** Nothing is mapped in front of the position of the loop. *)
Lemma find_before l y : Forall (fun x => lend x <= y) l -> find l y = None.
Proof. induction 1 as [|x l Hx _ IH]; [done|]. cbn [find]. unfold find1. unfold lend in Hx. rewrite (proj2 (Z.ltb_ge y _)) by lia. by rewrite andb_false_r. Qed.

Lemma find_hole it pos y : Forall (fun x => lend x <= pos) (take it m) -> pos <= y -> (forall x, m !! it = Some x -> y < logical_offset x) -> find m y = None.
Proof using map_wf.
  intros Hb Hy Hx. rewrite <- (take_drop it m). rewrite find_app, find_before by (eapply Forall_impl; [exact Hb|]; cbv beta; intros; lia). destruct (m !! it) as [x|] eqn:E; [|by rewrite drop_ge by (by apply lookup_ge_None)]. rewrite (drop_S _ _ _ E). rewrite <- (take_drop_middle m it x E) in map_wf. apply wf_app in map_wf as [_ (_ & H2 & H3)]. apply (find_none_below (logical_offset x)); [|by apply Hx]. cbn [wf]. split_and!; (done || lia).
Qed.

Lemma find_here it pos x y : m !! it = Some x -> Forall (fun x => lend x <= pos) (take it m) -> pos <= y -> logical_offset x <= y < lend x -> find m y = Some (blob x, blob_offset x + (y - logical_offset x)).
Proof.
  intros E Hb Hpos Hy. rewrite <- (take_drop_middle m it x E). rewrite find_app, find_before by (eapply Forall_impl; [exact Hb|]; cbv beta; intros; lia). cbn [find]. unfold find1, lend in *. by rewrite (proj2 (Z.leb_le _ _)), (proj2 (Z.ltb_lt _ _)) by lia.
Qed.

Section Loop.
Context (off len : Z) (off_ok : 0 <= off) (len_ok : 0 < len < 2 ^ 31) (end_ok : off + len < 2 ^ 63).

Record read_inv (s : Z * nat * bytes * BufferCache.world) : Prop := {
  ri_pos : off <= s.1.1.1 <= off + len;
  ri_it : (s.1.1.2 <= List.length m)%nat;
  ri_before : s.1.1.1 < off + len -> Forall (fun x => lend x <= s.1.1.1) (take s.1.1.2 m);
  ri_data : s.1.2 = obj_byte <$> seqZ off (s.1.1.1 - off);
  ri_cache : coherent s.2;
}.
Definition read_measure (s : Z * nat * bytes * BufferCache.world) : Z := off + len - s.1.1.1 + (zlen m - Z.of_nat s.1.1.2).
Definition read_done (r : Z * bytes * BufferCache.world) : Prop := coherent r.2 /\ (r.1 = (len, obj_byte <$> seqZ off len) \/ read_error r.1.1).

(** A hole up to [e']. *)
Lemma read_hole pos it bl c e' : read_inv (pos, it, bl, c) -> pos < off + len -> pos < e' < 2 ^ 63 -> (forall x, m !! it = Some x -> e' <= logical_offset x) ->
  let n := Z.min (e' -64 pos) (off + len -64 pos) in
  read_inv (pos +64 n, it, bl ++ zeros n, c) /\ 0 <= read_measure (pos +64 n, it, bl ++ zeros n, c) < read_measure (pos, it, bl, c).
Proof using map_wf off_ok len_ok end_ok.
  intros [Hp Hi Hb Hd Hc] Hlt He' Hx n. cbn [fst snd] in *. specialize (Hb Hlt). unfold n. rewrite (u64_small (e' - pos)), (u64_small (off + len - pos)) by lia. set (k := Z.min _ _). assert (0 < k <= off + len - pos /\ pos + k <= e') as [Hk Hk'] by (unfold k; lia). rewrite (u64_small (pos + k)), (u32_small k) by lia. split; [constructor; cbn [fst snd]; try done; try lia|unfold read_measure; cbn [fst snd]; lia].
  - intros _. eapply Forall_impl; [exact Hb|]. cbv beta. intros; lia.
  - rewrite Hd. replace (pos + k - off) with (pos + k - off) by done. rewrite (obj_split off pos (pos + k)) by lia. f_equal. replace (pos + k - pos) with k by lia. apply list_eq. intros i. rewrite list_lookup_fmap. destruct (decide (Z.of_nat i < k)); [|rewrite lookup_seqZ_ge by lia; apply lookup_ge_None; rewrite length_replicate; lia].
    rewrite lookup_seqZ_lt, lookup_replicate_2 by lia. cbn. unfold obj_byte. rewrite (find_hole it pos) by (done || lia || (intros x E; specialize (Hx x E); lia)). done.
Qed.

Lemma read_step_ok s : read_inv s -> exists r, read_step cfg bdev_read Bs m (off + len) s = Some r /\ match r with inl s' => read_inv s' /\ 0 <= read_measure s' < read_measure s | inr r => read_done r end.
Proof using device_reads map_wf blobs_read off_ok len_ok end_ok.
  destruct s as [[[pos it] bl] c]. intros Hi. pose proof Hi as [Hp Hit Hb Hd Hc]. cbn [fst snd] in *. cbn [read_step]. destruct (Z.ltb_spec pos (off + len)) as [Hlt|Hge]; cbn [negb].
  2:{ eexists. split; [reflexivity|]. assert (pos - off = len) as E by lia. rewrite E in Hd. split; [done|]. left. cbn [fst]. f_equal; [rewrite Hd, length_fmap, length_seqZ; lia|done]. }
  specialize (Hb Hlt). destruct (m !! it) as [x|] eqn:Ex; [|eexists; split; [reflexivity|]; apply (read_hole pos it bl c (off + len)); [done|done|lia|intros ? E; congruence]].
  pose proof map_wf as Hmid. rewrite <- (take_drop_middle m it x Ex) in Hmid. apply wf_mid in Hmid as (H0 & Hok & _); [|lia]. pose proof Hok as (Hl & Hle & Hbo & Hbe). unfold lend in Hle. destruct (Z.ltb_spec pos (logical_offset x)).
  { eexists. split; [reflexivity|]. apply read_hole; [done|done|lia|]. intros y Ey. rewrite Ex in Ey. injection Ey as <-. lia. }
  rewrite (u64_small (logical_offset x + _)) by lia. pose proof (lookup_lt_Some _ _ _ Ex) as Hlen. destruct (Z.leb_spec (logical_offset x + Lextent.length x) pos).
  { eexists. split; [reflexivity|]. split; [|unfold read_measure; cbn [fst snd]; lia]. constructor; cbn [fst snd]; try done. intros _. rewrite (take_S_r _ _ x Ex). apply Forall_app. split; [done|]. by apply Forall_singleton. }
  rewrite Z.max_l by lia. set (re := Z.min (off + len) (logical_offset x + Lextent.length x)). assert (pos < re <= off + len /\ re <= logical_offset x + Lextent.length x) as [Hre Hre'] by (unfold re; lia). rewrite (u64_small (re - pos)), (u64_small (pos - logical_offset x)), (u64_small (blob_offset x + _)) by lia. set (bo := blob_offset x + (pos - logical_offset x)).
  assert (forall y, pos <= y < re -> find m y = Some (blob x, bo + (y - pos))) as Hfind. { intros y Hy. rewrite (find_here it pos x y Ex Hb) by (unfold lend; lia). do 2 f_equal. unfold bo. lia. }
  destruct (blobs_read pos _ _ (Hfind pos ltac:(lia))) as (b & HB & Hbr). rewrite HB. bind. pose proof (br_mapped _ _ Hbr _ _ (Hfind (re - 1) ltac:(lia))) as Hend. destruct (chunk_range_ok (blob x) (Blob.blob_ b) bo (re - pos) Hbr ltac:(unfold bo; lia) ltac:(lia) ltac:(lia)) as (start & n & -> & Hst & Hn & Hn' & Hal).
  destruct (read_chunks_ok (blob x) b start n c HB Hbr ltac:(lia) ltac:(lia) ltac:(lia) Hal Hc) as (r & d & c' & -> & Hc' & [Hr|[Hr ->]]); bind.
  { rewrite (proj2 (Z.ltb_lt r 0)) by apply Hr. eexists. split; [reflexivity|]. split; [done|]. by right. }
  rewrite (proj2 (Z.ltb_ge r 0)) by lia. pose proof (br_small _ _ Hbr) as Hsm. rewrite DeferredSpec.substr_ok by (rewrite ?length_fmap, ?length_seqZ; lia). bind. eexists. split; [reflexivity|]. split; [|unfold read_measure; cbn [fst snd]; lia]. constructor; cbn [fst snd]; try done; try lia.
  - intros Hmore. rewrite (take_S_r _ _ x Ex). apply Forall_app. split; [eapply Forall_impl; [exact Hb|]; cbv beta; intros; lia|]. apply Forall_singleton. unfold re, lend in *. lia.
  - rewrite Hd, (obj_split off pos re) by lia. f_equal. apply list_eq. intros i. rewrite list_lookup_fmap. destruct (decide (Z.of_nat i < re - pos)).
    + rewrite lookup_take_lt, lookup_drop, list_lookup_fmap by lia. rewrite !lookup_seqZ_lt by lia. cbn. f_equal. unfold obj_byte. rewrite Hfind by lia. f_equal. lia.
    + rewrite lookup_seqZ_ge by lia. apply lookup_ge_None. rewrite length_take. lia.
Qed.
End Loop.

(** C11: a read returns the bytes of the object or an error, and never other bytes.
    The map is well-formed; every blob the object uses is one range of the disk, has the
    bytes that are mapped, a chunk size that is a power of two and checksums that can be
    evaluated; the cache holds nothing but what is on the disk; the range is not empty,
    shorter than 2 GiB and ends below 2^63.  The device may fail at any read, and the
    bytes on the disk may be damaged.  Then the read ends; it returns the length and, for
    each byte, the byte of the disk it is mapped to, or zero in a hole; or it returns the
    error of the device, or [-EIO] for a blob with bytes on the disk that do not have
    its checksums.  Either way the cache still holds nothing but what is on the disk. *)
Theorem do_read_exact off len c : 0 <= off -> 0 < len < 2 ^ 31 -> off + len < 2 ^ 63 -> coherent c ->
  exists r bl c', do_read cfg bdev_read Bs m off len c = Some (r, bl, c') /\ coherent c' /\
    (r = len /\ bl = obj_byte <$> seqZ off len \/ read_error r).
Proof using device_reads map_wf blobs_read.
  intros Ho Hl He Hc. unfold do_read. rewrite u64_small by lia. fold (start_at off m). destruct (start_at_spec off m map_wf ltac:(lia)) as [Hs1 Hs2].
  destruct (whileM_spec (read_step cfg bdev_read Bs m (off + len)) (read_inv off len) (read_measure off len) (read_done off len) 64 (off, start_at off m, [], c)) as ([[r d] c'] & E & Hc' & Hr).
  - by apply read_step_ok.
  - constructor; cbn [fst snd]; try done; [lia|]. by rewrite Z.sub_diag.
  - pose proof (wf_length 0 m ltac:(lia) map_wf ltac:(lia)). unfold read_measure. cbn [fst snd]. change (2 ^ Z.of_nat 64) with (2 ^ 64). lia.
  - cbn [fst snd] in *. exists r, d, c'. split_and!; [done..|]. destruct Hr as [[= -> ->]|Hr]; [by left|by right].
Qed.
End Read.

(** An object with a hole in front of an extent of a blob. *)
Definition demo_cfg : BlueStoreConfig := mk_config 4096 65536 262144 65536 Blob.CSUM_NONE.
Definition demo_disk (a : Z) : Z := a mod 251.
Definition demo_dev (p n : Z) : Z * bytes := (n, demo_disk <$> seqZ p n).
Definition demo_extents : extent_map := [mk_Extent 100 50 1000 0%nat].
Definition demo_blobs : blobs := {[0%nat := Blob.mk_Blob (- 1) (Blob.mk_blob [pextent 8192 8192] 8192 0 Blob.CSUM_NONE 0 [] 0) UseTracker.tracker_new]}.

Lemma do_read_exact_witness : exists c', do_read demo_cfg demo_dev demo_blobs demo_extents 97 6 (BufferCache.cache_new 1048576) = Some (6, [0; 0; 0; 8242 mod 251; 8243 mod 251; 8244 mod 251], c').
Proof.
  assert (wf 0 demo_extents) as Hwf by (cbn; unfold extent_ok, lend; cbn; lia). assert (forall y b r, find demo_extents y = Some (b, r) -> b = 0%nat /\ 50 <= r < 1050) as Hf. { intros y b r. unfold demo_extents. cbn [find]. unfold find1. cbn [logical_offset Lextent.length blob blob_offset]. destruct ((100 <=? y) && (y <? 100 + 1000)) eqn:E; [|by intros [=]]. zbool. intros [= <- <-]. lia. }
  assert (forall y b r, find demo_extents y = Some (b, r) -> exists x, demo_blobs !! b = Some x /\ blob_reads demo_cfg demo_extents demo_disk (fun _ => 8192) b (Blob.blob_ x)) as Hb.
  { intros y b r E. destruct (Hf _ _ _ E) as [-> _]. eexists. split; [apply lookup_singleton_eq|]. constructor; cbn [Blob.blob_ Blob.logical_length]; [| |lia|exists 12; split; [lia|reflexivity]|intros E'; vm_compute in E'; discriminate E'].
    - intros z Hz. change (blob_to_phys _ z) with (if (0 <=? z) && (z <? 0 +64 8192) then 8192 +64 (z -64 0) else 0). rewrite (u64_small (0 + 8192)), (proj2 (Z.leb_le 0 z)), (proj2 (Z.ltb_lt z _)) by lia. cbn [andb]. rewrite (u64_small (z - 0)), u64_small by lia. lia.
    - intros y' r' E'. destruct (Hf _ _ _ E'). lia. }
  destruct (do_read_exact demo_cfg demo_dev demo_blobs demo_extents demo_disk (fun _ => 8192) ltac:(intros; by right) Hwf Hb 97 6 (BufferCache.cache_new 1048576) ltac:(lia) ltac:(lia) ltac:(lia)) as (r & bl & c' & E & _ & Hr); [exists (fun _ _ => None); split; [apply BufferCacheSpec.inv_init|done]|].
  destruct Hr as [[-> ->]|[Hneg [(p & n & Hn & ->)|(_ & b & x & start & n & bad & HB & Hcs & _)]]].
  - exists c'. rewrite E. reflexivity.
  - cbn in Hneg. lia.
  - unfold demo_blobs in HB. apply lookup_singleton_Some in HB as [_ <-]. vm_compute in Hcs. discriminate Hcs.
Defined.
End ObjectRead.
