(* ===== verification/ObjectFindings.v ===== *)
(** * Where the object store goes wrong

    Runs of the read and write path with blocks of 16 bytes, units of 64 bytes and
    blobs of at most 256 bytes. *)
From stdpp Require Import base numbers list gmap.
From Stdlib Require Import ZArith Lia.
From S2P Require Import Prelude IntervalSet Allocator UseTracker Blob Lextent Deferred BufferCache ObjectIO.
Import Allocator Lextent ObjectIO.

Module ObjectFindings.
Local Open Scope Z_scope.

Definition cfg : BlueStoreConfig := mk_config 16 64 256 64 Blob.CSUM_CRC32C.
Definition empty : io := mk_state ∅ 0 (BufferCache.cache_new 100000) [] 0 1 IntervalSet.empty_set IntervalSet.empty_set [] [] ∅ true 0 0 [] [].
Definition dev (disk : bytes) (off len : Z) : Z * bytes := (len, take (Z.to_nat len) (drop (Z.to_nat off) disk)).
Definition blank : bytes := replicate 4096 0.
Definition create (n : Z) : bytes := replicate (Z.to_nat n) 0.
Definition space (l : list pextent_t) (want unit : Z) : option (list pextent_t) := Some l.

(** A write of 40 bytes to the offset 5 of a new object. *)
Definition written : option (Z * io) := do_write cfg (dev blank) (space [pextent 1024 64]) create 5 40 (seqZ 100 40) empty.

(** The padded data of a small write begins at the start of its block, but it is put into
    the cache at the offset of the write: a read returns bytes from before the ones it
    asks for.  The bytes 20 to 29 are 115 to 124. *)
Theorem cached_write_is_shifted : (x ← written; y ← read cfg (dev blank) 20 10 x.2; Some y.1) = Some (10, seqZ 110 10) /\ take 10 (drop 15 (seqZ 100 40)) = seqZ 115 10.
Proof. split; vm_compute; reflexivity. Qed.

(** The data of a blob whose space is in two parts is written as one range from the start
    of the first part: what follows that part is not space of the object. *)
Theorem fragmented_write_overruns :
  (x ← do_write cfg (dev blank) (space [pextent 1024 64; pextent 2048 64]) create 0 128 (seqZ 1 128) empty; Some (x.1, aio_writes x.2, IntervalSet.m_ (txc_allocated x.2)))
    = Some (0, [(1024, seqZ 1 128)], [(1024, 64); (2048, 64)]).
Proof. vm_compute. reflexivity. Qed.

(** A write that finds no space has already punched out the data it was to replace. *)
Theorem failed_write_loses_data :
  (x ← do_write cfg (dev blank) (space [pextent 1024 64]) create 0 64 (seqZ 1 64) empty; y ← do_write cfg (dev blank) (fun _ _ => None) create 0 64 (seqZ 5 64) x.2; Some (em x.2, y.1, em y.2))
    = Some ([mk_Extent 0 0 64 0%nat], - ENOSPC, []).
Proof. vm_compute. reflexivity. Qed.

(** A write of three bytes inside the 40 reads and modifies a block of the extent it was
    found by, and follows the iterator of that extent after [set_lextent] erased it. *)
Theorem overwrite_is_undefined : (x ← written; do_write cfg (dev blank) (space [pextent 2048 64]) create 7 3 [1; 2; 3] x.2) = None.
Proof. vm_compute. reflexivity. Qed.
End ObjectFindings.
